(* ===== verification/_CoqProject ===== *)
-Q . S2P
Prelude.v
Memory.v
Virtio.v
Buffers.v
Console.v
Vsock.v
NetPacket.v
Str.v
Wildmatch.v
Http.v
NetStack.v
FuseProto.v
FsDevice.v
Cpio.v
ImageFs.v
Json.v
SshAgent.v
Serial.v
SerialSession.v
DeviceTree.v
Machine.v
HostFn.v
Log.v
Zip.v
Agent.v
Addons.v
Intercept.v
ModuleInfo.v
Dylink.v
DylinkThreads.v
User.v
ProgramCache.v
Lz4Block.v
Lz4Fast.v
Lz4Frame.v
Lz4FrameProofs.v
XzIndex.v
Protocol.v
Float.v
JqValue.v
JqReader.v
JqOrder.v
JqFloat.v
JqProofs.v
JqRoundtrip.v
JqStream.v
