(* ===== verification/Prelude.v ===== *)
(** * CollaboCore engine: a verification library

    CollaboCore runs a Linux kernel compiled to WebAssembly as a sandbox.  The engine
    (engine/src/) boots the kernel, plays the devices of its virtual machine and is the only way
    from the guest to the host: files, network, HTTP requests, streams.  What the guest hands over
    (descriptor rings, packets, requests, names) is not trusted, and most of the engine is code that
    reads it.  This library models that code and proves what it promises.

    ** The parts, and where they are

    - [Prelude] (this file): machine integers with their wrap-around, results, byte order, slices,
      and the tactics and hints of the library.
    - [Memory]: the guest's memory as the list of its bytes and the checked accesses to it
      (engine/src/machine.rs [guest_bytes], [read_memory], [write_memory]; engine/src/virtio.rs
      [write_u16], [write_u32], [write_bytes]).
    - [Virtio]: packed virtqueues and device slots (engine/src/virtio.rs).  A [Queue] has the two
      cursors and wrap counters of the source; [pop] takes a request, [release] completes it.  The
      class [Device] is the source's trait, [DeviceLaws] what the transport needs of a device, and
      [Connected] a slot with the calls the machine makes on it, as a step relation.
    - [Buffers]: what the devices share: spreading bytes over a chain's writable buffers.
    - [Console]: the console device (engine/src/console.rs).
    - [Vsock]: streams between host and guest (engine/src/vsock.rs): packets, credit, the registry of
      connections, the port search, blocking reads and writes as turns between which anything may
      happen.
    - [NetPacket]: Ethernet, IPv4, ICMP, UDP and TCP encoders and parsers (engine/src/net.rs,
      engine/src/icmp.rs).
    - [Str]: Rust strings as lists of bytes: searching, splitting, numbers, UTF-8.
    - [Http]: the guest's HTTP request API, the network policy and the secrets (engine/src/http.rs).
    - [NetStack]: the user-mode TCP/IP gateway and its device (engine/src/net.rs): the handlers of
      guest frames, the DNS answers, TCP connections with the threads that ask, connect and read as
      steps of a relation with arbitrary outcomes.
    - [FuseProto]: the FUSE protocol of virtio-fs (engine/src/fs.rs): reading requests, building
      replies, serving a queue for any [Server].
    - [FsDevice]: a host folder shared with the guest (engine/src/fs.rs [FsDevice]): nodes, handles
      and every request, as a state monad over the device, the host ([HostFs]) and the log of host
      calls.
    - [Cpio]: newc archives, read (engine/src/image_fs.rs [entries]) and written
      (engine/src/protocol.rs [cpio_overlay]).
    - [ImageFs]: the boot images merged into a tree and served read-only (engine/src/image_fs.rs).
    - [Json]: serde_json's values and accessors.
    - [SshAgent]: the host's ssh-agent lent to the guest (engine/src/sshagent.rs): the threads of the guest's
      connections take turns over the shared policy and answers.
    - [Serial], [SerialSession]: the host's serial ports: patterns, policy, line settings, frames, and a
      session as a state monad over the host's ports (engine/src/serial.rs).
    - [DeviceTree]: the flattened device tree (engine/src/devicetree.rs), with a reader of the format.
    - [Machine]: the calls the kernel makes, interrupts, the loop over the machine's requests, the boot
      tree and the section table (engine/src/machine.rs, engine/src/module_info.rs).
    - [HostFn]: the guest's calls to the app and programs run on the host (engine/src/hostfn.rs).
    - [Log]: log lines and files (engine/src/log.rs).
    - [Zip]: a folder exported as a stored archive (engine/src/zip.rs), with a reader of the format.
    - [Agent]: a command run through the guest's agent (engine/src/agent.rs), with the way the agent reads it
      (userspace/rootfs/collabo-agentd.c: frames up to their limit, C strings).
    - [Addons]: add-ons resolved to images, settings and secrets (engine/src/addons.rs).
    - [Intercept]: keys for the guest's own TLS connections (engine/src/intercept.rs).
    - [ModuleInfo], [Dylink], [DylinkThreads]: shared libraries of guest programs (engine/src/module_info.rs,
      engine/src/dylink.rs): the dylink.0 section, linking, the log every thread of a process replays.
    - [User]: what the engine does around guest programs (engine/src/user.rs): compiling what the kernel
      streams, copies, futex words, system calls, signals, ticks, exec and whose errors are whose.
    - [ProgramCache]: compiled programs on disk (engine/src/program_cache.rs).
    - [Protocol]: the requests of the app (engine/src/protocol.rs): start, exec, files, policies, answers,
      export.
    - [Lz4Block], [Lz4Fast]: LZ4 blocks of the guest's archivers (tools/rust/archive/src/lz4/block.rs): the
      decoder beside the format's sequences ([Sequence], [meaning]), and the fast compressor.
    - [Lz4Frame], [Lz4FrameProofs]: LZ4 frames (tools/rust/archive/src/lz4/frame.rs): the encoder and the
      streaming decoder, a state machine whose turns are the source's stages, and what each turn does
      with a frame.
    - [XzIndex]: the index of .xz files for xz --list (tools/rust/archive/src/xzindex.rs), beside the format
      written out ([file], [listing]).
    - [Wildmatch]: the path patterns of git-lfs and its filters (tools/rust/git-lfs/src/wildmatch.rs, filter.rs),
      beside the texts and paths they stand for ([fits], [takes]).
    - [Float], [JqValue], [JqReader]: the guest's jq (tools/rust/jq/src/value.rs, json.rs): doubles with their
      decimal text, values with literals kept, their order and printer, and the JSON reader, a state
      machine fed in pieces; [JqOrder], [JqFloat], [JqProofs], [JqRoundtrip] and [JqStream] hold what is proved of
      them.

    The machine calls the devices through [Connected]; [Console], [Vsock], [NetStack], [FsDevice] and
    [ImageFs] are instances of [Device] and of its laws, so [Virtio]'s theorems hold of each, and
    [Machine] holds any list of them.  [FsDevice] and [ImageFs] are instances of [Server] for
    [FuseProto].  [NetStack] asks [Http]'s policy.  [Protocol] plans a machine of those devices, runs
    [Agent]'s commands, exports with [Zip] and keeps the policies of [Http], [SshAgent], [Serial] and
    [HostFn], whose questions its [reply] answers.

    ** What the theorems show

    - [Virtio] (C1-C3): taking a request always ends and consumes exactly the published chain, also
      across the ring's wrap; completing one publishes it and touches nothing else.
    - [Machine] (C4, C14): no calls of the kernel and no requests break a ring's invariant; guest memory
      only grows, within its limit; a machine asked to stop stops.
    - [Console]: input arrives in order and whole ([console_input_arrives]).
    - [HostFn] (C6): a program runs on the host only with the policy's or the app's permission; an answer that
      comes when its call has just given up starts nothing ([late_permission_lost]).
    - [Zip] (C7): an exported folder reads back whole; its dates are the calendar's
      ([civil_from_days_calendar]).
    - [Vsock] (C8, C10): writers stay within the peer's credit and send in order under any
      interleaving ([vsock_write_all_in_order]); the receiving side is a byte queue with exact credit; the
      registry is consistent ([vsock_registry_sound]); closing closes exactly one connection ([vsock_peer_close]); port search is complete
      ([vsock_find_port_complete]).
    - [DylinkThreads] (C13): the threads of a process agree on its libraries as long as no load fails while it
      links (after one that does they need not: [failed_load_desynchronizes]); reading dylink.0 ends
      ([parse_subsections_ends]).
    - [Intercept] (C11): keys go only to the named host the policy lets through, and what the engine adds or
      drops of a request is told apart by its lines' ends; bodies are copied as they are framed
      ([copy_body_exact]).
    - [Protocol] (C15, C22): what is started is well formed whatever the configuration, with mount points read
      as paths are; requests fail cleanly on the engine's side, with what they may leave in the guest; a start
      whose agent does not answer leaves a machine running ([start_again_boots_again]); and base64 reads
      back ([unbase64_base64]).
    - [NetPacket]: segments parse back with valid checksums ([net_tcp_segment_roundtrip]); checksums do not depend on how data
      is split ([net_checksum_parts]), DNS answers and echo replies parse back ([net_answers_valid]).
    - [Log] (C29): files stay within their limit ([log_file_bounded]); lines are bounded and hold no
      control or reordering character, by their code points; a logged command is what a shell takes for its arguments
      ([log_quote_roundtrip]).
    - [User] (C33, C36): ticks that come while the kernel runs change nothing; a program's traps,
      exceptions and exec end it alone and leave the machine's flags as they were, unless the engine fails
      on its behalf: an entry that is not there, a program that cannot be instantiated, the error text's
      buffer ([bad_handler_ends_machine], [bad_program_ends_machine], [bad_buffer_ends_machine]).  An exec
      from a library's constructor does not end the old program ([exec_in_constructor_goes_on]).
    - [ProgramCache]: what is loaded is what compiling gives ([load_or_compile_compiles]), and what is
      deleted is the oldest, no more than needed ([evict_spec]).
    - [Http] (C18, C19): only allowed requests reach the client; secrets go only where they belong, up to the
      request handed to the client, which follows redirects by itself ([redirect_carries_secret]), and
      appear in no error ([http_error_line]); heads are checked ([http_head_checked]).  Framing does not depend on how bytes arrive
      ([http_request_framing]) and bodies decode to what was sent ([http_body_roundtrip]).
    - [Agent] (C23): a command the guest's agent can take whole reaches it as asked (others do not:
      [long_argument_refused], [nul_cuts]) and its output arrives whole and in order; a run never spins
      ([run_ends]).
    - [NetStack] (C25-C27): in-order streams both ways under any interleaving, through the writer thread, whose
      last bytes closing can lose ([closing_discards]); dialled addresses were permitted for the very
      connection; the guest's window is kept ([net_flush_within_window]) and DNS filtered ([net_dns_filtered]).
    - [FuseProto], [FsDevice] (C30-C32): every request is answered under its own number, by the fields of the
      protocol's headers; a share never leaves its folder,
      a read-only one changes nothing; forgetting nodes drops only what nothing refers to
      ([fs_collect_safe]).
    - [Cpio], [ImageFs] (C34, C35): the engine's archives read back; merging any archives never panics
      and makes a well-formed tree; reads and listings of it are exact ([image_read_exact],
      [image_readdir_pages]).
    - [Addons] (C37): an add-on's key stays with the engine, for the host its URL names.
    - [SshAgent] (C38): only what the policy or the app permits reaches the host's agent, over any number of
      connections that share the answers; an answer to a question put before the answers were forgotten is
      remembered after ([forgotten_answer_returns]).
    - [Serial], [SerialSession] (C39): a session opens only what the app shares or allows, asks of
      it only what is within bounds, and closes it.
    - [DeviceTree] (C40): every tree whose names fit is read back, its values in the kernel's byte order.
    - [Lz4Block] (C20): the decoder accepts only what the format gives a meaning, and that is what it
      appends; it reads nothing outside its buffers.
    - [Lz4Fast] (C5): what the fast compressor writes is read back, whatever its tables hold.
    - [Lz4FrameProofs] (C16): a frame is read back as its content, in whatever pieces it is written and read.
    - [XzIndex] (C24): what is listed is what is in the file, unless its sizes wrap ([xz_sizes_wrap]).
    - [Wildmatch] (C21): a filter of ASCII patterns lets through exactly what its patterns say; a bracket with
      another character panics ([bracket_beyond_ascii]).
    - [JqOrder] (C17): jq's order is total on numbers that are all literals in range, where it is exact, and on
      numbers that all go by their doubles; it is not on mixtures ([order_not_total], [range_not_total]).
    - [JqProofs] (C9): the reader says the same however its input arrives.
    - [JqRoundtrip] (C12): what jq prints it reads back; a computed number has the digits Rust promises, the
      shortest that read as it ([JqFloat.shortest], a condition that any number can be checked for).
    - [JqStream] (C28): --stream says the events of the value.

    ** Models, bounds and assumptions

    Guest memory is a list of bytes; the engine reads it while the guest runs, and a model's step
    reads one state of it.  Integers are [Z] with the source's width written where it wraps
    ([u8], [u16], [u32], [u64]: the release profile) or saturates ([sat_sub]).  Loops that are not
    structural have fuel, and the theorems show it suffices: a chain has at most as many descriptors
    as its ring ([Virtio.pop_next]), a queue is drained in at most as many turns as it has slots
    ([Virtio.drain], with [LoopBound] never returned), an archive has fewer entries than bytes
    ([Cpio.entries], [EntriesBound] never returned), dropping nodes takes at most as many turns as
    there are nodes ([FsDevice.collect]), BATCH_FORGET and READ at most as many as the request or
    the reply has bytes ([FsDevice.forget_entries_ends], [FsDevice.read_loop_ends]), a folder is
    collected in as many levels as it has ([Zip.collect_deep_enough]), an agent's run takes at most a
    turn for each byte and event of its connection ([Agent.run_ends], with [CutShort] never returned).  The loops of
    [Lz4Block] and [Lz4Fast] take a byte each turn, and a call of [Lz4Frame.decode] at most ten turns for each
    byte of its input and ten more ([Lz4FrameProofs.machine_goes]): running out of fuel is a panic of the
    model, and the theorems exclude panics.  The depths at which jq stops comparing and printing are the
    source's, and the fuel of [JqValue.compare_d] and [JqValue.dump_into]; [JqReader]'s loops go over the
    bytes there are.  Positions in the data are [nat]: usize is not wrapped.  What is not the
    engine's own is a parameter with named laws: the host's file system, archive files, the HTTP
    client, case mapping of non-ASCII text, and, as outcomes of steps, sockets, name resolution, the
    app's answers, time and scheduling.

    ** What is not modelled

    Running WebAssembly is wasmtime's: [Dylink] and [User] have what the engine does around it, over a
    class of wasmtime's operations and over trees of what a program's code does between its calls; the
    stores, instances and threads of machine.rs are left out, and [Machine] has every call the kernel
    may make, in any order.
    TLS and the making of certificates are rustls' and rcgen's: [Intercept] has the bytes inside.  Of the
    control protocol the events of the devices turned into JSON and the wiring of callbacks are left out.
    The command line (main.rs) is process plumbing around the parts above.  tools/rust/ holds command line
    programs for the guest (archives, jq, git-lfs and others), which are not part of the engine.  Of them
    LZ4's blocks and frames are modelled, with the index of .xz files, the path patterns of git-lfs and the values and
    JSON of jq; not
    jq's language (lexer, parser, interpreter, builtins) nor the equality of its values, which asks whether
    two share memory; not LZ4's high compression
    levels (hc.rs: [Lz4Frame.compress_block] has no result for them), its command line (lz4/mod.rs) and
    XXH32, a crate's, which is the class [Lz4Frame.Xxh]. *)
From stdpp Require Export base tactics numbers option list list_numbers gmap sorting.
From Stdlib Require Export ZArith Lia.

Local Open Scope Z_scope.

(** ** Machine integers *)

(** A byte is a [Z] in range; the modelled code only ever stores wrapped values. *)
Definition is_byte (b : Z) : Prop := 0 <= b < 256.
Definition wf_bytes (l : list Z) : Prop := Forall is_byte l.

(** Truncating casts ([as u8], ..., [as u64]) and wrapping arithmetic of the release profile. *)
Definition u8 (x : Z) : Z := x mod 256.
Definition u16 (x : Z) : Z := x mod 65536.
Definition u32 (x : Z) : Z := x mod 4294967296.
Definition u64 (x : Z) : Z := x mod 18446744073709551616.

(** [saturating_sub] on an unsigned type. *)
Definition sat_sub (x y : Z) : Z := Z.max 0 (x - y).

(** Arithmetic goals about the casts above. *)
Ltac wrap_lia :=
  unfold u8, u16, u32, u64, sat_sub, is_byte in *; Z.div_mod_to_equations; lia.

Lemma u16_small x : 0 <= x < 65536 → u16 x = x.
Proof. apply Z.mod_small. Qed.
Lemma u32_small x : 0 <= x < 4294967296 → u32 x = x.
Proof. apply Z.mod_small. Qed.
Lemma u64_small x : 0 <= x < 18446744073709551616 → u64 x = x.
Proof. apply Z.mod_small. Qed.
Lemma u8_range x : 0 <= u8 x < 256.
Proof. apply Z.mod_pos_bound; lia. Qed.
Lemma u16_range x : 0 <= u16 x < 65536.
Proof. apply Z.mod_pos_bound; lia. Qed.
Lemma u32_range x : 0 <= u32 x < 4294967296.
Proof. apply Z.mod_pos_bound; lia. Qed.

(** A number put above another that fits below it. *)
Lemma lor_above x y k : 0 <= k → 0 <= y < 2 ^ k → Z.lor (x * 2 ^ k) y = x * 2 ^ k + y.
Proof.
  intros Hk Hy. pose proof (Z.add_lor_land (x * 2 ^ k) y) as Hadd.
  assert (Z.land (x * 2 ^ k) y = 0) as Hz; [|lia].
  apply Z.bits_inj'. intros n Hn. rewrite Z.land_spec, Z.bits_0.
  destruct (decide (n < k)).
  - rewrite Z.mul_pow2_bits_low by lia. done.
  - destruct (decide (y = 0)) as [->|]; [by rewrite Z.bits_0, andb_false_r|].
    rewrite (Z.bits_above_log2 y n); [apply andb_false_r|lia|].
    apply Z.log2_lt_pow2; [lia|]. eapply Z.lt_le_trans; [apply Hy|]. apply Z.pow_le_mono_r; lia.
Qed.

(** ** Results: [std::result::Result] and [anyhow::Result] *)

Inductive result (E A : Type) : Type :=
  | Ok (a : A)
  | Err (e : E).
Arguments Ok {E A} a.
Arguments Err {E A} e.

#[export] Instance result_ret {E} : MRet (result E) := λ A a, Ok a.
#[export] Instance result_bind {E} : MBind (result E) := λ A B f r,
  match r with Ok a => f a | Err e => Err e end.

(** The [?] operator on an [Option] turned into an error with [ok_or]. *)
Definition ok_or {E A} (o : option A) (e : E) : result E A :=
  match o with Some a => Ok a | None => Err e end.

(** Collecting an iterator of results: the first error wins. *)
Fixpoint collect_results {E A B} (f : A → result E B) (l : list A) : result E (list B) :=
  match l with
  | [] => Ok []
  | x :: l => y ← f x; ys ← collect_results f l; Ok (y :: ys)
  end.

Lemma result_bind_Ok {E A B} (r : result E A) (f : A → result E B) b :
  (r ≫= f) = Ok b ↔ ∃ a, r = Ok a ∧ f a = Ok b.
Proof.
  destruct r as [a|e]; unfold mbind, result_bind.
  - split; [eauto | intros (? & [= <-] & ?); done].
  - split; [done | intros (? & ? & ?); done].
Qed.

Lemma result_bind_Err {E A B} (r : result E A) (f : A → result E B) e :
  (r ≫= f) = Err e ↔ r = Err e ∨ ∃ a, r = Ok a ∧ f a = Err e.
Proof.
  destruct r as [a|e']; unfold mbind, result_bind.
  - split; [eauto | intros [?|(? & [= <-] & ?)]; done].
  - split; [intros [= <-]; auto | intros [[= <-]|(? & ? & ?)]; done].
Qed.

Lemma collect_results_length {E A B} (f : A → result E B) l ys :
  collect_results f l = Ok ys → length ys = length l.
Proof.
  revert ys; induction l as [|x l IH]; intros ys; simpl; [naive_solver|].
  rewrite result_bind_Ok. intros (y & ? & Hr). apply result_bind_Ok in Hr as (zs & ? & [= <-]).
  simpl. f_equal. by apply IH.
Qed.

Lemma collect_results_Forall2 {E A B} (f : A → result E B) l ys :
  collect_results f l = Ok ys ↔ Forall2 (λ x y, f x = Ok y) l ys.
Proof.
  revert ys; induction l as [|x l IH]; intros ys; simpl.
  - split; [intros [= <-]; constructor | by inversion 1].
  - rewrite result_bind_Ok. setoid_rewrite result_bind_Ok. split.
    + intros (y & Hy & zs & Hzs & [= <-]). constructor; [done|]. by apply IH.
    + inversion 1 as [|? y ? zs Hy Hzs]; subst.
      exists y. split; [done|]. exists zs. split; [by apply IH|done].
Qed.

Lemma collect_results_Err {E A B} (f : A → result E B) l e :
  collect_results f l = Err e → ∃ x, x ∈ l ∧ f x = Err e.
Proof.
  induction l as [|x l IH]; simpl; [done|].
  intros [?|(y & ? & Hr)]%result_bind_Err; [exists x; split; [left|done]|].
  apply result_bind_Err in Hr as [Hr|(? & ? & ?)]; [|done].
  destruct (IH Hr) as (z & ? & ?). exists z. split; [by right|done].
Qed.

(** ** Byte order: [to_le_bytes], [from_le_bytes], [to_be_bytes], [from_be_bytes] *)

Fixpoint le_bytes (n : nat) (x : Z) : list Z :=
  match n with
  | O => []
  | S n => x mod 256 :: le_bytes n (x / 256)
  end.

Fixpoint le_val (l : list Z) : Z :=
  match l with
  | [] => 0
  | b :: l => b + 256 * le_val l
  end.

Definition be_bytes (n : nat) (x : Z) : list Z := reverse (le_bytes n x).
Definition be_val (l : list Z) : Z := le_val (reverse l).

Lemma length_le_bytes n x : length (le_bytes n x) = n.
Proof. revert x; induction n; intros x; simpl; auto. Qed.
Lemma length_be_bytes n x : length (be_bytes n x) = n.
Proof. unfold be_bytes. by rewrite length_reverse, length_le_bytes. Qed.

Lemma wf_le_bytes n x : wf_bytes (le_bytes n x).
Proof.
  revert x; induction n as [|n IH]; intros x; simpl; constructor; [|apply IH].
  unfold is_byte. apply Z.mod_pos_bound. lia.
Qed.
Lemma wf_be_bytes n x : wf_bytes (be_bytes n x).
Proof. apply Forall_reverse, wf_le_bytes. Qed.

Lemma wf_app l1 l2 : wf_bytes (l1 ++ l2) ↔ wf_bytes l1 ∧ wf_bytes l2.
Proof. apply Forall_app. Qed.

Lemma le_val_le_bytes n x : le_val (le_bytes n x) = x mod 256 ^ Z.of_nat n.
Proof.
  revert x; induction n as [|n IH]; intros x; simpl le_bytes; simpl le_val.
  - by rewrite Z.mod_1_r.
  - rewrite IH, Nat2Z.inj_succ, Z.pow_succ_r by lia.
    rewrite (Z.rem_mul_r x 256 (256 ^ Z.of_nat n)); lia.
Qed.

Lemma le_val_range l : wf_bytes l → 0 <= le_val l < 256 ^ Z.of_nat (length l).
Proof.
  induction 1 as [|b l Hb _ IH]; simpl; [lia|].
  rewrite Nat2Z.inj_succ, Z.pow_succ_r by lia. unfold is_byte in Hb. lia.
Qed.

Lemma le_bytes_le_val l : wf_bytes l → le_bytes (length l) (le_val l) = l.
Proof.
  induction 1 as [|b l Hb _ IH]; simpl; [done|]. unfold is_byte in Hb.
  replace ((b + 256 * le_val l) mod 256) with b
    by (Z.div_mod_to_equations; lia).
  replace ((b + 256 * le_val l) / 256) with (le_val l)
    by (Z.div_mod_to_equations; lia).
  by rewrite IH.
Qed.

Lemma le_val_small n x :
  0 <= x < 256 ^ Z.of_nat n → le_val (le_bytes n x) = x.
Proof. intros. rewrite le_val_le_bytes. by apply Z.mod_small. Qed.

Lemma be_val_be_bytes n x : be_val (be_bytes n x) = x mod 256 ^ Z.of_nat n.
Proof. unfold be_val, be_bytes. by rewrite reverse_involutive, le_val_le_bytes. Qed.
Lemma be_val_small n x :
  0 <= x < 256 ^ Z.of_nat n → be_val (be_bytes n x) = x.
Proof. intros. rewrite be_val_be_bytes. by apply Z.mod_small. Qed.

Lemma be_val_range l : wf_bytes l → 0 <= be_val l < 256 ^ Z.of_nat (length l).
Proof.
  intros. unfold be_val. rewrite <-(length_reverse l). apply le_val_range. by apply Forall_reverse.
Qed.

(** [wf_bytes] by evaluation. *)
Lemma wf_bytes_check l : forallb (λ b, (0 <=? b) && (b <? 256)) l = true → wf_bytes l.
Proof.
  intros H. apply Forall_forall. intros b Hb. rewrite forallb_forall in H.
  apply list_elem_of_In in Hb. specialize (H b Hb). unfold is_byte. lia.
Qed.

Lemma mjoin_cons {A} (x : list A) l : mjoin (x :: l) = x ++ mjoin l.
Proof. done. Qed.

(** ** Slices of byte vectors *)

(** [&l[i..j]], for indices the code has checked. *)
Definition slice {A} (i j : nat) (l : list A) : list A := take (j - i) (drop i l).

(** [l.get(i..j)]. *)
Definition get_slice {A} (i j : nat) (l : list A) : option (list A) :=
  if bool_decide (i ≤ j ∧ j ≤ length l)%nat then Some (slice i j l) else None.

(** [l[i]], for an index the code has checked. *)
Definition byte_at (l : list Z) (i : nat) : Z := default 0 (l !! i).

(** [l[at..at + new.len()].copy_from_slice(new)]. *)
Definition patch {A} (at_ : nat) (new l : list A) : list A :=
  take at_ l ++ new ++ drop (at_ + length new) l.

Lemma length_slice {A} i j (l : list A) :
  (j ≤ length l)%nat → length (slice i j l) = (j - i)%nat.
Proof. intros. unfold slice. rewrite length_take, length_drop. lia. Qed.

Lemma wf_slice i j l : wf_bytes l → wf_bytes (slice i j l).
Proof. intros. unfold slice. by apply Forall_take, Forall_drop. Qed.

Lemma lookup_slice {A} i j (l : list A) k :
  (k < j - i)%nat → slice i j l !! k = l !! (i + k)%nat.
Proof. intros. unfold slice. by rewrite lookup_take_lt, lookup_drop. Qed.

Lemma slice_full {A} (l : list A) : slice 0 (length l) l = l.
Proof. unfold slice. rewrite drop_0, Nat.sub_0_r. apply firstn_all. Qed.

(** A slice that ends before, or starts after, the boundary of an append. *)
Lemma slice_app_l {A} i j (l k : list A) :
  (j ≤ length l)%nat → slice i j (l ++ k) = slice i j l.
Proof.
  intros. destruct (decide (i ≤ j)%nat).
  - unfold slice. rewrite drop_app_le by lia. rewrite take_app_le; [done|]. rewrite length_drop. lia.
  - unfold slice. by replace (j - i)%nat with 0%nat by lia.
Qed.

Lemma slice_app_r {A} i j (l k : list A) :
  (length l ≤ i)%nat → slice i j (l ++ k) = slice (i - length l) (j - length l) k.
Proof. intros. unfold slice. rewrite drop_app_ge by lia. f_equal; lia. Qed.

(** What lies between two parts. *)
Lemma get_slice_mid {A} (a b c : list A) i j :
  i = length a → j = (length a + length b)%nat → get_slice i j (a ++ b ++ c) = Some b.
Proof.
  intros -> ->. unfold get_slice. rewrite !length_app, bool_decide_true by lia.
  rewrite slice_app_r by lia. rewrite slice_app_l by lia.
  replace (length a - length a)%nat with 0%nat by lia.
  replace (length a + length b - length a)%nat with (length b) by lia. by rewrite slice_full.
Qed.
Lemma slice_le_bytes n x : slice 0 n (le_bytes n x) = le_bytes n x.
Proof. rewrite <-(length_le_bytes n x) at 1. apply slice_full. Qed.
Lemma slice_be_bytes n x : slice 0 n (be_bytes n x) = be_bytes n x.
Proof. rewrite <-(length_be_bytes n x) at 1. apply slice_full. Qed.

Lemma length_patch {A} at_ (new l : list A) :
  (at_ + length new ≤ length l)%nat → length (patch at_ new l) = length l.
Proof. intros. unfold patch. rewrite !length_app, length_take, length_drop. lia. Qed.

(** Filling in a field replaces it. *)
Lemma patch_field {A} at_ (x old new y : list A) :
  at_ = length x → length old = length new → patch at_ new (x ++ old ++ y) = x ++ new ++ y.
Proof.
  intros -> Hl. unfold patch. rewrite take_app_length, <-Hl. do 2 f_equal.
  rewrite drop_app_ge by lia. replace (length x + length old - length x)%nat with (length old) by lia.
  apply drop_app_length.
Qed.

Lemma lookup_patch {A} at_ (new l : list A) i :
  (at_ + length new ≤ length l)%nat →
  patch at_ new l !! i = if decide (at_ ≤ i < at_ + length new)%nat then new !! (i - at_)%nat else l !! i.
Proof.
  intros Hl. unfold patch. case_decide as Hi.
  - rewrite lookup_app_r by (rewrite length_take; lia). rewrite length_take.
    replace (at_ `min` length l)%nat with at_ by lia. by rewrite lookup_app_l by lia.
  - destruct (decide (i < at_)%nat).
    + rewrite lookup_app_l by (rewrite length_take; lia). by rewrite lookup_take_lt.
    + rewrite lookup_app_r by (rewrite length_take; lia). rewrite length_take.
      replace (at_ `min` length l)%nat with at_ by lia. rewrite lookup_app_r, lookup_drop by lia. f_equal. lia.
Qed.

(** Patches of stretches that do not meet commute. *)
Lemma patch_commute {A} i j (x y l : list A) :
  (i + length x ≤ j)%nat → (j + length y ≤ length l)%nat → patch i x (patch j y l) = patch j y (patch i x l).
Proof.
  intros Hij Hj. apply list_eq. intros k.
  rewrite !lookup_patch by (rewrite ?length_patch; lia). repeat case_decide; try done; lia.
Qed.

Lemma byte_at_range l i : wf_bytes l → 0 <= byte_at l i < 256.
Proof.
  intros Hl. unfold byte_at. destruct (l !! i) eqn:E; simpl; [|lia].
  by apply (Forall_lookup_1 _ _ _ _ Hl E).
Qed.

(** The bytes of a sum of lists: peel a known prefix. *)
Lemma byte_at_app_r l k i :
  (length l ≤ i)%nat → byte_at (l ++ k) i = byte_at k (i - length l).
Proof. intros. unfold byte_at. by rewrite lookup_app_r by lia. Qed.
Lemma byte_at_app_l l k i :
  (i < length l)%nat → byte_at (l ++ k) i = byte_at l i.
Proof. intros. unfold byte_at. by rewrite lookup_app_l by lia. Qed.

Arguments le_bytes : simpl never.
Arguments le_val : simpl never.

(** ** Automation *)

Create HintDb collabo.
Create Rewrite HintDb collabo.
#[export] Hint Resolve wf_le_bytes wf_be_bytes wf_slice u16_range u32_range u8_range : collabo.
#[export] Hint Rewrite length_le_bytes length_be_bytes @length_app @length_take @length_drop
  @length_reverse : collabo.

(** Case analysis on [Ok]/[Err] equations produced by [?]. *)
Ltac simplify_result :=
  repeat match goal with
  | H : (_ ≫= _) = Ok _ |- _ => apply result_bind_Ok in H as (? & ? & ?)
  | H : mbind _ _ = Ok _ |- _ => apply result_bind_Ok in H as (? & ? & ?)
  | H : Ok _ = Ok _ |- _ => injection H as ?; subst
  | H : Ok _ = Err _ |- _ => discriminate H
  | H : Err _ = Ok _ |- _ => discriminate H
  end.

(** [wf_bytes] goals over appends and encodings. *)
Ltac solve_wf :=
  repeat first
    [ apply Forall_nil_2 | apply wf_app; split | apply wf_le_bytes | apply wf_be_bytes
    | apply wf_slice | assumption | (apply Forall_cons_2; [unfold is_byte; lia|]) ].

(** [exact H] up to an arithmetic equation on the last argument. *)
Ltac exact_lia H :=
  match type of H with ?P ?x => match goal with |- ?P ?y => replace y with x by lia; exact H end end.

(** The slice of a concatenation of encoded fields that is exactly one of them. *)
Ltac slice_field :=
  repeat (rewrite slice_app_r by (rewrite ?length_le_bytes, ?length_be_bytes; simpl; lia);
          rewrite ?length_le_bytes, ?length_be_bytes; simpl Nat.sub);
  rewrite ?slice_app_l by (rewrite ?length_le_bytes, ?length_be_bytes; simpl; lia);
  rewrite ?slice_le_bytes, ?slice_be_bytes.
