(* ===== verification/Memory.v ===== *)
(** * Guest memory

    The wasm shared memory as the engine's host side sees it: a byte vector it reads with
    [guest_bytes] (engine/src/machine.rs) and writes with [write_bytes], [write_u16] and
    [write_u32] (engine/src/virtio.rs).  Every access is checked; the lemmas say what each one
    reads or changes. *)
From S2P Require Import Prelude.

Local Open Scope Z_scope.

(** The cells of [SharedMemory::data]. *)
Abbreviation mem := (list Z).

Definition mem_size (m : mem) : Z := Z.of_nat (length m).

(** [if let Some(cell) = data.get(at) { *cell = byte }]. *)
Definition set_cell (m : mem) (at_ : Z) (byte : Z) : mem :=
  if (0 <=? at_) && (at_ <? mem_size m) then <[Z.to_nat at_ := byte]> m else m.

(** [guest_bytes]: copies a range out, or [None] when it is out of bounds. *)
Definition guest_bytes (m : mem) (address length : Z) : option (list Z) :=
  let start := address in
  let end_ := address + length in
  if mem_size m <? end_ then None else Some (slice (Z.to_nat start) (Z.to_nat end_) m).

(** [read_memory]: the same with an error. *)
Definition read_memory (m : mem) (address length : Z) : result unit (list Z) :=
  ok_or (guest_bytes m address length) tt.

(** The little-endian stores of the virtqueue: each byte on its own, one outside the memory
    being dropped.  [at as usize + index] wraps as the release build does. *)
Fixpoint store_bytes (m : mem) (at_ : Z) (bs : list Z) : mem :=
  match bs with
  | [] => m
  | b :: bs => store_bytes (set_cell m at_ b) (u64 (at_ + 1)) bs
  end.

Definition write_u16 (m : mem) (at_ value : Z) : mem := store_bytes m at_ (le_bytes 2 value).
Definition write_u32 (m : mem) (at_ value : Z) : mem := store_bytes m at_ (le_bytes 4 value).

(** [write_bytes]: copies bytes in, stopping at the memory's end; how many were written. *)
Fixpoint write_bytes (m : mem) (at_ : Z) (bs : list Z) : mem * nat :=
  match bs with
  | [] => (m, 0%nat)
  | b :: bs =>
      if (0 <=? at_) && (at_ <? mem_size m) then
        let '(m', written) := write_bytes (set_cell m at_ b) (u64 (at_ + 1)) bs in
        (m', S written)
      else (m, 0%nat)
  end.

(** [write_memory]: all or nothing. *)
Definition write_memory (m : mem) (address : Z) (bs : list Z) : result unit mem :=
  let end_ := address + Z.of_nat (length bs) in
  if mem_size m <? end_ then Err tt
  else Ok (take (Z.to_nat address) m ++ bs ++ drop (Z.to_nat end_) m).

(** ** What a store changes *)

Lemma length_set_cell m a b : length (set_cell m a b) = length m.
Proof. unfold set_cell. destruct (_ && _); [apply length_insert|done]. Qed.

Lemma mem_size_set_cell m a b : mem_size (set_cell m a b) = mem_size m.
Proof. unfold mem_size. by rewrite length_set_cell. Qed.

Lemma set_cell_insert m a b : 0 <= a → set_cell m a b = <[Z.to_nat a := b]> m.
Proof.
  intros. unfold set_cell, mem_size. destruct (Z.leb_spec 0 a); [|lia]. simpl.
  destruct (Z.ltb_spec a (Z.of_nat (length m))); [done|].
  rewrite list_insert_ge by lia. done.
Qed.

Lemma store_bytes_inserts m a bs :
  0 <= a → a + Z.of_nat (length bs) < 18446744073709551616 →
  store_bytes m a bs = list_inserts (Z.to_nat a) bs m.
Proof.
  revert m a; induction bs as [|b bs IH]; intros m a Ha Hb; simpl in *; [done|].
  rewrite u64_small, IH, set_cell_insert by lia.
  rewrite <-list_insert_inserts_lt by lia.
  by replace (Z.to_nat (a + 1)) with (S (Z.to_nat a)) by lia.
Qed.

Lemma length_store_bytes m a bs : length (store_bytes m a bs) = length m.
Proof.
  revert m a; induction bs as [|b bs IH]; intros m a; simpl; [done|].
  by rewrite IH, length_set_cell.
Qed.

Lemma mem_size_store_bytes m a bs : mem_size (store_bytes m a bs) = mem_size m.
Proof. unfold mem_size. by rewrite length_store_bytes. Qed.

Lemma length_write_bytes m a bs : length (write_bytes m a bs).1 = length m.
Proof.
  revert m a; induction bs as [|b bs IH]; intros m a; simpl; [done|].
  destruct (_ && _); [|done].
  specialize (IH (set_cell m a b) (u64 (a + 1))).
  destruct (write_bytes _ _ _) as [m' n]. simpl in *. by rewrite IH, length_set_cell.
Qed.

(** In bounds, [write_bytes] writes everything. *)
Lemma write_bytes_in m a bs :
  0 <= a → a + Z.of_nat (length bs) <= mem_size m → mem_size m < 18446744073709551616 →
  write_bytes m a bs = (list_inserts (Z.to_nat a) bs m, length bs).
Proof.
  revert m a; induction bs as [|b bs IH]; intros m a Ha Hb Hm; simpl in *; [done|].
  destruct (Z.leb_spec 0 a); [|lia]. destruct (Z.ltb_spec a (mem_size m)); [|lia]. simpl.
  rewrite u64_small by lia. rewrite IH by (rewrite ?mem_size_set_cell; lia).
  rewrite set_cell_insert, <-list_insert_inserts_lt by lia.
  by replace (Z.to_nat (a + 1)) with (S (Z.to_nat a)) by lia.
Qed.

(** ** Reading a range back *)

Lemma guest_bytes_Some m a n bs :
  guest_bytes m a n = Some bs → 0 <= a → 0 <= n →
  a + n <= mem_size m ∧ bs = slice (Z.to_nat a) (Z.to_nat (a + n)) m ∧ length bs = Z.to_nat n.
Proof.
  unfold guest_bytes. intros H ??. destruct (Z.ltb_spec (mem_size m) (a + n)); [done|].
  injection H as <-. split; [done|]. split; [done|].
  unfold mem_size in *. rewrite length_slice; lia.
Qed.

Lemma guest_bytes_in m a n :
  a + n <= mem_size m → guest_bytes m a n = Some (slice (Z.to_nat a) (Z.to_nat (a + n)) m).
Proof. intros. unfold guest_bytes. destruct (Z.ltb_spec (mem_size m) (a + n)); [lia|done]. Qed.

(** Two ranges of addresses do not overlap. *)
Definition disjoint_ranges (a n b k : Z) : Prop := a + n <= b ∨ b + k <= a.

Lemma slice_inserts_outside i j k (bs m : mem) :
  (j ≤ k ∨ k + length bs ≤ i)%nat → slice i j (list_inserts k bs m) = slice i j m.
Proof.
  intros Hd. apply list_eq. intros x. destruct (decide (x < j - i)%nat).
  - rewrite !lookup_slice by lia. destruct Hd.
    + apply list_lookup_inserts_lt. lia.
    + apply list_lookup_inserts_ge. lia.
  - unfold slice. rewrite !lookup_take_ge by lia. done.
Qed.

Lemma slice_inserts_eq k (bs m : mem) :
  (k + length bs ≤ length m)%nat → slice k (k + length bs) (list_inserts k bs m) = bs.
Proof.
  intros Hd. apply list_eq. intros x. destruct (decide (x < length bs)%nat) as [Hx|].
  - rewrite !lookup_slice by lia. rewrite list_lookup_inserts by lia.
    f_equal. lia.
  - rewrite (lookup_ge_None_2 bs) by lia. unfold slice. rewrite lookup_take_ge by lia. done.
Qed.

(** A store outside a range leaves what is read from it. *)
Lemma guest_bytes_store_outside m a n b bs :
  0 <= a → 0 <= n → 0 <= b → b + Z.of_nat (length bs) < 18446744073709551616 →
  disjoint_ranges a n b (Z.of_nat (length bs)) →
  guest_bytes (store_bytes m b bs) a n = guest_bytes m a n.
Proof.
  intros. unfold guest_bytes. rewrite mem_size_store_bytes.
  destruct (Z.ltb_spec (mem_size m) (a + n)); [done|]. f_equal.
  rewrite store_bytes_inserts by lia. apply slice_inserts_outside.
  unfold disjoint_ranges in *. lia.
Qed.

(** A store that fits is read back. *)
Lemma guest_bytes_store_eq m b bs :
  0 <= b → b + Z.of_nat (length bs) <= mem_size m → mem_size m < 18446744073709551616 →
  guest_bytes (store_bytes m b bs) b (Z.of_nat (length bs)) = Some bs.
Proof.
  intros. unfold mem_size in *.
  rewrite guest_bytes_in by (rewrite mem_size_store_bytes; unfold mem_size; lia).
  rewrite store_bytes_inserts by lia.
  replace (Z.to_nat (b + Z.of_nat (length bs))) with (Z.to_nat b + length bs)%nat by lia.
  by rewrite slice_inserts_eq by lia.
Qed.

(** [write_bytes] that fits is read back, and leaves every disjoint range. *)
Lemma guest_bytes_write_eq m b bs :
  0 <= b → b + Z.of_nat (length bs) <= mem_size m → mem_size m < 18446744073709551616 →
  guest_bytes (write_bytes m b bs).1 b (Z.of_nat (length bs)) = Some bs.
Proof.
  intros. rewrite write_bytes_in by done. simpl.
  rewrite <-store_bytes_inserts by lia. by apply guest_bytes_store_eq.
Qed.

Lemma guest_bytes_write_outside m a n b bs :
  0 <= a → 0 <= n → 0 <= b → b + Z.of_nat (length bs) < 18446744073709551616 →
  disjoint_ranges a n b (Z.of_nat (length bs)) →
  guest_bytes (write_bytes m b bs).1 a n = guest_bytes m a n.
Proof.
  revert m b; induction bs as [|c bs IH]; intros m b Ha Hn Hb Hlen Hd; simpl in *; [done|].
  destruct (_ && _) eqn:E; [|done].
  specialize (IH (set_cell m b c) (u64 (b + 1))).
  destruct (write_bytes _ _ _) as [m' k]. simpl in *. rewrite u64_small in IH by lia.
  rewrite IH by (unfold disjoint_ranges in *; lia).
  change (set_cell m b c) with (store_bytes m b [c]).
  apply guest_bytes_store_outside; unfold disjoint_ranges in *; simpl; lia.
Qed.

(** Bytes stay bytes. *)
Lemma wf_set_cell m a b : wf_bytes m → is_byte b → wf_bytes (set_cell m a b).
Proof. intros. unfold set_cell. destruct (_ && _); [by apply Forall_insert|done]. Qed.

Lemma wf_store_bytes m a bs : wf_bytes m → wf_bytes bs → wf_bytes (store_bytes m a bs).
Proof.
  intros Hm Hbs. revert m a Hm; induction Hbs as [|b bs Hb _ IH]; intros m a Hm; simpl; [done|].
  apply IH. by apply wf_set_cell.
Qed.

Lemma wf_write_bytes m a bs : wf_bytes m → wf_bytes bs → wf_bytes (write_bytes m a bs).1.
Proof.
  intros Hm Hbs. revert m a Hm; induction Hbs as [|b bs Hb _ IH]; intros m a Hm; simpl; [done|].
  destruct (_ && _); [|done].
  specialize (IH (set_cell m a b) (u64 (a + 1)) (wf_set_cell _ _ _ Hm Hb)).
  by destruct (write_bytes _ _ _).
Qed.

Lemma wf_guest_bytes m a n bs : wf_bytes m → guest_bytes m a n = Some bs → wf_bytes bs.
Proof.
  unfold guest_bytes. intros Hm H. destruct (_ <? _); [done|]. injection H as <-. by apply wf_slice.
Qed.

(** Consecutive stores are one store. *)
Lemma store_bytes_app m a bs cs :
  0 <= a → a + Z.of_nat (length bs) < 18446744073709551616 →
  store_bytes (store_bytes m a bs) (a + Z.of_nat (length bs)) cs = store_bytes m a (bs ++ cs).
Proof.
  revert m a; induction bs as [|b bs IH]; intros m a Ha Hb; simpl in *.
  - by rewrite Z.add_0_r.
  - rewrite <-IH by (rewrite u64_small; lia). f_equal. rewrite u64_small; lia.
Qed.

Arguments store_bytes : simpl never.
Arguments write_bytes : simpl never.
Arguments guest_bytes : simpl never.
