(* ===== verification/Virtio.v ===== *)
(** * The virtio transport (engine/src/virtio.rs)

    Packed virtqueues in guest memory: descriptors, the queue's two cursors with their wrap
    counters, [advance], [pop] and [release], and the device slots ([Connected]) the machine
    addresses.  The guest's memory is passed explicitly: the code holds a handle to it inside
    the queue, and nothing but the code modelled here and the devices changes it during a call. *)
From S2P Require Import Prelude Memory.

Local Open Scope Z_scope.

Definition DESCRIPTOR_SIZE : Z := 16.
Definition FLAG_NEXT : Z := 1.
Definition FLAG_WRITE : Z := 2.
Definition FLAG_INDIRECT : Z := 4.
Definition FLAG_AVAIL : Z := 128.
Definition FLAG_USED : Z := 32768.

(** [flags & FLAG != 0]. *)
Definition has_flag (flags flag : Z) : bool := negb (Z.land flags flag =? 0).

(** What [bail!] and [?] report to the machine, one constructor per message.  [LoopBound] is not
    an error of the code: it marks a loop of the model that ran out of fuel, and theorems below
    show that it is never returned. *)
Inductive error : Type :=
  | DescriptorOutside
  | ChainWithoutNext
  | MalformedIndirect
  | QueueFull
  | TxMustBeReadable
  | TxOutside
  | ShortHeader (n : nat)
  | RxTooSmall (written wanted : nat)
  | RequestOutside
  | ResponseDoesNotFit
  | LoopBound.

#[export] Instance error_eq_dec : EqDecision error.
Proof. solve_decision. Defined.

Record Descriptor := mk_descriptor {
  d_address : Z;
  d_length : Z;
  d_id : Z;
  d_flags : Z;
}.

#[export] Instance Descriptor_eq_dec : EqDecision Descriptor.
Proof. solve_decision. Defined.

(** The fields of the 16 bytes of a descriptor. *)
Definition decode_descriptor (bytes : list Z) : Descriptor :=
  {| d_address := le_val (slice 0 8 bytes);
     d_length := le_val (slice 8 12 bytes);
     d_id := le_val (slice 12 14 bytes);
     d_flags := le_val (slice 14 16 bytes) |}.

(** The address is truncated to the guest's 32 bits before the read. *)
Definition read_descriptor (m : mem) (at_ : Z) : result error Descriptor :=
  bytes ← ok_or (guest_bytes m (u32 at_) (u32 DESCRIPTOR_SIZE)) DescriptorOutside;
  Ok (decode_descriptor bytes).

(** One buffer of a request. *)
Record Buffer := mk_buffer {
  b_address : Z;
  b_length : Z;
  writable : bool;
}.

(** One request: its buffers, and the bookkeeping to complete it. *)
Record Chain := mk_chain {
  buffers : list Buffer;
  c_id : Z;
  skip : Z;
}.

Record Queue := mk_queue {
  size : Z;
  descriptors_at : Z;
  irq : Z;
  avail_wrap : bool;
  used_wrap : bool;
  avail_index : Z;
  used_index : Z;
}.

Definition queue_new (size descriptors_at irq : Z) : Queue :=
  {| size := size; descriptors_at := descriptors_at; irq := irq; avail_wrap := true;
     used_wrap := true; avail_index := 0; used_index := 0 |}.

Definition set_avail (q : Queue) (index : Z) (wrap : bool) : Queue :=
  {| size := size q; descriptors_at := descriptors_at q; irq := irq q; avail_wrap := wrap;
     used_wrap := used_wrap q; avail_index := index; used_index := used_index q |}.

Definition set_used (q : Queue) (index : Z) (wrap : bool) : Queue :=
  {| size := size q; descriptors_at := descriptors_at q; irq := irq q; avail_wrap := avail_wrap q;
     used_wrap := wrap; avail_index := avail_index q; used_index := index |}.

(** Where slot [index] of the ring is, in the 64-bit arithmetic of the code. *)
Definition slot_at (q : Queue) (index : Z) : Z :=
  u64 (descriptors_at q + u64 (DESCRIPTOR_SIZE * index)).

Definition descriptor_at (m : mem) (q : Queue) (index : Z) : result error Descriptor :=
  read_descriptor m (slot_at q index).

(** The test both cursors use: the slot's [avail] bit is the wrap counter, its [used] bit not. *)
Definition owned_by_device (flags : Z) (wrap : bool) : bool :=
  let avail := has_flag flags FLAG_AVAIL in
  let used := has_flag flags FLAG_USED in
  negb (eqb avail used || negb (eqb avail wrap)).

(** The next descriptor the driver has made available, if any. *)
Definition advance (m : mem) (q : Queue) : result error (option Z * Queue) :=
  descriptor ← descriptor_at m q (avail_index q);
  if negb (owned_by_device (d_flags descriptor) (avail_wrap q)) then Ok (None, q)
  else
    let index := avail_index q in
    let next := u16 (avail_index q + 1) in
    if size q <=? next then Ok (Some index, set_avail q 0 (negb (avail_wrap q)))
    else Ok (Some index, set_avail q next (avail_wrap q)).

(** The loop of [pop] over a descriptor's [NEXT] flags. *)
Fixpoint pop_next (fuel : nat) (m : mem) (q : Queue) (descriptor : Descriptor)
    (chain : list Descriptor) (skip : Z) : result error (list Descriptor * Z) * Queue :=
  if has_flag (d_flags descriptor) FLAG_NEXT then
    match fuel with
    | O => (Err LoopBound, q)
    | S fuel =>
        match advance m q with
        | Err e => (Err e, q)
        | Ok (None, q) => (Err ChainWithoutNext, q)
        | Ok (Some index, q) =>
            match descriptor_at m q index with
            | Err e => (Err e, q)
            | Ok descriptor =>
                pop_next fuel m q descriptor (chain ++ [descriptor]) (u16 (skip + 1))
            end
        end
    end
  else (Ok (chain, skip), q).

Definition to_buffer (d : Descriptor) : Buffer :=
  {| b_address := d_address d; b_length := d_length d;
     writable := has_flag (d_flags d) FLAG_WRITE |}.

(** The descriptors of an indirect table. *)
Definition read_indirect (m : mem) (d : Descriptor) : result error (list Descriptor) :=
  if negb (d_length d mod DESCRIPTOR_SIZE =? 0) then Err MalformedIndirect
  else
    let count := d_length d / DESCRIPTOR_SIZE in
    collect_results (λ i, read_descriptor m (u64 (d_address d + u64 (DESCRIPTOR_SIZE * i))))
      (seqZ 0 count).

(** Takes the next request from the queue. *)
Definition pop (m : mem) (q : Queue) : result error (option Chain) * Queue :=
  match advance m q with
  | Err e => (Err e, q)
  | Ok (None, q) => (Ok None, q)
  | Ok (Some index, q) =>
      match descriptor_at m q index with
      | Err e => (Err e, q)
      | Ok descriptor =>
          let done (r : result error (list Descriptor * Z)) :=
            '(chain, skip) ← r;
            Ok (Some {| buffers := to_buffer <$> chain; c_id := d_id descriptor; skip := skip |}) in
          if has_flag (d_flags descriptor) FLAG_NEXT then
            let '(r, q) := pop_next (Z.to_nat (size q) + 1) m q descriptor [descriptor] 1 in
            (done r, q)
          else if has_flag (d_flags descriptor) FLAG_INDIRECT then
            (done (table ← read_indirect m descriptor; Ok (table, 1)), q)
          else (done (Ok ([descriptor], 1)), q)
      end
  end.

(** The flags [release] publishes. *)
Definition release_flags (used_wrap : bool) (written : Z) : Z :=
  Z.lor (if used_wrap then Z.lor FLAG_AVAIL FLAG_USED else 0)
        (if 0 <? written then FLAG_WRITE else 0).

(** Hands a finished request back to the driver: the interrupt to raise, the queue, the memory. *)
Definition release (m : mem) (q : Queue) (chain : Chain) (written : Z)
    : result error (Z * Queue * mem) :=
  let at_ := slot_at q (used_index q) in
  descriptor ← read_descriptor m at_;
  if negb (owned_by_device (d_flags descriptor) (used_wrap q)) then Err QueueFull
  else
    let m := write_u32 m (u64 (at_ + 8)) written in
    let m := write_u16 m (u64 (at_ + 12)) (c_id chain) in
    let m := write_u16 m (u64 (at_ + 14)) (release_flags (used_wrap q) written) in
    let next := u16 (used_index q + skip chain) in
    let q :=
      if size q <=? next then set_used q (u16 (next - size q)) (negb (used_wrap q))
      else set_used q next (used_wrap q) in
    Ok (irq q, q, m).

(** ** The ring as unbounded positions

    The code keeps a cursor below the ring's size and a wrap bit.  The specification counts
    positions from zero on: slot [p mod size], wrap bit [even (p / size)]. *)

(** A ring of size 0 behaves as one of size 1 for [advance]. *)
Definition ring_size (q : Queue) : Z := Z.max 1 (size q).

Definition avail_pos (q : Queue) (a : Z) : Prop :=
  0 <= a ∧ avail_index q = a mod ring_size q ∧ avail_wrap q = Z.even (a / ring_size q).

Definition used_pos (q : Queue) (u : Z) : Prop :=
  0 <= u ∧ used_index q = u mod ring_size q ∧ used_wrap q = Z.even (u / ring_size q).

(** What no operation on the queue changes. *)
Definition same_ring (q q' : Queue) : Prop :=
  size q' = size q ∧ descriptors_at q' = descriptors_at q ∧ irq q' = irq q.

#[export] Instance same_ring_equiv : Equivalence same_ring.
Proof. split; unfold same_ring; red; intuition congruence. Qed.

(** The sizes a 16-bit cursor can hold without wrapping (the virtio limit is 32768), and a ring
    that lies inside the guest's 32-bit address space. *)
Record queue_wf (q : Queue) : Prop := {
  wf_size : 0 < size q <= 32768;
  wf_at : 0 <= descriptors_at q ∧ descriptors_at q + DESCRIPTOR_SIZE * size q <= 4294967296;
}.

(** Position [p] holds a descriptor the driver made available in that lap. *)
Definition slot_ready (m : mem) (q : Queue) (p : Z) : Prop :=
  ∃ d, descriptor_at m q (p mod ring_size q) = Ok d ∧
       owned_by_device (d_flags d) (Z.even (p / ring_size q)) = true.

Lemma owned_by_device_spec flags wrap :
  owned_by_device flags wrap = true ↔
  has_flag flags FLAG_AVAIL = wrap ∧ has_flag flags FLAG_USED = negb wrap.
Proof.
  unfold owned_by_device. destruct (has_flag flags FLAG_AVAIL), (has_flag flags FLAG_USED), wrap;
    simpl; intuition discriminate.
Qed.

Lemma same_ring_size q q' : same_ring q q' → ring_size q' = ring_size q.
Proof. intros (E & _). unfold ring_size. by rewrite E. Qed.

Lemma same_ring_descriptor_at m q q' i :
  same_ring q q' → descriptor_at m q' i = descriptor_at m q i.
Proof. intros (_ & E & _). unfold descriptor_at, slot_at. by rewrite E. Qed.

Lemma same_ring_ready m q q' p : same_ring q q' → slot_ready m q' p ↔ slot_ready m q p.
Proof.
  intros Hs. unfold slot_ready. rewrite (same_ring_size q q') by done.
  by setoid_rewrite (same_ring_descriptor_at m q q' _ Hs).
Qed.

Lemma same_ring_wf q q' : same_ring q q' → queue_wf q → queue_wf q'.
Proof. intros (E1 & E2 & E3) [??]. split; rewrite ?E1, ?E2; done. Qed.

(** The same slot cannot be ready in two consecutive laps. *)
Lemma slot_ready_one_lap m q p :
  slot_ready m q p → slot_ready m q (p + ring_size q) → False.
Proof.
  assert (ring_size q > 0) by (unfold ring_size; lia).
  intros (d & Hd & Ho) (d' & Hd' & Ho').
  replace ((p + ring_size q) mod ring_size q) with (p mod ring_size q) in Hd'
    by (rewrite <-(Z.mul_1_l (ring_size q)) at 2; by rewrite Z.mod_add by lia).
  rewrite Hd in Hd'. injection Hd' as <-.
  replace ((p + ring_size q) / ring_size q) with (p / ring_size q + 1) in Ho'
    by (rewrite <-(Z.mul_1_l (ring_size q)) at 2; by rewrite Z.div_add by lia).
  apply owned_by_device_spec in Ho as [Ho _], Ho' as [Ho' _].
  rewrite Ho in Ho'. rewrite Z.add_1_r, Z.even_succ, <-Z.negb_even in Ho'.
  by destruct (Z.even (p / ring_size q)).
Qed.

Lemma mod_div_unique a n d r : a = n * d + r → 0 <= r < n → a mod n = r ∧ a / n = d.
Proof.
  intros E Hr. split; symmetry.
  - by apply (Z.mod_unique_pos _ _ d).
  - by apply (Z.div_unique_pos _ _ _ r).
Qed.

(** Moving a cursor by [k] slots: how index and wrap bit follow. *)
Lemma cursor_next n p :
  0 < n → 0 <= p →
  (n <= p mod n + 1 → (p + 1) mod n = 0 ∧ Z.even ((p + 1) / n) = negb (Z.even (p / n))) ∧
  (p mod n + 1 < n → (p + 1) mod n = p mod n + 1 ∧ (p + 1) / n = p / n).
Proof.
  intros Hn Hp. pose proof (Z.div_mod p n ltac:(lia)) as Hdm.
  pose proof (Z.mod_pos_bound p n Hn). split; intros Hc.
  - assert (p + 1 = n * (p / n + 1) + 0) as E by lia. apply mod_div_unique in E as [-> ->]; [|lia].
    by rewrite Z.add_1_r, Z.even_succ, <-Z.negb_even.
  - assert (p + 1 = n * (p / n) + (p mod n + 1)) as E by lia.
    by apply mod_div_unique in E as [-> ->]; [|lia].
Qed.

Lemma cursor_skip n u k :
  0 < n → 0 <= u → 0 <= k <= n →
  (n <= u mod n + k → (u + k) mod n = u mod n + k - n ∧
                      Z.even ((u + k) / n) = negb (Z.even (u / n))) ∧
  (u mod n + k < n → (u + k) mod n = u mod n + k ∧ (u + k) / n = u / n).
Proof.
  intros Hn Hu Hk. pose proof (Z.div_mod u n ltac:(lia)) as Hdm.
  pose proof (Z.mod_pos_bound u n Hn). split; intros Hc.
  - assert (u + k = n * (u / n + 1) + (u mod n + k - n)) as E by lia.
    apply mod_div_unique in E as [-> ->]; [|lia].
    by rewrite Z.add_1_r, Z.even_succ, <-Z.negb_even.
  - assert (u + k = n * (u / n) + (u mod n + k)) as E by lia.
    by apply mod_div_unique in E as [-> ->]; [|lia].
Qed.

(** ** [advance] *)

Lemma avail_pos_set q i w p :
  avail_pos (set_avail q i w) p ↔
  0 <= p ∧ i = p mod ring_size q ∧ w = Z.even (p / ring_size q).
Proof. done. Qed.

Lemma used_pos_set q i w p :
  used_pos (set_used q i w) p ↔
  0 <= p ∧ i = p mod ring_size q ∧ w = Z.even (p / ring_size q).
Proof. done. Qed.

Lemma read_descriptor_Err m at_ e : read_descriptor m at_ = Err e → e = DescriptorOutside.
Proof. unfold read_descriptor. destruct (guest_bytes _ _ _); simpl; congruence. Qed.

Lemma read_indirect_Err m d e : read_indirect m d = Err e → e ≠ LoopBound.
Proof.
  unfold read_indirect. destruct (negb _); [congruence|].
  by intros (i & _ & ->%read_descriptor_Err)%collect_results_Err.
Qed.

(** What one call does, seen from the position [a] of the cursor. *)
Lemma advance_pos m q a :
  0 <= size q < 65536 → avail_pos q a →
  match advance m q with
  | Ok (Some i, q') =>
      slot_ready m q a ∧ i = a mod ring_size q ∧ avail_pos q' (a + 1) ∧ same_ring q q' ∧
      used_index q' = used_index q ∧ used_wrap q' = used_wrap q
  | Ok (None, q') => ¬ slot_ready m q a ∧ q' = q
  | Err e => e = DescriptorOutside ∧ ¬ slot_ready m q a
  end.
Proof.
  intros Hsz (Ha & Hi & Hw). unfold advance, slot_ready. rewrite Hi, Hw.
  destruct (descriptor_at m q (a mod ring_size q)) as [d|e] eqn:Hd; simpl; cycle 1.
  { apply read_descriptor_Err in Hd as ->. split; [done|]. intros (? & ? & ?); done. }
  destruct (owned_by_device _ _) eqn:Ho; simpl; cycle 1.
  { split; [|done]. intros (? & [= <-] & ?). congruence. }
  assert (0 < ring_size q) as Hn by (unfold ring_size; lia).
  pose proof (Z.mod_pos_bound a (ring_size q) Hn).
  destruct (cursor_next (ring_size q) a Hn Ha) as [Hnext1 Hnext2].
  rewrite u16_small by (unfold ring_size in *; lia).
  destruct (Z.leb_spec (size q) (a mod ring_size q + 1)) as [Hle|Hgt].
  - split; [by eauto|]. split; [done|]. split; [|done].
    assert (ring_size q <= a mod ring_size q + 1) by (unfold ring_size in *; lia).
    destruct Hnext1; [done|]. apply avail_pos_set. split; [lia|]. split; congruence.
  - split; [by eauto|]. split; [done|]. split; [|done].
    assert (a mod ring_size q + 1 < ring_size q) by (unfold ring_size in *; lia).
    destruct Hnext2; [done|]. apply avail_pos_set. split; [lia|]. split; congruence.
Qed.

(** ** [pop] *)

Definition ready_range (m : mem) (q : Queue) (a b : Z) : Prop :=
  ∀ p, a <= p < b → slot_ready m q p.

(** The driver cannot have more slots available than the ring has. *)
Lemma ready_range_bound m q a b : ready_range m q a b → b - a <= ring_size q.
Proof.
  intros H. destruct (Z.le_gt_cases (b - a) (ring_size q)) as [|Hgt]; [done|].
  exfalso. assert (0 < ring_size q) by (unfold ring_size; lia).
  apply (slot_ready_one_lap m q a); apply H; lia.
Qed.

Lemma ready_range_snoc m q a b :
  ready_range m q a b → slot_ready m q b → ready_range m q a (b + 1).
Proof. intros H Hb p Hp. destruct (decide (p = b)) as [->|]; [done|]. apply H; lia. Qed.

(** How a queue moved from position [a] to [a'] of its available side. *)
Record moved (m : mem) (q : Queue) (a : Z) (q' : Queue) (a' : Z) : Prop := {
  moved_le : a <= a';
  moved_pos : avail_pos q' a';
  moved_ring : same_ring q q';
  moved_used : used_index q' = used_index q ∧ used_wrap q' = used_wrap q;
  moved_ready : ready_range m q a a';
}.

Lemma moved_refl m q a : avail_pos q a → moved m q a q a.
Proof. intros. split; [lia|done|done|done|]. intros p ?. lia. Qed.

Lemma moved_step m q a q1 a1 q2 :
  moved m q a q1 a1 → slot_ready m q1 a1 → avail_pos q2 (a1 + 1) → same_ring q1 q2 →
  used_index q2 = used_index q1 ∧ used_wrap q2 = used_wrap q1 → moved m q a q2 (a1 + 1).
Proof.
  intros [????Hr] Hrd Hp Hs [Hu1 Hu2]. split; [lia|done|by trans q1|intuition congruence|].
  apply ready_range_snoc; [done|]. by rewrite <-(same_ring_ready m q q1).
Qed.

Lemma pop_next_moved fuel m q0 a0 q a d chain :
  0 <= size q0 < 65536 → moved m q0 a0 q a → ring_size q0 < Z.of_nat fuel + (a - a0) →
  ∃ a', moved m q0 a0 (pop_next fuel m q d chain (a - a0)).2 a' ∧ a <= a' ∧
    match (pop_next fuel m q d chain (a - a0)).1 with
    | Ok (c, k) => k = a' - a0
    | Err e => e ≠ LoopBound
    end.
Proof.
  revert q a d chain; induction fuel as [|fuel IH]; intros q a d chain Hsz Hm Hfuel; simpl.
  { exfalso. destruct Hm. pose proof (ready_range_bound m q0 a0 a). intuition lia. }
  destruct (has_flag (d_flags d) FLAG_NEXT); simpl; [|exists a; intuition lia].
  pose proof Hm as [Hle Hpos Hring Hused Hready].
  assert (0 <= size q < 65536) as Hsz' by (destruct Hring as (-> & _); lia).
  pose proof (advance_pos m q a Hsz' Hpos) as Hadv.
  destruct (advance m q) as [[[i|] q1]|e]; simpl.
  - destruct Hadv as (Hrd & -> & Hpos1 & Hring1 & Hused1).
    assert (moved m q0 a0 q1 (a + 1)) as Hm1 by (eapply moved_step; eauto).
    destruct (descriptor_at m q1 _) as [d1|e] eqn:Hd1; simpl; cycle 1.
    { exists (a + 1). split; [done|]. split; [lia|]. by apply read_descriptor_Err in Hd1 as ->. }
    assert (a + 1 - a0 <= ring_size q0) by (apply (ready_range_bound m), Hm1).
    replace (u16 (a - a0 + 1)) with (a + 1 - a0)
      by (rewrite u16_small; unfold ring_size in *; lia).
    destruct (IH q1 (a + 1) d1 (chain ++ [d1])) as (a' & ? & ? & ?); [done|done|lia|].
    exists a'. split; [done|]. split; [lia|done].
  - destruct Hadv as (Hrd & ->). exists a. by split_and!.
  - destruct Hadv as (-> & Hrd). exists a. by split_and!.
Qed.

(** The summary of [pop] used by every device: where it leaves the queue. *)
Lemma pop_moved m q a :
  0 <= size q < 65536 → avail_pos q a →
  ∃ a', moved m q a (pop m q).2 a' ∧
    match (pop m q).1 with
    | Ok (Some c) => a < a' ∧ skip c = a' - a
    | Ok None => a' = a ∧ ¬ slot_ready m q a
    | Err e => e ≠ LoopBound
    end.
Proof.
  intros Hsz Hpos. unfold pop. pose proof (advance_pos m q a Hsz Hpos) as Hadv.
  destruct (advance m q) as [[[i|] q1]|e]; simpl.
  2: { destruct Hadv as (? & ->). exists a. split; [by apply moved_refl|done]. }
  2: { destruct Hadv as (-> & ?). exists a. split; [by apply moved_refl|done]. }
  destruct Hadv as (Hrd & -> & Hpos1 & Hring1 & Hused1).
  assert (moved m q a q1 (a + 1)) as Hm1.
  { eapply moved_step; eauto using moved_refl. }
  destruct (descriptor_at m q1 _) as [d1|e] eqn:Hd1; simpl; cycle 1.
  { exists (a + 1). split; [done|]. by apply read_descriptor_Err in Hd1 as ->. }
  destruct (has_flag _ FLAG_NEXT).
  - destruct (pop_next_moved (Z.to_nat (size q1) + 1) m q a q1 (a + 1) d1 [d1])
      as (a' & Hm' & Hle & Hr); [done|done| |].
    { destruct Hring1 as (-> & _). unfold ring_size. lia. }
    replace (a + 1 - a) with 1 in * by lia.
    destruct (pop_next _ _ _ _ _ _) as [[[c k]|e] q2] eqn:Hpn; simpl in *.
    + exists a'. split; [done|]. split; [lia|done].
    + by exists a'.
  - destruct (has_flag _ FLAG_INDIRECT); simpl.
    + exists (a + 1). split; [done|].
      destruct (read_indirect m d1) as [t|e] eqn:Ht; simpl; [split; lia|].
      by eapply read_indirect_Err.
    + exists (a + 1). split; [done|]. simpl. lia.
Qed.

(** The driver published the descriptors [ds] as one chain from position [a] on: each is
    available in its lap, and all but the last say [NEXT]. *)
Definition published (m : mem) (q : Queue) (a : Z) (ds : list Descriptor) : Prop :=
  ∀ i d, ds !! i = Some d →
    descriptor_at m q ((a + Z.of_nat i) mod ring_size q) = Ok d ∧
    owned_by_device (d_flags d) (Z.even ((a + Z.of_nat i) / ring_size q)) = true ∧
    has_flag (d_flags d) FLAG_NEXT = bool_decide (S i < length ds)%nat.

Lemma published_tail m q a d ds :
  published m q a (d :: ds) → published m q (a + 1) ds.
Proof.
  intros H i d' Hi. destruct (H (S i) d') as (H1 & H2 & H3); [done|].
  replace (a + 1 + Z.of_nat i) with (a + Z.of_nat (S i)) by lia.
  split_and!; [done..|]. rewrite H3. apply bool_decide_ext. simpl. lia.
Qed.

Lemma published_ready m q a ds :
  published m q a ds → ready_range m q a (a + Z.of_nat (length ds)).
Proof.
  intros H p Hp. destruct (lookup_lt_is_Some_2 ds (Z.to_nat (p - a))) as [d Hd]; [lia|].
  destruct (H _ _ Hd) as (H1 & H2 & _).
  replace (a + Z.of_nat (Z.to_nat (p - a))) with p in * by lia. by exists d.
Qed.

Lemma published_same_ring m q q' a ds :
  same_ring q q' → published m q a ds → published m q' a ds.
Proof.
  intros Hs H i d Hi. rewrite (same_ring_size q q'), (same_ring_descriptor_at m q q') by done.
  by apply H.
Qed.

(** [advance] on a published descriptor. *)
Lemma advance_published m q a d ds :
  0 <= size q < 65536 → avail_pos q a → published m q a (d :: ds) →
  ∃ q', advance m q = Ok (Some (a mod ring_size q), q') ∧ avail_pos q' (a + 1) ∧
    same_ring q q' ∧ descriptor_at m q' (a mod ring_size q) = Ok d.
Proof.
  intros Hsz Hpos Hpub. pose proof (advance_pos m q a Hsz Hpos) as Hadv.
  assert (slot_ready m q a) as Hrd.
  { apply (published_ready m q a (d :: ds) Hpub). simpl. lia. }
  destruct (Hpub 0%nat d) as (Hd & _); [done|]. rewrite Z.add_0_r in Hd.
  destruct (advance m q) as [[[i|] q1]|e]; [|by destruct Hadv..].
  destruct Hadv as (_ & -> & Hp1 & Hs & _). exists q1. split_and!; [done..|].
  by rewrite (same_ring_descriptor_at m q q1).
Qed.

Lemma pop_next_published fuel m q a d ds chain k :
  0 <= size q < 65536 → avail_pos q a →
  has_flag (d_flags d) FLAG_NEXT = bool_decide (0 < length ds)%nat →
  published m q a ds → (length ds ≤ fuel)%nat → k + Z.of_nat (length ds) < 65536 → 0 <= k →
  ∃ q', pop_next fuel m q d chain k = (Ok (chain ++ ds, k + Z.of_nat (length ds)), q') ∧
    avail_pos q' (a + Z.of_nat (length ds)) ∧ same_ring q q'.
Proof.
  revert fuel q a d chain k; induction ds as [|d1 ds IH];
    intros fuel q a d chain k Hsz Hpos Hn Hpub Hf Hk Hk0.
  - exists q. unfold pop_next. destruct fuel; rewrite Hn; simpl;
      rewrite app_nil_r, !Z.add_0_r; done.
  - destruct fuel as [|fuel]; [simpl in Hf; lia|]. simpl. rewrite Hn. simpl.
    destruct (advance_published m q a d1 ds) as (q1 & -> & Hp1 & Hs1 & Hd1); [done..|].
    rewrite Hd1. simpl in *. rewrite u16_small by lia.
    destruct (Hpub 0%nat d1) as (_ & _ & Hnext); [done|].
    destruct (IH fuel q1 (a + 1) d1 (chain ++ [d1]) (k + 1)) as (q2 & -> & Hp2 & Hs2).
    + destruct Hs1 as (-> & _). lia.
    + done.
    + rewrite Hnext. apply bool_decide_ext. simpl. lia.
    + eapply published_same_ring; [done|]. by eapply published_tail.
    + lia.
    + lia.
    + lia.
    + exists q2. rewrite <-app_assoc. simpl. split_and!.
      * do 3 f_equal. lia.
      * exact_lia Hp2.
      * by trans q1.
Qed.

(** The device takes exactly the chain the driver published, in order. *)
Lemma pop_published_chain m q a d ds :
  0 <= size q < 65536 → avail_pos q a → published m q a (d :: ds) →
  (ds = [] → has_flag (d_flags d) FLAG_INDIRECT = false) →
  ∃ q', pop m q = (Ok (Some {| buffers := to_buffer <$> d :: ds; c_id := d_id d;
                               skip := 1 + Z.of_nat (length ds) |}), q') ∧
    avail_pos q' (a + 1 + Z.of_nat (length ds)) ∧ same_ring q q'.
Proof.
  intros Hsz Hpos Hpub Hind. unfold pop.
  pose proof (ready_range_bound _ _ _ _ (published_ready _ _ _ _ Hpub)) as Hlen. simpl in Hlen.
  destruct (advance_published m q a d ds) as (q1 & -> & Hp1 & Hs1 & ->); [done..|].
  destruct (Hpub 0%nat d) as (_ & _ & Hnext); [done|]. simpl in Hnext.
  destruct ds as [|d1 ds].
  - rewrite Hnext, Hind by done. simpl. exists q1. split_and!; [done| |done].
    by rewrite Z.add_0_r.
  - rewrite Hnext. rewrite bool_decide_true by (simpl; lia).
    destruct (pop_next_published (Z.to_nat (size q1) + 1) m q1 (a + 1) d (d1 :: ds) [d] 1)
      as (q2 & -> & Hp2 & Hs2); simpl in *.
    + destruct Hs1 as (-> & _). lia.
    + done.
    + done.
    + eapply published_same_ring; [done|]. by eapply published_tail.
    + destruct Hs1 as (-> & _). unfold ring_size in *. lia.
    + unfold ring_size in *. lia.
    + lia.
    + exists q2. split_and!; [done| |by trans q1].
      exact_lia Hp2.
Qed.

(** ** [release] *)

(** What the driver looks for: both bits equal its used wrap counter. *)
Definition seen_used (flags : Z) (wrap : bool) : Prop :=
  has_flag flags FLAG_AVAIL = wrap ∧ has_flag flags FLAG_USED = wrap.

Lemma release_flags_spec wrap w :
  seen_used (release_flags wrap w) wrap ∧
  has_flag (release_flags wrap w) FLAG_WRITE = bool_decide (0 < w) ∧
  0 <= release_flags wrap w < 65536.
Proof.
  unfold release_flags. destruct (Z.ltb_spec 0 w); destruct wrap;
    (split; [split; vm_compute; done|]); (split; [|vm_compute; split; congruence]).
  all: first [rewrite bool_decide_true by done | rewrite bool_decide_false by lia]; done.
Qed.

Lemma slot_at_small q i :
  queue_wf q → 0 <= i < size q → slot_at q i = descriptors_at q + 16 * i.
Proof.
  intros [Hsz Hat] Hi. unfold slot_at, DESCRIPTOR_SIZE in *.
  rewrite (u64_small (16 * i)) by lia. by rewrite u64_small by lia.
Qed.

Lemma decode_descriptor_parts a l i f :
  length a = 8%nat → length l = 4%nat → length i = 2%nat → length f = 2%nat →
  decode_descriptor (a ++ l ++ i ++ f) =
  {| d_address := le_val a; d_length := le_val l; d_id := le_val i; d_flags := le_val f |}.
Proof.
  intros Ha Hl Hi Hf. unfold decode_descriptor. f_equal.
  - rewrite slice_app_l by lia. by rewrite <-Ha, slice_full.
  - rewrite slice_app_r by lia. rewrite slice_app_l by lia.
    rewrite Ha. change (12 - 8)%nat with 4%nat. by rewrite <-Hl, Nat.sub_diag, slice_full.
  - rewrite slice_app_r, slice_app_r by lia. rewrite slice_app_l by lia.
    rewrite Ha, Hl. change (slice (12 - 8 - 4) (14 - 8 - 4) i) with (slice 0 2 i).
    by rewrite <-Hi, slice_full.
  - rewrite slice_app_r, slice_app_r, slice_app_r by lia.
    rewrite Ha, Hl, Hi. change (slice (14 - 8 - 4 - 2) (16 - 8 - 4 - 2) f) with (slice 0 2 f).
    by rewrite <-Hf, slice_full.
Qed.

(** What [release] stores, from offset 8 of the slot on. *)
Definition released_bytes (chain : Chain) (written flags : Z) : list Z :=
  le_bytes 4 written ++ le_bytes 2 (c_id chain) ++ le_bytes 2 flags.

Lemma length_released_bytes c w f : length (released_bytes c w f) = 8%nat.
Proof. done. Qed.

(** Everything [release] does, given the position [u] of the used side. *)
Lemma release_pos m q u chain written :
  queue_wf q → used_pos q u → 0 < skip chain <= size q → slot_ready m q u →
  let at_ := descriptors_at q + 16 * (u mod ring_size q) in
  let flags := release_flags (Z.even (u / ring_size q)) written in
  ∃ q', release m q chain written =
          Ok (irq q, q', store_bytes m (at_ + 8) (released_bytes chain written flags)) ∧
        used_pos q' (u + skip chain) ∧ same_ring q q' ∧
        avail_index q' = avail_index q ∧ avail_wrap q' = avail_wrap q.
Proof.
  intros Hwf (Hu & Hi & Hw) Hk (d & Hd & Ho) at_ flags.
  assert (ring_size q = size q) as Hrs by (destruct Hwf; unfold ring_size; lia).
  assert (0 < size q) as Hn by (destruct Hwf; lia).
  pose proof (Z.mod_pos_bound u (size q) Hn) as Hb. rewrite <-Hrs in Hb.
  unfold release. rewrite Hi, Hw. unfold descriptor_at in Hd. rewrite Hd. simpl. rewrite Ho. simpl.
  rewrite slot_at_small by (done || lia). fold at_.
  assert (0 <= at_ ∧ at_ + 16 <= 4294967296) as Hat.
  { destruct Hwf as [_ Hat]. unfold DESCRIPTOR_SIZE, at_ in *. lia. }
  destruct (cursor_skip (size q) u (skip chain)) as [Hc1 Hc2]; [lia..|].
  assert (write_u16 (write_u16 (write_u32 m (u64 (at_ + 8)) written) (u64 (at_ + 12)) (c_id chain))
            (u64 (at_ + 14)) flags =
          store_bytes m (at_ + 8) (released_bytes chain written flags)) as Hst.
  { unfold write_u32, write_u16, released_bytes. rewrite !u64_small by lia.
    rewrite <-!store_bytes_app by (rewrite ?length_le_bytes; lia). rewrite !length_le_bytes.
    replace (at_ + 12) with (at_ + 8 + Z.of_nat 4) by lia.
    by replace (at_ + 14) with (at_ + 8 + Z.of_nat 4 + Z.of_nat 2) by lia. }
  fold flags. rewrite Hst. eexists. split_and!.
  - f_equal. f_equal. f_equal. by destruct (size q <=? _).
  - destruct Hwf as [Hsz _]. rewrite Hrs in Hb.
    rewrite Hrs, (u16_small (u mod size q + skip chain)) by lia.
    destruct (Z.leb_spec (size q) (u mod size q + skip chain)) as [Hle|Hgt]; apply used_pos_set;
      rewrite Hrs; (split; [lia|]).
    + destruct Hc1 as [-> ->]; [done|]. rewrite u16_small by lia. done.
    + destruct Hc2 as [-> ->]; done.
  - by destruct (size q <=? _).
  - by destruct (size q <=? _).
  - by destruct (size q <=? _).
Qed.

(** The driver's view of the slot just released. *)
Lemma released_slot m q u chain written d :
  queue_wf q → mem_size m <= 4294967296 → wf_bytes m → 0 <= u →
  0 <= written < 4294967296 → 0 <= c_id chain < 65536 →
  descriptor_at m q (u mod ring_size q) = Ok d →
  let at_ := descriptors_at q + 16 * (u mod ring_size q) in
  let flags := release_flags (Z.even (u / ring_size q)) written in
  descriptor_at (store_bytes m (at_ + 8) (released_bytes chain written flags)) q
    (u mod ring_size q) =
  Ok {| d_address := d_address d; d_length := written; d_id := c_id chain; d_flags := flags |}.
Proof.
  intros Hwf Hm Hby Hu Hw Hid Hd at_ flags.
  assert (ring_size q = size q) as Hrs by (destruct Hwf; unfold ring_size; lia).
  assert (0 < size q) as Hn by (destruct Hwf; lia).
  pose proof (Z.mod_pos_bound u (size q) Hn) as Hb. rewrite <-Hrs in Hb.
  unfold descriptor_at, read_descriptor in *. rewrite slot_at_small in * by (done || lia). fold at_ in Hd |- *.
  assert (0 <= at_ ∧ at_ + 16 <= 4294967296) as Hat.
  { destruct Hwf as [_ Hat]. unfold DESCRIPTOR_SIZE, at_ in *. lia. }
  change (u32 DESCRIPTOR_SIZE) with 16 in *. rewrite u32_small in * by lia.
  destruct (guest_bytes m at_ 16) as [bs|] eqn:Hg; simpl in Hd; [|done]. injection Hd as <-.
  apply guest_bytes_Some in Hg as (Hin & -> & Hlen); [|lia..].
  set (new := released_bytes chain written flags). assert (length new = 8%nat) as Hnew by done.
  rewrite guest_bytes_in by (rewrite mem_size_store_bytes; lia). simpl. f_equal.
  set (m' := store_bytes m (at_ + 8) new).
  assert (slice (Z.to_nat at_) (Z.to_nat (at_ + 16)) m' =
          slice (Z.to_nat at_) (Z.to_nat (at_ + 8)) m ++ new) as ->.
  { unfold m'. rewrite store_bytes_inserts by (rewrite ?Hnew; lia).
    rewrite <-(slice_inserts_outside (Z.to_nat at_) (Z.to_nat (at_ + 8)) (Z.to_nat (at_ + 8)) new m)
      by lia.
    rewrite <-(slice_inserts_eq (Z.to_nat (at_ + 8)) new m) at 3
      by (unfold mem_size in *; rewrite Hnew; lia).
    unfold slice. rewrite Hnew.
    replace (Z.to_nat (at_ + 16) - Z.to_nat at_)%nat with (8 + 8)%nat by lia.
    replace (Z.to_nat (at_ + 8) - Z.to_nat at_)%nat with 8%nat by lia.
    replace (Z.to_nat (at_ + 8) + 8 - Z.to_nat (at_ + 8))%nat with 8%nat by lia.
    rewrite <-take_take_drop. rewrite drop_drop. do 3 f_equal. lia. }
  unfold new, released_bytes.
  pose proof (release_flags_spec (Z.even (u / ring_size q)) written) as (_ & _ & Hfl).
  assert (length (slice (Z.to_nat at_) (Z.to_nat (at_ + 8)) m) = 8%nat) as Hl8
    by (rewrite length_slice; unfold mem_size in *; lia).
  rewrite decode_descriptor_parts by done. f_equal.
  - simpl. f_equal. unfold slice. rewrite drop_0, take_take. f_equal. lia.
  - apply le_val_small. simpl. lia.
  - apply le_val_small. simpl. lia.
  - apply le_val_small. simpl. unfold flags. lia.
Qed.

(** [release] succeeds exactly when the slot at the used position belongs to the device. *)
Lemma release_iff_ready m q u chain written :
  used_pos q u → slot_ready m q u ↔ ∃ r, release m q chain written = Ok r.
Proof.
  intros (Hu & Hi & Hw). unfold release, slot_ready, descriptor_at. rewrite Hi, Hw. split.
  - intros (d & -> & Ho). simpl. rewrite Ho. simpl. eauto.
  - intros [r Hr]. destruct (read_descriptor m _) as [d|e]; simpl in Hr; [|done].
    exists d. split; [done|]. destruct (owned_by_device _ _); [done|]. simpl in Hr. done.
Qed.

Lemma release_Err m q chain written e :
  release m q chain written = Err e → Err e ≠ @Err error (list Z) LoopBound.
Proof.
  unfold release. destruct (read_descriptor _ _) as [d|e'] eqn:Hd; simpl.
  - destruct (negb _); congruence.
  - apply read_descriptor_Err in Hd. congruence.
Qed.

(** A memory that makes no slot available which was not. *)
Definition no_new_ready (q : Queue) (m m' : mem) : Prop :=
  ∀ p, 0 <= p → slot_ready m' q p → slot_ready m q p.

Lemma descriptor_at_store_outside m q i a bs :
  queue_wf q → 0 <= i < size q → 0 <= a →
  a + Z.of_nat (length bs) < 18446744073709551616 →
  disjoint_ranges (descriptors_at q + 16 * i) 16 a (Z.of_nat (length bs)) →
  descriptor_at (store_bytes m a bs) q i = descriptor_at m q i.
Proof.
  intros Hwf Hi Ha Hb Hd. unfold descriptor_at, read_descriptor.
  rewrite slot_at_small by done. change (u32 DESCRIPTOR_SIZE) with 16.
  destruct Hwf as [Hsz Hat]. unfold DESCRIPTOR_SIZE in *. rewrite u32_small by lia.
  by rewrite guest_bytes_store_outside by (done || lia).
Qed.

(** Completing a request never makes a slot available. *)
Lemma release_no_new_ready m q u chain written r :
  queue_wf q → mem_size m <= 4294967296 → wf_bytes m → used_pos q u → 0 < skip chain <= size q →
  0 <= written < 4294967296 → 0 <= c_id chain < 65536 →
  release m q chain written = Ok r → no_new_ready q m r.2.
Proof.
  intros Hwf Hm Hby Hu Hk Hw Hid Hr p Hp Hrd.
  assert (slot_ready m q u) as Hru by (apply (release_iff_ready m q u chain written); eauto).
  destruct (release_pos m q u chain written) as (q' & Hrel & _); [done..|].
  rewrite Hr in Hrel. injection Hrel as ->. simpl in Hrd.
  assert (ring_size q = size q) as Hrs by (destruct Hwf; unfold ring_size; lia).
  assert (0 < size q) as Hn by (destruct Hwf; lia).
  pose proof (Z.mod_pos_bound u (size q) Hn) as Hbu.
  pose proof (Z.mod_pos_bound p (size q) Hn) as Hbp. rewrite <-Hrs in Hbu, Hbp.
  destruct Hrd as (d' & Hd' & Ho').
  destruct (decide (p mod ring_size q = u mod ring_size q)) as [Heq|Hne].
  - exfalso. rewrite Heq in Hd'. destruct Hru as (d & Hd & _). destruct Hu as [Hu _].
    rewrite (released_slot m q u chain written d) in Hd' by done. injection Hd' as <-. simpl in Ho'.
    apply owned_by_device_spec in Ho' as [H1 H2].
    destruct (release_flags_spec (Z.even (u / ring_size q)) written) as ([H3 H4] & _).
    rewrite H3 in H1. rewrite H4 in H2. destruct (Z.even (u / _)), (Z.even (p / _)); done.
  - exists d'. split; [|done]. rewrite <-Hd'. symmetry.
    destruct Hwf as [Hsz Hat] eqn:E. unfold DESCRIPTOR_SIZE in Hat.
    apply descriptor_at_store_outside;
      [done|lia|lia|rewrite length_released_bytes; lia|].
    rewrite length_released_bytes. unfold disjoint_ranges. lia.
Qed.

(** At most [n] more descriptors are available from position [a] on. *)
Definition run_bound (m : mem) (q : Queue) (a n : Z) : Prop :=
  ∀ b, ready_range m q a b → b - a <= n.

Lemma run_bound_size m q a : run_bound m q a (ring_size q).
Proof. intros b. apply ready_range_bound. Qed.

Lemma run_bound_moved m q a q' a' n :
  moved m q a q' a' → run_bound m q a n → run_bound m q' a' (n - (a' - a)).
Proof.
  intros [Hle _ Hs _ Hr] Hb b Hrd. destruct (Z.le_gt_cases b a').
  - pose proof (Hb a' Hr). lia.
  - assert (ready_range m q a b) as Hab; [|pose proof (Hb b Hab); lia].
    intros p Hp. destruct (Z.lt_ge_cases p a'); [apply Hr; lia|].
    apply (same_ring_ready m q q'); [done|]. apply Hrd. lia.
Qed.

Lemma run_bound_no_new m m' q a n :
  0 <= a → no_new_ready q m m' → run_bound m q a n → run_bound m' q a n.
Proof. intros Ha Hn Hb b Hrd. apply Hb. intros p Hp. apply Hn, Hrd; lia. Qed.

Lemma run_bound_same_ring m q q' a n :
  same_ring q q' → run_bound m q a n → run_bound m q' a n.
Proof.
  intros Hs Hb b Hrd. apply Hb. intros p Hp. apply (same_ring_ready m q q'); [done|]. by apply Hrd.
Qed.

Lemma read_descriptor_id m at_ d :
  wf_bytes m → read_descriptor m at_ = Ok d → 0 <= d_id d < 65536.
Proof.
  unfold read_descriptor. intros Hm. destruct (guest_bytes m _ _) as [bs|] eqn:Hg; simpl; [|done].
  intros [= <-]. apply guest_bytes_Some in Hg as (_ & -> & Hl); [|apply u32_range|done].
  simpl. set (bs := slice _ _ m) in *.
  assert (length (slice 12 14 bs) = 2%nat) as H2 by (rewrite length_slice; [done|rewrite Hl; vm_compute; lia]).
  pose proof (le_val_range (slice 12 14 bs)) as Hr. rewrite H2 in Hr. apply Hr.
  by do 2 apply wf_slice.
Qed.

(** The id [pop] remembers is a 16-bit one. *)
Lemma pop_id_range m q c :
  wf_bytes m → (pop m q).1 = Ok (Some c) → 0 <= c_id c < 65536.
Proof.
  intros Hm. unfold pop. destruct (advance m q) as [[[i|] q1]|e]; [|done..].
  destruct (descriptor_at m q1 i) as [d|e] eqn:Hd; [|done].
  apply (read_descriptor_id _ _ _ Hm) in Hd.
  destruct (has_flag _ FLAG_NEXT); [destruct (pop_next _ _ _ _ _ _) as [[[??]|?] ?]|
    destruct (has_flag _ FLAG_INDIRECT); [destruct (read_indirect m d)|]];
    simpl; intros H; simplify_eq; done.
Qed.

Lemma release_wf_bytes m q chain written r :
  wf_bytes m → release m q chain written = Ok r → wf_bytes r.2.
Proof.
  intros Hm. unfold release. destruct (read_descriptor m _) as [d|e]; simpl; [|done].
  destruct (negb _); [done|]. intros [= <-]. simpl.
  unfold write_u32, write_u16. repeat apply wf_store_bytes; auto with collabo.
Qed.

(** ** The queue invariant every operation keeps *)

(** A queue the driver set up within the virtio limits, with its cursors at some positions. *)
Record queue_ok (q : Queue) : Prop := {
  ok_wf : queue_wf q;
  ok_avail : ∃ a, avail_pos q a;
  ok_used : ∃ u, used_pos q u;
}.

Lemma queue_new_ok n at_ i :
  0 < n <= 32768 → 0 <= at_ → at_ + 16 * n <= 4294967296 → queue_ok (queue_new n at_ i).
Proof.
  intros Hn Ha Hat. split; [split; simpl; unfold DESCRIPTOR_SIZE; lia| |];
    exists 0; split_and!; try done.
Qed.

Lemma queue_wf_size q : queue_wf q → 0 <= size q < 65536.
Proof. intros [??]. lia. Qed.

Lemma pop_queue_ok m q :
  queue_ok q → queue_ok (pop m q).2 ∧ same_ring q (pop m q).2 ∧
    (∀ c, (pop m q).1 = Ok (Some c) → 0 < skip c <= size q).
Proof.
  intros [Hwf [a Ha] [u (Hu0 & Hu1 & Hu2)]].
  destruct (pop_moved m q a) as (a' & [Hle Hpos Hs [Hi Hw] Hr] & Hres); [by apply queue_wf_size|done|].
  split; [split|split].
  - by eapply same_ring_wf.
  - by exists a'.
  - exists u. split; [done|]. by rewrite (same_ring_size _ _ Hs), Hi, Hw.
  - done.
  - intros c Hc. rewrite Hc in Hres. destruct Hres as [? ->].
    pose proof (ready_range_bound _ _ _ _ Hr). destruct Hwf. unfold ring_size in *. lia.
Qed.

Lemma release_queue_ok m q chain written r :
  queue_ok q → 0 < skip chain <= size q → release m q chain written = Ok r →
  queue_ok r.1.2 ∧ same_ring q r.1.2 ∧ avail_index r.1.2 = avail_index q ∧
  avail_wrap r.1.2 = avail_wrap q ∧ length r.2 = length m.
Proof.
  intros [Hwf [a (Ha & Hi & Hw)] [u Hu]] Hk Hr.
  assert (slot_ready m q u) as Hru by (apply (release_iff_ready m q u chain written); eauto).
  destruct (release_pos m q u chain written) as (q' & Hrel & Hu' & Hs & Hai & Haw); [done..|].
  rewrite Hr in Hrel. injection Hrel as ->. simpl. split_and!; [split|..]; try done.
  - by eapply same_ring_wf.
  - exists a. split; [done|]. by rewrite (same_ring_size _ _ Hs), Hai, Haw.
  - by exists (u + skip chain).
  - apply length_store_bytes.
Qed.

(** ** Devices and the slots the machine keeps them in *)

(** [trait Device].  Every operation returns its result together with the state it leaves, which
    the code mutates in place also when it fails. *)
Class Device (D : Type) := {
  device_id : D → Z;
  features : D → Z;
  config : D → list Z;
  notify : D → Z → Queue → mem → result error (list Z) * (D * Queue * mem);
  poll : D → list (option Queue) → mem → result error (list Z) * (D * list (option Queue) * mem);
  reset : D → D;
  (** [as_any_console]: what the host types goes into the device, when it is the console. *)
  write_input : D → option (list Z → option Queue → mem →
                            result error (list Z) * (D * option Queue * mem));
}.

(** A device plus the queues the guest has set up for it. *)
Record Connected (D : Type) := mk_connected {
  device : D;
  queues : list (option Queue);
  config_irq : Z;
  config_at : Z;
  config_len : Z;
}.
Arguments mk_connected {D}.
Arguments device {D}.
Arguments queues {D}.
Arguments config_irq {D}.
Arguments config_at {D}.
Arguments config_len {D}.

Section connected.
Context {D : Type} `{!Device D}.
Implicit Types c : Connected D.

Definition connected_new (d : D) : Connected D :=
  {| device := d; queues := []; config_irq := 0; config_at := 0; config_len := 0 |}.

Definition with_state c (d : D) (qs : list (option Queue)) : Connected D :=
  {| device := d; queues := qs; config_irq := config_irq c; config_at := config_at c;
     config_len := config_len c |}.

(** Copies the configuration into the guest, as much as it has room for. *)
Definition setup c (m : mem) (config_irq config_at config_len : Z) : Connected D * mem :=
  let c := {| device := device c; queues := queues c; config_irq := config_irq;
              config_at := config_at; config_len := config_len |} in
  let cfg := config (device c) in
  let length := Nat.min (length cfg) (Z.to_nat config_len) in
  (c, store_bytes m config_at (take length cfg)).

Definition enable_queue c (index size descriptors_at irq : Z) : Connected D :=
  let i := Z.to_nat index in
  let qs := if bool_decide (length (queues c) ≤ i)%nat
            then queues c ++ replicate (i + 1 - length (queues c)) None
            else queues c in
  with_state c (device c) (<[i := Some (queue_new size descriptors_at irq)]> qs).

Definition disable_queue c (index : Z) : Connected D :=
  with_state c (device c) (<[Z.to_nat index := None]> (queues c)).

Definition connected_reset c : Connected D := with_state c (reset (device c)) [].

(** A kick on a queue, then whatever the host has waiting on another. *)
Definition connected_notify c (m : mem) (index : Z)
    : result error (list Z) * (Connected D * mem) :=
  let '(r, (d, qs, m)) :=
    match queues c !! Z.to_nat index with
    | Some (Some q) =>
        let '(r, (d, q, m)) := notify (device c) index q m in
        (r, (d, <[Z.to_nat index := Some q]> (queues c), m))
    | _ => (Ok [], (device c, queues c, m))
    end in
  match r with
  | Err e => (Err e, (with_state c d qs, m))
  | Ok irqs =>
      let '(r, (d, qs, m)) := poll d qs m in
      (more ← r; Ok (irqs ++ more), (with_state c d qs, m))
  end.

Definition connected_poll c (m : mem) : result error (list Z) * (Connected D * mem) :=
  let '(r, (d, qs, m)) := poll (device c) (queues c) m in
  (r, (with_state c d qs, m)).

Definition console_input c (bytes : list Z) (m : mem)
    : result error (list Z) * (Connected D * mem) :=
  match write_input (device c) with
  | None => (Ok [], (c, m))
  | Some input =>
      let '(r, (d, q, m)) := input bytes (default None (queues c !! 0%nat)) m in
      (r, (with_state c d (<[0%nat := q]> (queues c)), m))
  end.
End connected.

(** Every queue of a device's slots keeps the invariant. *)
Definition slots_ok (qs : list (option Queue)) : Prop :=
  Forall (λ o, ∀ q, o = Some q → queue_ok q) qs.

(** What a device promises about the queues it is handed, whatever it does with them: they keep
    the queue invariant, and the memory keeps its size. *)
Class DeviceLaws (D : Type) `{!Device D} := {
  notify_keeps d i q (m : mem) :
    queue_ok q →
    queue_ok (notify d i q m).2.1.2 ∧ length (notify d i q m).2.2 = length m;
  poll_keeps d qs (m : mem) :
    slots_ok qs →
    slots_ok (poll d qs m).2.1.2 ∧ length (poll d qs m).2.2 = length m;
  input_keeps d input bytes q (m : mem) :
    write_input d = Some input → (∀ q', q = Some q' → queue_ok q') →
    (∀ q', (input bytes q m).2.1.2 = Some q' → queue_ok q') ∧
    length (input bytes q m).2.2 = length m;
}.

Lemma slots_ok_insert qs i o :
  slots_ok qs → (∀ q, o = Some q → queue_ok q) → slots_ok (<[i := o]> qs).
Proof. intros. by apply Forall_insert. Qed.

Lemma slots_ok_lookup qs i q : slots_ok qs → qs !! i = Some (Some q) → queue_ok q.
Proof. intros H Hi. by eapply (Forall_lookup_1 _ _ _ _ H Hi). Qed.

(** ** The loop the devices share

    [while let Some(chain) = queue.pop()? { ...; irqs.push(queue.release(chain, written)?) }],
    with the loop's own guard [more], and [lost] for what the loop holds in its hands when [pop]
    fails (the packet [poll] already took from its queue). *)
Section drain.
Context {S : Type}.
Variable more : S → bool.
Variable lost : S → S.
Variable body : S → mem → Chain → result error Z * (S * mem).

Fixpoint drain (fuel : nat) (s : S) (q : Queue) (m : mem) (irqs : list Z)
    : result error (list Z) * (S * Queue * mem) :=
  if more s then
    match fuel with
    | O => (Err LoopBound, (s, q, m))
    | Datatypes.S fuel =>
        let '(popped, q) := pop m q in
        match popped with
        | Err e => (Err e, (lost s, q, m))
        | Ok None => (Ok irqs, (s, q, m))
        | Ok (Some chain) =>
            let '(r, (s, m)) := body s m chain in
            match r with
            | Err e => (Err e, (s, q, m))
            | Ok written =>
                match release m q chain written with
                | Err e => (Err e, (s, q, m))
                | Ok (irq, q, m) => drain fuel s q m (irqs ++ [irq])
                end
            end
        end
    end
  else (Ok irqs, (s, q, m)).

(** The loop keeps the queue invariant and the memory's size. *)
Lemma drain_keeps fuel s q m irqs :
  (∀ s m c, length (body s m c).2.2 = length m) →
  queue_ok q →
  queue_ok (drain fuel s q m irqs).2.1.2 ∧ length (drain fuel s q m irqs).2.2 = length m.
Proof.
  intros Hbody. revert s q m irqs; induction fuel as [|fuel IH]; intros s q m irqs Hq; simpl.
  { by destruct (more s). }
  destruct (more s); [|done]. destruct (pop_queue_ok m q Hq) as (Hq1 & Hs & Hk).
  destruct (pop m q) as [[[c|]|e] q1]; simpl in *; [|done..].
  specialize (Hbody s m c). destruct (body s m c) as [[w|e] [s1 m1]]; simpl in *; [|done].
  destruct (release m1 q1 c w) as [[[i q2] m2]|e] eqn:Hr; simpl; [|done].
  destruct (release_queue_ok m1 q1 c w (i, q2, m2)) as (Hq2 & _ & _ & _ & Hlen); [done| |done|].
  { destruct Hs as (-> & _). by apply Hk. }
  simpl in *.
  destruct (IH s1 q2 m2 (irqs ++ [i]) Hq2) as [??]. split; [done|]. congruence.
Qed.

(** The loop ends: every turn either makes progress on the device's own measure or publishes no
    descriptor, and the driver cannot have more descriptors available than its ring has. *)
Lemma drain_terminates_inv (inv : S → Prop) (measure : S → nat) q0 fuel s q m irqs a n :
  (∀ s m c, more s = true → inv s → wf_bytes m → mem_size m <= 4294967296 →
     let '(r, (s', m')) := body s m c in
     r ≠ Err LoopBound ∧ inv s' ∧ wf_bytes m' ∧ length m' = length m ∧
     (∀ w, r = Ok w → 0 <= w < 4294967296 ∧
        ((measure s' < measure s)%nat ∨ measure s' = measure s ∧ no_new_ready q0 m m'))) →
  inv s → queue_ok q → same_ring q0 q → avail_pos q a → run_bound m q a n →
  wf_bytes m → mem_size m <= 4294967296 →
  Z.of_nat (measure s) * (ring_size q0 + 1) + n < Z.of_nat fuel →
  (drain fuel s q m irqs).1 ≠ Err LoopBound.
Proof.
  intros Hbody. revert s q m irqs a n; induction fuel as [|fuel IH];
    intros s q m irqs a n Hi Hq H0 Ha Hrun Hwm Hmz Hfuel; simpl.
  { exfalso. assert (0 <= n) by (specialize (Hrun a); rewrite Z.sub_diag in Hrun; apply Hrun;
      intros p ?; lia). unfold ring_size in *. lia. }
  destruct (more s) eqn:Hmore; [|done].
  destruct (pop_queue_ok m q Hq) as (Hq1 & Hs1 & Hk).
  destruct (pop_moved m q a) as (a' & Hmv & Hres); [by apply queue_wf_size, Hq|done|].
  pose proof (pop_id_range m q) as Hid.
  destruct (pop m q) as [[[c|]|e] q1]; simpl in *; [|done|congruence].
  specialize (Hk c eq_refl). specialize (Hid c Hwm eq_refl). destruct Hres as [Hlt _].
  pose proof (run_bound_moved _ _ _ _ _ _ Hmv Hrun) as Hrun1.
  specialize (Hbody s m c Hmore Hi Hwm Hmz).
  destruct (body s m c) as [[w|e] [s1 m1]]; destruct Hbody as (Hne & Hi1 & Hw1 & Hl1 & Hmeas);
    simpl; [|congruence].
  destruct (Hmeas w eq_refl) as [Hw Hdec]. clear Hmeas.
  destruct (release m1 q1 c w) as [[[i q2] m2]|e] eqn:Hr; simpl; cycle 1.
  { by eapply release_Err. }
  assert (0 < skip c <= size q1) as Hk1 by (destruct Hs1 as (-> & _); lia).
  assert (mem_size m1 <= 4294967296) as Hmz1 by (unfold mem_size in *; lia).
  destruct (release_queue_ok m1 q1 c w (i, q2, m2)) as (Hq2 & Hs2 & Hai & Haw & Hl2); [done..|].
  simpl in *. destruct (ok_used q1 Hq1) as [u Hu].
  assert (same_ring q0 q2) as H02 by (trans q; [done|by trans q1]).
  assert (avail_pos q2 a') as Ha2.
  { destruct Hmv as [_ (Hp0 & Hp1 & Hp2) _ _ _]. split; [done|].
    by rewrite (same_ring_size _ _ Hs2), Hai, Haw. }
  assert (wf_bytes m2 ∧ no_new_ready q1 m1 m2) as [Hw2 Hnn].
  { split.
    - by eapply (release_wf_bytes m1 q1 c w (i, q2, m2)).
    - by eapply (release_no_new_ready m1 q1 u c w (i, q2, m2) (ok_wf q1 Hq1)). }
  destruct Hdec as [Hdec|[Heq Hnn1]].
  - apply (IH _ _ _ _ a' (ring_size q2)); try done.
    + apply run_bound_size.
    + unfold mem_size in *. lia.
    + rewrite (same_ring_size _ _ H02).
      assert (0 <= n) by (specialize (Hrun a); rewrite Z.sub_diag in Hrun; apply Hrun;
        intros p ?; lia).
      assert (0 < ring_size q0) by (unfold ring_size; lia). nia.
  - apply (IH _ _ _ _ a' (n - (a' - a))); try done.
    + apply (run_bound_same_ring m2 q1); [done|].
      apply (run_bound_no_new m1); [destruct Ha2; lia|done|].
      apply (run_bound_no_new m); [destruct Ha2; lia| |done].
      intros p Hp Hrd. apply (same_ring_ready m q0); [by trans q|]. apply Hnn1; [done|].
      apply (same_ring_ready m1 q0 q1); [by trans q|done].
    + unfold mem_size in *. lia.
    + rewrite Heq. lia.
Qed.

(** The simpler case: every turn uses up some of the device's own work. *)
Lemma drain_bounded (measure : S → nat) fuel s q m irqs :
  (∀ s m c, more s = true →
     (body s m c).1 ≠ Err LoopBound ∧
     (∀ w, (body s m c).1 = Ok w → (measure (body s m c).2.1 < measure s)%nat)) →
  queue_ok q → (measure s < fuel)%nat → (drain fuel s q m irqs).1 ≠ Err LoopBound.
Proof.
  intros Hbody. revert s q m irqs; induction fuel as [|fuel IH]; intros s q m irqs Hq Hf; [lia|].
  simpl. destruct (more s) eqn:Hmore; [|done].
  destruct (ok_avail q Hq) as [a Ha]. destruct (pop_queue_ok m q Hq) as (Hq1 & Hs & Hk).
  destruct (pop_moved m q a) as (a' & Hmv & Hres); [by apply queue_wf_size, Hq|done|].
  destruct (pop m q) as [[[c|]|e] q1]; simpl in *; [|done|congruence].
  destruct (Hbody s m c Hmore) as [Hne Hdec].
  destruct (body s m c) as [[w|e] [s1 m1]]; simpl in *; [|congruence].
  specialize (Hdec w eq_refl).
  destruct (release m1 q1 c w) as [[[i q2] m2]|e] eqn:Hr; simpl; [|by eapply release_Err].
  destruct (release_queue_ok m1 q1 c w (i, q2, m2)) as (Hq2 & _); [done| |done|].
  { destruct Hs as (-> & _). by apply Hk. }
  apply IH; [done|lia].
Qed.

(** The loop stops only when the device has nothing left, or the driver nothing available. *)
Lemma drain_exhausts fuel s q m irqs out s' q' m' :
  queue_ok q → drain fuel s q m irqs = (Ok out, (s', q', m')) →
  more s' = false ∨ ∃ a, avail_pos q' a ∧ ¬ slot_ready m' q' a.
Proof.
  revert s q m irqs; induction fuel as [|fuel IH]; intros s q m irqs Hq; simpl.
  { destruct (more s) eqn:E; [done|]. intros [= <- <- <- <-]. by left. }
  destruct (more s) eqn:E; [|intros [= <- <- <- <-]; by left].
  destruct (ok_avail q Hq) as [a Ha]. destruct (pop_queue_ok m q Hq) as (Hq1 & Hs & Hk).
  destruct (pop_moved m q a) as (a' & Hmv & Hres); [by apply queue_wf_size, Hq|done|].
  destruct (pop m q) as [[[c|]|e] q1]; simpl in *; [| |done].
  - destruct (body s m c) as [[w|e] [s1 m1]]; [|done].
    destruct (release m1 q1 c w) as [[[i q2] m2]|e] eqn:Hr; [|done].
    destruct (release_queue_ok m1 q1 c w (i, q2, m2)) as (Hq2 & _); [done| |done|].
    { destruct Hs as (-> & _). by apply Hk. }
    by apply IH.
  - intros [= <- <- <- <-]. right. destruct Hres as [-> Hnr]. exists a. destruct Hmv. split; [done|].
    by rewrite (same_ring_ready m q q1).
Qed.
End drain.

(** ** What the guest and the host can do to a device's slots *)
Section transport.
Context {D : Type} `{!Device D, !DeviceLaws D}.

(** One call of the machine on the device; [enable_vring] with a ring the virtio limits allow. *)
Inductive transport_step : Connected D * mem → Connected D * mem → Prop :=
  | step_setup c m i a n :
      transport_step (c, m) (setup c m i a n)
  | step_enable c m index n at_ i :
      0 < n <= 32768 → 0 <= at_ → at_ + 16 * n <= 4294967296 →
      transport_step (c, m) (enable_queue c index n at_ i, m)
  | step_disable c m index :
      transport_step (c, m) (disable_queue c index, m)
  | step_reset c m :
      transport_step (c, m) (connected_reset c, m)
  | step_notify c m index :
      transport_step (c, m) (connected_notify c m index).2
  | step_poll c m :
      transport_step (c, m) (connected_poll c m).2
  | step_input c m bytes :
      transport_step (c, m) (console_input c bytes m).2.

Definition transport_ok (n : nat) (s : Connected D * mem) : Prop :=
  slots_ok (queues s.1) ∧ length s.2 = n.

Lemma connected_notify_keeps c (m : mem) index :
  slots_ok (queues c) → transport_ok (length m) (connected_notify c m index).2.
Proof.
  intros Hs. unfold connected_notify, transport_ok.
  assert (∃ r d qs (m1 : mem),
    match queues c !! Z.to_nat index with
    | Some (Some q) =>
        let '(r, (d, q, m)) := notify (device c) index q m in
        (r, (d, <[Z.to_nat index := Some q]> (queues c), m))
    | _ => (Ok [], (device c, queues c, m))
    end = (r, (d, qs, m1)) ∧ slots_ok qs ∧ length m1 = length m)
    as (r & d & qs & m1 & -> & Hqs & Hm1).
  { destruct (queues c !! Z.to_nat index) as [[q|]|] eqn:Hi; [|by eauto 10..].
    destruct (notify_keeps (device c) index q m) as [Hq Hl]; [by eapply slots_ok_lookup|].
    destruct (notify _ _ _ _) as [r [[d q1] m1]]. simpl in *. do 4 eexists.
    split; [done|]. split; [|done]. apply slots_ok_insert; [done|]. by intros ? [= <-]. }
  destruct r as [irqs|e]; simpl; [|done].
  destruct (poll_keeps d qs m1 Hqs) as [Hp Hl]. destruct (poll d qs m1) as [r2 [[d2 qs2] m2]].
  simpl in *. split; [done|congruence].
Qed.

Lemma transport_step_keeps n s s' :
  transport_step s s' → transport_ok n s → transport_ok n s'.
Proof.
  intros Hstep [Hs Hn]. destruct Hstep; simpl in *; subst.
  - split; [done|]. simpl. apply length_store_bytes.
  - split; [|done]. simpl. apply slots_ok_insert.
    + case_bool_decide; [|done]. apply Forall_app_2; [done|]. by apply Forall_replicate.
    + intros ? [= <-]. by apply queue_new_ok.
  - split; [|done]. simpl. by apply slots_ok_insert.
  - split; [|done]. constructor.
  - by apply connected_notify_keeps.
  - unfold connected_poll, transport_ok. destruct (poll_keeps (device c) (queues c) m Hs) as [Hp Hl].
    destruct (poll _ _ _) as [r [[d qs] m1]]. done.
  - unfold console_input, transport_ok.
    destruct (write_input (device c)) as [input|] eqn:Hw; simpl; [|done].
    destruct (input_keeps (device c) input bytes (default None (queues c !! 0%nat)) m) as [Hq Hl].
    { done. }
    { intros q Hq. destruct (queues c !! 0%nat) as [o|] eqn:E; simpl in Hq; [subst|done].
      by eapply slots_ok_lookup. }
    destruct (input _ _ _) as [r [[d q] m1]]. simpl in *. split; [|done].
    by apply slots_ok_insert.
Qed.

Lemma transport_steps_keep n s s' :
  rtc transport_step s s' → transport_ok n s → transport_ok n s'.
Proof. induction 1; intros Hok; [done|]. eauto using transport_step_keeps. Qed.
End transport.

(** ** Properties of the transport *)

(** C1: taking a request always ends and is accounted for exactly: from cursor position [a] the
    driver's published slots from [a] on are consumed, a chain reports as [skip] how many, the
    used side and the ring are untouched, and nothing is consumed when nothing is available. *)
Theorem virtio_pop_total m q a :
  0 <= size q < 65536 → avail_pos q a →
  ∃ a', a <= a' ∧ avail_pos (pop m q).2 a' ∧ same_ring q (pop m q).2 ∧
    used_index (pop m q).2 = used_index q ∧ used_wrap (pop m q).2 = used_wrap q ∧
    ready_range m q a a' ∧ a' - a <= ring_size q ∧
    match (pop m q).1 with
    | Ok (Some c) => a < a' ∧ skip c = a' - a
    | Ok None => a' = a ∧ ¬ slot_ready m q a
    | Err e => e ≠ LoopBound
    end.
Proof.
  intros Hsz Ha. destruct (pop_moved m q a Hsz Ha) as (a' & [Hle Hp Hs [Hu1 Hu2] Hr] & Hres).
  exists a'. split_and!; try done. by eapply ready_range_bound.
Qed.

(** C2: the device receives exactly the chain the driver published: its buffers in order with
    their addresses, lengths and directions, the id of its first descriptor, and a cursor moved
    past it, also where the chain wraps around the ring's end. *)
Theorem virtio_pop_published m q a d ds :
  0 <= size q < 65536 → avail_pos q a → published m q a (d :: ds) →
  (ds = [] → has_flag (d_flags d) FLAG_INDIRECT = false) →
  ∃ q', pop m q = (Ok (Some {| buffers := to_buffer <$> d :: ds; c_id := d_id d;
                               skip := 1 + Z.of_nat (length ds) |}), q') ∧
    avail_pos q' (a + 1 + Z.of_nat (length ds)) ∧ same_ring q q'.
Proof. apply pop_published_chain. Qed.

(** C3: completing a request: the driver sees the slot at the used position as used in this lap,
    with the chain's id and the written length, the used cursor moves past the whole chain, and
    no byte of guest memory outside the slot's last 8 bytes changes. *)
Theorem virtio_release_publishes m q u chain written :
  queue_wf q → mem_size m <= 4294967296 → wf_bytes m → used_pos q u → 0 < skip chain <= size q →
  0 <= written < 4294967296 → 0 <= c_id chain < 65536 → slot_ready m q u →
  ∃ q' m' d, release m q chain written = Ok (irq q, q', m') ∧
    used_pos q' (u + skip chain) ∧ same_ring q q' ∧
    avail_index q' = avail_index q ∧ avail_wrap q' = avail_wrap q ∧
    descriptor_at m' q (u mod ring_size q) = Ok d ∧ d_length d = written ∧ d_id d = c_id chain ∧
    seen_used (d_flags d) (Z.even (u / ring_size q)) ∧
    has_flag (d_flags d) FLAG_WRITE = bool_decide (0 < written) ∧
    ∀ a n, 0 <= a → 0 <= n →
      disjoint_ranges a n (descriptors_at q + 16 * (u mod ring_size q) + 8) 8 →
      guest_bytes m' a n = guest_bytes m a n.
Proof.
  intros Hwf Hm Hby Hu Hk Hw Hid Hru. pose proof Hru as (d & Hd & _).
  destruct (release_pos m q u chain written) as (q' & Hr & Hu' & Hs & Hai & Haw); [done..|].
  destruct (release_flags_spec (Z.even (u / ring_size q)) written) as (Hf1 & Hf2 & _).
  eexists q', _, _. split; [exact Hr|]. split_and!; try done.
  - apply (released_slot m q u chain written d); try done. apply Hu.
  - done.
  - done.
  - done.
  - done.
  - intros a n Ha Hn Hdj. destruct Hwf as [Hsz Hat]. unfold DESCRIPTOR_SIZE in *.
    assert (0 < ring_size q) as Hpos by (unfold ring_size; lia).
    pose proof (Z.mod_pos_bound u (ring_size q) Hpos).
    apply guest_bytes_store_outside; rewrite ?length_released_bytes;
      unfold ring_size in *; try lia; done.
Qed.

(** *** Instances at concrete inputs *)

(** A ring of four slots at address 0 with a two-descriptor chain at its end: slots 3 and 0 of
    the first and second lap. *)
Definition example_descriptor (address length id flags : Z) : list Z :=
  le_bytes 8 address ++ le_bytes 4 length ++ le_bytes 2 id ++ le_bytes 2 flags.

Definition example_mem : mem :=
  example_descriptor 256 8 7 (FLAG_USED + FLAG_WRITE) ++ replicate 32 0 ++
  example_descriptor 128 16 7 (FLAG_AVAIL + FLAG_NEXT) ++ replicate 200 0.

Definition example_queue : Queue :=
  {| size := 4; descriptors_at := 0; irq := 9; avail_wrap := true; used_wrap := true;
     avail_index := 3; used_index := 3 |}.

Definition example_chain : Chain :=
  {| buffers := [mk_buffer 128 16 false; mk_buffer 256 8 true]; c_id := 7; skip := 2 |}.

Lemma virtio_pop_total_witness :
  ∃ a', 3 <= a' ∧ avail_pos (pop example_mem example_queue).2 a' ∧
    (pop example_mem example_queue).1 = Ok (Some example_chain).
Proof.
  destruct (virtio_pop_total example_mem example_queue 3) as (a' & ? & ? & _).
  - simpl; lia.
  - by vm_compute.
  - exists a'. split_and!; [done|done|by vm_compute].
Defined.

Lemma virtio_pop_published_witness :
  ∃ q', pop example_mem example_queue = (Ok (Some example_chain), q') ∧ avail_pos q' 5.
Proof.
  destruct (virtio_pop_published example_mem example_queue 3
    {| d_address := 128; d_length := 16; d_id := 7; d_flags := 129 |}
    [{| d_address := 256; d_length := 8; d_id := 7; d_flags := 32770 |}]) as (q' & H1 & H2 & _).
  - simpl; lia.
  - by vm_compute.
  - intros [|[|i]] d Hd; simpl in Hd; [injection Hd as <-..|done]; by vm_compute.
  - done.
  - exists q'. split; [exact H1|exact H2].
Defined.

Lemma virtio_release_publishes_witness :
  ∃ q' m' d, release example_mem example_queue example_chain 8 = Ok (9, q', m') ∧
    used_pos q' 5 ∧ descriptor_at m' example_queue 3 = Ok d ∧ d_length d = 8.
Proof.
  destruct (virtio_release_publishes example_mem example_queue 3 example_chain 8)
    as (q' & m' & d & H1 & H2 & _ & _ & _ & H3 & H4 & _).
  - split; unfold DESCRIPTOR_SIZE; simpl; lia.
  - by vm_compute.
  - apply wf_bytes_check. by vm_compute.
  - by vm_compute.
  - simpl; lia.
  - lia.
  - simpl; lia.
  - eexists. split; by vm_compute.
  - exists q', m', d. split_and!; [exact H1|exact H2|exact H3|exact H4].
Defined.
