(* ===== verification/Buffers.v ===== *)
(** * Scattering bytes over the buffers of a request

    The devices that answer the guest copy one run of bytes over the writable buffers of a chain
    (console [deliver], vsock and net [poll], virtio-fs [scatter]).  [spread] is the reference
    for all of them: which bytes go where; [gather] is what the guest reads back. *)
From S2P Require Import Prelude Memory Virtio.

Local Open Scope Z_scope.

(** The address and length of the buffers the device may write. *)
Definition targets (bufs : list Buffer) : list (Z * Z) :=
  (λ b, (b_address b, b_length b)) <$> filter (λ b, writable b = true) bufs.

Lemma targets_cons b bufs :
  targets (b :: bufs) =
  if writable b then (b_address b, b_length b) :: targets bufs else targets bufs.
Proof. unfold targets. rewrite filter_cons. by destruct (writable b). Qed.

(** How many bytes of a run of [k] fit a buffer of [n]. *)
Definition fit (n : Z) (k : nat) : nat := Z.to_nat (Z.min n (Z.of_nat k)).

(** The stores that put [bs] into the targets in order. *)
Fixpoint spread (ts : list (Z * Z)) (bs : list Z) : list (Z * list Z) :=
  match ts with
  | [] => []
  | (a, n) :: ts =>
      let k := fit n (length bs) in
      (a, take k bs) :: spread ts (drop k bs)
  end.

Definition apply_stores (m : mem) (stores : list (Z * list Z)) : mem :=
  foldl (λ m s, store_bytes m s.1 s.2) m stores.

(** The first [n] bytes the guest finds in the targets. *)
Fixpoint gather (m : mem) (ts : list (Z * Z)) (n : nat) : option (list Z) :=
  match ts with
  | [] => Some []
  | (a, k) :: ts =>
      let c := fit k n in
      bs ← guest_bytes m a (Z.of_nat c);
      rest ← gather m ts (n - c);
      Some (bs ++ rest)
  end.

(** The room in the targets, and what of [n] bytes fits them. *)
Fixpoint room (ts : list (Z * Z)) (n : nat) : nat :=
  match ts with
  | [] => 0
  | (_, k) :: ts => fit k n + room ts (n - fit k n)
  end.

(** Buffers inside the guest's memory that do not overlap. *)
Fixpoint targets_ok (size : Z) (ts : list (Z * Z)) : Prop :=
  match ts with
  | [] => True
  | (a, n) :: ts =>
      0 <= a ∧ 0 <= n ∧ a + n <= size ∧
      Forall (λ t, disjoint_ranges a n t.1 t.2) ts ∧ targets_ok size ts
  end.

Lemma fit_le n k : (fit n k ≤ k)%nat.
Proof. unfold fit. lia. Qed.

Lemma fit_bound n k : 0 <= n → Z.of_nat (fit n k) <= n.
Proof. unfold fit. lia. Qed.

Lemma room_le ts n : (room ts n ≤ n)%nat.
Proof.
  revert n; induction ts as [|[a k] ts IH]; intros n; simpl; [lia|].
  pose proof (fit_le k n). specialize (IH (n - fit k n)%nat). lia.
Qed.

Lemma length_apply_stores m st : length (apply_stores m st) = length m.
Proof.
  unfold apply_stores. revert m; induction st as [|[a bs] st IH]; intros m; simpl; [done|].
  by rewrite IH, length_store_bytes.
Qed.

Lemma wf_apply_stores m st :
  wf_bytes m → Forall (λ s, wf_bytes s.2) st → wf_bytes (apply_stores m st).
Proof.
  intros Hm Hst. revert m Hm. induction Hst as [|[a bs] st Hb _ IH]; intros m Hm; [done|].
  apply IH. by apply wf_store_bytes.
Qed.

Lemma wf_spread ts bs : wf_bytes bs → Forall (λ s, wf_bytes s.2) (spread ts bs).
Proof.
  revert bs; induction ts as [|[a n] ts IH]; intros bs Hb; simpl; constructor; simpl.
  - by apply Forall_take.
  - apply IH. by apply Forall_drop.
Qed.

(** Stores into targets leave every range disjoint from all of them. *)
Lemma guest_bytes_spread_outside m ts bs size a n :
  size <= 4294967296 → targets_ok size ts → 0 <= a → 0 <= n →
  Forall (λ t, disjoint_ranges a n t.1 t.2) ts →
  guest_bytes (apply_stores m (spread ts bs)) a n = guest_bytes m a n.
Proof.
  intros Hsz Hts Ha Hn. revert m bs Hts.
  induction ts as [|[b k] ts IH]; intros m bs Hts Hd; simpl; [done|].
  destruct Hts as (Hb & Hk & Hin & _ & Hts). apply Forall_cons in Hd as [Hd Hds].
  change (apply_stores m ((b, take (fit k (length bs)) bs) :: ?x))
    with (apply_stores (store_bytes m b (take (fit k (length bs)) bs)) x).
  pose proof (fit_le k (length bs)). pose proof (fit_bound k (length bs) Hk).
  rewrite IH by done. simpl in Hd. unfold disjoint_ranges in *.
  apply guest_bytes_store_outside; unfold disjoint_ranges; rewrite ?length_take; lia.
Qed.

(** The guest reads back, over the same buffers, what was spread over them. *)
Lemma gather_spread m ts bs :
  mem_size m <= 4294967296 → targets_ok (mem_size m) ts →
  gather (apply_stores m (spread ts bs)) ts (length bs) = Some (take (room ts (length bs)) bs).
Proof.
  intros Hm. revert m Hm bs. induction ts as [|[a n] ts IH]; intros m Hm bs Hts; [done|].
  destruct Hts as (Ha & Hn & Hin & Hd & Hts). simpl.
  set (k := fit n (length bs)).
  assert (k ≤ length bs)%nat as Hk by apply fit_le.
  assert (Z.of_nat k <= n) as Hkn by (by apply fit_bound).
  set (m1 := store_bytes m a (take k bs)).
  change (apply_stores m ((a, take k bs) :: ?x)) with (apply_stores m1 x).
  assert (mem_size m1 = mem_size m) as Hm1 by apply mem_size_store_bytes.
  rewrite (guest_bytes_spread_outside m1 ts _ (mem_size m)).
  - assert (length (take k bs) = k) as Hlt by (rewrite length_take; lia).
    replace (Z.of_nat k) with (Z.of_nat (length (take k bs))) by (by rewrite Hlt).
    assert (guest_bytes m1 a (Z.of_nat (length (take k bs))) = Some (take k bs)) as ->.
    { apply guest_bytes_store_eq; rewrite ?Hlt; lia. }
    simpl.
    specialize (IH m1 ltac:(lia) (drop k bs)). rewrite length_drop in IH.
    rewrite Hm1 in IH. rewrite IH by done. simpl. f_equal.
    rewrite <-(take_drop k (take (k + room ts (length bs - k)) bs)).
    rewrite take_take, skipn_firstn_comm. do 2 f_equal; lia.
  - lia.
  - done.
  - done.
  - lia.
  - eapply Forall_impl; [exact Hd|]. simpl. intros [b j] Hdj. unfold disjoint_ranges in *. simpl in *. lia.
Qed.

(** Nothing left to spread. *)
Lemma room_0 ts : room ts 0 = 0%nat.
Proof. pose proof (room_le ts 0). lia. Qed.

Lemma spread_nil m ts : apply_stores m (spread ts []) = m.
Proof. induction ts as [|[a n] ts IH]; [done|]. simpl. by rewrite take_nil, drop_nil. Qed.

(** What the writable buffers of a chain need to be for a device's answer to arrive. *)
Definition buffers_ok (m : mem) (bufs : list Buffer) : Prop :=
  targets_ok (mem_size m) (targets bufs).

(** One buffer of a device's copying loop: what of [p] from [w] on fits it is written whole. *)
Lemma write_bytes_fit m a n (p : list Z) w :
  mem_size m <= 4294967296 → 0 <= a → 0 <= n → a + n <= mem_size m → (w ≤ length p)%nat →
  let k := fit n (length p - w) in
  write_bytes m a (slice w (w + k) p) = (store_bytes m a (take k (drop w p)), k).
Proof.
  intros Hm Ha Hn Hin Hw k.
  assert (k ≤ length p - w)%nat by apply fit_le. assert (Z.of_nat k <= n) by (by apply fit_bound).
  assert (length (slice w (w + k) p) = k) as Hlen by (rewrite length_slice; lia).
  rewrite write_bytes_in by (rewrite ?Hlen; unfold mem_size in *; lia).
  rewrite <-store_bytes_inserts by (rewrite ?Hlen; unfold mem_size in *; lia). rewrite Hlen.
  unfold slice. by replace (w + k - w)%nat with k by lia.
Qed.

(** The rest of the loop, after one buffer. *)
Lemma spread_cons m a n ts (p : list Z) w :
  let k := fit n (length p - w) in
  apply_stores m (spread ((a, n) :: ts) (drop w p)) =
    apply_stores (store_bytes m a (take k (drop w p))) (spread ts (drop (w + k) p)) ∧
  (w + room ((a, n) :: ts) (length p - w) = w + k + room ts (length p - (w + k)))%nat.
Proof.
  intros k. simpl. rewrite length_drop. fold k. rewrite drop_drop. split; [done|].
  replace (length p - w - k)%nat with (length p - (w + k))%nat by lia. lia.
Qed.

(** Everything fits when there is room for it. *)
Lemma room_total ts n :
  Forall (λ t, 0 <= t.2) ts → Z.of_nat n <= foldr (λ t c, t.2 + c) 0 ts → room ts n = n.
Proof.
  revert n; induction ts as [|[a k] ts IH]; intros n Hts Hn; simpl in *; [lia|].
  apply Forall_cons in Hts as [Hk Hts]. simpl in Hk.
  assert (0 <= foldr (λ t c, t.2 + c) 0 ts) as Hf.
  { clear -Hts. induction Hts as [|[b j] ts Hj _ IH]; simpl in *; lia. }
  rewrite IH; [|done|]; unfold fit; lia.
Qed.

Lemma targets_ok_lengths size ts : targets_ok size ts → Forall (λ t, 0 <= t.2) ts.
Proof. induction ts as [|[a n] ts IH]; [constructor|]. intros (_ & ? & _ & _ & ?). constructor; auto. Qed.
