(* ===== verification/Console.v ===== *)
(** * The guest's terminal (engine/src/console.rs)

    The virtio console: input typed on the host waits in [pending_input] until the guest offers
    buffers on queue 0; what the guest writes on queue 1 goes to the host's output callback,
    modelled as the log of the byte runs it is called with. *)
From S2P Require Import Prelude Memory Virtio Buffers.

Local Open Scope Z_scope.

Definition FEATURE_SIZE : Z := 1.

Record Console := mk_console {
  columns : Z;
  rows : Z;
  pending_input : list Z;
  output : list (list Z);
}.

Definition console_new (columns rows : Z) : Console :=
  {| columns := columns; rows := rows; pending_input := []; output := [] |}.

Definition set_pending (c : Console) (p : list Z) : Console :=
  {| columns := columns c; rows := rows c; pending_input := p; output := output c |}.

Definition emit (c : Console) (bytes : list Z) : Console :=
  {| columns := columns c; rows := rows c; pending_input := pending_input c;
     output := output c ++ [bytes] |}.

(** The inner loop of [deliver] over one chain's buffers. *)
Fixpoint fill (bufs : list Buffer) (pending : list Z) (m : mem) (written : Z)
    : list Z * mem * Z :=
  match bufs with
  | [] => (pending, m, written)
  | b :: bufs =>
      if negb (writable b) then fill bufs pending m written
      else
        let k := Z.to_nat (Z.min (b_length b) (Z.of_nat (length pending))) in
        if (k =? 0)%nat then (pending, m, written)
        else fill bufs (drop k pending) (store_bytes m (b_address b) (take k pending))
               (u32 (written + Z.of_nat k))
  end.

Definition has_pending (c : Console) : bool := bool_decide (pending_input c ≠ []).

Definition deliver_chain (c : Console) (m : mem) (chain : Chain) : result error Z * (Console * mem) :=
  let '(pending, m, written) := fill (buffers chain) (pending_input c) m 0 in
  (Ok written, (set_pending c pending, m)).

(** Enough turns for [deliver]: each either takes a byte of the input or a slot of the ring. *)
Definition deliver_fuel (c : Console) (q : Queue) : nat :=
  (length (pending_input c) + 1) * (Z.to_nat (ring_size q) + 1) + 1.

(** Fills as many of the guest's receive buffers as there is input for. *)
Definition deliver (c : Console) (q : Queue) (m : mem)
    : result error (list Z) * (Console * Queue * mem) :=
  drain has_pending id deliver_chain (deliver_fuel c q) c q m [].

(** Queues input for the guest, delivering what it can at once. *)
Definition console_write_input (c : Console) (bytes : list Z) (q : option Queue) (m : mem)
    : result error (list Z) * (Console * option Queue * mem) :=
  let c := set_pending c (pending_input c ++ bytes) in
  match q with
  | Some q => let '(r, (c, q, m)) := deliver c q m in (r, (c, Some q, m))
  | None => (Ok [], (c, None, m))
  end.

(** What the guest wrote in one chain: each readable buffer inside its memory, in order. *)
Definition write_chain (c : Console) (m : mem) (chain : Chain) : result error Z * (Console * mem) :=
  let step c b :=
    if writable b then c
    else match guest_bytes m (u32 (b_address b)) (b_length b) with
         | Some bytes => emit c bytes
         | None => c
         end in
  (Ok 0, (foldl step c (buffers chain), m)).

Definition console_config (c : Console) : list Z :=
  le_bytes 2 (columns c) ++ le_bytes 2 (rows c) ++ le_bytes 4 1 ++ le_bytes 4 0.

Definition console_notify (c : Console) (queue_index : Z) (q : Queue) (m : mem)
    : result error (list Z) * (Console * Queue * mem) :=
  if queue_index =? 0 then deliver c q m
  else drain (λ _, true) id write_chain (Z.to_nat (ring_size q) + 1) c q m [].

#[export] Instance Console_device : Device Console := {|
  device_id _ := 3;
  features _ := FEATURE_SIZE;
  config := console_config;
  notify := console_notify;
  poll c qs m := (Ok [], (c, qs, m));
  reset c := c;
  write_input c := Some (console_write_input c);
|}.

(** ** Lemmas *)

Lemma length_fill bufs pending m w : length (fill bufs pending m w).1.2 = length m.
Proof.
  revert pending m w; induction bufs as [|b bufs IH]; intros pending m w; simpl; [done|].
  destruct (negb _); [done|]. destruct (_ =? _)%nat; [done|]. by rewrite IH, length_store_bytes.
Qed.

Lemma deliver_chain_length c m chain : length (deliver_chain c m chain).2.2 = length m.
Proof.
  unfold deliver_chain. pose proof (length_fill (buffers chain) (pending_input c) m 0).
  by destruct (fill _ _ _ _) as [[p m'] w].
Qed.

Lemma console_notify_keeps c i q m :
  queue_ok q →
  queue_ok (console_notify c i q m).2.1.2 ∧ length (console_notify c i q m).2.2 = length m.
Proof.
  intros Hq. unfold console_notify, deliver.
  destruct (i =? 0); apply drain_keeps; auto using deliver_chain_length.
Qed.

#[export] Instance Console_laws : DeviceLaws Console.
Proof.
  split.
  - intros. by apply console_notify_keeps.
  - done.
  - intros c input bytes q m [= <-] Hq. unfold console_write_input. destruct q as [q|]; [|done].
    pose proof (console_notify_keeps (set_pending c (pending_input c ++ bytes)) 0 q m (Hq q eq_refl))
      as [H1 H2]. unfold console_notify in *. simpl in *.
    destruct (deliver _ _ _) as [r [[c' q'] m']]. simpl in *. split; [|done]. by intros ? [= <-].
Qed.

(** [fill] is [spread], as long as no writable buffer is empty. *)
Lemma fill_spread bufs pending m w :
  Forall (λ t, 0 < t.2) (targets bufs) → 0 <= w →
  w + Z.of_nat (length pending) < 4294967296 →
  let r := room (targets bufs) (length pending) in
  fill bufs pending m w =
    (drop r pending, apply_stores m (spread (targets bufs) pending), w + Z.of_nat r).
Proof.
  revert pending m w; induction bufs as [|b bufs IH]; intros pending m w Hpos Hw Hlen; simpl.
  { by rewrite drop_0, Z.add_0_r. }
  rewrite targets_cons in *.
  destruct (writable b) eqn:Hb; simpl; [|by rewrite IH].
  apply Forall_cons in Hpos as [Hp Hpos]. simpl in Hp |- *.
  set (k := fit (b_length b) (length pending)).
  change (Z.to_nat (Z.min (b_length b) (Z.of_nat (length pending)))) with k.
  assert (k ≤ length pending)%nat by apply fit_le.
  destruct (Nat.eqb_spec k 0) as [Hk|Hk].
  - assert (pending = []) as ->.
    { destruct pending; [done|]. unfold k, fit in Hk. simpl in Hk. lia. }
    rewrite Hk, drop_0, take_0. simpl. rewrite room_0. simpl. f_equal; [|lia]. f_equal.
    change (apply_stores m ((b_address b, []) :: ?x)) with (apply_stores m x).
    by rewrite spread_nil.
  - rewrite u32_small by lia. rewrite IH by (rewrite ?length_drop; done || lia).
    rewrite length_drop, drop_drop. f_equal. lia.
Qed.

Lemma set_pending_pending c p : pending_input (set_pending c p) = p.
Proof. done. Qed.

(** A turn of [deliver] consumes input, or leaves the memory as it is. *)
Lemma fill_progress bufs pending m w :
  wf_bytes m → wf_bytes pending → 0 <= w < 4294967296 →
  let '(pending', m', w') := fill bufs pending m w in
  wf_bytes m' ∧ wf_bytes pending' ∧ 0 <= w' < 4294967296 ∧
  ((length pending' < length pending)%nat ∨ pending' = pending ∧ m' = m).
Proof.
  revert pending m w; induction bufs as [|b bufs IH]; intros pending m w Hm Hp Hw; simpl.
  { split_and!; auto; lia. }
  destruct (negb _); [by apply IH|].
  set (k := Z.to_nat _). destruct (Nat.eqb_spec k 0) as [Hk|Hk].
  { split_and!; auto; lia. }
  specialize (IH (drop k pending) (store_bytes m (b_address b) (take k pending))
    (u32 (w + Z.of_nat k))).
  destruct (fill _ _ _ _) as [[p' m'] w']. destruct IH as (? & ? & ? & IH).
  - apply wf_store_bytes; [done|]. by apply Forall_take.
  - by apply Forall_drop.
  - apply u32_range.
  - split_and!; try done; try lia. left. rewrite length_drop in IH.
    assert (k ≤ length pending)%nat by (unfold k; lia).
    destruct IH as [?|[-> _]]; [lia|]. rewrite length_drop. lia.
Qed.

Lemma deliver_terminates c q m :
  queue_ok q → wf_bytes m → wf_bytes (pending_input c) → mem_size m <= 4294967296 →
  (deliver c q m).1 ≠ Err LoopBound.
Proof.
  intros Hq Hm Hp Hmz. destruct (ok_avail q Hq) as [a Ha]. unfold deliver.
  (* the pending input stays bytes: carry it in the device state *)
  apply (drain_terminates_inv has_pending id deliver_chain (λ c, wf_bytes (pending_input c))
           (λ c, length (pending_input c)) q _ c q m [] a (ring_size q)); try done.
  - intros s m1 ch _ Hs Hm1 _. unfold deliver_chain.
    pose proof (fill_progress (buffers ch) (pending_input s) m1 0 Hm1 Hs ltac:(lia)) as Hf.
    pose proof (length_fill (buffers ch) (pending_input s) m1 0) as Hl.
    destruct (fill _ _ _ _) as [[p' m'] w']. destruct Hf as (? & ? & ? & Hf). simpl in *.
    split_and!; try done. intros w [= <-]. split; [done|].
    destruct Hf as [?|[-> ->]]; [by left|right]. split; [done|]. by intros p.
  - apply run_bound_size.
  - unfold deliver_fuel. assert (0 < ring_size q) by (unfold ring_size; lia). lia.
Qed.

(** ** Properties of the console *)

(** One receive request of the guest: the typed bytes arrive in its buffers in order, as many
    as fit, the device reports that length, and exactly those bytes leave the waiting input. *)
Lemma console_input_arrives c m chain :
  mem_size m <= 4294967296 → buffers_ok m (buffers chain) →
  Forall (λ t, 0 < t.2) (targets (buffers chain)) →
  Z.of_nat (length (pending_input c)) < 4294967296 →
  let pending := pending_input c in
  let n := room (targets (buffers chain)) (length pending) in
  ∃ m', deliver_chain c m chain = (Ok (Z.of_nat n), (set_pending c (drop n pending), m')) ∧
    gather m' (targets (buffers chain)) (length pending) = Some (take n pending).
Proof.
  intros Hm Hb Hpos Hlen pending n. unfold deliver_chain.
  rewrite fill_spread by (done || lia). eexists. split; [done|]. by apply gather_spread.
Qed.

(** Delivering input always ends, and when it succeeds no input is held back while the guest
    still offers a buffer: either nothing is waiting, or the next slot is not available. *)
Lemma console_deliver_total c q m :
  queue_ok q → wf_bytes m → wf_bytes (pending_input c) → mem_size m <= 4294967296 →
  let '(r, (c', q', m')) := deliver c q m in
  r ≠ Err LoopBound ∧
  ∀ irqs, r = Ok irqs →
    pending_input c' = [] ∨ ∃ a, avail_pos q' a ∧ ¬ slot_ready m' q' a.
Proof.
  intros Hq Hm Hp Hmz. pose proof (deliver_terminates c q m Hq Hm Hp Hmz) as Ht.
  destruct (deliver c q m) as [r [[c' q'] m']] eqn:E. split; [done|].
  intros irqs ->. destruct (drain_exhausts _ _ _ _ _ _ _ _ _ _ _ _ Hq E) as [E'|E']; [left|by right].
  unfold has_pending in E'. apply bool_decide_eq_false in E'. by apply dec_stable.
Qed.

(** *** Instances at concrete inputs *)

Definition example_rx_chain : Chain :=
  {| buffers := [mk_buffer 128 2 true; mk_buffer 100 4 false; mk_buffer 140 3 true];
     c_id := 1; skip := 3 |}.

Definition example_console : Console := set_pending (console_new 80 24) [108; 115; 10].

Lemma console_input_arrives_witness :
  ∃ m', deliver_chain example_console example_mem example_rx_chain =
          (Ok 3, (set_pending example_console [], m')) ∧
        gather m' [(128, 2); (140, 3)] 3 = Some [108; 115; 10].
Proof.
  destruct (console_input_arrives example_console example_mem example_rx_chain) as (m' & H1 & H2).
  - by vm_compute.
  - unfold buffers_ok, disjoint_ranges. change (mem_size example_mem) with 264. simpl.
    split_and!; try lia; repeat constructor; simpl; lia.
  - repeat constructor.
  - by vm_compute.
  - exists m'. split; [exact H1|exact H2].
Defined.

Lemma console_deliver_total_witness :
  (deliver example_console example_queue example_mem).1 ≠ Err LoopBound.
Proof.
  pose proof (console_deliver_total example_console example_queue example_mem) as H.
  destruct (deliver example_console example_queue example_mem) as [r [[c q] m]]. apply H.
  - split; [split; unfold DESCRIPTOR_SIZE; simpl; lia| |]; exists 3; by vm_compute.
  - apply wf_bytes_check. by vm_compute.
  - apply wf_bytes_check. by vm_compute.
  - by vm_compute.
Defined.
