(* ===== verification/Vsock.v ===== *)
(** * virtio-vsock (engine/src/vsock.rs)

    Stream connections between host and guest: the 44-byte packet header, a connection's state
    with its credit counters, the registry that finds the connection of a packet, the streams
    other threads read and write, and the device that moves packets through the queues.

    Connections are shared ([Arc<Connection>]): they live in a store [conns] and the registry and
    the streams refer to them by their place in it, so a stream keeps working after the registry
    has forgotten its key.  The blocking operations are modelled by what one turn of their loop
    does under the connection's lock; waiting on the condition variable is the outcome [Wait], and
    other threads run in between (see [write_run] and the environment steps). *)
From stdpp Require Import strings.
From S2P Require Import Prelude Memory Virtio Buffers.

Local Open Scope Z_scope.

Definition HOST_CID : Z := 2.
Definition HEADER_SIZE : nat := 44.
Definition BUF_ALLOC : Z := 262144.
Definition MAX_PAYLOAD : Z := 2048.
Definition TYPE_STREAM : Z := 1.
Definition OP_REQUEST : Z := 1.
Definition OP_RESPONSE : Z := 2.
Definition OP_RST : Z := 3.
Definition OP_SHUTDOWN : Z := 4.
Definition OP_RW : Z := 5.
Definition OP_CREDIT_UPDATE : Z := 6.
Definition OP_CREDIT_REQUEST : Z := 7.
Definition SHUTDOWN_BOTH : Z := 3.

Record Header := mk_header {
  src_port : Z;
  dst_port : Z;
  h_len : Z;
  op : Z;
  buf_alloc : Z;
  fwd_cnt : Z;
}.

(** [Header::parse]. *)
Definition parse_header (bytes : list Z) : result error Header :=
  if bool_decide (length bytes < HEADER_SIZE)%nat then Err (ShortHeader (length bytes))
  else
    let u32_at at_ := le_val (slice at_ (at_ + 4) bytes) in
    Ok {| src_port := u32_at 16%nat; dst_port := u32_at 20%nat; h_len := u32_at 24%nat;
          op := le_val (slice 30 32 bytes); buf_alloc := u32_at 36%nat; fwd_cnt := u32_at 40%nat |}.

Record Address := mk_address {
  guest_cid : Z;
  local_port : Z;
  peer_port : Z;
}.

Definition packet (a : Address) (op flags : Z) (payload : list Z) (fwd_cnt : Z) : list Z :=
  le_bytes 8 HOST_CID ++ le_bytes 8 (guest_cid a) ++ le_bytes 4 (local_port a) ++
  le_bytes 4 (peer_port a) ++ le_bytes 4 (Z.of_nat (length payload)) ++
  le_bytes 2 TYPE_STREAM ++ le_bytes 2 op ++ le_bytes 4 flags ++ le_bytes 4 BUF_ALLOC ++
  le_bytes 4 fwd_cnt ++ payload.

Record ConnectionState := mk_state {
  incoming : list Z;
  connected : bool;
  st_closed : bool;
  st_error : option string;
  bytes_read : Z;
  credited : Z;
  bytes_written : Z;
  peer_buf_alloc : Z;
  peer_fwd_cnt : Z;
  deadline : option Z;
}.

Record Connection := mk_connection {
  address : Address;
  state : ConnectionState;
}.

(** [Connection::new]: the rest of the state is its default. *)
Definition connection_new (a : Address) (connected : bool) : Connection :=
  {| address := a;
     state := {| incoming := []; connected := connected; st_closed := false; st_error := None;
                 bytes_read := 0; credited := 0; bytes_written := 0; peer_buf_alloc := BUF_ALLOC;
                 peer_fwd_cnt := 0; deadline := None |} |}.

(** [close_from_peer]: the first reason stays. *)
Definition close_from_peer (error : option string) (s : ConnectionState) : ConnectionState :=
  {| incoming := incoming s; connected := connected s; st_closed := true;
     st_error := match st_error s with None => error | Some e => Some e end;
     bytes_read := bytes_read s; credited := credited s; bytes_written := bytes_written s;
     peer_buf_alloc := peer_buf_alloc s; peer_fwd_cnt := peer_fwd_cnt s; deadline := deadline s |}.

Definition update_credit (buf_alloc fwd_cnt : Z) (s : ConnectionState) : ConnectionState :=
  {| incoming := incoming s; connected := connected s; st_closed := st_closed s;
     st_error := st_error s; bytes_read := bytes_read s; credited := credited s;
     bytes_written := bytes_written s; peer_buf_alloc := buf_alloc; peer_fwd_cnt := fwd_cnt;
     deadline := deadline s |}.

Definition enqueue (payload : list Z) (s : ConnectionState) : ConnectionState :=
  {| incoming := incoming s ++ payload; connected := connected s; st_closed := st_closed s;
     st_error := st_error s; bytes_read := bytes_read s; credited := credited s;
     bytes_written := bytes_written s; peer_buf_alloc := peer_buf_alloc s;
     peer_fwd_cnt := peer_fwd_cnt s; deadline := deadline s |}.

Definition set_connected (s : ConnectionState) : ConnectionState :=
  {| incoming := incoming s; connected := true; st_closed := st_closed s;
     st_error := st_error s; bytes_read := bytes_read s; credited := credited s;
     bytes_written := bytes_written s; peer_buf_alloc := peer_buf_alloc s;
     peer_fwd_cnt := peer_fwd_cnt s; deadline := deadline s |}.

Definition set_closed (s : ConnectionState) : ConnectionState :=
  {| incoming := incoming s; connected := connected s; st_closed := true;
     st_error := st_error s; bytes_read := bytes_read s; credited := credited s;
     bytes_written := bytes_written s; peer_buf_alloc := peer_buf_alloc s;
     peer_fwd_cnt := peer_fwd_cnt s; deadline := deadline s |}.

Definition set_deadline (d : option Z) (s : ConnectionState) : ConnectionState :=
  {| incoming := incoming s; connected := connected s; st_closed := st_closed s;
     st_error := st_error s; bytes_read := bytes_read s; credited := credited s;
     bytes_written := bytes_written s; peer_buf_alloc := peer_buf_alloc s;
     peer_fwd_cnt := peer_fwd_cnt s; deadline := d |}.

(** ** One turn of a blocking operation, under the connection's lock *)

(** What a turn of [read] comes to; [Got] carries the credit update it has to send, if any. *)
Inductive read_outcome : Type :=
  | Got (bytes : list Z) (credit : option Z)
  | EndOfStream
  | Failed (error : string)
  | TimedOut
  | Wait.

(** The state after consuming [k] bytes of the input, and the forward count to announce. *)
Definition consume (k : nat) (s : ConnectionState) : ConnectionState * option Z :=
  let read := u32 (bytes_read s + Z.of_nat k) in
  let credit := BUF_ALLOC / 4 <=? u32 (read - credited s) in
  ({| incoming := drop k (incoming s); connected := connected s; st_closed := st_closed s;
      st_error := st_error s; bytes_read := read;
      credited := if credit then read else credited s;
      bytes_written := bytes_written s; peer_buf_alloc := peer_buf_alloc s;
      peer_fwd_cnt := peer_fwd_cnt s; deadline := deadline s |},
   if credit then Some read else None).

Definition read_turn (now : Z) (want : nat) (s : ConnectionState)
    : read_outcome * ConnectionState :=
  if bool_decide (incoming s ≠ []) then
    let k := Nat.min (length (incoming s)) want in
    let '(s', credit) := consume k s in
    (Got (take k (incoming s)) credit, s')
  else if st_closed s then
    match st_error s with
    | Some e => (Failed e, s)
    | None => (EndOfStream, s)
    end
  else
    match deadline s with
    | None => (Wait, s)
    | Some d => if sat_sub d now =? 0 then (TimedOut, s) else (Wait, s)
    end.

(** What a turn of [write_all] comes to: a chunk to send with the forward count it carries. *)
Inductive write_outcome : Type :=
  | Chunk (payload : list Z) (fwd_cnt : Z)
  | WriteFailed (error : string)
  | WriteWait.

Definition write_turn (data : list Z) (offset : nat) (s : ConnectionState)
    : write_outcome * ConnectionState :=
  if st_closed s then (WriteFailed (default "vsock connection is closed"%string (st_error s)), s)
  else
    let used := u32 (bytes_written s - peer_fwd_cnt s) in
    let available := sat_sub (peer_buf_alloc s) used in
    if 0 <? available then
      let take_ := Z.min (Z.min available MAX_PAYLOAD) (Z.of_nat (length data - offset)) in
      (Chunk (slice offset (offset + Z.to_nat take_) data) (bytes_read s),
       {| incoming := incoming s; connected := connected s; st_closed := st_closed s;
          st_error := st_error s; bytes_read := bytes_read s; credited := credited s;
          bytes_written := u32 (bytes_written s + take_); peer_buf_alloc := peer_buf_alloc s;
          peer_fwd_cnt := peer_fwd_cnt s; deadline := deadline s |})
    else (WriteWait, s).

(** ** The registry *)

(** How a connection is found when a packet arrives. *)
Inductive Key : Type :=
  | Local (port : Z)
  | Pair (local peer : Z).

#[export] Instance Key_eq_dec : EqDecision Key.
Proof. solve_decision. Defined.
#[export] Instance Key_countable : Countable Key.
Proof.
  refine (inj_countable'
    (λ k, match k with Local p => inl p | Pair l p => inr (l, p) end)
    (λ x, match x with inl p => Local p | inr (l, p) => Pair l p end) _).
  by intros [].
Defined.

(** [Vsock]: its outbox, the connections it made (the store the [Arc]s point into), the registry,
    and the streams it handed to listeners, in order. *)
Record Vsock := mk_vsock {
  vs_cid : Z;
  outbox : list (list Z);
  conns : gmap nat Connection;
  next_conn : nat;
  connections : gmap Key nat;
  listeners : gset Z;
  next_port : Z;
  reg_closed : bool;
  accepted : list (Z * nat);
}.

Definition vsock_new (cid : Z) : Vsock :=
  {| vs_cid := cid; outbox := []; conns := ∅; next_conn := 0; connections := ∅; listeners := ∅;
     next_port := 49152; reg_closed := false; accepted := [] |}.

Definition with_outbox (v : Vsock) (o : list (list Z)) : Vsock :=
  {| vs_cid := vs_cid v; outbox := o; conns := conns v; next_conn := next_conn v;
     connections := connections v; listeners := listeners v; next_port := next_port v;
     reg_closed := reg_closed v; accepted := accepted v |}.

Definition with_conns (v : Vsock) (cs : gmap nat Connection) : Vsock :=
  {| vs_cid := vs_cid v; outbox := outbox v; conns := cs; next_conn := next_conn v;
     connections := connections v; listeners := listeners v; next_port := next_port v;
     reg_closed := reg_closed v; accepted := accepted v |}.

Definition with_connections (v : Vsock) (r : gmap Key nat) : Vsock :=
  {| vs_cid := vs_cid v; outbox := outbox v; conns := conns v; next_conn := next_conn v;
     connections := r; listeners := listeners v; next_port := next_port v;
     reg_closed := reg_closed v; accepted := accepted v |}.

Definition with_next_port (v : Vsock) (p : Z) : Vsock :=
  {| vs_cid := vs_cid v; outbox := outbox v; conns := conns v; next_conn := next_conn v;
     connections := connections v; listeners := listeners v; next_port := p;
     reg_closed := reg_closed v; accepted := accepted v |}.

Definition with_listeners (v : Vsock) (l : gset Z) : Vsock :=
  {| vs_cid := vs_cid v; outbox := outbox v; conns := conns v; next_conn := next_conn v;
     connections := connections v; listeners := l; next_port := next_port v;
     reg_closed := reg_closed v; accepted := accepted v |}.

(** [Connection::new] stored under [key]: the connection's place in the store. *)
Definition add_connection (v : Vsock) (key : Key) (c : Connection) : nat * Vsock :=
  (next_conn v,
   {| vs_cid := vs_cid v; outbox := outbox v; conns := <[next_conn v := c]> (conns v);
      next_conn := S (next_conn v); connections := <[key := next_conn v]> (connections v);
      listeners := listeners v; next_port := next_port v; reg_closed := reg_closed v;
      accepted := accepted v |}).

Definition hand_over (v : Vsock) (port : Z) (id : nat) : Vsock :=
  {| vs_cid := vs_cid v; outbox := outbox v; conns := conns v; next_conn := next_conn v;
     connections := connections v; listeners := listeners v; next_port := next_port v;
     reg_closed := reg_closed v; accepted := accepted v ++ [(port, id)] |}.

(** [Outbox::push]. *)
Definition push (v : Vsock) (p : list Z) : Vsock := with_outbox v (outbox v ++ [p]).

(** [Connection::send]. *)
Definition send (v : Vsock) (id : nat) (op flags : Z) (payload : list Z) (fwd_cnt : Z) : Vsock :=
  match conns v !! id with
  | Some c => push v (packet (address c) op flags payload fwd_cnt)
  | None => v
  end.

(** A change of one connection's state, under its lock. *)
Definition update_state (v : Vsock) (id : nat) (f : ConnectionState → ConnectionState) : Vsock :=
  with_conns v (alter (λ c, {| address := address c; state := f (state c) |}) id (conns v)).

Definition vsock_address (v : Vsock) (local peer : Z) : Address :=
  {| guest_cid := vs_cid v; local_port := local; peer_port := peer |}.

(** What [connect] and [listen] fail with, one constructor per message. *)
Inductive vsock_error : Type :=
  | DeviceClosed
  | NoPortsAvailable
  | ConnectTimedOut (port : Z)
  | PortFailed (port : Z) (reason : string)
  | ListenerExists (port : Z).

(** The search for a free local port: [tries] attempts from the registry's cursor on. *)
Fixpoint find_port (tries : nat) (taken : gmap Key nat) (next : Z) : option Z * Z :=
  match tries with
  | O => (None, next)
  | S tries =>
      let port := next in
      let next := if port =? 65535 then 49152 else u32 (port + 1) in
      match taken !! Local port with
      | None => (Some port, next)
      | Some _ => find_port tries taken next
      end
  end.

(** [connect] up to its wait: the connection is registered and its REQUEST on the way. *)
Definition connect_begin (v : Vsock) (port : Z) : result vsock_error nat * Vsock :=
  if reg_closed v then (Err DeviceClosed, v)
  else
    let '(found, next) := find_port (Z.to_nat 16384) (connections v) (next_port v) in
    let v := with_next_port v next in
    match found with
    | None => (Err NoPortsAvailable, v)
    | Some local =>
        let '(id, v) := add_connection v (Local local)
                          (connection_new (vsock_address v local port) false) in
        (Ok id, send v id OP_REQUEST 0 [] 0)
    end.

Definition forget (v : Vsock) (key : Key) : Vsock := with_connections v (delete key (connections v)).

(** One turn of [connect]'s wait: [None] is to wait on. *)
Definition connect_turn (v : Vsock) (id : nat) (left : Z) : option (result vsock_error nat) * Vsock :=
  match conns v !! id with
  | None => (None, v)
  | Some c =>
      if negb (connected (state c)) && negb (st_closed (state c)) then
        if left =? 0 then
          let v := forget v (Local (local_port (address c))) in
          (Some (Err (ConnectTimedOut (peer_port (address c)))), send v id OP_RST 0 [] 0)
        else (None, v)
      else if negb (connected (state c)) then
        (Some (Err (PortFailed (peer_port (address c))
           (default "the guest refused the connection"%string (st_error (state c))))), v)
      else (Some (Ok id), v)
  end.

(** [listen]: one listener a port. *)
Definition listen (v : Vsock) (port : Z) : result vsock_error unit * Vsock :=
  if bool_decide (port ∈ listeners v) then (Err (ListenerExists port), v)
  else (Ok tt, with_listeners v ({[port]} ∪ listeners v)).

Definition lookup_connection (v : Vsock) (h : Header) : option nat :=
  match connections v !! Pair (dst_port h) (src_port h) with
  | Some id => Some id
  | None => connections v !! Local (dst_port h)
  end.

(** The guest opened a connection to one of our ports. *)
Definition accept (v : Vsock) (h : Header) : Vsock :=
  let key := Pair (dst_port h) (src_port h) in
  let a := vsock_address v (dst_port h) (src_port h) in
  if bool_decide (dst_port h ∈ listeners v) && negb (reg_closed v) &&
     bool_decide (connections v !! key = None) then
    let '(id, v) := add_connection v key (connection_new a true) in
    let v := update_state v id (update_credit (buf_alloc h) (fwd_cnt h)) in
    hand_over (send v id OP_RESPONSE 0 [] 0) (dst_port h) id
  else push v (packet a OP_RST 0 [] 0).

Definition bytes_read_of (v : Vsock) (id : nat) : Z :=
  match conns v !! id with Some c => bytes_read (state c) | None => 0 end.

Definition connected_of (v : Vsock) (id : nat) : bool :=
  match conns v !! id with Some c => connected (state c) | None => false end.

(** [Vsock::handle]: one packet from the guest. *)
Definition handle (v : Vsock) (h : Header) (payload : list Z) : Vsock :=
  if op h =? OP_REQUEST then accept v h
  else
    match lookup_connection v h with
    | None => v
    | Some id =>
        let v := update_state v id (update_credit (buf_alloc h) (fwd_cnt h)) in
        if op h =? OP_RESPONSE then update_state v id set_connected
        else if op h =? OP_RW then
          (if bool_decide (payload = []) then v else update_state v id (enqueue payload))
        else if op h =? OP_CREDIT_UPDATE then v
        else if op h =? OP_CREDIT_REQUEST then
          send v id OP_CREDIT_UPDATE 0 [] (bytes_read_of v id)
        else if (op h =? OP_SHUTDOWN) || (op h =? OP_RST) then
          let was_connected := connected_of v id in
          let v := if op h =? OP_SHUTDOWN then send v id OP_RST 0 [] 0 else v in
          let v := update_state v id (close_from_peer
                     (if was_connected then None
                      else Some "the guest reset the connection"%string)) in
          let v := forget v (Pair (dst_port h) (src_port h)) in
          forget v (Local (dst_port h))
        else v
    end.

(** [Vsock::reset]: every registered connection ends, nothing is on its way any more. *)
Definition vsock_reset (v : Vsock) (reason : string) : Vsock :=
  let ids := (map_to_list (connections v)).*2 in
  let v := foldl (λ v id, update_state v id (close_from_peer (Some reason))) v ids in
  with_outbox (with_connections v ∅) [].

(** ** Streams *)

(** A turn of [VsockStream::read] into a buffer of [want] bytes, with what it sends. *)
Definition stream_read (now : Z) (v : Vsock) (id : nat) (want : nat) : read_outcome * Vsock :=
  match conns v !! id with
  | None => (Wait, v)
  | Some c =>
      let '(outcome, s) := read_turn now want (state c) in
      let v := update_state v id (λ _, s) in
      match outcome with
      | Got _ (Some fwd) => (outcome, send v id OP_CREDIT_UPDATE 0 [] fwd)
      | _ => (outcome, v)
      end
  end.

(** A turn of [VsockStream::write_all], with the packet it sends. *)
Definition stream_write (v : Vsock) (id : nat) (data : list Z) (offset : nat)
    : write_outcome * Vsock :=
  match conns v !! id with
  | None => (WriteWait, v)
  | Some c =>
      let '(outcome, s) := write_turn data offset (state c) in
      let v := update_state v id (λ _, s) in
      match outcome with
      | Chunk payload fwd => (outcome, send v id OP_RW 0 payload fwd)
      | _ => (outcome, v)
      end
  end.

(** [VsockStream::close], which dropping a stream does too. *)
Definition stream_close (v : Vsock) (id : nat) : Vsock :=
  match conns v !! id with
  | None => v
  | Some c =>
      let already := st_closed (state c) in
      let v := update_state v id set_closed in
      if already then v else send v id OP_SHUTDOWN SHUTDOWN_BOTH [] (bytes_read (state c))
  end.

Definition stream_set_deadline (v : Vsock) (id : nat) (d : option Z) : Vsock :=
  update_state v id (set_deadline d).

(** A turn of [read_exact]'s loop: [out] so far, at most 64 KiB at a time. *)
Definition read_exact_turn (now : Z) (v : Vsock) (id : nat) (length_ : nat) (out : list Z)
    : (list Z + result read_outcome (list Z)) * Vsock :=
  if bool_decide (length out < length_)%nat then
    let want := Nat.min (length_ - length out) (Nat.min length_ (Z.to_nat 65536)) in
    match stream_read now v id want with
    | (Got bytes _, v) => if bool_decide (bytes = []) then (inr (Ok out), v) else (inl (out ++ bytes), v)
    | (EndOfStream, v) => (inr (Ok out), v)
    | (Wait, v) => (inl out, v)
    | (e, v) => (inr (Err e), v)
    end
  else (inr (Ok out), v).

(** ** The device *)

(** What one transmit chain holds: all its buffers, which must be readable, one after another. *)
Fixpoint gather_tx (m : mem) (bufs : list Buffer) (bytes : list Z) : result error (list Z) :=
  match bufs with
  | [] => Ok bytes
  | b :: bufs =>
      if writable b then Err TxMustBeReadable
      else match guest_bytes m (u32 (b_address b)) (b_length b) with
           | Some part => gather_tx m bufs (bytes ++ part)
           | None => Err TxOutside
           end
  end.

Definition transmit_chain (v : Vsock) (m : mem) (chain : Chain) : result error Z * (Vsock * mem) :=
  match gather_tx m (buffers chain) [] with
  | Err e => (Err e, (v, m))
  | Ok bytes =>
      match parse_header bytes with
      | Err e => (Err e, (v, m))
      | Ok h =>
          let end_ := Z.to_nat (Z.min (Z.of_nat HEADER_SIZE + h_len h) (Z.of_nat (length bytes))) in
          (Ok 0, (handle v h (slice (Nat.min HEADER_SIZE end_) end_ bytes), m))
      end
  end.

Definition vsock_notify (v : Vsock) (queue_index : Z) (q : Queue) (m : mem)
    : result error (list Z) * (Vsock * Queue * mem) :=
  if negb (queue_index =? 1) then (Ok [], (v, q, m))
  else drain (λ _, true) id transmit_chain (Z.to_nat (ring_size q) + 1) v q m [].

(** Copies a packet over the writable buffers of a chain; how much of it was written. *)
Fixpoint scatter_packet (bufs : list Buffer) (packet : list Z) (m : mem) (written : nat)
    : mem * nat :=
  match bufs with
  | [] => (m, written)
  | b :: bufs =>
      if negb (writable b) || bool_decide (length packet ≤ written)%nat
      then scatter_packet bufs packet m written
      else
        let k := Z.to_nat (Z.min (b_length b) (Z.of_nat (length packet - written))) in
        let '(m, done) := write_bytes m (b_address b) (slice written (written + k) packet) in
        if bool_decide (done < k)%nat then (m, written + done)%nat
        else scatter_packet bufs packet m (written + done)
  end.

(** The packet [poll] has taken from the outbox when it finds a buffer for it. *)
Definition receive_chain (v : Vsock) (m : mem) (chain : Chain) : result error Z * (Vsock * mem) :=
  match outbox v with
  | [] => (Ok 0, (v, m))
  | p :: rest =>
      let v := with_outbox v rest in
      let '(m, written) := scatter_packet (buffers chain) p m 0 in
      if bool_decide (written < length p)%nat then (Err (RxTooSmall written (length p)), (v, m))
      else (Ok (u32 (Z.of_nat written)), (v, m))
  end.

Definition has_packet (v : Vsock) : bool := bool_decide (outbox v ≠ []).

(** The front packet is lost when the queue fails after it was taken. *)
Definition lose_packet (v : Vsock) : Vsock := with_outbox v (tail (outbox v)).

Definition vsock_poll (v : Vsock) (qs : list (option Queue)) (m : mem)
    : result error (list Z) * (Vsock * list (option Queue) * mem) :=
  match qs with
  | Some q :: qs =>
      let '(r, (v, q, m)) :=
        drain has_packet lose_packet receive_chain (length (outbox v) + 1) v q m [] in
      (r, (v, Some q :: qs, m))
  | _ => (Ok [], (v, qs, m))
  end.

#[export] Instance Vsock_device : Device Vsock := {|
  device_id _ := 19;
  features _ := 0;
  config v := le_bytes 8 (vs_cid v);
  notify := vsock_notify;
  poll := vsock_poll;
  reset v := vsock_reset v "the vsock device was reset"%string;
  write_input _ := None;
|}.

(** ** Lemmas *)

Lemma length_packet a o f p fc : length (packet a o f p fc) = (44 + length p)%nat.
Proof. unfold packet. by autorewrite with collabo. Qed.

Lemma parse_packet a o f p fc :
  0 <= local_port a < 4294967296 → 0 <= peer_port a < 4294967296 → 0 <= o < 65536 →
  0 <= fc < 4294967296 → Z.of_nat (length p) < 4294967296 →
  parse_header (packet a o f p fc) =
  Ok {| src_port := local_port a; dst_port := peer_port a; h_len := Z.of_nat (length p);
        op := o; buf_alloc := BUF_ALLOC; fwd_cnt := fc |}.
Proof.
  intros Hl Hp Ho Hf Hlen. unfold parse_header. rewrite length_packet.
  rewrite bool_decide_false by (unfold HEADER_SIZE; lia). unfold packet.
  cbv beta zeta. do 2 f_equal; simpl Nat.add; slice_field; apply le_val_small; simpl;
    unfold BUF_ALLOC; lia.
Qed.

Lemma packet_payload a o f p fc : drop 44 (packet a o f p fc) = p.
Proof.
  unfold packet. do 10 (rewrite drop_app_ge by (rewrite length_le_bytes; simpl; lia);
    rewrite length_le_bytes; simpl Nat.sub). apply drop_0.
Qed.

(** *** Delivery of a packet *)

Lemma length_scatter_packet bufs p m w : length (scatter_packet bufs p m w).1 = length m.
Proof.
  revert m w; induction bufs as [|b bufs IH]; intros m w; simpl; [done|].
  destruct (_ || _); [done|]. set (k := Z.to_nat _).
  pose proof (length_write_bytes m (b_address b) (slice w (w + k) p)) as Hl.
  destruct (write_bytes _ _ _) as [m1 d]. simpl in Hl.
  case_bool_decide; [done|]. by rewrite IH.
Qed.

Lemma wf_scatter_packet bufs p m w :
  wf_bytes p → wf_bytes m → wf_bytes (scatter_packet bufs p m w).1.
Proof.
  intros Hp. revert m w; induction bufs as [|b bufs IH]; intros m w Hm; simpl; [done|].
  destruct (_ || _); [by apply IH|]. set (k := Z.to_nat _).
  pose proof (wf_write_bytes m (b_address b) (slice w (w + k) p) Hm (wf_slice _ _ _ Hp)) as Hl.
  destruct (write_bytes _ _ _) as [m1 d]. simpl in Hl.
  case_bool_decide; [done|]. by apply IH.
Qed.

(** On buffers inside the memory, [scatter_packet] is [spread]. *)
Lemma scatter_packet_spread bufs p m w :
  mem_size m <= 4294967296 → targets_ok (mem_size m) (targets bufs) → (w ≤ length p)%nat →
  scatter_packet bufs p m w =
    (apply_stores m (spread (targets bufs) (drop w p)),
     (w + room (targets bufs) (length p - w))%nat).
Proof.
  intros Hm. revert m Hm w. induction bufs as [|b bufs IH]; intros m Hm w Hts Hw; simpl.
  { by rewrite Nat.add_0_r. }
  rewrite targets_cons in *. destruct (writable b) eqn:Hb; cbn [negb orb]; [|by apply IH].
  destruct Hts as (Ha & Hn & Hin & Hd & Hts).
  destruct (spread_cons m (b_address b) (b_length b) (targets bufs) p w) as [E1 E2].
  cbv zeta in E1, E2. rewrite E1, E2. clear E1 E2. set (k := fit (b_length b) (length p - w)).
  assert (k ≤ length p - w)%nat by apply fit_le.
  case_bool_decide as Hle.
  - assert (k = 0%nat) as -> by lia. rewrite take_0, Nat.add_0_r. by apply IH.
  - change (Z.to_nat (Z.min (b_length b) (Z.of_nat (length p - w)))) with k.
    unfold k. rewrite write_bytes_fit by done. fold k. rewrite bool_decide_false by lia.
    apply IH; rewrite ?mem_size_store_bytes; done || lia.
Qed.

Lemma receive_chain_length v m c : length (receive_chain v m c).2.2 = length m.
Proof.
  unfold receive_chain. destruct (outbox v) as [|p ps]; [done|].
  pose proof (length_scatter_packet (buffers c) p m 0) as Hl.
  destruct (scatter_packet _ _ _ _) as [m1 w]. by case_bool_decide.
Qed.

Lemma transmit_chain_mem v m c : (transmit_chain v m c).2.2 = m.
Proof.
  unfold transmit_chain. destruct (gather_tx _ _ _); [|done]. by destruct (parse_header _).
Qed.

Lemma gather_tx_Err m bufs bs e : gather_tx m bufs bs = Err e → e ≠ LoopBound.
Proof.
  revert bs; induction bufs as [|b bufs IH]; intros bs; simpl; [done|].
  destruct (writable b); [congruence|]. destruct (guest_bytes _ _ _); [apply IH|congruence].
Qed.

Lemma transmit_chain_result v m c :
  (transmit_chain v m c).1 = Ok 0 ∨ ∃ e, (transmit_chain v m c).1 = Err e ∧ e ≠ LoopBound.
Proof.
  unfold transmit_chain. destruct (gather_tx _ _ _) as [bs|e] eqn:E; [|by eauto using gather_tx_Err].
  unfold parse_header. case_bool_decide; simpl; eauto.
Qed.

Lemma vsock_notify_keeps v i q m :
  queue_ok q → queue_ok (vsock_notify v i q m).2.1.2 ∧ length (vsock_notify v i q m).2.2 = length m.
Proof.
  intros Hq. unfold vsock_notify. destruct (negb _); [done|].
  apply drain_keeps; [|done]. intros. by rewrite transmit_chain_mem.
Qed.

#[export] Instance Vsock_laws : DeviceLaws Vsock.
Proof.
  split.
  - intros. by apply vsock_notify_keeps.
  - intros v qs m Hqs. simpl. unfold vsock_poll. destruct qs as [|[q|] qs]; [done| |done].
    apply Forall_cons in Hqs as [Hq Hqs].
    destruct (drain_keeps has_packet lose_packet receive_chain (length (outbox v) + 1) v q m [])
      as [H1 H2]; [apply receive_chain_length|by apply Hq|].
    destruct (drain _ _ _ _ _ _ _ _) as [r [[v' q'] m']]. simpl in *. split; [|done].
    constructor; [|done]. by intros ? [= <-].
  - done.
Qed.

(** Both directions of the device end. *)
Lemma vsock_notify_terminates v i q m :
  queue_ok q → wf_bytes m → mem_size m <= 4294967296 → (vsock_notify v i q m).1 ≠ Err LoopBound.
Proof.
  intros Hq Hm Hmz. unfold vsock_notify. destruct (negb _); [done|].
  destruct (ok_avail q Hq) as [a Ha].
  apply (drain_terminates_inv _ _ _ (λ _, True) (λ _, 0%nat) q _ v q m [] a (ring_size q)); try done.
  - intros s m1 c _ _ Hm1 _. pose proof (transmit_chain_mem s m1 c) as Hmem.
    pose proof (transmit_chain_result s m1 c) as Hr.
    destruct (transmit_chain s m1 c) as [r [s' m']]. simpl in *. subst m'.
    split_and!; try done.
    + destruct Hr as [->|(e & -> & ?)]; congruence.
    + intros w ->. split; [destruct Hr as [[= ->]|(? & ? & ?)]; [lia|done]|].
      right. split; [done|]. by intros p.
  - apply run_bound_size.
  - assert (0 < ring_size q) by (unfold ring_size; lia). lia.
Qed.

Lemma vsock_poll_terminates v qs m :
  slots_ok qs → (vsock_poll v qs m).1 ≠ Err LoopBound.
Proof.
  intros Hqs. unfold vsock_poll. destruct qs as [|[q|] qs]; [done| |done].
  apply Forall_cons in Hqs as [Hq _]. specialize (Hq q eq_refl).
  pose proof (drain_bounded has_packet lose_packet receive_chain (λ v, length (outbox v))
    (length (outbox v) + 1) v q m []) as Ht.
  destruct (drain _ _ _ _ _ _ _ _) as [r [[v' q'] m']]. simpl in *. apply Ht; [|done|lia].
  intros s m1 c Hmore. unfold receive_chain. apply bool_decide_eq_true in Hmore.
  destruct (outbox s) as [|p ps]; [done|]. destruct (scatter_packet _ _ _ _) as [m2 w].
  case_bool_decide; simpl; split; try congruence; intros; lia.
Qed.

(** *** Credit: a writer stays inside the guest's receive window *)

(** What the writer has in flight, by its own counters. *)
Definition in_flight (s : ConnectionState) : Z := u32 (bytes_written s - peer_fwd_cnt s).

Lemma write_turn_chunk data offset s payload fc s' :
  0 <= peer_buf_alloc s < 4294967296 → (offset < length data)%nat →
  write_turn data offset s = (Chunk payload fc, s') →
  st_closed s = false ∧ in_flight s < peer_buf_alloc s ∧
  (0 < length payload)%nat ∧ Z.of_nat (length payload) <= MAX_PAYLOAD ∧
  payload = slice offset (offset + length payload) data ∧
  (offset + length payload ≤ length data)%nat ∧ fc = bytes_read s ∧
  in_flight s' = in_flight s + Z.of_nat (length payload) ∧
  in_flight s' <= peer_buf_alloc s' ∧ peer_buf_alloc s' = peer_buf_alloc s.
Proof.
  intros Hpb Hoff. unfold write_turn, in_flight.
  destruct (st_closed s) eqn:Hc; [done|].
  set (used := u32 (bytes_written s - peer_fwd_cnt s)).
  assert (0 <= used < 4294967296) as Hu by apply u32_range.
  destruct (Z.ltb_spec 0 (sat_sub (peer_buf_alloc s) used)) as [Hav|]; [|done].
  intros [= <- <- <-]. unfold sat_sub in *. simpl.
  set (k := Z.min (Z.min (Z.max 0 (peer_buf_alloc s - used)) MAX_PAYLOAD)
              (Z.of_nat (length data - offset))).
  assert (0 < k <= MAX_PAYLOAD ∧ k <= peer_buf_alloc s - used ∧
          k <= Z.of_nat (length data - offset)) as (Hk1 & Hk2 & Hk3).
  { unfold k, MAX_PAYLOAD in *. lia. }
  assert (length (slice offset (offset + Z.to_nat k) data) = Z.to_nat k) as Hl
    by (rewrite length_slice; lia).
  rewrite Hl. split_and!; try done; try lia.
  - assert (u32 (u32 (bytes_written s + k) - peer_fwd_cnt s) = used + k) as ->; [|lia].
    unfold used in *. wrap_lia.
  - assert (u32 (u32 (bytes_written s + k) - peer_fwd_cnt s) = used + k) as ->; [|lia].
    unfold used in *. wrap_lia.
Qed.

(** With room in the window and the connection open, the writer never waits. *)
Lemma write_turn_progress data offset s :
  st_closed s = false → in_flight s < peer_buf_alloc s →
  ∃ payload fc s', write_turn data offset s = (Chunk payload fc, s').
Proof.
  intros Hc Hf. unfold write_turn. rewrite Hc. unfold in_flight, sat_sub in *.
  destruct (Z.ltb_spec 0 (Z.max 0 (peer_buf_alloc s - u32 (bytes_written s - peer_fwd_cnt s))));
    [eauto|lia].
Qed.

Lemma stream_write_Chunk v id data offset payload fc v' :
  stream_write v id data offset = (Chunk payload fc, v') →
  ∃ c s', conns v !! id = Some c ∧ write_turn data offset (state c) = (Chunk payload fc, s') ∧
    v' = push (update_state v id (λ _, s')) (packet (address c) OP_RW 0 payload fc).
Proof.
  unfold stream_write. destruct (conns v !! id) as [c|] eqn:Hc; [|done].
  destruct (write_turn data offset (state c)) as [[pl f|e|] s'] eqn:Hw; intros [= <- <- <-].
  exists c, s'. split_and!; [done..|]. unfold send, update_state. simpl.
  rewrite lookup_alter_eq, Hc. simpl. done.
Qed.

(** *** [write_all] against any interleaving *)

(** A whole [write_all] from [offset] on, with any steps [env] of the guest and of other threads
    between its turns; the chunks it sent, and how it ended. *)
Inductive write_run (env : Vsock → Vsock → Prop) (id : nat) (data : list Z)
    : nat → Vsock → list (list Z) → result string unit → Vsock → Prop :=
  | run_done offset v :
      (length data ≤ offset)%nat → write_run env id data offset v [] (Ok tt) v
  | run_env offset v v' chunks r v'' :
      env v v' → write_run env id data offset v' chunks r v'' →
      write_run env id data offset v chunks r v''
  | run_chunk offset v payload fc v' chunks r v'' :
      (offset < length data)%nat →
      stream_write v id data offset = (Chunk payload fc, v') →
      write_run env id data (offset + length payload) v' chunks r v'' →
      write_run env id data offset v (payload :: chunks) r v''
  | run_failed offset v e v' :
      (offset < length data)%nat → stream_write v id data offset = (WriteFailed e, v') →
      write_run env id data offset v [] (Err e) v'.

(** The guest announces windows that fit the header's 32 bits. *)
Definition windows_ok (v : Vsock) : Prop :=
  ∀ id c, conns v !! id = Some c → 0 <= peer_buf_alloc (state c) < 4294967296.

Lemma windows_ok_chunk v id data offset payload fc v' :
  windows_ok v → (offset < length data)%nat →
  stream_write v id data offset = (Chunk payload fc, v') → windows_ok v'.
Proof.
  intros Hw Hoff Hs. apply stream_write_Chunk in Hs as (c & s' & Hc & Ht & ->).
  intros i d. simpl. rewrite lookup_alter. case_decide as Hi; [subst i|apply Hw].
  rewrite Hc. simpl. intros [= <-]. simpl.
  apply write_turn_chunk in Ht as (_ & _ & _ & _ & _ & _ & _ & _ & _ & ->); [|by eapply Hw|done].
  by eapply Hw.
Qed.

Lemma write_run_chunks env id data offset v chunks r v' :
  (∀ v v', env v v' → windows_ok v → windows_ok v') → windows_ok v →
  write_run env id data offset v chunks r v' → (offset ≤ length data)%nat →
  (∃ rest, drop offset data = concat chunks ++ rest ∧ (r = Ok tt → rest = [])) ∧
  Forall (λ p, (0 < length p)%nat ∧ Z.of_nat (length p) <= MAX_PAYLOAD) chunks.
Proof.
  intros Henv Hw Hrun. revert Hw. induction Hrun as
    [offset v Hd|offset v v1 cs r v2 He _ IH|offset v pl fc v1 cs r v2 Ho Hs _ IH|offset v e v1 Ho Hs];
    intros Hw Hle.
  - split; [|constructor]. exists []. rewrite drop_ge by lia. done.
  - apply IH; eauto.
  - pose proof (windows_ok_chunk _ _ _ _ _ _ _ Hw Ho Hs) as Hw1.
    apply stream_write_Chunk in Hs as (c & s' & Hc & Ht & ->).
    apply write_turn_chunk in Ht as (_ & _ & H1 & H2 & H3 & H4 & _); [|by eapply Hw|done].
    destruct (IH Hw1 H4) as [(rest & Hr & Hok) Hall]. split; [|by constructor].
    exists rest. split; [|done]. simpl. rewrite <-app_assoc, <-Hr.
    rewrite H3 at 1. unfold slice. replace (offset + length pl - offset)%nat with (length pl) by lia.
    by rewrite <-drop_drop, take_drop.
  - split; [|constructor]. exists (drop offset data). done.
Qed.

(** *** The receiving side as a byte queue *)

(** Everything that changes a connection's state, in any order. *)
Inductive conn_event : Type :=
  | EvArrive (payload : list Z)
  | EvRead (now : Z) (want : nat)
  | EvWrite (data : list Z) (offset : nat)
  | EvCredit (buf_alloc fwd_cnt : Z)
  | EvConnected
  | EvClose
  | EvPeerClose (error : option string)
  | EvDeadline (d : option Z).

(** The state after an event, and the bytes a read handed out. *)
Definition conn_step (s : ConnectionState) (e : conn_event) : ConnectionState * list Z :=
  match e with
  | EvArrive p => (if bool_decide (p = []) then s else enqueue p s, [])
  | EvRead now want =>
      let '(o, s') := read_turn now want s in
      (s', match o with Got bytes _ => bytes | _ => [] end)
  | EvWrite data offset => ((write_turn data offset s).2, [])
  | EvCredit a f => (update_credit a f s, [])
  | EvConnected => (set_connected s, [])
  | EvClose => (set_closed s, [])
  | EvPeerClose e => (close_from_peer e s, [])
  | EvDeadline d => (set_deadline d s, [])
  end.

Fixpoint conn_run (s : ConnectionState) (es : list conn_event) : ConnectionState * list Z :=
  match es with
  | [] => (s, [])
  | e :: es =>
      let '(s, out) := conn_step s e in
      let '(s, outs) := conn_run s es in
      (s, out ++ outs)
  end.

(** The specification: a queue of bytes. *)
Definition arrived (es : list conn_event) : list Z :=
  concat ((λ e, match e with EvArrive p => p | _ => [] end) <$> es).

Lemma arrived_cons e es :
  arrived (e :: es) = match e with EvArrive p => p | _ => [] end ++ arrived es.
Proof. done. Qed.

(** The forward counter counts what was read, and is never a quarter window ahead of what the
    guest has been told. *)
Definition credit_ok (s : ConnectionState) : Prop :=
  0 <= bytes_read s < 4294967296 ∧ 0 <= credited s < 4294967296 ∧
  u32 (bytes_read s - credited s) < BUF_ALLOC / 4.

Lemma read_turn_spec now want s :
  let '(o, s') := read_turn now want s in
  let got := match o with Got bytes _ => bytes | _ => [] end in
  incoming s = got ++ incoming s' ∧
  u32 (bytes_read s') = u32 (bytes_read s + Z.of_nat (length got)) ∧
  (credit_ok s → credit_ok s') ∧
  (∀ bytes fwd, o = Got bytes (Some fwd) → fwd = bytes_read s' ∧ credited s' = bytes_read s').
Proof.
  unfold read_turn. case_bool_decide as Hne.
  - set (k := Nat.min (length (incoming s)) want). unfold consume. simpl.
    rewrite take_drop. rewrite length_take. replace (k `min` length (incoming s))%nat with k by lia.
    split_and!; [done|unfold u32; by rewrite Zmod_mod| |].
    + intros (H1 & H2 & H3). unfold credit_ok. simpl.
      split; [apply u32_range|].
      destruct (Z.leb_spec (BUF_ALLOC / 4) (u32 (u32 (bytes_read s + Z.of_nat k) - credited s))).
      * split; [apply u32_range|]. rewrite Z.sub_diag. by vm_compute.
      * done.
    + intros bytes fwd. destruct (_ <=? _); [|done]. by intros [= _ <-].
  - assert (u32 (bytes_read s + Z.of_nat 0) = u32 (bytes_read s)) as E by (f_equal; lia).
    destruct (st_closed s); [destruct (st_error s)|destruct (deadline s) as [d|]; [destruct (_ =? 0)|]];
      simpl; rewrite Z.add_0_r; by split_and!.
Qed.

Lemma write_turn_incoming data offset s :
  incoming (write_turn data offset s).2 = incoming s ∧
  bytes_read (write_turn data offset s).2 = bytes_read s ∧
  credited (write_turn data offset s).2 = credited s.
Proof. unfold write_turn. destruct (st_closed s); [done|]. by destruct (0 <? _). Qed.

Lemma conn_step_fifo s e :
  let '(s', out) := conn_step s e in
  incoming s ++ match e with EvArrive p => p | _ => [] end = out ++ incoming s' ∧
  u32 (bytes_read s') = u32 (bytes_read s + Z.of_nat (length out)) ∧ (credit_ok s → credit_ok s').
Proof.
  destruct e as [p|now want|data offset|a f| | |err|d]; simpl;
    try (rewrite app_nil_r, Z.add_0_r; done).
  - rewrite Z.add_0_r. case_bool_decide; [subst; by rewrite app_nil_r|done].
  - pose proof (read_turn_spec now want s) as H. destruct (read_turn now want s) as [o s'].
    destruct H as (H1 & H2 & H3 & _). by rewrite app_nil_r.
  - destruct (write_turn_incoming data offset s) as (H1 & H2 & H3).
    rewrite app_nil_r, Z.add_0_r. unfold credit_ok. by rewrite H1, H2, H3.
Qed.

Lemma conn_run_fifo s es :
  let '(s', out) := conn_run s es in
  incoming s ++ arrived es = out ++ incoming s' ∧
  u32 (bytes_read s') = u32 (bytes_read s + Z.of_nat (length out)) ∧ (credit_ok s → credit_ok s').
Proof.
  revert s; induction es as [|e es IH]; intros s; simpl.
  { unfold arrived. simpl. by rewrite app_nil_r, Z.add_0_r. }
  pose proof (conn_step_fifo s e) as He. destruct (conn_step s e) as [s1 out1].
  specialize (IH s1). destruct (conn_run s1 es) as [s2 out2].
  destruct He as (H1 & H2 & H3), IH as (H4 & H5 & H6). split_and!; [|..|by auto].
  - rewrite arrived_cons, app_assoc, H1, <-!app_assoc. by rewrite H4.
  - rewrite H5, length_app, Nat2Z.inj_add, Z.add_assoc. unfold u32 in *.
    by rewrite Z.add_mod, H2, <-Z.add_mod by lia.
Qed.

(** *** Local ports *)

(** The port tried [k] attempts after [next]. *)
Definition port_after (next : Z) (k : nat) : Z := 49152 + (next - 49152 + Z.of_nat k) mod 16384.

Lemma port_after_next next k :
  49152 <= next <= 65535 →
  port_after (if next =? 65535 then 49152 else u32 (next + 1)) k = port_after next (S k).
Proof.
  intros Hn. unfold port_after. destruct (Z.eqb_spec next 65535) as [->|].
  - rewrite Nat2Z.inj_succ. Z.div_mod_to_equations. lia.
  - rewrite u32_small by lia. do 2 f_equal. lia.
Qed.

Lemma find_port_spec tries taken next :
  49152 <= next <= 65535 →
  49152 <= (find_port tries taken next).2 <= 65535 ∧
  match (find_port tries taken next).1 with
  | Some p => 49152 <= p <= 65535 ∧ taken !! Local p = None
  | None => ∀ k, (k < tries)%nat → is_Some (taken !! Local (port_after next k))
  end.
Proof.
  revert next; induction tries as [|tries IH]; intros next Hn; simpl.
  { split; [done|]. intros; lia. }
  assert (49152 <= (if next =? 65535 then 49152 else u32 (next + 1)) <= 65535) as Hn'.
  { destruct (Z.eqb_spec next 65535); [lia|]. rewrite u32_small; lia. }
  destruct (taken !! Local next) as [i|] eqn:Ht; simpl; [|done].
  specialize (IH _ Hn'). destruct (find_port tries taken _) as [[p|] nx]; simpl in *; [done|].
  destruct IH as [H1 H2]. split; [done|]. intros [|k] Hk.
  - unfold port_after. rewrite Z.add_0_r, Z.mod_small by lia.
    replace (49152 + (next - 49152)) with next by lia. eauto.
  - rewrite <-port_after_next by done. apply H2. lia.
Qed.

Lemma port_after_covers next p :
  49152 <= next <= 65535 → 49152 <= p <= 65535 →
  ∃ k, (k < Z.to_nat 16384)%nat ∧ port_after next k = p.
Proof.
  intros Hn Hp. exists (Z.to_nat ((p - next) mod 16384)).
  pose proof (Z.mod_pos_bound (p - next) 16384 ltac:(lia)). split; [lia|].
  unfold port_after. rewrite Z2Nat.id by lia. Z.div_mod_to_equations. lia.
Qed.

(** *** The registry invariant *)

Definition key_for (key : Key) (a : Address) : Prop :=
  match key with
  | Local l => local_port a = l
  | Pair l p => local_port a = l ∧ peer_port a = p
  end.

(** Every key leads to a connection with that address, no two keys to the same one; places of the
    store are used once; the port cursor stays in the dynamic range. *)
Record reg_ok (v : Vsock) : Prop := {
  reg_points key id : connections v !! key = Some id →
    ∃ c, conns v !! id = Some c ∧ key_for key (address c);
  reg_inj key key' id : connections v !! key = Some id → connections v !! key' = Some id → key = key';
  reg_fresh id : is_Some (conns v !! id) → (id < next_conn v)%nat;
  reg_port : 49152 <= next_port v <= 65535;
}.

Lemma vsock_new_ok cid : reg_ok (vsock_new cid).
Proof. split; simpl; [set_solver..| |lia]. intros id [c Hc]. by rewrite lookup_empty in Hc. Qed.

Lemma reg_ok_outbox v o : reg_ok v → reg_ok (with_outbox v o).
Proof. by intros []. Qed.

Lemma reg_ok_push v p : reg_ok v → reg_ok (push v p).
Proof. apply reg_ok_outbox. Qed.

Lemma reg_ok_send v id o f p fc : reg_ok v → reg_ok (send v id o f p fc).
Proof. unfold send. destruct (conns v !! id); auto using reg_ok_push. Qed.

Lemma reg_ok_update v id f : reg_ok v → reg_ok (update_state v id f).
Proof.
  intros [H1 H2 H3 H4]. split; simpl; try done.
  - intros key i Hk. destruct (H1 key i Hk) as (c & Hc & Hkey).
    rewrite lookup_alter. case_decide; [subst i|eauto]. rewrite Hc. simpl. eauto.
  - intros i [c Hc]. apply H3. rewrite lookup_alter in Hc. case_decide; [|eauto].
    subst. destruct (conns v !! i); [eauto|done].
Qed.

Lemma reg_ok_forget v key : reg_ok v → reg_ok (forget v key).
Proof.
  intros [H1 H2 H3 H4]. split; simpl; try done.
  - intros k i Hk. apply lookup_delete_Some in Hk as [_ Hk]. eauto.
  - intros k k' i Hk Hk'. apply lookup_delete_Some in Hk as [_ Hk], Hk' as [_ Hk']. eauto.
Qed.

Lemma reg_ok_add v key c :
  key_for key (address c) → reg_ok v → reg_ok (add_connection v key c).2.
Proof.
  intros Hkey [H1 H2 H3 H4]. split; simpl; try done.
  - intros k i Hk. apply lookup_insert_Some in Hk as [[<- <-]|[Hne Hk]].
    + exists c. by rewrite lookup_insert_eq.
    + destruct (H1 k i Hk) as (c' & Hc' & ?). exists c'. split; [|done].
      rewrite lookup_insert_ne; [done|]. intros <-.
      pose proof (H3 _ (ex_intro _ _ Hc')). lia.
  - assert (∀ k i, connections v !! k = Some i → i ≠ next_conn v) as Hne.
    { intros k i Hk ->. destruct (H1 _ _ Hk) as (c' & Hc' & _).
      pose proof (H3 _ (ex_intro _ _ Hc')). lia. }
    intros k k' i Hk Hk'. apply lookup_insert_Some in Hk as [[<- <-]|[? Hk]],
      Hk' as [[<- Hi']|[? Hk']]; try done; [|subst i|]; [..|by eapply H2].
    + by apply Hne in Hk'.
    + by apply Hne in Hk.
  - intros i [d Hd]. apply lookup_insert_Some in Hd as [[<- _]|[_ Hd]]; [lia|].
    pose proof (H3 _ (ex_intro _ _ Hd)). lia.
Qed.

Lemma reg_ok_hand_over v p i : reg_ok v → reg_ok (hand_over v p i).
Proof. by intros []. Qed.

Lemma reg_ok_listeners v l : reg_ok v → reg_ok (with_listeners v l).
Proof. by intros []. Qed.

Lemma reg_ok_next_port v p : 49152 <= p <= 65535 → reg_ok v → reg_ok (with_next_port v p).
Proof. by intros ? []. Qed.

Create HintDb vsock.
#[local] Hint Resolve reg_ok_outbox reg_ok_push reg_ok_send reg_ok_update reg_ok_forget
  reg_ok_hand_over reg_ok_listeners : vsock.

Lemma reg_ok_accept v h : reg_ok v → reg_ok (accept v h).
Proof.
  intros Hok. unfold accept. destruct (_ && _); [|eauto with vsock].
  pose proof (reg_ok_add v (Pair (dst_port h) (src_port h))
    (connection_new (vsock_address v (dst_port h) (src_port h)) true) ltac:(done) Hok).
  destruct (add_connection _ _ _) as [id v1]. eauto with vsock.
Qed.

Lemma reg_ok_handle v h p : reg_ok v → reg_ok (handle v h p).
Proof.
  intros Hok. unfold handle. destruct (op h =? OP_REQUEST); [by apply reg_ok_accept|].
  destruct (lookup_connection v h) as [id|]; [|done].
  set (v1 := update_state v id _). assert (reg_ok v1) as Hok1 by (unfold v1; eauto with vsock).
  clearbody v1.
  destruct (op h =? OP_RESPONSE); [eauto with vsock|].
  destruct (op h =? OP_RW); [case_bool_decide; eauto with vsock|].
  destruct (op h =? OP_CREDIT_UPDATE); [done|].
  destruct (op h =? OP_CREDIT_REQUEST); [eauto with vsock|].
  destruct (_ || _); [|done]. do 2 apply reg_ok_forget. apply reg_ok_update.
  destruct (op h =? OP_SHUTDOWN); eauto with vsock.
Qed.

Lemma reg_ok_connect v port : reg_ok v → reg_ok (connect_begin v port).2.
Proof.
  intros Hok. unfold connect_begin. destruct (reg_closed v); [done|].
  pose proof (find_port_spec (Z.to_nat 16384) (connections v) (next_port v) (reg_port v Hok)) as [Hn _].
  destruct (find_port _ _ _) as [[l|] nx]; simpl in *; [|by apply reg_ok_next_port].
  apply reg_ok_send.
  apply (reg_ok_add (with_next_port v nx) (Local l)
    (connection_new (vsock_address (with_next_port v nx) l port) false) eq_refl).
  by apply reg_ok_next_port.
Qed.

Lemma reg_ok_reset v reason : reg_ok v → reg_ok (vsock_reset v reason).
Proof.
  intros Hok. unfold vsock_reset. apply reg_ok_outbox.
  set (ids := _.*2). clearbody ids.
  assert (reg_ok (foldl (λ v id, update_state v id (close_from_peer (Some reason))) v ids)) as Hf.
  { revert v Hok; induction ids as [|i ids IH]; intros v Hok; simpl; eauto with vsock. }
  destruct Hf. split; simpl; try done.
Qed.

(** Every way the host, its threads and the guest act on the device. *)
Inductive vsock_step : Vsock → Vsock → Prop :=
  | vstep_connect v port : vsock_step v (connect_begin v port).2
  | vstep_connect_wait v id left : vsock_step v (connect_turn v id left).2
  | vstep_listen v port : vsock_step v (listen v port).2
  | vstep_packet v h p : vsock_step v (handle v h p)
  | vstep_read now v id want : vsock_step v (stream_read now v id want).2
  | vstep_write v id data offset : vsock_step v (stream_write v id data offset).2
  | vstep_close v id : vsock_step v (stream_close v id)
  | vstep_deadline v id d : vsock_step v (stream_set_deadline v id d)
  | vstep_deliver v m c : vsock_step v (receive_chain v m c).2.1
  | vstep_reset v reason : vsock_step v (vsock_reset v reason).

Lemma vsock_step_ok v v' : vsock_step v v' → reg_ok v → reg_ok v'.
Proof.
  intros Hs Hok. destruct Hs.
  - by apply reg_ok_connect.
  - unfold connect_turn. repeat (case_match; simpl; eauto with vsock).
  - unfold listen. case_bool_decide; simpl; eauto with vsock.
  - by apply reg_ok_handle.
  - unfold stream_read. repeat (case_match; simpl; eauto with vsock).
  - unfold stream_write. repeat (case_match; simpl; eauto with vsock).
  - unfold stream_close. repeat (case_match; simpl; eauto with vsock).
  - unfold stream_set_deadline. eauto with vsock.
  - unfold receive_chain. repeat (case_match; simpl; eauto with vsock).
  - by apply reg_ok_reset.
Qed.

(** *** What one packet touches *)

Lemma conns_update v id f i :
  conns (update_state v id f) !! i =
  if decide (id = i)
  then (λ c, {| address := address c; state := f (state c) |}) <$> conns v !! i
  else conns v !! i.
Proof. simpl. rewrite lookup_alter. case_decide; [by subst|done]. Qed.

Lemma conns_send v id o f p fc : conns (send v id o f p fc) = conns v.
Proof. unfold send. by destruct (conns v !! id). Qed.

Lemma connections_send v id o f p fc : connections (send v id o f p fc) = connections v.
Proof. unfold send. by destruct (conns v !! id). Qed.

(** A packet changes the state of the connection it is for, and of no other. *)
Lemma handle_isolated v h p i :
  (i < next_conn v)%nat → lookup_connection v h ≠ Some i →
  conns (handle v h p) !! i = conns v !! i.
Proof.
  intros Hi Hl. unfold handle. destruct (op h =? OP_REQUEST).
  { unfold accept. destruct (_ && _); [|done]. simpl.
    rewrite conns_send, conns_update. rewrite decide_False by (simpl; lia). simpl.
    by rewrite lookup_insert_ne by lia. }
  destruct (lookup_connection v h) as [id|]; [|done].
  assert (id ≠ i) as Hne by congruence.
  assert (∀ w f, conns (update_state w id f) !! i = conns w !! i) as Hu.
  { intros w f. rewrite conns_update. by rewrite decide_False. }
  destruct (op h =? OP_RESPONSE); [by rewrite !Hu|].
  destruct (op h =? OP_RW); [case_bool_decide; by rewrite ?Hu|].
  destruct (op h =? OP_CREDIT_UPDATE); [by rewrite Hu|].
  destruct (op h =? OP_CREDIT_REQUEST); [by rewrite conns_send, Hu|].
  destruct (_ || _); [|by rewrite Hu].
  transitivity (conns (if op h =? OP_SHUTDOWN
    then send (update_state v id (update_credit (buf_alloc h) (fwd_cnt h))) id OP_RST 0 [] 0
    else update_state v id (update_credit (buf_alloc h) (fwd_cnt h))) !! i).
  - apply Hu.
  - destruct (op h =? OP_SHUTDOWN); rewrite ?conns_send; apply Hu.
Qed.

(** SHUTDOWN and RST end the connection: it is closed, with a reason only if it never opened, its
    keys are gone, and a SHUTDOWN is answered with an RST. *)
Lemma handle_ends v h p id c :
  op h = OP_SHUTDOWN ∨ op h = OP_RST →
  lookup_connection v h = Some id → conns v !! id = Some c →
  let v' := handle v h p in
  (∃ c', conns v' !! id = Some c' ∧ address c' = address c ∧ st_closed (state c') = true ∧
     incoming (state c') = incoming (state c) ∧
     (connected (state c) = true → st_error (state c') = st_error (state c))) ∧
  lookup_connection v' h = None ∧
  outbox v' = outbox v ++
    (if op h =? OP_SHUTDOWN then [packet (address c) OP_RST 0 [] 0] else []).
Proof.
  intros Hop Hl Hc v'. unfold v', handle.
  assert ((op h =? OP_REQUEST) = false) as -> by (destruct Hop as [-> | ->]; done).
  rewrite Hl.
  assert ((op h =? OP_RESPONSE) = false) as -> by (destruct Hop as [-> | ->]; done).
  assert ((op h =? OP_RW) = false) as -> by (destruct Hop as [-> | ->]; done).
  assert ((op h =? OP_CREDIT_UPDATE) = false) as -> by (destruct Hop as [-> | ->]; done).
  assert ((op h =? OP_CREDIT_REQUEST) = false) as -> by (destruct Hop as [-> | ->]; done).
  assert ((op h =? OP_SHUTDOWN) || (op h =? OP_RST) = true) as -> by (destruct Hop as [-> | ->]; done).
  set (v1 := update_state v id (update_credit (buf_alloc h) (fwd_cnt h))).
  assert (conns v1 !! id = Some {| address := address c;
    state := update_credit (buf_alloc h) (fwd_cnt h) (state c) |}) as Hc1.
  { unfold v1. rewrite conns_update, decide_True by done. by rewrite Hc. }
  assert (connected_of v1 id = connected (state c)) as -> by (unfold connected_of; by rewrite Hc1).
  set (v2 := if op h =? OP_SHUTDOWN then send v1 id OP_RST 0 [] 0 else v1).
  assert (conns v2 = conns v1) as Hc2 by (unfold v2; destruct (_ =? _); rewrite ?conns_send; done).
  split_and!.
  - eexists. split; [|split_and!; [..|]].
    + simpl. rewrite lookup_alter_eq, Hc2, Hc1. done.
    + done.
    + done.
    + done.
    + simpl. intros ->. by destruct (st_error (state c)).
  - unfold lookup_connection. simpl.
    rewrite lookup_delete_ne by done. rewrite lookup_delete_eq. by rewrite lookup_delete_eq.
  - simpl. unfold v2. destruct (op h =? OP_SHUTDOWN); [|by rewrite app_nil_r].
    unfold send. by rewrite Hc1.
Qed.

(** Delivery of the front packet to buffers that hold it. *)
Lemma receive_chain_delivers v m c p rest :
  mem_size m <= 4294967296 → buffers_ok m (buffers c) → outbox v = p :: rest →
  Z.of_nat (length p) < 4294967296 →
  room (targets (buffers c)) (length p) = length p →
  ∃ m', receive_chain v m c = (Ok (Z.of_nat (length p)), (with_outbox v rest, m')) ∧
    gather m' (targets (buffers c)) (length p) = Some p.
Proof.
  intros Hm Hb Ho Hlen Hroom. unfold receive_chain. rewrite Ho.
  rewrite scatter_packet_spread by (done || lia). rewrite drop_0, Nat.sub_0_r, Hroom. simpl.
  rewrite bool_decide_false by lia. rewrite u32_small by lia. eexists. split; [done|].
  rewrite gather_spread by done. by rewrite Hroom, firstn_all.
Qed.

(** ** Properties of vsock *)

(** The header the host writes is the header its own parser reads: ports, length, operation,
    window and forward count survive the wire, and the payload follows at offset 44. *)
Lemma vsock_packet_roundtrip a o f p fc :
  0 <= local_port a < 4294967296 → 0 <= peer_port a < 4294967296 → 0 <= o < 65536 →
  0 <= fc < 4294967296 → Z.of_nat (length p) < 4294967296 →
  parse_header (packet a o f p fc) =
    Ok {| src_port := local_port a; dst_port := peer_port a; h_len := Z.of_nat (length p);
          op := o; buf_alloc := BUF_ALLOC; fwd_cnt := fc |} ∧
  drop HEADER_SIZE (packet a o f p fc) = p.
Proof. intros. split; [by apply parse_packet|apply packet_payload]. Qed.

(** C8: a writer respects the guest's receive window on every turn: what is in flight, by the
    wrapping 32-bit counters, grows by exactly the chunk sent and never exceeds the window the
    guest announced; and an open connection with room in its window never waits. *)
Theorem vsock_write_within_credit data offset s :
  0 <= peer_buf_alloc s < 4294967296 → (offset < length data)%nat →
  (st_closed s = false → in_flight s < peer_buf_alloc s →
     ∃ payload fc s', write_turn data offset s = (Chunk payload fc, s')) ∧
  ∀ payload fc s', write_turn data offset s = (Chunk payload fc, s') →
    (0 < length payload)%nat ∧ Z.of_nat (length payload) <= MAX_PAYLOAD ∧
    in_flight s' = in_flight s + Z.of_nat (length payload) ∧ in_flight s' <= peer_buf_alloc s.
Proof.
  intros Hpb Hoff. split; [by apply write_turn_progress|].
  intros payload fc s' Hw.
  apply write_turn_chunk in Hw as (_ & _ & H1 & H2 & _ & _ & _ & H3 & H4 & H5); [|done..].
  rewrite H5 in H4. by split_and!.
Qed.

(** Whatever the guest and the other threads do between its turns, [write_all] sends its data
    completely and in order when it succeeds, a prefix of it when the connection ends first, in
    non-empty chunks of at most 2048 bytes. *)
Lemma vsock_write_all_in_order env id data v chunks r v' :
  (∀ v v', env v v' → windows_ok v → windows_ok v') → windows_ok v →
  write_run env id data 0 v chunks r v' →
  concat chunks `prefix_of` data ∧ (r = Ok tt → concat chunks = data) ∧
  Forall (λ p, (0 < length p)%nat ∧ Z.of_nat (length p) <= MAX_PAYLOAD) chunks.
Proof.
  intros Henv Hw Hrun.
  destruct (write_run_chunks env id data 0 v chunks r v' Henv Hw Hrun) as [(rest & Hd & Hr) Hall]; [lia|].
  rewrite drop_0 in Hd. split_and!; [by exists rest| |done].
  intros ->. rewrite Hd, Hr by done. by rewrite app_nil_r.
Qed.

(** C10: the receiving side is a byte queue: over any sequence of arrivals, reads, writes, credit
    updates and closes, what the reads hand out followed by what still waits is what was there
    followed by what arrived; the forward counter counts the bytes read modulo 2^32, and stays
    less than a quarter window ahead of what the guest was told. *)
Theorem vsock_read_fifo s es :
  let '(s', out) := conn_run s es in
  incoming s ++ arrived es = out ++ incoming s' ∧
  u32 (bytes_read s') = u32 (bytes_read s + Z.of_nat (length out)) ∧ (credit_ok s → credit_ok s').
Proof. apply conn_run_fifo. Qed.

(** The search for a local port finds a free port of the dynamic range if there is one, and
    fails only when all 16384 are taken; its cursor stays in the range. *)
Lemma vsock_find_port_complete taken next :
  49152 <= next <= 65535 →
  49152 <= (find_port (Z.to_nat 16384) taken next).2 <= 65535 ∧
  match (find_port (Z.to_nat 16384) taken next).1 with
  | Some p => 49152 <= p <= 65535 ∧ taken !! Local p = None
  | None => ∀ p, 49152 <= p <= 65535 → is_Some (taken !! Local p)
  end.
Proof.
  intros Hn. destruct (find_port_spec (Z.to_nat 16384) taken next Hn) as [H1 H2].
  split; [done|]. destruct (find_port _ taken next) as [[p|] nx]; [done|].
  intros p Hp. destruct (port_after_covers next p Hn Hp) as (k & Hk & <-). by apply H2.
Qed.

(** After any sequence of operations of the host, its threads and the guest, every key of the
    registry leads to a live connection with that address and no connection has two keys; and a
    packet for one connection leaves the state of every other one alone. *)
Lemma vsock_registry_sound cid v h p i :
  rtc vsock_step (vsock_new cid) v →
  reg_ok v ∧
  ((i < next_conn v)%nat → lookup_connection v h ≠ Some i →
   conns (handle v h p) !! i = conns v !! i).
Proof.
  intros Hs. split; [|by apply handle_isolated].
  assert (∀ v0, rtc vsock_step v0 v → reg_ok v0 → reg_ok v) as H.
  { induction 1; intros; [done|]. eauto using vsock_step_ok. }
  by apply (H _ Hs), vsock_new_ok.
Qed.

(** a SHUTDOWN or RST from the guest ends its connection for good: the connection is closed
    with what had arrived still readable, it can no longer be looked up, and only a SHUTDOWN is
    answered, with one RST. *)
Lemma vsock_peer_close v h p id c :
  op h = OP_SHUTDOWN ∨ op h = OP_RST →
  lookup_connection v h = Some id → conns v !! id = Some c →
  let v' := handle v h p in
  (∃ c', conns v' !! id = Some c' ∧ address c' = address c ∧ st_closed (state c') = true ∧
     incoming (state c') = incoming (state c) ∧
     (connected (state c) = true → st_error (state c') = st_error (state c))) ∧
  lookup_connection v' h = None ∧
  outbox v' = outbox v ++
    (if op h =? OP_SHUTDOWN then [packet (address c) OP_RST 0 [] 0] else []).
Proof. apply handle_ends. Qed.

(** The device hands the guest the oldest waiting packet, whole and unchanged, over the
    buffers it offered, and both directions of the device always end. *)
Lemma vsock_device_delivers v m c p rest i q qs :
  mem_size m <= 4294967296 → wf_bytes m → buffers_ok m (buffers c) → outbox v = p :: rest →
  Z.of_nat (length p) < 4294967296 → room (targets (buffers c)) (length p) = length p →
  queue_ok q → slots_ok qs →
  (∃ m', receive_chain v m c = (Ok (Z.of_nat (length p)), (with_outbox v rest, m')) ∧
     gather m' (targets (buffers c)) (length p) = Some p) ∧
  (vsock_notify v i q m).1 ≠ Err LoopBound ∧ (vsock_poll v qs m).1 ≠ Err LoopBound.
Proof.
  intros. split; [by apply receive_chain_delivers|].
  split; [by apply vsock_notify_terminates|by apply vsock_poll_terminates].
Qed.


(** ** Witnesses *)

Definition example_address : Address := {| guest_cid := 3; local_port := 49152; peer_port := 22 |}.

Lemma vsock_packet_roundtrip_witness :
  parse_header (packet example_address OP_RW 0 [104; 105] 7) =
    Ok {| src_port := 49152; dst_port := 22; h_len := 2; op := OP_RW; buf_alloc := BUF_ALLOC;
          fwd_cnt := 7 |} ∧
  drop HEADER_SIZE (packet example_address OP_RW 0 [104; 105] 7) = [104; 105].
Proof. apply (vsock_packet_roundtrip example_address OP_RW 0 [104; 105] 7); by vm_compute. Defined.

(** A window of four bytes of which three are used, the write counter about to wrap. *)
Definition example_state : ConnectionState :=
  {| incoming := []; connected := true; st_closed := false; st_error := None; bytes_read := 0;
     credited := 0; bytes_written := 4294967295; peer_buf_alloc := 4; peer_fwd_cnt := 4294967292;
     deadline := None |}.

Lemma vsock_write_within_credit_witness :
  ∃ payload fc s', write_turn [1; 2; 3] 0 example_state = (Chunk payload fc, s') ∧
    length payload = 1%nat ∧ in_flight s' = 4.
Proof.
  destruct (vsock_write_within_credit [1; 2; 3] 0 example_state) as [Hp Hc];
    [by vm_compute|simpl; lia|].
  destruct Hp as (pl & fc & s' & Hw); [done|by vm_compute|].
  destruct (Hc pl fc s' Hw) as (? & ? & Hf & ?). exists pl, fc, s'. split; [done|].
  assert (length pl = 1%nat) as Hl by (vm_compute in Hw; by injection Hw as <- <- <-).
  split; [done|]. rewrite Hf, Hl. by vm_compute.
Defined.

(** A host that has asked for a connection to the guest's port 22. *)
Definition example_vsock : Vsock := (connect_begin (vsock_new 3) 22).2.

Lemma vsock_write_all_in_order_witness :
  ∃ chunks v', write_run (λ v v', v' = stream_set_deadline v 0 None) 0 [1; 2; 3] 0
                 example_vsock chunks (Ok tt) v' ∧ concat chunks = [1; 2; 3].
Proof.
  set (env := λ v v', v' = stream_set_deadline v 0 None).
  assert (∀ v v', env v v' → windows_ok v → windows_ok v') as Henv.
  { intros v v' -> Hw id c. unfold stream_set_deadline. rewrite conns_update. case_decide; [|apply Hw].
    destruct (conns v !! id) as [d|] eqn:E; [|done]. intros [= <-]. exact (Hw id d E). }
  assert (windows_ok example_vsock) as Hw.
  { intros id c Hc. change (conns example_vsock) with
      ({[0%nat := connection_new example_address false]} : gmap nat Connection) in Hc.
    apply lookup_singleton_Some in Hc as [_ <-]. by vm_compute. }
  assert (∃ v', write_run env 0 [1; 2; 3] 0 example_vsock [[1; 2; 3]] (Ok tt) v') as (v' & Hrun).
  { eexists. eapply run_env; [done|]. eapply run_chunk; [simpl; lia|by vm_compute|].
    apply run_done. simpl. lia. }
  exists [[1; 2; 3]], v'. split; [done|].
  by apply (vsock_write_all_in_order env 0 [1; 2; 3] example_vsock [[1; 2; 3]] (Ok tt) v' Henv Hw Hrun).
Defined.

Lemma vsock_find_port_complete_witness :
  (find_port (Z.to_nat 16384) {[Local 65535 := 0%nat]} 65535).1 = Some 49152 ∧
  49152 <= 49152 <= 65535 ∧ ({[Local 65535 := 0%nat]} : gmap Key nat) !! Local 49152 = None.
Proof.
  pose proof (vsock_find_port_complete {[Local 65535 := 0%nat]} 65535 ltac:(lia)) as [_ H].
  assert ((find_port (Z.to_nat 16384) {[Local 65535 := 0%nat]} 65535).1 = Some 49152) as E
    by by vm_compute.
  rewrite E in H. by split.
Defined.

(** The guest opens a connection to the host's port 1024. *)
Definition example_request : Header :=
  {| src_port := 5000; dst_port := 1024; h_len := 0; op := OP_REQUEST; buf_alloc := 65536;
     fwd_cnt := 0 |}.
Definition example_accepted : Vsock := handle (listen example_vsock 1024).2 example_request [].

Lemma vsock_registry_sound_witness :
  reg_ok example_accepted ∧
  conns (handle example_accepted
    {| src_port := 5000; dst_port := 1024; h_len := 0; op := OP_RST; buf_alloc := 0; fwd_cnt := 0 |}
    []) !! 0%nat = conns example_accepted !! 0%nat.
Proof.
  set (h := {| src_port := 5000; dst_port := 1024; h_len := 0; op := OP_RST; buf_alloc := 0;
               fwd_cnt := 0 |}).
  destruct (vsock_registry_sound 3 example_accepted h [] 0) as [H1 H2].
  - apply (rtc_l _ _ example_vsock); [unfold example_vsock; apply vstep_connect|].
    apply (rtc_l _ _ (listen example_vsock 1024).2); [apply vstep_listen|].
    apply rtc_once. unfold example_accepted. apply vstep_packet.
  - split; [done|]. apply H2; [vm_compute; lia|]. by vm_compute.
Defined.

Definition example_shutdown : Header :=
  {| src_port := 5000; dst_port := 1024; h_len := 0; op := OP_SHUTDOWN; buf_alloc := 0;
     fwd_cnt := 0 |}.

Lemma vsock_peer_close_witness :
  lookup_connection example_accepted example_shutdown = Some 1%nat ∧
  lookup_connection (handle example_accepted example_shutdown []) example_shutdown = None.
Proof.
  destruct (conns example_accepted !! 1%nat) as [c|] eqn:Hc; [|by vm_compute in Hc].
  assert (lookup_connection example_accepted example_shutdown = Some 1%nat) as Hl by by vm_compute.
  split; [exact Hl|].
  apply (vsock_peer_close example_accepted example_shutdown [] 1 c (or_introl eq_refl) Hl Hc).
Defined.

Lemma vsock_device_delivers_witness :
  ∃ m', (receive_chain example_vsock example_mem
           {| buffers := [mk_buffer 128 20 true; mk_buffer 160 64 true]; c_id := 1; skip := 2 |}).1
          = Ok 44 ∧
    gather m' [(128, 20); (160, 64)] 44 = Some (packet example_address OP_REQUEST 0 [] 0).
Proof.
  set (c := {| buffers := [mk_buffer 128 20 true; mk_buffer 160 64 true]; c_id := 1; skip := 2 |}).
  destruct (vsock_device_delivers example_vsock example_mem c
    (packet example_address OP_REQUEST 0 [] 0) [] 1 example_queue [Some example_queue])
    as [(m' & H1 & H2) _].
  - by vm_compute.
  - apply wf_bytes_check. by vm_compute.
  - unfold buffers_ok, disjoint_ranges. change (mem_size example_mem) with 264. simpl.
    split_and!; try lia; repeat constructor; simpl; lia.
  - by vm_compute.
  - by vm_compute.
  - by vm_compute.
  - split; [split; unfold DESCRIPTOR_SIZE; simpl; lia| |]; exists 3; by vm_compute.
  - constructor; [|constructor]. intros q [= <-].
    split; [split; unfold DESCRIPTOR_SIZE; simpl; lia| |]; exists 3; by vm_compute.
  - exists m'. split; [by rewrite H1|exact H2].
Defined.

(** The end of a connection the guest opened also takes the key of a connection the host opened
    from a local port with the number of the listener's: that one stays open but can no longer be
    found. *)
Definition example_crossed : Vsock := handle (listen example_vsock 49152).2
  {| src_port := 5000; dst_port := 49152; h_len := 0; op := OP_REQUEST; buf_alloc := 65536;
     fwd_cnt := 0 |} [].

Example vsock_shutdown_takes_local_key :
  connections example_crossed !! Local 49152 = Some 0%nat ∧
  connections example_crossed !! Pair 49152 5000 = Some 1%nat ∧
  let v := handle example_crossed
    {| src_port := 5000; dst_port := 49152; h_len := 0; op := OP_RST; buf_alloc := 0; fwd_cnt := 0 |} [] in
  connections v !! Local 49152 = None ∧ (λ c, st_closed (state c)) <$> conns v !! 0%nat = Some false.
Proof. by vm_compute. Qed.
