(* ===== verification/NetPacket.v ===== *)
(** * Packets of the network stack (engine/src/net.rs, engine/src/icmp.rs)

    The Internet checksum over a message in parts, the Ethernet, IPv4, ICMP, UDP and TCP encoders
    of the gateway, and the parsers of what the guest sends.  A checksum in a packet is right when
    the sum over the packet that holds it folds to all ones, that is when [checksum] of it is 0;
    the theorems show that for every packet the gateway builds. *)
From S2P Require Import Prelude.

Local Open Scope Z_scope.

(** An IPv4 address is its octets. *)
Abbreviation Ipv4Addr := (Z * Z * Z * Z)%type.

Definition octets (ip : Ipv4Addr) : list Z := let '(a, b, c, d) := ip in [a; b; c; d].
Definition is_loopback (ip : Ipv4Addr) : bool := let '(a, _, _, _) := ip in a =? 127.

Definition GATEWAY : Ipv4Addr := (192, 0, 2, 1).
Definition GUEST : Ipv4Addr := (192, 0, 2, 2).
Definition LOCALHOST : Ipv4Addr := (127, 0, 0, 1).
Definition GATEWAY_MAC : list Z := [0x52; 0x54; 0; 0; 0; 1].
Definition GUEST_MAC : list Z := [0x52; 0x54; 0; 0x12; 0x34; 0x56].
Definition ETHERTYPE_IPV4 : Z := 0x0800.
Definition ETHERTYPE_ARP : Z := 0x0806.
Definition PROTO_ICMP : Z := 1.
Definition PROTO_TCP : Z := 6.
Definition PROTO_UDP : Z := 17.
Definition FIN : Z := 1.
Definition SYN : Z := 2.
Definition RST : Z := 4.
Definition PSH : Z := 8.
Definition ACK : Z := 16.
Definition WINDOW : Z := 65536.
Definition MAX_SEGMENT : Z := 1400.

(** ** The checksum *)

(** One part's whole pairs added to the sum, and the odd byte left, if any ([chunks_exact]). *)
Fixpoint sum_pairs (sum : Z) (bytes : list Z) : Z * option Z :=
  match bytes with
  | a :: b :: rest => sum_pairs (u32 (sum + be_val [a; b])) rest
  | [a] => (sum, Some a)
  | [] => (sum, None)
  end.

(** One part: the odd byte of the part before pairs up with its first. *)
Definition sum_part (acc : Z * option Z) (part : list Z) : Z * option Z :=
  match acc with
  | (sum, Some first) =>
      match part with
      | second :: rest => sum_pairs (u32 (sum + be_val [first; second])) rest
      | [] => (sum, Some first)
      end
  | (sum, None) => sum_pairs sum part
  end.

(** [while sum >> 16 != 0]: two turns are enough for 32 bits (see [fold_carries_spec]). *)
Fixpoint fold_carries (turns : nat) (sum : Z) : Z :=
  match turns with
  | O => sum
  | S turns =>
      if Z.shiftr sum 16 =? 0 then sum
      else fold_carries turns (u32 (Z.land sum 0xffff + Z.shiftr sum 16))
  end.

(** [!(sum as u16)]. *)
Definition not16 (sum : Z) : Z := 65535 - u16 sum.

Definition checksum (parts : list (list Z)) : Z :=
  let '(sum, odd) := foldl sum_part (0, None) parts in
  let sum := match odd with Some last => u32 (sum + be_val [last; 0]) | None => sum end in
  not16 (fold_carries 3 sum).

(** The checksum of icmp.rs: [chunks(2)] with a missing last byte read as 0. *)
Fixpoint sum_chunks (sum : Z) (bytes : list Z) : Z :=
  match bytes with
  | a :: b :: rest => sum_chunks (u32 (sum + be_val [a; b])) rest
  | [a] => u32 (sum + be_val [a; 0])
  | [] => sum
  end.

Definition icmp_checksum (data : list Z) : Z := not16 (fold_carries 3 (sum_chunks 0 data)).

(** ** Encoders *)

Definition ethernet (payload_type : Z) (payload : list Z) : list Z :=
  GUEST_MAC ++ GATEWAY_MAC ++ be_bytes 2 payload_type ++ payload.

(** The IPv4 header with a given checksum field. *)
Definition ipv4_header (protocol : Z) (source : Ipv4Addr) (total sum : Z) : list Z :=
  [0x45; 0] ++ be_bytes 2 (u16 total) ++ be_bytes 2 0 ++ be_bytes 2 0x4000 ++ [64; protocol] ++
  be_bytes 2 sum ++ octets source ++ octets GUEST.

Definition ipv4 (protocol : Z) (source : Ipv4Addr) (payload : list Z) : list Z :=
  let total := 20 + Z.of_nat (length payload) in
  let sum := checksum [ipv4_header protocol source total 0] in
  ethernet ETHERTYPE_IPV4 (patch 10 (be_bytes 2 sum) (ipv4_header protocol source total 0) ++ payload).

Definition pseudo_header (protocol : Z) (source destination : Ipv4Addr) (length : Z) : list Z :=
  octets source ++ octets destination ++ [0; protocol] ++ be_bytes 2 (u16 length).

Definition transport_checksum (protocol : Z) (source destination : Ipv4Addr) (segment : list Z) : Z :=
  checksum [pseudo_header protocol source destination (Z.of_nat (length segment)); segment].

(** A TCP segment with a given checksum field. *)
Definition tcp_bytes (guest_port port sequence acknowledged flags window sum : Z) (data : list Z)
    : list Z :=
  be_bytes 2 port ++ be_bytes 2 guest_port ++ be_bytes 4 sequence ++ be_bytes 4 acknowledged ++
  [u8 (Z.shiftl 5 4); flags] ++ be_bytes 2 (u16 (Z.min window 0xffff)) ++ be_bytes 2 sum ++
  be_bytes 2 0 ++ data.

Definition tcp_segment (source : Ipv4Addr)
    (guest_port port sequence acknowledged flags window : Z) (data : list Z) : list Z :=
  let segment := tcp_bytes guest_port port sequence acknowledged flags window 0 data in
  let sum := transport_checksum PROTO_TCP source GUEST segment in
  ipv4 PROTO_TCP source (patch 16 (be_bytes 2 sum) segment).

(** A UDP datagram with a given checksum field. *)
Definition udp_bytes (source_port destination_port sum : Z) (answer : list Z) : list Z :=
  be_bytes 2 source_port ++ be_bytes 2 destination_port ++
  be_bytes 2 (u16 (8 + Z.of_nat (length answer))) ++ be_bytes 2 sum ++ answer.

(** The datagram that answers a DNS query: a checksum of 0 is sent as all ones. *)
Definition udp_answer (source : Ipv4Addr) (source_port destination_port : Z) (answer : list Z)
    : list Z :=
  let datagram := udp_bytes source_port destination_port 0 answer in
  let sum := transport_checksum PROTO_UDP source GUEST datagram in
  ipv4 PROTO_UDP source (patch 6 (be_bytes 2 (if sum =? 0 then 0xffff else sum)) datagram).

(** The echo reply to an echo request. *)
Definition echo_reply (source : Ipv4Addr) (request : list Z) : list Z :=
  let reply := patch 2 [0; 0] (patch 0 [0] request) in
  ipv4 PROTO_ICMP source (patch 2 (be_bytes 2 (checksum [reply])) reply).

(** The echo request of icmp.rs, and the answer it takes for its own. *)
Definition echo_request (sequence : Z) (payload : list Z) : list Z :=
  let request := [8; 0; 0; 0; 0; 0] ++ be_bytes 2 sequence ++ payload in
  patch 2 (be_bytes 2 (icmp_checksum request)) request.

Definition echo_matches (sequence : Z) (received : list Z) : bool :=
  let reply :=
    if bool_decide (20 ≤ length received)%nat && (Z.shiftr (byte_at received 0) 4 =? 4)
    then drop (Nat.min (Z.to_nat (Z.land (byte_at received 0) 0xf) * 4) (length received)) received
    else received in
  bool_decide (8 ≤ length reply)%nat && (byte_at reply 0 =? 0) &&
  bool_decide (slice 6 8 reply = be_bytes 2 sequence).

(** ** Parsers *)

(** [receive_frame]: the type and the payload of a frame. *)
Definition parse_ethernet (frame : list Z) : option (Z * list Z) :=
  if bool_decide (length frame < 14)%nat then None
  else Some (be_val (slice 12 14 frame), drop 14 frame).

Definition ip_at (at_ : nat) (p : list Z) : Ipv4Addr :=
  (byte_at p at_, byte_at p (at_ + 1), byte_at p (at_ + 2), byte_at p (at_ + 3)).

(** [receive_ipv4]: protocol, destination and payload of a packet it does not ignore. *)
Definition parse_ipv4 (packet : list Z) : option (Z * Ipv4Addr * list Z) :=
  if bool_decide (length packet < 20)%nat || negb (Z.shiftr (byte_at packet 0) 4 =? 4) then None
  else
    let header_length := (Z.to_nat (Z.land (byte_at packet 0) 0xf) * 4)%nat in
    let total := Z.to_nat (be_val (slice 2 4 packet)) in
    if bool_decide (length packet < header_length ∨ total < header_length ∨ length packet < total)%nat
    then None
    else Some (byte_at packet 9, ip_at 16 packet, slice header_length total packet).

(** The fields [receive_tcp] reads. *)
Record Segment := mk_segment {
  source_port : Z;
  destination_port : Z;
  sequence : Z;
  acknowledged : Z;
  flags : Z;
  window : Z;
  data : list Z;
}.

Definition parse_tcp (segment : list Z) : option Segment :=
  if bool_decide (length segment < 20)%nat then None
  else
    let offset := (Z.to_nat (Z.shiftr (byte_at segment 12) 4) * 4)%nat in
    if bool_decide (length segment < offset)%nat then None
    else Some {| source_port := be_val (slice 0 2 segment);
                 destination_port := be_val (slice 2 4 segment);
                 sequence := be_val (slice 4 8 segment);
                 acknowledged := be_val (slice 8 12 segment);
                 flags := byte_at segment 13;
                 window := be_val (slice 14 16 segment);
                 data := drop offset segment |}.

(** [receive_udp] up to the answer: the source port and the query of a datagram to port 53. *)
Definition parse_dns_datagram (payload : list Z) : option (Z * list Z) :=
  if bool_decide (length payload < 8)%nat then None
  else
    let source_port := be_val (slice 0 2 payload) in
    let destination_port := be_val (slice 2 4 payload) in
    let length_ := Z.to_nat (be_val (slice 4 6 payload)) in
    if negb (destination_port =? 53) || bool_decide (length_ < 8 ∨ length payload < length_)%nat
    then None
    else Some (source_port, slice 8 length_ payload).

(** ** The checksum as a sum of 16-bit words *)

Arguments fold_carries : simpl never.

(** Induction two bytes at a time. *)
Lemma pairs_ind {A} (P : list A → Prop) :
  P [] → (∀ a, P [a]) → (∀ a b l, P l → P (a :: b :: l)) → ∀ l, P l.
Proof.
  intros H0 H1 H2. assert (∀ l, P l ∧ ∀ a, P (a :: l)) as H; [|intros l; apply H].
  induction l as [|b l [IH1 IH2]]; split; auto.
Qed.

(** Splitting a message into parts does not change the sum, odd lengths included. *)
Lemma sum_part_app s l k : sum_part (sum_pairs s l) k = sum_pairs s (l ++ k).
Proof.
  revert s. induction l as [|a|a b l IH] using pairs_ind; intros s; simpl; [done| |apply IH].
  by destruct k.
Qed.

Lemma sum_parts_concat parts s l :
  foldl sum_part (sum_pairs s l) parts = sum_pairs s (l ++ concat parts).
Proof.
  revert l. induction parts as [|p parts IH]; intros l; simpl; [by rewrite app_nil_r|].
  by rewrite sum_part_app, IH, <-app_assoc.
Qed.

Lemma checksum_parts parts : checksum parts = checksum [concat parts].
Proof.
  unfold checksum. change (0, None) with (sum_pairs 0 []). rewrite !sum_parts_concat.
  simpl concat. by rewrite app_nil_r.
Qed.

Lemma sum_chunks_pairs s l :
  sum_chunks s l =
  match sum_pairs s l with (sum, Some a) => u32 (sum + be_val [a; 0]) | (sum, None) => sum end.
Proof. revert s. induction l as [|a|a b l IH] using pairs_ind; intros s; simpl; done. Qed.

Lemma icmp_checksum_eq l : icmp_checksum l = checksum [l].
Proof.
  unfold icmp_checksum, checksum. rewrite sum_chunks_pairs. cbn [foldl sum_part].
  by destruct (sum_pairs 0 l) as [s [a|]].
Qed.

(** The sum without wrapping. *)
Fixpoint words (l : list Z) : Z :=
  match l with
  | a :: b :: l => be_val [a; b] + words l
  | [a] => be_val [a; 0]
  | [] => 0
  end.

Lemma be_val_2 a b : be_val [a; b] = 256 * a + b.
Proof. unfold be_val, le_val. simpl. lia. Qed.

Lemma words_range l : wf_bytes l → 0 <= words l <= 32768 * Z.of_nat (length l + 1).
Proof.
  induction l as [|a|a b l IH] using pairs_ind; intros Hl; simpl; [lia|..].
  - apply Forall_cons in Hl as [Ha _]. rewrite be_val_2. unfold is_byte in Ha. lia.
  - apply Forall_cons in Hl as [Ha [Hb Hl]%Forall_cons]. specialize (IH Hl). rewrite be_val_2.
    unfold is_byte in *. lia.
Qed.

Lemma words_app l k : Nat.Even (length l) → words (l ++ k) = words l + words k.
Proof.
  induction l as [|a|a b l IH] using pairs_ind; intros He; simpl; [done| |].
  - exfalso. destruct He as [n Hn]. simpl in Hn. lia.
  - rewrite IH; [lia|]. destruct He as [n Hn]. exists (n - 1)%nat. simpl in Hn. lia.
Qed.

Lemma sum_chunks_words s l :
  wf_bytes l → 0 <= s → s + 32768 * Z.of_nat (length l + 1) < 4294967296 →
  sum_chunks s l = s + words l.
Proof.
  revert s. induction l as [|a|a b l IH] using pairs_ind; intros s Hl Hs Hb; simpl in *; [lia|..].
  - apply Forall_cons in Hl as [Ha _]. unfold is_byte in Ha. rewrite be_val_2 in *.
    rewrite u32_small; lia.
  - apply Forall_cons in Hl as [Ha [Hb' Hl]%Forall_cons]. unfold is_byte in *. rewrite be_val_2 in *.
    rewrite u32_small by lia. rewrite IH by (done || lia). lia.
Qed.

(** A checked addition of carries. *)
Lemma fold_carries_turn n s :
  fold_carries (S n) s =
  if s / 65536 =? 0 then s else fold_carries n (u32 (s mod 65536 + s / 65536)).
Proof.
  change (fold_carries (S n) s) with (if Z.shiftr s 16 =? 0 then s
    else fold_carries n (u32 (Z.land s (Z.ones 16) + Z.shiftr s 16))).
  by rewrite Z.land_ones, Z.shiftr_div_pow2 by lia.
Qed.

(** Folding the carries keeps the sum modulo 65535 and ends below 65536. *)
Lemma fold_carries_spec s :
  0 <= s < 4294967296 →
  let r := fold_carries 3 s in
  0 <= r < 65536 ∧ (∃ k, s = r + 65535 * k) ∧ (r = 0 ↔ s = 0).
Proof.
  intros Hs. cbv zeta. rewrite fold_carries_turn.
  destruct (Z.eqb_spec (s / 65536) 0) as [E|E].
  { split; [Z.div_mod_to_equations; lia|]. split; [exists 0; lia|done]. }
  assert (∃ s1, u32 (s mod 65536 + s / 65536) = s1 ∧ s1 = s mod 65536 + s / 65536) as (s1 & -> & E1).
  { eexists. split; [done|]. apply u32_small. Z.div_mod_to_equations; lia. }
  rewrite fold_carries_turn. destruct (Z.eqb_spec (s1 / 65536) 0) as [F|F].
  { split; [Z.div_mod_to_equations; lia|].
    split; [exists (s / 65536)|]; Z.div_mod_to_equations; lia. }
  assert (∃ s2, u32 (s1 mod 65536 + s1 / 65536) = s2 ∧ s2 = s1 - 65535) as (s2 & -> & E2).
  { eexists. split; [done|]. rewrite u32_small; Z.div_mod_to_equations; lia. }
  rewrite fold_carries_turn.
  assert (s2 / 65536 = 0) as -> by (Z.div_mod_to_equations; lia). rewrite Z.eqb_refl.
  split; [Z.div_mod_to_equations; lia|].
  split; [exists (s / 65536 + 1)|]; Z.div_mod_to_equations; lia.
Qed.

(** What the checksum is, for every message the stack can send (at most 128 KiB). *)
Lemma checksum_spec l :
  wf_bytes l → Z.of_nat (length l) < 131070 →
  0 <= checksum [l] < 65536 ∧ (∃ k, words l + checksum [l] = 65535 * k) ∧
  (checksum [l] = 65535 ↔ words l = 0).
Proof.
  intros Hl Hlen. rewrite <-icmp_checksum_eq. unfold icmp_checksum, not16.
  pose proof (words_range l Hl).
  rewrite sum_chunks_words by (done || lia). rewrite Z.add_0_l.
  destruct (fold_carries_spec (words l) ltac:(lia)) as (H1 & [k H2] & H3).
  rewrite u16_small by lia. split; [lia|]. split; [exists (k + 1); lia|]. lia.
Qed.

(** A message verifies when its words, the checksum among them, sum to a positive multiple of
    65535. *)
Lemma checksum_verifies l k :
  wf_bytes l → Z.of_nat (length l) < 131070 → words l = 65535 * k → words l ≠ 0 → checksum [l] = 0.
Proof.
  intros Hl Hlen Hw Hnz. destruct (checksum_spec l Hl Hlen) as (H1 & [j H2] & H3).
  assert (checksum [l] = 65535 * (j - k)) as E by lia.
  destruct (Z.eq_dec (checksum [l]) 65535); [tauto|]. lia.
Qed.

Lemma words_be_bytes c l : 0 <= c < 65536 → words (be_bytes 2 c ++ l) = c + words l.
Proof.
  intros Hc. change (be_bytes 2 c) with [c / 256 mod 256; c mod 256]. simpl.
  rewrite be_val_2. Z.div_mod_to_equations; lia.
Qed.

(** Filling an even-placed, zero checksum field with the checksum, or with all ones where that
    is 0, makes the message verify. *)
Lemma checksum_filled x y c :
  wf_bytes (x ++ y) → Nat.Even (length x) → Z.of_nat (length x + length y) < 131068 →
  (c = checksum [x ++ be_bytes 2 0 ++ y] ∨ c = 65535 ∧ checksum [x ++ be_bytes 2 0 ++ y] = 0) →
  wf_bytes (x ++ be_bytes 2 c ++ y) ∧ checksum [x ++ be_bytes 2 c ++ y] = 0.
Proof.
  intros Hwf He Hlen Hc. apply wf_app in Hwf as [Hx Hy].
  assert (∀ d, wf_bytes (x ++ be_bytes 2 d ++ y)) as Hw by (intros; solve_wf).
  destruct (checksum_spec (x ++ be_bytes 2 0 ++ y) (Hw 0)) as (H1 & [k H2] & H3).
  { autorewrite with collabo. lia. }
  assert (0 <= c < 65536) as Hcr by lia. split; [done|].
  rewrite words_app, words_be_bytes in H2, H3 by (done || lia).
  pose proof (words_range x Hx). pose proof (words_range y Hy).
  assert (∃ j, words (x ++ be_bytes 2 c ++ y) = 65535 * j) as [j Hj].
  { rewrite words_app, words_be_bytes by done. destruct Hc as [->|[-> Hc]]; [exists k; lia|].
    exists (k + 1). lia. }
  apply (checksum_verifies _ j); [done|autorewrite with collabo; lia|done|].
  rewrite words_app, words_be_bytes by done. lia.
Qed.

(** ** What the guest makes of the gateway's packets *)

Definition wf_ip (ip : Ipv4Addr) : Prop := wf_bytes (octets ip).

Lemma length_octets ip : length (octets ip) = 4%nat.
Proof. by destruct ip as [[[a b] c] d]. Qed.

Lemma ip_at_octets at_ x ip y : at_ = length x → ip_at at_ (x ++ octets ip ++ y) = ip.
Proof.
  intros ->. destruct ip as [[[a b] c] d]. unfold ip_at, byte_at. cbn [octets app].
  rewrite !lookup_app_r by lia. rewrite Nat.sub_diag.
  replace (length x + 1 - length x)%nat with 1%nat by lia.
  replace (length x + 2 - length x)%nat with 2%nat by lia.
  by replace (length x + 3 - length x)%nat with 3%nat by lia.
Qed.

Lemma ipv4_header_patch p s t c :
  patch 10 (be_bytes 2 c) (ipv4_header p s t 0) = ipv4_header p s t c.
Proof.
  unfold ipv4_header. rewrite !app_assoc, <-(app_assoc _ (octets s)), <-(app_assoc _ (be_bytes 2 0)),
    <-(app_assoc _ (be_bytes 2 c)). rewrite patch_field; [by rewrite <-!app_assoc|done|done].
Qed.

Lemma length_ipv4_header p s t c : length (ipv4_header p s t c) = 20%nat.
Proof. unfold ipv4_header. autorewrite with collabo. by rewrite !length_octets. Qed.

Lemma wf_ipv4_header p s t c : 0 <= p < 256 → wf_ip s → wf_bytes (ipv4_header p s t c).
Proof. intros Hp Hs. unfold ipv4_header. solve_wf; exact Hs || (apply wf_bytes_check; done). Qed.

Lemma ipv4_header_verifies p s t :
  0 <= p < 256 → wf_ip s →
  checksum [ipv4_header p s t (checksum [ipv4_header p s t 0])] = 0.
Proof.
  intros Hp Hs. pose proof (wf_ipv4_header p s t 0 Hp Hs) as Hw.
  set (c := checksum [ipv4_header p s t 0]). unfold ipv4_header in *.
  set (x := [69; 0] ++ be_bytes 2 (u16 t) ++ be_bytes 2 0 ++ be_bytes 2 16384 ++ [64; p]) in *.
  assert (∀ d, [69; 0] ++ be_bytes 2 (u16 t) ++ be_bytes 2 0 ++ be_bytes 2 16384 ++ [64; p] ++
    be_bytes 2 d ++ octets s ++ octets GUEST = x ++ be_bytes 2 d ++ (octets s ++ octets GUEST)) as Ex.
  { intros d. unfold x. by rewrite <-!app_assoc. }
  rewrite Ex in Hw. rewrite Ex. apply wf_app in Hw as [Hx [_ Hy]%wf_app].
  apply checksum_filled; [by apply wf_app|exists 5%nat; done| |].
  - rewrite length_app, !length_octets. done.
  - left. unfold c. by rewrite Ex.
Qed.

(** Every packet of the gateway parses back to its protocol, source and payload, and its header
    checksum verifies. *)
Lemma ipv4_parses protocol source payload :
  0 <= protocol < 256 → wf_ip source → Z.of_nat (length payload) <= 65515 →
  ∃ p, parse_ethernet (ipv4 protocol source payload) = Some (ETHERTYPE_IPV4, p) ∧
    parse_ipv4 p = Some (protocol, GUEST, payload) ∧ ip_at 12 p = source ∧
    checksum [take 20 p] = 0.
Proof.
  intros Hp Hs Hlen. unfold ipv4. cbv zeta. rewrite ipv4_header_patch.
  set (t := 20 + Z.of_nat (length payload)). set (c := checksum _).
  set (h := ipv4_header protocol source t c).
  assert (length h = 20%nat) as Hh by apply length_ipv4_header.
  exists (h ++ payload). unfold parse_ethernet, ethernet.
  split.
  { rewrite !length_app, length_be_bytes. rewrite bool_decide_false by (simpl; lia). done. }
  assert (be_val (slice 2 4 (h ++ payload)) = t) as Ht.
  { transitivity (be_val (be_bytes 2 (u16 t))); [done|].
    rewrite be_val_small by (change (256 ^ Z.of_nat 2) with 65536; apply u16_range).
    apply u16_small. unfold t. lia. }
  split_and!.
  - unfold parse_ipv4. rewrite Ht.
    change (byte_at (h ++ payload) 0) with 69. change (byte_at (h ++ payload) 9) with protocol.
    rewrite bool_decide_false by (rewrite length_app; lia).
    change (Z.to_nat (Z.land 69 15) * 4)%nat with 20%nat. cbn [orb negb Z.eqb Z.shiftr].
    rewrite bool_decide_false by (rewrite length_app; unfold t; lia).
    f_equal. f_equal; [f_equal|].
    + unfold h, ipv4_header. rewrite !app_assoc. rewrite <-app_assoc. apply ip_at_octets.
      by rewrite !length_app, length_octets, !length_be_bytes.
    + rewrite slice_app_r by lia. rewrite Hh. simpl Nat.sub at 1.
      replace (Z.to_nat t - 20)%nat with (length payload) by (unfold t; lia). apply slice_full.
  - unfold h, ipv4_header. rewrite !app_assoc, <-(app_assoc _ (octets GUEST)),
      <-(app_assoc _ (octets source)). by apply ip_at_octets.
  - rewrite take_app_le, take_ge by lia. by apply ipv4_header_verifies.
Qed.

Lemma tcp_bytes_patch gp p s a f w c d :
  patch 16 (be_bytes 2 c) (tcp_bytes gp p s a f w 0 d) = tcp_bytes gp p s a f w c d.
Proof.
  unfold tcp_bytes. rewrite !app_assoc, <-(app_assoc _ _ d), <-(app_assoc _ (be_bytes 2 0)),
    <-(app_assoc _ (be_bytes 2 c)). rewrite patch_field; [by rewrite <-!app_assoc|done|done].
Qed.

(** The transport checksum of a segment whose checksum field, at an even offset, was filled in. *)
Lemma transport_filled proto source x y c :
  0 <= proto < 256 → wf_ip source → wf_bytes (x ++ y) → Nat.Even (length x) →
  Z.of_nat (length x + length y) < 131000 →
  let sum := transport_checksum proto source GUEST (x ++ be_bytes 2 0 ++ y) in
  (c = sum ∨ c = 65535 ∧ sum = 0) →
  transport_checksum proto source GUEST (x ++ be_bytes 2 c ++ y) = 0.
Proof.
  intros Hp Hs Hwf [n He] Hlen sum Hc.
  set (ps := pseudo_header proto source GUEST (Z.of_nat (length (x ++ be_bytes 2 0 ++ y)))).
  assert (∀ d, transport_checksum proto source GUEST (x ++ be_bytes 2 d ++ y) =
    checksum [(ps ++ x) ++ be_bytes 2 d ++ y]) as Ht.
  { intros d. unfold transport_checksum. rewrite checksum_parts. simpl concat.
    unfold ps. rewrite app_nil_r, <-app_assoc. do 3 f_equal. rewrite !length_app, !length_be_bytes. done. }
  assert (length ps = 12%nat) as Hps.
  { unfold ps, pseudo_header. rewrite !length_app, !length_octets, length_be_bytes. done. }
  rewrite Ht. unfold sum in Hc. rewrite Ht in Hc. apply wf_app in Hwf as [Hx Hy].
  apply (checksum_filled (ps ++ x) y c).
  - unfold ps, pseudo_header. solve_wf; exact Hs || (apply wf_bytes_check; done).
  - exists (6 + n)%nat. rewrite length_app. lia.
  - rewrite length_app. lia.
  - exact Hc.
Qed.

Lemma tcp_bytes_split gp p s a f w c d :
  tcp_bytes gp p s a f w c d =
  (be_bytes 2 p ++ be_bytes 2 gp ++ be_bytes 4 s ++ be_bytes 4 a ++ [u8 (Z.shiftl 5 4); f] ++
   be_bytes 2 (u16 (Z.min w 65535))) ++ be_bytes 2 c ++ (be_bytes 2 0 ++ d).
Proof. unfold tcp_bytes. by rewrite <-!app_assoc. Qed.

Lemma parse_tcp_bytes gp p s a f w c d :
  0 <= gp < 65536 → 0 <= p < 65536 → 0 <= s < 4294967296 → 0 <= a < 4294967296 → 0 <= w →
  parse_tcp (tcp_bytes gp p s a f w c d) =
  Some {| source_port := p; destination_port := gp; sequence := s; acknowledged := a; flags := f;
          window := Z.min w 65535; data := d |}.
Proof.
  intros Hgp Hp Hs Ha Hw. unfold parse_tcp.
  rewrite bool_decide_false by (rewrite tcp_bytes_split, !length_app, !length_be_bytes; simpl; lia).
  change (byte_at (tcp_bytes gp p s a f w c d) 12) with 80.
  change (byte_at (tcp_bytes gp p s a f w c d) 13) with f.
  change (Z.to_nat (Z.shiftr 80 4) * 4)%nat with 20%nat. cbv zeta.
  rewrite bool_decide_false by (rewrite tcp_bytes_split, !length_app, !length_be_bytes; simpl; lia).
  change (slice 0 2 (tcp_bytes gp p s a f w c d)) with (be_bytes 2 p).
  change (slice 2 4 (tcp_bytes gp p s a f w c d)) with (be_bytes 2 gp).
  change (slice 4 8 (tcp_bytes gp p s a f w c d)) with (be_bytes 4 s).
  change (slice 8 12 (tcp_bytes gp p s a f w c d)) with (be_bytes 4 a).
  change (slice 14 16 (tcp_bytes gp p s a f w c d)) with (be_bytes 2 (u16 (Z.min w 65535))).
  change (drop 20 (tcp_bytes gp p s a f w c d)) with d.
  rewrite u16_small by lia. do 2 f_equal; apply be_val_small; simpl; lia.
Qed.

Lemma udp_bytes_split sp dp c d :
  udp_bytes sp dp c d =
  (be_bytes 2 sp ++ be_bytes 2 dp ++ be_bytes 2 (u16 (8 + Z.of_nat (length d)))) ++
  be_bytes 2 c ++ d.
Proof. unfold udp_bytes. by rewrite <-!app_assoc. Qed.

Lemma udp_bytes_patch sp dp c d : patch 6 (be_bytes 2 c) (udp_bytes sp dp 0 d) = udp_bytes sp dp c d.
Proof. rewrite !udp_bytes_split. by apply patch_field. Qed.

(** The reply's bytes: type 0, the request's code, the checksum, the rest of the request. *)
Lemma echo_reply_bytes source t code c1 c2 rest :
  echo_reply source (t :: code :: c1 :: c2 :: rest) =
  ipv4 PROTO_ICMP source
    ([0; code] ++ be_bytes 2 (checksum [[0; code] ++ be_bytes 2 0 ++ rest]) ++ rest).
Proof.
  unfold echo_reply. cbv zeta.
  change (patch 2 [0; 0] (patch 0 [0] (t :: code :: c1 :: c2 :: rest)))
    with ([0; code] ++ be_bytes 2 0 ++ rest).
  by rewrite patch_field.
Qed.

(** ** Properties of the packets *)

(** The checksum of a message does not depend on how it is split into parts, odd lengths
    included, and the two implementations of it (net.rs and icmp.rs) agree. *)
Lemma net_checksum_parts parts : checksum parts = icmp_checksum (concat parts).
Proof. by rewrite icmp_checksum_eq, checksum_parts. Qed.

(** A segment the gateway sends reaches the guest as it was meant: the frame parses to an
    IPv4 packet from [source] to the guest with a valid header checksum, whose payload has a valid
    TCP checksum and parses to the same ports, numbers, flags, window (at most 65535) and data. *)
Lemma net_tcp_segment_roundtrip source gp p s a f w d :
  wf_ip source → 0 <= gp < 65536 → 0 <= p < 65536 → 0 <= s < 4294967296 →
  0 <= a < 4294967296 → is_byte f → 0 <= w → wf_bytes d → Z.of_nat (length d) <= 65495 →
  ∃ packet segment,
    parse_ethernet (tcp_segment source gp p s a f w d) = Some (ETHERTYPE_IPV4, packet) ∧
    parse_ipv4 packet = Some (PROTO_TCP, GUEST, segment) ∧ ip_at 12 packet = source ∧
    checksum [take 20 packet] = 0 ∧
    transport_checksum PROTO_TCP source GUEST segment = 0 ∧
    parse_tcp segment =
      Some {| source_port := p; destination_port := gp; sequence := s; acknowledged := a;
              flags := f; window := Z.min w 65535; data := d |}.
Proof.
  intros Hsrc Hgp Hp Hs Ha Hf Hw Hd Hlen. unfold tcp_segment. cbv zeta. rewrite tcp_bytes_patch.
  set (c := transport_checksum _ _ _ _). set (seg := tcp_bytes gp p s a f w c d).
  assert (Z.of_nat (length seg) <= 65515) as Hseg.
  { unfold seg. rewrite tcp_bytes_split, !length_app, !length_be_bytes. simpl. lia. }
  destruct (ipv4_parses PROTO_TCP source seg) as (pk & H1 & H2 & H3 & H4); [done..|].
  exists pk, seg. split_and!; try done; [|by apply parse_tcp_bytes].
  unfold seg. rewrite tcp_bytes_split. apply transport_filled; [done..| | | |].
  - change (u8 (Z.shiftl 5 4)) with 80. unfold is_byte in Hf. by solve_wf.
  - by exists 8%nat.
  - rewrite !length_app, !length_be_bytes. simpl. lia.
  - left. unfold c. by rewrite tcp_bytes_split.
Qed.

(** The gateway's datagrams verify as well: the answer to a DNS query parses back to its
    payload with a valid, never zero UDP checksum, and an echo reply carries the request's
    identifier, sequence number and data with a valid ICMP checksum. *)
Lemma net_answers_valid source sp dp answer code c1 c2 rest :
  wf_ip source → wf_bytes answer → wf_bytes (code :: rest) →
  Z.of_nat (length answer) <= 65507 → Z.of_nat (length rest) <= 65511 →
  (∃ packet datagram c,
     parse_ethernet (udp_answer source sp dp answer) = Some (ETHERTYPE_IPV4, packet) ∧
     parse_ipv4 packet = Some (PROTO_UDP, GUEST, datagram) ∧
     datagram = udp_bytes sp dp c answer ∧ c ≠ 0 ∧
     transport_checksum PROTO_UDP source GUEST datagram = 0) ∧
  (∃ packet reply c,
     parse_ethernet (echo_reply source (8 :: code :: c1 :: c2 :: rest)) =
       Some (ETHERTYPE_IPV4, packet) ∧
     parse_ipv4 packet = Some (PROTO_ICMP, GUEST, reply) ∧
     reply = [0; code] ++ be_bytes 2 c ++ rest ∧ checksum [reply] = 0).
Proof.
  intros Hsrc Hans Hcode Hlen Hrest. apply Forall_cons in Hcode as [Hcode Hr]. split.
  - unfold udp_answer. cbv zeta. rewrite udp_bytes_patch.
    set (sum := transport_checksum _ _ _ _). set (c := if sum =? 0 then 65535 else sum).
    destruct (ipv4_parses PROTO_UDP source (udp_bytes sp dp c answer)) as (pk & H1 & H2 & _); [done..| |].
    { rewrite udp_bytes_split, !length_app, !length_be_bytes. lia. }
    exists pk, (udp_bytes sp dp c answer), c. split_and!; try done.
    + unfold c. by destruct (Z.eqb_spec sum 0).
    + rewrite udp_bytes_split. apply transport_filled; [done..| | | |].
      * by solve_wf.
      * by exists 3%nat.
      * rewrite !length_app, !length_be_bytes. lia.
      * rewrite <-udp_bytes_split. fold sum. unfold c. destruct (Z.eqb_spec sum 0); auto.
  - rewrite echo_reply_bytes. set (c := checksum _).
    destruct (ipv4_parses PROTO_ICMP source ([0; code] ++ be_bytes 2 c ++ rest))
      as (pk & H1 & H2 & _); [done..| |].
    { rewrite !length_app, !length_be_bytes. simpl. lia. }
    exists pk, ([0; code] ++ be_bytes 2 c ++ rest), c. split_and!; try done.
    apply checksum_filled; [| |simpl; lia|by left].
    + constructor; [by unfold is_byte|]. by constructor.
    + by exists 1%nat.
Qed.

(** ** Witnesses *)

Lemma net_tcp_segment_roundtrip_witness :
  ∃ packet segment,
    parse_ethernet (tcp_segment (93, 184, 216, 34) 40000 80 7 4294967295 (Z.lor ACK PSH) WINDOW
      [72; 105; 33]) = Some (ETHERTYPE_IPV4, packet) ∧
    parse_ipv4 packet = Some (PROTO_TCP, GUEST, segment) ∧
    data <$> parse_tcp segment = Some [72; 105; 33].
Proof.
  destruct (net_tcp_segment_roundtrip (93, 184, 216, 34) 40000 80 7 4294967295 (Z.lor ACK PSH) WINDOW
    [72; 105; 33]) as (pk & seg & H1 & H2 & _ & _ & _ & H3);
    [apply wf_bytes_check; done|done..|apply wf_bytes_check; done|done|].
  exists pk, seg. split; [exact H1|]. split; [exact H2|]. by rewrite H3.
Defined.

Lemma net_answers_valid_witness :
  ∃ packet datagram c,
    parse_ethernet (udp_answer GATEWAY 53 5353 [1; 2; 3]) = Some (ETHERTYPE_IPV4, packet) ∧
    parse_ipv4 packet = Some (PROTO_UDP, GUEST, datagram) ∧
    datagram = udp_bytes 53 5353 c [1; 2; 3] ∧ c ≠ 0 ∧
    transport_checksum PROTO_UDP GATEWAY GUEST datagram = 0.
Proof.
  destruct (net_answers_valid GATEWAY 53 5353 [1; 2; 3] 0 0 0 [0; 1; 0; 1]) as [H _];
    [apply wf_bytes_check; done..|simpl; lia|simpl; lia|]. exact H.
Defined.
