(* ===== verification/Str.v ===== *)
(** * Strings as the engine uses them

    A [String] or [&str] is its UTF-8 bytes.  These are the operations of Rust's [str] the modelled
    code calls, on bytes: every delimiter it splits or trims on is ASCII, so bytes and characters
    agree on them.  Lowercasing beyond ASCII follows the Unicode tables, which are not part of the
    model: it is the class [Lowercase], of which only the ASCII law is used. *)
From stdpp Require Import strings.
From S2P Require Import Prelude.

Local Open Scope Z_scope.

Abbreviation str := (list Z).

(** A string literal. *)
Definition lit (s : string) : str :=
  (λ a, Z.of_N (Ascii.N_of_ascii a)) <$> String.list_ascii_of_string s.

(** A character literal, and quotes around a string ([\"{}\"] in a format). *)
Definition chr (s : string) : Z := default 0 (head (lit s)).
Definition LF : Z := 10.
Definition CR : Z := 13.
Definition quoted (s : str) : str := [34] ++ s ++ [34].

Definition is_ascii (s : str) : bool := forallb (λ b, b <? 128) s.
Definition lower_byte (b : Z) : Z := if (65 <=? b) && (b <=? 90) then b + 32 else b.

(** [str::to_lowercase]: on ASCII it is the bytewise one. *)
Class Lowercase : Type := {
  to_lowercase : str → str;
  to_lowercase_ascii s : is_ascii s = true → to_lowercase s = lower_byte <$> s;
}.

(** Lowercasing that leaves anything beyond ASCII alone. *)
Definition ascii_lowercase : Lowercase.
Proof.
  refine {| to_lowercase s := if is_ascii s then lower_byte <$> s else s |}.
  intros s Hs. by rewrite Hs.
Defined.

(** [trim_start_matches], [trim_end_matches] and [trim_matches] with a set of characters. *)
Fixpoint trim_start (p : Z → bool) (s : str) : str :=
  match s with
  | [] => []
  | b :: s' => if p b then trim_start p s' else s
  end.
Definition trim_end (p : Z → bool) (s : str) : str := reverse (trim_start p (reverse s)).
Definition trim (p : Z → bool) (s : str) : str := trim_end p (trim_start p s).

Definition starts_with (p s : str) : bool := bool_decide (take (length p) s = p).
Definition ends_with (p s : str) : bool :=
  bool_decide (length p ≤ length s ∧ drop (length s - length p) s = p)%nat.
Definition strip_prefix (p s : str) : option str :=
  if starts_with p s then Some (drop (length p) s) else None.

(** [join]. *)
Fixpoint join (sep : str) (l : list str) : str :=
  match l with
  | [] => []
  | [s] => s
  | s :: l => s ++ sep ++ join sep l
  end.

(** [split] on the characters [p] holds of: always at least one part. *)
Fixpoint split_on (p : Z → bool) (s : str) : list str :=
  match s with
  | [] => [[]]
  | b :: s =>
      if p b then [] :: split_on p s
      else match split_on p s with
           | part :: parts => (b :: part) :: parts
           | [] => [[b]]
           end
  end.

(** [split_once] on a pattern: around its first occurrence. *)
Fixpoint split_once (p s : str) : option (str * str) :=
  if starts_with p s then Some ([], drop (length p) s)
  else match s with
       | [] => None
       | b :: s => '(l, r) ← split_once p s; Some (b :: l, r)
       end.

(** Whether a pattern occurs. *)
Definition contains (p s : str) : bool := bool_decide (is_Some (split_once p s)).
Definition has_byte (p : Z → bool) (s : str) : bool := existsb p s.

(** [replace]: from left to right, without overlap; [skip] counts the pattern's bytes left. *)
Fixpoint replace_from (p new : str) (skip : nat) (s : str) : str :=
  match s with
  | [] => []
  | b :: s' =>
      match skip with
      | S k => replace_from p new k s'
      | O => if starts_with p s then new ++ replace_from p new (length p - 1) s'
             else b :: replace_from p new 0 s'
      end
  end.
Definition replace (p new s : str) : str := replace_from p new 0 s.

(** A byte that continues a character, and the first [n] characters. *)
Definition is_continuation (b : Z) : bool := (128 <=? b) && (b <? 192).
Fixpoint take_chars (n : nat) (s : str) : str :=
  match s with
  | [] => []
  | b :: s =>
      if is_continuation b then b :: take_chars n s
      else match n with O => [] | S n => b :: take_chars n s end
  end.

(** [str::chars], a character as its UTF-8 bytes: a byte that does not continue one starts one. *)
Fixpoint chars (s : str) : list str :=
  match s with
  | [] => []
  | b :: s =>
      match chars s, s with
      | c :: cs, b' :: _ => if is_continuation b' then (b :: c) :: cs else [b] :: c :: cs
      | _, _ => [[b]]
      end
  end.

(** The code point of a character. *)
Definition code_point (c : str) : Z :=
  match c with
  | [a] => a
  | [a; b] => (a - 192) * 64 + (b - 128)
  | [a; b; c] => ((a - 224) * 64 + (b - 128)) * 64 + (c - 128)
  | [a; b; c; d] => (((a - 240) * 64 + (b - 128)) * 64 + (c - 128)) * 64 + (d - 128)
  | _ => 0
  end.

(** [char::is_whitespace] and [str::trim], beyond ASCII too: U+0085, U+00A0, U+1680, U+2000 to
    U+200A, U+2028, U+2029, U+202F, U+205F and U+3000. *)
Definition whitespace_char (c : str) : bool :=
  match c with
  | [b] => (b =? 32) || (9 <=? b) && (b <=? 13)
  | [194; b] => (b =? 133) || (b =? 160)
  | [225; 154; 128] => true
  | [226; 128; b] => (128 <=? b) && (b <=? 138) || (b =? 168) || (b =? 169) || (b =? 175)
  | [226; 129; 159] => true
  | [227; 128; 128] => true
  | _ => false
  end.
Fixpoint skip_whitespace (cs : list str) : list str :=
  match cs with
  | [] => []
  | c :: cs' => if whitespace_char c then skip_whitespace cs' else cs
  end.
Definition trim_text (s : str) : str :=
  mjoin (reverse (skip_whitespace (reverse (skip_whitespace (chars s))))).

(** [parse::<uN>]: an optional plus sign, at least one digit, nothing else, below [bound]. *)
Definition is_digit (b : Z) : bool := (48 <=? b) && (b <=? 57).
Definition digits_value (s : str) : Z := foldl (λ acc b, acc * 10 + (b - 48)) 0 s.
Definition parse_unsigned (bound : Z) (s : str) : option Z :=
  let digits := match s with 43 :: s => s | _ => s end in
  if bool_decide (digits = []) || negb (forallb is_digit digits) then None
  else if digits_value digits <? bound then Some (digits_value digits) else None.

(** The decimal digits of a number ([{}] in a format). *)
Fixpoint decimal_digits (fuel : nat) (n : Z) : str :=
  match fuel with
  | O => []
  | S fuel => if n <? 10 then [48 + n] else decimal_digits fuel (n / 10) ++ [48 + n mod 10]
  end.
Definition decimal (n : Z) : str := decimal_digits 20 n.

(** [Ipv4Addr::to_string]. *)
Definition ip_string (ip : Z * Z * Z * Z) : str :=
  let '(a, b, c, d) := ip in
  decimal a ++ lit "." ++ decimal b ++ lit "." ++ decimal c ++ lit "." ++ decimal d.

(** A digit of a number in hexadecimal. *)
Definition hex_char (d : Z) : Z := if d <? 10 then 48 + d else 87 + d.

(** ** UTF-8 *)

(** The length of the character a byte string starts with, or how many bytes are invalid. *)
Inductive utf8_head : Type :=
  | Valid (n : nat)
  | Invalid (n : nat).

Definition in_range (lo hi b : Z) : bool := (lo <=? b) && (b <=? hi).

(** [char::to_digit(16)]. *)
Definition hex_digit (b : Z) : option Z :=
  if in_range 48 57 b then Some (b - 48)
  else if in_range 97 102 b then Some (b - 87)
  else if in_range 65 70 b then Some (b - 55)
  else None.

(** The value of digits, while it is at most [bound]. *)
Fixpoint hex_value (bound acc : Z) (s : str) : option Z :=
  match s with
  | [] => Some acc
  | b :: s =>
      match hex_digit b with
      | None => None
      | Some d => let v := acc * 16 + d in if bound <? v then None else hex_value bound v s
      end
  end.

(** [from_str_radix(_, 16)] of the type whose largest value is [bound]: one sign is allowed. *)
Definition from_hex (bound : Z) (s : str) : option Z :=
  match s with
  | [] => None
  | 43 :: [] => None
  | 43 :: s => hex_value bound 0 s
  | s => hex_value bound 0 s
  end.

(** The second byte's range for a lead byte of a sequence of three or four. *)
Definition second_range (b : Z) : Z * Z :=
  if b =? 0xe0 then (0xa0, 0xbf) else if b =? 0xed then (0x80, 0x9f)
  else if b =? 0xf0 then (0x90, 0xbf) else if b =? 0xf4 then (0x80, 0x8f) else (0x80, 0xbf).

Definition utf8_next (s : str) : utf8_head :=
  let at_ := byte_at s in
  let second := let '(lo, hi) := second_range (at_ 0%nat) in in_range lo hi (at_ 1%nat) in
  if at_ 0%nat <? 128 then Valid 1
  else if in_range 0xc2 0xdf (at_ 0%nat) then
    if is_continuation (at_ 1%nat) then Valid 2 else Invalid 1
  else if in_range 0xe0 0xef (at_ 0%nat) then
    if negb second then Invalid 1
    else if is_continuation (at_ 2%nat) then Valid 3 else Invalid 2
  else if in_range 0xf0 0xf4 (at_ 0%nat) then
    if negb second then Invalid 1
    else if negb (is_continuation (at_ 2%nat)) then Invalid 2
    else if is_continuation (at_ 3%nat) then Valid 4 else Invalid 3
  else Invalid 1.

(** [std::str::from_utf8] succeeds. *)
Fixpoint utf8_valid_from (skip : nat) (s : str) : bool :=
  match s with
  | [] => true
  | _ :: s' =>
      match skip with
      | S k => utf8_valid_from k s'
      | O => match utf8_next s with
             | Valid n => utf8_valid_from (n - 1) s'
             | Invalid _ => false
             end
      end
  end.
Definition utf8_valid (s : str) : bool := utf8_valid_from 0 s.

(** [String::from_utf8_lossy]: each invalid run becomes U+FFFD. *)
Fixpoint from_utf8_lossy_from (skip : nat) (keep : bool) (s : str) : str :=
  match s with
  | [] => []
  | b :: s' =>
      match skip with
      | S k => (if keep then [b] else []) ++ from_utf8_lossy_from k keep s'
      | O => match utf8_next s with
             | Valid n => b :: from_utf8_lossy_from (n - 1) true s'
             | Invalid n => [0xef; 0xbf; 0xbd] ++ from_utf8_lossy_from (n - 1) false s'
             end
      end
  end.
Definition from_utf8_lossy (s : str) : str := from_utf8_lossy_from 0 true s.

(** ** Lemmas *)

Lemma starts_with_spec p s : starts_with p s = true ↔ p `prefix_of` s.
Proof.
  unfold starts_with. rewrite bool_decide_eq_true. split.
  - intros H. exists (drop (length p) s). rewrite <-H at 1. symmetry. apply take_drop.
  - intros [k ->]. apply take_app_length.
Qed.

Lemma ends_with_spec p s : ends_with p s = true ↔ p `suffix_of` s.
Proof.
  unfold ends_with. rewrite bool_decide_eq_true. split.
  - intros [_ H]. exists (take (length s - length p) s). rewrite <-H at 2. symmetry. apply take_drop.
  - intros [k ->]. rewrite length_app. split; [lia|].
    replace (length k + length p - length p)%nat with (length k) by lia. apply drop_app_length.
Qed.

Lemma starts_with_drop p s : starts_with p s = true → s = p ++ drop (length p) s.
Proof. unfold starts_with. rewrite bool_decide_eq_true. intros H. rewrite <-H at 1. by rewrite take_drop. Qed.

(** [split_once] finds the first occurrence. *)
Lemma split_once_Some p s l r :
  split_once p s = Some (l, r) →
  s = l ++ p ++ r ∧ ∀ l' r', s = l' ++ p ++ r' → (length l ≤ length l')%nat.
Proof.
  revert l; induction s as [|b s IH]; intros l; simpl; destruct (starts_with p _) eqn:Hs.
  - intros [= <- <-]. split; [by apply starts_with_drop|simpl; lia].
  - done.
  - intros [= <- <-]. split; [by apply starts_with_drop|simpl; lia].
  - destruct (split_once p s) as [[l0 r0]|]; [|done]. simpl. intros [= <- <-].
    destruct (IH l0 eq_refl) as [-> H]. split; [done|]. intros [|c l'] r' E.
    + exfalso. assert (starts_with p (b :: l0 ++ p ++ r0) = true); [|congruence].
      apply starts_with_spec. by exists r'.
    + simpl in *. injection E as -> E. apply H in E. lia.
Qed.

Lemma split_once_None p s : split_once p s = None ↔ ∀ l r, s ≠ l ++ p ++ r.
Proof.
  induction s as [|b s IH]; simpl; destruct (starts_with p _) eqn:Hs.
  - split; [done|]. apply starts_with_spec in Hs as [k Hk]. intros H. by destruct (H [] k).
  - split; [|done]. intros _ l r E. destruct (starts_with_spec p []) as [_ H].
    rewrite H in Hs; [done|]. destruct l; [|done]. by exists r.
  - split; [done|]. apply starts_with_spec in Hs as [k Hk]. intros H. by destruct (H [] k).
  - destruct (split_once p s) as [[l0 r0]|] eqn:E; simpl.
    + split; [done|]. intros H. exfalso. destruct (split_once_Some _ _ _ _ E) as [-> _].
      by destruct (H (b :: l0) r0).
    + split; [|done]. intros _ [|c l] r Hl.
      * destruct (starts_with_spec p (b :: s)) as [_ H]. rewrite H in Hs; [done|]. by exists r.
      * injection Hl as -> Hl. by apply (proj1 IH eq_refl l r).
Qed.

Lemma contains_spec p s : contains p s = true ↔ ∃ l r, s = l ++ p ++ r.
Proof.
  unfold contains. rewrite bool_decide_eq_true. split.
  - intros [[l r] H]. exists l, r. by apply split_once_Some.
  - intros (l & r & ->). destruct (split_once p (l ++ p ++ r)) eqn:E; [eauto|].
    by apply split_once_None with (l := l) (r := r) in E.
Qed.

(** The parts of a split hold no delimiter and have the string's other bytes. *)
Lemma split_on_nonempty p s : split_on p s ≠ [].
Proof. induction s as [|b s IH]; simpl; [done|]. destruct (p b); [done|]. by destruct (split_on p s). Qed.

Lemma split_on_parts p s : Forall (λ part, Forall (λ b, p b = false ∧ b ∈ s) part) (split_on p s).
Proof.
  induction s as [|b s IH]; simpl; [by repeat constructor|].
  assert (Forall (λ part, Forall (λ c, p c = false ∧ c ∈ b :: s) part) (split_on p s)) as IH'.
  { eapply Forall_impl; [exact IH|]. intros l Hl. eapply Forall_impl; [exact Hl|]. intros c [? ?]. set_solver. }
  destruct (p b) eqn:Hb; [by constructor|].
  destruct (split_on p s) as [|part parts]; [by repeat constructor; set_solver|].
  apply Forall_cons in IH' as [H1 H2]. constructor; [|done]. constructor; [set_solver|done].
Qed.

Lemma trim_start_suffix p s : ∃ k, s = k ++ trim_start p s ∧ Forall (λ b, p b = true) k.
Proof.
  induction s as [|b s (k & Hk & Hp)]; simpl; [by exists []|]. destruct (p b) eqn:E.
  - exists (b :: k). simpl. split; [by f_equal|by constructor].
  - by exists [].
Qed.

Lemma trim_end_prefix p s : ∃ k, s = trim_end p s ++ k ∧ Forall (λ b, p b = true) k.
Proof.
  destruct (trim_start_suffix p (reverse s)) as (k & Hk & Hp). exists (reverse k).
  split; [|by apply Forall_reverse]. unfold trim_end. rewrite <-reverse_app, <-Hk.
  by rewrite reverse_involutive.
Qed.

Lemma trim_sublist p s : ∀ b, b ∈ trim p s → b ∈ s.
Proof.
  intros b Hb. destruct (trim_start_suffix p s) as (k & Hk & _).
  destruct (trim_end_prefix p (trim_start p s)) as (k' & Hk' & _). rewrite Hk, Hk'. set_solver.
Qed.

Lemma take_chars_prefix n s : take_chars n s `prefix_of` s.
Proof.
  revert n; induction s as [|b s IH]; intros n; simpl; [done|].
  destruct (is_continuation b); [by apply prefix_cons|].
  destruct n; [apply prefix_nil|by apply prefix_cons].
Qed.

Lemma utf8_valid_ascii s : Forall (λ b, b < 128) s → utf8_valid s = true.
Proof.
  unfold utf8_valid. induction 1 as [|b s Hb Hs IH]; simpl; [done|].
  unfold utf8_next. change (byte_at (b :: s) 0) with b. by rewrite (proj2 (Z.ltb_lt b 128)).
Qed.

(** A NUL at the end does not matter to it. *)
Lemma utf8_valid_nul s : utf8_valid (s ++ [0]) = utf8_valid s.
Proof.
  unfold utf8_valid. generalize 0%nat. induction s as [|b s IH]; intros k; [by destruct k|].
  cbn [app utf8_valid_from]. destruct k as [|k]; [|apply IH].
  assert (utf8_next (b :: s ++ [0]) = utf8_next (b :: s)) as ->; [|by destruct (utf8_next _)].
  assert (∀ i, byte_at (b :: s ++ [0]) i = byte_at (b :: s) i) as Hb; [|unfold utf8_next; by rewrite !Hb].
  intros i. rewrite app_comm_cons. unfold byte_at. destruct (decide (i < length (b :: s))%nat).
  - by rewrite lookup_app_l.
  - rewrite lookup_app_r by lia. rewrite (lookup_ge_None_2 (b :: s)) by lia.
    by destruct (i - length (b :: s))%nat as [|[|]].
Qed.

Lemma trim_end_snoc p s b : p b = true → trim_end p (s ++ [b]) = trim_end p s.
Proof. intros Hb. unfold trim_end. rewrite reverse_app. simpl. by rewrite Hb. Qed.

Lemma trim_end_keep p s : (∀ b, last s = Some b → p b = false) → trim_end p s = s.
Proof.
  intros Hl. unfold trim_end. destruct s as [|b s _] using rev_ind; [done|].
  rewrite last_snoc in Hl. rewrite reverse_snoc. simpl. rewrite Hl by done.
  by rewrite reverse_cons, reverse_involutive.
Qed.

Lemma has_byte_false (p : Z → bool) s : has_byte p s = false ↔ Forall (λ b, p b = false) s.
Proof.
  unfold has_byte. induction s as [|b s IH]; simpl; [by split|].
  rewrite orb_false_iff, Forall_cons. tauto.
Qed.

(** A character is made of bytes of the text. *)
Lemma chars_bytes s c b : c ∈ chars s → b ∈ c → b ∈ s.
Proof.
  revert c; induction s as [|x s IH]; intros c; cbn [chars]; [by intros ?%not_elem_of_nil|].
  destruct (chars s) as [|c0 cs] eqn:E; [rewrite list_elem_of_singleton; intros ->; rewrite list_elem_of_singleton; intros ->; by left|].
  destruct s as [|y s]; [done|]. destruct (is_continuation y); rewrite elem_of_cons.
  - intros [->|Hc] Hb; [|right; by apply (IH c); [right|]].
    apply elem_of_cons in Hb as [->|Hb]; [by left|right; by apply (IH c0); [left|]].
  - intros [->|Hc] Hb; [apply list_elem_of_singleton in Hb as ->; by left|].
    right. by apply (IH c).
Qed.

Lemma decimal_digits_ok fuel n :
  0 <= n → (length (decimal_digits fuel n) ≤ fuel)%nat ∧ Forall (λ b, 48 <= b <= 57) (decimal_digits fuel n).
Proof.
  revert n; induction fuel as [|fuel IH]; intros n Hn; cbn [decimal_digits]; [by split|].
  destruct (Z.ltb_spec n 10); [split; [simpl; lia|apply Forall_singleton; lia]|].
  destruct (IH (n / 10)) as [H1 H2]; [apply Z.div_pos; lia|]. rewrite length_app. split; [simpl; lia|].
  apply Forall_app. split; [done|]. apply Forall_singleton. pose proof (Z.mod_pos_bound n 10 ltac:(lia)). lia.
Qed.

(** ** Characters *)

(** A text that does not start within a character. *)
Definition starts_char (s : str) : Prop := ∀ b, head s = Some b → is_continuation b = false.

Lemma chars_nil s : chars s = [] ↔ s = [].
Proof.
  split; [|by intros ->]. destruct s as [|b s]; [done|]. cbn [chars].
  destruct (chars s), s; try done. by destruct (is_continuation _).
Qed.

Lemma chars_join s : mjoin (chars s) = s.
Proof.
  induction s as [|b s IH]; [done|]. cbn [chars]. destruct (chars s) as [|c cs] eqn:E.
  - apply chars_nil in E as ->. done.
  - destruct s as [|b' s]; [done|]. destruct (is_continuation b'); rewrite <-IH; done.
Qed.

(** The first byte of a character: the text's first, or one that continues nothing. *)
Lemma chars_cons s c cs :
  chars s = c :: cs → c ≠ [] ∧ head c = head s ∧ Forall (λ c, c ≠ [] ∧ starts_char c) cs.
Proof.
  revert c cs; induction s as [|b s IH]; intros c cs; [done|]. cbn [chars].
  destruct (chars s) as [|c0 cs0] eqn:E; [intros [= <- <-]; by split_and!|].
  destruct s as [|b' s]; [done|]. destruct (IH c0 cs0 eq_refl) as (Hne & Hh & HF).
  destruct (is_continuation b') eqn:Eb; intros [= <- <-]; split_and!; try done.
  constructor; [|done]. split; [done|]. intros x Hx. rewrite Hh in Hx. simpl in Hx. by injection Hx as <-.
Qed.

Lemma chars_start s : starts_char s → Forall (λ c, c ≠ [] ∧ starts_char c) (chars s).
Proof.
  intros Hs. destruct (chars s) as [|c cs] eqn:E; [constructor|]. destruct (chars_cons _ _ _ E) as (Hne & Hh & HF).
  constructor; [|done]. split; [done|]. intros b Hb. apply Hs. by rewrite <-Hh.
Qed.

Lemma chars_app s t : starts_char t → chars (s ++ t) = chars s ++ chars t.
Proof.
  intros Ht. induction s as [|b s IH]; [done|]. cbn [app chars]. rewrite IH.
  destruct (chars s) as [|c cs] eqn:E.
  - apply chars_nil in E as ->. cbn [app]. destruct t as [|b' t]; [done|].
    destruct (chars (b' :: t)) as [|c' cs'] eqn:E'; [by apply chars_nil in E'|]. by rewrite (Ht b').
  - destruct s as [|b' s]; [done|]. cbn [app]. by destruct (is_continuation b').
Qed.

Lemma starts_char_app s t : s ≠ [] → starts_char s → starts_char (s ++ t).
Proof. destruct s; [done|]. intros _ Hs b Hb. by apply Hs. Qed.

(** Text made of pieces that start characters has the characters of the pieces. *)
Lemma chars_mjoin pieces :
  Forall (λ p, p ≠ [] ∧ starts_char p) pieces →
  chars (mjoin pieces) = mjoin (chars <$> pieces) ∧ starts_char (mjoin pieces).
Proof.
  induction 1 as [|p pieces [Hne Hp] _ [IH1 IH2]]; [done|]. rewrite fmap_cons, !mjoin_cons.
  rewrite chars_app, IH1 by done. split; [done|]. by apply starts_char_app.
Qed.

Lemma chars_char s c : c ∈ chars s → chars c = [c].
Proof.
  revert c; induction s as [|b s IH]; intros c; cbn [chars]; [by intros ?%not_elem_of_nil|].
  destruct (chars s) as [|c0 cs] eqn:E; [by intros ->%list_elem_of_singleton|].
  destruct s as [|b' s]; [done|]. destruct (chars_cons _ _ _ E) as (Hne & Hh & _).
  destruct (is_continuation b') eqn:Eb; intros [->|Hc]%elem_of_cons.
  - cbn [chars]. rewrite (IH c0) by by left. destruct c0 as [|x c0]; [done|]. simpl in Hh. injection Hh as ->. by rewrite Eb.
  - apply IH. by right.
  - done.
  - by apply IH.
Qed.

(** Valid text starts with a character. *)
Lemma utf8_valid_start s : utf8_valid s = true → starts_char s.
Proof.
  intros Hv b Hb. destruct s as [|b' s]; [done|]. injection Hb as ->. unfold is_continuation.
  destruct (Z.leb_spec 128 b) as [H1|]; [|done]. destruct (Z.ltb_spec b 192) as [H2|]; [|done]. exfalso.
  unfold utf8_valid in Hv. cbn [utf8_valid_from] in Hv. revert Hv.
  unfold utf8_next. change (byte_at (b :: s) 0%nat) with b. unfold in_range.
  rewrite (proj2 (Z.ltb_ge b 128)), (proj2 (Z.leb_gt 0xc2 b)), (proj2 (Z.leb_gt 0xe0 b)), (proj2 (Z.leb_gt 0xf0 b)) by lia. done.
Qed.

Lemma hex_char_digit d : 0 <= d < 16 → hex_digit (hex_char d) = Some d.
Proof.
  intros Hd. unfold hex_digit, hex_char, in_range. destruct (Z.ltb_spec d 10).
  - rewrite (proj2 (Z.leb_le 48 _)), (proj2 (Z.leb_le _ 57)) by lia. simpl. f_equal. lia.
  - rewrite (proj2 (Z.leb_gt _ 57)) by lia. rewrite andb_false_r.
    rewrite (proj2 (Z.leb_le 97 _)), (proj2 (Z.leb_le _ 102)) by lia. simpl. f_equal. lia.
Qed.
