(* ===== verification/Wildmatch.v ===== *)
(** * git-lfs path patterns

    The gitignore- and gitattributes-style patterns that decide which paths git-lfs tracks and fetches
    (tools/rust/git-lfs/src/wildmatch.rs), and the include and exclude filters made of them (filter.rs).
    A pattern is split at its slashes into tokens; a token takes components of a path from the left.

    [takes] and [fits] say which paths that is; the code's loops are shown to decide them.  The
    Unicode tables of [char]'s classes are the class [CharTables]; lowercasing is [Str.Lowercase]. *)
From stdpp Require Import strings.
From S2P Require Import Prelude Str.

Local Open Scope Z_scope.

(** ** Characters *)

(** The tables of [char::is_alphabetic], [is_numeric], [is_lowercase] and [is_uppercase], which on ASCII are
    the usual ones.  A character is its UTF-8 bytes. *)
Class CharTables : Type := {
  is_alphabetic : str → bool;
  is_numeric : str → bool;
  is_lowercase : str → bool;
  is_uppercase : str → bool;
  is_alphabetic_ascii b : b < 128 → is_alphabetic [b] = (65 <=? b) && (b <=? 90) || (97 <=? b) && (b <=? 122);
  is_numeric_ascii b : b < 128 → is_numeric [b] = (48 <=? b) && (b <=? 57);
  is_lowercase_ascii b : b < 128 → is_lowercase [b] = (97 <=? b) && (b <=? 122);
  is_uppercase_ascii b : b < 128 → is_uppercase [b] = (65 <=? b) && (b <=? 90);
}.

(** [is_ascii_digit], [is_ascii_hexdigit], [is_ascii_punctuation], [char::is_ascii], [is_control]. *)
Definition ascii_digit (c : str) : bool := in_range 48 57 (code_point c).
Definition ascii_hexdigit (c : str) : bool :=
  ascii_digit c || in_range 65 70 (code_point c) || in_range 97 102 (code_point c).
Definition ascii_punctuation (c : str) : bool :=
  in_range 33 47 (code_point c) || in_range 58 64 (code_point c) || in_range 91 96 (code_point c) || in_range 123 126 (code_point c).
Definition char_ascii (c : str) : bool := code_point c <? 128.
Definition is_control (c : str) : bool := (code_point c <? 32) || in_range 127 159 (code_point c).

(** What a pattern may fail with: the messages, or a panic. *)
Inductive Bad : Type :=
  | UnclosedEscape
  | UnclosedClass
  | UnknownClass (name : str)
  | IndexOutOfRange
  | UnclosedEscapeInClass
  | Panics.

Section wildmatch.
Context `{LC : Lowercase} `{CT : CharTables}.

(** ** What a component of a pattern is made of *)

Inductive RuneFn : Type :=
  | Any (l : list str)
  | Between (a z : Z)
  | Class_ (n : str).

Definition class_test (n c : str) : bool :=
  let alphanumeric := is_alphabetic c || is_numeric c in
  if bool_decide (n = lit "alnum") then alphanumeric
  else if bool_decide (n = lit "alpha") then is_alphabetic c
  else if bool_decide (n = lit "blank") then bool_decide (c = [32] ∨ c = [9])
  else if bool_decide (n = lit "cntrl") then is_control c
  else if bool_decide (n = lit "digit") then is_numeric c && (ascii_digit c || ascii_digit c || is_numeric c)
  else if bool_decide (n = lit "graph") then
    negb (is_control c) && negb (whitespace_char c) || bool_decide (c = [32]) && false
  else if bool_decide (n = lit "lower") then is_lowercase c
  else if bool_decide (n = lit "print") then negb (is_control c)
  else if bool_decide (n = lit "punct") then
    ascii_punctuation c || (negb alphanumeric && negb (whitespace_char c) && negb (is_control c) && negb (char_ascii c))
  else if bool_decide (n = lit "space") then whitespace_char c
  else if bool_decide (n = lit "upper") then is_uppercase c
  else if bool_decide (n = lit "xdigit") then ascii_hexdigit c
  else false.

(** [RuneFn::test] *)
Definition rune_test (f : RuneFn) (c : str) : bool :=
  match f with
  | Any l => bool_decide (c ∈ l)
  | Between a z => in_range a z (code_point c)
  | Class_ n => class_test n c
  end.

(** [Wildcard]: a question mark's one byte, or a star ([None]), then the rest of the component. *)
Inductive Cfn : Type :=
  | Substring (sub : str)
  | Wildcard (n : option nat) (fns : list Cfn)
  | CharClass (inc exc : list RuneFn).

Definition in_class (inc exc : list RuneFn) (c : str) : bool :=
  (bool_decide (inc = []) || existsb (λ f, rune_test f c) inc) && negb (existsb (λ f, rune_test f c) exc).

(** [str::is_char_boundary] *)
Definition boundary (s : str) (i : nat) : bool :=
  (i =? 0)%nat || (i =? length s)%nat || match s !! i with Some b => negb (is_continuation b) | None => false end.

(** The star's loop: from the end of the text to its start. *)
Fixpoint star_loop (until : str → bool) (i : nat) (s : str) : bool :=
  match i with
  | O => until s
  | S j => if boundary s i && until (drop i s) then true else star_loop until j s
  end.

(** [Cfn::apply]: what is left of the text. *)
Fixpoint apply (f : Cfn) (s : str) : option str :=
  match f with
  | Substring sub => strip_prefix sub s
  | Wildcard n fns =>
      let until := λ s, bool_decide
        ((fix all fns s := match fns with [] => Some s | f :: fns => s ← apply f s; all fns s end) fns s = Some []) in
      match n with
      | Some n => if (length s <? n)%nat || negb (boundary s n) then None else if until (drop n s) then Some [] else None
      | None => if star_loop until (length s) s then Some [] else None
      end
  | CharClass inc exc =>
      r ← head (chars s); if in_class inc exc r then Some (drop (length r) s) else None
  end.

Fixpoint apply_all (fns : list Cfn) (s : str) : option str :=
  match fns with
  | [] => Some s
  | f :: fns => s ← apply f s; apply_all fns s
  end.

(** ** Tokens *)

Inductive Token : Type :=
  | Component (fns : list Cfn)
  | DoubleStar (until : option Token) (empty : bool)
  | Unanchored (t : Token)
  | Trailing.

(** The loop of a double star: the last place where [consume] goes through. *)
Fixpoint last_loop (consume : list str → bool → list str * bool) (is_dir : bool) (i : nat) (path : list str) :
    list str * bool :=
  match i with
  | O => consume path is_dir
  | S j =>
      let '(rest, ok) := consume (drop i path) false in
      if ok then (rest, ok) else last_loop consume is_dir j path
  end.

Definition double_star (until : option (list str → bool → list str * bool)) (empty : bool) (path : list str) (is_dir : bool) :
    list str * bool :=
  if bool_decide (path = []) then (path, empty)
  else match until with None => ([], true) | Some u => last_loop u is_dir (length path) path end.

(** [Token::consume] *)
Fixpoint token_consume (t : Token) (path : list str) (is_dir : bool) : list str * bool :=
  match t with
  | DoubleStar None empty => double_star None empty path is_dir
  | DoubleStar (Some u) empty => double_star (Some (token_consume u)) empty path is_dir
  | Unanchored u => double_star (Some (token_consume u)) false path is_dir
  | Trailing => double_star None true path is_dir
  | Component fns =>
      match path with
      | [] => (path, false)
      | s :: rest =>
          match apply_all fns s with
          | None => (path, false)
          | Some [] => (rest, true)
          | Some head => (head :: rest, false)
          end
      end
  end.

(** ** Parsing *)

Definition ESCAPES : str := lit "\[]*?#".
Definition BACKSLASH : Z := 92.
Definition SLASH : Z := 47.

(** [slash_escape], on valid UTF-8: what is dropped or replaced is ASCII. *)
Fixpoint slash_escape (fuel : nat) (b : str) : str :=
  match fuel, b with
  | S fuel, x :: b =>
      if x =? BACKSLASH then
        match b with
        | y :: b' => if bool_decide (y ∈ ESCAPES) then BACKSLASH :: y :: slash_escape fuel b' else SLASH :: slash_escape fuel b
        | [] => [SLASH]
        end
      else x :: slash_escape fuel b
  | _, _ => []
  end.

Definition CLASSES : list str :=
  [lit "alnum"; lit "alpha"; lit "blank"; lit "cntrl"; lit "digit"; lit "graph"; lit "lower"; lit "print"; lit "punct";
   lit "space"; lit "upper"; lit "xdigit"].

(** [trim_start_matches(p)] for a text. *)
Fixpoint trim_prefixes (fuel : nat) (p s : str) : str :=
  match fuel with
  | O => s
  | S fuel => match strip_prefix p s with Some s => trim_prefixes fuel p s | None => s end
  end.

(** What stands between brackets, as it is read: characters to be, then the tests either way. *)
Record Bracket := mk_bracket { br_inc : list RuneFn; br_exc : list RuneFn; br_run : str; br_neg : bool }.

Definition push (yes : bool) (f : RuneFn) (r : Bracket) : Bracket :=
  if yes then mk_bracket (br_inc r ++ [f]) (br_exc r) (br_run r) (br_neg r)
  else mk_bracket (br_inc r) (br_exc r ++ [f]) (br_run r) (br_neg r).
Definition set_run (run : str) (r : Bracket) : Bracket := mk_bracket (br_inc r) (br_exc r) run (br_neg r).
Definition flip (r : Bracket) : Bracket := mk_bracket (br_inc r) (br_exc r) (br_run r) (negb (br_neg r)).
Definition push_run (r : Bracket) : Bracket :=
  if bool_decide (br_run r = []) then r
  else set_run [] (push (negb (br_neg r)) (Any (chars (from_utf8_lossy (br_run r)))) r).

(** The loop from the byte [t] starts with: what is left from the closing bracket on.  [s[i..]] panics within a
    character. *)
Fixpoint bracket (fuel : nat) (t : str) (r : Bracket) : result Bad (Bracket * str) :=
  match fuel, t with
  | S fuel, x :: u =>
      if (x =? 94) || (x =? 33) then bracket fuel u (flip r)
      else if is_continuation x then Err Panics
      else if starts_with (lit "[:") t then
        match split_once (lit ":]") t with
        | None => Err UnclosedClass
        | Some (before, after) =>
            if (length before =? 1)%nat then bracket fuel (drop 2 t) (set_run (br_run r ++ lit "[:]") r)
            else
              let name := trim_prefixes (length t) (lit "[:") (to_lowercase before) in
              if bool_decide (name ∈ CLASSES) then bracket fuel after (push (negb (br_neg r)) (Class_ name) r)
              else Err (UnknownClass name)
        end
      else if x =? 45 then
        let start := default 0 (last (br_run r)) in
        let r := set_run (take (length (br_run r) - 1) (br_run r)) r in
        end_ ← ok_or (head u) IndexOutOfRange;
        let r := push_run r in
        let '(a, z) := if end_ <? start then (end_, start) else (start, end_) in
        bracket fuel (drop 1 u) (push (negb (br_neg r)) (Between a z) r)
      else if x =? BACKSLASH then
        y ← ok_or (head u) UnclosedEscapeInClass; bracket fuel (drop 1 u) (set_run (br_run r ++ [y]) r)
      else if x =? 93 then Ok (r, t)
      else bracket fuel u (set_run (br_run r ++ [x]) r)
  | _, _ => Ok (r, t)
  end.

Definition special (b : Z) : bool := bool_decide (b ∈ lit "[*?\").

(** [s.find(..)] of the first special byte: what is before it and the rest. *)
Fixpoint span_plain (s : str) : str * str :=
  match s with
  | [] => ([], [])
  | b :: s' => if special b then ([], s) else let '(l, r) := span_plain s' in (b :: l, r)
  end.

(** [(b as char).to_string()] *)
Definition latin1 (b : Z) : str := if b <? 128 then [b] else [192 + b / 64; 128 + b mod 64].

(** [parse_component] *)
Fixpoint parse_component (fuel : nat) (s : str) : result Bad (list Cfn) :=
  match fuel, s with
  | S fuel, x :: u =>
      if x =? BACKSLASH then
        y ← ok_or (head u) UnclosedEscape;
        rest ← (if (length s <=? 2)%nat then Ok []
                else if negb (boundary s 2) then Err Panics else parse_component fuel (drop 1 u));
        Ok (Substring (latin1 y) :: rest)
      else if x =? 91 then
        '(r, t) ← bracket (length u) u (mk_bracket [] [] [] false);
        let r := push_run r in
        rest ← parse_component fuel (drop 1 t); Ok (CharClass (br_inc r) (br_exc r) :: rest)
      else if x =? 63 then fns ← parse_component fuel u; Ok [Wildcard (Some 1%nat) fns]
      else if x =? 42 then fns ← parse_component fuel u; Ok [Wildcard None fns]
      else
        let '(l, r) := span_plain s in
        rest ← parse_component fuel r; Ok (Substring l :: rest)
  | _, _ => Ok []
  end.
Definition component (s : str) : result Bad (list Cfn) := parse_component (length s) s.

(** [parse_simple] *)
Fixpoint parse_simple (dirs : list str) : result Bad (list Token) :=
  match dirs with
  | [] => Ok []
  | d :: dirs =>
      if bool_decide (d = []) then
        if bool_decide (dirs = []) then Ok [Component [Substring []]] else parse_simple dirs
      else if bool_decide (d = lit "**") then
        rest ← parse_simple dirs;
        match rest with
        | [] => Ok [DoubleStar None false]
        | t :: rest => Ok (DoubleStar (Some t) false :: rest)
        end
      else fns ← component d; rest ← parse_simple dirs; Ok (Component fns :: rest)
  end.

Record Opts := mk_opts { o_basename : bool; o_case_fold : bool; o_gitattributes : bool; o_contents : bool }.

Record Wildmatch := mk_wildmatch {
  ts : list Token;
  p : str;
  basename : bool;
  case_fold : bool;
  gitattributes : bool;
}.

(** [parse_tokens] *)
Definition parse_tokens (is_gitattributes : bool) (dirs : list str) (contents : bool) : result Bad (list Token) :=
  if bool_decide (dirs = []) then Ok []
  else if is_gitattributes then parse_simple dirs
  else
    let trailing_empty := (1 <? length dirs)%nat && bool_decide (last dirs = Some []) in
    let n := if trailing_empty then (length dirs - 1)%nat else length dirs in
    let finals := if contents then Some [Trailing] else None in
    let dirs := if contents && trailing_empty then take n dirs else dirs in
    rest ← parse_simple dirs;
    if (n =? 1)%nat && (trailing_empty || contents) then
      match rest with
      | [] => Err Panics
      | t :: more =>
          let finals := if bool_decide (is_Some finals) then finals else if bool_decide (more = []) then None else Some more in
          Ok (Unanchored t :: default [] finals)
      end
    else Ok (rest ++ default [] finals).

Definition is_slash (b : Z) : bool := b =? SLASH.

(** [Wildmatch::new] *)
Definition new (pattern : str) (o : Opts) : result Bad Wildmatch :=
  let p := slash_escape (length pattern) pattern in
  let p := if o_case_fold o then to_lowercase p else p in
  let parts := split_on is_slash p in
  let basename := if (1 <? length parts)%nat then false else o_basename o in
  ts ← parse_tokens (o_gitattributes o) parts (o_contents o);
  Ok (mk_wildmatch ts p basename (o_case_fold o) (o_gitattributes o)).

(** [go_base] *)
Definition go_base (p : str) : str :=
  if bool_decide (p = []) then lit "."
  else
    let t := trim_end is_slash p in
    if bool_decide (t = []) then lit "/" else default t (last (split_on is_slash t)).

Fixpoint consume_all (ts : list Token) (dirs : list str) (is_dir : bool) : option (list str) :=
  match ts with
  | [] => Some dirs
  | t :: ts => let '(d, ok) := token_consume t dirs is_dir in if ok then consume_all ts d is_dir else None
  end.

(** The path as it is split, and whether it is a directory. *)
Definition prepare (w : Wildmatch) (t : str) (is_directory : bool) : list str * bool :=
  let t := if basename w then go_base t else t in
  let t := if case_fold w then to_lowercase t else t in
  let '(t, is_dir) := if is_directory then (if ends_with (lit "/") t then t else t ++ [SLASH], true)
                      else (t, ends_with (lit "/") t) in
  (split_on is_slash t, is_dir).

(** [Wildmatch::consume], [matches_opts] and [matches] *)
Definition consume (w : Wildmatch) (t : str) (is_directory : bool) : option (list str) :=
  let '(dirs, is_dir) := prepare w t is_directory in
  if gitattributes w && is_dir then None
  else dirs ← consume_all (ts w) dirs is_dir; Some (if is_dir && bool_decide (dirs = [[]]) then [] else dirs).

Definition matches_opts (w : Wildmatch) (t : str) (is_directory : bool) : bool :=
  match consume w t is_directory with Some d => bool_decide (d = []) | None => false end.
Definition matches (w : Wildmatch) (t : str) : bool := matches_opts w t false.

(** ** Filters *)

Inductive PatternType : Type := GitIgnore | GitAttributes.

(** [Pattern]: one that cannot be parsed matches nothing. *)
Record Pattern := mk_pattern { pt_w : option Wildmatch; pt_p : str }.

Definition pattern_opts (ignorecase : bool) (t : PatternType) : Opts :=
  match t with
  | GitIgnore => mk_opts false ignorecase false true
  | GitAttributes => mk_opts true ignorecase true false
  end.

(** [Pattern::new]; [ignorecase] is core.ignorecase. *)
Definition new_pattern (ignorecase : bool) (p : str) (t : PatternType) : result Bad Pattern :=
  match new p (pattern_opts ignorecase t) with
  | Ok w => Ok (mk_pattern (Some w) p)
  | Err Panics => Err Panics
  | Err _ => Ok (mk_pattern None p)
  end.

Definition pattern_matches (p : Pattern) (f : str) : bool :=
  match pt_w p with Some w => matches w f | None => false end.

Record Filter := mk_filter { include : list Pattern; exclude : list Pattern; default_value : bool }.

Definition new_filter (ignorecase : bool) (inc exc : list str) (t : PatternType) : result Bad Filter :=
  inc ← collect_results (λ p, new_pattern ignorecase p t) inc;
  exc ← collect_results (λ p, new_pattern ignorecase p t) exc;
  Ok (mk_filter inc exc true).
Definition new_default_false (ignorecase : bool) (inc exc : list str) (t : PatternType) : result Bad Filter :=
  f ← new_filter ignorecase inc exc t; Ok (mk_filter (include f) (exclude f) false).

Definition allows (f : Filter) (path : str) : bool :=
  let included := existsb (λ p, pattern_matches p path) (include f) in
  if negb included && negb (bool_decide (include f = [])) then false
  else if negb included && negb (default_value f) then false
  else negb (existsb (λ p, pattern_matches p path) (exclude f)).

(** ** What matches *)

(** The texts a component's pieces stand for, from left to right.  A piece that is a wildcard has the rest of the
    component in it. *)
Inductive fits : list Cfn → str → Prop :=
  | fits_nil : fits [] []
  | fits_substring sub fns s : fits fns s → fits (Substring sub :: fns) (sub ++ s)
  | fits_class inc exc fns c s :
      head (chars (c ++ s)) = Some c → in_class inc exc c = true → fits fns s → fits (CharClass inc exc :: fns) (c ++ s)
  | fits_one n inner fns x s :
      length x = n → boundary (x ++ s) n = true → fits inner s → fits fns [] → fits (Wildcard (Some n) inner :: fns) (x ++ s)
  | fits_star inner fns x s :
      boundary (x ++ s) (length x) = true → fits inner s → fits fns [] → fits (Wildcard None inner :: fns) (x ++ s).

(** The last place of a path where [P] takes something. *)
Definition last_place (P : list str → list str → Prop) (path rest : list str) : Prop :=
  ∃ pre post, path = pre ++ post ∧ P post rest ∧
    ∀ pre' post', path = pre' ++ post' → (length pre < length pre')%nat → ∀ r, ¬ P post' r.

Definition stars_take (P : option (list str → list str → Prop)) (empty : bool) (path rest : list str) : Prop :=
  if bool_decide (path = []) then empty = true ∧ rest = []
  else match P with None => rest = [] | Some P => last_place P path rest end.

(** What a token takes of a path, and what it leaves. *)
Fixpoint takes (t : Token) (path rest : list str) : Prop :=
  match t with
  | Component fns => ∃ s, path = s :: rest ∧ fits fns s
  | DoubleStar None empty => stars_take None empty path rest
  | DoubleStar (Some u) empty => stars_take (Some (takes u)) empty path rest
  | Unanchored u => stars_take (Some (takes u)) false path rest
  | Trailing => stars_take None true path rest
  end.

Fixpoint takes_all (ts : list Token) (path rest : list str) : Prop :=
  match ts with
  | [] => rest = path
  | t :: ts => ∃ mid, takes t path mid ∧ takes_all ts mid rest
  end.

(** The whole of a path, but for the empty component at a directory's end. *)
Definition path_matches (w : Wildmatch) (t : str) (is_directory : bool) : Prop :=
  let '(dirs, is_dir) := prepare w t is_directory in
  (gitattributes w && is_dir = false) ∧
  ∃ rest, takes_all (ts w) dirs rest ∧ (rest = [] ∨ is_dir = true ∧ rest = [[]]).

(** ** Components *)

Lemma inner_all fns s :
  (fix all fns s := match fns with [] => Some s | f :: fns => s ← apply f s; all fns s end) fns s = apply_all fns s.
Proof. revert s. induction fns as [|f fns IH]; intros s; [done|]. simpl. destruct (apply f s); simpl; [apply IH|done]. Qed.

Lemma star_loop_ext u v i s : (∀ s, u s = v s) → star_loop u i s = star_loop v i s.
Proof. intros E. induction i as [|i IH]; cbn [star_loop]; by rewrite ?E, ?IH. Qed.

Lemma apply_wildcard n fns s :
  apply (Wildcard n fns) s =
  match n with
  | Some n => if (length s <? n)%nat || negb (boundary s n) then None
              else if bool_decide (apply_all fns (drop n s) = Some []) then Some [] else None
  | None => if star_loop (λ s, bool_decide (apply_all fns s = Some [])) (length s) s then Some [] else None
  end.
Proof.
  cbn [apply]. destruct n as [n|].
  - destruct (_ || _); [done|]. by rewrite inner_all.
  - rewrite (star_loop_ext _ (λ s, bool_decide (apply_all fns s = Some []))); [done|]. intros t. by rewrite inner_all.
Qed.

Lemma star_loop_spec until i s : (i ≤ length s)%nat →
  star_loop until i s = true ↔ ∃ j, (j ≤ i)%nat ∧ boundary s j = true ∧ until (drop j s) = true.
Proof.
  induction i as [|i IH]; intros Hi; cbn [star_loop].
  - split.
    + intros H. exists 0%nat. by split_and!.
    + intros (j & Hj & _ & H). by replace j with 0%nat in H by lia.
  - destruct (boundary s (S i) && until (drop (S i) s)) eqn:E.
    + apply andb_prop in E as [? ?]. split; [|done]. intros _. by exists (S i).
    + rewrite IH by lia. split; intros (j & Hj & Hb & Hu); [exists j; split_and!; try done; lia|].
      destruct (decide (j = S i)) as [->|]; [by rewrite Hb, Hu in E|]. exists j. split_and!; try done. lia.
Qed.

(** The size of pieces, for induction through wildcards. *)
Fixpoint cfn_size (f : Cfn) : nat :=
  match f with Wildcard _ fns => S (foldr (λ f n, cfn_size f + n)%nat 0%nat fns) | _ => 1%nat end.
Definition cfns_size (fns : list Cfn) : nat := foldr (λ f n, cfn_size f + n)%nat 0%nat fns.
Lemma cfn_size_pos f : (0 < cfn_size f)%nat.
Proof. destruct f; simpl; lia. Qed.

Lemma apply_all_wildcard n inner fns s rest :
  apply_all (Wildcard n inner :: fns) s = Some rest ↔
  apply_all fns [] = Some rest ∧
  ∃ j, boundary s j = true ∧ (j ≤ length s)%nat ∧ match n with Some k => j = k | None => True end ∧
    apply_all inner (drop j s) = Some [].
Proof.
  cbn [apply_all]. rewrite apply_wildcard. destruct n as [n|].
  - destruct (Nat.ltb_spec (length s) n) as [Hlt|Hle]; simpl.
    { split; [done|]. intros (_ & j & _ & Hj & -> & _). lia. }
    destruct (boundary s n) eqn:Eb; simpl; [|split; [done|]; intros (_ & j & Hb & _ & -> & _); congruence].
    case_bool_decide as E; simpl.
    + split; [|by intros [? _]]. intros H. split; [done|]. exists n. by split_and!.
    + split; [done|]. by intros (_ & j & _ & _ & -> & ?).
  - destruct (star_loop _ _ s) eqn:E; simpl.
    + apply star_loop_spec in E as (j & Hj & Hb & Hu); [|done]. apply bool_decide_eq_true in Hu.
      split; [|by intros [? _]]. intros H. split; [done|]. by exists j.
    + split; [done|]. intros (_ & j & Hb & Hj & _ & Hu). exfalso. apply not_true_iff_false in E. apply E, star_loop_spec; [done|].
      exists j. split_and!; try done. by apply bool_decide_eq_true.
Qed.

Lemma fits_iff fns s : fits fns s ↔ apply_all fns s = Some [].
Proof.
  split.
  - induction 1 as [|sub fns s _ IH|inc exc fns c s Hc Hin _ IH|n inner fns x s Hx Hb _ IHi _ IH|inner fns x s Hb _ IHi _ IH]; [done|..].
    + cbn [apply_all apply]. unfold strip_prefix. rewrite (proj2 (starts_with_spec _ _)) by by apply prefix_app_r.
      simpl. by rewrite drop_app_length.
    + cbn [apply_all apply]. rewrite Hc. simpl. rewrite Hin. simpl. by rewrite drop_app_length.
    + apply apply_all_wildcard. split; [done|]. exists n. rewrite <-Hx, drop_app_length, length_app. split_and!; try done; [by rewrite Hx|lia].
    + apply apply_all_wildcard. split; [done|]. exists (length x). rewrite drop_app_length, length_app. split_and!; try done. lia.
  - remember (cfns_size fns) as k eqn:Hk. revert fns s Hk.
    induction (lt_wf k) as [k _ IH]; intros fns s -> H. destruct fns as [|f fns]; [injection H as ->; constructor|].
    pose proof (cfn_size_pos f) as Hpos. destruct f as [sub|n inner|inc exc].
    + cbn [apply_all apply] in H. unfold strip_prefix in H. destruct (starts_with sub s) eqn:E; [|done]. simpl in H.
      rewrite (starts_with_drop _ _ E). constructor. eapply IH; [|done|done]. unfold cfns_size. simpl. lia.
    + apply apply_all_wildcard in H as (Hrest & j & Hb & Hj & Hn & Hi).
      assert (fits inner (drop j s)) as Hf1 by (eapply IH; [|done|done]; unfold cfns_size; simpl; lia).
      assert (fits fns []) as Hf2 by (eapply IH; [|done|done]; unfold cfns_size; simpl; lia).
      rewrite <-(take_drop j s). rewrite <-(take_drop j s) in Hb.
      destruct n as [n|]; [subst n|]; constructor; try done; rewrite length_take, Nat.min_l by done; done.
    + cbn [apply_all apply] in H. destruct (head (chars s)) as [c|] eqn:Ec; [|done]. simpl in H.
      destruct (in_class inc exc c) eqn:Ein; [|done]. simpl in H.
      assert (s = c ++ drop (length c) s) as Es.
      { rewrite <-(chars_join s) at 1. destruct (chars s) as [|c' cs] eqn:E; [done|]. injection Ec as ->.
        rewrite mjoin_cons. f_equal. rewrite <-(chars_join s), E, mjoin_cons. by rewrite drop_app_length. }
      rewrite Es. constructor; [by rewrite <-Es|done|]. eapply IH; [|done|done]. unfold cfns_size. simpl. lia.
Qed.

(** ** Tokens *)

Lemma last_loop_spec consume (P : list str → list str → Prop) d i path rest :
  (∀ path d rest, consume path d = (rest, true) ↔ P path rest) →
  last_loop consume d i path = (rest, true) ↔
  ∃ j, (j ≤ i)%nat ∧ P (drop j path) rest ∧ ∀ j', (j < j' ≤ i)%nat → ∀ r, ¬ P (drop j' path) r.
Proof.
  intros HP. induction i as [|i IH]; cbn [last_loop].
  - rewrite HP. split.
    + intros H. exists 0%nat. split_and!; [done|done|lia].
    + intros (j & Hj & H & _). by replace j with 0%nat in H by lia.
  - destruct (consume (drop (S i) path) false) as [r []] eqn:E.
    + apply HP in E. split.
      * intros [= ->]. exists (S i). split_and!; [done|done|lia].
      * intros (j & Hj & H & Hlast). destruct (decide (j = S i)) as [->|].
        { apply (HP _ false) in H, E. congruence. }
        exfalso. eapply (Hlast (S i)); [lia|done].
    + assert (∀ r', ¬ P (drop (S i) path) r') as Hno by (intros r' Hr'%(HP _ false); congruence).
      rewrite IH. split; intros (j & Hj & H & Hlast).
      * exists j. split_and!; [lia|done|]. intros j' Hj'. destruct (decide (j' = S i)) as [->|]; [done|]. apply Hlast. lia.
      * destruct (decide (j = S i)) as [->|]; [by apply Hno in H|]. exists j. split_and!; [lia|done|]. intros j' Hj'. apply Hlast. lia.
Qed.

Lemma last_place_drop P path rest :
  last_place P path rest ↔
  ∃ j, (j ≤ length path)%nat ∧ P (drop j path) rest ∧ ∀ j', (j < j' ≤ length path)%nat → ∀ r, ¬ P (drop j' path) r.
Proof.
  split.
  - intros (pre & post & -> & H & Hlast). exists (length pre). rewrite length_app, drop_app_length. split_and!; [lia|done|].
    intros j' Hj'. eapply Hlast; [symmetry; apply (take_drop j')|]. rewrite length_take, length_app. lia.
  - intros (j & Hj & H & Hlast). exists (take j path), (drop j path). split_and!; [by rewrite take_drop|done|].
    intros pre' post' E. rewrite length_take, Nat.min_l by done. intros Hlt. specialize (Hlast (length pre')).
    rewrite E, drop_app_length, length_app in Hlast. apply Hlast. lia.
Qed.

Lemma double_star_spec consume (P : list str → list str → Prop) empty path d rest :
  (∀ path d rest, consume path d = (rest, true) ↔ P path rest) →
  double_star (Some consume) empty path d = (rest, true) ↔ stars_take (Some P) empty path rest.
Proof.
  intros HP. unfold double_star, stars_take. case_bool_decide; [subst; naive_solver|].
  rewrite last_place_drop. by apply last_loop_spec.
Qed.

Lemma double_star_rest empty path d rest : double_star None empty path d = (rest, true) ↔ stars_take None empty path rest.
Proof. unfold double_star, stars_take. case_bool_decide; [subst|]; naive_solver. Qed.

Lemma component_spec fns path d rest :
  token_consume (Component fns) path d = (rest, true) ↔ takes (Component fns) path rest.
Proof.
  cbn [token_consume takes]. destruct path as [|s path]; [naive_solver|]. destruct (apply_all fns s) as [[|b h]|] eqn:E.
  - rewrite <-fits_iff in E. naive_solver.
  - split; [done|]. intros (s' & [= <- <-] & Hf%fits_iff). congruence.
  - split; [done|]. intros (s' & [= <- <-] & Hf%fits_iff). congruence.
Qed.

Fixpoint token_consume_spec t : ∀ path d rest, token_consume t path d = (rest, true) ↔ takes t path rest.
Proof.
  destruct t as [fns|[u|] empty|u|]; intros path d rest.
  - apply component_spec.
  - apply (double_star_spec _ _ _ _ _ _ (token_consume_spec u)).
  - apply double_star_rest.
  - apply (double_star_spec _ _ _ _ _ _ (token_consume_spec u)).
  - apply double_star_rest.
Qed.

Lemma consume_all_spec ts path d rest : consume_all ts path d = Some rest ↔ takes_all ts path rest.
Proof.
  revert path. induction ts as [|t ts IH]; intros path; cbn [consume_all takes_all].
  - naive_solver.
  - destruct (token_consume t path d) as [mid ok] eqn:E. destruct ok.
    + rewrite IH. rewrite token_consume_spec in E. split; [naive_solver|]. intros (mid' & H1 & H2).
      apply (token_consume_spec t path d) in H1, E. congruence.
    + split; [done|]. intros (mid' & H1%(token_consume_spec t path d) & _). congruence.
Qed.

Lemma matches_opts_spec w t is_directory : matches_opts w t is_directory = true ↔ path_matches w t is_directory.
Proof.
  unfold matches_opts, consume, path_matches. destruct (prepare w t is_directory) as [dirs is_dir].
  destruct (gitattributes w && is_dir); [naive_solver|]. destruct (consume_all (ts w) dirs is_dir) as [rest|] eqn:E; simpl.
  - apply consume_all_spec in E. rewrite bool_decide_eq_true. split.
    + intros H. split; [done|]. exists rest. split; [done|]. destruct is_dir; simpl in H; [|by left].
      case_bool_decide; [by right|by left].
    + intros [_ (rest' & H1 & H2)]. apply (consume_all_spec _ _ is_dir) in H1, E. assert (rest' = rest) as -> by congruence.
      destruct H2 as [->|[-> ->]]; [by destruct is_dir|done].
  - split; [done|]. intros [_ (rest & H1%(consume_all_spec _ _ is_dir) & _)]. congruence.
Qed.

(** ** Parsing ends, and does not panic on ASCII *)

Lemma ascii_Forall s : is_ascii s = true ↔ Forall (λ b, b < 128) s.
Proof.
  unfold is_ascii. rewrite forallb_forall, list.Forall_forall. setoid_rewrite list_elem_of_In. by setoid_rewrite Z.ltb_lt.
Qed.

Lemma strip_prefix_ascii p s s' : strip_prefix p s = Some s' → Forall (λ b, b < 128) s → Forall (λ b, b < 128) s'.
Proof. unfold strip_prefix. destruct (starts_with p s); [|done]. intros [= <-]. apply Forall_drop. Qed.

(** A text between brackets is read to its end: each turn takes a byte at least. *)
Lemma bracket_left fuel t r r' t' : bracket fuel t r = Ok (r', t') → (length t' ≤ length t)%nat ∧ t' `suffix_of` t.
Proof.
  assert (∀ fuel t r r' t', bracket fuel t r = Ok (r', t') → t' `suffix_of` t) as H.
  { clear. induction fuel as [|fuel IH]; intros [|x u] r r' t'; cbn [bracket]; try (by intros [= _ <-]).
    destruct (_ || _); [intros H; apply IH in H; by apply suffix_cons_r|].
    destruct (is_continuation x); [done|]. destruct (starts_with (lit "[:") (x :: u)) eqn:Eb.
    { destruct (split_once (lit ":]") (x :: u)) as [[before after]|] eqn:Es; [|done].
      apply split_once_Some in Es as [Es _].
      destruct (_ =? 1)%nat.
      - intros H. apply IH in H. etransitivity; [exact H|]. exists (take 2 (x :: u)). by rewrite take_drop.
      - case_bool_decide; [|done]. intros H'. apply IH in H'. rewrite Es. etransitivity; [exact H'|].
        exists (before ++ lit ":]"). by rewrite <-app_assoc. }
    destruct (x =? 45).
    { destruct (head u) as [e|]; [|done]. cbn [ok_or mbind result_bind]. destruct (if e <? _ then _ else _) as [a z].
      intros H. apply IH in H. etransitivity; [exact H|]. exists (x :: take 1 u). simpl. by rewrite take_drop. }
    destruct (x =? BACKSLASH).
    { destruct (head u) as [e|]; [|done]. cbn [ok_or mbind result_bind].
      intros H. apply IH in H. etransitivity; [exact H|]. exists (x :: take 1 u). simpl. by rewrite take_drop. }
    destruct (x =? 93); [by intros [= _ <-]|]. intros H. apply IH in H. by apply suffix_cons_r. }
  intros E. apply H in E. split; [by apply suffix_length|done].
Qed.

Lemma bracket_ascii fuel t r : Forall (λ b, b < 128) t → bracket fuel t r ≠ Err Panics.
Proof.
  revert t r. induction fuel as [|fuel IH]; intros [|x u] r Ht; cbn [bracket]; try done.
  pose proof Ht as [Hx Hu]%Forall_cons.
  destruct (_ || _); [by apply IH|]. assert (is_continuation x = false) as -> by (unfold is_continuation; lia).
  destruct (starts_with (lit "[:") (x :: u)).
  { destruct (split_once (lit ":]") (x :: u)) as [[before after]|] eqn:Es; [|done].
    apply split_once_Some in Es as [Es _]. destruct (_ =? 1)%nat; [by apply IH, Forall_drop|].
    case_bool_decide; [|done]. apply IH. rewrite Es in Ht. by apply Forall_app in Ht as [_ [_ ?]%Forall_app]. }
  destruct (x =? 45).
  { destruct (head u) as [e|]; [|done]. cbn [ok_or mbind result_bind]. destruct (if e <? _ then _ else _) as [a z]. by apply IH, Forall_drop. }
  destruct (x =? BACKSLASH).
  { destruct (head u) as [e|]; [|done]. cbn [ok_or mbind result_bind]. by apply IH, Forall_drop. }
  destruct (x =? 93); [done|]. by apply IH.
Qed.

Lemma span_plain_app s : s = (span_plain s).1 ++ (span_plain s).2.
Proof. induction s as [|b s IH]; [done|]. simpl. destruct (special b); [done|]. destruct (span_plain s). simpl in *. by f_equal. Qed.

Lemma bind_no_panic {A B} (m : result Bad A) (f : A → result Bad B) :
  m ≠ Err Panics → (∀ a, m = Ok a → f a ≠ Err Panics) → (m ≫= f) ≠ Err Panics.
Proof. destruct m as [a|e]; simpl; [auto|]. intros H _. cbn. congruence. Qed.
Lemma ok_or_no_panic {A} (o : option A) e : e ≠ Panics → ok_or o e ≠ Err Panics.
Proof. destruct o; simpl; congruence. Qed.

Lemma component_ascii fuel s : Forall (λ b, b < 128) s → parse_component fuel s ≠ Err Panics.
Proof.
  revert s. induction fuel as [|fuel IH]; intros [|x u] Hs; cbn [parse_component]; try done.
  pose proof Hs as [Hx Hu]%Forall_cons.
  destruct (x =? BACKSLASH).
  { apply bind_no_panic; [by apply ok_or_no_panic|]. intros y Hy. apply bind_no_panic; [|done].
    destruct (_ <=? 2)%nat eqn:E; [done|]. assert (boundary (x :: u) 2 = true) as ->; [|by apply IH, Forall_drop].
    unfold boundary. apply Nat.leb_gt in E. destruct (lookup_lt_is_Some_2 (x :: u) 2 E) as [b Hb]. rewrite Hb.
    pose proof (proj1 (Forall_lookup _ _) Hs _ _ Hb) as Hlt. simpl in Hlt.
    assert (is_continuation b = false) as -> by (unfold is_continuation; lia). by rewrite orb_true_r. }
  destruct (x =? 91).
  { apply bind_no_panic; [by apply bracket_ascii|]. intros [r t] Hr. apply bind_no_panic; [|done].
    apply IH, Forall_drop. apply bracket_left in Hr as [_ [k ->]]. by apply Forall_app in Hu as [_ ?]. }
  destruct (x =? 63); [apply bind_no_panic; [by apply IH|done]|].
  destruct (x =? 42); [apply bind_no_panic; [by apply IH|done]|].
  destruct (span_plain (x :: u)) as [l r] eqn:E. apply bind_no_panic; [|done]. apply IH.
  rewrite (span_plain_app (x :: u)), E in Hs. by apply Forall_app in Hs as [_ ?].
Qed.

Lemma parse_simple_ascii dirs : Forall (Forall (λ b, b < 128)) dirs → parse_simple dirs ≠ Err Panics.
Proof.
  induction 1 as [|d dirs Hd _ IH]; [done|]. cbn [parse_simple].
  case_bool_decide; [by case_bool_decide|]. case_bool_decide.
  - apply bind_no_panic; [done|]. by intros [|].
  - apply bind_no_panic; [by apply component_ascii|]. intros fns _. by apply bind_no_panic.
Qed.

(** There is a token where there are components. *)
Lemma parse_simple_tokens dirs rest : dirs ≠ [] → parse_simple dirs = Ok rest → rest ≠ [].
Proof.
  revert rest. induction dirs as [|d dirs IH]; intros rest Hne; [done|]. cbn [parse_simple].
  case_bool_decide; [case_bool_decide; [by intros [= <-]|by apply IH]|]. case_bool_decide.
  - rewrite result_bind_Ok. intros ([|t more] & _ & [= <-]); done.
  - rewrite result_bind_Ok. intros (fns & _ & H'). apply result_bind_Ok in H' as (? & _ & [= <-]). done.
Qed.

Lemma slash_escape_ascii fuel s : Forall (λ b, b < 128) s → Forall (λ b, b < 128) (slash_escape fuel s).
Proof.
  revert s. induction fuel as [|fuel IH]; intros [|x s] Hs; cbn [slash_escape]; try constructor.
  apply Forall_cons in Hs as [Hx Hs]. destruct (x =? BACKSLASH); [|constructor; auto].
  destruct s as [|y s]; [constructor; [unfold SLASH; lia|constructor]|]. pose proof Hs as [Hy Hs']%Forall_cons.
  case_bool_decide; repeat constructor; auto; unfold SLASH, BACKSLASH; lia.
Qed.

Lemma new_ascii pattern o : is_ascii pattern = true → new pattern o ≠ Err Panics.
Proof.
  intros Ha%ascii_Forall. unfold new. set (p1 := slash_escape (length pattern) pattern).
  assert (Forall (λ b, b < 128) p1) as Hp1 by by apply slash_escape_ascii.
  assert (Forall (λ b, b < 128) (if o_case_fold o then to_lowercase p1 else p1)) as Hp2.
  { destruct (o_case_fold o); [|done]. rewrite to_lowercase_ascii by by apply ascii_Forall. apply Forall_fmap.
    eapply Forall_impl; [exact Hp1|]. intros b Hb. simpl. unfold lower_byte. destruct (_ && _) eqn:E; [|done]. apply andb_prop in E as [_ E%Z.leb_le]. lia. }
  cbv zeta. set (parts := split_on is_slash _).
  assert (Forall (Forall (λ b, b < 128)) parts) as Hparts.
  { eapply Forall_impl; [apply split_on_parts|]. intros part Hpart. simpl in Hpart. eapply Forall_impl; [exact Hpart|].
    intros b [_ Hb]. exact (proj1 (list.Forall_forall _ _) Hp2 b Hb). }
  assert (parts ≠ []) as Hne by apply split_on_nonempty. clearbody parts.
  apply bind_no_panic; [|done]. unfold parse_tokens. rewrite bool_decide_eq_false_2 by done.
  destruct (o_gitattributes o); [by apply parse_simple_ascii|].
  set (te := (1 <? length parts)%nat && _). set (n := if te then _ else _).
  assert (∀ b, (if o_contents o && te then take n parts else parts) = b → Forall (Forall (λ b, b < 128)) b ∧ b ≠ []) as Hdirs.
  { intros b <-. destruct (o_contents o && te) eqn:E; [|done]. split; [by apply Forall_take|].
    apply andb_prop in E as [_ E]. unfold n. rewrite E. unfold te in E. apply andb_prop in E as [E%Nat.ltb_lt _].
    intros Hnil. apply (f_equal length) in Hnil. rewrite length_take in Hnil. simpl in Hnil. lia. }
  destruct (Hdirs _ eq_refl) as [Hd1 Hd2]. apply bind_no_panic; [by apply parse_simple_ascii|].
  intros rest Hrest. apply parse_simple_tokens in Hrest; [|done]. destruct ((n =? 1)%nat && _); [|done]. by destruct rest.
Qed.

(** The fuel is enough: a turn takes a byte at least. *)
Lemma bracket_fuel f1 f2 t r : (length t ≤ f1)%nat → (length t ≤ f2)%nat → bracket f1 t r = bracket f2 t r.
Proof.
  revert f2 t r. induction f1 as [|f1 IH]; intros f2 [|x u] r H1 H2; simpl in H1, H2; [by destruct f2|lia|by destruct f2|].
  destruct f2 as [|f2]; [lia|]. cbn [bracket].
  destruct (_ || _); [apply IH; lia|]. destruct (is_continuation x); [done|].
  destruct (starts_with (lit "[:") (x :: u)).
  { destruct (split_once (lit ":]") (x :: u)) as [[before after]|] eqn:Es; [|done].
    apply split_once_Some in Es as [Es _]. apply (f_equal length) in Es. rewrite !length_app in Es. simpl in Es.
    destruct (_ =? 1)%nat; [apply IH; rewrite length_drop; simpl; lia|]. case_bool_decide; [|done]. apply IH; lia. }
  destruct (x =? 45).
  { destruct (head u) as [e|]; [|done]. cbn [ok_or mbind result_bind]. destruct (if e <? _ then _ else _) as [a z].
    apply IH; rewrite length_drop; lia. }
  destruct (x =? BACKSLASH).
  { destruct (head u) as [e|]; [|done]. cbn [ok_or mbind result_bind]. apply IH; rewrite length_drop; lia. }
  destruct (x =? 93); [done|]. apply IH; lia.
Qed.

Lemma bind_ext {A B} (m : result Bad A) (f g : A → result Bad B) : (∀ a, m = Ok a → f a = g a) → (m ≫= f) = (m ≫= g).
Proof. destruct m; [|done]. intros H. by apply H. Qed.

Lemma span_plain_shorter x u : special x = false → (length (span_plain (x :: u)).2 ≤ length u)%nat.
Proof.
  intros Hx. cbn [span_plain]. rewrite Hx. pose proof (span_plain_app u) as E. apply (f_equal length) in E.
  destruct (span_plain u) as [l r]. simpl in *. rewrite length_app in E. lia.
Qed.

Lemma component_fuel f1 f2 s : (length s ≤ f1)%nat → (length s ≤ f2)%nat → parse_component f1 s = parse_component f2 s.
Proof.
  revert f2 s. induction f1 as [|f1 IH]; intros f2 [|x u] H1 H2; simpl in H1, H2; [by destruct f2|lia|by destruct f2|].
  destruct f2 as [|f2]; [lia|]. cbn [parse_component].
  destruct (Z.eqb_spec x BACKSLASH) as [|N1].
  { apply bind_ext. intros y _. destruct (_ <=? 2)%nat; [done|]. destruct (negb _); [done|].
    by rewrite (IH f2 (drop 1 u)) by (rewrite length_drop; lia). }
  destruct (Z.eqb_spec x 91) as [|N2].
  { apply bind_ext. intros [r t] Hr. apply bracket_left in Hr as [Hr _].
    by rewrite (IH f2 (drop 1 t)) by (rewrite length_drop; lia). }
  destruct (Z.eqb_spec x 63) as [|N3]; [by rewrite (IH f2 u) by lia|].
  destruct (Z.eqb_spec x 42) as [|N4]; [by rewrite (IH f2 u) by lia|].
  assert (special x = false) as Hs.
  { unfold special. apply bool_decide_eq_false. vm_compute (lit _). rewrite !not_elem_of_cons. unfold BACKSLASH in N1.
    split_and!; try done. apply not_elem_of_nil. }
  pose proof (span_plain_shorter x u Hs) as Hlen. destruct (span_plain (x :: u)) as [l r]. simpl in Hlen.
  by rewrite (IH f2 r) by lia.
Qed.

(** ** Plain patterns *)

Lemma span_plain_all d : Forall (λ b, special b = false) d → span_plain d = (d, []).
Proof. induction 1 as [|b d Hb _ IH]; [done|]. simpl. by rewrite Hb, IH. Qed.

Lemma component_plain d : d ≠ [] → Forall (λ b, special b = false) d → component d = Ok [Substring d].
Proof.
  intros Hne Hd. destruct d as [|x u]; [done|]. unfold component. cbn [length parse_component]. rewrite (span_plain_all (x :: u)) by done.
  apply Forall_cons in Hd as [Hx _]. unfold special in Hx. apply bool_decide_eq_false in Hx. vm_compute (lit _) in Hx.
  rewrite !not_elem_of_cons in Hx. destruct Hx as (? & ? & ? & ? & _). unfold BACKSLASH.
  rewrite !(proj2 (Z.eqb_neq _ _)) by done. by destruct (length u).
Qed.

Definition plain_token (d : str) : Token := Component [Substring d].

Lemma parse_simple_plain parts :
  Forall (λ d, d ≠ [] ∧ Forall (λ b, special b = false) d) parts → parse_simple parts = Ok (plain_token <$> parts).
Proof.
  induction 1 as [|d parts [Hne Hd] _ IH]; [done|]. cbn [parse_simple]. rewrite bool_decide_eq_false_2 by done.
  rewrite bool_decide_eq_false_2 by (intros ->; apply Forall_cons in Hd as [Hx _]; by vm_compute in Hx).
  by rewrite component_plain, IH by done.
Qed.

Lemma takes_all_plain parts dirs rest : takes_all (plain_token <$> parts) dirs rest ↔ dirs = parts ++ rest.
Proof.
  revert dirs. induction parts as [|d parts IH]; intros dirs; [naive_solver|]. rewrite fmap_cons. cbn [takes_all takes].
  split.
  - intros (mid & (s & -> & Hf) & Ht). apply IH in Ht as ->. f_equal. inversion Hf as [|? ? ? Hnil| | |]; subst. inversion Hnil. by rewrite app_nil_r.
  - intros ->. exists (parts ++ rest). split; [|by apply IH]. exists d. split; [done|]. rewrite <-(app_nil_r d) at 2. repeat constructor.
Qed.

Lemma split_join p c s : (∀ b, p b = true → b = c) → join [c] (split_on p s) = s.
Proof.
  intros Hp. induction s as [|b s IH]; [done|]. cbn [split_on].
  pose proof (split_on_nonempty p s) as Hne. destruct (p b) eqn:E.
  - apply Hp in E as ->. destruct (split_on p s); [done|]. simpl in *. by rewrite IH.
  - destruct (split_on p s) as [|part parts]; [done|]. destruct parts; simpl in *; by rewrite <-IH.
Qed.
Lemma split_slash_inj s t : split_on is_slash s = split_on is_slash t → s = t.
Proof.
  intros E. rewrite <-(split_join is_slash SLASH s), <-(split_join is_slash SLASH t), E; [done|..]; intros b Hb; unfold is_slash in Hb; by apply Z.eqb_eq in Hb.
Qed.

Lemma split_snoc p s c : p c = true → split_on p (s ++ [c]) = split_on p s ++ [[]].
Proof.
  intros Hc. induction s as [|b s IH]; simpl; [by rewrite Hc|]. rewrite IH. destruct (p b); [done|].
  pose proof (split_on_nonempty p s). by destruct (split_on p s).
Qed.
Lemma no_slash_end s : Forall (λ d, d ≠ []) (split_on is_slash s) → ends_with (lit "/") s = false.
Proof.
  intros Hs. apply not_true_is_false. intros [k ->]%ends_with_spec. change (lit "/") with [SLASH] in Hs.
  rewrite split_snoc in Hs by done. apply Forall_app in Hs as [_ [? _]%Forall_cons]. done.
Qed.

Lemma slash_escape_plain fuel s : Forall (λ b, special b = false) s → (length s ≤ fuel)%nat → slash_escape fuel s = s.
Proof.
  intros Hs. revert fuel. induction Hs as [|b s Hb _ IH]; intros [|fuel]; simpl; try done; [lia|]. intros Hl.
  destruct (Z.eqb_spec b BACKSLASH) as [->|]; [by vm_compute in Hb|]. by rewrite IH by lia.
Qed.

(** A plain gitattributes pattern is the path itself, or the last component of the path where the pattern has but one. *)
Lemma plain_pattern pattern :
  Forall (λ b, special b = false) pattern → Forall (λ d, d ≠ []) (split_on is_slash pattern) →
  ∃ w, new pattern (mk_opts true false true false) = Ok w ∧ ∀ t,
    path_matches w t false ↔ (if (1 <? length (split_on is_slash pattern))%nat then t else go_base t) = pattern.
Proof.
  intros Hp Hparts. unfold new. cbn [o_case_fold o_basename o_gitattributes o_contents]. rewrite slash_escape_plain by done. cbv zeta.
  unfold parse_tokens. rewrite bool_decide_eq_false_2 by apply split_on_nonempty. rewrite parse_simple_plain.
  2: { pose proof (split_on_parts is_slash pattern) as HF. induction HF as [|d parts Hd HF IH]; [constructor|].
       apply Forall_cons in Hparts as [Hne Hparts]. constructor; [|by apply IH]. split; [done|]. eapply Forall_impl; [exact Hd|].
       intros b [_ Hb]. exact (proj1 (list.Forall_forall _ _) Hp b Hb). }
  eexists. split; [done|]. intros t. unfold path_matches, prepare. cbn [basename case_fold gitattributes ts].
  assert ((if if (1 <? length (split_on is_slash pattern))%nat then false else true then go_base t else t) =
    if (1 <? length (split_on is_slash pattern))%nat then t else go_base t) as -> by by destruct (_ <? _)%nat.
  set (t' := if (1 <? _)%nat then _ else _). clearbody t'. setoid_rewrite takes_all_plain. simpl andb. split.
  - intros (Hd & rest & E & [->|[Hd' _]]); [|congruence]. rewrite app_nil_r in E. by apply split_slash_inj.
  - intros ->. rewrite no_slash_end by done. split; [done|]. exists []. rewrite app_nil_r. split; [done|by left].
Qed.

(** ** What a filter lets through *)

(** A pattern of a list that accepts the path; one that cannot be parsed accepts none. *)
Definition accepts (ignorecase : bool) (t : PatternType) (path p : str) : Prop :=
  ∃ w, new p (pattern_opts ignorecase t) = Ok w ∧ path_matches w path false.

Lemma new_pattern_accepts ignorecase p t path : is_ascii p = true →
  ∃ q, new_pattern ignorecase p t = Ok q ∧ (pattern_matches q path = true ↔ accepts ignorecase t path p).
Proof.
  intros Hp. unfold new_pattern, accepts. destruct (new p _) as [w|e] eqn:E.
  - eexists. split; [done|]. unfold pattern_matches. cbn [pt_w]. unfold matches. rewrite matches_opts_spec. naive_solver.
  - apply new_ascii with (o := pattern_opts ignorecase t) in Hp. destruct e; [..|done]; (eexists; split; [reflexivity|]; simpl; split; [done|by intros (? & ? & _)]).
Qed.

Lemma new_patterns_accept ignorecase ps t path : Forall (λ p, is_ascii p = true) ps →
  ∃ qs, collect_results (λ p, new_pattern ignorecase p t) ps = Ok qs ∧ (qs = [] ↔ ps = []) ∧
    (existsb (λ q, pattern_matches q path) qs = true ↔ Exists (accepts ignorecase t path) ps).
Proof.
  induction 1 as [|p ps Hp _ (qs & E & _ & Hqs)]; [by exists []; rewrite Exists_nil|].
  destruct (new_pattern_accepts ignorecase p t path Hp) as (q & Eq & Hq). exists (q :: qs).
  cbn [collect_results]. rewrite Eq, E. split_and!; [done|done|]. simpl. by rewrite orb_true_iff, Hq, Hqs, Exists_cons.
Qed.

(** C21: making a filter of ASCII patterns never panics.  It lets a path through exactly where an include
    pattern takes it, or there is none (unless the filter's default is no), and no exclude pattern does;
    a pattern that cannot be parsed takes nothing.  A gitattributes pattern that heeds case, without special
    characters and without empty parts, takes the path it is, or, being a single name, the paths that end
    in it. (A gitignore pattern also takes what is below the folder it names, [ignored_below].) *)
Theorem lfs_filter_exact ignorecase inc exc t path :
  Forall (λ p, is_ascii p = true) (inc ++ exc) →
  ∃ f g, new_filter ignorecase inc exc t = Ok f ∧ new_default_false ignorecase inc exc t = Ok g ∧
    (allows f path = true ↔
       (inc = [] ∨ Exists (accepts ignorecase t path) inc) ∧ ¬ Exists (accepts ignorecase t path) exc) ∧
    (allows g path = true ↔ Exists (accepts ignorecase t path) inc ∧ ¬ Exists (accepts ignorecase t path) exc) ∧
    ∀ p, Forall (λ b, special b = false) p → Forall (λ d, d ≠ []) (split_on is_slash p) →
      (accepts false GitAttributes path p ↔ p = if (1 <? length (split_on is_slash p))%nat then path else go_base path).
Proof.
  intros [Hinc Hexc]%Forall_app.
  destruct (new_patterns_accept ignorecase inc t path Hinc) as (qi & Ei & Hi & Hinc').
  destruct (new_patterns_accept ignorecase exc t path Hexc) as (qe & Ee & _ & Hexc').
  eexists _, _. unfold new_default_false, new_filter. rewrite Ei, Ee. do 2 (split; [done|]).
  unfold allows. cbn [include exclude default_value]. rewrite <-Hinc', <-Hexc', <-Hi.
  split_and!.
  - destruct (existsb _ qi) eqn:E1, (existsb _ qe); simpl; try case_bool_decide; naive_solver.
  - destruct (existsb _ qi) eqn:E1, (existsb _ qe); simpl; try case_bool_decide; naive_solver.
  - intros p Hp Hd. destruct (plain_pattern p Hp Hd) as (w & Ew & Hw). unfold accepts. cbn [pattern_opts]. rewrite Ew.
    specialize (Hw path). naive_solver.
Qed.
End wildmatch.

(** The tables for ASCII only. *)
Definition ascii_tables : CharTables.
Proof.
  unshelve refine {|
    is_alphabetic c := match c with [b] => (65 <=? b) && (b <=? 90) || (97 <=? b) && (b <=? 122) | _ => false end;
    is_numeric c := match c with [b] => (48 <=? b) && (b <=? 57) | _ => false end;
    is_lowercase c := match c with [b] => (97 <=? b) && (b <=? 122) | _ => false end;
    is_uppercase c := match c with [b] => (65 <=? b) && (b <=? 90) | _ => false end;
  |}; done.
Defined.

#[local] Existing Instance ascii_lowercase.
#[local] Existing Instance ascii_tables.

Definition allowed (f : result Bad Filter) (path : string) : bool :=
  match f with Ok f => allows f (lit path) | Err _ => false end.

Example assets_and_media :
  let f := new_filter false [lit "*.psd"; lit "media/**/[a-c]?.bin"] [lit "old"] GitAttributes in
  allowed f "art/cover.psd" = true ∧ allowed f "media/x/y/b7.bin" = true ∧ allowed f "media/d7.bin" = false ∧
  allowed f "art/old" = false ∧ allowed f "art/cover.png" = false.
Proof. by vm_compute. Qed.

Example ignored_below :
  allowed (new_filter false [] [lit "foo"] GitIgnore) "foo/bar" = false ∧
  allowed (new_filter false [] [lit "foo"] GitAttributes) "foo/bar" = true.
Proof. by vm_compute. Qed.

(** A character beyond ASCII between brackets: [[é]] makes the parser panic, its second byte is no place to slice at. *)
Lemma bracket_beyond_ascii t : new_pattern false [91; 195; 169; 93] t = Err Panics.
Proof. by destruct t. Qed.

Lemma lfs_filter_exact_witness :
  ∃ f, new_filter false [lit "art/a.psd"; lit "*.bin"] [lit "old"] GitAttributes = Ok f ∧
    allows f (lit "art/a.psd") = true ∧ allows f (lit "old") = false.
Proof.
  destruct (lfs_filter_exact false [lit "art/a.psd"; lit "*.bin"] [lit "old"] GitAttributes (lit "art/a.psd"))
    as (f & _ & Ef & _ & Hf & _ & Hplain); [by repeat constructor|].
  exists f. split; [exact Ef|]. split.
  - apply Hf. split.
    + right. apply Exists_cons_hd. apply Hplain; [by repeat constructor|by repeat constructor|reflexivity].
    + intros [H|H]%Exists_cons; [|by apply Exists_nil in H].
      apply Hplain in H; [by vm_compute in H|by repeat constructor|by repeat constructor].
  - vm_compute in Ef. injection Ef as <-. by vm_compute.
Defined.
