(* ===== verification/Http.v ===== *)
(** * The guest's HTTP API and the network policy (engine/src/http.rs)

    Which hosts the guest may reach, which secrets the host adds to a request, how a request head
    is parsed and checked, and how one connection is served.  The connection's stream is the
    sequence of outcomes its reads will have and a log of what was written; the HTTP client
    (ureq, not part of this repository) is the class [HttpClient]; the requests handed to it and
    the events reported to the app are logs of the state. *)
From stdpp Require Import strings.
From S2P Require Import Prelude Str.

Local Open Scope Z_scope.

Definition DEFAULT_ALLOWED_HEADERS : list str :=
  [lit "accept"; lit "content-type"; lit "authorization"; lit "x-api-key"].
Definition TLS_VERIFY_HEADER : str := lit "x-collabo-tls-verify".
Definition METHODS : list str :=
  [lit "GET"; lit "HEAD"; lit "POST"; lit "PUT"; lit "PATCH"; lit "DELETE"; lit "OPTIONS"].
Definition DROPPED_RESPONSE_HEADERS : list str :=
  [lit "content-encoding"; lit "content-length"; lit "transfer-encoding"; lit "connection"].
Definition MAX_HEAD_BYTES : Z := 16384.
Definition MAX_REQUEST_BODY : Z := 33554432.

Record Secret := mk_secret {
  sec_host : str;
  sec_header : str;
  sec_value : str;
}.

Record Policy := mk_policy {
  allow : list str;
  deny : list str;
  allow_loopback : bool;
  secrets : list Secret;
  extra_headers : list str;
  addon_headers : list str;
  addon_secrets : list Secret;
  ask : bool;
  skip_tls_verify : bool;
}.

Definition policy_default : Policy :=
  {| allow := [lit "*"]; deny := []; allow_loopback := false; secrets := []; extra_headers := [];
     addon_headers := []; addon_secrets := []; ask := false; skip_tls_verify := false |}.

Definition mem_str (s : str) (l : list str) : bool := bool_decide (s ∈ l).

(** ** The policy *)

Section policy.
Context {LC : Lowercase}.

Definition host_matches (pattern host : str) : bool :=
  let host := to_lowercase (trim_end (λ b, b =? chr ".") host) in
  if bool_decide (pattern = lit "*") then true
  else match strip_prefix (lit "*.") pattern with
       | Some suffix =>
           bool_decide (length suffix < length host)%nat && ends_with (lit "." ++ suffix) host
       | None => bool_decide (host = pattern)
       end.

Definition is_loopback (host : str) : bool :=
  let host := to_lowercase (trim_end (λ b, b =? chr ".")
                (trim (λ b, (b =? chr "[") || (b =? chr "]")) host)) in
  let parts := split_on (λ b, b =? chr ".") host in
  bool_decide (host = lit "localhost") || ends_with (lit ".localhost") host ||
  bool_decide (host = lit "::1") || bool_decide (host = lit "::") ||
  bool_decide (host = lit "0.0.0.0") ||
  (bool_decide (head parts = Some (lit "127")) && bool_decide (length parts = 4%nat) &&
   forallb (λ part, bool_decide (is_Some (parse_unsigned 256 part))) parts).

Definition deny_rule (p : Policy) (host : str) : option str :=
  find (λ rule, host_matches rule host) (deny p).
Definition allowed (p : Policy) (host : str) : bool :=
  existsb (λ rule, host_matches rule host) (allow p).

Definition deny_reason (host rule : str) : str :=
  quoted host ++ lit " matches the deny rule " ++ quoted rule.
Definition allow_reason (host : str) : str := quoted host ++ lit " is not in the allow list".

Definition refuses_host (p : Policy) (host : str) : option str :=
  match deny_rule p host with
  | Some rule => Some (deny_reason host rule)
  | None => if allowed p host then None else Some (allow_reason host)
  end.

Definition unlisted (p : Policy) (host : str) : bool :=
  negb (is_loopback host) && negb (existsb (λ rule, host_matches rule host) (deny p)) &&
  negb (allowed p host).

Definition refuses (p : Policy) (host : str) : option str :=
  let blocked reason := Some (lit "blocked by the network policy: " ++ reason) in
  if is_loopback host && negb (allow_loopback p) then
    blocked (quoted host ++ lit " is this computer (allowHostLoopback is off)")
  else match deny_rule p host with
       | Some rule => blocked (deny_reason host rule)
       | None => if allowed p host then None else blocked (allow_reason host)
       end.

(** The app's secrets for the host, then the add-ons' for headers the app has none for. *)
Definition secrets_for (p : Policy) (https : bool) (host : str) : list Secret :=
  if https then
    let app := filter (λ s, host_matches (sec_host s) host = true) (secrets p) in
    app ++ filter (λ s, host_matches (sec_host s) host = true ∧
                        existsb (λ own, bool_decide (sec_header own = sec_header s)) app = false)
             (addon_secrets p)
  else [].

Definition has_secret_for (p : Policy) (host : str) : bool :=
  existsb (λ s, host_matches (sec_host s) host) (secrets p ++ addon_secrets p).

End policy.

Definition allows_header (p : Policy) (name : str) : bool :=
  mem_str name DEFAULT_ALLOWED_HEADERS || mem_str name (extra_headers p ++ addon_headers p).

Definition redact_one (out : str) (s : Secret) : str :=
  if bool_decide (4 ≤ length (sec_value s))%nat then replace (sec_value s) (lit "[secret]") out
  else out.
Definition redact (p : Policy) (text : str) : str :=
  foldl redact_one text (secrets p ++ addon_secrets p).

(** ** Requests *)

Inductive Kind : Type :=
  | BadRequest | HeaderNotAllowed | SchemeNotAllowed | RequestTooLarge | Denied | Network | TimedOut.

Definition kind_text (k : Kind) : str :=
  match k with
  | BadRequest => lit "bad-request"
  | HeaderNotAllowed => lit "header-not-allowed"
  | SchemeNotAllowed => lit "scheme-not-allowed"
  | RequestTooLarge => lit "request-too-large"
  | Denied => lit "denied"
  | Network => lit "network"
  | TimedOut => lit "timeout"
  end.

Record BridgeError := mk_bridge_error {
  kind : Kind;
  message : str;
}.

Definition fail {A} (k : Kind) (m : str) : result BridgeError A := Err (mk_bridge_error k m).

Definition one_line (text : str) : str :=
  take_chars 500 ((λ c, if (c =? CR) || (c =? LF) || (c =? 0) then 32 else c) <$> text).

Definition is_alphanumeric (b : Z) : bool :=
  is_digit b || in_range 65 90 b || in_range 97 122 b.
Definition is_token (name : str) : bool :=
  negb (bool_decide (name = [])) &&
  forallb (λ b, is_alphanumeric b || mem_str [b] ((λ c, [c]) <$> lit "!#$%&'*+.^_`|~-")) name.

Record Request := mk_request {
  method : str;
  url : str;
  host : str;
  https : bool;
  headers : list (str * str);
  content_length : Z;
  verify_tls : bool;
}.

Section requests.
Context {LC : Lowercase}.

Definition split_url (url : str) : result BridgeError (str * bool) :=
  let invalid := fail BadRequest (lit "invalid URL: " ++ one_line url) in
  match split_once (lit "://") url with
  | None => invalid
  | Some (scheme, rest) =>
      let scheme := to_lowercase scheme in
      https ← (if bool_decide (scheme = lit "https") then Ok true
               else if bool_decide (scheme = lit "http") then Ok false
               else fail SchemeNotAllowed
                      (lit "only http: and https: URLs are allowed, not " ++ scheme ++ lit ":"));
      let authority :=
        default [] (head (split_on (λ b, mem_str [b] [lit "/"; lit "?"; lit "#"]) rest)) in
      if has_byte (λ b, b =? chr "@") authority then
        fail BadRequest (lit "credentials in the URL are not allowed; use the authorization header")
      else
        host ← (match strip_prefix (lit "[") authority with
                | Some rest =>
                    match split_once (lit "]") rest with
                    | Some (inside, _) => Ok inside
                    | None => fail BadRequest (lit "invalid IPv6 host")
                    end
                | None => Ok (default [] (head (split_on (λ b, b =? chr ":") authority)))
                end);
        if bool_decide (host = []) then invalid else Ok (host, https)
  end.

(** What the header lines gather. *)
Record Headers := mk_headers {
  h_list : list (str * str);
  h_length : Z;
  h_saw_length : bool;
  h_verify : bool;
}.

(** One header line. *)
Definition parse_line (p : Policy) (acc : Headers) (line : str) : result BridgeError Headers :=
  if bool_decide (line = []) then Ok acc
  else match split_once (lit ":") line with
  | None => fail BadRequest (lit "malformed header line: " ++ one_line line)
  | Some (name, value) =>
      let name := to_lowercase name in
      let value := trim (λ b, (b =? 32) || (b =? 9)) value in
      if negb (is_token name) then fail BadRequest (lit "invalid header name: " ++ one_line name)
      else if has_byte (λ b, b =? 0) value then
        fail BadRequest (lit "invalid header value for " ++ name)
      else if bool_decide (name = lit "content-length") then
        if h_saw_length acc then fail BadRequest (lit "duplicate content-length")
        else match parse_unsigned 18446744073709551616 value with
             | Some n =>
                 if bool_decide (length value ≤ 15)%nat
                 then Ok (mk_headers (h_list acc) n true (h_verify acc))
                 else fail BadRequest (lit "invalid content-length")
             | None => fail BadRequest (lit "invalid content-length")
             end
      else if bool_decide (name = TLS_VERIFY_HEADER) then
        if bool_decide (value = lit "true")
        then Ok (mk_headers (h_list acc) (h_length acc) (h_saw_length acc) true)
        else if bool_decide (value = lit "false")
        then Ok (mk_headers (h_list acc) (h_length acc) (h_saw_length acc) false)
        else fail BadRequest (TLS_VERIFY_HEADER ++ lit " is true or false, not " ++ one_line value)
      else if negb (allows_header p name) then
        fail HeaderNotAllowed (lit "request header " ++ quoted name ++ lit " is not allowed")
      else Ok (mk_headers (h_list acc ++ [(name, value)]) (h_length acc) (h_saw_length acc)
                 (h_verify acc))
  end.

Fixpoint parse_lines (p : Policy) (acc : Headers) (lines : list str) : result BridgeError Headers :=
  match lines with
  | [] => Ok acc
  | line :: lines => acc ← parse_line p acc line; parse_lines p acc lines
  end.

Definition parse_head (text : str) (p : Policy) : result BridgeError Request :=
  if has_byte (λ b, b =? CR) text then
    fail BadRequest (lit "lines must end with LF, not CRLF")
  else
    let lines := split_on (λ b, b =? LF) text in
    match split_once (lit " ") (default [] (head lines)) with
    | None => fail BadRequest (lit "first line must be: METHOD URL")
    | Some (method, target) =>
        if negb (mem_str method METHODS) then
          fail BadRequest (lit "method " ++ one_line method ++ lit " is not supported (" ++
                           join (lit ", ") METHODS ++ lit ")")
        else
          '(host, https) ← split_url target;
          h ← parse_lines p (mk_headers [] 0 false true) (tail lines);
          if (bool_decide (method = lit "GET") || bool_decide (method = lit "HEAD")) &&
             (0 <? h_length h) then
            fail BadRequest (method ++ lit " requests cannot have a body")
          else if MAX_REQUEST_BODY <? h_length h then
            fail RequestTooLarge (lit "request body of " ++ decimal (h_length h) ++
                                  lit " bytes exceeds the limit")
          else Ok {| method := method; url := target; host := host; https := https;
                     headers := h_list h; content_length := h_length h; verify_tls := h_verify h |}
    end.

(** [HOST:HEADER=VALUE]; the error carries the message. *)
Definition parse_secret (spec : str) : result str Secret :=
  let usage := Err (lit "a secret looks like HOST:HEADER=VALUE, got " ++ spec) in
  match split_once (lit ":") spec with
  | None => usage
  | Some (host, rest) =>
      match split_once (lit "=") rest with
      | None => usage
      | Some (header, value) =>
          let header := to_lowercase header in
          if negb (is_token header) || has_byte (λ b, (b =? CR) || (b =? LF)) value
          then Err (header ++ lit " is not a valid header name for a secret")
          else Ok {| sec_host := to_lowercase host; sec_header := header; sec_value := value |}
      end
  end.

End requests.

(** ** One connection *)

Record Event := mk_event {
  ev_method : str;
  ev_url : str;
  ev_status : option Z;
  ev_error : option str;
  ev_blocked : bool;
  ev_unverified : bool;
}.

(** A request as the client library gets it. *)
Record Outgoing := mk_outgoing {
  o_method : str;
  o_url : str;
  o_headers : list (str * str);
  o_body : list Z;
}.

(** An answer: the body is what reading it will give, piece by piece, an empty piece at its end. *)
Record Response := mk_response {
  r_status : Z;
  r_reason : str;
  r_headers : list (str * option str);
  r_body : list (result str (list Z));
}.

Inductive ClientError : Type :=
  | ClientTimeout (phase : str)
  | ClientFailed (text : str).

(** How a client is set up: whether it takes any certificate, how long each phase may take, in seconds,
    how many redirects it follows, and whether an error status is a failure. *)
Record AgentConfig := mk_agent_config {
  disable_verification : bool;
  timeout_connect : Z;
  timeout_send_request : Z;
  timeout_send_body : Z;
  timeout_recv_response : Z;
  timeout_recv_body : Z;
  max_redirects : nat;
  http_status_as_error : bool;
}.
Definition agent (verify : bool) : AgentConfig := mk_agent_config (negb verify) 30 60 120 600 1800 10 false.

(** The HTTP client library: building a request may fail, and so may running it; and running one may mean
    that the client makes others on its own after it, where the answers are redirects. *)
Class HttpClient : Type := {
  build : Outgoing → result str unit;
  run : AgentConfig → Outgoing → result ClientError Response;
  redirects : AgentConfig → Outgoing → list Outgoing;
}.

(** [handle]'s local variables and its surroundings: what the stream's reads will come to and how
    its writes will go (how much got out before which error), what was sent, the requests handed to
    the client with whether certificates are checked, and the app's events. *)
Record Exchange := mk_exchange {
  x_reads : list (result str (list Z));
  x_writes : list (option (nat * str));
  x_sent : list Z;
  x_requests : list (bool * Outgoing);
  x_events : list Event;
  x_head_sent : bool;
  x_blocked : bool;
  x_unverified : bool;
  x_seen : option (str * str);
}.

Definition bridge (A : Type) : Type := Exchange → result BridgeError A * Exchange.
#[export] Instance bridge_ret : MRet bridge := λ A a x, (Ok a, x).
#[export] Instance bridge_bind : MBind bridge := λ A B f m x,
  match m x with
  | (Ok a, x) => f a x
  | (Err e, x) => (Err e, x)
  end.

Definition lift {A} (r : result BridgeError A) : bridge A := λ x, (r, x).
Definition modify (f : Exchange → Exchange) : bridge unit := λ x, (Ok tt, f x).
Definition throw {A} (k : Kind) (m : str) : bridge A := λ x, (fail k m, x).

Definition set_reads (r : list (result str (list Z))) (x : Exchange) : Exchange :=
  mk_exchange r (x_writes x) (x_sent x) (x_requests x) (x_events x) (x_head_sent x) (x_blocked x)
    (x_unverified x) (x_seen x).
Definition set_sent (w : list (option (nat * str))) (s : list Z) (x : Exchange) : Exchange :=
  mk_exchange (x_reads x) w s (x_requests x) (x_events x) (x_head_sent x) (x_blocked x)
    (x_unverified x) (x_seen x).
Definition log_request (v : bool) (o : Outgoing) (x : Exchange) : Exchange :=
  mk_exchange (x_reads x) (x_writes x) (x_sent x) (x_requests x ++ [(v, o)]) (x_events x)
    (x_head_sent x) (x_blocked x) (x_unverified x) (x_seen x).
Definition report (e : Event) (x : Exchange) : Exchange :=
  mk_exchange (x_reads x) (x_writes x) (x_sent x) (x_requests x) (x_events x ++ [e])
    (x_head_sent x) (x_blocked x) (x_unverified x) (x_seen x).
Definition set_head_sent (x : Exchange) : Exchange :=
  mk_exchange (x_reads x) (x_writes x) (x_sent x) (x_requests x) (x_events x) true (x_blocked x)
    (x_unverified x) (x_seen x).
Definition set_blocked (x : Exchange) : Exchange :=
  mk_exchange (x_reads x) (x_writes x) (x_sent x) (x_requests x) (x_events x) (x_head_sent x) true
    (x_unverified x) (x_seen x).
Definition set_seen (u : bool) (m url : str) (x : Exchange) : Exchange :=
  mk_exchange (x_reads x) (x_writes x) (x_sent x) (x_requests x) (x_events x) (x_head_sent x)
    (x_blocked x) u (Some (m, url)).

(** The loop of [read_head] over the reads of the stream; a stream out of reads is at its end. *)
Fixpoint read_head_loop (buffer : list Z) (reads : list (result str (list Z)))
    : result BridgeError (str * list Z) * list (result str (list Z)) :=
  match split_once [LF; LF] buffer with
  | Some (text, rest) =>
      (if utf8_valid text then Ok (text, rest)
       else fail BadRequest (lit "request head is not valid UTF-8"), reads)
  | None =>
      if MAX_HEAD_BYTES <? Z.of_nat (length buffer) then
        (fail BadRequest (lit "request head too large"), reads)
      else match reads with
           | [] => (fail BadRequest (lit "connection closed before the request head ended"), [])
           | Ok [] :: reads =>
               (fail BadRequest (lit "connection closed before the request head ended"), reads)
           | Ok bytes :: reads => read_head_loop (buffer ++ bytes) reads
           | Err e :: reads => (fail Network (lit "reading the request: " ++ e), reads)
           end
  end.

Definition read_head : bridge (str * list Z) := λ x,
  let '(r, reads) := read_head_loop [] (x_reads x) in (r, set_reads reads x).

Fixpoint read_body_loop (length_ : Z) (body : list Z) (reads : list (result str (list Z)))
    : result BridgeError (list Z) * list (result str (list Z)) :=
  if length_ <=? Z.of_nat (length body) then (Ok body, reads)
  else match reads with
       | [] => (fail BadRequest (lit "connection closed before the request body ended"), [])
       | Ok [] :: reads =>
           (fail BadRequest (lit "connection closed before the request body ended"), reads)
       | Ok bytes :: reads => read_body_loop length_ (body ++ bytes) reads
       | Err e :: reads => (fail Network (lit "reading the request body: " ++ e), reads)
       end.

Definition read_body (rest : list Z) (length_ : Z) : bridge (list Z) := λ x,
  if length_ <? Z.of_nat (length rest) then
    (fail BadRequest (lit "data after the request body"), x)
  else
    let '(r, reads) := read_body_loop length_ rest (x_reads x) in (r, set_reads reads x).

(** [stream.write_all]: what got out, and the error if it failed. *)
Definition write_stream (bytes : list Z) (x : Exchange) : option str * Exchange :=
  match x_writes x with
  | Some (k, e) :: w => (Some e, set_sent w (x_sent x ++ take k bytes) x)
  | None :: w => (None, set_sent w (x_sent x ++ bytes) x)
  | [] => (None, set_sent [] (x_sent x ++ bytes) x)
  end.

Definition write (bytes : list Z) : bridge unit := λ x,
  match write_stream bytes x with
  | (None, x) => (Ok tt, x)
  | (Some e, x) => (fail Network (lit "writing to the guest: " ++ e), x)
  end.

(** Hexadecimal digits ([{:x}]). *)
Fixpoint hex_digits (fuel : nat) (n : Z) : str :=
  match fuel with
  | O => []
  | S fuel => if n <? 16 then [hex_char n] else hex_digits fuel (n / 16) ++ [hex_char (n mod 16)]
  end.
Definition hex (n : Z) : str := hex_digits 16 n.

(** One chunk of the body: its length in hexadecimal, then its bytes, each a write of its own. *)
Definition write_chunk (bytes : list Z) : bridge unit :=
  _ ← write (hex (Z.of_nat (length bytes)) ++ [LF]); write bytes.

Fixpoint write_body (pieces : list (result str (list Z))) : bridge unit :=
  match pieces with
  | [] => mret tt
  | Ok [] :: _ => mret tt
  | Ok bytes :: pieces => _ ← write_chunk bytes; write_body pieces
  | Err e :: _ => throw Network (lit "response body interrupted: " ++ e)
  end.

Section connection.
Context {LC : Lowercase} {CL : HttpClient}.
(** Whether the app allows a host the lists do not name, when there is someone to ask. *)
Variable asker : option (str → bool).

(** The refusal of a request, after asking the app about an unlisted host. *)
Definition refused (p : Policy) (r : Request) : option str :=
  match refuses p (host r), asker with
  | Some reason, Some ask_ =>
      if ask p && unlisted p (host r) then
        let target := host r ++ lit ":" ++ (if https r then lit "443" else lit "80") in
        if ask_ target then None
        else Some (lit "blocked by the network policy: the app did not allow " ++ quoted target)
      else Some reason
  | reason, _ => reason
  end.

(** The headers that go out: the guest's, less those a secret replaces, then the secrets. *)
Definition outgoing_headers (r : Request) (secrets : list Secret) : list (str * str) :=
  filter (λ h, existsb (λ s, bool_decide (sec_header s = h.1)) secrets = false) (headers r) ++
  ((λ s, (sec_header s, sec_value s)) <$> secrets).

Definition response_head (resp : Response) : str :=
  decimal (r_status resp) ++ lit " " ++ r_reason resp ++ [LF] ++
  concat ((λ h, let name := to_lowercase h.1 in
                if mem_str name DROPPED_RESPONSE_HEADERS then []
                else name ++ lit ": " ++ one_line (default [] h.2) ++ [LF]) <$> r_headers resp) ++
  [LF].

(** The body of [handle]'s closure. *)
Definition exchange (p : Policy) : bridge unit :=
  '(text, rest) ← read_head;
  request ← lift (parse_head text p);
  let unverified := https request && (skip_tls_verify p || negb (verify_tls request)) in
  _ ← modify (set_seen unverified (method request) (url request));
  body ← read_body rest (content_length request);
  let event status error blocked :=
    mk_event (method request) (url request) status error blocked unverified in
  match refused p request with
  | Some reason =>
      _ ← modify (report (event None (Some reason) true));
      _ ← modify set_blocked;
      throw Denied reason
  | None =>
      let secrets := secrets_for p (https request) (host request) in
      if https request && negb (verify_tls request) && negb (skip_tls_verify p) &&
         negb (bool_decide (secrets = [])) then
        throw Denied (lit "the app's key for " ++ quoted (host request) ++
          lit " is only sent to a server whose certificate is checked; for a private CA give the engine COLLABO_CORE_CA_FILE instead of " ++
          TLS_VERIFY_HEADER ++ lit ": false")
      else
        let out := {| o_method := method request; o_url := url request;
                      o_headers := outgoing_headers request secrets; o_body := body |} in
        match build out with
        | Err e => throw BadRequest (redact p e)
        | Ok _ =>
            _ ← modify (log_request (negb unverified) out);
            match run (agent (negb unverified)) out with
            | Err (ClientTimeout phase) => throw TimedOut (lit "timed out (" ++ phase ++ lit ")")
            | Err (ClientFailed e) => throw Network (redact p e)
            | Ok resp =>
                _ ← modify (report (event (Some (r_status resp)) None false));
                _ ← write (response_head resp);
                _ ← modify set_head_sent;
                _ ← (if bool_decide (method request = lit "HEAD") then mret tt
                     else write_body (r_body resp));
                write (lit "0" ++ [LF] ++ lit "OK" ++ [LF])
            end
        end
  end.

(** What the guest is told of a failure: a line of its own, as a trailer once the head is out. *)
Definition error_reply (p : Policy) (e : BridgeError) (head_sent : bool) : str :=
  let line := lit "ERROR " ++ kind_text (kind e) ++ lit ": " ++ redact p (one_line (message e)) ++ [LF] in
  if head_sent then lit "0" ++ [LF] ++ line else line.

(** [handle]: the exchange, then the report and the reply of a failure. *)
Definition handle_connection (p : Policy) (x : Exchange) : Exchange :=
  match exchange p x with
  | (Ok _, x) => x
  | (Err e, x) =>
      let x := match x_seen x with
               | Some (m, u) =>
                   if x_blocked x then x
                   else report (mk_event m u None (Some (redact p (one_line (message e)))) false
                                  (x_unverified x)) x
               | None => x
               end in
      (write_stream (error_reply p e (x_head_sent x)) x).2
  end.
End connection.

(** The start of a connection. *)
Definition exchange_new (reads : list (result str (list Z))) (writes : list (option (nat * str)))
    : Exchange :=
  mk_exchange reads writes [] [] [] false false false None.

(** ** The policy's decision *)

Section policy_lemmas.
Context {LC : Lowercase}.

Lemma deny_rule_None p h :
  deny_rule p h = None ↔ ∀ rule, rule ∈ deny p → host_matches rule h = false.
Proof.
  unfold deny_rule. split.
  - intros Hf rule Hr. apply list_elem_of_In in Hr. by eapply find_none in Hf.
  - intros Hall. destruct (find _ _) as [rule|] eqn:E; [|done].
    apply find_some in E as [Hin Hm]. rewrite Hall in Hm; [done|]. by apply list_elem_of_In.
Qed.

Lemma allowed_spec p h : allowed p h = true ↔ ∃ rule, rule ∈ allow p ∧ host_matches rule h = true.
Proof.
  unfold allowed. rewrite existsb_exists. split; intros (r & ? & ?); exists r;
    (split; [by apply list_elem_of_In|done]).
Qed.

Lemma refuses_None p h :
  refuses p h = None ↔
  (is_loopback h = true → allow_loopback p = true) ∧ deny_rule p h = None ∧ allowed p h = true.
Proof.
  unfold refuses. destruct (is_loopback h), (allow_loopback p); simpl;
    destruct (deny_rule p h), (allowed p h); intuition congruence.
Qed.

Lemma unlisted_spec p h :
  unlisted p h = true ↔ is_loopback h = false ∧ deny_rule p h = None ∧ allowed p h = false.
Proof.
  unfold unlisted. rewrite !andb_true_iff, !negb_true_iff. rewrite deny_rule_None.
  assert (existsb (λ rule, host_matches rule h) (deny p) = false ↔
          ∀ rule, rule ∈ deny p → host_matches rule h = false) as ->; [|tauto].
  rewrite <-not_true_iff_false, existsb_exists. split.
  - intros Hn rule Hr. apply not_true_iff_false. intros Hm. apply Hn. exists rule.
    split; [by apply list_elem_of_In|done].
  - intros Hall (rule & Hr & Hm). apply list_elem_of_In in Hr. rewrite Hall in Hm; done.
Qed.

Lemma secrets_for_spec p b h s :
  s ∈ secrets_for p b h → b = true ∧ host_matches (sec_host s) h = true ∧
    (s ∈ secrets p ∨ s ∈ addon_secrets p).
Proof.
  unfold secrets_for. destruct b; [|by intros ?%not_elem_of_nil].
  rewrite elem_of_app, !list_elem_of_filter. tauto.
Qed.
End policy_lemmas.

(** ** Redaction *)

Definition occurs (v s : str) : Prop := ∃ l r, s = l ++ v ++ r.

(** A value the placeholder neither contains nor can be part of. *)
Definition redactable (v : str) : Prop :=
  (4 ≤ length v)%nat ∧ Forall (λ b, b ≠ chr "[" ∧ b ≠ chr "]") v ∧ ¬ occurs v (lit "secret").

Definition placeholder : str := lit "[secret]".

Lemma replace_from_cons p new k b s :
  replace_from p new k (b :: s) =
  match k with
  | S k => replace_from p new k s
  | O => if starts_with p (b :: s) then new ++ replace_from p new (length p - 1) s
         else b :: replace_from p new 0 s
  end.
Proof. done. Qed.

Lemma replace_from_prefix w v s :
  Forall (λ b, b ≠ chr "[") v → v `prefix_of` replace_from w placeholder 0 s → v `prefix_of` s.
Proof.
  intros Hv. revert v Hv; induction s as [|b s IH]; intros v Hv Hp; simpl in *; [done|].
  destruct v as [|c v]; [apply prefix_nil|].
  apply Forall_cons in Hv as [Hc Hv]. destruct (starts_with w (b :: s)).
  - destruct Hp as [k [= <- _]]. by destruct Hc.
  - destruct Hp as [k [= <- Hk]]. apply prefix_cons. apply IH; [done|]. by exists k.
Qed.

(** Where a bracket-free value sits in the placeholder followed by something. *)
Lemma occurs_placeholder v k l r :
  redactable v → placeholder ++ k = l ++ v ++ r → ∃ l', l = placeholder ++ l'.
Proof.
  intros (Hlen & Hb & Hs) E. destruct (decide (8 ≤ length l)%nat) as [Hl|Hl].
  { exists (drop 8 l). rewrite <-(take_drop 8 l) at 1. f_equal.
    apply (f_equal (take 8)) in E. rewrite take_app_le in E by done.
    rewrite take_app_le in E by done. by rewrite <-E. }
  exfalso. assert (∀ i b, v !! i = Some b → placeholder !! (length l + i)%nat = Some b ∨
    (8 ≤ length l + i)%nat) as Hlook.
  { intros i b Hi. destruct (decide (8 ≤ length l + i)%nat); [by right|left].
    rewrite <-(lookup_app_l placeholder k) by (change (length placeholder) with 8%nat; lia).
    rewrite E, lookup_app_r by lia. replace (length l + i - length l)%nat with i by lia.
    rewrite lookup_app_l; [done|]. by apply lookup_lt_Some in Hi. }
  assert (∀ i b, v !! i = Some b → b ≠ chr "[" ∧ b ≠ chr "]") as Hbr.
  { intros i b Hi. by eapply Forall_lookup_1 in Hb. }
  destruct (decide (7 < length l + length v)%nat) as [Hlong|Hshort].
  - destruct (lookup_lt_is_Some_2 v (7 - length l)) as [b Hb7]; [lia|].
    destruct (Hlook _ _ Hb7) as [H7|]; [|lia].
    replace (length l + (7 - length l))%nat with 7%nat in H7 by lia.
    injection H7 as <-. by destruct (Hbr _ _ Hb7).
  - destruct (decide (length l = 0)%nat) as [Hl0|Hl0].
    + destruct (lookup_lt_is_Some_2 v 0) as [b Hb0]; [lia|].
      destruct (Hlook _ _ Hb0) as [H0|]; [|lia].
      rewrite Hl0 in H0. injection H0 as <-. by destruct (Hbr _ _ Hb0).
    + apply Hs. exists (take (length l - 1) (lit "secret")), (drop (length l - 1 + length v) (lit "secret")).
      transitivity (take (length l - 1) (lit "secret") ++ drop (length l - 1) (lit "secret")).
      { by rewrite take_drop. }
      f_equal. rewrite <-(take_drop (length v) (drop (length l - 1) (lit "secret"))), drop_drop. f_equal.
      apply (f_equal (λ s, take (length v) (drop (length l) s))) in E.
      rewrite drop_app_length, take_app_length in E. rewrite <-E.
      rewrite drop_app_le by (change (length placeholder) with 8%nat; lia).
      rewrite take_app_le by (rewrite length_drop; change (length placeholder) with 8%nat; lia).
      destruct (length l) as [|n]; [lia|]. replace (S n - 1)%nat with n by lia.
      change placeholder with (chr "[" :: lit "secret" ++ [chr "]"]). rewrite skipn_cons.
      rewrite drop_app_le by (change (length (lit "secret")) with 6%nat; lia).
      assert (length v ≤ length (drop n (lit "secret")))%nat as Hd.
      { rewrite length_drop. change (length (lit "secret")) with 6%nat. lia. }
      rewrite take_app_le by done. by rewrite length_take, Nat.min_l.
Qed.

(** Replacing one value creates no occurrence of another. *)
Lemma replace_occurs w v k s :
  redactable v → occurs v (replace_from w placeholder k s) → occurs v s.
Proof.
  intros Hv. assert (v ≠ []) as Hne by (destruct Hv as [? _]; by destruct v; simpl in *; [lia|]).
  revert k; induction s as [|b s IH]; intros k (l & r & E).
  { symmetry in E. by apply app_nil in E as [_ [? _]%app_nil]. }
  rewrite replace_from_cons in E.
  assert (∀ k, occurs v (replace_from w placeholder k s) → occurs v (b :: s)) as IH'.
  { intros j Hj. destruct (IH j Hj) as (l1 & r1 & ->). by exists (b :: l1), r1. }
  destruct k as [|k]; [|apply (IH' k); by exists l, r].
  destruct (starts_with w (b :: s)) eqn:Hs.
  - destruct (occurs_placeholder v _ l r Hv E) as [l' ->]. rewrite <-app_assoc in E.
    apply app_inv_head in E. apply (IH' (length w - 1)%nat). by exists l', r.
  - destruct l as [|c l].
    + exists [], (drop (length v) (b :: s)). simpl.
      assert (v `prefix_of` b :: s) as [q ->]; [|by rewrite drop_app_length].
      apply (replace_from_prefix w); [by eapply Forall_impl; [apply Hv|]; intros ? []|].
      rewrite replace_from_cons, Hs. by exists r.
    + injection E as -> E. apply (IH' 0%nat). by exists l, r.
Qed.

(** No occurrence of the replaced value is left. *)
Lemma replace_removes v k s : redactable v → ¬ occurs v (replace_from v placeholder k s).
Proof.
  intros Hv. assert (v ≠ []) as Hne by (destruct Hv as [? _]; by destruct v; simpl in *; [lia|]).
  revert k; induction s as [|b s IH]; intros k (l & r & E).
  { symmetry in E. by apply app_nil in E as [_ [? _]%app_nil]. }
  rewrite replace_from_cons in E.
  destruct k as [|k]; [|apply (IH k); by exists l, r].
  destruct (starts_with v (b :: s)) eqn:Hs.
  - destruct (occurs_placeholder v _ l r Hv E) as [l' ->]. rewrite <-app_assoc in E.
    apply app_inv_head in E. apply (IH (length v - 1)%nat). by exists l', r.
  - destruct l as [|c l].
    + assert (v `prefix_of` b :: s) as Hp%starts_with_spec; [|congruence].
      apply (replace_from_prefix v); [by eapply Forall_impl; [apply Hv|]; intros ? []|].
      rewrite replace_from_cons, Hs. by exists r.
    + injection E as -> E. apply (IH 0%nat). by exists l, r.
Qed.

Lemma redact_one_occurs v s text :
  redactable v → occurs v (redact_one text s) → occurs v text.
Proof.
  intros Hv. unfold redact_one. case_bool_decide; [|done]. by apply replace_occurs.
Qed.

Lemma redact_hides p s text :
  s ∈ secrets p ++ addon_secrets p → redactable (sec_value s) →
  ¬ occurs (sec_value s) (redact p text).
Proof.
  unfold redact. generalize (secrets p ++ addon_secrets p). intros ss Hin Hv.
  assert (∀ ss text, occurs (sec_value s) (foldl redact_one text ss) → occurs (sec_value s) text) as Hk.
  { intros ss'. induction ss' as [|s' ss' IH]; intros t Ho; simpl in *; [done|].
    eapply redact_one_occurs; [done|]. by apply IH. }
  revert text. induction ss as [|s1 ss IH]; intros text; [by apply not_elem_of_nil in Hin|].
  apply elem_of_cons in Hin as [<-|Hin]; [|by apply IH].
  intros Ho. simpl in Ho. apply Hk in Ho. unfold redact_one in Ho.
  rewrite bool_decide_true in Ho by apply Hv. by apply replace_removes in Ho.
Qed.

(** Redaction brings in only the placeholder's bytes. *)
Lemma replace_bytes (P : Z → Prop) w new k s :
  Forall P s → Forall P new → Forall P (replace_from w new k s).
Proof.
  intros Hs Hn. revert k; induction Hs as [|b s Hb Hs IH]; intros k; simpl; [done|].
  destruct k; [|done]. destruct (starts_with _ _); [by apply Forall_app|by constructor].
Qed.

Lemma redact_bytes (P : Z → Prop) p text :
  Forall P text → Forall P placeholder → Forall P (redact p text).
Proof.
  intros Ht Hp. unfold redact. revert text Ht. induction (secrets p ++ addon_secrets p) as [|s ss IH];
    intros text Ht; simpl; [done|]. apply IH. unfold redact_one. case_bool_decide; [|done].
  by apply replace_bytes.
Qed.

(** What [one_line] leaves: no line ends, no NUL. *)
Lemma one_line_bytes text : Forall (λ b, b ≠ LF ∧ b ≠ CR ∧ b ≠ 0) (one_line text).
Proof.
  unfold one_line. destruct (take_chars_prefix 500
    ((λ c, if (c =? CR) || (c =? LF) || (c =? 0) then 32 else c) <$> text)) as [k Hk].
  assert (Forall (λ b, b ≠ LF ∧ b ≠ CR ∧ b ≠ 0)
    ((λ c, if (c =? CR) || (c =? LF) || (c =? 0) then 32 else c) <$> text)) as Hall.
  { apply Forall_fmap, Forall_true. intros c. simpl. unfold CR, LF.
    destruct (Z.eqb_spec c 13), (Z.eqb_spec c 10), (Z.eqb_spec c 0); simpl; lia. }
  rewrite Hk in Hall. by apply Forall_app in Hall as [? _].
Qed.

(** ** What an accepted head guarantees *)

Section head_lemmas.
Context {LC : Lowercase}.

(** A header the request may carry. *)
Definition header_ok (p : Policy) (h : str * str) : Prop :=
  is_token h.1 = true ∧ allows_header p h.1 = true ∧ h.1 ≠ lit "content-length" ∧
  h.1 ≠ TLS_VERIFY_HEADER ∧ Forall (λ b, b ≠ LF ∧ b ≠ CR ∧ b ≠ 0) h.2.

Lemma parse_unsigned_range bound s n : parse_unsigned bound s = Some n → 0 <= n < bound.
Proof.
  unfold parse_unsigned. set (digits := match s with 43 :: s0 => s0 | _ => s end). clearbody digits.
  destruct (_ || _) eqn:E; [done|]. destruct (Z.ltb_spec (digits_value digits) bound); [|done].
  intros [= <-]. split; [|done]. apply orb_false_iff in E as [_ Hd%negb_false_iff].
  unfold digits_value. assert (∀ acc, 0 <= acc → 0 <= foldl (λ acc b, acc * 10 + (b - 48)) acc digits) as Hf; [|apply Hf; lia].
  clear H. induction digits as [|b digits IH]; intros acc Ha; simpl in *; [done|].
  apply andb_true_iff in Hd as [Hb Hd]. unfold is_digit in Hb. apply IH; [done|]. lia.
Qed.

Lemma parse_line_ok p acc line acc' :
  parse_line p acc line = Ok acc' → Forall (λ b, b ≠ LF ∧ b ≠ CR) line →
  Forall (header_ok p) (h_list acc) → 0 <= h_length acc →
  Forall (header_ok p) (h_list acc') ∧ 0 <= h_length acc'.
Proof.
  unfold parse_line. intros Hp Hline Hacc Hlen.
  case_bool_decide; [by injection Hp as <-|].
  destruct (split_once (lit ":") line) as [[name value]|] eqn:Hs; [|done].
  apply split_once_Some in Hs as [-> _]. apply Forall_app in Hline as [_ [_ Hval]%Forall_app].
  set (n := to_lowercase name) in *. set (v := trim _ value) in *.
  assert (Forall (λ b, b ≠ LF ∧ b ≠ CR) v) as Hv.
  { apply Forall_forall. intros b Hb. apply trim_sublist in Hb.
    by eapply Forall_forall in Hval. }
  clearbody n v. destruct (is_token n) eqn:Htok; [|done]. simpl in Hp.
  destruct (has_byte _ v) eqn:Hnul; [done|]. apply has_byte_false in Hnul.
  case_bool_decide as Hcl.
  { destruct (h_saw_length acc); [done|]. destruct (parse_unsigned _ v) as [k|] eqn:Hk; [|done].
    case_bool_decide; [|done]. injection Hp as <-. apply parse_unsigned_range in Hk. simpl. split; [done|lia]. }
  case_bool_decide as Htls.
  { case_bool_decide; [by injection Hp as <-|]. case_bool_decide; [|done]. by injection Hp as <-. }
  destruct (allows_header p n) eqn:Hal; [|done]. injection Hp as <-. simpl. split; [|done].
  apply Forall_app. split; [done|]. constructor; [|constructor].
  repeat split; try done. simpl. apply Forall_forall. intros b Hb.
  eapply Forall_forall in Hv as [? ?]; [|done]. eapply Forall_forall in Hnul; [|done].
  simpl in Hnul. lia.
Qed.

Lemma parse_lines_ok p acc lines acc' :
  parse_lines p acc lines = Ok acc' → Forall (Forall (λ b, b ≠ LF ∧ b ≠ CR)) lines →
  Forall (header_ok p) (h_list acc) → 0 <= h_length acc →
  Forall (header_ok p) (h_list acc') ∧ 0 <= h_length acc'.
Proof.
  revert acc; induction lines as [|line lines IH]; intros acc; simpl; [by intros [= ->]|].
  intros (acc1 & H1 & H2)%result_bind_Ok Hl Hacc Hlen. apply Forall_cons in Hl as [Hline Hl].
  destruct (parse_line_ok _ _ _ _ H1 Hline Hacc Hlen). by apply (IH acc1).
Qed.

(** The host comes from the URL's authority, and the scheme decides [https]. *)
Lemma split_url_ok url h s :
  split_url url = Ok (h, s) →
  h ≠ [] ∧ Forall (λ b, b ≠ chr "@" ∧ b ≠ chr "/" ∧ b ≠ chr "?" ∧ b ≠ chr "#") h ∧
  ∃ scheme rest, url = scheme ++ lit "://" ++ rest ∧ (∀ b, b ∈ h → b ∈ rest) ∧
    to_lowercase scheme = if s then lit "https" else lit "http".
Proof.
  unfold split_url. destruct (split_once (lit "://") url) as [[scheme rest]|] eqn:Hs; [|done].
  apply split_once_Some in Hs as [-> _]. intros (s' & Hsch & H2)%result_bind_Ok.
  assert (to_lowercase scheme = if s' then lit "https" else lit "http") as Hscheme.
  { case_bool_decide; [by injection Hsch as <-|]. case_bool_decide; [|done]. by injection Hsch as <-. }
  set (delim := λ b, mem_str [b] [lit "/"; lit "?"; lit "#"]) in *.
  pose proof (split_on_parts delim rest) as Hparts.
  destruct (split_on delim rest) as [|authority parts] eqn:Esp; [by apply split_on_nonempty in Esp|].
  apply Forall_cons in Hparts as [Hauth _]. simpl in H2.
  destruct (has_byte _ authority) eqn:Hat; [done|]. apply has_byte_false in Hat.
  apply result_bind_Ok in H2 as (h' & Hh & H2). case_bool_decide as Hne; [done|].
  injection H2 as <- <-. split; [done|].
  assert (∀ b, b ∈ h' → b ∈ authority) as Hsub.
  { unfold strip_prefix in Hh. destruct (starts_with (lit "[") authority) eqn:Hsw.
    - apply starts_with_drop in Hsw. destruct (split_once (lit "]") _) as [[inside r]|] eqn:E; [|done].
      injection Hh as <-. apply split_once_Some in E as [E _]. rewrite Hsw, E. set_solver.
    - injection Hh as <-. pose proof (split_on_parts (λ b, b =? chr ":") authority) as Hp2.
      destruct (split_on _ authority) as [|x xs]; [set_solver|]. apply Forall_cons in Hp2 as [Hx _].
      intros b Hb. by eapply Forall_forall in Hx as [_ ?]. }
  split.
  - apply Forall_forall. intros b Hb. apply Hsub in Hb.
    eapply Forall_forall in Hat; [|done]. eapply Forall_forall in Hauth as [Hd _]; [|done].
    unfold delim, mem_str in Hd. apply bool_decide_eq_false in Hd.
    split; [by intros ->|]. split_and!; intros ->; apply Hd; set_solver.
  - exists scheme, rest. split_and!; [done| |done]. intros b Hb. apply Hsub in Hb.
    by eapply Forall_forall in Hauth as [_ ?].
Qed.

Lemma parse_head_ok text p r :
  parse_head text p = Ok r →
  method r ∈ METHODS ∧ split_url (url r) = Ok (host r, https r) ∧
  Forall (λ b, b ≠ LF ∧ b ≠ CR) (url r) ∧ Forall (header_ok p) (headers r) ∧
  0 <= content_length r <= MAX_REQUEST_BODY ∧
  (method r = lit "GET" ∨ method r = lit "HEAD" → content_length r = 0).
Proof.
  unfold parse_head. destruct (has_byte _ text) eqn:Hcr; [done|]. apply has_byte_false in Hcr.
  pose proof (split_on_parts (λ b, b =? LF) text) as Hparts.
  destruct (split_on _ text) as [|first lines]; [done|].
  assert (Forall (Forall (λ b, b ≠ LF ∧ b ≠ CR)) (first :: lines)) as Hlines.
  { eapply Forall_impl; [exact Hparts|]. intros l Hl. eapply Forall_impl; [exact Hl|].
    intros b [H1 H2]. eapply Forall_forall in Hcr; [|done]. simpl in *. lia. }
  apply Forall_cons in Hlines as [Hfirst Hlines]. simpl.
  destruct (split_once (lit " ") first) as [[m target]|] eqn:Hs; [|done].
  apply split_once_Some in Hs as [-> _]. apply Forall_app in Hfirst as [_ [_ Htarget]%Forall_app].
  destruct (mem_str m METHODS) eqn:Hm; [|done]. unfold mem_str in Hm. apply bool_decide_eq_true in Hm.
  simpl. intros ([h s] & Hu & (hd & Hhd & Hr)%result_bind_Ok)%result_bind_Ok.
  apply parse_lines_ok in Hhd as [Hh Hlen]; [|done|constructor|done].
  destruct (_ && _) eqn:Hg; [done|]. destruct (Z.ltb_spec MAX_REQUEST_BODY (h_length hd)); [done|].
  injection Hr as <-. simpl. split_and!; try done.
  intros Hgh. apply andb_false_iff in Hg as [Hg|Hg].
  - apply orb_false_iff in Hg as [?%bool_decide_eq_false ?%bool_decide_eq_false]. tauto.
  - lia.
Qed.
End head_lemmas.

(** ** What a connection sends out *)

(** Steps that hand nothing to the HTTP client. *)
Definition sends_none {A} (m : bridge A) : Prop := ∀ x, x_requests (m x).2 = x_requests x.

Lemma sends_none_bind {A B} (m : bridge A) (f : A → bridge B) :
  sends_none m → (∀ a, sends_none (f a)) → sends_none (m ≫= f).
Proof.
  intros Hm Hf x. unfold mbind, bridge_bind. specialize (Hm x).
  destruct (m x) as [[a|e] x1]; simpl in *; [by rewrite Hf|done].
Qed.

Lemma bridge_bind_Ok {A B} (m : bridge A) (f : A → bridge B) x a x' :
  m x = (Ok a, x') → (m ≫= f) x = f a x'.
Proof. unfold mbind, bridge_bind. by intros ->. Qed.

Lemma bridge_bind_Err {A B} (m : bridge A) (f : A → bridge B) x e x' :
  m x = (Err e, x') → (m ≫= f) x = (Err e, x').
Proof. unfold mbind, bridge_bind. by intros ->. Qed.

Lemma sends_none_read_head : sends_none read_head.
Proof. intros x. unfold read_head. by destruct (read_head_loop [] (x_reads x)). Qed.

Lemma sends_none_read_body rest n : sends_none (read_body rest n).
Proof.
  intros x. unfold read_body. destruct (_ <? _); [done|].
  by destruct (read_body_loop _ _ _).
Qed.

Lemma sends_none_write bytes : sends_none (write bytes).
Proof. intros x. unfold write, write_stream. by destruct (x_writes x) as [|[[k e]|] w]. Qed.

Lemma sends_none_throw {A} k m : sends_none (throw (A:=A) k m).
Proof. done. Qed.

Lemma sends_none_body pieces : sends_none (write_body pieces).
Proof.
  induction pieces as [|[[|b bs]|e] pieces IH]; simpl; try done.
  apply sends_none_bind; [|done]. apply sends_none_bind; [apply sends_none_write|].
  intros _. apply sends_none_write.
Qed.

Lemma sends_one_bind {B} v o (f : unit → bridge B) x :
  (∀ a, sends_none (f a)) →
  x_requests ((modify (log_request v o) ≫= f) x).2 = x_requests x ++ [(v, o)].
Proof. intros Hf. unfold mbind, bridge_bind, modify. by rewrite Hf. Qed.

Lemma sends_none_modify f : (∀ x, x_requests (f x) = x_requests x) → sends_none (modify f).
Proof. done. Qed.

Section connection_lemmas.
Context {LC : Lowercase} {CL : HttpClient}.
Variable asker : option (str → bool).

(** What is true of a request at the moment it is handed to the client. *)
Record released (p : Policy) (v : bool) (o : Outgoing) (text : str) (r : Request) : Prop := {
  rel_parsed : parse_head text p = Ok r;
  rel_allowed : refused asker p r = None;
  rel_verify : v = negb (https r && (skip_tls_verify p || negb (verify_tls r)));
  rel_secrets : https r = true → verify_tls r = false → skip_tls_verify p = false →
    secrets_for p (https r) (host r) = [];
  rel_method : o_method o = method r;
  rel_url : o_url o = url r;
  rel_headers : o_headers o = outgoing_headers r (secrets_for p (https r) (host r));
}.

Lemma exchange_requests p x :
  x_requests (exchange asker p x).2 = x_requests x ∨
  ∃ v o text r, x_requests (exchange asker p x).2 = x_requests x ++ [(v, o)] ∧ released p v o text r.
Proof.
  unfold exchange. pose proof (sends_none_read_head x) as Hx1.
  destruct (read_head x) as [[[text rest]|e] x1] eqn:E1; simpl in Hx1;
    [|left; by rewrite (bridge_bind_Err _ _ _ _ _ E1)].
  rewrite (bridge_bind_Ok _ _ _ _ _ E1). cbv beta iota. rewrite <-Hx1. clear E1 Hx1 x.
  destruct (parse_head text p) as [r|e] eqn:Hr; [|left; done].
  rewrite (bridge_bind_Ok (lift (Ok r)) _ x1 r x1) by done. cbv beta zeta.
  rewrite (bridge_bind_Ok (modify _) _ x1 tt _ eq_refl). set (x2 := set_seen _ _ _ x1).
  change (x_requests x1) with (x_requests x2). clearbody x2.
  pose proof (sends_none_read_body rest (content_length r) x2) as Hx3.
  destruct (read_body rest (content_length r) x2) as [[body|e] x3] eqn:E3; simpl in Hx3;
    [|left; by rewrite (bridge_bind_Err _ _ _ _ _ E3)].
  rewrite (bridge_bind_Ok _ _ _ _ _ E3). cbv beta iota. rewrite <-Hx3. clear E3 Hx3 x2.
  destruct (refused asker p r) as [reason|] eqn:Href; [by left|].
  set (ss := secrets_for p (https r) (host r)).
  destruct (https r && negb (verify_tls r) && negb (skip_tls_verify p) && _) eqn:Hg; [by left|].
  set (out := mk_outgoing _ _ _ _). destruct (build out) as [[]|e]; [|by left].
  right. exists (negb (https r && (skip_tls_verify p || negb (verify_tls r)))), out, text, r.
  split.
  - apply sends_one_bind. intros _.
    destruct (run _ out) as [resp|[ph|e]]; [|by apply sends_none_throw..].
    apply sends_none_bind; [by apply sends_none_modify|]. intros _.
    apply sends_none_bind; [apply sends_none_write|]. intros _.
    apply sends_none_bind; [by apply sends_none_modify|]. intros _.
    apply sends_none_bind; [|intros _; apply sends_none_write].
    destruct (bool_decide (method r = _)); [done|apply sends_none_body].
  - split; try done. intros H1 H2 H3. fold ss. rewrite H1, H2, H3 in Hg. simpl in Hg.
    apply negb_false_iff, bool_decide_eq_true in Hg. done.
Qed.

Lemma handle_requests p x :
  x_requests (handle_connection asker p x) = x_requests (exchange asker p x).2.
Proof.
  unfold handle_connection. destruct (exchange asker p x) as [[u|e] x1]; [done|]. simpl.
  set (x2 := match x_seen x1 with Some _ => _ | None => _ end).
  transitivity (x_requests x2).
  - unfold write_stream. by destruct (x_writes x2) as [|[[k err]|] w].
  - unfold x2. destruct (x_seen x1) as [[m u]|]; [|done]. by destruct (x_blocked x1).
Qed.

(** A request is let through by the lists, or by the app for a host no list names. *)
Lemma refused_None p r :
  refused asker p r = None →
  (∀ rule, rule ∈ deny p → host_matches rule (host r) = false) ∧
  (is_loopback (host r) = true → allow_loopback p = true) ∧
  ((∃ rule, rule ∈ allow p ∧ host_matches rule (host r) = true) ∨
   (ask p = true ∧ ∃ ask_, asker = Some ask_ ∧
      ask_ (host r ++ lit ":" ++ if https r then lit "443" else lit "80") = true)).
Proof.
  unfold refused. destruct (refuses p (host r)) as [reason|] eqn:Href.
  - destruct asker as [ask_|]; [|done]. destruct (ask p && unlisted p (host r)) eqn:Hu; [|done].
    apply andb_true_iff in Hu as [Ha (Hl & Hd & _)%unlisted_spec].
    destruct (ask_ _) eqn:Hk; [|done]. intros _. rewrite Hl.
    split; [by apply deny_rule_None|]. split; [done|]. right. eauto.
  - intros _. apply refuses_None in Href as (Hl & Hd & Hal).
    split; [by apply deny_rule_None|]. split; [done|]. left. by apply allowed_spec.
Qed.
End connection_lemmas.

(** ** Framing *)

Lemma read_head_loop_ok buffer reads text rest reads' :
  read_head_loop buffer reads = (Ok (text, rest), reads') →
  ∃ pieces, reads = (Ok <$> pieces) ++ reads' ∧ buffer ++ concat pieces = text ++ [LF; LF] ++ rest ∧
    utf8_valid text = true ∧
    ∀ l r, buffer ++ concat pieces = l ++ [LF; LF] ++ r → (length text ≤ length l)%nat.
Proof.
  assert (∀ buffer reads, split_once [LF; LF] buffer = None ∨ ∃ t r, split_once [LF; LF] buffer = Some (t, r)
    ∧ read_head_loop buffer reads = (if utf8_valid t then Ok (t, r)
       else fail BadRequest (lit "request head is not valid UTF-8"), reads)) as Hstep.
  { intros b rs. destruct (split_once [LF; LF] b) as [[t r]|] eqn:E; [right|by left].
    exists t, r. split; [done|]. destruct rs; simpl; by rewrite E. }
  revert buffer; induction reads as [|o reads IH]; intros buffer H;
    (destruct (Hstep buffer reads) as [Hn|(t & r & Hs & _)] ||
     destruct (Hstep buffer []) as [Hn|(t & r & Hs & _)]); simpl in H.
  - rewrite Hn in H. by destruct (_ <? _).
  - rewrite Hs in H. destruct (utf8_valid t) eqn:Hu; [|done]. injection H as <- <- <-.
    apply split_once_Some in Hs as [Hb Hf]. exists []. simpl. rewrite app_nil_r. by split_and!.
  - rewrite Hn in H. destruct (_ <? _); [done|]. destruct o as [[|b bs]|e]; [done| |done].
    destruct (IH _ H) as (pieces & -> & Hc & Hu & Hf). exists ((b :: bs) :: pieces).
    simpl. rewrite <-app_assoc in Hc, Hf. by split_and!.
  - rewrite Hs in H. destruct (utf8_valid t) eqn:Hu; [|done]. injection H as <- <- <-.
    apply split_once_Some in Hs as [Hb Hf]. exists []. simpl. rewrite app_nil_r. by split_and!.
Qed.

Lemma read_head_loop_complete buffer pieces more l r :
  buffer ++ concat pieces = l ++ [LF; LF] ++ r → Forall (λ p, p ≠ []) pieces →
  Z.of_nat (length l) < MAX_HEAD_BYTES →
  (read_head_loop buffer ((Ok <$> pieces) ++ more)).1 =
    fail BadRequest (lit "request head is not valid UTF-8") ∨
  ∃ text rest reads,
    read_head_loop buffer ((Ok <$> pieces) ++ more) = (Ok (text, rest), reads).
Proof.
  intros E Hne Hl. revert buffer E Hne. induction pieces as [|pc pieces IH]; intros buffer E Hne;
    destruct (split_once [LF; LF] buffer) as [[t u]|] eqn:Hs.
  - destruct (utf8_valid t) eqn:Hu; [right|left].
    + exists t, u, more. destruct more; simpl; by rewrite Hs, Hu.
    + destruct more; simpl; by rewrite Hs, Hu.
  - exfalso. simpl in E. rewrite app_nil_r in E. by apply (proj1 (split_once_None _ _) Hs l r).
  - simpl. rewrite Hs. destruct (utf8_valid t); [right; eauto|by left].
  - apply Forall_cons in Hne as [Hpc Hne]. simpl. rewrite Hs.
    assert (length buffer ≤ length l + 1)%nat as Hb.
    { destruct (prefix_weak_total (l ++ [LF; LF]) buffer (buffer ++ concat (pc :: pieces)))
        as [[k Hk]|[k Hk]].
      - exists r. by rewrite E, <-app_assoc.
      - by apply prefix_app_r.
      - exfalso. apply (proj1 (split_once_None _ _) Hs l k). by rewrite Hk, <-app_assoc.
      - destruct k as [|b k].
        + exfalso. apply (proj1 (split_once_None _ _) Hs l []). rewrite app_nil_r in *. done.
        + apply (f_equal length) in Hk. rewrite !length_app in Hk. simpl in Hk. lia. }
    destruct (Z.ltb_spec MAX_HEAD_BYTES (Z.of_nat (length buffer))); [lia|].
    destruct pc as [|b bs]; [done|]. apply IH; [|done]. by rewrite <-app_assoc.
Qed.

Lemma read_body_loop_ok n body reads out reads' :
  read_body_loop n body reads = (Ok out, reads') → Z.of_nat (length body) <= n →
  ∃ pieces, reads = (Ok <$> pieces) ++ reads' ∧ out = body ++ concat pieces ∧
    n <= Z.of_nat (length out).
Proof.
  revert body; induction reads as [|o reads IH]; intros body; simpl;
    destruct (Z.leb_spec n (Z.of_nat (length body))); try done.
  - intros [= <- <-] _. exists []. simpl. by rewrite app_nil_r.
  - intros [= <- <-] _. exists []. simpl. by rewrite app_nil_r.
  - destruct o as [[|b bs]|e]; [done| |done]. intros Hr Hle.
    destruct (decide (Z.of_nat (length (body ++ b :: bs)) <= n)) as [Hc|Hc].
    + destruct (IH _ Hr Hc) as (pieces & -> & -> & Hn). exists ((b :: bs) :: pieces).
      simpl. by rewrite <-app_assoc in *.
    + destruct reads as [|o reads]; simpl in Hr;
        (destruct (Z.leb_spec n (Z.of_nat (length (body ++ b :: bs)))); [|lia]);
        injection Hr as <- <-; exists [b :: bs]; simpl; by rewrite app_nil_r.
Qed.

(** *** The body of an answer *)

(** How the guest reads it: chunks of announced length up to the empty one, then the rest. *)
Definition hex_val (s : str) : Z :=
  foldl (λ acc b, acc * 16 + (if b <? 58 then b - 48 else b - 87)) 0 s.

Fixpoint decode_chunks (fuel : nat) (s : list Z) : option (list Z * list Z) :=
  match fuel with
  | O => None
  | S fuel =>
      '(len, rest) ← split_once [LF] s;
      let n := Z.to_nat (hex_val len) in
      if bool_decide (n = 0%nat) then Some ([], rest)
      else if bool_decide (length rest < n)%nat then None
      else '(body, trailer) ← decode_chunks fuel (drop n rest);
           Some (take n rest ++ body, trailer)
  end.

Definition encode_chunks (pieces : list (list Z)) : list Z :=
  concat ((λ p, hex (Z.of_nat (length p)) ++ [LF] ++ p) <$> pieces).

Lemma hex_val_snoc s b : hex_val (s ++ [b]) = hex_val s * 16 + (if b <? 58 then b - 48 else b - 87).
Proof. unfold hex_val. by rewrite foldl_app. Qed.

Lemma hex_char_val d : 0 <= d < 16 →
  (if hex_char d <? 58 then hex_char d - 48 else hex_char d - 87) = d ∧ hex_char d ≠ LF.
Proof.
  intros Hd. unfold hex_char, LF. destruct (Z.ltb_spec d 10).
  - destruct (Z.ltb_spec (48 + d) 58); lia.
  - destruct (Z.ltb_spec (87 + d) 58); lia.
Qed.

Lemma hex_digits_val fuel n :
  0 <= n < 16 ^ Z.of_nat fuel →
  hex_val (hex_digits fuel n) = n ∧ Forall (λ b, b ≠ LF) (hex_digits fuel n).
Proof.
  revert n; induction fuel as [|fuel IH]; intros n Hn; [simpl in Hn; split; [unfold hex_val; simpl; lia|constructor]|].
  rewrite Nat2Z.inj_succ, Z.pow_succ_r in Hn by lia. simpl. destruct (Z.ltb_spec n 16).
  - destruct (hex_char_val n ltac:(lia)) as [H1 H2]. split; [|by repeat constructor].
    change [hex_char n] with ([] ++ [hex_char n]). by rewrite hex_val_snoc.
  - destruct (IH (n / 16)) as [H1 H2]; [split; [apply Z.div_pos; lia|apply Z.div_lt_upper_bound; lia]|].
    destruct (hex_char_val (n mod 16)) as [H3 H4]; [apply Z.mod_pos_bound; lia|].
    rewrite hex_val_snoc, H1, H3. split; [rewrite (Z.div_mod n 16) at 3 by lia; lia|].
    apply Forall_app. split; [done|]. by repeat constructor.
Qed.

Lemma split_once_line l r : Forall (λ b, b ≠ LF) l → split_once [LF] (l ++ [LF] ++ r) = Some (l, r).
Proof.
  assert (∀ b l, starts_with [LF] (b :: l) = true ↔ b = LF) as Hsw.
  { intros b l'. rewrite starts_with_spec. split; [by intros [k [= ->]]|]. intros ->. by exists l'. }
  induction 1 as [|b l Hb Hl IH]; cbn [app split_once].
  - by rewrite (proj2 (Hsw LF r) eq_refl).
  - destruct (starts_with [LF] (b :: l ++ LF :: r)) eqn:E; [by apply Hsw in E|].
    cbn [app] in IH. by rewrite IH.
Qed.

Lemma decode_encode pieces trailer fuel :
  Forall (λ p, p ≠ [] ∧ Z.of_nat (length p) < 4294967296) pieces → (length pieces < fuel)%nat →
  decode_chunks fuel (encode_chunks pieces ++ lit "0" ++ [LF] ++ trailer) =
    Some (concat pieces, trailer).
Proof.
  intros Hp. revert fuel. induction Hp as [|p pieces [Hne Hlen] Hp IH]; intros [|fuel] Hf; try (simpl in Hf; lia).
  - change (encode_chunks []) with ([] : list Z). rewrite app_nil_l. cbn [decode_chunks].
    rewrite (split_once_line (lit "0")); [done|]. by repeat constructor.
  - change (encode_chunks (p :: pieces)) with
      ((hex (Z.of_nat (length p)) ++ [LF] ++ p) ++ encode_chunks pieces).
    rewrite <-!app_assoc. cbn [decode_chunks].
    destruct (hex_digits_val 16 (Z.of_nat (length p))) as [Hv Hl]; [simpl; lia|].
    rewrite split_once_line by done. simpl mbind. unfold hex. rewrite Hv, Nat2Z.id.
    rewrite bool_decide_false by (destruct p; done).
    rewrite bool_decide_false by (rewrite length_app; lia).
    rewrite drop_app_length, take_app_length, IH by (simpl in Hf; lia). done.
Qed.

(** Writes that do not fail put everything out in order. *)
Lemma write_ok bytes x :
  Forall (λ w, w = None) (x_writes x) →
  ∃ w, Forall (λ w, w = None) w ∧ write bytes x = (Ok tt, set_sent w (x_sent x ++ bytes) x).
Proof.
  intros Hw. unfold write, write_stream. destruct (x_writes x) as [|o w]; [by exists []|].
  apply Forall_cons in Hw as [-> Hw]. by exists w.
Qed.

Lemma write_body_ok pieces x :
  Forall (λ w, w = None) (x_writes x) → Forall (λ p, p ≠ []) pieces →
  ∃ x', write_body (Ok <$> pieces) x = (Ok tt, x') ∧ Forall (λ w, w = None) (x_writes x') ∧
    x_sent x' = x_sent x ++ encode_chunks pieces.
Proof.
  intros Hw Hp. revert x Hw. induction Hp as [|p pieces Hne Hp IH]; intros x Hw.
  - exists x. unfold encode_chunks. simpl. by rewrite app_nil_r.
  - destruct p as [|b bs]; [done|]. cbn [fmap list_fmap write_body].
    destruct (write_ok (hex (Z.of_nat (length (b :: bs))) ++ [LF]) x Hw) as (w1 & Hw1 & E1).
    set (x1 := set_sent w1 _ x) in E1.
    destruct (write_ok (b :: bs) x1 Hw1) as (w2 & Hw2 & E2). set (x2 := set_sent w2 _ x1) in E2.
    destruct (IH x2 Hw2) as (x' & Hx' & Hwx & Hs). exists x'. split_and!; [|done|].
    + rewrite (bridge_bind_Ok _ _ _ tt x2); [done|]. unfold write_chunk.
      by rewrite (bridge_bind_Ok _ _ _ tt x1).
    + rewrite Hs. unfold x2, x1. simpl. unfold encode_chunks. simpl. by rewrite <-!app_assoc.
Qed.

(** ** Properties of the HTTP API *)

(** C18: nothing goes out that the policy forbids: one connection hands the client at most one
    request, whose host no deny rule matches, which is this computer only if the app allows that,
    and which an allow rule matches unless the app was asked and said yes. *)
Theorem http_request_authorized {LC : Lowercase} {CL : HttpClient} asker p reads writes v o :
  (v, o) ∈ x_requests (handle_connection asker p (exchange_new reads writes)) →
  x_requests (handle_connection asker p (exchange_new reads writes)) = [(v, o)] ∧
  ∃ text r, parse_head text p = Ok r ∧ o_method o = method r ∧ o_url o = url r ∧
    (∀ rule, rule ∈ deny p → host_matches rule (host r) = false) ∧
    (is_loopback (host r) = true → allow_loopback p = true) ∧
    ((∃ rule, rule ∈ allow p ∧ host_matches rule (host r) = true) ∨
     (ask p = true ∧ ∃ ask_, asker = Some ask_ ∧
        ask_ (host r ++ lit ":" ++ if https r then lit "443" else lit "80") = true)).
Proof.
  rewrite handle_requests.
  destruct (exchange_requests asker p (exchange_new reads writes)) as [->|(v' & o' & t & r & -> & Hr)].
  { simpl. by intros ?%not_elem_of_nil. }
  simpl. intros Ho%list_elem_of_singleton. injection Ho as <- <-. split; [done|]. exists t, r.
  do 3 (split; [apply Hr|]). apply refused_None, Hr.
Qed.

(** C19: the app's secrets are guarded up to the request the client is handed: they are added only to an
    https request for a host they are meant for, its certificate checked unless the app itself turned
    the check off; and a header a secret sets never comes from the guest. What the client, which is told
    to follow at most ten redirects, repeats of a request at the place a redirect names is its own
    matter, and neither the policy nor the secrets' hosts are asked again: [redirect_carries_secret]. *)
Theorem http_secrets_guarded {LC : Lowercase} {CL : HttpClient} asker p reads writes v o :
  (∀ c o, length (redirects c o) ≤ max_redirects c)%nat →
  (v, o) ∈ x_requests (handle_connection asker p (exchange_new reads writes)) →
  (length (redirects (agent v) o) ≤ 10)%nat ∧ disable_verification (agent v) = negb v ∧
  ∃ text r, parse_head text p = Ok r ∧
    let ss := secrets_for p (https r) (host r) in
    o_headers o = outgoing_headers r ss ∧
    ∀ s, s ∈ ss →
      https r = true ∧ (v = true ∨ skip_tls_verify p = true) ∧
      host_matches (sec_host s) (host r) = true ∧ (sec_header s, sec_value s) ∈ o_headers o ∧
      ∀ value, (sec_header s, value) ∈ o_headers o →
        ∃ s', s' ∈ ss ∧ sec_header s' = sec_header s ∧ sec_value s' = value.
Proof.
  intros Hmax Hin. split_and!; [apply (Hmax (agent v) o)|done|]. revert Hin. rewrite handle_requests.
  destruct (exchange_requests asker p (exchange_new reads writes)) as [->|(v' & o' & t & r & -> & Hr)].
  { simpl. by intros ?%not_elem_of_nil. }
  simpl. intros Ho%list_elem_of_singleton. injection Ho as <- <-. exists t, r. split; [apply Hr|]. cbv zeta.
  destruct Hr as [_ _ Hv Hg _ _ Hh]. split; [done|]. intros s Hs.
  destruct (secrets_for_spec _ _ _ _ Hs) as (Hhttps & Hm & _). rewrite Hh.
  split_and!; [done| |done| |].
  - rewrite Hhttps in Hv, Hg. destruct (skip_tls_verify p); [by right|]. left. subst v.
    destruct (verify_tls r); [done|]. rewrite Hhttps in Hs. rewrite Hg in Hs by done.
    by apply not_elem_of_nil in Hs.
  - apply elem_of_app. right. apply list_elem_of_fmap. by exists s.
  - intros value [Hv'|Hv']%elem_of_app.
    + apply list_elem_of_filter in Hv' as [Hn _]. simpl in Hn. exfalso.
      rewrite <-not_true_iff_false, existsb_exists in Hn. apply Hn. exists s.
      split; [by apply list_elem_of_In|by apply bool_decide_eq_true].
    + apply list_elem_of_fmap in Hv' as (s' & [= E1 E2] & Hs'). by exists s'.
Qed.

(** An accepted request head is safe to forward: a supported method, a non-empty host taken
    from the URL's authority with no credentials, [https] exactly for that scheme, headers that are
    valid tokens the policy allows with no line end or NUL in their values, and a body length
    within the limit, zero for GET and HEAD. *)
Lemma http_head_checked {LC : Lowercase} text p r :
  parse_head text p = Ok r →
  method r ∈ METHODS ∧ Forall (header_ok p) (headers r) ∧
  Forall (λ b, b ≠ LF ∧ b ≠ CR) (url r) ∧
  0 <= content_length r <= MAX_REQUEST_BODY ∧
  (method r = lit "GET" ∨ method r = lit "HEAD" → content_length r = 0) ∧
  host r ≠ [] ∧ Forall (λ b, b ≠ chr "@" ∧ b ≠ chr "/" ∧ b ≠ chr "?" ∧ b ≠ chr "#") (host r) ∧
  ∃ scheme rest, url r = scheme ++ lit "://" ++ rest ∧ (∀ b, b ∈ host r → b ∈ rest) ∧
    to_lowercase scheme = if https r then lit "https" else lit "http".
Proof.
  intros (H1 & H2 & H3 & H4 & H5 & H6)%parse_head_ok. apply split_url_ok in H2 as (H7 & H8 & H9). tauto.
Qed.

(** A failure is told in exactly one line, whatever its message holds, with no secret in it:
    the message cannot forge protocol lines or carry a key back to the guest. *)
Lemma http_error_line p e s :
  s ∈ secrets p ++ addon_secrets p → redactable (sec_value s) →
  ∃ line, error_reply p e false = lit "ERROR " ++ kind_text (kind e) ++ lit ": " ++ line ++ [LF] ∧
    error_reply p e true = lit "0" ++ [LF] ++ error_reply p e false ∧
    Forall (λ b, b ≠ LF ∧ b ≠ CR ∧ b ≠ 0) line ∧ ¬ occurs (sec_value s) line.
Proof.
  intros Hin Hs. exists (redact p (one_line (message e))). split_and!; [done|done| |].
  - apply redact_bytes; [apply one_line_bytes|]. by repeat constructor.
  - by apply redact_hides.
Qed.

(** Reading a request does not depend on how its bytes arrive: a head that is returned is what
    precedes the first blank line of the bytes read, with what followed kept for the body; a head
    that ends within 16 KiB is always found, unless it is not UTF-8; and the body is the next
    bytes, at least as many as announced. *)
Lemma http_request_framing pieces more l r n body :
  concat pieces = l ++ [LF; LF] ++ r → Forall (λ p, p ≠ []) pieces →
  Z.of_nat (length l) < MAX_HEAD_BYTES → Z.of_nat (length body) <= n →
  ((read_head_loop [] ((Ok <$> pieces) ++ more)).1 =
     fail BadRequest (lit "request head is not valid UTF-8") ∨
   ∃ text rest used reads',
     read_head_loop [] ((Ok <$> pieces) ++ more) = (Ok (text, rest), reads') ∧
     (Ok <$> pieces) ++ more = (Ok <$> used) ++ reads' ∧
     concat used = text ++ [LF; LF] ++ rest ∧ ¬ occurs [LF; LF] text) ∧
  ∀ reads out reads', read_body_loop n body reads = (Ok out, reads') →
    ∃ used, reads = (Ok <$> used) ++ reads' ∧ out = body ++ concat used ∧ n <= Z.of_nat (length out).
Proof.
  intros E Hne Hl Hb. split; [|by intros reads out reads' Hr; apply read_body_loop_ok].
  destruct (read_head_loop_complete [] pieces more l r E Hne Hl) as [H|(t & u & rs & H)]; [by left|].
  right. destruct (read_head_loop_ok _ _ _ _ _ H) as (used & Hu & Hc & _ & Hf).
  exists t, u, used, rs. split_and!; [done..|]. intros (a & b & ->).
  rewrite Hc in Hf. specialize (Hf a (b ++ [LF; LF] ++ u)).
  rewrite !length_app in Hf. simpl in Hf. rewrite <-!app_assoc in Hf. specialize (Hf eq_refl). lia.
Qed.

(** The body of an answer reaches the guest whole: the chunks written for its pieces, read the
    way the protocol says, give back exactly its bytes and then the trailer. *)
Lemma http_body_roundtrip pieces x :
  Forall (λ w, w = None) (x_writes x) →
  Forall (λ p, p ≠ [] ∧ Z.of_nat (length p) < 4294967296) pieces →
  ∃ x' sent, write_body (Ok <$> pieces) x = (Ok tt, x') ∧ x_sent x' = x_sent x ++ sent ∧
    ∀ trailer, decode_chunks (S (length pieces)) (sent ++ lit "0" ++ [LF] ++ trailer) =
      Some (concat pieces, trailer).
Proof.
  intros Hw Hp. destruct (write_body_ok pieces x Hw) as (x' & H1 & _ & H2).
  { eapply Forall_impl; [exact Hp|]. by intros ? []. }
  exists x', (encode_chunks pieces). split_and!; [done..|]. intros t. apply decode_encode; [done|lia].
Qed.

(** ** Witnesses *)

#[local] Existing Instance ascii_lowercase.

(** A client that answers every request with an empty page. *)
#[local] Instance example_client : HttpClient :=
  {| build _ := Ok tt; run _ _ := Ok (mk_response 200 (lit "OK") [] []); redirects _ _ := [] |}.

(** A client that is redirected once, and repeats the headers at the new place but for Authorization. *)
Definition redirected_client : HttpClient :=
  {| build _ := Ok tt; run _ _ := Ok (mk_response 200 (lit "OK") [] []);
     redirects _ o := [{| o_method := o_method o; o_url := lit "http://elsewhere.test/";
                          o_headers := filter (λ h, h.1 ≠ lit "authorization") (o_headers o); o_body := [] |}] |}.

Definition example_policy : Policy :=
  {| allow := [lit "*.allowed.test"]; deny := [lit "blocked.allowed.test"]; allow_loopback := false;
     secrets := [mk_secret (lit "*.allowed.test") (lit "x-api-key") (lit "sk-12345")];
     extra_headers := []; addon_headers := []; addon_secrets := []; ask := false;
     skip_tls_verify := false |}.

Definition example_reads : list (result str (list Z)) :=
  [Ok (lit "GET HTTPS://api.allowed.test/v1" ++ [LF] ++ lit "x-api-key: mine" ++ [LF]);
   Ok (lit "accept: text/plain" ++ [LF; LF])].

Definition example_out : Outgoing :=
  {| o_method := lit "GET"; o_url := lit "HTTPS://api.allowed.test/v1";
     o_headers := [(lit "accept", lit "text/plain"); (lit "x-api-key", lit "sk-12345")];
     o_body := [] |}.

Lemma http_request_authorized_witness :
  x_requests (handle_connection None example_policy (exchange_new example_reads [])) =
  [(true, example_out)].
Proof.
  destruct (http_request_authorized None example_policy example_reads [] true example_out)
    as [H _]; [|exact H].
  apply list_elem_of_singleton. by vm_compute.
Defined.

Lemma http_secrets_guarded_witness :
  ∃ text r, parse_head text example_policy = Ok r ∧
    o_headers example_out = outgoing_headers r (secrets_for example_policy (https r) (host r)).
Proof.
  destruct (http_secrets_guarded None example_policy example_reads [] true example_out)
    as (_ & _ & t & r & H1 & H2 & _).
  - intros c o. simpl. lia.
  - assert (x_requests (handle_connection None example_policy (exchange_new example_reads [])) =
            [(true, example_out)]) as -> by by vm_compute.
    by apply list_elem_of_singleton.
  - by exists t, r.
Defined.

Lemma http_head_checked_witness :
  ∃ r, parse_head (lit "POST http://example.com:8080/a?b" ++ [LF] ++ lit "Content-Length: 5") policy_default
         = Ok r ∧ host r ≠ [] ∧ host r = lit "example.com" ∧ content_length r <= MAX_REQUEST_BODY.
Proof.
  destruct (parse_head (lit "POST http://example.com:8080/a?b" ++ [LF] ++ lit "Content-Length: 5")
    policy_default) as [r|e] eqn:E; [|by vm_compute in E].
  pose proof (http_head_checked _ _ _ E) as (_ & _ & _ & H1 & _ & H2 & _). exists r.
  split_and!; [done|exact H2| |lia]. vm_compute in E. by injection E as <-.
Defined.

Lemma http_error_line_witness :
  ∃ line, error_reply example_policy (mk_bridge_error Network (lit "sk-12345" ++ [LF])) false =
            lit "ERROR " ++ lit "network" ++ lit ": " ++ line ++ [LF] ∧ ¬ occurs (lit "sk-12345") line.
Proof.
  destruct (http_error_line example_policy (mk_bridge_error Network (lit "sk-12345" ++ [LF]))
    (mk_secret (lit "*.allowed.test") (lit "x-api-key") (lit "sk-12345"))) as (line & H1 & _ & _ & H2).
  - by apply list_elem_of_singleton.
  - split_and!; [simpl; lia|by repeat constructor|]. intros (l & r & E%(f_equal length)).
    rewrite !length_app in E. simpl in E. lia.
  - exists line. split; [exact H1|exact H2].
Defined.

(** A head and the start of its body, arriving in the middle of the blank line. *)
Lemma http_request_framing_witness :
  ∃ text rest used left,
    read_head_loop [] [Ok (lit "GET x" ++ [LF]); Ok ([LF] ++ lit "body"); Ok (lit "more")] =
      (Ok (text, rest), left) ∧ concat used = text ++ [LF; LF] ++ rest.
Proof.
  destruct (http_request_framing [lit "GET x" ++ [LF]; [LF] ++ lit "body"] [Ok (lit "more")]
    (lit "GET x") (lit "body") 3 (lit "a")) as [[H|(t & r & u & l & H1 & _ & H2 & _)] _];
    [done|by repeat constructor|done|done|by vm_compute in H|].
  exists t, r, u, l. split; [exact H1|exact H2].
Defined.

Lemma http_body_roundtrip_witness :
  ∃ x' sent, write_body [Ok (lit "hello "); Ok (lit "world")] (exchange_new [] []) = (Ok tt, x') ∧
    x_sent x' = [] ++ sent ∧
    decode_chunks 3 (sent ++ lit "0" ++ [LF] ++ lit "OK") = Some (lit "hello world", lit "OK").
Proof.
  destruct (http_body_roundtrip [lit "hello "; lit "world"] (exchange_new [] []))
    as (x' & sent & H1 & H2 & H3); [constructor|by repeat constructor|].
  exists x', sent. split; [exact H1|]. split; [exact H2|exact (H3 (lit "OK"))].
Defined.

(** Loopback is recognised in dotted-quad form only: the short form of 127.0.0.1 that system
    resolvers accept passes the default policy. *)
Example http_loopback_shorthand :
  refuses policy_default (lit "127.0.0.1") ≠ None ∧ refuses policy_default (lit "127.1") = None.
Proof. by vm_compute. Qed.

(** Through such a client a secret in a header of its own goes on to a host it is not meant for, without
    TLS: no rule of the policy is asked. *)
Example redirect_carries_secret :
  let x := @handle_connection ascii_lowercase redirected_client None example_policy (exchange_new example_reads []) in
  let ask_ o := map (λ h, (o_url o, h)) (o_headers o) in
  mjoin ((λ r, mjoin (ask_ <$> @redirects redirected_client (agent r.1) r.2)) <$> x_requests x) =
    [(lit "http://elsewhere.test/", (lit "accept", lit "text/plain")); (lit "http://elsewhere.test/", (lit "x-api-key", lit "sk-12345"))] ∧
  refuses example_policy (lit "elsewhere.test") ≠ None ∧
  secrets_for example_policy false (lit "elsewhere.test") = [].
Proof. by vm_compute. Qed.
