(* ===== verification/NetStack.v ===== *)
(** * The TCP/IP stack behind virtio-net (engine/src/net.rs)

    The gateway the guest sees: ARP, ICMP echo, DNS and TCP, every connection terminated here and
    proxied to a host socket.  The host side works in threads of its own: a [Thread] in the state is
    one that was started, and the [run_*] operations are what it does when it gets its turn, with
    the outcome of its system call as an argument.  What the operating system and the app see is
    kept in logs: the addresses dialled, the bytes handed to each socket's writer, the events.
    The answers of the resolver and the random numbers to come are lists of the state. *)
From stdpp Require Import strings.
From S2P Require Import Prelude Memory Virtio Buffers NetPacket Str Http.

Local Open Scope Z_scope.

Definition NET_HEADER : nat := 12.
Definition FEATURE_MAC : Z := 32.
Definition MAX_PINGS : Z := 32.

(** [HashMap]'s key of a connection: guest port, address, port. *)
Abbreviation ConnKey := (Z * Ipv4Addr * Z)%type.

Inductive NetEvent : Type :=
  | EvDns (host : str) (addresses : list str) (blocked : bool) (reason : option str)
  | EvConnect (id : Z) (ip : str) (port : Z) (phase : string) (blocked : bool) (reason : option str)
  | EvPing (ip : str) (rtt : option Z) (blocked : bool) (reason : option str).

(** One end of a TCP connection the guest opened.  [to_host] is the channel to the host socket's
    writer thread, [socket] whether the connection holds the socket. *)
Record TcpConn := mk_conn {
  tc_id : Z;
  guest_target : Ipv4Addr;
  guest_port : Z;
  tc_port : Z;
  send_next : Z;
  send_unacked : Z;
  receive_next : Z;
  peer_window : Z;
  outgoing : list Z;
  to_host : option nat;
  socket : bool;
  established : bool;
  host_closed : bool;
  fin_sent : bool;
  guest_finished : bool;
}.

(** The bytes the guest still has room for. *)
Definition sendable (c : TcpConn) : Z :=
  let in_flight := u32 (send_next c - send_unacked c) in
  Z.min (sat_sub (peer_window c) in_flight) (Z.of_nat (length (outgoing c))).

(** A segment to the guest, before it is put in a frame. *)
Record OutSegment := mk_out {
  out_sequence : Z;
  out_acknowledged : Z;
  out_flags : Z;
  out_window : Z;
  out_data : list Z;
}.

Definition frame_of (c : TcpConn) (o : OutSegment) : list Z :=
  tcp_segment (guest_target c) (guest_port c) (tc_port c) (out_sequence o) (out_acknowledged o)
    (out_flags o) (out_window o) (out_data o).

(** ** One connection *)

Definition with_send (c : TcpConn) (next unacked : Z) (out : list Z) (fin : bool) : TcpConn :=
  {| tc_id := tc_id c; guest_target := guest_target c; guest_port := guest_port c;
     tc_port := tc_port c; send_next := next; send_unacked := unacked;
     receive_next := receive_next c; peer_window := peer_window c; outgoing := out;
     to_host := to_host c; socket := socket c; established := established c;
     host_closed := host_closed c; fin_sent := fin; guest_finished := guest_finished c |}.

Definition with_receive (c : TcpConn) (next : Z) (channel : option nat) (finished : bool) : TcpConn :=
  {| tc_id := tc_id c; guest_target := guest_target c; guest_port := guest_port c;
     tc_port := tc_port c; send_next := send_next c; send_unacked := send_unacked c;
     receive_next := next; peer_window := peer_window c; outgoing := outgoing c;
     to_host := channel; socket := socket c; established := established c;
     host_closed := host_closed c; fin_sent := fin_sent c; guest_finished := finished |}.

Definition with_window (c : TcpConn) (w : Z) : TcpConn :=
  {| tc_id := tc_id c; guest_target := guest_target c; guest_port := guest_port c;
     tc_port := tc_port c; send_next := send_next c; send_unacked := send_unacked c;
     receive_next := receive_next c; peer_window := w; outgoing := outgoing c;
     to_host := to_host c; socket := socket c; established := established c;
     host_closed := host_closed c; fin_sent := fin_sent c; guest_finished := guest_finished c |}.

Definition with_host_closed (c : TcpConn) : TcpConn :=
  {| tc_id := tc_id c; guest_target := guest_target c; guest_port := guest_port c;
     tc_port := tc_port c; send_next := send_next c; send_unacked := send_unacked c;
     receive_next := receive_next c; peer_window := peer_window c; outgoing := outgoing c;
     to_host := to_host c; socket := socket c; established := established c;
     host_closed := true; fin_sent := fin_sent c; guest_finished := guest_finished c |}.

(** An acknowledgement of something in flight. *)
Definition take_ack (c : TcpConn) (s : Segment) : TcpConn :=
  if negb (Z.land (flags s) ACK =? 0) then
    let acked := u32 (acknowledged s - send_unacked c) in
    if (0 <? acked) && (acked <=? u32 (send_next c - send_unacked c))
    then with_send c (send_next c) (acknowledged s) (outgoing c) (fin_sent c)
    else c
  else c.

(** Data that continues where the last left off; the bytes that go to the writer, if any. *)
Definition take_data (c : TcpConn) (s : Segment) : TcpConn * list Z :=
  if negb (bool_decide (data s = [])) && (sequence s =? receive_next c) then
    (with_receive c (u32 (receive_next c + Z.of_nat (length (data s)))) (to_host c) (guest_finished c),
     if bool_decide (is_Some (to_host c)) then data s else [])
  else (c, []).

Definition take_fin (c : TcpConn) (s : Segment) : TcpConn :=
  if negb (Z.land (flags s) FIN =? 0) &&
     (u32 (sequence s + Z.of_nat (length (data s))) =? receive_next c)
  then with_receive c (u32 (receive_next c + 1)) None true
  else c.

(** A segment that is neither a SYN nor a reset: the connection and what the writer gets. *)
Definition take_segment (c : TcpConn) (s : Segment) : TcpConn * list Z :=
  let c := take_ack (with_window c (window s)) s in
  let '(c, bytes) := take_data c s in
  (take_fin c s, bytes).

(** The loop of [flush] over the data that fits the window; each turn sends at least a byte. *)
Fixpoint send_data (turns : nat) (c : TcpConn) : TcpConn * list OutSegment :=
  match turns with
  | O => (c, [])
  | S turns =>
      if 0 <? sendable c then
        let take_ := Z.to_nat (Z.min (sendable c) MAX_SEGMENT) in
        let data := take take_ (outgoing c) in
        let o := mk_out (send_next c) (receive_next c) (Z.lor ACK PSH) WINDOW data in
        let '(c, os) := send_data turns
          (with_send c (u32 (send_next c + Z.of_nat (length data))) (send_unacked c)
             (drop take_ (outgoing c)) (fin_sent c)) in
        (c, o :: os)
      else (c, [])
  end.

(** One connection's turn in [flush]: what it sends, and whether it is over.  [first] says that no
    frame has been made yet. *)
Definition flush_conn (c : TcpConn) (first acknowledge : bool) : TcpConn * list OutSegment * bool :=
  let '(c, os) := send_data (length (outgoing c)) c in
  let '(c, os) :=
    if host_closed c && bool_decide (outgoing c = []) && negb (fin_sent c) then
      (with_send c (u32 (send_next c + 1)) (send_unacked c) (outgoing c) true,
       os ++ [mk_out (send_next c) (receive_next c) (Z.lor ACK FIN) WINDOW []])
    else if acknowledge && first && bool_decide (os = []) then
      (c, os ++ [mk_out (send_next c) (receive_next c) ACK WINDOW []])
    else (c, os) in
  (c, os, fin_sent c && guest_finished c && (send_unacked c =? send_next c)).

(** ** The stack *)

(** Threads the stack started. *)
Inductive Thread : Type :=
  | TAsk (key : ConnKey) (id sequence : Z) (what : str) (address : Ipv4Addr)
  | TConnect (key : ConnKey) (address : Ipv4Addr * Z)
  | TRead (key : ConnKey)
  | TPing (destination : Ipv4Addr) (request : list Z).

Inductive IpAddr : Type :=
  | V4 (ip : Ipv4Addr)
  | V6.

Record Stack := mk_stack {
  st_policy : Policy;
  has_asker : bool;
  has_interceptor : bool;
  pending : list (list Z);
  st_conns : gmap ConnKey TcpConn;
  resolved : gmap Ipv4Addr (list str);
  next_id : Z;
  pings : Z;
  threads : list Thread;
  lookups : list (result str (list IpAddr));
  randoms : list Z;
  channels : list (list Z);
  dials : list (Ipv4Addr * Z * bool);
  events : list NetEvent;
}.

Definition stack_new (p : Policy) (asker interceptor : bool)
    (lookups : list (result str (list IpAddr))) (randoms : list Z) : Stack :=
  mk_stack p asker interceptor [] ∅ ∅ 1 0 [] lookups randoms [] [] [].

Definition with_pending (s : Stack) (f : list (list Z)) : Stack :=
  mk_stack (st_policy s) (has_asker s) (has_interceptor s) f (st_conns s) (resolved s) (next_id s)
    (pings s) (threads s) (lookups s) (randoms s) (channels s) (dials s) (events s).
Definition with_conns (s : Stack) (m : gmap ConnKey TcpConn) : Stack :=
  mk_stack (st_policy s) (has_asker s) (has_interceptor s) (pending s) m (resolved s) (next_id s)
    (pings s) (threads s) (lookups s) (randoms s) (channels s) (dials s) (events s).
Definition with_resolved (s : Stack) (r : gmap Ipv4Addr (list str)) : Stack :=
  mk_stack (st_policy s) (has_asker s) (has_interceptor s) (pending s) (st_conns s) r (next_id s)
    (pings s) (threads s) (lookups s) (randoms s) (channels s) (dials s) (events s).
Definition with_next_id (s : Stack) (n : Z) : Stack :=
  mk_stack (st_policy s) (has_asker s) (has_interceptor s) (pending s) (st_conns s) (resolved s) n
    (pings s) (threads s) (lookups s) (randoms s) (channels s) (dials s) (events s).
Definition with_pings (s : Stack) (n : Z) : Stack :=
  mk_stack (st_policy s) (has_asker s) (has_interceptor s) (pending s) (st_conns s) (resolved s)
    (next_id s) n (threads s) (lookups s) (randoms s) (channels s) (dials s) (events s).
Definition with_threads (s : Stack) (t : list Thread) : Stack :=
  mk_stack (st_policy s) (has_asker s) (has_interceptor s) (pending s) (st_conns s) (resolved s)
    (next_id s) (pings s) t (lookups s) (randoms s) (channels s) (dials s) (events s).
Definition with_lookups (s : Stack) (l : list (result str (list IpAddr))) : Stack :=
  mk_stack (st_policy s) (has_asker s) (has_interceptor s) (pending s) (st_conns s) (resolved s)
    (next_id s) (pings s) (threads s) l (randoms s) (channels s) (dials s) (events s).
Definition with_randoms (s : Stack) (r : list Z) : Stack :=
  mk_stack (st_policy s) (has_asker s) (has_interceptor s) (pending s) (st_conns s) (resolved s)
    (next_id s) (pings s) (threads s) (lookups s) r (channels s) (dials s) (events s).
Definition with_channels (s : Stack) (c : list (list Z)) : Stack :=
  mk_stack (st_policy s) (has_asker s) (has_interceptor s) (pending s) (st_conns s) (resolved s)
    (next_id s) (pings s) (threads s) (lookups s) (randoms s) c (dials s) (events s).
Definition dial (s : Stack) (d : Ipv4Addr * Z * bool) : Stack :=
  mk_stack (st_policy s) (has_asker s) (has_interceptor s) (pending s) (st_conns s) (resolved s)
    (next_id s) (pings s) (threads s) (lookups s) (randoms s) (channels s) (dials s ++ [d]) (events s).
Definition net_report (s : Stack) (e : NetEvent) : Stack :=
  mk_stack (st_policy s) (has_asker s) (has_interceptor s) (pending s) (st_conns s) (resolved s)
    (next_id s) (pings s) (threads s) (lookups s) (randoms s) (channels s) (dials s) (events s ++ [e]).

Definition net_send (s : Stack) (frame : list Z) : Stack := with_pending s (pending s ++ [frame]).
Definition spawn (s : Stack) (t : Thread) : Stack := with_threads s (threads s ++ [t]).

Definition kernel_arguments : list str :=
  [lit "collabo.ip=" ++ ip_string GUEST; lit "collabo.gw=" ++ ip_string GATEWAY].

(** What to do with a connection the guest opens. *)
Inductive Decision : Type :=
  | Allow
  | Refuse (reason : str)
  | Ask (what : str).

Section stack.
Context {LC : Lowercase}.

(** May the guest reach [address] (really [target]) on [port]; no port is a ping. *)
Definition decide_address (s : Stack) (address target : Ipv4Addr) (port : option Z) : Decision :=
  let p := st_policy s in
  if NetPacket.is_loopback target then
    if allow_loopback p then Allow
    else Refuse (lit "the host's own services (192.0.2.1 = its localhost) are not allowed")
  else
    let names := default [] (resolved s !! address) in
    if existsb (λ name, bool_decide (refuses_host p name = None)) names then Allow
    else
      let ip := ip_string address in
      match refuses_host p ip with
      | None => Allow
      | Some reason =>
          let unlisted_host :=
            if ask p && has_asker s then
              match names with
              | [] => if unlisted p ip then Some ip else None
              | _ => find (λ name, unlisted p name) names
              end
            else None in
          match unlisted_host with
          | Some host =>
              Ask (match port with
                   | Some port => host ++ lit ":" ++ decimal port
                   | None => host ++ lit " (ping)"
                   end)
          | None =>
              Refuse (match names with
                      | name :: _ => default reason (refuses_host p name)
                      | [] => ip ++ lit " was not resolved from an allowed name"
                      end)
          end
      end.

(** ** What arrives from the guest *)

Definition receive_arp (s : Stack) (packet : list Z) : Stack :=
  if bool_decide (length packet < 28)%nat || negb (be_val (slice 6 8 packet) =? 1) then s
  else if bool_decide (ip_at 24 packet = GATEWAY) then
    net_send s (ethernet ETHERTYPE_ARP
      ([0; 1] ++ be_bytes 2 ETHERTYPE_IPV4 ++ [6; 4; 0; 2] ++ GATEWAY_MAC ++ octets GATEWAY ++
       slice 8 14 packet ++ slice 14 18 packet))
  else s.

Definition receive_icmp (s : Stack) (destination : Ipv4Addr) (payload : list Z) : Stack :=
  if bool_decide (length payload < 8)%nat || negb (byte_at payload 0 =? 8) then s
  else if bool_decide (destination = GATEWAY) then net_send s (echo_reply destination payload)
  else if MAX_PINGS <=? pings s then s
  else spawn (with_pings s (pings s + 1)) (TPing destination payload).

(** The thread of one echo request, with what the app answers and what the echo comes to. *)
Definition run_ping (s : Stack) (destination : Ipv4Addr) (request : list Z) (consent : bool)
    (echo : result str (option Z)) : Stack :=
  let ip := ip_string destination in
  let refused :=
    match decide_address s destination destination None with
    | Allow => None
    | Refuse reason => Some reason
    | Ask what =>
        if consent then None
        else Some (lit "blocked by the network policy: the app did not allow " ++ quoted what)
    end in
  let s :=
    match refused with
    | Some reason => net_report s (EvPing ip None true (Some reason))
    | None =>
        match echo with
        | Ok (Some rtt) =>
            net_report (net_send s (echo_reply destination request)) (EvPing ip (Some rtt) false None)
        | Ok None => net_report s (EvPing ip None false (Some (lit "no reply")))
        | Err e => net_report s (EvPing ip None false (Some e))
        end
    end in
  with_pings s (pings s - 1).

(** [read_name]: at most 128 labels; a compression pointer ends the name. *)
Fixpoint read_name (turns : nat) (message : list Z) (at_ : nat) (name : str) : option (str * nat) :=
  match turns with
  | O => None
  | S turns =>
      length_ ← message !! at_;
      if length_ =? 0 then Some (name, (at_ + 1)%nat)
      else if Z.land length_ 0xc0 =? 0xc0 then Some (name, (at_ + 2)%nat)
      else
        label ← get_slice (at_ + 1) (at_ + 1 + Z.to_nat length_) message;
        read_name turns message (at_ + 1 + Z.to_nat length_)
          ((if bool_decide (name = []) then [] else name ++ lit ".") ++ from_utf8_lossy label)
  end.

(** [Vec::dedup]: runs of equal neighbours become one. *)
Fixpoint dedup (l : list Ipv4Addr) : list Ipv4Addr :=
  match l with
  | x :: (y :: _) as l' => if bool_decide (x = y) then dedup l' else x :: dedup l'
  | _ => l
  end.

Definition v4_only (l : list IpAddr) : list Ipv4Addr :=
  omap (λ a, match a with V4 ip => Some ip | V6 => None end) l.

(** Remembers that a name led to an address. *)
Definition remember (name : str) (r : gmap Ipv4Addr (list str)) (address : Ipv4Addr)
    : gmap Ipv4Addr (list str) :=
  let names := default [] (r !! address) in
  <[address := if mem_str name names then names else names ++ [name]]> r.

(** The name a query is refused for: with [ask], an unlisted name resolves. *)
Definition dns_refused (s : Stack) (name : str) : option str :=
  let p := st_policy s in
  match refuses_host p name with
  | Some reason => if ask p && has_asker s && unlisted p name then None else Some reason
  | None => None
  end.

(** The resolution of one question: the addresses and the response code. *)
Definition resolve (s : Stack) (name : str) (kind : Z) : list Ipv4Addr * Z * Stack :=
  match dns_refused s name with
  | Some reason => ([], 3, net_report s (EvDns name [] true (Some reason)))
  | None =>
      if kind =? 1 then
        let found := default (Err []) (head (lookups s)) in
        let s := with_lookups s (tail (lookups s)) in
        match found with
        | Ok found =>
            let addresses := dedup (v4_only found) in
            let s := if bool_decide (addresses = []) then s
                     else with_resolved s (foldl (remember name) (resolved s) addresses) in
            (addresses, if bool_decide (addresses = []) then 3 else 0,
             net_report s (EvDns name (ip_string <$> addresses) false None))
        | Err e => ([], 3, net_report s (EvDns name [] false (Some e)))
        end
      else ([], 0, s)
  end.

Definition dns_record (address : Ipv4Addr) : list Z :=
  be_bytes 2 0xc00c ++ be_bytes 2 1 ++ be_bytes 2 1 ++ be_bytes 4 60 ++ be_bytes 2 4 ++ octets address.

Definition dns_response (id code : Z) (question : list Z) (addresses : list Ipv4Addr) : list Z :=
  be_bytes 2 id ++ be_bytes 2 (Z.lor 0x8180 code) ++ be_bytes 2 1 ++
  be_bytes 2 (u16 (Z.of_nat (length addresses))) ++ be_bytes 2 0 ++ be_bytes 2 0 ++ question ++
  concat (dns_record <$> addresses).

Definition answer_dns (s : Stack) (query : list Z) : option (list Z) * Stack :=
  if bool_decide (length query < 12)%nat then (None, s)
  else
    let id := be_val (slice 0 2 query) in
    if negb (be_val (slice 4 6 query) =? 1) then (None, s)
    else match read_name 128 query 12 [] with
    | None => (None, s)
    | Some (name, at_) =>
        if bool_decide (length query < at_ + 4)%nat then (None, s)
        else
          let kind := be_val (slice at_ (at_ + 2) query) in
          let question := slice 12 (at_ + 4) query in
          let name := to_lowercase (trim_end (λ b, b =? chr ".") name) in
          let '(addresses, code, s) := resolve s name kind in
          (Some (dns_response id code question addresses), s)
    end.

Definition receive_udp (s : Stack) (destination : Ipv4Addr) (payload : list Z) : Stack :=
  match parse_dns_datagram payload with
  | None => s
  | Some (source_port, query) =>
      match answer_dns s query with
      | (None, s) => s
      | (Some answer, s) => net_send s (udp_answer destination 53 source_port answer)
      end
  end.

(** Turns a connection away. *)
Definition refuse (s : Stack) (id : Z) (destination : Ipv4Addr) (port guest_port sequence : Z)
    (reason : str) : Stack :=
  let s := net_report s (EvConnect id (ip_string destination) port "failed" true (Some reason)) in
  net_send s (tcp_segment destination guest_port port 0 (u32 (sequence + 1)) (Z.lor RST ACK) 0 []).

(** The entry a SYN makes. *)
Definition conn_new (id : Z) (key : ConnKey) (initial sequence window : Z) : TcpConn :=
  let '(guest_port, destination, port) := key in
  {| tc_id := id; guest_target := destination; guest_port := guest_port; tc_port := port;
     send_next := initial; send_unacked := initial; receive_next := u32 (sequence + 1);
     peer_window := Z.max window 1; outgoing := []; to_host := None; socket := false;
     established := false; host_closed := false; fin_sent := false; guest_finished := false |}.

Definition open_event (s : Stack) (id : Z) (key : ConnKey) : Stack :=
  net_report s (EvConnect id (ip_string key.1.2) key.2 "open" false None).

(** A SYN. *)
Definition open (s : Stack) (key : ConnKey) (sequence window : Z) : Stack :=
  let '(guest_port, destination, port) := key in
  let s := with_next_id s (u64 (next_id s + 1)) in
  let id := next_id s in
  let target := if bool_decide (destination = GATEWAY) then LOCALHOST else destination in
  let proceed asking :=
    let initial := default 0 (head (randoms s)) in
    let s := with_randoms s (tail (randoms s)) in
    if bool_decide (is_Some (st_conns s !! key)) then s
    else
      let s := with_conns s (<[key := conn_new id key initial sequence window]> (st_conns s)) in
      match asking with
      | None => spawn (open_event s id key) (TConnect key (target, port))
      | Some what => spawn s (TAsk key id sequence what target)
      end in
  match decide_address s destination target (Some port) with
  | Allow => proceed None
  | Refuse reason => refuse s id destination port guest_port sequence reason
  | Ask what => proceed (Some what)
  end.

(** The thread that asks the app. *)
Definition run_ask (s : Stack) (key : ConnKey) (id sequence : Z) (what : str) (target : Ipv4Addr)
    (consent : bool) : Stack :=
  let '(guest_port, destination, port) := key in
  if consent then spawn (open_event s id key) (TConnect key (target, port))
  else
    refuse (with_conns s (delete key (st_conns s))) id destination port guest_port sequence
      (lit "blocked by the network policy: the app did not allow " ++ quoted what).

(** Whether the connection goes through the interceptor that adds secrets. *)
Definition interceptor_for (s : Stack) (address guest_target : Ipv4Addr) : bool :=
  has_interceptor s &&
  existsb (λ name, has_secret_for (st_policy s) name)
    (if NetPacket.is_loopback address then [lit "localhost"]
     else default [] (resolved s !! guest_target)).

(** The state a connection has once its host socket is there. *)
Definition conn_established (c : TcpConn) (channel : nat) (cloned : bool) : TcpConn :=
  let next := u32 (send_next c + 1) in
  {| tc_id := tc_id c; guest_target := guest_target c; guest_port := guest_port c;
     tc_port := tc_port c; send_next := next; send_unacked := u32 (next - 1);
     receive_next := receive_next c; peer_window := peer_window c; outgoing := outgoing c;
     to_host := Some channel; socket := cloned; established := true;
     host_closed := host_closed c; fin_sent := fin_sent c; guest_finished := guest_finished c |}.

(** The thread that connects on the host; [cloned] is whether the socket could be cloned for the
    connection. *)
Definition run_connect (s : Stack) (key : ConnKey) (address : Ipv4Addr * Z)
    (outcome : result str unit) (cloned : bool) : Stack :=
  let s := dial s (address.1, address.2, interceptor_for s address.1 key.1.2) in
  match st_conns s !! key with
  | None => s
  | Some c =>
      match outcome with
      | Ok _ =>
          let s := with_conns s (<[key := conn_established c (length (channels s)) cloned]> (st_conns s)) in
          let s := with_channels s (channels s ++ [[]]) in
          let s := net_send s (frame_of c
                     (mk_out (send_next c) (receive_next c) (Z.lor SYN ACK) WINDOW [])) in
          spawn s (TRead key)
      | Err e =>
          let s := with_conns s (delete key (st_conns s)) in
          let s := net_send s (frame_of c
                     (mk_out (send_next c) (receive_next c) (Z.lor RST ACK) 0 [])) in
          net_report s (EvConnect (tc_id c) (ip_string (guest_target c)) (tc_port c) "failed" false (Some e))
      end
  end.

(** [flush] for the keys it is called for. What it makes it makes under the lock of the connections; the
    frames go to the queue after that (each carries its place in the stream with it). *)
Fixpoint flush_keys (keys : list ConnKey) (acknowledge : bool) (frames : list (list Z))
    (finished : list (ConnKey * TcpConn)) (m : gmap ConnKey TcpConn)
    : list (list Z) * list (ConnKey * TcpConn) * gmap ConnKey TcpConn :=
  match keys with
  | [] => (frames, finished, m)
  | key :: keys =>
      match m !! key with
      | None => flush_keys keys acknowledge frames finished m
      | Some c =>
          if established c then
            let '(c', os, over) := flush_conn c (bool_decide (frames = [])) acknowledge in
            flush_keys keys acknowledge (frames ++ (frame_of c <$> os))
              (if over then finished ++ [(key, c')] else finished) (<[key := c']> m)
          else flush_keys keys acknowledge frames finished m
      end
  end.

Definition flush (s : Stack) (keys : list ConnKey) (acknowledge : bool) : Stack :=
  let '(frames, finished, m) := flush_keys keys acknowledge [] [] (st_conns s) in
  let s := with_conns s (foldl (λ m k, delete k m) m finished.*1) in
  let s := with_pending s (pending s ++ frames) in
  foldl (λ s c, net_report s (EvConnect (tc_id c) (ip_string (guest_target c)) (tc_port c)
                                "closed" false None)) s finished.*2.

(** The bytes for a connection's writer thread. *)
Definition to_writer (s : Stack) (channel : option nat) (bytes : list Z) : Stack :=
  match channel with
  | Some i => with_channels s (alter (λ l, l ++ bytes) i (channels s))
  | None => s
  end.

Definition receive_tcp (s : Stack) (destination : Ipv4Addr) (segment : list Z) : Stack :=
  match parse_tcp segment with
  | None => s
  | Some seg =>
      let key := (source_port seg, destination, destination_port seg) in
      let has f := negb (Z.land (flags seg) f =? 0) in
      if has SYN && negb (has ACK) then open s key (sequence seg) (window seg)
      else match st_conns s !! key with
      | None =>
          if negb (has RST) && bool_decide (destination = GATEWAY) then
            net_send s (tcp_segment destination (source_port seg) (destination_port seg)
              (acknowledged seg) 0 RST 0 [])
          else s
      | Some c =>
          if has RST then
            net_report (with_conns s (delete key (st_conns s)))
              (EvConnect (tc_id c) (ip_string (guest_target c)) (tc_port c) "closed" false None)
          else
            let '(c', bytes) := take_segment c seg in
            let s := to_writer s (to_host c) bytes in
            let s := with_conns s (<[key := c']> (st_conns s)) in
            flush s [key] (negb (bool_decide (data seg = [])) || has FIN)
      end
  end.

(** The thread that reads the host socket: [None] is its end. *)
Definition run_read (s : Stack) (key : ConnKey) (outcome : option (list Z)) : Stack :=
  let finish s := flush (with_conns s (alter with_host_closed key (st_conns s))) [key] false in
  match outcome with
  | None => finish s
  | Some bytes =>
      if bool_decide (is_Some (st_conns s !! key)) then
        let s := with_conns s (alter (λ c, with_send c (send_next c) (send_unacked c)
                                             (outgoing c ++ bytes) (fin_sent c)) key (st_conns s)) in
        spawn (flush s [key] false) (TRead key)
      else finish s
  end.

Definition receive_ipv4 (s : Stack) (packet : list Z) : Stack :=
  match parse_ipv4 packet with
  | None => s
  | Some (protocol, destination, payload) =>
      if protocol =? PROTO_ICMP then receive_icmp s destination payload
      else if protocol =? PROTO_UDP then receive_udp s destination payload
      else if protocol =? PROTO_TCP then receive_tcp s destination payload
      else s
  end.

Definition receive_frame (s : Stack) (frame : list Z) : Stack :=
  match parse_ethernet frame with
  | None => s
  | Some (kind, packet) =>
      if kind =? ETHERTYPE_ARP then receive_arp s packet
      else if kind =? ETHERTYPE_IPV4 then receive_ipv4 s packet
      else s
  end.

(** ** The device *)

(** What one transmit chain holds: its readable buffers that lie in memory. *)
Definition gather_frame (m : mem) (bufs : list Buffer) : list Z :=
  concat ((λ b, if writable b then []
                else default [] (guest_bytes m (u32 (b_address b)) (b_length b))) <$> bufs).

Definition frame_chain (s : Stack) (m : mem) (chain : Chain) : result error Z * (Stack * mem) :=
  let frame := gather_frame m (buffers chain) in
  (Ok 0, (if bool_decide (NET_HEADER < length frame)%nat
          then receive_frame s (drop NET_HEADER frame) else s, m)).

Definition net_notify (s : Stack) (queue_index : Z) (q : Queue) (m : mem)
    : result error (list Z) * (Stack * Queue * mem) :=
  if negb (queue_index =? 1) then (Ok [], (s, q, m))
  else drain (λ _, true) id frame_chain (Z.to_nat (ring_size q) + 1) s q m [].

(** Copies a packet over the writable buffers; a short write goes on with the next buffer. *)
Fixpoint scatter_frame (bufs : list Buffer) (packet : list Z) (m : mem) (written : nat) : mem * nat :=
  match bufs with
  | [] => (m, written)
  | b :: bufs =>
      if negb (writable b) || bool_decide (length packet ≤ written)%nat
      then scatter_frame bufs packet m written
      else
        let k := Z.to_nat (Z.min (b_length b) (Z.of_nat (length packet - written))) in
        let '(m, done) := write_bytes m (b_address b) (slice written (written + k) packet) in
        scatter_frame bufs packet m (written + done)
  end.

(** The frame with its virtio header, one buffer used. *)
Definition net_packet (frame : list Z) : list Z := [0; 0; 0; 0; 0; 0; 0; 0; 0; 0; 1; 0] ++ frame.

Definition deliver_frame (s : Stack) (m : mem) (chain : Chain) : result error Z * (Stack * mem) :=
  match pending s with
  | [] => (Ok 0, (s, m))
  | frame :: rest =>
      let '(m, written) := scatter_frame (buffers chain) (net_packet frame) m 0 in
      (Ok (u32 (Z.of_nat written)), (with_pending s rest, m))
  end.

Definition has_frame (s : Stack) : bool := bool_decide (pending s ≠ []).
Definition lose_frame (s : Stack) : Stack := with_pending s (tail (pending s)).

Definition net_poll (s : Stack) (qs : list (option Queue)) (m : mem)
    : result error (list Z) * (Stack * list (option Queue) * mem) :=
  match qs with
  | Some q :: qs =>
      let '(r, (s, q, m)) :=
        drain has_frame lose_frame deliver_frame (length (pending s) + 1) s q m [] in
      (r, (s, Some q :: qs, m))
  | _ => (Ok [], (s, qs, m))
  end.

#[export] Instance Net_device : Device Stack := {|
  device_id _ := 1;
  features _ := FEATURE_MAC;
  config _ := GUEST_MAC;
  notify := net_notify;
  poll := net_poll;
  reset s := with_pending s [];
  write_input _ := None;
|}.

End stack.

(** ** Sending within the guest's window *)

(** What the guest has not acknowledged yet. *)
Definition tcp_in_flight (c : TcpConn) : Z := u32 (send_next c - send_unacked c).

(** Numbers in range, as the fields' types have them. *)
Definition conn_ok (c : TcpConn) : Prop :=
  0 <= send_next c < 4294967296 ∧ 0 <= peer_window c < 4294967296.

Definition is_fin (o : OutSegment) : bool := negb (Z.land (out_flags o) FIN =? 0).
Definition out_length (o : OutSegment) : Z :=
  Z.of_nat (length (out_data o)) + if is_fin o then 1 else 0.

(** Each segment is numbered with the sequence number the one before ends at. *)
Fixpoint numbered (next : Z) (os : list OutSegment) : Prop :=
  match os with
  | [] => True
  | o :: os => out_sequence o = next ∧ numbered (u32 (next + out_length o)) os
  end.
Definition sent_length (os : list OutSegment) : Z := foldr (λ o n, out_length o + n) 0 os.

(** The bytes of a run of segments. *)
Definition sent_data (os : list OutSegment) : list Z := concat (out_data <$> os).
Arguments sent_data : simpl never.

Lemma sent_data_cons o os : sent_data (o :: os) = out_data o ++ sent_data os.
Proof. done. Qed.
Lemma sent_data_app os os' : sent_data (os ++ os') = sent_data os ++ sent_data os'.
Proof. unfold sent_data. by rewrite fmap_app, concat_app. Qed.

Lemma u32_add_u32 a b : u32 (u32 a + b) = u32 (a + b).
Proof. unfold u32. by rewrite Zplus_mod_idemp_l. Qed.

Lemma numbered_app next os os' :
  0 <= next < 4294967296 → numbered next os → numbered (u32 (next + sent_length os)) os' →
  numbered next (os ++ os').
Proof.
  revert next; induction os as [|o os IH]; intros next Hn; simpl.
  - intros _. by rewrite Z.add_0_r, u32_small.
  - intros [H1 H2] H3. split; [done|]. apply IH; [apply u32_range|done|].
    by rewrite u32_add_u32, <-Z.add_assoc.
Qed.

Lemma sent_length_app os os' : sent_length (os ++ os') = sent_length os + sent_length os'.
Proof. induction os as [|o os IH]; simpl; [done|]. rewrite IH. lia. Qed.

(** The fields sending leaves alone. *)
Definition same_rest (c c' : TcpConn) : Prop :=
  send_unacked c' = send_unacked c ∧ receive_next c' = receive_next c ∧
  peer_window c' = peer_window c ∧ to_host c' = to_host c ∧ established c' = established c ∧
  host_closed c' = host_closed c ∧ guest_finished c' = guest_finished c ∧
  guest_target c' = guest_target c ∧ guest_port c' = guest_port c ∧ tc_port c' = tc_port c.

Lemma send_data_spec n c :
  conn_ok c →
  let '(c', os) := send_data n c in
  conn_ok c' ∧ same_rest c c' ∧ fin_sent c' = fin_sent c ∧
  sent_data os ++ outgoing c' = outgoing c ∧
  numbered (send_next c) os ∧ send_next c' = u32 (send_next c + sent_length os) ∧
  Forall (λ o, (0 < length (out_data o))%nat ∧ Z.of_nat (length (out_data o)) <= MAX_SEGMENT ∧
               is_fin o = false) os ∧
  (os ≠ [] → tcp_in_flight c' <= peer_window c) ∧
  ((length (outgoing c) ≤ n)%nat → sendable c' <= 0).
Proof.
  revert c; induction n as [|n IH]; intros c Hok; simpl.
  { split_and!; try done; [by rewrite Z.add_0_r, u32_small by apply Hok|].
    intros Hl. unfold sendable. lia. }
  destruct (Z.ltb_spec 0 (sendable c)) as [Hs|Hs].
  2: { split_and!; try done. by rewrite Z.add_0_r, u32_small by apply Hok. }
  set (k := Z.to_nat (Z.min (sendable c) MAX_SEGMENT)).
  assert (0 < Z.of_nat k <= MAX_SEGMENT ∧ Z.of_nat k <= sendable c ∧ (k ≤ length (outgoing c))%nat)
    as (Hk1 & Hk2 & Hk3) by (unfold k, sendable, MAX_SEGMENT in *; lia).
  assert (length (take k (outgoing c)) = k) as Hlen by (rewrite length_take; lia).
  set (c1 := with_send c _ _ _ _). destruct Hok as [Hsn Hpw].
  assert (conn_ok c1) as Hok1 by (split; [apply u32_range|done]).
  assert (tcp_in_flight c1 = tcp_in_flight c + Z.of_nat k ∧ tcp_in_flight c1 <= peer_window c) as [Hf1 Hf2].
  { unfold tcp_in_flight, c1. simpl. rewrite Hlen. unfold sendable, sat_sub in Hk2. revert Hk2. fold k.
    set (f := u32 (send_next c - send_unacked c)). intros Hk2.
    assert (u32 (u32 (send_next c + Z.of_nat k) - send_unacked c) = f + Z.of_nat k) as ->; [|lia].
    unfold f in *. clear Hs Hlen. wrap_lia. }
  specialize (IH c1 Hok1). destruct (send_data n c1) as [c' os].
  destruct IH as (H1 & H2 & H3 & H4 & H5 & H6 & H7 & H8 & H9). simpl.
  assert (u32 (send_next c + out_length (mk_out (send_next c) (receive_next c) (Z.lor ACK PSH) WINDOW
    (take k (outgoing c)))) = send_next c1) as Hn.
  { unfold out_length, c1. simpl. by rewrite Hlen, Z.add_0_r. }
  split_and!; try done.
  - rewrite sent_data_cons, <-app_assoc, H4. apply take_drop.
  - by rewrite Hn.
  - rewrite H6, Z.add_assoc, <-Hn, u32_add_u32. done.
  - constructor; [|done]. simpl. rewrite Hlen. split_and!; [lia|lia|done].
  - intros _. destruct os as [|o os]; [|by apply H8].
    replace (tcp_in_flight c') with (tcp_in_flight c1); [done|].
    unfold tcp_in_flight. destruct H2 as (-> & _). rewrite H6.
    change (sent_length []) with 0. by rewrite Z.add_0_r, (u32_small (send_next c1)) by apply Hok1.
  - intros Hl. apply H9. unfold c1. simpl. rewrite length_drop. lia.
Qed.

(** What a turn of [flush] does to a connection. *)
Lemma flush_conn_spec c first ackn :
  conn_ok c →
  let '(c', os, over) := flush_conn c first ackn in
  conn_ok c' ∧ same_rest c c' ∧
  sent_data os ++ outgoing c' = outgoing c ∧
  numbered (send_next c) os ∧ send_next c' = u32 (send_next c + sent_length os) ∧
  Forall (λ o, Z.of_nat (length (out_data o)) <= MAX_SEGMENT) os ∧
  (sent_data os = [] ∨
   u32 (send_next c + Z.of_nat (length (sent_data os)) - send_unacked c) <= peer_window c) ∧
  (outgoing c' = [] ∨ peer_window c <= tcp_in_flight c') ∧
  fin_sent c' = fin_sent c || (host_closed c && bool_decide (outgoing c' = [])) ∧
  length (filter (λ o, is_fin o = true) os) = (if fin_sent c then 0 else if fin_sent c' then 1 else 0)%nat ∧
  (over = true ↔ fin_sent c' = true ∧ guest_finished c = true ∧ send_unacked c = send_next c').
Proof.
  intros Hok. unfold flush_conn. pose proof (send_data_spec (length (outgoing c)) c Hok) as Hs.
  destruct (send_data (length (outgoing c)) c) as [c1 os].
  destruct Hs as (H1 & H2 & H3 & H4 & H5 & H6 & H7 & H8 & H9). specialize (H9 (le_n _)).
  pose proof H2 as (Hu & Hr & Hw & Ht & He & Hh & Hg & Hx & Hy & Hz).
  assert (Forall (λ o, Z.of_nat (length (out_data o)) <= MAX_SEGMENT) os) as Hseg.
  { eapply Forall_impl; [exact H7|]. by intros o (_ & ? & _). }
  assert (filter (λ o, is_fin o = true) os = []) as Hnf.
  { clear -H7. induction H7 as [|o os (_ & _ & Ho) _ IH]; [done|]. rewrite filter_cons, Ho. done. }
  assert (sent_length os = Z.of_nat (length (sent_data os))) as Hsl.
  { clear -H7. induction H7 as [|o os (_ & _ & Ho) _ IH]; [done|].
    rewrite sent_data_cons, length_app. simpl. rewrite IH. unfold out_length. rewrite Ho. lia. }
  assert (sent_data os = [] ∨
    u32 (send_next c + Z.of_nat (length (sent_data os)) - send_unacked c) <= peer_window c) as Hwin.
  { destruct os as [|o os]; [by left|]. right. rewrite <-Hsl. unfold tcp_in_flight in H8.
    rewrite H6, Hu in H8. specialize (H8 ltac:(done)).
    assert (u32 (u32 (send_next c + sent_length (o :: os)) - send_unacked c) =
            u32 (send_next c + sent_length (o :: os) - send_unacked c)) as <-; [|done].
    unfold Z.sub. by rewrite u32_add_u32. }
  assert (outgoing c1 = [] ∨ peer_window c <= tcp_in_flight c1) as Hfull.
  { unfold sendable, sat_sub in H9. rewrite Hw in H9. unfold tcp_in_flight.
    destruct (outgoing c1); [by left|right]. simpl in H9. lia. }
  destruct (host_closed c1 && bool_decide (outgoing c1 = []) && negb (fin_sent c1)) eqn:Hf.
  - apply andb_true_iff in Hf as [[Hhc Ho%bool_decide_eq_true]%andb_true_iff Hfs%negb_true_iff].
    rewrite H3 in Hfs. rewrite Hh in Hhc.
    rewrite sent_data_app, filter_app, Hnf, Hfs, Hhc. cbn -[u32 sent_data]. rewrite Ho in *.
    change (sent_data [_]) with ([] : list Z). rewrite !app_nil_r in *.
    split_and!; try done; try (by left).
    + split; [apply u32_range|apply H1].
    + apply numbered_app; [apply Hok|done|]. simpl. by rewrite H6.
    + rewrite sent_length_app, H6, u32_add_u32. change (sent_length [_]) with 1. f_equal. lia.
    + apply Forall_app. split; [done|]. by repeat constructor.
    + rewrite Hg, Hu. rewrite andb_true_iff, Z.eqb_eq. tauto.
  - set (os' := if ackn && first && bool_decide (os = []) then _ else _).
    assert (∃ os1, (if ackn && first && bool_decide (os = [])
      then (c1, os ++ [mk_out (send_next c1) (receive_next c1) ACK WINDOW []]) else (c1, os)) = (c1, os1) ∧
      (os1 = os ∨ os = [] ∧ os1 = [mk_out (send_next c1) (receive_next c1) ACK WINDOW []])) as (os1 & E & Hos1).
    { destruct (ackn && first && bool_decide (os = [])) eqn:Ea; [|by eauto].
      apply andb_true_iff in Ea as [_ ->%bool_decide_eq_true]. eauto. }
    unfold os'. rewrite E. clear E os'.
    assert (sent_data os1 = sent_data os ∧ numbered (send_next c) os1 ∧
      sent_length os1 = sent_length os ∧ filter (λ o, is_fin o = true) os1 = [] ∧
      Forall (λ o, Z.of_nat (length (out_data o)) <= MAX_SEGMENT) os1) as (E1 & E2 & E3 & E4 & E5).
    { destruct Hos1 as [->|[-> ->]]; [done|]. simpl in *. rewrite Z.add_0_r in H6.
      rewrite u32_small in H6 by apply Hok. split_and!; try done. by repeat constructor. }
    rewrite E1, E3, E4. split_and!; try done.
    + rewrite H3, Hh in *. apply andb_false_iff in Hf as [Hf|Hf%negb_false_iff].
      * by rewrite Hf, orb_false_r.
      * by rewrite Hf.
    + rewrite H3. by destruct (fin_sent c).
    + rewrite Hg, Hu, H3. rewrite !andb_true_iff, Z.eqb_eq. tauto.
Qed.

(** ** A connection's life, event by event *)

(** Once established: bytes or the end from the host socket, or a segment of the guest. *)
Inductive tcp_event : Type :=
  | HostBytes (bytes : list Z)
  | HostEnd
  | GuestSegment (s : Segment).

(** The operation of each event with the flush that follows it, as [run_read] and [receive_tcp] do:
    the connection, what it sends the guest, and what the host socket's writer gets. *)
Definition tcp_step (c : TcpConn) (e : tcp_event) : TcpConn * list OutSegment * list Z :=
  match e with
  | HostBytes bytes =>
      let '(c, os, _) := flush_conn (with_send c (send_next c) (send_unacked c)
                                       (outgoing c ++ bytes) (fin_sent c)) true false in (c, os, [])
  | HostEnd => let '(c, os, _) := flush_conn (with_host_closed c) true false in (c, os, [])
  | GuestSegment s =>
      let '(c, written) := take_segment c s in
      let '(c, os, _) := flush_conn c true
        (negb (bool_decide (data s = [])) || negb (Z.land (flags s) FIN =? 0)) in (c, os, written)
  end.

Fixpoint tcp_run (c : TcpConn) (es : list tcp_event) : TcpConn * list OutSegment * list Z :=
  match es with
  | [] => (c, [], [])
  | e :: es =>
      let '(c, os, w) := tcp_step c e in
      let '(c, os', w') := tcp_run c es in
      (c, os ++ os', w ++ w')
  end.

(** The host's side of a run, and that it says nothing after its end. *)
Definition host_bytes (es : list tcp_event) : list Z :=
  concat ((λ e, match e with HostBytes b => b | _ => [] end) <$> es).
Fixpoint host_wf (closed : bool) (es : list tcp_event) : Prop :=
  match es with
  | [] => True
  | HostBytes _ :: es => closed = false ∧ host_wf closed es
  | HostEnd :: es => host_wf true es
  | GuestSegment s :: es => 0 <= window s < 4294967296 ∧ host_wf closed es
  end.

Lemma host_bytes_cons e es :
  host_bytes (e :: es) = match e with HostBytes b => b | _ => [] end ++ host_bytes es.
Proof. done. Qed.

(** What a segment leaves of the sending side. *)
Lemma take_segment_send c s :
  let c' := (take_segment c s).1 in
  send_next c' = send_next c ∧ outgoing c' = outgoing c ∧ fin_sent c' = fin_sent c ∧
  host_closed c' = host_closed c ∧ peer_window c' = window s.
Proof.
  unfold take_segment. set (c0 := with_window c (window s)).
  assert (∀ c1, c1 = take_ack c0 s → send_next c1 = send_next c ∧ outgoing c1 = outgoing c ∧
    fin_sent c1 = fin_sent c ∧ host_closed c1 = host_closed c ∧ peer_window c1 = window s) as H.
  { intros c1 ->. unfold take_ack. destruct (negb _); [|done]. by destruct (_ && _). }
  specialize (H _ eq_refl). generalize dependent (take_ack c0 s). intros c1 H.
  unfold take_data. destruct (_ && _); unfold take_fin; by destruct (_ && _).
Qed.

(** The sending side over one event. *)
Lemma tcp_step_sends c e :
  conn_ok c → (∀ s, e = GuestSegment s → 0 <= window s < 4294967296) →
  (fin_sent c = true → outgoing c = [] ∧ host_closed c = true) →
  (host_closed c = true → ∀ b, e ≠ HostBytes b) →
  let '(c', os, _) := tcp_step c e in
  conn_ok c' ∧ sent_data os ++ outgoing c' = outgoing c ++ host_bytes [e] ∧
  numbered (send_next c) os ∧ send_next c' = u32 (send_next c + sent_length os) ∧
  host_closed c' = (host_closed c || match e with HostEnd => true | _ => false end) ∧
  (fin_sent c' = true → outgoing c' = [] ∧ host_closed c' = true) ∧
  length (filter (λ o, is_fin o = true) os) = (if fin_sent c then 0 else if fin_sent c' then 1 else 0)%nat ∧
  (fin_sent c = true → fin_sent c' = true ∧ sent_data os = []) ∧
  Forall (λ o, Z.of_nat (length (out_data o)) <= MAX_SEGMENT) os.
Proof.
  intros Hok Hwin Hfin Hhb. unfold tcp_step.
  set (b := match e with HostBytes b => b | _ => [] end).
  set (hc := host_closed c || match e with HostEnd => true | _ => false end).
  assert (∀ c1 first a, conn_ok c1 → send_next c1 = send_next c → fin_sent c1 = fin_sent c →
    outgoing c1 = outgoing c ++ b → host_closed c1 = hc →
    let '(c', os, _) := flush_conn c1 first a in
    conn_ok c' ∧ sent_data os ++ outgoing c' = outgoing c ++ b ∧
    numbered (send_next c) os ∧ send_next c' = u32 (send_next c + sent_length os) ∧
    host_closed c' = hc ∧ (fin_sent c' = true → outgoing c' = [] ∧ host_closed c' = true) ∧
    length (filter (λ o, is_fin o = true) os) =
      (if fin_sent c then 0 else if fin_sent c' then 1 else 0)%nat ∧
    (fin_sent c = true → fin_sent c' = true ∧ sent_data os = []) ∧
    Forall (λ o, Z.of_nat (length (out_data o)) <= MAX_SEGMENT) os) as Hmain.
  { intros c1 first a Hok1 Hsn Hfs Ho Hh. pose proof (flush_conn_spec c1 first a Hok1) as H.
    destruct (flush_conn c1 first a) as [[c' os] over].
    destruct H as (H1 & H2 & H3 & H4 & H5 & H6 & _ & _ & H7 & H8 & _).
    destruct H2 as (_ & _ & _ & _ & _ & Hhc & _).
    rewrite Hsn in H4, H5. rewrite Hfs in H7, H8. rewrite Ho in H3. rewrite Hh in H7, Hhc.
    assert (fin_sent c = true → outgoing c ++ b = [] ∧ hc = true) as Hnil.
    { intros Hf. destruct (Hfin Hf) as [Ho' Hc']. unfold hc, b. rewrite Ho', Hc'.
      split; [|done]. destruct e; try done. by destruct (Hhb Hc' bytes). }
    split_and!; try done.
    - intros Hf. rewrite Hf in H7. destruct (fin_sent c).
      + destruct Hnil as [Hn Hh']; [done|]. rewrite Hn in H3. apply app_nil in H3 as [_ ?].
        split; [done|congruence].
      + symmetry in H7. apply andb_true_iff in H7 as [? ?%bool_decide_eq_true]. split; [done|congruence].
    - intros Hf. rewrite Hf in H7. split; [done|]. destruct (Hnil Hf) as [Hn _]. rewrite Hn in H3.
      by apply app_nil in H3 as [? _]. }
  assert (host_bytes [e] = b) as -> by (unfold b; rewrite host_bytes_cons; apply app_nil_r).
  destruct e as [bytes| |s].
  - specialize (Hmain (with_send c (send_next c) (send_unacked c) (outgoing c ++ bytes) (fin_sent c)) true false Hok).
    destruct (flush_conn _ _ _) as [[c' os] ov]. apply Hmain; try done. unfold hc. by rewrite orb_false_r.
  - specialize (Hmain (with_host_closed c) true false Hok).
    destruct (flush_conn _ _ _) as [[c' os] ov]. apply Hmain; try done; unfold b, hc.
    + by rewrite app_nil_r.
    + by rewrite orb_true_r.
  - pose proof (take_segment_send c s) as (H1 & H2 & H3 & H4 & H5).
    destruct (take_segment c s) as [c1 w]. simpl in *.
    specialize (Hmain c1 true (negb (bool_decide (data s = [])) || negb (Z.land (flags s) FIN =? 0))).
    destruct (flush_conn c1 _ _) as [[c' os] ov]. apply Hmain; try done.
    + split; [rewrite H1; apply Hok|rewrite H5; by apply Hwin].
    + unfold b. by rewrite app_nil_r.
    + unfold hc. by rewrite orb_false_r.
Qed.

(** The sending side over a whole run. *)
Lemma tcp_run_sends es c :
  conn_ok c → host_wf (host_closed c) es →
  (fin_sent c = true → outgoing c = [] ∧ host_closed c = true) →
  let '(c', os, _) := tcp_run c es in
  sent_data os ++ outgoing c' = outgoing c ++ host_bytes es ∧ numbered (send_next c) os ∧
  send_next c' = u32 (send_next c + sent_length os) ∧
  (fin_sent c' = true → outgoing c' = []) ∧
  length (filter (λ o, is_fin o = true) os) = (if fin_sent c then 0 else if fin_sent c' then 1 else 0)%nat ∧
  (fin_sent c = true → fin_sent c' = true ∧ sent_data os = []) ∧
  Forall (λ o, Z.of_nat (length (out_data o)) <= MAX_SEGMENT) os.
Proof.
  revert c; induction es as [|e es IH]; intros c Hok Hwf Hfin; simpl.
  { rewrite app_nil_r, Z.add_0_r, u32_small by apply Hok. split_and!; try done.
    - intros Hf. by apply Hfin.
    - by destruct (fin_sent c). }
  pose proof (tcp_step_sends c e Hok) as Hs.
  assert (∀ s, e = GuestSegment s → 0 <= window s < 4294967296) as Hw by (by intros s ->; apply Hwf).
  assert (host_closed c = true → ∀ b, e ≠ HostBytes b) as Hb.
  { intros Hc b ->. simpl in Hwf. destruct Hwf. congruence. }
  specialize (Hs Hw Hfin Hb). destruct (tcp_step c e) as [[c1 os1] w1].
  destruct Hs as (H1 & H2 & H3 & H4 & H5 & H6 & H7 & H8 & H9).
  assert (host_wf (host_closed c1) es) as Hwf1.
  { rewrite H5. destruct e; simpl in Hwf; rewrite ?orb_false_r, ?orb_true_r; tauto. }
  specialize (IH c1 H1 Hwf1 H6). destruct (tcp_run c1 es) as [[c' os'] w'].
  destruct IH as (I1 & I2 & I3 & I4 & I5 & I6 & I7).
  rewrite sent_data_app, filter_app, length_app, sent_length_app, host_bytes_cons.
  rewrite host_bytes_cons, app_nil_r in H2. split_and!; try done.
  - rewrite <-app_assoc, I1, app_assoc, H2, <-app_assoc. done.
  - apply numbered_app; [apply Hok|done|]. by rewrite <-H4.
  - rewrite I3, H4, u32_add_u32. f_equal. lia.
  - rewrite H7, I5. destruct (fin_sent c); [by destruct H8 as [-> _]|].
    destruct (fin_sent c1); [|done]. by destruct I6 as [-> _].
  - intros Hf. destruct (H8 Hf) as [Hf1 ->]. destruct (I6 Hf1) as [-> ->]. done.
  - by apply Forall_app.
Qed.

(** A FIN is the last of its flush, after all of its data. *)
Lemma flush_conn_shape c first ackn :
  conn_ok c →
  let '(_, os, _) := flush_conn c first ackn in
  ∃ ds tl, os = ds ++ tl ∧ Forall (λ o, is_fin o = false) ds ∧ sent_data tl = [].
Proof.
  intros Hok. unfold flush_conn. pose proof (send_data_spec (length (outgoing c)) c Hok) as Hs.
  destruct (send_data (length (outgoing c)) c) as [c1 os]. destruct Hs as (_ & _ & _ & _ & _ & _ & H & _).
  assert (Forall (λ o, is_fin o = false) os) as Hf by (eapply Forall_impl; [exact H|]; by intros o (_ & _ & ?)).
  destruct (_ && negb (fin_sent c1)); [by eexists os, _|].
  destruct (_ && bool_decide (os = [])); [by eexists os, _|]. exists os, []. by rewrite app_nil_r.
Qed.

(** Of a run too: no data comes after its FIN. *)
Definition fin_last (os : list OutSegment) : Prop :=
  ∃ ds tl, os = ds ++ tl ∧ Forall (λ o, is_fin o = false) ds ∧ sent_data tl = [].

Lemma fin_last_none os : filter (λ o, is_fin o = true) os = [] → Forall (λ o, is_fin o = false) os.
Proof.
  intros H. apply Forall_forall. intros o Ho. apply not_true_iff_false. intros Hf.
  assert (o ∈ filter (λ o, is_fin o = true) os) as Hin by by apply list_elem_of_filter.
  rewrite H in Hin. by apply elem_of_nil in Hin.
Qed.

Lemma tcp_step_shape c e :
  conn_ok c → (∀ s, e = GuestSegment s → 0 <= window s < 4294967296) → fin_last (tcp_step c e).1.2.
Proof.
  intros Hok Hw. unfold tcp_step, fin_last. destruct e as [bytes| |s].
  - pose proof (flush_conn_shape (with_send c (send_next c) (send_unacked c) (outgoing c ++ bytes) (fin_sent c)) true false Hok) as H.
    by destruct (flush_conn _ _ _) as [[c' os] ov].
  - pose proof (flush_conn_shape (with_host_closed c) true false Hok) as H. by destruct (flush_conn _ _ _) as [[c' os] ov].
  - pose proof (take_segment_send c s) as (H1 & _ & _ & _ & H5). destruct (take_segment c s) as [c1 w]. simpl in *.
    assert (conn_ok c1) as Hok1 by (split; [rewrite H1; apply Hok|rewrite H5; by apply Hw]).
    pose proof (flush_conn_shape c1 true (negb (bool_decide (data s = [])) || negb (Z.land (flags s) FIN =? 0)) Hok1) as H.
    by destruct (flush_conn c1 _ _) as [[c' os] ov].
Qed.

Lemma tcp_run_shape es c :
  conn_ok c → host_wf (host_closed c) es →
  (fin_sent c = true → outgoing c = [] ∧ host_closed c = true) → fin_last (tcp_run c es).1.2.
Proof.
  revert c; induction es as [|e es IH]; intros c Hok Hwf Hfin; simpl; [by exists [], []|].
  assert (∀ s, e = GuestSegment s → 0 <= window s < 4294967296) as Hw by (by intros s ->; apply Hwf).
  assert (host_closed c = true → ∀ b, e ≠ HostBytes b) as Hb.
  { intros Hc b ->. simpl in Hwf. destruct Hwf. congruence. }
  pose proof (tcp_step_sends c e Hok Hw Hfin Hb) as Hs. pose proof (tcp_step_shape c e Hok Hw) as Hsh.
  destruct (tcp_step c e) as [[c1 os1] w1]. destruct Hs as (H1 & H2 & H3 & H4 & H5 & H6 & H7 & H8 & H9).
  assert (host_wf (host_closed c1) es) as Hwf1.
  { rewrite H5. destruct e; simpl in Hwf; rewrite ?orb_false_r, ?orb_true_r; tauto. }
  specialize (IH c1 H1 Hwf1 H6). pose proof (tcp_run_sends es c1 H1 Hwf1 H6) as Hr.
  destruct (tcp_run c1 es) as [[c' os'] w']. destruct Hr as (_ & _ & _ & _ & _ & Hq & _). simpl in *.
  destruct Hsh as (ds & tl & -> & Hd & Ht). destruct IH as (ds' & tl' & -> & Hd' & Ht').
  destruct (fin_sent c1) eqn:Hf1.
  - destruct (Hq eq_refl) as [_ Hnone]. exists ds, (tl ++ ds' ++ tl'). rewrite <-app_assoc. split_and!; [done..|].
    by rewrite sent_data_app, Ht, Hnone.
  - exists ((ds ++ tl) ++ ds'), tl'. rewrite app_assoc. split_and!; [done| |done]. apply Forall_app. split; [|done].
    apply fin_last_none, length_zero_iff_nil. rewrite H7. by destruct (fin_sent c).
Qed.

(** A segment in a run of data holds the bytes at the place its number says. *)
Lemma numbered_place next os o :
  0 <= next < 4294967296 → numbered next os → Forall (λ o, is_fin o = false) os → o ∈ os →
  ∃ off, out_sequence o = u32 (next + Z.of_nat off) ∧
    out_data o = slice off (off + length (out_data o)) (sent_data os) ∧ (off + length (out_data o) ≤ length (sent_data os))%nat.
Proof.
  revert next; induction os as [|o' os IH]; intros next Hn Hnum Hf Ho; [by apply elem_of_nil in Ho|].
  apply Forall_cons in Hf as [Hf' Hf]. destruct Hnum as [Hs Hnum]. rewrite sent_data_cons, length_app.
  apply elem_of_cons in Ho as [->|Ho].
  - exists 0%nat. rewrite Z.add_0_r, u32_small by done. split_and!; [done| |simpl; lia].
    unfold slice. by rewrite drop_0, Nat.sub_0_r, Nat.add_0_l, take_app_length.
  - destruct (IH _ (u32_range _) Hnum Hf Ho) as (off & H1 & H2 & H3). exists (length (out_data o') + off)%nat.
    unfold out_length in H1. rewrite Hf', Z.add_0_r, u32_add_u32 in H1.
    split_and!; [rewrite H1; f_equal; lia| |lia].
    etransitivity; [exact H2|]. unfold slice. replace (length (out_data o') + off + length (out_data o) - (length (out_data o') + off))%nat with (length (out_data o)) by lia.
    replace (off + length (out_data o) - off)%nat with (length (out_data o)) by lia.
    f_equal. rewrite drop_app_ge by lia. f_equal. lia.
Qed.

Lemma slice_prefix {A} i j (l k : list A) : (j ≤ length l)%nat → slice i j (l ++ k) = slice i j l.
Proof.
  intros Hj. unfold slice. destruct (decide (i ≤ j)%nat).
  - rewrite drop_app_le by lia. apply take_app_le. rewrite length_drop. lia.
  - by replace (j - i)%nat with 0%nat by lia.
Qed.

Lemma fin_last_place next os o rest :
  0 <= next < 4294967296 → numbered next os → fin_last os → o ∈ os → out_data o ≠ [] →
  ∃ off, out_sequence o = u32 (next + Z.of_nat off) ∧ out_data o = slice off (off + length (out_data o)) (sent_data os ++ rest).
Proof.
  intros Hn Hnum (ds & tl & -> & Hd & Ht) [Ho|Ho]%elem_of_app Hne.
  - assert (numbered next ds) as Hnum'.
    { clear -Hnum. revert next Hnum. induction ds as [|d ds IH]; intros next; [done|]. intros [H1 H2]. split; [done|by apply IH]. }
    destruct (numbered_place next ds o Hn Hnum' Hd Ho) as (off & H1 & H2 & H3). exists off. split; [done|].
    by rewrite sent_data_app, <-app_assoc, slice_prefix.
  - exfalso. apply Hne. clear -Ho Ht. induction tl as [|t tl IH]; [by apply elem_of_nil in Ho|].
    rewrite sent_data_cons in Ht. apply app_nil in Ht as [Ht1 Ht2]. apply elem_of_cons in Ho as [->|Ho]; [done|by apply IH].
Qed.

(** ** The guest's bytes, in order *)

(** A segment that carries a piece of [stream] under its number, the first byte having number
    [start]; a FIN comes only after the last byte. *)
Definition carries (stream : list Z) (start : Z) (s : Segment) : Prop :=
  ∃ off, (off + length (data s) ≤ length stream)%nat ∧
    sequence s = u32 (start + Z.of_nat off) ∧ data s = slice off (off + length (data s)) stream ∧
    (negb (Z.land (flags s) FIN =? 0) = true → (off + length (data s))%nat = length stream).

(** Where the receiving side is in the stream. *)
Definition received (stream : list Z) (start : Z) (c : TcpConn) (n : nat) : Prop :=
  (n ≤ length stream)%nat ∧
  if guest_finished c then n = length stream ∧ receive_next c = u32 (start + Z.of_nat n + 1)
  else receive_next c = u32 (start + Z.of_nat n) ∧ is_Some (to_host c).

Lemma take_segment_receives stream start c n s :
  Z.of_nat (length stream) < 4294967295 → received stream start c n → carries stream start s →
  let '(c', w) := take_segment c s in
  ∃ n', received stream start c' n' ∧ w = slice n n' stream ∧ (n ≤ n')%nat.
Proof.
  intros Hlen Hrec (off & Hoff & Hseq & Hdata & Hfin). unfold take_segment.
  set (c0 := with_window c (window s)).
  assert (receive_next (take_ack c0 s) = receive_next c ∧ to_host (take_ack c0 s) = to_host c ∧
    guest_finished (take_ack c0 s) = guest_finished c) as (E1 & E2 & E3).
  { unfold take_ack. by repeat case_match. }
  generalize dependent (take_ack c0 s). intros c1 E1 E2 E3. clear c0.
  destruct Hrec as [Hn Hrec]. unfold take_data. rewrite E1, E2, E3.
  assert (∀ a b, (a ≤ length stream)%nat → (b ≤ S (length stream))%nat →
    u32 (start + Z.of_nat a) = u32 (start + Z.of_nat b) → a = b) as Hinj.
  { intros a b Ha Hb E. unfold u32 in E. Z.div_mod_to_equations. lia. }
  assert (slice n n stream = []) as Hnil by (unfold slice; by rewrite Nat.sub_diag).
  destruct (guest_finished c) eqn:Hgf.
  - destruct Hrec as [-> Hrn].
    assert ((sequence s =? receive_next c) = false) as ->.
    { apply Z.eqb_neq. rewrite Hseq, Hrn. intros E.
      replace (start + Z.of_nat (length stream) + 1) with (start + Z.of_nat (S (length stream))) in E by lia.
      apply Hinj in E; lia. }
    rewrite andb_false_r. exists (length stream). rewrite Hnil. split_and!; [|done|done].
    split; [done|]. unfold take_fin.
    assert ((u32 (sequence s + Z.of_nat (length (data s))) =? receive_next c1) = false) as ->.
    { apply Z.eqb_neq. rewrite E1, Hseq, Hrn, u32_add_u32. intros E.
      replace (start + Z.of_nat off + Z.of_nat (length (data s)))
        with (start + Z.of_nat (off + length (data s))) in E by lia.
      replace (start + Z.of_nat (length stream) + 1) with (start + Z.of_nat (S (length stream))) in E by lia.
      apply Hinj in E; lia. }
    rewrite andb_false_r, E3, E1. done.
  - destruct Hrec as [Hrn Hth].
    assert (∀ c2 k, receive_next c2 = u32 (start + Z.of_nat k) → is_Some (to_host c2) →
      guest_finished c2 = false → (k ≤ length stream)%nat → received stream start (take_fin c2 s) k) as Hf.
    { intros c2 k Hr2 Ht2 Hg2 Hk. split; [done|]. unfold take_fin.
      destruct (negb _ && _) eqn:Ef; [|by rewrite Hg2].
      apply andb_true_iff in Ef as [Ef1 Ef2]. apply Z.eqb_eq in Ef2. simpl.
      rewrite Hseq, u32_add_u32, Hr2 in Ef2. rewrite Hr2, u32_add_u32. split; [|done].
      replace (start + Z.of_nat off + Z.of_nat (length (data s)))
        with (start + Z.of_nat (off + length (data s))) in Ef2 by lia.
      apply Hinj in Ef2; [|lia|lia]. rewrite <-Ef2. by apply Hfin. }
    destruct (negb (bool_decide (data s = [])) && (sequence s =? receive_next c)) eqn:Ed.
    + apply andb_true_iff in Ed as [_ Ed%Z.eqb_eq]. rewrite Hseq, Hrn in Ed. apply Hinj in Ed; [|lia|lia].
      subst off. exists (n + length (data s))%nat. rewrite bool_decide_true by done.
      split_and!; [|done|lia]. apply Hf; [|done|done|done]. simpl. rewrite Hrn, u32_add_u32. f_equal. lia.
    + exists n. rewrite Hnil. split_and!; [|done|done]. apply Hf; [by rewrite E1|by rewrite E2|done|done].
Qed.

Lemma slice_slice_app {A} (l : list A) i j k :
  (i ≤ j)%nat → (j ≤ k)%nat → slice i j l ++ slice j k l = slice i k l.
Proof.
  intros. unfold slice. rewrite <-(take_drop (j - i) (take (k - i) (drop i l))).
  rewrite take_take, skipn_firstn_comm, drop_drop. f_equal; [f_equal; lia|]. f_equal; [lia|]. f_equal. lia.
Qed.

(** The receiving side is untouched by sending. *)
Lemma flush_conn_received stream start c n first a :
  received stream start c n → conn_ok c → received stream start (flush_conn c first a).1.1 n.
Proof.
  intros Hr Hok. pose proof (flush_conn_spec c first a Hok) as H.
  destruct (flush_conn c first a) as [[c' os] over]. destruct H as (_ & H2 & _).
  destruct H2 as (_ & E1 & _ & E2 & _ & _ & E3 & _). unfold received in *. simpl. by rewrite E1, E2, E3.
Qed.

Lemma tcp_run_receives stream start es c n :
  Z.of_nat (length stream) < 4294967295 → conn_ok c → host_wf (host_closed c) es →
  (fin_sent c = true → outgoing c = [] ∧ host_closed c = true) →
  received stream start c n →
  Forall (λ e, ∀ s, e = GuestSegment s → carries stream start s) es →
  let '(c', _, w) := tcp_run c es in
  ∃ n', received stream start c' n' ∧ w = slice n n' stream ∧ (n ≤ n')%nat.
Proof.
  intros Hlen. revert c n; induction es as [|e es IH]; intros c n Hok Hwf Hfin Hrec Hc; simpl.
  { exists n. unfold slice. by rewrite Nat.sub_diag. }
  apply Forall_cons in Hc as [He Hes]. pose proof (tcp_step_sends c e Hok) as Hs.
  assert (∀ s, e = GuestSegment s → 0 <= window s < 4294967296) as Hw by (by intros s ->; apply Hwf).
  assert (host_closed c = true → ∀ b, e ≠ HostBytes b) as Hb.
  { intros Hcl b ->. simpl in Hwf. destruct Hwf. congruence. }
  specialize (Hs Hw Hfin Hb).
  assert (∃ n1, let '(c1, _, w1) := tcp_step c e in
    received stream start c1 n1 ∧ w1 = slice n n1 stream ∧ (n ≤ n1)%nat) as (n1 & Hn1).
  { clear Hs IH. unfold tcp_step. destruct e as [bytes| |s].
    - exists n. set (c0 := with_send c _ _ _ _). pose proof (flush_conn_received stream start c0 n true false Hrec Hok).
      destruct (flush_conn c0 true false) as [[c1 os1] ov]. unfold slice. by rewrite Nat.sub_diag.
    - exists n. set (c0 := with_host_closed c). pose proof (flush_conn_received stream start c0 n true false Hrec Hok).
      destruct (flush_conn c0 true false) as [[c1 os1] ov]. unfold slice. by rewrite Nat.sub_diag.
    - pose proof (take_segment_receives stream start c n s Hlen Hrec (He s eq_refl)) as Ht.
      pose proof (take_segment_send c s) as (H1 & _ & _ & _ & H5).
      destruct (take_segment c s) as [c0 w0]. destruct Ht as (n1 & Hr1 & -> & Hle). exists n1. simpl in *.
      assert (conn_ok c0) as Hok0 by (split; [rewrite H1; apply Hok|rewrite H5; by apply (Hw s)]).
      pose proof (flush_conn_received stream start c0 n1 true (negb (bool_decide (data s = [])) || negb (Z.land (flags s) FIN =? 0)) Hr1 Hok0).
      by destruct (flush_conn c0 _ _) as [[c1 os1] ov]. }
  destruct (tcp_step c e) as [[c1 os1] w1]. destruct Hn1 as (Hr1 & -> & Hle).
  destruct Hs as (H1 & _ & _ & _ & H5 & H6 & _).
  assert (host_wf (host_closed c1) es) as Hwf1.
  { rewrite H5. destruct e; simpl in Hwf; rewrite ?orb_false_r, ?orb_true_r; tauto. }
  specialize (IH c1 n1 H1 Hwf1 H6 Hr1 Hes). destruct (tcp_run c1 es) as [[c' os'] w'].
  destruct IH as (n' & Hr' & -> & Hle'). exists n'. split_and!; [done| |lia].
  by apply slice_slice_app.
Qed.

(** ** The writer thread, and the end

    What [take_segment] hands the writer waits in its channel until the thread gets its turn; what the
    host's peer gets is what the thread has written. *)

(** The channel, whether the sender is gone ([to_host] is [None]), whether the socket was shut down both
    ways under the thread ([close_socket]), what it wrote, whether it has ended, and whether that was the
    orderly end: everything written, then the sending side closed. *)
Record Writer := mk_writer {
  w_queue : list (list Z);
  w_closed : bool;
  w_shut : bool;
  w_host : list Z;
  w_stopped : bool;
  w_ended : bool;
}.
Definition writer_new : Writer := mk_writer [] false false [] false false.

(** One turn: the next chunk is written, or ([wrote]) only that much of it before an error, as on a
    socket that was shut down; or the channel is empty and closed. *)
Definition writer_turn (wrote : option nat) (w : Writer) : Writer :=
  if w_stopped w then w
  else match w_queue w with
       | chunk :: q =>
           if w_shut w then mk_writer q (w_closed w) true (w_host w) true false
           else match wrote with
                | None => mk_writer q (w_closed w) false (w_host w ++ chunk) false false
                | Some n => mk_writer q (w_closed w) false (w_host w ++ take n chunk) true false
                end
       | [] =>
           if w_closed w then mk_writer [] true (w_shut w) (w_host w) true (negb (w_shut w)) else w
       end.

(** What a segment hands over: its bytes, and the end of the channel after the guest's FIN. *)
Definition hand_over (bytes : list Z) (c : TcpConn) (w : Writer) : Writer :=
  mk_writer (if bool_decide (bytes = []) then w_queue w else w_queue w ++ [bytes])
    (w_closed w || bool_decide (to_host c = None)) (w_shut w) (w_host w) (w_stopped w) (w_ended w).

(** [close_socket]. *)
Definition close_socket (c : TcpConn) (w : Writer) : Writer :=
  mk_writer (w_queue w) true (w_shut w || socket c) (w_host w) (w_stopped w) (w_ended w).

Inductive life_event :=
  | Tcp (e : tcp_event)
  | WriterTurn (wrote : option nat)
  | GuestReset.

(** Whether [flush] finds the connection over. *)
Definition conn_over (c : TcpConn) : bool := fin_sent c && guest_finished c && (send_unacked c =? send_next c).

(** A connection's life with its writer's, until it is over or reset; the writer goes on after that. *)
Fixpoint life (c : option TcpConn) (w : Writer) (es : list life_event) : option TcpConn * Writer :=
  match es with
  | [] => (c, w)
  | WriterTurn wrote :: es => life c (writer_turn wrote w) es
  | GuestReset :: es => life None (match c with Some c => close_socket c w | None => w end) es
  | Tcp e :: es =>
      match c with
      | None => life None w es
      | Some c =>
          let '(c, _, bytes) := tcp_step c e in
          let w := hand_over bytes c w in
          if conn_over c then life None (close_socket c w) es else life (Some c) w es
      end
  end.

(** Of the first [n] bytes of the stream, handed over: what was written, and, while the thread lives, what
    waits; the orderly end comes after all of them, and, without a reset, of the stream. *)
Definition writer_ok (stream : list Z) (n : nat) (reset : Prop) (w : Writer) : Prop :=
  (∃ rest, take n stream = w_host w ++ rest ∧ (w_stopped w = false → rest = concat (w_queue w)) ∧
     (w_ended w = true → rest = [] ∧ w_closed w = true)) ∧
  (n ≤ length stream)%nat ∧ (w_closed w = true → reset ∨ n = length stream).

Lemma writer_turn_ok stream n reset wrote w : writer_ok stream n reset w → writer_ok stream n reset (writer_turn wrote w).
Proof.
  intros Hw. pose proof Hw as ((rest & Ht & Hs & He) & Hn & Hc). unfold writer_turn.
  destruct (w_stopped w) eqn:Est; [done|]. specialize (Hs eq_refl). destruct (w_queue w) as [|chunk q] eqn:Eq; simpl in Hs.
  - destruct (w_closed w) eqn:Ec; [|done]. split; [|done]. exists rest. by split_and!.
  - destruct (w_shut w); [split; [by exists rest; split_and!|done]|].
    destruct wrote as [k|]; (split; [|done]); cbn.
    + exists (drop k chunk ++ concat q). split_and!; [|done|done]. by rewrite Ht, Hs, <-app_assoc, (app_assoc (take k chunk)), take_drop.
    + exists (concat q). split_and!; [|done|done]. by rewrite Ht, Hs, app_assoc.
Qed.

Lemma hand_over_ok stream n n' (reset : Prop) c w :
  writer_ok stream n reset w → (n ≤ n')%nat → (n' ≤ length stream)%nat →
  (to_host c = None → n' = length stream) → (w_closed w = true → n' = n) →
  writer_ok stream n' reset (hand_over (slice n n' stream) c w).
Proof.
  intros ((rest & Ht & Hs & He) & Hn & Hc) Hle Hn' Hth Hcl. unfold hand_over.
  assert (take n' stream = take n stream ++ slice n n' stream) as Hsl.
  { unfold slice. rewrite <-(take_drop n (take n' stream)), take_take, Nat.min_l by lia. f_equal.
    by rewrite skipn_firstn_comm. }
  split; cbn; [|split; [done|]].
  - exists (rest ++ slice n n' stream). split_and!.
    + by rewrite Hsl, Ht, app_assoc.
    + intros E. rewrite (Hs E). case_bool_decide as Hb; [by rewrite Hb, app_nil_r|]. by rewrite concat_app, concat_cons, concat_nil, app_nil_r.
    + intros E. destruct (He E) as [-> Ec]. rewrite (Hcl Ec). unfold slice. by rewrite Nat.sub_diag, Ec.
  - intros [Ec|Ec%bool_decide_eq_true]%orb_true_iff; [|right; by apply Hth].
    destruct (Hc Ec) as [?|?]; [by left|right]. rewrite (Hcl Ec). done.
Qed.

Lemma close_socket_ok stream n (reset : Prop) c w :
  writer_ok stream n reset w → (reset ∨ n = length stream) → writer_ok stream n reset (close_socket c w).
Proof.
  intros ((rest & Ht & Hs & He) & Hn & Hc) Hr. split; [|done]. exists rest. split_and!; [done|done|].
  intros E. by destruct (He E).
Qed.

(** The numbers stay in range, and what the guest finished stays so. *)
Lemma tcp_step_kept c e :
  conn_ok c → (∀ s, e = GuestSegment s → 0 <= window s < 4294967296) →
  conn_ok (tcp_step c e).1.1 ∧ (guest_finished c = true → guest_finished (tcp_step c e).1.1 = true).
Proof.
  intros Hok Hw. unfold tcp_step.
  assert (∀ c1 first a, conn_ok c1 → (guest_finished c = true → guest_finished c1 = true) →
    conn_ok (flush_conn c1 first a).1.1 ∧ (guest_finished c = true → guest_finished (flush_conn c1 first a).1.1 = true)) as Hf.
  { intros c1 first a Hok1 H1. pose proof (flush_conn_spec c1 first a Hok1) as H. destruct (flush_conn c1 first a) as [[c' os] over].
    destruct H as (Hok' & (_ & _ & _ & _ & _ & _ & E2 & _) & _). simpl. by rewrite E2. }
  destruct e as [bytes| |s].
  - specialize (Hf (with_send c (send_next c) (send_unacked c) (outgoing c ++ bytes) (fin_sent c)) true false Hok id).
    by destruct (flush_conn _ _ _) as [[c' os] ov].
  - specialize (Hf (with_host_closed c) true false Hok id). by destruct (flush_conn _ _ _) as [[c' os] ov].
  - pose proof (take_segment_send c s) as (H1 & _ & _ & _ & H5).
    assert (guest_finished c = true → guest_finished (take_segment c s).1 = true) as Ht.
    { unfold take_segment, take_data, take_ack. repeat case_match; simplify_eq/=; unfold take_fin; repeat case_match; simplify_eq/=; auto. }
    destruct (take_segment c s) as [c1 w]. simpl in *.
    assert (conn_ok c1) as Hok1 by (split; [rewrite H1; apply Hok|rewrite H5; by apply (Hw s)]).
    specialize (Hf c1 true (negb (bool_decide (data s = [])) || negb (Z.land (flags s) FIN =? 0)) Hok1 Ht).
    by destruct (flush_conn c1 _ _) as [[c' os] ov].
Qed.

(** The receiving side over one event, from a connection that is not over. *)
Lemma tcp_step_receives stream start c n e :
  Z.of_nat (length stream) < 4294967295 → conn_ok c → (∀ s, e = GuestSegment s → 0 <= window s < 4294967296) →
  received stream start c n → (∀ s, e = GuestSegment s → carries stream start s) →
  let '(c1, _, w1) := tcp_step c e in
  ∃ n1, received stream start c1 n1 ∧ w1 = slice n n1 stream ∧ (n ≤ n1)%nat.
Proof.
  intros Hlen Hok Hw Hrec He. unfold tcp_step. destruct e as [bytes| |s].
  - set (c0 := with_send c _ _ _ _). pose proof (flush_conn_received stream start c0 n true false Hrec Hok).
    destruct (flush_conn c0 true false) as [[c1 os1] ov]. exists n. unfold slice. by rewrite Nat.sub_diag.
  - set (c0 := with_host_closed c). pose proof (flush_conn_received stream start c0 n true false Hrec Hok).
    destruct (flush_conn c0 true false) as [[c1 os1] ov]. exists n. unfold slice. by rewrite Nat.sub_diag.
  - pose proof (take_segment_receives stream start c n s Hlen Hrec (He s eq_refl)) as Ht.
    pose proof (take_segment_send c s) as (H1 & _ & _ & _ & H5).
    destruct (take_segment c s) as [c0 w0]. destruct Ht as (n1 & Hr1 & -> & Hle). simpl in *.
    assert (conn_ok c0) as Hok0 by (split; [rewrite H1; apply Hok|rewrite H5; by apply (Hw s)]).
    pose proof (flush_conn_received stream start c0 n1 true (negb (bool_decide (data s = [])) || negb (Z.land (flags s) FIN =? 0)) Hr1 Hok0).
    destruct (flush_conn c0 _ _) as [[c1 os1] ov]. by exists n1.
Qed.

(** [to_host] goes with the guest's FIN, and only then. *)
Definition host_side (c : TcpConn) : Prop := to_host c = None → guest_finished c = true.

Lemma tcp_step_host_side c e : conn_ok c → (∀ s, e = GuestSegment s → 0 <= window s < 4294967296) → host_side c → host_side (tcp_step c e).1.1.
Proof.
  intros Hok Hw Hc. unfold tcp_step.
  assert (∀ c1 first a, conn_ok c1 → host_side c1 → host_side (flush_conn c1 first a).1.1) as Hf.
  { intros c1 first a Hok1 H1. pose proof (flush_conn_spec c1 first a Hok1) as H. destruct (flush_conn c1 first a) as [[c' os] over].
    destruct H as (_ & (_ & _ & _ & E1 & _ & _ & E2 & _) & _). unfold host_side. simpl. by rewrite E1, E2. }
  destruct e as [bytes| |s].
  - specialize (Hf (with_send c (send_next c) (send_unacked c) (outgoing c ++ bytes) (fin_sent c)) true false Hok Hc).
    by destruct (flush_conn _ _ _) as [[c' os] ov].
  - specialize (Hf (with_host_closed c) true false Hok Hc). by destruct (flush_conn _ _ _) as [[c' os] ov].
  - pose proof (take_segment_send c s) as (H1 & _ & _ & _ & H5).
    assert (host_side (take_segment c s).1) as Ht.
    { unfold take_segment, take_data, take_ack, host_side in *. repeat case_match; simplify_eq/=; unfold take_fin; repeat case_match; simplify_eq/=; auto. }
    destruct (take_segment c s) as [c1 w]. simpl in *.
    assert (conn_ok c1) as Hok1 by (split; [rewrite H1; apply Hok|rewrite H5; by apply (Hw s)]).
    specialize (Hf c1 true (negb (bool_decide (data s = [])) || negb (Z.land (flags s) FIN =? 0)) Hok1 Ht).
    by destruct (flush_conn c1 _ _) as [[c' os] ov].
Qed.

Lemma life_gone stream n reset w es : writer_ok stream n reset w → let '(c', w') := life None w es in c' = None ∧ writer_ok stream n reset w'.
Proof.
  revert w; induction es as [|[e|wrote|] es IH]; intros w Hw; simpl; [done|by apply IH|by apply IH, writer_turn_ok|by apply IH].
Qed.

(** The events of a connection whose guest sends this stream. *)
Definition life_carries (stream : list Z) (start : Z) (e : life_event) : Prop :=
  ∀ s, e = Tcp (GuestSegment s) → carries stream start s ∧ 0 <= window s < 4294967296.

Lemma life_ok stream start es c n w :
  Z.of_nat (length stream) < 4294967295 → conn_ok c → host_side c → received stream start c n →
  Forall (life_carries stream start) es → (w_closed w = true → guest_finished c = true) →
  writer_ok stream n (GuestReset ∈ es) w →
  let '(r, w') := life (Some c) w es in
  ∃ n', writer_ok stream n' (GuestReset ∈ es) w' ∧ ∀ c', r = Some c' → received stream start c' n'.
Proof.
  intros Hlen. assert (∀ reset : Prop, ∀ es c n w, conn_ok c → host_side c → received stream start c n →
    Forall (life_carries stream start) es → (GuestReset ∈ es → reset) → (w_closed w = true → guest_finished c = true) →
    writer_ok stream n reset w → let '(r, w') := life (Some c) w es in
    ∃ n', writer_ok stream n' reset w' ∧ ∀ c', r = Some c' → received stream start c' n') as Hall; [|intros; by apply (Hall (GuestReset ∈ es) es c n w)].
  clear es c n w. intros reset es; induction es as [|e es IH]; intros c n w Hok Hhs Hrec Hes Hr Hcl Hw; simpl.
  { exists n. split; [done|]. by intros c' [= <-]. }
  apply Forall_cons in Hes as [He Hes]. assert (GuestReset ∈ es → reset) as Hr' by (intros H; apply Hr; by right).
  destruct e as [e|wrote|].
  - assert (∀ s, e = GuestSegment s → 0 <= window s < 4294967296) as Hwin by (by intros s ->; apply (He s)).
    pose proof (tcp_step_receives stream start c n e Hlen Hok Hwin Hrec) as Hs. pose proof (tcp_step_host_side c e Hok Hwin Hhs) as Hhs1.
    pose proof (tcp_step_kept c e Hok Hwin) as [Hok1 Hg1].
    destruct (tcp_step c e) as [[c1 os1] w1]. destruct Hs as (n1 & Hrec1 & -> & Hle); [by intros s ->; apply (He s)|]. cbn [fst snd] in *.
    pose proof Hrec1 as [Hn1 Hf1].
    assert (writer_ok stream n1 reset (hand_over (slice n n1 stream) c1 w)) as Hw1.
    { apply hand_over_ok; [done|done|done| |].
      - intros Hth. rewrite (Hhs1 Hth) in Hf1. apply Hf1.
      - intros Hc. destruct Hrec as [_ Hrec]. rewrite (Hcl Hc) in Hrec. lia. }
    destruct (conn_over c1) eqn:Hov.
    + apply andb_true_iff in Hov as [[_ Hg]%andb_true_iff _]. rewrite Hg in Hf1.
      pose proof (life_gone stream n1 reset (close_socket c1 (hand_over (slice n n1 stream) c1 w)) es) as Hgone.
      destruct (life None _ es) as [r w']. destruct Hgone as [-> Hw']; [apply close_socket_ok; [done|right; apply Hf1]|].
      exists n1. by split.
    + apply (IH c1 n1); try done. cbn. intros [Hc|Hc%bool_decide_eq_true]%orb_true_iff; [|by apply Hhs1].
      by apply Hg1, Hcl.
  - apply (IH c n); try done; [|by apply writer_turn_ok]. intros Hc. apply Hcl. rewrite <-Hc. unfold writer_turn.
    repeat case_match; done.
  - pose proof (life_gone stream n reset (close_socket c w) es) as Hgone.
    destruct (life None _ es) as [r w']. destruct Hgone as [-> Hw']; [apply close_socket_ok; [done|left; apply Hr; left]|].
    exists n. by split.
Qed.

(** ** Who may be reached *)

Definition with_policy (s : Stack) (p : Policy) : Stack :=
  mk_stack p (has_asker s) (has_interceptor s) (pending s) (st_conns s) (resolved s) (next_id s)
    (pings s) (threads s) (lookups s) (randoms s) (channels s) (dials s) (events s).

Section reach.
Context {LC : Lowercase}.

(** What can happen to the stack: a frame of the guest, a turn of one of its threads with any outcome, a
    frame taken by the guest, a reset, a new policy. *)
Inductive Action : Type :=
  | GuestSends (frame : list Z)
  | AppAnswers (key : ConnKey) (id seq : Z) (what : str) (target : Ipv4Addr) (answer : bool)
  | Connects (key : ConnKey) (address : Ipv4Addr * Z) (outcome : result str unit) (cloned : bool)
  | HostReads (key : ConnKey) (outcome : option (list Z))
  | Pings (destination : Ipv4Addr) (request : list Z) (answer : bool) (echo : result str (option Z))
  | Delivers (m : mem) (chain : Chain)
  | QueuesReset
  | PolicySet (p : Policy).

Inductive net_step : Stack → Action → Stack → Prop :=
  | nstep_frame s frame : net_step s (GuestSends frame) (receive_frame s frame)
  | nstep_ask s t1 t2 key id seq what target answer :
      threads s = t1 ++ TAsk key id seq what target :: t2 →
      net_step s (AppAnswers key id seq what target answer) (run_ask (with_threads s (t1 ++ t2)) key id seq what target answer)
  | nstep_connect s t1 t2 key address outcome cloned :
      threads s = t1 ++ TConnect key address :: t2 →
      net_step s (Connects key address outcome cloned) (run_connect (with_threads s (t1 ++ t2)) key address outcome cloned)
  | nstep_read s t1 t2 key outcome :
      threads s = t1 ++ TRead key :: t2 →
      net_step s (HostReads key outcome) (run_read (with_threads s (t1 ++ t2)) key outcome)
  | nstep_ping s t1 t2 destination request answer echo :
      threads s = t1 ++ TPing destination request :: t2 →
      net_step s (Pings destination request answer echo) (run_ping (with_threads s (t1 ++ t2)) destination request answer echo)
  | nstep_deliver s m chain : net_step s (Delivers m chain) (deliver_frame s m chain).2.1
  | nstep_reset s : net_step s QueuesReset (with_pending s [])
  | nstep_policy s p : net_step s (PolicySet p) (with_policy s p).

(** A run: what happened, each with the state it happened in, and the state it led to. *)
Inductive net_run (init : Stack) : list (Stack * Action) → Stack → Prop :=
  | run_nil : net_run init [] init
  | run_snoc tr s a s' : net_run init tr s → net_step s a s' → net_run init (tr ++ [(s, a)]) s'.

Definition real_target (destination : Ipv4Addr) : Ipv4Addr :=
  if bool_decide (destination = GATEWAY) then LOCALHOST else destination.

(** The frame is the guest's SYN for this connection. *)
Definition opens (frame : list Z) (key : ConnKey) : Prop :=
  ∃ packet payload seg, parse_ethernet frame = Some (ETHERTYPE_IPV4, packet) ∧
    parse_ipv4 packet = Some (PROTO_TCP, key.1.2, payload) ∧ parse_tcp payload = Some seg ∧
    source_port seg = key.1.1 ∧ destination_port seg = key.2 ∧ Z.land (flags seg) SYN ≠ 0.

(** What the lists of the policy in force let through: this computer by the app's switch alone; anything
    else under its own name or one it was resolved from. *)
Definition lists_allow (s : Stack) (destination : Ipv4Addr) : Prop :=
  let p := st_policy s in
  if NetPacket.is_loopback (real_target destination) then allow_loopback p = true
  else refuses_host p (ip_string destination) = None ∨
       ∃ name, name ∈ default [] (resolved s !! destination) ∧ refuses_host p name = None.

(** The question that is the app's to answer: about a host the lists are silent on, with the port. *)
Definition asks_about (s : Stack) (destination : Ipv4Addr) (port : Z) (what : str) : Prop :=
  let p := st_policy s in
  NetPacket.is_loopback (real_target destination) = false ∧ ask p = true ∧ has_asker s = true ∧
  ∃ host, what = host ++ lit ":" ++ decimal port ∧ unlisted p host = true ∧
    (host = ip_string destination ∨ host ∈ default [] (resolved s !! destination)).

Lemma decide_spec s destination port :
  match decide_address s destination (real_target destination) (Some port) with
  | Allow => lists_allow s destination
  | Refuse _ => True
  | Ask what => asks_about s destination port what
  end.
Proof.
  unfold decide_address, lists_allow, asks_about.
  destruct (NetPacket.is_loopback (real_target destination)); [by destruct (allow_loopback (st_policy s))|].
  set (names := default [] (resolved s !! destination)).
  destruct (existsb _ names) eqn:Hn.
  { right. apply existsb_exists in Hn as (name & Hin & Hr%bool_decide_eq_true).
    exists name. split; [by apply list_elem_of_In|done]. }
  destruct (refuses_host _ (ip_string destination)) as [reason|]; [|by left].
  destruct (ask (st_policy s) && has_asker s) eqn:Ha; [|done]. apply andb_true_iff in Ha as [-> ->].
  assert (∀ host, (match names with [] => if unlisted (st_policy s) (ip_string destination) then Some (ip_string destination) else None
    | _ => find (λ name, unlisted (st_policy s) name) names end) = Some host →
    unlisted (st_policy s) host = true ∧ (host = ip_string destination ∨ host ∈ names)) as Hh.
  { intros host. destruct names as [|n ns] eqn:En.
    - destruct (unlisted _ _) eqn:Hu; [|done]. intros [= <-]. by split; [|left].
    - intros [Hin Hu]%find_some. split; [done|]. right. by apply list_elem_of_In. }
  destruct (match names with [] => _ | _ => _ end) as [host|] eqn:E; [|by destruct names].
  destruct (Hh host eq_refl) as [Hu Hin]. split_and!; [done..|]. by exists host.
Qed.

(** The guest asked for this connection, and it was granted: by the lists in force when its SYN came, or
    by the app's yes, later, to the question its SYN led to. *)
Definition granted (tr : list (Stack * Action)) (key : ConnKey) : Prop :=
  ∃ tr1 s0 frame tr2, tr = tr1 ++ (s0, GuestSends frame) :: tr2 ∧ opens frame key ∧
    (lists_allow s0 key.1.2 ∨
     ∃ what s1 id seq target, asks_about s0 key.1.2 key.2 what ∧ (s1, AppAnswers key id seq what target true) ∈ tr2).

Definition asked (tr : list (Stack * Action)) (key : ConnKey) (what : str) : Prop :=
  ∃ tr1 s0 frame tr2, tr = tr1 ++ (s0, GuestSends frame) :: tr2 ∧ opens frame key ∧ asks_about s0 key.1.2 key.2 what.

(** A thread that will reach out was granted it, or asks for it. *)
Definition thread_ok (tr : list (Stack * Action)) (t : Thread) : Prop :=
  match t with
  | TConnect key address => address = (real_target key.1.2, key.2) ∧ granted tr key
  | TAsk key _ _ what target => target = real_target key.1.2 ∧ asked tr key what
  | _ => True
  end.

(** An address was dialled by the thread of one connection, for which it was granted before. *)
Definition dial_ok (tr : list (Stack * Action)) (d : Ipv4Addr * Z * bool) : Prop :=
  ∃ key tr1 s1 outcome cloned tr2, tr = tr1 ++ (s1, Connects key d.1 outcome cloned) :: tr2 ∧
    d.1 = (real_target key.1.2, key.2) ∧ granted tr1 key.

Definition reach_ok (tr : list (Stack * Action)) (s : Stack) : Prop :=
  Forall (thread_ok tr) (threads s) ∧ Forall (dial_ok tr) (dials s).

Lemma granted_snoc tr x key : granted tr key → granted (tr ++ [x]) key.
Proof.
  intros (tr1 & s0 & frame & tr2 & -> & Ho & H). exists tr1, s0, frame, (tr2 ++ [x]). rewrite <-app_assoc. split_and!; [done..|].
  destruct H as [H|(what & s1 & id & seq & target & Ha & Hin)]; [by left|right].
  exists what, s1, id, seq, target. split; [done|]. apply elem_of_app. by left.
Qed.
Lemma net_thread_ok_snoc tr x t : thread_ok tr t → thread_ok (tr ++ [x]) t.
Proof.
  destruct t as [key id seq what target|key address| |]; [|intros [-> H]; split; [done|by apply granted_snoc]|done..].
  intros [-> (tr1 & s0 & frame & tr2 & -> & H)]. split; [done|]. exists tr1, s0, frame, (tr2 ++ [x]). by rewrite <-app_assoc.
Qed.
Lemma dial_ok_snoc tr x d : dial_ok tr d → dial_ok (tr ++ [x]) d.
Proof.
  intros (key & tr1 & s1 & o & c & tr2 & -> & H). exists key, tr1, s1, o, c, (tr2 ++ [x]). by rewrite <-app_assoc.
Qed.
Lemma reach_ok_snoc tr x s : reach_ok tr s → reach_ok (tr ++ [x]) s.
Proof.
  intros [Ht Hd]. split; [by eapply Forall_impl, net_thread_ok_snoc|by eapply Forall_impl, dial_ok_snoc].
Qed.

(** Operations that start no thread and dial nothing. *)
Definition quiet (s s' : Stack) : Prop := threads s' = threads s ∧ dials s' = dials s.

Lemma flush_quiet s keys a : quiet s (flush s keys a).
Proof.
  unfold flush. destruct (flush_keys keys a [] [] (st_conns s)) as [[frames fin] m].
  set (s1 := with_pending _ _). assert (quiet s s1) as H by done. clearbody s1.
  revert s1 H. induction fin.*2 as [|c cs IH]; intros s1 H; simpl; [done|]. by apply IH.
Qed.

Lemma to_writer_quiet s c b : quiet s (to_writer s c b).
Proof. by destruct c. Qed.

Lemma quiet_trans s1 s2 s3 : quiet s1 s2 → quiet s2 s3 → quiet s1 s3.
Proof. unfold quiet. intros [? ?] [? ?]. split; congruence. Qed.

Lemma quiet_reach tr s s' : quiet s s' → reach_ok tr s → reach_ok tr s'.
Proof. unfold reach_ok. by intros [-> ->]. Qed.

Lemma reach_without tr s t1 t t2 : threads s = t1 ++ t :: t2 → reach_ok tr s → thread_ok tr t ∧ reach_ok tr (with_threads s (t1 ++ t2)).
Proof.
  intros Ht [Hth Hd]. rewrite Ht in Hth. apply Forall_app in Hth as [H1 [H H2]%Forall_cons].
  split; [done|]. split; [by apply Forall_app|done].
Qed.

Lemma reach_spawn tr s t : thread_ok tr t → reach_ok tr s → reach_ok tr (spawn s t).
Proof. intros Ht [Hth Hd]. split; [|done]. apply Forall_app. split; [done|]. by apply Forall_singleton. Qed.

Lemma resolve_quiet s name kind : quiet s (resolve s name kind).2.
Proof.
  unfold resolve. destruct (dns_refused s name); [done|]. destruct (kind =? 1); [|done].
  destruct (default _ _); [|done]. simpl. by case_bool_decide.
Qed.

Lemma answer_dns_quiet s q : quiet s (answer_dns s q).2.
Proof.
  unfold answer_dns. destruct (bool_decide _); [done|]. destruct (negb _); [done|].
  destruct (read_name 128 q 12 []) as [[name at_]|]; [|done].
  destruct (bool_decide _); [done|]. cbv zeta.
  match goal with |- context [resolve s ?n ?k] => pose proof (resolve_quiet s n k) as H;
    destruct (resolve s n k) as [[a c] s1] end. done.
Qed.

Lemma reach_open tr s frame key seq win :
  opens frame key → reach_ok tr s → reach_ok (tr ++ [(s, GuestSends frame)]) (open s key seq win).
Proof.
  intros Ho Hok. apply (reach_ok_snoc _ (s, GuestSends frame)) in Hok. unfold open. destruct key as [[gp dest] port].
  fold (real_target dest). set (s1 := with_next_id s _).
  change (decide_address s1 dest (real_target dest) (Some port)) with (decide_address s dest (real_target dest) (Some port)).
  pose proof (decide_spec s dest port) as Hdec.
  destruct (decide_address s dest (real_target dest) (Some port)) as [|reason|what]; [|by eapply quiet_reach|];
    (case_bool_decide; [by eapply quiet_reach|]);
    (apply reach_spawn; [|by eapply quiet_reach]); (split; [done|]); exists tr, s, frame, []; (split_and!; [done|done|]); [by left|done].
Qed.

Lemma reach_frame tr s frame : reach_ok tr s → reach_ok (tr ++ [(s, GuestSends frame)]) (receive_frame s frame).
Proof.
  intros Hok. pose proof (reach_ok_snoc _ (s, GuestSends frame) _ Hok) as Hok'.
  unfold receive_frame. destruct (parse_ethernet frame) as [[kind packet]|] eqn:Hp; [|done].
  destruct (kind =? ETHERTYPE_ARP).
  { eapply quiet_reach; [|done]. unfold receive_arp. repeat case_match; done. }
  destruct (Z.eqb_spec kind ETHERTYPE_IPV4) as [->|]; [|done]. unfold receive_ipv4.
  destruct (parse_ipv4 packet) as [[[protocol dest] payload]|] eqn:Hi; [|done].
  destruct (protocol =? PROTO_ICMP).
  { unfold receive_icmp. destruct (_ || _); [done|]. case_bool_decide; [by eapply quiet_reach|].
    destruct (_ <=? _); [done|]. apply reach_spawn; [done|by eapply quiet_reach]. }
  destruct (protocol =? PROTO_UDP).
  { eapply quiet_reach; [|done]. unfold receive_udp.
    destruct (parse_dns_datagram payload) as [[sp q]|]; [|done].
    pose proof (answer_dns_quiet s q) as Hq. destruct (answer_dns s q) as [[a|] s1]; done. }
  destruct (Z.eqb_spec protocol PROTO_TCP) as [->|]; [|done]. unfold receive_tcp.
  destruct (parse_tcp payload) as [seg|] eqn:Ht; [|done].
  destruct (negb (Z.land (flags seg) SYN =? 0) && _) eqn:Hsyn.
  { apply andb_true_iff in Hsyn as [Hsyn%negb_true_iff%Z.eqb_neq _]. apply reach_open; [|done].
    by exists packet, payload, seg. }
  clear Hsyn. destruct (st_conns s !! _) as [c|]; [|destruct (_ && _); [by eapply quiet_reach|done]].
  destruct (negb _); [by eapply quiet_reach|].
  destruct (take_segment c seg) as [c' bytes]. eapply quiet_reach; [|done].
  eapply quiet_trans; [|apply flush_quiet]. apply (quiet_trans _ (to_writer s (to_host c) bytes)); [|done].
  apply to_writer_quiet.
Qed.

Lemma reach_read tr s key outcome : reach_ok tr s → reach_ok tr (run_read s key outcome).
Proof.
  intros Hok. unfold run_read.
  assert (∀ s2, quiet s s2 → reach_ok tr (flush s2 [key] false)) as Hfl.
  { intros s2 Hq. eapply quiet_reach; [|exact Hok]. eapply quiet_trans; [exact Hq|apply flush_quiet]. }
  destruct outcome as [bytes|]; [|by apply Hfl]. case_bool_decide; [|by apply Hfl].
  apply reach_spawn; [done|by apply Hfl].
Qed.

Lemma net_step_reach tr s a s' : net_step s a s' → reach_ok tr s → reach_ok (tr ++ [(s, a)]) s'.
Proof.
  intros Hstep Hok. pose proof (reach_ok_snoc _ (s, a) _ Hok) as Hok'. destruct Hstep as
    [s frame|s t1 t2 key id seq what target answer Ht|s t1 t2 key address outcome cloned Ht|
     s t1 t2 key outcome Ht|s t1 t2 dest request answer echo Ht|s m chain|s|s p].
  - by apply reach_frame.
  - destruct (reach_without _ _ _ _ _ Ht Hok) as [[-> (tr1 & s0 & frame & tr2 & -> & Ho & Ha)] _].
    destruct (reach_without _ _ _ _ _ Ht Hok') as [_ Hok1].
    unfold run_ask. destruct key as [[gp dest] port]. destruct answer; [|by eapply quiet_reach].
    apply reach_spawn; [|by eapply quiet_reach]. split; [done|].
    exists tr1, s0, frame, (tr2 ++ [(s, AppAnswers (gp, dest, port) id seq what (real_target (gp, dest, port).1.2) true)]).
    rewrite <-app_assoc. split_and!; [done..|]. right. eexists what, s, id, seq, _. split; [done|].
    apply elem_of_app. right. by apply list_elem_of_singleton.
  - destruct (reach_without _ _ _ _ _ Ht Hok) as [[-> Hg] _]. destruct (reach_without _ _ _ _ _ Ht Hok') as [_ [Hth Hd]].
    unfold run_connect. cbv zeta. set (s1 := dial (with_threads s (t1 ++ t2)) _). set (tr' := tr ++ _) in *.
    assert (reach_ok tr' s1) as Hs1.
    { split; [done|]. simpl. apply Forall_app. split; [done|]. apply Forall_singleton.
      exists key, tr, s, outcome, cloned, []. done. }
    destruct (st_conns s1 !! key) as [c|]; [|done].
    destruct outcome as [[]|e]; [|by eapply quiet_reach]. apply reach_spawn; [done|by eapply quiet_reach].
  - destruct (reach_without _ _ _ _ _ Ht Hok') as [_ Hok1]. by apply reach_read.
  - destruct (reach_without _ _ _ _ _ Ht Hok') as [_ Hok1].
    eapply quiet_reach; [|exact Hok1]. unfold run_ping. by repeat case_match.
  - eapply quiet_reach; [|exact Hok']. unfold deliver_frame. by repeat case_match.
  - by eapply quiet_reach.
  - by eapply quiet_reach.
Qed.

Lemma net_run_reach init tr s : reach_ok [] init → net_run init tr s → reach_ok tr s.
Proof. intros Hi. induction 1 as [|tr s a s' _ IH Hs]; [done|]. by eapply net_step_reach. Qed.
End reach.

(** ** Names and addresses *)

Lemma remember_spec name r address ip n :
  n ∈ default [] (remember name r address !! ip) ↔
  n ∈ default [] (r !! ip) ∨ n = name ∧ ip = address.
Proof.
  unfold remember. rewrite lookup_insert. case_decide as Ha.
  - subst. simpl. unfold mem_str. case_bool_decide as Hm; [|set_solver].
    split; [by left|]. by intros [?|[-> _]].
  - split; [by left|]. by intros [?|[_ ->]].
Qed.

Lemma remember_all_spec name addresses r ip n :
  n ∈ default [] (foldl (remember name) r addresses !! ip) ↔
  n ∈ default [] (r !! ip) ∨ n = name ∧ ip ∈ addresses.
Proof.
  revert r; induction addresses as [|a addresses IH]; intros r; simpl; [set_solver|].
  rewrite IH, remember_spec. set_solver.
Qed.

Lemma dedup_elem ip l : ip ∈ dedup l ↔ ip ∈ l.
Proof.
  induction l as [|x l IH]; [done|]. destruct l as [|y l]; [done|].
  change (dedup (x :: y :: l)) with (if bool_decide (x = y) then dedup (y :: l) else x :: dedup (y :: l)).
  case_bool_decide; [subst; rewrite IH; set_solver|]. rewrite !elem_of_cons in *. tauto.
Qed.

Lemma length_dns_record ip : length (dns_record ip) = 16%nat.
Proof. unfold dns_record. by rewrite !length_app, !length_be_bytes, length_octets. Qed.

Lemma ip_at_drop i k p : ip_at (i + k) p = ip_at k (drop i p).
Proof.
  unfold ip_at, byte_at. rewrite !lookup_drop. by rewrite <-!Nat.add_assoc.
Qed.

(** The address the [i]-th record of an answer carries. *)
Lemma dns_record_at q addresses i ip :
  addresses !! i = Some ip →
  ip_at (length q + 16 * i + 12) (q ++ concat (dns_record <$> addresses)) = ip.
Proof.
  intros Hi. rewrite <-Nat.add_assoc, ip_at_drop, drop_app_length.
  revert i Hi; induction addresses as [|a addresses IH]; [done|]. intros i.
  change (concat (dns_record <$> a :: addresses)) with (dns_record a ++ concat (dns_record <$> addresses)).
  destruct i as [|i].
  - intros [= ->].
    assert (dns_record ip = (be_bytes 2 0xc00c ++ be_bytes 2 1 ++ be_bytes 2 1 ++ be_bytes 4 60 ++
      be_bytes 2 4) ++ octets ip) as -> by (unfold dns_record; by rewrite <-!app_assoc).
    rewrite <-app_assoc. by apply ip_at_octets.
  - intros Hi. replace (16 * S i + 12)%nat with (length (dns_record a) + (16 * i + 12))%nat
      by (rewrite length_dns_record; lia).
    rewrite ip_at_drop, drop_app_length. by apply IH.
Qed.

(** ** The device's laws *)

Section device_lemmas.
Context {LC : Lowercase}.

Lemma length_scatter_frame bufs p m w : length (scatter_frame bufs p m w).1 = length m.
Proof.
  revert m w; induction bufs as [|b bufs IH]; intros m w; simpl; [done|].
  destruct (_ || _); [done|]. set (k := Z.to_nat _).
  pose proof (length_write_bytes m (b_address b) (slice w (w + k) p)) as Hl.
  destruct (write_bytes _ _ _) as [m1 d]. simpl in Hl. by rewrite IH.
Qed.

(** On buffers inside the memory, [scatter_frame] is [spread]. *)
Lemma scatter_frame_spread bufs p m w :
  mem_size m <= 4294967296 → targets_ok (mem_size m) (targets bufs) → (w ≤ length p)%nat →
  scatter_frame bufs p m w =
    (apply_stores m (spread (targets bufs) (drop w p)),
     (w + room (targets bufs) (length p - w))%nat).
Proof.
  intros Hm. revert m Hm w. induction bufs as [|b bufs IH]; intros m Hm w Hts Hw; simpl.
  { by rewrite Nat.add_0_r. }
  rewrite targets_cons in *. destruct (writable b) eqn:Hb; cbn [negb orb]; [|by apply IH].
  destruct Hts as (Ha & Hn & Hin & Hd & Hts).
  destruct (spread_cons m (b_address b) (b_length b) (targets bufs) p w) as [E1 E2].
  cbv zeta in E1, E2. rewrite E1, E2. clear E1 E2. set (k := fit (b_length b) (length p - w)).
  assert (k ≤ length p - w)%nat by apply fit_le.
  case_bool_decide as Hle.
  - assert (k = 0%nat) as -> by lia. rewrite take_0, Nat.add_0_r. by apply IH.
  - change (Z.to_nat (Z.min (b_length b) (Z.of_nat (length p - w)))) with k.
    unfold k. rewrite write_bytes_fit by done. fold k.
    apply IH; rewrite ?mem_size_store_bytes; done || lia.
Qed.

Lemma deliver_frame_length s m c : length (deliver_frame s m c).2.2 = length m.
Proof.
  unfold deliver_frame. destruct (pending s) as [|f fs]; [done|].
  pose proof (length_scatter_frame (buffers c) (net_packet f) m 0) as Hl.
  by destruct (scatter_frame _ _ _ _).
Qed.

#[export] Instance Net_laws : DeviceLaws Stack.
Proof.
  split.
  - intros s i q m Hq. simpl. unfold net_notify. destruct (negb _); [done|].
    by apply drain_keeps.
  - intros s qs m Hqs. simpl. unfold net_poll. destruct qs as [|[q|] qs]; [done| |done].
    apply Forall_cons in Hqs as [Hq Hqs].
    destruct (drain_keeps has_frame lose_frame deliver_frame (length (pending s) + 1) s q m [])
      as [H1 H2]; [apply deliver_frame_length|by apply Hq|].
    destruct (drain _ _ _ _ _ _ _ _) as [r [[s' q'] m']]. simpl in *. split; [|done].
    constructor; [|done]. by intros ? [= <-].
  - done.
Qed.

Lemma net_notify_terminates s i q m :
  queue_ok q → wf_bytes m → mem_size m <= 4294967296 → (net_notify s i q m).1 ≠ Err LoopBound.
Proof.
  intros Hq Hm Hmz. unfold net_notify. destruct (negb _); [done|].
  destruct (ok_avail q Hq) as [a Ha].
  apply (drain_terminates_inv _ _ _ (λ _, True) (λ _, 0%nat) q _ s q m [] a (ring_size q)); try done.
  - intros s1 m1 c _ _ Hm1 _. unfold frame_chain. simpl. split_and!; try done.
    intros w [= <-]. split; [lia|]. right. split; [done|]. by intros p.
  - apply run_bound_size.
  - assert (0 < ring_size q) by (unfold ring_size; lia). lia.
Qed.

Lemma net_poll_terminates s qs m : slots_ok qs → (net_poll s qs m).1 ≠ Err LoopBound.
Proof.
  intros Hqs. unfold net_poll. destruct qs as [|[q|] qs]; [done| |done].
  apply Forall_cons in Hqs as [Hq _]. specialize (Hq q eq_refl).
  pose proof (drain_bounded has_frame lose_frame deliver_frame (λ s, length (pending s))
    (length (pending s) + 1) s q m []) as Ht.
  destruct (drain _ _ _ _ _ _ _ _) as [r [[s' q'] m']]. simpl in *. apply Ht; [|done|lia].
  intros s1 m1 c Hmore. unfold deliver_frame. apply bool_decide_eq_true in Hmore.
  destruct (pending s1) as [|p ps]; [done|]. destruct (scatter_frame _ _ _ _) as [m2 w].
  simpl. split; [done|]. intros; lia.
Qed.

Lemma deliver_frame_arrives s m c f rest :
  mem_size m <= 4294967296 → buffers_ok m (buffers c) → pending s = f :: rest →
  Z.of_nat (length f) < 4294967000 →
  room (targets (buffers c)) (length (net_packet f)) = length (net_packet f) →
  ∃ m', deliver_frame s m c = (Ok (12 + Z.of_nat (length f)), (with_pending s rest, m')) ∧
    gather m' (targets (buffers c)) (length (net_packet f)) = Some (net_packet f).
Proof.
  intros Hm Hb Hp Hlen Hroom. unfold deliver_frame. rewrite Hp.
  rewrite scatter_frame_spread by (done || lia). rewrite drop_0, Nat.sub_0_r, Hroom.
  assert (Z.of_nat (0 + length (net_packet f)) = 12 + Z.of_nat (length f)) as E.
  { unfold net_packet. rewrite length_app. simpl length. lia. }
  rewrite E, u32_small by lia. eexists. split; [done|].
  rewrite gather_spread by done. by rewrite Hroom, firstn_all.
Qed.
End device_lemmas.

(** ** Properties of the stack *)

(** A turn of [flush] sends what the guest's window allows and no more: every segment holds at
    most 1400 bytes and continues the numbering of the last, the bytes in flight after its data
    stay within the window, and it stops only with nothing left to send or the window full. *)
Lemma net_flush_within_window c first ackn :
  conn_ok c →
  let '(c', os, _) := flush_conn c first ackn in
  sent_data os ++ outgoing c' = outgoing c ∧ numbered (send_next c) os ∧
  Forall (λ o, Z.of_nat (length (out_data o)) <= MAX_SEGMENT) os ∧
  (sent_data os = [] ∨
   u32 (send_next c + Z.of_nat (length (sent_data os)) - send_unacked c) <= peer_window c) ∧
  (outgoing c' = [] ∨ peer_window c <= tcp_in_flight c').
Proof.
  intros Hok. pose proof (flush_conn_spec c first ackn Hok) as H.
  destruct (flush_conn c first ackn) as [[c' os] over]. tauto.
Qed.

(** C25: the host's bytes reach the guest as one stream. Over any interleaving of what the connection's
    host socket gives (bytes, then its end) and segments of the guest, the data of the segments made, in
    the order they are made, is a prefix of what the host wrote, the rest waits; sequence numbers are
    contiguous modulo 2^32; exactly one FIN is made, after all of the data, once the connection has sent
    it. Segments are made under the lock and queued after it, so two threads may queue theirs the other
    way round: each holds the bytes of the stream at the place its number says, whatever the order. The
    events are of one socket's reader: the end a reader of an earlier connection with the same ports still
    reports can come before this socket's bytes ([net_stale_reader_closes_new_connection]), and after an
    end nothing is promised ([host_wf]). *)
Theorem net_host_stream_in_order c es :
  conn_ok c → fin_sent c = false → host_wf (host_closed c) es →
  let '(c', os, _) := tcp_run c es in
  sent_data os ++ outgoing c' = outgoing c ++ host_bytes es ∧ numbered (send_next c) os ∧
  send_next c' = u32 (send_next c + sent_length os) ∧
  length (filter (λ o, is_fin o = true) os) = (if fin_sent c' then 1 else 0)%nat ∧
  (fin_sent c' = true → sent_data os = outgoing c ++ host_bytes es) ∧
  Forall (λ o, Z.of_nat (length (out_data o)) <= MAX_SEGMENT) os ∧
  ∀ o, o ∈ os → out_data o ≠ [] →
    ∃ off, out_sequence o = u32 (send_next c + Z.of_nat off) ∧
      out_data o = slice off (off + length (out_data o)) (outgoing c ++ host_bytes es).
Proof.
  intros Hok Hf Hwf. assert (fin_sent c = true → outgoing c = [] ∧ host_closed c = true) as Hfin by (by rewrite Hf).
  pose proof (tcp_run_sends es c Hok Hwf Hfin) as H. pose proof (tcp_run_shape es c Hok Hwf Hfin) as Hsh.
  destruct (tcp_run c es) as [[c' os] w]. destruct H as (H1 & H2 & H3 & H4 & H5 & _ & H7).
  rewrite Hf in H5. split_and!; try done.
  - intros Hf'. rewrite <-H1, (H4 Hf'). by rewrite app_nil_r.
  - intros o Ho Hne. rewrite <-H1. apply fin_last_place; [apply Hok|done..].
Qed.

(** C26: the guest's bytes reach the host as one stream, over a connection's life and its writer thread's,
    in any interleaving. If every segment carries a piece of [stream] (less than 2^32 - 1 bytes) under its
    number, in any order and with any repeats, then what the host's peer gets is a prefix of [stream];
    when the writer ends in order (everything in its channel written, then the socket's sending side
    closed) it got all of it, unless the guest reset the connection; and as long as neither the writer
    nor the connection has ended, every byte acknowledged to the guest was written or waits in the channel.
    What waits when the connection is over is lost: [close_socket] shuts the socket down under the writer
    ([closing_discards]). *)
Theorem net_guest_stream_in_order stream start c es :
  Z.of_nat (length stream) < 4294967295 → conn_ok c →
  guest_finished c = false → is_Some (to_host c) → receive_next c = u32 start →
  Forall (life_carries stream start) es →
  let '(r, w) := life (Some c) writer_new es in
  w_host w `prefix_of` stream ∧
  (w_ended w = true → GuestReset ∉ es → w_host w = stream) ∧
  (w_stopped w = false → ∀ c', r = Some c' →
     w_host w ++ concat (w_queue w) `prefix_of` stream ∧
     receive_next c' = u32 (start + Z.of_nat (length (w_host w ++ concat (w_queue w))) + if guest_finished c' then 1 else 0) ∧
     (guest_finished c' = true → w_host w ++ concat (w_queue w) = stream)).
Proof.
  intros Hlen Hok Hg [t Hth] Hrn Hc.
  pose proof (life_ok stream start es c 0 writer_new Hlen Hok) as H. destruct (life (Some c) writer_new es) as [r w].
  destruct H as (n & ((rest & Ht & Hs & He) & Hn & Hcl) & Hr); [|split; [lia|]| |done| |].
  { intros E. congruence. }
  { rewrite Hg, Hth, Z.add_0_r. by split. }
  { done. }
  { split; [by exists []|]. split; [lia|done]. }
  split_and!.
  - etrans; [|apply (prefix_take stream n)]. by exists rest.
  - intros E Hnr. destruct (He E) as [-> Ec]. destruct (Hcl Ec) as [?| ->]; [done|]. rewrite app_nil_r in Ht.
    by rewrite <-Ht, firstn_all.
  - intros E c' Ec'. rewrite <-(Hs E), <-Ht. destruct (Hr c' Ec') as [_ Hrec]. split_and!.
    + apply prefix_take.
    + rewrite length_take_le by lia. destruct (guest_finished c'); [by destruct Hrec as [_ ->]|]. rewrite Z.add_0_r. apply Hrec.
    + intros Hg'. rewrite Hg' in Hrec. destruct Hrec as [-> _]. apply firstn_all.
Qed.

(** C27: the stack reaches out only where it may. In every run (frames of the guest, turns of its threads,
    answers of the app, changes of policy, in any order) each address it dialled was dialled for one
    connection of the guest's: it is the connection's destination, the gateway meaning this computer, and
    its port; the guest's SYN for it came before; and in the very state that SYN came in, the policy let
    it through (this computer only by the app's switch for it, any other address by the lists, under its
    own name or one DNS had given it for), or, the lists silent on it, the app was asked about that host
    and port and said yes before the dial. A change of policy in between does not count. *)
Theorem net_dials_permitted {LC : Lowercase} p asker interceptor lookups randoms tr s ip port via :
  net_run (stack_new p asker interceptor lookups randoms) tr s → (ip, port, via) ∈ dials s →
  ∃ key tr1 s0 frame tr2 s1 outcome cloned tr3,
    tr = tr1 ++ (s0, GuestSends frame) :: tr2 ++ (s1, Connects key (ip, port) outcome cloned) :: tr3 ∧
    opens frame key ∧ ip = real_target key.1.2 ∧ port = key.2 ∧
    (lists_allow s0 key.1.2 ∨
     ∃ what s2 id seq target, asks_about s0 key.1.2 port what ∧ (s2, AppAnswers key id seq what target true) ∈ tr2).
Proof.
  intros Hr Hin. destruct (net_run_reach (stack_new p asker interceptor lookups randoms) tr s) with (2 := Hr) as [_ Hd]; [by split|].
  eapply Forall_forall in Hd as (key & tr1 & s1 & o & c & tr3 & -> & E & tr0 & s0 & frame & tr2 & -> & Ho & H); [|done].
  cbn [fst] in E. injection E as -> ->.
  exists key, tr0, s0, frame, tr2, s1, o, c, tr3. rewrite <-app_assoc. by split_and!.
Qed.

(** DNS answers under the policy: a refused name is answered NXDOMAIN with no address, without
    asking the resolver and without being remembered; otherwise exactly the addresses answered are
    remembered for the name, all of them the resolver's; and the answer carries the question and
    one record per address, in order. *)
Lemma net_dns_filtered {LC : Lowercase} s name kind id question :
  let '(addresses, code, s') := resolve s name kind in
  (dns_refused s name ≠ None →
     addresses = [] ∧ code = 3 ∧ lookups s' = lookups s ∧ resolved s' = resolved s) ∧
  (∀ ip n, n ∈ default [] (resolved s' !! ip) ↔
     n ∈ default [] (resolved s !! ip) ∨ n = name ∧ ip ∈ addresses) ∧
  (∀ ip, ip ∈ addresses → ∃ found rest, lookups s = Ok found :: rest ∧ V4 ip ∈ found) ∧
  let response := dns_response id code question addresses in
  length response = (12 + length question + 16 * length addresses)%nat ∧
  slice 12 (12 + length question) response = question ∧
  ∀ i ip, addresses !! i = Some ip → ip_at (12 + length question + 16 * i + 12) response = ip.
Proof.
  destruct (resolve s name kind) as [[addresses code] s'] eqn:E. unfold resolve in E.
  assert (∀ i ip, addresses !! i = Some ip →
    ip_at (12 + length question + 16 * i + 12) (dns_response id code question addresses) = ip) as Hrec.
  { intros i ip Hi. replace (12 + length question + 16 * i + 12)%nat
      with (12 + (length question + 16 * i + 12))%nat by lia.
    rewrite ip_at_drop. by apply dns_record_at. }
  assert (length (dns_response id code question addresses) =
    (12 + length question + 16 * length addresses)%nat) as Hlen.
  { unfold dns_response. rewrite !length_app, !length_be_bytes.
    assert (length (concat (dns_record <$> addresses)) = 16 * length addresses)%nat as ->; [|lia].
    clear. induction addresses as [|a l IH]; [done|].
    change (concat (dns_record <$> a :: l)) with (dns_record a ++ concat (dns_record <$> l)).
    rewrite length_app, length_dns_record, IH. simpl. lia. }
  assert (slice 12 (12 + length question) (dns_response id code question addresses) = question) as Hq.
  { unfold slice. replace (12 + length question - 12)%nat with (length question) by lia.
    apply take_app_length. }
  destruct (dns_refused s name) as [reason|] eqn:Hr.
  { injection E as <- <- <-. split_and!; try done; intros; set_solver. }
  destruct (kind =? 1); [|injection E as <- <- <-; split_and!; try done; intros; set_solver].
  destruct (lookups s) as [|[found|e] rest] eqn:Hl; simpl in E;
    [injection E as <- <- <-; split_and!; try done; intros; set_solver| |
     injection E as <- <- <-; split_and!; try done; intros; set_solver].
  injection E as <- <- <-. split_and!; try done.
  - intros ip n. case_bool_decide as Hn; simpl; [rewrite Hn; set_solver|]. apply remember_all_spec.
  - intros ip Hip. rewrite dedup_elem in Hip. exists found, rest. split; [done|].
    apply list_elem_of_omap in Hip as ([ip'|] & Hin & [= ->]). done.
Qed.

(** Frames for the guest are never lost or changed: the device puts the oldest one, behind its
    virtio header, into the buffers the guest offered, the others keep waiting; and both directions
    of the device always end. *)
Lemma net_device_delivers {LC : Lowercase} s m c f rest i q qs :
  mem_size m <= 4294967296 → wf_bytes m → buffers_ok m (buffers c) → pending s = f :: rest →
  Z.of_nat (length f) < 4294967000 →
  room (targets (buffers c)) (length (net_packet f)) = length (net_packet f) →
  queue_ok q → slots_ok qs →
  (∃ m', deliver_frame s m c = (Ok (12 + Z.of_nat (length f)), (with_pending s rest, m')) ∧
     gather m' (targets (buffers c)) (length (net_packet f)) = Some (net_packet f)) ∧
  (net_notify s i q m).1 ≠ Err LoopBound ∧ (net_poll s qs m).1 ≠ Err LoopBound.
Proof.
  intros. split; [by apply deliver_frame_arrives|].
  split; [by apply net_notify_terminates|by apply net_poll_terminates].
Qed.

(** ** Witnesses *)

#[local] Existing Instance ascii_lowercase.

(** An established connection whose numbers are about to wrap. *)
Definition example_conn : TcpConn :=
  {| tc_id := 2; guest_target := (93, 184, 216, 34); guest_port := 40000; tc_port := 80;
     send_next := 4294967295; send_unacked := 4294967294; receive_next := 4294967295;
     peer_window := 4; outgoing := [1; 2]; to_host := Some 0%nat; socket := true;
     established := true; host_closed := false; fin_sent := false; guest_finished := false |}.

Definition example_segment (seq : Z) (fl : Z) (d : list Z) : Segment :=
  {| source_port := 40000; destination_port := 80; sequence := seq; acknowledged := 0; flags := fl;
     window := 1000; data := d |}.

Lemma net_flush_within_window_witness :
  let '(c', os, _) := flush_conn example_conn true false in
  sent_data os = [1; 2] ∧ numbered (send_next example_conn) os.
Proof.
  pose proof (net_flush_within_window example_conn true false) as H.
  destruct (flush_conn example_conn true false) as [[c' os] ov] eqn:E.
  destruct H as (H1 & H2 & _); [by split|]. split; [|exact H2].
  vm_compute in E. by injection E as <- <- <-.
Defined.

Lemma net_host_stream_in_order_witness :
  let '(c', os, _) := tcp_run example_conn [HostBytes [3]; HostEnd; GuestSegment (example_segment 7 ACK [])] in
  sent_data os = [1; 2; 3] ∧ fin_sent c' = true ∧ length (filter (λ o, is_fin o = true) os) = 1%nat.
Proof.
  pose proof (net_host_stream_in_order example_conn
    [HostBytes [3]; HostEnd; GuestSegment (example_segment 7 ACK [])]) as H.
  destruct (tcp_run _ _) as [[c' os] w] eqn:E.
  destruct H as (H1 & _ & _ & H2 & H3 & _); [by split|done|simpl; lia|].
  assert (fin_sent c' = true) as Hf by (vm_compute in E; by injection E as <- <- <-).
  rewrite Hf in H2. split; [exact (H3 Hf)|]. split; [exact Hf|exact H2].
Defined.

(** Out of order, repeated, then with the FIN; the writer gets its turns in between. *)
Definition example_life : list life_event :=
  [Tcp (GuestSegment (example_segment 1 ACK [12; 13])); Tcp (GuestSegment (example_segment 4294967295 ACK [10; 11]));
   Tcp (GuestSegment (example_segment 4294967295 ACK [10; 11])); WriterTurn None;
   Tcp (GuestSegment (example_segment 1 (Z.lor ACK FIN) [12; 13])); WriterTurn None; WriterTurn None].

Lemma example_carries : Forall (life_carries [10; 11; 12; 13] 4294967295) example_life.
Proof.
  assert (∀ off seq fl d, (off + length d ≤ 4)%nat → seq = u32 (4294967295 + Z.of_nat off) →
    d = slice off (off + length d) [10; 11; 12; 13] → (off + length d)%nat = 4%nat ∨ fl = ACK →
    carries [10; 11; 12; 13] 4294967295 (example_segment seq fl d) ∧ 0 <= 1000 < 4294967296) as Hc.
  { intros off seq fl d H1 H2 H3 H4. split; [|lia]. exists off. split_and!; [exact H1|exact H2|exact H3|].
    intros Hfl. destruct H4 as [|H4]; [done|]. simpl in Hfl. by rewrite H4 in Hfl. }
  unfold example_life. rewrite !Forall_cons. split_and!; [..|by apply Forall_nil_2]; intros s H; try discriminate H; injection H as <-.
  - apply (Hc 2%nat); [simpl; lia|by vm_compute|reflexivity|by right].
  - apply (Hc 0%nat); [simpl; lia|by vm_compute|reflexivity|by right].
  - apply (Hc 0%nat); [simpl; lia|by vm_compute|reflexivity|by right].
  - apply (Hc 2%nat); [simpl; lia|by vm_compute|reflexivity|by left].
Qed.

Lemma net_guest_stream_in_order_witness :
  w_ended (life (Some example_conn) writer_new example_life).2 = true ∧
  w_host (life (Some example_conn) writer_new example_life).2 = [10; 11; 12; 13].
Proof.
  pose proof (net_guest_stream_in_order [10; 11; 12; 13] 4294967295 example_conn example_life) as H.
  assert (w_ended (life (Some example_conn) writer_new example_life).2 = true) as Hg by by vm_compute.
  destruct (life (Some example_conn) writer_new example_life) as [r w]. simpl in Hg |- *. split; [exact Hg|].
  destruct H as (_ & H & _).
  - by vm_compute.
  - by vm_compute.
  - reflexivity.
  - by exists 0%nat.
  - by vm_compute.
  - exact example_carries.
  - apply (H Hg). unfold example_life. rewrite !elem_of_cons, elem_of_nil. intros Hin. by repeat destruct Hin as [Hin|Hin].
Defined.

(** The host ends first, then the guest, which acknowledges everything with its own FIN: the connection is
    over at once, and what its writer had not written by then is lost. *)
Example closing_discards :
  let '(r, w) := life (Some example_conn) writer_new
    [Tcp (HostEnd); Tcp (GuestSegment (mk_segment 40000 80 4294967295 2 (Z.lor ACK FIN) 1000 [10; 11])); WriterTurn None] in
  r = None ∧ w_host w = [] ∧ w_stopped w = true.
Proof. by vm_compute. Qed.

(** A SYN to the gateway's port 22, with this computer allowed, and the thread it starts. *)
Definition local_policy : Policy :=
  {| allow := [lit "*"]; deny := []; allow_loopback := true; secrets := []; extra_headers := [];
     addon_headers := []; addon_secrets := []; ask := false; skip_tls_verify := false |}.
Definition example_stack : Stack := stack_new local_policy false false [] [1000].
Definition example_key : ConnKey := (40000, GATEWAY, 22).
Definition example_syn : list Z :=
  ethernet ETHERTYPE_IPV4 (ipv4_header PROTO_TCP GATEWAY 40 0 ++ tcp_bytes 22 40000 7 0 SYN 1000 0 []).
(** The same frame addressed to the gateway. *)
Definition example_syn_frame : list Z := patch 30 (octets GATEWAY) example_syn.
Definition example_opened : Stack := receive_frame example_stack example_syn_frame.

Definition example_run : list (Stack * Action) :=
  [(example_stack, GuestSends example_syn_frame); (example_opened, Connects example_key (LOCALHOST, 22) (Ok tt) true)].

Lemma net_dials_permitted_witness :
  ∃ key tr1 s0 frame tr2, example_run = tr1 ++ (s0, GuestSends frame) :: tr2 ∧ opens frame key ∧ LOCALHOST = real_target key.1.2.
Proof.
  assert (threads example_opened = [] ++ TConnect example_key (LOCALHOST, 22) :: []) as Ht by by vm_compute.
  destruct (net_dials_permitted local_policy false false [] [1000] example_run
    (run_connect (with_threads example_opened ([] ++ [])) example_key (LOCALHOST, 22) (Ok tt) true)
    LOCALHOST 22 false) as (key & tr1 & s0 & frame & tr2 & s1 & o & c & tr3 & H1 & H2 & H3 & _).
  - apply (run_snoc _ [(example_stack, GuestSends example_syn_frame)] example_opened).
    + apply (run_snoc _ [] example_stack); [apply run_nil|]. unfold example_opened. apply nstep_frame.
    + by apply nstep_connect.
  - assert (dials (run_connect (with_threads example_opened ([] ++ [])) example_key (LOCALHOST, 22)
      (Ok tt) true) = [(LOCALHOST, 22, false)]) as -> by by vm_compute.
    by apply list_elem_of_singleton.
  - exists key, tr1, s0, frame. eexists. split; [exact H1|]. split; [exact H2|exact H3].
Defined.

Definition example_frame_stack : Stack := with_pending example_stack [[1; 2; 3]].

Lemma net_device_delivers_witness :
  ∃ m', (deliver_frame example_frame_stack example_mem
           {| buffers := [mk_buffer 128 8 true; mk_buffer 160 64 true]; c_id := 1; skip := 2 |}).1 = Ok 15 ∧
    gather m' [(128, 8); (160, 64)] 15 = Some (net_packet [1; 2; 3]).
Proof.
  set (c := {| buffers := [mk_buffer 128 8 true; mk_buffer 160 64 true]; c_id := 1; skip := 2 |}).
  destruct (net_device_delivers example_frame_stack example_mem c [1; 2; 3] [] 1 example_queue
    [Some example_queue]) as [(m' & H1 & H2) _].
  - by vm_compute.
  - apply wf_bytes_check. by vm_compute.
  - unfold buffers_ok, disjoint_ranges. change (mem_size example_mem) with 264. simpl.
    split_and!; try lia; repeat constructor; simpl; lia.
  - done.
  - done.
  - by vm_compute.
  - split; [split; unfold DESCRIPTOR_SIZE; simpl; lia| |]; exists 3; by vm_compute.
  - constructor; [|constructor]. intros q [= <-].
    split; [split; unfold DESCRIPTOR_SIZE; simpl; lia| |]; exists 3; by vm_compute.
  - exists m'. split; [by rewrite H1|exact H2].
Defined.

(** A reader thread knows its connection only by its key: when the guest resets a connection and
    opens one from the same port before the old reader has seen its socket end, that end is taken
    for the new connection's. *)
Definition example_established : Stack :=
  run_connect (with_threads example_opened []) example_key (LOCALHOST, 22) (Ok tt) true.
Definition example_reset : Stack :=
  receive_tcp example_established GATEWAY (tcp_bytes 22 40000 8 0 RST 0 0 []).
Definition example_reopened : Stack :=
  run_connect (with_threads (receive_tcp example_reset GATEWAY (tcp_bytes 22 40000 90 0 SYN 1000 0 []))
    [TRead example_key]) example_key (LOCALHOST, 22) (Ok tt) true.

Example net_stale_reader_closes_new_connection :
  threads example_established = [TRead example_key] ∧ st_conns example_reset !! example_key = None ∧
  threads example_reopened = [TRead example_key; TRead example_key] ∧
  (λ c, (host_closed c, fin_sent c)) <$> st_conns example_reopened !! example_key = Some (false, false) ∧
  (λ c, (host_closed c, fin_sent c)) <$>
    st_conns (run_read (with_threads example_reopened [TRead example_key]) example_key None) !! example_key
    = Some (true, true).
Proof. by vm_compute. Qed.
