(* ===== verification/FuseProto.v ===== *)
(** * The FUSE protocol over virtio-fs (engine/src/fs.rs, the part every server shares)

    Reading little-endian requests, building replies, the header of both, the negotiation of
    FUSE_INIT, and serving the requests of a queue.  A server (a host folder, FsDevice.v; the boot
    images) is the class [Server]: one [process] operation. *)
From stdpp Require Import strings.
From S2P Require Import Prelude Memory Virtio Buffers Str.

Local Open Scope Z_scope.

Definition IN_HEADER_SIZE : nat := 40.
Definition OUT_HEADER_SIZE : Z := 16.
Definition ATTR_SIZE : Z := 88.
Definition ENTRY_OUT_SIZE : Z := 40 + ATTR_SIZE.
Definition ATTR_OUT_SIZE : Z := 16 + ATTR_SIZE.
Definition OPEN_OUT_SIZE : Z := 16.
Definition INIT_OUT_SIZE : Z := 64.
Definition WRITE_OUT_SIZE : Z := 8.
Definition STATFS_OUT_SIZE : Z := 80.

Definition OP_LOOKUP : Z := 1.
Definition OP_FORGET : Z := 2.
Definition OP_GETATTR : Z := 3.
Definition OP_SETATTR : Z := 4.
Definition OP_READLINK : Z := 5.
Definition OP_SYMLINK : Z := 6.
Definition OP_MKDIR : Z := 9.
Definition OP_UNLINK : Z := 10.
Definition OP_RMDIR : Z := 11.
Definition OP_RENAME : Z := 12.
Definition OP_OPEN : Z := 14.
Definition OP_READ : Z := 15.
Definition OP_WRITE : Z := 16.
Definition OP_STATFS : Z := 17.
Definition OP_RELEASE : Z := 18.
Definition OP_FSYNC : Z := 20.
Definition OP_FLUSH : Z := 25.
Definition OP_INIT : Z := 26.
Definition OP_OPENDIR : Z := 27.
Definition OP_READDIR : Z := 28.
Definition OP_RELEASEDIR : Z := 29.
Definition OP_FSYNCDIR : Z := 30.
Definition OP_ACCESS : Z := 34.
Definition OP_CREATE : Z := 35.
Definition OP_INTERRUPT : Z := 36.
Definition OP_DESTROY : Z := 38.
Definition OP_BATCH_FORGET : Z := 42.

Definition INIT_ASYNC_READ : Z := 1.
Definition INIT_BIG_WRITES : Z := Z.shiftl 1 5.
Definition INIT_AUTO_INVAL_DATA : Z := Z.shiftl 1 12.
Definition INIT_MAX_PAGES : Z := Z.shiftl 1 22.
Definition INIT_EXT : Z := Z.shiftl 1 30.

Definition S_IFMT : Z := 0xf000.
Definition S_IFDIR : Z := 0x4000.
Definition S_IFREG : Z := 0x8000.
Definition S_IFLNK : Z := 0xa000.

Definition EPERM : Z := 1.
Definition ENOENT : Z := 2.
Definition EIO : Z := 5.
Definition EBADF : Z := 9.
Definition EACCES : Z := 13.
Definition EEXIST : Z := 17.
Definition ENOTDIR : Z := 20.
Definition EISDIR : Z := 21.
Definition EINVAL : Z := 22.
Definition ENOSPC : Z := 28.
Definition EROFS : Z := 30.
Definition ENOTEMPTY : Z := 39.
Definition ENOSYS : Z := 38.

(** An errno the guest sees. *)
Abbreviation FsResult := (result Z).

(** The host's I/O errors: the kinds [From<std::io::Error>] tells apart, and the system's code. *)
Inductive IoKind : Type :=
  | NotFound | PermissionDenied | AlreadyExists | InvalidInput | IsADirectory | NotADirectory
  | DirectoryNotEmpty | ReadOnlyFilesystem | StorageFull | Unsupported | OtherKind.

Record IoError := mk_io_error {
  io_kind : IoKind;
  raw_os_error : option Z;
}.

Definition errno_of (e : IoError) : Z :=
  match io_kind e with
  | NotFound => ENOENT
  | PermissionDenied => EACCES
  | AlreadyExists => EEXIST
  | InvalidInput => EINVAL
  | IsADirectory => EISDIR
  | NotADirectory => ENOTDIR
  | DirectoryNotEmpty => ENOTEMPTY
  | ReadOnlyFilesystem => EROFS
  | StorageFull => ENOSPC
  | Unsupported => ENOSYS
  | OtherKind => match raw_os_error e with
                 | Some code => if 0 <? code then code else EIO
                 | None => EIO
                 end
  end.

(** ** Reading a request *)

Record Reader := mk_reader {
  r_bytes : list Z;
  r_at : nat;
}.

Definition reader_new (bytes : list Z) : Reader := mk_reader bytes 0.

(** A reading step: the value, or the errno, and the reader after it. *)
Definition reading (A : Type) : Type := Reader → FsResult A * Reader.
#[export] Instance reading_ret : MRet reading := λ A a r, (Ok a, r).
#[export] Instance reading_bind : MBind reading := λ A B f m r,
  match m r with
  | (Ok a, r) => f a r
  | (Err e, r) => (Err e, r)
  end.

Definition raise {A} (e : Z) : reading A := λ r, (Err e, r).

Definition take_bytes (n : nat) : reading (list Z) := λ r,
  match get_slice (r_at r) (r_at r + n) (r_bytes r) with
  | Some s => (Ok s, mk_reader (r_bytes r) (r_at r + n))
  | None => (Err EINVAL, r)
  end.

Definition read_u32 : reading Z := b ← take_bytes 4; mret (le_val b).
Definition read_u64 : reading Z := b ← take_bytes 8; mret (le_val b).
Definition skip_bytes (n : nat) : reading unit := _ ← take_bytes n; mret tt.

(** The next NUL-terminated string. *)
Fixpoint position_nul (l : list Z) : option nat :=
  match l with
  | [] => None
  | b :: l => if b =? 0 then Some 0%nat else S <$> position_nul l
  end.

Definition cstring : reading str := λ r,
  if bool_decide (length (r_bytes r) < r_at r)%nat then (Err EINVAL, r)
  else
    let rest := drop (r_at r) (r_bytes r) in
    match position_nul rest with
    | None => (Err EINVAL, r)
    | Some n =>
        if utf8_valid (take n rest)
        then (Ok (take n rest), mk_reader (r_bytes r) (r_at r + n + 1))
        else (Err EINVAL, r)
    end.

(** ** Building a reply: the bytes a [Writer] holds *)

Definition w_u16 (x : Z) : list Z := le_bytes 2 x.
Definition w_u32 (x : Z) : list Z := le_bytes 4 x.
Definition w_u64 (x : Z) : list Z := le_bytes 8 x.
Definition w_i32 (x : Z) : list Z := le_bytes 4 (u32 x).
Definition zeros (n : nat) : list Z := replicate n 0.

(** [pad8]: to a multiple of 8 bytes. *)
Definition pad8 (bytes : list Z) : list Z :=
  bytes ++ zeros (Z.to_nat ((- Z.of_nat (length bytes)) mod 8)).

Record Attributes := mk_attributes {
  a_ino : Z;
  a_size : Z;
  a_mode : Z;
  a_nlink : Z;
  a_uid : Z;
  a_gid : Z;
  a_rdev : Z;
  a_atime : Z * Z;
  a_mtime : Z * Z;
  a_ctime : Z * Z;
}.

Definition write_attr (a : Attributes) : list Z :=
  w_u64 (a_ino a) ++ w_u64 (a_size a) ++ w_u64 ((a_size a + 511) / 512) ++
  w_u64 (a_atime a).1 ++ w_u64 (a_mtime a).1 ++ w_u64 (a_ctime a).1 ++
  w_u32 (a_atime a).2 ++ w_u32 (a_mtime a).2 ++ w_u32 (a_ctime a).2 ++
  w_u32 (a_mode a) ++ w_u32 (a_nlink a) ++ w_u32 (a_uid a) ++ w_u32 (a_gid a) ++
  w_u32 (a_rdev a) ++ w_u32 4096 ++ w_u32 0.

Definition dirent_type (mode : Z) : Z :=
  let kind := Z.land mode S_IFMT in
  if kind =? 0x1000 then 1 else if kind =? 0x2000 then 2 else if kind =? S_IFDIR then 4
  else if kind =? 0x6000 then 6 else if kind =? S_IFREG then 8 else if kind =? S_IFLNK then 10
  else if kind =? 0xc000 then 12 else 8.

(** One directory entry: its fixed part, its name, padding to 8 bytes. *)
Definition write_dirent (out : list Z) (id next kind : Z) (name : str) : list Z :=
  pad8 (out ++ w_u64 id ++ w_u64 next ++ w_u32 (Z.of_nat (length name)) ++ w_u32 kind ++ name).

(** ** FUSE_INIT *)

Definition init (extra : Z) : reading (list Z) :=
  major ← read_u32;
  minor ← read_u32;
  max_readahead ← read_u32;
  flags ← read_u32;
  if negb (major =? 7) then
    if major <? 7 then raise EIO else mret (w_u32 7 ++ w_u32 45)
  else
    let supported := Z.lor INIT_ASYNC_READ (Z.lor INIT_BIG_WRITES (Z.lor INIT_AUTO_INVAL_DATA
                       (Z.lor INIT_MAX_PAGES (Z.lor INIT_EXT extra)))) in
    let flags := Z.land flags supported in
    mret (w_u32 7 ++ w_u32 (Z.min minor 45) ++ w_u32 (Z.min max_readahead 1048576) ++
          w_u32 flags ++ w_u16 12 ++ w_u16 9 ++ w_u32 1048576 ++ w_u32 1 ++
          w_u16 (if Z.land flags INIT_MAX_PAGES =? 0 then 0 else 16) ++ w_u16 0 ++ w_u32 0 ++
          w_u32 0 ++ w_u16 0 ++ zeros 22).

(** [virtio_fs_config]: the tag, padded to 36 bytes, and the number of request queues. *)
Definition config_of (tag : str) : list Z := tag ++ zeros (36 - length tag) ++ w_u32 1.

(** ** Serving requests *)

(** [Server::process]: the payload of the reply, [None] for requests that have none. *)
Class Server (S : Type) : Type :=
  process : S → Z → Z → Reader → Z → FsResult (option (list Z)) * S.

Definition minimum_capacity (opcode : Z) : Z :=
  if (opcode =? OP_FORGET) || (opcode =? OP_BATCH_FORGET) || (opcode =? OP_INTERRUPT) then 0
  else if opcode =? OP_INIT then OUT_HEADER_SIZE + INIT_OUT_SIZE
  else if (opcode =? OP_LOOKUP) || (opcode =? OP_SYMLINK) || (opcode =? OP_MKDIR) then
    OUT_HEADER_SIZE + ENTRY_OUT_SIZE
  else if (opcode =? OP_GETATTR) || (opcode =? OP_SETATTR) then OUT_HEADER_SIZE + ATTR_OUT_SIZE
  else if (opcode =? OP_OPEN) || (opcode =? OP_OPENDIR) then OUT_HEADER_SIZE + OPEN_OUT_SIZE
  else if opcode =? OP_CREATE then OUT_HEADER_SIZE + ENTRY_OUT_SIZE + OPEN_OUT_SIZE
  else if opcode =? OP_WRITE then OUT_HEADER_SIZE + WRITE_OUT_SIZE
  else if opcode =? OP_STATFS then OUT_HEADER_SIZE + STATFS_OUT_SIZE
  else OUT_HEADER_SIZE.

(** The header of a request: opcode, unique and node. *)
Definition request_header (size : nat) : reading (Z * Z * Z) :=
  length_ ← read_u32;
  opcode ← read_u32;
  unique ← read_u64;
  nodeid ← read_u64;
  _ ← skip_bytes (IN_HEADER_SIZE - 24);
  if negb (length_ =? Z.of_nat size) || (length_ <? Z.of_nat IN_HEADER_SIZE)
  then raise EINVAL else mret (opcode, unique, nodeid).

Section serve.
Context {Sv : Type} `{!Server Sv}.

(** [answer]: unique, error and payload. *)
Definition answer (s : Sv) (request : list Z) (capacity : Z) : Z * (Z * list Z) * Sv :=
  match request_header (length request) (reader_new request) with
  | (Err e, _) => ((0, (- e, [])), s)
  | (Ok (opcode, unique, nodeid), body) =>
      if capacity <? minimum_capacity opcode then ((unique, (- EINVAL, [])), s)
      else match process s opcode nodeid body capacity with
           | (Ok (Some payload), s) => ((unique, (0, payload)), s)
           | (Ok None, s) => ((unique, (0, [])), s)
           | (Err e, s) => ((unique, (- e, [])), s)
           end
  end.

(** The reply's bytes behind [fuse_out_header]. *)
Definition reply_bytes (unique error : Z) (payload : list Z) : list Z :=
  le_bytes 4 (u32 (OUT_HEADER_SIZE + Z.of_nat (length payload))) ++ w_i32 error ++
  w_u64 unique ++ payload.

(** The request's bytes, the capacity and the buffers for the reply. *)
Fixpoint gather_request (m : mem) (bufs : list Buffer) (request : list Z) (capacity : Z)
    (targets : list (Z * Z)) : result error (list Z * Z * list (Z * Z)) :=
  match bufs with
  | [] => Ok (request, capacity, targets)
  | b :: bufs =>
      if writable b then
        gather_request m bufs request (capacity + b_length b) (targets ++ [(b_address b, b_length b)])
      else match guest_bytes m (u32 (b_address b)) (b_length b) with
           | Some bytes => gather_request m bufs (request ++ bytes) capacity targets
           | None => Err RequestOutside
           end
  end.

(** [scatter]'s loop: the memory and how much was written. *)
Fixpoint scatter_loop (m : mem) (targets : list (Z * Z)) (bytes : list Z) (written : nat)
    : mem * nat :=
  match targets with
  | [] => (m, written)
  | (address, length_) :: targets =>
      if bool_decide (length bytes ≤ written)%nat then (m, written)
      else
        let k := Z.to_nat (Z.min length_ (Z.of_nat (length bytes - written))) in
        let '(m, done) := write_bytes m address (slice written (written + k) bytes) in
        if bool_decide (done < k)%nat then (m, (written + done)%nat)
        else scatter_loop m targets bytes (written + done)
  end.

Definition scatter (m : mem) (targets : list (Z * Z)) (bytes : list Z) : result error nat * mem :=
  let '(m, written) := scatter_loop m targets bytes 0 in
  (if bool_decide (written < length bytes)%nat then Err ResponseDoesNotFit else Ok written, m).

(** One request of the queue. *)
Definition serve_chain (s : Sv) (m : mem) (chain : Chain) : result error Z * (Sv * mem) :=
  match gather_request m (buffers chain) [] 0 [] with
  | Err e => (Err e, (s, m))
  | Ok (request, capacity, ts) =>
      let '((unique, (error, payload)), s) := answer s request capacity in
      if OUT_HEADER_SIZE <=? capacity then
        match scatter m ts (reply_bytes unique error payload) with
        | (Ok written, m) => (Ok (u32 (Z.of_nat written)), (s, m))
        | (Err e, m) => (Err e, (s, m))
        end
      else (Ok 0, (s, m))
  end.

(** [serve]: every request waiting on the queue.  A ring holds at most [ring_size] of them; more
    turns than that would mean that replies landed on the ring itself, and are the bound's error. *)
Definition serve (s : Sv) (q : Queue) (m : mem) : result error (list Z) * (Sv * Queue * mem) :=
  drain (λ _, true) id serve_chain (Z.to_nat (ring_size q) + 1) s q m [].

End serve.

(** What a server promises: its reply fits the buffers the guest offered for it, and its bytes are
    bytes. *)
Class ServerLaws (Sv : Type) `{!Server Sv} : Prop :=
  process_fits s opcode nodeid body capacity payload s' :
    process s opcode nodeid body capacity = (Ok (Some payload), s') → OUT_HEADER_SIZE <= capacity →
    OUT_HEADER_SIZE + Z.of_nat (length payload) <= capacity.

(** ** Lemmas *)

Lemma reading_bind_eq {A B} (m : reading A) (f : A → reading B) r :
  (m ≫= f) r = match m r with (Ok a, r) => f a r | (Err e, r) => (Err e, r) end.
Proof. done. Qed.

(** The total a chain's writable buffers hold. *)
Definition total (ts : list (Z * Z)) : Z := foldr (λ t c, t.2 + c) 0 ts.

Lemma gather_request_spec m bufs req cap ts req' cap' ts' :
  gather_request m bufs req cap ts = Ok (req', cap', ts') →
  ts' = ts ++ targets bufs ∧ cap' = cap + total (targets bufs).
Proof.
  revert req cap ts; induction bufs as [|b bufs IH]; intros req cap ts; simpl.
  - intros [= <- <- <-]. unfold targets. simpl. split; [by rewrite app_nil_r|unfold total; simpl; lia].
  - rewrite targets_cons. destruct (writable b).
    + intros (-> & ->)%IH. rewrite <-app_assoc. split; [done|]. unfold total. simpl. lia.
    + destruct (guest_bytes _ _ _); [|done]. apply IH.
Qed.

Lemma scatter_loop_spread ts p m w :
  mem_size m <= 4294967296 → targets_ok (mem_size m) ts → (w ≤ length p)%nat →
  scatter_loop m ts p w =
    (apply_stores m (spread ts (drop w p)), (w + room ts (length p - w))%nat).
Proof.
  intros Hm. revert m Hm w. induction ts as [|[a n] ts IH]; intros m Hm w Hts Hw.
  { simpl. by rewrite Nat.add_0_r. }
  destruct Hts as (Ha & Hn & Hin & Hd & Hts).
  destruct (spread_cons m a n ts p w) as [E1 E2]. cbv zeta in E1, E2. rewrite E1, E2. clear E1 E2.
  set (k := fit n (length p - w)). assert (k ≤ length p - w)%nat by apply fit_le.
  cbn [scatter_loop]. case_bool_decide as Hle.
  - assert (k = 0%nat) as -> by lia. rewrite take_0, Nat.add_0_r, drop_ge by lia.
    change (store_bytes m a []) with m. rewrite spread_nil.
    assert (length p - w = 0)%nat as -> by lia. by rewrite room_0, Nat.add_0_r.
  - change (Z.to_nat (Z.min n (Z.of_nat (length p - w)))) with k.
    unfold k. rewrite write_bytes_fit by done. fold k. rewrite bool_decide_false by lia.
    apply IH; rewrite ?mem_size_store_bytes; done || lia.
Qed.

Lemma length_scatter_loop ts p m w : length (scatter_loop m ts p w).1 = length m.
Proof.
  revert m w; induction ts as [|[a n] ts IH]; intros m w; simpl; [done|].
  case_bool_decide; [done|]. set (k := Z.to_nat _).
  pose proof (length_write_bytes m a (slice w (w + k) p)) as Hl.
  destruct (write_bytes _ _ _) as [m1 d]. simpl in Hl. case_bool_decide; [done|]. by rewrite IH.
Qed.

Lemma length_reply unique e payload :
  length (reply_bytes unique e payload) = (16 + length payload)%nat.
Proof. unfold reply_bytes, w_i32, w_u64. by rewrite !length_app, !length_le_bytes. Qed.

(** The header fields of a request that is long enough. *)
Lemma take_bytes_in n r :
  (r_at r + n ≤ length (r_bytes r))%nat →
  take_bytes n r = (Ok (slice (r_at r) (r_at r + n) (r_bytes r)), mk_reader (r_bytes r) (r_at r + n)).
Proof.
  intros Hl. unfold take_bytes, get_slice. rewrite bool_decide_true by lia. done.
Qed.

Lemma read_u32_in b i :
  (i + 4 ≤ length b)%nat →
  read_u32 (mk_reader b i) = (Ok (le_val (slice i (i + 4) b)), mk_reader b (i + 4)).
Proof. intros H. unfold read_u32. by rewrite reading_bind_eq, take_bytes_in. Qed.
Lemma read_u64_in b i :
  (i + 8 ≤ length b)%nat →
  read_u64 (mk_reader b i) = (Ok (le_val (slice i (i + 8) b)), mk_reader b (i + 8)).
Proof. intros H. unfold read_u64. by rewrite reading_bind_eq, take_bytes_in. Qed.
Lemma skip_bytes_in b i n :
  (i + n ≤ length b)%nat → skip_bytes n (mk_reader b i) = (Ok tt, mk_reader b (i + n)).
Proof. intros H. unfold skip_bytes. by rewrite reading_bind_eq, take_bytes_in. Qed.

Lemma request_header_ok request :
  (40 ≤ length request)%nat → le_val (slice 0 4 request) = Z.of_nat (length request) →
  request_header (length request) (reader_new request) =
    (Ok (le_val (slice 4 8 request), le_val (slice 8 16 request), le_val (slice 16 24 request)),
     mk_reader request 40).
Proof.
  intros Hl Hlen. unfold request_header, reader_new.
  rewrite reading_bind_eq, read_u32_in by lia. rewrite reading_bind_eq, read_u32_in by lia.
  rewrite reading_bind_eq, read_u64_in by lia. rewrite reading_bind_eq, read_u64_in by lia.
  rewrite reading_bind_eq, skip_bytes_in by (unfold IN_HEADER_SIZE; lia).
  cbn [Nat.add]. rewrite Hlen, Z.eqb_refl. cbn [negb orb].
  destruct (Z.ltb_spec (Z.of_nat (length request)) (Z.of_nat IN_HEADER_SIZE)); [|done].
  unfold IN_HEADER_SIZE in *. lia.
Qed.

Section serve_lemmas.
Context {Sv : Type} `{!Server Sv}.

Lemma serve_chain_length (s : Sv) m c : length (serve_chain s m c).2.2 = length m.
Proof.
  unfold serve_chain. destruct (gather_request m (buffers c) [] 0 []) as [[[request capacity] ts]|e]; [|done].
  destruct (answer s request capacity) as [[u [e p]] s']. destruct (_ <=? _); [|done].
  unfold scatter. pose proof (length_scatter_loop ts (reply_bytes u e p) m 0) as Hl.
  destruct (scatter_loop _ _ _ _) as [m' w]. by case_bool_decide.
Qed.

(** An answer fits the capacity it was made for. *)
Lemma answer_fits {L : ServerLaws Sv} (s : Sv) request capacity unique e payload s' :
  answer s request capacity = ((unique, (e, payload)), s') → OUT_HEADER_SIZE <= capacity →
  OUT_HEADER_SIZE + Z.of_nat (length payload) <= capacity.
Proof.
  unfold answer. destruct (request_header _ _) as [[[[op u] n]|e0] b];
    [|intros [= <- <- <- <-]; simpl; lia].
  destruct (_ <? _); [intros [= <- <- <- <-]; simpl; lia|].
  destruct (process s op n b capacity) as [[[p|]|e1] s1] eqn:E.
  - intros [= <- <- <- <-] Hc. by eapply process_fits.
  - intros [= <- <- <- <-]. simpl. lia.
  - intros [= <- <- <- <-]. simpl. lia.
Qed.

Lemma serve_chain_replies {L : ServerLaws Sv} (s : Sv) m c request capacity ts unique e payload s' :
  mem_size m <= 4294967296 → buffers_ok m (buffers c) →
  gather_request m (buffers c) [] 0 [] = Ok (request, capacity, ts) → OUT_HEADER_SIZE <= capacity →
  Z.of_nat (length payload) < 4294967000 →
  answer s request capacity = ((unique, (e, payload)), s') →
  ∃ m', serve_chain s m c = (Ok (16 + Z.of_nat (length payload)), (s', m')) ∧
    gather m' (targets (buffers c)) (16 + length payload) = Some (reply_bytes unique e payload).
Proof.
  intros Hm Hb Hg Hcap Hlen Ha. unfold serve_chain. rewrite Hg, Ha.
  destruct (gather_request_spec _ _ _ _ _ _ _ _ Hg) as [-> Hc]. simpl in Hc. cbn [app].
  pose proof (answer_fits _ _ _ _ _ _ _ Ha Hcap) as Hfit.
  destruct (Z.leb_spec OUT_HEADER_SIZE capacity); [|lia]. unfold scatter.
  set (reply := reply_bytes unique e payload).
  assert (length reply = (16 + length payload)%nat) as Hr by apply length_reply.
  rewrite scatter_loop_spread by (done || lia). rewrite drop_0, Nat.sub_0_r.
  assert (room (targets (buffers c)) (length reply) = length reply) as Hroom.
  { apply room_total; [by eapply targets_ok_lengths|]. fold (total (targets (buffers c))).
    unfold OUT_HEADER_SIZE in *. lia. }
  rewrite Hroom. simpl Nat.add at 1. rewrite bool_decide_false by lia.
  rewrite u32_small by lia. eexists. split; [do 2 f_equal; lia|].
  rewrite <-Hr. rewrite gather_spread by done. by rewrite Hroom, firstn_all.
Qed.
End serve_lemmas.

(** ** Properties of the protocol *)

(** What a request asks and how much room it leaves for the reply, by its buffers alone: the bytes of
    those the device may only read, one behind the other, and the size of the others. *)
Fixpoint asked (m : mem) (bufs : list Buffer) : option (list Z) :=
  match bufs with
  | [] => Some []
  | b :: bufs =>
      if writable b then asked m bufs
      else bytes ← guest_bytes m (u32 (b_address b)) (b_length b);
           rest ← asked m bufs;
           Some (bytes ++ rest)
  end.

Lemma gather_request_asked m bufs request r cap ts :
  asked m bufs = Some r →
  gather_request m bufs request cap ts = Ok (request ++ r, cap + total (targets bufs), ts ++ targets bufs).
Proof.
  revert request r cap ts; induction bufs as [|b bufs IH]; intros request r cap ts; simpl.
  - intros [= <-]. unfold targets, total. simpl. by rewrite !app_nil_r, Z.add_0_r.
  - rewrite targets_cons. destruct (writable b).
    + intros Hr. rewrite (IH _ _ _ _ Hr), <-app_assoc. unfold total. simpl. by rewrite Z.add_assoc.
    + destruct (guest_bytes _ _ _) as [bytes|]; [|done]. simpl.
      destruct (asked m bufs) as [rest|]; [|done]. intros [= <-].
      by rewrite (IH _ rest) by done; rewrite <-app_assoc.
Qed.

Lemma wf_asked m bufs r : wf_bytes m → asked m bufs = Some r → wf_bytes r.
Proof.
  intros Hm. revert r; induction bufs as [|b bufs IH]; intros r; simpl; [intros [= <-]; constructor|].
  destruct (writable b); [apply IH|]. destruct (guest_bytes _ _ _) as [bytes|] eqn:E; [|done]. simpl.
  destruct (asked m bufs) as [rest|]; [|done]. intros [= <-]. apply wf_app. split; [|by apply IH].
  by eapply wf_guest_bytes.
Qed.

(** The reply of the FUSE protocol ([fuse_out_header]): the length of the whole, the error of the
    request as a negative number of four bytes, the eight bytes of the request's own number, and the
    payload. *)
Definition is_reply (request reply : list Z) (errno : Z) (payload : list Z) : Prop :=
  length reply = (16 + length payload)%nat ∧
  le_val (slice 0 4 reply) = Z.of_nat (length reply) ∧
  le_val (slice 4 8 reply) = (- errno) mod 4294967296 ∧
  slice 8 16 reply = slice 8 16 request ∧
  drop 16 reply = payload.

(** What the server makes of the request: its opcode and node are the header's, its body what
    follows the header's 40 bytes. *)
Definition served {Sv : Type} `{!Server Sv} (s : Sv) (request : list Z) (capacity : Z) (reply : list Z)
    (s' : Sv) : Prop :=
  let opcode := le_val (slice 4 8 request) in
  let nodeid := le_val (slice 16 24 request) in
  (capacity < minimum_capacity opcode ∧ s' = s ∧ is_reply request reply EINVAL []) ∨
  (minimum_capacity opcode <= capacity ∧
   match process s opcode nodeid (mk_reader request 40) capacity with
   | (Ok (Some payload), s1) => s' = s1 ∧ is_reply request reply 0 payload
   | (Ok None, s1) => s' = s1 ∧ is_reply request reply 0 []
   | (Err errno, s1) => s' = s1 ∧ is_reply request reply errno []
   end).

Lemma reply_bytes_is_reply request errno payload :
  wf_bytes request → (40 ≤ length request)%nat → OUT_HEADER_SIZE + Z.of_nat (length payload) < 4294967296 →
  is_reply request (reply_bytes (le_val (slice 8 16 request)) (- errno) payload) errno payload.
Proof.
  intros Hwf Hl Hp. unfold is_reply. rewrite length_reply. unfold OUT_HEADER_SIZE in Hp.
  assert (le_bytes 8 (le_val (slice 8 16 request)) = slice 8 16 request) as Hu.
  { replace 8%nat with (length (slice 8 16 request)) at 1 by (rewrite length_slice; lia).
    apply le_bytes_le_val. by apply wf_slice. }
  unfold reply_bytes, w_i32, w_u64, OUT_HEADER_SIZE. rewrite Hu.
  assert (length (slice 8 16 request) = 8%nat) as H8 by (rewrite length_slice; lia).
  split_and!.
  - done.
  - rewrite slice_app_l, slice_le_bytes by (by rewrite length_le_bytes).
    rewrite le_val_le_bytes. unfold u32. rewrite Z.mod_mod by done. rewrite Z.mod_small; lia.
  - rewrite slice_app_r by (rewrite length_le_bytes; lia). rewrite length_le_bytes. simpl Nat.sub.
    rewrite slice_app_l, slice_le_bytes by (by rewrite length_le_bytes).
    rewrite le_val_le_bytes. unfold u32. by rewrite Z.mod_mod.
  - rewrite slice_app_r by (rewrite length_le_bytes; lia). rewrite length_le_bytes. simpl Nat.sub.
    rewrite slice_app_r by (rewrite length_le_bytes; lia). rewrite length_le_bytes. simpl Nat.sub.
    rewrite slice_app_l by lia. rewrite <-H8 at 1. apply slice_full.
  - rewrite !app_assoc. rewrite drop_app_length'; [done|].
    by rewrite !length_app, !length_le_bytes, H8.
Qed.

(** C30: every well-formed FUSE request gets its reply: the guest finds in its buffers, whole, a
    header with the reply's own length, zero or the negated error, and the eight bytes of the
    request's own number, and behind it the payload the server gave for the header's opcode and node
    and the body behind it, because no server answers more than the guest made room for; a request
    that left less room than its opcode's reply needs is refused with [EINVAL] and never reaches the
    server.  Assumed of the request: its buffers lie inside the guest's memory, the writable ones do
    not overlap and have room for the reply's header, and its header gives its length. *)
Theorem fuse_request_answered {Sv : Type} `{!Server Sv} {L : ServerLaws Sv} (s : Sv) m c request :
  let room := total (targets (buffers c)) in
  wf_bytes m → mem_size m <= 4294967296 → buffers_ok m (buffers c) →
  asked m (buffers c) = Some request → 16 <= room < 4294967000 →
  (40 ≤ length request)%nat → le_val (slice 0 4 request) = Z.of_nat (length request) →
  ∃ reply s' m', serve_chain s m c = (Ok (Z.of_nat (length reply)), (s', m')) ∧
    gather m' (targets (buffers c)) (length reply) = Some reply ∧
    served s request room reply s'.
Proof.
  intros room Hwf Hm Hb Hr Hroom Hl Hlen. pose proof (wf_asked _ _ _ Hwf Hr) as Hwr.
  pose proof (gather_request_asked m (buffers c) [] request 0 [] Hr) as Hg. simpl in Hg.
  fold room in Hg. rewrite Z.add_0_l in Hg.
  destruct (answer s request room) as [[u [e p]] s'] eqn:Ha.
  pose proof (answer_fits _ _ _ _ _ _ _ Ha ltac:(unfold OUT_HEADER_SIZE; lia)) as Hfit.
  destruct (serve_chain_replies s m c request room _ u e p s' Hm Hb Hg) as (m' & H1 & H2);
    [unfold OUT_HEADER_SIZE in *; lia..|done|].
  exists (reply_bytes u e p), s', m'. rewrite length_reply.
  split_and!; [rewrite H1; do 2 f_equal; lia|done|].
  unfold answer in Ha. rewrite request_header_ok in Ha by done. unfold served.
  pose proof (λ errno, reply_bytes_is_reply request errno p Hwr Hl ltac:(lia)) as Hreply.
  destruct (Z.ltb_spec room (minimum_capacity (le_val (slice 4 8 request)))) as [Hc|Hc].
  - injection Ha as <- <- <- <-. left. auto.
  - right. split; [done|]. specialize (Hreply 0) as Hreply0.
    destruct (process _ _ _ _ _) as [[[payload|]|errno] s1]; injection Ha as <- <- <- <-; auto.
Qed.
