(* ===== verification/FsDevice.v ===== *)
(** * A host folder shared with the guest (engine/src/fs.rs, [FsDevice])

    The virtio-fs server over a folder of the host: node ids for paths, open handles, and one
    operation per FUSE request.  The host's file system is the class [HostFs]; every call made to
    it is logged as a [HostCall], so that what the device does to the host can be stated.  A path is
    its list of components below "/": joining a validated name appends one.  The model is the unix
    build. *)
From stdpp Require Import strings.
From S2P Require Import Prelude Memory Virtio Buffers Str FuseProto.

Local Open Scope Z_scope.

Abbreviation path := (list str).

Definition SETATTR_MODE : Z := 1.
Definition SETATTR_SIZE : Z := 8.
Definition SETATTR_ATIME : Z := 16.
Definition SETATTR_MTIME : Z := 32.
Definition SETATTR_FH : Z := 64.
Definition SETATTR_ATIME_NOW : Z := 128.
Definition SETATTR_MTIME_NOW : Z := 256.
Definition VALIDITY : Z := 1.

(** [std::fs::Metadata], the parts the device uses; times are seconds and nanoseconds after the
    epoch, [None] before it or where the system has none. *)
Record Metadata := mk_metadata {
  md_len : Z;
  md_mode : Z;
  md_nlink : Z;
  md_accessed : option (Z * Z);
  md_modified : option (Z * Z);
}.

Definition seconds (t : option (Z * Z)) : Z * Z := default (0, 0) t.

Definition attributes (ino : Z) (m : Metadata) : Attributes :=
  {| a_ino := ino; a_size := md_len m; a_mode := md_mode m; a_nlink := u32 (md_nlink m);
     a_uid := 0; a_gid := 0; a_rdev := 0; a_atime := seconds (md_accessed m);
     a_mtime := seconds (md_modified m); a_ctime := seconds (md_modified m) |}.

(** A component that cannot step outside the share. *)
Definition name_ok (name : str) : bool :=
  negb (bool_decide (name = []) || bool_decide (name = lit ".") || bool_decide (name = lit "..") ||
        has_byte (λ b, b =? chr "/") name || has_byte (λ b, b =? 0) name).
Definition validate_name (name : str) : FsResult str := if name_ok name then Ok name else Err EINVAL.

Record OpenOptions := mk_options {
  opt_read : bool;
  opt_write : bool;
  opt_append : bool;
  opt_truncate : bool;
  opt_create : bool;
  opt_mode : option Z;
}.

(** The standard library's [OpenOptions::open] on unix: the flags of [open(2)], or EINVAL where the
    options do not go together. *)
Definition O_NOFOLLOW : Z := 0x20000.
Definition O_CLOEXEC : Z := 0x80000.
Definition O_CREAT : Z := 0x40.
Definition O_TRUNC : Z := 0x200.
Definition O_APPEND : Z := 0x400.

Definition access_mode (o : OpenOptions) : FsResult Z :=
  match opt_read o, opt_write o, opt_append o with
  | true, false, false => Ok 0
  | false, true, false => Ok 1
  | true, true, false => Ok 2
  | false, _, true => Ok (Z.lor 1 O_APPEND)
  | true, _, true => Ok (Z.lor 2 O_APPEND)
  | false, false, false => Err EINVAL
  end.

Definition creation_mode (o : OpenOptions) : FsResult Z :=
  let flags := Z.lor (if opt_create o then O_CREAT else 0) (if opt_truncate o then O_TRUNC else 0) in
  match opt_write o, opt_append o with
  | true, false => Ok flags
  | false, false => if opt_truncate o || opt_create o then Err EINVAL else Ok flags
  | _, true => if opt_truncate o then Err EINVAL else Ok flags
  end.

Definition open_flags (o : OpenOptions) (custom : Z) : FsResult Z :=
  match access_mode o with
  | Err e => Err e
  | Ok access =>
      match creation_mode o with
      | Err e => Err e
      | Ok creation => Ok (Z.lor O_CLOEXEC (Z.lor access (Z.lor creation custom)))
      end
  end.

Inductive SetTime : Type :=
  | Omit
  | Now
  | At (sec nsec : Z).

(** What is asked of the host. *)
Inductive HostCall : Type :=
  | CallMetadata (p : path)
  | CallIsDir (p : path)
  | CallReadLink (p : path)
  | CallReadDir (p : path)
  | CallSetPermissions (p : path) (mode : Z)
  | CallSetTimes (p : path) (atime mtime : SetTime)
  | CallSymlink (target : str) (p : path)
  | CallCreateDir (p : path)
  | CallRemoveFile (p : path)
  | CallRemoveDir (p : path)
  | CallRename (from to : path)
  | CallOpen (p : path) (flags mode : Z)
  | CallFileSetLen (size : Z)
  | CallFileSeek (offset : Z)
  | CallFileRead (room : Z)
  | CallFileWrite (data : list Z)
  | CallFileSync.

(** The paths a call names, and whether it changes the host's files (opening does when it
    creates or truncates). *)
Definition call_paths (c : HostCall) : list path :=
  match c with
  | CallMetadata p | CallIsDir p | CallReadLink p | CallReadDir p
  | CallSetPermissions p _ | CallSetTimes p _ _ | CallSymlink _ p | CallCreateDir p
  | CallRemoveFile p | CallRemoveDir p | CallOpen p _ _ => [p]
  | CallRename from to => [from; to]
  | _ => []
  end.

Definition call_mutates (c : HostCall) : bool :=
  match c with
  | CallMetadata _ | CallIsDir _ | CallReadLink _ | CallReadDir _ | CallFileSeek _
  | CallFileRead _ | CallFileSync => false
  | CallOpen _ flags _ => negb (Z.land flags (Z.lor O_CREAT O_TRUNC) =? 0)
  | _ => true
  end.

(** The host's file system: its state [W] and open files [F]. *)
Class HostFs (W F : Type) : Type := {
  symlink_metadata : path → W → result IoError Metadata;
  host_is_dir : path → W → bool;
  read_link : path → W → result IoError str;
  read_dir : path → W → result IoError (list (result IoError (option str)));
  set_permissions : path → Z → W → result IoError unit * W;
  host_set_times : path → SetTime → SetTime → W → result IoError unit * W;
  host_symlink : str → path → W → result IoError unit * W;
  create_dir : path → W → result IoError unit * W;
  remove_file : path → W → result IoError unit * W;
  remove_dir : path → W → result IoError unit * W;
  host_rename : path → path → W → result IoError unit * W;
  host_open : path → Z → Z → W → result IoError F * W;
  file_set_len : F → Z → W → result IoError unit * W;
  file_seek : F → Z → W → result IoError unit * W;
  file_read : F → Z → W → result IoError (list Z) * W;
  file_write_all : F → list Z → W → result IoError unit * W;
  file_sync : F → bool → W → result IoError unit * W;
}.

Record NodeRecord := mk_node {
  n_path : path;
  n_parent : Z;
  n_lookups : Z;
  n_handles : Z;
  n_children : Z;
}.

Section device.
Context {W F : Type} {HF : HostFs W F}.

Record HandleRecord := mk_handle {
  h_node : Z;
  h_directory : bool;
  h_file : option F;
  h_listing : option (list (str * path));
}.

Record FsDevice := mk_device {
  share_tag : str;
  host_path : path;
  read_only : bool;
  nodes : gmap Z NodeRecord;
  ids : gmap path Z;
  handles : gmap Z HandleRecord;
  next_node : Z;
  next_handle : Z;
}.

(** [FsDevice::new], for a share whose canonical host path [root] is a directory. *)
Definition fs_new (tag : str) (root : path) (ro : bool) : option FsDevice :=
  if bool_decide (tag = []) || bool_decide (36 < length tag)%nat then None
  else Some {| share_tag := tag; host_path := root; read_only := ro;
               nodes := {[1 := mk_node root 1 1 0 0]}; ids := {[root := 1]}; handles := ∅;
               next_node := 2; next_handle := 1 |}.

Definition with_nodes (d : FsDevice) (n : gmap Z NodeRecord) : FsDevice :=
  mk_device (share_tag d) (host_path d) (read_only d) n (ids d) (handles d) (next_node d) (next_handle d).
Definition with_ids (d : FsDevice) (i : gmap path Z) : FsDevice :=
  mk_device (share_tag d) (host_path d) (read_only d) (nodes d) i (handles d) (next_node d) (next_handle d).
Definition with_handles (d : FsDevice) (h : gmap Z HandleRecord) : FsDevice :=
  mk_device (share_tag d) (host_path d) (read_only d) (nodes d) (ids d) h (next_node d) (next_handle d).

(** [if let Some(record) = self.nodes.get_mut(&id) { ... }]. *)
Definition alter_node (f : NodeRecord → NodeRecord) (id : Z) (d : FsDevice) : FsDevice :=
  with_nodes d (alter f id (nodes d)).

Definition add_lookups (n : Z) (r : NodeRecord) : NodeRecord :=
  mk_node (n_path r) (n_parent r) (u64 (n_lookups r + n)) (n_handles r) (n_children r).
Definition drop_lookups (n : Z) (r : NodeRecord) : NodeRecord :=
  mk_node (n_path r) (n_parent r) (sat_sub (n_lookups r) n) (n_handles r) (n_children r).
Definition inc_handles (r : NodeRecord) : NodeRecord :=
  mk_node (n_path r) (n_parent r) (n_lookups r) (u32 (n_handles r + 1)) (n_children r).
Definition dec_handles (r : NodeRecord) : NodeRecord :=
  mk_node (n_path r) (n_parent r) (n_lookups r) (sat_sub (n_handles r) 1) (n_children r).
Definition inc_children (r : NodeRecord) : NodeRecord :=
  mk_node (n_path r) (n_parent r) (n_lookups r) (n_handles r) (u32 (n_children r + 1)).
Definition dec_children (r : NodeRecord) : NodeRecord :=
  mk_node (n_path r) (n_parent r) (n_lookups r) (n_handles r) (sat_sub (n_children r) 1).
Definition move_node (to : path) (parent : Z) (r : NodeRecord) : NodeRecord :=
  mk_node to parent (n_lookups r) (n_handles r) (n_children r).

(** The node id for a path, remembered so the guest can refer to it again. *)
Definition intern (p : path) (parent : Z) (d : FsDevice) : Z * FsDevice :=
  match ids d !! p with
  | Some id => (id, d)
  | None =>
      let id := next_node d in
      let d := mk_device (share_tag d) (host_path d) (read_only d)
                 (<[id := mk_node p parent 0 0 0]> (nodes d)) (<[p := id]> (ids d)) (handles d)
                 (u64 (id + 1)) (next_handle d) in
      (id, alter_node inc_children parent d)
  end.

(** Drops a forgotten node and the parents only it kept alive; each turn removes a node. *)
Fixpoint collect_loop (turns : nat) (current : Z) (d : FsDevice) : FsDevice :=
  match turns with
  | O => d
  | S turns =>
      if current =? 1 then d
      else match nodes d !! current with
      | None => d
      | Some r =>
          if (0 <? n_lookups r) || (0 <? n_handles r) || (0 <? n_children r) then d
          else
            let d := with_nodes d (delete current (nodes d)) in
            let d := with_ids d (delete (n_path r) (ids d)) in
            collect_loop turns (n_parent r) (alter_node dec_children (n_parent r) d)
      end
  end.
Definition collect (id : Z) (d : FsDevice) : FsDevice := collect_loop (S (base.size (nodes d))) id d.

Definition forget (id count : Z) (d : FsDevice) : FsDevice :=
  collect id (alter_node (drop_lookups count) id d).

Definition add_handle (node : Z) (directory : bool) (file : option F) (d : FsDevice) : Z * FsDevice :=
  let fh := next_handle d in
  let d := mk_device (share_tag d) (host_path d) (read_only d) (nodes d) (ids d)
             (<[fh := mk_handle node directory file None]> (handles d)) (next_node d) (u64 (fh + 1)) in
  (fh, alter_node inc_handles node d).

Definition remove_handle (fh : Z) (d : FsDevice) : FsDevice :=
  match handles d !! fh with
  | None => d
  | Some r =>
      let d := with_handles d (delete fh (handles d)) in
      collect (h_node r) (alter_node dec_handles (h_node r) d)
  end.

(** ** Steps of a request *)

(** The device, the host, the calls made to it, and the rest of the request. *)
Record FsState := mk_fs {
  fs_dev : FsDevice;
  fs_world : W;
  fs_calls : list HostCall;
  fs_body : Reader;
}.

Definition fsm (A : Type) : Type := FsState → FsResult A * FsState.
#[export] Instance fsm_ret : MRet fsm := λ A a s, (Ok a, s).
#[export] Instance fsm_bind : MBind fsm := λ A B f m s,
  match m s with
  | (Ok a, s) => f a s
  | (Err e, s) => (Err e, s)
  end.

Definition fs_fail {A} (e : Z) : fsm A := λ s, (Err e, s).
Definition lift_result {A} (r : FsResult A) : fsm A := λ s, (r, s).
Definition require {A} (o : option A) (e : Z) : fsm A := lift_result (ok_or o e).
Definition body {A} (m : reading A) : fsm A := λ s,
  let '(r, b) := m (fs_body s) in (r, mk_fs (fs_dev s) (fs_world s) (fs_calls s) b).
Definition dev : fsm FsDevice := λ s, (Ok (fs_dev s), s).
Definition update {A} (f : FsDevice → A * FsDevice) : fsm A := λ s,
  let '(a, d) := f (fs_dev s) in (Ok a, mk_fs d (fs_world s) (fs_calls s) (fs_body s)).
Definition update_ (f : FsDevice → FsDevice) : fsm unit := update (λ d, (tt, f d)).

(** A call to the host; its error becomes an errno. *)
Definition host {A} (c : HostCall) (op : W → result IoError A * W) : fsm A := λ s,
  let '(r, w) := op (fs_world s) in
  (match r with Ok a => Ok a | Err e => Err (errno_of e) end,
   mk_fs (fs_dev s) w (fs_calls s ++ [c]) (fs_body s)).
Definition ask_host {A} (c : HostCall) (op : W → result IoError A) : fsm A :=
  host c (λ w, (op w, w)).

Definition node_path (id : Z) : fsm path :=
  d ← dev; r ← require (nodes d !! id) ENOENT; mret (n_path r).

Definition get_handle (fh : Z) (directory : bool) : fsm HandleRecord :=
  d ← dev;
  match handles d !! fh with
  | Some r => if bool_decide (h_directory r = directory) then mret r else fs_fail EBADF
  | None => fs_fail EBADF
  end.

Definition check_writable : fsm unit := d ← dev; if read_only d then fs_fail EROFS else mret tt.

Definition is_inside (root p : path) : bool := bool_decide (take (length root) p = root).

(** A child path that is still inside the share. *)
Definition child (parent : Z) (name : str) : fsm path :=
  p ← node_path parent;
  name ← lift_result (validate_name name);
  d ← dev;
  if is_inside (host_path d) (p ++ [name]) then mret (p ++ [name]) else fs_fail EPERM.

Definition metadata_of (p : path) : fsm Metadata := ask_host (CallMetadata p) (symlink_metadata p).

Definition write_entry (id validity : Z) : fsm (list Z) :=
  p ← node_path id;
  m ← metadata_of p;
  _ ← update_ (alter_node (add_lookups 1) id);
  mret (w_u64 id ++ w_u64 1 ++ w_u64 validity ++ w_u64 validity ++ w_u32 0 ++ w_u32 0 ++
        write_attr (attributes id m)).

(** [OpenOptions::open]; a file is created with mode 0o666 where none is given. *)
Definition open_with (p : path) (o : OpenOptions) (custom : Z) : fsm F :=
  flags ← lift_result (open_flags o custom);
  let mode := default 0x1b6 (opt_mode o) in
  host (CallOpen p flags mode) (host_open p flags mode).

Definition open_file (p : path) (flags : Z) (create : bool) (mode : Z) : fsm F :=
  let access := Z.land flags 3 in
  d ← dev;
  if (negb (access =? 0) || create) && read_only d then fs_fail EROFS
  else
    let o := {| opt_read := (access =? 0) || (access =? 2);
                opt_write := (access =? 1) || (access =? 2);
                opt_append := negb (Z.land flags 0x400 =? 0);
                opt_truncate := negb (Z.land flags 0x200 =? 0);
                opt_create := create;
                opt_mode := if create then Some (Z.land mode 0x1ff) else None |} in
    open_with p o O_NOFOLLOW.

(** ** One operation per request *)

(** The answer of GETATTR and SETATTR. *)
Definition write_attributes (nodeid : Z) (m : Metadata) : list Z :=
  w_u64 VALIDITY ++ w_u32 0 ++ w_u32 0 ++ write_attr (attributes nodeid m).

(** The answer of OPEN, OPENDIR and CREATE. *)
Definition write_open (fh : Z) : list Z := w_u64 fh ++ w_u32 0 ++ w_i32 (-1).

Definition op_lookup (nodeid : Z) : fsm (list Z) :=
  name ← body cstring;
  p ← child nodeid name;
  _ ← metadata_of p;
  id ← update (intern p nodeid);
  write_entry id VALIDITY.

Definition op_forget (nodeid : Z) : fsm unit :=
  count ← body read_u64;
  update_ (forget nodeid count).

(** The entries of BATCH_FORGET; a request holds fewer than it has bytes. *)
Fixpoint forget_entries (fuel : nat) (count : Z) : fsm unit :=
  match fuel with
  | O => mret tt
  | S fuel =>
      if count <=? 0 then mret tt
      else
        id ← body read_u64;
        lookups ← body read_u64;
        _ ← update_ (forget id lookups);
        forget_entries fuel (count - 1)
  end.

Definition forget_all (count : Z) : fsm unit := λ s,
  forget_entries (length (r_bytes (fs_body s)) + 1) count s.

Definition op_batch_forget : fsm unit :=
  count ← body read_u32;
  _ ← body (skip_bytes 4);
  forget_all count.

Definition op_getattr (nodeid : Z) : fsm (list Z) :=
  p ← node_path nodeid;
  m ← metadata_of p;
  mret (write_attributes nodeid m).

(** The time SETATTR sets: the one given, the host's now, or none. *)
Definition set_time (valid set now sec nsec : Z) : SetTime :=
  if Z.land valid set =? 0 then Omit
  else if Z.land valid now =? 0 then At sec nsec else Now.

Definition when (b : bool) (m : fsm unit) : fsm unit := if b then m else mret tt.

Definition op_setattr (nodeid : Z) : fsm (list Z) :=
  valid ← body read_u32;
  _ ← body (skip_bytes 4);
  fh ← body read_u64;
  size ← body read_u64;
  _ ← body (skip_bytes 8);
  atime_sec ← body read_u64;
  mtime_sec ← body read_u64;
  _ ← body (skip_bytes 8);
  atime_nsec ← body read_u32;
  mtime_nsec ← body read_u32;
  _ ← body (skip_bytes 4);
  mode ← body read_u32;
  p ← node_path nodeid;
  let has f := negb (Z.land valid f =? 0) in
  _ ← when (has (Z.lor SETATTR_SIZE (Z.lor SETATTR_MODE (Z.lor SETATTR_ATIME SETATTR_MTIME))))
        check_writable;
  _ ← when (has SETATTR_SIZE)
        (if has SETATTR_FH then
           r ← get_handle fh false;
           f ← require (h_file r) EBADF;
           host (CallFileSetLen size) (file_set_len f size)
         else
           f ← open_with p (mk_options false true false false false None) 0;
           host (CallFileSetLen size) (file_set_len f size));
  _ ← when (has SETATTR_MODE)
        (host (CallSetPermissions p (Z.land mode 0xfff)) (set_permissions p (Z.land mode 0xfff)));
  let atime := set_time valid SETATTR_ATIME SETATTR_ATIME_NOW atime_sec atime_nsec in
  let mtime := set_time valid SETATTR_MTIME SETATTR_MTIME_NOW mtime_sec mtime_nsec in
  _ ← when (has (Z.lor SETATTR_ATIME SETATTR_MTIME))
        (host (CallSetTimes p atime mtime) (host_set_times p atime mtime));
  m ← metadata_of p;
  mret (write_attributes nodeid m).

Definition op_readlink (nodeid : Z) : fsm (list Z) :=
  p ← node_path nodeid;
  target ← ask_host (CallReadLink p) (read_link p);
  mret (from_utf8_lossy target).

Definition op_symlink (nodeid : Z) : fsm (list Z) :=
  _ ← check_writable;
  name ← body cstring;
  target ← body cstring;
  p ← child nodeid name;
  _ ← host (CallSymlink target p) (host_symlink target p);
  id ← update (intern p nodeid);
  write_entry id VALIDITY.

(** [set_mode] ignores its error. *)
Definition set_mode (p : path) (mode : Z) : fsm unit := λ s,
  let '(_, s) := host (CallSetPermissions p mode) (set_permissions p mode) s in (Ok tt, s).

Definition op_mkdir (nodeid : Z) : fsm (list Z) :=
  _ ← check_writable;
  mode ← body read_u32;
  umask ← body read_u32;
  name ← body cstring;
  p ← child nodeid name;
  _ ← host (CallCreateDir p) (create_dir p);
  _ ← set_mode p (Z.land (Z.land mode (Z.lxor umask 0xffffffff)) 0xfff);
  id ← update (intern p nodeid);
  write_entry id VALIDITY.

Definition op_unlink (opcode nodeid : Z) : fsm (list Z) :=
  _ ← check_writable;
  name ← body cstring;
  p ← child nodeid name;
  _ ← (if opcode =? OP_UNLINK then host (CallRemoveFile p) (remove_file p)
       else host (CallRemoveDir p) (remove_dir p));
  _ ← update_ (λ d, match ids d !! p with
                    | Some id => forget id 18446744073709551615 d
                    | None => d
                    end);
  mret [].

(** The bookkeeping of a rename the host has done. *)
Definition move_entry (from to : path) (new_parent : Z) (d : FsDevice) : FsDevice :=
  match ids d !! from with
  | None => d
  | Some id =>
      let d := with_ids d (delete from (ids d)) in
      let previous := n_parent <$> nodes d !! id in
      let d := alter_node (move_node to new_parent) id d in
      let d := with_ids d (<[to := id]> (ids d)) in
      if bool_decide (previous = Some new_parent) then d
      else
        let d := alter_node inc_children new_parent d in
        match previous with
        | Some previous => collect previous (alter_node dec_children previous d)
        | None => d
        end
  end.

Definition op_rename (nodeid : Z) : fsm (list Z) :=
  _ ← check_writable;
  new_parent ← body read_u64;
  old_name ← body cstring;
  new_name ← body cstring;
  from ← child nodeid old_name;
  to ← child new_parent new_name;
  _ ← host (CallRename from to) (host_rename from to);
  _ ← update_ (move_entry from to new_parent);
  mret [].

Definition op_open (nodeid : Z) : fsm (list Z) :=
  flags ← body read_u32;
  p ← node_path nodeid;
  f ← open_file p flags false 0;
  fh ← update (add_handle nodeid false (Some f));
  mret (write_open fh).

Definition op_opendir (nodeid : Z) : fsm (list Z) :=
  p ← node_path nodeid;
  d ← ask_host (CallIsDir p) (λ w, Ok (host_is_dir p w));
  if (d : bool) then
    fh ← update (add_handle nodeid true None);
    mret (write_open fh)
  else fs_fail ENOTDIR.

Definition op_create (nodeid : Z) : fsm (list Z) :=
  _ ← check_writable;
  flags ← body read_u32;
  mode ← body read_u32;
  umask ← body read_u32;
  _ ← body (skip_bytes 4);
  name ← body cstring;
  p ← child nodeid name;
  f ← open_file p flags true (Z.land mode (Z.lxor umask 0xffffffff));
  id ← update (intern p nodeid);
  entry ← write_entry id VALIDITY;
  fh ← update (add_handle id false (Some f));
  mret (entry ++ write_open fh).

(** The file of a handle that is not a directory's. *)
Definition file_of (fh : Z) : fsm F :=
  r ← get_handle fh false; require (h_file r) EBADF.

(** Reads until the reply is full or the file ends; every turn reads something. *)
Fixpoint read_loop (turns : nat) (f : F) (want : Z) (buffer : list Z) : fsm (list Z) :=
  match turns with
  | O => mret buffer
  | S turns =>
      let room := want - Z.of_nat (length buffer) in
      if room <=? 0 then mret buffer
      else
        data ← host (CallFileRead room) (file_read f room);
        if bool_decide (data = []) then mret buffer
        else read_loop turns f want (buffer ++ take (Z.to_nat room) data)
  end.

Definition op_read (room : Z) : fsm (list Z) :=
  fh ← body read_u64;
  offset ← body read_u64;
  size ← body read_u32;
  f ← file_of fh;
  _ ← host (CallFileSeek offset) (file_seek f offset);
  let want := Z.min size room in
  read_loop (Z.to_nat want) f want [].

Definition op_write : fsm (list Z) :=
  _ ← check_writable;
  fh ← body read_u64;
  offset ← body read_u64;
  size ← body read_u32;
  _ ← body (skip_bytes 20);
  data ← body (take_bytes (Z.to_nat size));
  f ← file_of fh;
  _ ← host (CallFileSeek offset) (file_seek f offset);
  _ ← host (CallFileWrite data) (file_write_all f data);
  mret (w_u32 (u32 (Z.of_nat (length data))) ++ w_u32 0).

(** FLUSH, FSYNC and FSYNCDIR: nothing for a handle without a file. *)
Definition sync_handle (fh : Z) (data_only : bool) : fsm (list Z) :=
  d ← dev;
  match handles d !! fh ≫= h_file with
  | Some f => _ ← host CallFileSync (file_sync f data_only); mret []
  | None => mret []
  end.

Definition op_flush : fsm (list Z) := fh ← body read_u64; sync_handle fh true.
Definition op_fsync : fsm (list Z) :=
  fh ← body read_u64; flags ← body read_u32; sync_handle fh (negb (Z.land flags 1 =? 0)).

Definition op_release (opcode : Z) : fsm (list Z) :=
  fh ← body read_u64;
  _ ← get_handle fh (opcode =? OP_RELEASEDIR);
  _ ← update_ (remove_handle fh);
  mret [].

(** The names and paths of a directory: readable, valid names only. *)
Definition list_names (p : path) (names : list (result IoError (option str)))
    : FsResult (list (str * path)) :=
  match collect_results (λ e, match e with Ok n => Ok n | Err e => Err (errno_of e) end) names with
  | Ok l => Ok (omap (λ n, match n with
                           | Some name => if name_ok name then Some (name, p ++ [name]) else None
                           | None => None
                           end) l)
  | Err e => Err e
  end.

(** The directory read anew: "." and ".." first, then what the host gives; the handle keeps it. *)
Definition read_listing (fh parent : Z) (p : path) : fsm (list (str * path)) :=
  up ← node_path parent;
  names ← ask_host (CallReadDir p) (read_dir p);
  l ← lift_result (list_names p names);
  let l := (lit ".", p) :: (lit "..", up) :: l in
  _ ← update_ (λ d, with_handles d (alter (λ r, mk_handle (h_node r) (h_directory r) (h_file r) (Some l))
                                      fh (handles d)));
  mret l.

(** The listing a READDIR continues, or reads anew at offset 0. *)
Definition listing_of (fh offset parent : Z) (p : path) : fsm (list (str * path)) :=
  d ← dev;
  match handles d !! fh ≫= h_listing with
  | Some l => if 0 <? offset then mret l else read_listing fh parent p
  | None => read_listing fh parent p
  end.

(** The ids of a listing's entries: those given already keep their place without one. *)
Fixpoint entry_ids (index : Z) (offset node parent : Z) (l : list (str * path)) (d : FsDevice)
    : list (str * Z * path) * FsDevice :=
  match l with
  | [] => ([], d)
  | (name, p) :: l =>
      let '(id, d) :=
        if index =? 0 then (node, d) else if index =? 1 then (parent, d)
        else if index <? offset then (0, d) else intern p node d in
      let '(es, d) := entry_ids (index + 1) offset node parent l d in
      ((name, id, p) :: es, d)
  end.

(** The entries from the offset on, while they fit; one that is gone is left out. *)
Fixpoint write_entries (limit index : Z) (es : list (str * Z * path)) (out : list Z) : fsm (list Z) :=
  match es with
  | [] => mret out
  | (name, id, p) :: es =>
      let length_ := Z.land (24 + Z.of_nat (length name) + 7) (Z.lnot 7) in
      if limit <? Z.of_nat (length out) + length_ then mret out
      else λ s,
        match metadata_of p s with
        | (Ok m, s) =>
            write_entries limit (index + 1) es
              (write_dirent out id (index + 1) (dirent_type (a_mode (attributes id m))) name) s
        | (Err _, s) => write_entries limit (index + 1) es out s
        end
  end.

Definition op_readdir (room : Z) : fsm (list Z) :=
  fh ← body read_u64;
  offset ← body read_u64;
  size ← body read_u32;
  r ← get_handle fh true;
  let node := h_node r in
  p ← node_path node;
  d ← dev;
  record ← require (nodes d !! node) ENOENT;
  let parent := n_parent record in
  l ← listing_of fh offset parent p;
  es ← update (entry_ids 0 offset node parent l);
  out ← write_entries (Z.min size room) offset (drop (Z.to_nat (Z.min offset (Z.of_nat (length es)))) es) [];
  _ ← update_ (λ d, foldl (λ d e, collect e.1.2 d) d es);
  mret out.

Definition op_statfs : fsm (list Z) :=
  let blocks := Z.shiftl 1 24 in
  mret (w_u64 blocks ++ w_u64 (blocks / 2) ++ w_u64 (blocks / 2) ++ w_u64 (Z.shiftl 1 20) ++
        w_u64 (Z.shiftl 1 20) ++ w_u32 4096 ++ w_u32 255 ++ w_u32 4096 ++ w_u32 0 ++ zeros 24).

Definition op_access (nodeid : Z) : fsm (list Z) :=
  _ ← body read_u32;
  p ← node_path nodeid;
  _ ← metadata_of p;
  mret [].

(** DESTROY: every handle goes; their order does not matter to what is left open. *)
Definition op_destroy : fsm (list Z) :=
  _ ← update_ (λ d, foldl (λ d fh, remove_handle fh d) d (elements (dom (handles d))));
  mret [].

(** The requests that are answered. *)
Definition process_reply (opcode nodeid room : Z) : fsm (list Z) :=
  if opcode =? OP_INIT then body (init 0)
  else if opcode =? OP_LOOKUP then op_lookup nodeid
  else if opcode =? OP_GETATTR then op_getattr nodeid
  else if opcode =? OP_SETATTR then op_setattr nodeid
  else if opcode =? OP_READLINK then op_readlink nodeid
  else if opcode =? OP_SYMLINK then op_symlink nodeid
  else if opcode =? OP_MKDIR then op_mkdir nodeid
  else if (opcode =? OP_UNLINK) || (opcode =? OP_RMDIR) then op_unlink opcode nodeid
  else if opcode =? OP_RENAME then op_rename nodeid
  else if opcode =? OP_OPEN then op_open nodeid
  else if opcode =? OP_OPENDIR then op_opendir nodeid
  else if opcode =? OP_CREATE then op_create nodeid
  else if opcode =? OP_READ then op_read room
  else if opcode =? OP_WRITE then op_write
  else if opcode =? OP_FLUSH then op_flush
  else if (opcode =? OP_FSYNC) || (opcode =? OP_FSYNCDIR) then op_fsync
  else if (opcode =? OP_RELEASE) || (opcode =? OP_RELEASEDIR) then op_release opcode
  else if opcode =? OP_READDIR then op_readdir room
  else if opcode =? OP_STATFS then op_statfs
  else if opcode =? OP_ACCESS then op_access nodeid
  else if opcode =? OP_DESTROY then op_destroy
  else fs_fail ENOSYS.

Definition process_request (opcode nodeid capacity : Z) : fsm (option (list Z)) :=
  let room := sat_sub capacity OUT_HEADER_SIZE in
  if opcode =? OP_FORGET then _ ← op_forget nodeid; mret None
  else if opcode =? OP_BATCH_FORGET then _ ← op_batch_forget; mret None
  else if opcode =? OP_INTERRUPT then mret None
  else
    out ← process_reply opcode nodeid room;
    if room <? Z.of_nat (length out) then fs_fail EIO else mret (Some out).

(** The device with the host it serves: [FsDevice::process]. *)
Record Shared := mk_shared {
  sh_dev : FsDevice;
  sh_world : W;
  sh_calls : list HostCall;
}.

#[export] Instance fs_server : Server Shared := λ s opcode nodeid b capacity,
  let '(r, s) := process_request opcode nodeid capacity (mk_fs (sh_dev s) (sh_world s) (sh_calls s) b) in
  (r, mk_shared (fs_dev s) (fs_world s) (fs_calls s)).

#[export] Instance Fs_device : Device Shared := {|
  device_id _ := 26;
  features _ := 0;
  config s := config_of (share_tag (sh_dev s));
  notify s _ q m := serve s q m;
  poll s qs m := (Ok [], (s, qs, m));
  reset s := s;
  write_input _ := None;
|}.
End device.

(** ** Reasoning about requests

    [keeps I m Q]: from a state with [I], the step [m] ends in one with [I], and its value, when it
    has one, satisfies [Q]. *)
Section keeps.
Context {W F : Type}.
Abbreviation state := (@FsState W F).

Definition keeps {A} (I : state → Prop) (m : @fsm W F A) (Q : A → Prop) : Prop :=
  ∀ s, I s → I (m s).2 ∧ ∀ a, (m s).1 = Ok a → Q a.

Lemma keeps_ret {A} I (a : A) (Q : A → Prop) : Q a → keeps I (mret a) Q.
Proof. intros HQ s Hs. split; [done|]. by intros ? [= <-]. Qed.

Lemma keeps_bind {A B} I (m : fsm A) (f : A → fsm B) Q R :
  keeps I m Q → (∀ a, Q a → keeps I (f a) R) → keeps I (m ≫= f) R.
Proof.
  intros Hm Hf s Hs. unfold mbind, fsm_bind. destruct (Hm s Hs) as [H1 H2].
  destruct (m s) as [[a|e] s1]; simpl in *; [|done]. by apply Hf; [apply H2|].
Qed.

Lemma keeps_weaken {A} I (m : fsm A) (Q R : A → Prop) :
  keeps I m Q → (∀ a, Q a → R a) → keeps I m R.
Proof. intros Hm H s Hs. destruct (Hm s Hs) as [H1 H2]. eauto. Qed.

Lemma keeps_fail {A} I e (Q : A → Prop) : keeps I (fs_fail e) Q.
Proof. by intros s Hs. Qed.

Lemma keeps_result {A} I (r : FsResult A) (Q : A → Prop) :
  (∀ a, r = Ok a → Q a) → keeps I (lift_result r) Q.
Proof. intros HQ s Hs. by split. Qed.

Lemma keeps_require {A} I (o : option A) e (Q : A → Prop) :
  (∀ a, o = Some a → Q a) → keeps I (require o e) Q.
Proof. intros HQ. apply keeps_result. destruct o; [|done]. intros a0 [= <-]. by apply HQ. Qed.

Lemma keeps_if {A} I (b : bool) (m1 m2 : fsm A) Q :
  (b = true → keeps I m1 Q) → (b = false → keeps I m2 Q) → keeps I (if b then m1 else m2) Q.
Proof. destruct b; auto. Qed.
End keeps.

(** ** The share's boundary *)

(** A name that stays in its directory. *)
Definition ordinary (c : str) : Prop :=
  c ≠ [] ∧ c ≠ lit "." ∧ c ≠ lit ".." ∧ (chr "/" ∉ c) ∧ (0 ∉ c).

Lemma name_ok_ordinary c : name_ok c = true → ordinary c.
Proof.
  unfold name_ok, ordinary. rewrite negb_true_iff, !orb_false_iff. intros [[[[H1 H2] H3] H4] H5].
  apply bool_decide_eq_false in H1, H2, H3. split_and!; try done.
  - intros Hin. apply has_byte_false in H4. rewrite Forall_forall in H4. by specialize (H4 _ Hin).
  - intros Hin. apply has_byte_false in H5. rewrite Forall_forall in H5. by specialize (H5 _ Hin).
Qed.

(** Inside the share: below its root by ordinary names. *)
Definition inside (root p : path) : Prop := ∃ comps, p = root ++ comps ∧ Forall ordinary comps.

Lemma inside_root root : inside root root.
Proof. exists []. by rewrite app_nil_r. Qed.

Lemma inside_snoc root p name : inside root p → name_ok name = true → inside root (p ++ [name]).
Proof.
  intros (cs & -> & Hcs) Hn. exists (cs ++ [name]). rewrite app_assoc. split; [done|].
  apply Forall_app. split; [done|]. apply Forall_singleton. by apply name_ok_ordinary.
Qed.

Section boundary.
Context {W F : Type} {HF : HostFs W F}.
Variable root : path.
Variable ro : bool.

(** Every path the device holds is inside the share. *)
Record dev_inside (d : @FsDevice F) : Prop := {
  in_root : host_path d = root;
  in_ro : read_only d = ro;
  in_nodes id r : nodes d !! id = Some r → inside root (n_path r);
  in_handles fh h l : handles d !! fh = Some h → h_listing h = Some l →
    Forall (λ e, inside root e.2) l;
}.

(** A call the device may make: inside the share, and changing nothing of a read-only one. *)
Definition call_ok (c : HostCall) : Prop :=
  Forall (inside root) (call_paths c) ∧ (ro = true → call_mutates c = false).

Definition fs_inv (s : @FsState W F) : Prop :=
  dev_inside (fs_dev s) ∧ Forall call_ok (fs_calls s).

Lemma alter_node_inside f id d :
  (∀ r, inside root (n_path r) → inside root (n_path (f r))) → dev_inside d → dev_inside (alter_node f id d).
Proof.
  intros Hf [H1 H2 H3 H4]. split; try done. intros i r. simpl. rewrite lookup_alter. case_decide; [|apply H3].
  subst. destruct (nodes d !! i) as [r0|] eqn:E; [|done]. intros [= <-]. apply Hf. by eapply H3.
Qed.

Lemma intern_inside p parent d : inside root p → dev_inside d → dev_inside (intern p parent d).2.
Proof.
  intros Hp Hd. unfold intern. destruct (ids d !! p); [done|]. apply alter_node_inside; [done|].
  destruct Hd as [H1 H2 H3 H4]. split; try done. intros i r. simpl. rewrite lookup_insert.
  case_decide; [|apply H3]. by intros [= <-].
Qed.

Lemma collect_inside id d : dev_inside d → dev_inside (collect id d).
Proof.
  unfold collect. generalize (S (base.size (nodes d))). intros n. revert id d.
  induction n as [|n IH]; intros id d Hd; simpl; [done|]. destruct (id =? 1); [done|].
  destruct (nodes d !! id) as [r|]; [|done]. destruct (_ || _); [done|]. apply IH.
  apply alter_node_inside; [done|]. destruct Hd as [H1 H2 H3 H4]. split; try done.
  intros i r0 Hr. simpl in Hr. apply lookup_delete_Some in Hr as [_ Hr]. by eapply H3.
Qed.

Lemma forget_inside id n d : dev_inside d → dev_inside (forget id n d).
Proof. intros. by apply collect_inside, alter_node_inside. Qed.

Lemma add_handle_inside n b f d : dev_inside d → dev_inside (add_handle n b f d).2.
Proof.
  intros [H1 H2 H3 H4]. apply alter_node_inside; [done|]. split; try done. intros fh h l. simpl.
  rewrite lookup_insert. case_decide; [|apply H4]. by intros [= <-].
Qed.

Lemma remove_handle_inside fh d : dev_inside d → dev_inside (remove_handle fh d).
Proof.
  intros Hd. unfold remove_handle. destruct (handles d !! fh) as [r|]; [|done].
  apply collect_inside, alter_node_inside; [done|]. destruct Hd as [H1 H2 H3 H4]. split; try done.
  intros i h l Hh. simpl in Hh. apply lookup_delete_Some in Hh as [_ Hh]. by eapply H4.
Qed.

Lemma move_entry_inside from to parent d :
  inside root to → dev_inside d → dev_inside (move_entry from to parent d).
Proof.
  intros Hto Hd. unfold move_entry. destruct (ids d !! from) as [id|]; [|done].
  set (d1 := with_ids (alter_node (move_node to parent) id (with_ids d _)) _).
  assert (dev_inside d1) as H1.
  { assert (dev_inside (alter_node (move_node to parent) id d)) as [? ? ? ?]
      by (apply alter_node_inside; [done|done]). by split. }
  case_bool_decide; [done|]. destruct (n_parent <$> _) as [pr|].
  - by apply collect_inside, alter_node_inside, alter_node_inside.
  - by apply alter_node_inside.
Qed.

(** *** The primitive steps *)

Lemma keeps_body {A} (m : reading A) : keeps fs_inv (body m) (λ _, True).
Proof. intros s Hs. unfold body. by destruct (m (fs_body s)). Qed.

Lemma keeps_dev : keeps fs_inv dev dev_inside.
Proof. intros s Hs. split; [done|]. intros d [= <-]. apply Hs. Qed.

Lemma keeps_update {A} (f : FsDevice → A * FsDevice) :
  (∀ d, dev_inside d → dev_inside (f d).2) → keeps fs_inv (update f) (λ _, True).
Proof.
  intros Hf s [Hd Hc]. unfold update. specialize (Hf _ Hd). destruct (f (fs_dev s)) as [a d]. by split.
Qed.

Lemma keeps_host {A} c (op : W → result IoError A * W) :
  call_ok c → keeps fs_inv (host c op) (λ _, True).
Proof.
  intros Hc s [Hd Hcs]. unfold host. destruct (op (fs_world s)) as [r w]. split; [|done].
  split; [done|]. apply Forall_app. split; [done|]. by apply Forall_singleton.
Qed.

(** Host calls: a path inside the share, and a change only where the share is writable. *)
Lemma call_ok_1 c p :
  call_paths c = [p] → inside root p → (ro = true → call_mutates c = false) → call_ok c.
Proof. intros E Hp Hm. split; [rewrite E; by apply Forall_singleton|done]. Qed.

Lemma keeps_node_path id : keeps fs_inv (node_path id) (inside root).
Proof.
  eapply keeps_bind; [apply keeps_dev|]. intros d Hd. eapply keeps_bind.
  - apply (keeps_require _ _ _ (λ r, inside root (n_path r))). intros r Hr. by eapply in_nodes.
  - intros r Hr. by apply keeps_ret.
Qed.

Lemma keeps_get_handle fh b :
  keeps fs_inv (get_handle fh b) (λ h, ∀ l, h_listing h = Some l → Forall (λ e, inside root e.2) l).
Proof.
  eapply keeps_bind; [apply keeps_dev|]. intros d Hd. destruct (handles d !! fh) as [r|] eqn:E; [|apply keeps_fail].
  apply keeps_if; intros _; [|apply keeps_fail]. apply keeps_ret. intros l. by eapply in_handles.
Qed.

(** After [check_writable] the share is known to be writable. *)
Lemma keeps_check_writable : keeps fs_inv check_writable (λ _, ro = false).
Proof.
  eapply keeps_bind; [apply keeps_dev|]. intros d Hd. apply keeps_if; intros Hr; [apply keeps_fail|].
  apply keeps_ret. by rewrite <-(in_ro d Hd).
Qed.

Lemma keeps_child parent name : keeps fs_inv (child parent name) (inside root).
Proof.
  eapply keeps_bind; [apply keeps_node_path|]. intros p Hp.
  eapply (keeps_bind _ _ _ (λ n, name_ok n = true)).
  - apply keeps_result. unfold validate_name. destruct (name_ok name) eqn:E; [|done]. by intros ? [= <-].
  - intros n Hn. eapply keeps_bind; [apply keeps_dev|]. intros d Hd.
    apply keeps_if; intros _; [|apply keeps_fail]. apply keeps_ret. by apply inside_snoc.
Qed.

Lemma keeps_metadata p : inside root p → keeps fs_inv (metadata_of p) (λ _, True).
Proof. intros Hp. by apply keeps_host, (call_ok_1 _ p). Qed.

Lemma keeps_write_entry id v : keeps fs_inv (write_entry id v) (λ _, True).
Proof.
  eapply keeps_bind; [apply keeps_node_path|]. intros p Hp.
  eapply keeps_bind; [by apply keeps_metadata|]. intros m _.
  eapply keeps_bind; [|intros _ _; by apply keeps_ret].
  apply keeps_update. intros d Hd. by apply alter_node_inside.
Qed.

Lemma keeps_intern p parent : inside root p → keeps fs_inv (update (intern p parent)) (λ _, True).
Proof. intros Hp. apply keeps_update. intros d Hd. by apply intern_inside. Qed.

Lemma keeps_add_handle n b f : keeps fs_inv (update (add_handle n b f)) (λ _, True).
Proof. apply keeps_update. intros d Hd. by apply add_handle_inside. Qed.

(** Options without write access or creation never create or truncate. *)
Lemma open_flags_read o flags :
  opt_write o = false → opt_create o = false → open_flags o O_NOFOLLOW = Ok flags →
  Z.land flags (Z.lor O_CREAT O_TRUNC) = 0.
Proof.
  destruct o as [[] [] [] [] [] mode]; simpl; try done; intros _ _ [= <-]; reflexivity.
Qed.

Lemma keeps_open_with p o custom :
  inside root p →
  (ro = true → custom = O_NOFOLLOW ∧ opt_write o = false ∧ opt_create o = false) →
  keeps fs_inv (open_with p o custom) (λ _, True).
Proof.
  intros Hp Hro. unfold open_with.
  eapply keeps_bind; [apply (keeps_result _ _ (λ fl, open_flags o custom = Ok fl)); by intros ? ->|].
  intros flags Hf. apply keeps_host, (call_ok_1 _ p); [done|done|]. intros Hr.
  destruct (Hro Hr) as (-> & Hw & Hc). simpl. by rewrite (open_flags_read o flags).
Qed.

Lemma keeps_open_file p flags create mode :
  inside root p → (create = true → ro = false) →
  keeps fs_inv (open_file p flags create mode) (λ _, True).
Proof.
  intros Hp Hcr. eapply keeps_bind; [apply keeps_dev|]. intros d Hd.
  apply keeps_if; intros Hg; [apply keeps_fail|]. apply keeps_open_with; [done|].
  intros Hro. rewrite (in_ro d Hd), Hro, andb_true_r in Hg. apply orb_false_iff in Hg as [Ha Hc].
  apply negb_false_iff, Z.eqb_eq in Ha. simpl. by rewrite Ha, Hc.
Qed.

(** *** The requests *)

Create HintDb fs.
Hint Resolve keeps_body keeps_dev keeps_node_path keeps_get_handle keeps_check_writable keeps_child
  keeps_metadata keeps_write_entry keeps_intern keeps_add_handle : fs.

(** One step of a request after another, by the steps' own lemmas. *)
Ltac fs_steps :=
  repeat lazymatch goal with
    | |- keeps _ (_ ≫= _) _ => eapply keeps_bind; [solve [eauto with fs]|intros ? ?]
    | |- keeps _ (fs_fail _) _ => apply keeps_fail
    | |- keeps _ (mret _) _ => by apply keeps_ret
    | |- keeps _ (if _ then _ else _) _ => apply keeps_if; intros _
    | |- keeps _ _ _ => solve [eauto with fs]
    end.

Lemma keeps_update_ f :
  (∀ d, dev_inside d → dev_inside (f d)) → keeps fs_inv (update_ f) (λ _, True).
Proof. intros Hf. by apply keeps_update. Qed.

Lemma keeps_when b m (Q : Prop) :
  (b = true → keeps fs_inv m (λ _, Q)) → keeps fs_inv (when b m) (λ _, b = true → Q).
Proof.
  intros Hm. destruct b; simpl; [|by apply keeps_ret]. eapply keeps_weaken; [by apply Hm|done].
Qed.

Lemma keeps_mutate {A} c p (op : W → result IoError A * W) :
  call_paths c = [p] → inside root p → ro = false → keeps fs_inv (host c op) (λ _, True).
Proof. intros Hc Hp Hro. apply keeps_host, (call_ok_1 _ p); [done|done|congruence]. Qed.

Lemma keeps_pathless {A} c (op : W → result IoError A * W) :
  call_paths c = [] → (ro = true → call_mutates c = false) → keeps fs_inv (host c op) (λ _, True).
Proof. intros Hc Hm. apply keeps_host. split; [rewrite Hc; constructor|done]. Qed.

Lemma keeps_op_lookup n : keeps fs_inv (op_lookup n) (λ _, True).
Proof. unfold op_lookup. fs_steps. Qed.

Lemma keeps_op_getattr n : keeps fs_inv (op_getattr n) (λ _, True).
Proof. unfold op_getattr. fs_steps. Qed.

Lemma keeps_op_forget n : keeps fs_inv (op_forget n) (λ _, True).
Proof. unfold op_forget. fs_steps. apply keeps_update_. intros. by apply forget_inside. Qed.

Lemma keeps_op_batch_forget : keeps fs_inv op_batch_forget (λ _, True).
Proof.
  unfold op_batch_forget. fs_steps. intros s Hs. unfold forget_all.
  generalize (length (r_bytes (fs_body s)) + 1)%nat. intros fuel. revert s Hs.
  change (keeps fs_inv (forget_entries fuel a) (λ _, True)).
  revert a H. induction fuel as [|fuel IH]; intros count _; simpl; [by apply keeps_ret|].
  apply keeps_if; intros _; [by apply keeps_ret|]. fs_steps.
  eapply keeps_bind; [|intros _ _; by apply IH]. apply keeps_update_. intros. by apply forget_inside.
Qed.

Lemma keeps_op_readlink n : keeps fs_inv (op_readlink n) (λ _, True).
Proof.
  unfold op_readlink. fs_steps. eapply keeps_bind; [|intros ? ?; by apply keeps_ret].
  by apply keeps_host, (call_ok_1 _ a).
Qed.

Lemma keeps_op_symlink n : keeps fs_inv (op_symlink n) (λ _, True).
Proof.
  unfold op_symlink. fs_steps. eapply keeps_bind; [by eapply keeps_mutate|]. intros ? ?. fs_steps.
Qed.

Lemma keeps_set_mode p mode :
  inside root p → ro = false → keeps fs_inv (set_mode p mode) (λ _, True).
Proof.
  intros Hp Hro s Hs. unfold set_mode.
  destruct (keeps_mutate (CallSetPermissions p mode) p (set_permissions p mode) eq_refl Hp Hro s Hs) as [H1 _].
  by destruct (host _ _ s) as [r s1].
Qed.

Lemma keeps_op_mkdir n : keeps fs_inv (op_mkdir n) (λ _, True).
Proof.
  unfold op_mkdir. fs_steps. eapply keeps_bind; [by eapply keeps_mutate|]. intros ? ?.
  eapply keeps_bind; [by apply keeps_set_mode|]. intros ? ?. fs_steps.
Qed.

Lemma keeps_op_unlink o n : keeps fs_inv (op_unlink o n) (λ _, True).
Proof.
  unfold op_unlink. fs_steps. eapply (keeps_bind _ _ _ (λ _, True)).
  { apply keeps_if; intros _; by eapply keeps_mutate. }
  intros ? ?. eapply keeps_bind; [|intros ? ?; by apply keeps_ret].
  apply keeps_update_. intros d Hd. destruct (ids d !! _); [by apply forget_inside|done].
Qed.

Lemma keeps_op_rename n : keeps fs_inv (op_rename n) (λ _, True).
Proof.
  unfold op_rename. fs_steps. eapply (keeps_bind _ _ _ (λ _, True)).
  { apply keeps_host. split; [by repeat (apply Forall_cons; split)|congruence]. }
  intros ? ?. eapply keeps_bind; [|intros ? ?; by apply keeps_ret].
  apply keeps_update_. intros d Hd. by apply move_entry_inside.
Qed.

Lemma keeps_op_open n : keeps fs_inv (op_open n) (λ _, True).
Proof.
  unfold op_open. fs_steps. eapply keeps_bind; [by apply keeps_open_file|]. intros ? ?. fs_steps.
Qed.

Lemma keeps_op_opendir n : keeps fs_inv (op_opendir n) (λ _, True).
Proof.
  unfold op_opendir. fs_steps. eapply (keeps_bind _ _ _ (λ _, True)).
  { by apply keeps_host, (call_ok_1 _ a). }
  intros ? ?. fs_steps.
Qed.

Lemma keeps_op_create n : keeps fs_inv (op_create n) (λ _, True).
Proof.
  unfold op_create. fs_steps. eapply keeps_bind; [by apply keeps_open_file|]. intros ? ?. fs_steps.
Qed.

Lemma keeps_file_of fh : keeps fs_inv (file_of fh) (λ _, True).
Proof. unfold file_of. fs_steps. by apply keeps_require. Qed.

Lemma keeps_read_loop turns f want buffer : keeps fs_inv (read_loop turns f want buffer) (λ _, True).
Proof.
  revert buffer; induction turns as [|turns IH]; intros buffer; cbn [read_loop]; [by apply keeps_ret|].
  cbv zeta. apply keeps_if; intros _; [by apply keeps_ret|].
  eapply keeps_bind; [by apply keeps_pathless|]. intros data _.
  apply keeps_if; intros _; [by apply keeps_ret|apply IH].
Qed.

Lemma keeps_op_read r : keeps fs_inv (op_read r) (λ _, True).
Proof.
  unfold op_read. fs_steps. eapply keeps_bind; [apply keeps_file_of|]. intros ? ?.
  eapply keeps_bind; [by apply keeps_pathless|]. intros ? ?. apply keeps_read_loop.
Qed.

Lemma keeps_op_write : keeps fs_inv op_write (λ _, True).
Proof.
  unfold op_write. fs_steps. eapply keeps_bind; [apply keeps_file_of|]. intros ? ?.
  eapply keeps_bind; [by apply keeps_pathless|]. intros ? ?.
  eapply keeps_bind; [apply keeps_pathless; [done|congruence]|]. intros ? ?. by apply keeps_ret.
Qed.

Lemma keeps_sync_handle fh b : keeps fs_inv (sync_handle fh b) (λ _, True).
Proof.
  unfold sync_handle. fs_steps. destruct (handles a !! fh ≫= h_file); [|by apply keeps_ret].
  eapply keeps_bind; [by apply keeps_pathless|]. intros ? ?. by apply keeps_ret.
Qed.

Lemma keeps_op_release o : keeps fs_inv (op_release o) (λ _, True).
Proof.
  unfold op_release. fs_steps. eapply keeps_bind; [|intros ? ?; by apply keeps_ret].
  apply keeps_update_. intros. by apply remove_handle_inside.
Qed.

Lemma keeps_op_setattr n : keeps fs_inv (op_setattr n) (λ _, True).
Proof.
  unfold op_setattr. fs_steps. rename a into valid. rename a11 into p.
  match goal with H : inside root ?q |- _ => rename H into Hp end.
  set (has := λ f, negb (Z.land valid f =? 0)).
  assert (∀ f, has f = true → Z.land f (Z.lor SETATTR_SIZE (Z.lor SETATTR_MODE (Z.lor SETATTR_ATIME SETATTR_MTIME))) = f →
    has (Z.lor SETATTR_SIZE (Z.lor SETATTR_MODE (Z.lor SETATTR_ATIME SETATTR_MTIME))) = true) as Hsub.
  { intros f Hf Hsub. unfold has in *. apply negb_true_iff, Z.eqb_neq in Hf. apply negb_true_iff, Z.eqb_neq.
    intros E. apply Hf. rewrite <-Hsub, (Z.land_comm f), Z.land_assoc, E. by rewrite Z.land_0_l. }
  eapply keeps_bind; [apply (keeps_when _ _ (ro = false)); intros _; apply keeps_check_writable|].
  intros u Hw. cbv beta in Hw.
  eapply keeps_bind; [apply (keeps_when _ _ True); intros Hs|].
  { assert (ro = false) as Hro by (apply Hw, (Hsub SETATTR_SIZE); done).
    apply keeps_if; intros _.
    - fs_steps. eapply keeps_bind; [by apply (keeps_require _ _ _ (λ _, True))|]. intros ? ?.
      apply keeps_pathless; [done|congruence].
    - eapply keeps_bind; [apply keeps_open_with; [done|congruence]|]. intros f _.
      apply keeps_pathless; [done|congruence]. }
  intros _ _. eapply keeps_bind; [apply (keeps_when _ _ True); intros Hs|].
  { assert (ro = false) as Hro by (apply Hw, (Hsub SETATTR_MODE); done). by eapply keeps_mutate. }
  intros _ _. eapply keeps_bind; [apply (keeps_when _ _ True); intros Hs|].
  { assert (ro = false) as Hro by (apply Hw, (Hsub (Z.lor SETATTR_ATIME SETATTR_MTIME)); done).
    by eapply keeps_mutate. }
  intros _ _. fs_steps.
Qed.
Lemma list_names_inside p names l :
  inside root p → list_names p names = Ok l → Forall (λ e, inside root e.2) l.
Proof.
  intros Hp. unfold list_names. destruct (collect_results _ names) as [ns|e]; [|done].
  intros [= <-]. apply Forall_forall. intros [n q] Hin. apply list_elem_of_omap in Hin as ([name|] & _ & E); [|done].
  destruct (name_ok name) eqn:Hn; [|done]. injection E as <- <-. by apply inside_snoc.
Qed.

Lemma keeps_read_listing fh parent p :
  inside root p → keeps fs_inv (read_listing fh parent p) (Forall (λ e, inside root e.2)).
Proof.
  intros Hp. unfold read_listing. fs_steps. rename a into up. rename H into Hup.
  eapply (keeps_bind _ _ _ (λ _, True)); [by apply keeps_host, (call_ok_1 _ p)|]. intros names _.
  eapply (keeps_bind _ _ _ (Forall (λ e, inside root e.2))).
  { apply keeps_result. intros l Hl. exact (list_names_inside p names l Hp Hl). }
  intros l Hl. cbv zeta. set (full := (lit ".", p) :: (lit "..", up) :: l).
  assert (Forall (λ e, inside root e.2) full) as Hf
    by (apply Forall_cons; split; [done|]; apply Forall_cons; split; [done|]; exact Hl).
  eapply keeps_bind; [|intros _ _; by apply keeps_ret].
  apply keeps_update_. intros d [H1 H2 H3 H4]. split; try done. intros i h k. simpl. rewrite lookup_alter.
  case_decide; [|apply H4]. subst. destruct (handles d !! i); [|done]. intros [= <-]. by intros [= <-].
Qed.

Lemma keeps_listing fh o parent p :
  inside root p → keeps fs_inv (listing_of fh o parent p) (Forall (λ e, inside root e.2)).
Proof.
  intros Hp. unfold listing_of. eapply keeps_bind; [apply keeps_dev|]. intros d Hd.
  destruct (handles d !! fh ≫= h_listing) as [l|] eqn:E; [|by apply keeps_read_listing].
  apply keeps_if; intros _; [|by apply keeps_read_listing]. apply keeps_ret.
  apply bind_Some in E as (h & Hh & Hl). by eapply in_handles.
Qed.

Lemma entry_ids_inside i o n pr l d :
  Forall (λ e, inside root e.2) l → dev_inside d →
  dev_inside (entry_ids i o n pr l d).2 ∧ Forall (λ e, inside root e.2) (entry_ids i o n pr l d).1.
Proof.
  intros Hl. revert i d. induction Hl as [|[name p] l Hp Hl IH]; intros i d Hd; simpl; [done|].
  assert (dev_inside (if i =? 0 then (n, d) else if i =? 1 then (pr, d) else if i <? o then (0, d)
    else intern p n d).2) as Hd1.
  { repeat case_match; try done. by apply intern_inside. }
  destruct (if i =? 0 then _ else _) as [id d1]. simpl in Hd1.
  destruct (IH (i + 1) d1 Hd1) as [H1 H2]. destruct (entry_ids _ _ _ _ l d1) as [es d2]. simpl in *.
  split; [done|]. by apply Forall_cons.
Qed.

Lemma keeps_write_entries lim i es out :
  Forall (λ e, inside root e.2) es → keeps fs_inv (write_entries lim i es out) (λ _, True).
Proof.
  intros Hes. revert i out. induction Hes as [|[[name id] p] es Hp Hes IH]; intros i out; cbn [write_entries];
    [by apply keeps_ret|]. apply keeps_if; intros _; [by apply keeps_ret|]. intros s Hs.
  destruct (keeps_metadata p Hp s Hs) as [H1 _]. destruct (metadata_of p s) as [[m|e] s1]; by apply IH.
Qed.

Lemma keeps_op_readdir r : keeps fs_inv (op_readdir r) (λ _, True).
Proof.
  unfold op_readdir. fs_steps. eapply (keeps_bind _ _ _ (λ _, True)); [by apply keeps_require|].
  intros rec _. cbv zeta. eapply keeps_bind; [by apply keeps_listing|]. intros l Hl.
  eapply (keeps_bind _ _ _ (Forall (λ e, inside root e.2))).
  { intros s [Hd Hc]. unfold update. destruct (entry_ids_inside 0 a0 (h_node a2) (n_parent rec) l (fs_dev s) Hl Hd) as [E1 E2].
    destruct (entry_ids _ _ _ _ _ _) as [es d]. split; [by split|]. by intros ? [= <-]. }
  intros es Hes. eapply keeps_bind; [by apply keeps_write_entries, Forall_drop|]. intros out _.
  eapply keeps_bind; [|intros _ _; by apply keeps_ret]. apply keeps_update_. intros d Hd.
  clear Hes. revert d Hd. induction es as [|e es IH]; intros d Hd; simpl; [done|].
  apply IH. by apply collect_inside.
Qed.

Lemma keeps_op_access n : keeps fs_inv (op_access n) (λ _, True).
Proof. unfold op_access. fs_steps. Qed.

Lemma keeps_op_destroy : keeps fs_inv op_destroy (λ _, True).
Proof.
  unfold op_destroy. eapply keeps_bind; [|intros _ _; by apply keeps_ret]. apply keeps_update_. intros d.
  generalize (elements (dom (handles d))). intros fhs. revert d.
  induction fhs as [|fh fhs IH]; intros d Hd; simpl; [done|]. apply IH. by apply remove_handle_inside.
Qed.

Hint Resolve keeps_op_lookup keeps_op_getattr keeps_op_setattr keeps_op_readlink keeps_op_symlink
  keeps_op_mkdir keeps_op_unlink keeps_op_rename keeps_op_open keeps_op_opendir keeps_op_create
  keeps_op_read keeps_op_write keeps_sync_handle keeps_op_release keeps_op_readdir keeps_op_access
  keeps_op_destroy keeps_op_forget keeps_op_batch_forget : fs.

Lemma keeps_process_reply o n r : keeps fs_inv (process_reply o n r) (λ _, True).
Proof.
  unfold process_reply, op_flush, op_fsync, op_statfs. fs_steps.
Qed.

Lemma keeps_process o n c : keeps fs_inv (process_request o n c) (λ _, True).
Proof.
  unfold process_request. cbv zeta. fs_steps.
  eapply keeps_bind; [apply keeps_process_reply|]. intros out _. fs_steps.
Qed.
End boundary.

(** ** Sequences of requests *)

Section requests.
Context {W F : Type} {HF : HostFs W F}.

(** Any requests, one after another. *)
Fixpoint process_all (s : @Shared W F) (rs : list (Z * Z * Reader * Z)) : @Shared W F :=
  match rs with
  | [] => s
  | (opcode, nodeid, b, capacity) :: rs => process_all (process s opcode nodeid b capacity).2 rs
  end.

Definition shared_ok (root : path) (ro : bool) (s : @Shared W F) : Prop :=
  dev_inside root ro (sh_dev s) ∧ Forall (call_ok root ro) (sh_calls s).

Lemma process_keeps root ro s opcode nodeid b capacity :
  shared_ok root ro s → shared_ok root ro (process s opcode nodeid b capacity).2.
Proof.
  intros Hs. unfold process, fs_server.
  destruct (keeps_process root ro opcode nodeid capacity
    (mk_fs (sh_dev s) (sh_world s) (sh_calls s) b) Hs) as [H _].
  by destruct (process_request _ _ _ _) as [r s1].
Qed.

Lemma process_all_keeps root ro s rs : shared_ok root ro s → shared_ok root ro (process_all s rs).
Proof.
  revert s; induction rs as [|[[[o n] b] c] rs IH]; intros s Hs; simpl; [done|].
  apply IH. by apply process_keeps.
Qed.

Lemma fs_new_ok tag root ro d w : fs_new tag root ro = Some d → shared_ok root ro (mk_shared d w []).
Proof.
  unfold fs_new. destruct (_ || _); [done|]. intros [= <-]. split; [|constructor]. split; try done.
  intros id r. simpl. rewrite lookup_singleton_Some. intros [_ <-]. apply inside_root.
Qed.

#[export] Instance fs_server_laws : ServerLaws (@Shared W F).
Proof.
  intros s opcode nodeid b capacity payload s' Hp Hc. unfold process, fs_server in Hp.
  destruct (process_request _ _ _ _) as [r s1] eqn:E. injection Hp as -> _. unfold process_request in E.
  destruct (opcode =? OP_FORGET); [unfold mbind, fsm_bind in E; by destruct (op_forget _ _) as [[?|?] ?]|].
  destruct (opcode =? OP_BATCH_FORGET); [unfold mbind, fsm_bind in E; by destruct (op_batch_forget _) as [[?|?] ?]|].
  destruct (opcode =? OP_INTERRUPT); [done|]. unfold mbind, fsm_bind in E.
  destruct (process_reply _ _ _ _) as [[out|e] s2]; [|done].
  destruct (Z.ltb_spec (sat_sub capacity OUT_HEADER_SIZE) (Z.of_nat (length out))); [done|].
  injection E as <- _. unfold sat_sub in *. lia.
Qed.

Lemma serve_keeps (s : @Shared W F) q m :
  queue_ok q → queue_ok (serve s q m).2.1.2 ∧ length (serve s q m).2.2 = length m.
Proof. intros Hq. unfold serve. apply drain_keeps; [|done]. apply serve_chain_length. Qed.

#[export] Instance Fs_laws : DeviceLaws (@Shared W F).
Proof. split; [intros; by apply serve_keeps|done|done]. Qed.
End requests.

(** ** Forgetting *)

Section forgetting.
Context {F : Type}.

(** What a node keeps when others are forgotten. *)
Definition same_node (r r' : NodeRecord) : Prop :=
  n_path r' = n_path r ∧ n_parent r' = n_parent r ∧ n_lookups r' = n_lookups r ∧ n_handles r' = n_handles r.

Lemma collect_loop_safe turns id (d : @FsDevice F) n r :
  nodes d !! n = Some r →
  match nodes (collect_loop turns id d) !! n with
  | Some r' => same_node r r'
  | None => n ≠ 1 ∧ n_lookups r <= 0 ∧ n_handles r <= 0
  end.
Proof.
  revert id d r; induction turns as [|turns IH]; intros id d r Hn; simpl; [by rewrite Hn|].
  destruct (Z.eqb_spec id 1); [by rewrite Hn|]. destruct (nodes d !! id) as [r0|] eqn:E; [|by rewrite Hn].
  destruct (_ || _) eqn:Hg; [by rewrite Hn|].
  set (d1 := alter_node dec_children _ _). destruct (decide (n = id)) as [->|Hne].
  - assert (r0 = r) as -> by congruence. apply orb_false_iff in Hg as [[Hl Hh]%orb_false_iff _].
    assert (nodes (collect_loop turns (n_parent r) d1) !! id = None) as ->; [|lia].
    assert (nodes d1 !! id = None) as Hd1.
    { unfold d1. simpl. rewrite lookup_alter. case_decide as Hp; [rewrite Hp|]; by rewrite lookup_delete_eq. }
    clear -Hd1. generalize dependent d1. generalize (n_parent r). clear.
    induction turns as [|t IH]; intros c d Hd; simpl; [done|].
    destruct (c =? 1); [done|]. destruct (nodes d !! c) as [rc|]; [|done]. destruct (_ || _); [done|].
    apply IH. simpl. rewrite lookup_alter. case_decide; rewrite lookup_delete.
    + by case_decide; [|subst; rewrite Hd].
    + by case_decide.
  - assert (∃ r1, nodes d1 !! n = Some r1 ∧ same_node r r1) as (r1 & Hr1 & Hs1).
    { unfold d1. simpl. rewrite lookup_alter. case_decide as Hp; [rewrite Hp|];
        rewrite lookup_delete_ne by congruence; rewrite Hn; eexists; by split. }
    specialize (IH (n_parent r0) d1 r1 Hr1). destruct Hs1 as (E1 & E2 & E3 & E4).
    destruct (nodes (collect_loop turns _ d1) !! n) as [r'|].
    + destruct IH as (F1 & F2 & F3 & F4). unfold same_node. split_and!; congruence.
    + by rewrite E3, E4 in IH.
Qed.

(** The loop has nothing left to do after as many turns as there are nodes. *)
Lemma collect_loop_ends turns more id (d : @FsDevice F) :
  (base.size (nodes d) < turns)%nat → collect_loop (turns + more) id d = collect_loop turns id d.
Proof.
  revert id d; induction turns as [|turns IH]; intros id d Hs; [lia|]. simpl.
  destruct (id =? 1); [done|]. destruct (nodes d !! id) as [r|] eqn:E; [|done].
  destruct (_ || _); [done|]. apply IH. simpl.
  assert (base.size (alter dec_children (n_parent r) (delete id (nodes d))) < base.size (nodes d))%nat as H; [|lia].
  rewrite <-!size_dom, dom_alter, size_dom. rewrite map_size_delete_Some by eauto.
  assert (base.size (nodes d) ≠ 0)%nat; [|rewrite size_dom; lia].
  intros H0%map_size_empty_inv. by rewrite H0, lookup_empty in E.
Qed.

(** Nothing appears while nodes are dropped. *)
Lemma collect_loop_absent turns id (d : @FsDevice F) n :
  nodes d !! n = None → nodes (collect_loop turns id d) !! n = None.
Proof.
  revert id d; induction turns as [|turns IH]; intros id d Hn; simpl; [done|].
  destruct (id =? 1); [done|]. destruct (nodes d !! id) as [r|]; [|done]. destruct (_ || _); [done|].
  apply IH. simpl. rewrite lookup_alter. case_decide as Hp; [rewrite Hp|]; rewrite lookup_delete;
    by case_decide; rewrite ?Hn.
Qed.
End forgetting.

(** ** Loops with room for every turn *)

Section turns.
Context {W F : Type} {HF : HostFs W F}.

(** A turn of BATCH_FORGET takes sixteen bytes of the request, or fails. *)
Lemma read_u64_advances r v r' :
  read_u64 r = (Ok v, r') → r_bytes r' = r_bytes r ∧ r_at r' = (r_at r + 8)%nat ∧ (r_at r' ≤ length (r_bytes r))%nat.
Proof.
  unfold read_u64. rewrite reading_bind_eq. unfold take_bytes.
  destruct (get_slice _ _ _) as [bs|] eqn:E; [|done]. intros [= _ <-]. split_and!; [done|done|].
  simpl. unfold get_slice in E. case_bool_decide; [lia|done].
Qed.

Lemma forget_entries_ends fuel more count (s : @FsState W F) :
  (r_at (fs_body s) ≤ length (r_bytes (fs_body s)) < fuel + r_at (fs_body s))%nat →
  forget_entries (fuel + more) count s = forget_entries fuel count s.
Proof.
  revert count s; induction fuel as [|fuel IH]; intros count s Hf; cbn [forget_entries Nat.add].
  - lia.
  - destruct (count <=? 0); [done|]. unfold mbind, fsm_bind, body.
    destruct (read_u64 (fs_body s)) as [[id|e] b] eqn:E; [|done].
    destruct (read_u64_advances _ _ _ E) as (E1 & E2 & E3). simpl.
    destruct (read_u64 b) as [[l|e] b2] eqn:E4; [|done].
    destruct (read_u64_advances _ _ _ E4) as (F1 & F2 & F3). simpl. apply IH. simpl. rewrite F1, E1. rewrite E1 in F3. lia.
Qed.

(** A turn of READ adds to the reply, so that as many turns as bytes are enough, and the reply never
    has more than was asked for. *)
Lemma read_loop_ends turns more f want buffer (s : @FsState W F) :
  (want - Z.of_nat (length buffer) <= Z.of_nat turns) →
  read_loop (turns + more) f want buffer s = read_loop turns f want buffer s.
Proof.
  revert buffer s; induction turns as [|turns IH]; intros buffer s Ht; cbn [read_loop Nat.add].
  - destruct more; cbn [read_loop]; [done|]. cbv zeta. by rewrite (proj2 (Z.leb_le _ 0)) by lia.
  - cbv zeta. destruct (Z.leb_spec (want - Z.of_nat (length buffer)) 0); [done|].
    unfold mbind, fsm_bind. destruct (host _ _ s) as [[data|e] s1]; [|done].
    case_bool_decide as Hd; [done|]. apply IH. rewrite length_app, length_take.
    destruct data; [done|]. simpl. lia.
Qed.

Lemma read_loop_fits turns f want buffer (s : @FsState W F) out s' :
  Z.of_nat (length buffer) <= Z.max 0 want →
  read_loop turns f want buffer s = (Ok out, s') → Z.of_nat (length out) <= Z.max 0 want.
Proof.
  revert buffer s; induction turns as [|turns IH]; intros buffer s Hb; cbn [read_loop]; [by intros [= <- _]|].
  cbv zeta. destruct (Z.leb_spec (want - Z.of_nat (length buffer)) 0); [by intros [= <- _]|].
  unfold mbind, fsm_bind. destruct (host _ _ s) as [[data|e] s1]; [|done].
  case_bool_decide; [by intros [= <- _]|]. apply IH. rewrite length_app, length_take. lia.
Qed.
End turns.

(** ** Properties of a shared folder *)

Section properties.
Context {W F : Type} {HF : HostFs W F}.

(** C31: whatever requests the guest sends, well-formed or not, every path the device hands to the
    host is the share's folder or one below it by ordinary names: no "..", no separator, no NUL. *)
Theorem fs_stays_inside tag root ro d w (rs : list (Z * Z * Reader * Z)) c p :
  fs_new tag root ro = Some d →
  c ∈ sh_calls (process_all (mk_shared d w []) rs) → p ∈ call_paths c → inside root p.
Proof.
  intros Hd Hc Hp. apply (fs_new_ok _ _ _ _ w), (process_all_keeps _ _ _ rs) in Hd as [_ Hall].
  rewrite Forall_forall in Hall. destruct (Hall c Hc) as [H _]. rewrite Forall_forall in H. by apply H.
Qed.

(** C32: no request makes a device that shares its folder read-only change a file of the host: it
    writes, truncates, creates, removes, renames and sets attributes of nothing. *)
Theorem fs_read_only_untouched tag root d w (rs : list (Z * Z * Reader * Z)) c :
  fs_new tag root true = Some d →
  c ∈ sh_calls (process_all (mk_shared d w []) rs) → call_mutates c = false.
Proof.
  intros Hd Hc. apply (fs_new_ok _ _ _ _ w), (process_all_keeps _ _ _ rs) in Hd as [_ Hall].
  rewrite Forall_forall in Hall. by apply (Hall c Hc).
Qed.

(** Dropping what the guest has forgotten ends, and drops only what nothing refers to: the root
    stays, so does every node with a lookup or a handle, and a node that stays keeps its path, its
    parent and its counts of both; no node appears. *)
Lemma fs_collect_safe id (d : @FsDevice F) n :
  (∀ more, collect_loop (S (base.size (nodes d)) + more) id d = collect id d) ∧
  match nodes d !! n, nodes (collect id d) !! n with
  | Some r, Some r' => same_node r r'
  | Some r, None => n ≠ 1 ∧ n_lookups r <= 0 ∧ n_handles r <= 0
  | None, o => o = None
  end.
Proof.
  split; [intros more; apply collect_loop_ends; lia|]. destruct (nodes d !! n) as [r|] eqn:E.
  - by apply collect_loop_safe.
  - by apply collect_loop_absent.
Qed.
End properties.

(** ** A host to run the device on *)

(** A host on which everything succeeds and every file is the same. *)
Definition plain_file : Metadata := mk_metadata 3 0x81a4 1 (Some (7, 0)) (Some (9, 0)).

#[export] Instance obliging_host : HostFs unit unit := {|
  symlink_metadata _ _ := Ok plain_file;
  host_is_dir _ _ := true;
  read_link _ _ := Ok (lit "target");
  read_dir _ _ := Ok [Ok (Some (lit "a")); Ok (Some (lit "b")); Ok None];
  set_permissions _ _ w := (Ok tt, w);
  host_set_times _ _ _ w := (Ok tt, w);
  host_symlink _ _ w := (Ok tt, w);
  create_dir _ w := (Ok tt, w);
  remove_file _ w := (Ok tt, w);
  remove_dir _ w := (Ok tt, w);
  host_rename _ _ w := (Ok tt, w);
  host_open _ _ _ w := (Ok tt, w);
  file_set_len _ _ w := (Ok tt, w);
  file_seek _ _ w := (Ok tt, w);
  file_read _ _ w := (Ok [97; 98; 99], w);
  file_write_all _ _ w := (Ok tt, w);
  file_sync _ _ w := (Ok tt, w);
|}.

Definition example_root : path := [lit "srv"; lit "share"].
Definition example_fs (ro : bool) : @Shared unit unit :=
  mk_shared (default (mk_device [] [] true ∅ ∅ ∅ 0 0) (fs_new (lit "share") example_root ro)) tt [].
Definition name (s : string) : list Z := lit s ++ [0].
Definition request (opcode nodeid : Z) (bytes : list Z) : Z * Z * Reader * Z :=
  (opcode, nodeid, mk_reader bytes 0, 4096).

(** A lookup that climbs, a lookup, an open for reading and an open that truncates. *)
Definition example_requests : list (Z * Z * Reader * Z) :=
  [request OP_LOOKUP 1 (name ".."); request OP_LOOKUP 1 (name "a"); request OP_OPEN 2 (w_u32 0 ++ w_u32 0);
   request OP_OPEN 2 (w_u32 0x201 ++ w_u32 0)].

Lemma fs_stays_inside_witness :
  sh_calls (process_all (example_fs false) example_requests) =
    [CallMetadata (example_root ++ [lit "a"]); CallMetadata (example_root ++ [lit "a"]);
     CallOpen (example_root ++ [lit "a"]) 0xa0000 0x1b6; CallOpen (example_root ++ [lit "a"]) 0xa0201 0x1b6] ∧
  inside example_root (example_root ++ [lit "a"]).
Proof.
  split; [by vm_compute|].
  apply (fs_stays_inside (lit "share") example_root false (sh_dev (example_fs false)) tt example_requests
    (CallMetadata (example_root ++ [lit "a"]))).
  - by vm_compute.
  - apply (list_elem_of_lookup_2 _ 0). by vm_compute.
  - by apply list_elem_of_singleton.
Defined.

Lemma fs_read_only_untouched_witness :
  sh_calls (process_all (example_fs true) example_requests) =
    [CallMetadata (example_root ++ [lit "a"]); CallMetadata (example_root ++ [lit "a"]);
     CallOpen (example_root ++ [lit "a"]) 0xa0000 0x1b6] ∧
  call_mutates (CallOpen (example_root ++ [lit "a"]) 0xa0000 0x1b6) = false.
Proof.
  split; [by vm_compute|].
  apply (fs_read_only_untouched (lit "share") example_root (sh_dev (example_fs true)) tt example_requests).
  - by vm_compute.
  - apply (list_elem_of_lookup_2 _ 2). by vm_compute.
Defined.

(** A GETATTR request of the root in guest memory: 56 bytes, and room for 120 behind it. *)
Definition example_getattr : list Z :=
  w_u32 56 ++ w_u32 OP_GETATTR ++ w_u64 5 ++ w_u64 1 ++ zeros 16 ++ zeros 16.
Definition getattr_mem : mem := example_getattr ++ zeros 136.
Definition getattr_chain : Chain := mk_chain [mk_buffer 0 56 false; mk_buffer 64 20 true; mk_buffer 92 100 true] 0 1.

Lemma fuse_request_answered_witness :
  ∃ reply s' m', serve_chain (example_fs true) getattr_mem getattr_chain =
      (Ok (Z.of_nat (length reply)), (s', m')) ∧
    gather m' (targets (buffers getattr_chain)) (length reply) = Some reply ∧
    served (example_fs true) example_getattr 120 reply s'.
Proof.
  apply (fuse_request_answered (example_fs true) getattr_mem getattr_chain example_getattr).
  - apply (bool_decide_unpack _). by vm_compute.
  - by vm_compute.
  - unfold buffers_ok, targets_ok, disjoint_ranges. change (mem_size getattr_mem) with 192. simpl.
    split_and!; try lia; repeat constructor; simpl; lia.
  - by vm_compute.
  - change (total (targets (buffers getattr_chain))) with 120. lia.
  - apply Nat.leb_le. by vm_compute.
  - by vm_compute.
Defined.

(** ** Requests whose outcome is not what the guest means *)

(** Renaming a directory leaves the paths of the nodes below it: after "a" became "c", the node of
    "a/b" is still looked for below "a", where the guest may have put a symlink by then. *)
Example rename_leaves_paths_below :
  last (sh_calls (process_all (example_fs false)
    [request OP_LOOKUP 1 (name "a"); request OP_LOOKUP 2 (name "b");
     request OP_RENAME 1 (w_u64 1 ++ name "a" ++ name "c");
     request OP_SYMLINK 1 (name "a" ++ name "/etc");
     request OP_OPEN 3 (w_u32 0 ++ w_u32 0)])) =
  Some (CallOpen (example_root ++ [lit "a"; lit "b"]) 0xa0000 0x1b6).
Proof. by vm_compute. Qed.

(** A rename that replaces a file leaves the replaced file's node with the path: once the guest
    forgets that node, the path of the one that moved there is gone from the ids, and looking it up
    gives the same file a second node. *)
Example rename_over_then_forget :
  let s := process_all (example_fs false)
    [request OP_LOOKUP 1 (name "a"); request OP_LOOKUP 1 (name "b");
     request OP_RENAME 1 (w_u64 1 ++ name "a" ++ name "b");
     request OP_FORGET 3 (w_u64 1); request OP_LOOKUP 1 (name "b")] in
  n_path <$> nodes (sh_dev s) !! 2 = Some (example_root ++ [lit "b"]) ∧
  n_path <$> nodes (sh_dev s) !! 4 = Some (example_root ++ [lit "b"]).
Proof. by vm_compute. Qed.

(** Creating a file and opening it for reading only, which [open(2)] allows, is refused before the
    host is asked: the standard library wants write access to create. *)
Example create_read_only_refused :
  let '(r, s) := process (example_fs false) OP_CREATE 1
    (mk_reader (w_u32 0 ++ w_u32 0x1a4 ++ w_u32 0x12 ++ w_u32 0 ++ name "f") 0) 4096 in
  r = Err EINVAL ∧ sh_calls s = [].
Proof. by vm_compute. Qed.

(** Truncating by name opens the file without [O_NOFOLLOW]. *)
Example truncate_follows_links :
  drop 2 (sh_calls (process_all (example_fs false)
    [request OP_LOOKUP 1 (name "a");
     request OP_SETATTR 2 (w_u32 SETATTR_SIZE ++ zeros 12 ++ w_u64 0 ++ zeros 80)])) =
  [CallOpen (example_root ++ [lit "a"]) (Z.lor O_CLOEXEC 1) 0x1b6; CallFileSetLen 0;
   CallMetadata (example_root ++ [lit "a"])].
Proof. by vm_compute. Qed.
