(* ===== verification/Cpio.v ===== *)
(** * Cpio archives (engine/src/image_fs.rs [entries], engine/src/protocol.rs [cpio_overlay])

    The boot images are newc archives: [entries] reads the headers of one archive, or several one
    after another; [cpio_overlay] makes the small archives the engine adds itself.  An archive is
    its list of bytes; a read error of the host while its headers are read is left out. *)
From stdpp Require Import strings.
From S2P Require Import Prelude Str.

Local Open Scope Z_scope.

(** One entry of an archive, as its header says. *)
Record Entry := mk_entry {
  e_name : str;
  e_ino : Z;
  e_mode : Z;
  e_uid : Z;
  e_gid : Z;
  e_nlink : Z;
  e_mtime : Z;
  e_size : Z;
  e_dev : Z;
  e_rdev : Z;
  e_offset : Z;
}.

(** Why archives cannot be served; [Panicked] stands for an index out of range or code that is
    declared unreachable, [EntriesBound] for a loop that was cut short. *)
Inductive image_error : Type :=
  | NotAligned (at_ : Z)
  | TruncatedHeader (at_ : Z)
  | NotNewc (at_ : Z)
  | BadHeader
  | BadField (at_ : Z)
  | TruncatedName (at_ : Z)
  | NameNotUtf8 (at_ : Z)
  | NameWithDotDot (name : str)
  | TargetUnreadable
  | TargetNotUtf8 (name : str)
  | NotADirectory (name : str)
  | HasRun
  | Panicked
  | EntriesBound.

(** ** Hexadecimal fields *)

(** [u32::MAX]. *)
Definition U32_MAX : Z := 4294967295.

Fixpoint hex_fixed (k : nat) (n : Z) : str :=
  match k with
  | O => []
  | S k => hex_fixed k (n / 16) ++ [hex_char (n mod 16)]
  end.

Fixpoint hex_width (fuel : nat) (n : Z) : nat :=
  match fuel with
  | O => 1
  | S fuel => if n <? 16 then 1 else S (hex_width fuel (n / 16))
  end.

(** [{:08x}]: at least eight digits; sixteen are enough for 64 bits. *)
Definition hex08 (n : Z) : str := hex_fixed (Nat.max 8 (hex_width 16 n)) n.

(** ** Reading *)

(** [(x + 3) & !3]. *)
Definition align4 (x : Z) : Z := Z.land (x + 3) (Z.lnot 3).

Definition HEADER : nat := 110.
Definition TRAILER : str := lit "TRAILER!!!".

(** NUL padding between archives: where the next entry starts, if there is one. *)
Fixpoint skip_padding (rest : list Z) (at_ : Z) : option Z :=
  match rest with
  | [] => None
  | b :: rest => if b =? 0 then skip_padding rest (at_ + 1) else Some at_
  end.

(** The [index]-th number of a header. *)
Definition field (header : list Z) (at_ : Z) (index : nat) : result image_error Z :=
  let text := slice (6 + 8 * index) (14 + 8 * index) header in
  if utf8_valid text then ok_or (from_hex U32_MAX text) (BadField at_) else Err BadHeader.

(** The entry at [at_], and where the next one starts. *)
Definition read_entry (archive : list Z) (at_ : Z) : result image_error (Entry * Z) :=
  if negb (at_ mod 4 =? 0) then Err (NotAligned at_)
  else
    header ← ok_or (get_slice (Z.to_nat at_) (Z.to_nat at_ + HEADER) archive) (TruncatedHeader at_);
    if negb (bool_decide (take 6 header = lit "070701") || bool_decide (take 6 header = lit "070702"))
    then Err (NotNewc at_)
    else
      let field := field header at_ in
      ino ← field 0%nat; mode ← field 1%nat; uid ← field 2%nat; gid ← field 3%nat;
      nlink ← field 4%nat; mtime ← field 5%nat; size ← field 6%nat;
      dev_major ← field 7%nat; dev_minor ← field 8%nat; rdev_major ← field 9%nat;
      rdev_minor ← field 10%nat; name_size ← field 11%nat;
      name ← ok_or (get_slice (Z.to_nat at_ + HEADER) (Z.to_nat at_ + HEADER + Z.to_nat name_size) archive)
               (TruncatedName at_);
      if negb (utf8_valid name) then Err (NameNotUtf8 at_)
      else
        let name := trim_end (λ b, b =? 0) name in
        let data := align4 (at_ + 110 + name_size) in
        let next := align4 (data + size) in
        Ok ({| e_name := name; e_ino := ino; e_mode := mode; e_uid := uid; e_gid := gid;
               e_nlink := nlink; e_mtime := mtime; e_size := size;
               e_dev := Z.lor (u32 (Z.shiftl dev_major 20)) (Z.land dev_minor 0xfffff);
               e_rdev := Z.lor (Z.lor (Z.land rdev_minor 0xff) (u32 (Z.shiftl rdev_major 8)))
                           (u32 (Z.shiftl (Z.land rdev_minor 0xffffff00) 12));
               e_offset := data |}, next).

(** Entry after entry; a trailer is left out and what follows it is read on. *)
Fixpoint entries_loop (fuel : nat) (archive : list Z) (at_ : Z) (es : list Entry)
    : result image_error (list Entry) :=
  match fuel with
  | O => Err EntriesBound
  | S fuel =>
      match skip_padding (drop (Z.to_nat at_) archive) at_ with
      | None => Ok es
      | Some at_ =>
          '(e, next) ← read_entry archive at_;
          entries_loop fuel archive next (if bool_decide (e_name e = TRAILER) then es else es ++ [e])
      end
  end.

(** An entry has more than a hundred bytes, so there are fewer than bytes. *)
Definition entries (archive : list Z) : result image_error (list Entry) :=
  entries_loop (S (length archive)) archive 0 [].

(** ** Writing *)

(** [while out.len() % 4 != 0 { out.push(0) }]. *)
Definition pad4 (out : list Z) : list Z :=
  out ++ replicate (Z.to_nat ((- Z.of_nat (length out)) mod 4)) 0.

Definition cpio_header (ino mode size name_size : Z) : str :=
  lit "070701" ++ mjoin (hex08 <$> [ino; mode; 0; 0; 1; 0; size; 0; 0; 0; 0; name_size; 0]).

Definition add_entry (out : list Z) (ino : Z) (name : str) (mode : Z) (data : list Z) : list Z :=
  pad4 (pad4 (out ++ cpio_header ino mode (Z.of_nat (length data)) (Z.of_nat (length name) + 1) ++ name ++ [0])
        ++ data).

(** The entries numbered from [index]: directories 755, files 644. *)
Fixpoint add_entries (index : Z) (es : list (str * option (list Z))) (out : list Z) : list Z :=
  match es with
  | [] => out
  | (name, None) :: es => add_entries (index + 1) es (add_entry out (index + 1) name 0x41ed [])
  | (name, Some data) :: es => add_entries (index + 1) es (add_entry out (index + 1) name 0x81a4 data)
  end.

Definition cpio_overlay (es : list (str * option (list Z))) : list Z :=
  add_entry (add_entries 0 es []) 0 TRAILER 0 [].

(** ** Numbers *)

Lemma align4_mod x : align4 x = x + (- x) mod 4.
Proof.
  unfold align4. change (Z.lnot 3) with (Z.lnot (Z.ones 2)). rewrite <-Z.ldiff_land, Z.ldiff_ones_r by lia.
  rewrite Z.shiftl_mul_pow2, Z.shiftr_div_pow2 by lia. change (2 ^ 2) with 4.
  Z.div_mod_to_equations. lia.
Qed.

Lemma hex_value_app bound acc s t :
  hex_value bound acc (s ++ t) = hex_value bound acc s ≫= λ v, hex_value bound v t.
Proof.
  revert acc; induction s as [|b s IH]; intros acc; simpl; [done|].
  destruct (hex_digit b); [|done]. destruct (_ <? _); [done|apply IH].
Qed.

Lemma hex_value_fixed k n acc :
  0 <= acc → 0 <= n < 16 ^ Z.of_nat k → acc * 16 ^ Z.of_nat k + n < 4294967296 →
  hex_value U32_MAX acc (hex_fixed k n) = Some (acc * 16 ^ Z.of_nat k + n).
Proof.
  revert n; induction k as [|k IH]; intros n Hacc Hn Hb.
  - simpl in *. f_equal. lia.
  - rewrite Nat2Z.inj_succ, Z.pow_succ_r in * by lia. cbn [hex_fixed]. rewrite hex_value_app.
    rewrite IH; [|done| |]; [|split; [apply Z.div_pos; lia|apply Z.div_lt_upper_bound; lia]|].
    + simpl. rewrite hex_char_digit by (apply Z.mod_pos_bound; lia).
      assert (n = 16 * (n / 16) + n mod 16) as E by (apply Z.div_mod; lia).
      unfold U32_MAX. rewrite (proj2 (Z.ltb_ge _ _)) by nia. f_equal. nia.
    + assert (n = 16 * (n / 16) + n mod 16) as E by (apply Z.div_mod; lia).
      pose proof (Z.mod_pos_bound n 16 ltac:(lia)). nia.
Qed.

Lemma length_hex_fixed k n : length (hex_fixed k n) = k.
Proof. revert n; induction k as [|k IH]; intros n; simpl; [done|]. rewrite length_app, IH. simpl. lia. Qed.

Lemma hex_width_le fuel k n : 0 <= n < 16 ^ Z.of_nat (S k) → (hex_width fuel n ≤ S k)%nat.
Proof.
  revert k n; induction fuel as [|fuel IH]; intros k n Hn; simpl; [lia|].
  destruct (Z.ltb_spec n 16); [lia|]. apply le_n_S. destruct k as [|k].
  - change (16 ^ Z.of_nat 1) with 16 in Hn. lia.
  - apply IH. rewrite Nat2Z.inj_succ, Z.pow_succ_r in Hn by lia.
    split; [apply Z.div_pos; lia|apply Z.div_lt_upper_bound; lia].
Qed.

Lemma hex08_fixed n : 0 <= n < 4294967296 → hex08 n = hex_fixed 8 n.
Proof. intros Hn. unfold hex08. pose proof (hex_width_le 16 7 n Hn). f_equal. lia. Qed.

Lemma hex_fixed_ascii k n : 0 <= n → Forall (λ b, 48 <= b < 128) (hex_fixed k n).
Proof.
  revert n; induction k as [|k IH]; intros n Hn; cbn [hex_fixed]; [constructor|].
  apply Forall_app. split; [apply IH, Z.div_pos; lia|]. apply Forall_singleton.
  pose proof (Z.mod_pos_bound n 16 ltac:(lia)). unfold hex_char. destruct (Z.ltb_spec (n mod 16) 10); lia.
Qed.

Lemma from_hex_fixed n : 0 <= n < 4294967296 → from_hex U32_MAX (hex_fixed 8 n) = Some n.
Proof.
  intros Hn. pose proof (hex_value_fixed 8 n 0 ltac:(lia) Hn ltac:(lia)) as Hv.
  pose proof (hex_fixed_ascii 8 n ltac:(lia)) as Ha. pose proof (length_hex_fixed 8 n) as Hl.
  destruct (hex_fixed 8 n) as [|b s]; [done|]. apply Forall_cons in Ha as [Hb _].
  unfold from_hex. rewrite Z.add_0_l in Hv.
  destruct (decide (b = 43)); [lia|]. destruct b; try lia. repeat (destruct p; try done).
Qed.

(** ** Headers *)

Lemma slice_chunk (pre : list Z) k (chunks : list (list Z)) i c :
  Forall (λ c, length c = k) chunks → chunks !! i = Some c →
  slice (length pre + k * i) (length pre + k * i + k) (pre ++ mjoin chunks) = c.
Proof.
  intros Hl. revert i pre; induction Hl as [|c0 chunks Hc Hl IH]; intros i pre Hi; [done|].
  destruct i as [|i].
  - injection Hi as ->. simpl. unfold slice. rewrite drop_app_ge by lia.
    replace (length pre + k * 0 - length pre)%nat with 0%nat by lia.
    replace (length pre + k * 0 + k - (length pre + k * 0))%nat with (length c) by lia.
    rewrite drop_0. apply take_app_length.
  - simpl in Hi. specialize (IH i (pre ++ c0) Hi). rewrite length_app, Hc in IH. cbn [mjoin list_join].
    rewrite app_assoc. etransitivity; [|exact IH]. f_equal; lia.
Qed.

Definition header_numbers (ino mode size name_size : Z) : list Z :=
  [ino; mode; 0; 0; 1; 0; size; 0; 0; 0; 0; name_size; 0].

Lemma cpio_header_chunks ino mode size name_size :
  Forall (λ n, 0 <= n < 4294967296) (header_numbers ino mode size name_size) →
  cpio_header ino mode size name_size =
    lit "070701" ++ mjoin (hex_fixed 8 <$> header_numbers ino mode size name_size).
Proof.
  intros Hn. unfold cpio_header. do 2 f_equal. change ([ino; mode; 0; 0; 1; 0; size; 0; 0; 0; 0; name_size; 0]) with
    (header_numbers ino mode size name_size). revert Hn. generalize (header_numbers ino mode size name_size).
  induction 1 as [|n l Hn Hl IH]; [done|]. rewrite !fmap_cons, IH. by rewrite hex08_fixed.
Qed.

Lemma length_mjoin_fixed l : length (mjoin (hex_fixed 8 <$> l)) = (8 * length l)%nat.
Proof.
  induction l as [|n l IH]; [done|]. rewrite fmap_cons.
  change (mjoin (hex_fixed 8 n :: (hex_fixed 8 <$> l))) with (hex_fixed 8 n ++ mjoin (hex_fixed 8 <$> l)).
  rewrite length_app, length_hex_fixed, IH. cbn [length]. lia.
Qed.

Lemma length_cpio_header ino mode size name_size :
  Forall (λ n, 0 <= n < 4294967296) (header_numbers ino mode size name_size) →
  length (cpio_header ino mode size name_size) = HEADER.
Proof.
  intros Hn. rewrite cpio_header_chunks by done. rewrite length_app, length_mjoin_fixed. done.
Qed.

Lemma field_header ino mode size name_size at_ i n :
  Forall (λ n, 0 <= n < 4294967296) (header_numbers ino mode size name_size) →
  header_numbers ino mode size name_size !! i = Some n →
  field (cpio_header ino mode size name_size) at_ i = Ok n.
Proof.
  intros Hn Hi. unfold field. rewrite cpio_header_chunks by done.
  assert (slice (6 + 8 * i) (14 + 8 * i)
    (lit "070701" ++ mjoin (hex_fixed 8 <$> header_numbers ino mode size name_size)) = hex_fixed 8 n) as ->.
  { rewrite <-(slice_chunk (lit "070701") 8 (hex_fixed 8 <$> header_numbers ino mode size name_size) i (hex_fixed 8 n)).
    - change (length (lit "070701")) with 6%nat. f_equal. lia.
    - apply Forall_fmap, Forall_forall. intros x _. apply length_hex_fixed.
    - by rewrite list_lookup_fmap, Hi. }
  assert (0 <= n < 4294967296) as Hb by (rewrite Forall_lookup in Hn; by eapply Hn).
  rewrite utf8_valid_ascii; [by rewrite from_hex_fixed|].
  eapply Forall_impl; [apply hex_fixed_ascii; lia|]. simpl. lia.
Qed.

(** ** What was written is read *)


Lemma length_pad4 out : Z.of_nat (length (pad4 out)) = align4 (Z.of_nat (length out)).
Proof.
  unfold pad4. rewrite length_app, length_replicate, align4_mod.
  pose proof (Z.mod_pos_bound (- Z.of_nat (length out)) 4 ltac:(lia)). lia.
Qed.

Lemma align4_multiple x : align4 x mod 4 = 0.
Proof. rewrite align4_mod. Z.div_mod_to_equations. lia. Qed.

(** A name and content an overlay can hold, and the entry they make. *)
Record writable_entry (ino : Z) (name : str) (mode : Z) (data : list Z) : Prop := {
  we_ino : 0 <= ino < 4294967296;
  we_mode : 0 <= mode < 4294967296;
  we_name : Z.of_nat (length name) + 1 < 4294967296;
  we_data : Z.of_nat (length data) < 4294967296;
  we_utf8 : utf8_valid name = true;
  we_last b : last name = Some b → b ≠ 0;
}.

Definition written_entry (out : list Z) (ino : Z) (name : str) (mode : Z) (data : list Z) : Entry :=
  {| e_name := name; e_ino := ino; e_mode := mode; e_uid := 0; e_gid := 0; e_nlink := 1; e_mtime := 0;
     e_size := Z.of_nat (length data); e_dev := 0; e_rdev := 0;
     e_offset := align4 (Z.of_nat (length out) + 110 + (Z.of_nat (length name) + 1)) |}.

Section written.
Variables (out : list Z) (ino : Z) (name : str) (mode : Z) (data : list Z) (rest : list Z).
Hypothesis Hok : writable_entry ino name mode data.
Hypothesis Haligned : Z.of_nat (length out) mod 4 = 0.

Let header : str := cpio_header ino mode (Z.of_nat (length data)) (Z.of_nat (length name) + 1).

Lemma written_numbers :
  Forall (λ n, 0 <= n < 4294967296)
    (header_numbers ino mode (Z.of_nat (length data)) (Z.of_nat (length name) + 1)).
Proof. destruct Hok. repeat (apply Forall_cons; split; [lia|]). constructor. Qed.

Lemma add_entry_split :
  ∃ pad pad', add_entry out ino name mode data = out ++ header ++ (name ++ [0]) ++ pad ++ data ++ pad' ∧
    Z.of_nat (length (out ++ header ++ (name ++ [0]) ++ pad)) =
      align4 (Z.of_nat (length out) + 110 + (Z.of_nat (length name) + 1)) ∧
    Z.of_nat (length (add_entry out ino name mode data)) =
      align4 (align4 (Z.of_nat (length out) + 110 + (Z.of_nat (length name) + 1)) + Z.of_nat (length data)).
Proof.
  unfold add_entry. fold header. set (head := out ++ header ++ name ++ [0]).
  assert (Z.of_nat (length head) = Z.of_nat (length out) + 110 + (Z.of_nat (length name) + 1)) as Hh.
  { unfold head, header. rewrite !length_app, length_cpio_header by apply written_numbers.
    simpl. unfold HEADER. lia. }
  rewrite <-Hh, <-length_pad4. unfold pad4 at 2. set (padding := replicate _ 0).
  exists padding, (replicate (Z.to_nat ((- Z.of_nat (length (pad4 head ++ data))) mod 4)) 0).
  split_and!.
  - unfold pad4 at 1. fold padding. unfold pad4, head. fold padding. by rewrite <-!app_assoc.
  - unfold pad4. fold padding. unfold head. by rewrite <-!app_assoc.
  - unfold pad4 at 2. fold padding. rewrite length_pad4. f_equal. rewrite !length_app.
    unfold pad4. fold padding. rewrite length_app. lia.
Qed.

Lemma read_entry_written :
  read_entry (add_entry out ino name mode data ++ rest) (Z.of_nat (length out)) =
    Ok (written_entry out ino name mode data, Z.of_nat (length (add_entry out ino name mode data))).
Proof.
  destruct add_entry_split as (pad & pad' & E & _ & Hl). rewrite Hl, E. pose proof written_numbers as Hn.
  assert (length header = HEADER) as Hh by by apply length_cpio_header.
  unfold read_entry. rewrite Haligned. simpl negb. cbn iota. rewrite Nat2Z.id.
  rewrite <-!(app_assoc out), <-!(app_assoc header). rewrite (get_slice_mid out header) by lia.
  cbn [ok_or mbind result_bind]. unfold header at 1 2. rewrite cpio_header_chunks by done.
  rewrite take_app_length' by done. rewrite bool_decide_true by done. cbn [negb orb].
  unfold header. do 12 (rewrite (field_header _ _ _ _ _ _ _ Hn) by reflexivity; cbn [mbind result_bind]).
  fold header. rewrite (app_assoc out header). rewrite <-(app_assoc (name ++ [0])).
  rewrite (get_slice_mid (out ++ header) (name ++ [0])) by (rewrite !length_app, ?Hh; simpl; lia).
  cbn [ok_or mbind result_bind]. rewrite utf8_valid_nul, (we_utf8 _ _ _ _ Hok). simpl negb. cbn iota.
  rewrite trim_end_snoc by done. rewrite trim_end_keep; [done|].
  intros b Hb. apply Z.eqb_neq. by apply (we_last _ _ _ _ Hok).
Qed.

(** The padding before the entry is none, and the data is where the entry says. *)
Lemma skip_padding_written :
  skip_padding (drop (length out) (add_entry out ino name mode data ++ rest)) (Z.of_nat (length out)) =
    Some (Z.of_nat (length out)).
Proof.
  destruct add_entry_split as (pad & pad' & -> & _ & _). rewrite <-app_assoc, drop_app_length. done.
Qed.

Lemma data_written :
  let e := written_entry out ino name mode data in
  slice (Z.to_nat (e_offset e)) (Z.to_nat (e_offset e) + length data) (add_entry out ino name mode data ++ rest) = data.
Proof.
  destruct add_entry_split as (pad & pad' & -> & Hp & _). cbn [e_offset written_entry]. rewrite <-Hp, Nat2Z.id.
  replace ((out ++ header ++ (name ++ [0]) ++ pad ++ data ++ pad') ++ rest) with
    ((out ++ header ++ (name ++ [0]) ++ pad) ++ data ++ (pad' ++ rest)) by by rewrite <-!app_assoc.
  pose proof (get_slice_mid (out ++ header ++ (name ++ [0]) ++ pad) data (pad' ++ rest) _ _ eq_refl eq_refl) as H.
  unfold get_slice in H. case_bool_decide; [|done]. by injection H.
Qed.

Lemma add_entry_aligned : Z.of_nat (length (add_entry out ino name mode data)) mod 4 = 0.
Proof. unfold add_entry. rewrite length_pad4. apply align4_multiple. Qed.

Lemma add_entry_extends : ∃ more, add_entry out ino name mode data = out ++ more ∧ (0 < length more)%nat.
Proof.
  destruct add_entry_split as (pad & pad' & -> & _ & _). eexists. split; [done|].
  rewrite length_app. unfold header. rewrite length_cpio_header by apply written_numbers. unfold HEADER. lia.
Qed.
End written.

(** An entry of an overlay: a directory, or a file with its bytes. *)
Definition overlay_mode (d : option (list Z)) : Z := match d with None => 0x41ed | Some _ => 0x81a4 end.

Definition overlay_ok (src : str * option (list Z)) : Prop :=
  writable_entry 0 src.1 (overlay_mode src.2) (default [] src.2) ∧ src.1 ≠ TRAILER.

(** [e] is [src], numbered, owned by root, its data in the archive. *)
Definition is_entry (archive : list Z) (src : str * option (list Z)) (e : Entry) : Prop :=
  let data := default [] src.2 in
  e_name e = src.1 ∧ e_mode e = overlay_mode src.2 ∧ e_uid e = 0 ∧ e_gid e = 0 ∧ e_nlink e = 1 ∧
  e_mtime e = 0 ∧ e_size e = Z.of_nat (length data) ∧ e_dev e = 0 ∧ e_rdev e = 0 ∧
  slice (Z.to_nat (e_offset e)) (Z.to_nat (e_offset e) + length data) archive = data.

Lemma add_entries_cons i src es out :
  add_entries i (src :: es) out =
    add_entries (i + 1) es (add_entry out (i + 1) src.1 (overlay_mode src.2) (default [] src.2)).
Proof. by destruct src as [name [data|]]. Qed.

Lemma overlay_ok_numbered src i :
  overlay_ok src → 0 <= i < 4294967295 → writable_entry (i + 1) src.1 (overlay_mode src.2) (default [] src.2).
Proof. intros [[? ? ? ? ? ?] _] Hi. split; try done. lia. Qed.

Lemma trailer_ok : writable_entry 0 TRAILER 0 [].
Proof. split; try done; try lia. vm_compute. intros b [= <-]. done. Qed.

Lemma add_entries_extends es i out :
  Forall overlay_ok es → 0 <= i → i + Z.of_nat (length es) < 4294967296 →
  ∃ more, add_entries i es out = out ++ more ∧ (length es ≤ length more)%nat.
Proof.
  intros Hes. revert i out; induction Hes as [|src es Hs Hes IH]; intros i out Hi Hn.
  - exists []. by rewrite app_nil_r.
  - rewrite add_entries_cons. simpl in Hn.
    destruct (add_entry_extends out (i + 1) src.1 (overlay_mode src.2) (default [] src.2)) as (m1 & E1 & L1).
    { apply overlay_ok_numbered; [done|lia]. }
    destruct (IH (i + 1) (add_entry out (i + 1) src.1 (overlay_mode src.2) (default [] src.2))) as (m2 & E2 & L2);
      [lia|lia|]. exists (m1 ++ m2). rewrite E2, E1, <-app_assoc, length_app. split; [done|]. simpl. lia.
Qed.

Lemma entries_loop_written es i out acc fuel archive :
  Forall overlay_ok es → 0 <= i → i + Z.of_nat (length es) < 4294967296 →
  Z.of_nat (length out) mod 4 = 0 → (length es + 2 ≤ fuel)%nat →
  archive = add_entry (add_entries i es out) 0 TRAILER 0 [] →
  ∃ parsed, entries_loop fuel archive (Z.of_nat (length out)) acc = Ok (acc ++ parsed) ∧
    Forall2 (is_entry archive) es parsed.
Proof.
  intros Hes. revert i out acc fuel.
  induction Hes as [|src es Hs Hes IH]; intros i out acc fuel Hi Hn Ha Hf Harch.
  - subst archive. destruct fuel as [|[|fuel]]; [simpl in Hf; lia|simpl in Hf; lia|]. exists []. rewrite app_nil_r.
    split; [|constructor]. cbn [entries_loop add_entries]. rewrite Nat2Z.id.
    pose proof (skip_padding_written out 0 TRAILER 0 [] [] trailer_ok) as Hp. rewrite app_nil_r in Hp. rewrite Hp.
    pose proof (read_entry_written out 0 TRAILER 0 [] [] trailer_ok Ha) as Hr. rewrite app_nil_r in Hr. rewrite Hr.
    cbn [mbind result_bind]. rewrite bool_decide_true by done. rewrite Nat2Z.id, drop_ge by lia. reflexivity.
  - destruct fuel as [|fuel]; [lia|]. rewrite add_entries_cons in Harch. simpl in Hn.
    set (out' := add_entry out (i + 1) src.1 (overlay_mode src.2) (default [] src.2)) in *.
    assert (writable_entry (i + 1) src.1 (overlay_mode src.2) (default [] src.2)) as Hw
      by (apply overlay_ok_numbered; [done|lia]).
    destruct (add_entries_extends es (i + 1) out' Hes) as (m1 & E1 & _); [lia|lia|].
    destruct (add_entry_extends (add_entries (i + 1) es out') 0 TRAILER 0 [] trailer_ok) as (m2 & E2 & _).
    assert (archive = out' ++ m1 ++ m2) as Earch by (by rewrite Harch, E2, E1, <-app_assoc).
    destruct (IH (i + 1) out' (acc ++ [written_entry out (i + 1) src.1 (overlay_mode src.2) (default [] src.2)]) fuel)
      as (parsed & E & Hp); [lia|lia|apply add_entry_aligned|simpl in Hf; lia|exact Harch|].
    eexists (_ :: parsed). split; [|constructor; [|exact Hp]].
    + cbn [entries_loop]. rewrite Nat2Z.id, Earch.
      rewrite (skip_padding_written out (i + 1) src.1 _ _ _ Hw).
      rewrite (read_entry_written out (i + 1) src.1 _ _ _ Hw Ha). cbn [mbind result_bind].
      rewrite bool_decide_false by apply Hs. fold out'. rewrite <-Earch, E. by rewrite <-app_assoc.
    + unfold is_entry. split_and!; try done. rewrite Earch. by apply data_written.
Qed.

(** ** Reading ends *)

(** Refusing is said with a reason; never by a panic or a loop cut short. *)
Definition refusal (e : image_error) : Prop :=
  match e with Panicked | EntriesBound => False | _ => True end.

Definition ensures {A} (r : result image_error A) (Q : A → Prop) : Prop :=
  match r with Ok a => Q a | Err e => refusal e end.

Lemma ensures_bind {A B} (r : result image_error A) (f : A → result image_error B) Q R :
  ensures r Q → (∀ a, Q a → ensures (f a) R) → ensures (r ≫= f) R.
Proof. destruct r; simpl; auto. Qed.

Lemma ensures_weaken {A} (r : result image_error A) (Q R : A → Prop) :
  ensures r Q → (∀ a, Q a → R a) → ensures r R.
Proof. destruct r; simpl; auto. Qed.

Lemma hex_value_nonneg bound acc s v : 0 <= acc → hex_value bound acc s = Some v → 0 <= v.
Proof.
  revert acc; induction s as [|b s IH]; intros acc Ha; simpl; [by intros [= <-]|].
  destruct (hex_digit b) as [d|] eqn:E; [|done]. destruct (_ <? _); [done|]. apply IH.
  assert (0 <= d); [|lia]. unfold hex_digit, in_range in E.
  destruct ((48 <=? b) && (b <=? 57)) eqn:E1; [simplify_eq; lia|].
  destruct ((97 <=? b) && (b <=? 102)) eqn:E2; [simplify_eq; lia|].
  destruct ((65 <=? b) && (b <=? 70)) eqn:E3; [simplify_eq; lia|done].
Qed.

Lemma from_hex_nonneg bound s v : from_hex bound s = Some v → 0 <= v.
Proof. unfold from_hex. repeat case_match; try done; by apply hex_value_nonneg. Qed.

Lemma field_ok header at_ i : ensures (field header at_ i) (λ v, 0 <= v).
Proof.
  unfold field. destruct (utf8_valid _); [|done]. destruct (from_hex _ _) as [v|] eqn:E; [|done].
  simpl. by eapply from_hex_nonneg.
Qed.

Lemma align4_le x : x <= align4 x.
Proof. rewrite align4_mod. pose proof (Z.mod_pos_bound (- x) 4 ltac:(lia)). lia. Qed.

Lemma read_entry_ok archive at_ : ensures (read_entry archive at_) (λ r, at_ + 110 <= r.2).
Proof.
  unfold read_entry. destruct (negb _); [done|]. destruct (get_slice _ _ _) as [header|]; [|done].
  simpl ok_or. cbn [mbind result_bind]. destruct (negb _); [done|].
  do 6 (eapply ensures_bind; [apply field_ok|]; intros ? _).
  eapply ensures_bind; [apply field_ok|]; intros size Hsize.
  do 4 (eapply ensures_bind; [apply field_ok|]; intros ? _).
  eapply ensures_bind; [apply field_ok|]; intros name_size Hname.
  destruct (get_slice _ _ _) as [name|]; [|done]. simpl ok_or. cbn [mbind result_bind].
  destruct (negb _); [done|]. simpl. pose proof (align4_le (at_ + 110 + name_size)).
  pose proof (align4_le (align4 (at_ + 110 + name_size) + size)). cbv beta in *. lia.
Qed.

Lemma skip_padding_bounds rest at_ at' :
  skip_padding rest at_ = Some at' → at_ <= at' < at_ + Z.of_nat (length rest).
Proof.
  revert at_; induction rest as [|b rest IH]; intros at_; simpl; [done|].
  destruct (b =? 0); [intros H%IH; lia|]. intros [= <-]. lia.
Qed.

Lemma entries_loop_ok fuel archive at_ es :
  0 <= at_ → Z.of_nat (length archive) - at_ < Z.of_nat fuel → (0 < fuel)%nat →
  ensures (entries_loop fuel archive at_ es) (λ _, True).
Proof.
  revert at_ es; induction fuel as [|fuel IH]; intros at_ es Ha Hf Hp; [lia|]. cbn [entries_loop].
  destruct (skip_padding _ _) as [at'|] eqn:E; [|done]. apply skip_padding_bounds in E.
  rewrite length_drop in E. eapply ensures_bind; [apply read_entry_ok|]. intros [e next] Hn. simpl in Hn.
  apply IH; lia.
Qed.

Lemma entries_ok archive : ensures (entries archive) (λ _, True).
Proof. apply entries_loop_ok; lia. Qed.

(** C34: the archives the engine makes are read back: every directory and file in order, under its
    name, with its mode, and with its bytes in the archive where the entry says they are. *)
Theorem cpio_overlay_roundtrip (es : list (str * option (list Z))) :
  Forall overlay_ok es → Z.of_nat (length es) < 4294967296 →
  ∃ parsed, entries (cpio_overlay es) = Ok parsed ∧ Forall2 (is_entry (cpio_overlay es)) es parsed.
Proof.
  intros Hes Hn. apply (entries_loop_written es 0 [] []); [done|lia|lia|done| |reflexivity].
  unfold cpio_overlay. destruct (add_entries_extends es 0 [] Hes) as (m1 & -> & L1); [lia|lia|].
  destruct (add_entry_extends ([] ++ m1) 0 TRAILER 0 [] trailer_ok) as (m2 & -> & L2).
  rewrite !length_app. simpl. lia.
Qed.

Definition example_overlay : list (str * option (list Z)) :=
  [(lit "etc", None); (lit "etc/ssl", None); (lit "etc/ssl/collabo-ca.pem", Some [45; 45; 10])].

Lemma cpio_overlay_roundtrip_witness :
  ∃ parsed, entries (cpio_overlay example_overlay) = Ok parsed ∧
    Forall2 (is_entry (cpio_overlay example_overlay)) example_overlay parsed.
Proof.
  apply cpio_overlay_roundtrip; [|vm_compute; done].
  repeat (apply Forall_cons; split; [split; [split; try done; vm_compute; intros b [= <-]; done|done]|]). constructor.
Defined.
