(* ===== verification/ImageFs.v ===== *)
(** * The boot images as a read-only file system (engine/src/image_fs.rs)

    The archives over the initramfs merged into one tree, as the kernel would unpack them, and the
    virtio-fs server the guest mounts it from.  A node's id is its index plus one.  The archive files
    are the host's: [ArchiveHost] opens them and reads from them. *)
From stdpp Require Import strings.
From S2P Require Import Prelude Memory Virtio Buffers Str FuseProto Cpio.

Local Open Scope Z_scope.

Definition TAG : str := lit "collabo-images".
Definition IMAGE_VALIDITY : Z := 365 * 24 * 3600.
Definition OP_READDIRPLUS : Z := 44.
Definition INIT_FLAGS : Z :=
  Z.lor (Z.shiftl 1 13) (Z.lor (Z.shiftl 1 17) (Z.lor (Z.shiftl 1 18) (Z.lor (Z.shiftl 1 23) (Z.shiftl 1 24)))).

(** ** A directory's children: [BTreeMap<String, u64>], in the order of their names *)

Fixpoint str_lt (a b : str) : bool :=
  match a, b with
  | [], [] => false
  | [], _ :: _ => true
  | _ :: _, [] => false
  | x :: a, y :: b => if x =? y then str_lt a b else x <? y
  end.

Fixpoint bt_get (k : str) (l : list (str * Z)) : option Z :=
  match l with
  | [] => None
  | (k', v) :: l => if decide (k = k') then Some v else bt_get k l
  end.

Fixpoint bt_insert (k : str) (v : Z) (l : list (str * Z)) : list (str * Z) :=
  match l with
  | [] => [(k, v)]
  | (k', v') :: l =>
      if decide (k = k') then (k, v) :: l
      else if str_lt k k' then (k, v) :: (k', v') :: l
      else (k', v') :: bt_insert k v l
  end.

(** ** The tree *)

(** The archive files of the host. *)
Class ArchiveHost (P F : Type) : Type := {
  open_archive : P → result IoError F;
  archive_bytes : F → list Z;
  archive_read_at : F → Z → Z → result IoError (list Z);
}.

Inductive Content : Type :=
  | Directory (children : list (str * Z))
  | FileAt (source : nat) (offset : Z)
  | Symlink (target : str)
  | Special.

Record Node := mk_image_node {
  i_mode : Z;
  i_uid : Z;
  i_gid : Z;
  i_rdev : Z;
  i_mtime : Z;
  i_size : Z;
  i_nlink : Z;
  i_parent : Z;
  i_content : Content;
}.

Definition directory_node (parent mode mtime : Z) : Node :=
  {| i_mode := Z.lor S_IFDIR (Z.land mode 0xfff); i_uid := 0; i_gid := 0; i_rdev := 0; i_mtime := mtime;
     i_size := 0; i_nlink := 2; i_parent := parent; i_content := Directory [] |}.

Definition kind_of (mode : Z) : Z := Z.land mode S_IFMT.
Definition is_dir (n : Node) : bool := kind_of (i_mode n) =? S_IFDIR.

(** Hard links: the nodes of one archive's inode numbers. *)
Abbreviation Links := (gmap (Z * Z) Z).

Section tree.
Context {P F : Type} {AH : ArchiveHost P F}.

Inductive Layer : Type :=
  | LayerFile (path : P)
  | LayerBytes (bytes : list Z).

Inductive Source : Type :=
  | SourceFile (file : F)
  | SourceBytes (bytes : list Z).

(** [Source::read_at] into a buffer of [n] bytes: what was read. *)
Definition read_at (s : Source) (n offset : Z) : result IoError (list Z) :=
  match s with
  | SourceBytes bytes =>
      let start := Z.min offset (Z.of_nat (length bytes)) in
      let count := Z.min n (Z.of_nat (length bytes) - start) in
      Ok (slice (Z.to_nat start) (Z.to_nat (start + count)) bytes)
  | SourceFile file => archive_read_at file n offset
  end.

Record Tree := mk_tree {
  t_sources : list Source;
  t_nodes : list Node;
}.

Definition with_tree_nodes (t : Tree) (ns : list Node) : Tree := mk_tree (t_sources t) ns.

(** [self.nodes.get(id - 1)]; indexing instead panics where this is [None]. *)
Definition node_at (t : Tree) (id : Z) : option Node :=
  if id <? 1 then None else t_nodes t !! Z.to_nat (id - 1).
Definition node_or_panic (t : Tree) (id : Z) : result image_error Node := ok_or (node_at t id) Panicked.

Definition tree_node (t : Tree) (id : Z) : FsResult Node := ok_or (node_at t id) ENOENT.
Definition tree_children (t : Tree) (id : Z) : FsResult (list (str * Z)) :=
  n ← tree_node t id;
  match i_content n with Directory children => Ok children | _ => Err ENOTDIR end.

(** [self.nodes[id - 1] = f(...)]. *)
Definition alter_at (f : Node → Node) (id : Z) (t : Tree) : Tree :=
  with_tree_nodes t (alter f (Z.to_nat (id - 1)) (t_nodes t)).

Definition children_mut (t : Tree) (id : Z) : result image_error (list (str * Z)) :=
  n ← node_or_panic t id;
  match i_content n with Directory children => Ok children | _ => Err Panicked end.

Definition set_content (c : Content) (n : Node) : Node :=
  mk_image_node (i_mode n) (i_uid n) (i_gid n) (i_rdev n) (i_mtime n) (i_size n) (i_nlink n) (i_parent n) c.

(** [self.children_mut(parent).insert(name, id)]. *)
Definition insert_child (t : Tree) (parent : Z) (name : str) (id : Z) : result image_error Tree :=
  children ← children_mut t parent;
  Ok (alter_at (set_content (Directory (bt_insert name id children))) parent t).

Definition push_node (t : Tree) (n : Node) : Z * Tree :=
  (Z.of_nat (length (t_nodes t)) + 1, with_tree_nodes t (t_nodes t ++ [n])).

(** [directory_at], from the directory [id] on. *)
Fixpoint directory_at (t : Tree) (id : Z) (path : list str) (mtime : Z) : result image_error (option Z * Tree) :=
  match path with
  | [] => Ok (Some id, t)
  | name :: path =>
      children ← children_mut t id;
      match bt_get name children with
      | Some child =>
          n ← node_or_panic t child;
          if is_dir n then directory_at t child path mtime else Ok (None, t)
      | None =>
          let '(child, t) := push_node t (directory_node id 0x1ed mtime) in
          t ← insert_child t id name child;
          directory_at t child path mtime
      end
  end.

(** The components of an entry's name. *)
Fixpoint path_parts (name : str) (parts : list str) : result image_error (list str) :=
  match parts with
  | [] => Ok []
  | part :: parts =>
      if bool_decide (part = []) || bool_decide (part = lit ".") then path_parts name parts
      else if bool_decide (part = lit "..") then Err (NameWithDotDot name)
      else rest ← path_parts name parts; Ok (part :: rest)
  end.

Definition set_mode_of (mode : Z) (n : Node) : Node :=
  mk_image_node mode (i_uid n) (i_gid n) (i_rdev n) (i_mtime n) (i_size n) (i_nlink n) (i_parent n) (i_content n).
Definition set_owner (mode uid gid mtime : Z) (n : Node) : Node :=
  mk_image_node mode uid gid (i_rdev n) mtime (i_size n) (i_nlink n) (i_parent n) (i_content n).
Definition set_data (size : Z) (c : Content) (n : Node) : Node :=
  mk_image_node (i_mode n) (i_uid n) (i_gid n) (i_rdev n) (i_mtime n) size (i_nlink n) (i_parent n) c.

(** A directory entry. *)
Definition add_directory (t : Tree) (e : Entry) (parent : Z) (name : str) (existing : option (Z * Node))
    : result image_error Tree :=
  let fresh :=
    let n := directory_node parent (e_mode e) (e_mtime e) in
    let n := set_owner (i_mode n) (e_uid e) (e_gid e) (i_mtime n) n in
    let '(id, t) := push_node t n in insert_child t parent name id in
  match existing with
  | Some (id, n) =>
      if is_dir n then Ok (alter_at (set_owner (e_mode e) (e_uid e) (e_gid e) (e_mtime e)) id t) else fresh
  | None => fresh
  end.

(** What unpacking would leave in place: a directory with something in it, and anything of the same
    type that is not a regular file. *)
Definition stays (t : Tree) (kind : Z) (existing : option (Z * Node)) : bool :=
  match existing with
  | Some (id, n) =>
      (is_dir n && match tree_children t id with Ok (_ :: _) => true | _ => false end) ||
      ((kind_of (i_mode n) =? kind) && negb (kind =? S_IFREG))
  | None => false
  end.

(** What the entry puts there; [None] for a type there is nothing to do for. *)
Definition content_of (t : Tree) (source : nat) (e : Entry) (kind : Z) : result image_error (option Content) :=
  if kind =? S_IFREG then Ok (Some (FileAt source (e_offset e)))
  else if kind =? S_IFLNK then
    s ← ok_or (t_sources t !! source) Panicked;
    match read_at s (e_size e) (e_offset e) with
    | Err _ => Err TargetUnreadable
    | Ok target =>
        if utf8_valid target then Ok (Some (Symlink (trim_end (λ b, b =? 0) target)))
        else Err (TargetNotUtf8 (e_name e))
    end
  else if (kind =? 0x1000) || (kind =? 0x2000) || (kind =? 0x6000) || (kind =? 0xc000) then Ok (Some Special)
  else Ok None.

Definition new_node (e : Entry) (kind parent : Z) (c : Content) : Node :=
  {| i_mode := e_mode e; i_uid := e_uid e; i_gid := e_gid e;
     i_rdev := match c with Special => e_rdev e | _ => 0 end; i_mtime := e_mtime e;
     i_size := if (kind =? S_IFREG) || (kind =? S_IFLNK) then e_size e else 0;
     i_nlink := 1; i_parent := parent; i_content := c |}.

(** An entry that is not a directory, under a new name. *)
Definition add_file (t : Tree) (links : Links) (source : nat) (e : Entry) (kind parent : Z) (name : str)
    (c : Content) : result image_error (Tree * Links) :=
  let linked := (kind =? S_IFREG) && (1 <? e_nlink e) in
  match (if linked then links !! (e_ino e, e_dev e) else None) with
  | Some id =>
      t ← (if 0 <? e_size e then
             _ ← node_or_panic t id;
             Ok (alter_at (set_data (e_size e) (FileAt source (e_offset e))) id t)
           else Ok t);
      t ← insert_child t parent name id;
      Ok (t, links)
  | None =>
      let '(id, t) := push_node t (new_node e kind parent c) in
      t ← insert_child t parent name id;
      Ok (t, if linked then <[(e_ino e, e_dev e) := id]> links else links)
  end.

(** One entry of an archive. *)
Definition add_one (source : nat) (st : Tree * Links) (e : Entry) : result image_error (Tree * Links) :=
  let '(t, links) := st in
  path ← path_parts (e_name e) (split_on (λ b, b =? chr "/") (e_name e));
  let kind := kind_of (e_mode e) in
  match reverse path with
  | [] =>
      if kind =? S_IFDIR then
        _ ← node_or_panic t 1;
        Ok (alter_at (set_mode_of (Z.lor S_IFDIR (Z.land (e_mode e) 0xfff))) 1 t, links)
      else Ok (t, links)
  | name :: parents =>
      '(parent, t) ← directory_at t 1 (reverse parents) (e_mtime e);
      match parent with
      | None => Ok (t, links)
      | Some parent =>
          children ← children_mut t parent;
          existing ← match bt_get name children with
                     | None => Ok None
                     | Some id => n ← node_or_panic t id; Ok (Some (id, n))
                     end;
          if kind =? S_IFDIR then t ← add_directory t e parent name existing; Ok (t, links)
          else if stays t kind existing then Ok (t, links)
          else
            c ← content_of t source e kind;
            match c with
            | None => Ok (t, links)
            | Some c => add_file t links source e kind parent name c
            end
      end
  end.

Fixpoint add_loop (source : nat) (st : Tree * Links) (es : list Entry) : result image_error (Tree * Links) :=
  match es with
  | [] => Ok st
  | e :: es => st ← add_one source st e; add_loop source st es
  end.

Definition tree_add (t : Tree) (source : nat) (es : list Entry) : result image_error Tree :=
  '(t, _) ← add_loop source (t, ∅) es; Ok t.

(** *** Link counts *)

(** [counts[id - 1] += 1]. *)
Definition bump (counts : list Z) (id : Z) : result image_error (list Z) :=
  if id <? 1 then Err Panicked
  else match counts !! Z.to_nat (id - 1) with
       | Some c => Ok (<[Z.to_nat (id - 1) := u32 (c + 1)]> counts)
       | None => Err Panicked
       end.

Fixpoint bump_all (counts : list Z) (ids : list Z) : result image_error (list Z) :=
  match ids with
  | [] => Ok counts
  | id :: ids => counts ← bump counts id; bump_all counts ids
  end.

Definition child_ids (n : Node) : list Z :=
  match i_content n with Directory children => children.*2 | _ => [] end.

(** The parents of the directories below the root. *)
Definition directory_parents (ns : list Node) : list Z :=
  i_parent <$> filter (λ n, is_dir n = true) (drop 1 ns).

Definition set_nlink (n : Node) (names subdirectories : Z) : Node :=
  mk_image_node (i_mode n) (i_uid n) (i_gid n) (i_rdev n) (i_mtime n) (i_size n)
    (if is_dir n then u32 (2 + subdirectories) else Z.max names 1) (i_parent n) (i_content n).

Definition count_links (t : Tree) : result image_error Tree :=
  let none := replicate (length (t_nodes t)) 0 in
  counts ← bump_all none (mjoin (child_ids <$> t_nodes t));
  subdirectories ← bump_all none (directory_parents (t_nodes t));
  Ok (with_tree_nodes t (zip_with (λ n c, set_nlink n c.1 c.2) (t_nodes t) (zip counts subdirectories))).

(** *** Building *)

(** What the top level may hold: directories, and no "run". *)
Fixpoint check_top (t : Tree) (children : list (str * Z)) : result image_error unit :=
  match children with
  | [] => Ok tt
  | (name, id) :: children =>
      n ← node_or_panic t id;
      if negb (is_dir n) then Err (NotADirectory name)
      else if bool_decide (name = lit "run") then Err HasRun
      else check_top t children
  end.

(** One archive: its entries are added under its index. *)
Definition add_source (t : Tree) (s : Source) : result image_error Tree :=
  let index := length (t_sources t) in
  es ← entries (match s with SourceFile f => archive_bytes f | SourceBytes bytes => bytes end);
  tree_add (mk_tree (t_sources t ++ [s]) (t_nodes t)) index es.

(** The outer result is a file that cannot be opened, the inner one why the archives cannot be
    served. *)
Fixpoint build_loop (t : Tree) (layers : list Layer) : result IoError (result image_error Tree) :=
  match layers with
  | [] => Ok (Ok t)
  | layer :: layers =>
      s ← match layer with
          | LayerFile path => f ← open_archive path; Ok (SourceFile f)
          | LayerBytes bytes => Ok (SourceBytes bytes)
          end;
      match add_source t s with
      | Err e => Ok (Err e)
      | Ok t => build_loop t layers
      end
  end.

Definition finish (t : Tree) : result image_error Tree :=
  root ← node_or_panic t 1;
  _ ← match i_content root with Directory children => check_top t children | _ => Ok tt end;
  count_links t.

Definition build (layers : list Layer) : result IoError (result image_error Tree) :=
  t ← build_loop (mk_tree [] [directory_node 1 0x1ed 0]) layers;
  Ok (t ← t; finish t).

(** [arrange]: the initramfs and the device, or everything unpacked after the initramfs. *)
Fixpoint append_layers (initcpio : list Z) (layers : list Layer) : result IoError (list Z) :=
  match layers with
  | [] => Ok initcpio
  | LayerFile path :: layers => f ← open_archive path; append_layers (initcpio ++ archive_bytes f) layers
  | LayerBytes bytes :: layers => append_layers (initcpio ++ bytes) layers
  end.

Definition arrange (wanted : bool) (initramfs : list Z) (layers : list Layer)
    : result IoError (list Z * option Tree) :=
  match layers with
  | [] => Ok (initramfs, None)
  | _ =>
      served ← (if wanted then t ← build layers; Ok (match t with Ok t => Some t | Err _ => None end)
                else Ok None);
      match served with
      | Some t => Ok (initramfs, Some t)
      | None => initcpio ← append_layers initramfs layers; Ok (initcpio, None)
      end
  end.

(** ** The server *)

Definition tree_attributes (t : Tree) (id : Z) : FsResult Attributes :=
  n ← tree_node t id;
  Ok {| a_ino := id; a_size := i_size n; a_mode := i_mode n; a_nlink := i_nlink n; a_uid := i_uid n;
        a_gid := i_gid n; a_rdev := i_rdev n; a_atime := (i_mtime n, 0); a_mtime := (i_mtime n, 0);
        a_ctime := (i_mtime n, 0) |}.

Definition image_entry (t : Tree) (id : Z) : FsResult (list Z) :=
  a ← tree_attributes t id;
  Ok (w_u64 id ++ w_u64 1 ++ w_u64 IMAGE_VALIDITY ++ w_u64 IMAGE_VALIDITY ++ w_u32 0 ++ w_u32 0 ++ write_attr a).

(** A name that does not exist, which the guest may remember too. *)
Definition negative_entry : list Z :=
  w_u64 0 ++ w_u64 0 ++ w_u64 IMAGE_VALIDITY ++ w_u64 0 ++ w_u32 0 ++ w_u32 0 ++ zeros (Z.to_nat ATTR_SIZE).

Definition image_lookup (t : Tree) (nodeid : Z) (name : str) : FsResult (list Z) :=
  children ← tree_children t nodeid;
  match bt_get name children with
  | Some id => image_entry t id
  | None => Ok negative_entry
  end.

Definition image_getattr (t : Tree) (nodeid : Z) : FsResult (list Z) :=
  a ← tree_attributes t nodeid;
  Ok (w_u64 IMAGE_VALIDITY ++ w_u32 0 ++ w_u32 0 ++ write_attr a).

Definition image_readlink (t : Tree) (nodeid : Z) : FsResult (list Z) :=
  n ← tree_node t nodeid;
  match i_content n with Symlink target => Ok target | _ => Err EINVAL end.

(** Reads until there is as much as wanted or nothing more; every turn reads something. *)
Fixpoint image_read_loop (turns : nat) (s : Source) (start want : Z) (buffer : list Z) : FsResult (list Z) :=
  match turns with
  | O => Ok buffer
  | S turns =>
      let read := Z.of_nat (length buffer) in
      if want <=? read then Ok buffer
      else match read_at s (want - read) (start + read) with
           | Err e => Err (errno_of e)
           | Ok [] => Ok buffer
           | Ok data => image_read_loop turns s start want (buffer ++ take (Z.to_nat (want - read)) data)
           end
  end.

(** A tree's files name sources it has ([tree_ok]); the code indexes them. *)
Definition image_read (t : Tree) (nodeid offset size room : Z) : FsResult (list Z) :=
  n ← tree_node t nodeid;
  match i_content n with
  | FileAt source start =>
      let want := Z.min (Z.min size room) (sat_sub (i_size n) offset) in
      s ← ok_or (t_sources t !! source) EIO;
      image_read_loop (Z.to_nat want) s (start + offset) want []
  | _ => Err EBADF
  end.

Definition dirent_room (plus : bool) (name : str) : Z :=
  Z.land ((if plus then ENTRY_OUT_SIZE else 0) + 24 + Z.of_nat (length name) + 7) (Z.lnot 7).

(** The entries from [index] on, while they fit. *)
Fixpoint write_listing (t : Tree) (plus : bool) (limit index : Z) (l : list (str * Z)) (out : list Z)
    : FsResult (list Z) :=
  match l with
  | [] => Ok out
  | (name, id) :: l =>
      if limit <? Z.of_nat (length out) + dirent_room plus name then Ok out
      else
        entry ← (if plus then if index <? 2 then Ok (zeros (Z.to_nat ENTRY_OUT_SIZE)) else image_entry t id
                 else Ok []);
        n ← tree_node t id;
        write_listing t plus limit (index + 1) l
          (write_dirent (out ++ entry) id (index + 1) (dirent_type (i_mode n)) name)
  end.

Definition listing (t : Tree) (nodeid : Z) : FsResult (list (str * Z)) :=
  n ← tree_node t nodeid;
  children ← tree_children t nodeid;
  Ok ((lit ".", nodeid) :: (lit "..", i_parent n) :: children).

Definition image_readdir (t : Tree) (plus : bool) (nodeid offset size room : Z) : FsResult (list Z) :=
  l ← listing t nodeid;
  write_listing t plus (Z.min size room) offset (drop (Z.to_nat (Z.min offset (Z.of_nat (length l)))) l) [].

Definition image_statfs (t : Tree) : list Z :=
  let bytes := u64 (foldr (λ n total, i_size n + total) 0 (t_nodes t)) in
  w_u64 ((bytes + 4095) / 4096) ++ w_u64 0 ++ w_u64 0 ++ w_u64 (Z.of_nat (length (t_nodes t))) ++ w_u64 0 ++
  w_u32 4096 ++ w_u32 255 ++ w_u32 4096 ++ w_u32 0 ++ zeros 24.

Definition lift_reading {A} (r : FsResult A) : reading A := λ b, (r, b).
Definition one_of (opcode : Z) (l : list Z) : bool := existsb (λ o, opcode =? o) l.

(** The requests that are answered. *)
Definition image_reply (t : Tree) (opcode nodeid room : Z) : reading (list Z) :=
  if opcode =? OP_INIT then init INIT_FLAGS
  else if opcode =? OP_LOOKUP then name ← cstring; lift_reading (image_lookup t nodeid name)
  else if opcode =? OP_GETATTR then lift_reading (image_getattr t nodeid)
  else if opcode =? OP_READLINK then lift_reading (image_readlink t nodeid)
  else if one_of opcode [OP_OPEN; OP_OPENDIR; OP_FLUSH; OP_FSYNC; OP_FSYNCDIR; OP_ACCESS] then raise ENOSYS
  else if opcode =? OP_READ then
    _ ← skip_bytes 8; offset ← read_u64; size ← read_u32; lift_reading (image_read t nodeid offset size room)
  else if one_of opcode [OP_RELEASE; OP_RELEASEDIR] then mret []
  else if one_of opcode [OP_READDIR; OP_READDIRPLUS] then
    _ ← skip_bytes 8; offset ← read_u64; size ← read_u32;
    lift_reading (image_readdir t (opcode =? OP_READDIRPLUS) nodeid offset size room)
  else if opcode =? OP_STATFS then mret (image_statfs t)
  else if one_of opcode [OP_SETATTR; OP_SYMLINK; OP_MKDIR; OP_UNLINK; OP_RMDIR; OP_RENAME; OP_CREATE; OP_WRITE]
  then raise EROFS
  else if opcode =? OP_DESTROY then mret []
  else raise ENOSYS.

Definition image_process (t : Tree) (opcode nodeid capacity : Z) : reading (option (list Z)) :=
  let room := sat_sub capacity OUT_HEADER_SIZE in
  if one_of opcode [OP_FORGET; OP_BATCH_FORGET; OP_INTERRUPT] then mret None
  else
    out ← image_reply t opcode nodeid room;
    if room <? Z.of_nat (length out) then raise EIO else mret (Some out).

#[export] Instance image_server : Server Tree := λ t opcode nodeid b capacity,
  ((image_process t opcode nodeid capacity b).1, t).

#[export] Instance Image_device : Device Tree := {|
  device_id _ := 26;
  features _ := 0;
  config _ := config_of TAG;
  notify t _ q m := serve t q m;
  poll t qs m := (Ok [], (t, qs, m));
  reset t := t;
  write_input _ := None;
|}.
End tree.

(** ** Well-formed trees *)

Definition is_directory (c : Content) : bool := match c with Directory _ => true | _ => false end.

Section wellformed.
Context {P F : Type} {AH : ArchiveHost P F}.
Implicit Types t : @Tree F.

(** Whether an id is a directory's; [None] for no node. *)
Definition dir_at t (id : Z) : option bool := is_dir <$> node_at t id.

(** A node's children and parent are nodes, its type is its content's, its archive is there. *)
Record node_ok t (n : Node) : Prop := {
  ok_kind : is_dir n = is_directory (i_content n);
  ok_children children : i_content n = Directory children → Forall (λ c, is_Some (dir_at t c.2)) children;
  ok_source s o : i_content n = FileAt s o → (s < length (t_sources t))%nat;
  ok_parent : dir_at t (i_parent n) = Some true;
}.

Record tree_ok t : Prop := {
  ok_nodes : Forall (node_ok t) (t_nodes t);
  ok_root : dir_at t 1 = Some true;
}.

(** Nodes stay what they are, archives stay. *)
Record grows t t' : Prop := {
  grows_dirs id b : dir_at t id = Some b → dir_at t' id = Some b;
  grows_sources : (length (t_sources t) ≤ length (t_sources t'))%nat;
}.

Lemma grows_refl t : grows t t.
Proof. by split. Qed.

Lemma grows_trans t1 t2 t3 : grows t1 t2 → grows t2 t3 → grows t1 t3.
Proof. intros [H1 H2] [H3 H4]. split; [auto|lia]. Qed.

Lemma node_ok_grows t t' n : grows t t' → node_ok t n → node_ok t' n.
Proof.
  intros [Hd Hs] [H1 H2 H3 H4]. split; [done| |intros s o Hc; specialize (H3 s o Hc); lia|by apply Hd].
  intros children Hc. eapply Forall_impl; [by apply H2|]. intros c [b Hb]. exists b. by apply Hd.
Qed.

Lemma node_at_ok t id n : tree_ok t → node_at t id = Some n → node_ok t n.
Proof.
  intros [Hn _]. unfold node_at. destruct (id <? 1); [done|]. intros Hl.
  rewrite Forall_lookup in Hn. by eapply Hn.
Qed.

Lemma push_grows t n : grows t (push_node t n).2.
Proof.
  split; [|done]. intros id b. unfold dir_at, node_at. simpl. destruct (id <? 1); [done|].
  destruct (t_nodes t !! _) eqn:E; [|done]. by rewrite (lookup_app_l_Some _ _ _ _ E).
Qed.

Lemma push_ok t n :
  tree_ok t → node_ok (push_node t n).2 n →
  tree_ok (push_node t n).2 ∧ grows t (push_node t n).2 ∧
  dir_at (push_node t n).2 (push_node t n).1 = Some (is_dir n).
Proof.
  intros [Hn Hr] Hnew. pose proof (push_grows t n) as Hg.
  split_and!; [split|done|].
  - simpl. apply Forall_app. split; [|by apply Forall_singleton]. eapply Forall_impl; [exact Hn|].
    intros n0. by apply node_ok_grows.
  - by apply Hg.
  - unfold dir_at, node_at. simpl. rewrite (proj2 (Z.ltb_ge _ _)) by lia.
    replace (Z.to_nat (Z.of_nat (length (t_nodes t)) + 1 - 1)) with (length (t_nodes t)) by lia.
    by rewrite list_lookup_middle.
Qed.

Lemma alter_ok f id t n :
  tree_ok t → node_at t id = Some n → is_dir (f n) = is_dir n → node_ok t (f n) →
  tree_ok (alter_at f id t) ∧ grows t (alter_at f id t).
Proof.
  intros [Hn Hr] Hid Hk Hok. assert (grows t (alter_at f id t)) as Hg.
  { split; [|done]. intros i b. unfold dir_at, node_at in *. simpl. destruct (id <? 1); [done|].
    destruct (i <? 1); [done|]. destruct (decide (Z.to_nat (i - 1) = Z.to_nat (id - 1))) as [->|Hne].
    - rewrite list_lookup_alter_eq, Hid. simpl. by rewrite Hk.
    - by rewrite list_lookup_alter_ne. }
  split; [split|done].
  - apply Forall_lookup. intros i n0 Hl. simpl in Hl. apply (node_ok_grows t); [done|].
    unfold node_at in Hid. destruct (id <? 1); [done|].
    destruct (decide (i = Z.to_nat (id - 1))) as [->|Hne].
    + rewrite list_lookup_alter_eq, Hid in Hl. by injection Hl as <-.
    + rewrite list_lookup_alter_ne in Hl by done. rewrite Forall_lookup in Hn. by eapply Hn.
  - by apply Hg.
Qed.

(** *** The operations keep it *)

Lemma children_mut_ok t id :
  tree_ok t → dir_at t id = Some true →
  ensures (children_mut t id) (λ ch, ∃ n, node_at t id = Some n ∧ i_content n = Directory ch).
Proof.
  intros Ht. unfold dir_at, children_mut, node_or_panic. destruct (node_at t id) as [n|] eqn:E; [|done].
  intros [= Hd]. simpl. pose proof (ok_kind _ _ (node_at_ok _ _ _ Ht E)) as Hk. rewrite Hd in Hk.
  destruct (i_content n) eqn:Ec; try done. simpl. eauto.
Qed.

Lemma bt_get_elem k l v : bt_get k l = Some v → (k, v) ∈ l.
Proof.
  induction l as [|[k' v'] l IH]; simpl; [done|]. case_decide; [intros [= <-]; subst; by left|].
  intros H'. right. by apply IH.
Qed.

Lemma bt_insert_Forall (Q : str * Z → Prop) k v l : Q (k, v) → Forall Q l → Forall Q (bt_insert k v l).
Proof.
  intros Hq. induction 1 as [|[k' v'] l Hh Hl IH]; simpl; [by constructor|].
  case_decide; [by constructor|]. destruct (str_lt k k'); by repeat constructor.
Qed.

Lemma insert_child_ok t parent name id :
  tree_ok t → dir_at t parent = Some true → is_Some (dir_at t id) →
  ensures (insert_child t parent name id) (λ t', tree_ok t' ∧ grows t t').
Proof.
  intros Ht Hp Hid. unfold insert_child. eapply ensures_bind; [by apply children_mut_ok|].
  intros ch (n & Hn & Hc). pose proof (node_at_ok _ _ _ Ht Hn) as [H1 H2 H3 H4]. simpl.
  apply (alter_ok _ _ _ n); [done|done|done|]. split; simpl; [|intros ? [= <-]|done|done].
  - by rewrite Hc in H1.
  - apply bt_insert_Forall; [done|by apply H2].
Qed.

Lemma is_dir_directory parent mode mtime : is_dir (directory_node parent mode mtime) = true.
Proof.
  unfold is_dir, kind_of, directory_node. cbn [i_mode]. apply Z.eqb_eq.
  rewrite Z.land_lor_distr_l, <-Z.land_assoc. change (Z.land 0xfff S_IFMT) with 0. rewrite Z.land_0_r. done.
Qed.

Lemma directory_node_ok t parent mode mtime :
  dir_at t parent = Some true → node_ok t (directory_node parent mode mtime).
Proof. intros Hp. split; [apply is_dir_directory|intros ? [= <-]; constructor|done|done]. Qed.

(** A new node under a name of a directory. *)
Lemma push_child_ok t n parent name :
  tree_ok t → dir_at t parent = Some true → (∀ t', grows t t' → node_ok t' n) →
  let '(id, t1) := push_node t n in
  ensures (insert_child t1 parent name id) (λ t', tree_ok t' ∧ grows t t' ∧ dir_at t' id = Some (is_dir n)).
Proof.
  intros Ht Hp Hn. pose proof (push_ok t n Ht) as Hpush.
  destruct Hpush as (H1 & H2 & H3); [apply Hn, push_grows|]. destruct (push_node t n) as [id t1]. simpl in *.
  eapply ensures_weaken; [apply insert_child_ok; [done|by apply H2|by eexists]|].
  intros t' [H4 H5]. split_and!; [done|by eapply grows_trans|by apply H5].
Qed.

Lemma directory_at_ok path t id mtime :
  tree_ok t → dir_at t id = Some true →
  ensures (directory_at t id path mtime) (λ r, tree_ok r.2 ∧ grows t r.2 ∧ ∀ p, r.1 = Some p → dir_at r.2 p = Some true).
Proof.
  revert t id; induction path as [|name path IH]; intros t id Ht Hd; cbn [directory_at].
  - simpl. split_and!; [done|apply grows_refl|]. by intros p [= <-].
  - eapply ensures_bind; [by apply children_mut_ok|]. intros ch (n & Hn & Hc).
    destruct (bt_get name ch) as [child|] eqn:Eg.
    + apply bt_get_elem in Eg. pose proof (ok_children _ _ (node_at_ok _ _ _ Ht Hn) _ Hc) as Hch.
      rewrite Forall_forall in Hch. specialize (Hch _ Eg) as [b Hb]. simpl in Hb. unfold dir_at in Hb.
      unfold node_or_panic. destruct (node_at t child) as [c|] eqn:Ec; [|done]. injection Hb as Hb. simpl.
      destruct (is_dir c) eqn:Edir; [apply IH; [done|]|].
      * unfold dir_at. by rewrite Ec, <-Edir.
      * simpl. split_and!; [done|apply grows_refl|done].
    + pose proof (push_child_ok t (directory_node id 0x1ed mtime) id name Ht Hd) as Hp.
      destruct (push_node t _) as [child t1]. eapply ensures_bind.
      { apply Hp. intros t' Hg. apply directory_node_ok. by apply Hg. }
      intros t2 (H1 & H2 & H3). rewrite is_dir_directory in H3. eapply ensures_weaken; [by apply IH|].
      intros [o t3] (H4 & H5 & H6). split_and!; [done|by eapply grows_trans|done].
Qed.

(** The entry that is in the way, if there is one. *)
Definition existing_ok t (existing : option (Z * Node)) : Prop :=
  ∀ id n, existing = Some (id, n) → node_at t id = Some n.

Lemma existing_entry_ok t parent name children n :
  tree_ok t → node_at t parent = Some n → i_content n = Directory children →
  ensures (match bt_get name children with
           | None => Ok None
           | Some id => n ← node_or_panic t id; Ok (Some (id, n))
           end) (existing_ok t).
Proof.
  intros Ht Hn Hc. destruct (bt_get name children) as [id|] eqn:Eg; [|done].
  apply bt_get_elem in Eg. pose proof (ok_children _ _ (node_at_ok _ _ _ Ht Hn) _ Hc) as Hch.
  rewrite Forall_forall in Hch. specialize (Hch _ Eg) as [b Hb]. unfold dir_at in Hb. simpl in Hb.
  unfold node_or_panic. destruct (node_at t id) as [c|] eqn:Ec; [|done]. simpl. by intros ? ? [= <- <-].
Qed.

Lemma set_owner_dir mode uid gid mtime n : is_dir (set_owner mode uid gid mtime n) = (kind_of mode =? S_IFDIR).
Proof. done. Qed.

Lemma add_directory_ok t e parent name existing :
  tree_ok t → dir_at t parent = Some true → kind_of (e_mode e) = S_IFDIR → existing_ok t existing →
  ensures (add_directory t e parent name existing) (λ t', tree_ok t' ∧ grows t t').
Proof.
  intros Ht Hp Hk He. unfold add_directory. cbv zeta.
  set (n0 := set_owner _ _ _ _ _).
  assert (∀ t', grows t t' → node_ok t' n0) as Hn0.
  { intros t' Hg. destruct (directory_node_ok t' parent (e_mode e) (e_mtime e)) as [H1 H2 H3 H4]; [by apply Hg|].
    by split. }
  pose proof (push_child_ok t n0 parent name Ht Hp Hn0) as Hfresh.
  destruct (push_node t n0) as [id t1].
  assert (ensures (insert_child t1 parent name id) (λ t', tree_ok t' ∧ grows t t')) as Hf
    by (eapply ensures_weaken; [exact Hfresh|]; by intros t' (? & ? & _)).
  destruct existing as [[old n]|]; [|done]. destruct (is_dir n) eqn:Ed; [|done]. simpl.
  specialize (He _ _ eq_refl). destruct (node_at_ok _ _ _ Ht He) as [H1 H2 H3 H4].
  apply (alter_ok _ _ _ n); [done|done| |].
  - by rewrite set_owner_dir, Hk, Ed.
  - split; [|done..]. rewrite set_owner_dir, Hk. simpl. by rewrite <-H1, Ed.
Qed.

Lemma path_parts_ok name parts : ensures (path_parts name parts) (λ _, True).
Proof.
  induction parts as [|part parts IH]; simpl; [done|]. destruct (_ || _); [done|]. case_bool_decide; [done|].
  by eapply ensures_bind.
Qed.

(** Archives' hard links lead to files. *)
Definition links_ok t (links : Links) : Prop := ∀ k id, links !! k = Some id → dir_at t id = Some false.

Lemma links_ok_grows t t' links : grows t t' → links_ok t links → links_ok t' links.
Proof. intros Hg Hl k id Hk. apply Hg. by eapply Hl. Qed.

Lemma content_of_ok t source e kind :
  (source < length (t_sources t))%nat → kind ≠ S_IFDIR →
  ensures (content_of t source e kind) (λ c, ∀ c', c = Some c' →
    is_directory c' = false ∧ ∀ s o, c' = FileAt s o → (s < length (t_sources t))%nat).
Proof.
  intros Hs Hk. unfold content_of. destruct (kind =? S_IFREG).
  { intros c' [= <-]. split; [done|]. by intros s o [= <- _]. }
  destruct (kind =? S_IFLNK).
  - destruct (lookup_lt_is_Some_2 _ _ Hs) as [src ->]. simpl. destruct (read_at _ _ _); [|done].
    destruct (utf8_valid a); [|done]. by intros c' [= <-].
  - destruct (_ || _); [|done]. by intros c' [= <-].
Qed.

Lemma add_file_ok t links source e kind parent name c :
  tree_ok t → links_ok t links → dir_at t parent = Some true → (source < length (t_sources t))%nat →
  kind = kind_of (e_mode e) → kind ≠ S_IFDIR → is_directory c = false →
  (∀ s o, c = FileAt s o → (s < length (t_sources t))%nat) →
  ensures (add_file t links source e kind parent name c)
    (λ r, tree_ok r.1 ∧ grows t r.1 ∧ links_ok r.1 r.2).
Proof.
  intros Ht Hl Hp Hs -> Hk Hc Hcs. unfold add_file. cbv zeta.
  set (linked := (kind_of (e_mode e) =? S_IFREG) && (1 <? e_nlink e)).
  destruct (if linked then _ else _) as [id|] eqn:El.
  - assert (dir_at t id = Some false) as Hid by (destruct linked; [by eapply Hl|done]).
    eapply (ensures_bind _ _ (λ t', tree_ok t' ∧ grows t t')).
    + destruct (0 <? e_size e); [|split; [done|apply grows_refl]]. unfold node_or_panic. unfold dir_at in Hid.
      destruct (node_at t id) as [n|] eqn:En; [|done]. injection Hid as Hid. simpl.
      destruct (node_at_ok _ _ _ Ht En) as [H1 H2 H3 H4].
      apply (alter_ok _ _ _ n); [done|done|done|]. split; simpl; [exact Hid|done| |done]. by intros s o [= <- _].
    + intros t1 [H1 H2]. eapply ensures_bind.
      { apply insert_child_ok; [done|by apply H2|]. exists false. by apply H2. }
      intros t2 [H3 H4]. simpl. split_and!; [done|by eapply grows_trans|].
      eapply links_ok_grows; [|done]. by eapply grows_trans.
  - set (n := new_node e (kind_of (e_mode e)) parent c).
    assert (is_dir n = false) as Hd by by apply Z.eqb_neq.
    assert (∀ t', grows t t' → node_ok t' n) as Hn.
    { intros t' [Hg1 Hg2]. split; simpl; [by rewrite Hd, Hc|intros ch ->; done| |by apply Hg1].
      intros s o E. specialize (Hcs s o E). lia. }
    pose proof (push_child_ok t n parent name Ht Hp Hn) as Hpush.
    destruct (push_node t n) as [id t1]. eapply ensures_bind; [exact Hpush|].
    intros t2 (H1 & H2 & H3). simpl. split_and!; [done|done|]. rewrite Hd in H3.
    destruct linked; [|by eapply links_ok_grows]. intros k i. rewrite lookup_insert.
    case_decide; [by intros [= <-]|]. intros Hk'. apply H2. by eapply Hl.
Qed.

Lemma add_one_ok t links source e :
  tree_ok t → links_ok t links → (source < length (t_sources t))%nat →
  ensures (add_one source (t, links) e) (λ r, tree_ok r.1 ∧ grows t r.1 ∧ links_ok r.1 r.2).
Proof.
  intros Ht Hl Hs. unfold add_one. eapply (ensures_bind _ _ (λ _, True)); [apply path_parts_ok|].
  intros path _. cbv zeta.
  assert (tree_ok t ∧ grows t t ∧ links_ok t links) as Hsame by (split_and!; [done|apply grows_refl|done]).
  destruct (reverse path) as [|name parents].
  - destruct (kind_of (e_mode e) =? S_IFDIR) eqn:Hk; [|done]. unfold node_or_panic.
    destruct Ht as [Ht1 Ht2]. unfold dir_at in Ht2. destruct (node_at t 1) as [n|] eqn:En; [|done].
    injection Ht2 as Hd. simpl.
    assert (is_dir (set_mode_of (Z.lor S_IFDIR (Z.land (e_mode e) 0xfff)) n) = true) as Hd'
      by exact (is_dir_directory 0 (e_mode e) 0).
    assert (tree_ok t) as Ht by (split; [done|]; unfold dir_at; by rewrite En, <-Hd).
    destruct (node_at_ok _ _ _ Ht En) as [H1 H2 H3 H4].
    destruct (alter_ok (set_mode_of (Z.lor S_IFDIR (Z.land (e_mode e) 0xfff))) 1 t n) as [H5 H6];
      [done|done|by rewrite Hd'|split; [by rewrite Hd', <-Hd|done..]|].
    split_and!; [done|done|by eapply links_ok_grows].
  - eapply ensures_bind; [apply directory_at_ok; [done|apply Ht]|]. intros [parent t1] (H1 & H2 & H3). simpl in *.
    assert (links_ok t1 links) as Hl1 by by eapply links_ok_grows.
    assert (source < length (t_sources t1))%nat as Hs1 by (destruct H2; lia).
    destruct parent as [parent|]; [|done]. specialize (H3 _ eq_refl).
    assert (∀ r, tree_ok r.1 ∧ grows t1 r.1 ∧ links_ok r.1 r.2 → tree_ok r.1 ∧ grows t r.1 ∧ links_ok r.1 r.2)
      as Hstep by (intros r (? & ? & ?); split_and!; [done|by eapply grows_trans|done]).
    eapply ensures_bind; [by apply children_mut_ok|]. intros ch (n & Hn & Hc).
    eapply ensures_bind; [by eapply existing_entry_ok|]. intros existing He.
    destruct (Z.eqb_spec (kind_of (e_mode e)) S_IFDIR) as [Hk|Hk].
    + eapply ensures_bind; [by apply add_directory_ok|]. intros t2 [H4 H5]. apply Hstep. simpl.
      split_and!; [done|done|by eapply links_ok_grows].
    + destruct (stays _ _ _); [done|]. eapply ensures_bind; [by apply content_of_ok|]. intros [c|] Hcon; [|done].
      destruct (Hcon c eq_refl) as [Hc1 Hc2]. eapply ensures_weaken; [by eapply add_file_ok|exact Hstep].
Qed.

Lemma add_loop_ok es t links source :
  tree_ok t → links_ok t links → (source < length (t_sources t))%nat →
  ensures (add_loop source (t, links) es) (λ r, tree_ok r.1).
Proof.
  revert t links; induction es as [|e es IH]; intros t links Ht Hl Hs; cbn [add_loop]; [done|].
  eapply ensures_bind; [by apply add_one_ok|]. intros [t1 l1] (H1 & [_ H2] & H3). simpl in *.
  apply IH; [done|done|lia].
Qed.

Lemma tree_add_ok t source es :
  tree_ok t → (source < length (t_sources t))%nat → ensures (tree_add t source es) tree_ok.
Proof.
  intros Ht Hs. unfold tree_add. eapply ensures_bind; [by apply add_loop_ok|]. by intros [t1 l1].
Qed.

Lemma add_source_ok t s : tree_ok t → ensures (add_source t s) tree_ok.
Proof.
  intros [H1 H2]. unfold add_source. eapply ensures_bind; [apply entries_ok|]. intros es _.
  apply tree_add_ok; [|simpl; rewrite length_app; simpl; lia].
  set (t' := mk_tree _ _). assert (grows t t') as Hg by (split; [done|]; simpl; rewrite length_app; lia).
  split; [|by apply Hg]. simpl. eapply Forall_impl; [exact H1|]. intros n. by apply node_ok_grows.
Qed.

Lemma bump_all_ok ids counts :
  Forall (λ id, 1 <= id <= Z.of_nat (length counts)) ids →
  ensures (bump_all counts ids) (λ c, length c = length counts).
Proof.
  revert counts; induction ids as [|id ids IH]; intros counts Hids; cbn [bump_all]; [done|].
  apply Forall_cons in Hids as [Hid Hids]. unfold bump. rewrite (proj2 (Z.ltb_ge id 1)) by lia.
  destruct (lookup_lt_is_Some_2 counts (Z.to_nat (id - 1)) ltac:(lia)) as [c ->]. cbn [mbind result_bind].
  eapply ensures_weaken; [apply IH|]; rewrite length_insert; [done|]. auto.
Qed.

Lemma dir_at_range t id : is_Some (dir_at t id) → 1 <= id <= Z.of_nat (length (t_nodes t)).
Proof.
  unfold dir_at, node_at. rewrite fmap_is_Some. destruct (Z.ltb_spec id 1); [by intros []|].
  intros ?%lookup_lt_is_Some. lia.
Qed.

Lemma count_links_ok t : tree_ok t → ensures (count_links t) tree_ok.
Proof.
  intros Ht. unfold count_links. cbv zeta. pose proof (ok_nodes _ Ht) as Hn. rewrite Forall_forall in Hn.
  eapply ensures_bind; [apply bump_all_ok; rewrite length_replicate|].
  { apply Forall_join, Forall_fmap, Forall_forall. intros n Hin. destruct (Hn n Hin) as [_ H2 _ _].
    unfold child_ids. simpl. unfold child_ids. destruct (i_content n) eqn:Ec; try constructor.
    apply Forall_fmap. eapply Forall_impl; [by apply H2|]. intros c Hc. by apply dir_at_range. }
  intros counts Hc. eapply ensures_bind; [apply bump_all_ok; rewrite length_replicate|].
  { apply Forall_fmap, Forall_forall. intros n [_ Hin]%list_elem_of_filter. simpl. apply dir_at_range.
    pose proof (Forall_drop _ 1 _ (ok_nodes _ Ht)) as Hd. rewrite Forall_forall in Hd.
    eexists. apply (ok_parent _ _ (Hd n Hin)). }
  intros subs Hs. rewrite length_replicate in *. simpl. set (t' := with_tree_nodes t _).
  assert (∀ i, t_nodes t' !! i = (λ n, set_nlink n (default 0 (counts !! i)) (default 0 (subs !! i))) <$> t_nodes t !! i) as Hl.
  { intros i. simpl. rewrite lookup_zip_with. destruct (t_nodes t !! i) as [n|] eqn:E; [|done]. simpl.
    apply lookup_lt_Some in E. rewrite lookup_zip_with.
    destruct (lookup_lt_is_Some_2 counts i ltac:(lia)) as [c ->].
    by destruct (lookup_lt_is_Some_2 subs i ltac:(lia)) as [c' ->]. }
  assert (∀ id, dir_at t' id = dir_at t id) as Hdir.
  { intros id. unfold dir_at, node_at. destruct (id <? 1); [done|]. rewrite Hl. by destruct (t_nodes t !! _). }
  assert (grows t t') as Hg by (split; [intros id b; by rewrite Hdir|done]).
  split; [|rewrite Hdir; apply Ht]. apply Forall_lookup. intros i n Hi. rewrite Hl in Hi.
  destruct (t_nodes t !! i) as [n0|] eqn:E; [|done]. injection Hi as <-. apply list_elem_of_lookup_2 in E.
  destruct (node_ok_grows _ _ _ Hg (Hn n0 E)) as [? ? ? ?]. by split.
Qed.

Lemma check_top_ok t children :
  Forall (λ c, is_Some (dir_at t c.2)) children → ensures (check_top t children) (λ _, True).
Proof.
  induction 1 as [|[name id] children Hc Hch IH]; cbn [check_top]; [done|].
  unfold node_or_panic. destruct Hc as [b Hb]. unfold dir_at in Hb. simpl in Hb.
  destruct (node_at t id) as [n|]; [|done]. simpl. destruct (negb _); [done|]. by case_bool_decide.
Qed.

Lemma finish_ok t : tree_ok t → ensures (finish t) tree_ok.
Proof.
  intros Ht. unfold finish, node_or_panic. pose proof (ok_root _ Ht) as Hr. unfold dir_at in Hr.
  destruct (node_at t 1) as [n|] eqn:E; [|done]. cbn [ok_or mbind result_bind].
  eapply (ensures_bind _ _ (λ _, True)); [|intros _ _; by apply count_links_ok].
  destruct (i_content n) eqn:Ec; try done. apply check_top_ok.
  by apply (ok_children _ _ (node_at_ok _ _ _ Ht E)).
Qed.

Lemma build_loop_ok layers t r :
  tree_ok t → build_loop t layers = Ok r → ensures r tree_ok.
Proof.
  revert t; induction layers as [|layer layers IH]; intros t Ht; cbn [build_loop]; [by intros [= <-]|].
  intros (s & _ & Hr)%result_bind_Ok. pose proof (add_source_ok t s Ht) as Ha.
  destruct (add_source t s) as [t'|e]; [by eapply IH|]. by injection Hr as <-.
Qed.

Lemma empty_tree_ok : tree_ok (mk_tree [] [directory_node 1 0x1ed 0]).
Proof. split; [|done]. apply Forall_singleton. by apply directory_node_ok. Qed.

Lemma build_ok (layers : list (@Layer P)) r : build layers = Ok r → ensures r tree_ok.
Proof.
  unfold build. destruct (build_loop _ layers) as [r0|e] eqn:E; [|done]. intros [= <-].
  apply build_loop_ok in E; [|apply empty_tree_ok]. eapply ensures_bind; [exact E|apply finish_ok].
Qed.

(** C35: whatever the archives hold, merging them never panics and ends: either they are refused
    with a reason, or the tree is well-formed: every name leads to a node, every node's type is its
    content's and its parent is a directory, and every file's bytes are in an archive of the tree. *)
Theorem image_build_safe (layers : list (@Layer P)) :
  match build layers with
  | Ok (Ok t) => tree_ok t
  | Ok (Err e) => refusal e
  | Err _ => True
  end.
Proof. destruct (build layers) as [r|e] eqn:E; [|done]. apply build_ok in E. by destruct r. Qed.
End wellformed.

(** ** Serving *)

(** What reading an archive file promises: some of the bytes asked for, none only at their end. *)
Class ArchiveLaws (P F : Type) {AH : ArchiveHost P F} : Prop :=
  archive_read_law (f : F) n o data :
    0 <= n → 0 <= o → archive_read_at f n o = Ok data →
    data `prefix_of` slice (Z.to_nat o) (Z.to_nat (o + n)) (archive_bytes f) ∧
    (data = [] → slice (Z.to_nat o) (Z.to_nat (o + n)) (archive_bytes f) = []).

Section serving.
Context {P F : Type} {AH : ArchiveHost P F} {AL : ArchiveLaws P F}.
Implicit Types t : @Tree F.

Definition source_bytes (s : @Source F) : list Z :=
  match s with SourceFile f => archive_bytes f | SourceBytes bytes => bytes end.

Lemma read_at_spec (s : @Source F) n o data :
  0 <= n → 0 <= o → read_at s n o = Ok data →
  data `prefix_of` slice (Z.to_nat o) (Z.to_nat (o + n)) (source_bytes s) ∧
  (data = [] → slice (Z.to_nat o) (Z.to_nat (o + n)) (source_bytes s) = []).
Proof.
  intros Hn Ho. destruct s as [f|bytes]; simpl; [by apply archive_read_law|]. intros [= <-].
  set (l := Z.of_nat (length bytes)).
  assert (slice (Z.to_nat (o `min` l)) (Z.to_nat (o `min` l + n `min` (l - o `min` l))) bytes =
          slice (Z.to_nat o) (Z.to_nat (o + n)) bytes) as ->; [|by split].
  unfold slice. destruct (Z.le_gt_cases o l).
  - rewrite Z.min_l by lia. destruct (Z.le_gt_cases n (l - o)).
    + rewrite Z.min_l by lia. done.
    + rewrite Z.min_r by lia. rewrite !take_ge; [done|..]; rewrite length_drop; lia.
  - rewrite !drop_ge by lia. by rewrite !take_nil.
Qed.

(** A prefix of a stretch and the rest of it make the stretch. *)
Lemma slice_extend {A} (l : list A) i j data rest :
  (i ≤ j)%nat → data `prefix_of` slice i j l → rest = slice (i + length data) j l →
  data ++ rest = slice i j l.
Proof.
  intros Hij [k Hk] ->. rewrite Hk. f_equal. unfold slice in *.
  assert (length data ≤ j - i)%nat as Hl.
  { apply (f_equal length) in Hk. rewrite length_app, length_take in Hk. lia. }
  apply (f_equal (drop (length data))) in Hk. rewrite drop_app_length in Hk. rewrite <-Hk.
  rewrite skipn_firstn_comm, drop_drop. f_equal. lia.
Qed.

Lemma image_read_loop_spec turns (s : @Source F) start want buffer out :
  0 <= start → want - Z.of_nat (length buffer) <= Z.of_nat turns → Z.of_nat (length buffer) <= want →
  image_read_loop turns s start want buffer = Ok out →
  out = buffer ++ slice (Z.to_nat start + length buffer) (Z.to_nat (start + want)) (source_bytes s).
Proof.
  revert buffer; induction turns as [|turns IH]; intros buffer Hs Ht Hb; cbn [image_read_loop].
  { intros [= <-]. unfold slice. replace (_ - _)%nat with 0%nat by lia. by rewrite app_nil_r. }
  cbv zeta. destruct (Z.leb_spec want (Z.of_nat (length buffer))).
  { intros [= <-]. unfold slice. replace (_ - _)%nat with 0%nat by lia. by rewrite app_nil_r. }
  destruct (read_at s _ _) as [data|e] eqn:E; [|done]. apply read_at_spec in E as [Hp He]; [|lia|lia].
  replace (start + Z.of_nat (length buffer) + (want - Z.of_nat (length buffer))) with (start + want) in * by lia.
  replace (Z.to_nat (start + Z.of_nat (length buffer))) with (Z.to_nat start + length buffer)%nat in * by lia.
  destruct data as [|b data]; [intros [= <-]; by rewrite He, app_nil_r|].
  set (d := b :: data) in *. assert (length d ≤ Z.to_nat (want - Z.of_nat (length buffer)))%nat as Hd.
  { apply prefix_length in Hp. unfold slice in Hp. rewrite length_take in Hp. lia. }
  rewrite take_ge by done. intros Hout. apply IH in Hout; [|done|rewrite length_app; simpl; lia|rewrite length_app; lia].
  rewrite Hout, <-app_assoc. f_equal. apply slice_extend; [lia|done|]. rewrite length_app. f_equal. lia.
Qed.

(** A READ of a file gives the bytes of its archive from the offset on: as many as were asked
    for, as there is room for and as the file still has, unless the host fails to read them. *)
Lemma image_read_exact t nodeid offset size room n source start (s : @Source F) :
  node_at t nodeid = Some n → i_content n = FileAt source start → t_sources t !! source = Some s →
  0 <= start → 0 <= offset → 0 <= size → 0 <= room →
  let want := Z.min (Z.min size room) (sat_sub (i_size n) offset) in
  match image_read t nodeid offset size room with
  | Ok out => out = slice (Z.to_nat (start + offset)) (Z.to_nat (start + offset + want)) (source_bytes s)
  | Err _ => ∃ f, s = SourceFile f
  end.
Proof.
  intros Hn Hc Hs Hst Ho Hsz Hr want. unfold image_read, tree_node. rewrite Hn. cbn [ok_or mbind result_bind].
  rewrite Hc, Hs. cbn [ok_or mbind result_bind]. fold want.
  assert (0 <= want) as Hw by (unfold want, sat_sub; lia).
  destruct (image_read_loop _ _ _ _ _) as [out|e] eqn:E.
  - apply image_read_loop_spec in E; [|lia|simpl; lia|simpl; lia]. simpl in E. by rewrite Nat.add_0_r in E.
  - destruct s as [f|bytes]; [by exists f|]. exfalso. revert E.
    generalize (Z.to_nat want), (@nil Z). intros turns. induction turns as [|turns IH]; intros buffer; cbn [image_read_loop]; [done|].
    cbv zeta. destruct (_ <=? _); [done|]. unfold read_at. destruct (slice _ _ bytes); [done|apply IH].
Qed.

(** *** Listings *)

Lemma pad8_app out l : Z.of_nat (length out) mod 8 = 0 → pad8 (out ++ l) = out ++ pad8 l.
Proof.
  intros Ho. unfold pad8. rewrite <-app_assoc. do 3 f_equal. rewrite length_app.
  f_equal. Z.div_mod_to_equations. lia.
Qed.

Lemma length_pad8 l : Z.of_nat (length (pad8 l)) = Z.land (Z.of_nat (length l) + 7) (Z.lnot 7).
Proof.
  change (Z.lnot 7) with (Z.lnot (Z.ones 3)). rewrite <-Z.ldiff_land, Z.ldiff_ones_r by lia.
  rewrite Z.shiftl_mul_pow2, Z.shiftr_div_pow2 by lia. change (2 ^ 3) with 8.
  unfold pad8, zeros. rewrite length_app, length_replicate. Z.div_mod_to_equations. lia.
Qed.

Lemma length_pad8_mod l : Z.of_nat (length (pad8 l)) mod 8 = 0.
Proof. unfold pad8, zeros. rewrite length_app, length_replicate. Z.div_mod_to_equations. lia. Qed.

(** What a listing has in front of an entry, and the whole record of one. *)
Definition entry_part t (plus : bool) (index id : Z) : FsResult (list Z) :=
  if plus then if index <? 2 then Ok (zeros (Z.to_nat ENTRY_OUT_SIZE)) else image_entry t id else Ok [].

Definition record t (plus : bool) (index : Z) (name : str) (id : Z) : FsResult (list Z) :=
  entry ← entry_part t plus index id;
  n ← tree_node t id;
  Ok (write_dirent entry id (index + 1) (dirent_type (i_mode n)) name).

Fixpoint records t (plus : bool) (index : Z) (l : list (str * Z)) : FsResult (list (list Z)) :=
  match l with
  | [] => Ok []
  | (name, id) :: l => r ← record t plus index name id; rs ← records t plus (index + 1) l; Ok (r :: rs)
  end.

Lemma entry_part_length t plus index id entry :
  entry_part t plus index id = Ok entry → Z.of_nat (length entry) = if plus then ENTRY_OUT_SIZE else 0.
Proof.
  unfold entry_part. destruct plus; [|by intros [= <-]]. destruct (index <? 2).
  - intros [= <-]. unfold zeros. by rewrite length_replicate.
  - unfold image_entry. intros (a & _ & [= <-])%result_bind_Ok. done.
Qed.

Lemma record_ok t plus index name id entry n :
  entry_part t plus index id = Ok entry → tree_node t id = Ok n →
  ∃ r, record t plus index name id = Ok r ∧
    Z.of_nat (length r) = dirent_room plus name ∧ Z.of_nat (length r) mod 8 = 0 ∧
    ∀ out, Z.of_nat (length out) mod 8 = 0 →
      write_dirent (out ++ entry) id (index + 1) (dirent_type (i_mode n)) name = out ++ r.
Proof.
  intros He Hn. unfold record. rewrite He, Hn. eexists. split; [reflexivity|]. unfold write_dirent. split_and!.
  - rewrite length_pad8. unfold dirent_room. rewrite !length_app. apply entry_part_length in He.
    unfold w_u64, w_u32. rewrite !length_le_bytes. f_equal. destruct plus; lia.
  - apply length_pad8_mod.
  - intros out Ho. rewrite <-app_assoc. by apply pad8_app.
Qed.

(** The page a listing writes: records from the first, as many as fit. *)
Lemma write_listing_spec l t plus limit index out :
  Forall (λ c, is_Some (node_at t c.2)) l → Z.of_nat (length out) mod 8 = 0 →
  ∃ rs k, records t plus index l = Ok rs ∧ length rs = length l ∧
    write_listing t plus limit index l out = Ok (out ++ mjoin (take k rs)) ∧
    ((length rs ≤ k)%nat ∨ limit < Z.of_nat (length (out ++ mjoin (take (S k) rs)))).
Proof.
  intros Hl. revert index out; induction Hl as [|[name id] l Hid Hl IH]; intros index out Ho.
  { exists [], 0%nat. simpl. rewrite app_nil_r. split_and!; [done|done|done|]. left. lia. }
  destruct Hid as [n Hn]. assert (tree_node t id = Ok n) as Hn' by (unfold tree_node; simpl in Hn; by rewrite Hn).
  assert (∃ entry, entry_part t plus index id = Ok entry) as [entry He].
  { unfold entry_part. destruct plus; [|by eexists]. destruct (index <? 2); [by eexists|].
    unfold image_entry, tree_attributes. rewrite Hn'. by eexists. }
  destruct (record_ok t plus index name id entry n He Hn') as (r & Hr & Hlen & Hmod & Hw).
  destruct (IH (index + 1) (out ++ r)) as (rs & k & Hrs & Hc & Hp & Hend).
  { rewrite length_app. Z.div_mod_to_equations. lia. }
  exists (r :: rs). cbn [records write_listing]. rewrite Hr, Hrs. cbn [mbind result_bind].
  destruct (Z.ltb_spec limit (Z.of_nat (length out) + dirent_room plus name)).
  - exists 0%nat. rewrite take_0. split_and!; [done|simpl; lia|simpl; by rewrite app_nil_r|]. right.
    change (take 1 (r :: rs)) with [r]. change (mjoin [r]) with (r ++ []).
    rewrite app_nil_r, length_app. lia.
  - exists (S k). fold (entry_part t plus index id). rewrite He. cbn [mbind result_bind]. rewrite Hn'. cbn [mbind result_bind].
    rewrite Hw by done. rewrite Hp. rewrite !firstn_cons.
    change (mjoin (r :: take k rs)) with (r ++ mjoin (take k rs)).
    change (mjoin (r :: take (S k) rs)) with (r ++ mjoin (take (S k) rs)). rewrite !app_assoc. simpl.
    split_and!; [done|lia|done|]. destruct Hend; [left; lia|by right].
Qed.

Lemma listing_valid t nodeid l :
  tree_ok t → listing t nodeid = Ok l → Forall (λ c, is_Some (node_at t c.2)) l.
Proof.
  intros Ht. unfold listing, tree_children, tree_node. destruct (node_at t nodeid) as [n|] eqn:E; [|done].
  cbn [ok_or mbind result_bind]. destruct (i_content n) as [ch|?|?|] eqn:Ec; try done. intros [= <-].
  pose proof (node_at_ok _ _ _ Ht E) as [_ H2 _ H4].
  assert (∀ id, is_Some (dir_at t id) → is_Some (node_at t id)) as Hd by (intros id; unfold dir_at; by rewrite fmap_is_Some).
  repeat (apply Forall_cons; split); simpl; [by rewrite E|by apply Hd; eexists|].
  eapply Forall_impl; [by apply H2|]. intros c. apply Hd.
Qed.

(** READDIR and READDIRPLUS page through a directory: a page is the records of its entries from
    the offset on, each with the offset of the next, and stops only at the end or where the next
    record does not fit, so that following the offsets gives every entry once. *)
Lemma image_readdir_pages t plus nodeid offset size room l :
  tree_ok t → listing t nodeid = Ok l → 0 <= offset <= Z.of_nat (length l) →
  ∃ rs k, records t plus offset (drop (Z.to_nat offset) l) = Ok rs ∧
    length rs = (length l - Z.to_nat offset)%nat ∧
    image_readdir t plus nodeid offset size room = Ok (mjoin (take k rs)) ∧
    ((length rs ≤ k)%nat ∨ Z.min size room < Z.of_nat (length (mjoin (take (S k) rs)))).
Proof.
  intros Ht Hl Ho. unfold image_readdir. rewrite Hl. cbn [mbind result_bind].
  rewrite (Z.min_l offset) by lia. pose proof (listing_valid _ _ _ Ht Hl) as Hv.
  destruct (write_listing_spec (drop (Z.to_nat offset) l) t plus (Z.min size room) offset []) as (rs & k & H1 & H2 & H3 & H4);
    [by apply Forall_drop|done|]. rewrite length_drop in H2. exists rs, k. by split_and!.
Qed.
End serving.

(** ** The server keeps to its capacity, the device to the transport's laws *)

Section laws.
Context {P F : Type} {AH : ArchiveHost P F}.

#[export] Instance image_server_laws : ServerLaws (@Tree F).
Proof.
  intros t opcode nodeid b capacity payload t' Hp Hc. unfold process, image_server in Hp. injection Hp as Hp _.
  unfold image_process in Hp. destruct (one_of _ _); [done|]. rewrite reading_bind_eq in Hp.
  destruct (image_reply _ _ _ _ _) as [[out|e] b']; [|done].
  destruct (Z.ltb_spec (sat_sub capacity OUT_HEADER_SIZE) (Z.of_nat (length out))); [done|].
  injection Hp as <-. unfold sat_sub in *. lia.
Qed.

#[export] Instance Image_laws : DeviceLaws (@Tree F).
Proof.
  split; [|done|done]. intros t i q m Hq. simpl. unfold serve. apply drain_keeps; [|done].
  apply serve_chain_length.
Qed.
End laws.

(** ** An archive to serve *)

(** A host without archive files: every archive is one the engine made. *)
#[local] Instance no_files : ArchiveHost Empty_set Empty_set := {|
  open_archive := λ p : Empty_set, match p with end;
  archive_bytes := λ f : Empty_set, match f with end;
  archive_read_at := λ (f : Empty_set) _ _, match f with end;
|}.
#[local] Instance no_files_laws : ArchiveLaws Empty_set Empty_set.
Proof. intros []. Qed.

Definition example_archive : list Z :=
  cpio_overlay [(lit "etc", None); (lit "etc/a", Some [1; 2; 3; 4; 5]); (lit "etc/b", Some [])].
Definition example_tree : @Tree Empty_set :=
  match build [LayerBytes example_archive] with
  | Ok (Ok t) => t
  | _ => mk_tree [] []
  end.

Lemma example_tree_ok : tree_ok example_tree.
Proof.
  unfold example_tree. destruct (build _) as [[t|e]|e] eqn:E.
  - by apply build_ok in E.
  - exfalso. by vm_compute in E.
  - exfalso. by vm_compute in E.
Qed.

(** "etc" is node 2, "etc/a" node 3: its bytes from the second on. *)
Lemma image_read_exact_witness :
  image_read example_tree 3 1 100 3 = Ok [2; 3; 4] ∧ slice 233 236 example_archive = [2; 3; 4].
Proof.
  pose proof (image_read_exact example_tree 3 1 100 3
    (default (directory_node 0 0 0) (node_at example_tree 3)) 0 232 (SourceBytes example_archive)) as H.
  destruct (image_read example_tree 3 1 100 3) as [out|e] eqn:E.
  - assert (out = slice 233 236 example_archive) as ->
      by (apply H; first [lia|by vm_compute]). split; [f_equal|]; by vm_compute.
  - exfalso. by vm_compute in E.
Defined.

(** A page with room for two records: ".", ".."; the next starts at 2. *)
Lemma image_readdir_pages_witness :
  ∃ rs k, records example_tree false 0 [(lit ".", 2); (lit "..", 1); (lit "a", 3); (lit "b", 4)] = Ok rs ∧
    length rs = 4%nat ∧ image_readdir example_tree false 2 0 64 4096 = Ok (mjoin (take k rs)) ∧
    ((length rs ≤ k)%nat ∨ 64 < Z.of_nat (length (mjoin (take (S k) rs)))).
Proof.
  apply (image_readdir_pages example_tree false 2 0 64 4096
    [(lit ".", 2); (lit "..", 1); (lit "a", 3); (lit "b", 4)]).
  - apply example_tree_ok.
  - by vm_compute.
  - simpl. lia.
Defined.

(** A directory that an archive replaced with a file still counts as a subdirectory of its parent. *)
Definition replaced_directory : list (@Layer Empty_set) :=
  [LayerBytes (cpio_overlay [(lit "etc", None); (lit "etc/a", None)]);
   LayerBytes (cpio_overlay [(lit "etc/a", Some [1])])].

Example replaced_directory_counted :
  match build replaced_directory with
  | Ok (Ok t) => i_nlink <$> node_at t 2 = Some 3 ∧ tree_children t 2 = Ok [(lit "a", 4)] ∧
                 is_dir <$> node_at t 4 = Some false
  | _ => False
  end.
Proof. by vm_compute. Qed.
