(* ===== verification/Json.v ===== *)
(** * JSON values

    [serde_json::Value] and the accessors the engine uses (serial.rs, hostfn.rs, protocol.rs).  An
    object is the list of its fields, each name once.  Reading and printing JSON text is serde_json's
    and not modelled. *)
From stdpp Require Import strings.
From S2P Require Import Prelude Str.

Local Open Scope Z_scope.

Inductive Value : Type :=
  | Null
  | Bool (b : bool)
  | Number (n : Z)
  | Float
  | String (s : str)
  | Array (l : list Value)
  | Object (fields : list (str * Value)).

Fixpoint assoc (k : str) (l : list (str * Value)) : option Value :=
  match l with
  | [] => None
  | (k', v) :: l => if decide (k = k') then Some v else assoc k l
  end.

(** [Map::insert]: a field that is there keeps its place. *)
Fixpoint assoc_insert (k : str) (v : Value) (l : list (str * Value)) : list (str * Value) :=
  match l with
  | [] => [(k, v)]
  | (k', v') :: l => if decide (k = k') then (k, v) :: l else (k', v') :: assoc_insert k v l
  end.

(** [Map::remove]'s map. *)
Definition assoc_remove (k : str) (l : list (str * Value)) : list (str * Value) := filter (λ f, f.1 ≠ k) l.

Definition get (k : str) (v : Value) : option Value :=
  match v with Object fields => assoc k fields | _ => None end.
Definition as_str (v : Value) : option str := match v with String s => Some s | _ => None end.
Definition as_bool (v : Value) : option bool := match v with Bool b => Some b | _ => None end.
Definition as_array (v : Value) : option (list Value) := match v with Array l => Some l | _ => None end.
Definition as_object (v : Value) : option (list (str * Value)) := match v with Object f => Some f | _ => None end.
Definition as_u64 (v : Value) : option Z :=
  match v with
  | Number n => if (0 <=? n) && (n <? 18446744073709551616) then Some n else None
  | _ => None
  end.

(** Reading and printing JSON text. *)
Class SerdeJson : Type := {
  from_slice : list Z → result str Value;
  to_vec : Value → list Z;
}.

(** Printing with indentation. *)
Class SerdePretty : Type := to_vec_pretty : Value → list Z.

(** [json!(option)]. *)
Definition option_value {A} (f : A → Value) (o : option A) : Value :=
  match o with Some a => f a | None => Null end.

Lemma assoc_insert_eq k v l : assoc k (assoc_insert k v l) = Some v.
Proof.
  induction l as [|[k' v'] l IH]; simpl; [by rewrite decide_True|].
  destruct (decide (k = k')); simpl; [by rewrite decide_True|by rewrite decide_False].
Qed.

Lemma assoc_insert_ne k k' v l : k ≠ k' → assoc k (assoc_insert k' v l) = assoc k l.
Proof.
  intros Hne. induction l as [|[k0 v0] l IH]; simpl; [by rewrite decide_False|].
  destruct (decide (k' = k0)); simpl; [subst; by rewrite !decide_False|]. by destruct (decide (k = k0)).
Qed.

Lemma assoc_remove_eq k l : assoc k (assoc_remove k l) = None.
Proof.
  unfold assoc_remove. induction l as [|[k' v] l IH]; [done|]. rewrite filter_cons. cbn [fst].
  destruct (decide (k' ≠ k)) as [Hne|He]; [|done]. cbn [assoc]. by rewrite decide_False.
Qed.

Lemma assoc_remove_ne k k' l : k ≠ k' → assoc k (assoc_remove k' l) = assoc k l.
Proof.
  intros Hne. unfold assoc_remove. induction l as [|[k0 v] l IH]; [done|]. rewrite filter_cons. cbn [fst assoc].
  destruct (decide (k0 ≠ k')) as [H0|H0]; cbn [assoc]; [by rewrite IH|].
  destruct (decide (k = k0)) as [->|]; [|done]. exfalso. apply H0. intros ->. done.
Qed.

Lemma assoc_elem k v l : assoc k l = Some v → (k, v) ∈ l.
Proof.
  induction l as [|[k' v'] l IH]; cbn [assoc]; [done|].
  destruct (decide (k = k')) as [->|]; [intros [= ->]; left|right; by apply IH].
Qed.
