(* ===== verification/SshAgent.v ===== *)
(** * The host's ssh-agent, lent to the guest (engine/src/sshagent.rs)

    The guest's agent messages are framed, looked at, and passed on to the host's agent only when they
    list keys or sign with one, and, where the app wants to be asked, only with its permission.  Every
    connection of the guest is a thread of its own; they share the policy, which the app may change at
    any time, and the answers the app wants remembered, so the model goes in turns, one for each time a
    thread looks at what is shared or waits for somebody, in any order.  The host's agent, the app and
    SHA-256 are parameters: what they answer in a turn is the turn's [Env]. *)
From stdpp Require Import strings.
From S2P Require Import Prelude Str.

Local Open Scope Z_scope.

Definition PORT : Z := 1082.
Definition FAILURE : Z := 5.
Definition REQUEST_IDENTITIES : Z := 11.
Definition IDENTITIES_ANSWER : Z := 12.
Definition SIGN_REQUEST : Z := 13.
Definition MAX_MESSAGE : Z := 256 * 1024.

Inductive Mode : Type :=
  | Off
  | Ask
  | Allow.
#[export] Instance mode_eq_dec : EqDecision Mode.
Proof. solve_decision. Defined.

Definition mode_parse (text : str) : option Mode :=
  if decide (text = lit "off") then Some Off
  else if decide (text = lit "ask") then Some Ask
  else if decide (text = lit "allow") then Some Allow
  else None.

(** The app's settings; [socket] is the path of another agent than the default one. *)
Record AgentPolicy := mk_agent_policy {
  mode : Mode;
  socket : option str;
}.

(** What the app hears about. *)
Record AgentEvent := mk_event {
  ev_op : str;
  ev_key : option str;
  ev_allowed : bool;
  ev_reason : option str;
}.

(** ** Framing *)

(** Why reading a message failed. *)
Inductive frame_error : Type :=
  | BadLength (n : Z)
  | CutShort.

(** [read_message] on the bytes that are still to come: a message, or none at the end, and the rest. *)
Definition read_message (stream : list Z) : result frame_error (option (list Z * list Z)) :=
  if bool_decide (length stream < 4)%nat then Ok None
  else
    let n := be_val (take 4 stream) in
    if (n =? 0) || (MAX_MESSAGE <? n) then Err (BadLength n)
    else
      let rest := drop 4 stream in
      if bool_decide (length rest < Z.to_nat n)%nat then Err CutShort
      else Ok (Some (take (Z.to_nat n) rest, drop (Z.to_nat n) rest)).

Definition write_message (message : list Z) : list Z :=
  be_bytes 4 (u32 (Z.of_nat (length message))) ++ message.

(** An SSH [string]: it and what follows. *)
Definition read_string (data : list Z) : option (list Z * list Z) :=
  if bool_decide (length data < 4)%nat then None
  else
    let n := be_val (take 4 data) in
    let rest := drop 4 data in
    if n <=? Z.of_nat (length rest) then Some (take (Z.to_nat n) rest, drop (Z.to_nat n) rest) else None.

(** ** Keys *)

(** [count] pairs of a key and its comment. *)
Fixpoint read_keys (count : nat) (rest : list Z) (keys : gmap (list Z) str) : option (gmap (list Z) str) :=
  match count with
  | O => Some keys
  | S count =>
      match read_string rest with
      | None => None
      | Some (blob, after) =>
          match read_string after with
          | None => None
          | Some (comment, after) => read_keys count after (<[blob := from_utf8_lossy comment]> keys)
          end
      end
  end.

Definition parse_identities (response : list Z) : option (gmap (list Z) str) :=
  if negb (bool_decide (head response = Some IDENTITIES_ANSWER)) then None
  else if bool_decide (length response < 5)%nat then None
  else read_keys (Z.to_nat (Z.min (be_val (slice 1 5 response)) 1024)) (drop 5 response) ∅.

Definition ALPHABET : str := lit "ABCDEFGHIJKLMNOPQRSTUVWXYZabcdefghijklmnopqrstuvwxyz0123456789+/".
Definition sextet (n : Z) : Z := byte_at ALPHABET (Z.to_nat (Z.land n 63)).

(** Three bytes as four characters; the last chunk's bytes as one character more. *)
Fixpoint base64_nopad (bytes : list Z) : str :=
  match bytes with
  | a :: b :: c :: rest =>
      let n := Z.lor (Z.shiftl a 16) (Z.lor (Z.shiftl b 8) c) in
      sextet (Z.shiftr n 18) :: sextet (Z.shiftr n 12) :: sextet (Z.shiftr n 6) :: sextet n ::
      base64_nopad rest
  | [a; b] =>
      let n := Z.lor (Z.shiftl a 16) (Z.shiftl b 8) in
      [sextet (Z.shiftr n 18); sextet (Z.shiftr n 12); sextet (Z.shiftr n 6)]
  | [a] => let n := Z.shiftl a 16 in [sextet (Z.shiftr n 18); sextet (Z.shiftr n 12)]
  | [] => []
  end.

Class Sha256 : Type := sha256 : list Z → list Z.

Section agent.
Context {SHA : Sha256}.

Definition fingerprint (blob : list Z) : str := lit "SHA256:" ++ base64_nopad (sha256 blob).

Definition describe_key (blob : list Z) (comment : option str) : str :=
  let kind := match read_string blob with Some (kind, _) => from_utf8_lossy kind | None => lit "key" end in
  match comment with
  | Some (b :: comment) => kind ++ lit " " ++ fingerprint blob ++ lit " (" ++ (b :: comment) ++ lit ")"
  | _ => kind ++ lit " " ++ fingerprint blob
  end.

(** ** A session *)

(** What the outside does in one turn: what the app answers to a question, whether the host's agent can
    be opened (an error if not), what comes back from it for a message ([Ok None]: it closed), and
    whether the guest's end of the connection still takes a reply. *)
Record Env := mk_env {
  env_ask : str → option (bool * bool);
  env_open : option str → option str;
  env_exchange : list Z → result str (option (list Z));
  env_writes : bool;
}.

(** Where a session is: before its next message; with a request that needs the app's permission, before
    it looks for a remembered answer, while the app is asked, and before the app's answer is remembered;
    with a request that goes to the host's agent, for a listing or for a key's signature; ended.  The
    policy is the one read with the request. *)
Inductive Phase : Type :=
  | Reading
  | Permitting (policy : AgentPolicy) (request blob : list Z) (key : str)
  | Asking (policy : AgentPolicy) (request blob : list Z) (key : str)
  | Remembering (policy : AgentPolicy) (request blob : list Z) (key : str) (allow : bool)
  | Forwarding (policy : AgentPolicy) (request : list Z) (key : option str)
  | Ended.

(** [se_stream]: the guest's bytes that are not read yet; [agent_open]: the host's agent is open. *)
Record Session := mk_session {
  se_stream : list Z;
  se_phase : Phase;
  agent_open : bool;
  comments : gmap (list Z) str;
}.

Definition session_new (stream : list Z) : Session := mk_session stream Reading false ∅.

Definition at_phase (ph : Phase) (s : Session) : Session :=
  mk_session (se_stream s) ph (agent_open s) (comments s).
Definition set_open (b : bool) (s : Session) : Session :=
  mk_session (se_stream s) (se_phase s) b (comments s).
Definition set_comments (c : gmap (list Z) str) (s : Session) : Session :=
  mk_session (se_stream s) (se_phase s) (agent_open s) c.
Definition set_stream (stream : list Z) (s : Session) : Session :=
  mk_session stream (se_phase s) (agent_open s) (comments s).

(** What happens, as the app, the host's agent and the guest see it, and what becomes of the answers. *)
Inductive Happening : Type :=
  | Opened (c : nat) (stream : list Z)
  | PolicySet (policy : AgentPolicy)
  | Forgot
  | Took (c : nat) (request : list Z)
  | Asked (c : nat) (question : str) (answer : option (bool * bool))
  | Remembered (c : nat) (fp : str) (allow : bool)
  | Given (c : nat) (request : list Z) (response : result str (option (list Z)))
  | Heard (event : AgentEvent)
  | Replied (c : nat) (bytes : list Z).

(** A turn of connection [c]: its session after it, and what happened. *)
Definition turned : Type := Session * list Happening.

(** The response goes back to the guest, and the next message is read. *)
Definition reply (c : nat) (env : Env) (response : list Z) (s : Session) : turned :=
  if env_writes env then (at_phase Reading s, [Replied c (write_message response)]) else (at_phase Ended s, []).
Definition hear (e : AgentEvent) (t : turned) : turned := (t.1, Heard e :: t.2).
Definition refuse_agent (c : nat) (env : Env) (op : str) (key : option str) (reason : str) (s : Session) : turned :=
  hear (mk_event op key false (Some reason)) (reply c env [FAILURE] s).

(** [answer], to where it first looks at the answers or turns to the host's agent. *)
Definition answer_agent (c : nat) (env : Env) (policy : AgentPolicy) (request : list Z) (s : Session) : turned :=
  if decide (mode policy = Off) then
    refuse_agent c env (lit "list") None (lit "the app does not lend its ssh-agent (sshAgent: off)") s
  else match request with
  | [] => reply c env [FAILURE] s
  | kind :: _ =>
      if kind =? REQUEST_IDENTITIES then (at_phase (Forwarding policy request None) s, [])
      else if kind =? SIGN_REQUEST then
        match read_string (drop 1 request) with
        | None => refuse_agent c env (lit "sign") None (lit "a malformed signature request") s
        | Some (blob, _) =>
            let key := describe_key blob (comments s !! blob) in
            if decide (mode policy = Ask) then (at_phase (Permitting policy request blob key) s, [])
            else (at_phase (Forwarding policy request (Some key)) s, [])
        end
      else refuse_agent c env (lit "other") None
             (lit "agent request " ++ decimal kind ++ lit " is not lent to the sandbox") s
  end.

(** After [permitted]: on to the host's agent, or refused. *)
Definition decided (c : nat) (env : Env) (policy : AgentPolicy) (request : list Z) (key : str) (allow : bool)
    (s : Session) : turned :=
  if allow then (at_phase (Forwarding policy request (Some key)) s, [])
  else refuse_agent c env (lit "sign") (Some key) (lit "the app did not allow this signature") s.

(** [permitted]: first the remembered answer, if there is one. *)
Definition permitted (c : nat) (env : Env) (answers : gmap str bool) (policy : AgentPolicy)
    (request blob : list Z) (key : str) (s : Session) : turned :=
  match answers !! fingerprint blob with
  | Some known => decided c env policy request key known s
  | None => (at_phase (Asking policy request blob key) s, [])
  end.
Definition question (key : str) : str := lit "sign with " ++ key.
(** Then the app's, with the lock of the answers not held. *)
Definition permitted_asks (c : nat) (env : Env) (policy : AgentPolicy) (request blob : list Z) (key : str)
    (s : Session) : turned :=
  let answer := env_ask env (question key) in
  let '(allow, remember) := default (false, false) answer in
  let '(s, hs) := if remember : bool then (at_phase (Remembering policy request blob key allow) s, [])
                  else decided c env policy request key allow s in
  (s, Asked c (question key) answer :: hs).

(** [forward]: one request to the host's agent, one response back; an error closes it. *)
Definition forward (c : nat) (env : Env) (policy : AgentPolicy) (request : list Z) (s : Session)
    : result str (list Z) * turned :=
  match (if agent_open s then None else env_open env (socket policy)) with
  | Some error => (Err error, (s, []))
  | None =>
      let given := [Given c request (env_exchange env request)] in
      match env_exchange env request with
      | Ok (Some response) => (Ok response, (set_open true s, given))
      | Ok None => (Err (lit "the ssh-agent closed the connection"), (set_open false s, given))
      | Err error => (Err error, (set_open false s, given))
      end
  end.

(** What [answer] makes of the response. *)
Definition answer_forwarded (c : nat) (env : Env) (policy : AgentPolicy) (request : list Z) (key : option str)
    (s : Session) : turned :=
  let op := match key with None => lit "list" | Some _ => lit "sign" end in
  let '(r, (s, given)) := forward c env policy request s in
  let '(s, hs) :=
    match r with
    | Ok response =>
        let s := match key with
                 | None => set_comments (default ∅ (parse_identities response)) s
                 | Some _ => s
                 end in
        hear (mk_event op key true None) (reply c env response s)
    | Err error => refuse_agent c env op key error s
    end in
  (s, given ++ hs).

(** [run]'s loop, a turn of it. *)
Definition turn (c : nat) (env : Env) (policy : AgentPolicy) (answers : gmap str bool) (s : Session) : turned :=
  match se_phase s with
  | Reading =>
      match read_message (se_stream s) with
      | Ok (Some (request, stream)) =>
          let '(s, hs) := answer_agent c env policy request (set_stream stream s) in
          (s, Took c request :: hs)
      | _ => (at_phase Ended s, [])
      end
  | Permitting p request blob key => permitted c env answers p request blob key s
  | Asking p request blob key => permitted_asks c env p request blob key s
  | Remembering p request blob key allow =>
      let '(s, hs) := decided c env p request key allow s in
      (s, Remembered c (fingerprint blob) allow :: hs)
  | Forwarding p request key => answer_forwarded c env p request key s
  | Ended => (s, [])
  end.

(** ** The bridge *)

(** [serve]: the policy, the answers and the guest's connections; [happened] is all that did. *)
Record Bridge := mk_bridge {
  br_policy : AgentPolicy;
  answers : gmap str bool;
  sessions : gmap nat Session;
  happened : list Happening;
}.
Definition bridge_new (policy : AgentPolicy) : Bridge := mk_bridge policy ∅ ∅ [].

(** The guest connects, with all the bytes it will send; the app sets the policy, and then forgets the
    answers (protocol.rs [update_policy]); a connection's thread takes a turn. *)
Inductive Action : Type :=
  | Connect (c : nat) (stream : list Z)
  | SetPolicy (policy : AgentPolicy)
  | ClearAnswers
  | Turn (c : nat) (env : Env).

(** What a turn leaves in the answers. *)
Definition remember (h : Happening) (answers : gmap str bool) : gmap str bool :=
  match h with Remembered _ fp allow => <[fp := allow]> answers | _ => answers end.

Definition act (a : Action) (b : Bridge) : Bridge :=
  match a with
  | Connect c stream =>
      match sessions b !! c with
      | Some _ => b
      | None => mk_bridge (br_policy b) (answers b) (<[c := session_new stream]> (sessions b)) (happened b ++ [Opened c stream])
      end
  | SetPolicy p => mk_bridge p (answers b) (sessions b) (happened b ++ [PolicySet p])
  | ClearAnswers => mk_bridge (br_policy b) ∅ (sessions b) (happened b ++ [Forgot])
  | Turn c env =>
      match sessions b !! c with
      | None => b
      | Some s =>
          let '(s, hs) := turn c env (br_policy b) (answers b) s in
          mk_bridge (br_policy b) (foldl (λ a h, remember h a) (answers b) hs) (<[c := s]> (sessions b)) (happened b ++ hs)
      end
  end.

Definition acts (actions : list Action) (b : Bridge) : Bridge := foldl (λ b a, act a b) b actions.
End agent.

(** ** Framing round trip *)

Lemma read_write_message m rest :
  0 < Z.of_nat (length m) <= MAX_MESSAGE → read_message (write_message m ++ rest) = Ok (Some (m, rest)).
Proof.
  intros Hm. unfold MAX_MESSAGE in Hm. unfold read_message, write_message. rewrite <-app_assoc.
  rewrite bool_decide_false by (rewrite length_app, length_be_bytes; lia).
  rewrite take_app_length', drop_app_length' by (by rewrite length_be_bytes). rewrite be_val_small by (rewrite u32_small; lia).
  rewrite u32_small by lia. rewrite (proj2 (Z.eqb_neq _ _)) by lia.
  rewrite (proj2 (Z.ltb_ge _ _)) by (unfold MAX_MESSAGE; lia). simpl orb. cbn iota. rewrite Nat2Z.id.
  rewrite bool_decide_false by (rewrite length_app; lia). by rewrite take_app_length, drop_app_length.
Qed.

Lemma read_message_shorter stream m rest :
  read_message stream = Ok (Some (m, rest)) → (length rest + 4 ≤ length stream)%nat.
Proof.
  unfold read_message. case_bool_decide as H4; [done|]. destruct (_ || _); [done|].
  case_bool_decide as Hn; [done|]. intros [= <- <-]. rewrite !length_drop in *. lia.
Qed.

(** ** What the guest asked and what was in force, by what happened *)

(** Messages at the front of a stream, each behind its length in four bytes, the high one first. *)
Inductive Messages (stream : list Z) : list (list Z) → list Z → Prop :=
  | no_messages : Messages stream [] stream
  | next_message ms header m rest :
      Messages stream ms (header ++ m ++ rest) →
      length header = 4%nat → be_val header = Z.of_nat (length m) → 0 < Z.of_nat (length m) <= MAX_MESSAGE →
      Messages stream (ms ++ [m]) rest.

(** A connection's streams, the requests its thread took, and all it did with them: took one, gave it to
    the host's agent, replied. *)
Definition opened (c : nat) (hs : list Happening) : list (list Z) :=
  omap (λ h, match h with Opened c' s => if decide (c' = c) then Some s else None | _ => None end) hs.
Definition taken (c : nat) (hs : list Happening) : list (list Z) :=
  omap (λ h, match h with Took c' m => if decide (c' = c) then Some m else None | _ => None end) hs.
Definition doing (c : nat) (h : Happening) : Prop :=
  match h with Took c' _ | Given c' _ _ | Replied c' _ => c' = c | _ => False end.
#[export] Instance doing_dec c h : Decision (doing c h).
Proof. destruct h; simpl; apply _. Defined.
Definition doings (c : nat) (hs : list Happening) : list Happening := filter (doing c) hs.

(** The policy after what happened. *)
Definition policy_in (hs : list Happening) (policy : AgentPolicy) : AgentPolicy :=
  foldl (λ p h, match h with PolicySet p' => p' | _ => p end) policy hs.

Section bridge.
Context {SHA : Sha256}.

(** The app wanted a yes to be remembered, to a question about a key with this fingerprint, and nothing
    was forgotten since it is. *)
Definition remembered (hs : list Happening) (fp : str) : Prop :=
  ∃ before c blob comment between after,
    hs = before ++ Asked c (question (describe_key blob comment)) (Some (true, true)) :: between ++
           Remembered c fp true :: after ∧
    fp = fingerprint blob ∧ doings c between = [] ∧ (Forgot ∉ after).

(** Why [request] may go to the host's agent: [before] is what happened before the thread took it,
    [since] what happened since, and [p] the policy at that time. *)
Definition lent (p : AgentPolicy) (c : nat) (before since : list Happening) (request : list Z) : Prop :=
  mode p ≠ Off ∧
  (head request = Some REQUEST_IDENTITIES ∨
   head request = Some SIGN_REQUEST ∧ ∃ blob rest, read_string (drop 1 request) = Some (blob, rest) ∧
     (mode p = Allow ∨
      (∃ comment r, Asked c (question (describe_key blob comment)) (Some (true, r)) ∈ since) ∨
      (∃ seen unseen, since = seen ++ unseen ∧ remembered (before ++ Took c request :: seen) (fingerprint blob)))).

(** What the guest is told about a request it sent: a failure, or what the host's agent answered. *)
Definition due (c : nat) (before : list Happening) (response : list Z) : Prop :=
  ∃ earlier m since, before = earlier ++ Took c m :: since ∧
    (doings c since = [] ∧ response = [FAILURE] ∨
     ∃ r, doings c since = [Given c m r] ∧ response = match r with Ok (Some x) => x | _ => [FAILURE] end).

(** ** Lemmas *)

Section run.
Context (first : AgentPolicy).

(** What every happening needs of those before it. *)
Definition good (before : list Happening) (h : Happening) : Prop :=
  match h with
  | Given c m _ => ∃ earlier since, before = earlier ++ Took c m :: since ∧ doings c since = [] ∧
                     lent (policy_in earlier first) c earlier since m
  | Replied c bytes => ∃ response, bytes = write_message response ∧ due c before response
  | Remembered _ fp true => remembered (before ++ [h]) fp
  | _ => True
  end.
Definition each_good (hs : list Happening) : Prop := ∀ before h after, hs = before ++ h :: after → good before h.

(** A session between two turns. *)
Definition taking (hs : list Happening) (c : nat) (p : AgentPolicy) (m : list Z) (before since : list Happening) : Prop :=
  hs = before ++ Took c m :: since ∧ p = policy_in before first ∧ doings c since = [].
Definition to_sign (p : AgentPolicy) (m blob : list Z) (key : str) : Prop :=
  mode p = Ask ∧ head m = Some SIGN_REQUEST ∧ (∃ rest, read_string (drop 1 m) = Some (blob, rest)) ∧
  ∃ comment, key = describe_key blob comment.
Definition phase_ok (hs : list Happening) (c : nat) (ph : Phase) : Prop :=
  match ph with
  | Reading | Ended => True
  | Permitting p m blob key | Asking p m blob key =>
      ∃ before since, taking hs c p m before since ∧ to_sign p m blob key
  | Remembering p m blob key allow =>
      ∃ before since, taking hs c p m before since ∧ to_sign p m blob key ∧
        Asked c (question key) (Some (allow, true)) ∈ since
  | Forwarding p m _ => ∃ before since, taking hs c p m before since ∧ lent p c before since m
  end.
Definition stream_ok (hs : list Happening) (c : nat) (stream : list Z) : Prop :=
  ∃ sent, opened c hs = [sent] ∧ Messages sent (taken c hs) stream ∧ wf_bytes stream.

(** Happenings of a turn of [c] that do not begin a request. *)
Definition minor (c : nat) (h : Happening) : Prop :=
  match h with
  | Asked c' _ _ | Remembered c' _ _ | Given c' _ _ | Replied c' _ => c' = c
  | Heard _ => True
  | Opened _ _ | PolicySet _ | Forgot | Took _ _ => False
  end.

Definition post (hs : list Happening) (c : nat) (stream : list Z) (t : turned) : Prop :=
  each_good (hs ++ t.2) ∧ phase_ok (hs ++ t.2) c (se_phase t.1) ∧ se_stream t.1 = stream ∧ Forall (minor c) t.2.

Lemma each_good_snoc hs h : each_good hs → good hs h → each_good (hs ++ [h]).
Proof.
  intros Hs Hh before h' after E. destruct after as [|a after _] using rev_ind.
  - apply app_inj_tail in E as [-> ->]. done.
  - rewrite app_comm_cons, app_assoc in E. apply app_inj_tail in E as [-> _]. by eapply Hs.
Qed.

Lemma doings_app c hs hs' : doings c (hs ++ hs') = doings c hs ++ doings c hs'.
Proof. apply filter_app. Qed.

Lemma remembered_app hs hs' fp : remembered hs fp → Forgot ∉ hs' → remembered (hs ++ hs') fp.
Proof.
  intros (b & c & blob & comment & m & a & -> & Hf & Hm & Ha) Hn.
  exists b, c, blob, comment, m, (a ++ hs'). split_and!; [|done|done|set_solver].
  by rewrite <-!app_assoc; simpl; rewrite <-app_assoc.
Qed.

Lemma lent_app p c before since more m : lent p c before since m → lent p c before (since ++ more) m.
Proof.
  intros (Ho & Hk). split; [done|]. destruct Hk as [?|[Hh (blob & rest & Hb & Hp)]]; [by left|right].
  split; [done|]. exists blob, rest. split; [done|]. destruct Hp as [?|[(k & r & ?)|(x & y & -> & Hr)]]; [by left| |].
  - right. left. exists k, r. apply elem_of_app. by left.
  - right. right. exists x, (y ++ more). by rewrite app_assoc.
Qed.

Lemma due_more c hs more response : due c hs response → doings c more = [] → due c (hs ++ more) response.
Proof.
  intros (e & m & since & -> & H) Hm. exists e, m, (since ++ more). rewrite <-app_assoc. split; [done|].
  by rewrite doings_app, Hm, app_nil_r.
Qed.

Lemma phase_ok_more hs more c ph : phase_ok hs c ph → doings c more = [] → phase_ok (hs ++ more) c ph.
Proof.
  intros Hp Hm. assert (∀ p m before since, taking hs c p m before since → taking (hs ++ more) c p m before (since ++ more)) as Ht.
  { intros p m before since (-> & ? & ?). split_and!; [by rewrite <-app_assoc|done|]. rewrite doings_app, Hm. by rewrite app_nil_r. }
  destruct ph; simpl in *; try done.
  - destruct Hp as (b & s & H & ?). exists b, (s ++ more). auto.
  - destruct Hp as (b & s & H & ?). exists b, (s ++ more). auto.
  - destruct Hp as (b & s & H & ? & Hin). exists b, (s ++ more). split_and!; [auto|done|]. apply elem_of_app. by left.
  - destruct Hp as (b & s & H & ?). exists b, (s ++ more). split; [auto|]. by apply lent_app.
Qed.

(** Replies. *)
Lemma reply_post hs c env response s :
  each_good hs → due c hs response → post hs c (se_stream s) (reply c env response s).
Proof.
  intros Hg Hd. unfold reply. destruct (env_writes env); split_and!; simpl; rewrite ?app_nil_r; try done.
  - apply each_good_snoc; [done|]. by exists response.
  - by repeat constructor.
Qed.

Lemma post_cons hs c stream h (t : turned) :
  minor c h → post (hs ++ [h]) c stream t → post hs c stream (t.1, h :: t.2).
Proof.
  intros Hm (Hg & Hp & Hs & Hf). rewrite <-app_assoc in Hg, Hp. split_and!; try done. by constructor.
Qed.

Lemma hear_post hs c env response e s :
  each_good hs → due c hs response → post hs c (se_stream s) (hear e (reply c env response s)).
Proof.
  intros Hg Hd. apply post_cons; [done|]. apply reply_post; [by apply each_good_snoc|]. by apply due_more.
Qed.

Lemma due_failure hs c p m before since : taking hs c p m before since → due c hs [FAILURE].
Proof. intros (-> & _ & Hd). exists before, m, since. split; [done|]. by left. Qed.

Lemma wait_post hs c s ph : each_good hs → phase_ok hs c ph → post hs c (se_stream s) (at_phase ph s, []).
Proof. intros. split_and!; simpl; rewrite ?app_nil_r; done || constructor. Qed.

(** A request just taken. *)
Lemma answer_agent_post hs c env p m before s :
  each_good hs → taking hs c p m before [] → post hs c (se_stream s) (answer_agent c env p m s).
Proof.
  intros Hg Ht. pose proof (due_failure _ _ _ _ _ _ Ht) as Hd. unfold answer_agent.
  case_decide as Hoff; [by apply hear_post|]. destruct m as [|kind m]; [by apply reply_post|].
  destruct (Z.eqb_spec kind REQUEST_IDENTITIES) as [->|_].
  { apply wait_post; [done|]. exists before, []. split; [done|]. split; [done|by left]. }
  destruct (Z.eqb_spec kind SIGN_REQUEST) as [->|_]; [|by apply hear_post].
  destruct (read_string _) as [[blob rest]|] eqn:Hb; [|by apply hear_post].
  case_decide as Hask; apply wait_post; try done; exists before, []; split; try done.
  - split_and!; [done|done|by exists rest|by eexists].
  - split; [done|]. right. split; [done|]. exists blob, rest. split; [done|]. left. by destruct (mode p).
Qed.

Lemma decided_post hs c env p m key allow before since s :
  each_good hs → taking hs c p m before since → (allow = true → lent p c before since m) →
  post hs c (se_stream s) (decided c env p m key allow s).
Proof.
  intros Hg Ht Hl. unfold decided. destruct allow.
  - apply wait_post; [done|]. exists before, since. auto.
  - apply hear_post; [done|]. by eapply due_failure.
Qed.

(** Permission: the answer remembered, or the app's now. *)
Lemma lent_remembered hs c p m blob key before since :
  taking hs c p m before since → to_sign p m blob key → remembered hs (fingerprint blob) → lent p c before since m.
Proof.
  intros (-> & _ & _) (Ha & Hh & (rest & Hb) & _) Hr. split; [by rewrite Ha|]. right. split; [done|].
  exists blob, rest. split; [done|]. right. right. exists since, []. by rewrite app_nil_r.
Qed.
Lemma lent_asked p m blob key c before since r :
  to_sign p m blob key → Asked c (question key) (Some (true, r)) ∈ since → lent p c before since m.
Proof.
  intros (Ha & Hh & (rest & Hb) & (comment & ->)) Hin. split; [by rewrite Ha|]. right. split; [done|].
  exists blob, rest. split; [done|]. right. left. by exists comment, r.
Qed.

Lemma permitted_post hs c env answers p m blob key s :
  (∀ fp, answers !! fp = Some true → remembered hs fp) →
  each_good hs → phase_ok hs c (Permitting p m blob key) →
  post hs c (se_stream s) (permitted c env answers p m blob key s).
Proof.
  intros Ha Hg (before & since & Ht & Hs). unfold permitted.
  destruct (answers !! fingerprint blob) as [known|] eqn:E.
  - apply (decided_post _ _ _ _ _ _ _ before since); [done|done|]. intros ->. eapply lent_remembered; eauto.
  - apply wait_post; [done|]. by exists before, since.
Qed.

Lemma taking_more hs c p m before since h :
  taking hs c p m before since → ¬ doing c h → taking (hs ++ [h]) c p m before (since ++ [h]).
Proof.
  intros (-> & ? & Hd) Hn. split_and!; [by rewrite <-app_assoc|done|]. rewrite doings_app, Hd.
  unfold doings. by rewrite filter_cons_False.
Qed.

Lemma permitted_asks_post hs c env p m blob key s :
  each_good hs → phase_ok hs c (Asking p m blob key) →
  post hs c (se_stream s) (permitted_asks c env p m blob key s).
Proof.
  intros Hg (before & since & Ht & Hs). unfold permitted_asks. set (h := Asked c (question key) (env_ask env (question key))).
  assert (each_good (hs ++ [h])) as Hg' by (by apply each_good_snoc).
  assert (taking (hs ++ [h]) c p m before (since ++ [h])) as Ht' by (apply taking_more; [done|by intros []]).
  assert (∀ allow rem, default (false, false) (env_ask env (question key)) = (allow, rem) →
    allow = true ∨ rem = true → Asked c (question key) (Some (allow, rem)) ∈ since ++ [h]) as Hin.
  { intros allow rem E Ho. apply elem_of_app. right. apply list_elem_of_singleton. unfold h.
    destruct (env_ask env _) as [[]|]; simpl in E; [by injection E as -> ->|]. by injection E as <- <-; destruct Ho. }
  destruct (default (false, false) _) as [allow rem]. specialize (Hin _ _ eq_refl).
  destruct rem.
  - apply (post_cons hs c (se_stream s) h (at_phase (Remembering p m blob key allow) s, [])); [done|].
    apply wait_post; [done|]. exists before, (since ++ [h]). auto.
  - pose proof (decided_post (hs ++ [h]) c env p m key allow before (since ++ [h]) s Hg' Ht') as Hd.
    destruct (decided _ _ _ _ _ _ _) as [s' hs']. apply (post_cons hs c (se_stream s) h (s', hs')); [done|].
    apply Hd. intros ->. eapply lent_asked; [done|]. apply Hin. by left.
Qed.

Lemma remembering_post hs c env p m blob key allow s :
  each_good hs → phase_ok hs c (Remembering p m blob key allow) →
  post hs c (se_stream s) (let '(s, l) := decided c env p m key allow s in (s, Remembered c (fingerprint blob) allow :: l)).
Proof.
  intros Hg (before & since & Ht & Hs & Hin). set (h := Remembered c (fingerprint blob) allow).
  assert (good hs h) as Hh.
  { destruct allow; [|done]. destruct Ht as (-> & _ & Hd). destruct Hs as (_ & _ & _ & (comment & ->)).
    apply list_elem_of_split in Hin as (x & y & ->). simpl.
    exists (before ++ Took c m :: x), c, blob, comment, y, []. split_and!; [|done| |by intros ?%elem_of_nil].
    - by rewrite <-!app_assoc; simpl; rewrite <-app_assoc.
    - rewrite doings_app in Hd. apply app_nil in Hd as [_ Hd]. unfold doings in *. by rewrite filter_cons_False in Hd by (by intros []). }
  assert (each_good (hs ++ [h])) as Hg' by (by apply each_good_snoc).
  assert (taking (hs ++ [h]) c p m before (since ++ [h])) as Ht' by (apply taking_more; [done|by intros []]).
  pose proof (decided_post (hs ++ [h]) c env p m key allow before (since ++ [h]) s Hg' Ht') as Hd.
  destruct (decided _ _ _ _ _ _ _) as [s' hs']. apply (post_cons hs c (se_stream s) h (s', hs')); [done|].
  apply Hd. intros ->. eapply lent_asked; [done|]. apply elem_of_app. by left.
Qed.

(** To the host's agent and back. *)
Lemma answer_forwarded_post hs c env p m key s :
  each_good hs → phase_ok hs c (Forwarding p m key) →
  post hs c (se_stream s) (answer_forwarded c env p m key s).
Proof.
  intros Hg (before & since & Ht & Hl). unfold answer_forwarded.
  set (finish := λ (r : result str (list Z)) (s : Session), match r with
    | Ok response => hear (mk_event (match key with None => lit "list" | Some _ => lit "sign" end) key true None)
        (reply c env response (match key with None => set_comments (default ∅ (parse_identities response)) s | Some _ => s end))
    | Err error => refuse_agent c env (match key with None => lit "list" | Some _ => lit "sign" end) key error s end).
  assert (∀ hs r s', each_good hs → se_stream s' = se_stream s →
    due c hs (match r with Ok x => x | Err _ => [FAILURE] end) → post hs c (se_stream s) (finish r s')) as Hfin.
  { intros hs' r s' Hg' <- Hd. destruct r as [x|e]; unfold finish; [|by apply hear_post].
    destruct key; [by apply hear_post|].
    exact (hear_post hs' c env x _ (set_comments (default ∅ (parse_identities x)) s') Hg' Hd). }
  assert (∀ response r s', se_stream s' = se_stream s →
    match r with Ok x => x | Err _ => [FAILURE] end = match response with Ok (Some x) => x | _ => [FAILURE] end →
    post hs c (se_stream s) (let '(s1, l) := finish r s' in (s1, Given c m response :: l))) as Hgiven.
  { intros response r s' Hs' Hr. set (h := Given c m response).
    assert (good hs h) as Hh.
    { destruct Ht as (-> & -> & Hd). by exists before, since. }
    pose proof (Hfin (hs ++ [h]) r s' ltac:(by apply each_good_snoc) Hs') as Hp.
    destruct (finish r s') as [s1 l]. apply (post_cons hs c (se_stream s) h (s1, l)); [done|]. apply Hp.
    destruct Ht as (-> & _ & Hd). exists before, m, (since ++ [h]). split; [by rewrite <-app_assoc|]. right.
    exists response. split; [|done]. rewrite doings_app, Hd. unfold doings. by rewrite filter_cons_True. }
  unfold forward. destruct (if agent_open s then None else _) as [error|].
  - pose proof (Hfin hs (Err error) s Hg eq_refl (due_failure _ _ _ _ _ _ Ht)) as Hp.
    change (post hs c (se_stream s) (let '(s1, l) := finish (Err error) s in (s1, [] ++ l))).
    by destruct (finish (Err error) s).
  - destruct (env_exchange env m) as [[x|]|e] eqn:Ex; cbn [app].
    + apply (Hgiven (Ok (Some x)) (Ok x) (set_open true s)); done.
    + apply (Hgiven (Ok None) (Err (lit "the ssh-agent closed the connection")) (set_open false s)); done.
    + apply (Hgiven (Err e) (Err e) (set_open false s)); done.
Qed.

(** Reading the next request. *)
Lemma read_message_framed stream m rest :
  wf_bytes stream → read_message stream = Ok (Some (m, rest)) →
  ∃ header, stream = header ++ m ++ rest ∧ length header = 4%nat ∧ be_val header = Z.of_nat (length m) ∧
    0 < Z.of_nat (length m) <= MAX_MESSAGE.
Proof.
  intros Hw. unfold read_message. case_bool_decide as H4; [done|]. destruct (_ || _) eqn:E; [done|].
  apply orb_false_iff in E as [E1%Z.eqb_neq E2%Z.ltb_ge]. case_bool_decide as Hn; [done|].
  pose proof (be_val_range (take 4 stream) (Forall_take _ _ _ Hw)) as [Hr _].
  intros [= <- <-]. exists (take 4 stream). rewrite !take_drop, !length_take.
  split_and!; [done|lia..].
Qed.

(** The turn of a connection takes a request or does a part of one, and nothing of another. *)
Definition mine (c : nat) (h : Happening) : Prop := minor c h ∨ ∃ m, h = Took c m.

Lemma mine_others c c' hs :
  c ≠ c' → Forall (mine c) hs → doings c' hs = [] ∧ taken c' hs = [].
Proof.
  intros Hc. induction 1 as [|h hs Hh _ [IH1 IH2]]; [done|]. unfold doings, taken in *.
  rewrite filter_cons_False by (destruct Hh as [Hm|[m ->]]; [destruct h|]; simpl in *; congruence || done).
  split; [done|]. cbn [omap list_omap]. destruct Hh as [Hh|[m ->]].
  - by destruct h.
  - by rewrite decide_False.
Qed.
Lemma mine_opened c c' hs : Forall (mine c) hs → opened c' hs = [].
Proof.
  induction 1 as [|h hs Hh _ IH]; [done|]. unfold opened in *. cbn [omap list_omap].
  destruct Hh as [Hh|[m ->]]; [by destruct h|done].
Qed.
Lemma mine_policy c hs p : Forall (mine c) hs → policy_in hs p = p.
Proof.
  induction 1 as [|h hs Hh _ IH]; [done|]. destruct Hh as [Hh|[m ->]]; [|done]. by destruct h.
Qed.
Lemma mine_kept c hs : Forall (mine c) hs → Forgot ∉ hs.
Proof.
  intros Hf Hin. eapply Forall_forall in Hf; [|exact Hin]. by destruct Hf as [[]|[m [=]]].
Qed.
Lemma minor_taken c hs : Forall (minor c) hs → taken c hs = [].
Proof. induction 1 as [|h hs Hh _ IH]; [done|]. unfold taken in *. cbn [omap list_omap]. by destruct h. Qed.

Lemma opened_app c hs hs' : opened c (hs ++ hs') = opened c hs ++ opened c hs'.
Proof. apply omap_app. Qed.
Lemma taken_app c hs hs' : taken c (hs ++ hs') = taken c hs ++ taken c hs'.
Proof. apply omap_app. Qed.
Lemma policy_in_app hs hs' : policy_in (hs ++ hs') first = policy_in hs' (policy_in hs first).
Proof. apply foldl_app. Qed.

Lemma stream_ok_more hs more c stream :
  stream_ok hs c stream → opened c more = [] → taken c more = [] → stream_ok (hs ++ more) c stream.
Proof.
  intros (sent & Ho & Hm & Hw) Ho' Ht'. exists sent. by rewrite opened_app, taken_app, Ho', Ht', !app_nil_r.
Qed.

Lemma turn_ok hs c env answers s :
  each_good hs → (∀ fp, answers !! fp = Some true → remembered hs fp) →
  phase_ok hs c (se_phase s) → stream_ok hs c (se_stream s) →
  let t := turn c env (policy_in hs first) answers s in
  each_good (hs ++ t.2) ∧ phase_ok (hs ++ t.2) c (se_phase t.1) ∧ stream_ok (hs ++ t.2) c (se_stream t.1) ∧
  Forall (mine c) t.2.
Proof.
  intros Hg Ha Hp Hs.
  assert (∀ t, post hs c (se_stream s) t → each_good (hs ++ t.2) ∧ phase_ok (hs ++ t.2) c (se_phase t.1) ∧
    stream_ok (hs ++ t.2) c (se_stream t.1) ∧ Forall (mine c) t.2) as Hpost.
  { intros t (H1 & H2 & H3 & H4).
    assert (Forall (mine c) t.2) as Hm by (eapply Forall_impl; [exact H4|by left]).
    split_and!; [done|done| |done]. rewrite H3. apply stream_ok_more; [done|by eapply mine_opened|by apply minor_taken]. }
  unfold turn. destruct (se_phase s) as [|p m blob key|p m blob key|p m blob key allow|p m key|] eqn:Eph.
  - destruct (read_message (se_stream s)) as [[[m stream]|]|e] eqn:E; [|by apply Hpost, wait_post..].
    destruct Hs as (sent & Ho & Hm & Hw). apply read_message_framed in E as (header & Hstream & H4 & Hl & Hmax); [|done].
    rewrite Hstream in Hm, Hw. set (h := Took c m).
    assert (each_good (hs ++ [h])) as Hg' by (by apply each_good_snoc).
    assert (taking (hs ++ [h]) c (policy_in hs first) m hs []) as Ht by done.
    pose proof (answer_agent_post (hs ++ [h]) c env _ m hs (set_stream stream s) Hg' Ht) as (H1 & H2 & H3 & Hf).
    destruct (answer_agent _ _ _ _ _) as [s' l]. cbn [fst snd] in *. rewrite <-app_assoc in H1, H2.
    split_and!; [done|done| |].
    + rewrite H3. exists sent. rewrite opened_app, taken_app.
      change (opened c (h :: l)) with (opened c l).
      assert (taken c (h :: l) = [m]) as ->.
      { unfold taken. cbn [omap list_omap h]. rewrite decide_True by done. f_equal. by apply minor_taken. }
      rewrite (mine_opened c c l) by (eapply Forall_impl; [exact Hf|by left]). rewrite app_nil_r.
      split_and!; [done|by eapply next_message|]. cbn. apply wf_app in Hw as [_ [_ Hw]%wf_app]. done.
    + constructor; [by right; exists m|]. eapply Forall_impl; [exact Hf|by left].
  - by apply Hpost, permitted_post.
  - by apply Hpost, permitted_asks_post.
  - by apply Hpost, remembering_post.
  - by apply Hpost, answer_forwarded_post.
  - apply (Hpost (s, [])). split_and!; simpl; rewrite ?app_nil_r, ?Eph; done || constructor.
Qed.

(** The answers after a turn. *)
Lemma answers_remembered hs l answers :
  each_good (hs ++ l) → (Forgot ∉ l) → (∀ fp, answers !! fp = Some true → remembered hs fp) →
  ∀ fp, foldl (λ a h, remember h a) answers l !! fp = Some true → remembered (hs ++ l) fp.
Proof.
  revert hs answers. induction l as [|h l IH]; intros hs answers Hg Hn Ha fp; [rewrite app_nil_r; apply Ha|].
  cbn [foldl]. replace (hs ++ h :: l) with ((hs ++ [h]) ++ l) in * by (by rewrite <-app_assoc).
  apply IH; [done|set_solver|]. intros fp' Hfp.
  assert (answers !! fp' = Some true ∨ ∃ c, h = Remembered c fp' true) as [Hold|[c ->]].
  { destruct h; simpl in Hfp; auto. rewrite lookup_insert in Hfp. case_decide; [|by left].
    injection Hfp as ->. subst. right. by eexists. }
  - apply remembered_app; [by apply Ha|]. set_solver.
  - apply (Hg hs (Remembered c fp' true) l). by rewrite <-app_assoc.
Qed.

Definition wf_action (a : Action) : Prop := match a with Connect _ stream => wf_bytes stream | _ => True end.

Record inv (b : Bridge) : Prop := {
  inv_good : each_good (happened b);
  inv_answers fp : answers b !! fp = Some true → remembered (happened b) fp;
  inv_policy : br_policy b = policy_in (happened b) first;
  inv_sessions c : match sessions b !! c with
                   | Some s => phase_ok (happened b) c (se_phase s) ∧ stream_ok (happened b) c (se_stream s)
                   | None => opened c (happened b) = [] ∧ taken c (happened b) = []
                   end;
}.

(** Happenings that are nothing to a session. *)
Lemma session_more hs l c (o : option Session) :
  opened c l = [] → taken c l = [] → doings c l = [] →
  match o with Some s => phase_ok hs c (se_phase s) ∧ stream_ok hs c (se_stream s)
             | None => opened c hs = [] ∧ taken c hs = [] end →
  match o with Some s => phase_ok (hs ++ l) c (se_phase s) ∧ stream_ok (hs ++ l) c (se_stream s)
             | None => opened c (hs ++ l) = [] ∧ taken c (hs ++ l) = [] end.
Proof.
  intros H1 H2 H3. destruct o as [s|].
  - intros [? ?]. split; [by apply phase_ok_more|by apply stream_ok_more].
  - intros [Ho Ht]. by rewrite opened_app, taken_app, Ho, Ht, H1, H2.
Qed.

Lemma act_inv a b : wf_action a → inv b → inv (act a b).
Proof.
  intros Hw Hb. pose proof Hb as [Hg Ha Hp Hs]. destruct a as [c stream|p| |c env]; cbn [act].
  - pose proof (Hs c) as Hc. destruct (sessions b !! c) as [s|] eqn:E; [done|]. split; cbn [happened answers br_policy sessions].
    + by apply each_good_snoc.
    + intros fp Hfp. apply remembered_app; [by apply Ha|]. set_solver.
    + by rewrite policy_in_app.
    + intros c'. rewrite lookup_insert. case_decide as Hc'.
      * subst c'. split; [done|]. exists stream. rewrite opened_app, taken_app. destruct Hc as [-> ->].
        unfold opened. cbn. rewrite decide_True by done. split_and!; [done|constructor|done].
      * apply session_more; [|done|done|apply Hs]. unfold opened. cbn. by rewrite decide_False.
  - split; cbn [happened answers br_policy sessions].
    + by apply each_good_snoc.
    + intros fp Hfp. apply remembered_app; [by apply Ha|]. set_solver.
    + by rewrite policy_in_app.
    + intros c'. by apply session_more; [| | |apply Hs].
  - split; cbn [happened answers br_policy sessions].
    + by apply each_good_snoc.
    + intros fp. by rewrite lookup_empty.
    + by rewrite policy_in_app.
    + intros c'. by apply session_more; [| | |apply Hs].
  - pose proof (Hs c) as Hc. destruct (sessions b !! c) as [s|] eqn:E; [|done]. destruct Hc as [Hph Hst].
    pose proof (turn_ok (happened b) c env (answers b) s Hg Ha Hph Hst) as Ht. rewrite <-Hp in Ht.
    destruct (turn c env _ _ s) as [s' l]. cbn [fst snd] in Ht. destruct Ht as (H1 & H2 & H3 & Hm).
    split; cbn [happened answers br_policy sessions].
    + done.
    + apply answers_remembered; [done|by eapply mine_kept|done].
    + rewrite policy_in_app, <-Hp. symmetry. by eapply mine_policy.
    + intros c'. rewrite lookup_insert. case_decide as Hc'; [by subst c'|].
      destruct (mine_others c c' l Hc' Hm). by apply session_more; [eapply mine_opened| | |apply Hs].
Qed.

Lemma acts_inv actions b : Forall wf_action actions → inv b → inv (acts actions b).
Proof.
  unfold acts. intros Hf. revert b. induction Hf as [|a actions Ha _ IH]; intros b Hb; [done|]. by apply IH, act_inv.
Qed.

Lemma inv_new : inv (bridge_new first).
Proof.
  split; simpl; [|intros fp; by rewrite lookup_empty|done|intros c; by rewrite lookup_empty].
  intros before h after E. by destruct before.
Qed.

End run.

(** C38: whatever the guest sends on however many connections, in whatever order their threads take their
    turns and whenever the app changes its policy: the requests a connection's thread takes are the
    messages of the guest's stream, one after another; what is given to the host's agent is the request
    the thread took last, at most once, under a policy at that time that lends the agent; it is a
    request to list keys, or to sign with one, and if the app is to be asked then it said yes to a
    question about that key since, or, at some moment since, a yes to a question about a key with the
    same fingerprint was remembered and not forgotten; and what the guest is told, in its turn, is a
    failure or what the host's agent answered to that very request. *)
Theorem ssh_agent_guarded (policy : AgentPolicy) (actions : list Action) :
  Forall wf_action actions →
  let hs := happened (acts actions (bridge_new policy)) in
  (∀ c stream, Opened c stream ∈ hs → ∃ rest, Messages stream (taken c hs) rest) ∧
  (∀ before c m response after, hs = before ++ Given c m response :: after →
    ∃ earlier since, before = earlier ++ Took c m :: since ∧ doings c since = [] ∧
      lent (policy_in earlier policy) c earlier since m) ∧
  (∀ before c bytes after, hs = before ++ Replied c bytes :: after →
    ∃ response, bytes = write_message response ∧ due c before response).
Proof.
  intros Hw hs. destruct (acts_inv policy actions _ Hw (inv_new policy)) as [Hg _ _ Hs]. fold hs in Hg, Hs.
  split_and!.
  - intros c stream Hin. specialize (Hs c).
    assert (stream ∈ opened c hs) as Hin'.
    { unfold opened. apply list_elem_of_omap. eexists. split; [exact Hin|]. simpl. by rewrite decide_True. }
    destruct (sessions _ !! c) as [s|]; [|destruct Hs as [Ho _]; rewrite Ho in Hin'; by apply elem_of_nil in Hin'].
    destruct Hs as [_ (sent & Ho & Hm & _)]. rewrite Ho, list_elem_of_singleton in Hin'. subst. by eexists.
  - intros before c m response after E. apply (Hg _ _ _ E).
  - intros before c bytes after E. apply (Hg _ _ _ E).
Qed.
End bridge.

(** ** Two connections to run *)

#[local] Instance short_digest : Sha256 := λ blob, take 3 blob.

Definition example_policy (m : Mode) : AgentPolicy := mk_agent_policy m None.
Definition app_says (a : option (bool * bool)) : Env := mk_env (λ _, a) (λ _, None) (λ _, Ok (Some [14])) true.
Definition sign_message : list Z := SIGN_REQUEST :: be_bytes 4 3 ++ [1; 2; 3] ++ be_bytes 4 0 ++ be_bytes 4 0.
Definition given (hs : list Happening) : list (nat * list Z) :=
  omap (λ h, match h with Given c m _ => Some (c, m) | _ => None end) hs.
Definition turns (c : nat) (n : nat) (a : option (bool * bool)) : list Action := replicate n (Turn c (app_says a)).

(** The first signature on connection 1 is refused (reading, looking, asking), the second allowed to be
    remembered (two turns more); connection 2's is signed without asking; once the answers are
    forgotten the app is asked again, and with the agent lent no more nothing is; anything else than the
    two requests is refused even where all may sign. *)
Definition example_actions : list Action :=
  [Connect 1 (write_message sign_message ++ write_message sign_message); Connect 2 (write_message sign_message ++
     write_message sign_message ++ write_message sign_message ++ write_message [17; 0])] ++
  turns 1 3 None ++ turns 1 5 (Some (true, true)) ++ turns 2 3 None ++
  [ClearAnswers] ++ turns 2 3 None ++ [SetPolicy (example_policy Off)] ++ turns 2 3 (Some (true, true)) ++
  [SetPolicy (example_policy Allow)] ++ turns 2 3 (Some (true, true)).

Example bridge_asks_once :
  given (happened (acts example_actions (bridge_new (example_policy Ask)))) = [(1%nat, sign_message); (2%nat, sign_message)].
Proof. by vm_compute. Qed.

(** Answers that a change of the policy forgot come back: a question put before the change is answered
    after it, and remembered for the connections that come then. *)
Example forgotten_answer_returns :
  given (happened (acts ([Connect 1 (write_message sign_message); Connect 2 (write_message sign_message)] ++
    turns 1 3 (Some (true, true)) ++ [SetPolicy (example_policy Ask); ClearAnswers] ++ turns 1 2 None ++ turns 2 3 None)
    (bridge_new (example_policy Ask)))) = [(1%nat, sign_message); (2%nat, sign_message)].
Proof. by vm_compute. Qed.

Lemma ssh_agent_guarded_witness :
  let hs := happened (acts example_actions (bridge_new (example_policy Ask))) in
  (∀ c stream, Opened c stream ∈ hs → ∃ rest, Messages stream (taken c hs) rest) ∧
  (∀ before c m response after, hs = before ++ Given c m response :: after →
    ∃ earlier since, before = earlier ++ Took c m :: since ∧ doings c since = [] ∧
      lent (policy_in earlier (example_policy Ask)) c earlier since m) ∧
  (∀ before c bytes after, hs = before ++ Replied c bytes :: after →
    ∃ response, bytes = write_message response ∧ due c before response).
Proof.
  apply (ssh_agent_guarded (example_policy Ask) example_actions).
  assert (∀ c n a, Forall wf_action (turns c n a)) as Ht by (intros; by apply Forall_replicate).
  unfold example_actions. apply Forall_app. split.
  - apply Forall_cons. split; [apply wf_bytes_check; by vm_compute|]. apply Forall_singleton.
    apply wf_bytes_check. by vm_compute.
  - repeat (apply Forall_app; split); try apply Ht; by apply Forall_singleton.
Defined.

(** "foobar" in base64. *)
Example base64_foobar : base64_nopad (lit "foobar") = lit "Zm9vYmFy" ∧ base64_nopad (lit "fooba") = lit "Zm9vYmE".
Proof. by vm_compute. Qed.
