(* ===== verification/Serial.v ===== *)
(** * The host's serial ports, lent to the guest (engine/src/serial.rs)

    Which devices the app shares (patterns and the decision), the line settings of a port, the frames
    between guest and port, and opening a port.  The list of the host's devices, the app and the port
    itself are parameters.  The model is the unix build: paths are case-sensitive. *)
From stdpp Require Import strings.
From S2P Require Import Prelude Str Json.

Local Open Scope Z_scope.

(** ** Patterns *)

Definition STAR : str := [42].
Definition QUESTION : str := [63].

(** How the matching loop ends: at the text's end with the pattern read so far, at a mismatch, or cut
    short. *)
Inductive glob_end : Type :=
  | Reached (pi : nat)
  | Mismatch
  | Cut.

(** One turn per fuel: a character matches, a star is noted, or the last star takes one more. *)
Fixpoint glob_loop (fuel : nat) (p t : list str) (pi ti : nat) (star : option nat) (mark : nat) : glob_end :=
  match fuel with
  | O => Cut
  | S fuel =>
      match t !! ti with
      | None => Reached pi
      | Some c =>
          if bool_decide (p !! pi = Some QUESTION) || bool_decide (p !! pi = Some c) then
            glob_loop fuel p t (S pi) (S ti) star mark
          else if bool_decide (p !! pi = Some STAR) then glob_loop fuel p t (S pi) ti (Some pi) ti
          else match star with
               | Some s => glob_loop fuel p t (S s) (S mark) star (S mark)
               | None => Mismatch
               end
      end
  end.

Fixpoint skip_stars (p : list str) : list str :=
  match p with
  | c :: p' => if bool_decide (c = STAR) then skip_stars p' else p
  | [] => []
  end.

Definition glob_fuel (p t : list str) : nat := (length t + length p + 1) * (length t + 1).

Definition glob (pattern text : str) : bool :=
  let p := chars pattern in
  let t := chars text in
  match glob_loop (glob_fuel p t) p t 0 0 None 0 with
  | Reached pi => bool_decide (skip_stars (drop pi p) = [])
  | _ => false
  end.

(** ** Devices and the decision *)

Record Usb := mk_usb {
  vid : Z;
  pid : Z;
  usb_serial : option str;
  manufacturer : option str;
  product : option str;
  interface : option Z;
}.

Record SerialDevice := mk_serial_device {
  path : str;
  by_id : option str;
  bus : str;
  driver : option str;
  usb : option Usb;
}.

Definition UNLISTED : str := lit "unlisted".
Definition bare (p : str) : SerialDevice := mk_serial_device p None UNLISTED None None.

Inductive SerialMode : Type :=
  | Off
  | Ask
  | Allow.

#[export] Instance serial_mode_eq_dec : EqDecision SerialMode.
Proof. solve_decision. Defined.

Definition serial_mode_parse (text : str) : option SerialMode :=
  if decide (text = lit "off") then Some Off
  else if decide (text = lit "ask") then Some Ask
  else if decide (text = lit "allow") then Some Allow
  else None.

Record SerialPolicy := mk_serial_policy {
  mode : SerialMode;
  devices : list str;
}.

(** [usb:VID:PID[:SERIAL]]; the serial number may hold colons. *)
Definition usb_pattern (pattern : str) : option (Z * Z * option str) :=
  rest ← strip_prefix (lit "usb:") pattern;
  '(v, rest) ← split_once (lit ":") rest;
  let '(p, serial) := match split_once (lit ":") rest with
                      | Some (p, serial) => (p, Some serial)
                      | None => (rest, None)
                      end in
  v ← from_hex 65535 v;
  p ← from_hex 65535 p;
  Some (v, p, match serial with Some (b :: s) => Some (b :: s) | _ => None end).

(** Does one pattern name this device? *)
Definition matches (pattern : str) (d : SerialDevice) : bool :=
  if bool_decide (pattern = lit "*") then true
  else match usb_pattern pattern with
  | Some (v, p, serial) =>
      match usb d with
      | Some u => (vid u =? v) && (pid u =? p) &&
                  match serial with None => true | Some s => bool_decide (usb_serial u = Some s) end
      | None => false
      end
  | None => glob pattern (path d) || match by_id d with Some b => glob pattern b | None => false end
  end.

Inductive SerialDecision : Type :=
  | Allowed
  | AskApp
  | Denied (reason : str).

Definition decide_device (policy : SerialPolicy) (d : SerialDevice) : SerialDecision :=
  let unlisted := bool_decide (bus d = UNLISTED) in
  let listed := existsb (λ p, (negb unlisted || negb (bool_decide (p = lit "*"))) && matches p d) (devices policy) in
  let any := bool_decide (devices policy = []) || existsb (λ p, bool_decide (p = lit "*")) (devices policy) in
  match mode policy with
  | Off => Denied (lit "the app does not share serial ports (serial: off)")
  | Allow =>
      if listed || (any && negb unlisted) then Allowed
      else if any && unlisted then
        Denied (path d ++ lit " is not a serial port this computer lists (a terminal or a pty is shared only when the app names it)")
      else Denied (path d ++ lit " is not among the serial ports the app shares (" ++ join (lit ", ") (devices policy) ++ lit ")")
  | Ask => if listed then Allowed else AskApp
  end.

(** ** Opening *)

Definition hex04 (n : Z) : str :=
  let d i := hex_char (Z.land (Z.shiftr n i) 15) in [d 12; d 8; d 4; d 0].

(** One line for the app's question and the logs. *)
Definition describe (d : SerialDevice) : str :=
  path d ++
  match usb d with
  | Some u =>
      lit " (USB " ++ hex04 (vid u) ++ lit ":" ++ hex04 (pid u) ++
      match manufacturer u with Some m => lit " " ++ m | None => [] end ++
      match product u with Some m => lit " " ++ m | None => [] end ++
      match usb_serial u with Some s => lit ", serial " ++ s | None => [] end ++ lit ")"
  | None => []
  end ++
  (if bool_decide (bus d = UNLISTED) then lit " (not a serial port this computer lists: a terminal or a pty)" else []).

(** The device a request names: by USB identity, when there is one only, or by path; [canonical]
    follows links. *)
Definition resolve (listed : list SerialDevice) (canonical : str → str) (wanted : str)
    : result str SerialDevice :=
  match usb_pattern wanted with
  | Some _ =>
      match filter (λ d, matches wanted d = true) listed with
      | [d] => Ok d
      | [] => Err (lit "no serial device " ++ wanted ++ lit " is plugged in")
      | many => Err (decimal (Z.of_nat (length many)) ++ lit " devices match " ++ wanted ++ lit " (" ++
                     join (lit ", ") (path <$> many) ++ lit "); add the serial number")
      end
  | None =>
      match list_find (λ d, path d = canonical wanted ∨ path d = wanted ∨ by_id d = Some wanted) listed with
      | Some (_, d) => Ok d
      | None => Ok (bare (canonical wanted))
      end
  end.

(** Whether an open goes ahead, and the answers remembered by device path. *)
Definition authorize (policy : SerialPolicy) (ask : str → option (bool * bool)) (answers : gmap str bool)
    (d : SerialDevice) : result str unit * gmap str bool :=
  match decide_device policy d with
  | Allowed => (Ok tt, answers)
  | Denied reason => (Err reason, answers)
  | AskApp =>
      let '(allow, answers) :=
        match answers !! path d with
        | Some answer => (answer, answers)
        | None =>
            let '(allow, remember) := default (false, false) (ask (lit "open the serial port " ++ describe d)) in
            (allow, if remember : bool then <[path d := allow]> answers else answers)
        end in
      if allow : bool then (Ok tt, answers) else (Err (lit "the app did not allow " ++ path d), answers)
  end.

(** ** Line settings *)

Inductive Parity : Type :=
  | ParityNone
  | Even
  | Odd
  | Mark
  | Space.

Inductive Flow : Type :=
  | FlowNone
  | RtsCts
  | XonXoff.

Record Line := mk_line {
  baud : Z;
  data_bits : Z;
  parity : Parity;
  stop_bits : Z;
  flow : Flow;
}.

Definition line_default : Line := mk_line 115200 8 ParityNone 1 FlowNone.

Definition parity_of (s : str) : option Parity :=
  if decide (s = lit "none" ∨ s = lit "n") then Some ParityNone
  else if decide (s = lit "even" ∨ s = lit "e") then Some Even
  else if decide (s = lit "odd" ∨ s = lit "o") then Some Odd
  else if decide (s = lit "mark" ∨ s = lit "m") then Some Mark
  else if decide (s = lit "space" ∨ s = lit "s") then Some Space
  else None.

Definition flow_of (s : str) : option Flow :=
  if decide (s = lit "none") then Some FlowNone
  else if decide (s = lit "rtscts" ∨ s = lit "hardware") then Some RtsCts
  else if decide (s = lit "xonxoff" ∨ s = lit "software") then Some XonXoff
  else None.

Definition within (lo hi n : Z) : option Z := if in_range lo hi n then Some n else None.

(** A setting of a request: what is not given stays as it was; what cannot be read is an error. *)
Definition setting {A} (v : Value) (name : str) (read : Value → option A) (why : str) (old : A) : result str A :=
  match get name v with
  | None => Ok old
  | Some x => ok_or (read x) why
  end.

Definition from_json (v : Value) (base : Line) : result str Line :=
  baud ← setting v (lit "baud") (λ x, as_u64 x ≫= within 50 16000000)
    (lit "baud: a rate from 50 to 16000000") (baud base);
  data_bits ← setting v (lit "dataBits") (λ x, as_u64 x ≫= within 5 8)
    (lit "dataBits: 5 to 8") (data_bits base);
  stop_bits ← setting v (lit "stopBits") (λ x, as_u64 x ≫= within 1 2)
    (lit "stopBits: 1 or 2") (stop_bits base);
  parity ← setting v (lit "parity") (λ x, as_str x ≫= parity_of)
    (lit "parity: none, even, odd, mark or space") (parity base);
  flow ← setting v (lit "flow") (λ x, as_str x ≫= flow_of)
    (lit "flow: none, rtscts or xonxoff") (flow base);
  Ok (mk_line baud data_bits parity stop_bits flow).

Definition parity_name (p : Parity) : str :=
  match p with
  | ParityNone => lit "none" | Even => lit "even" | Odd => lit "odd" | Mark => lit "mark" | Space => lit "space"
  end.
Definition flow_name (f : Flow) : str :=
  match f with FlowNone => lit "none" | RtsCts => lit "rtscts" | XonXoff => lit "xonxoff" end.

Definition to_json (l : Line) : Value :=
  Object [(lit "baud", Number (baud l)); (lit "dataBits", Number (data_bits l));
          (lit "parity", String (parity_name (parity l))); (lit "stopBits", Number (stop_bits l));
          (lit "flow", String (flow_name (flow l)))].

(** What [device] looks like to the guest. *)
Definition device_json (d : SerialDevice) : Value :=
  Object
    ([(lit "path", String (path d)); (lit "bus", String (bus d))] ++
     match by_id d with Some b => [(lit "byId", String b)] | None => [] end ++
     match driver d with Some b => [(lit "driver", String b)] | None => [] end ++
     match usb d with
     | Some u =>
         [(lit "usb", Object [(lit "vid", String (hex04 (vid u))); (lit "pid", String (hex04 (pid u)));
            (lit "serial", option_value String (usb_serial u));
            (lit "manufacturer", option_value String (manufacturer u));
            (lit "product", option_value String (product u));
            (lit "interface", option_value Number (interface u))])]
     | None => []
     end).

(** ** Frames *)

Definition FRAME_DATA : Z := 0.
Definition FRAME_CONTROL : Z := 1.
Definition MAX_FRAME : nat := Z.to_nat (64 * 1024).

Definition frame_of (kind : Z) (chunk : list Z) : list Z :=
  [kind] ++ be_bytes 4 (u32 (Z.of_nat (length chunk))) ++ chunk.

(** [payload.chunks(MAX_FRAME)], and one empty frame for an empty payload. *)
Fixpoint chunks_of (fuel n : nat) (l : list Z) : list (list Z) :=
  match fuel with
  | O => []
  | S fuel => match l with [] => [] | _ => take n l :: chunks_of fuel n (drop n l) end
  end.

Definition send_frame (kind : Z) (payload : list Z) : list Z :=
  mjoin (frame_of kind <$> match payload with [] => [[]] | _ => chunks_of (length payload) MAX_FRAME payload end).

(** A frame off the stream, if there is a whole one, and what follows it. *)
Definition read_frame (stream : list Z) : result Z (option (Z * list Z * list Z)) :=
  if bool_decide (length stream < 5)%nat then Ok None
  else
    let len := be_val (slice 1 5 stream) in
    if Z.of_nat MAX_FRAME <? len then Err len
    else
      let rest := drop 5 stream in
      if bool_decide (length rest < Z.to_nat len)%nat then Ok None
      else Ok (Some (byte_at stream 0, take (Z.to_nat len) rest, drop (Z.to_nat len) rest)).

(** ** What a pattern means *)

(** [*] stands for any characters, [?] for one, every other character for itself. *)
Inductive globs : list str → list str → Prop :=
  | globs_nil : globs [] []
  | globs_question p c t : globs p t → globs (QUESTION :: p) (c :: t)
  | globs_char c p t : c ≠ STAR → globs p t → globs (c :: p) (c :: t)
  | globs_skip p t : globs p t → globs (STAR :: p) t
  | globs_more p c t : globs (STAR :: p) t → globs (STAR :: p) (c :: t).

Lemma globs_star p t : globs (STAR :: p) t ↔ ∃ k, (k ≤ length t)%nat ∧ globs p (drop k t).
Proof.
  split.
  - intros H. remember (STAR :: p) as q eqn:E. revert E.
    induction H as [| | c q t Hc _ _|q t H _|q c t H IH]; intros E; try done.
    + injection E as -> _. done.
    + injection E as ->. exists 0%nat. split; [lia|done].
    + destruct (IH E) as (k & Hk & Hg). exists (S k). split; [simpl; lia|done].
  - intros (k & Hk & Hg). revert t Hk Hg. induction k as [|k IH]; intros t Hk Hg; [by apply globs_skip|].
    destruct t as [|c t]; [simpl in Hk; lia|]. apply globs_more, IH; [simpl in Hk; lia|done].
Qed.

Lemma globs_segment seg p t :
  Forall (λ c, c ≠ STAR) seg → globs (seg ++ p) t → (length seg ≤ length t)%nat ∧ globs p (drop (length seg) t).
Proof.
  intros Hs. revert t; induction Hs as [|c seg Hc Hs IH]; intros t H; simpl in *; [split; [lia|done]|].
  inversion H; subst; try done; simpl; (edestruct IH; [done|]); (split; [lia|done]).
Qed.

Lemma globs_cons_inv c p d t : c ≠ STAR → globs (c :: p) (d :: t) → (c = QUESTION ∨ c = d) ∧ globs p t.
Proof. intros Hc H. inversion H; subst; try done; auto. Qed.

Lemma globs_stars p : globs p [] ↔ skip_stars p = [].
Proof.
  induction p as [|c p IH]; simpl; [split; [done|constructor]|]. case_bool_decide as Hc.
  - subst. rewrite <-IH. split; [|by apply globs_skip]. intros H. by inversion H.
  - split; [|done]. intros H. by inversion H.
Qed.

(** The state of the loop: what was read since the last star has no star, and as many characters of
    the text were taken for it. *)
Definition glob_inv (p t : list str) (pi ti : nat) (star : option nat) (mark : nat) : Prop :=
  (pi ≤ length p)%nat ∧ (mark ≤ ti ≤ length t)%nat ∧
  match star with
  | None => True
  | Some s => (s < pi)%nat ∧ (ti - mark = pi - S s)%nat ∧
              Forall (λ c, c ≠ STAR) (take (pi - S s) (drop (S s) p))
  end.

(** A match from here on, or one with the last star taking more. *)
Definition glob_open (p t : list str) (pi ti : nat) (star : option nat) (mark : nat) : Prop :=
  globs (drop pi p) (drop ti t) ∨
  ∃ s k, star = Some s ∧ (mark < k ≤ length t)%nat ∧ globs (drop (S s) p) (drop k t).

Definition glob_found (p : list str) (e : glob_end) : Prop :=
  match e with Reached pi => skip_stars (drop pi p) = [] | _ => False end.

Definition glob_measure (p t : list str) (pi ti mark : nat) : nat :=
  (length t + length p + 1) * (length t - mark) + (length t - ti) + (length p - pi).

Lemma drop_segment {A} (l : list A) i j : (i ≤ j)%nat → drop i l = take (j - i) (drop i l) ++ drop j l.
Proof.
  intros H. rewrite <-(take_drop (j - i) (drop i l)) at 1. f_equal. rewrite drop_drop. f_equal. lia.
Qed.

(** With the star noted at [s], a match that gives it more than [mark] would need more text than what
    was taken since. *)
Lemma glob_segment_shift p t pi ti s mark k :
  glob_inv p t pi ti (Some s) mark → (mark < k ≤ length t)%nat → globs (drop (S s) p) (drop k t) →
  ∃ j, (ti < j ≤ length t)%nat ∧ globs (drop pi p) (drop j t).
Proof.
  intros (Hpi & Hti & Hs & Hd & Hseg) Hk Hg. rewrite (drop_segment p (S s) pi) in Hg by lia.
  apply globs_segment in Hg as [Hl Hg]; [|done]. rewrite length_take, !length_drop in Hl.
  rewrite length_take, length_drop, drop_drop in Hg.
  replace ((pi - S s) `min` (length p - S s))%nat with (pi - S s)%nat in * by lia.
  exists (k + (pi - S s))%nat. split; [|done]. lia.
Qed.

Lemma glob_loop_spec fuel p t pi ti star mark :
  Forall (λ c, c ≠ STAR) t → glob_inv p t pi ti star mark → (glob_measure p t pi ti mark < fuel)%nat →
  glob_found p (glob_loop fuel p t pi ti star mark) ↔ glob_open p t pi ti star mark.
Proof.
  intros Ht. revert pi ti star mark.
  induction fuel as [|fuel IH]; intros pi ti star mark Hinv Hf; [lia|]. cbn [glob_loop].
  pose proof Hinv as (Hpi & Hti & Hstar). destruct (t !! ti) as [c|] eqn:Ec.
  2: { apply lookup_ge_None in Ec. assert (ti = length t) as -> by lia. simpl. unfold glob_open.
       rewrite (drop_ge t) by lia. rewrite <-globs_stars. split; [by left|]. intros [H|(s & k & -> & Hk & Hg)]; [done|].
       destruct (glob_segment_shift p t pi (length t) s mark k Hinv) as (j & Hj & _); [lia|done|]. lia. }
  assert (drop ti t = c :: drop (S ti) t) as Edt by by apply drop_S. pose proof (lookup_lt_Some _ _ _ Ec) as Hlt.
  assert (c ≠ STAR) as Hc by (rewrite Forall_lookup in Ht; by eapply Ht).
  destruct (bool_decide (p !! pi = Some QUESTION) || bool_decide (p !! pi = Some c)) eqn:Em.
  { (* a character *)
    assert (∃ d, p !! pi = Some d ∧ d ≠ STAR ∧ (d = QUESTION ∨ d = c)) as (d & Ed & Hd & Hdc).
    { apply orb_true_iff in Em as [H%bool_decide_eq_true|H%bool_decide_eq_true]; eexists; by split_and!; eauto. }
    pose proof (lookup_lt_Some _ _ _ Ed) as Hlp. rewrite IH.
    - unfold glob_open. rewrite Edt, (drop_S p d pi Ed). split; (intros [H|H]; [left|by right]).
      + destruct Hdc as [->| ->]; by constructor.
      + by apply globs_cons_inv in H as [_ H].
    - split_and!; [lia|lia|lia|]. destruct star as [s|]; [|done]. destruct Hstar as (H1 & H2 & H3).
      split_and!; [lia|lia|]. replace (S pi - S s)%nat with (S (pi - S s)) by lia.
      rewrite (take_S_r _ _ d); [apply Forall_app; split; [done|by apply Forall_singleton]|].
      rewrite lookup_drop. by replace (S s + (pi - S s))%nat with pi by lia.
    - unfold glob_measure in *. lia. }
  apply orb_false_iff in Em as [Hq%bool_decide_eq_false Hpc%bool_decide_eq_false].
  case_bool_decide as Hst.
  { (* a star *)
    pose proof (lookup_lt_Some _ _ _ Hst) as Hlp. rewrite IH.
    - unfold glob_open. rewrite (drop_S p STAR pi Hst), globs_star. split.
      + intros [H|(s & k & [= <-] & Hk & Hg)]; left; [exists 0%nat; split; [lia|by rewrite drop_0]|].
        exists (k - ti)%nat. rewrite length_drop, drop_drop. split; [lia|].
        by replace (ti + (k - ti))%nat with k by lia.
      + intros [H|(s & k & -> & Hk & Hg)].
        * destruct H as (k & Hk & Hg). rewrite length_drop in Hk. rewrite drop_drop in Hg.
          destruct k as [|k]; [left; by rewrite Nat.add_0_r in Hg|right].
          exists pi, (ti + S k)%nat. split_and!; [done|lia|lia|done].
        * destruct (glob_segment_shift p t pi ti s mark k Hinv Hk Hg) as (j & Hj & Hg').
          rewrite (drop_S p STAR pi Hst), globs_star in Hg'. destruct Hg' as (k' & Hk' & Hg').
          rewrite length_drop in Hk'. rewrite drop_drop in Hg'. right.
          exists pi, (j + k')%nat. split_and!; [done|lia|lia|done].
    - split_and!; [lia|lia|lia|lia|lia|]. replace (S pi - S pi)%nat with 0%nat by lia. constructor.
    - unfold glob_measure in *. nia. }
  assert (¬ globs (drop pi p) (drop ti t)) as Hno.
  { rewrite Edt. intros H. destruct (p !! pi) as [d|] eqn:Ed.
    - rewrite (drop_S p d pi Ed) in H. apply globs_cons_inv in H as [[->| ->] _]; congruence.
    - apply lookup_ge_None in Ed. rewrite drop_ge in H by done. by inversion H. }
  destruct star as [s|].
  - (* the last star takes one more *)
    destruct Hstar as (H1 & H2 & H3). rewrite IH.
    + unfold glob_open. split.
      * intros [H|(s' & k & [= <-] & Hk & Hg)]; right; [exists s, (S mark)|exists s, k]; (split_and!; [done|lia|lia|done]).
      * intros [H|(s' & k & [= <-] & Hk & Hg)]; [done|]. destruct (decide (k = S mark)) as [->|]; [by left|right].
        exists s, k. split_and!; [done|lia|lia|done].
    + split_and!; [lia|lia|lia|lia|lia|]. replace (S s - S s)%nat with 0%nat by lia. constructor.
    + unfold glob_measure in *. nia.
  - simpl. split; [done|]. intros [H|(s & k & ? & _)]; done.
Qed.

(** The loop decides what the pattern means, for a text without stars. *)
Lemma glob_spec pattern text :
  Forall (λ c, c ≠ STAR) (chars text) → glob pattern text = true ↔ globs (chars pattern) (chars text).
Proof.
  intros Ht. unfold glob. set (p := chars pattern). set (t := chars text) in *.
  pose proof (glob_loop_spec (glob_fuel p t) p t 0 0 None 0 Ht) as H.
  assert (glob_found p (glob_loop (glob_fuel p t) p t 0 0 None 0) ↔ globs p t) as <-.
  { rewrite H; [|split_and!; lia|unfold glob_measure, glob_fuel; nia]. unfold glob_open. rewrite !drop_0.
    split; [|by left]. intros [?|(s & k & ? & _)]; done. }
  destruct (glob_loop _ _ _ _ _ _ _); simpl; [apply bool_decide_eq_true|done|done].
Qed.

(** Whatever the text holds, the loop finds only what the pattern means. *)
Lemma glob_loop_sound fuel p t pi ti star mark :
  (mark ≤ ti)%nat → glob_found p (glob_loop fuel p t pi ti star mark) → glob_open p t pi ti star mark.
Proof.
  revert pi ti star mark. induction fuel as [|fuel IH]; intros pi ti star mark Hm; cbn [glob_loop]; [done|].
  destruct (t !! ti) as [c|] eqn:Ec.
  2: { simpl. intros Hs. left. apply lookup_ge_None in Ec. rewrite (drop_ge t) by done. by apply globs_stars. }
  pose proof (lookup_lt_Some _ _ _ Ec) as Hlt. pose proof (drop_S t c ti Ec) as Edt.
  destruct (bool_decide _ || bool_decide _) eqn:Em.
  { intros [H|H]%IH; [left|by right|lia]. apply orb_true_iff in Em as [Em|Em]; apply bool_decide_eq_true in Em;
      rewrite Edt, (drop_S p _ pi Em); [by constructor|].
    destruct (decide (c = STAR)) as [->|]; [by apply globs_more, globs_skip|by constructor]. }
  clear Em. case_bool_decide as Hs.
  { intros H%IH; [|lia]. left. rewrite (drop_S p STAR pi Hs). apply globs_star.
    destruct H as [H|(s & k & [= <-] & Hk & H)]; [exists 0%nat; split; [lia|by rewrite drop_0]|].
    exists (k - ti)%nat. rewrite length_drop, drop_drop. split; [lia|]. by replace (ti + (k - ti))%nat with k by lia. }
  destruct star as [s|]; [|done]. intros H%IH; [|lia]. right.
  destruct H as [H|(s' & k & [= <-] & Hk & H)]; [exists s, (S mark)|exists s, k]; (split_and!; [done|lia|lia|done]).
Qed.

Lemma glob_sound pattern text : glob pattern text = true → globs (chars pattern) (chars text).
Proof.
  unfold glob. intros H. set (p := chars pattern) in *. set (t := chars text) in *.
  assert (glob_found p (glob_loop (glob_fuel p t) p t 0 0 None 0)) as Hf.
  { destruct (glob_loop _ _ _ _ _ _ _); [by apply bool_decide_eq_true in H|done|done]. }
  apply glob_loop_sound in Hf; [|lia]. destruct Hf as [Hf|(s & k & ? & _)]; [|done]. by rewrite !drop_0 in Hf.
Qed.

Lemma chars_no_star s : chr "*" ∉ s → Forall (λ c, c ≠ STAR) (chars s).
Proof.
  intros Hs. apply Forall_forall. intros c Hc ->. apply Hs. eapply chars_bytes; [done|]. by apply list_elem_of_singleton.
Qed.

(** ** Opening is guarded *)

(** The names of a device a pattern is matched with hold no star. *)
Definition plain_names (d : SerialDevice) : Prop :=
  (chr "*" ∉ path d) ∧ ∀ b, by_id d = Some b → chr "*" ∉ b.

(** A pattern names a device: every one, the one with this USB identity, or one with such a path or
    stable name. *)
Definition names (p : str) (d : SerialDevice) : Prop :=
  p = lit "*" ∨
  p ≠ lit "*" ∧
  match usb_pattern p with
  | Some (v, i, serial) =>
      ∃ u, usb d = Some u ∧ vid u = v ∧ pid u = i ∧ (∀ s, serial = Some s → usb_serial u = Some s)
  | None => globs (chars p) (chars (path d)) ∨ ∃ b, by_id d = Some b ∧ globs (chars p) (chars b)
  end.

(** The app shares it: a pattern of its list names it, "any" only what the system lists, or the list
    is empty, for what the system lists. *)
Definition shared (policy : SerialPolicy) (d : SerialDevice) : Prop :=
  (∃ p, p ∈ devices policy ∧ names p d ∧ (bus d = UNLISTED → p ≠ lit "*")) ∨
  mode policy = Allow ∧ devices policy = [] ∧ bus d ≠ UNLISTED.

Lemma matches_spec p d : plain_names d → matches p d = true ↔ names p d.
Proof.
  intros [Hp Hb]. unfold matches, names. case_bool_decide as Hs; [by split; [left|]|].
  assert (∀ Q : Prop, (p = lit "*" ∨ p ≠ lit "*" ∧ Q) ↔ Q) as HQ by tauto. rewrite HQ.
  destruct (usb_pattern p) as [[[v i] serial]|].
  - destruct (usb d) as [u|]; [|split; [done|intros (u & ? & _); done]].
    rewrite !andb_true_iff, !Z.eqb_eq. split.
    + intros [[Hv Hi] Hser]. exists u. split_and!; [done|done|done|]. intros s ->. by apply bool_decide_eq_true in Hser.
    + intros (u' & [= <-] & Hv & Hi & Hser). split; [done|]. destruct serial; [|done]. by apply bool_decide_eq_true, Hser.
  - rewrite orb_true_iff, glob_spec by by apply chars_no_star. destruct (by_id d) as [b|].
    + rewrite glob_spec by (apply chars_no_star; by apply Hb). split; (intros [?|H]; [by left|right]); [by exists b|].
      by destruct H as (? & [= <-] & ?).
    + split; [by intros [?|?]; [left|]|]. by intros [?|(? & ? & _)]; [left|].
Qed.

(** What [decide_device] calls listed, and any. *)
Lemma listed_spec policy d :
  plain_names d →
  existsb (λ p, (negb (bool_decide (bus d = UNLISTED)) || negb (bool_decide (p = lit "*"))) && matches p d)
    (devices policy) = true ↔
  ∃ p, p ∈ devices policy ∧ names p d ∧ (bus d = UNLISTED → p ≠ lit "*").
Proof.
  intros Hd. rewrite existsb_exists. split; intros (p & Hp & H); exists p; rewrite list_elem_of_In in *.
  - apply andb_true_iff in H as [Hu Hm]. apply matches_spec in Hm; [|done]. split_and!; [done|done|].
    intros Hb. rewrite (bool_decide_true (bus d = UNLISTED)) in Hu by done. simpl in Hu.
    by apply negb_true_iff, bool_decide_eq_false in Hu.
  - destruct H as [Hn Hu]. split; [done|]. apply andb_true_iff. split; [|by apply matches_spec].
    case_bool_decide as Hb; [|done]. simpl. apply negb_true_iff, bool_decide_eq_false. by apply Hu.
Qed.

Lemma any_spec policy :
  bool_decide (devices policy = []) || existsb (λ p, bool_decide (p = lit "*")) (devices policy) = true ↔
  devices policy = [] ∨ lit "*" ∈ devices policy.
Proof.
  rewrite orb_true_iff, bool_decide_eq_true, existsb_exists. split; (intros [H|H]; [by left|right]).
  - destruct H as (p & Hp & ->%bool_decide_eq_true). by apply list_elem_of_In.
  - exists (lit "*"). split; [by apply list_elem_of_In|by apply bool_decide_eq_true].
Qed.

Lemma decide_device_Allowed policy d :
  plain_names d → decide_device policy d = Allowed ↔ mode policy ≠ Off ∧ shared policy d.
Proof.
  intros Hd. unfold decide_device, shared. cbv zeta. rewrite <-(listed_spec policy d Hd).
  pose proof (any_spec policy) as Hany. pose proof (listed_spec policy d Hd) as Hl.
  match type of Hl with ?x = true ↔ _ => set (listed := x) in * end.
  match type of Hany with ?x = true ↔ _ => set (any := x) in * end.
  destruct (mode policy).
  - split; [done|]. by intros [? _].
  - destruct listed; [by split; [intros _; split; [|left]|]|]. split; [done|]. by intros [_ [?|[? _]]].
  - destruct listed; [by split; [intros _; split; [|left]|]|]. simpl. case_bool_decide as Hb; simpl.
    + rewrite andb_false_r, andb_true_r. split; [by destruct any|]. by intros [_ [?|(_ & _ & ?)]].
    + rewrite andb_true_r, andb_false_r. destruct any.
      2: { split; [done|]. intros [_ [?|(_ & He & _)]]; [done|]. by specialize (proj2 Hany (or_introl He)). }
      split; [|done]. intros _. split; [done|]. right. split_and!; [done| |done].
      destruct (proj1 Hany eq_refl) as [|Hs]; [done|]. exfalso.
      assert (false = true); [|done]. apply Hl. exists (lit "*"). split_and!; [done|by left|done].
Qed.

Lemma decide_device_AskApp policy d :
  plain_names d → decide_device policy d = AskApp ↔ mode policy = Ask ∧ ¬ shared policy d.
Proof.
  intros Hd. pose proof (decide_device_Allowed policy d Hd) as Ha. unfold decide_device in *. cbv zeta in *.
  destruct (mode policy); [by split; [|intros [? _]]| |].
  - match goal with |- (if ?x then _ else _) = _ ↔ _ => destruct x end; (split; [|]).
    + done.
    + intros [_ Hs]. destruct Hs. by apply Ha.
    + intros _. split; [done|]. intros Hs. assert (AskApp = Allowed); [|done]. by apply Ha.
    + done.
  - split; [|by intros [? _]]. by repeat case_match.
Qed.

(** Whatever the names of a device hold, it is shared only as the patterns mean. *)
Lemma matches_sound p d : matches p d = true → names p d.
Proof.
  unfold matches, names. case_bool_decide as Hs; [by left|]. intros H. right. split; [done|].
  destruct (usb_pattern p) as [[[v i] serial]|].
  - destruct (usb d) as [u|]; [|done]. apply andb_true_iff in H as [[Hv%Z.eqb_eq Hi%Z.eqb_eq]%andb_true_iff Hser].
    exists u. split_and!; [done|done|done|]. intros s ->. by apply bool_decide_eq_true in Hser.
  - apply orb_true_iff in H as [H|H]; [left; by apply glob_sound|right].
    destruct (by_id d) as [b|]; [|done]. exists b. split; [done|by apply glob_sound].
Qed.

Lemma decide_device_sound policy d :
  match decide_device policy d with
  | Allowed => mode policy ≠ Off ∧ shared policy d
  | AskApp => mode policy = Ask
  | Denied _ => True
  end.
Proof.
  unfold decide_device, shared. cbv zeta.
  match goal with |- context [if ?x then Allowed else AskApp] => set (listed := x) end.
  match goal with |- context [listed || (?x && _)] => set (any := x) end.
  assert (listed = true → ∃ p, p ∈ devices policy ∧ names p d ∧ (bus d = UNLISTED → p ≠ lit "*")) as Hl.
  { unfold listed. rewrite existsb_exists. intros (p & Hp & [Hu Hm]%andb_true_iff). exists p.
    split_and!; [by apply list_elem_of_In|by apply matches_sound|]. intros Hb.
    rewrite (bool_decide_true (bus d = UNLISTED)) in Hu by done. simpl in Hu.
    by apply negb_true_iff, bool_decide_eq_false in Hu. }
  destruct (mode policy); [done|destruct listed; [split; [done|left; by apply Hl]|done]|].
  destruct listed eqn:El; [split; [done|left; by apply Hl]|]. simpl. case_bool_decide as Hb; simpl.
  - rewrite andb_false_r. by destruct (any && true).
  - destruct any eqn:Ea; simpl; [|done]. split; [done|].
    apply any_spec in Ea as [He|Hs]; [right; by split_and!|].
    left. exists (lit "*"). split_and!; [done|by left|done].
Qed.

(** The app's permission for a device it is to be asked about: the answer it gave before, or now. *)
Definition app_allows (ask : str → option (bool * bool)) (answers : gmap str bool) (d : SerialDevice) : Prop :=
  answers !! path d = Some true ∨
  answers !! path d = None ∧ ∃ remember, ask (lit "open the serial port " ++ describe d) = Some (true, remember).

(** An open goes ahead exactly when the app shares the port (a pattern names it by what the pattern
    means, the user's own terminals only by name) or, where it is to be asked, when it allows it; never
    when it shares none.  An answer is remembered only for the device it was given for. *)
Lemma authorize_iff policy ask answers d :
  plain_names d →
  let '(r, answers') := authorize policy ask answers d in
  (r = Ok tt ↔ mode policy ≠ Off ∧ (shared policy d ∨ mode policy = Ask ∧ app_allows ask answers d)) ∧
  (∀ p, p ≠ path d → answers' !! p = answers !! p) ∧
  (∀ b, answers !! path d = Some b → answers' !! path d = Some b).
Proof.
  intros Hd. pose proof (decide_device_Allowed policy d Hd) as Ha. pose proof (decide_device_AskApp policy d Hd) as Hk.
  unfold authorize, app_allows. destruct (decide_device policy d) as [| |reason].
  - destruct (proj1 Ha eq_refl) as [Hm Hs]. split; [|done]. split; [|done]. by auto.
  - destruct (proj1 Hk eq_refl) as [Hm Hs]. rewrite Hm. clear Ha Hk.
    destruct (answers !! path d) as [b|] eqn:E; [destruct b; naive_solver|].
    destruct (ask _) as [[allow remember]|] eqn:Eask; simpl; [|naive_solver].
    destruct allow, remember; (split; [naive_solver|]); (split; [|naive_solver]); intros p Hp; by rewrite ?lookup_insert_ne.
  - split; [|done]. split; [done|]. intros (Hm & Hs).
    assert (¬ shared policy d) as Hn by (intros ?; assert (Denied reason = Allowed); [by apply Ha|done]).
    destruct Hs as [|[Hq _]]; [done|]. assert (Denied reason = AskApp); [by apply Hk|done].
Qed.

Lemma authorize_sound policy ask answers d answers' :
  authorize policy ask answers d = (Ok tt, answers') →
  mode policy ≠ Off ∧ (shared policy d ∨ mode policy = Ask ∧ app_allows ask answers d).
Proof.
  pose proof (decide_device_sound policy d) as Hd. unfold authorize, app_allows.
  destruct (decide_device policy d) as [| |reason]; [intros _; destruct Hd; by auto| |done].
  rewrite Hd. intros H. split; [done|]. right. split; [done|]. destruct (answers !! path d) as [b|]; [by destruct b; [left|]|].
  right. split; [done|]. destruct (ask _) as [[allow remember]|]; [|done]. exists remember. by destruct allow.
Qed.

(** ** Frames *)

Lemma read_frame_of kind chunk rest :
  (length chunk ≤ MAX_FRAME)%nat → read_frame (frame_of kind chunk ++ rest) = Ok (Some (kind, chunk, rest)).
Proof.
  intros Hc. assert (Z.of_nat (length chunk) <= 65536) as Hl by (unfold MAX_FRAME in Hc; lia).
  unfold read_frame, frame_of. rewrite <-!app_assoc.
  rewrite bool_decide_false by (rewrite !length_app, length_be_bytes; simpl; lia).
  assert (slice 1 5 ([kind] ++ be_bytes 4 (u32 (Z.of_nat (length chunk))) ++ chunk ++ rest) =
    be_bytes 4 (Z.of_nat (length chunk))) as ->.
  { rewrite slice_app_r by (simpl; lia). simpl length. cbn [Nat.sub]. rewrite slice_app_l by (by rewrite length_be_bytes).
    by rewrite slice_be_bytes, u32_small by lia. }
  assert (drop 5 ([kind] ++ be_bytes 4 (u32 (Z.of_nat (length chunk))) ++ chunk ++ rest) = chunk ++ rest) as ->.
  { rewrite drop_app_ge by (simpl; lia). simpl length. cbn [Nat.sub].
    by rewrite drop_app_length' by (by rewrite length_be_bytes). }
  rewrite be_val_small by (simpl; lia). rewrite (proj2 (Z.ltb_ge _ _)) by lia. rewrite Nat2Z.id.
  rewrite bool_decide_false by (rewrite length_app; lia). by rewrite take_app_length, drop_app_length.
Qed.

(** The frames of a stream, as one reading after another gives them. *)
Fixpoint read_frames (turns : nat) (stream : list Z) : list (Z * list Z) * list Z :=
  match turns with
  | O => ([], stream)
  | S turns =>
      match read_frame stream with
      | Ok (Some (kind, payload, rest)) =>
          let '(frames, rest) := read_frames turns rest in ((kind, payload) :: frames, rest)
      | _ => ([], stream)
      end
  end.

Lemma read_frames_mjoin (frames : list (Z * list Z)) rest :
  Forall (λ f, (length f.2 ≤ MAX_FRAME)%nat) frames →
  read_frames (length frames) (mjoin ((λ f, frame_of f.1 f.2) <$> frames) ++ rest) = (frames, rest).
Proof.
  induction 1 as [|[kind payload] frames Hf _ IH]; [done|]. rewrite fmap_cons, mjoin_cons, <-app_assoc.
  cbn [length read_frames fst snd]. by rewrite read_frame_of, IH.
Qed.

Lemma chunks_of_spec fuel n l :
  (0 < n)%nat → (length l ≤ fuel)%nat →
  mjoin (chunks_of fuel n l) = l ∧ Forall (λ c, (0 < length c ≤ n)%nat) (chunks_of fuel n l).
Proof.
  intros Hn. revert l; induction fuel as [|fuel IH]; intros [|x l] Hl; simpl in Hl; try (split; [done|constructor]); [lia|].
  destruct (IH (drop n (x :: l))) as [Hj Hf]; [rewrite length_drop; simpl; lia|]. cbn [chunks_of].
  rewrite mjoin_cons, Hj, take_drop. split; [done|].
  constructor; [|done]. rewrite length_take. simpl. lia.
Qed.

(** What is sent is read back: frames of the same kind whose payloads, in order, are the payload. *)
Lemma send_frame_read kind payload rest :
  ∃ frames, read_frames (length frames) (send_frame kind payload ++ rest) = (frames, rest) ∧
    Forall (λ f, f.1 = kind) frames ∧ mjoin (snd <$> frames) = payload ∧ frames ≠ [].
Proof.
  set (chunks := match payload with [] => [[]] | _ => chunks_of (length payload) MAX_FRAME payload end).
  assert (mjoin chunks = payload ∧ Forall (λ c, (length c ≤ MAX_FRAME)%nat) chunks ∧ chunks ≠ []) as (Hj & Hc & Hne).
  { unfold chunks. destruct payload as [|x l]; [split_and!; [done| |done]; constructor; [simpl; lia|constructor]|].
    destruct (chunks_of_spec (length (x :: l)) MAX_FRAME (x :: l)) as [Hj Hf]; [unfold MAX_FRAME; lia|lia|].
    split_and!; [done| |done]. eapply Forall_impl; [done|]. simpl. lia. }
  exists (pair kind <$> chunks). rewrite <-list_fmap_compose, list_fmap_id. split_and!.
  - assert (send_frame kind payload = mjoin ((λ f, frame_of f.1 f.2) <$> (pair kind <$> chunks))) as ->.
    { unfold send_frame. fold chunks. by rewrite <-list_fmap_compose. }
    apply read_frames_mjoin, Forall_fmap. done.
  - apply Forall_fmap, Forall_true. done.
  - done.
  - by intros ?%fmap_nil_inv.
Qed.

(** ** Line settings *)

Definition line_ok (l : Line) : Prop :=
  50 <= baud l <= 16000000 ∧ 5 <= data_bits l <= 8 ∧ 1 <= stop_bits l <= 2.

Lemma line_default_ok : line_ok line_default.
Proof. unfold line_ok, line_default. simpl. lia. Qed.

Lemma within_range lo hi x n : as_u64 x ≫= within lo hi = Some n → lo <= n <= hi.
Proof.
  destruct (as_u64 x) as [m|]; [|done]. unfold within, in_range. simpl. destruct (_ && _) eqn:E; [|done].
  apply andb_true_iff in E as [?%Z.leb_le ?%Z.leb_le]. intros [= <-]. lia.
Qed.

Lemma setting_within v name lo hi why old r :
  setting v name (λ x, as_u64 x ≫= within lo hi) why old = Ok r → lo <= old <= hi → lo <= r <= hi.
Proof.
  unfold setting, ok_or. destruct (get name v) as [x|]; [|by intros [= <-]].
  destruct (as_u64 x ≫= within lo hi) as [y|] eqn:E; [|done]. intros [= <-] _. by apply within_range in E.
Qed.

Lemma from_json_ok v base l : line_ok base → from_json v base = Ok l → line_ok l.
Proof.
  intros (Hb & Hd & Hs). unfold from_json. intros H. simplify_result. unfold line_ok. simpl.
  refine (conj _ (conj _ _)); (eapply setting_within; [done|lia]).
Qed.

(** The settings told to the guest are the ones read back from them. *)
Lemma from_to_json l base : line_ok l → from_json (to_json l) base = Ok l.
Proof.
  intros (Hb & Hd & Hs). destruct l as [b d p s f]. simpl in *.
  assert (∀ lo hi n, 0 <= lo → hi < 18446744073709551616 → lo <= n <= hi → as_u64 (Number n) ≫= within lo hi = Some n) as Hw.
  { intros lo hi n H1 H2 H3. unfold as_u64. rewrite (proj2 (Z.leb_le 0 n)), (proj2 (Z.ltb_lt n _)) by lia. simpl.
    unfold within, in_range. by rewrite (proj2 (Z.leb_le lo n)), (proj2 (Z.leb_le n hi)) by lia. }
  unfold from_json, setting.
  repeat match goal with |- context [get ?k (to_json ?l)] =>
    let x := eval vm_compute in (get k (to_json l)) in change (get k (to_json l)) with x end.
  cbv beta iota. unfold ok_or. rewrite !Hw by lia. cbn [mbind result_bind].
  destruct p, f; reflexivity.
Qed.

(** A star in the text itself hides the rest of it from a star of the pattern: a device such a name
    belongs to is shared less, never more. *)
Example glob_literal_star : glob (lit "/dev/tty*") (lit "/dev/tty*0") = false.
Proof. vm_compute. reflexivity. Qed.
