(* ===== verification/SerialSession.v ===== *)
(** * A guest's session with a serial port (engine/src/serial.rs)

    From the request line to the bytes carried both ways: listing, opening with its retries, the
    guest's frames and control messages, the device's bytes, closing.  The port itself is the class
    [SerialHost]: what it answers to an operation may depend on all that was done before, and all that
    is asked of it is logged.  The device's side runs in a thread of its own: what it read and how its
    sends fall between the guest side's are part of the session's [SerialEnv].  A stream that breaks
    under a send ends either side early; the sends are modelled as going through. *)
From stdpp Require Import strings.
From S2P Require Import Prelude Str Json Serial.

Local Open Scope Z_scope.

(** ** The port *)

Record ModemLines := mk_modem { cts : bool; dsr : bool; dcd : bool; ri : bool }.
Definition modem_default : ModemLines := mk_modem false false false false.

Inductive PortOp : Type :=
  | PortOpen (p : str) (l : Line)
  | PortWrite (data : list Z)
  | PortBreak (ms : Z)
  | PortDtr (on : bool)
  | PortRts (on : bool)
  | PortConfigure (l : Line)
  | PortStatus
  | PortClose.

(** The operations so far, the next one, and its answer: what is not a status answers
    [modem_default]. *)
Class SerialHost : Type := port_do : list PortOp → PortOp → result str ModemLines.

(** Operations on a port: state passing over the log, ended by the first error. *)
Definition port (A : Type) : Type := list PortOp → result str A * list PortOp.
#[export] Instance port_ret : MRet port := λ A a ops, (Ok a, ops).
#[export] Instance port_bind : MBind port := λ A B f m ops,
  match m ops with
  | (Ok a, ops) => f a ops
  | (Err e, ops) => (Err e, ops)
  end.

Definition port_fail {A} (e : str) : port A := λ ops, (Err e, ops).
Definition lift_result {A} (r : result str A) : port A := λ ops, (r, ops).

(** ** The bridge *)

Record SerialEvent := mk_serial_event {
  op_name : str;
  device_name : str;
  was_allowed : bool;
  why : option str;
}.

Record SerialEnv := mk_serial_env {
  env_policy : SerialPolicy;
  env_ask : str → option (bool * bool);
  env_listed : list SerialDevice;
  env_canonical : str → str;
  env_reads : list (result str (list Z));
  env_turns : list bool;
  env_debug : option str → str;
}.

Record Bridge := mk_bridge {
  answers : gmap str bool;
  events : list SerialEvent;
  ops : list PortOp;
}.

Definition note_event (e : SerialEvent) (b : Bridge) : Bridge := mk_bridge (answers b) (events b ++ [e]) (ops b).
Definition set_answers (a : gmap str bool) (b : Bridge) : Bridge := mk_bridge a (events b) (ops b).
Definition set_ops (o : list PortOp) (b : Bridge) : Bridge := mk_bridge (answers b) (events b) o.

Section session.
Context {J : SerdeJson} {SH : SerialHost}.

Definition on_port (op : PortOp) : port ModemLines := λ ops, (port_do ops op, ops ++ [op]).

Definition send_line (v : Value) : list Z := to_vec v ++ [LF].

Definition MAX_REQUEST : nat := Z.to_nat (64 * 1024).

(** The bytes up to a line's end, and what follows it. *)
Fixpoint read_line_from (line stream : list Z) : result str (option (list Z) * list Z) :=
  match stream with
  | [] => Ok (match line with [] => None | _ => Some line end, [])
  | b :: stream =>
      if b =? LF then Ok (Some line, stream)
      else if bool_decide (MAX_REQUEST < length (line ++ [b]))%nat then Err (lit "the request is too long")
      else read_line_from (line ++ [b]) stream
  end.
Definition read_line (stream : list Z) : result str (option (list Z) * list Z) := read_line_from [] stream.

(** ** Control messages *)

Definition okay : Value := Object [(lit "ok", Bool true)].
Definition refusal (e : str) : Value := Object [(lit "ok", Bool false); (lit "error", String e)].

Definition when_some {A} (o : option A) (f : A → port ModemLines) : port ModemLines :=
  match o with Some a => f a | None => mret modem_default end.

(** The answer and the line settings from now on. *)
Definition control_op (debug : option str → str) (request : Value) (line : Line) : port (Value * Line) :=
  let op := get (lit "op") request ≫= as_str in
  if decide (op = Some (lit "break")) then
    let ms := Z.max 1 (Z.min 10000 (default 250 (get (lit "ms") request ≫= as_u64))) in
    _ ← on_port (PortBreak ms);
    mret (okay, line)
  else if decide (op = Some (lit "set")) then
    _ ← when_some (get (lit "dtr") request ≫= as_bool) (λ on, on_port (PortDtr on));
    _ ← when_some (get (lit "rts") request ≫= as_bool) (λ on, on_port (PortRts on));
    mret (okay, line)
  else if decide (op = Some (lit "config")) then
    new ← lift_result (from_json request line);
    _ ← on_port (PortConfigure new);
    mret (Object [(lit "ok", Bool true); (lit "line", to_json new)], new)
  else if decide (op = Some (lit "status")) then
    s ← on_port PortStatus;
    mret (Object [(lit "ok", Bool true); (lit "line", to_json line);
            (lit "modem", Object [(lit "cts", Bool (cts s)); (lit "dsr", Bool (dsr s));
                                  (lit "dcd", Bool (dcd s)); (lit "ri", Bool (ri s))])], line)
  else port_fail (lit "unknown control op " ++ debug op ++ lit " (break, set, config, status)").

Definition control (debug : option str → str) (line : Line) (payload : list Z) (ops : list PortOp)
    : Value * Line * list PortOp :=
  match from_slice payload with
  | Err _ => (refusal (lit "a control message is JSON"), line, ops)
  | Ok request =>
      match control_op debug request line ops with
      | (Ok (answer, line), ops) => (answer, line, ops)
      | (Err e, ops) => (refusal e, line, ops)
      end
  end.

Definition send_control (v : Value) : list Z := send_frame FRAME_CONTROL (to_vec v).

(** ** Carrying bytes *)

Definition asks_close (payload : list Z) : bool :=
  match from_slice payload with
  | Ok v => bool_decide (get (lit "op") v ≫= as_str = Some (lit "close"))
  | Err _ => false
  end.

(** Guest to device: what is sent back, whether the guest asked to close, and what was done.  Every
    frame takes at least five bytes of the stream. *)
Fixpoint pump_guest (turns : nat) (debug : option str → str) (stream : list Z) (line : Line) (ops : list PortOp)
    : list (list Z) * bool * list PortOp :=
  match turns with
  | O => ([], false, ops)
  | S turns =>
      match read_frame stream with
      | Ok (Some (kind, payload, stream)) =>
          if kind =? FRAME_DATA then
            match on_port (PortWrite payload) ops with
            | (Ok _, ops) => pump_guest turns debug stream line ops
            | (Err _, ops) => ([], false, ops)
            end
          else if kind =? FRAME_CONTROL then
            if asks_close payload then ([], true, ops)
            else
              let '(answer, line, ops) := control debug line payload ops in
              let '(sends, asked, ops) := pump_guest turns debug stream line ops in
              (send_control answer :: sends, asked, ops)
          else
            let '(sends, asked, ops) := pump_guest turns debug stream line ops in
            (send_control (refusal (lit "unknown frame kind " ++ decimal kind)) :: sends, asked, ops)
      | _ => ([], false, ops)
      end
  end.

(** Device to guest: what is sent, and why it ended, if the port went away. *)
Fixpoint pump_device (reads : list (result str (list Z))) : list (list Z) * option str :=
  match reads with
  | [] => ([], None)
  | Ok [] :: reads => pump_device reads
  | Ok data :: reads => let '(sends, reason) := pump_device reads in (send_frame FRAME_DATA data :: sends, reason)
  | Err e :: _ =>
      let reason := lit "the serial port went away: " ++ e in
      ([send_control (Object [(lit "event", String (lit "closed")); (lit "reason", String reason)])], Some reason)
  end.

(** The sends of both sides, whole, in the order the writer's lock was taken. *)
Fixpoint interleave {A} (turns : list bool) (l k : list A) : list A :=
  match turns, l, k with
  | true :: turns, x :: l, _ => x :: interleave turns l k
  | false :: turns, _, y :: k => y :: interleave turns l k
  | _ :: turns, _, _ => interleave turns l k
  | [], _, _ => l ++ k
  end.

(** ** A session *)

Definition contains_busy (e : str) : bool := contains (lit "busy") e.

(** A busy port is tried again, [attempts] times more. *)
Fixpoint open_port (attempts : nat) (p : str) (line : Line) (ops : list PortOp) : result str unit * list PortOp :=
  match on_port (PortOpen p line) ops with
  | (Ok _, ops) => (Ok tt, ops)
  | (Err e, ops) =>
      match attempts with
      | S attempts => if contains_busy e then open_port attempts p line ops else (Err e, ops)
      | O => (Err e, ops)
      end
  end.

Definition access_name (d : SerialDecision) : str :=
  match d with Allowed => lit "allowed" | AskApp => lit "ask" | Denied _ => lit "denied" end.
Definition mode_name (m : SerialMode) : str :=
  match m with Off => lit "off" | Ask => lit "ask" | Allow => lit "allow" end.
Definition with_access (policy : SerialPolicy) (d : SerialDevice) : Value :=
  match device_json d with
  | Object fields => Object (assoc_insert (lit "access") (String (access_name (decide_device policy d))) fields)
  | v => v
  end.

Definition list_ports (env : SerialEnv) (b : Bridge) : result str unit * list (list Z) * Bridge :=
  let policy := env_policy env in
  let b := note_event (mk_serial_event (lit "list") [] (bool_decide (mode policy ≠ Off)) None) b in
  (Ok tt,
   [send_line (Object [(lit "ok", Bool true); (lit "mode", String (mode_name (mode policy)));
                       (lit "devices", Array (with_access policy <$> env_listed env))])], b).

(** The event of an open that is refused, and its error. *)
Definition refuse_open (name reason : str) (b : Bridge) : result str unit * list (list Z) * Bridge :=
  (Err reason, [], note_event (mk_serial_event (lit "open") name false (Some reason)) b).

(** The port is open: the bytes, then closing it. *)
Definition carry (env : SerialEnv) (d : SerialDevice) (line : Line) (stream : list Z) (b : Bridge)
    : result str unit * list (list Z) * Bridge :=
  let b := note_event (mk_serial_event (lit "open") (path d) true None) b in
  let opened := send_line (Object [(lit "ok", Bool true); (lit "device", device_json d); (lit "line", to_json line)]) in
  let '(replies, asked, ops) := pump_guest (length stream) (env_debug env) stream line (ops b) in
  let '(data, reason) := pump_device (env_reads env) in
  let '(_, ops) := on_port PortClose ops in
  let b := note_event (mk_serial_event (lit "close") (path d) true reason) (set_ops ops b) in
  (Ok tt,
   [opened] ++ interleave (env_turns env) replies data ++
   (if asked : bool then [send_control (Object [(lit "ok", Bool true); (lit "closed", Bool true)])] else []), b).

Definition open_session (env : SerialEnv) (request : Value) (stream : list Z) (b : Bridge)
    : result str unit * list (list Z) * Bridge :=
  match get (lit "device") request ≫= as_str with
  | None => (Err (lit "open needs a device"), [], b)
  | Some wanted =>
      match from_json request line_default with
      | Err e => (Err e, [], b)
      | Ok line =>
          match resolve (env_listed env) (env_canonical env) wanted with
          | Err e => refuse_open wanted e b
          | Ok d =>
              let '(may, remembered) := authorize (env_policy env) (env_ask env) (answers b) d in
              let b := set_answers remembered b in
              match may with
              | Err e => refuse_open (path d) e b
              | Ok _ =>
                  let '(opened, ops) := open_port 10 (path d) line (ops b) in
                  let b := set_ops ops b in
                  match opened with
                  | Err e => refuse_open (path d) e b
                  | Ok _ => carry env d line stream b
                  end
              end
          end
      end
  end.

Definition session (env : SerialEnv) (stream : list Z) (b : Bridge) : result str unit * list (list Z) * Bridge :=
  match read_line stream with
  | Err e => (Err e, [], b)
  | Ok (None, _) => (Ok tt, [], b)
  | Ok (Some line, stream) =>
      match from_slice line with
      | Err e => (Err (lit "the request is not JSON: " ++ e), [], b)
      | Ok request =>
          let op := get (lit "op") request ≫= as_str in
          if decide (op = Some (lit "list")) then list_ports env b
          else if decide (op = Some (lit "open")) then open_session env request stream b
          else (Err (lit "unknown op " ++ env_debug env op ++ lit " (list, open)"), [], b)
      end
  end.

(** One connection of the guest: what is sent to it, and what is left. *)
Definition serve_serial (env : SerialEnv) (stream : list Z) (known : gmap str bool) : list (list Z) * Bridge :=
  let '(r, sends, b) := session env stream (mk_bridge known [] []) in
  (sends ++ match r with Ok _ => [] | Err e => [send_line (refusal e)] end, b).

End session.

(** ** What a session does to ports *)

(** Bytes, breaks of up to ten seconds, modem lines and settings within bounds: what is asked of a
    port while it is open. *)
Definition harmless (op : PortOp) : Prop :=
  match op with
  | PortOpen _ _ | PortClose => False
  | PortBreak ms => 1 <= ms <= 10000
  | PortConfigure l => line_ok l
  | _ => True
  end.

(** One port tried: every time but the last it does not open, and at most eleven times in all.  If it
    does not open the last time either then that was all; once it opened, it is used and then closed,
    and that is the last of it. *)
Definition used {SH : SerialHost} (p : str) (line : Line) (ops : list PortOp) : Prop :=
  let tried k := replicate k (PortOpen p line) in
  ∃ k, (k ≤ 10)%nat ∧ (∀ i, (i < k)%nat → ∃ e, port_do (tried i) (PortOpen p line) = Err e) ∧
    match port_do (tried k) (PortOpen p line) with
    | Err _ => ops = tried (S k)
    | Ok _ => ∃ body, Forall harmless body ∧ ops = tried (S k) ++ body ++ [PortClose]
    end.

(** An operation that extends the log with what is harmless, and keeps what its result promises. *)
Definition extends {A} (P : A → Prop) (m : port A) : Prop :=
  ∀ ops, ∃ more, (m ops).2 = ops ++ more ∧ Forall harmless more ∧
    match (m ops).1 with Ok a => P a | Err _ => True end.

Section extends.
Context {J : SerdeJson} {SH : SerialHost}.

Lemma extends_ret {A} (P : A → Prop) a : P a → extends P (mret a : port A).
Proof. intros HP ops. exists []. by rewrite app_nil_r. Qed.

Lemma extends_lift {A} (P : A → Prop) r : (∀ a, r = Ok a → P a) → extends P (lift_result r).
Proof. intros HP ops. exists []. rewrite app_nil_r. split_and!; [done|done|]. simpl. destruct r; [by apply HP|done]. Qed.

Lemma extends_fail {A} (P : A → Prop) e : extends P (port_fail e).
Proof. intros ops. exists []. by rewrite app_nil_r. Qed.

Lemma extends_on_port op : harmless op → extends (λ _, True) (on_port op).
Proof. intros Ho ops. exists [op]. split_and!; [done|by apply Forall_singleton|]. simpl. by destruct (port_do _ _). Qed.

Lemma extends_bind {A B} (P : A → Prop) (Q : B → Prop) (m : port A) (f : A → port B) :
  extends P m → (∀ a, P a → extends Q (f a)) → extends Q (m ≫= f).
Proof.
  intros Hm Hf ops. unfold mbind, port_bind. destruct (Hm ops) as (more & E & Hh & HP).
  destruct (m ops) as [[a|e] ops']; simpl in *; subst; [|by exists more].
  destruct (Hf a HP (ops ++ more)) as (more' & E' & Hh' & HQ). exists (more ++ more').
  rewrite E', app_assoc. split_and!; [done|by apply Forall_app|done].
Qed.

Lemma extends_weaken {A} (P Q : A → Prop) m : extends P m → (∀ a, P a → Q a) → extends Q m.
Proof. intros Hm HPQ ops. destruct (Hm ops) as (more & E & Hh & HP). exists more. split_and!; [done|done|]. destruct (m ops).1; auto. Qed.

Lemma extends_when {A} (o : option A) f : (∀ a, extends (λ _, True) (f a)) → extends (λ _, True) (when_some o f).
Proof. intros Hf. destruct o; [apply Hf|by apply extends_ret]. Qed.

Lemma control_op_extends debug request line :
  line_ok line → extends (λ r, line_ok r.2) (control_op debug request line).
Proof.
  intros Hl. unfold control_op. repeat case_decide.
  - eapply extends_bind; [apply extends_on_port; simpl; lia|]. intros _ _. by apply extends_ret.
  - eapply extends_bind; [by apply extends_when; intros; apply extends_on_port|]. intros _ _.
    eapply extends_bind; [by apply extends_when; intros; apply extends_on_port|]. intros _ _. by apply extends_ret.
  - eapply extends_bind; [by apply extends_lift; intros l; apply from_json_ok|]. intros l Hnew.
    eapply extends_bind; [by apply extends_on_port|]. intros _ _. by apply extends_ret.
  - eapply extends_bind; [by apply extends_on_port|]. intros s _. by apply extends_ret.
  - apply extends_fail.
Qed.

Lemma control_extends debug line payload ops :
  line_ok line → let '(_, line', ops') := control debug line payload ops in
  line_ok line' ∧ ∃ more, ops' = ops ++ more ∧ Forall harmless more.
Proof.
  intros Hl. unfold control. destruct (from_slice payload) as [request|e].
  2: { split; [done|]. exists []. by rewrite app_nil_r. }
  destruct (control_op_extends debug request line Hl ops) as (more & E & Hh & HP).
  destruct (control_op debug request line ops) as [[[answer line']|e] ops']; simpl in *; (split; [done|]); by exists more.
Qed.

Lemma pump_guest_extends turns debug stream line ops :
  line_ok line → ∃ more, (pump_guest turns debug stream line ops).2 = ops ++ more ∧ Forall harmless more.
Proof.
  revert stream line ops. induction turns as [|turns IH]; intros stream line ops Hl; cbn [pump_guest];
    [exists []; by rewrite app_nil_r|].
  assert (∃ more, ops = ops ++ more ∧ Forall harmless more) as Hnil by (exists []; by rewrite app_nil_r).
  destruct (read_frame stream) as [[[[kind payload] rest]|]|e]; [|done|done].
  destruct (kind =? FRAME_DATA).
  { destruct (extends_on_port (PortWrite payload) I ops) as (more & E & Hh & _).
    destruct (on_port (PortWrite payload) ops) as [[s|e] ops']; simpl in E; subst; [|by exists more].
    destruct (IH rest line (ops ++ more) Hl) as (more' & -> & Hh'). exists (more ++ more').
    split; [by rewrite app_assoc|by apply Forall_app]. }
  destruct (kind =? FRAME_CONTROL).
  { destruct (asks_close payload); [done|]. pose proof (control_extends debug line payload ops Hl) as Hc.
    destruct (control debug line payload ops) as [[answer line'] ops']. destruct Hc as (Hl' & more & -> & Hh).
    destruct (IH rest line' (ops ++ more) Hl') as (more' & E & Hh').
    destruct (pump_guest turns debug rest line' (ops ++ more)) as [[sends asked] ops'']. simpl in *. subst.
    exists (more ++ more'). split; [by rewrite app_assoc|by apply Forall_app]. }
  destruct (IH rest line ops Hl) as (more & E & Hh).
  destruct (pump_guest turns debug rest line ops) as [[sends asked] ops']. simpl in *. by exists more.
Qed.

Lemma open_port_ops attempts p line ops :
  let tried k := ops ++ replicate k (PortOpen p line) in
  ∃ k, (k ≤ attempts)%nat ∧ (open_port attempts p line ops).2 = tried (S k) ∧
    (∀ i, (i < k)%nat → ∃ e, port_do (tried i) (PortOpen p line) = Err e) ∧
    match (open_port attempts p line ops).1 with
    | Ok _ => ∃ m, port_do (tried k) (PortOpen p line) = Ok m
    | Err _ => ∃ e, port_do (tried k) (PortOpen p line) = Err e
    end.
Proof.
  cbv zeta. revert ops; induction attempts as [|attempts IH]; intros ops; cbn [open_port]; unfold on_port.
  - exists 0%nat. rewrite app_nil_r. destruct (port_do ops _) as [m|e] eqn:E;
      (split_and!; [lia|done|intros; lia|simpl; eauto]).
  - destruct (port_do ops _) as [m|e] eqn:E.
    { exists 0%nat. rewrite app_nil_r. split_and!; [lia|done|intros; lia|by exists m]. }
    destruct (contains_busy e).
    2:{ exists 0%nat. rewrite app_nil_r. split_and!; [lia|done|intros; lia|by exists e]. }
    destruct (IH (ops ++ [PortOpen p line])) as (k & Hk & Ho & Hf & Hr). exists (S k).
    split_and!; [lia|by rewrite Ho, <-app_assoc| |by rewrite <-app_assoc in Hr].
    intros [|i] Hi; [rewrite app_nil_r; by exists e|].
    destruct (Hf i) as [e' He']; [lia|]. exists e'. by rewrite <-app_assoc in He'.
Qed.

End extends.

Section guarded.
Context {J : SerdeJson} {SH : SerialHost}.

Lemma carry_ops env d line stream b :
  line_ok line → ∃ body, ops (carry env d line stream b).2 = ops b ++ body ++ [PortClose] ∧ Forall harmless body.
Proof.
  intros Hl. unfold carry.
  destruct (pump_guest_extends (length stream) (env_debug env) stream line (ops b) Hl) as (body & E & Hh).
  cbn [ops note_event]. destruct (pump_guest _ _ _ _ _) as [[replies asked] ops']. simpl in E. subst.
  destruct (pump_device (env_reads env)) as [data reason]. simpl. exists body. by rewrite app_assoc.
Qed.

(** The session tried the port of a device it may open. *)
Definition guarded (env : SerialEnv) (request : Value) (known : gmap str bool) (ops : list PortOp) : Prop :=
  ∃ wanted d line, get (lit "device") request = Some (String wanted) ∧
    resolve (env_listed env) (env_canonical env) wanted = Ok d ∧
    mode (env_policy env) ≠ Off ∧
    (shared (env_policy env) d ∨ mode (env_policy env) = Ask ∧ app_allows (env_ask env) known d) ∧
    line_ok line ∧ used (path d) line ops.

(** What the guest asks for: a line of JSON that says to open, at the front of its stream. *)
Definition asks_open (stream : list Z) (request : Value) : Prop :=
  ∃ line rest, (line ++ [LF] ++ rest = stream ∨ line = stream ∧ rest = []) ∧ (LF ∉ line) ∧
    from_slice line = Ok request ∧ get (lit "op") request = Some (String (lit "open")).

Lemma read_line_from_spec line stream text rest :
  read_line_from line stream = Ok (Some text, rest) →
  ∃ more, text = line ++ more ∧ (LF ∉ more) ∧ (more ++ [LF] ++ rest = stream ∨ more = stream ∧ rest = []).
Proof.
  revert line; induction stream as [|b stream IH]; intros line; cbn [read_line_from].
  - destruct line; [done|]. intros [= <- <-]. exists []. rewrite app_nil_r. split_and!; [done|by intros ?%elem_of_nil|by right].
  - destruct (Z.eqb_spec b LF) as [->|Hb].
    { intros [= <- <-]. exists []. rewrite app_nil_r. split_and!; [done|by intros ?%elem_of_nil|by left]. }
    case_bool_decide; [done|]. intros (more & -> & Hn & Hs)%IH. exists (b :: more).
    split_and!; [by rewrite <-app_assoc|intros [E|?]%elem_of_cons; [by apply Hb|done]|].
    destruct Hs as [<-|[-> ->]]; [by left|by right].
Qed.

Lemma open_session_guarded env request stream b :
  ops b = [] → let b' := (open_session env request stream b).2 in
  ops b' = [] ∨ guarded env request (answers b) (ops b').
Proof.
  intros Hb. unfold open_session. destruct (get (lit "device") request) as [v|] eqn:Eg; [|by left].
  destruct v as [| | | |wanted| |]; try by left. cbn [mbind option_bind as_str].
  destruct (from_json request line_default) as [line|e] eqn:El; [|by left].
  apply from_json_ok in El; [|apply line_default_ok].
  destruct (resolve _ _ wanted) as [d|e] eqn:Er; [|by left].
  destruct (authorize _ _ _ d) as [[[]|e] remembered] eqn:Ea; [|by left].
  apply authorize_sound in Ea as [Hm Hs]. cbn [ops set_answers].
  destruct (open_port_ops 10 (path d) line (ops b)) as (k & Hk & E & Hfail & Hlast). rewrite Hb in *. cbn [app] in *.
  destruct (open_port 10 (path d) line []) as [opened ops']. cbn [fst snd] in *. subst ops'. right.
  exists wanted, d, line. split_and!; [done..|]. exists k. split_and!; [done|done|].
  destruct opened as [[]|e]; [|by destruct Hlast as [e' ->]]. destruct Hlast as [m ->].
  match goal with |- context [carry env d line stream ?b'] =>
    destruct (carry_ops env d line stream b' El) as (body & -> & Hh) end.
  by exists body.
Qed.

(** C39: whatever the guest sends, a session asks for one port at most, and only if the guest's first line
    asks to open one: a device this request names, and one that the app shares (a pattern of its list
    means it, the user's own terminals only by name) or allows when it is asked.  The port is tried at
    most eleven times, until it opens.  If it never opens then nothing else is done to it; once it is
    open it gets bytes, modem lines, breaks of one to ten thousand milliseconds and settings within
    bounds, and is closed in the end. *)
Theorem serial_session_guarded env stream known :
  let '(_, b) := serve_serial env stream known in
  ops b = [] ∨ ∃ request, asks_open stream request ∧ guarded env request known (ops b).
Proof.
  unfold serve_serial. set (b0 := mk_bridge known [] []).
  assert (let b := (session env stream b0).2 in
    ops b = [] ∨ ∃ request, asks_open stream request ∧ guarded env request known (ops b)) as H.
  { unfold session. destruct (read_line stream) as [[[line|] rest]|e] eqn:Er; [|by left|by left].
    destruct (from_slice line) as [request|e] eqn:Ej; [|by left]. cbv zeta.
    destruct (decide (_ = Some (lit "list"))); [by left|].
    destruct (decide (get (lit "op") request ≫= as_str = Some (lit "open"))) as [Ho|]; [|by left].
    destruct (open_session_guarded env request rest b0 eq_refl) as [?|Hg]; [by left|right]. exists request.
    split; [|exact Hg]. apply read_line_from_spec in Er as (more & -> & Hn & Hs). exists more, rest.
    split_and!; [done|done|done|]. destruct (get (lit "op") request) as [[]|]; try done. by injection Ho as ->. }
  destruct (session env stream b0) as [[r sends] b]. exact H.
Qed.
End guarded.

(** ** A session run *)

Section example.

(** A reader of two requests, and a port that is busy twice. *)
Definition example_json : SerdeJson := {|
  from_slice := λ l,
    if decide (l = lit "open") then Ok (Object [(lit "op", String (lit "open")); (lit "device", String (lit "/dev/ttyUSB0"))])
    else if decide (l = lit "close") then Ok (Object [(lit "op", String (lit "close"))])
    else if decide (l = lit "fast") then Ok (Object [(lit "op", String (lit "config")); (lit "baud", Number 921600)])
    else Err (lit "expected value");
  to_vec := λ _, lit "{}" |}.
Definition example_port : SerialHost := λ ops _,
  if decide (length ops < 2)%nat then Err (lit "cannot open /dev/ttyUSB0: Device or resource busy") else Ok modem_default.
Definition example_serial_env : SerialEnv :=
  mk_serial_env (mk_serial_policy Ask [lit "/dev/ttyUSB*"]) (λ _, None)
    [mk_serial_device (lit "/dev/ttyUSB0") None (lit "usb") None None] (λ p, p) [Ok [1; 2]] [true; false] (λ _, []).

Example serial_session_run :
  let J := example_json in let SH := example_port in
  ops (serve_serial example_serial_env
    (lit "open" ++ [LF] ++ send_frame FRAME_DATA [7] ++ send_frame FRAME_CONTROL (lit "fast") ++
     send_frame FRAME_CONTROL (lit "close")) ∅).2
  = replicate 3 (PortOpen (lit "/dev/ttyUSB0") line_default) ++
    [PortWrite [7]; PortConfigure (mk_line 921600 8 ParityNone 1 FlowNone); PortClose].
Proof. vm_compute. reflexivity. Qed.

End example.
