(* ===== verification/DeviceTree.v ===== *)
(** * The flattened device tree (engine/src/devicetree.rs, machine.rs, module_info.rs)

    Serialization of a tree of nodes and properties into the blob the kernel reads at boot, and the
    tree the machine describes itself with.  The reader the result is checked against follows the
    format's specification: structure block, string block, memory reservations. *)
From stdpp Require Import strings.
From S2P Require Import Prelude Str.

Local Open Scope Z_scope.

Definition FDT_MAGIC : Z := 0xd00dfeed.
Definition FDT_BEGIN_NODE : Z := 1.
Definition FDT_END_NODE : Z := 2.
Definition FDT_PROP : Z := 3.
Definition FDT_END : Z := 9.
Definition NAME_MAX : nat := 31.

(** ** Trees *)

Inductive DtValue : Type :=
  | U32 (v : Z)
  | U64 (v : Z)
  | Str (s : str)
  | Cells (l : list Z)
  | Bytes (b : list Z)
  | Empty.

Definition encode (v : DtValue) : list Z :=
  match v with
  | U32 v => be_bytes 4 v
  | U64 v => be_bytes 8 v
  | Str s => s ++ [0]
  | Cells l => mjoin (be_bytes 4 <$> l)
  | Bytes b => b
  | Empty => []
  end.

(** Properties in insertion order, then children. *)
Inductive DtNode : Type :=
  mk_dt_node (properties : list (str * DtValue)) (children : list (str * DtNode)).

Definition properties (n : DtNode) : list (str * DtValue) := let '(mk_dt_node p _) := n in p.
Definition children (n : DtNode) : list (str * DtNode) := let '(mk_dt_node _ c) := n in c.

(** ** The writer *)

(** The bytes, and for each property name where the headers are that refer to it. *)
Record Writer := mk_writer {
  bytes : list Z;
  string_refs : list (str * list nat);
}.

Definition put (b : list Z) (w : Writer) : Writer := mk_writer (bytes w ++ b) (string_refs w).
Definition align (n : Z) (w : Writer) : Writer :=
  put (replicate (Z.to_nat ((- Z.of_nat (length (bytes w))) mod n)) 0) w.
Definition put_u32 (v : Z) (w : Writer) : Writer := put (be_bytes 4 v) w.
Definition patch_u32 (at_ : nat) (v : Z) (b : list Z) : list Z := patch at_ (be_bytes 4 v) b.

Fixpoint add_ref (name : str) (at_ : nat) (refs : list (str * list nat)) : list (str * list nat) :=
  match refs with
  | [] => [(name, [at_])]
  | (s, l) :: refs => if decide (s = name) then (s, l ++ [at_]) :: refs else (s, l) :: add_ref name at_ refs
  end.
Definition string_ref (name : str) (at_ : nat) (w : Writer) : Writer :=
  mk_writer (bytes w) (add_ref name at_ (string_refs w)).

(** One property; [None] where the assertion on its name fails. *)
Definition walk_property (p : str * DtValue) (w : Writer) : option Writer :=
  if bool_decide (NAME_MAX < length p.1)%nat then None
  else
    let w := put_u32 FDT_PROP (align 4 w) in
    let encoded := encode p.2 in
    let w := put_u32 (u32 (Z.of_nat (length encoded))) w in
    let nameoff_at := length (bytes w) in
    let w := string_ref p.1 nameoff_at (put_u32 0 w) in
    Some (align 4 (put encoded w)).

Fixpoint walk_properties (l : list (str * DtValue)) (w : Writer) : option Writer :=
  match l with
  | [] => Some w
  | p :: l => w ← walk_property p w; walk_properties l w
  end.

Fixpoint walk (node : DtNode) (name : str) (w : Writer) : option Writer :=
  let '(mk_dt_node props kids) := node in
  if bool_decide (NAME_MAX < length name)%nat then None
  else
    let w := align 4 (put (name ++ [0]) (put_u32 FDT_BEGIN_NODE (align 4 w))) in
    w ← walk_properties props w;
    w ← (fix walk_children (l : list (str * DtNode)) (w : Writer) : option Writer :=
           match l with
           | [] => Some w
           | (child_name, child) :: l => w ← walk child child_name w; walk_children l w
           end) kids w;
    Some (put_u32 FDT_END_NODE (align 4 w)).

(** The string table, and the headers that refer to it. *)
Definition patch_refs (refs : list nat) (offset : Z) (b : list Z) : list Z :=
  foldl (λ b at_, patch_u32 at_ offset b) b refs.

Fixpoint write_strings (off_dt_strings : nat) (strings : list (str * list nat)) (b : list Z) : list Z :=
  match strings with
  | [] => b
  | (name, refs) :: strings =>
      let offset := u32 (Z.of_nat (length b - off_dt_strings)) in
      write_strings off_dt_strings strings (patch_refs refs offset (b ++ name ++ [0]))
  end.

Definition write_header (fields : list Z) (b : list Z) : list Z :=
  (foldl (λ '(at_, b) v, ((at_ + 4)%nat, patch_u32 at_ v b)) (0%nat, b) fields).2.

(** [None]: a name is too long, which panics. *)
Definition generate (root : DtNode) (memory_reservations : list (Z * Z)) (boot_cpu_id : Z) : option (list Z) :=
  let w := align 8 (mk_writer (replicate 40 0) []) in
  let off_mem_rsvmap := length (bytes w) in
  let w := put (mjoin ((λ r, be_bytes 8 r.1 ++ be_bytes 8 r.2) <$> memory_reservations)) w in
  let w := put (be_bytes 8 0 ++ be_bytes 8 0) w in
  let off_dt_struct := length (bytes w) in
  w ← walk root [] w;
  let w := put_u32 FDT_END w in
  let size_dt_struct := (length (bytes w) - off_dt_struct)%nat in
  let off_dt_strings := length (bytes w) in
  let b := write_strings off_dt_strings (string_refs w) (bytes w) in
  let size_dt_strings := (length b - off_dt_strings)%nat in
  let cell n := u32 (Z.of_nat n) in
  Some (write_header
    [FDT_MAGIC; cell (length b); cell off_dt_struct; cell off_dt_strings; cell off_mem_rsvmap; 17; 16;
     boot_cpu_id; cell size_dt_strings; cell size_dt_struct] b).

(** ** Reading a blob, after the format's specification *)

(** What a reader sees of a tree: names, and properties as bytes. *)
Inductive DtTree : Type :=
  mk_tree (props : list (str * list Z)) (subtrees : list (str * DtTree)).

Fixpoint cstr (l : list Z) : option str :=
  match l with
  | [] => None
  | b :: l => if b =? 0 then Some [] else (b ::.) <$> cstr l
  end.

(** Up to the next multiple of four. *)
Definition up4 (n : nat) : nat := (n + Z.to_nat ((- Z.of_nat n) mod 4))%nat.

Definition token (l : list Z) : option (Z * list Z) :=
  if bool_decide (length l < 4)%nat then None else Some (be_val (take 4 l), drop 4 l).

Definition read_property (tbl l : list Z) : option (str * list Z * list Z) :=
  '(len, l) ← token l;
  '(nameoff, l) ← token l;
  if Z.of_nat (length l) <? len then None
  else
    name ← cstr (drop (Z.to_nat nameoff) tbl);
    Some (name, take (Z.to_nat len) l, drop (up4 (Z.to_nat len)) l).

Fixpoint read_properties (fuel : nat) (tbl l : list Z) : option (list (str * list Z) * list Z) :=
  match fuel with
  | O => None
  | S fuel =>
      '(t, rest) ← token l;
      if t =? FDT_PROP then
        '(name, value, rest) ← read_property tbl rest;
        '(props, rest) ← read_properties fuel tbl rest;
        Some ((name, value) :: props, rest)
      else Some ([], l)
  end.

(** A node after its begin token, and the nodes up to an end token. *)
Fixpoint read_node (fuel : nat) (tbl l : list Z) : option (str * DtTree * list Z) :=
  match fuel with
  | O => None
  | S fuel =>
      name ← cstr l;
      '(props, l) ← read_properties (S (length l)) tbl (drop (up4 (length name + 1)) l);
      '(subtrees, l) ← read_nodes fuel tbl l;
      Some (name, mk_tree props subtrees, l)
  end
with read_nodes (fuel : nat) (tbl l : list Z) : option (list (str * DtTree) * list Z) :=
  match fuel with
  | O => None
  | S fuel =>
      '(t, l) ← token l;
      if t =? FDT_END_NODE then Some ([], l)
      else if t =? FDT_BEGIN_NODE then
        '(name, tree, l) ← read_node fuel tbl l;
        '(subtrees, l) ← read_nodes fuel tbl l;
        Some ((name, tree) :: subtrees, l)
      else None
  end.

Fixpoint read_reservations (fuel : nat) (l : list Z) : option (list (Z * Z)) :=
  match fuel with
  | O => None
  | S fuel =>
      if bool_decide (length l < 16)%nat then None
      else
        let address := be_val (take 8 l) in
        let size := be_val (slice 8 16 l) in
        if (address =? 0) && (size =? 0) then Some []
        else ((address, size) ::.) <$> read_reservations fuel (drop 16 l)
  end.

Record Blob := mk_blob {
  blob_tree : DtTree;
  blob_reservations : list (Z * Z);
  blob_boot_cpu : Z;
}.

(** The whole blob: the header's magic, size, versions and stretches must hold. *)
Definition read_blob (b : list Z) : option Blob :=
  let cell i := be_val (slice (4 * i) (4 * i + 4) b) in
  let at_ i := Z.to_nat (cell i) in
  if negb ((cell 0%nat =? FDT_MAGIC) && (cell 1%nat =? Z.of_nat (length b)) &&
           (cell 5%nat =? 17) && (cell 6%nat =? 16) && (cell 4%nat mod 8 =? 0) && (cell 2%nat mod 4 =? 0))
  then None
  else
    let tbl := slice (at_ 3%nat) (at_ 3%nat + at_ 8%nat) b in
    let block := slice (at_ 2%nat) (at_ 2%nat + at_ 9%nat) b in
    reservations ← read_reservations (S (length b)) (drop (at_ 4%nat) b);
    '(t, l) ← token block;
    if negb (t =? FDT_BEGIN_NODE) then None
    else
      '(name, tree, l) ← read_node (S (length b)) tbl l;
      '(t, l) ← token l;
      if (t =? FDT_END) && bool_decide (name = []) && bool_decide (l = []) then
        Some (mk_blob tree reservations (cell 7%nat))
      else None.

Fixpoint tree_of (n : DtNode) : DtTree :=
  let '(mk_dt_node props kids) := n in
  mk_tree ((λ p, (p.1, encode p.2)) <$> props)
    ((fix go (l : list (str * DtNode)) : list (str * DtTree) :=
        match l with [] => [] | (name, child) :: l => (name, tree_of child) :: go l end) kids).

(** ** Induction on trees *)

Section dt_ind.
Context (P : DtNode → Prop) (H : ∀ props kids, Forall (λ c, P c.2) kids → P (mk_dt_node props kids)).

Fixpoint dt_node_ind (n : DtNode) : P n :=
  let '(mk_dt_node props kids) := n in
  H props kids
    ((fix go (l : list (str * DtNode)) : Forall (λ c, P c.2) l :=
        match l with
        | [] => Forall_nil_2 _
        | c :: l => Forall_cons_2 (λ c, P c.2) c l (dt_node_ind c.2) (go l)
        end) kids).
End dt_ind.

(** A name fits and ends where its NUL does. *)
Definition dt_name_ok (s : str) : bool := bool_decide (length s ≤ NAME_MAX)%nat && forallb (λ b, negb (b =? 0)) s.
Fixpoint dt_ok (n : DtNode) : bool :=
  let '(mk_dt_node props kids) := n in
  forallb (λ p, dt_name_ok p.1) props && forallb (λ c, dt_name_ok c.1 && dt_ok c.2) kids.

(** ** The bytes of a tree

    With the offsets of the property names given by [σ]. *)

Definition pad (l : list Z) : list Z := l ++ replicate (up4 (length l) - length l) 0.

Definition emit_property (σ : str → Z) (p : str * DtValue) : list Z :=
  be_bytes 4 FDT_PROP ++ be_bytes 4 (u32 (Z.of_nat (length (encode p.2)))) ++ be_bytes 4 (σ p.1) ++ pad (encode p.2).

Fixpoint emit_node (σ : str → Z) (n : DtNode) (name : str) : list Z :=
  let '(mk_dt_node props kids) := n in
  be_bytes 4 FDT_BEGIN_NODE ++ pad (name ++ [0]) ++ mjoin (emit_property σ <$> props) ++
  mjoin ((λ c : str * DtNode, let '(child_name, child) := c in emit_node σ child child_name) <$> kids) ++
  be_bytes 4 FDT_END_NODE.

Fixpoint names_of (n : DtNode) : list str :=
  let '(mk_dt_node props kids) := n in
  props.*1 ++ mjoin ((λ c : str * DtNode, let '(_, child) := c in names_of child) <$> kids).

Lemma up4_le n : (n ≤ up4 n)%nat.
Proof. unfold up4. lia. Qed.
Lemma up4_mod n : Z.of_nat (up4 n) mod 4 = 0.
Proof.
  unfold up4. pose proof (Z.mod_pos_bound (- Z.of_nat n) 4 ltac:(lia)).
  rewrite Nat2Z.inj_add, Z2Nat.id by lia. Z.div_mod_to_equations. lia.
Qed.
Lemma length_pad l : length (pad l) = up4 (length l).
Proof. unfold pad. rewrite length_app, length_replicate. pose proof (up4_le (length l)). lia. Qed.

Definition aligned (l : list Z) : Prop := Z.of_nat (length l) mod 4 = 0.

Lemma aligned_app l k : aligned l → aligned k → aligned (l ++ k).
Proof. unfold aligned. rewrite length_app. intros. Z.div_mod_to_equations. lia. Qed.
Lemma aligned_pad l : aligned (pad l).
Proof. unfold aligned. rewrite length_pad. apply up4_mod. Qed.
Lemma aligned_be4 v : aligned (be_bytes 4 v).
Proof. unfold aligned. by rewrite length_be_bytes. Qed.

Lemma align_aligned w : aligned (bytes w) → align 4 w = w.
Proof.
  unfold aligned, align. intros H. assert ((- Z.of_nat (length (bytes w))) mod 4 = 0) as ->.
  { Z.div_mod_to_equations. lia. }
  unfold put. rewrite app_nil_r. by destruct w.
Qed.

Lemma align_put x w : aligned (bytes w) → align 4 (put x w) = put (pad x) w.
Proof.
  unfold aligned, align, put, pad, up4. intros H. cbn [bytes string_refs]. rewrite <-app_assoc. do 4 f_equal.
  rewrite length_app. pose proof (Z.mod_pos_bound (- Z.of_nat (length x)) 4 ltac:(lia)).
  assert ((- Z.of_nat (length (bytes w) + length x)) mod 4 = (- Z.of_nat (length x)) mod 4) as ->; [|lia].
  Z.div_mod_to_equations. lia.
Qed.

(** ** Patching *)

(** Stretches of four bytes in order, within [lo] and [hi]. *)
Fixpoint gapped (lo : nat) (refs : list nat) (hi : nat) : Prop :=
  match refs with
  | [] => (lo ≤ hi)%nat
  | at_ :: refs => (lo ≤ at_)%nat ∧ gapped (at_ + 4) refs hi
  end.

Lemma gapped_app lo l mid k hi : gapped lo l mid → gapped mid k hi → gapped lo (l ++ k) hi.
Proof.
  revert lo; induction l as [|a l IH]; intros lo; simpl.
  - intros H. destruct k as [|b k]; simpl; [lia|]. intros [? ?]. by split; [lia|].
  - intros [? ?] ?. split; [done|]. by apply IH.
Qed.

Lemma gapped_bounds lo l hi : gapped lo l hi → (lo ≤ hi)%nat ∧ Forall (λ a, lo ≤ a ∧ a + 4 ≤ hi)%nat l.
Proof.
  revert lo; induction l as [|a l IH]; intros lo; simpl; [by split|]. intros [? [? HF]%IH]. split; [lia|].
  constructor; [lia|]. eapply Forall_impl; [done|]. simpl. lia.
Qed.

Lemma gapped_lookup lo l hi i j a b :
  gapped lo l hi → l !! i = Some a → l !! j = Some b → (i < j)%nat → (a + 4 ≤ b)%nat.
Proof.
  revert lo i j; induction l as [|c l IH]; intros lo [|i] [|j]; simpl; try done; try lia.
  - intros [_ [_ HF]%gapped_bounds] [= ->] Hb _. pose proof (Forall_lookup_1 _ _ _ _ HF Hb). simpl in *. lia.
  - intros [_ Hg] Ha Hb ?. apply (IH _ i j Hg Ha Hb). lia.
Qed.

Definition fill_in (patches : list (nat * Z)) (b : list Z) : list Z :=
  foldr (λ p b, patch_u32 p.1 p.2 b) b patches.

Lemma fill_in_app p q b : fill_in (p ++ q) b = fill_in p (fill_in q b).
Proof. unfold fill_in. by rewrite foldr_app. Qed.

Lemma length_patch_u32 at_ v b : (at_ + 4 ≤ length b)%nat → length (patch_u32 at_ v b) = length b.
Proof. intros. unfold patch_u32. apply length_patch. by rewrite length_be_bytes. Qed.

Lemma length_fill_in patches b :
  Forall (λ p, p.1 + 4 ≤ length b)%nat patches → length (fill_in patches b) = length b.
Proof.
  induction 1 as [|p patches Hp _ IH]; [done|]. cbn [fill_in foldr]. fold (fill_in patches b).
  rewrite length_patch_u32; [done|by rewrite IH].
Qed.

Lemma fill_app_l patches b k :
  Forall (λ p, p.1 + 4 ≤ length b)%nat patches → fill_in patches (b ++ k) = fill_in patches b ++ k.
Proof.
  induction 1 as [|p patches Hp HF IH]; [done|]. cbn [fill_in foldr]. fold (fill_in patches (b ++ k)) (fill_in patches b).
  rewrite IH. unfold patch_u32, patch. rewrite length_be_bytes.
  rewrite take_app_le, drop_app_le by (rewrite length_fill_in; [lia|done]). by rewrite <-!app_assoc.
Qed.

(** The order of patches that do not meet does not matter. *)
Lemma fill_permutation p q lo hi b :
  gapped lo p.*1 hi → (hi ≤ length b)%nat → p ≡ₚ q → fill_in p b = fill_in q b.
Proof.
  intros Hg Hb Hp.
  assert (∀ q, q ≡ₚ p → ∀ i j x y c, i ≠ j → q !! i = Some x → q !! j = Some y → length c = length b →
    patch_u32 x.1 x.2 (patch_u32 y.1 y.2 c) = patch_u32 y.1 y.2 (patch_u32 x.1 x.2 c)) as Hc.
  { intros q' Hq i j x y c Hij Hi Hj Hl.
    apply Permutation_inj in Hq as (_ & f & Hf & Hlk).
    rewrite (Hlk i) in Hi. rewrite (Hlk j) in Hj.
    assert (f i ≠ f j) as Hff by by intros ?%Hf.
    pose proof (gapped_bounds _ _ _ Hg) as [_ HF].
    assert (p.*1 !! f i = Some x.1) as H1 by (rewrite list_lookup_fmap, Hi; done).
    assert (p.*1 !! f j = Some y.1) as H2 by (rewrite list_lookup_fmap, Hj; done).
    pose proof (Forall_lookup_1 _ _ _ _ HF H1) as [_ B1]. pose proof (Forall_lookup_1 _ _ _ _ HF H2) as [_ B2].
    unfold patch_u32. destruct (decide (f i < f j)%nat).
    - apply patch_commute; rewrite length_be_bytes; [eapply gapped_lookup; eauto|lia].
    - symmetry. apply patch_commute; rewrite length_be_bytes; [eapply (gapped_lookup _ _ _ (f j) (f i)); eauto; lia|lia]. }
  assert (∀ q, q ≡ₚ p → Forall (λ r, r.1 + 4 ≤ length b)%nat q) as HF.
  { intros q' Hq. pose proof (gapped_bounds _ _ _ Hg) as [_ H]. rewrite Forall_fmap in H.
    rewrite Hq. eapply Forall_impl; [done|]. simpl. lia. }
  clear Hg. revert Hc HF. induction Hp as [|x p q Hp IH|x y p|p q r H1 IH1 H2 IH2]; intros Hc HF.
  - done.
  - cbn [fill_in foldr]. fold (fill_in p b) (fill_in q b). f_equal. apply IH.
    + intros q' Hq i j u v c Hij Hi Hj Hl. by apply (Hc (x :: q') (Permutation_cons eq_refl Hq) (S i) (S j)); [lia|..].
    + intros q' Hq. pose proof (HF (x :: q') (Permutation_cons eq_refl Hq)) as H. by inversion H.
  - cbn [fill_in foldr]. apply (Hc _ (reflexivity _) 0%nat 1%nat); [done..|].
    pose proof (HF _ (reflexivity _)) as H. inversion H as [|? ? _ H']. inversion H'. by apply length_fill_in.
  - etrans; [apply IH1; done|]. apply IH2; intros q' Hq; [apply Hc|apply HF]; by rewrite Hq, H1.
Qed.

(** ** What the walk writes *)

Definition zero_offsets : str → Z := λ _, 0.
Definition add_refs (refs : list (str * nat)) (strings : list (str * list nat)) : list (str * list nat) :=
  foldl (λ strings r, add_ref r.1 r.2 strings) strings refs.
Definition with_offsets (σ : str → Z) (refs : list (str * nat)) : list (nat * Z) := (λ r, (r.2, σ r.1)) <$> refs.

(** A step of the writer, from an aligned place to the next: it writes [e] with no offset yet, and
    refers to [names] where filling in the offsets of any string table gives [e] for that table. *)
Definition writes (names : list str) (e : (str → Z) → list Z) (w w' : Writer) : Prop :=
  aligned (bytes w) →
  aligned (bytes w') ∧ bytes w' = bytes w ++ e zero_offsets ∧
  ∃ refs, refs.*1 = names ∧ string_refs w' = add_refs refs (string_refs w) ∧
    gapped (length (bytes w)) refs.*2 (length (bytes w')) ∧
    ∀ σ before after, length before = length (bytes w) →
      fill_in (with_offsets σ refs) (before ++ e zero_offsets ++ after) = before ++ e σ ++ after.

Lemma writes_put x w : aligned x → writes [] (λ _, x) w (put x w).
Proof.
  intros Hx Hw. split_and!; [by apply aligned_app|done|]. exists []. split_and!; [done|done| |done].
  simpl. rewrite length_app. lia.
Qed.

Lemma length_filled σ names e w w' :
  writes names e w w' → aligned (bytes w) → length (e σ) = length (e zero_offsets).
Proof.
  intros Hw Ha. destruct (Hw Ha) as (_ & Hb & refs & _ & _ & Hg & Hf).
  assert (length (bytes w ++ e σ ++ []) = length (bytes w ++ e zero_offsets ++ [])) as H.
  { rewrite <-(Hf σ (bytes w) [] eq_refl). apply length_fill_in.
    apply gapped_bounds in Hg as [_ HF]. rewrite Hb in HF. unfold with_offsets. apply Forall_fmap.
    rewrite Forall_fmap in HF. eapply Forall_impl; [done|]. simpl. rewrite app_nil_r. lia. }
  rewrite !app_nil_r, !length_app in H. lia.
Qed.

Lemma writes_trans n1 n2 e1 e2 w w1 w2 :
  writes n1 e1 w w1 → writes n2 e2 w1 w2 → writes (n1 ++ n2) (λ σ, e1 σ ++ e2 σ) w w2.
Proof.
  intros H1 H2 Ha. pose proof (λ σ, length_filled σ _ _ _ _ H1 Ha) as Hl.
  destruct (H1 Ha) as (Ha1 & Hb1 & r1 & Hn1 & Hs1 & Hg1 & Hf1).
  destruct (H2 Ha1) as (Ha2 & Hb2 & r2 & Hn2 & Hs2 & Hg2 & Hf2).
  split_and!; [done|by rewrite Hb2, Hb1, <-app_assoc|]. exists (r1 ++ r2). split_and!.
  - by rewrite fmap_app, Hn1, Hn2.
  - rewrite Hs2, Hs1. unfold add_refs. by rewrite foldl_app.
  - rewrite fmap_app. by eapply gapped_app.
  - intros σ before after Hbf. unfold with_offsets in *. rewrite fmap_app, fill_in_app, <-!app_assoc.
    rewrite (app_assoc before), (Hf2 σ (before ++ e1 zero_offsets)).
    + by rewrite <-!app_assoc, Hf1.
    + rewrite Hb1, !length_app. lia.
Qed.

Lemma writes_ext names names' e e' w w' :
  writes names e w w' → names = names' → (∀ σ, e σ = e' σ) → writes names' e' w w'.
Proof.
  intros H <- He Ha. destruct (H Ha) as (? & ? & refs & ? & ? & ? & Hf). rewrite <-!He. split_and!; [done|done|].
  exists refs. split_and!; [done|done|done|]. intros σ before after. rewrite <-!He. apply Hf.
Qed.

Lemma walk_property_writes p w :
  (length p.1 ≤ NAME_MAX)%nat → aligned (bytes w) →
  ∃ w', walk_property p w = Some w' ∧ writes [p.1] (λ σ, emit_property σ p) w w'.
Proof.
  intros Hn Ha. unfold walk_property. rewrite bool_decide_false by lia. cbv zeta. eexists. split; [done|]. intros _.
  rewrite (align_aligned w Ha). set (len := u32 _).
  set (w2 := put_u32 len (put_u32 FDT_PROP w)).
  assert (bytes w2 = bytes w ++ be_bytes 4 FDT_PROP ++ be_bytes 4 len) as E2
    by (unfold w2, put_u32, put; cbn [bytes]; by rewrite app_assoc).
  assert (aligned (bytes w2)) as Ha2 by (rewrite E2; repeat apply aligned_app; auto using aligned_be4).
  set (at_ := length (bytes w2)).
  assert (bytes (string_ref p.1 at_ (put_u32 0 w2)) = bytes w2 ++ be_bytes 4 0) as E3 by done.
  rewrite align_put by (rewrite E3; apply aligned_app; [done|apply aligned_be4]).
  unfold put at 1 2 3 4. cbn [bytes string_refs]. rewrite E3.
  assert (bytes w2 ++ be_bytes 4 0 = bytes w ++ be_bytes 4 FDT_PROP ++ be_bytes 4 len ++ be_bytes 4 0) as E4
    by (rewrite E2; by rewrite <-!app_assoc).
  split_and!.
  - apply aligned_app; [apply aligned_app; [done|apply aligned_be4]|apply aligned_pad].
  - rewrite E4. unfold emit_property. by rewrite <-!app_assoc.
  - exists [(p.1, at_)]. split_and!; [done|done| |].
    + simpl. unfold at_. rewrite E2, !length_app, !length_be_bytes. lia.
    + intros σ before after Hbf. unfold emit_property. fold len. cbn [with_offsets fmap list_fmap fill_in foldr fst snd].
      unfold patch_u32. rewrite <-!app_assoc. rewrite !(app_assoc before), !(app_assoc (before ++ _)).
      apply patch_field; [|by rewrite !length_be_bytes]. unfold at_. rewrite E2, !length_app, Hbf. lia.
Qed.

Lemma walk_properties_writes l w :
  Forall (λ p, length p.1 ≤ NAME_MAX)%nat l → aligned (bytes w) →
  ∃ w', walk_properties l w = Some w' ∧ writes l.*1 (λ σ, mjoin (emit_property σ <$> l)) w w'.
Proof.
  intros Hl; revert w; induction Hl as [|p l Hp _ IH]; intros w Ha; cbn [walk_properties].
  - exists w. split; [done|]. intros _. split_and!; [done|by rewrite app_nil_r|]. exists []. by split_and!; [..|simpl; lia|].
  - destruct (walk_property_writes p w Hp Ha) as (w1 & -> & H1). destruct (H1 Ha) as (Ha1 & _).
    destruct (IH w1 Ha1) as (w2 & E2 & H2). exists w2. split; [done|].
    by eapply writes_ext; [eapply writes_trans; [exact H1|exact H2]|..].
Qed.

Fixpoint walk_children (l : list (str * DtNode)) (w : Writer) : option Writer :=
  match l with
  | [] => Some w
  | (child_name, child) :: l => w ← walk child child_name w; walk_children l w
  end.

Lemma walk_eq props kids name w :
  walk (mk_dt_node props kids) name w =
  if bool_decide (NAME_MAX < length name)%nat then None
  else
    w ← walk_properties props (align 4 (put (name ++ [0]) (put_u32 FDT_BEGIN_NODE (align 4 w))));
    w ← walk_children kids w;
    Some (put_u32 FDT_END_NODE (align 4 w)).
Proof. reflexivity. Qed.

Definition emit_child (σ : str → Z) (c : str * DtNode) : list Z := let '(name, child) := c in emit_node σ child name.

Lemma emit_eq σ props kids name :
  emit_node σ (mk_dt_node props kids) name =
  be_bytes 4 FDT_BEGIN_NODE ++ pad (name ++ [0]) ++ mjoin (emit_property σ <$> props) ++
  mjoin (emit_child σ <$> kids) ++ be_bytes 4 FDT_END_NODE.
Proof. reflexivity. Qed.

Definition child_names (c : str * DtNode) : list str := let '(_, child) := c in names_of child.

Lemma names_of_eq props kids : names_of (mk_dt_node props kids) = props.*1 ++ mjoin (child_names <$> kids).
Proof. reflexivity. Qed.

Lemma name_ok_length s : dt_name_ok s = true → (length s ≤ NAME_MAX)%nat.
Proof. unfold dt_name_ok. intros [H _]%andb_true_iff. by apply bool_decide_eq_true in H. Qed.

Lemma walk_writes n : dt_ok n = true → ∀ name w, (length name ≤ NAME_MAX)%nat → aligned (bytes w) →
  ∃ w', walk n name w = Some w' ∧ writes (names_of n) (λ σ, emit_node σ n name) w w'.
Proof.
  induction n as [props kids IH] using dt_node_ind. cbn [dt_ok]. intros [Hp Hk]%andb_true_iff name w Hn Ha.
  assert (∀ w, aligned (bytes w) → ∃ w', walk_children kids w = Some w' ∧
    writes (mjoin (child_names <$> kids)) (λ σ, mjoin (emit_child σ <$> kids)) w w') as Hkids.
  { clear Ha w. induction IH as [|[child_name child] kids Hc _ IHk]; intros w Ha; cbn [walk_children].
    - exists w. split; [done|]. intros _. split_and!; [done|by rewrite app_nil_r|]. exists []. by split_and!; [..|simpl; lia|].
    - cbn [forallb fst snd] in Hk. apply andb_true_iff in Hk as [[Hcn Hct]%andb_true_iff Hk].
      destruct (Hc Hct child_name w) as (w1 & E1 & H1); [by apply name_ok_length|done|]. cbn [snd] in E1. rewrite E1.
      destruct (H1 Ha) as (Ha1 & _). destruct (IHk Hk w1 Ha1) as (w2 & E2 & H2). exists w2. split; [done|].
      by eapply writes_ext; [eapply writes_trans; [exact H1|exact H2]|..]. }
  rewrite walk_eq, bool_decide_false by lia. rewrite (align_aligned w Ha).
  set (w0 := put_u32 FDT_BEGIN_NODE w).
  assert (aligned (bytes w0)) as Ha0 by (apply aligned_app; [done|apply aligned_be4]).
  rewrite align_put by done. set (w1 := put (pad (name ++ [0])) w0).
  assert (aligned (bytes w1)) as Ha1 by (apply aligned_app; [done|apply aligned_pad]).
  destruct (walk_properties_writes props w1) as (w2 & E2 & H2); [|done|].
  { rewrite Forall_forall. intros p Hin%list_elem_of_In. rewrite forallb_forall in Hp. by apply name_ok_length, Hp. }
  destruct (H2 Ha1) as (Ha2 & _). destruct (Hkids w2 Ha2) as (w3 & E3 & H3). destruct (H3 Ha2) as (Ha3 & _).
  rewrite E2. cbn [mbind option_bind]. rewrite E3. cbn [mbind option_bind]. rewrite (align_aligned w3 Ha3).
  exists (put_u32 FDT_END_NODE w3). split; [done|]. rewrite names_of_eq.
  eapply writes_ext.
  - eapply writes_trans; [apply writes_put, (aligned_be4 FDT_BEGIN_NODE)|].
    eapply writes_trans; [apply writes_put, (aligned_pad (name ++ [0]))|].
    eapply writes_trans; [exact H2|]. eapply writes_trans; [exact H3|]. apply writes_put, (aligned_be4 FDT_END_NODE).
  - by rewrite app_nil_r.
  - intros σ. by rewrite emit_eq.
Qed.

(** ** The string table *)

Definition table (strings : list (str * list nat)) : list Z := mjoin ((λ s, s.1 ++ [0]) <$> strings).

Fixpoint offset_in (name : str) (strings : list (str * list nat)) (at_ : nat) : Z :=
  match strings with
  | [] => 0
  | (s, _) :: strings => if decide (s = name) then u32 (Z.of_nat at_) else offset_in name strings (at_ + length s + 1)
  end.

(** All references, as (name, place). *)
Definition flatten (strings : list (str * list nat)) : list (str * nat) :=
  mjoin ((λ s, pair s.1 <$> s.2) <$> strings).

Lemma flatten_add_ref name at_ strings : flatten (add_ref name at_ strings) ≡ₚ (name, at_) :: flatten strings.
Proof.
  unfold flatten. induction strings as [|[s l] strings IH]; [done|]. cbn [add_ref]. case_decide as Hs.
  - subst. rewrite !fmap_cons. cbn [mjoin list_join fst snd]. rewrite fmap_app. simpl.
    rewrite <-app_assoc. simpl. by rewrite <-Permutation_middle.
  - rewrite !fmap_cons. cbn [mjoin list_join fst snd]. change (list_join ?x) with (mjoin x). rewrite IH.
    by rewrite <-Permutation_middle.
Qed.

Lemma flatten_add_refs refs strings : flatten (add_refs refs strings) ≡ₚ refs ++ flatten strings.
Proof.
  unfold add_refs. revert strings; induction refs as [|[n a] refs IH]; intros strings; [done|]. simpl.
  rewrite IH, flatten_add_ref. by rewrite Permutation_middle.
Qed.

Lemma add_ref_names name at_ strings s : s ∈ (add_ref name at_ strings).*1 ↔ s = name ∨ s ∈ strings.*1.
Proof.
  induction strings as [|[s' l] strings IH]; cbn [add_ref].
  - simpl. rewrite list_elem_of_singleton, elem_of_nil. tauto.
  - case_decide as Hs; rewrite !fmap_cons, !elem_of_cons; [simpl; subst; tauto|]. rewrite IH. simpl. tauto.
Qed.

Lemma add_refs_NoDup refs strings : NoDup strings.*1 → NoDup (add_refs refs strings).*1.
Proof.
  unfold add_refs. revert strings; induction refs as [|[n a] refs IH]; intros strings Hs; [done|]. simpl. apply IH.
  clear IH. induction strings as [|[s l] strings IHs]; cbn [add_ref]; [by apply NoDup_singleton|].
  rewrite fmap_cons in Hs. apply NoDup_cons in Hs as [Hin Hs].
  case_decide as Hn; rewrite fmap_cons; apply NoDup_cons; [done|]. split; [|by apply IHs].
  rewrite add_ref_names. intros [?|?]; done.
Qed.

Lemma add_refs_names refs strings s : s ∈ (add_refs refs strings).*1 ↔ s ∈ refs.*1 ∨ s ∈ strings.*1.
Proof.
  unfold add_refs. revert strings; induction refs as [|[n a] refs IH]; intros strings; simpl; [rewrite elem_of_nil; tauto|].
  rewrite IH, add_ref_names, elem_of_cons. tauto.
Qed.

Lemma patch_refs_fill refs offset b : patch_refs refs offset b = fill_in ((λ a, (a, offset)) <$> reverse refs) b.
Proof.
  revert b; induction refs as [|a refs IH]; intros b; [done|].
  rewrite reverse_cons, fmap_app, fill_in_app. by rewrite <-IH.
Qed.

(** The references patched in, for a table that starts at [at_]. *)
Lemma write_strings_spec off strings body tbl :
  length body = off → Forall (λ r, r.2 + 4 ≤ off)%nat (flatten strings) → NoDup strings.*1 →
  ∃ patches, patches ≡ₚ with_offsets (λ name, offset_in name strings (length tbl)) (flatten strings) ∧
    write_strings off strings (body ++ tbl) = fill_in patches body ++ tbl ++ table strings.
Proof.
  revert body tbl. induction strings as [|[name refs] strings IH]; intros body tbl Hb Hr Hd; cbn [write_strings].
  - exists []. split; [done|]. by rewrite app_nil_r.
  - rewrite fmap_cons in Hd. apply NoDup_cons in Hd as [Hn Hd].
    assert (flatten ((name, refs) :: strings) = (pair name <$> refs) ++ flatten strings) as Ef by done.
    rewrite Ef in Hr. apply Forall_app in Hr as [Hr1 Hr2]. rewrite Forall_fmap in Hr1.
    set (offset := u32 _). set (here := (λ a, (a, offset)) <$> reverse refs).
    assert (Forall (λ p : nat * Z, p.1 + 4 ≤ length body)%nat here) as Hh.
    { unfold here. rewrite Forall_fmap, Forall_reverse, Hb. exact Hr1. }
    assert (patch_refs refs offset ((body ++ tbl) ++ name ++ [0]) = fill_in here body ++ (tbl ++ name ++ [0])) as ->.
    { rewrite patch_refs_fill, <-app_assoc. fold here. by rewrite (fill_app_l here). }
    destruct (IH (fill_in here body) (tbl ++ name ++ [0])) as (patches & Hp & ->); [by rewrite length_fill_in|done|done|].
    exists (patches ++ here). split; [|].
    + rewrite Hp, Ef. unfold with_offsets. rewrite fmap_app, Permutation_app_comm. f_equiv.
      * unfold here. rewrite reverse_Permutation, <-list_fmap_compose. apply reflexive_eq.
        apply list_fmap_ext. intros i a _. simpl. rewrite decide_True by done. unfold offset. do 3 f_equal.
        rewrite length_app. lia.
      * apply reflexive_eq. apply list_fmap_ext. intros i [s a] Hi. simpl. f_equal.
        rewrite decide_False; [f_equal; rewrite !length_app; simpl; lia|].
        intros ->. apply Hn. apply list_elem_of_lookup_2 in Hi. unfold flatten in Hi.
        apply list_elem_of_join in Hi as (l & Ha & (q & -> & Hq)%list_elem_of_fmap).
        apply list_elem_of_fmap in Ha as (x & [= -> ->] & _). apply list_elem_of_fmap. by exists q.
    + rewrite fill_in_app. f_equal. unfold table. rewrite fmap_cons. cbn [mjoin list_join fst]. by rewrite <-!app_assoc.
Qed.

Definition no_nul (s : str) : Prop := Forall (λ b, b ≠ 0) s.

Lemma name_ok_no_nul s : dt_name_ok s = true → no_nul s.
Proof.
  unfold dt_name_ok, no_nul. intros [_ H]%andb_true_iff. rewrite forallb_forall in H.
  apply Forall_forall. intros b Hb%list_elem_of_In. by apply H, negb_true_iff, Z.eqb_neq in Hb.
Qed.

Lemma cstr_app s rest : no_nul s → cstr (s ++ 0 :: rest) = Some s.
Proof. induction 1 as [|b s Hb _ IH]; [done|]. simpl. rewrite (proj2 (Z.eqb_neq b 0) Hb). by rewrite IH. Qed.

Lemma offset_in_reads name strings tbl :
  name ∈ strings.*1 → no_nul name → Z.of_nat (length (tbl ++ table strings)) < 4294967296 →
  0 <= offset_in name strings (length tbl) < 4294967296 ∧
  cstr (drop (Z.to_nat (offset_in name strings (length tbl))) (tbl ++ table strings)) = Some name.
Proof.
  intros Hin Hn. revert tbl. induction strings as [|[s l] strings IH]; intros tbl Hl; [by apply elem_of_nil in Hin|].
  rewrite fmap_cons in Hin. apply elem_of_cons in Hin. cbn [offset_in].
  assert (table ((s, l) :: strings) = s ++ 0 :: table strings) as Et
    by (unfold table; rewrite fmap_cons; cbn [mjoin list_join fst]; by rewrite <-app_assoc).
  rewrite Et in *. case_decide as Hs.
  - subst s. rewrite u32_small by (rewrite !length_app in Hl; lia). split; [rewrite !length_app in Hl; lia|].
    rewrite Nat2Z.id, drop_app_length. by apply cstr_app.
  - destruct Hin as [?|Hin]; [by subst|]. specialize (IH Hin (tbl ++ s ++ [0])).
    assert (tbl ++ s ++ 0 :: table strings = (tbl ++ s ++ [0]) ++ table strings) as Eq by (by rewrite <-!app_assoc).
    rewrite Eq in *. replace (length tbl + length s + 1)%nat with (length (tbl ++ s ++ [0])); [by apply IH|].
    rewrite !length_app. simpl. lia.
Qed.

(** ** Reading what the walk wrote *)

Lemma token_be4 v rest : 0 <= v < 4294967296 → token (be_bytes 4 v ++ rest) = Some (v, rest).
Proof.
  intros Hv. unfold token. rewrite bool_decide_false by (rewrite length_app, length_be_bytes; lia).
  rewrite take_app_length', drop_app_length' by (by rewrite length_be_bytes). by rewrite be_val_small by (simpl; lia).
Qed.

Lemma drop_pad l rest : drop (up4 (length l)) (pad l ++ rest) = rest.
Proof. by rewrite drop_app_length' by (by rewrite length_pad). Qed.

Lemma take_pad l rest : take (length l) (pad l ++ rest) = l.
Proof. unfold pad. rewrite <-app_assoc. apply take_app_length. Qed.

Section reading.
Context (σ : str → Z) (tbl : list Z).

(** The table gives back this name at its offset. *)
Definition reads_name (name : str) : Prop :=
  0 <= σ name < 4294967296 ∧ cstr (drop (Z.to_nat (σ name)) tbl) = Some name.

Lemma read_emit_property p rest :
  reads_name p.1 → Z.of_nat (length (emit_property σ p)) < 4294967296 →
  ∃ after, emit_property σ p ++ rest = be_bytes 4 FDT_PROP ++ after ∧
    read_property tbl after = Some (p.1, encode p.2, rest).
Proof.
  intros [Hσ Hc] Hl. unfold emit_property in *. set (e := encode p.2) in *.
  assert (Z.of_nat (length e) < 4294967296) as He.
  { rewrite !length_app, length_pad, !length_be_bytes in Hl. pose proof (up4_le (length e)). lia. }
  eexists. rewrite <-!app_assoc. split; [done|]. unfold read_property.
  rewrite u32_small by lia. rewrite token_be4 by lia. cbn [mbind option_bind].
  rewrite token_be4 by lia. cbn [mbind option_bind]. rewrite Nat2Z.id.
  rewrite (proj2 (Z.ltb_ge _ _)) by (rewrite length_app, length_pad; pose proof (up4_le (length e)); lia).
  rewrite Hc. cbn [mbind option_bind]. by rewrite take_pad, drop_pad.
Qed.

Lemma read_emit_properties l fuel v rest :
  Forall (λ p, reads_name p.1) l → Z.of_nat (length (mjoin (emit_property σ <$> l))) < 4294967296 →
  (length l < fuel)%nat → 0 <= v < 4294967296 → v ≠ FDT_PROP →
  read_properties fuel tbl (mjoin (emit_property σ <$> l) ++ be_bytes 4 v ++ rest) =
    Some ((λ p, (p.1, encode p.2)) <$> l, be_bytes 4 v ++ rest).
Proof.
  intros Hl. revert fuel. induction Hl as [|p l Hp _ IH]; intros fuel Hlen Hf Hv Hne; (destruct fuel as [|fuel]; [simpl in Hf; lia|]).
  - cbn [fmap list_fmap mjoin list_join app read_properties]. rewrite token_be4 by lia. cbn [mbind option_bind].
    by rewrite (proj2 (Z.eqb_neq _ _)).
  - rewrite fmap_cons, mjoin_cons in *. rewrite length_app in Hlen.
    rewrite <-app_assoc. edestruct (read_emit_property p) as (after & -> & Hr); [done|lia|].
    cbn [read_properties]. rewrite token_be4 by (unfold FDT_PROP; lia). cbn [mbind option_bind].
    rewrite Z.eqb_refl, Hr. cbn [mbind option_bind]. rewrite IH; [done|lia|simpl in Hf; lia|done|done].
Qed.

Lemma length_emit_properties l : (length l ≤ length (mjoin (emit_property σ <$> l)))%nat.
Proof.
  induction l as [|p l IH]; [simpl; lia|]. rewrite fmap_cons, mjoin_cons, length_app. unfold emit_property at 1.
  rewrite length_app, length_be_bytes. simpl. lia.
Qed.

Fixpoint depth (n : DtNode) : nat :=
  let '(mk_dt_node _ kids) := n in S (S (sum_list ((λ c : str * DtNode, let '(_, child) := c in depth child) <$> kids))).
Definition child_depth (c : str * DtNode) : nat := let '(_, child) := c in depth child.

Definition child_tree (c : str * DtNode) : str * DtTree := let '(name, child) := c in (name, tree_of child).
Lemma tree_of_eq props kids :
  tree_of (mk_dt_node props kids) = mk_tree ((λ p, (p.1, encode p.2)) <$> props) (child_tree <$> kids).
Proof.
  cbn [tree_of]. f_equal. induction kids as [|[name child] kids IH]; [done|]. rewrite IH. done.
Qed.

(** A node written is a begin token, and what the reader of a node makes of the rest. *)
Lemma read_emit n : dt_ok n = true → ∀ name fuel rest,
  no_nul name → Forall reads_name (names_of n) → Z.of_nat (length (emit_node σ n name)) < 4294967296 →
  (depth n ≤ fuel)%nat →
  ∃ after, emit_node σ n name ++ rest = be_bytes 4 FDT_BEGIN_NODE ++ after ∧
    read_node fuel tbl after = Some (name, tree_of n, rest).
Proof.
  induction n as [props kids IH] using dt_node_ind. cbn [dt_ok]. intros [_ Hk]%andb_true_iff name fuel rest Hn Hr Hl Hf.
  rewrite names_of_eq in Hr. apply Forall_app in Hr as [Hrp Hrk]. rewrite Forall_fmap in Hrp.
  rewrite emit_eq in *. rewrite !length_app in Hl. eexists. rewrite <-!app_assoc. split; [done|].
  change (depth (mk_dt_node props kids)) with (S (S (sum_list (child_depth <$> kids)))) in Hf.
  destruct fuel as [|fuel]; [lia|]. cbn [read_node].
  assert (∃ v after, mjoin (emit_child σ <$> kids) ++ be_bytes 4 FDT_END_NODE ++ rest = be_bytes 4 v ++ after ∧
    0 <= v < 4294967296 ∧ v ≠ FDT_PROP ∧
    read_nodes fuel tbl (be_bytes 4 v ++ after) = Some (child_tree <$> kids, rest)) as (v & after & E & Hv & Hvp & Hnodes).
  { assert (Z.of_nat (length (mjoin (emit_child σ <$> kids))) < 4294967296) as Hlk by lia.
    assert (sum_list (child_depth <$> kids) < fuel)%nat as Hfk by lia. clear Hl Hf.
    revert fuel Hfk. induction IH as [|[child_name child] kids Hc _ IHk]; intros fuel Hfk;
      (destruct fuel as [|fuel]; [simpl in Hfk; lia|]).
    - exists FDT_END_NODE, rest. split; [done|]. split; [unfold FDT_END_NODE; lia|]. split; [done|].
      cbn [read_nodes]. rewrite token_be4 by (unfold FDT_END_NODE; lia). done.
    - cbn [forallb fst snd] in Hk. apply andb_true_iff in Hk as [[Hcn Hct]%andb_true_iff Hk].
      rewrite fmap_cons, mjoin_cons in *. cbn [emit_child child_names] in *. apply Forall_app in Hrk as [Hrc Hrk]. rewrite length_app in Hlk.
      assert (depth child + sum_list (child_depth <$> kids) < S fuel)%nat as Hfk' by exact Hfk. clear Hfk.
      rewrite <-app_assoc. cbn [snd] in Hc.
      destruct (Hc Hct child_name fuel (mjoin (emit_child σ <$> kids) ++ be_bytes 4 FDT_END_NODE ++ rest))
        as (after & -> & Hread); [by apply name_ok_no_nul|done|lia|lia|].
      exists FDT_BEGIN_NODE, after. split; [done|]. split; [unfold FDT_BEGIN_NODE; lia|]. split; [done|].
      cbn [read_nodes]. rewrite token_be4 by (unfold FDT_BEGIN_NODE; lia). cbn [mbind option_bind].
      change (FDT_BEGIN_NODE =? FDT_END_NODE) with false. rewrite Z.eqb_refl. rewrite Hread. cbn [mbind option_bind].
      destruct (IHk Hk Hrk ltac:(lia) fuel) as (v & after' & -> & _ & _ & ->); [|done].
      destruct child as [ps ks]. change (depth (mk_dt_node ps ks)) with (S (S (sum_list (child_depth <$> ks)))) in Hfk'. lia. }
  assert (cstr (pad (name ++ [0]) ++ mjoin (emit_property σ <$> props) ++
    mjoin (emit_child σ <$> kids) ++ be_bytes 4 FDT_END_NODE ++ rest) = Some name) as ->.
  { unfold pad. rewrite <-!app_assoc. by apply cstr_app. }
  cbn [mbind option_bind]. rewrite E. replace (length name + 1)%nat with (length (name ++ [0])) by (rewrite length_app; done).
  rewrite drop_pad. rewrite read_emit_properties; [|done|lia| |done|done].
  - cbn [mbind option_bind]. rewrite Hnodes. cbn [mbind option_bind]. by rewrite tree_of_eq.
  - rewrite !length_app. pose proof (length_emit_properties props). lia.
Qed.
End reading.

(** ** The whole blob *)

Definition reservation_bytes (l : list (Z * Z)) : list Z :=
  mjoin ((λ r, be_bytes 8 r.1 ++ be_bytes 8 r.2) <$> l) ++ be_bytes 8 0 ++ be_bytes 8 0.

Lemma length_reservations l : length (reservation_bytes l) = (16 * length l + 16)%nat.
Proof.
  unfold reservation_bytes. rewrite !length_app, !length_be_bytes.
  induction l as [|r l IH]; [done|]. rewrite fmap_cons, mjoin_cons; cbv beta; rewrite !length_app, !length_be_bytes. cbn [length]. lia.
Qed.

Lemma write_header_from fields before old after :
  length old = (4 * length fields)%nat →
  (foldl (λ '(at_, b) v, ((at_ + 4)%nat, patch_u32 at_ v b)) (length before, before ++ old ++ after) fields).2 =
    before ++ mjoin (be_bytes 4 <$> fields) ++ after.
Proof.
  revert before old. induction fields as [|v fields IH]; intros before old Hl.
  - apply nil_length_inv in Hl as ->. done.
  - rewrite fmap_cons, mjoin_cons. cbn [foldl]. unfold patch_u32 at 2.
    rewrite <-(take_drop 4 old), <-app_assoc, patch_field;
      [|done|rewrite length_take, length_be_bytes; simpl in Hl; lia].
    rewrite (app_assoc before). replace (length before + 4)%nat with (length (before ++ be_bytes 4 v))
      by (by rewrite length_app, length_be_bytes).
    rewrite IH by (rewrite length_drop; simpl in Hl; lia). by rewrite <-!app_assoc.
Qed.

(** What the blob is made of: the stretches in order, with the offsets of the table filled in. *)
Lemma generate_spec root res cpu :
  dt_ok root = true →
  ∃ strings fields, let σ := λ name, offset_in name strings 0 in
    let cell n := u32 (Z.of_nat n) in
    let body := reservation_bytes res ++ emit_node σ root [] ++ be_bytes 4 FDT_END ++ table strings in
    (∀ name, name ∈ names_of root → name ∈ strings.*1) ∧
    generate root res cpu = Some (mjoin (be_bytes 4 <$> fields) ++ body) ∧
    fields = [FDT_MAGIC; cell (40 + length body)%nat; cell (40 + length (reservation_bytes res))%nat;
       cell (40 + length (reservation_bytes res) + length (emit_node σ root []) + 4)%nat; 40; 17; 16; cpu;
       cell (length (table strings)); cell (length (emit_node σ root []) + 4)%nat].
Proof.
  intros Hok. unfold generate.
  set (w0 := put (be_bytes 8 0 ++ be_bytes 8 0) _).
  assert (bytes w0 = replicate 40 0 ++ reservation_bytes res) as E0.
  { unfold w0, put, reservation_bytes. cbn [bytes align put]. by rewrite <-!app_assoc. }
  assert (string_refs w0 = []) as S0 by done.
  assert (aligned (bytes w0)) as Ha0.
  { unfold aligned. rewrite E0, length_app, length_reservations, length_replicate. Z.div_mod_to_equations. lia. }
  change (length (bytes (align 8 (mk_writer (replicate 40 0) [])))) with 40%nat. cbv zeta.
  destruct (walk_writes root Hok [] w0) as (w1 & -> & Hw); [unfold NAME_MAX; simpl; lia|done|].
  cbn [mbind option_bind]. pose proof (λ σ, length_filled σ _ _ _ _ Hw Ha0) as Hlen.
  destruct (Hw Ha0) as (Ha1 & Hb1 & refs & Hn & Hs & Hg & Hf). rewrite S0 in Hs.
  set (strings := add_refs refs []) in *. set (σ := λ name, offset_in name strings 0).
  unfold put_u32. cbn [bytes string_refs put]. rewrite Hs.
  set (body := bytes w1 ++ be_bytes 4 FDT_END).
  assert (length body = (40 + length (reservation_bytes res) + length (emit_node σ root []) + 4)%nat) as Hbody.
  { unfold body. rewrite Hb1, E0, !length_app, length_replicate, length_be_bytes, (Hlen σ). lia. }
  assert (Forall (λ r : str * nat, r.2 + 4 ≤ length body)%nat refs) as Hrefs.
  { apply gapped_bounds in Hg as [_ HF]. rewrite Forall_fmap in HF. eapply Forall_impl; [done|].
    intros r Hr. simpl in Hr. unfold body. rewrite length_app. lia. }
  destruct (write_strings_spec (length body) strings body []) as (patches & Hp & Hws); [done| | |].
  { unfold strings. rewrite flatten_add_refs. cbn [flatten fmap list_fmap mjoin list_join]. by rewrite app_nil_r. }
  { apply add_refs_NoDup. constructor. }
  rewrite app_nil_r in Hws. cbn [length app] in Hws.
  assert (fill_in patches body = replicate 40 0 ++ reservation_bytes res ++ emit_node σ root [] ++ be_bytes 4 FDT_END) as Hfill.
  { rewrite <-(fill_permutation (with_offsets σ refs) patches (length (bytes w0)) (length (bytes w1)) body).
    - unfold body. rewrite Hb1, <-app_assoc, (Hf σ (bytes w0)) by done. by rewrite E0, <-app_assoc.
    - unfold with_offsets. rewrite <-list_fmap_compose. exact Hg.
    - unfold body. rewrite length_app. lia.
    - rewrite Hp. unfold with_offsets, strings. apply fmap_Permutation. rewrite flatten_add_refs.
      cbn [flatten fmap list_fmap mjoin list_join]. by rewrite app_nil_r. }
  rewrite Hfill in Hws. rewrite Hws.
  exists strings. eexists. cbv zeta. split_and!; [|f_equal|reflexivity].
  { intros name Hname. rewrite <-Hn in Hname. apply add_refs_names. by left. }
  rewrite <-!app_assoc. unfold write_header.
  etrans; [apply (write_header_from _ [] (replicate 40 0)); reflexivity|]. cbn [app]. f_equal. f_equal. f_equal.
  rewrite Hbody, E0, !length_app, !length_replicate, !length_be_bytes.
  fold σ. repeat match goal with |- _ :: _ = _ :: _ => apply (f_equal2 cons) end; try reflexivity; f_equal; lia.
Qed.

Lemma read_cell fields i v rest :
  fields !! i = Some v → 0 <= v < 4294967296 →
  be_val (slice (4 * i) (4 * i + 4) (mjoin (be_bytes 4 <$> fields) ++ rest)) = v.
Proof.
  revert i; induction fields as [|f fields IH]; intros [|i] Hi Hv; simpl in Hi; try done.
  - injection Hi as ->. rewrite fmap_cons, mjoin_cons, <-app_assoc.
    rewrite slice_app_l by (rewrite length_be_bytes; lia). change (4 * 0)%nat with 0%nat. cbn [Nat.add].
    by rewrite slice_be_bytes, be_val_small by (simpl; lia).
  - rewrite fmap_cons, mjoin_cons, <-app_assoc. rewrite slice_app_r by (rewrite length_be_bytes; lia).
    rewrite length_be_bytes. replace (4 * S i - 4)%nat with (4 * i)%nat by lia.
    replace (4 * S i + 4 - 4)%nat with (4 * i + 4)%nat by lia. by apply IH.
Qed.

Definition reservation_ok (r : Z * Z) : Prop :=
  0 <= r.1 < 18446744073709551616 ∧ 0 <= r.2 < 18446744073709551616 ∧ r ≠ (0, 0).

Lemma read_reservations_written l fuel rest :
  Forall reservation_ok l → (length l < fuel)%nat → read_reservations fuel (reservation_bytes l ++ rest) = Some l.
Proof.
  unfold reservation_bytes. intros Hl; revert fuel.
  assert (∀ a b rest, take 8 ((be_bytes 8 a ++ be_bytes 8 b) ++ rest) = be_bytes 8 a ∧
    slice 8 16 ((be_bytes 8 a ++ be_bytes 8 b) ++ rest) = be_bytes 8 b ∧
    drop 16 ((be_bytes 8 a ++ be_bytes 8 b) ++ rest) = rest) as Hcut.
  { intros a b r. rewrite <-!app_assoc. split_and!.
    - by rewrite take_app_length' by (by rewrite length_be_bytes).
    - rewrite slice_app_r, slice_app_l by (rewrite ?length_be_bytes; lia). rewrite length_be_bytes. apply slice_be_bytes.
    - rewrite app_assoc. by rewrite drop_app_length' by (by rewrite length_app, !length_be_bytes). }
  induction Hl as [|[a b] l (Ha & Hb & Hne) _ IH]; intros [|fuel] Hf; simpl in Hf; try lia; cbn [read_reservations].
  - destruct (Hcut 0 0 rest) as (H1 & H2 & _). cbn [fmap list_fmap mjoin list_join app].
    rewrite bool_decide_false by (rewrite !length_app, !length_be_bytes; lia). by rewrite H1, H2.
  - rewrite fmap_cons, mjoin_cons, <-!app_assoc. cbn [fst snd] in *.
    destruct (Hcut a b (mjoin ((λ r, be_bytes 8 r.1 ++ be_bytes 8 r.2) <$> l) ++ be_bytes 8 0 ++ be_bytes 8 0 ++ rest))
      as (H1 & H2 & H3). rewrite <-!app_assoc in H1, H2, H3.
    rewrite bool_decide_false by (rewrite !length_app, !length_be_bytes; lia). cbv zeta. rewrite H1, H2, H3.
    rewrite !be_val_small by (simpl; lia). rewrite <-!app_assoc in IH. rewrite IH by lia.
    destruct ((a =? 0) && (b =? 0)) eqn:E; [|done]. apply andb_true_iff in E as [->%Z.eqb_eq ->%Z.eqb_eq]. done.
Qed.

Lemma depth_emit σ n name : (depth n ≤ length (emit_node σ n name))%nat.
Proof.
  revert name. induction n as [props kids IH] using dt_node_ind. intros name. rewrite emit_eq.
  change (depth (mk_dt_node props kids)) with (S (S (sum_list (child_depth <$> kids)))).
  rewrite !length_app, !length_be_bytes.
  assert (sum_list (child_depth <$> kids) ≤ length (mjoin (emit_child σ <$> kids)))%nat; [|lia].
  induction IH as [|[child_name child] kids Hc _ IHk]; [done|]. rewrite !fmap_cons, mjoin_cons, length_app.
  specialize (Hc child_name). cbn [snd] in Hc.
  change (sum_list (child_depth (child_name, child) :: (child_depth <$> kids)))
    with (depth child + sum_list (child_depth <$> kids))%nat. cbn [emit_child]. lia.
Qed.

Lemma tree_ok_names n : dt_ok n = true → Forall (λ name, dt_name_ok name = true) (names_of n).
Proof.
  induction n as [props kids IH] using dt_node_ind. cbn [dt_ok]. intros [Hp Hk]%andb_true_iff.
  rewrite names_of_eq. apply Forall_app. split.
  - rewrite Forall_fmap, Forall_forall. intros p Hin%list_elem_of_In. rewrite forallb_forall in Hp. by apply Hp.
  - induction IH as [|[child_name child] kids Hc _ IHk]; [constructor|]. rewrite fmap_cons, mjoin_cons.
    cbn [forallb fst snd] in *. apply andb_true_iff in Hk as [[_ Hct]%andb_true_iff Hk].
    apply Forall_app. split; [by apply Hc|by apply IHk].
Qed.

Lemma tree_blob_reads root res cpu :
  dt_ok root = true → Forall reservation_ok res → 0 <= cpu < 4294967296 →
  ∃ b, generate root res cpu = Some b ∧
    (Z.of_nat (length b) < 4294967296 → read_blob b = Some (mk_blob (tree_of root) res cpu)).
Proof.
  intros Hok Hres Hcpu. destruct (generate_spec root res cpu Hok) as (strings & fields & Hnames & Hg & Hfields).
  set (σ := λ name, offset_in name strings 0) in *. cbv zeta in *. rewrite Hg. eexists. split; [done|].
  set (R := reservation_bytes res) in *. set (S := emit_node σ root []) in *. set (T := table strings) in *.
  set (H := mjoin (be_bytes 4 <$> fields)).
  assert (length H = 40%nat) as HH by (unfold H; by rewrite Hfields).
  intros Hl. rewrite !length_app, HH, length_be_bytes in Hl.
  assert (∀ i v, fields !! i = Some v → 0 <= v < 4294967296 →
    be_val (slice (4 * i) (4 * i + 4) (H ++ R ++ S ++ be_bytes 4 FDT_END ++ T)) = v) as Hcell
    by (intros; by apply read_cell).
  assert (∀ n, (n ≤ 40 + (length R + (length S + (4 + length T))))%nat → u32 (Z.of_nat n) = Z.of_nat n) as Hu
    by (intros; apply u32_small; lia).
  rewrite !length_app, length_be_bytes in Hfields. rewrite !Hu in Hfields by lia.
  pose proof (length_reservations res) as HR. fold R in HR.
  unfold read_blob. cbv zeta.
  rewrite (Hcell 0%nat FDT_MAGIC), (Hcell 1%nat (Z.of_nat (40 + (length R + (length S + (4 + length T)))))),
    (Hcell 5%nat 17), (Hcell 6%nat 16), (Hcell 4%nat 40), (Hcell 2%nat (Z.of_nat (40 + length R))),
    (Hcell 3%nat (Z.of_nat (40 + length R + length S + 4))), (Hcell 8%nat (Z.of_nat (length T))),
    (Hcell 9%nat (Z.of_nat (length S + 4))), (Hcell 7%nat cpu)
    by (first [by rewrite Hfields|unfold FDT_MAGIC; lia]).
  rewrite !length_app, HH, length_be_bytes, !Z.eqb_refl. cbn [andb negb].
  rewrite (proj2 (Z.eqb_eq (Z.of_nat (40 + length R) mod 4) 0)) by (Z.div_mod_to_equations; lia). cbn [negb].
  rewrite !Nat2Z.id. change (Z.to_nat 40) with 40%nat.
  assert (drop 40 (H ++ R ++ S ++ be_bytes 4 FDT_END ++ T) = R ++ S ++ be_bytes 4 FDT_END ++ T) as ->
    by (by apply drop_app_length').
  rewrite (read_reservations_written res) by (done || lia). cbn [mbind option_bind].
  assert (slice (40 + length R) (40 + length R + (length S + 4)) (H ++ R ++ S ++ be_bytes 4 FDT_END ++ T) =
    S ++ be_bytes 4 FDT_END) as ->.
  { rewrite app_assoc, slice_app_r by (rewrite length_app; lia). rewrite length_app, app_assoc, slice_app_l
      by (rewrite length_app, length_be_bytes; lia).
    replace (40 + length R - (length H + length R))%nat with 0%nat by lia.
    replace (40 + length R + (length S + 4) - (length H + length R))%nat with (length (S ++ be_bytes 4 FDT_END))
      by (rewrite length_app, length_be_bytes; lia). apply slice_full. }
  assert (slice (40 + length R + length S + 4) (40 + length R + length S + 4 + length T)
    (H ++ R ++ S ++ be_bytes 4 FDT_END ++ T) = T) as ->.
  { rewrite !app_assoc, slice_app_r by (rewrite !length_app, length_be_bytes; lia).
    rewrite !length_app, length_be_bytes.
    replace (40 + length R + length S + 4 - (length H + length R + length S + 4))%nat with 0%nat by lia.
    replace (40 + length R + length S + 4 + length T - (length H + length R + length S + 4))%nat with (length T) by lia.
    apply slice_full. }
  destruct (read_emit σ T root Hok [] (Datatypes.S (40 + (length R + (length S + (4 + length T))))) (be_bytes 4 FDT_END))
    as (after & E & Hread); [by apply Forall_nil| |fold S; lia|pose proof (depth_emit σ root []) as Hd; fold S in Hd; lia|].
  { apply Forall_forall. intros name Hname. apply (offset_in_reads name strings []).
    - by apply Hnames.
    - apply name_ok_no_nul. pose proof (tree_ok_names root Hok) as HF. rewrite Forall_forall in HF. by apply HF.
    - cbn [app]. fold T. lia. }
  fold S in E. rewrite E, token_be4 by (unfold FDT_BEGIN_NODE; lia). cbn [mbind option_bind].
  rewrite Z.eqb_refl. cbn [negb]. rewrite Hread. cbn [mbind option_bind].
  rewrite <-(app_nil_r (be_bytes 4 FDT_END)), token_be4 by (unfold FDT_END; lia). done.
Qed.

(** ** What the kernel finds in a property *)

(** A number in [k] bytes, the high one first. *)
Definition big_endian (k : nat) (n : Z) (bytes : list Z) : Prop :=
  length bytes = k ∧ wf_bytes bytes ∧ foldl (λ high b, 256 * high + b) 0 bytes = n.

(** A value's bytes: numbers and cells big-endian (the fields of [U32], [U64] and [Cells] are of 32 and
    64 bits, which the remainder leaves alone), strings with a NUL behind them. *)
Definition means (v : DtValue) (bytes : list Z) : Prop :=
  match v with
  | U32 n => big_endian 4 (n mod 2 ^ 32) bytes
  | U64 n => big_endian 8 (n mod 2 ^ 64) bytes
  | Str s => bytes = s ++ [0]
  | Cells ns => ∃ cells, bytes = mjoin cells ∧ Forall2 (λ n cell, big_endian 4 (n mod 2 ^ 32) cell) ns cells
  | Bytes b => bytes = b
  | Empty => bytes = []
  end.

(** A tree that was read is the tree that was meant: the same properties and children, in the same
    order, under the same names. *)
Inductive tree_says : DtNode → DtTree → Prop :=
  | node_says props kids values trees :
      Forall2 (λ p v, p.1 = v.1 ∧ means p.2 v.2) props values →
      Forall2 (λ c t, c.1 = t.1 ∧ tree_says c.2 t.2) kids trees →
      tree_says (mk_dt_node props kids) (mk_tree values trees).

Lemma be_val_foldl l : be_val l = foldl (λ high b, 256 * high + b) 0 l.
Proof.
  induction l as [|b l IH] using rev_ind; [done|]. rewrite foldl_snoc, <-IH. unfold be_val.
  rewrite reverse_snoc. change (le_val (b :: reverse l)) with (b + 256 * le_val (reverse l)). lia.
Qed.
Lemma be_bytes_big_endian k n : big_endian k (n mod 256 ^ Z.of_nat k) (be_bytes k n).
Proof. split_and!; [apply length_be_bytes|apply wf_be_bytes|by rewrite <-be_val_foldl, be_val_be_bytes]. Qed.

Lemma encode_means v : means v (encode v).
Proof.
  destruct v as [n|n|s|ns|b|]; simpl; try done; [apply (be_bytes_big_endian 4)|apply (be_bytes_big_endian 8)|].
  exists (be_bytes 4 <$> ns). split; [done|]. apply Forall2_fmap_r, Forall_Forall2_diag, Forall_true.
  intros n. apply (be_bytes_big_endian 4).
Qed.

Lemma tree_of_says n : tree_says n (tree_of n).
Proof.
  induction n as [props kids IH] using dt_node_ind. rewrite tree_of_eq. constructor.
  - apply Forall2_fmap_r, Forall_Forall2_diag, Forall_true. intros [name v]. split; [done|apply encode_means].
  - apply Forall2_fmap_r, Forall_Forall2_diag. eapply Forall_impl; [exact IH|]. by intros [name child].
Qed.

(** C40: a tree whose names fit is always serialized, and what a reader of the format makes of the
    blob (magic, size, versions, the reservations, the node names, the properties by way of the string
    table) is the tree itself, its numbers and cells high byte first and its strings with their NUL, as
    long as the blob's size fits its 32-bit fields. *)
Theorem device_tree_roundtrip root res cpu :
  dt_ok root = true → Forall reservation_ok res → 0 <= cpu < 4294967296 →
  ∃ b tree, generate root res cpu = Some b ∧ tree_says root tree ∧
    (Z.of_nat (length b) < 4294967296 → read_blob b = Some (mk_blob tree res cpu)).
Proof.
  intros Hok Hres Hcpu. destruct (tree_blob_reads root res cpu Hok Hres Hcpu) as (b & Hb & Hread).
  exists b, (tree_of root). split_and!; [done|apply tree_of_says|done].
Qed.

Definition example_dt : DtNode :=
  mk_dt_node [(lit "#address-cells", U32 1); (lit "compatible", Str (lit "virtio,wasm"))]
    [(lit "memory", mk_dt_node [(lit "reg", Cells [0; 0xffff0000]); (lit "compatible", Empty)] []);
     (lit "aliases", mk_dt_node [] [])].

Lemma device_tree_roundtrip_witness :
  dt_ok example_dt = true ∧
  ∃ b tree, generate example_dt [(4096, 12)] 0 = Some b ∧ tree_says example_dt tree ∧
    (Z.of_nat (length b) < 4294967296 → read_blob b = Some (mk_blob tree [(4096, 12)] 0)).
Proof.
  split; [vm_compute; reflexivity|]. apply device_tree_roundtrip.
  - vm_compute. reflexivity.
  - repeat constructor; discriminate.
  - lia.
Defined.

Example device_tree_bytes :
  option_map (λ b, (length b, take 24 b)) (generate example_dt [] 0) =
    Some (206%nat, [0xd0; 0x0d; 0xfe; 0xed; 0; 0; 0; 206; 0; 0; 0; 56; 0; 0; 0; 0xb0; 0; 0; 0; 40; 0; 0; 0; 17]).
Proof. vm_compute. reflexivity. Qed.

Example device_tree_long_name :
  generate (mk_dt_node [(replicate 32 97, Empty)] []) [] 0 = None.
Proof. vm_compute. reflexivity. Qed.
