(* ===== verification/Machine.v ===== *)
(** * The machine (engine/src/machine.rs, module_info.rs)

    What the kernel calls on its host ([boot.*], [kernel.*] and [virtio.*]), the interrupts raised for
    the devices, the requests of the CPU threads, the device tree the machine describes itself with,
    and the record of a program the guest started.  The kernel is code wasmtime runs: here it is
    everything it can do, the step relation [machine_step] (it writes its memory, and calls its host
    in any order), and, where the host calls it, the class [Kernel]. *)
From stdpp Require Import strings.
From S2P Require Import Prelude Memory Virtio Console Str DeviceTree.

Local Open Scope Z_scope.

(** ** Programs the guest starts *)

Record ExecEvent := mk_exec_event {
  ex_pid : Z;
  ex_uid : Z;
  ex_cwd : str;
  ex_file : str;
  ex_argv : list str;
  ex_cut : Z;
  ex_errno : Z;
}.

(** The low 32 bits as an i32. *)
Definition as_i32 (x : Z) : Z := (x + 2147483648) mod 4294967296 - 2147483648.

(** The kernel's record: "cwd\0file\0argv0\0...", cut to its first bytes. *)
Definition parse_exec (pid uid error : Z) (record : list Z) (full_len : Z) : ExecEvent :=
  let record' := match last record with Some 0 => take (length record - 1) record | _ => record end in
  let parts := from_utf8_lossy <$> split_on (λ b, b =? 0) record' in
  mk_exec_event (u32 pid) (u32 uid) (default [] (parts !! 0%nat)) (default [] (parts !! 1%nat)) (drop 2 parts)
    (sat_sub full_len (Z.of_nat (length record))) (as_i32 (- Z.min error 0)).

(** ** The section table *)

Fixpoint scan_sections (fuel : nat) (rest : str) : list (str * list Z) :=
  match fuel with
  | O => []
  | S fuel =>
      match split_once [34] rest with
      | None => []
      | Some (_, after) =>
          match split_once [34] after with
          | None => []
          | Some (name, tail) =>
              match split_once (lit "[") tail with
              | None => []
              | Some (_, list_on) =>
                  match split_once (lit "]") list_on with
                  | None => []
                  | Some (cells, rest) =>
                      (name, omap (λ v, parse_unsigned 4294967296 (trim_text v)) (split_on (λ b, b =? chr ",") cells))
                        :: scan_sections fuel rest
                  end
              end
          end
      end
  end.

(** [rest] goes on at the bracket that closes the list, which no section starts with. *)
Definition parse_sections (json : list Z) : list (str * list Z) :=
  let text := from_utf8_lossy json in
  let rest := trim_end (λ b, b =? chr "}") (trim_start (λ b, b =? chr "{") (trim_text text)) in
  scan_sections (S (length rest)) rest.

(** ** The machine's own tree *)

Definition PAGE_SIZE : Z := 65536.
Definition KERNEL_MEMORY_MAXIMUM_PAGES : Z := 0xffff.
Definition MAX_WASM_STACK : Z := Z.shiftl 32 20.

(** What of [BootOptions] the tree tells, with the random seed and the engine's version. *)
Record BootView := mk_boot_view {
  boot_args : list str;
  boot_cpus : Z;
  boot_initcpio : list Z;
  boot_exec_log : bool;
  boot_seed : list Z;
  boot_version : str;
}.

Definition bootargs (o : BootView) : str :=
  let args := match boot_args o with [] => [] | l => lit " " ++ join (lit " ") l end in
  let exec_log := if boot_exec_log o then lit " collabo.execlog=1" else [] in
  lit "console=hvc0 collabo.wasmstack=" ++ decimal MAX_WASM_STACK ++ lit " collabo.version=" ++ boot_version o ++
  exec_log ++ args.

Definition chosen_node (o : BootView) (sections : list Z) (initcpio_address : Z) : DtNode :=
  mk_dt_node
    ([(lit "rng-seed", Bytes (boot_seed o)); (lit "bootargs", Str (bootargs o)); (lit "ncpus", U32 (boot_cpus o))] ++
     match boot_initcpio o with
     | [] => []
     | l => [(lit "linux,initrd-start", U32 (u32 initcpio_address));
             (lit "linux,initrd-end", U32 (u32 (u32 initcpio_address + u32 (Z.of_nat (length l)))))]
     end)
    [(lit "sections", mk_dt_node ((λ s, (s.1, Cells s.2)) <$> parse_sections sections) [])].

Definition device_node (index : nat) (d : Z * Z * list Z) : str * DtNode :=
  let '(device_id, features, config) := d in
  (lit "virtio" ++ decimal (Z.of_nat index),
   mk_dt_node [(lit "compatible", Str (lit "virtio,wasm")); (lit "host-id", U32 (Z.of_nat index));
               (lit "virtio-device-id", U32 device_id); (lit "features", U64 features);
               (lit "config", Bytes config)] []).

Definition build_tree (o : BootView) (sections : list Z) (initcpio_address memory_size : Z)
    (descriptions : list (Z * Z * list Z)) : DtNode :=
  mk_dt_node [(lit "#address-cells", U32 1); (lit "#size-cells", U32 1)]
    ([(lit "chosen", chosen_node o sections initcpio_address);
      (lit "aliases", mk_dt_node [] []);
      (lit "memory", mk_dt_node [(lit "device_type", Str (lit "memory")); (lit "reg", Cells [0; u32 memory_size])] []);
      (lit "reserved-memory", mk_dt_node [(lit "#address-cells", U32 1); (lit "#size-cells", U32 1); (lit "ranges", Empty)] [])] ++
     imap device_node descriptions).

Definition reservations (o : BootView) (initcpio_address : Z) : list (Z * Z) :=
  match boot_initcpio o with [] => [] | l => [(initcpio_address, Z.of_nat (length l))] end.

Definition build_devicetree (o : BootView) (sections : list Z) (initcpio_address memory_size : Z)
    (descriptions : list (Z * Z * list Z)) : option (list Z) :=
  generate (build_tree o sections initcpio_address memory_size descriptions) (reservations o initcpio_address) 0.

(** ** Devices *)

(** [Box<dyn Device>] with its queues. *)
Inductive AnyDevice : Type :=
  | any_device {D : Type} {HD : Device D} {HL : DeviceLaws D} (c : Connected D).

Definition TRANSPORT_FEATURES : Z := Z.lor (Z.shiftl 1 32) (Z.lor (Z.shiftl 1 34) (Z.shiftl 1 28)).
Definition describe_device (d : AnyDevice) : Z * Z * list Z :=
  let '(any_device c) := d in
  (device_id (device c), Z.lor (features (device c)) TRANSPORT_FEATURES, config (device c)).

Definition any_setup (d : AnyDevice) (m : mem) (irq at_ len : Z) : AnyDevice * mem :=
  let '(any_device c) := d in let '(c, m) := setup c m irq at_ len in (any_device c, m).
Definition any_reset (d : AnyDevice) : AnyDevice :=
  let '(any_device c) := d in any_device (connected_reset c).
Definition any_enable (d : AnyDevice) (index size at_ irq : Z) : AnyDevice :=
  let '(any_device c) := d in any_device (enable_queue c index size at_ irq).
Definition any_disable (d : AnyDevice) (index : Z) : AnyDevice :=
  let '(any_device c) := d in any_device (disable_queue c index).
Definition any_notify (d : AnyDevice) (m : mem) (index : Z) : result error (list Z) * (AnyDevice * mem) :=
  let '(any_device c) := d in
  let '(r, (c, m)) := connected_notify c m index in (r, (any_device c, m)).
Definition any_poll (d : AnyDevice) (m : mem) : result error (list Z) * (AnyDevice * mem) :=
  let '(any_device c) := d in
  let '(r, (c, m)) := connected_poll c m in (r, (any_device c, m)).
Definition any_input (d : AnyDevice) (bytes : list Z) (m : mem) : result error (list Z) * (AnyDevice * mem) :=
  let '(any_device c) := d in
  let '(r, (c, m)) := console_input c bytes m in (r, (any_device c, m)).

(** ** State *)

Inductive Termination : Type :=
  | Clean
  | PowerOff
  | Panic.

Inductive MachineRequest : Type :=
  | ConsoleInput (bytes : list Z)
  | SpawnCpu (function arg : Z)
  | BootConsole (bytes : list Z)
  | BootConsoleClose
  | RunOnMain (function arg : Z)
  | Wake
  | Terminate (t : Termination)
  | CpuExited.

Inductive trap : Type :=
  | DeviceError (e : error)
  | OutOfBounds
  | BufferTooSmall
  | Halted
  | HaltedMain
  | KernelError
  | ThreadError.

(** [raised]: the interrupts triggered so far; [spawned]: the CPU threads started. *)
Record Machine := mk_machine {
  m_devices : list AnyDevice;
  m_memory : mem;
  m_requests : list MachineRequest;
  m_boot_console : list Z;
  m_exec_events : list ExecEvent;
  m_raised : list Z;
  m_spawned : list (Z * Z);
}.

(** What a boot fixes. *)
Record Booted := mk_booted {
  b_devicetree : list Z;
  b_initramfs : list Z;
  b_exec_log : bool;
}.

Definition with_devices (m : Machine) (ds : list AnyDevice) (memory : mem) : Machine :=
  mk_machine ds memory (m_requests m) (m_boot_console m) (m_exec_events m) (m_raised m) (m_spawned m).
Definition with_memory (m : Machine) (memory : mem) : Machine := with_devices m (m_devices m) memory.
Definition send_request (m : Machine) (r : MachineRequest) : Machine :=
  mk_machine (m_devices m) (m_memory m) (m_requests m ++ [r]) (m_boot_console m) (m_exec_events m) (m_raised m) (m_spawned m).
Definition print_boot (m : Machine) (bytes : list Z) : Machine :=
  mk_machine (m_devices m) (m_memory m) (m_requests m) (m_boot_console m ++ bytes) (m_exec_events m) (m_raised m) (m_spawned m).
Definition observe_exec (m : Machine) (e : ExecEvent) : Machine :=
  mk_machine (m_devices m) (m_memory m) (m_requests m) (m_boot_console m) (m_exec_events m ++ [e]) (m_raised m) (m_spawned m).
Definition note_raised (m : Machine) (irq : Z) : Machine :=
  mk_machine (m_devices m) (m_memory m) (m_requests m) (m_boot_console m) (m_exec_events m) (m_raised m ++ [irq]) (m_spawned m).
Definition spawn_cpu (m : Machine) (function arg : Z) : Machine :=
  mk_machine (m_devices m) (m_memory m) (m_requests m) (m_boot_console m) (m_exec_events m) (m_raised m) (m_spawned m ++ [(function, arg)]).

(** ** What the kernel calls *)

Inductive KernelCall : Type :=
  | BootConsoleWrite (message length : Z)
  | CallBootConsoleClose
  | TerminateMachine (reason : Z)
  | ExecLog (pid uid error record len full_len : Z)
  | HaltWorker
  | CallRunOnMain (function arg : Z)
  | GetDevicetree (buffer size : Z)
  | GetInitramfs (buffer size : Z)
  | VirtioSetup (device config_irq config_at config_len : Z)
  | VirtioReset (device : Z)
  | EnableVring (device queue size descriptors_at irq : Z)
  | DisableVring (device queue : Z)
  | SetFeatures (device features : Z).

(** [devices.get_mut(device as usize)] of an i32: a negative one is beyond every device. *)
Definition device_at (m : Machine) (device : Z) : option AnyDevice :=
  if device <? 0 then None else m_devices m !! Z.to_nat device.
Definition put_device (m : Machine) (device : Z) (d : AnyDevice) (memory : mem) : Machine :=
  with_devices m (<[Z.to_nat device := d]> (m_devices m)) memory.

Definition hand_blob (m : Machine) (blob : list Z) (buffer size : Z) : result trap Z * Machine :=
  let address := u32 buffer in
  let capacity := u32 size in
  if (address =? 0) && (capacity =? 0) then (Ok (Z.of_nat (length blob)), m)
  else if capacity <? Z.of_nat (length blob) then (Err BufferTooSmall, m)
  else match write_memory (m_memory m) address blob with
       | Err _ => (Err OutOfBounds, m)
       | Ok memory => (Ok (Z.of_nat (length blob)), with_memory m memory)
       end.

(** One call but [notify], on the main thread or a CPU's. *)
Definition host_call (b : Booted) (is_worker : bool) (call : KernelCall) (m : Machine) : result trap Z * Machine :=
  match call with
  | BootConsoleWrite message length =>
      match read_memory (m_memory m) (u32 message) (u32 length) with
      | Err _ => (Err OutOfBounds, m)
      | Ok bytes => (Ok 0, if is_worker then send_request m (BootConsole bytes) else print_boot m bytes)
      end
  | CallBootConsoleClose => (Ok 0, send_request m BootConsoleClose)
  | TerminateMachine reason =>
      (Err Halted, send_request m (Terminate (if reason =? 0 then PowerOff else Panic)))
  | ExecLog pid uid error record len full_len =>
      (Ok 0,
       if b_exec_log b then
         match guest_bytes (m_memory m) (u32 record) (u32 len) with
         | Some record => observe_exec m (parse_exec pid uid error record (u32 full_len))
         | None => m
         end
       else m)
  | HaltWorker => if is_worker then (Err Halted, send_request m CpuExited) else (Err HaltedMain, m)
  | CallRunOnMain function arg => (Ok 0, send_request m (RunOnMain (u32 function) (u32 arg)))
  | GetDevicetree buffer size => hand_blob m (b_devicetree b) buffer size
  | GetInitramfs buffer size => hand_blob m (b_initramfs b) buffer size
  | VirtioSetup device config_irq config_at config_len =>
      (Ok 0,
       match device_at m device with
       | Some d =>
           let '(d, memory) := any_setup d (m_memory m) (u32 config_irq) (u32 config_at) (u32 config_len) in
           put_device m device d memory
       | None => m
       end)
  | VirtioReset device =>
      (Ok 0, match device_at m device with Some d => put_device m device (any_reset d) (m_memory m) | None => m end)
  | EnableVring device queue size descriptors_at irq =>
      (Ok 0,
       match device_at m device with
       | Some d => put_device m device (any_enable d (u16 queue) (u16 size) (u32 descriptors_at) (u32 irq)) (m_memory m)
       | None => m
       end)
  | DisableVring device queue =>
      (Ok 0,
       match device_at m device with
       | Some d => put_device m device (any_disable d (u16 queue)) (m_memory m)
       | None => m
       end)
  | SetFeatures _ _ => (Ok 0, m)
  end.

(** The devices' part of [notify]: the interrupts it asks for. *)
Definition notify_device (device queue : Z) (m : Machine) : result trap (list Z) * Machine :=
  match device_at m device with
  | Some d =>
      match any_notify d (m_memory m) (u16 queue) with
      | (Ok irqs, (d, memory)) => (Ok irqs, put_device m device d memory)
      | (Err e, (d, memory)) => (Err (DeviceError e), put_device m device d memory)
      end
  | None => (Ok [], m)
  end.

(** Every device in turn, until one fails. *)
Fixpoint each_device (f : AnyDevice → mem → result error (list Z) * (AnyDevice * mem)) (ds : list AnyDevice) (memory : mem)
    : result error (list Z) * (list AnyDevice * mem) :=
  match ds with
  | [] => (Ok [], ([], memory))
  | d :: ds =>
      match f d memory with
      | (Err e, (d, memory)) => (Err e, (d :: ds, memory))
      | (Ok irqs, (d, memory)) =>
          let '(r, (ds, memory)) := each_device f ds memory in
          (more ← r; Ok (irqs ++ more), (d :: ds, memory))
      end
  end.

Definition on_devices (f : AnyDevice → mem → result error (list Z) * (AnyDevice * mem)) (m : Machine)
    : result trap (list Z) * Machine :=
  match each_device f (m_devices m) (m_memory m) with
  | (Ok irqs, (ds, memory)) => (Ok irqs, with_devices m ds memory)
  | (Err e, (ds, memory)) => (Err (DeviceError e), with_devices m ds memory)
  end.

(** ** Interrupts and requests *)

(** What the kernel does when its host calls it: on an interrupt, and on work for the main thread; and whether the
    host's system starts a thread for a CPU. *)
Class Kernel : Type := {
  trigger_irq : Z → Machine → result trap unit * Machine;
  call_indirect : Z → Z → Machine → result trap unit * Machine;
  thread_starts : Z → Z → Machine → bool;
}.

Inductive outcome : Type :=
  | Ended (t : Termination)
  | Failed (e : trap)
  | Waiting
  | CutShort.

Section kernel.
Context {K : Kernel}.

(** Each interrupt line once, until the kernel fails. *)
Fixpoint raise_from (seen irqs : list Z) (m : Machine) : result trap unit * Machine :=
  match irqs with
  | [] => (Ok tt, m)
  | irq :: irqs =>
      if bool_decide (irq ∈ seen) then raise_from seen irqs m
      else match trigger_irq irq (note_raised m irq) with
           | (Ok _, m) => raise_from (seen ++ [irq]) irqs m
           | (Err e, m) => (Err e, m)
           end
  end.
Definition raise_irqs (irqs : list Z) (m : Machine) : result trap unit * Machine := raise_from [] irqs m.

(** [virtio.notify]. *)
Definition virtio_notify (device queue : Z) (m : Machine) : result trap unit * Machine :=
  match notify_device device queue m with
  | (Ok irqs, m) => raise_irqs irqs m
  | (Err e, m) => (Err e, m)
  end.

Definition poll_devices (m : Machine) : result trap unit * Machine :=
  match on_devices any_poll m with
  | (Ok irqs, m) => raise_irqs irqs m
  | (Err e, m) => (Err e, m)
  end.

Definition deliver_console_input (bytes : list Z) (m : Machine) : result trap unit * Machine :=
  match on_devices (λ d memory, any_input d bytes memory) m with
  | (Ok irqs, m) => raise_irqs irqs m
  | (Err e, m) => (Err e, m)
  end.

(** One request, taken from the queue; the reason when it ends the machine. *)
Definition handle_request (r : MachineRequest) (m : Machine) : result trap (option Termination) * Machine :=
  let goes_on (r : result trap unit * Machine) := (_ ← r.1; Ok None, r.2) in
  match r with
  | SpawnCpu function arg => if thread_starts function arg m then (Ok None, spawn_cpu m function arg) else (Err ThreadError, m)
  | BootConsole bytes => (Ok None, print_boot m bytes)
  | ConsoleInput bytes => goes_on (deliver_console_input bytes m)
  | Wake => goes_on (poll_devices m)
  | BootConsoleClose => (Ok None, m)
  | RunOnMain function arg => goes_on (call_indirect function arg m)
  | CpuExited => (Ok None, m)
  | Terminate reason => (Ok (Some reason), m)
  end.

Definition set_requests (m : Machine) (rs : list MachineRequest) : Machine :=
  mk_machine (m_devices m) (m_memory m) rs (m_boot_console m) (m_exec_events m) (m_raised m) (m_spawned m).

(** The main loop, a request per fuel; [Waiting]: nothing is queued. *)
Fixpoint run (fuel : nat) (m : Machine) : outcome * Machine :=
  match fuel with
  | O => (CutShort, m)
  | S fuel =>
      match m_requests m with
      | [] => (Waiting, m)
      | r :: rs =>
          match handle_request r (set_requests m rs) with
          | (Ok None, m) => run fuel m
          | (Ok (Some t), m) => (Ended t, m)
          | (Err e, m) => (Failed e, m)
          end
      end
  end.
End kernel.

Definition machine_new (ds : list AnyDevice) (memory : mem) : Machine := mk_machine ds memory [] [] [] [] [].

(** ** Everything that can happen *)

(** A ring the virtio limits allow: what a driver sets up. *)
Definition ring_call_ok (call : KernelCall) : Prop :=
  match call with
  | EnableVring _ _ size descriptors_at _ => 0 < u16 size <= 32768 ∧ u32 descriptors_at + 16 * u16 size <= 4294967296
  | _ => True
  end.

(** The guest's memory is shared and may grow, up to the pages the engine created it for. *)
Definition MEMORY_LIMIT : Z := KERNEL_MEMORY_MAXIMUM_PAGES * PAGE_SIZE.
Definition grown (old new : mem) : Prop :=
  (length old ≤ length new)%nat ∧ (length new = length old ∨ mem_size new <= MEMORY_LIMIT).

(** What the kernel and its programs do, on any thread, and what devices and the host's other threads
    do meanwhile. *)
Inductive kernel_step (b : Booted) : Machine → Machine → Prop :=
  | step_write m memory : grown (m_memory m) memory → kernel_step b m (with_memory m memory)
  | step_call m w call : ring_call_ok call → kernel_step b m (host_call b w call m).2
  | step_notify_device m device queue : kernel_step b m (notify_device device queue m).2
  | step_raised m irq : kernel_step b m (note_raised m irq)
  | step_poll_devices m : kernel_step b m (on_devices any_poll m).2
  | step_typed m bytes : kernel_step b m (on_devices (λ d memory, any_input d bytes memory) m).2
  | step_send m r : kernel_step b m (send_request m r)
  | step_host_side m i D (HD : Device D) (HL : DeviceLaws D) (c : Connected D) (d : D) :
      m_devices m !! i = Some (any_device c) →
      kernel_step b m (with_devices m (<[i := any_device (with_state c d (queues c))]> (m_devices m)) (m_memory m)).

(** The kernel does nothing but kernel steps. *)
Class KernelLaws (b : Booted) {K : Kernel} : Prop := {
  trigger_steps irq m : rtc (kernel_step b) m (trigger_irq irq m).2;
  call_steps function arg m : rtc (kernel_step b) m (call_indirect function arg m).2;
}.

Definition device_ok (d : AnyDevice) : Prop := let '(any_device c) := d in slots_ok (queues c).
(** Rings in order, and a memory that has grown from [n] bytes or not at all. *)
Definition sized (n : nat) (memory : mem) : Prop := (n ≤ length memory)%nat ∧ (length memory = n ∨ mem_size memory <= MEMORY_LIMIT).
Definition machine_ok (n : nat) (m : Machine) : Prop := Forall device_ok (m_devices m) ∧ sized n (m_memory m).
Lemma sized_same n old new : length new = length old → sized n old → sized n new.
Proof. intros E. unfold sized, mem_size. by rewrite E. Qed.


(** ** The invariant of the devices *)

Lemma any_keeps {D} {HD : Device D} {HL : DeviceLaws D} (c : Connected D) (m : mem) (s : Connected D * mem) :
  transport_step (c, m) s → device_ok (any_device c) → device_ok (any_device s.1) ∧ length s.2 = length m.
Proof. intros Hs Hok. by apply (transport_step_keeps (length m) (c, m) s Hs). Qed.

(** A function of a device and the memory that keeps both. *)
Definition device_keeps (f : AnyDevice → mem → result error (list Z) * (AnyDevice * mem)) : Prop :=
  ∀ d memory, device_ok d → device_ok (f d memory).2.1 ∧ length (f d memory).2.2 = length memory.

Lemma any_poll_keeps : device_keeps any_poll.
Proof.
  intros [D HD HL c] memory Hd. pose proof (any_keeps c memory _ (step_poll c memory) Hd). unfold any_poll.
  by destruct (connected_poll c memory) as [r [c' memory']].
Qed.
Lemma any_input_keeps bytes : device_keeps (λ d memory, any_input d bytes memory).
Proof.
  intros [D HD HL c] memory Hd. pose proof (any_keeps c memory _ (step_input c memory bytes) Hd). unfold any_input.
  by destruct (console_input c bytes memory) as [r [c' memory']].
Qed.
Lemma any_notify_keeps queue : device_keeps (λ d memory, any_notify d memory queue).
Proof.
  intros [D HD HL c] memory Hd. pose proof (any_keeps c memory _ (step_notify c memory queue) Hd). unfold any_notify.
  by destruct (connected_notify c memory queue) as [r [c' memory']].
Qed.

Lemma each_device_keeps f ds memory :
  device_keeps f → Forall device_ok ds →
  Forall device_ok (each_device f ds memory).2.1 ∧ length (each_device f ds memory).2.2 = length memory.
Proof.
  intros Hf Hds. revert memory. induction Hds as [|d ds Hd Hds IH]; intros memory; cbn [each_device]; [by split|].
  destruct (Hf d memory Hd) as [Hd' Hl]. destruct (f d memory) as [[irqs|e] [d' memory']]; simpl in *.
  - destruct (IH memory') as [IH1 IH2]. destruct (each_device f ds memory') as [r [ds' memory'']]. simpl in *.
    split; [by constructor|congruence].
  - split; [by constructor|done].
Qed.

Lemma on_devices_keeps f m n : device_keeps f → machine_ok n m → machine_ok n (on_devices f m).2.
Proof.
  intros Hf [Hd Hm]. unfold on_devices. destruct (each_device_keeps f (m_devices m) (m_memory m) Hf Hd) as [H1 H2].
  destruct (each_device f (m_devices m) (m_memory m)) as [[irqs|e] [ds memory]]; (split; [done|]); by apply (sized_same _ (m_memory m)).
Qed.

Lemma device_at_ok m device d n : machine_ok n m → device_at m device = Some d → device_ok d.
Proof. intros [Hd _]. unfold device_at. destruct (device <? 0); [done|]. intros H. by eapply Forall_lookup_1. Qed.

Lemma put_device_ok m device d memory n :
  machine_ok n m → device_ok d → length memory = length (m_memory m) → machine_ok n (put_device m device d memory).
Proof. intros [Hds Hn] Hd Hm. split; [by apply Forall_insert|]. by apply (sized_same _ (m_memory m)). Qed.

Lemma hand_over_keeps m blob buffer size n : machine_ok n m → machine_ok n (hand_blob m blob buffer size).2.
Proof.
  intros [Hd Hm]. unfold hand_blob. destruct (_ && _); [done|]. destruct (_ <? _); [done|].
  unfold write_memory. cbv zeta. destruct (Z.ltb_spec (mem_size (m_memory m)) (u32 buffer + Z.of_nat (length blob))) as [|H]; [done|].
  split; [done|]. apply (sized_same _ (m_memory m)); [|done]. unfold mem_size in H. pose proof (u32_range buffer). simpl.
  rewrite !length_app, length_take, length_drop. lia.
Qed.

Lemma host_call_keeps b w call m n : ring_call_ok call → machine_ok n m → machine_ok n (host_call b w call m).2.
Proof.
  intros Hcall Hm. pose proof Hm as [_ Hlen].
  assert (∀ device f, (∀ d, device_ok d → device_ok (f d)) →
    machine_ok n (match device_at m device with Some d => put_device m device (f d) (m_memory m) | None => m end)) as Hdev.
  { intros device f Hf. destruct (device_at m device) as [d|] eqn:Ed; [|done].
    apply put_device_ok; [done| |done]. apply Hf. by eapply device_at_ok. }
  assert (∀ D (HD : Device D) (HL : DeviceLaws D) (c c' : Connected D),
    transport_step (c, m_memory m) (c', m_memory m) → device_ok (any_device c) → device_ok (any_device c')) as Hstep.
  { intros D HD HL c c' Hs Hok. by destruct (any_keeps c (m_memory m) _ Hs Hok). }
  destruct call; cbn [host_call]; try done.
  - destruct (read_memory _ _ _); [|done]. by destruct w.
  - destruct (b_exec_log b); [|done]. by destruct (guest_bytes _ _ _).
  - by destruct w.
  - by apply hand_over_keeps.
  - by apply hand_over_keeps.
  - destruct (device_at m device) as [[D HD HL c]|] eqn:Ed; [|done]. simpl.
    pose proof (device_at_ok _ _ _ _ Hm Ed) as Hok.
    destruct (any_keeps c (m_memory m) _ (step_setup c (m_memory m) (u32 config_irq) (u32 config_at) (u32 config_len)) Hok)
      as [H1 H2]. apply put_device_ok; [done|exact H1|]. simpl in H2. congruence.
  - apply Hdev. intros [D HD HL c]. apply Hstep. constructor.
  - apply Hdev. intros [D HD HL c]. apply Hstep. simpl in Hcall. pose proof (u32_range descriptors_at).
    constructor; lia.
  - apply Hdev. intros [D HD HL c]. apply Hstep. constructor.
Qed.

Lemma kernel_step_keeps b m m' n : kernel_step b m m' → machine_ok n m → machine_ok n m'.
Proof.
  intros Hs Hm. destruct Hs as [m memory Hl|m w call Hc|m device queue|m irq|m|m bytes|m r|m i D HD HL c d Hi].
  - destruct Hm as [Hd Hn]. split; [done|]. unfold grown, sized, mem_size in *. simpl. lia.
  - by apply host_call_keeps.
  - unfold notify_device. destruct (device_at m device) as [d|] eqn:Ed; [|done].
    destruct (any_notify_keeps (u16 queue) d (m_memory m)) as [H1 H2]; [by eapply device_at_ok|].
    destruct (any_notify d (m_memory m) (u16 queue)) as [[irqs|e] [d' memory']]; simpl in *;
      by apply put_device_ok.
  - done.
  - by apply on_devices_keeps; [apply any_poll_keeps|].
  - by apply on_devices_keeps; [apply any_input_keeps|].
  - done.
  - destruct Hm as [Hd Hn]. split; [|done]. apply Forall_insert; [done|].
    by apply (Forall_lookup_1 _ _ _ _ Hd Hi).
Qed.


Lemma kernel_steps_keep b m m' n : rtc (kernel_step b) m m' → machine_ok n m → machine_ok n m'.
Proof. induction 1; intros Hm; [done|]. eauto using kernel_step_keeps. Qed.

(** The requests queued stay, in order; more may follow. *)
Lemma kernel_step_requests b m m' : kernel_step b m m' → ∃ more, m_requests m' = m_requests m ++ more.
Proof.
  intros Hs. assert (∃ more, m_requests m = m_requests m ++ more) as Hnil by (exists []; by rewrite app_nil_r).
  destruct Hs as [m memory Hl|m w call Hc|m device queue|m irq|m|m bytes|m r|]; try done.
  - destruct call; cbn [host_call]; try (by eexists); try done.
    + destruct (read_memory _ _ _); [|done]. destruct w; [by eexists|done].
    + destruct (b_exec_log b); [|done]. by destruct (guest_bytes _ _ _).
    + destruct w; [by eexists|done].
    + unfold hand_blob. destruct (_ && _); [done|]. destruct (_ <? _); [done|]. by destruct (write_memory _ _ _).
    + unfold hand_blob. destruct (_ && _); [done|]. destruct (_ <? _); [done|]. by destruct (write_memory _ _ _).
    + destruct (device_at m device) as [[D HD HL c]|]; done.
    + by destruct (device_at m device).
    + by destruct (device_at m device).
    + by destruct (device_at m device).
  - unfold notify_device. destruct (device_at m device) as [d|]; [|done].
    by destruct (any_notify _ _ _) as [[irqs|e] [d' memory']].
  - unfold on_devices. by destruct (each_device _ _ _) as [[irqs|e] [ds memory]].
  - unfold on_devices. by destruct (each_device _ _ _) as [[irqs|e] [ds memory]].
  - by eexists.
Qed.

Lemma kernel_steps_requests b m m' : rtc (kernel_step b) m m' → ∃ more, m_requests m' = m_requests m ++ more.
Proof.
  induction 1 as [m|m1 m2 m3 Hs _ (more & IH)]; [exists []; by rewrite app_nil_r|].
  destruct (kernel_step_requests _ _ _ Hs) as (more' & E). exists (more' ++ more). by rewrite IH, E, app_assoc.
Qed.

(** ** Interrupts *)

(** The lines of a list, each where it is first. *)
Fixpoint distinct (seen irqs : list Z) : list Z :=
  match irqs with
  | [] => []
  | irq :: irqs => if decide (irq ∈ seen) then distinct seen irqs else irq :: distinct (irq :: seen) irqs
  end.

Lemma elem_of_distinct seen irqs i : i ∈ distinct seen irqs ↔ i ∈ irqs ∧ i ∉ seen.
Proof.
  revert seen; induction irqs as [|irq irqs IH]; intros seen; simpl; [rewrite elem_of_nil; tauto|].
  case_decide; rewrite ?elem_of_cons, IH, ?elem_of_cons; [naive_solver|].
  destruct (decide (i = irq)); naive_solver.
Qed.

Lemma NoDup_distinct seen irqs : NoDup (distinct seen irqs).
Proof.
  revert seen; induction irqs as [|irq irqs IH]; intros seen; simpl; [constructor|]. case_decide; [done|].
  constructor; [|done]. rewrite elem_of_distinct, elem_of_cons. tauto.
Qed.

Lemma distinct_permutation seen seen' irqs : (∀ i, i ∈ seen ↔ i ∈ seen') → distinct seen irqs = distinct seen' irqs.
Proof.
  revert seen seen'; induction irqs as [|irq irqs IH]; intros seen seen' H; simpl; [done|].
  assert (∀ i, i ∈ irq :: seen ↔ i ∈ irq :: seen') as H' by (intros; rewrite !elem_of_cons, H; tauto).
  destruct (decide (irq ∈ seen)) as [Hs|Hs], (decide (irq ∈ seen')) as [Hs'|Hs']; [by apply IH|by destruct Hs'; apply H|by destruct Hs; apply H|].
  f_equal. by apply IH.
Qed.

Section running.
Context {K : Kernel}.

Fixpoint trigger_all (irqs : list Z) (m : Machine) : result trap unit * Machine :=
  match irqs with
  | [] => (Ok tt, m)
  | irq :: irqs =>
      match trigger_irq irq (note_raised m irq) with
      | (Ok _, m) => trigger_all irqs m
      | (Err e, m) => (Err e, m)
      end
  end.

(** Raising a list triggers each line of it once, in order. *)
Lemma raise_distinct irqs m : raise_irqs irqs m = trigger_all (distinct [] irqs) m.
Proof.
  unfold raise_irqs. generalize (@nil Z) as seen. revert m; induction irqs as [|irq irqs IH]; intros m seen; simpl; [done|].
  case_bool_decide as Hs; [by rewrite decide_True, IH|]. rewrite decide_False by done. simpl.
  destruct (trigger_irq irq _) as [[[]|e] m']; [|done]. rewrite IH.
  by rewrite (distinct_permutation (seen ++ [irq]) (irq :: seen)) by set_solver.
Qed.

Context (b : Booted) {KL : KernelLaws b}.
Local Abbreviation steps := (rtc (kernel_step b)).

Lemma raise_from_steps seen irqs m : steps m (raise_from seen irqs m).2.
Proof.
  revert seen m; induction irqs as [|irq irqs IH]; intros seen m; simpl; [done|]. case_bool_decide; [done|].
  eapply rtc_l; [apply step_raised|]. pose proof (trigger_steps irq (note_raised m irq)) as Ht.
  destruct (trigger_irq irq _) as [[u|e] m']; [|done]. etrans; [exact Ht|apply IH].
Qed.

Lemma virtio_notify_steps device queue m : steps m (virtio_notify device queue m).2.
Proof.
  unfold virtio_notify. pose proof (step_notify_device b m device queue) as Hs.
  destruct (notify_device device queue m) as [[irqs|e] m']; [|by apply rtc_once].
  eapply rtc_l; [exact Hs|apply raise_from_steps].
Qed.

Lemma handle_keeps r m n :
  let m' := (handle_request r m).2 in (machine_ok n m → machine_ok n m') ∧ ∃ more, m_requests m' = m_requests m ++ more.
Proof.
  cbv zeta.
  assert (∀ m', steps m m' → (machine_ok n m → machine_ok n m') ∧ ∃ more, m_requests m' = m_requests m ++ more) as Hsteps.
  { intros m' Hs. split; [by eapply kernel_steps_keep|by eapply kernel_steps_requests]. }
  assert (∀ m', m_devices m' = m_devices m → m_memory m' = m_memory m → m_requests m' = m_requests m →
    (machine_ok n m → machine_ok n m') ∧ ∃ more, m_requests m' = m_requests m ++ more) as Hsame.
  { intros m' E1 E2 E3. split; [intros [??]; split; congruence|]. exists []. by rewrite app_nil_r. }
  destruct r; cbn [handle_request]; try (by apply Hsame).
  - apply Hsteps. simpl. unfold deliver_console_input. pose proof (step_typed b m bytes) as Hs.
    destruct (on_devices _ m) as [[irqs|e] m']; [|by apply rtc_once]. eapply rtc_l; [exact Hs|apply raise_from_steps].
  - by destruct (thread_starts function arg m); apply Hsame.
  - apply Hsteps. simpl. apply call_steps.
  - apply Hsteps. simpl. unfold poll_devices. pose proof (step_poll_devices b m) as Hs.
    destruct (on_devices _ m) as [[irqs|e] m']; [|by apply rtc_once]. eapply rtc_l; [exact Hs|apply raise_from_steps].
Qed.

End running.

(** ** Properties of the machine *)


(** C14: a machine asked to stop stops.  Whatever requests are queued before, and whatever the kernel
    does while they are served, the main loop ends after at most one turn for each of them: with the
    reason it was given, or with the error of a request before. *)
Theorem machine_stops {K : Kernel} b {KL : KernelLaws b} m rs t rest fuel :
  m_requests m = rs ++ Terminate t :: rest → (∀ t', Terminate t' ∉ rs) → (length rs < fuel)%nat →
  match run fuel m with
  | (Ended t', _) => t' = t
  | (Failed _, _) => True
  | (Waiting, _) | (CutShort, _) => False
  end.
Proof.
  revert m rest fuel. induction rs as [|r rs IH]; intros m rest [|fuel] Hm Hn Hf; simpl in Hf; try lia; cbn [run].
  - by rewrite Hm.
  - rewrite Hm. cbn [app]. destruct (handle_keeps b r (set_requests m (rs ++ Terminate t :: rest)) 0) as [_ (more & E)].
    assert (∀ t', r ≠ Terminate t') as Hr by (intros t' ->; apply (Hn t'); by left).
    destruct (handle_request r _) as [[[t'|]|e] m'] eqn:Eh; [|..].
    + destruct r; cbn [handle_request] in Eh; try done.
      * by destruct (deliver_console_input _ _) as [[[]|] ?].
      * by destruct (thread_starts _ _ _).
      * by destruct (call_indirect _ _ _) as [[[]|] ?].
      * by destruct (poll_devices _) as [[[]|] ?].
      * by destruct (Hr t0).
    + simpl in E. apply (IH m' (rest ++ more)); [by rewrite E, <-app_assoc| |lia].
      intros t' Hin. apply (Hn t'). by right.
    + done.
Qed.

(** ** The machine's tree *)

Lemma device_name_ok n : 0 <= n → dt_name_ok (lit "virtio" ++ decimal n) = true.
Proof.
  intros Hn. unfold dt_name_ok, decimal. destruct (decimal_digits_ok 20 n Hn) as [H1 H2]. apply andb_true_iff. split.
  - apply bool_decide_eq_true. rewrite length_app. change (length (lit "virtio")) with 6%nat. unfold NAME_MAX. lia.
  - rewrite forallb_app. apply andb_true_iff. split; [done|]. apply forallb_forall. intros b Hb%list_elem_of_In.
    rewrite Forall_forall in H2. apply negb_true_iff, Z.eqb_neq. specialize (H2 b Hb). lia.
Qed.

(** The names of the tree fit, whatever is in it, as long as those of the kernel's sections do. *)
Lemma build_tree_ok o sections initcpio_address memory_size descriptions :
  forallb (λ s, dt_name_ok s.1) (parse_sections sections) = true →
  dt_ok (build_tree o sections initcpio_address memory_size descriptions) = true.
Proof.
  intros Hs. unfold build_tree. cbn [dt_ok]. rewrite !forallb_app. repeat (apply andb_true_iff; split); try done.
  - by destruct (boot_initcpio o).
  - apply forallb_forall. intros p Hp. rewrite forallb_forall in Hs. apply in_map_iff in Hp as (q & <- & Hq). by apply Hs.
  - apply forallb_forall. intros c Hc%list_elem_of_In. apply list_elem_of_lookup in Hc as (i & Hi).
    rewrite list_lookup_imap in Hi. destruct (descriptions !! i) as [[[id fs] cfg]|]; [|done]. simpl in Hi.
    injection Hi as <-. apply andb_true_iff. split; [apply device_name_ok; lia|done].
Qed.

(** The blob the kernel is handed is there, and reads back as that tree. *)
Lemma build_devicetree_read o sections initcpio_address memory_size descriptions :
  forallb (λ s, dt_name_ok s.1) (parse_sections sections) = true →
  0 <= initcpio_address < 18446744073709551616 → Z.of_nat (length (boot_initcpio o)) < 18446744073709551616 →
  ∃ b, build_devicetree o sections initcpio_address memory_size descriptions = Some b ∧
    (Z.of_nat (length b) < 4294967296 →
     read_blob b = Some (mk_blob (tree_of (build_tree o sections initcpio_address memory_size descriptions))
                           (reservations o initcpio_address) 0)).
Proof.
  intros Hs Ha Hl. unfold build_devicetree.
  assert (Forall reservation_ok (reservations o initcpio_address)) as Hres.
  { unfold reservations. destruct (boot_initcpio o) as [|x l] eqn:E; [constructor|]. apply Forall_singleton.
    unfold reservation_ok. cbn [fst snd]. split; [lia|]. split; [cbn [length] in *; lia|]. intros [= ? ?]. }
  destruct (tree_blob_reads (build_tree o sections initcpio_address memory_size descriptions) (reservations o initcpio_address) 0)
    as (b & Hb & Hr); [by apply build_tree_ok|done|lia|]. by exists b.
Qed.

(** *** Instances at concrete inputs *)

(** A kernel that writes to its memory on every interrupt, and runs a CPU on the main thread's work. *)
Definition example_kernel : Kernel := {|
  trigger_irq := λ irq m, (Ok tt, with_memory m (<[0%nat := irq]> (m_memory m)));
  call_indirect := λ function arg m, (Ok tt, send_request m CpuExited);
  thread_starts := λ function arg m, true;
|}.
Lemma example_kernel_laws b : @KernelLaws b example_kernel.
Proof.
  split.
  - intros irq m. apply rtc_once. simpl. apply step_write. unfold grown, mem_size. rewrite length_insert. auto.
  - intros function arg m. apply rtc_once. simpl. apply step_send.
Qed.

Definition example_booted : Booted := mk_booted [1; 2; 3] [] true.
Definition example_memory : mem := replicate 256 0.





Lemma machine_stops_witness :
  match @run example_kernel 3 (set_requests (machine_new [] example_memory) [RunOnMain 1 2; Terminate PowerOff; Wake]) with
  | (Ended t', _) => t' = PowerOff
  | (Failed _, _) => True
  | (Waiting, _) | (CutShort, _) => False
  end.
Proof.
  apply (@machine_stops example_kernel example_booted (example_kernel_laws example_booted) _ [RunOnMain 1 2] PowerOff [Wake] 3).
  - reflexivity.
  - intros t' H. apply list_elem_of_singleton in H. discriminate H.
  - simpl. lia.
Defined.

Example sections_read :
  parse_sections (lit "{" ++ quoted (lit "text") ++ lit ": [16, 32], " ++ quoted (lit "data") ++ lit ":[ 48 ,+7,x]}") =
    [(lit "text", [16; 32]); (lit "data", [48; 7])].
Proof. vm_compute. reflexivity. Qed.

Example exec_read :
  parse_exec 7 (-1) (-2) (lit "/root" ++ [0] ++ lit "/bin/sh" ++ [0] ++ lit "sh" ++ [0] ++ lit "-c" ++ [0]) 40 =
    mk_exec_event 7 4294967295 (lit "/root") (lit "/bin/sh") [lit "sh"; lit "-c"] 20 2.
Proof. vm_compute. reflexivity. Qed.
