(* ===== verification/HostFn.v ===== *)
(** * Host functions (engine/src/hostfn.rs)

    The sandbox's only way to touch the host computer: what the guest asks for, the policy, the
    questions to the app and its replies, and the programs run.  Calls run in threads of their own:
    the bridge is a state between whose steps (a request arrives, the app replies, a call goes on, a
    question times out, the sandbox closes) anything may happen.  Running a program is the operating
    system's ([env_run]); reading and printing JSON is [SerdeJson].  The counter of questions is not
    followed to 2^64. *)
From stdpp Require Import strings.
From S2P Require Import Prelude Str Json.

Local Open Scope Z_scope.

Definition HOST_PORT : Z := 1081.
Definition HOST_MAX_REQUEST : nat := Z.to_nat (1024 * 1024).
Definition MAX_OUTPUT : nat := Z.to_nat (8 * 1024 * 1024).

Inductive HostExec : Type :=
  | ExecDeny
  | ExecAsk
  | ExecAllow.
#[export] Instance host_exec_eq_dec : EqDecision HostExec.
Proof. solve_decision. Defined.

Definition host_exec_parse (text : str) : HostExec :=
  if decide (text = lit "allow") then ExecAllow else if decide (text = lit "ask") then ExecAsk else ExecDeny.
Definition host_exec_name (e : HostExec) : str :=
  match e with ExecAllow => lit "allow" | ExecAsk => lit "ask" | ExecDeny => lit "deny" end.

(** The timeouts are those of the steps. *)
Record HostPolicy := mk_host_policy {
  host_exec : HostExec;
  functions : list str;
}.

Record CallError := mk_call_error { err_kind : str; err_message : str }.
Definition refuse_call {A} (kind message : str) : result CallError A := Err (mk_call_error kind message).

(** The app's answer to a question. *)
Inductive HostReply : Type :=
  | ReplyResult (v : Value)
  | ReplyError (kind message : str)
  | ReplyAllow (allow remember : bool).

(** ** What a call is about *)

Inductive Question : Type :=
  | AskCall (function : str) (args : Value)
  | AskExec (argv : list str) (cwd stdin : option str) (timeout_ms : Z) (gui : bool)
  | AskOpen (target : str)
  | AskOther (kind target : str).

(** What the app is shown: the id and the question without what is only run with. *)
Inductive HostAsk : Type :=
  | AskedCall (call_id : Z) (function : str) (args : Value)
  | AskedPermission (request_id : Z) (kind : str) (argv : list str) (cwd : option str) (gui : bool) (target : option str).

Definition shown (id : Z) (q : Question) : HostAsk :=
  match q with
  | AskCall function args => AskedCall id function args
  | AskExec argv cwd _ _ gui => AskedPermission id (lit "exec") argv cwd gui None
  | AskOpen target => AskedPermission id (lit "open") [] None true (Some target)
  | AskOther kind target => AskedPermission id kind [] None false (Some target)
  end.

(** A program to run: where, with what input ([None]: detached), for how long. *)
Record HostRun := mk_host_run {
  run_argv : list str;
  run_cwd : option str;
  run_input : option str;
  run_limit : Z;
}.

Inductive HostOutcome : Type :=
  | SpawnFailed (e : str)
  | Detached (pid : Z)
  | WaitFailed (e : str)
  | Exited (code : option Z) (timed_out : bool) (out err : list Z).

Record HostEnv := mk_host_env {
  env_policy : HostPolicy;
  env_run : HostRun → HostOutcome;
  env_home : option str;
  env_os : str;
  env_arch : str;
}.

Definition host_platform (env : HostEnv) : str :=
  if decide (env_os env = lit "macos") then lit "darwin"
  else if decide (env_os env = lit "windows") then lit "win32" else env_os env.
Definition host_arch (env : HostEnv) : str :=
  if decide (env_arch env = lit "x86_64") then lit "x64"
  else if decide (env_arch env = lit "aarch64") then lit "arm64" else env_arch env.

Definition open_command (env : HostEnv) (target : str) : list str :=
  let program :=
    if decide (host_platform env = lit "darwin") then lit "open"
    else if decide (host_platform env = lit "win32") then lit "explorer.exe" else lit "xdg-open" in
  [program; target].

Definition host_run_of (env : HostEnv) (argv : list str) (cwd stdin : option str) (timeout_ms : Z) (gui : bool) : HostRun :=
  let cwd := match cwd with Some (b :: s) => Some (b :: s) | _ => env_home env end in
  mk_host_run argv cwd (if gui then None else Some (default [] stdin)) (Z.min timeout_ms (10 * 60000)).

(** [run_host_program]: what became of it, as the guest hears it. *)
Definition run_host_program (env : HostEnv) (run : HostRun) : result CallError Value :=
  match env_run env run with
  | SpawnFailed e => refuse_call (lit "failed") (default [] (head (run_argv run)) ++ lit ": " ++ e)
  | Detached pid => Ok (Object [(lit "pid", Number pid)])
  | WaitFailed e => refuse_call (lit "failed") e
  | Exited code timed_out out err =>
      Ok (Object [(lit "exitCode", Number (default (if timed_out then 137 else 1) code));
                  (lit "timedOut", Bool timed_out);
                  (lit "stderr", String (from_utf8_lossy (take MAX_OUTPUT err)));
                  (lit "stdout", String (from_utf8_lossy (take MAX_OUTPUT out)))])
  end.

(** The program a question is about, if it is about one. *)
Definition program_of (env : HostEnv) (q : Question) : option HostRun :=
  match q with
  | AskCall _ _ | AskOther _ _ => None
  | AskExec argv cwd stdin timeout_ms gui => Some (host_run_of env argv cwd stdin timeout_ms gui)
  | AskOpen target => Some (host_run_of env (open_command env target) None None 60000 true)
  end.

(** ** Reading a request *)

Section requests.
Context {J : SerdeJson}.

(** The request's line, read in chunks: an empty one is the end of the stream. *)
Fixpoint read_text (text : list Z) (chunks : list (result str (list Z))) : result CallError (list Z) :=
  match split_once [LF] text with
  | Some (line, _) => Ok line
  | None =>
      if bool_decide (HOST_MAX_REQUEST < length text)%nat then refuse_call (lit "bad-request") (lit "request too large")
      else match chunks with
           | [] | Ok [] :: _ => refuse_call (lit "bad-request") (lit "connection closed before the request line ended")
           | Ok chunk :: chunks => read_text (text ++ chunk) chunks
           | Err e :: _ => refuse_call (lit "bad-request") e
           end
  end.

Definition read_request (chunks : list (result str (list Z))) : result CallError (str * Value) :=
  text ← read_text [] chunks;
  match from_slice text with
  | Err e => refuse_call (lit "bad-request") (lit "the request is not valid JSON: " ++ e)
  | Ok request =>
      match get (lit "fn") request ≫= as_str with
      | Some function => Ok (function, default (Object []) (get (lit "args") request))
      | None => refuse_call (lit "bad-request")
                  (lit "expected {" ++ quoted (lit "fn") ++ lit ": " ++ quoted (lit "...") ++ lit ", " ++
                   quoted (lit "args") ++ lit ": {...}}")
      end
  end.

(** ** Dispatch *)

(** What a request leads to: an answer, a program, or a question to the app first. *)
Inductive Verdict : Type :=
  | Answer (r : result CallError Value)
  | Perform (q : Question)
  | Inquire (q : Question).

(** [check_access] for a program. *)
Definition check_access (policy : HostPolicy) (q : Question) : Verdict :=
  match host_exec policy with
  | ExecAllow => Perform q
  | ExecDeny =>
      Answer (refuse_call (lit "denied") (lit "running host programs is not allowed for this sandbox (hostExec policy)"))
  | ExecAsk => Inquire q
  end.

Definition dispatch (env : HostEnv) (function : str) (args : Value) : Verdict :=
  let policy := env_policy env in
  if decide (function = lit "list") then
    Answer (Ok (Array (String <$> [lit "list"; lit "info"; lit "exec"; lit "open"] ++ functions policy)))
  else if decide (function = lit "info") then
    Answer (Ok (Object [(lit "platform", String (host_platform env)); (lit "arch", String (host_arch env));
                        (lit "hostExec", String (host_exec_name (host_exec policy)))]))
  else if decide (function = lit "exec") then
    match omap as_str (default [] (get (lit "argv") args ≫= as_array)) with
    | [] => Answer (refuse_call (lit "bad-request") (lit "argv must be a non-empty list of strings"))
    | argv =>
        let cwd := get (lit "cwd") args ≫= as_str in
        let gui := default false (get (lit "gui") args ≫= as_bool) in
        let stdin := get (lit "stdin") args ≫= as_str in
        let timeout_ms := default 60000 (get (lit "timeoutMs") args ≫= as_u64) in
        check_access policy (AskExec argv cwd stdin timeout_ms gui)
    end
  else if decide (function = lit "open") then
    match get (lit "target") args ≫= as_str with
    | Some (b :: target) => check_access policy (AskOpen (b :: target))
    | _ => Answer (refuse_call (lit "bad-request") (lit "open needs a target"))
    end
  else if existsb (λ name, bool_decide (name = function)) (functions policy) then Inquire (AskCall function args)
  else Answer (refuse_call (lit "unknown-function")
                 (lit "the host offers no function " ++ quoted function ++ lit " (hostcall --list)")).

(** How a question of a call went: the answer, or permission for a program ([None]). *)
Definition conclude (q : Question) (r : option HostReply) : option (result CallError Value) :=
  match q, r with
  | AskCall _ _, Some (ReplyResult v) => Some (Ok v)
  | AskCall _ _, Some (ReplyError kind message) => Some (refuse_call kind message)
  | AskCall _ _, Some (ReplyAllow _ _) =>
      Some (refuse_call (lit "failed") (lit "the app answered a call with a permission"))
  | AskCall _ _, None => Some (refuse_call (lit "timeout") (lit "the app did not answer"))
  | _, Some (ReplyAllow true _) => None
  | _, Some _ => Some (refuse_call (lit "denied") (lit "the user did not allow it"))
  | _, None => Some (refuse_call (lit "denied") (lit "nobody answered the permission request"))
  end.

(** [ask_permission]: whether the app allows something else, and for the session. *)
Definition permission (r : option HostReply) : option (bool * bool) :=
  match r with
  | None => None
  | Some (ReplyAllow allow remember) => Some (allow, remember)
  | Some _ => Some (false, false)
  end.

Definition response (r : result CallError Value) : Value :=
  match r with
  | Ok v => Object [(lit "ok", Bool true); (lit "result", v)]
  | Err e => Object [(lit "ok", Bool false);
                     (lit "error", Object [(lit "kind", String (err_kind e)); (lit "message", String (err_message e))])]
  end.

(** ** The bridge *)

(** [waiting]: the questions a reply is taken for; [calls]: the calls that wait, with the reply they
    have been sent; [asked], [ran] and [responses]: what the app was asked, what the host ran and what
    the guest was answered. *)
Record HostBridge := mk_host_bridge {
  waiting : gset Z;
  next_id : Z;
  calls : gmap Z (Question * option HostReply);
  asked : list HostAsk;
  ran : list HostRun;
  responses : list Value;
  granted : list (option (bool * bool));
}.

Definition bridge_new : HostBridge := mk_host_bridge ∅ 1 ∅ [] [] [] [].

Definition answer_call (r : result CallError Value) (s : HostBridge) : HostBridge :=
  mk_host_bridge (waiting s) (next_id s) (calls s) (asked s) (ran s) (responses s ++ [response r]) (granted s).

Definition perform (env : HostEnv) (q : Question) (s : HostBridge) : HostBridge :=
  match program_of env q with
  | Some run =>
      let s := mk_host_bridge (waiting s) (next_id s) (calls s) (asked s) (ran s ++ [run]) (responses s) (granted s) in
      answer_call (run_host_program env run) s
  | None => s
  end.

(** [ask_app], up to the wait. *)
Definition inquire (q : Question) (s : HostBridge) : HostBridge :=
  let id := next_id s in
  mk_host_bridge ({[id]} ∪ waiting s) (id + 1) (<[id := (q, None)]> (calls s)) (asked s ++ [shown id q]) (ran s) (responses s)
    (granted s).

(** A call the guest makes, until it is answered or waits. *)
Definition handle_call (env : HostEnv) (chunks : list (result str (list Z))) (s : HostBridge) : HostBridge :=
  match read_request chunks with
  | Err e => answer_call (Err e) s
  | Ok (function, args) =>
      match dispatch env function args with
      | Answer r => answer_call r s
      | Perform q => perform env q s
      | Inquire q => inquire q s
      end
  end.

(** The app's reply; false when nothing waits for it.  A call that gave up waiting has its end of the
    channel until its question is removed: a reply in between is sent, and read by nobody. *)
Definition reply (id : Z) (r : HostReply) (s : HostBridge) : bool * HostBridge :=
  if bool_decide (id ∈ waiting s) then
    (true, mk_host_bridge (waiting s ∖ {[id]}) (next_id s) (alter (λ c, (c.1, Some r)) id (calls s)) (asked s) (ran s)
             (responses s) (granted s))
  else (false, s).

(** A call goes on, with its reply or, when it has waited long enough, without one.  Then it has given
    up, whatever comes between that and the removal of its question ([remove_question]). *)
Definition go_on (env : HostEnv) (id : Z) (s : HostBridge) : HostBridge :=
  match calls s !! id with
  | None => s
  | Some (q, r) =>
      let s := mk_host_bridge (waiting s) (next_id s) (delete id (calls s)) (asked s) (ran s) (responses s) (granted s) in
      match q with
      | AskOther _ _ =>
          mk_host_bridge (waiting s) (next_id s) (calls s) (asked s) (ran s) (responses s) (granted s ++ [permission r])
      | _ =>
          match conclude q r with
          | Some r => answer_call r s
          | None => perform env q s
          end
      end
  end.

(** The end of [ask_app] when it gave up; nothing to remove where the call is still waiting, which only
    its own thread ends. *)
Definition remove_question (id : Z) (s : HostBridge) : HostBridge :=
  match calls s !! id with
  | Some _ => s
  | None => mk_host_bridge (waiting s ∖ {[id]}) (next_id s) (calls s) (asked s) (ran s) (responses s) (granted s)
  end.

(** [close]: what waits will not be replied to. *)
Definition close_bridge (s : HostBridge) : HostBridge :=
  mk_host_bridge ∅ (next_id s) (calls s) (asked s) (ran s) (responses s) (granted s).

Inductive HostStep : Type :=
  | Calls (env : HostEnv) (chunks : list (result str (list Z)))
  | Replies (id : Z) (r : HostReply)
  | GoesOn (env : HostEnv) (id : Z)
  | Removes (id : Z)
  | Asks (kind target : str)
  | Closes.

Definition host_step (st : HostStep) (s : HostBridge) : HostBridge :=
  match st with
  | Calls env chunks => handle_call env chunks s
  | Replies id r => (reply id r s).2
  | GoesOn env id => go_on env id s
  | Removes id => remove_question id s
  | Asks kind target => inquire (AskOther kind target) s
  | Closes => close_bridge s
  end.

(** Every order of steps is a run. *)
Definition host_steps (steps : list HostStep) : HostBridge := foldl (λ s st, host_step st s) bridge_new steps.
End requests.

(** ** Who a program was run for *)

Section guarded.
Context {J : SerdeJson}.
Implicit Types (s : HostBridge) (steps : list HostStep) (q : Question).

(** What a request asks for, if it is a program or a function of the app. *)
Definition verdict (env : HostEnv) (chunks : list (result str (list Z))) : Verdict :=
  match read_request chunks with
  | Err e => Answer (Err e)
  | Ok (function, args) => dispatch env function args
  end.

Lemma handle_call_verdict env chunks s :
  handle_call env chunks s =
  match verdict env chunks with
  | Answer r => answer_call r s
  | Perform q => perform env q s
  | Inquire q => inquire q s
  end.
Proof. unfold handle_call, verdict. by destruct (read_request chunks) as [[function args]|e]. Qed.

(** Among the steps, question [id] was put to the app for [q], by a call under the policy "ask" when it
    is for a program. *)
Definition put_to_app (steps : list HostStep) (id : Z) (q : Question) : Prop :=
  ∃ before st, before ++ [st] `prefix_of` steps ∧ id = next_id (host_steps before) ∧
    ((∃ kind target, st = Asks kind target ∧ q = AskOther kind target) ∨
     ∃ env chunks, st = Calls env chunks ∧ verdict env chunks = Inquire q ∧
       (∀ env', is_Some (program_of env' q) → host_exec (env_policy env) = ExecAsk)).

(** The app allowed it, in answer to this very question. *)
Definition app_allowed (steps : list HostStep) (id : Z) (q : Question) : Prop :=
  put_to_app steps id q ∧ ∃ remember, Replies id (ReplyAllow true remember) ∈ steps.

Lemma check_access_inquires policy q q' :
  check_access policy q = Inquire q' → q' = q ∧ host_exec policy = ExecAsk.
Proof. unfold check_access. destruct (host_exec policy); try done. by intros [= <-]. Qed.

Lemma check_access_performs policy q q' :
  check_access policy q = Perform q' → q' = q ∧ host_exec policy = ExecAllow.
Proof. unfold check_access. destruct (host_exec policy); try done. by intros [= <-]. Qed.

Lemma dispatch_inquires env function args q env' :
  dispatch env function args = Inquire q → is_Some (program_of env' q) → host_exec (env_policy env) = ExecAsk.
Proof.
  unfold dispatch. repeat case_decide; try done.
  - destruct (omap _ _); [done|]. intros [_ ?]%check_access_inquires. done.
  - destruct (_ ≫= as_str) as [[|b target]|]; try done. intros [_ ?]%check_access_inquires. done.
  - destruct (existsb _ _); [|done]. intros [= <-] [? ?]. done.
Qed.

Lemma dispatch_performs env function args q :
  dispatch env function args = Perform q → host_exec (env_policy env) = ExecAllow.
Proof.
  unfold dispatch. repeat case_decide; try done.
  - destruct (omap _ _); [done|]. by intros [_ ?]%check_access_performs.
  - destruct (_ ≫= as_str) as [[|b target]|]; try done. by intros [_ ?]%check_access_performs.
  - by destruct (existsb _ _).
Qed.

Lemma verdict_inquires env chunks q env' :
  verdict env chunks = Inquire q → is_Some (program_of env' q) → host_exec (env_policy env) = ExecAsk.
Proof. unfold verdict. destruct (read_request chunks) as [[f a]|]; [apply dispatch_inquires|done]. Qed.
Lemma verdict_performs env chunks q : verdict env chunks = Perform q → host_exec (env_policy env) = ExecAllow.
Proof. unfold verdict. destruct (read_request chunks) as [[f a]|]; [apply dispatch_performs|done]. Qed.

Lemma put_to_app_snoc steps st id q : put_to_app steps id q → put_to_app (steps ++ [st]) id q.
Proof. intros (before & st' & Hp & H). exists before, st'. split; [|done]. by apply prefix_app_r. Qed.

Lemma host_steps_snoc steps st : host_steps (steps ++ [st]) = host_step st (host_steps steps).
Proof. unfold host_steps. by rewrite foldl_app. Qed.

Lemma perform_calls env q s :
  calls (perform env q s) = calls s ∧ waiting (perform env q s) = waiting s ∧ next_id (perform env q s) = next_id s.
Proof. unfold perform. by destruct (program_of env q). Qed.

(** What waits was asked, is waited for under its own id, and has only what it was replied. *)
Definition waits_for (steps : list HostStep) (id : Z) (c : Question * option HostReply) : Prop :=
  put_to_app steps id c.1 ∧ ∀ r, c.2 = Some r → Replies id r ∈ steps.

Lemma calls_invariant steps :
  let s := host_steps steps in
  ∀ id c, calls s !! id = Some c → id < next_id s ∧ waits_for steps id c.
Proof.
  induction steps as [|st steps IHc] using rev_ind; cbv zeta in *; [done|].
  rewrite host_steps_snoc. set (s := host_steps steps) in *.
  assert (∀ id c, waits_for steps id c → waits_for (steps ++ [st]) id c) as Hmono.
  { intros id c [Hp Hr]. split; [by apply put_to_app_snoc|]. intros r Hc. apply elem_of_app. left. by apply Hr. }
  assert (∀ s', calls s' = calls s → next_id s' = next_id s →
    ∀ id c, calls s' !! id = Some c → id < next_id s' ∧ waits_for (steps ++ [st]) id c) as Hsame.
  { intros s' -> -> id c Hc. destruct (IHc id c Hc). by auto. }
  assert (∀ q, put_to_app (steps ++ [st]) (next_id s) q →
    ∀ id c, calls (inquire q s) !! id = Some c → id < next_id (inquire q s) ∧ waits_for (steps ++ [st]) id c) as Hinq.
  { intros q Hq id c. cbn [inquire calls next_id]. destruct (decide (id = next_id s)) as [->|Hne].
    - rewrite lookup_insert_eq. intros [= <-]. split; [lia|]. by split.
    - rewrite lookup_insert_ne by done. intros Hc. destruct (IHc id c Hc). split; [lia|auto]. }
  destruct st as [env chunks|id r|env id|id|kind target|].
  - cbn [host_step]. rewrite handle_call_verdict. destruct (verdict env chunks) as [r|q|q] eqn:Ev.
    + by apply Hsame.
    + destruct (perform_calls env q s) as (? & ? & ?). by apply Hsame.
    + apply Hinq. exists steps, (Calls env chunks). split_and!; [done|done|]. right. exists env, chunks.
      split_and!; [done|done|]. intros env' Hp. by eapply verdict_inquires.
  - cbn [host_step]. unfold reply. case_bool_decide as Hin; [|by apply Hsame]. cbn [snd calls next_id].
    intros i c Hc. destruct (decide (i = id)) as [->|Hne].
    + rewrite lookup_alter_eq in Hc. destruct (calls s !! id) as [[q o]|] eqn:E; [|done]. injection Hc as <-.
      destruct (IHc id _ E) as [Hlt Hw]. split; [done|]. split; [by apply put_to_app_snoc, Hw|].
      intros r' [= <-]. apply elem_of_app. right. by left.
    + rewrite lookup_alter_ne in Hc by done. destruct (IHc i c Hc). by auto.
  - cbn [host_step]. unfold go_on. destruct (calls s !! id) as [[q o]|] eqn:E; [|by apply Hsame].
    set (s' := mk_host_bridge (waiting s) _ _ _ _ _ _).
    assert (∀ i c, calls s' !! i = Some c → i < next_id s' ∧ waits_for (steps ++ [GoesOn env id]) i c) as Hs'.
    { cbn [s' calls next_id]. intros i c Hc. rewrite lookup_delete_Some in Hc. destruct Hc as [Hne Hc].
      destruct (IHc i c Hc). by auto. }
    destruct (perform_calls env q s') as (E1 & E2 & E3).
    destruct q; try exact Hs'; (destruct (conclude _ o); [exact Hs'|by rewrite E1, E3]).
  - cbn [host_step]. unfold remove_question. destruct (calls s !! id); by apply Hsame.
  - cbn [host_step]. apply Hinq. exists steps, (Asks kind target). split_and!; [done|done|]. left. by exists kind, target.
  - by apply Hsame.
Qed.

Lemma perform_ran env q s :
  ran (perform env q s) = ran s ++ option_list (program_of env q).
Proof. unfold perform. destruct (program_of env q); [done|]. by rewrite app_nil_r. Qed.

(** Steps that start something that ends in one answer. *)
Definition starts (st : HostStep) : Prop := match st with Calls _ _ | Asks _ _ => True | _ => False end.
#[export] Instance starts_dec st : Decision (starts st).
Proof. destruct st; apply _. Defined.

Definition settled (s : HostBridge) : nat := size (calls s) + length (responses s) + length (granted s).

Lemma settled_perform env q s : is_Some (program_of env q) → settled (perform env q s) = S (settled s).
Proof. unfold perform, settled. intros [run ->]. simpl. rewrite length_app. simpl. lia. Qed.

Lemma settled_answer r s : settled (answer_call r s) = S (settled s).
Proof. unfold settled. simpl. rewrite length_app. simpl. lia. Qed.

Lemma conclude_program q r : conclude q r = None → (∀ kind target, q ≠ AskOther kind target) →
  (∀ env, is_Some (program_of env q)) ∧ ∃ remember, r = Some (ReplyAllow true remember).
Proof.
  intros Hc Hq. destruct q; simpl in Hc; [by repeat case_match| | |by destruct (Hq kind target)];
    (split; [by eexists|]); destruct r as [[| |[] remember]|]; try done; by exists remember.
Qed.

Lemma check_access_program policy q q' env : check_access policy q = Perform q' → is_Some (program_of env q) → is_Some (program_of env q').
Proof. by intros [-> _]%check_access_performs. Qed.

Lemma verdict_program env chunks q : verdict env chunks = Perform q → is_Some (program_of env q).
Proof.
  unfold verdict, dispatch. destruct (read_request chunks) as [[f a]|]; [|done]. repeat case_decide; try done.
  - destruct (omap _ _); [done|]. intros Hx. eapply check_access_program; [exact Hx|by eexists].
  - destruct (_ ≫= as_str) as [[|b target]|]; try done. intros Hx. eapply check_access_program; [exact Hx|by eexists].
  - by destruct (existsb _ _).
Qed.

Lemma settled_steps steps : settled (host_steps steps) = length (filter starts steps).
Proof.
  induction steps as [|st steps IH] using rev_ind; [done|]. rewrite host_steps_snoc, filter_app, length_app.
  pose proof (calls_invariant steps) as Hc. cbv zeta in Hc. set (s := host_steps steps) in *. rewrite <-IH. clear IH.
  assert (∀ q, settled (inquire q s) = S (settled s)) as Hinq.
  { intros q. unfold settled. cbn [inquire calls responses granted]. rewrite map_size_insert_None; [lia|].
    destruct (calls s !! next_id s) as [c|] eqn:E; [|done]. destruct (Hc _ _ E). lia. }
  destruct st as [env chunks|id r|env id|id|kind target|]; cbn [host_step].
  - rewrite filter_cons_True by done. rewrite handle_call_verdict. destruct (verdict env chunks) eqn:E; simpl length.
    + rewrite settled_answer. lia.
    + rewrite settled_perform by by eapply verdict_program. lia.
    + rewrite Hinq. lia.
  - rewrite filter_cons_False by auto. unfold reply. case_bool_decide; [|simpl; lia]. unfold settled. simpl.
    assert (size (alter (λ c : Question * option HostReply, (c.1, Some r)) id (calls s)) = size (calls s)) as ->; [|lia].
    rewrite <-!size_dom. by rewrite dom_alter_L.
  - rewrite filter_cons_False by auto. simpl length. unfold go_on. destruct (calls s !! id) as [[q o]|] eqn:E; [|lia].
    set (s' := mk_host_bridge (waiting s) _ _ _ _ _ _).
    assert (S (settled s') = settled s) as Hs'.
    { unfold settled. cbn [s' calls responses granted]. rewrite map_size_delete, E. simpl.
      assert (size (calls s) ≠ 0)%nat; [|lia]. rewrite map_size_non_empty_iff. intros He. by rewrite He in E. }
    rewrite <-Hs', Nat.add_0_r.
    assert (∀ q, (∀ kind target, q ≠ AskOther kind target) →
      settled (match conclude q o with Some r => answer_call r s' | None => perform env q s' end) = S (settled s')) as Hq.
    { intros q' Hq'. destruct (conclude q' o) eqn:Ec; [by rewrite settled_answer|].
      apply conclude_program in Ec as [Hp _]; [|done]. by rewrite settled_perform. }
    destruct q; try (apply Hq; done). unfold settled. simpl. rewrite length_app. simpl. lia.
  - rewrite filter_cons_False by auto. assert (settled (remove_question id s) = settled s) as -> by (unfold remove_question; by destruct (calls s !! id)).
    simpl. lia.
  - rewrite filter_cons_True by done. rewrite Hinq. simpl. lia.
  - rewrite filter_cons_False by auto. unfold settled. simpl. lia.
Qed.

(** C6: a program runs on the host only for a call whose policy allows it, or for one the app was
    asked about under the policy "ask" and allowed, in answer to this very question: whatever the
    guest sends, the app replies, and in whatever order.  And every call of the guest is answered
    once, or still waits: none is lost and none is answered twice. *)
Theorem host_programs_guarded steps st :
  let s := host_steps steps in
  (ran (host_step st s) = ran s ∨
   ∃ env q run, program_of env q = Some run ∧ ran (host_step st s) = ran s ++ [run] ∧
     ((∃ chunks, st = Calls env chunks ∧ verdict env chunks = Perform q ∧ host_exec (env_policy env) = ExecAllow) ∨
      (∃ id, st = GoesOn env id ∧ app_allowed steps id q))) ∧
  (size (calls s) + length (responses s) + length (granted s) = length (filter starts steps))%nat.
Proof.
  cbv zeta. split; [|apply settled_steps]. pose proof (calls_invariant steps) as Hc. cbv zeta in Hc.
  set (s := host_steps steps) in *. destruct st as [env chunks|id r|env id|id|kind target|]; cbn [host_step]; try (by left).
  - rewrite handle_call_verdict. destruct (verdict env chunks) as [r|q|q] eqn:E; [by left| |by left].
    destruct (verdict_program _ _ _ E) as [run Hr]. right. exists env, q, run. split; [done|].
    split; [by rewrite perform_ran, Hr|]. left. exists chunks. split_and!; [done|done|by eapply verdict_performs].
  - left. unfold reply. by case_bool_decide.
  - unfold go_on. destruct (calls s !! id) as [[q o]|] eqn:E; [|by left].
    destruct (Hc _ _ E) as [_ [Hput Hrep]]. set (s' := mk_host_bridge (waiting s) _ _ _ _ _ _).
    assert ((∀ kind target, q ≠ AskOther kind target) →
      let s'' := match conclude q o with Some r => answer_call r s' | None => perform env q s' end in
      ran s'' = ran s ∨ ∃ env' q run, program_of env' q = Some run ∧ ran s'' = ran s ++ [run] ∧
      ((∃ chunks, GoesOn env id = Calls env' chunks ∧ verdict env' chunks = Perform q ∧ host_exec (env_policy env') = ExecAllow) ∨
       (∃ i, GoesOn env id = GoesOn env' i ∧ app_allowed steps i q))) as Hq.
    { intros Hq. cbv zeta. destruct (conclude q o) eqn:Ec; [by left|].
      apply conclude_program in Ec as [Hp (remember & ->)]; [|done]. destruct (Hp env) as [run Hr]. right.
      exists env, q, run. split; [done|]. split; [by rewrite perform_ran, Hr|]. right. exists id. split; [done|].
      split; [done|]. exists remember. by apply Hrep. }
    destruct q; try (by apply Hq); by left.
  - left. unfold remove_question. by destruct (calls s !! id).
Qed.
End guarded.

(** *** Runs *)

Section example.

Definition example_host_json : SerdeJson := {|
  from_slice := λ l,
    if decide (l = lit "ls") then
      Ok (Object [(lit "fn", String (lit "exec")); (lit "args", Object [(lit "argv", Array [String (lit "ls")])])])
    else Err (lit "expected value");
  to_vec := λ _, lit "{}" |}.
Definition example_host_env (e : HostExec) : HostEnv :=
  mk_host_env (mk_host_policy e []) (λ _, Exited (Some 0) false (lit "a") []) (Some (lit "/home/me")) (lit "linux") (lit "x86_64").

(** Under "ask", a program runs when the app allows the question it was asked, and only then. *)
Example host_run_asked :
  let J := example_host_json in
  let call := Calls (example_host_env ExecAsk) [Ok (lit "ls" ++ [LF])] in
  let allowed := host_steps [call; call; Replies 2 (ReplyAllow true false); GoesOn (example_host_env ExecAsk) 2] in
  asked allowed = [AskedPermission 1 (lit "exec") [lit "ls"] None false None;
                   AskedPermission 2 (lit "exec") [lit "ls"] None false None] ∧
  ran allowed = [mk_host_run [lit "ls"] (Some (lit "/home/me")) (Some []) 60000] ∧
  size (calls allowed) = 1%nat.
Proof. vm_compute. by split_and!. Qed.

(** A permission that comes when the call has just given up is taken from the app, and nothing runs. *)
Example late_permission_lost :
  let J := example_host_json in
  let call := Calls (example_host_env ExecAsk) [Ok (lit "ls" ++ [LF])] in
  let late := host_steps [call; GoesOn (example_host_env ExecAsk) 1] in
  (reply 1 (ReplyAllow true false) late).1 = true ∧
  ran (host_steps [call; GoesOn (example_host_env ExecAsk) 1; Replies 1 (ReplyAllow true false); Removes 1]) = [].
Proof. vm_compute. by split_and!. Qed.

Example host_run_denied :
  let J := example_host_json in
  ran (host_steps [Calls (example_host_env ExecDeny) [Ok (lit "ls" ++ [LF])]]) = [].
Proof. vm_compute. reflexivity. Qed.
End example.
