(* ===== verification/Log.v ===== *)
(** * Logs (engine/src/log.rs)

    Lines made safe for a log, arguments quoted as a shell needs them, sizes, and a log file with its
    limit and rotation.  Files are what they hold, by number (0 is FILE, n is FILE.n); which of the
    host's file operations fail is a parameter of each write. *)
From stdpp Require Import strings.
From S2P Require Import Prelude Str.

Local Open Scope Z_scope.

Definition LINE_LIMIT : nat := Z.to_nat 4096.
Definition MARKER_ROOM : nat := 40.

(** ** Lines *)

(** [{:x}]: without leading zeros. *)
Definition hex_plain (n : Z) : str :=
  let digits := [hex_char (Z.shiftr n 12); hex_char (Z.land (Z.shiftr n 8) 15);
                 hex_char (Z.land (Z.shiftr n 4) 15); hex_char (Z.land n 15)] in
  drop (if n <? 16 then 3%nat else if n <? 256 then 2%nat else if n <? 4096 then 1%nat else 0%nat) digits.

(** One character (its bytes) as it goes into a line. *)
Definition escape (c : str) : str :=
  match c with
  | [b] =>
      if b =? 10 then lit "\n"
      else if b =? 13 then lit "\r"
      else if b =? 9 then lit "\t"
      else if (b <? 32) || (b =? 127) then lit "\x" ++ [hex_char (Z.shiftr b 4); hex_char (Z.land b 15)]
      else c
  | [a; b] => if (a =? 194) && in_range 128 159 b then lit "\u{" ++ hex_plain b ++ lit "}" else c
  | [a; b; d] =>
      if (a =? 226) && (b =? 128) && in_range 170 174 d then lit "\u{" ++ hex_plain (0x2000 + d - 128) ++ lit "}"
      else if (a =? 226) && (b =? 129) && in_range 166 169 d then lit "\u{" ++ hex_plain (0x2040 + d - 128) ++ lit "}"
      else c
  | _ => c
  end.

(** " …[+N bytes]". *)
Definition marker (n : Z) : str := [32; 226; 128; 166] ++ lit "[+" ++ decimal n ++ lit " bytes]".

(** The escaped text, and where to cut it: its length there and the source's byte. *)
Fixpoint clean_loop (cs : list str) (at_ : nat) (out : str) (cut : option (nat * nat)) : str * option (nat * nat) :=
  match cs with
  | [] => (out, cut)
  | c :: cs =>
      let before := length out in
      let out := out ++ escape c in
      let cut := match cut with
                 | None => if bool_decide (LINE_LIMIT - MARKER_ROOM < length out)%nat then Some (before, at_) else None
                 | Some _ => cut
                 end in
      if bool_decide (LINE_LIMIT < length out)%nat then (out, cut)
      else clean_loop cs (at_ + length c) out cut
  end.

Definition clean_cut (line : str) (missing : nat) : str :=
  let room := (LINE_LIMIT - MARKER_ROOM)%nat in
  let '(out, cut) := clean_loop (chars line) 0 [] None in
  let fits := bool_decide (length out ≤ if bool_decide (0 < missing)%nat then room else LINE_LIMIT)%nat in
  match cut with
  | Some (len, at_) =>
      if negb fits then take len out ++ marker (Z.of_nat (length line - at_ + missing))
      else if bool_decide (0 < missing)%nat then out ++ marker (Z.of_nat missing) else out
  | None => if bool_decide (0 < missing)%nat then out ++ marker (Z.of_nat missing) else out
  end.

Definition clean (line : str) : str := clean_cut line 0.

(** The last character boundary up to [n]. *)
Fixpoint boundary (text : str) (n : nat) : nat :=
  match n with
  | O => O
  | S n' => if bool_decide (n = length text) || match text !! n with Some b => negb (is_continuation b) | None => false end
            then n else boundary text n'
  end.

Definition shorten (text : str) (max : nat) : str :=
  if bool_decide (length text ≤ max)%nat then text
  else let at_ := boundary text max in take at_ text ++ marker (Z.of_nat (length text - at_)).

(** ** Shell words *)

Definition is_alnum (b : Z) : bool := in_range 48 57 b || in_range 65 90 b || in_range 97 122 b.
Definition plain_byte (b : Z) : bool :=
  is_alnum b || bool_decide (b ∈ lit "@%+=:,./-_") || (128 <=? b).

Definition APOSTROPHE : Z := 39.
Definition quote (argument : str) : str :=
  if negb (bool_decide (argument = [])) && forallb plain_byte argument then argument
  else [APOSTROPHE] ++ replace [APOSTROPHE] ([APOSTROPHE] ++ lit "\" ++ [APOSTROPHE; APOSTROPHE]) argument ++ [APOSTROPHE].

(** argv as one line of shell words. *)
Definition quote_all (argv : list str) : str := join [32] (quote <$> argv).

(** ** Sizes *)

Inductive size_error : Type :=
  | NotASize
  | ZeroSize
  | TooLarge.

(** The letter after the number. *)
Definition unit_shift (b : Z) : option Z :=
  if decide (b = chr "B" ∨ b = chr "b") then Some 0
  else if decide (b = chr "K" ∨ b = chr "k") then Some 10
  else if decide (b = chr "M" ∨ b = chr "m") then Some 20
  else if decide (b = chr "G" ∨ b = chr "g") then Some 30
  else None.

Definition parse_size (text : str) : result size_error Z :=
  let text := trim_text text in
  let '(number, shift) :=
    match last text with
    | Some b => if in_range 65 90 b || in_range 97 122 b then (take (length text - 1) text, unit_shift b) else (text, Some 0)
    | None => (text, Some 0)
    end in
  shift ← ok_or shift NotASize;
  n ← ok_or (parse_unsigned 18446744073709551616 (trim_text number)) NotASize;
  if n =? 0 then Err ZeroSize
  else if n * 2 ^ shift <? 18446744073709551616 then Ok (n * 2 ^ shift)
  else Err TooLarge.

(** ** Log files *)

(** [max_size]: none means no limit; [rotate_count]: how many old files are kept. *)
Record Limits := mk_limits {
  max_size : option Z;
  rotate_count : nat;
}.

(** The log's files as they are on the disk, FILE under 0 and FILE.n under n; [log_open] is
    [self.file.is_some()], [log_size] the size the code counts. *)
Record LogFile := mk_log_file {
  log_files : gmap nat (list Z);
  log_open : bool;
  log_size : Z;
  log_limits : Limits;
  log_full : bool;
}.

(** What the disk does with a line's calls: a write that fails after some bytes, a rename of
    FILE.n, a removal or an opening that fails. *)
Record LogIo := mk_log_io {
  io_write : option nat;
  io_rename : nat → bool;
  io_remove : bool;
  io_open : bool;
}.

Definition append (io : LogIo) (text : str) (f : LogFile) : LogFile :=
  if log_open f then
    let held := default [] (log_files f !! 0%nat) in
    match io_write io with
    | Some k => mk_log_file (<[0%nat := held ++ take k text]> (log_files f)) true (log_size f) (log_limits f) (log_full f)
    | None =>
        mk_log_file (<[0%nat := held ++ text]> (log_files f)) true (log_size f + Z.of_nat (length text)) (log_limits f)
          (log_full f)
    end
  else f.

Definition rename_file (io : LogIo) (n : nat) (files : gmap nat (list Z)) : bool * gmap nat (list Z) :=
  match files !! n with
  | Some held => if io_rename io n then (true, <[S n := held]> (delete n files)) else (false, files)
  | None => (false, files)
  end.

(** FILE.n → FILE.n+1 for the numbers from [n] down to 1. *)
Fixpoint shift_files (io : LogIo) (n : nat) (files : gmap nat (list Z)) : gmap nat (list Z) :=
  match n with
  | O => files
  | S n' => shift_files io n' (rename_file io n files).2
  end.

Definition rotate (io : LogIo) (f : LogFile) : LogFile :=
  let last_one := rotate_count (log_limits f) in
  let files := if io_remove io then delete last_one (log_files f) else log_files f in
  let files := shift_files io (last_one - 1) files in
  let '(moved, files) := rename_file io 0 files in
  let files := if io_open io then <[0%nat := if moved then default [] (files !! 0%nat) else []]> files else files in
  mk_log_file files (io_open io) 0 (log_limits f) (log_full f).

Definition size_note (now : str) (max : Z) : str :=
  now ++ lit " [log] reached its size limit (" ++ decimal max ++ lit " bytes): later lines are dropped" ++ [LF].

Definition set_full (f : LogFile) : LogFile :=
  mk_log_file (log_files f) (log_open f) (log_size f) (log_limits f) true.

Definition log_write (io : LogIo) (now line : str) (f : LogFile) : LogFile :=
  match max_size (log_limits f) with
  | None => append io line f
  | Some max =>
      if bool_decide (rotate_count (log_limits f) = 0%nat) then
        if log_full f then f
        else
          let note := size_note now max in
          if log_size f + Z.of_nat (length line + length note) <=? max then append io line f
          else
            let f := set_full f in
            if log_size f + Z.of_nat (length note) <=? max then append io note f else f
      else
        let f := if (max <? log_size f + Z.of_nat (length line)) && (0 <? log_size f) then rotate io f else f in
        append io line f
  end.

(** A log that appends to a file: the line after its time. *)
Definition log_line (io : LogIo) (now line : str) (f : LogFile) : LogFile :=
  log_write io now (now ++ [32] ++ clean line ++ [LF]) f.

(** ** The characters of valid text *)

Lemma second_range_bounds a : 128 <= (second_range a).1 ∧ (second_range a).2 <= 191.
Proof. unfold second_range. repeat (destruct (_ =? _); [simpl; lia|]). simpl. lia. Qed.

Lemma in_range_iff lo hi b : in_range lo hi b = true ↔ lo <= b <= hi.
Proof. unfold in_range. rewrite andb_true_iff, !Z.leb_le. done. Qed.
Lemma is_continuation_iff b : is_continuation b = true ↔ 128 <= b < 192.
Proof. unfold is_continuation. rewrite andb_true_iff, Z.leb_le, Z.ltb_lt. done. Qed.

(** What the first character of valid text is: one to four bytes, in these ranges. *)
Definition wf_char (c : str) : Prop :=
  match c with
  | [a] => a < 128
  | [a; b] => 194 <= a <= 223 ∧ is_continuation b = true
  | [a; b; d] => 224 <= a <= 239 ∧ (a = 224 → 160 <= b) ∧ is_continuation b = true ∧ is_continuation d = true
  | [a; b; d; e] =>
      240 <= a <= 244 ∧ (a = 240 → 144 <= b) ∧ is_continuation b = true ∧ is_continuation d = true ∧ is_continuation e = true
  | _ => False
  end.

Lemma utf8_next_char s n : s ≠ [] → utf8_next s = Valid n → ∃ c r, s = c ++ r ∧ length c = n ∧ wf_char c.
Proof.
  intros Hne. unfold utf8_next. destruct s as [|a s]; [done|]. change (byte_at (a :: s) 0) with a.
  destruct (Z.ltb_spec a 128); [intros [= <-]; by exists [a], s|].
  assert (∀ i l, is_continuation (byte_at l i) = true → ∃ x, l !! i = Some x ∧ is_continuation x = true) as Hc.
  { intros i l. unfold byte_at. destruct (l !! i) as [x|]; [by exists x|done]. }
  destruct (in_range 0xc2 0xdf a) eqn:Ha.
  { destruct (is_continuation (byte_at (a :: s) 1)) eqn:E1; [|done]. intros [= <-].
    destruct (Hc _ _ E1) as (b & Hb & Hcb). destruct s as [|b' s]; [done|]. injection Hb as ->.
    apply in_range_iff in Ha. exists [a; b], s. by split_and!. }
  pose proof (second_range_bounds a) as Hsec.
  assert (∀ b, (let '(lo, hi) := second_range a in in_range lo hi b) = true →
    is_continuation b = true ∧ (a = 224 → 160 <= b) ∧ (a = 240 → 144 <= b)) as Hb.
  { intros b Hb. destruct (second_range a) as [lo hi] eqn:E. cbn [fst snd] in Hsec. apply in_range_iff in Hb.
    rewrite is_continuation_iff. split; [lia|]. split; intros ->; vm_compute in E; injection E as <- <-; lia. }
  destruct (let '(lo, hi) := second_range a in in_range lo hi (byte_at (a :: s) 1)) eqn:E1;
    [|by repeat (destruct (in_range _ _ a); [done|])].
  destruct (Hb _ E1) as (H1 & Ha1 & Ha2). destruct (Hc _ _ H1) as (b & Hb' & _). destruct s as [|b' s]; [done|].
  change (byte_at (a :: b' :: s) 1) with b' in *. clear Hb' b E1.
  destruct (in_range 0xe0 0xef a) eqn:Ha3; cbn [negb].
  { destruct (is_continuation (byte_at (a :: b' :: s) 2)) eqn:E2; [|done]. intros [= <-].
    destruct (Hc _ _ E2) as (d & Hd & Hcd). destruct s as [|d' s]; [done|]. injection Hd as ->.
    apply in_range_iff in Ha3. exists [a; b'; d], s. by split_and!. }
  destruct (in_range 0xf0 0xf4 a) eqn:Ha4; [|done]. apply in_range_iff in Ha4.
  destruct (is_continuation (byte_at (a :: b' :: s) 2)) eqn:E2; [|done]. cbn [negb].
  destruct (is_continuation (byte_at (a :: b' :: s) 3)) eqn:E3; [|done]. intros [= <-].
  destruct (Hc _ _ E2) as (d & Hd & Hcd). destruct s as [|d' s]; [done|]. injection Hd as ->.
  destruct (Hc _ _ E3) as (e & He & Hce). destruct s as [|e' s]; [done|]. injection He as ->.
  exists [a; b'; d; e], s. by split_and!.
Qed.

Lemma wf_char_chars c : wf_char c → chars c = [c].
Proof.
  destruct c as [|a [|b [|d [|e [|]]]]]; cbn [wf_char]; try done.
  - intros (_ & H). cbn [chars]. by rewrite H.
  - intros (_ & _ & H1 & H2). cbn [chars]. by rewrite H2, H1.
  - intros (_ & _ & H1 & H2 & H3). cbn [chars]. by rewrite H3, H2, H1.
Qed.

Lemma utf8_valid_from_drop k s : (k ≤ length s)%nat → utf8_valid_from k s = utf8_valid (drop k s).
Proof.
  revert s; induction k as [|k IH]; intros s Hk; [by destruct s|]. destruct s as [|b s]; [simpl in Hk; lia|]. cbn [utf8_valid_from drop].
  apply IH. simpl in Hk. lia.
Qed.

(** The characters of valid text are well formed. *)
Lemma chars_wf s : utf8_valid s = true → Forall wf_char (chars s).
Proof.
  remember (length s) as n eqn:Hn. revert s Hn. induction n as [n IH] using lt_wf_ind. intros s -> Hv.
  destruct s as [|b s]; [constructor|]. pose proof Hv as Hv'. unfold utf8_valid in Hv'. cbn [utf8_valid_from] in Hv'.
  destruct (utf8_next (b :: s)) as [k|] eqn:E; [|done].
  destruct (utf8_next_char (b :: s) k) as (c & r & Hs & Hl & Hc); [done|done|].
  destruct c as [|b' c]; [done|]. injection Hs as <- ->. cbn [length] in Hl. subst k. cbn [Nat.sub] in Hv'.
  rewrite Nat.sub_0_r, utf8_valid_from_drop, drop_app_length in Hv' by (rewrite length_app; lia).
  change (b :: c ++ r) with ((b :: c) ++ r). rewrite chars_app, wf_char_chars by (done || by apply utf8_valid_start).
  constructor; [done|]. eapply IH; [|done|done]. simpl. rewrite length_app. lia.
Qed.

(** ** Safe lines *)

(** Characters that do something to a terminal rather than show: the controls (C0, DEL and C1) and the
    ones that reorder text, the embeddings, overrides and isolates of bidirectional writing. *)
Definition control (n : Z) : Prop := n < 32 ∨ 127 <= n < 160.
Definition reordering (n : Z) : Prop := 0x202a <= n <= 0x202e ∨ 0x2066 <= n <= 0x2069.

(** A character that goes into a line as it is. *)
Definition safe_char (c : str) : Prop := c ≠ [] ∧ ¬ control (code_point c) ∧ ¬ reordering (code_point c).
Definition safe (s : str) : Prop := Forall safe_char (chars s).

Definition escaped (cs : list str) : str := mjoin (escape <$> cs).

(** Plain ASCII that no log line is made of otherwise. *)
Definition printable (s : str) : Prop := Forall (λ b, 32 <= b < 127) s.

Lemma safe_printable_char b : 32 <= b < 127 → safe_char [b].
Proof.
  intros Hb. split; [done|]. unfold control, reordering. simpl. lia.
Qed.

(** What is safe is left alone, and what is left alone is safe. *)
Lemma safe_left_alone c : safe_char c → escape c = c.
Proof.
  intros (Hne & Hc & Hr). unfold control, reordering in *. unfold escape.
  destruct c as [|a [|b [|d [|e c]]]]; try done; simpl code_point in *.
  - rewrite (proj2 (Z.eqb_neq a 10)), (proj2 (Z.eqb_neq a 13)), (proj2 (Z.eqb_neq a 9)) by lia.
    destruct ((a <? 32) || (a =? 127)) eqn:E; [|done]. apply orb_true_iff in E as [E%Z.ltb_lt|E%Z.eqb_eq]; lia.
  - destruct (_ && _) eqn:E; [|done]. apply andb_true_iff in E as [->%Z.eqb_eq E%in_range_iff]. lia.
  - destruct (_ && in_range 170 174 d) eqn:E.
    { apply andb_true_iff in E as [[->%Z.eqb_eq ->%Z.eqb_eq]%andb_true_iff E%in_range_iff]. lia. }
    destruct (_ && in_range 166 169 d) eqn:E'; [|done].
    apply andb_true_iff in E' as [[->%Z.eqb_eq ->%Z.eqb_eq]%andb_true_iff E'%in_range_iff]. lia.
Qed.

Lemma left_alone_safe c : wf_char c → Forall is_byte c → escape c = c → safe_char c.
Proof.
  intros Hw Hb He. split; [by intros ->|]. unfold control, reordering.
  destruct c as [|a [|b [|d [|e [|]]]]]; try done; cbn [wf_char] in Hw; simpl code_point.
  - apply Forall_singleton in Hb. unfold is_byte in Hb. unfold escape in He.
    destruct (Z.eqb_spec a 10); [done|]. destruct (Z.eqb_spec a 13); [done|]. destruct (Z.eqb_spec a 9); [done|].
    destruct ((a <? 32) || (a =? 127)) eqn:E; [done|]. apply orb_false_iff in E as [E%Z.ltb_ge E'%Z.eqb_neq]. lia.
  - destruct Hw as [Ha Hcb%is_continuation_iff]. unfold escape in He.
    destruct ((a =? 194) && in_range 128 159 b) eqn:E; [apply (f_equal length) in He; rewrite !length_app in He; simpl in He; lia|]. apply andb_false_iff in E as [E%Z.eqb_neq|E]; [lia|].
    apply not_true_iff_false in E. rewrite in_range_iff in E. lia.
  - destruct Hw as (Ha & Ha' & Hcb%is_continuation_iff & Hcd%is_continuation_iff). unfold escape in He.
    destruct ((a =? 226) && (b =? 128) && in_range 170 174 d) eqn:E; [apply (f_equal length) in He; rewrite !length_app in He; simpl in He; lia|].
    destruct ((a =? 226) && (b =? 129) && in_range 166 169 d) eqn:E'; [apply (f_equal length) in He; rewrite !length_app in He; simpl in He; lia|].
    assert (¬ (a = 226 ∧ b = 128 ∧ 170 <= d <= 174)) as Hn.
    { intros (-> & -> & Hd). cbn in E. apply not_true_iff_false in E. apply E. by apply in_range_iff. }
    assert (¬ (a = 226 ∧ b = 129 ∧ 166 <= d <= 169)) as Hn'.
    { intros (-> & -> & Hd). cbn in E'. apply not_true_iff_false in E'. apply E'. by apply in_range_iff. }
    split; [lia|]. intros Hr. destruct (decide (a = 226)) as [->|]; [|lia].
    destruct (decide (b = 128)) as [->|]; [lia|]. destruct (decide (b = 129)) as [->|]; lia.
  - destruct Hw as (Ha & Ha' & Hcb%is_continuation_iff & Hcd%is_continuation_iff & Hce%is_continuation_iff).
    destruct (decide (a = 240)); lia.
Qed.

Lemma chars_ascii s : Forall (λ b, b < 128) s → chars s = (λ b, [b]) <$> s.
Proof.
  induction 1 as [|b s Hb Hs IH]; [done|]. cbn [chars]. rewrite IH. destruct Hs as [|b' s Hb' _]; [done|].
  simpl. unfold is_continuation. by rewrite (proj2 (Z.leb_gt 128 b')) by lia.
Qed.

Lemma safe_printable s : printable s → safe s.
Proof.
  intros Hs. unfold safe. rewrite chars_ascii by (eapply Forall_impl; [exact Hs|]; simpl; lia).
  rewrite Forall_fmap. eapply Forall_impl; [exact Hs|]. intros b Hb. by apply safe_printable_char.
Qed.

Lemma safe_app s t : starts_char t → safe s → safe t → safe (s ++ t).
Proof. intros Ht Hs Hst. unfold safe. rewrite chars_app by done. by apply Forall_app. Qed.

Lemma printable_starts s : printable s → starts_char s.
Proof.
  intros Hs b Hb. destruct Hs as [|x s Hx _]; [done|]. injection Hb as ->. unfold is_continuation.
  by rewrite (proj2 (Z.leb_gt 128 b)) by lia.
Qed.

Lemma printable_lit_check s : forallb (λ b, (32 <=? b) && (b <? 127)) s = true → printable s.
Proof.
  intros H. apply Forall_forall. intros b Hb%list_elem_of_In. rewrite forallb_forall in H. specialize (H b Hb).
  apply andb_true_iff in H as [?%Z.leb_le ?%Z.ltb_lt]. lia.
Qed.

Lemma hex_char_printable d : 0 <= d < 16 → 32 <= hex_char d < 127.
Proof. unfold hex_char. intros. destruct (Z.ltb_spec d 10); lia. Qed.

Lemma land15_range n : 0 <= Z.land n 15 < 16.
Proof. change 15 with (Z.ones 4). rewrite Z.land_ones by lia. apply Z.mod_pos_bound. lia. Qed.

Lemma hex_plain_printable n : 0 <= n < 65536 → printable (hex_plain n).
Proof.
  intros Hn. unfold hex_plain. apply Forall_drop.
  assert (0 <= Z.shiftr n 12 < 16) by (rewrite Z.shiftr_div_pow2 by lia; change (2 ^ 12) with 4096; Z.div_mod_to_equations; lia).
  repeat constructor; apply hex_char_printable; first [done|apply land15_range].
Qed.

(** What a character becomes: itself, or plain text. *)
Lemma escape_cases c : Forall is_byte c → escape c = c ∨ printable (escape c) ∧ escape c ≠ [].
Proof.
  intros Hc. unfold escape.
  assert (∀ s t, forallb (λ b, (32 <=? b) && (b <? 127)) s = true → s ≠ [] → printable t → printable (s ++ t) ∧ s ++ t ≠ []) as Happ.
  { intros s t Hs Hne Ht. split; [apply Forall_app; split; [by apply printable_lit_check|done]|]. by destruct s. }
  assert (∀ n, 0 <= n < 65536 → printable (lit "\u{" ++ hex_plain n ++ lit "}") ∧ lit "\u{" ++ hex_plain n ++ lit "}" ≠ []) as Hu.
  { intros n Hn. apply Happ; [done|done|]. apply Forall_app. split; [by apply hex_plain_printable|].
    by apply printable_lit_check. }
  destruct c as [|a [|b [|d [|e c]]]]; try (by left).
  - assert (is_byte a) as Ha by by inversion Hc. unfold is_byte in Ha.
    destruct (a =? 10); [right; split; [by apply printable_lit_check|done]|].
    destruct (a =? 13); [right; split; [by apply printable_lit_check|done]|].
    destruct (a =? 9); [right; split; [by apply printable_lit_check|done]|].
    destruct (_ || _); [right|by left]. apply Happ; [done|done|]. apply Forall_cons.
    split; [|apply Forall_singleton, hex_char_printable, land15_range].
    apply hex_char_printable. rewrite Z.shiftr_div_pow2 by lia. change (2 ^ 4) with 16. Z.div_mod_to_equations. lia.
  - destruct (_ && in_range 128 159 b) eqn:E; [right|by left]. apply andb_true_iff in E as [_ Hr].
    unfold in_range in Hr. apply andb_true_iff in Hr as [?%Z.leb_le ?%Z.leb_le]. apply Hu. lia.
  - destruct (_ && in_range 170 174 d) eqn:E; [right|].
    { apply andb_true_iff in E as [_ Hr]. unfold in_range in Hr. apply andb_true_iff in Hr as [?%Z.leb_le ?%Z.leb_le]. apply Hu. lia. }
    destruct (_ && in_range 166 169 d) eqn:E'; [right|by left].
    apply andb_true_iff in E' as [_ Hr]. unfold in_range in Hr. apply andb_true_iff in Hr as [?%Z.leb_le ?%Z.leb_le]. apply Hu. lia.
Qed.

(** The pieces an escaped text is made of. *)
Lemma escape_piece c :
  wf_char c → Forall is_byte c → c ≠ [] → starts_char c → chars c = [c] →
  escape c ≠ [] ∧ starts_char (escape c) ∧ safe (escape c).
Proof.
  intros Hw Hb Hne Hs Hc. destruct (escape_cases c Hb) as [He|[Hp Hn]].
  - rewrite He. split_and!; [done|done|]. unfold safe. rewrite Hc. by apply Forall_singleton, left_alone_safe.
  - split_and!; [done|by apply printable_starts|by apply safe_printable].
Qed.

Definition good_chars (cs : list str) : Prop := Forall (λ c, wf_char c ∧ Forall is_byte c ∧ c ≠ [] ∧ starts_char c ∧ chars c = [c]) cs.

Lemma chars_good line : utf8_valid line = true → wf_bytes line → good_chars (chars line).
Proof.
  intros Hv Hw. apply Forall_forall. intros c Hc.
  pose proof (chars_start line (utf8_valid_start line Hv)) as Hs. rewrite Forall_forall in Hs. destruct (Hs c Hc) as [Hne Hst].
  pose proof (chars_wf line Hv) as Hwf. rewrite Forall_forall in Hwf.
  split_and!; [by apply Hwf| |done|done|by eapply chars_char]. apply Forall_forall. intros b Hb.
  unfold wf_bytes in Hw. rewrite Forall_forall in Hw. apply Hw. by eapply chars_bytes.
Qed.

Lemma escaped_safe cs : good_chars cs → starts_char (escaped cs) ∧ safe (escaped cs).
Proof.
  intros Hcs. unfold escaped.
  assert (Forall (λ p, p ≠ [] ∧ starts_char p ∧ safe p) (escape <$> cs)) as Hp.
  { apply Forall_fmap. eapply Forall_impl; [exact Hcs|]. intros c (Hw & Hb & Hne & Hs & Hc). by apply escape_piece. }
  destruct (chars_mjoin (escape <$> cs)) as [Hch Hst]; [eapply Forall_impl; [exact Hp|]; naive_solver|].
  split; [done|]. unfold safe. rewrite Hch. apply Forall_forall. intros c Hc.
  apply list_elem_of_join in Hc as (l & Hl & (q & -> & Hq)%list_elem_of_fmap).
  rewrite Forall_forall in Hp. destruct (Hp q Hq) as (_ & _ & Hsafe). unfold safe in Hsafe. rewrite Forall_forall in Hsafe. by apply Hsafe.
Qed.

Lemma good_chars_join cs : good_chars cs → chars (mjoin cs) = cs.
Proof.
  intros Hcs. destruct (chars_mjoin cs) as [-> _]; [eapply Forall_impl; [exact Hcs|]; naive_solver|].
  induction Hcs as [|c cs (_ & _ & _ & _ & Hc) _ IH]; [done|]. by rewrite fmap_cons, mjoin_cons, Hc, IH.
Qed.

Lemma marker_safe n : 0 <= n → starts_char (marker n) ∧ safe (marker n) ∧ (length (marker n) ≤ MARKER_ROOM)%nat.
Proof.
  intros Hn. unfold marker. destruct (decimal_digits_ok 20 n Hn) as [Hl Hd]. fold (decimal n) in Hl, Hd.
  revert Hl Hd. generalize (decimal n). intros digits Hl Hd.
  assert (printable (lit "[+" ++ digits ++ lit " bytes]")) as Hp.
  { apply Forall_app. split; [by apply printable_lit_check|]. apply Forall_app. split; [|by apply printable_lit_check].
    eapply Forall_impl; [exact Hd|]. simpl. lia. }
  split_and!; [by intros b [= <-]| |].
  - change ([32; 226; 128; 166] ++ ?x) with ([32] ++ [226; 128; 166] ++ x). apply safe_app; [by intros b [= <-]| |].
    + apply safe_printable. apply Forall_singleton. lia.
    + apply safe_app; [by apply printable_starts| |by apply safe_printable]. unfold safe.
      change (chars [226; 128; 166]) with [[226; 128; 166]]. apply Forall_singleton. split; [done|].
      unfold control, reordering. change (code_point [226; 128; 166]) with 0x2026. lia.
  - rewrite !length_app. change (length (lit "[+")) with 2%nat. change (length (lit " bytes]")) with 7%nat.
    unfold MARKER_ROOM. cbn [length]. lia.
Qed.

(** ** Cutting *)

Lemma escaped_cons c cs : escaped (c :: cs) = escape c ++ escaped cs.
Proof. done. Qed.
Lemma escaped_app cs ds : escaped (cs ++ ds) = escaped cs ++ escaped ds.
Proof. unfold escaped. rewrite fmap_app. induction (escape <$> cs) as [|x l IH]; [done|]. cbn [app]. by rewrite !mjoin_cons, IH, app_assoc. Qed.
Lemma mjoin_app {A} (l k : list (list A)) : mjoin (l ++ k) = mjoin l ++ mjoin k.
Proof. induction l as [|x l IH]; [done|]. cbn [app]. by rewrite !mjoin_cons, IH, app_assoc. Qed.

(** How a loop ends: all of the text is there, or a part that is too long already. *)
Definition goes_to (out out' full : str) : Prop :=
  out `prefix_of` out' ∧ out' `prefix_of` full ∧ (out' = full ∨ (LINE_LIMIT < length out')%nat).

Lemma goes_to_step out c out' cs :
  goes_to (out ++ escape c) out' ((out ++ escape c) ++ escaped cs) → goes_to out out' (out ++ escaped (c :: cs)).
Proof.
  intros (H1 & H2 & H3). rewrite escaped_cons, app_assoc. split_and!; [|done|done]. etrans; [by apply prefix_app_r|done].
Qed.

Lemma goes_to_long out c cs :
  (LINE_LIMIT < length (out ++ escape c))%nat → goes_to out (out ++ escape c) (out ++ escaped (c :: cs)).
Proof. intros H. rewrite escaped_cons, app_assoc. split_and!; [by apply prefix_app_r|by apply prefix_app_r|by right]. Qed.

Lemma goes_to_end out : goes_to out out (out ++ escaped []).
Proof. rewrite app_nil_r. split_and!; [done|done|by left]. Qed.

(** Once the place to cut is known, the rest is only added, until the line is too long. *)
Lemma clean_loop_known cs at_ out c :
  let '(out', cut') := clean_loop cs at_ out (Some c) in cut' = Some c ∧ goes_to out out' (out ++ escaped cs).
Proof.
  revert at_ out; induction cs as [|x cs IH]; intros at_ out; cbn [clean_loop]; [split; [done|apply goes_to_end]|].
  case_bool_decide as Hl; [split; [done|by apply goes_to_long]|].
  specialize (IH (at_ + length x)%nat (out ++ escape x)). destruct (clean_loop _ _ _ _) as [out' cut'].
  destruct IH as [-> H]. split; [done|by apply goes_to_step].
Qed.

Lemma clean_loop_spec cs at_ out :
  (length out ≤ LINE_LIMIT - MARKER_ROOM)%nat →
  let '(out', cut') := clean_loop cs at_ out None in
  goes_to out out' (out ++ escaped cs) ∧
  match cut' with
  | None => out' = out ++ escaped cs ∧ (length out' ≤ LINE_LIMIT - MARKER_ROOM)%nat
  | Some (len, at') =>
      (LINE_LIMIT - MARKER_ROOM < length out')%nat ∧
      ∃ kept rest, cs = kept ++ rest ∧ at' = (at_ + length (mjoin kept))%nat ∧
        take len out' = out ++ escaped kept ∧ (len ≤ LINE_LIMIT - MARKER_ROOM)%nat
  end.
Proof.
  revert at_ out; induction cs as [|x cs IH]; intros at_ out Hout; cbn [clean_loop].
  { split; [apply goes_to_end|]. by rewrite app_nil_r. }
  destruct (bool_decide (LINE_LIMIT - MARKER_ROOM < length (out ++ escape x))%nat) eqn:Eroom.
  - apply bool_decide_eq_true in Eroom.
    assert (∀ out', out ++ escape x `prefix_of` out' → ∃ kept rest, x :: cs = kept ++ rest ∧
      at_ = (at_ + length (mjoin kept))%nat ∧ take (length out) out' = out ++ escaped kept ∧
      (length out ≤ LINE_LIMIT - MARKER_ROOM)%nat) as Hcut.
    { intros out' [k ->]. exists [], (x :: cs). split_and!; [done|simpl; lia| |done].
      change (escaped []) with (@nil Z). rewrite app_nil_r, <-app_assoc. apply take_app_length. }
    case_bool_decide as Hl.
    + split; [by apply goes_to_long|]. split; [done|]. by apply Hcut.
    + pose proof (clean_loop_known cs (at_ + length x) (out ++ escape x) (length out, at_)) as Hk.
      destruct (clean_loop _ _ _ _) as [out' cut']. destruct Hk as (-> & H).
      split; [by apply goes_to_step|]. destruct H as (Hp & _). pose proof (prefix_length _ _ Hp).
      split; [lia|]. by apply Hcut.
  - apply bool_decide_eq_false in Eroom. rewrite bool_decide_false by lia.
    specialize (IH (at_ + length x)%nat (out ++ escape x)). destruct (clean_loop _ _ _ _) as [out' [[len at']|]].
    + destruct IH as (H1 & H2 & kept & rest & -> & -> & Ht & Hl); [lia|]. split; [by apply goes_to_step|]. split; [done|].
      exists (x :: kept), rest. split_and!; [done| |by rewrite Ht, escaped_cons, app_assoc|done].
      rewrite mjoin_cons, length_app. lia.
    + destruct IH as (H1 & -> & H); [lia|]. split; [by apply goes_to_step|]. split; [by rewrite escaped_cons, app_assoc|done].
Qed.

Definition marker_of (n : nat) : str := if bool_decide (0 < n)%nat then marker (Z.of_nat n) else [].

Lemma escaped_safe_id s : safe s → escaped (chars s) = s.
Proof.
  intros Hs. unfold escaped. rewrite <-(chars_join s) at 2. f_equal. unfold safe in Hs.
  induction Hs as [|c cs Hc%safe_left_alone _ IH]; [done|]. by rewrite fmap_cons, Hc, IH.
Qed.

(** Safe text that fits comes back as it is. *)
Lemma clean_id s : safe s → (length s ≤ LINE_LIMIT)%nat → clean s = s.
Proof.
  intros Hs Hl. unfold clean, clean_cut.
  pose proof (clean_loop_spec (chars s) 0 [] (Nat.le_0_l _)) as H. cbn [app] in H. rewrite (escaped_safe_id s Hs) in H.
  destruct (clean_loop (chars s) 0 [] None) as [out [[len at_]|]]; destruct H as [(_ & Hp & Hor) H].
  - assert (out = s) as -> by (destruct Hor as [?|?]; [done|]; apply prefix_length in Hp; lia).
    rewrite (bool_decide_false (0 < 0)%nat) by lia. by rewrite bool_decide_true.
  - destruct H as [-> _]. by rewrite (bool_decide_false (0 < 0)%nat) by lia.
Qed.

(** A line is a part of the text, escaped, and the count of what is left out. *)
Lemma clean_cut_spec line missing :
  ∃ kept rest, chars line = kept ++ rest ∧
    clean_cut line missing = escaped kept ++ marker_of (length (mjoin rest) + missing) ∧
    (length (escaped kept) ≤ if bool_decide (0 < length (mjoin rest) + missing)%nat then LINE_LIMIT - MARKER_ROOM else LINE_LIMIT)%nat.
Proof.
  unfold clean_cut. pose proof (clean_loop_spec (chars line) 0 [] (Nat.le_0_l _)) as H. cbn [app] in H.
  destruct (clean_loop (chars line) 0 [] None) as [out cut]; destruct H as [(_ & Hp & Hor) H].
  assert (out = escaped (chars line) → (length out ≤ if bool_decide (0 < missing)%nat then LINE_LIMIT - MARKER_ROOM else LINE_LIMIT)%nat →
    ∃ kept rest, chars line = kept ++ rest ∧
    (if bool_decide (0 < missing)%nat then out ++ marker (Z.of_nat missing) else out) =
      escaped kept ++ marker_of (length (mjoin rest) + missing) ∧
    (length (escaped kept) ≤ if bool_decide (0 < length (mjoin rest) + missing)%nat then LINE_LIMIT - MARKER_ROOM else LINE_LIMIT)%nat) as Hwhole.
  { intros -> Hl. exists (chars line), []. rewrite app_nil_r. simpl length. cbn [Nat.add]. split_and!; [done| |done].
    unfold marker_of. case_bool_decide; [done|by rewrite app_nil_r]. }
  destruct cut as [[len at_]|].
  - destruct H as (Hroom & kept & rest & Hc & -> & Ht & Hlen).
    destruct (bool_decide (length out ≤ _)%nat) eqn:Hfit; cbn [negb];
      [apply bool_decide_eq_true in Hfit|apply bool_decide_eq_false in Hfit].
    + apply Hwhole; [|done]. destruct Hor as [?|?]; [done|]. destruct (bool_decide _); unfold LINE_LIMIT, MARKER_ROOM in *; lia.
    + exists kept, rest.
      assert (length line = length (mjoin kept) + length (mjoin rest))%nat as Hll
        by (rewrite <-(chars_join line), Hc, mjoin_app, length_app; done).
      assert (length (escaped kept) ≤ LINE_LIMIT - MARKER_ROOM)%nat as Hk by (rewrite <-Ht, length_take; lia).
      assert (0 < length (mjoin rest) + missing)%nat as Hn.
      { destruct (decide (missing = 0)%nat) as [->|]; [|lia]. rewrite (bool_decide_false (0 < 0)%nat) in Hfit by lia.
        destruct rest as [|r rest]; [|].
        - rewrite app_nil_r in Hc. subst kept. pose proof (prefix_length _ _ Hp). lia.
        - assert (r ≠ []); [|destruct r; [done|rewrite mjoin_cons, length_app; simpl; lia]].
          destruct (chars line) as [|c0 cs0] eqn:E; [by destruct kept|]. destruct (chars_cons _ _ _ E) as (Hne & _ & HF).
          destruct kept as [|k kept]; simpl in Hc; injection Hc as <- ->; [done|].
          apply Forall_app in HF as [_ HF]. by inversion HF as [|? ? [? ?] _]. }
      split_and!; [done| |by rewrite bool_decide_true]. rewrite Ht. unfold marker_of. rewrite bool_decide_true by done.
      do 2 f_equal. lia.
  - destruct H as [-> Hl]. apply Hwhole; [done|]. destruct (bool_decide _); unfold LINE_LIMIT, MARKER_ROOM in *; lia.
Qed.

(** A cleaned line: its length, what it holds, and what it is made of. *)
Lemma clean_cut_safe line missing :
  utf8_valid line = true → wf_bytes line →
  let out := clean_cut line missing in
  (length out ≤ LINE_LIMIT)%nat ∧ safe out ∧
  ∃ kept rest, line = kept ++ rest ∧ out = escaped (chars kept) ++ marker_of (length rest + missing).
Proof.
  intros Hv Hw. cbv zeta. destruct (clean_cut_spec line missing) as (kept & rest & Hc & -> & Hl).
  pose proof (chars_good line Hv Hw) as Hg. rewrite Hc in Hg. apply Forall_app in Hg as [Hgk Hgr].
  destruct (escaped_safe kept Hgk) as [Hst Hs].
  assert (starts_char (marker_of (length (mjoin rest) + missing)) ∧ safe (marker_of (length (mjoin rest) + missing)) ∧
    (length (marker_of (length (mjoin rest) + missing)) ≤ if bool_decide (0 < length (mjoin rest) + missing)%nat then MARKER_ROOM else 0)%nat)
    as (Hms & Hm & Hml).
  { unfold marker_of. destruct (bool_decide _); [apply marker_safe; lia|]. split_and!; [done|constructor|simpl; lia]. }
  assert (length (escaped kept ++ marker_of (length (mjoin rest) + missing)) ≤ LINE_LIMIT)%nat as Hlen.
  { rewrite length_app. destruct (bool_decide _); unfold LINE_LIMIT, MARKER_ROOM in *; lia. }
  assert (safe (escaped kept ++ marker_of (length (mjoin rest) + missing))) as Hsafe by by apply safe_app.
  split_and!; [done|done|]. exists (mjoin kept), (mjoin rest). split.
  - by rewrite <-mjoin_app, <-Hc, chars_join.
  - by rewrite good_chars_join.
Qed.

(** C29: a log line holds at most 4096 bytes and no control character ([control]: C0, DEL, C1) and none that
    reorders text ([reordering]: the bidirectional embeddings, overrides and isolates), whatever the
    guest put into it; it is a part of the text, escaped, followed where something is left out by how
    many bytes that is, what the caller left out included; and a clean line stays as it is. *)
Theorem log_line_safe line missing :
  utf8_valid line = true → wf_bytes line →
  let out := clean_cut line missing in
  (length out ≤ LINE_LIMIT)%nat ∧ safe out ∧ clean out = out ∧
  ∃ kept rest, line = kept ++ rest ∧ out = escaped (chars kept) ++ marker_of (length rest + missing).
Proof.
  intros Hv Hw. destruct (clean_cut_safe line missing Hv Hw) as (Hl & Hs & Hk). split_and!; [done|done|by apply clean_id|done].
Qed.

(** ** Shell words *)

(** The characters a shell gives a meaning outside of quotes. *)
Definition shell_special (b : Z) : bool :=
  bool_decide (b ∈ lit "|&;<>()$`\*?[]#~!{}^" ++ [34; APOSTROPHE]) || (b <=? 32) || (b =? 127).

(** Splitting a line into words as a shell does: what is in quotes as it is, a backslash before a
    character that is then itself; [None] where the line means anything else. *)
Fixpoint shell (quoted : bool) (word : option str) (s : str) : option (list str) :=
  match s with
  | [] => if quoted then None else Some (match word with Some w => [w] | None => [] end)
  | b :: s =>
      if quoted then
        if b =? APOSTROPHE then shell false word s else shell true (Some (default [] word ++ [b])) s
      else if b =? APOSTROPHE then shell true (Some (default [] word)) s
      else if b =? 32 then
        match word with Some w => (w ::.) <$> shell false None s | None => shell false None s end
      else if b =? 92 then
        match s with
        | c :: s => if c =? LF then None else shell false (Some (default [] word ++ [c])) s
        | [] => None
        end
      else if shell_special b then None
      else shell false (Some (default [] word ++ [b])) s
  end.

Lemma plain_not_special b : plain_byte b = true → shell_special b = false ∧ b ≠ APOSTROPHE ∧ b ≠ 32 ∧ b ≠ 92.
Proof.
  intros Hp.
  assert (∀ b, 0 <= b < 128 → plain_byte b = true → shell_special b = false ∧ b ≠ APOSTROPHE ∧ b ≠ 32 ∧ b ≠ 92) as Hsmall.
  { assert (Forall (λ b, plain_byte b = true → shell_special b = false ∧ b ≠ APOSTROPHE ∧ b ≠ 32 ∧ b ≠ 92)
      (Z.of_nat <$> seq 0 128)) as HF.
    { apply Forall_forall. intros x Hx%list_elem_of_In.
      assert (forallb (λ b, negb (plain_byte b) || (negb (shell_special b) && negb (b =? APOSTROPHE) && negb (b =? 32) && negb (b =? 92)))
        (Z.of_nat <$> seq 0 128) = true) as Hall by (vm_compute; reflexivity).
      rewrite forallb_forall in Hall. specialize (Hall x Hx). intros Hpx. rewrite Hpx in Hall. simpl in Hall.
      apply andb_true_iff in Hall as [[[H1 H2]%andb_true_iff H3]%andb_true_iff H4].
      apply negb_true_iff in H1, H2, H3, H4. apply Z.eqb_neq in H2, H3, H4. done. }
    intros x Hx. rewrite Forall_forall in HF. apply HF. apply list_elem_of_fmap. exists (Z.to_nat x).
    split; [lia|]. apply elem_of_seq. lia. }
  destruct (Z.ltb_spec b 128) as [Hb|Hb].
  - destruct (Z.leb_spec 0 b); [by apply Hsmall|]. exfalso. revert Hp. unfold plain_byte, is_alnum, in_range.
    rewrite (proj2 (Z.leb_gt 48 b)), (proj2 (Z.leb_gt 65 b)), (proj2 (Z.leb_gt 97 b)), (proj2 (Z.leb_gt 128 b)) by lia.
    simpl. rewrite orb_false_r. intros Hin%bool_decide_eq_true. revert Hin.
    assert (Forall (λ x, 0 <= x) (lit "@%+=:,./-_")) as HF by (apply Forall_forall; intros x Hx;
      assert (forallb (λ x, 0 <=? x) (lit "@%+=:,./-_") = true) as Hall by (vm_compute; reflexivity);
      rewrite forallb_forall in Hall; apply list_elem_of_In, Hall in Hx; lia).
    rewrite Forall_forall in HF. intros Hin%HF. lia.
  - unfold shell_special. rewrite (proj2 (Z.leb_gt b 32)), (proj2 (Z.eqb_neq b 127)) by lia. rewrite !orb_false_r.
    split_and!; [|unfold APOSTROPHE; lia|lia|lia]. apply bool_decide_eq_false. intros Hin.
    assert (forallb (λ x, x <? 128) (lit "|&;<>()$`\*?[]#~!{}^" ++ [34; APOSTROPHE]) = true) as Hall by (vm_compute; reflexivity).
    rewrite forallb_forall in Hall. apply list_elem_of_In, Hall in Hin. lia.
Qed.

Lemma shell_plain a w rest :
  forallb plain_byte a = true → a ≠ [] → shell false w (a ++ rest) = shell false (Some (default [] w ++ a)) rest.
Proof.
  intros Ha Hne. revert w Hne; induction a as [|b a IH]; intros w Hne; [done|]. simpl in Ha. apply andb_true_iff in Ha as [Hb Ha].
  destruct (plain_not_special b Hb) as (H1 & H2 & H3 & H4). cbn [app shell].
  rewrite (proj2 (Z.eqb_neq _ _) H2), (proj2 (Z.eqb_neq _ _) H3), (proj2 (Z.eqb_neq _ _) H4), H1.
  destruct a as [|b' a]; [done|]. rewrite IH by done. simpl. by rewrite <-app_assoc.
Qed.

Lemma replace_byte x new s : replace [x] new s = mjoin ((λ b, if b =? x then new else [b]) <$> s).
Proof.
  unfold replace. induction s as [|b s IH]; [done|]. rewrite fmap_cons, mjoin_cons, <-IH. cbn [replace_from length].
  unfold starts_with. simpl. destruct (Z.eqb_spec b x) as [->|Hne].
  - by rewrite bool_decide_true.
  - rewrite bool_decide_false; [done|]. congruence.
Qed.

Definition quoted_byte (b : Z) : str :=
  if b =? APOSTROPHE then [APOSTROPHE] ++ lit "\" ++ [APOSTROPHE; APOSTROPHE] else [b].

Lemma shell_quoted a w rest :
  shell true (Some w) (mjoin (quoted_byte <$> a) ++ APOSTROPHE :: rest) = shell false (Some (w ++ a)) rest.
Proof.
  revert w; induction a as [|b a IH]; intros w; [by rewrite app_nil_r|].
  rewrite fmap_cons, mjoin_cons, <-app_assoc. unfold quoted_byte at 1. destruct (Z.eqb_spec b APOSTROPHE) as [->|Hne].
  - transitivity (shell true (Some (w ++ [APOSTROPHE])) (mjoin (quoted_byte <$> a) ++ APOSTROPHE :: rest)); [done|].
    rewrite IH. by rewrite <-app_assoc.
  - cbn [app shell]. rewrite (proj2 (Z.eqb_neq _ _) Hne). simpl default. rewrite IH. by rewrite <-app_assoc.
Qed.

Lemma shell_quote a rest : shell false None (quote a ++ rest) = shell false (Some a) rest.
Proof.
  unfold quote. destruct (negb _ && _) eqn:E.
  - apply andb_true_iff in E as [Hne%negb_true_iff Ha]. apply bool_decide_eq_false in Hne. by rewrite shell_plain.
  - rewrite replace_byte. change (([APOSTROPHE] ++ mjoin (_ <$> a) ++ [APOSTROPHE]) ++ rest)
      with (APOSTROPHE :: (mjoin (quoted_byte <$> a) ++ [APOSTROPHE]) ++ rest).
    rewrite <-app_assoc. apply (shell_quoted a []).
Qed.

(** What a command's arguments are logged as is what a shell takes for exactly these arguments,
    whatever bytes they hold. *)
Lemma log_quote_roundtrip argv : shell false None (quote_all argv) = Some argv.
Proof.
  unfold quote_all. induction argv as [|a argv IH]; [done|]. rewrite fmap_cons. destruct argv as [|a' argv].
  - cbn [fmap list_fmap join]. rewrite <-(app_nil_r (quote a)), shell_quote. done.
  - change (join [32] (quote a :: (quote <$> a' :: argv))) with (quote a ++ [32] ++ join [32] (quote <$> a' :: argv)).
    rewrite shell_quote. cbn [app shell]. change (32 =? APOSTROPHE) with false. change (32 =? 32) with true. cbn iota.
    by rewrite IH.
Qed.

(** ** Files stay within their limit *)

(** A write that fails writes nothing. *)
Definition whole_writes (io : LogIo) : Prop := io_write io = None ∨ io_write io = Some 0%nat.

(** The longest line: the time, a space, the cleaned text and the line's end. *)
Definition TIME_LENGTH : nat := 20.
Definition longest : Z := Z.of_nat (TIME_LENGTH + 1 + LINE_LIMIT + 1).

Definition bound (f : LogFile) (max : Z) : Z :=
  if bool_decide (rotate_count (log_limits f) = 0%nat) then max else Z.max max longest.

(** No file is over the bound or beyond the last number, and the size is that of FILE. *)
Record log_ok (max : Z) (f : LogFile) : Prop := {
  ok_max : max_size (log_limits f) = Some max;
  ok_files : ∀ n held, log_files f !! n = Some held → (n ≤ rotate_count (log_limits f))%nat ∧ Z.of_nat (length held) <= bound f max;
  ok_size : log_open f = true → log_size f = Z.of_nat (length (default [] (log_files f !! 0%nat)));
}.

Lemma append_ok io max text f :
  whole_writes io → log_ok max f → (log_open f = true → log_size f + Z.of_nat (length text) <= bound f max) →
  log_ok max (append io text f).
Proof.
  intros Hio [H1 H2 H3] Hfit. unfold append. destruct (log_open f) eqn:Eo; [|by split; [done|done|congruence]].
  assert (∀ held', Z.of_nat (length held') <= bound f max →
    ∀ n held, <[0%nat := held']> (log_files f) !! n = Some held →
    (n ≤ rotate_count (log_limits f))%nat ∧ Z.of_nat (length held) <= bound f max) as Hins.
  { intros held' Hl n held. destruct (decide (n = 0%nat)) as [->|Hn].
    - rewrite lookup_insert_eq. intros [= <-]. split; [lia|done].
    - rewrite lookup_insert_ne by done. apply H2. }
  specialize (Hfit eq_refl). specialize (H3 eq_refl). destruct Hio as [-> | ->]; (split; [done| |]); cbn [log_files log_open log_size log_limits].
  - apply Hins. rewrite length_app. lia.
  - intros _. rewrite lookup_insert_eq. simpl. rewrite length_app. lia.
  - apply Hins. rewrite app_nil_r. lia.
  - intros _. rewrite lookup_insert_eq. simpl. by rewrite app_nil_r.
Qed.

(** Moving and removing files makes none longer, and none beyond the next number. *)
Lemma rename_file_ok io n files (P : list Z → Prop) k :
  (n < k)%nat → (∀ i held, files !! i = Some held → (i ≤ k)%nat ∧ P held) →
  ∀ i held, (rename_file io n files).2 !! i = Some held → (i ≤ k)%nat ∧ P held.
Proof.
  intros Hn Hf i held. unfold rename_file. destruct (files !! n) as [h|] eqn:E; [|apply Hf].
  destruct (io_rename io n); [|apply Hf]. cbn [snd]. destruct (decide (i = S n)) as [->|Hi].
  - rewrite lookup_insert_eq. intros [= <-]. split; [lia|]. by apply (Hf n).
  - rewrite lookup_insert_ne by done. rewrite lookup_delete_Some. intros [_ H]. by apply Hf.
Qed.

Lemma shift_files_ok io n files (P : list Z → Prop) k :
  (n < k)%nat → (∀ i held, files !! i = Some held → (i ≤ k)%nat ∧ P held) →
  ∀ i held, shift_files io n files !! i = Some held → (i ≤ k)%nat ∧ P held.
Proof.
  revert files; induction n as [|n IH]; intros files Hn Hf; cbn [shift_files]; [done|].
  apply IH; [lia|]. by apply rename_file_ok.
Qed.

Lemma rotate_ok io max f :
  (0 < rotate_count (log_limits f))%nat → 0 <= max → log_ok max f →
  log_ok max (rotate io f) ∧ log_size (rotate io f) = 0 ∧ log_limits (rotate io f) = log_limits f.
Proof.
  intros Hn Hmax [H1 H2 H3]. unfold rotate. set (k := rotate_count (log_limits f)) in *.
  set (files := if io_remove io then _ else _).
  assert (∀ i held, files !! i = Some held → (i ≤ k)%nat ∧ Z.of_nat (length held) <= bound f max) as Hf.
  { intros i held. unfold files. destruct (io_remove io); [rewrite lookup_delete_Some; intros [_ ?]|]; by apply H2. }
  pose proof (shift_files_ok io (k - 1) files (λ h, Z.of_nat (length h) <= bound f max) k ltac:(lia) Hf) as Hs.
  pose proof (rename_file_ok io 0 (shift_files io (k - 1) files) (λ h, Z.of_nat (length h) <= bound f max) k ltac:(lia) Hs) as Hr.
  assert ((rename_file io 0 (shift_files io (k - 1) files)).1 = true →
    (rename_file io 0 (shift_files io (k - 1) files)).2 !! 0%nat = None) as Hmoved.
  { unfold rename_file. destruct (shift_files io (k - 1) files !! 0%nat); [|by intros [=]].
    destruct (io_rename io 0); [|by intros [=]]. intros _. cbn [snd].
    rewrite lookup_insert_ne by done. apply lookup_delete_eq. }
  destruct (rename_file io 0 _) as [moved files']. cbn [fst snd] in *. split; [|done]. split; [done| |].
  - cbn [log_files log_limits]. intros n held. destruct (io_open io); [|apply Hr].
    destruct (decide (n = 0%nat)) as [->|Hne]; [|rewrite lookup_insert_ne by done; apply Hr].
    rewrite lookup_insert_eq. intros [= <-]. split; [lia|]. change (bound (mk_log_file _ _ _ _ _) max) with (bound f max).
    destruct moved; [rewrite Hmoved by done|]; simpl; unfold bound, longest; destruct (bool_decide _); lia.
  - cbn [log_open log_files log_size]. intros ->. rewrite lookup_insert_eq. simpl. destruct moved; [by rewrite Hmoved|done].
Qed.

Lemma log_write_ok io now line max f :
  whole_writes io → 0 <= max → Z.of_nat (length line) <= longest → log_ok max f → log_ok max (log_write io now line f).
Proof.
  intros Hio Hmax Hline Hf. pose proof Hf as [H1 _ H3]. unfold log_write. rewrite H1. case_bool_decide as Hn.
  - destruct (log_full f); [done|].
    assert (bound f max = max) as Hb by (unfold bound; by rewrite bool_decide_true).
    destruct (Z.leb_spec (log_size f + Z.of_nat (length line + length (size_note now max))) max).
    + apply append_ok; [done|done|]. intros _. rewrite Hb. lia.
    + assert (log_ok max (set_full f)) as Hf' by (destruct Hf; by split).
      destruct (Z.leb_spec (log_size (set_full f) + Z.of_nat (length (size_note now max))) max); [|done].
      apply append_ok; [done|done|]. intros _. change (bound (set_full f) max) with (bound f max). rewrite Hb. done.
  - assert (bound f max = Z.max max longest) as Hb by (unfold bound; by rewrite bool_decide_false).
    destruct ((max <? log_size f + Z.of_nat (length line)) && (0 <? log_size f)) eqn:E.
    + destruct (rotate_ok io max f) as (Hr & Hs & Hl); [lia|done|done|]. apply append_ok; [done|done|].
      intros _. rewrite Hs. unfold bound. rewrite Hl. fold (bound f max). lia.
    + apply append_ok; [done|done|]. intros Ho. rewrite Hb. specialize (H3 Ho).
      apply andb_false_iff in E as [E|E]; [apply Z.ltb_ge in E; lia|]. apply Z.ltb_ge in E. lia.
Qed.

(** With a size limit, no sequence of lines makes a log file grow over it: FILE alone when nothing
    is rotated, and otherwise no file at all but by one line that is longer than the limit itself;
    files are numbered up to the last one that is kept.  Renames, removals and reopenings may fail. *)
Lemma log_file_bounded max f0 (steps : list (LogIo * str * str)) :
  0 <= max → log_ok max f0 →
  Forall (λ st, whole_writes st.1.1 ∧ length st.1.2 = TIME_LENGTH ∧ utf8_valid st.2 = true ∧ wf_bytes st.2) steps →
  let f := foldl (λ f st, log_line st.1.1 st.1.2 st.2 f) f0 steps in
  ∀ n held, log_files f !! n = Some held →
    (n ≤ rotate_count (log_limits f))%nat ∧ Z.of_nat (length held) <= bound f max.
Proof.
  intros Hmax Hf Hsteps. cbv zeta. assert (log_ok max (foldl (λ f st, log_line st.1.1 st.1.2 st.2 f) f0 steps)) as [_ H _]; [|done].
  revert f0 Hf. induction Hsteps as [|[[io now] line] steps (Hio & Hnow & Hv & Hw) _ IH]; intros f0 Hf; [done|].
  cbn [foldl fst snd] in *. apply IH. unfold log_line. apply log_write_ok; [done|done| |done].
  assert (length (clean line) ≤ LINE_LIMIT)%nat by by apply clean_cut_safe.
  rewrite !length_app, Hnow. unfold longest. simpl length. lia.
Qed.

(** ** Rotation keeps the order *)

(** Where every move goes well, FILE.n+1 is what FILE.n was, up to the last one kept, and FILE is
    fresh. *)
Lemma shift_files_spec io n files k :
  (∀ i, io_rename io i = true) → files !! S n = None →
  shift_files io n files !! k =
    if decide (k = 0)%nat then files !! 0%nat
    else if decide (k = 1)%nat then (if decide (n = 0)%nat then files !! 1%nat else None)
    else if decide (k ≤ S n)%nat then files !! (k - 1)%nat else files !! k.
Proof.
  intros Hio. revert files; induction n as [|n IH]; intros files Hn; cbn [shift_files].
  - repeat case_decide; subst; try done. lia.
  - assert ((rename_file io (S n) files).2 !! S n = None ∧
      ∀ i, (rename_file io (S n) files).2 !! i =
        if decide (i = S (S n)) then files !! S n else if decide (i = S n) then None else files !! i) as [H0 Hr].
    { unfold rename_file. destruct (files !! S n) as [h|] eqn:E; rewrite ?Hio; cbn [snd].
      - split; [by rewrite lookup_insert_ne, lookup_delete_eq by lia|]. intros i.
        repeat case_decide; subst; try lia; rewrite ?lookup_insert_eq, ?lookup_insert_ne, ?lookup_delete_eq, ?lookup_delete_ne by lia; done.
      - split; [done|]. intros i. repeat case_decide; by subst. }
    rewrite IH by done. rewrite !Hr. repeat case_decide; subst; try lia; try done; f_equal; lia.
Qed.

Lemma rotate_shifts io f k :
  (∀ i, io_rename io i = true) → io_remove io = true → io_open io = true → is_Some (log_files f !! 0%nat) →
  (0 < rotate_count (log_limits f))%nat → (k < rotate_count (log_limits f))%nat →
  log_files (rotate io f) !! S k = log_files f !! k ∧ log_files (rotate io f) !! 0%nat = Some [].
Proof.
  intros Hio Hrm Ho [h Hh] Hn Hk. unfold rotate. rewrite Hrm, Ho. set (n := rotate_count (log_limits f)) in *.
  set (files := delete n (log_files f)).
  assert (∀ k, shift_files io (n - 1) files !! k = if decide (k = 0)%nat then files !! 0%nat
    else if decide (k = 1)%nat then (if decide (n - 1 = 0)%nat then files !! 1%nat else None)
    else if decide (k ≤ S (n - 1))%nat then files !! (k - 1)%nat else files !! k) as Hs.
  { intros i. apply shift_files_spec; [done|]. unfold files. replace (S (n - 1)) with n by lia. apply lookup_delete_eq. }
  assert (files !! 0%nat = Some h) as H0 by (unfold files; rewrite lookup_delete_ne by lia; done).
  unfold rename_file. rewrite Hs. rewrite decide_True, H0, Hio by done. cbn [log_files].
  rewrite lookup_insert_eq, lookup_insert_ne by done. rewrite (lookup_insert_ne _ 1%nat 0%nat), lookup_delete_eq by done. split; [|done].
  destruct k as [|k]; [by rewrite lookup_insert_eq|]. rewrite lookup_insert_ne, lookup_delete_ne by lia. rewrite Hs.
  rewrite !decide_False by lia. rewrite decide_True by lia. unfold files. rewrite lookup_delete_ne by lia. done.
Qed.

(** ** Sizes *)

Lemma digits_value_nonneg digits : forallb is_digit digits = true → 0 <= digits_value digits.
Proof.
  unfold digits_value. assert (∀ acc, 0 <= acc → forallb is_digit digits = true → 0 <= foldl (λ acc b, acc * 10 + (b - 48)) acc digits) as Hf;
    [|by apply Hf].
  induction digits as [|b digits IH]; intros acc Hacc Hd; [done|]. cbn [forallb foldl] in *. apply andb_true_iff in Hd as [Hb Hd].
  apply IH; [|done]. unfold is_digit in Hb. apply andb_true_iff in Hb as [?%Z.leb_le _]. lia.
Qed.

Lemma parse_unsigned_nonneg bound s n : parse_unsigned bound s = Some n → 0 <= n.
Proof.
  unfold parse_unsigned. set (digits := match s with 43 :: s => s | _ => s end). cbv zeta.
  destruct (_ || _) eqn:Ed; [done|]. destruct (_ <? _); [|done]. intros [= <-].
  apply orb_false_iff in Ed as [_ Hd%negb_false_iff]. by apply digits_value_nonneg.
Qed.

Lemma unit_shift_range b s : unit_shift b = Some s → 0 <= s <= 30.
Proof. unfold unit_shift. repeat case_decide; intros [= <-]; lia. Qed.

Lemma parse_size_bounds text n : parse_size text = Ok n → 0 < n < 18446744073709551616.
Proof.
  unfold parse_size. set (t := trim_text text). cbv zeta.
  assert (∃ number shift, match last t with
    | Some b => if in_range 65 90 b || in_range 97 122 b then (take (length t - 1) t, unit_shift b) else (t, Some 0)
    | None => (t, Some 0)
    end = (number, shift) ∧ ∀ s, shift = Some s → 0 <= s) as (number & shift & -> & Hs).
  { destruct (last t) as [b|]; [destruct (_ || _)|]; do 2 eexists; (split; [done|]); intros s Hs;
      [apply unit_shift_range in Hs; lia|injection Hs as <-; lia|injection Hs as <-; lia]. }
  destruct shift as [sh|]; [|done]. specialize (Hs sh eq_refl). cbn [ok_or mbind result_bind].
  destruct (parse_unsigned _ _) as [m|] eqn:E; [|done]. apply parse_unsigned_nonneg in E. cbn [ok_or mbind result_bind].
  destruct (Z.eqb_spec m 0); [done|]. destruct (Z.ltb_spec (m * 2 ^ sh) 18446744073709551616); [|done]. intros [= <-].
  split; [|lia]. apply Z.mul_pos_pos; [lia|]. by apply Z.pow_pos_nonneg.
Qed.

(** *** Instances at concrete inputs *)

Lemma log_line_safe_witness :
  let line := lit "GET /" ++ [10; 27] ++ lit "[2J" ++ [226; 128; 174] in
  clean_cut line 7 = lit "GET /\n\x1b[2J\u{202e}" ++ marker 7 ∧
  (length (clean_cut line 7) ≤ LINE_LIMIT)%nat ∧ safe (clean_cut line 7) ∧ clean (clean_cut line 7) = clean_cut line 7 ∧
  ∃ kept rest, line = kept ++ rest ∧ clean_cut line 7 = escaped (chars kept) ++ marker_of (length rest + 7).
Proof.
  split; [vm_compute; reflexivity|]. apply log_line_safe; [vm_compute; reflexivity|].
  apply wf_bytes_check. vm_compute. reflexivity.
Defined.

Definition example_io : LogIo := mk_log_io None (λ _, true) true true.
Definition example_now : str := lit "2026-09-30T12:34:56Z".
Definition example_log : LogFile := mk_log_file {[0%nat := []]} true 0 (mk_limits (Some 60) 2) false.
Definition example_steps : list (LogIo * str * str) :=
  (λ line, (example_io, example_now, line)) <$> [lit "one ............"; lit "two ............"; lit "three .........."; lit "four"].

Lemma log_file_bounded_witness :
  let f := foldl (λ f st, log_line st.1.1 st.1.2 st.2 f) example_log example_steps in
  ((λ n, option_map length (log_files f !! n)) <$> seq 0 4) = [Some 26%nat; Some 38%nat; Some 38%nat; None] ∧
  ∀ n held, log_files f !! n = Some held →
    (n ≤ rotate_count (log_limits f))%nat ∧ Z.of_nat (length held) <= bound f 60.
Proof.
  split; [vm_compute; reflexivity|]. apply (log_file_bounded 60 example_log example_steps).
  - lia.
  - split; [reflexivity| |reflexivity]. intros n held H. change (({[0%nat := []]} : gmap nat (list Z)) !! n = Some held) in H. apply lookup_singleton_Some in H as [<- <-]. simpl. unfold bound, longest. simpl. lia.
  - unfold example_steps. apply Forall_fmap. repeat (apply Forall_cons; split); [..|apply Forall_nil_2];
      (split; [by left|]; split; [vm_compute; reflexivity|]; split; [vm_compute; reflexivity|]; apply wf_bytes_check; vm_compute; reflexivity).
Defined.

Example quoted_words :
  quote_all [lit "ls"; lit "-la"; lit "/work/a b"; []; lit "it" ++ [APOSTROPHE] ++ lit "s"; lit "x=1"] =
    lit "ls -la " ++ [39] ++ lit "/work/a b" ++ [39; 32; 39; 39; 32; 39] ++ lit "it" ++ [39; 92; 39; 39] ++ lit "s" ++ [39] ++ lit " x=1".
Proof. vm_compute. reflexivity. Qed.

Example sizes_read :
  parse_size <$> [lit "1000"; lit "10M"; lit " 512k "; lit "2G"; lit "0"; lit "10X"; lit "ten"; lit "99999999999999999999G"] =
    [Ok 1000; Ok 10485760; Ok 524288; Ok 2147483648; Err ZeroSize; Err NotASize; Err NotASize; Err NotASize].
Proof. vm_compute. reflexivity. Qed.

Example shortened : shorten (lit "http://x/" ++ [234; 176; 128; 235; 130; 152]) 11 = lit "http://x/" ++ marker 6.
Proof. vm_compute. reflexivity. Qed.
