(* ===== verification/Zip.v ===== *)
(** * Zip export (engine/src/zip.rs)

    [exportZip] writes a shared folder as a stored archive: [collect] lists the folder in a stable
    order, [write_folder] lays out the local headers, the central directory and its end.  The folder
    is a tree ([HostFile]) whose files and directories may be unreadable; a write error of the
    archive's file ends the code with that error and is left out.  [read_zip] is the format's reader
    the archive is checked against: it goes by the central directory and checks each local header
    and checksum. *)
From stdpp Require Import strings.
From S2P Require Import Prelude Str.

Local Open Scope Z_scope.

Definition SIG_LOCAL : Z := 0x04034b50.
Definition SIG_CENTRAL : Z := 0x02014b50.
Definition SIG_END : Z := 0x06054b50.
Definition UNIX : Z := 3.
Definition S_IFDIR : Z := 0x4000.
Definition S_IFREG : Z := 0x8000.
Definition S_IFLNK : Z := 0xa000.

(** ** Checksums *)

(** One bit of a byte: [(crc >> 1) ^ (0xedb8_8320 & mask)] with [mask] all ones when the low bit is
    set ([wrapping_neg] of 1) and 0 otherwise. *)
Definition crc_bit (crc : Z) : Z :=
  let mask := u32 (- Z.land crc 1) in
  Z.lxor (Z.shiftr crc 1) (Z.land 0xedb88320 mask).
Definition crc_byte (crc byte : Z) : Z := Nat.iter 8 crc_bit (Z.lxor crc byte).
Definition crc32 (bytes : list Z) : Z := Z.lxor 0xffffffff (foldl crc_byte 0xffffffff bytes).

(** ** Dates *)

(** Days since 1970-01-01 as a date. *)
Definition civil_from_days (days : Z) : Z * Z * Z :=
  let z := days + 719468 in
  let era := z / 146097 in
  let doe := z mod 146097 in
  let yoe := (doe - doe / 1460 + doe / 36524 - doe / 146096) / 365 in
  let year := yoe + era * 400 in
  let doy := doe - (365 * yoe + yoe / 4 - yoe / 100) in
  let mp := (5 * doy + 2) / 153 in
  let day := doy - (153 * mp + 2) / 5 + 1 in
  let month := if mp <? 10 then mp + 3 else mp - 9 in
  (if month <=? 2 then year + 1 else year, month, day).

(** The fields as [u16]: (time, date). *)
Definition dos_time (mtime : Z) : Z * Z :=
  let days := mtime / 86400 in
  let seconds := mtime mod 86400 in
  let '(year, month, day) := civil_from_days days in
  let year := Z.max year 1980 in
  let time := Z.lor (Z.lor (Z.shiftl (seconds / 3600) 11) (Z.shiftl (seconds mod 3600 / 60) 5)) (seconds mod 60 / 2) in
  let date := Z.lor (Z.lor (Z.shiftl (year - 1980) 9) (Z.shiftl month 5)) day in
  (u16 time, u16 date).

(** ** Entries *)

Inductive Kind : Type :=
  | File (content : list Z)
  | Directory
  | Symlink (target : list Z).

Record Entry := mk_entry {
  ze_path : str;
  ze_kind : Kind;
  ze_mode : Z;
  ze_mtime : Z;
}.

Definition data (e : Entry) : list Z :=
  match ze_kind e with File b | Symlink b => b | Directory => [] end.

Definition external (e : Entry) : Z :=
  let kind := match ze_kind e with File _ => S_IFREG | Directory => S_IFDIR | Symlink _ => S_IFLNK end in
  let low := match ze_kind e with Directory => 1 | _ => 0 end in
  Z.lor (u32 (Z.shiftl (Z.lor kind (Z.land (ze_mode e) 0xfff)) 16)) low.

Definition extra (mtime : Z) : list Z :=
  le_bytes 2 0x5455 ++ le_bytes 2 5 ++ [1] ++ le_bytes 4 (u32 mtime).

(** ** The folder *)

(** What [symlink_metadata] says: the mode, and the modification time when there is one after 1970. *)
Record Metadata := mk_metadata {
  md_mode : Z;
  md_modified : option Z;
}.

(** A file of the host; [None] where reading it fails.  The children of a directory are in the
    order [read_dir] happens to give them. *)
Inductive HostFile : Type :=
  | HostRegular (content : option (list Z))
  | HostDirectory (children : option (list (str * (option Metadata * HostFile))))
  | HostSymlink (target : option str)
  | HostOther.

Inductive zip_error : Type :=
  | Unreadable
  | TooManyEntries (n : nat)
  | TooDeep.

(** The order of [names.sort()]: names of one folder, byte by byte. *)
Fixpoint name_leb (a b : str) : bool :=
  match a, b with
  | [], _ => true
  | _ :: _, [] => false
  | x :: a, y :: b => (x <? y) || ((x =? y) && name_leb a b)
  end.
Definition child_le (a b : str * (option Metadata * HostFile)) : Prop := name_leb a.1 b.1 = true.
#[export] Instance child_le_dec : RelDecision child_le.
Proof. intros a b. unfold child_le. apply _. Defined.

(** One name of a folder: what [collect] does before the next one.  [parts] are the names below the
    exported folder, [inner] collects a folder within. *)
Definition collect_one (inner : list str → list (str * (option Metadata * HostFile)) → result zip_error (list Entry))
    (parts : list str) (child : str * (option Metadata * HostFile)) : result zip_error (list Entry) :=
  let '(name, (metadata, file)) := child in
  metadata ← ok_or metadata Unreadable;
  let parts := parts ++ [name] in
  let path := join (lit "/") (from_utf8_lossy <$> parts) in
  let mtime := default 0 (md_modified metadata) in
  let mode := Z.land (md_mode metadata) 0xfff in
  match file with
  | HostSymlink target =>
      target ← ok_or target Unreadable;
      Ok [mk_entry path (Symlink (from_utf8_lossy target)) mode mtime]
  | HostDirectory children =>
      children ← ok_or children Unreadable;
      below ← inner parts children;
      Ok (mk_entry (path ++ lit "/") Directory mode mtime :: below)
  | HostRegular content =>
      content ← ok_or content Unreadable;
      Ok [mk_entry path (File content) mode mtime]
  | HostOther => Ok []
  end.

(** [fuel] bounds the depth of the folder ([collect_deep_enough]). *)
Fixpoint collect (fuel : nat) (parts : list str) (directory : list (str * (option Metadata * HostFile)))
    : result zip_error (list Entry) :=
  match fuel with
  | O => Err TooDeep
  | S fuel =>
      let names := merge_sort child_le directory in
      entries ← collect_results (collect_one (collect fuel) parts) names;
      Ok (mjoin (M:=list) entries)
  end.

(** How deep a folder is. *)
Fixpoint depth (f : HostFile) : nat :=
  match f with
  | HostDirectory (Some l) => S (foldr (λ c n, Nat.max (depth c.2.2) n) 0%nat l)
  | _ => 0%nat
  end.
Definition folder_depth (l : list (str * (option Metadata * HostFile))) : nat := depth (HostDirectory (Some l)).

(** ** The archive *)

Definition local_header (e : Entry) : list Z :=
  let '(time, date) := dos_time (ze_mtime e) in
  le_bytes 4 SIG_LOCAL ++ le_bytes 2 20 ++ le_bytes 2 (Z.shiftl 1 11) ++ le_bytes 2 0 ++
  le_bytes 2 time ++ le_bytes 2 date ++ le_bytes 4 (crc32 (data e)) ++
  le_bytes 4 (u32 (Z.of_nat (length (data e)))) ++ le_bytes 4 (u32 (Z.of_nat (length (data e)))) ++
  le_bytes 2 (u16 (Z.of_nat (length (ze_path e)))) ++ le_bytes 2 (u16 (Z.of_nat (length (extra (ze_mtime e))))).

Definition central_header (e : Entry) (offset : Z) : list Z :=
  let '(time, date) := dos_time (ze_mtime e) in
  le_bytes 4 SIG_CENTRAL ++ le_bytes 2 (Z.lor (Z.shiftl UNIX 8) 20) ++ le_bytes 2 20 ++ le_bytes 2 (Z.shiftl 1 11) ++
  le_bytes 2 0 ++ le_bytes 2 time ++ le_bytes 2 date ++ le_bytes 4 (crc32 (data e)) ++
  le_bytes 4 (u32 (Z.of_nat (length (data e)))) ++ le_bytes 4 (u32 (Z.of_nat (length (data e)))) ++
  le_bytes 2 (u16 (Z.of_nat (length (ze_path e)))) ++ le_bytes 2 (u16 (Z.of_nat (length (extra (ze_mtime e))))) ++
  le_bytes 2 0 ++ le_bytes 2 0 ++ le_bytes 2 0 ++ le_bytes 4 (external e) ++ le_bytes 4 (u32 offset).

(** One turn of the loop over the entries: (the file so far, the central directory so far). *)
Definition write_entry (out : list Z * list Z) (e : Entry) : list Z * list Z :=
  let '(file, central) := out in
  let offset := Z.of_nat (length file) in
  (file ++ local_header e ++ ze_path e ++ extra (ze_mtime e) ++ data e,
   central ++ central_header e offset ++ ze_path e ++ extra (ze_mtime e)).

Definition end_record (count : nat) (size central_at : Z) : list Z :=
  le_bytes 4 SIG_END ++ le_bytes 2 0 ++ le_bytes 2 0 ++ le_bytes 2 (u16 (Z.of_nat count)) ++
  le_bytes 2 (u16 (Z.of_nat count)) ++ le_bytes 4 (u32 size) ++ le_bytes 4 (u32 central_at) ++ le_bytes 2 0.

Definition write_entries (entries : list Entry) : list Z * Z :=
  let '(file, central) := foldl write_entry ([], []) entries in
  let central_at := Z.of_nat (length file) in
  let file := file ++ central in
  let end_at := Z.of_nat (length file) in
  (file ++ end_record (length entries) (end_at - central_at) central_at, end_at + 22).

(** The archive's bytes, and what the code returns: how many entries and bytes. *)
Definition write_folder (directory : list (str * (option Metadata * HostFile))) : result zip_error (list Z * (nat * Z)) :=
  entries ← collect (S (folder_depth directory)) [] directory;
  if bool_decide (0xffff < Z.of_nat (length entries)) then Err (TooManyEntries (length entries))
  else let '(file, bytes) := write_entries entries in Ok (file, (length entries, bytes)).

(** ** Reading an archive *)

(** Little-endian fields of the given widths. *)
Fixpoint read_fields (widths : list nat) (l : list Z) : option (list Z * list Z) :=
  match widths with
  | [] => Some ([], l)
  | w :: widths =>
      if bool_decide (w ≤ length l)%nat then
        '(values, rest) ← read_fields widths (drop w l);
        Some (le_val (take w l) :: values, rest)
      else None
  end.

Definition read_bytes (n : Z) (l : list Z) : option (list Z * list Z) :=
  if bool_decide (n <= Z.of_nat (length l)) then Some (take (Z.to_nat n) l, drop (Z.to_nat n) l) else None.

(** What an archive says of a file: its name, type and permissions, time and content. *)
Record ZipItem := mk_zip_item {
  zi_name : str;
  zi_mode : Z;
  zi_mtime : Z;
  zi_data : list Z;
}.

Definition local_widths : list nat := [4; 2; 2; 2; 2; 2; 4; 4; 4; 2; 2]%nat.
Definition central_widths : list nat := [4; 2; 2; 2; 2; 2; 2; 4; 4; 4; 2; 2; 2; 2; 2; 4; 4]%nat.
Definition end_widths : list nat := [4; 2; 2; 2; 2; 4; 4; 2]%nat.

(** The modification time of the UT field. *)
Definition read_extra (l : list Z) : option Z :=
  match read_fields [2; 2; 1; 4]%nat l with
  | Some ([id; size; flags; mtime], []) =>
      if bool_decide (id = 0x5455 ∧ size = 5 ∧ flags = 1) then Some mtime else None
  | _ => None
  end.

(** A record of the central directory and the file it leads to. *)
Definition read_record (file central : list Z) : option (ZipItem * list Z) :=
  match read_fields central_widths central with
  | Some ([sig; _; needed; flags; method; time; date; crc; stored; size; nlen; elen; clen; disk; _; attributes; offset],
          rest) =>
      '(name, rest) ← read_bytes nlen rest;
      '(ut, rest) ← read_bytes elen rest;
      '(fields, body) ← read_fields local_widths (drop (Z.to_nat offset) file);
      '(name', body) ← read_bytes nlen body;
      '(ut', body) ← read_bytes elen body;
      '(content, _) ← read_bytes size body;
      mtime ← read_extra ut;
      if bool_decide (sig = SIG_CENTRAL ∧ method = 0 ∧ stored = size ∧ clen = 0 ∧ disk = 0 ∧
                      fields = [SIG_LOCAL; needed; flags; method; time; date; crc; stored; size; nlen; elen] ∧
                      name' = name ∧ ut' = ut ∧ crc32 content = crc)
      then Some (mk_zip_item name (Z.shiftr attributes 16) mtime content, rest)
      else None
  | _ => None
  end.

Fixpoint read_records (n : nat) (file central : list Z) : option (list ZipItem) :=
  match n with
  | O => if decide (central = []) then Some [] else None
  | S n =>
      '(item, central) ← read_record file central;
      items ← read_records n file central;
      Some (item :: items)
  end.

Definition read_zip (file : list Z) : option (list ZipItem) :=
  match read_fields end_widths (drop (length file - 22) file) with
  | Some ([sig; disk; disk'; count; count'; size; at_; comment], []) =>
      if bool_decide (sig = SIG_END ∧ disk = 0 ∧ disk' = 0 ∧ count = count' ∧ comment = 0 ∧
                      at_ + size + 22 = Z.of_nat (length file))
      then read_records (Z.to_nat count) file (slice (Z.to_nat at_) (Z.to_nat (at_ + size)) file)
      else None
  | _ => None
  end.

(** ** What an archive should hold *)

(** The files below a folder, in no particular order. *)
Fixpoint listing (parts : list str) (f : HostFile) : list Entry :=
  match f with
  | HostDirectory (Some l) =>
      (fix below (l : list (str * (option Metadata * HostFile))) : list Entry :=
         match l with
         | [] => []
         | (name, (metadata, file)) :: l =>
             let parts := parts ++ [name] in
             let path := join (lit "/") (from_utf8_lossy <$> parts) in
             let mode := Z.land (default 0 (md_mode <$> metadata)) 0xfff in
             let mtime := default 0 (metadata ≫= md_modified) in
             match file with
             | HostRegular content => [mk_entry path (File (default [] content)) mode mtime]
             | HostDirectory _ => [mk_entry (path ++ lit "/") Directory mode mtime]
             | HostSymlink target => [mk_entry path (Symlink (from_utf8_lossy (default [] target))) mode mtime]
             | HostOther => []
             end ++ listing parts file ++ below l
         end) l
  | _ => []
  end.

(** Everything below a folder can be read. *)
Fixpoint readable (f : HostFile) : bool :=
  match f with
  | HostRegular content => bool_decide (is_Some content)
  | HostDirectory children =>
      match children with
      | Some l => forallb (λ c, bool_decide (is_Some c.2.1) && readable c.2.2) l
      | None => false
      end
  | HostSymlink target => bool_decide (is_Some target)
  | HostOther => true
  end.

(** The size of an archive of these entries. *)
Definition archive_size (es : list Entry) : Z :=
  foldr (λ e n, n + 94 + 2 * Z.of_nat (length (ze_path e)) + Z.of_nat (length (data e))) 22 es.

(** What the reader should say of an entry: the archive has 32 bits for the time. *)
Definition item_of (e : Entry) : ZipItem :=
  let kind := match ze_kind e with File _ => S_IFREG | Directory => S_IFDIR | Symlink _ => S_IFLNK end in
  mk_zip_item (ze_path e) (Z.lor kind (ze_mode e)) (u32 (ze_mtime e)) (data e).

(** An entry whose fields an archive without zip64 can hold. *)
Definition entry_fits (e : Entry) : Prop :=
  wf_bytes (data e) ∧ Z.of_nat (length (ze_path e)) < 65536.

(** ** Fields *)

Lemma read_fields_written ws vs rest :
  Forall2 (λ w v, 0 <= v < 256 ^ Z.of_nat w) ws vs →
  read_fields ws (mjoin (zip_with le_bytes ws vs) ++ rest) = Some (vs, rest).
Proof.
  induction 1 as [|w v ws vs Hv _ IH]; [done|]. cbn [zip_with read_fields]. rewrite mjoin_cons, <-app_assoc.
  rewrite bool_decide_true by (rewrite length_app, length_le_bytes; lia).
  rewrite drop_app_length' by (by rewrite length_le_bytes).
  rewrite take_app_length' by (by rewrite length_le_bytes). rewrite IH. cbn. by rewrite le_val_small.
Qed.

Lemma read_bytes_app n (l rest : list Z) :
  n = Z.of_nat (length l) → read_bytes n (l ++ rest) = Some (l, rest).
Proof.
  intros ->. unfold read_bytes. rewrite bool_decide_true by (rewrite length_app; lia).
  rewrite Nat2Z.id, take_app_length, drop_app_length. done.
Qed.

(** Every value is within its field. *)
Ltac solve_fields :=
  repeat first [apply List.Forall2_nil | apply List.Forall2_cons];
  change (256 ^ Z.of_nat 1) with 256; change (256 ^ Z.of_nat 2) with 65536; change (256 ^ Z.of_nat 4) with 4294967296;
  first [lia | vm_compute; split; [discriminate|reflexivity]].

(** ** Ranges *)

Lemma lxor_u32 a b : 0 <= a < 4294967296 → 0 <= b < 4294967296 → 0 <= Z.lxor a b < 4294967296.
Proof.
  intros Ha Hb. split; [apply Z.lxor_nonneg; lia|].
  destruct (decide (Z.lxor a b = 0)) as [->|Hn]; [lia|].
  assert (0 <= Z.lxor a b) by (apply Z.lxor_nonneg; lia).
  change 4294967296 with (2 ^ 32). apply Z.log2_lt_pow2; [lia|].
  eapply Z.le_lt_trans; [apply Z.log2_lxor; lia|].
  apply Z.max_lub_lt; (destruct (decide (0 < a)); destruct (decide (0 < b));
    try (apply Z.log2_lt_pow2; [lia|change (2 ^ 32) with 4294967296; lia]); rewrite Z.log2_nonpos; lia).
Qed.

Lemma crc_bit_range c : 0 <= c < 4294967296 → 0 <= crc_bit c < 4294967296.
Proof.
  intros Hc. unfold crc_bit. apply lxor_u32.
  - rewrite Z.shiftr_div_pow2 by lia. change (2 ^ 1) with 2. split; [apply Z.div_pos; lia|].
    apply Z.div_lt_upper_bound; lia.
  - replace (Z.land c 1) with (c mod 2) by (symmetry; apply (Z.land_ones c 1); lia).
    destruct (Z.mod_pos_bound c 2 ltac:(lia)). destruct (decide (c mod 2 = 0)) as [->|].
    + vm_compute. split; [discriminate|done].
    + replace (c mod 2) with 1 by lia. vm_compute. split; [discriminate|done].
Qed.

Lemma crc_byte_range c b : 0 <= c < 4294967296 → is_byte b → 0 <= crc_byte c b < 4294967296.
Proof.
  intros Hc Hb. unfold crc_byte. unfold is_byte in Hb.
  assert (0 <= Z.lxor c b < 4294967296) as Hx by (apply lxor_u32; lia). revert Hx. generalize (Z.lxor c b).
  generalize 8%nat. intros n; induction n as [|n IH]; intros x Hx; [done|]. rewrite Nat.iter_succ. by apply crc_bit_range, IH.
Qed.

Lemma crc32_range l : wf_bytes l → 0 <= crc32 l < 4294967296.
Proof.
  intros Hl. unfold crc32. apply lxor_u32; [lia|].
  assert (0 <= 0xffffffff < 4294967296) as Hc by lia. revert Hc. generalize 0xffffffff.
  induction Hl as [|b l Hb _ IH]; intros c Hc; [done|]. apply IH. by apply crc_byte_range.
Qed.

Lemma length_extra t : length (extra t) = 9%nat.
Proof. unfold extra. by rewrite !length_app, !length_le_bytes. Qed.

Lemma read_extra_written t : read_extra (extra t) = Some (u32 t).
Proof.
  unfold read_extra.
  replace (extra t) with (mjoin (zip_with le_bytes [2; 2; 1; 4]%nat [0x5455; 5; 1; u32 t]) ++ [])
    by (unfold extra; cbn [zip_with]; rewrite !mjoin_cons, app_nil_r; done).
  rewrite read_fields_written; [by rewrite bool_decide_true|].
  pose proof (u32_range t). solve_fields.
Qed.

(** [mode & 0o7777] is a small number. *)
Lemma mode_range m : 0 <= Z.land m 0xfff < 4096.
Proof. change 0xfff with (Z.ones 12). rewrite Z.land_ones by lia. apply (Z.mod_pos_bound m 4096). lia. Qed.

(** The attributes give back the type and the permissions. *)
Lemma external_ok e : 0 <= ze_mode e < 4096 →
  0 <= external e < 4294967296 ∧ Z.shiftr (external e) 16 = zi_mode (item_of e).
Proof.
  intros Hm. unfold external, item_of. cbn [zi_mode].
  replace (Z.land (ze_mode e) 0xfff) with (ze_mode e)
    by (change 0xfff with (Z.ones 12); rewrite Z.land_ones by lia; symmetry; apply (Z.mod_small _ 4096); lia).
  set (kind := match ze_kind e with File _ => _ | _ => _ end). set (low := match ze_kind e with Directory => 1 | _ => 0 end).
  assert (0 <= Z.lor kind (ze_mode e) < 65536) as Hk.
  { split; [apply Z.lor_nonneg; split; [by destruct (ze_kind e)|lia]|].
    destruct (decide (Z.lor kind (ze_mode e) = 0)) as [->|]; [lia|].
    assert (0 <= Z.lor kind (ze_mode e)) by (apply Z.lor_nonneg; split; [by destruct (ze_kind e)|lia]).
    change 65536 with (2 ^ 16). apply Z.log2_lt_pow2; [lia|]. rewrite Z.log2_lor by (first [lia|by destruct (ze_kind e)]).
    apply Z.max_lub_lt; [by destruct (ze_kind e)|].
    destruct (decide (ze_mode e = 0)) as [->|]; [done|]. apply Z.log2_lt_pow2; [lia|].
    change (2 ^ 16) with 65536. lia. }
  revert Hk. generalize (Z.lor kind (ze_mode e)). intros m Hk.
  rewrite u32_small by (rewrite Z.shiftl_mul_pow2; lia).
  assert (low = 0 ∨ low = 1) as Hl by (subst low; destruct (ze_kind e); auto).
  rewrite Z.shiftl_mul_pow2, lor_above by lia. change (2 ^ 16) with 65536.
  rewrite Z.shiftr_div_pow2 by lia. change (2 ^ 16) with 65536. split; [lia|].
  symmetry. apply (Z.div_unique _ 65536 m low); lia.
Qed.

(** ** The archive reads back *)

Section archive.

Definition entry_local (e : Entry) : list Z := local_header e ++ ze_path e ++ extra (ze_mtime e) ++ data e.

Fixpoint centrals (offset : Z) (es : list Entry) : list Z :=
  match es with
  | [] => []
  | e :: es =>
      central_header e offset ++ ze_path e ++ extra (ze_mtime e) ++
      centrals (offset + Z.of_nat (length (entry_local e))) es
  end.

Lemma foldl_write_entry file central es :
  foldl write_entry (file, central) es =
    (file ++ mjoin (entry_local <$> es), central ++ centrals (Z.of_nat (length file)) es).
Proof.
  revert file central; induction es as [|e es IH]; intros file central; [by rewrite !app_nil_r|].
  cbn [foldl]. change (write_entry (file, central) e) with
    (file ++ entry_local e, central ++ central_header e (Z.of_nat (length file)) ++ ze_path e ++ extra (ze_mtime e)).
  rewrite IH, fmap_cons, mjoin_cons, length_app, Nat2Z.inj_add, <-!app_assoc. done.
Qed.

Definition fits (e : Entry) : Prop := entry_fits e ∧ 0 <= ze_mode e < 4096.

Lemma dos_time_range t time date : dos_time t = (time, date) → 0 <= time < 65536 ∧ 0 <= date < 65536.
Proof.
  unfold dos_time. destruct (civil_from_days _) as [[year month] day]. intros [= <- <-].
  split; apply u16_range.
Qed.

Lemma data_le_local e : (length (data e) ≤ length (entry_local e))%nat.
Proof. unfold entry_local. rewrite !length_app. lia. Qed.

Definition local_fields (e : Entry) (time date : Z) : list Z :=
  [20; Z.shiftl 1 11; 0; time; date; crc32 (data e); Z.of_nat (length (data e)); Z.of_nat (length (data e));
   Z.of_nat (length (ze_path e)); 9].

Lemma local_header_fields e time date :
  dos_time (ze_mtime e) = (time, date) → fits e → Z.of_nat (length (data e)) < 4294967296 →
  local_header e = mjoin (zip_with le_bytes local_widths (SIG_LOCAL :: local_fields e time date)).
Proof.
  intros Hdos [[_ Hname] _] Hdata. unfold local_header, local_widths, local_fields. rewrite Hdos.
  cbn [zip_with]. rewrite length_extra, !u32_small, !u16_small, !mjoin_cons by lia. done.
Qed.

Lemma central_header_fields e time date offset :
  dos_time (ze_mtime e) = (time, date) → fits e → Z.of_nat (length (data e)) < 4294967296 → 0 <= offset < 4294967296 →
  central_header e offset =
    mjoin (zip_with le_bytes central_widths
      (SIG_CENTRAL :: Z.lor (Z.shiftl UNIX 8) 20 :: local_fields e time date ++ [0; 0; 0; external e; offset])).
Proof.
  intros Hdos [[_ Hname] _] Hdata Ho. unfold central_header, central_widths, local_fields. rewrite Hdos.
  cbn [zip_with app]. rewrite length_extra, !u32_small, !u16_small, !mjoin_cons by lia. done.
Qed.

Lemma read_record_written e pre post rest :
  fits e → Z.of_nat (length (pre ++ entry_local e ++ post)) < 4294967296 →
  read_record (pre ++ entry_local e ++ post)
    (central_header e (Z.of_nat (length pre)) ++ ze_path e ++ extra (ze_mtime e) ++ rest) = Some (item_of e, rest).
Proof.
  intros Hfits Hlen. pose proof (data_le_local e) as Hdata. rewrite !length_app in Hlen.
  destruct (external_ok e (proj2 Hfits)) as [Hext Hshift]. pose proof (crc32_range _ (proj1 (proj1 Hfits))) as Hcrc.
  destruct (dos_time (ze_mtime e)) as [time date] eqn:Hdos. destruct (dos_time_range _ _ _ Hdos) as [Htime Hdate].
  destruct (proj1 Hfits) as [_ Hname].
  unfold read_record. rewrite (central_header_fields e time date), read_fields_written by (solve [done|lia|solve_fields]).
  unfold local_fields at 1. cbn [app].
  rewrite read_bytes_app by done. cbn [mbind option_bind].
  rewrite read_bytes_app by (by rewrite length_extra). cbn [mbind option_bind].
  rewrite Nat2Z.id, drop_app_length. unfold entry_local.
  rewrite (local_header_fields e time date), <-!app_assoc, read_fields_written by (solve [done|lia|solve_fields]).
  cbn [mbind option_bind]. rewrite read_bytes_app by done. cbn [mbind option_bind].
  rewrite read_bytes_app by (by rewrite length_extra). cbn [mbind option_bind].
  rewrite read_bytes_app by done. cbn [mbind option_bind]. rewrite read_extra_written. cbn [mbind option_bind].
  rewrite bool_decide_true by done. rewrite Hshift. done.
Qed.

Lemma read_records_written es pre post :
  Forall fits es → Z.of_nat (length (pre ++ mjoin (entry_local <$> es) ++ post)) < 4294967296 →
  read_records (length es) (pre ++ mjoin (entry_local <$> es) ++ post) (centrals (Z.of_nat (length pre)) es) =
    Some (item_of <$> es).
Proof.
  intros Hes. revert pre; induction Hes as [|e es He _ IH]; intros pre Hlen; [done|].
  cbn [length read_records centrals]. rewrite fmap_cons, mjoin_cons, <-app_assoc in *.
  rewrite read_record_written by done. cbn [mbind option_bind].
  specialize (IH (pre ++ entry_local e)). rewrite <-app_assoc in IH.
  replace (_ + _) with (Z.of_nat (length (pre ++ entry_local e))) by (rewrite length_app; lia).
  rewrite IH by done. done.
Qed.

Lemma length_end_record n s c : length (end_record n s c) = 22%nat.
Proof. unfold end_record. by rewrite !length_app, !length_le_bytes. Qed.

Lemma read_zip_written es :
  let '(file, bytes) := write_entries es in
  bytes = Z.of_nat (length file) ∧
  (Z.of_nat (length es) <= 65535 → bytes < 4294967296 → Forall fits es → read_zip file = Some (item_of <$> es)).
Proof.
  unfold write_entries. rewrite foldl_write_entry. cbn [app length].
  set (locals := mjoin (entry_local <$> es)). set (central := centrals _ es).
  rewrite !length_app, length_end_record. split; [lia|]. intros Hn Hbytes Hes.
  set (n := length es) in *.
  unfold read_zip. rewrite !length_app, length_end_record.
  rewrite drop_app_length' by (rewrite length_app; lia).
  set (fin := end_record n _ _).
  assert (fin = mjoin (zip_with le_bytes end_widths [SIG_END; 0; 0; Z.of_nat n; Z.of_nat n; Z.of_nat (length central);
    Z.of_nat (length locals); 0]) ++ []) as Hfin.
  { subst fin. unfold end_record, end_widths. cbn [zip_with]. rewrite !u32_small, !u16_small, !mjoin_cons, app_nil_r by lia.
    do 6 f_equal. f_equal. lia. }
  rewrite Hfin at 1.
  rewrite read_fields_written by solve_fields. cbn [app].
  rewrite bool_decide_true by lia. rewrite Nat2Z.id.
  replace (slice _ _ _) with central.
  2: { rewrite Nat2Z.id, <-Nat2Z.inj_add, Nat2Z.id. rewrite slice_app_l by (rewrite length_app; lia).
       rewrite slice_app_r by lia. replace (length locals - length locals)%nat with 0%nat by lia.
       replace (length locals + length central - length locals)%nat with (length central) by lia. by rewrite slice_full. }
  rewrite <-app_assoc. apply (read_records_written es [] _); [done|].
  cbn [app]. rewrite !length_app. fold locals. subst fin. rewrite length_end_record. lia.
Qed.

Lemma archive_size_perm es es' : es ≡ₚ es' → archive_size es = archive_size es'.
Proof. unfold archive_size. induction 1; cbn [foldr]; lia. Qed.

Lemma length_written es offset :
  Z.of_nat (length (mjoin (entry_local <$> es))) + Z.of_nat (length (centrals offset es)) + 22 = archive_size es.
Proof.
  revert offset; induction es as [|e es IH]; intros offset; [done|].
  cbn [archive_size foldr centrals]. fold (archive_size es). rewrite fmap_cons, mjoin_cons, !length_app, length_extra.
  rewrite <-(IH (offset + Z.of_nat (length (entry_local e)))).
  assert (length (entry_local e) = 39 + length (ze_path e) + length (data e))%nat as ->.
  { unfold entry_local, local_header. destruct (dos_time _). rewrite !length_app, !length_le_bytes, length_extra. lia. }
  assert (length (central_header e offset) = 46)%nat as ->; [|lia].
  unfold central_header. destruct (dos_time _). by rewrite !length_app, !length_le_bytes.
Qed.

Lemma write_entries_size es : (write_entries es).2 = archive_size es.
Proof.
  unfold write_entries. rewrite foldl_write_entry. cbn [snd app]. rewrite length_app, Nat2Z.inj_add.
  by rewrite <-(length_written es (Z.of_nat (length (@nil Z)))).
Qed.

End archive.

(** ** The folder is listed whole *)

Definition listing_one (parts : list str) (c : str * (option Metadata * HostFile)) : list Entry :=
  let '(name, (metadata, file)) := c in
  let parts := parts ++ [name] in
  let path := join (lit "/") (from_utf8_lossy <$> parts) in
  let mode := Z.land (default 0 (md_mode <$> metadata)) 0xfff in
  let mtime := default 0 (metadata ≫= md_modified) in
  match file with
  | HostRegular content => [mk_entry path (File (default [] content)) mode mtime]
  | HostDirectory _ => [mk_entry (path ++ lit "/") Directory mode mtime]
  | HostSymlink target => [mk_entry path (Symlink (from_utf8_lossy (default [] target))) mode mtime]
  | HostOther => []
  end ++ listing parts file.

Lemma listing_directory parts l : listing parts (HostDirectory (Some l)) = mjoin (listing_one parts <$> l).
Proof. induction l as [|[name [metadata file]] l IH]; [done|]. rewrite fmap_cons, mjoin_cons, <-IH. cbn. by rewrite <-app_assoc. Qed.

Lemma mjoin_perm {A} (l l' : list (list A)) : l ≡ₚ l' → mjoin l ≡ₚ mjoin l'.
Proof. induction 1; rewrite ?mjoin_cons; [done|by f_equiv|by rewrite Permutation_app_swap_app|by etrans]. Qed.

Definition ok_mode (e : Entry) : Prop := 0 <= ze_mode e < 4096.

Lemma collect_one_listing inner parts c es :
  (∀ parts l es, inner parts l = Ok es → es ≡ₚ listing parts (HostDirectory (Some l)) ∧ Forall ok_mode es) →
  collect_one inner parts c = Ok es → es ≡ₚ listing_one parts c ∧ Forall ok_mode es.
Proof.
  intros Hin. destruct c as [name [[metadata|] file]]; [|done]. pose proof (mode_range (md_mode metadata)) as Hm.
  cbn [collect_one listing_one ok_or mbind result_bind fmap option_fmap option_map default option_bind].
  destruct file as [[content|]|[l|]|[target|]|]; cbn [ok_or mbind result_bind]; try done.
  - intros [= <-]. split; [done|by apply Forall_singleton].
  - destruct (inner _ l) as [below|] eqn:Hb; [|done]. intros [= <-]. apply Hin in Hb as [Hp Hf].
    split; [by rewrite Hp|by apply Forall_cons].
  - intros [= <-]. split; [done|by apply Forall_singleton].
  - intros [= <-]. split; [done|constructor].
Qed.

Lemma collect_listing fuel parts l es :
  collect fuel parts l = Ok es → es ≡ₚ listing parts (HostDirectory (Some l)) ∧ Forall ok_mode es.
Proof.
  revert parts l es; induction fuel as [|fuel IH]; intros parts l es; [done|]. cbn [collect].
  destruct (collect_results _ _) as [ess|] eqn:Hc; [|done]. intros [= <-].
  apply collect_results_Forall2 in Hc. rewrite listing_directory.
  rewrite <-(mjoin_perm _ _ (fmap_Permutation (listing_one parts) _ _ (merge_sort_Permutation child_le l))).
  induction Hc as [|c es cs ess Hone _ IHc]; [done|]. rewrite fmap_cons, !mjoin_cons.
  apply collect_one_listing in Hone as [Hp Hf]; [|apply IH]. destruct IHc as [Hps Hfs].
  split; [by rewrite Hp, Hps|by apply Forall_app].
Qed.

Lemma folder_depth_child l c : c ∈ l → (S (depth c.2.2) ≤ folder_depth l)%nat.
Proof.
  unfold folder_depth. cbn [depth]. induction 1 as [c l|c c' l _ IH]; cbn [foldr]; lia.
Qed.

(** A readable folder is collected whole, however deep it is. *)
Lemma collect_deep_enough fuel parts l :
  (folder_depth l ≤ fuel)%nat → readable (HostDirectory (Some l)) = true → ∃ es, collect fuel parts l = Ok es.
Proof.
  revert parts l; induction fuel as [|fuel IH]; intros parts l Hd Hr; [unfold folder_depth in Hd; cbn in Hd; lia|].
  cbn [collect]. destruct (collect_results _ _) as [ess|e] eqn:Hc; [by eexists|]. exfalso.
  apply collect_results_Err in Hc as (c & Hc & Herr). rewrite merge_sort_Permutation in Hc.
  cbn [readable] in Hr. rewrite forallb_forall in Hr. specialize (Hr c (proj1 (list_elem_of_In _ _) Hc)).
  apply andb_prop in Hr as [Hmd Hr]. apply bool_decide_eq_true in Hmd as [md Hmd].
  pose proof (folder_depth_child l c Hc) as Hdc.
  destruct c as [name [metadata file]]. cbn [fst snd] in *. subst metadata.
  cbn [collect_one ok_or mbind result_bind] in Herr.
  destruct file as [content|children|target|]; cbn [readable] in Hr; try done.
  - by apply bool_decide_eq_true in Hr as [b ->].
  - destruct children as [l'|]; [|done]. cbn [ok_or mbind result_bind] in Herr.
    destruct (IH (parts ++ [name]) l') as [es Hes]; [unfold folder_depth; lia|done|]. by rewrite Hes in Herr.
  - by apply bool_decide_eq_true in Hr as [b ->].
Qed.

(** More entries than an archive can count are refused, and nothing is written. *)
Lemma write_folder_refuses directory :
  readable (HostDirectory (Some directory)) = true →
  65535 < Z.of_nat (length (listing [] (HostDirectory (Some directory)))) →
  write_folder directory = Err (TooManyEntries (length (listing [] (HostDirectory (Some directory))))).
Proof.
  intros Hr Hn. unfold write_folder.
  destruct (collect_deep_enough (S (folder_depth directory)) [] directory ltac:(lia) Hr) as [es Hes].
  rewrite Hes. cbn [mbind result_bind]. apply collect_listing in Hes as [Hp _].
  apply Permutation_length in Hp. rewrite Hp, bool_decide_true by lia. done.
Qed.

(** ** The calendar *)

Definition leap_year (y : Z) : bool :=
  (y mod 4 =? 0) && (negb (y mod 100 =? 0) || (y mod 400 =? 0)).
Definition month_length (y m : Z) : Z :=
  if m =? 2 then if leap_year y then 29 else 28
  else if (m =? 4) || (m =? 6) || (m =? 9) || (m =? 11) then 30 else 31.
Definition next_day (date : Z * Z * Z) : Z * Z * Z :=
  let '(y, m, d) := date in
  if d <? month_length y m then (y, m, d + 1)
  else if m <? 12 then (y, m + 1, 1)
  else (y + 1, 1, 1).

(** Years from March on: when year [y] of an era starts, how long it is, and the year of a day. *)
Definition year_start (y : Z) : Z := 365 * y + y / 4 - y / 100.
Definition year_length (y : Z) : Z := if leap_year (y + 1) then 366 else 365.
Definition year_of (doe : Z) : Z := (doe - doe / 1460 + doe / 36524 - doe / 146096) / 365.
(** The month and day of a day of such a year. *)
Definition month_day (doy : Z) : Z * Z :=
  let mp := (5 * doy + 2) / 153 in
  (if mp <? 10 then mp + 3 else mp - 9, doy - (153 * mp + 2) / 5 + 1).

Lemma year_of_mono a b : 0 <= a <= b → year_of a <= year_of b.
Proof.
  intros [Ha Hab]. unfold year_of. apply Z.div_le_mono; [lia|].
  replace b with (a + Z.of_nat (Z.to_nat (b - a))) by lia. generalize (Z.to_nat (b - a)). intros n.
  induction n as [|n IH]; [rewrite Z.add_0_r; lia|]. etransitivity; [exact IH|].
  rewrite Nat2Z.inj_succ. replace (a + Z.succ (Z.of_nat n)) with (a + Z.of_nat n + 1) by lia.
  assert (0 <= a + Z.of_nat n) as Hx by lia. revert Hx. generalize (a + Z.of_nat n). clear. intros x Hx.
  Z.div_mod_to_equations. lia.
Qed.

(** The years of an era, by computation. *)
Definition years : list Z := seqZ 0 400.
Lemma year_of_ends :
  forallb (λ y, (year_of (year_start y) =? y) && (year_of (year_start y + year_length y - 1) =? y) &&
                (year_start y + year_length y =? (if y =? 399 then 146097 else year_start (y + 1)))) years = true.
Proof. vm_compute. reflexivity. Qed.

Lemma year_ends y : 0 <= y < 400 →
  year_of (year_start y) = y ∧ year_of (year_start y + year_length y - 1) = y ∧
  year_start y + year_length y = if y =? 399 then 146097 else year_start (y + 1).
Proof.
  intros Hy. pose proof year_of_ends as H. rewrite forallb_forall in H.
  specialize (H y). unfold years in H. rewrite <-list_elem_of_In, elem_of_seqZ in H. specialize (H ltac:(lia)).
  apply andb_prop in H as [[H1 H2]%andb_prop H3]. split_and!; by apply Z.eqb_eq.
Qed.

Lemma year_of_day y k : 0 <= y < 400 → 0 <= k < year_length y → year_of (year_start y + k) = y.
Proof.
  intros Hy Hk. destruct (year_ends y Hy) as (H1 & H2 & _).
  assert (0 <= year_start y) by (unfold year_start; Z.div_mod_to_equations; lia).
  pose proof (year_of_mono (year_start y) (year_start y + k) ltac:(lia)).
  pose proof (year_of_mono (year_start y + k) (year_start y + year_length y - 1) ltac:(lia)). lia.
Qed.

(** Every day of an era is a day of one of its years. *)
Lemma day_of_year doe : 0 <= doe < 146097 →
  ∃ y k, 0 <= y < 400 ∧ 0 <= k < year_length y ∧ doe = year_start y + k.
Proof.
  intros Hd. assert (∀ n : nat, (n <= 400)%nat → doe < (if Z.of_nat n =? 400 then 146097 else year_start (Z.of_nat n)) →
    ∃ y k, 0 <= y < 400 ∧ 0 <= k < year_length y ∧ doe = year_start y + k) as Hn.
  { induction n as [|n IH]; intros Hle Hlt; [change (doe < 0) in Hlt; lia|].
    destruct (year_ends (Z.of_nat n) ltac:(lia)) as (_ & _ & Hend).
    destruct (decide (doe < year_start (Z.of_nat n))) as [Hl|Hl].
    - apply IH; [lia|]. destruct (Z.eqb_spec (Z.of_nat n) 400); lia.
    - exists (Z.of_nat n), (doe - year_start (Z.of_nat n)). split; [lia|]. split; [|lia].
      rewrite Nat2Z.inj_succ in Hlt. unfold Z.succ in Hlt.
      destruct (Z.eqb_spec (Z.of_nat n) 399); destruct (Z.eqb_spec (Z.of_nat n + 1) 400); lia. }
  apply (Hn 400%nat); [lia|]. change (Z.of_nat 400 =? 400) with true. cbv iota. lia.
Qed.

(** What a date is in a year from March on that starts in the year [y]. *)
Definition date_in (y doy : Z) : Z * Z * Z :=
  let '(m, d) := month_day doy in (if m <=? 2 then y + 1 else y, m, d).

Lemma civil_date days :
  let doe := (days + 719468) mod 146097 in
  civil_from_days days = date_in (year_of doe + (days + 719468) / 146097 * 400) (doe - year_start (year_of doe)).
Proof. reflexivity. Qed.

Lemma next_day_shift y a m d :
  (m = 2 → d < 28) →
  next_day (y + a, m, d) = let '(a', m', d') := next_day (a, m, d) in (y + a', m', d').
Proof.
  intros Hd. unfold next_day.
  assert ((d <? month_length (y + a) m) = (d <? month_length a m)) as ->.
  { unfold month_length. destruct (Z.eqb_spec m 2); [|done]. destruct (leap_year _), (leap_year _); lia. }
  destruct (d <? _); [done|]. destruct (m <? 12); [done|]. f_equal. f_equal. lia.
Qed.

(** One day after another within a year. *)
Lemma month_day_table :
  forallb (λ k, let '(y, m, d) := date_in 0 k in
    (negb (m =? 2) || (d <? 28)) && bool_decide (next_day (y, m, d) = date_in 0 (k + 1))) (seqZ 0 364) = true.
Proof. vm_compute. reflexivity. Qed.

Lemma date_in_shift y k : date_in y k = let '(a, m, d) := date_in 0 k in (y + a, m, d).
Proof. unfold date_in. destruct (month_day k) as [m d]. destruct (m <=? 2); do 2 f_equal; lia. Qed.

Lemma leap_year_era y e : leap_year (y + e * 400) = leap_year y.
Proof.
  unfold leap_year. replace ((y + e * 400) mod 4) with (y mod 4) by (Z.div_mod_to_equations; lia).
  replace ((y + e * 400) mod 100) with (y mod 100) by (Z.div_mod_to_equations; lia).
  by replace ((y + e * 400) mod 400) with (y mod 400) by (Z.div_mod_to_equations; lia).
Qed.

Lemma date_in_next y e k :
  0 <= k < year_length y →
  next_day (date_in (y + e * 400) k) =
    if k + 1 =? year_length y then date_in (y + 1 + e * 400) 0 else date_in (y + e * 400) (k + 1).
Proof.
  intros Hk. unfold year_length in *. rewrite <-(leap_year_era (y + 1) e) in *.
  destruct (decide (k < 364)) as [Hs|Hs].
  - pose proof month_day_table as H. rewrite forallb_forall in H. specialize (H k).
    rewrite <-list_elem_of_In, elem_of_seqZ in H. specialize (H ltac:(lia)).
    rewrite !(date_in_shift (y + e * 400)). destruct (date_in 0 k) as [[a m] d].
    apply andb_prop in H as [Hf H]. apply bool_decide_eq_true in H. rewrite next_day_shift by lia. rewrite H.
    destruct (leap_year (y + 1 + e * 400)); destruct (Z.eqb_spec (k + 1) 366); destruct (Z.eqb_spec (k + 1) 365); try lia; done.
  - assert (k = 364 ∨ k = 365) as [-> | ->] by (destruct (leap_year (y + 1 + e * 400)); lia).
    + change (date_in (y + e * 400) 364) with (y + e * 400 + 1, 2, 28). unfold next_day, month_length. cbn [Z.eqb Pos.eqb].
      replace (y + e * 400 + 1) with (y + 1 + e * 400) by lia.
      destruct (leap_year (y + 1 + e * 400)); [|reflexivity].
      change ((y + 1 + e * 400, 2, 29) = (y + e * 400 + 1, 2, 29)). do 2 f_equal. lia.
    + change (date_in (y + e * 400) 365) with (y + e * 400 + 1, 2, 29). unfold next_day, month_length. cbn [Z.eqb Pos.eqb].
      replace (y + e * 400 + 1) with (y + 1 + e * 400) by lia.
      destruct (leap_year (y + 1 + e * 400)); [reflexivity|lia].
Qed.

(** The days of the algorithm are those of the calendar, leap years included. *)
Lemma civil_next days : civil_from_days (days + 1) = next_day (civil_from_days days).
Proof.
  rewrite !civil_date. replace (days + 1 + 719468) with (days + 719468 + 1) by lia. generalize (days + 719468). clear days.
  intros z. pose proof (Z.mod_pos_bound z 146097 ltac:(lia)) as Hr.
  destruct (day_of_year _ Hr) as (y & k & Hy & Hk & Hd). rewrite Hd, year_of_day by done.
  replace (year_start y + k - year_start y) with k by lia. rewrite date_in_next by done.
  destruct (year_ends y Hy) as (_ & _ & Hend).
  destruct (Z.eqb_spec (k + 1) (year_length y)) as [Hl|Hl].
  - destruct (Z.eqb_spec y 399) as [->|Hn].
    + replace ((z + 1) mod 146097) with 0 by (Z.div_mod_to_equations; lia).
      replace ((z + 1) / 146097) with (z / 146097 + 1) by (Z.div_mod_to_equations; lia).
      change (year_of 0) with 0. change (0 - year_start 0) with 0. f_equal. lia.
    + assert (year_start (y + 1) < 146097).
      { unfold year_start. Z.div_mod_to_equations. lia. }
      replace ((z + 1) mod 146097) with (year_start (y + 1) + 0) by (Z.div_mod_to_equations; lia).
      replace ((z + 1) / 146097) with (z / 146097) by (Z.div_mod_to_equations; lia).
      rewrite (year_of_day (y + 1) 0) by (unfold year_length; try case_match; lia). f_equal; lia.
  - assert (year_start y + k + 1 < 146097).
    { destruct (Z.eqb_spec y 399); [lia|]. assert (year_start (y + 1) < 146097) by (unfold year_start; Z.div_mod_to_equations; lia). lia. }
    replace ((z + 1) mod 146097) with (year_start y + (k + 1)) by (Z.div_mod_to_equations; lia).
    replace ((z + 1) / 146097) with (z / 146097) by (Z.div_mod_to_equations; lia).
    rewrite year_of_day by lia. f_equal; lia.
Qed.

Lemma civil_from_days_calendar (n : nat) : civil_from_days (Z.of_nat n) = Nat.iter n next_day (1970, 1, 1).
Proof.
  induction n as [|n IH]; [reflexivity|]. rewrite Nat.iter_succ, <-IH, <-civil_next. f_equal. lia.
Qed.

(** ** Export and reading agree *)

(** C7: A folder that can be read, whose names and contents fit a zip archive, is exported whole: the
    archive's reader finds every file, directory and link below the folder exactly once, with its
    name, type, permissions, time and bytes, and the code reports the archive's true size. *)
Theorem zip_roundtrip (directory : list (str * (option Metadata * HostFile))) :
  let expected := listing [] (HostDirectory (Some directory)) in
  readable (HostDirectory (Some directory)) = true →
  Forall entry_fits expected →
  Z.of_nat (length expected) <= 65535 →
  archive_size expected < 4294967296 →
  ∃ file es,
    write_folder directory = Ok (file, (length es, Z.of_nat (length file))) ∧
    es ≡ₚ expected ∧
    read_zip file = Some (item_of <$> es).
Proof.
  intros expected Hr Hfit Hn Hsize.
  destruct (collect_deep_enough (S (folder_depth directory)) [] directory ltac:(lia) Hr) as [es Hes].
  pose proof (collect_listing _ _ _ _ Hes) as [Hp Hm]. fold expected in Hp. pose proof (Permutation_length Hp) as Hl.
  pose proof (read_zip_written es) as Hw. pose proof (write_entries_size es) as Hws.
  destruct (write_entries es) as [file bytes] eqn:E. destruct Hw as [-> Hread]. cbn [snd] in Hws.
  exists file, es. split_and!; [|done|].
  - unfold write_folder. rewrite Hes. cbn [mbind result_bind]. rewrite bool_decide_false by lia. by rewrite E.
  - rewrite <-(archive_size_perm _ _ Hp), <-Hws in Hsize. apply Hread; [lia|done|].
    rewrite <-Hp in Hfit. apply Forall_forall. intros e He. rewrite Forall_forall in Hfit, Hm. split; [by apply Hfit|by apply Hm].
Qed.

Definition example_folder : list (str * (option Metadata * HostFile)) :=
  [(lit "notes.txt", (Some (mk_metadata 0x81a4 (Some 1700000000)), HostRegular (Some (lit "hello"))));
   (lit "bin", (Some (mk_metadata 0x41ed (Some 1600000000)),
      HostDirectory (Some [(lit "run", (Some (mk_metadata 0x81ed None), HostRegular (Some [])))])));
   (lit "link", (Some (mk_metadata 0xa1ff None), HostSymlink (Some (lit "bin/run"))))].

Lemma zip_roundtrip_witness :
  ∃ file es, write_folder example_folder = Ok (file, (length es, Z.of_nat (length file))) ∧
    es ≡ₚ listing [] (HostDirectory (Some example_folder)) ∧ read_zip file = Some (item_of <$> es).
Proof.
  apply (zip_roundtrip example_folder); [done| |vm_compute; discriminate|by vm_compute].
  unfold entry_fits. repeat (apply Forall_cons; split; [split; [apply wf_bytes_check; reflexivity|by vm_compute]|]). constructor.
Defined.
