(* ===== verification/Agent.v ===== *)
(** * Commands in the guest (engine/src/agent.rs)

    [run] runs one command through the guest's agent: it writes the command as frames and reads
    frames until the command has ended.  The connection is what its calls see of it ([Vsock] models
    the connection itself): what happens on it while they wait, in order ([Event]), and which write
    fails.  [read_command] is the agent's side of the frames, as userspace/rootfs/collabo-agentd.c reads
    them. *)
From stdpp Require Import strings.
From S2P Require Import Prelude Str.

Local Open Scope Z_scope.

Definition AGENT_PORT : Z := 1024.

Record Command := mk_command {
  argv : list str;
  env : list (str * str);
  cwd : option str;
  stdin : list Z;
}.

Inductive Exit : Type :=
  | Code (code : Z)
  | Signal (signal : Z).

(** [i32] arithmetic of the release profile. *)
Definition i32 (x : Z) : Z := (x + 2147483648) mod 4294967296 - 2147483648.

Definition status (e : Exit) : Z :=
  match e with Code code => code | Signal signal => i32 (128 + signal) end.

Definition frame (kind : Z) (payload : list Z) : list Z :=
  [kind] ++ le_bytes 4 (u32 (Z.of_nat (length payload))) ++ payload.

(** ** The connection *)

(** What happens on the connection while a call waits: bytes come, the deadline of the reads
    passes, the connection closes (with an error when it broke). *)
Inductive Event : Type :=
  | Arrives (bytes : list Z)
  | DeadlinePasses
  | Closes (error : option str).

Inductive AgentError : Type :=
  | Message (text : str)
  | ReadTimeout.

(** What a call of the connection gives: a result, or it still waits when nothing more happens. *)
Inductive waited (A : Type) : Type :=
  | Done (r : result AgentError A)
  | Waits.
Arguments Done {A} r.
Arguments Waits {A}.

(** The caller's side of a connection: what happens next, whether the reads have a deadline, what
    was written so far, and the error of the n-th write, if it fails. *)
Record Stream := mk_stream {
  events : list Event;
  deadline : bool;
  sent : list (list Z);
  write_error : nat → option str;
}.

Definition with_events (evs : list Event) (s : Stream) : Stream := mk_stream evs (deadline s) (sent s) (write_error s).
Definition set_deadline (d : bool) (s : Stream) : Stream := mk_stream (events s) d (sent s) (write_error s).

Definition write_all (bytes : list Z) (s : Stream) : result AgentError unit * Stream :=
  match write_error s (length (sent s)) with
  | Some e => (Err (Message e), s)
  | None => (Ok tt, mk_stream (events s) (deadline s) (sent s ++ [bytes]) (write_error s))
  end.

(** [VsockStream::read] of at most [want] bytes: what it gives, and what is left to happen. *)
Fixpoint read_events (deadline : bool) (want : nat) (evs : list Event) : waited (list Z) * list Event :=
  match evs with
  | [] => (Waits, [])
  | Arrives [] :: evs => read_events deadline want evs
  | Arrives bytes :: evs =>
      (Done (Ok (take want bytes)), match drop want bytes with [] => evs | rest => Arrives rest :: evs end)
  | DeadlinePasses :: evs => if deadline then (Done (Err ReadTimeout), evs) else read_events deadline want evs
  | Closes error :: evs' =>
      (Done (match error with None => Ok [] | Some e => Err (Message e) end), evs)
  end.

(** The loop of [VsockStream::read_exact]; a read of [n > 0] bytes gives at least one unless the
    peer closed, so [n] turns are enough. *)
Fixpoint read_loop (fuel : nat) (chunk : nat) (n : nat) (out : list Z) (s : Stream) : waited (list Z) * Stream :=
  if bool_decide (length out < n)%nat then
    match fuel with
    | O => (Waits, s)
    | S fuel =>
        let want := ((n - length out) `min` chunk)%nat in
        let '(r, evs) := read_events (deadline s) want (events s) in
        let s := with_events evs s in
        match r with
        | Done (Ok []) => (Done (Ok out), s)
        | Done (Ok bytes) => read_loop fuel chunk n (out ++ bytes) s
        | Done (Err e) => (Done (Err e), s)
        | Waits => (Waits, s)
        end
    end
  else (Done (Ok out), s).
Definition read_exact (n : nat) (s : Stream) : waited (list Z) * Stream :=
  read_loop n (n `min` Z.to_nat 65536) n [] s.

(** [connect]: the attempts made before the deadline, each as it ended. *)
Fixpoint connect {A} (last_error : option str) (attempts : list (result str A)) : result str A :=
  match attempts with
  | [] =>
      Err (lit "the guest agent did not answer on vsock port " ++ decimal AGENT_PORT ++
           match last_error with Some e => lit ": " ++ e | None => [] end)
  | Ok stream :: _ => Ok stream
  | Err e :: attempts => connect (Some e) attempts
  end.

(** ** Running a command *)

(** [chunks(32 * 1024)]. *)
Fixpoint chunks (fuel : nat) (n : nat) (l : list Z) : list (list Z) :=
  match fuel, l with
  | S fuel, _ :: _ => take n l :: chunks fuel n (drop n l)
  | _, _ => []
  end.
Definition STDIN_CHUNK : nat := Z.to_nat 32768.

(** The frames of a command, in the order they are written. *)
Definition command_frames (c : Command) : list (list Z) :=
  (frame (chr "A") <$> argv c) ++
  ((λ nv, frame (chr "E") (nv.1 ++ lit "=" ++ nv.2)) <$> env c) ++
  match cwd c with Some cwd => [frame (chr "C") cwd] | None => [] end ++
  [frame (chr "S") []] ++
  (frame (chr "I") <$> chunks (length (stdin c)) STDIN_CHUNK (stdin c)) ++
  [frame (chr "I") []].

Fixpoint write_frames (frames : list (list Z)) (s : Stream) : result AgentError unit * Stream :=
  match frames with
  | [] => (Ok tt, s)
  | f :: frames =>
      let '(r, s) := write_all f s in
      match r with Ok _ => write_frames frames s | Err e => (Err e, s) end
  end.

(** What the callbacks were handed. *)
Inductive Output : Type :=
  | Stdout (bytes : list Z)
  | Stderr (bytes : list Z).

(** [kind as char]. *)
Definition latin1 (b : Z) : str := if b <? 128 then [b] else [192 + b / 64; 128 + b mod 64].

Definition exit_of (payload : list Z) : Exit :=
  let status := i32 (le_val (if bool_decide (4 ≤ length payload)%nat then take 4 payload else [0; 0; 0; 0])) in
  if status <? 0 then Signal (i32 (- status)) else Code status.

(** How [run] ends: with its result, still waiting, or ([CutShort]) out of fuel. *)
Inductive run_outcome : Type :=
  | Finished (r : result AgentError (Exit * bool))
  | StillWaiting
  | CutShort.

Definition KILL : list Z := frame (chr "K") (le_bytes 4 9).

Fixpoint run_loop (fuel : nat) (killed : bool) (outs : list Output) (s : Stream) : run_outcome * list Output * Stream :=
  match fuel with
  | O => (CutShort, outs, s)
  | S fuel =>
      match read_exact 5 s with
      | (Waits, s) => (StillWaiting, outs, s)
      | (Done (Err ReadTimeout), s) =>
          if killed then (Finished (Err ReadTimeout), outs, s)
          else
            let '(r, s) := write_all KILL (set_deadline true s) in
            match r with
            | Ok _ => run_loop fuel true outs s
            | Err e => (Finished (Err e), outs, s)
            end
      | (Done (Err e), s) => (Finished (Err e), outs, s)
      | (Done (Ok header), s) =>
          if bool_decide (length header < 5)%nat then
            (Finished (Err (Message (lit "the guest agent closed the connection before the command ended"))), outs, s)
          else
            let length_ := Z.to_nat (le_val (slice 1 5 header)) in
            match read_exact length_ s with
            | (Waits, s) => (StillWaiting, outs, s)
            | (Done (Err e), s) => (Finished (Err e), outs, s)
            | (Done (Ok payload), s) =>
                if bool_decide (length payload < length_)%nat then
                  (Finished (Err (Message (lit "the guest agent closed the connection mid-frame"))), outs, s)
                else
                  let kind := byte_at header 0 in
                  if kind =? chr "1" then run_loop fuel killed (outs ++ [Stdout payload]) s
                  else if kind =? chr "2" then run_loop fuel killed (outs ++ [Stderr payload]) s
                  else if kind =? chr "X" then (Finished (Ok (exit_of payload, killed)), outs, s)
                  else if kind =? chr "F" then (Finished (Err (Message (from_utf8_lossy payload))), outs, s)
                  else
                    (Finished (Err (Message (lit "unknown frame '" ++ latin1 kind ++ lit "' from the guest agent"))), outs, s)
            end
      end
  end.

(** Turns a connection can give at most: every turn takes an event or a header. *)
Definition weight (e : Event) : nat := match e with Arrives b => S (length b) | DeadlinePasses => 1 | Closes _ => 1 end.
Definition turns (s : Stream) : nat := S (sum_list (weight <$> events s)).

(** [run], with [timeout] saying whether the command has one. *)
Definition run (timeout : bool) (command : Command) (s : Stream) : run_outcome * list Output * Stream :=
  if bool_decide (argv command = []) then (Finished (Err (Message (lit "a command needs at least a program name"))), [], s)
  else
    match write_frames (command_frames command) s with
    | (Err e, s) => (Finished (Err e), [], s)
    | (Ok _, s) => let s := set_deadline timeout s in run_loop (turns s) false [] s
    end.

(** [resize_console]'s command. *)
Definition resize_command (columns rows : Z) : Command :=
  mk_command [lit "stty"; lit "-F"; lit "/dev/console"; lit "cols"; decimal columns; lit "rows"; decimal rows] [] None [].

(** ** The guest's side

    What userspace/rootfs/collabo-agentd.c makes of the frames: [recv_frame] and the loops of [serve]. *)

Definition MAX_FRAME : Z := 4 * 2 ^ 20.

(** [recv_frame]: a frame's kind, payload and what comes after; a frame longer than [MAX_FRAME] ends the
    connection, as one that is cut off does. *)
Definition read_frame (l : list Z) : option (Z * list Z * list Z) :=
  match l with
  | kind :: l =>
      if bool_decide (4 ≤ length l)%nat then
        let len := le_val (take 4 l) in
        if MAX_FRAME <? len then None
        else
          let n := Z.to_nat len in
          if bool_decide (n ≤ length (drop 4 l))%nat then Some (kind, take n (drop 4 l), drop n (drop 4 l)) else None
      else None
  | [] => None
  end.

(** A payload used as a C string: up to its first NUL. *)
Fixpoint c_string (payload : list Z) : str :=
  match payload with
  | [] => []
  | b :: payload => if b =? 0 then [] else b :: c_string payload
  end.

(** What the agent has been asked: the command's arguments, environment entries and folder; whether it is
    started; the bytes for its standard input, and whether that is closed; the signals for it. *)
Record Received := mk_received {
  rc_argv : list str;
  rc_env : list str;
  rc_cwd : option str;
  rc_started : bool;
  rc_stdin : list Z;
  rc_eof : bool;
  rc_signals : list Z;
}.
Definition nothing_received : Received := mk_received [] [] None false [] false [].

(** The size of [pending_buf]. *)
Definition PENDING : nat := Z.to_nat 65536.

Definition receive (kind : Z) (payload : list Z) (r : Received) : Received :=
  let '(mk_received argv env cwd started stdin eof signals) := r in
  if started then
    if kind =? chr "I" then
      if bool_decide (payload = []) then mk_received argv env cwd true stdin true signals
      else if eof then r
      else mk_received argv env cwd true (stdin ++ take PENDING payload) false signals
    else if (kind =? chr "K") && bool_decide (4 ≤ length payload)%nat then
      mk_received argv env cwd true stdin eof (signals ++ [le_val (take 4 payload)])
    else r
  else if kind =? chr "A" then mk_received (argv ++ [c_string payload]) env cwd false stdin eof signals
  else if kind =? chr "E" then mk_received argv (env ++ [c_string payload]) cwd false stdin eof signals
  else if kind =? chr "C" then mk_received argv env (Some (c_string payload)) false stdin eof signals
  else if kind =? chr "S" then mk_received argv env cwd true stdin eof signals
  else r.

Fixpoint read_command (fuel : nat) (l : list Z) (r : Received) : option Received :=
  match fuel, l with
  | _, [] => Some r
  | O, _ => None
  | S fuel, l => '(kind, payload, l) ← read_frame l; read_command fuel l (receive kind payload r)
  end.

(** ** Proofs: the command *)

Lemma read_frame_frame kind payload rest :
  Z.of_nat (length payload) <= MAX_FRAME → read_frame (frame kind payload ++ rest) = Some (kind, payload, rest).
Proof.
  unfold MAX_FRAME. intros Hn. unfold frame. cbn [app read_frame]. rewrite <-app_assoc.
  rewrite bool_decide_true by (rewrite length_app, length_le_bytes; lia).
  rewrite take_app_length', drop_app_length' by (by rewrite length_le_bytes).
  rewrite le_val_small, u32_small by (rewrite ?u32_small; lia). cbv zeta. unfold MAX_FRAME.
  rewrite (proj2 (Z.ltb_ge _ _)), Nat2Z.id by lia.
  rewrite bool_decide_true by (rewrite length_app; lia).
  by rewrite take_app_length, drop_app_length.
Qed.

Lemma frame_not_nil kind payload rest : frame kind payload ++ rest ≠ [].
Proof. by unfold frame. Qed.

Lemma read_command_frame fuel kind payload rest r :
  Z.of_nat (length payload) <= MAX_FRAME →
  read_command (S fuel) (frame kind payload ++ rest) r = read_command fuel rest (receive kind payload r).
Proof.
  intros Hn. pose proof (read_frame_frame kind payload rest Hn) as Hf. pose proof (frame_not_nil kind payload rest) as Hne.
  destruct (frame kind payload ++ rest) as [|b l]; [done|]. cbn [read_command]. by rewrite Hf.
Qed.

Lemma chunks_join fuel n l : (0 < n)%nat → (length l ≤ fuel)%nat → mjoin (chunks fuel n l) = l.
Proof.
  intros Hn. revert l; induction fuel as [|fuel IH]; intros l Hl; (destruct l as [|b l]; [done|]); [simpl in Hl; lia|].
  cbn [chunks]. rewrite mjoin_cons, IH; [apply take_drop|].
  rewrite length_drop. simpl in *. lia.
Qed.

Lemma chunks_small fuel n l c : c ∈ chunks fuel n l → (length c ≤ n)%nat ∧ (0 < n → c ≠ [])%nat.
Proof.
  revert l; induction fuel as [|fuel IH]; intros l; [by intros ?%elem_of_nil|].
  destruct l as [|b l]; [by intros ?%elem_of_nil|]. cbn [chunks]. intros [-> |Hc]%elem_of_cons; [|by eapply IH].
  split; [rewrite length_take; lia|]. intros Hn. by destruct n; [lia|].
Qed.

(** What the agent takes whole: no frame over its limit, and no NUL where it reads C strings. *)
Definition c_text (a : str) : Prop := Forall (λ b, b ≠ 0) a ∧ Z.of_nat (length a) <= MAX_FRAME.
Definition entry (nv : str * str) : str := nv.1 ++ lit "=" ++ nv.2.
Definition command_fits (c : Command) : Prop :=
  Forall c_text (argv c) ∧ Forall (λ nv, c_text (entry nv)) (env c) ∧ from_option c_text True (cwd c).

Definition received (c : Command) (signals : list Z) : Received :=
  mk_received (argv c) (entry <$> env c) (cwd c) true (stdin c) true signals.

Lemma c_text_ok a : forallb (λ b, negb (b =? 0)) a && (Z.of_nat (length a) <=? MAX_FRAME) = true → c_text a.
Proof.
  intros [H1 H2%Z.leb_le]%andb_true_iff. split; [|done]. apply Forall_forall. intros b Hb%list_elem_of_In.
  rewrite forallb_forall in H1. by apply H1, negb_true_iff, Z.eqb_neq in Hb.
Qed.

Lemma c_string_text a : Forall (λ b, b ≠ 0) a → c_string a = a.
Proof. induction 1 as [|b a Hb _ IH]; [done|]. cbn [c_string]. by rewrite (proj2 (Z.eqb_neq _ _) Hb), IH. Qed.

(** A run of frames of one kind. *)
Lemma read_command_run {A} (P : Received → Prop) (kind : Z) (payload : A → list Z) (step : Received → A → Received)
    (l : list A) fuel rest r :
  (∀ x r, x ∈ l → P r → receive kind (payload x) r = step r x ∧ P (step r x)) →
  Forall (λ x, Z.of_nat (length (payload x)) <= MAX_FRAME) l →
  P r → (length l ≤ fuel)%nat →
  read_command fuel (mjoin ((λ x, frame kind (payload x)) <$> l) ++ rest) r =
    read_command (fuel - length l) rest (foldl step r l).
Proof.
  intros Hstep Hl. revert fuel r; induction Hl as [|x l Hx _ IH]; intros fuel r Hr Hf; [by rewrite Nat.sub_0_r|].
  destruct fuel as [|fuel]; [simpl in Hf; lia|]. rewrite fmap_cons, mjoin_cons, <-app_assoc, read_command_frame by done.
  destruct (Hstep x r ltac:(left) Hr) as [-> Hp]. cbn [foldl]. apply IH; [|done|simpl in Hf; lia].
  intros y r' Hy. apply Hstep. by right.
Qed.

(** What a frame adds. *)
Definition add_argument (r : Received) (a : str) : Received :=
  mk_received (rc_argv r ++ [a]) (rc_env r) (rc_cwd r) (rc_started r) (rc_stdin r) (rc_eof r) (rc_signals r).
Definition add_entry (r : Received) (nv : str * str) : Received :=
  mk_received (rc_argv r) (rc_env r ++ [entry nv]) (rc_cwd r) (rc_started r) (rc_stdin r) (rc_eof r) (rc_signals r).
Definition add_input (r : Received) (bytes : list Z) : Received :=
  mk_received (rc_argv r) (rc_env r) (rc_cwd r) (rc_started r) (rc_stdin r ++ bytes) (rc_eof r) (rc_signals r).
Definition add_kill (r : Received) (_ : nat) : Received :=
  mk_received (rc_argv r) (rc_env r) (rc_cwd r) (rc_started r) (rc_stdin r) (rc_eof r) (rc_signals r ++ [9]).

Lemma foldl_argv l r :
  foldl add_argument r l =
    mk_received (rc_argv r ++ l) (rc_env r) (rc_cwd r) (rc_started r) (rc_stdin r) (rc_eof r) (rc_signals r).
Proof. revert r; induction l as [|a l IH]; intros r; cbn [foldl]; [rewrite app_nil_r; by destruct r|]. rewrite IH. cbn. by rewrite <-app_assoc. Qed.

Lemma foldl_env l r :
  foldl add_entry r l =
    mk_received (rc_argv r) (rc_env r ++ (entry <$> l)) (rc_cwd r) (rc_started r) (rc_stdin r) (rc_eof r) (rc_signals r).
Proof.
  revert r; induction l as [|a l IH]; intros r; cbn [foldl]; [rewrite app_nil_r; by destruct r|].
  rewrite IH, fmap_cons. cbn. by rewrite <-app_assoc.
Qed.

Lemma foldl_stdin l r :
  foldl add_input r l =
    mk_received (rc_argv r) (rc_env r) (rc_cwd r) (rc_started r) (rc_stdin r ++ mjoin l) (rc_eof r) (rc_signals r).
Proof. revert r; induction l as [|a l IH]; intros r; cbn [foldl]; [rewrite app_nil_r; by destruct r|]. rewrite IH, mjoin_cons. cbn. by rewrite <-app_assoc. Qed.

Lemma foldl_kills n l r :
  length l = n →
  foldl add_kill r l = mk_received (rc_argv r) (rc_env r) (rc_cwd r) (rc_started r) (rc_stdin r) (rc_eof r) (rc_signals r ++ replicate n 9).
Proof.
  revert l r; induction n as [|n IH]; intros [|a l] r Hl; try done; cbn [foldl]; [rewrite app_nil_r; by destruct r|].
  rewrite IH by (by injection Hl). cbn. by rewrite <-app_assoc.
Qed.

Lemma arguments_received l fuel rest r :
  Forall c_text l → rc_started r = false → (length l ≤ fuel)%nat →
  read_command fuel (mjoin (frame (chr "A") <$> l) ++ rest) r = read_command (fuel - length l) rest (foldl add_argument r l).
Proof.
  intros Hl Hr Hf. rewrite Forall_forall in Hl.
  apply (read_command_run (λ r, rc_started r = false) (chr "A") id add_argument); [|by apply Forall_forall; intros x Hx; apply Hl|done|done].
  intros x [] Hx Hs. cbn in Hs. subst. split; [|done]. unfold add_argument. cbn. by rewrite c_string_text by apply (Hl x Hx).
Qed.

Lemma entries_received l fuel rest r :
  Forall (λ nv, c_text (entry nv)) l → rc_started r = false → (length l ≤ fuel)%nat →
  read_command fuel (mjoin ((λ nv, frame (chr "E") (entry nv)) <$> l) ++ rest) r = read_command (fuel - length l) rest (foldl add_entry r l).
Proof.
  intros Hl Hr Hf. rewrite Forall_forall in Hl.
  apply (read_command_run (λ r, rc_started r = false) (chr "E") entry add_entry); [|by apply Forall_forall; intros x Hx; apply Hl|done|done].
  intros x [] Hx Hs. cbn in Hs. subst. split; [|done]. unfold add_entry. cbn. by rewrite c_string_text by apply (Hl x Hx).
Qed.

Lemma input_received l fuel rest r :
  Forall (λ c, c ≠ [] ∧ (length c ≤ STDIN_CHUNK)%nat) l → rc_started r = true → rc_eof r = false → (length l ≤ fuel)%nat →
  read_command fuel (mjoin (frame (chr "I") <$> l) ++ rest) r = read_command (fuel - length l) rest (foldl add_input r l).
Proof.
  intros Hl Hr He Hf. rewrite Forall_forall in Hl.
  apply (read_command_run (λ r, rc_started r = true ∧ rc_eof r = false) (chr "I") id add_input); [| |done|done].
  - intros x [] Hx [Hs Hn]. cbn in Hs, Hn. subst. destruct (Hl x Hx) as [Hne Hsize].
    split; [|done]. unfold add_input, receive, id. change (chr "I" =? chr "I") with true. cbn [rc_argv rc_env rc_cwd rc_started rc_stdin rc_eof rc_signals].
    rewrite bool_decide_false by done. rewrite take_ge; [done|]. unfold STDIN_CHUNK in Hsize. unfold PENDING. lia.
  - apply Forall_forall. intros x Hx. destruct (Hl x Hx) as [_ Hsize]. unfold STDIN_CHUNK in Hsize. unfold id, MAX_FRAME. lia.
Qed.

Lemma kills_received n fuel r :
  rc_started r = true → (n ≤ fuel)%nat →
  read_command fuel (mjoin (replicate n KILL)) r =
    Some (mk_received (rc_argv r) (rc_env r) (rc_cwd r) (rc_started r) (rc_stdin r) (rc_eof r) (rc_signals r ++ replicate n 9)).
Proof.
  intros Hr Hf. rewrite <-(app_nil_r (mjoin _)).
  assert (replicate n KILL = (λ _ : nat, frame (chr "K") (le_bytes 4 9)) <$> seq 0 n) as ->.
  { apply list_eq. intros i. rewrite list_lookup_fmap. destruct (decide (i < n)%nat).
    - by rewrite lookup_replicate_2, lookup_seq_lt by done.
    - rewrite lookup_seq_ge by lia. by apply lookup_replicate_None; lia. }
  rewrite (read_command_run (λ r, rc_started r = true) (chr "K") (λ _, le_bytes 4 9) add_kill).
  - rewrite (foldl_kills n) by apply length_seq. by destruct (fuel - _)%nat.
  - intros x [] _ Hs. cbn in Hs. by subst.
  - apply Forall_forall. intros x _. by vm_compute.
  - done.
  - by rewrite length_seq.
Qed.

Lemma folder_received cw fuel rest r :
  from_option c_text True cw → rc_started r = false → rc_cwd r = None →
  (length (match cw with Some cwd => [frame (chr "C") cwd] | None => [] end) + 1 ≤ fuel)%nat →
  read_command fuel (mjoin (match cw with Some cwd => [frame (chr "C") cwd] | None => [] end) ++ mjoin [frame (chr "S") []] ++ rest) r =
  read_command (fuel - length (match cw with Some cwd => [frame (chr "C") cwd] | None => [] end) - 1) rest
    (mk_received (rc_argv r) (rc_env r) cw true (rc_stdin r) (rc_eof r) (rc_signals r)).
Proof.
  intros Hcw Hs Hn Hf. destruct r as [av ev c st si eof sg]. cbn in Hs, Hn. subst. destruct cw as [d|]; cbn [length] in *.
  - destruct fuel as [|[|fuel]]; [lia..|]. destruct Hcw as [Hd Hlen].
    rewrite !mjoin_cons, <-!app_assoc, read_command_frame by done. cbn [mjoin list_join app]. rewrite read_command_frame by done.
    cbn. by rewrite Nat.sub_0_r, c_string_text by done.
  - destruct fuel as [|fuel]; [lia|]. cbn [mjoin list_join app]. rewrite <-app_assoc, read_command_frame by done.
    cbn. by rewrite !Nat.sub_0_r.
Qed.

Lemma command_received c n fuel :
  command_fits c → (length (command_frames c) + n ≤ fuel)%nat →
  read_command fuel (mjoin (command_frames c ++ replicate n KILL)) nothing_received = Some (received c (replicate n 9)).
Proof.
  intros (Hargv & Henv & Hcwd) Hf. unfold command_frames in *. destruct c as [av ev cw si].
  cbn [argv env cwd stdin] in *. rewrite !length_app, !length_fmap in Hf. cbn [length] in Hf.
  assert (∀ {A} (x y : list (list A)), mjoin (x ++ y) = mjoin x ++ mjoin y) as Hjoin.
  { intros A x y. induction x as [|z x IH]; [done|]. cbn [app]. by rewrite !mjoin_cons, IH, app_assoc. }
  rewrite !Hjoin, <-!app_assoc.
  rewrite arguments_received by (done || lia). rewrite foldl_argv. cbn [rc_argv rc_env rc_cwd rc_started rc_stdin rc_eof rc_signals nothing_received app].
  change ((λ nv : str * str, frame (chr "E") (nv.1 ++ lit "=" ++ nv.2)) <$> ev) with ((λ nv, frame (chr "E") (entry nv)) <$> ev).
  rewrite entries_received by (done || lia). rewrite foldl_env. cbn [rc_argv rc_env rc_cwd rc_started rc_stdin rc_eof rc_signals app].
  rewrite folder_received by (done || lia). cbn [rc_argv rc_env rc_cwd rc_started rc_stdin rc_eof rc_signals].
  rewrite input_received; [|apply Forall_forall; intros x Hx; apply chunks_small in Hx as [Hx1 Hx2]; split; [apply Hx2; unfold STDIN_CHUNK; lia|done]|done..|lia].
  rewrite foldl_stdin. cbn [rc_argv rc_env rc_cwd rc_started rc_stdin rc_eof rc_signals app].
  rewrite chunks_join by (unfold STDIN_CHUNK; lia).
  match goal with |- read_command ?k _ _ = _ => destruct k as [|k'] eqn:E; [lia|] end.
  cbn [mjoin list_join]. rewrite <-app_assoc, read_command_frame by done.
  change (receive (chr "I") [] (mk_received av (entry <$> ev) cw true si false [])) with (mk_received av (entry <$> ev) cw true si true []).
  rewrite app_nil_l, kills_received by (done || lia). done.
Qed.

(** ** Proofs: reading *)

(** What happens, without how the bytes were cut into packets. *)
Inductive Token : Type :=
  | Byte (b : Z)
  | Deadline
  | Close (error : option str).

Definition tokens_of (e : Event) : list Token :=
  match e with Arrives b => Byte <$> b | DeadlinePasses => [Deadline] | Closes e => [Close e] end.
Definition tokens (evs : list Event) : list Token := mjoin (tokens_of <$> evs).

Lemma tokens_cons e evs : tokens (e :: evs) = tokens_of e ++ tokens evs.
Proof. done. Qed.

Lemma read_events_bytes d want evs b toks :
  (0 < want)%nat → tokens evs = Byte b :: toks →
  ∃ c cs evs', read_events d want evs = (Done (Ok (c :: cs)), evs') ∧
    (length (c :: cs) ≤ want)%nat ∧ (Byte <$> c :: cs) ++ tokens evs' = tokens evs.
Proof.
  intros Hw. induction evs as [|[bytes| |e] evs IH]; intros Ht; [done| |done|done].
  destruct bytes as [|c bytes]; [by apply IH|]. cbn [read_events].
  destruct want as [|want]; [lia|]. cbn [take drop]. exists c, (take want bytes). eexists. split; [done|].
  split; [cbn [length]; rewrite length_take; lia|].
  assert (tokens (match drop want bytes with [] => evs | rest => Arrives rest :: evs end) = (Byte <$> drop want bytes) ++ tokens evs) as ->
    by (by destruct (drop want bytes)).
  rewrite tokens_cons. cbn [tokens_of]. rewrite app_assoc, <-fmap_app. cbn [app]. by rewrite take_drop.
Qed.

Lemma read_events_deadline want evs toks :
  tokens evs = Deadline :: toks →
  ∃ evs', read_events true want evs = (Done (Err ReadTimeout), evs') ∧ tokens evs' = toks.
Proof.
  induction evs as [|[bytes| |e] evs IH]; intros Ht; [done| | |done].
  - destruct bytes; [by apply IH|done].
  - exists evs. by injection Ht.
Qed.

(** The first of two lists of bytes that come before anything else starts the second. *)
Lemma bytes_prefix xs ys t1 t2 :
  (length xs ≤ length ys)%nat → (Byte <$> xs) ++ t1 = (Byte <$> ys) ++ t2 →
  ∃ rest, ys = xs ++ rest ∧ t1 = (Byte <$> rest) ++ t2.
Proof.
  revert ys; induction xs as [|x xs IH]; intros ys Hl Heq; [by exists ys|].
  destruct ys as [|y ys]; [simpl in Hl; lia|]. injection Heq as -> Heq.
  destruct (IH ys ltac:(simpl in Hl; lia) Heq) as (rest & -> & ->). by exists rest.
Qed.

(** Bytes that are all there before anything else happens are read whole, however they arrive. *)
Lemma read_loop_bytes fuel chunk n out s bs toks :
  (0 < chunk)%nat → length (out ++ bs) = n → (length bs ≤ fuel)%nat → tokens (events s) = (Byte <$> bs) ++ toks →
  ∃ evs, read_loop fuel chunk n out s = (Done (Ok (out ++ bs)), with_events evs s) ∧ tokens evs = toks.
Proof.
  intros Hc. revert out s bs; induction fuel as [|fuel IH]; intros out s bs Hn Hf Ht; rewrite length_app in Hn.
  - destruct bs as [|b bs]; [|simpl in Hf; lia]. cbn [read_loop]. rewrite bool_decide_false by (simpl in Hn; lia).
    exists (events s). rewrite app_nil_r. by destruct s.
  - cbn [read_loop]. destruct bs as [|b bs].
    { rewrite bool_decide_false by (simpl in Hn; lia). exists (events s). rewrite app_nil_r. by destruct s. }
    rewrite bool_decide_true by (simpl in Hn; lia).
    destruct (read_events_bytes (deadline s) ((n - length out) `min` chunk) (events s) b ((Byte <$> bs) ++ toks))
      as (c & cs & evs & -> & Hle & Heq); [simpl in Hn; lia|done|]. rewrite Ht in Heq.
    destruct (bytes_prefix (c :: cs) (b :: bs) (tokens evs) toks) as (rest & Hrest & Htk); [lia|done|].
    rewrite Hrest in *. rewrite !length_app in *.
    destruct (IH (out ++ c :: cs) (with_events evs s) rest) as (evs' & -> & ?);
      [rewrite !length_app; lia|simpl in Hf; lia|done|].
    exists evs'. by rewrite <-app_assoc.
Qed.

Lemma read_exact_bytes n s bs toks :
  length bs = n → tokens (events s) = (Byte <$> bs) ++ toks →
  ∃ evs, read_exact n s = (Done (Ok bs), with_events evs s) ∧ tokens evs = toks.
Proof.
  intros Hn Ht. unfold read_exact. destruct n as [|n].
  - destruct bs; [|done]. exists (events s). by destruct s.
  - apply (read_loop_bytes (S n) _ (S n) [] s bs toks); [|done|lia|done].
    assert (0 < Z.to_nat 65536)%nat by (apply Nat2Z.inj_lt; by vm_compute). lia.
Qed.

(** A deadline that passes before anything arrived ends the read and takes nothing. *)
Lemma read_exact_deadline n s toks :
  (0 < n)%nat → deadline s = true → tokens (events s) = Deadline :: toks →
  ∃ evs, read_exact n s = (Done (Err ReadTimeout), with_events evs s) ∧ tokens evs = toks.
Proof.
  intros Hn Hd Ht. unfold read_exact. destruct n as [|n]; [lia|]. cbn [read_loop length].
  rewrite bool_decide_true by lia. rewrite Hd.
  destruct (read_events_deadline ((S n - 0) `min` (S n `min` Z.to_nat 65536)) (events s) toks Ht) as (evs & -> & ?).
  by exists evs.
Qed.

(** ** Proofs: running a command *)

(** What the guest does while a command runs. *)
Inductive GuestStep : Type :=
  | Sends (o : Output)
  | DeadlineHits.

Definition output_frame (o : Output) : list Z :=
  match o with Stdout b => frame (chr "1") b | Stderr b => frame (chr "2") b end.
Definition output_bytes (o : Output) : list Z := match o with Stdout b => b | Stderr b => b end.
Definition step_tokens (g : GuestStep) : list Token :=
  match g with Sends o => Byte <$> output_frame o | DeadlineHits => [Deadline] end.
Definition hits (steps : list GuestStep) : nat :=
  sum_list ((λ g, match g with DeadlineHits => 1 | Sends _ => 0 end) <$> steps)%nat.
Definition outputs (steps : list GuestStep) : list Output :=
  omap (λ g, match g with Sends o => Some o | DeadlineHits => None end) steps.
Definition step_fits (g : GuestStep) : Prop :=
  match g with Sends o => Z.of_nat (length (output_bytes o)) < 4294967296 | DeadlineHits => True end.

Lemma frame_tokens kind payload :
  Byte <$> frame kind payload =
    (Byte <$> kind :: le_bytes 4 (u32 (Z.of_nat (length payload)))) ++ (Byte <$> payload).
Proof. unfold frame. rewrite <-fmap_app. done. Qed.

Lemma header_fields kind n :
  Z.of_nat n < 4294967296 →
  byte_at (kind :: le_bytes 4 (u32 (Z.of_nat n))) 0 = kind ∧
  Z.to_nat (le_val (slice 1 5 (kind :: le_bytes 4 (u32 (Z.of_nat n))))) = n.
Proof.
  intros Hn. split; [done|]. unfold slice. cbn [drop]. rewrite drop_0.
  change (5 - 1)%nat with 4%nat. rewrite take_ge by (by rewrite length_le_bytes).
  rewrite u32_small, le_val_small by lia. lia.
Qed.

(** One frame of the guest, read. *)
Lemma run_loop_frame fuel killed outs s kind payload toks :
  Z.of_nat (length payload) < 4294967296 → tokens (events s) = (Byte <$> frame kind payload) ++ toks →
  ∃ evs, tokens evs = toks ∧
    run_loop (S fuel) killed outs s =
      let s := with_events evs s in
      if kind =? chr "1" then run_loop fuel killed (outs ++ [Stdout payload]) s
      else if kind =? chr "2" then run_loop fuel killed (outs ++ [Stderr payload]) s
      else if kind =? chr "X" then (Finished (Ok (exit_of payload, killed)), outs, s)
      else if kind =? chr "F" then (Finished (Err (Message (from_utf8_lossy payload))), outs, s)
      else (Finished (Err (Message (lit "unknown frame '" ++ latin1 kind ++ lit "' from the guest agent"))), outs, s).
Proof.
  intros Hn Ht. rewrite frame_tokens, <-app_assoc in Ht.
  destruct (header_fields kind (length payload) Hn) as [Hk Hl].
  assert (length (kind :: le_bytes 4 (u32 (Z.of_nat (length payload)))) = 5)%nat as H5 by (cbn [length]; by rewrite length_le_bytes).
  revert Hk Hl H5 Ht. generalize (kind :: le_bytes 4 (u32 (Z.of_nat (length payload)))). intros header Hk Hl H5 Ht.
  destruct (read_exact_bytes 5 s header _ H5 Ht) as (evs & Hr & Htk).
  destruct (read_exact_bytes (length payload) (with_events evs s) payload toks eq_refl Htk) as (evs' & Hr' & Htk').
  exists evs'. split; [done|]. cbn [run_loop]. rewrite Hr. rewrite bool_decide_false by lia.
  rewrite Hl, Hr'. rewrite bool_decide_false by lia. rewrite Hk. done.
Qed.

Lemma run_loop_script (steps : list GuestStep) fuel (killed : bool) outs s p (after : list Token) :
  (length steps < fuel)%nat →
  tokens (events s) = mjoin (step_tokens <$> steps) ++ (Byte <$> frame (chr "X") p) ++ after →
  (hits steps ≤ if killed then 0 else 1)%nat →
  (deadline s = true ∨ hits steps = 0%nat) →
  (∀ n, write_error s n = None) →
  Forall step_fits steps → Z.of_nat (length p) < 4294967296 →
  ∃ s', run_loop fuel killed outs s =
          (Finished (Ok (exit_of p, killed || bool_decide (0 < hits steps)%nat)), outs ++ outputs steps, s') ∧
        sent s' = sent s ++ replicate (hits steps) KILL.
Proof.
  revert fuel killed outs s. induction steps as [|g steps IH]; intros fuel killed outs s Hf Ht Hh Hd Hw Hfit Hp.
  - destruct fuel as [|fuel]; [lia|].
    destruct (run_loop_frame fuel killed outs s (chr "X") p after Hp Ht) as (evs & _ & ->).
    change (chr "X" =? chr "1") with false. change (chr "X" =? chr "2") with false. change (chr "X" =? chr "X") with true.
    cbv iota zeta. eexists. rewrite orb_false_r, app_nil_r. split; [done|]. by rewrite app_nil_r.
  - destruct fuel as [|fuel]; [simpl in Hf; lia|]. simpl in Hf. apply Forall_cons in Hfit as [Hg Hfit].
    rewrite fmap_cons, mjoin_cons, <-app_assoc in Ht. destruct g as [o|].
    + assert (hits (Sends o :: steps) = hits steps) as Hhs by done. rewrite Hhs in *.
      assert (outputs (Sends o :: steps) = [o] ++ outputs steps) as -> by done. rewrite app_assoc.
      destruct o as [b|b]; cbn [step_tokens output_frame] in Ht.
      * destruct (run_loop_frame fuel killed outs s _ b _ Hg Ht) as (evs & Htk & ->).
        change (chr "1" =? chr "1") with true. cbv iota zeta. by apply (IH fuel killed _ (with_events evs s)); [lia|..].
      * destruct (run_loop_frame fuel killed outs s _ b _ Hg Ht) as (evs & Htk & ->).
        change (chr "2" =? chr "1") with false. change (chr "2" =? chr "2") with true. cbv iota zeta.
        by apply (IH fuel killed _ (with_events evs s)); [lia|..].
    + assert (hits (DeadlineHits :: steps) = S (hits steps)) as Hhs by done. rewrite Hhs in *.
      destruct killed; [lia|]. destruct Hd as [Hd|]; [|done].
      destruct (read_exact_deadline 5 s _ ltac:(lia) Hd Ht) as (evs & Hr & Htk).
      cbn [run_loop]. rewrite Hr. unfold write_all. cbn [sent write_error set_deadline with_events events deadline].
      rewrite Hw.
      destruct (IH fuel true outs (mk_stream evs true (sent s ++ [KILL]) (write_error s))) as (s' & -> & Hs);
        [lia|done|lia|by right; lia|done|done|done|].
      exists s'. rewrite Hs. cbn [sent]. rewrite <-app_assoc. by replace (hits steps) with 0%nat by lia.
Qed.

Lemma write_frames_all frames s :
  (∀ n, write_error s n = None) →
  write_frames frames s = (Ok tt, mk_stream (events s) (deadline s) (sent s ++ frames) (write_error s)).
Proof.
  revert s; induction frames as [|f frames IH]; intros s Hw; [rewrite app_nil_r; by destruct s|].
  cbn [write_frames]. unfold write_all. rewrite Hw. rewrite IH by done. cbn. by rewrite <-app_assoc.
Qed.

Lemma length_tokens evs : (length (tokens evs) ≤ sum_list (weight <$> evs))%nat.
Proof.
  induction evs as [|[b| |e] evs IH]; [done|..]; rewrite tokens_cons, length_app, fmap_cons; cbn [tokens_of weight sum_list_with id];
    rewrite ?length_fmap; cbn [length] in *; unfold id in *; lia.
Qed.

Lemma length_script steps : (length steps ≤ length (mjoin (step_tokens <$> steps)))%nat.
Proof.
  induction steps as [|g steps IH]; [done|]. rewrite fmap_cons, mjoin_cons, length_app. cbn [length].
  destruct g as [[b|b]|]; cbn [step_tokens output_frame]; rewrite ?length_fmap; unfold frame; cbn [app length]; lia.
Qed.

(** ** Running ends *)

Definition load (evs : list Event) : nat := sum_list (weight <$> evs).

Lemma load_cons e evs : load (e :: evs) = (weight e + load evs)%nat.
Proof. done. Qed.

Lemma read_events_load d want evs :
  let '(r, evs') := read_events d want evs in
  (load evs' ≤ load evs)%nat ∧
  match r with
  | Done (Ok (_ :: _)) => 0 < want → load evs' < load evs
  | Done (Err ReadTimeout) => load evs' < load evs
  | _ => True
  end%nat.
Proof.
  induction evs as [|[bytes| |e] evs IH]; cbn [read_events]; [done| | |].
  - destruct bytes as [|b bytes].
    + destruct (read_events d want evs) as [r evs']. rewrite load_cons. cbn [weight length].
      destruct IH as [Hle Hr]. split; [lia|]. destruct r as [[[|c l]|[]]|]; try done; [intros; specialize (Hr ltac:(lia))|]; lia.
    + assert (load (match drop want (b :: bytes) with [] => evs | rest => Arrives rest :: evs end) ≤
              S (length (drop want (b :: bytes))) + load evs)%nat as Hd
        by (destruct (drop want (b :: bytes)); rewrite ?load_cons; cbn [weight length]; lia).
      rewrite length_drop in Hd. rewrite load_cons. cbn [weight]. split; [lia|].
      destruct (take want (b :: bytes)); [done|]. cbn [length] in *. lia.
  - destruct d; [rewrite load_cons; cbn [weight]; lia|].
    destruct (read_events false want evs) as [r evs']. rewrite load_cons. cbn [weight].
    destruct IH as [Hle Hr]. split; [lia|]. destruct r as [[[|c l]|[]]|]; try done; [intros; specialize (Hr ltac:(lia))|]; lia.
  - split; [lia|]. by destruct e.
Qed.

Lemma read_loop_load fuel chunk n out s :
  (0 < chunk)%nat →
  let '(r, s') := read_loop fuel chunk n out s in
  (load (events s') ≤ load (events s))%nat ∧
  match r with
  | Done (Ok bs) => length out < length bs → load (events s') < load (events s)
  | Done (Err ReadTimeout) => load (events s') < load (events s)
  | _ => True
  end%nat.
Proof.
  intros Hc. revert out s; induction fuel as [|fuel IH]; intros out s; cbn [read_loop].
  { destruct (bool_decide _); split; (lia || done). }
  destruct (bool_decide (length out < n)%nat) eqn:Hn; [|split; lia]. apply bool_decide_eq_true in Hn.
  pose proof (read_events_load (deadline s) ((n - length out) `min` chunk) (events s)) as Hr.
  destruct (read_events _ _ _) as [r evs]. destruct Hr as [Hle Hr].
  destruct r as [[[|b bs]|[]]|]; cbn [events with_events]; try (split; (lia || done)).
  specialize (Hr ltac:(lia)). specialize (IH (out ++ b :: bs) (with_events evs s)).
  destruct (read_loop fuel chunk n (out ++ b :: bs) _) as [r s']. destruct IH as [Hle' Hr']. cbn [events with_events] in *.
  split; [lia|]. destruct r as [[|[]]|]; try done; lia.
Qed.

Lemma read_exact_load n s :
  let '(r, s') := read_exact n s in
  (load (events s') ≤ load (events s))%nat ∧
  match r with
  | Done (Ok bs) => 0 < length bs → load (events s') < load (events s)
  | Done (Err ReadTimeout) => load (events s') < load (events s)
  | _ => True
  end%nat.
Proof.
  unfold read_exact. destruct n as [|n]; [cbn; split; [lia|simpl; lia]|].
  apply (read_loop_load (S n) _ (S n) [] s).
  assert (0 < Z.to_nat 65536)%nat by (apply Nat2Z.inj_lt; by vm_compute). lia.
Qed.

Lemma run_loop_ends fuel killed outs s :
  (load (events s) < fuel)%nat → (run_loop fuel killed outs s).1.1 ≠ CutShort.
Proof.
  revert killed outs s; induction fuel as [|fuel IH]; intros killed outs s Hf; [lia|]. cbn [run_loop].
  pose proof (read_exact_load 5 s) as Hr. destruct (read_exact 5 s) as [[[header|[text|]]|] s1]; try done; destruct Hr as [Hle Hr].
  - destruct (bool_decide (length header < 5)%nat) eqn:Hh; [done|]. apply bool_decide_eq_false in Hh. specialize (Hr ltac:(lia)).
    pose proof (read_exact_load (Z.to_nat (le_val (slice 1 5 header))) s1) as Hp.
    destruct (read_exact _ s1) as [[[payload|e]|] s2]; try done. destruct Hp as [Hle2 _].
    destruct (bool_decide _); [done|].
    repeat (case_match; try done); apply IH; lia.
  - destruct killed; [done|]. unfold write_all. cbn [write_error set_deadline]. destruct (write_error s1 _); [done|].
    apply IH. cbn [events set_deadline with_events]. lia.
Qed.

(** [run] never runs out of turns: it ends, or waits for a guest that does nothing more. *)
Lemma run_ends timeout c s : (run timeout c s).1.1 ≠ CutShort.
Proof.
  unfold run. destruct (bool_decide _); [done|].
  destruct (write_frames _ s) as [[[]|e] s']; [|done]. apply run_loop_ends. unfold turns, load. lia.
Qed.

(** C23: A command runs as asked, if the guest's agent can take it whole: no argument, NAME=value entry or
    folder over 4 MiB ([long_argument_refused]) or with a NUL in it ([nul_cuts]). The agent that reads
    what [run] writes then gets exactly the command's arguments, environment entries and folder, all of
    its input and the end of it, and at most one signal, the one that kills; whatever the guest prints
    before it reports the end is handed over whole and in order, however its bytes were cut up on the way;
    and if the deadline passes between two frames the command is killed once, and the result says so. *)
Theorem agent_run_delivers (timeout : bool) (c : Command) (s : Stream) (steps : list GuestStep) (p : list Z) (after : list Token) :
  argv c ≠ [] → command_fits c → sent s = [] → (∀ n, write_error s n = None) →
  tokens (events s) = mjoin (step_tokens <$> steps) ++ (Byte <$> frame (chr "X") p) ++ after →
  Forall step_fits steps → Z.of_nat (length p) < 4294967296 →
  (hits steps ≤ if timeout then 1 else 0)%nat →
  ∃ s', run timeout c s = (Finished (Ok (exit_of p, bool_decide (0 < hits steps)%nat)), outputs steps, s') ∧
    read_command (length (sent s')) (mjoin (sent s')) nothing_received = Some (received c (replicate (hits steps) 9)).
Proof.
  intros Hargv Hfits Hsent Hw Ht Hsteps Hp Hh. unfold run. rewrite bool_decide_false by done.
  rewrite write_frames_all, Hsent by done.
  destruct (run_loop_script steps (turns (set_deadline timeout (mk_stream (events s) (deadline s) (command_frames c) (write_error s))))
    false [] (set_deadline timeout (mk_stream (events s) (deadline s) (command_frames c) (write_error s))) p after)
    as (s' & Hr & Hs); [|done|by destruct timeout; lia|destruct timeout; [by left|right; lia]|done|done|done|].
  - unfold turns. cbn [set_deadline events]. pose proof (length_tokens (events s)) as Hl. rewrite Ht, length_app in Hl.
    pose proof (length_script steps). lia.
  - exists s'. split; [exact Hr|]. cbn [sent set_deadline] in Hs. rewrite Hs. apply command_received; [done|].
    by rewrite length_app, length_replicate.
Qed.

Definition example_command : Command :=
  mk_command [lit "sh"; lit "-c"; lit "cat; sleep 9"] [(lit "TERM", lit "xterm")] (Some (lit "/work")) (lit "hi").
Definition example_exit : list Z := le_bytes 4 (2 ^ 32 - 9).
Definition example_steps : list GuestStep := [Sends (Stdout (lit "hi")); DeadlineHits; Sends (Stderr (lit "gone"))].
Definition example_stream : Stream :=
  mk_stream [Arrives (take 3 (frame (chr "1") (lit "hi"))); Arrives (drop 3 (frame (chr "1") (lit "hi"))); DeadlinePasses;
             Arrives (frame (chr "2") (lit "gone") ++ frame (chr "X") example_exit)] false [] (λ _, None).

Lemma agent_run_delivers_witness :
  ∃ s', run true example_command example_stream =
      (Finished (Ok (Signal 9, true)), [Stdout (lit "hi"); Stderr (lit "gone")], s') ∧
    read_command (length (sent s')) (mjoin (sent s')) nothing_received = Some (received example_command [9]).
Proof.
  apply (agent_run_delivers true example_command example_stream example_steps example_exit []);
    [done| |done|done|reflexivity| |done|].
  - split_and!; repeat (apply Forall_cons; split; [apply c_text_ok; vm_compute; reflexivity|]); try apply Forall_nil_2.
    apply c_text_ok. vm_compute. reflexivity.
  - repeat (apply Forall_cons; split; [by vm_compute|]). apply Forall_nil_2.
  - vm_compute. lia.
Defined.

(** An argument over the agent's limit: it hangs up, though this side sends it without a word. *)
Lemma long_argument_refused a rest : MAX_FRAME < Z.of_nat (length a) < 4294967296 → read_frame (frame (chr "A") a ++ rest) = None.
Proof.
  intros Ha. unfold frame. cbn [app read_frame]. rewrite <-app_assoc.
  rewrite bool_decide_true by (rewrite length_app, length_le_bytes; lia).
  rewrite take_app_length' by (by rewrite length_le_bytes). cbv zeta.
  assert (u32 (Z.of_nat (length a)) = Z.of_nat (length a)) as -> by (apply u32_small; lia).
  assert (le_val (le_bytes 4 (Z.of_nat (length a))) = Z.of_nat (length a)) as -> by (apply le_val_small; lia).
  destruct (Z.ltb_spec MAX_FRAME (Z.of_nat (length a))) as [_|H]; [reflexivity|lia].
Qed.

(** An argument with a NUL, which JSON can give: the program gets what comes before it. *)
Lemma nul_cuts :
  rc_argv <$> read_command 9 (mjoin (command_frames (mk_command [lit "rm"; lit "/tmp/a" ++ [0] ++ lit "b"] [] None []))) nothing_received =
  Some [lit "rm"; lit "/tmp/a"].
Proof. by vm_compute. Qed.

(** A deadline that passes within a frame's header loses the bytes read of it: the reader goes on in
    the middle of the frame, here waiting for a payload nobody sends, and the command's end is not seen. *)
Lemma deadline_within_header :
  (run true example_command
     (mk_stream [Arrives (take 3 (frame (chr "X") (le_bytes 4 7))); DeadlinePasses;
                 Arrives (drop 3 (frame (chr "X") (le_bytes 4 7)) ++ replicate 10 0)] false [] (λ _, None))).1.1 ≠
    Finished (Ok (Code 7, true)).
Proof. vm_compute. discriminate. Qed.
