(* ===== verification/Addons.v ===== *)
(** * Add-ons (engine/src/addons.rs)

    [resolve] turns the add-ons an app asks for into images, settings files for the guest, request
    headers the guest may set and secrets.  The add-on folder is what its calls see of it
    ([AddonDir]); reading and printing JSON text is serde_json's. *)
From stdpp Require Import strings.
From S2P Require Import Prelude Str Http Json Cpio ImageFs.

Local Open Scope Z_scope.

Definition API_KEY : str := lit "apiKey".

(** A description file: there, missing, or unreadable. *)
Inductive MetaFile : Type :=
  | MetaBytes (bytes : list Z)
  | MetaMissing
  | MetaUnreadable (error : str).

Record AddonDir := mk_addon_dir {
  ad_image : str → str;              (** the path of [<name>.cpio] *)
  ad_is_file : str → bool;           (** whether it is a file *)
  ad_available : list str;           (** [available]: the names of the images, sorted *)
  ad_meta_path : str → str;          (** the path of [<name>.json] *)
  ad_meta : str → MetaFile;
}.

Record Resolved := mk_resolved {
  names : list str;
  layers : list (@Layer str);
  ad_headers : list str;
  ad_secrets : list Secret;
}.
Definition resolved_default : Resolved := mk_resolved [] [] [] [].

(** What one add-on adds, with its settings file. *)
Record Addon := mk_addon {
  ao_name : str;
  ao_image : str;
  ao_headers : list str;
  ao_secret : option Secret;
  ao_settings : list (str * Value);
}.

Section addons.
Context {LC : Lowercase} {J : SerdeJson} {JP : SerdePretty}.

Definition Settings : Type := list (str * Value).

(** The list of what was asked for: the names with their settings. *)
Definition requested_names (names : list Value) : result str (list (str * Settings)) :=
  collect_results (λ name, match as_str name with
                           | Some name => Ok (name, [])
                           | None => Err (lit "addons: a list of names") end) names.

Definition is_off (v : Value) : bool := match v with Bool false | Null => true | _ => false end.
Definition requested_entries (entries : list (str * Value)) : result str (list (str * Settings)) :=
  collect_results (λ e : str * Value, match e.2 with
                        | Bool true => Ok (e.1, [])
                        | Object fields => Ok (e.1, fields)
                        | _ => Err (lit "addons." ++ e.1 ++ lit ": true or an object of settings") end)
    (filter (λ e, is_off e.2 = false) entries).

Definition requested_of (v : Value) : result str (list (str * Settings)) :=
  match v with
  | Array names => requested_names names
  | Object entries => requested_entries entries
  | _ => Err (lit "addons: an object of name → settings, or a list of names")
  end.

Definition addon_name_ok (name : str) : bool :=
  forallb (λ b, in_range 48 57 b || in_range 65 90 b || in_range 97 122 b || (b =? chr "-") || (b =? chr "_")) name &&
  negb (bool_decide (name = [])).

Definition read_meta (dir : AddonDir) (name : str) : result str Settings :=
  let path := ad_meta_path dir name in
  match ad_meta dir name with
  | MetaMissing => Ok []
  | MetaUnreadable e => Err (lit "reading " ++ path ++ lit ": " ++ e)
  | MetaBytes bytes =>
      match from_slice bytes with
      | Ok (Object meta) => Ok meta
      | _ => Err (path ++ lit " is not a JSON object")
      end
  end.

(** The variant of the description the settings select. *)
Definition selected_variant (spec : Value) (settings : Settings) : str :=
  let or_default o := match o with Some s => s | None => default [] (get (lit "default") spec ≫= as_str) end in
  match get (lit "selector") spec ≫= as_str with
  | Some selector => or_default (assoc selector settings ≫= as_str)
  | None => or_default None
  end.

(** The host of a URL after its scheme. *)
Definition url_host (rest : str) : str :=
  let first_of p s := default [] (head (split_on p s)) in
  let authority := first_of (λ b, mem_str [b] [lit "/"; lit "?"; lit "#"]) rest in
  let authority := default authority (last (split_on (λ b, b =? chr "@") authority)) in
  match strip_prefix (lit "[") authority with
  | Some v6 => first_of (λ b, b =? chr "]") v6
  | None => first_of (λ b, b =? chr ":") authority
  end.

(** [eq_ignore_ascii_case("http")]. *)
Definition is_http (scheme : str) : bool := bool_decide (lower_byte <$> scheme = lit "http").

Definition api_key_secret (name : str) (meta settings : Settings) (key : str) : result str (option Secret) :=
  spec ← ok_or (assoc API_KEY meta) (lit "addons." ++ name ++ lit ": this add-on takes no apiKey");
  let variant := selected_variant spec settings in
  variant_spec ← ok_or (get (lit "variants") spec ≫= get variant)
                   (lit "addons." ++ name ++ lit ": no API key rule for " ++ quoted variant);
  url ← ok_or (match assoc (lit "baseUrl") settings ≫= as_str with
               | Some url => Some url
               | None => get (lit "baseUrl") variant_spec ≫= as_str
               end) (lit "addons." ++ name ++ lit ": apiKey needs a baseUrl");
  '(scheme, rest) ← ok_or (split_once (lit "://") url) (lit "addons." ++ name ++ lit ".baseUrl: not a URL: " ++ url);
  if is_http scheme then Ok None
  else
    let host := url_host rest in
    if bool_decide (host = []) then Err (lit "addons." ++ name ++ lit ".baseUrl: no host in " ++ url)
    else
      let header := default (lit "authorization") (get (lit "header") variant_spec ≫= as_str) in
      let value := replace (lit "{key}") key (default (lit "Bearer {key}") (get (lit "value") variant_spec ≫= as_str)) in
      Ok (Some (mk_secret (to_lowercase host) (to_lowercase header) value)).

(** The strings of an array, in lower case. *)
Definition lowered (l : list Value) : list str := to_lowercase <$> omap as_str l.

(** One turn of [resolve]'s loop. *)
Definition resolve_one (dir : AddonDir) (request : str * Settings) : result str Addon :=
  let '(name, settings) := request in
  if negb (addon_name_ok name) then Err (lit "addons: " ++ quoted name ++ lit " is not an add-on name")
  else if negb (ad_is_file dir name) then
    let known := ad_available dir in
    Err (lit "no add-on " ++ quoted name ++ lit " (this runtime has: " ++
         (if bool_decide (known = []) then lit "none" else join (lit ", ") known) ++ lit ")")
  else
    meta ← read_meta dir name;
    let headers := default [] (lowered <$> (assoc (lit "extraAllowedHeaders") meta ≫= as_array)) in
    match assoc API_KEY settings with
    | None => Ok (mk_addon name (ad_image dir name) headers None settings)
    | Some key =>
        let settings := assoc_remove API_KEY settings in
        key ← ok_or (as_str key) (lit "addons." ++ name ++ lit ".apiKey: a string");
        secret ← api_key_secret name meta settings key;
        let settings := match secret with Some _ => settings | None => assoc_insert API_KEY (String key) settings end in
        Ok (mk_addon name (ad_image dir name) headers secret settings)
    end.

Definition settings_entry (a : Addon) : str * option (list Z) :=
  (lit "etc/collabo/addons/" ++ ao_name a ++ lit ".json", Some (to_vec_pretty (Object (ao_settings a)))).

Definition resolve (dir : option AddonDir) (requested : option Value) : result str Resolved :=
  match requested with
  | None | Some Null => Ok resolved_default
  | Some v =>
      requested ← requested_of v;
      match requested with
      | [] => Ok resolved_default
      | _ =>
          dir ← ok_or dir (lit "this runtime has no add-ons (no --addon-dir)");
          addons ← collect_results (resolve_one dir) requested;
          let entries := [(lit "etc", None); (lit "etc/collabo", None); (lit "etc/collabo/addons", None)] ++
                         (settings_entry <$> addons) in
          Ok (mk_resolved (ao_name <$> addons)
                ((LayerFile ∘ ao_image <$> addons) ++ [LayerBytes (cpio_overlay entries)])
                (mjoin (ao_headers <$> addons)) (omap ao_secret addons))
      end
  end.

(** Settings of the command line: [NAME:KEY=VALUE]. *)
Definition parse_setting (spec : str) (into : Settings) : result str Settings :=
  let bad := lit "--addon-config needs NAME:KEY=VALUE" in
  '(name, assignment) ← ok_or (split_once (lit ":") spec) bad;
  '(key, value) ← ok_or (split_once (lit "=") assignment) bad;
  let value := match from_slice value with
               | Ok (Number n) => Number n
               | Ok Float => Float
               | Ok (Bool b) => Bool b
               | _ => String value
               end in
  let settings := match assoc name into with Some (Object fields) => fields | _ => [] end in
  Ok (assoc_insert name (Object (assoc_insert key value settings)) into).

(** ** Where keys go *)

(** The host a URL names, as RFC 3986 reads it: after [scheme://], the authority goes to the first slash,
    question mark or number sign; in it, what is up to the last at sign are credentials, and a colon
    begins the port; a host in brackets is an IPv6 address, to the closing one. *)
Definition ends_authority (b : Z) : Prop := b = chr "/" ∨ b = chr "?" ∨ b = chr "#".
Definition url_names (url scheme host : str) : Prop :=
  ∃ credentials at_host port rest,
    url = scheme ++ lit "://" ++ credentials ++ at_host ++ port ++ rest ∧
    (∀ l r, url = l ++ lit "://" ++ r → (length scheme ≤ length l)%nat) ∧
    Forall (λ b, ¬ ends_authority b) (credentials ++ at_host ++ port) ∧
    (rest = [] ∨ ∃ b, head rest = Some b ∧ ends_authority b) ∧
    (credentials = [] ∨ last credentials = Some (chr "@")) ∧ (chr "@" ∉ at_host ++ port) ∧
    (at_host = host ∧ head host ≠ Some (chr "[") ∧ (chr ":" ∉ host) ∧ (port = [] ∨ head port = Some (chr ":")) ∨
     at_host = lit "[" ++ host ∧ (chr "]" ∉ host) ∧ (port = [] ∨ head port = Some (chr "]"))).

(** A template filled in: every [{key}] of it is the key, and nothing else is changed. *)
Definition filled_in (template key value : str) : Prop :=
  ∃ parts, parts ≠ [] ∧ template = join (lit "{key}") parts ∧ value = join key parts ∧
    Forall (λ part, ∀ l r, part ≠ l ++ lit "{key}" ++ r) parts.

(** The string a field holds, and what stands for it where there is none. *)
Definition says (o : option Value) (s : str) : Prop := o = Some (String s).
Definition says_or (o : option Value) (other s : str) : Prop := says o s ∨ ((∀ t, says o t → False) ∧ s = other).

(** The description's rule for an add-on's key: that of the variant the settings name in the field the
    description's selector says, or else its default one.  Its key goes to the URL of the settings, or
    else of the rule, under the rule's header and in its template. *)
Definition key_rule (meta settings : Settings) (rule : Value) : Prop :=
  ∃ spec variants variant,
    assoc API_KEY meta = Some spec ∧
    ((∃ selector, says (get (lit "selector") spec) selector ∧ says (assoc selector settings) variant) ∨
     (∀ selector t, says (get (lit "selector") spec) selector → says (assoc selector settings) t → False) ∧
     says_or (get (lit "default") spec) [] variant) ∧
    get (lit "variants") spec = Some (Object variants) ∧ assoc variant variants = Some rule.
Definition key_url (rule : Value) (settings : Settings) (url : str) : Prop :=
  says (assoc (lit "baseUrl") settings) url ∨
  (∀ t, says (assoc (lit "baseUrl") settings) t → False) ∧ says (get (lit "baseUrl") rule) url.
Definition key_secret (rule : Value) (key host : str) (s : Secret) : Prop :=
  ∃ header template,
    says_or (get (lit "header") rule) (lit "authorization") header ∧
    says_or (get (lit "value") rule) (lit "Bearer {key}") template ∧
    sec_host s = to_lowercase host ∧ sec_header s = to_lowercase header ∧
    filled_in template key (sec_value s).

(** What the code computes of strings, as these say it. *)
Lemma as_str_says o s : o ≫= as_str = Some s ↔ says o s.
Proof. unfold says. destruct o as [[]|]; simpl; naive_solver. Qed.
Lemma as_str_none o : o ≫= as_str = None ↔ ∀ s, says o s → False.
Proof.
  destruct (o ≫= as_str) as [s|] eqn:E; [apply as_str_says in E|]; split; try done.
  - intros H. by destruct (H s).
  - intros _ s Hs%as_str_says. congruence.
Qed.
Lemma says_or_default o other : says_or o other (default other (o ≫= as_str)).
Proof.
  destruct (o ≫= as_str) as [s|] eqn:E; [left; by apply as_str_says|right]. by rewrite as_str_none in E.
Qed.

Lemma split_on_first p s :
  ∃ first tail, head (split_on p s) = Some first ∧ s = first ++ tail ∧ Forall (λ b, p b = false) first ∧
    (tail = [] ∨ ∃ b, head tail = Some b ∧ p b = true).
Proof.
  induction s as [|b s (first & tail & Hh & Hs & Hf & Ht)]; [exists [], []; split_and!; auto|].
  cbn [split_on]. destruct (p b) eqn:E; [exists [], (b :: s); split_and!; eauto|].
  destruct (split_on p s) as [|part parts]; [done|]. injection Hh as ->.
  exists (b :: first), tail. split_and!; [done|by rewrite Hs|by constructor|done].
Qed.

Lemma split_on_last p s :
  ∃ pre part, last (split_on p s) = Some part ∧ s = pre ++ part ∧ Forall (λ b, p b = false) part ∧
    (pre = [] ∧ length (split_on p s) = 1%nat ∨
     (∃ b, last pre = Some b ∧ p b = true) ∧ (1 < length (split_on p s))%nat).
Proof.
  induction s as [|b s (pre & part & Hl & Hs & Hp & Hpre)]; [exists [], []; split_and!; auto|].
  cbn [split_on]. pose proof (split_on_nonempty p s) as Hne. destruct (p b) eqn:E.
  - exists (b :: pre), part. split_and!; [by destruct (split_on p s)|by rewrite Hs|done|right].
    split; [|destruct (split_on p s); [done|simpl; lia]].
    destruct Hpre as [[-> _]|[(c & Hc & ?) _]]; [by exists b|]. exists c. destruct pre; [done|]. auto.
  - destruct (split_on p s) as [|x parts]; [done|]. destruct Hpre as [[-> Hone]|[(c & Hc & ?) Hmore]].
    + destruct parts; [|done]. injection Hl as ->. exists [], (b :: part). rewrite Hs. split_and!; auto.
    + destruct parts as [|y parts]; [simpl in Hmore; lia|].
      exists (b :: pre), part. split_and!; [done|by rewrite Hs|done|right]. split; [|simpl; lia].
      exists c. destruct pre; [done|]. auto.
Qed.

Lemma url_host_names url scheme rest :
  split_once (lit "://") url = Some (scheme, rest) → url_names url scheme (url_host rest).
Proof.
  intros [-> Hfirst]%split_once_Some. unfold url_host. cbv zeta.
  destruct (split_on_first (λ b, mem_str [b] [lit "/"; lit "?"; lit "#"]) rest) as (authority & tail & Hh & -> & Hf & Ht).
  rewrite Hh. cbn [from_option id].
  assert (∀ b, mem_str [b] [lit "/"; lit "?"; lit "#"] = true ↔ ends_authority b) as Hends.
  { intros b. unfold mem_str, ends_authority. rewrite bool_decide_eq_true, !elem_of_cons, elem_of_nil.
    split; [intros [[= ->]|[[= ->]|[[= ->]|[]]]]; auto|intros [->|[->| ->]]; auto]. }
  destruct (split_on_last (λ b, b =? chr "@") authority) as (pre & at_ & Hl & -> & Hat & Hpre).
  rewrite Hl. cbn [from_option id]. exists pre.
  assert (∃ at_host port, at_ = at_host ++ port ∧
    let host := match strip_prefix (lit "[") at_ with
                | Some v6 => default [] (head (split_on (λ b, b =? chr "]") v6))
                | None => default [] (head (split_on (λ b, b =? chr ":") at_))
                end in
    (at_host = host ∧ head host ≠ Some (chr "[") ∧ (chr ":" ∉ host) ∧ (port = [] ∨ head port = Some (chr ":")) ∨
     at_host = lit "[" ++ host ∧ (chr "]" ∉ host) ∧ (port = [] ∨ head port = Some (chr "]")))) as (at_host & port & -> & Hhost).
  { unfold strip_prefix. destruct (starts_with (lit "[") at_) eqn:Esw.
    - apply starts_with_drop in Esw.
      destruct (split_on_first (λ b, b =? chr "]") (drop (length (lit "[")) at_)) as (h & port & Hh2 & Hd & Hf2 & Ht2).
      exists (lit "[" ++ h), port. split; [by rewrite Esw, Hd, <-app_assoc|]. cbv zeta. rewrite Hh2. right. split_and!; [done| |].
      + intros Hin. eapply Forall_forall in Hf2; [|exact Hin]. by rewrite Z.eqb_refl in Hf2.
      + destruct Ht2 as [->|(b & Hb & ->%Z.eqb_eq)]; auto.
    - destruct (split_on_first (λ b, b =? chr ":") at_) as (h & port & Hh2 & -> & Hf2 & Ht2).
      exists h, port. split; [done|]. cbv zeta. rewrite Hh2. left. split_and!; [done| | |].
      + intros Hb. destruct h as [|c h]; [done|]. injection Hb as ->.
        assert (starts_with (lit "[") ((chr "[" :: h) ++ port) = true); [|congruence].
        apply starts_with_spec. by exists (h ++ port).
      + intros Hin. eapply Forall_forall in Hf2; [|exact Hin]. by rewrite Z.eqb_refl in Hf2.
      + destruct Ht2 as [->|(b & Hb & ->%Z.eqb_eq)]; auto. }
  exists at_host, port, tail. split_and!.
  - by rewrite <-!app_assoc.
  - intros l r H. by apply (Hfirst l r).
  - eapply Forall_impl; [exact Hf|]. intros b Hb He%Hends. cbv beta in Hb. congruence.
  - destruct Ht as [->|(b & Hb & He%Hends)]; eauto.
  - destruct Hpre as [[-> _]|[(b & Hb & ->%Z.eqb_eq) _]]; auto.
  - intros Hin. eapply Forall_forall in Hat; [|exact Hin]. by rewrite Z.eqb_refl in Hat.
  - exact Hhost.
Qed.

Lemma replace_from_skip p new k s : replace_from p new k s = replace_from p new 0 (drop k s).
Proof. revert s; induction k as [|k IH]; intros [|b s]; try done. cbn [replace_from drop]. apply IH. Qed.

Lemma replace_split p new s : p ≠ [] →
  replace p new s = match split_once p s with Some (l, r) => l ++ new ++ replace p new r | None => s end.
Proof.
  intros Hp. unfold replace. induction s as [|b s IH].
  { simpl. destruct (starts_with p []) eqn:E; [|done]. apply starts_with_drop in E. by destruct p. }
  cbn [replace_from split_once]. destruct (starts_with p (b :: s)) eqn:E.
  - rewrite replace_from_skip. destruct p as [|c p]; [done|]. simpl. by rewrite Nat.sub_0_r.
  - rewrite IH. by destruct (split_once p s) as [[l r]|].
Qed.

Lemma replace_fills template key : filled_in template key (replace (lit "{key}") key template).
Proof.
  assert (∀ n template, (length template < n)%nat → filled_in template key (replace (lit "{key}") key template)) as H.
  { clear template. intros n. induction n as [|n IH]; intros template Hn; [lia|].
    rewrite replace_split by done. destruct (split_once (lit "{key}") template) as [[l r]|] eqn:E.
    - apply split_once_Some in E as [-> Hl]. destruct (IH r) as (parts & Hne & Ht & Hv & Hf).
      { rewrite !length_app in Hn. simpl in Hn. lia. }
      assert (∀ sep, parts ≠ [] → join sep (l :: parts) = l ++ sep ++ join sep parts) as Hjoin by (by destruct parts).
      exists (l :: parts). rewrite !Hjoin, <-Ht, <-Hv by done. split_and!; [done|done|done|].
      constructor; [|done]. intros l' r' ->.
      pose proof (Hl l' (r' ++ lit "{key}" ++ r)) as Hlen. rewrite <-!app_assoc in Hlen.
      specialize (Hlen eq_refl). rewrite !length_app in Hlen. simpl in Hlen. lia.
    - exists [template]. split_and!; [done|done|done|]. constructor; [|done]. by apply split_once_None. }
  apply (H (S (length template))). lia.
Qed.

Lemma selected_variant_says spec settings variant :
  selected_variant spec settings = variant →
  (∃ selector, says (get (lit "selector") spec) selector ∧ says (assoc selector settings) variant) ∨
  (∀ selector t, says (get (lit "selector") spec) selector → says (assoc selector settings) t → False) ∧
  says_or (get (lit "default") spec) [] variant.
Proof.
  unfold selected_variant. intros <-.
  destruct (get (lit "selector") spec ≫= as_str) as [selector|] eqn:Es.
  - pose proof Es as Es'%as_str_says. destruct (assoc selector settings ≫= as_str) as [v|] eqn:Ev.
    + left. exists selector. split; by apply as_str_says.
    + right. split; [|apply says_or_default]. intros sel t Hsel Ht. unfold says in Hsel, Es'. rewrite Es' in Hsel.
      injection Hsel as <-. rewrite as_str_none in Ev. by apply (Ev t).
  - right. split; [|apply says_or_default]. intros sel t Hsel. rewrite as_str_none in Es. by destruct (Es sel).
Qed.

Lemma ok_or_Ok {E A} (o : option A) (e : E) a : ok_or o e = Ok a ↔ o = Some a.
Proof. destruct o; simpl; split; congruence. Qed.

Lemma api_key_secret_spec name meta settings key r :
  api_key_secret name meta settings key = Ok r →
  ∃ rule url scheme host, key_rule meta settings rule ∧ key_url rule settings url ∧ url_names url scheme host ∧
    match r with
    | None => lower_byte <$> scheme = lit "http"
    | Some s => lower_byte <$> scheme ≠ lit "http" ∧ host ≠ [] ∧ key_secret rule key host s
    end.
Proof.
  unfold api_key_secret. rewrite result_bind_Ok. intros (spec & Hspec & H). apply ok_or_Ok in Hspec.
  apply result_bind_Ok in H as (rule & Hvs & H). apply ok_or_Ok in Hvs.
  apply result_bind_Ok in H as (url & Hurl & H). apply ok_or_Ok in Hurl.
  apply result_bind_Ok in H as ([scheme rest] & Hsplit & H). apply ok_or_Ok in Hsplit.
  exists rule, url, scheme, (url_host rest). split_and!.
  - destruct (get (lit "variants") spec) as [variants|] eqn:Ev; [|done]. simpl in Hvs. destruct variants as [| | | | |?|fields]; try done.
    by exists spec, fields, (selected_variant spec settings); split_and!; [|apply selected_variant_says| |].
  - unfold key_url. rewrite <-!as_str_says, <-as_str_none.
    destruct (assoc (lit "baseUrl") settings ≫= as_str); auto.
  - by apply url_host_names.
  - unfold is_http in H. case_bool_decide as Hh; [by injection H as <-|]. case_bool_decide as Hne; [done|].
    injection H as <-. split_and!; [done|done|].
    eexists _, _. split_and!; [apply says_or_default|apply says_or_default|done|done|apply replace_fills].
Qed.

(** What [resolve] makes of one request: its key is given to the engine's HTTP client for one host, or
    the add-on talks plain http. *)
Definition key_guarded (dir : AddonDir) (request : str * Settings) (a : Addon) : Prop :=
  ao_name a = request.1 ∧
  match assoc API_KEY request.2 with
  | None => ao_settings a = request.2 ∧ ao_secret a = None
  | Some v =>
      ∃ key meta rule url scheme host, v = String key ∧ read_meta dir request.1 = Ok meta ∧
        key_rule meta (assoc_remove API_KEY request.2) rule ∧
        key_url rule (assoc_remove API_KEY request.2) url ∧ url_names url scheme host ∧
        match ao_secret a with
        | Some s => lower_byte <$> scheme ≠ lit "http" ∧ host ≠ [] ∧ key_secret rule key host s ∧
                    ao_settings a = assoc_remove API_KEY request.2 ∧ assoc API_KEY (ao_settings a) = None
        | None => lower_byte <$> scheme = lit "http" ∧ assoc API_KEY (ao_settings a) = Some v
        end
  end.

Lemma resolve_one_guarded dir request a :
  resolve_one dir request = Ok a → key_guarded dir request a ∧ addon_name_ok request.1 = true.
Proof.
  destruct request as [name settings]. unfold resolve_one, key_guarded. cbn [fst snd]. intros H.
  destruct (addon_name_ok name) eqn:Hn; [|done]. split; [|done]. revert H. cbn [negb]. destruct (ad_is_file dir name); [|done]. cbn [negb].
  rewrite result_bind_Ok. intros (meta & Hmeta & H).
  destruct (assoc API_KEY settings) as [v|] eqn:Hk; [|by injection H as <-].
  apply result_bind_Ok in H as (key & Hkey & H). apply ok_or_Ok in Hkey.
  apply result_bind_Ok in H as (secret & Hs & H). injection H as <-. cbn [ao_name ao_secret ao_settings].
  split; [done|]. destruct v; try done. injection Hkey as ->.
  destruct (api_key_secret_spec _ _ _ _ _ Hs) as (rule & url & scheme & host & Hrule & Hurl & Hnames & Hr).
  exists key, meta, rule, url, scheme, host. split_and!; try done. destruct secret as [s|].
  - destruct Hr as (? & ? & ?). split_and!; try done. apply assoc_remove_eq.
  - split; [done|]. apply assoc_insert_eq.
Qed.

(** A settings file is written under its add-on's name, which cannot leave the folder. *)
Lemma addon_name_plain name : addon_name_ok name = true →
  name ≠ [] ∧ Forall (λ b, b ≠ chr "/" ∧ b ≠ chr "." ∧ b ≠ 0) name.
Proof.
  unfold addon_name_ok. intros [Hf Hne]%andb_prop. split; [by apply negb_true_iff, bool_decide_eq_false in Hne|].
  apply Forall_forall. intros b Hb. rewrite forallb_forall in Hf. specialize (Hf b (proj1 (list_elem_of_In _ _) Hb)).
  unfold in_range in Hf. change (chr "-") with 45 in Hf. change (chr "_") with 95 in Hf.
  change (chr "/") with 47. change (chr ".") with 46. lia.
Qed.

(** C37: Whatever the app asks for, if its add-ons are turned on then each has an image and a settings file
    under its own plain name, and an API key among its settings stays with the engine: it becomes
    a secret for the host that the add-on's URL names, credentials, port and path aside, whose value is
    the key in the template of the rule for the selected variant, under that rule's header; and it is in
    no field of its own in the settings the guest gets.  Except for an add-on whose URL is plain http,
    whose key the guest carries itself. *)
Theorem addon_keys_guarded (dir : option AddonDir) (requested : option Value) (r : Resolved) :
  resolve dir requested = Ok r → names r ≠ [] →
  ∃ d v requests addons,
    dir = Some d ∧ requested = Some v ∧ requested_of v = Ok requests ∧
    Forall2 (key_guarded d) requests addons ∧
    Forall (λ n, n ≠ [] ∧ Forall (λ b, b ≠ chr "/" ∧ b ≠ chr "." ∧ b ≠ 0) n) (names r) ∧
    names r = requests.*1 ∧
    ad_secrets r = omap ao_secret addons ∧
    layers r = (LayerFile ∘ ao_image <$> addons) ++
      [LayerBytes (cpio_overlay ([(lit "etc", None); (lit "etc/collabo", None); (lit "etc/collabo/addons", None)] ++
        ((λ a, (lit "etc/collabo/addons/" ++ ao_name a ++ lit ".json", Some (to_vec_pretty (Object (ao_settings a))))) <$> addons)))].
Proof.
  intros H Hne.
  assert (∃ v, requested = Some v ∧ v ≠ Null) as (v & -> & Hv).
  { destruct requested as [[]|]; try (eexists; split; [reflexivity|discriminate]); by injection H as <-. }
  assert (requested_of v ≫= (λ requests, match requests with
    | [] => Ok resolved_default
    | _ => dir ← ok_or dir (lit "this runtime has no add-ons (no --addon-dir)");
        addons ← collect_results (resolve_one dir) requests;
        Ok (mk_resolved (ao_name <$> addons)
              ((LayerFile ∘ ao_image <$> addons) ++ [LayerBytes (cpio_overlay
                ([(lit "etc", None); (lit "etc/collabo", None); (lit "etc/collabo/addons", None)] ++ (settings_entry <$> addons)))])
              (mjoin (ao_headers <$> addons)) (omap ao_secret addons)) end) = Ok r) as H' by (by destruct v).
  apply result_bind_Ok in H' as (requests & Hreq & H'). destruct requests as [|q qs]; [by injection H' as <-|].
  apply result_bind_Ok in H' as (d & Hd & H'). apply ok_or_Ok in Hd.
  apply result_bind_Ok in H' as (addons & Ha & H'). injection H' as <-. apply collect_results_Forall2 in Ha.
  assert (Forall2 (key_guarded d) (q :: qs) addons) as Hg
    by (eapply Forall2_impl; [exact Ha|intros; by apply resolve_one_guarded]).
  assert (ao_name <$> addons = (q :: qs).*1) as Hnames.
  { clear -Hg. revert Hg. generalize (q :: qs). induction 1 as [|x a xs l [Hn _] _ IH]; [done|]. by rewrite !fmap_cons, IH, Hn. }
  exists d, v, (q :: qs), addons. cbn [names ad_secrets layers]. split_and!; try done.
  rewrite Hnames. apply Forall_fmap. clear -Ha. induction Ha as [|x a xs l Hx _ IH]; constructor; [|done].
  by eapply addon_name_plain, resolve_one_guarded.
Qed.

End addons.

(** ** An example *)

Definition example_meta : Value :=
  Object [(API_KEY, Object [(lit "default", String (lit "anthropic"));
    (lit "variants", Object [(lit "anthropic", Object [(lit "baseUrl", String (lit "https://api.example.com/v1"));
                                                        (lit "header", String (lit "x-api-key"));
                                                        (lit "value", String (lit "{key}"))])])])].
Definition example_addon_json : SerdeJson := {| from_slice := λ _, Ok example_meta; to_vec := λ _, [] |}.
Definition example_pretty : SerdePretty := λ _, lit "{}".
Definition example_dir : AddonDir :=
  mk_addon_dir (λ n, n ++ lit ".cpio") (λ _, true) [lit "agent"] (λ n, n ++ lit ".json") (λ _, MetaBytes []).
Definition example_requested : Value :=
  Object [(lit "agent", Object [(lit "model", String (lit "m")); (API_KEY, String (lit "k1"))])].
Definition example_resolved : Resolved :=
  Eval vm_compute in
    match @resolve ascii_lowercase example_addon_json example_pretty (Some example_dir) (Some example_requested) with
    | Ok r => r
    | Err _ => resolved_default
    end.

Lemma addon_keys_guarded_witness :
  ∃ d v requests addons,
    Some example_dir = Some d ∧ Some example_requested = Some v ∧ requested_of v = Ok requests ∧
    Forall2 (@key_guarded ascii_lowercase example_addon_json d) requests addons ∧
    Forall (λ n, n ≠ [] ∧ Forall (λ b, b ≠ chr "/" ∧ b ≠ chr "." ∧ b ≠ 0) n) (names example_resolved) ∧
    names example_resolved = requests.*1 ∧
    ad_secrets example_resolved = omap ao_secret addons ∧
    layers example_resolved = (LayerFile ∘ ao_image <$> addons) ++
      [LayerBytes (cpio_overlay ([(lit "etc", None); (lit "etc/collabo", None); (lit "etc/collabo/addons", None)] ++
        ((λ a, (lit "etc/collabo/addons/" ++ ao_name a ++ lit ".json", Some (example_pretty (Object (ao_settings a))))) <$> addons)))].
Proof.
  apply (@addon_keys_guarded ascii_lowercase example_addon_json example_pretty (Some example_dir) (Some example_requested));
    [vm_compute; reflexivity|discriminate].
Defined.

Lemma example_secret : ad_secrets example_resolved = [mk_secret (lit "api.example.com") (lit "x-api-key") (lit "k1")].
Proof. vm_compute. reflexivity. Qed.
