(* ===== verification/Intercept.v ===== *)
(** * Keys for the guest's own TLS connections (engine/src/intercept.rs)

    A connection of the guest to a host that has a secret ends here: [serve] reads the request's head,
    puts the secrets in and passes it on to the host, then the answer back.  TLS is rustls': the model
    has the bytes inside it, the name the guest asked for, and whether the host's certificate is
    checked.  What the sockets do is the environment's ([TlsEnv]); a socket that breaks other than by
    closing is left out. *)
From stdpp Require Import strings list gmap.
From S2P Require Import Prelude Str Http.

Local Open Scope Z_scope.

Definition MAX_HEAD : nat := Z.to_nat 65536.
Definition CRLF : str := [CR; LF].

(** [read_until(b'\n')]: a line with its end, or what there is. *)
Fixpoint read_line (l : list Z) : list Z * list Z :=
  match l with
  | [] => ([], [])
  | b :: l => if b =? LF then ([b], l) else let '(line, rest) := read_line l in (b :: line, rest)
  end.

(** A head ends with its empty line. *)
Definition complete (head : list Z) : bool := ends_with (CRLF ++ CRLF) head || bool_decide (head = CRLF).

(** The head of a message without the empty line that ends it; [fuel] bounds the lines ([read_head_ends]). *)
Fixpoint read_head_loop (fuel : nat) (l head : list Z) : result str (str * list Z) :=
  match fuel with
  | O => Err (lit "out of fuel")
  | S fuel =>
      let '(line, l) := read_line l in
      if bool_decide (line = []) then Err (lit "the connection closed before the head ended")
      else
        let head := head ++ line in
        if complete head then
          Ok (from_utf8_lossy (take (length head - 2) head), l)
        else if bool_decide (MAX_HEAD < length head)%nat then Err (lit "a head larger than 65536 bytes")
        else read_head_loop fuel l head
  end.
Definition read_head (l : list Z) : result str (str * list Z) := read_head_loop (S (length l)) l [].

(** ** Bodies *)

Inductive Body : Type :=
  | Length (n : Z)
  | Chunked
  | UntilEnd.

(** The size of a chunk, from its line. *)
Definition chunk_size (line : list Z) : option Z :=
  if utf8_valid line then
    from_hex 18446744073709551615 (default [] (head (split_on (λ b, b =? chr ";") (trim_text line))))
  else None.

(** The lines after the last chunk. *)
Fixpoint copy_trailers (fuel : nat) (l out : list Z) : list Z * list Z :=
  match fuel with
  | O => (out, l)
  | S fuel =>
      let '(trailer, l) := read_line l in
      let out := out ++ trailer in
      if bool_decide (trailer = CRLF) || bool_decide (trailer = []) then (out, l) else copy_trailers fuel l out
  end.

(** What is copied, what is left, and how it ended; every chunk has a line ([copy_chunks_ends]). *)
Fixpoint copy_chunks (fuel : nat) (l out : list Z) : list Z * list Z * result str unit :=
  match fuel with
  | O => (out, l, Err (lit "out of fuel"))
  | S fuel =>
      let '(line, l) := read_line l in
      let out := out ++ line in
      match chunk_size line with
      | None => (out, l, Err (lit "a malformed chunk size"))
      | Some size =>
          if size =? 0 then let '(out, l) := copy_trailers (S (length l)) l out in (out, l, Ok tt)
          else
            let n := Z.to_nat (u64 (size + 2)) in
            copy_chunks fuel (drop n l) (out ++ take n l)
      end
  end.

Definition copy_body (l : list Z) (body : Body) : list Z * list Z * result str unit :=
  match body with
  | Length n =>
      let copied := take (Z.to_nat n) l in
      (copied, drop (Z.to_nat n) l,
       if Z.of_nat (length copied) =? n then Ok tt
       else Err (lit "the body ended after " ++ decimal (Z.of_nat (length copied)) ++ lit " of " ++ decimal n ++ lit " bytes"))
  | UntilEnd => (l, [], Ok tt)
  | Chunked => copy_chunks (S (length l)) l []
  end.

(** ** Heads *)

(** [split("\r\n")]. *)
Fixpoint split_crlf (s : str) : list str :=
  match s with
  | [] => [[]]
  | b :: s =>
      match s with
      | c :: s' => if (b =? CR) && (c =? LF) then [] :: split_crlf s'
                   else match split_crlf s with line :: lines => (b :: line) :: lines | [] => [[b]] end
      | [] => [[b]]
      end
  end.

(** What the lines of a head say of the body, and which of them go on. *)
Record HeadScan := mk_head_scan {
  hs_length : option Z;
  hs_chunked : bool;
  hs_kept : list str;
}.

Section intercept.
Context {LC : Lowercase}.

Definition header_name (name : str) : str := to_lowercase (trim_text name).

Definition scan_line (dropped : str → bool) (acc : HeadScan) (line : str) : HeadScan :=
  match split_once (lit ":") line with
  | None => acc
  | Some (name, value) =>
      let name := header_name name in
      let len := if bool_decide (name = lit "content-length")
                 then parse_unsigned 18446744073709551616 (trim_text value) else hs_length acc in
      let chunked := if bool_decide (name = lit "transfer-encoding")
                     then contains (lit "chunked") (to_lowercase value) else hs_chunked acc in
      mk_head_scan len chunked (if dropped name then hs_kept acc else hs_kept acc ++ [line])
  end.
Definition scan (dropped : str → bool) (headers : str) : HeadScan :=
  foldl (scan_line dropped) (mk_head_scan None false []) (filter (λ line, line ≠ []) (split_crlf headers)).

Definition request_dropped (secrets : list Secret) (name : str) : bool :=
  mem_str name [lit "connection"; lit "keep-alive"; lit "proxy-connection"; lit "expect"] ||
  existsb (λ s, bool_decide (sec_header s = name)) secrets.
Definition answer_dropped (name : str) : bool := mem_str name [lit "connection"; lit "keep-alive"].

Definition secret_line (s : Secret) : str := sec_header s ++ lit ": " ++ sec_value s.
Definition CLOSE : str := lit "Connection: close".

(** A head of these lines. *)
Definition head_of (lines : list str) : str := mjoin ((λ line, line ++ CRLF) <$> lines) ++ CRLF.

Record TlsEvent := mk_tls_event {
  te_method : str;
  te_url : str;
  te_status : option Z;
  te_error : option str;
  te_secrets : nat;
}.

(** What a connection is about and what becomes of it: the first byte the guest sends in time, how the
    handshake goes and the name it asks for, the policy, whether the destination is this computer, its
    port, the guest's bytes, how connecting to the host goes (with its certificate checked or not),
    and what the host answers to what it is sent. *)
Record TlsEnv := mk_tls_env {
  env_first : option Z;
  env_handshake : result str (option str);
  env_policy : Policy;
  env_loopback : bool;
  env_port : Z;
  env_guest : list Z;
  env_connect : str → bool → option str;
  env_answer : list Z → list Z;
}.

(** What happened: what went to the host (the name, whether its certificate was checked, the bytes),
    what went to the guest, the events, and how it ended; [Through] for a connection that is not TLS. *)
Record Served := mk_served {
  sv_host : option (str * bool * list Z);
  sv_guest : list Z;
  sv_events : list TlsEvent;
  sv_result : result str unit;
}.
Inductive Interception : Type :=
  | Through
  | Intercepted (s : Served).

Definition bail (e : str) : Served := mk_served None [] [] (Err e).

Definition BAD_GATEWAY : str :=
  lit "HTTP/1.1 502 Bad Gateway" ++ CRLF ++ lit "Content-Length: 0" ++ CRLF ++ CLOSE ++ CRLF ++ CRLF.

(** The answer, passed back: what the guest gets, the status and how copying ended. *)
Definition pass_answer (method : str) (answer : list Z) : list Z * result str (Z * result str unit) :=
  match read_head answer with
  | Err e => ([], Err e)
  | Ok (head, rest) =>
      let '(status_line, headers) := default (head, []) (split_once CRLF head) in
      let status := default 0 (split_on (λ b, b =? 32) status_line !! 1%nat ≫= parse_unsigned 65536) in
      let s := scan answer_dropped headers in
      let body := if bool_decide (method = lit "HEAD") || (status =? 204) || (status =? 304) || in_range 100 199 status
                  then Length 0
                  else if hs_chunked s then Chunked
                  else match hs_length s with Some n => Length n | None => UntilEnd end in
      let '(copied, _, r) := copy_body rest body in
      (head_of (status_line :: hs_kept s ++ [CLOSE]) ++ copied, Ok (status, r))
  end.

(** The request, passed on under the name [host] with its secrets. *)
Definition pass_request (env : TlsEnv) (host : str) : Served :=
  let policy := env_policy env in
  let secrets := secrets_for policy true host in
  match read_head (env_guest env) with
  | Err e => bail e
  | Ok (head, rest) =>
      match split_once CRLF head with
      | None => bail (lit "no request line")
      | Some (request_line, headers) =>
          let parts := split_on (λ b, b =? 32) request_line in
          let method := default [] (parts !! 0%nat) in
          let target := default (lit "/") (parts !! 1%nat) in
          let url := lit "https://" ++ host ++ (if env_port env =? 443 then [] else lit ":" ++ decimal (env_port env)) ++ target in
          let s := scan (request_dropped secrets) headers in
          let out_head := head_of (request_line :: hs_kept s ++ (secret_line <$> secrets) ++ [CLOSE]) in
          let event status error :=
            mk_tls_event method url status (redact policy <$> error) (length secrets) in
          let checked := negb (skip_tls_verify policy) in
          match env_connect env host checked with
          | Some e => mk_served None BAD_GATEWAY [event None (Some e)] (Err e)
          | None =>
              let '(copied, _, r) := copy_body rest (if hs_chunked s then Chunked else Length (default 0 (hs_length s))) in
              let sent := out_head ++ copied in
              match r with
              | Err e => mk_served (Some (host, checked, sent)) BAD_GATEWAY [event None (Some e)] (Err e)
              | Ok _ =>
                  let '(back, answered) := pass_answer method (env_answer env sent) in
                  match answered with
                  | Err e => mk_served (Some (host, checked, sent)) back [] (Err e)
                  | Ok (status, r) =>
                      mk_served (Some (host, checked, sent)) back
                        [event (Some status) (match r with Err e => Some e | Ok _ => None end)] r
                  end
              end
          end
      end
  end.

(** The certificates made so far, a name's only once; [make] signs one. *)
Definition resolve {K} (make : str → option K) (made : gmap str K) (server_name : option str) : gmap str K * option K :=
  match server_name with
  | None => (made, None)
  | Some name =>
      let name := to_lowercase name in
      match made !! name with
      | Some key => (made, Some key)
      | None => match make name with
                | Some key => (<[name := key]> made, Some key)
                | None => (made, None)
                end
      end
  end.

Definition serve (env : TlsEnv) : Interception :=
  if decide (env_first env = Some 0x16) then
    Intercepted
      match env_handshake env with
      | Err e => bail e
      | Ok None => bail (lit "a TLS connection without a server name")
      | Ok (Some name) =>
          let host := to_lowercase name in
          let policy := env_policy env in
          match (if negb (env_loopback env) || negb (allow_loopback policy) then refuses_host policy host else None) with
          | Some reason => bail (host ++ lit ": " ++ reason)
          | None => pass_request env host
          end
      end
  else Through.
End intercept.

(** ** Reading *)

Lemma read_line_app l : let '(line, rest) := read_line l in l = line ++ rest.
Proof.
  induction l as [|b l IH]; [done|]. cbn [read_line]. destruct (b =? LF); [done|].
  destruct (read_line l) as [line rest]. by rewrite IH.
Qed.

Lemma read_line_split l line rest : read_line l = (line, rest) → l = line ++ rest.
Proof. pose proof (read_line_app l) as H. intros E. by rewrite E in H. Qed.

Lemma read_line_progress l line rest :
  read_line l = (line, rest) → line = [] ∧ l = [] ∨ (length rest < length l)%nat.
Proof.
  destruct l as [|b l]; cbn [read_line]; [intros [= <- <-]; by left|]. right.
  destruct (b =? LF); [simplify_eq; simpl; lia|].
  destruct (read_line l) as [line' rest'] eqn:E. apply read_line_split in E. simplify_eq.
  simpl. rewrite length_app. lia.
Qed.

(** One line at a time: up to its first line feed. *)
Lemma read_line_LF line rest : LF ∉ line → read_line (line ++ LF :: rest) = (line ++ [LF], rest).
Proof.
  induction line as [|b line IH]; intros Hn; cbn [app read_line].
  - by rewrite Z.eqb_refl.
  - apply not_elem_of_cons in Hn as [Hb Hn]. destruct (Z.eqb_spec b LF); [by subst|]. by rewrite IH.
Qed.

(** What a read head is: everything up to the first place where it is complete. *)
Lemma read_head_loop_taken fuel l acc head rest :
  read_head_loop fuel l acc = Ok (head, rest) →
  ∃ taken, l = taken ++ rest ∧ complete (acc ++ taken) = true ∧
    head = from_utf8_lossy (take (length (acc ++ taken) - 2) (acc ++ taken)).
Proof.
  revert l acc. induction fuel as [|fuel IH]; intros l acc; [done|]. cbn [read_head_loop].
  destruct (read_line l) as [line l'] eqn:E. apply read_line_split in E.
  case_bool_decide; [done|]. destruct (complete (acc ++ line)) eqn:Hc.
  - intros [= <- <-]. by exists line.
  - case_bool_decide; [done|]. intros (taken & -> & Hc' & ->)%IH. exists (line ++ taken).
    rewrite !app_assoc in *. by subst.
Qed.

(** The fuel is enough. *)
Lemma read_head_loop_ends fuel l acc :
  (length l < fuel)%nat → read_head_loop fuel l acc ≠ Err (lit "out of fuel").
Proof.
  revert l acc. induction fuel as [|fuel IH]; intros l acc Hl; [lia|]. cbn [read_head_loop].
  destruct (read_line l) as [line l'] eqn:E. case_bool_decide; [done|].
  destruct (complete _); [done|]. case_bool_decide; [done|]. apply IH.
  apply read_line_progress in E as [[-> ->]|]; [done|lia].
Qed.

Lemma read_head_ends l : read_head l ≠ Err (lit "out of fuel").
Proof. apply read_head_loop_ends. lia. Qed.

Lemma read_head_ok l head rest :
  read_head l = Ok (head, rest) →
  ∃ taken, l = taken ++ rest ∧ complete taken = true ∧
    head = from_utf8_lossy (take (length taken - 2) taken).
Proof. apply read_head_loop_taken. Qed.

(** ** Bodies *)

Lemma copy_trailers_split fuel l out copied rest :
  copy_trailers fuel l out = (copied, rest) → out ++ l = copied ++ rest.
Proof.
  revert l out. induction fuel as [|fuel IH]; intros l out; cbn [copy_trailers]; [by intros [= <- <-]|].
  destruct (read_line l) as [line l'] eqn:E. apply read_line_split in E as ->.
  destruct (_ || _); [intros [= <- <-]|intros H%IH]; by rewrite ?app_assoc in *.
Qed.

Lemma copy_chunks_split fuel l out copied rest r :
  copy_chunks fuel l out = (copied, rest, r) → out ++ l = copied ++ rest.
Proof.
  revert l out. induction fuel as [|fuel IH]; intros l out; cbn [copy_chunks]; [by intros [= <- <- <-]|].
  destruct (read_line l) as [line l'] eqn:E. apply read_line_split in E as ->.
  destruct (chunk_size line) as [size|]; [|intros [= <- <- <-]; by rewrite app_assoc].
  destruct (size =? 0).
  - destruct (copy_trailers _ _ _) as [o l2] eqn:E2. apply copy_trailers_split in E2.
    intros [= <- <- <-]. by rewrite app_assoc.
  - intros H%IH. rewrite <-H, <-!app_assoc. by rewrite take_drop.
Qed.

(** Whatever the framing, what is copied is where the body starts, and no byte is lost. *)
Lemma copy_body_split l body copied rest r : copy_body l body = (copied, rest, r) → l = copied ++ rest.
Proof.
  destruct body; cbn [copy_body].
  - intros [= <- <- <-]. by rewrite take_drop.
  - by intros H%copy_chunks_split.
  - intros [= <- <- <-]. by rewrite app_nil_r.
Qed.

Lemma chunk_size_nil : chunk_size [] = None.
Proof. done. Qed.

(** Every chunk has a line, so the fuel is enough. *)
Lemma copy_chunks_ends fuel l out copied rest r :
  (length l < fuel)%nat → copy_chunks fuel l out = (copied, rest, r) → r ≠ Err (lit "out of fuel").
Proof.
  revert l out. induction fuel as [|fuel IH]; intros l out Hl; [lia|]. cbn [copy_chunks].
  destruct (read_line l) as [line l'] eqn:E.
  destruct (chunk_size line) as [size|] eqn:Es; [|by intros [= <- <- <-]].
  destruct (size =? 0); [destruct (copy_trailers _ _ _); by intros [= <- <- <-]|].
  apply IH. rewrite length_drop.
  apply read_line_progress in E as [[-> ->]|]; [by rewrite chunk_size_nil in Es|lia].
Qed.

Lemma copy_trailers_ends fuel l out copied rest :
  (length l < fuel)%nat → copy_trailers fuel l out = (copied, rest) → rest = [] ∨ CRLF `suffix_of` copied.
Proof.
  revert l out. induction fuel as [|fuel IH]; intros l out Hl; [lia|]. cbn [copy_trailers].
  destruct (read_line l) as [line l'] eqn:E. destruct (_ || _) eqn:Ht.
  - intros [= <- <-]. apply orb_true_iff in Ht as [Ht|Ht]; apply bool_decide_eq_true in Ht; subst line.
    + right. by exists out.
    + left. destruct (read_line_progress _ _ _ E) as [[_ ->]|H]; [by simplify_eq/=|].
      apply read_line_split in E. subst. simpl in H. lia.
  - apply orb_false_iff in Ht as [_ Ht%bool_decide_eq_false]. apply IH.
    apply read_line_progress in E as [[-> ->]|]; [done|lia].
Qed.

(** A line with its end, and a chunked body as HTTP/1.1 has it: chunks with their sizes, the empty
    chunk, trailers, the empty line. *)
Definition full_line (line : list Z) : Prop := ∃ text, line = text ++ [LF] ∧ LF ∉ text.

Inductive chunked_body : list Z → Prop :=
  | chunked_last line trailers :
      full_line line → chunk_size line = Some 0 → Forall (λ t, full_line t ∧ t ≠ CRLF) trailers →
      chunked_body (line ++ mjoin trailers ++ CRLF)
  | chunked_chunk line data body :
      full_line line → chunk_size line = Some (Z.of_nat (length data)) → data ≠ [] →
      Z.of_nat (length data) < 18446744073709551614 → chunked_body body →
      chunked_body (line ++ data ++ CRLF ++ body).

Lemma read_full_line line rest : full_line line → read_line (line ++ rest) = (line, rest).
Proof. intros (text & -> & H). rewrite <-app_assoc. by apply read_line_LF. Qed.

Lemma full_line_CRLF : full_line CRLF.
Proof. exists [CR]. split; [done|]. by intros H%list_elem_of_singleton. Qed.

Lemma full_line_length line : full_line line → (0 < length line)%nat.
Proof. intros (text & -> & _). rewrite length_app. simpl. lia. Qed.

Lemma full_line_not_nil line : full_line line → line ≠ [].
Proof. intros H%full_line_length ->. simpl in H. lia. Qed.

Lemma copy_trailers_exact trailers fuel rest out :
  Forall (λ t, full_line t ∧ t ≠ CRLF) trailers → (length trailers < fuel)%nat →
  copy_trailers fuel (mjoin trailers ++ CRLF ++ rest) out = (out ++ mjoin trailers ++ CRLF, rest).
Proof.
  intros Ht. revert fuel out. induction Ht as [|t ts [Hf Hn] _ IH]; intros [|fuel] out Hl; simpl in Hl; try lia;
    [reflexivity|]. cbn [copy_trailers mjoin list_join].
  rewrite <-app_assoc, read_full_line by done.
  rewrite !bool_decide_eq_false_2 by (done || by apply full_line_not_nil). simpl orb. cbv iota.
  rewrite IH by lia. by rewrite <-!app_assoc.
Qed.

Lemma mjoin_length (ls : list (list Z)) : Forall (λ l, (0 < length l)%nat) ls → (length ls ≤ length (mjoin ls))%nat.
Proof. induction 1 as [|l ls Hl _ IH]; simpl; [lia|]. rewrite length_app. lia. Qed.

Lemma copy_chunks_exact body fuel rest out :
  chunked_body body → (length body < fuel)%nat →
  copy_chunks fuel (body ++ rest) out = (out ++ body, rest, Ok tt).
Proof.
  intros Hb. revert fuel out. induction Hb as [line trailers Hl Hs Ht|line data body Hl Hs Hd Hb _ IH];
    intros [|fuel] out Hf; try lia; cbn [copy_chunks].
  - rewrite <-app_assoc, read_full_line, Hs by done. cbn [Z.eqb]. rewrite <-app_assoc, copy_trailers_exact; [|done|].
    + by rewrite <-!app_assoc.
    + apply (Forall_impl _ (λ l, (0 < length l)%nat)) in Ht; [|intros t []; by apply full_line_length].
      apply mjoin_length in Ht. rewrite length_app. lia.
  - apply full_line_length in Hl as Hn. rewrite !length_app in Hf.
    rewrite <-app_assoc, read_full_line, Hs by done.
    destruct (Z.eqb_spec (Z.of_nat (length data)) 0); [destruct data; [done|simpl in *; lia]|].
    assert (Z.to_nat (u64 (Z.of_nat (length data) + 2)) = length (data ++ CRLF)) as ->.
    { unfold u64. rewrite Z.mod_small by lia. rewrite length_app. simpl. lia. }
    rewrite <-!app_assoc. rewrite (app_assoc data CRLF (body ++ rest)), take_app_length, drop_app_length.
    rewrite IH by lia. by rewrite <-!app_assoc.
Qed.

(** A body that is as its framing says is copied whole, and what follows it stays. *)
Lemma copy_body_exact body framing rest :
  match framing with
  | Length n => Z.of_nat (length body) = n
  | Chunked => chunked_body body
  | UntilEnd => rest = []
  end →
  copy_body (body ++ rest) framing = (body, rest, Ok tt).
Proof.
  destruct framing as [n| |]; cbn [copy_body].
  - intros <-. by rewrite Nat2Z.id, take_app_length, drop_app_length, Z.eqb_refl.
  - intros Hb. rewrite copy_chunks_exact; [done..|]. rewrite length_app. lia.
  - intros ->. by rewrite app_nil_r.
Qed.

(** ** Heads and connections *)

Section intercept_lemmas.
Context {LC : Lowercase}.

(** A line of a head that goes on: a field whose name is not dropped. *)
Definition goes_on (dropped : str → bool) (line : str) : bool :=
  match split_once (lit ":") line with
  | Some (name, _) => negb (dropped (header_name name))
  | None => false
  end.

Lemma scan_kept dropped headers :
  hs_kept (scan dropped headers) = filter (λ line, goes_on dropped line = true) (split_crlf headers).
Proof.
  unfold scan.
  assert (∀ acc lines, hs_kept (foldl (scan_line dropped) acc (filter (λ line, line ≠ []) lines)) =
            hs_kept acc ++ filter (λ line, goes_on dropped line = true) lines) as H; [|apply H].
  intros acc lines. revert acc. induction lines as [|line lines IH]; intros acc; [by rewrite app_nil_r|].
  rewrite !filter_cons. case_decide as Hn.
  - cbn [foldl]. rewrite IH. unfold scan_line, goes_on.
    destruct (split_once (lit ":") line) as [[name value]|]; cbn [hs_kept]; [|by rewrite decide_False].
    destruct (dropped (header_name name)); cbn [negb]; [by rewrite decide_False|].
    by rewrite decide_True, <-app_assoc.
  - subst line. rewrite IH. by rewrite decide_False.
Qed.

(** No line that goes on has the name of a secret's header or of the connection's framing. *)
Lemma request_dropped_false secrets name :
  request_dropped secrets name = false ↔
  (name ∉ [lit "connection"; lit "keep-alive"; lit "proxy-connection"; lit "expect"]) ∧
  (∀ s, s ∈ secrets → sec_header s ≠ name).
Proof.
  unfold request_dropped. rewrite orb_false_iff. unfold mem_str. rewrite bool_decide_eq_false.
  rewrite <-(not_true_iff_false (existsb _ _)), existsb_exists. split; intros [H1 H2]; (split; [done|]).
  - intros s Hs Hn. apply H2. exists s. split; [by apply list_elem_of_In|by apply bool_decide_eq_true].
  - intros (s & Hs%list_elem_of_In & Hn%bool_decide_eq_true). by apply (H2 s).
Qed.

(** What the guest may get, and what the app hears: nothing but an answer of the host or the refusal. *)
Definition answer_of (answer back : list Z) : Prop :=
  ∃ taken body left status_line headers,
    answer = taken ++ body ++ left ∧ complete taken = true ∧
    default (from_utf8_lossy (take (length taken - 2) taken), [])
      (split_once CRLF (from_utf8_lossy (take (length taken - 2) taken))) = (status_line, headers) ∧
    back = head_of (status_line :: filter (λ line, goes_on answer_dropped line = true) (split_crlf headers) ++ [CLOSE]) ++ body.

Lemma pass_answer_back method answer back r :
  pass_answer method answer = (back, r) → back = [] ∨ answer_of answer back.
Proof.
  unfold pass_answer. destruct (read_head answer) as [[head rest]|e] eqn:E; [|intros [= <- _]; by left].
  apply read_head_ok in E as (taken & -> & Hc & ->).
  destruct (default _ _) as [status_line headers] eqn:El.
  match goal with |- context [copy_body rest ?b] => destruct (copy_body rest b) as [[copied left] r'] eqn:Eb end.
  intros [= <- _]. right. apply copy_body_split in Eb as ->.
  exists taken, copied, left, status_line, headers. split_and!; [done|done|done|]. by rewrite scan_kept.
Qed.

(** A line feed that does not end a line here: the byte before it is no carriage return. Many servers end
    a line there all the same. *)
Definition bare_line_feed (s : str) : Prop := ∃ a b, s = a ++ LF :: b ∧ last a ≠ Some CR.

Lemma bare_line_feed_app s1 s2 : last s1 ≠ Some CR → bare_line_feed s2 → bare_line_feed (s1 ++ s2).
Proof.
  intros Hs (a & b & -> & Ha). exists (s1 ++ a), b. rewrite app_assoc. split; [done|].
  rewrite last_app. by destruct (last a).
Qed.

Lemma split_crlf_bare s line : line ∈ split_crlf s → LF ∈ line → bare_line_feed s.
Proof.
  remember (length s) as n eqn:Hn. revert s Hn line. induction n as [n IH] using lt_wf_ind.
  intros [|b [|c s']] -> line; cbn [split_crlf].
  - intros ->%list_elem_of_singleton []%elem_of_nil.
  - intros ->%list_elem_of_singleton <-%list_elem_of_singleton. by exists [], [].
  - destruct ((b =? CR) && (c =? LF)) eqn:E.
    + apply andb_true_iff in E as [->%Z.eqb_eq ->%Z.eqb_eq].
      intros [->|H]%elem_of_cons HL; [by apply elem_of_nil in HL|].
      apply (bare_line_feed_app [CR; LF]); [done|]. eapply IH; [|done..]. simpl. lia.
    + assert (∀ l, l ∈ split_crlf (c :: s') → LF ∈ b :: l → bare_line_feed (b :: c :: s')) as Hcons.
      { intros l Hl [Hb|HL]%elem_of_cons; [by exists [], (c :: s'); subst b|].
        destruct (IH (length (c :: s')) ltac:(simpl; lia) _ eq_refl _ Hl HL) as (a & r & Hs & Ha).
        exists (b :: a), r. split; [by rewrite Hs|]. destruct a as [|x a]; [|done]. simplify_eq/=.
        intros [= ->]. by rewrite !Z.eqb_refl in E. }
      change (line ∈ match split_crlf (c :: s') with l :: ls => (b :: l) :: ls | [] => [[b]] end →
              LF ∈ line → bare_line_feed (b :: c :: s')).
      destruct (split_crlf (c :: s')) as [|l ls] eqn:Es.
      * intros ->%list_elem_of_singleton <-%list_elem_of_singleton. by exists [], (c :: s').
      * intros [->|H]%elem_of_cons HL; [apply (Hcons l); [by left|done]|].
        apply (Hcons line); [by right|by right].
Qed.

Lemma first_line_bare line rest : split_once CRLF (line ++ CRLF ++ rest) = Some (line, rest) → LF ∈ line → bare_line_feed line.
Proof.
  intros [_ Hf]%split_once_Some (a & b & ->)%list_elem_of_split. exists a, b. split; [done|].
  intros (a' & ->)%last_Some. pose proof (Hf a' (b ++ CRLF ++ rest) ltac:(by rewrite <-!app_assoc)) as Hl.
  rewrite !length_app in Hl. simpl in Hl. lia.
Qed.

(** A field of this name on a line. *)
Definition field_named (name : str) (line : str) : Prop :=
  ∃ n value, line = n ++ lit ":" ++ value ∧ (chr ":" ∉ n) ∧ header_name n = name.

(** One request passed on: the guest's request line and fields [kept] of it, the secrets, and the guest's
    next bytes; no line of the guest's has a line feed in it, unless its head has a bare one. *)
Definition request_of (env : TlsEnv) (host : str) (kept : list str) (sent : list Z) : Prop :=
  let secrets := secrets_for (env_policy env) true host in
  ∃ taken body left request_line headers,
    env_guest env = taken ++ body ++ left ∧ complete taken = true ∧
    split_once CRLF (from_utf8_lossy (take (length taken - 2) taken)) = Some (request_line, headers) ∧
    kept = filter (λ line, goes_on (request_dropped secrets) line = true) (split_crlf headers) ∧
    sent = head_of (request_line :: kept ++ (secret_line <$> secrets) ++ [CLOSE]) ++ body ∧
    (¬ bare_line_feed (request_line ++ CRLF ++ headers) → Forall (λ line, LF ∉ line) (request_line :: kept)).

Lemma pass_request_sent env host h checked sent :
  sv_host (pass_request env host) = Some (h, checked, sent) →
  h = host ∧ checked = negb (skip_tls_verify (env_policy env)) ∧ env_connect env host checked = None ∧
  ∃ kept, request_of env host kept sent ∧ ∀ line, line ∈ kept → goes_on (request_dropped (secrets_for (env_policy env) true host)) line = true.
Proof.
  unfold pass_request. destruct (read_head _) as [[head rest]|e] eqn:E; [|done].
  apply read_head_ok in E as (taken & Hg & Hc & ->).
  destruct (split_once CRLF _) as [[request_line headers]|] eqn:El; [|done]. cbv zeta.
  destruct (env_connect _ _ _) eqn:Econ; [done|].
  match goal with |- context [copy_body rest ?b] => destruct (copy_body rest b) as [[copied left] r] eqn:Eb end.
  apply copy_body_split in Eb as ->. rewrite scan_kept. set (kept := filter _ _). intros Hs.
  assert (∃ sent', Some (host, negb (skip_tls_verify (env_policy env)), sent') = Some (h, checked, sent) ∧
            request_of env host kept sent') as (sent' & [= <- <- <-] & Hr).
  { eexists. split; [destruct r; [|exact Hs]; destruct (pass_answer _ _) as [back [[]|]]; exact Hs|].
    exists taken, copied, left, request_line, headers. split_and!; [done..|]. intros Hb.
    pose proof (split_once_Some _ _ _ _ El) as [Et _]. rewrite Et in El.
    apply Forall_cons. split; [|apply Forall_forall; intros line [_ Hl]%list_elem_of_filter]; intros HL; apply Hb.
    - destruct (first_line_bare _ _ El HL) as (a & b & -> & Ha). exists a, (b ++ CRLF ++ headers).
      by rewrite <-app_assoc.
    - rewrite app_assoc. apply bare_line_feed_app; [by rewrite last_app|]. by eapply split_crlf_bare. }
  split_and!; [done..|]. exists kept. split; [done|]. by intros line [? _]%list_elem_of_filter.
Qed.
End intercept_lemmas.

(** ** The connection *)

Section serve_lemmas.
Context {LC : Lowercase}.

Lemma goes_on_request secrets line :
  goes_on (request_dropped secrets) line = true →
  ∃ name value, line = name ++ lit ":" ++ value ∧ (chr ":" ∉ name) ∧
    (header_name name ∉ [lit "connection"; lit "keep-alive"; lit "proxy-connection"; lit "expect"]) ∧
    (∀ s, s ∈ secrets → sec_header s ≠ header_name name).
Proof.
  unfold goes_on. destruct (split_once _ _) as [[name value]|] eqn:E; [|done].
  intros H%negb_true_iff%request_dropped_false. apply split_once_Some in E as [-> Hf]. exists name, value.
  split_and!; [done| |by apply H..]. intros (a & b & ->)%list_elem_of_split.
  pose proof (Hf a (b ++ lit ":" ++ value) ltac:(by rewrite <-app_assoc)) as Hl. rewrite length_app in Hl. simpl in Hl. lia.
Qed.

Lemma app_inj_first (c : Z) n n' v v' : n ++ c :: v = n' ++ c :: v' → c ∉ n → c ∉ n' → n = n'.
Proof.
  revert n'. induction n as [|b n IH]; intros [|b' n'] E Hn Hn'; simplify_eq/=; [done|set_solver..|].
  f_equal. apply IH; [done|set_solver..].
Qed.

Lemma goes_on_field secrets line secret :
  goes_on (request_dropped secrets) line = true → secret ∈ secrets →
  (∃ name value, line = name ++ lit ":" ++ value) ∧ ¬ field_named (sec_header secret) line.
Proof.
  intros (n & v & -> & Hc & _ & Hn)%goes_on_request Hs. split; [by exists n, v|].
  intros (n' & v' & E & Hc' & Hh). apply (Hn _ Hs). rewrite <-Hh.
  by rewrite (app_inj_first (chr ":") n n' v v').
Qed.

Lemma refuses_host_None p h :
  refuses_host p h = None →
  (∀ rule, rule ∈ deny p → host_matches rule h = false) ∧ ∃ rule, rule ∈ allow p ∧ host_matches rule h = true.
Proof.
  unfold refuses_host. destruct (deny_rule p h) eqn:E; [done|]. destruct (allowed p h) eqn:Ha; [|done]. intros _.
  split; [exact (proj1 (deny_rule_None p h) E)|exact (proj1 (allowed_spec p h) Ha)].
Qed.

(** What a served connection shows the guest and the app. *)
Definition shown (env : TlsEnv) (s : Served) : Prop :=
  (sv_guest s = [] ∨ sv_guest s = BAD_GATEWAY ∨
   ∃ host checked sent, sv_host s = Some (host, checked, sent) ∧ answer_of (env_answer env sent) (sv_guest s)) ∧
  (length (sv_events s) ≤ 1)%nat ∧
  Forall (λ e, ∃ error : option str, te_error e = redact (env_policy env) <$> error) (sv_events s).

Lemma bail_shown env e : shown env (bail e).
Proof. split_and!; [by left|simpl; lia|constructor]. Qed.

Lemma pass_request_shown env host : shown env (pass_request env host).
Proof.
  unfold pass_request. destruct (read_head _) as [[head rest]|e]; [|apply bail_shown].
  destruct (split_once CRLF head) as [[request_line headers]|]; [|apply bail_shown]. cbv zeta.
  destruct (env_connect _ _ _) as [e|].
  { split_and!; [right; by left|simpl; lia|]. apply Forall_singleton. by exists (Some e). }
  match goal with |- context [copy_body rest ?b] => destruct (copy_body rest b) as [[copied left] [[]|e]] end;
    [|by split_and!; [right; left|simpl; lia|apply Forall_singleton; exists (Some e)]].
  match goal with |- context [pass_answer ?m ?a] => destruct (pass_answer m a) as [back answered] eqn:E end.
  apply pass_answer_back in E.
  destruct answered as [[status r]|e]; (split_and!; [|simpl; lia|]).
  - destruct E as [->|E]; [by left|]. right. right. simpl. by do 3 eexists.
  - apply Forall_singleton. by eexists.
  - destruct E as [->|E]; [by left|]. right. right. simpl. by do 3 eexists.
  - constructor.
Qed.
End serve_lemmas.

(** A name that has a certificate keeps it, whatever is asked for in between. *)
Lemma resolve_keeps {LC : Lowercase} {K} (make : str → option K) made name names key :
  (resolve make made (Some name)).2 = Some key →
  (resolve make (foldl (λ made n, (resolve make made n).1) (resolve make made (Some name)).1 names) (Some name)).2 = Some key.
Proof.
  intros H.
  assert ((resolve make made (Some name)).1 !! to_lowercase name = Some key) as Hk.
  { unfold resolve in *. destruct (made !! to_lowercase name) eqn:E; [by simplify_eq/=|].
    destruct (make _); simplify_eq/=. by rewrite lookup_insert_eq. }
  revert Hk. generalize (resolve make made (Some name)).1. clear H made.
  induction names as [|n names IH]; intros made Hk; cbn [foldl]; [unfold resolve; by rewrite Hk|].
  apply IH. destruct n as [n|]; [|done]. unfold resolve. destruct (made !! to_lowercase n) eqn:E; [done|].
  destruct (make _); [|done]. cbn [fst]. by rewrite lookup_insert_ne by congruence.
Qed.

(** ** The property of the interceptor *)

(** C11: the keys are guarded on the guest's own TLS connections. A connection that is not TLS is left
    alone. What is served goes to one host, the one the guest named: one the policy's rules let through,
    or, where the app allows this computer (allow_loopback) and the destination is on it, any name; and
    with the certificate checked, unless the app turned that off (skip_tls_verify). The host gets the
    guest's request line, its fields but for those of the connection and those with the name of a secret
    meant for this host, those secrets, and the guest's next bytes as the body. Lines end at CR LF: behind
    a bare line feed the guest's own copy of such a field does pass as a part of its line
    ([bare_line_feed_hides]); in a head without one every line sent is one line for a reader that ends
    lines at LF too. The guest gets the host's answer or a refusal. No secret that redaction knows
    ([redactable]: four bytes or more, without brackets) is in what the app hears of errors. *)
Theorem intercept_guarded {LC : Lowercase} env :
  match serve env with
  | Through => env_first env ≠ Some 0x16
  | Intercepted s =>
      env_first env = Some 0x16 ∧ shown env s ∧
      (∀ e error secret, e ∈ sv_events s → te_error e = Some error →
         secret ∈ secrets (env_policy env) ++ addon_secrets (env_policy env) → redactable (sec_value secret) →
         ¬ occurs (sec_value secret) error) ∧
      ∀ host checked sent, sv_host s = Some (host, checked, sent) →
        (∃ name, env_handshake env = Ok (Some name) ∧ host = to_lowercase name) ∧
        (env_loopback env = true ∧ allow_loopback (env_policy env) = true ∨
         (∀ rule, rule ∈ deny (env_policy env) → host_matches rule host = false) ∧
         ∃ rule, rule ∈ allow (env_policy env) ∧ host_matches rule host = true) ∧
        checked = negb (skip_tls_verify (env_policy env)) ∧ env_connect env host checked = None ∧
        ∃ kept, request_of env host kept sent ∧
          ∀ secret, secret ∈ secrets_for (env_policy env) true host →
            host_matches (sec_host secret) host = true ∧
            ∀ line, line ∈ kept → (∃ name value, line = name ++ lit ":" ++ value) ∧ ¬ field_named (sec_header secret) line
  end.
Proof.
  assert (∀ s, shown env s → ∀ e error secret, e ∈ sv_events s → te_error e = Some error →
            secret ∈ secrets (env_policy env) ++ addon_secrets (env_policy env) → redactable (sec_value secret) →
            ¬ occurs (sec_value secret) error) as Hhide.
  { intros s (_ & _ & Hs) e error secret He Herr Hin Hr. rewrite Forall_forall in Hs.
    destruct (Hs e He) as ([text|] & Ht); rewrite Herr in Ht; [|done]. simplify_eq/=. by apply redact_hides. }
  unfold serve. case_decide as Hf; [|done]. split; [done|].
  destruct (env_handshake env) as [[name|]|e] eqn:Hh;
    [|split; [apply bail_shown|split; [by apply Hhide, bail_shown|done]]..].
  cbv zeta. set (refused := if _ : bool then _ else _).
  destruct refused as [reason|] eqn:Hr;
    [split; [apply bail_shown|split; [by apply Hhide, bail_shown|done]]|].
  split; [apply pass_request_shown|split; [apply Hhide, pass_request_shown|]].
  intros host checked sent (-> & -> & Hc & kept & Hreq & Hkept)%pass_request_sent. split; [by exists name|].
  split_and!; [|done|done|exists kept; split; [done|]].
  - unfold refused in Hr. destruct (env_loopback env), (allow_loopback (env_policy env)); simpl in Hr;
      try (right; by apply refuses_host_None). by left.
  - intros secret Hs. split; [by apply (secrets_for_spec _ _ _ _ Hs)|].
    intros line Hl%Hkept. by eapply goes_on_field.
Qed.

(** ** Examples *)

#[local] Existing Instance ascii_lowercase.

Definition example_policy : Policy :=
  {| allow := [lit "api.test"]; deny := []; allow_loopback := false;
     secrets := [mk_secret (lit "api.test") (lit "authorization") (lit "Bearer sk-1")];
     extra_headers := []; addon_headers := []; addon_secrets := []; ask := false; skip_tls_verify := false |}.

Definition lines_of (lines : list str) : list Z := mjoin ((λ line, line ++ CRLF) <$> lines).

Definition example_env (guest : list Z) : TlsEnv :=
  {| env_first := Some 0x16; env_handshake := Ok (Some (lit "API.test")); env_policy := example_policy;
     env_loopback := false; env_port := 443; env_guest := guest; env_connect _ _ := None;
     env_answer _ := lines_of [lit "HTTP/1.1 200 OK"; lit "Transfer-Encoding: chunked"; lit "Keep-Alive: 5"; []] ++
                     lines_of [lit "3;x"; lit "abc"; lit "0"; lit "T: u"; []] |}.

(** One exchange: the guest's own key goes no further, the body both ways is copied as it is framed. *)
Lemma example_exchange :
  serve (example_env (lines_of [lit "POST /v1 HTTP/1.1"; lit "Host: api.test"; lit "Authorization: mine"; lit "Content-Length: 2"; []] ++ lit "hi!")) =
  Intercepted (mk_served
    (Some (lit "api.test", true, lines_of [lit "POST /v1 HTTP/1.1"; lit "Host: api.test"; lit "Content-Length: 2"; lit "authorization: Bearer sk-1"; CLOSE; []] ++ lit "hi"))
    (lines_of [lit "HTTP/1.1 200 OK"; lit "Transfer-Encoding: chunked"; CLOSE; []; lit "3;x"; lit "abc"; lit "0"; lit "T: u"; []])
    [mk_tls_event (lit "POST") (lit "https://api.test/v1") (Some 200) None 1] (Ok tt)).
Proof. by vm_compute. Qed.

(** Lines end at CR LF here: behind a bare line feed, which many servers end a line at too, the guest's
    own copy of a secret's header does go on. *)
Lemma bare_line_feed_hides :
  let hidden := lit "X: 1" ++ [LF] ++ lit "Authorization: mine" in
  serve (example_env (lines_of [lit "GET / HTTP/1.1"; hidden; []])) =
  Intercepted (mk_served
    (Some (lit "api.test", true, lines_of [lit "GET / HTTP/1.1"; hidden; lit "authorization: Bearer sk-1"; CLOSE; []]))
    (lines_of [lit "HTTP/1.1 200 OK"; lit "Transfer-Encoding: chunked"; CLOSE; []; lit "3;x"; lit "abc"; lit "0"; lit "T: u"; []])
    [mk_tls_event (lit "GET") (lit "https://api.test/") (Some 200) None 1] (Ok tt)).
Proof. by vm_compute. Qed.

(** An interim answer (103 Early Hints) is taken for the final one: the guest never gets what follows. *)
Lemma interim_answer_ends :
  pass_answer (lit "GET") (lines_of [lit "HTTP/1.1 103 Early Hints"; []; lit "HTTP/1.1 200 OK"; []]) =
  (lines_of [lit "HTTP/1.1 103 Early Hints"; CLOSE; []], Ok (103, Ok tt)).
Proof. by vm_compute. Qed.

(** A refused name is told to nobody. *)
Lemma example_refused :
  serve {| env_first := Some 0x16; env_handshake := Ok (Some (lit "other.test")); env_policy := example_policy;
           env_loopback := false; env_port := 443; env_guest := []; env_connect _ _ := None; env_answer _ := [] |} =
  Intercepted (bail (lit "other.test: " ++ quoted (lit "other.test") ++ lit " is not in the allow list")).
Proof. by vm_compute. Qed.

Definition example_request : list Z := lines_of [lit "GET /v1 HTTP/1.1"; lit "Host: api.test"; lit "Authorization: mine"; []].

Lemma intercept_guarded_witness :
  ∃ s kept sent, serve (example_env example_request) = Intercepted s ∧
    sv_host s = Some (lit "api.test", true, sent) ∧ request_of (example_env example_request) (lit "api.test") kept sent ∧
    ∃ rule, rule ∈ allow example_policy ∧ host_matches rule (lit "api.test") = true.
Proof.
  pose proof (intercept_guarded (example_env example_request)) as H.
  destruct (serve (example_env example_request)) as [|s] eqn:E; [by vm_compute in E|].
  assert (∃ sent, sv_host s = Some (lit "api.test", true, sent)) as [sent Hs].
  { vm_compute in E. injection E as <-. by eexists. }
  destruct H as (_ & _ & _ & H). destruct (H _ _ _ Hs) as (_ & Ha & _ & _ & kept & Hr & _).
  exists s, kept, sent. split_and!; [done|done|done|]. by destruct Ha as [[? _]|[_ Ha]].
Defined.
