(* ===== verification/ModuleInfo.v ===== *)
(** * Facts of a WebAssembly module (engine/src/module_info.rs)

    What the engine reads from a module before it compiles it: the memory it imports and its custom
    sections.  The binary format is wasmparser's: the class [Wasmparser] gives a module's parts in
    order, up to the first one that cannot be read. *)
From stdpp Require Import strings list.
From S2P Require Import Prelude Str.

Local Open Scope Z_scope.

Inductive TypeRef : Type :=
  | TyFunc (ty : Z)
  | TyTag (func_type_idx : Z)
  | TyMemory (shared : bool) (initial : Z) (maximum : option Z)
  | TyOther.

Inductive ExternalKind : Type := ExFunc | ExTag | ExOther.

Inductive Payload : Type :=
  | ImportSection (imports : list (result str (str * str * TypeRef)))
  | FunctionSection (types : list (result str Z))
  | TagSection (types : list (result str Z))
  | ExportSection (exports : list (result str (str * ExternalKind * Z)))
  | CustomSection (name : str) (data : list Z)
  | CodeSectionStart
  | OtherPayload.

(** [Parser::new(0).parse_all(bytes)]. *)
Class Wasmparser : Type := parse_all : list Z → list (result str Payload).

Section module_info.
Context {WP : Wasmparser}.

Record MemoryImport := mk_memory_import {
  is_shared : bool;
  minimum_pages : Z;
  maximum_pages : option Z;
}.

(** The first memory imported. *)
Fixpoint import_memory (imports : list (result str (str * str * TypeRef))) : result str (option MemoryImport) :=
  match imports with
  | [] => Ok None
  | Err e :: _ => Err e
  | Ok (m, n, TyMemory shared initial maximum) :: _ =>
      if bool_decide (m = lit "env" ∧ n = lit "memory") then Ok (Some (mk_memory_import shared initial maximum))
      else Err (lit "the kernel imports an unexpected memory: " ++ m ++ lit "." ++ n)
  | Ok _ :: imports => import_memory imports
  end.
Fixpoint payloads_memory (payloads : list (result str Payload)) : result str MemoryImport :=
  match payloads with
  | [] => Err (lit "the kernel imports no memory")
  | Err e :: _ => Err e
  | Ok (ImportSection imports) :: payloads =>
      found ← import_memory imports;
      match found with Some m => Ok m | None => payloads_memory payloads end
  | Ok _ :: payloads => payloads_memory payloads
  end.
Definition memory_import (kernel : list Z) : result str (MemoryImport * Z) :=
  info ← payloads_memory (parse_all kernel);
  Ok (info, minimum_pages info).

Fixpoint payloads_custom (name : str) (payloads : list (result str Payload)) : result str (list Z) :=
  match payloads with
  | [] => Err (lit "this is not a collaboCore kernel: the kernel has no " ++ name ++ lit " section")
  | Err e :: _ => Err e
  | Ok (CustomSection n data) :: payloads => if bool_decide (n = name) then Ok data else payloads_custom name payloads
  | Ok _ :: payloads => payloads_custom name payloads
  end.
Definition custom_section (kernel : list Z) (name : str) : result str (list Z) :=
  payloads_custom name (parse_all kernel).
End module_info.
