(* ===== verification/Dylink.v ===== *)
(** * Shared libraries of guest programs (engine/src/dylink.rs)

    [dlopen] for guest programs.  A process keeps a log of what was loaded ([DlLog]); each of its
    threads has a table of functions and instances of its own and replays the log ([catch_up]) before
    it runs a library's code.  [instantiate] loads a library in one thread and logs it, [sym] may give
    a function a table slot.  WebAssembly itself (reading, compiling and instantiating modules) is
    wasmtime's: the class [Wasmtime].  A function is what it is whatever the thread that holds it. *)
From stdpp Require Import strings list gmap.
From S2P Require Import Prelude Memory Str ModuleInfo.

Local Open Scope Z_scope.

(** ** dylink.0 *)

(** A number of at most 32 bits in LEB128, and what follows it. *)
Fixpoint uleb_loop (data : list Z) (acc shift : Z) : result str (Z * list Z) :=
  match data with
  | [] => Err (lit "truncated dylink.0")
  | byte :: data =>
      let acc := Z.lor acc (Z.shiftl (Z.land byte 0x7f) shift) in
      if Z.land byte 0x80 =? 0 then
        if acc <? 4294967296 then Ok (acc, data) else Err (lit "dylink.0: a number too large")
      else
        let shift := shift + 7 in
        if 35 <? shift then Err (lit "dylink.0: a number too long") else uleb_loop data acc shift
  end.
Definition uleb (data : list Z) : result str (Z * list Z) := uleb_loop data 0 0.

Definition name (data : list Z) : result str (str * list Z) :=
  '(len, data) ← uleb data;
  let n := Z.to_nat len in
  if bool_decide (n ≤ length data)%nat then Ok (from_utf8_lossy (take n data), drop n data)
  else Err (lit "truncated dylink.0").

Record DylinkInfo := mk_dylink_info {
  di_mem_size : Z;
  di_mem_align : Z;
  di_table_size : Z;
  di_table_align : Z;
  di_needed : list str;
  di_weak_imports : gset (str * str);
}.
Definition dylink_default : DylinkInfo := mk_dylink_info 0 0 0 0 [] ∅.

(** [1u32.checked_shl(n).unwrap_or(none)]. *)
Definition checked_shl1 (n none : Z) : Z := if n <? 32 then Z.shiftl 1 n else none.

(** [n] times; every time reads a byte, so [fuel] is never short ([times_ends]). *)
Fixpoint times {A} (fuel : nat) (read : list Z → A → result str (A * list Z)) (n : Z) (data : list Z) (acc : A) : result str A :=
  if n =? 0 then Ok acc
  else match fuel with
       | O => Err (lit "out of fuel")
       | S fuel => '(acc, data) ← read data acc; times fuel read (n - 1) data acc
       end.

Definition read_needed (data : list Z) (info : DylinkInfo) : result str (DylinkInfo * list Z) :=
  '(n, data) ← name data;
  Ok (mk_dylink_info (di_mem_size info) (di_mem_align info) (di_table_size info) (di_table_align info)
        (di_needed info ++ [n]) (di_weak_imports info), data).

Definition read_import (data : list Z) (info : DylinkInfo) : result str (DylinkInfo * list Z) :=
  '(m, data) ← name data;
  '(field, data) ← name data;
  '(flags, data) ← uleb data;
  Ok (if Z.land flags 1 =? 0 then info
      else mk_dylink_info (di_mem_size info) (di_mem_align info) (di_table_size info) (di_table_align info)
             (di_needed info) ({[ (m, field) ]} ∪ di_weak_imports info), data).

(** One subsection; what it says is read from where it starts, whatever its length. *)
Definition subsection (kind : Z) (data : list Z) (info : DylinkInfo) : result str DylinkInfo :=
  if kind =? 1 then
    '(mem_size, data) ← uleb data;
    '(mem_align, data) ← uleb data;
    '(table_size, data) ← uleb data;
    '(table_align, _) ← uleb data;
    Ok (mk_dylink_info mem_size (checked_shl1 mem_align 0) table_size (checked_shl1 table_align 1)
          (di_needed info) (di_weak_imports info))
  else if kind =? 2 then '(n, data) ← uleb data; times (S (length data)) read_needed n data info
  else if kind =? 4 then '(n, data) ← uleb data; times (S (length data)) read_import n data info
  else Ok info.

Fixpoint parse_subsections (fuel : nat) (data : list Z) (info : DylinkInfo) : result str DylinkInfo :=
  match fuel with
  | O => Err (lit "out of fuel")
  | S fuel =>
      match data with
      | [] => Ok info
      | kind :: data =>
          '(len, data) ← uleb data;
          info ← subsection kind data info;
          parse_subsections fuel (drop (Z.to_nat len) data) info
      end
  end.

(** ** Libraries *)

Inductive Provider : Type :=
  | Main (name : str)
  | Library_ (index : nat) (name : str).

#[export] Instance provider_eq_dec : EqDecision Provider.
Proof. solve_decision. Defined.
#[export] Instance provider_countable : Countable Provider.
Proof.
  refine (inj_countable' (λ p, match p with Main n => (None, n) | Library_ i n => (Some i, n) end)
            (λ x, match x.1 with None => Main x.2 | Some i => Library_ i x.2 end) _).
  by intros [].
Defined.

Inductive Source : Type :=
  | SMemory
  | STable
  | StackPointer
  | Const (value : Z)
  | Got (value : Z)
  | Export (p : Provider)
  | Missing (name : str)
  | Own.

Inductive ExternKind : Type := KFunc | KGlobal | KTag | KMemory | KTable.
#[export] Instance extern_kind_eq_dec : EqDecision ExternKind.
Proof. solve_decision. Defined.

Record Import := mk_import { im_module : str; im_name : str; im_kind : ExternKind }.

(** What a library's binary imports and exports. *)
Record Shape := mk_shape {
  sh_imports : list (str * bool * Z);
  sh_func_types : list Z;
  sh_tag_types : list Z;
  sh_exports : gmap str (bool * Z);
}.
Definition shape_default : Shape := mk_shape [] [] [] ∅.

(** An import: those of "env" by name, with a flag that tells tags from functions, and its index. *)
Definition shape_import (sh : Shape) (import : str * str * TypeRef) : Shape :=
  let '(m, n, ty) := import in
  let in_env tag index := if bool_decide (m = lit "env") then sh_imports sh ++ [(n, tag, index)] else sh_imports sh in
  match ty with
  | TyFunc ty => mk_shape (in_env false (Z.of_nat (length (sh_func_types sh)))) (sh_func_types sh ++ [ty]) (sh_tag_types sh) (sh_exports sh)
  | TyTag ty => mk_shape (in_env true (Z.of_nat (length (sh_tag_types sh)))) (sh_func_types sh) (sh_tag_types sh ++ [ty]) (sh_exports sh)
  | _ => sh
  end.
Definition shape_export (sh : Shape) (export : str * ExternalKind * Z) : Shape :=
  let '(n, kind, index) := export in
  let insert tag := mk_shape (sh_imports sh) (sh_func_types sh) (sh_tag_types sh) (<[n := (tag, index)]> (sh_exports sh)) in
  match kind with ExFunc => insert false | ExTag => insert true | ExOther => sh end.

(** The items of a section, up to the first that cannot be read. *)
Fixpoint fold_items {A S} (f : S → A → S) (s : S) (items : list (result str A)) : result str S :=
  match items with
  | [] => Ok s
  | Ok a :: items => fold_items f (f s a) items
  | Err e :: _ => Err e
  end.

Fixpoint shape_payloads (payloads : list (result str Payload)) (sh : Shape) : result str Shape :=
  match payloads with
  | [] => Ok sh
  | Err e :: _ => Err e
  | Ok payload :: payloads =>
      match payload with
      | ImportSection imports => sh ← fold_items shape_import sh imports; shape_payloads payloads sh
      | FunctionSection types =>
          sh ← fold_items (λ sh ty, mk_shape (sh_imports sh) (sh_func_types sh ++ [ty]) (sh_tag_types sh) (sh_exports sh)) sh types;
          shape_payloads payloads sh
      | TagSection types =>
          sh ← fold_items (λ sh ty, mk_shape (sh_imports sh) (sh_func_types sh) (sh_tag_types sh ++ [ty]) (sh_exports sh)) sh types;
          shape_payloads payloads sh
      | ExportSection exports => sh ← fold_items shape_export sh exports; shape_payloads payloads sh
      | CodeSectionStart => Ok sh
      | CustomSection _ _ | OtherPayload => shape_payloads payloads sh
      end
  end.
Definition shape `{Wasmparser} (bytes : list Z) : result str Shape := shape_payloads (parse_all bytes) shape_default.

Definition own (sh : Shape) (name : str) (tag : bool) (index : Z) : option Z :=
  '(is_tag, own) ← sh_exports sh !! name;
  let types := if tag then sh_tag_types sh else sh_func_types sh in
  if bool_decide (is_tag = tag) && negb (own =? index) then
    a ← types !! Z.to_nat own;
    b ← types !! Z.to_nat index;
    if a =? b then Some own else None
  else None.

(** A module's dylink.0. *)
Definition parse_dylink `{Wasmparser} (bytes : list Z) : result str DylinkInfo :=
  match custom_section bytes (lit "dylink.0") with
  | Err _ => Err (lit "not a shared library: no dylink.0 section (link it with wasm-ld -shared --experimental-pic)")
  | Ok data => parse_subsections (S (length data)) data dylink_default
  end.

(** An error the guest can ask about, or a trap, which is the program's end. *)
Inductive Failure : Type :=
  | Failed (e : str)
  | Trapped.

(** WebAssembly: modules and functions, rewriting and compiling, and instances: what a module instantiated
    as the program ([None]) or the n-th library with these imports exports and writes to the table. *)
Class Wasmtime : Type := {
  Module_ : Type;
  Fn : Type;
  Fn_eq_dec :: EqDecision Fn;
  rebind : list Z → gmap Z Z → gmap Z Z → result str (list Z);
  compile : list Z → result str Module_;
  module_imports : Module_ → list Import;
  module_export : Module_ → str → option ExternKind;
  instance_func : Module_ → option nat → list Source → str → option Fn;
  instance_global : Module_ → option nat → list Source → str → option Z;
  instance_elems : Module_ → option nat → list Source → result Failure (list (Z * Fn));
  fn_params : Fn → option Z;
  call : Fn → list Z → result Failure unit;
}.

(** ** State passing

    A call works on a thread's view, or on all of it with the process's log and the guest's memory; an
    error ends it and leaves what was done. *)
Definition io (S A : Type) : Type := S → result Failure A * S.
#[export] Instance io_ret {S} : MRet (io S) := λ A a s, (Ok a, s).
#[export] Instance io_bind {S} : MBind (io S) := λ A B f m s,
  match m s with
  | (Ok a, s) => f a s
  | (Err e, s) => (Err e, s)
  end.
Definition get {S} : io S S := λ s, (Ok s, s).
Definition put {S} (s : S) : io S unit := λ _, (Ok tt, s).
Definition raise {S A} (e : Failure) : io S A := λ s, (Err e, s).
Definition fail {S A} (e : str) : io S A := raise (Failed e).
Definition lift {S A} (r : result Failure A) : io S A := λ s, (r, s).
Definition context {S A} (o : option A) (e : str) : io S A := lift (ok_or o (Failed e)).
Fixpoint each {S A} (f : A → io S unit) (l : list A) : io S unit :=
  match l with
  | [] => mret tt
  | a :: l => f a ≫= λ _, each f l
  end.

(** An error with what it is about in front; a trap stays one. *)
Definition with_context {A} (what : str) (r : result Failure A) : result Failure A :=
  match r with
  | Err (Failed e) => Err (Failed (what ++ lit ": " ++ e))
  | r => r
  end.
Definition anyhow {A} (r : result str A) : result Failure A :=
  match r with Ok a => Ok a | Err e => Err (Failed e) end.

Section dylink.
Context {WP : Wasmparser} {W : Wasmtime}.

Record Library := mk_library {
  lib_name : str;
  lib_module : Module_;
  memory_base : Z;
  table_before : Z;
  table_after : Z;
  sources : list Source;
  slots : list (Z * Provider);
  global : bool;
  tls : option (Z * Z);
}.

Inductive Event : Type :=
  | Load (l : Library)
  | Slot (index : Z) (p : Provider).

Record DlLog := mk_log {
  events : list Event;
  libraries : list Library;
  table_size : option Z;
  slotted : gmap Provider Z;
}.
Definition log_default : DlLog := mk_log [] [] None ∅.

Record Pending := mk_pending { pn_bytes : list Z; pn_info : DylinkInfo }.

Record Instance_ := mk_instance {
  in_module : Module_;
  in_index : option nat;
  in_sources : list Source;
}.

(** What a thread has of the libraries: its table and its instances of them. *)
Record View := mk_view {
  v_table : list (option Fn);
  v_instances : list Instance_;
}.

Record Thread := mk_thread {
  th_view : View;
  applied : nat;
  tls_pending : list nat;
  loading : gmap Z Pending;
  next_id : Z;
  last_error : str;
  main_index : option (list (Fn * Z));
}.

(** The program: its module, its function table (if it exports one) with its limits. *)
Record MainTable := mk_main_table { mt_initial : list (option Fn); mt_minimum : Z; mt_maximum : Z }.
Record Program := mk_program { p_module : Module_; p_table : option MainTable }.

Context (prog : Program).

Definition TABLE : str := lit "__indirect_function_table".
Definition main_instance : Instance_ := mk_instance (p_module prog) None [].

(** A new thread of the process: the program's own table, no library. *)
Definition thread_new : Thread :=
  mk_thread (mk_view (match p_table prog with Some t => mt_initial t | None => [] end) []) 0 [] ∅ 0 [] None.

(** ** The table *)

Definition main_table : io View MainTable :=
  context (p_table prog) (lit "the program exports no function table (link it with --export-table --growable-table)").
Definition size : io View Z := v ← get; mret (Z.of_nat (length (v_table v))).

(** [table.grow]: by [n] entries, all [f]; where they start. *)
Definition grow (t : MainTable) (n : Z) (f : option Fn) : io View Z :=
  v ← get;
  let old := Z.of_nat (length (v_table v)) in
  if mt_maximum t <? old + n then fail (lit "failed to grow table by " ++ decimal n)
  else put (mk_view (v_table v ++ replicate (Z.to_nat n) f) (v_instances v)) ≫= λ _, mret old.

Definition table_set (i : Z) (f : Fn) : io View unit :=
  v ← get;
  if (0 <=? i) && (i <? Z.of_nat (length (v_table v))) then
    put (mk_view (<[Z.to_nat i := Some f]> (v_table v)) (v_instances v))
  else fail (lit "table element index out of bounds").

(** What an instance's element segments write; out of bounds is a trap. *)
Definition write_elem (e : Z * Fn) : io View unit :=
  v ← get;
  if (0 <=? e.1) && (e.1 <? Z.of_nat (length (v_table v))) then table_set e.1 e.2 else raise Trapped.

Definition push_instance (i : Instance_) : io View unit :=
  v ← get; put (mk_view (v_table v) (v_instances v ++ [i])).
(** ** Linking *)

(** The instance and the name a provider stands for in this thread, and its export. *)
Definition provided (v : View) (p : Provider) : option (Instance_ * str) :=
  match p with
  | Main n => Some (main_instance, n)
  | Library_ i n => instance ← v_instances v !! i; Some (instance, n)
  end.
Definition export (v : View) (p : Provider) : option ExternKind :=
  '(i, n) ← provided v p; module_export (in_module i) n.
Definition export_func (v : View) (p : Provider) : option Fn :=
  '(i, n) ← provided v p;
  if bool_decide (module_export (in_module i) n = Some KFunc) then instance_func (in_module i) (in_index i) (in_sources i) n
  else None.
Definition export_global (v : View) (p : Provider) : option Z :=
  '(i, n) ← provided v p;
  if bool_decide (module_export (in_module i) n = Some KGlobal) then instance_global (in_module i) (in_index i) (in_sources i) n
  else None.

Definition exports_kind (m : Module_) (n : str) (want : ExternKind) : bool :=
  bool_decide (module_export m n = Some want).

(** Who defines a name: the program, then the global libraries in order. *)
Fixpoint find_library (libs : list Library) (index : nat) (n : str) (pick : Library → bool) : option Provider :=
  match libs with
  | [] => None
  | l :: libs => if global l && pick l then Some (Library_ index n) else find_library libs (S index) n pick
  end.
Definition find (log : DlLog) (n : str) (want : ExternKind) : option Provider :=
  if exports_kind (p_module prog) n want then Some (Main n)
  else find_library (libraries log) 0 n (λ l, exports_kind (lib_module l) n want).

Definition as_i32 (z : Z) : Z := u32 (z + 2147483648) - 2147483648.

(** The address a data export stands for. *)
Definition data_address (v : View) (log : DlLog) (p : Provider) : option Z :=
  value ← export_global v p;
  match p with
  | Main _ => Some value
  | Library_ i _ => l ← libraries log !! i; Some (as_i32 (memory_base l + value))
  end.

(** What an import is in this thread. *)
Definition extern (v : View) (x : Import * Source) : result Failure unit :=
  let '(import, source) := x in
  match source with
  | SMemory | Const _ | Got _ => Ok tt
  | STable => match p_table prog with Some _ => Ok tt | None => Err (Failed (lit "the program exports no function table (link it with --export-table --growable-table)")) end
  | StackPointer =>
      if exports_kind (p_module prog) (lit "__stack_pointer") KGlobal then Ok tt
      else Err (Failed (lit "the program exports no __stack_pointer"))
  | Export p => match export v p with
                | Some _ => Ok tt
                | None => Err (Failed (im_module import ++ lit " " ++ im_name import ++ lit " is gone"))
                end
  | Missing n => if decide (im_kind import = KFunc) then Ok tt else Err (Failed (n ++ lit ": a weak import that is no function"))
  | Own => if decide (im_kind import = KFunc ∨ im_kind import = KTag) then Ok tt
           else Err (Failed (im_name import ++ lit ": a rebound import that is no function or tag"))
  end.
Definition externs (m : Module_) (sources : list Source) : io View unit :=
  v ← get; each (λ x, lift (extern v x)) (zip (module_imports m) sources).

(** *** Replaying *)

Definition fill_slot (s : Z * Provider) : io View unit :=
  v ← get;
  f ← context (export_func v s.2) (lit "a slot's function is gone");
  table_set s.1 f.

Definition replay (l : Library) : io View unit :=
  t ← main_table;
  n ← size;
  if negb (n =? table_before l) then
    fail (lib_name l ++ lit ": this thread's table has " ++ decimal n ++ lit " entries, the process's " ++ decimal (table_before l))
  else
    _ ← grow t (u32 (table_after l - n)) None;
    _ ← externs (lib_module l) (sources l);
    v ← get;
    let instance := mk_instance (lib_module l) (Some (length (v_instances v))) (sources l) in
    elems ← lift (with_context (lib_name l) (instance_elems (in_module instance) (in_index instance) (in_sources instance)));
    _ ← each write_elem elems;
    _ ← push_instance instance;
    each fill_slot (slots l).

Definition replay_slot (index : Z) (p : Provider) : io View unit :=
  t ← main_table;
  n ← size;
  _ ← (if n <=? index then grow t (u32 (index + 1 - n)) None ≫= λ _, mret tt else mret tt);
  fill_slot (index, p).

(** A call's state: the process's log, this thread, the guest's memory. *)
Record St := mk_st { st_log : DlLog; st_thread : Thread; st_memory : mem }.

Definition set_thread (th : Thread) : io St unit := λ s, (Ok tt, mk_st (st_log s) th (st_memory s)).
Definition set_log (log : DlLog) : io St unit := λ s, (Ok tt, mk_st log (st_thread s) (st_memory s)).
Definition set_view (v : View) (th : Thread) : Thread :=
  mk_thread v (applied th) (tls_pending th) (loading th) (next_id th) (last_error th) (main_index th).

(** A step on the thread's view. *)
Definition on_view {A} (m : io View A) : io St A := λ s,
  let '(r, v) := m (th_view (st_thread s)) in
  (r, mk_st (st_log s) (set_view v (st_thread s)) (st_memory s)).

Definition catch_up_event (e : Event) : io St unit :=
  _ ← match e with
      | Load l =>
          _ ← on_view (replay l);
          s ← get;
          let th := st_thread s in
          match tls l with
          | Some _ =>
              set_thread (mk_thread (th_view th) (applied th) (tls_pending th ++ [(length (v_instances (th_view th)) - 1)%nat])
                            (loading th) (next_id th) (last_error th) (main_index th))
          | None => mret tt
          end
      | Slot index p => on_view (replay_slot index p)
      end;
  s ← get;
  let th := st_thread s in
  set_thread (mk_thread (th_view th) (S (applied th)) (tls_pending th) (loading th) (next_id th) (last_error th) (main_index th)).

Definition catch_up : io St unit :=
  s ← get; each catch_up_event (drop (applied (st_thread s)) (events (st_log s))).

(** *** Table slots *)

(** The program's own entries, each function with its first index. *)
Fixpoint index_table (table : list (option Fn)) (i : Z) (acc : list (Fn * Z)) : list (Fn * Z) :=
  match table with
  | [] => acc
  | entry :: table =>
      index_table table (i + 1)
        match entry with
        | Some f => if existsb (λ x, bool_decide (x.1 = f)) acc then acc else acc ++ [(f, i)]
        | None => acc
        end
  end.
Definition lookup_index (index : list (Fn * Z)) (f : Fn) : option Z :=
  snd <$> List.find (λ x, bool_decide (x.1 = f)) index.

(** The index the program's table has of a function; its own entries are looked up once. *)
Definition own_index (f : Fn) : io St (option Z) :=
  s ← get;
  let th := st_thread s in
  index ← match main_index th with
          | Some index => mret index
          | None =>
              t ← on_view main_table;
              let index := index_table (take (Z.to_nat (mt_minimum t)) (v_table (th_view th))) 0 [] in
              _ ← set_thread (mk_thread (th_view th) (applied th) (tls_pending th) (loading th) (next_id th) (last_error th) (Some index));
              mret index
          end;
  mret (lookup_index index f).

Definition add_slot (f : Fn) (p : Provider) : io St Z :=
  t ← on_view main_table;
  index ← on_view (grow t 1 (Some f));
  s ← get;
  let log := st_log s in
  _ ← set_log (mk_log (events log) (libraries log) (table_size log) (<[p := u32 index]> (slotted log)));
  mret (u32 index).

(** The table index of a function: the one it was given, the one it has in the program's own table, or
    a new one; with the slots added so far. *)
Definition function_index (p : Provider) (added : list (Z * Provider)) : io St (Z * list (Z * Provider)) :=
  s ← get;
  match slotted (st_log s) !! p with
  | Some index => mret (as_i32 index, added)
  | None =>
      f ← context (export_func (th_view (st_thread s)) p) (lit "not a function");
      found ← match p with Main _ => own_index f | Library_ _ _ => mret None end;
      match found with
      | Some index => mret (as_i32 index, added)
      | None => index ← add_slot f p; mret (as_i32 index, added ++ [(index, p)])
      end
  end.
(** *** Loading a library *)

(** Which of its imports a library defines itself and nothing before it does, as what they become. *)
Fixpoint own_bindings (sh : Shape) (log : DlLog) (imports : list (str * bool * Z)) (funcs tags : gmap Z Z) : gmap Z Z * gmap Z Z :=
  match imports with
  | [] => (funcs, tags)
  | (sym, tag, index) :: imports =>
      match own sh sym tag index, find log sym (if tag then KTag else KFunc) with
      | Some o, None => if tag : bool then own_bindings sh log imports funcs (<[index := o]> tags)
                        else own_bindings sh log imports (<[index := o]> funcs) tags
      | _, _ => own_bindings sh log imports funcs tags
      end
  end.

Record Prepared := mk_prepared {
  pp_info : DylinkInfo;
  pp_module : Module_;
  pp_rebound : list (bool * str);
}.

(** The library compiled, its own definitions bound. *)
Definition compile_bound (bytes : list Z) (log : DlLog) : result str (Module_ * list (bool * str)) :=
  sh ← shape bytes;
  let '(funcs, tags) := own_bindings sh log (sh_imports sh) ∅ ∅ in
  m ← (if bool_decide (funcs = ∅) && bool_decide (tags = ∅) then compile bytes
       else bytes ← rebind bytes funcs tags; compile bytes);
  Ok (m, (λ x, (x.1.2, x.1.1)) <$>
           filter (λ x, is_Some ((if x.1.2 : bool then tags else funcs) !! x.2)) (sh_imports sh)).

Definition prepare (id : Z) (lib_name : str) : io St Prepared :=
  s ← get;
  let th := st_thread s in
  match loading th !! id with
  | None => fail (lit "no such library loading")
  | Some pending =>
      _ ← set_thread (mk_thread (th_view th) (applied th) (tls_pending th) (delete id (loading th)) (next_id th) (last_error th) (main_index th));
      _ ← catch_up;
      s ← get;
      '(m, rebound) ← lift (with_context lib_name (anyhow (compile_bound (pn_bytes pending) (st_log s))));
      mret (mk_prepared (pn_info pending) m rebound)
  end.

(** What has been resolved of a library's imports: where each comes from, the slots they added, and the
    library's own symbols, known once it exists: (import position, export name, is a function). *)
Record Resolved := mk_resolved {
  rs_sources : list Source;
  rs_slots : list (Z * Provider);
  rs_own : list (nat * str * bool);
}.

Definition weak_import (info : DylinkInfo) (m field : str) : bool :=
  bool_decide ((m, field) ∈ di_weak_imports info) ||
  (starts_with (lit "GOT.") m && bool_decide ((lit "env", field) ∈ di_weak_imports info)).

Section resolve.
Context (lib_name : str) (base table_base : Z) (p : Prepared).

Definition undefined {A} (what sym note : str) : io St A :=
  fail (lib_name ++ lit ": undefined " ++ what ++ lit ": " ++ sym ++ note).

(** An import: its source, the slots so far, and whether it is one of the library's own symbols. *)
Definition resolve_import (import : Import) (slots : list (Z * Provider)) : io St (Source * list (Z * Provider) * option bool) :=
  let m := im_module import in
  let sym := im_name import in
  let weak := weak_import (pp_info p) m sym in
  s ← get;
  let log := st_log s in
  if decide (m = lit "env" ∧ sym = lit "memory") then mret (SMemory, slots, None)
  else if decide (m = lit "env" ∧ sym = TABLE) then mret (STable, slots, None)
  else if decide (m = lit "env" ∧ sym = lit "__stack_pointer") then mret (StackPointer, slots, None)
  else if decide (m = lit "env" ∧ sym = lit "__memory_base") then mret (Const (as_i32 base), slots, None)
  else if decide (m = lit "env" ∧ sym = lit "__table_base") then mret (Const (as_i32 table_base), slots, None)
  else if decide (m = lit "GOT.mem") then
    match find log sym KGlobal with
    | Some provider =>
        a ← context (data_address (th_view (st_thread s)) log provider) (sym ++ lit ": no address");
        mret (Got a, slots, None)
    | None =>
        if exports_kind (pp_module p) sym KGlobal then mret (Got 0, slots, Some false)
        else if bool_decide (sym = lit "__dso_handle") then mret (Got (as_i32 base), slots, None)
        else if weak then mret (Got 0, slots, None)
        else undefined (lit "symbol") sym (lit " (data)")
    end
  else if decide (m = lit "GOT.func") then
    match find log sym KFunc with
    | Some provider => '(index, slots) ← function_index provider slots; mret (Got index, slots, None)
    | None =>
        if exports_kind (pp_module p) sym KFunc then mret (Got 0, slots, Some true)
        else if weak then mret (Got 0, slots, None)
        else undefined (lit "symbol") sym (lit " (function)")
    end
  else if decide (m = lit "env") then
    match im_kind import with
    | KFunc =>
        if bool_decide ((false, sym) ∈ pp_rebound p) then mret (Own, slots, None)
        else match find log sym KFunc with
             | Some provider => mret (Export provider, slots, None)
             | None => if weak then mret (Missing sym, slots, None) else undefined (lit "symbol") sym []
             end
    | KTag =>
        if bool_decide ((true, sym) ∈ pp_rebound p) then mret (Own, slots, None)
        else match find log sym KTag with
             | Some provider => mret (Export provider, slots, None)
             | None => undefined (lit "tag") sym []
             end
    | KGlobal =>
        match find log sym KGlobal with
        | Some provider => mret (Export provider, slots, None)
        | None => undefined (lit "global") sym []
        end
    | _ => fail (lib_name ++ lit ": unsupported import " ++ m ++ lit "." ++ sym)
    end
  else fail (lib_name ++ lit ": unsupported import " ++ m ++ lit "." ++ sym).

Fixpoint resolve_imports (imports : list Import) (position : nat) (r : Resolved) : io St Resolved :=
  match imports with
  | [] => mret r
  | import :: imports =>
      '(source, slots, own) ← resolve_import import (rs_slots r);
      resolve_imports imports (S position)
        (mk_resolved (rs_sources r ++ [source]) slots
           match own with Some f => rs_own r ++ [(position, im_name import, f)] | None => rs_own r end)
  end.

(** The library's own symbols, now that it exists: the value of each GOT entry. *)
Definition own_value (index : nat) (instance : Instance_) (sym : str) (is_function : bool) (slots : list (Z * Provider)) :
    io St (Z * list (Z * Provider)) :=
  if is_function then
    f ← context (instance_func (in_module instance) (in_index instance) (in_sources instance) sym) (lit "own function");
    at_ ← add_slot f (Library_ index sym);
    mret (as_i32 at_, slots ++ [(at_, Library_ index sym)])
  else
    g ← context (instance_global (in_module instance) (in_index instance) (in_sources instance) sym) (lit "own data");
    mret (as_i32 (base + g), slots).

Fixpoint bind_own (index : nat) (instance : Instance_) (own : list (nat * str * bool)) (r : Resolved) : io St Resolved :=
  match own with
  | [] => mret r
  | (position, sym, is_function) :: own =>
      '(value, slots) ← own_value index instance sym is_function (rs_slots r);
      bind_own index instance own (mk_resolved (<[position := Got value]> (rs_sources r)) slots (rs_own r))
  end.
End resolve.

(** The alignment, and the library's first table slot. *)
Definition table_base_of (before : Z) (info : DylinkInfo) : Z :=
  let align := Z.max (di_table_align info) 1 in
  u32 ((before + align - 1) / align * align).

Definition tls_of (m : Module_) (index : option nat) (srcs : list Source) : option (Z * Z) :=
  match instance_global m index srcs (lit "__tls_size"), instance_global m index srcs (lit "__tls_align") with
  | Some size, Some align => if 0 <? u32 size then Some (u32 size, Z.max (u32 align) 1) else None
  | _, _ => None
  end.

(** Linking and instantiating what was prepared, and logging it. *)
Definition link (base : Z) (lib_name : str) (is_global : bool) (p : Prepared) : io St Z :=
  t ← on_view main_table;
  before ← on_view size;
  let table_base := table_base_of before (pp_info p) in
  _ ← on_view (grow t (u32 (table_base - before + di_table_size (pp_info p))) None);
  r ← resolve_imports lib_name base table_base p (module_imports (pp_module p)) 0 (mk_resolved [] [] []);
  _ ← on_view (externs (pp_module p) (rs_sources r));
  s ← get;
  let index := length (libraries (st_log s)) in
  let instance := mk_instance (pp_module p) (Some index) (rs_sources r) in
  elems ← lift (with_context lib_name (instance_elems (in_module instance) (in_index instance) (in_sources instance)));
  _ ← on_view (each write_elem elems);
  r ← bind_own base index instance (rs_own r) r;
  let instance := mk_instance (pp_module p) (Some index) (rs_sources r) in
  _ ← match instance_func (in_module instance) (in_index instance) (in_sources instance) (lit "__wasm_apply_data_relocs") with
      | Some f => lift (call f [])
      | None => mret tt
      end;
  s ← get;
  let log := st_log s in
  let after := Z.of_nat (length (v_table (th_view (st_thread s)))) in
  let l := mk_library lib_name (pp_module p) base before (u32 after) (rs_sources r) (rs_slots r) is_global
             (tls_of (in_module instance) (in_index instance) (in_sources instance)) in
  let log := mk_log (events log ++ [Load l]) (libraries log ++ [l]) (Some (u32 after)) (slotted log) in
  _ ← set_log log;
  _ ← on_view (push_instance instance);
  s ← get;
  let th := st_thread s in
  _ ← set_thread (mk_thread (th_view th) (length (events log)) (tls_pending th) (loading th) (next_id th) (last_error th) (main_index th));
  mret (as_i32 (Z.of_nat index + 1)).

Definition instantiate (id base : Z) (lib_name : str) (is_global : bool) : io St Z :=
  p ← prepare id lib_name;
  link base lib_name is_global p.

(** *** dlsym and threads *)

(** Where a name is looked for: everywhere, or in one library. *)
Definition candidate (log : DlLog) (handle : Z) (n : str) : result Failure (option Provider) :=
  if handle =? 0 then
    Ok (if bool_decide (is_Some (module_export (p_module prog) n)) then Some (Main n)
        else find_library (libraries log) 0 n (λ l, bool_decide (is_Some (module_export (lib_module l) n))))
  else
    let index := Z.to_nat (handle - 1) in
    match (if handle <? 1 then None else libraries log !! index) with
    | None => Err (Failed (lit "no such library"))
    | Some l => Ok (if bool_decide (is_Some (module_export (lib_module l) n)) then Some (Library_ index n) else None)
    end.

Definition sym (handle : Z) (n : str) : io St (option (Z * bool)) :=
  _ ← catch_up;
  s ← get;
  found ← lift (candidate (st_log s) handle n);
  match found with
  | None => mret None
  | Some provider =>
      match export (th_view (st_thread s)) provider with
      | Some KFunc =>
          '(index, added) ← function_index provider [];
          s ← get;
          let log := st_log s in
          let th := st_thread s in
          let log := mk_log (events log ++ ((λ x, Slot x.1 x.2) <$> added)) (libraries log) (table_size log) (slotted log) in
          match added with
          | [] => set_log log ≫= λ _, mret (Some (index, false))
          | _ =>
              _ ← set_log (mk_log (events log) (libraries log) (Some (u32 (Z.of_nat (length (v_table (th_view th)))))) (slotted log));
              _ ← set_thread (mk_thread (th_view th) (length (events log)) (tls_pending th) (loading th) (next_id th) (last_error th) (main_index th));
              mret (Some (index, true))
          end
      | Some KGlobal => mret ((λ a, (a, false)) <$> data_address (th_view (st_thread s)) (st_log s) provider)
      | _ => mret None
      end
  end.

(** The guest's memory. *)
Definition read_guest (address len : Z) : io St (list Z) :=
  s ← get; context (guest_bytes (st_memory s) address len) (lit "guest memory out of bounds").
Definition write_guest (address : Z) (bytes : list Z) : io St unit :=
  λ s, match write_memory (st_memory s) address bytes with
       | Ok m => (Ok tt, mk_st (st_log s) (st_thread s) m)
       | Err _ => (Err (Failed (lit "guest memory out of bounds")), s)
       end.

(** A library's thread-local storage, as the C library hears of it. *)
Definition tls_entry (log : DlLog) (index : nat) : list Z :=
  let '(size, align) := default (0, 1) (l ← libraries log !! index; tls l) in
  le_bytes 4 (u32 (Z.of_nat index + 1)) ++ le_bytes 4 size ++ le_bytes 4 align.

Definition sync (out cap : Z) : io St Z :=
  _ ← catch_up;
  s ← get;
  let th := st_thread s in
  let n := Nat.min (length (tls_pending th)) (Z.to_nat cap) in
  let pending := take n (tls_pending th) in
  _ ← set_thread (mk_thread (th_view th) (applied th) (drop n (tls_pending th)) (loading th) (next_id th) (last_error th) (main_index th));
  _ ← write_guest out (mjoin (tls_entry (st_log s) <$> pending));
  mret (Z.of_nat (length pending)).
(** ** The calls *)

(** A failure becomes the thread's error and -1; a trap passes through. *)
Definition guarded (body : io St Z) : io St Z := λ s,
  match body s with
  | (Err (Failed e), s) =>
      let th := st_thread s in
      (Ok (-1), mk_st (st_log s) (mk_thread (th_view th) (applied th) (tls_pending th) (loading th) (next_id th) e (main_index th)) (st_memory s))
  | r => r
  end.

Definition SYSCALL : Z := 0x7d000000.

Definition load (bytes len info : Z) : io St Z :=
  bytes ← read_guest (u32 bytes) (u32 len);
  dylink ← lift (anyhow (parse_dylink bytes));
  _ ← write_guest (u32 info)
        (mjoin (le_bytes 4 <$> [di_mem_size dylink; Z.max (di_mem_align dylink) 1; di_table_size dylink; Z.of_nat (length (di_needed dylink))]));
  s ← get;
  let th := st_thread s in
  let id := as_i32 (next_id th + 1) in
  _ ← set_thread (mk_thread (th_view th) (applied th) (tls_pending th) (<[id := mk_pending bytes dylink]> (loading th)) id (last_error th) (main_index th));
  mret id.

(** The text, cut to what fits ([cap as usize] of a negative number is larger than any text). *)
Definition cut (text : str) (cap : Z) : str := if cap <? 0 then text else take (Z.to_nat cap) text.

Definition needed (id i buf cap : Z) : io St Z :=
  s ← get;
  n ← context (pending ← loading (st_thread s) !! id; if i <? 0 then None else di_needed (pn_info pending) !! Z.to_nat i)
        (lit "no such needed library");
  _ ← write_guest (u32 buf) (cut n cap);
  mret (as_i32 (Z.of_nat (length n))).

(** Everything before a library is linked: what can fail without a trace. *)
Definition begin_load (id name len : Z) : io St (str * Prepared) :=
  n ← read_guest (u32 name) (u32 len);
  let n := from_utf8_lossy n in
  p ← prepare id n;
  mret (n, p).

Definition library_instance (handle : Z) : io St Instance_ :=
  s ← get;
  context (if handle <? 1 then None else v_instances (th_view (st_thread s)) !! Z.to_nat (handle - 1)) (lit "no such library").

Definition init (handle : Z) : io St Z :=
  i ← library_instance handle;
  _ ← match instance_func (in_module i) (in_index i) (in_sources i) (lit "__wasm_call_ctors") with
      | Some ctors => lift (call ctors [])
      | None => mret tt
      end;
  mret 0.

Definition init_tls (handle block : Z) : io St Z :=
  i ← library_instance handle;
  f ← context (instance_func (in_module i) (in_index i) (in_sources i) (lit "__wasm_init_tls")) (lit "the library has no __wasm_init_tls");
  _ ← lift (call f [block]);
  mret 0.

Definition dlsym (handle name len out : Z) : io St Z :=
  n ← read_guest (u32 name) (u32 len);
  let n := from_utf8_lossy n in
  found ← sym handle n;
  match found with
  | Some (value, grew) => _ ← write_guest (u32 out) (le_bytes 4 (u32 value)); mret (if grew : bool then 1 else 0)
  | None => fail (n ++ lit ": no such symbol")
  end.

(** [error]: not guarded, a bad address fails the call itself. *)
Definition error_text (buf cap : Z) : io St Z :=
  s ← get;
  let text := last_error (st_thread s) in
  _ ← write_guest (u32 buf) (cut text cap);
  mret (as_i32 (Z.of_nat (length text))).

Definition params (slot : Z) : io St Z :=
  _ ← on_view main_table;
  s ← get;
  match v_table (th_view (st_thread s)) !! Z.to_nat slot with
  | Some (Some f) =>
      match fn_params f with
      | Some n => mret n
      | None => fail (lit "table slot " ++ decimal slot ++ lit ": not a function of i32 parameters and an i32 result")
      end
  | _ => fail (lit "no function in table slot " ++ decimal slot)
  end.

(** The calls by number; the arguments are the guest's registers. *)
Definition dylink_call (op a0 a1 a2 a3 a4 : Z) : io St Z :=
  if op =? 0 then guarded (load a0 a1 a2)
  else if op =? 1 then guarded (needed a0 a1 a2 a3)
  else if op =? 2 then guarded ('(n, p) ← begin_load a0 a2 a3; link (u32 a1) n (negb (a4 =? 0)) p)
  else if op =? 3 then guarded (init a0)
  else if op =? 4 then guarded (dlsym a0 a1 a2 a3)
  else if op =? 5 then guarded (sync (u32 a0) (u32 a1))
  else if op =? 6 then guarded (init_tls a0 a1)
  else if op =? 7 then error_text a0 a1
  else if op =? 8 then guarded (params (u32 a0))
  else guarded (t ← on_view main_table; mret (as_i32 (mt_minimum t))).
Definition syscall (nr a0 a1 a2 a3 a4 : Z) : option (io St Z) :=
  let op := as_i32 (nr - SYSCALL) in
  if (0 <=? op) && (op <? 10) then Some (dylink_call op a0 a1 a2 a3 a4) else None.

(** ** A process *)

Record Process := mk_process { pr_log : DlLog; pr_threads : gmap nat Thread }.

(** A copy of the process, for fork: the log, and one thread. *)
Definition fork (p : Process) (t : nat) : Process := mk_process (pr_log p) {[ t := thread_new ]}.

(** A call of a thread: its number and arguments, the state it starts in and the one it leaves. *)
Record Call := mk_call { c_number : Z; c_a0 : Z; c_a1 : Z; c_a2 : Z; c_a3 : Z; c_a4 : Z; c_before : St; c_after : St }.

(** What happens in a process: a thread makes a call (its memory is anything), starts or ends. Which calls
    are considered, of all there are, is [counted]; [λ _, True] for every one. *)
Inductive step (counted : Call → Prop) : Process → Process → Prop :=
  | step_call p t th m nr a0 a1 a2 a3 a4 m_ r s :
      pr_threads p !! t = Some th →
      syscall nr a0 a1 a2 a3 a4 = Some m_ →
      m_ (mk_st (pr_log p) th m) = (r, s) →
      counted (mk_call nr a0 a1 a2 a3 a4 (mk_st (pr_log p) th m) s) →
      step counted p (mk_process (st_log s) (<[t := st_thread s]> (pr_threads p)))
  | step_start p t :
      pr_threads p !! t = None → step counted p (mk_process (pr_log p) (<[t := thread_new]> (pr_threads p)))
  | step_end p t : step counted p (mk_process (pr_log p) (delete t (pr_threads p))).

Inductive reachable (counted : Call → Prop) : Process → Prop :=
  | reachable_new t : reachable counted (mk_process log_default {[ t := thread_new ]})
  | reachable_step p p' : reachable counted p → step counted p p' → reachable counted p'
  | reachable_fork p t : reachable counted p → reachable counted (fork p t).

(** A load that got as far as linking went through. *)
Definition links (op a0 a1 a2 a3 a4 : Z) (s : St) : Prop :=
  op = 2 → ∀ n p s', begin_load a0 a2 a3 s = (Ok (n, p), s') →
  is_Some (match (link (u32 a1) n (negb (a4 =? 0)) p s').1 with Ok h => Some h | Err _ => None end).

(** The elements of the n-th library stay in the slots it asked for. *)
Definition tidy (index : nat) (l : Library) : Prop :=
  ∀ elems, instance_elems (lib_module l) (Some index) (sources l) = Ok elems →
    Forall (λ e, table_before l <= e.1 < table_after l - Z.of_nat (length (slots l))) elems.
Definition tidy_log (log : DlLog) : Prop := ∀ i l, libraries log !! i = Some l → tidy i l.

(** The calls among which no load fails once it started to link, and whose libraries keep to the slots
    they asked for. A load that fails before that, and every other call that fails, is one of them. *)
Definition no_load_fails_linking (c : Call) : Prop :=
  links (as_i32 (c_number c - SYSCALL)) (c_a0 c) (c_a1 c) (c_a2 c) (c_a3 c) (c_a4 c) (c_before c) ∧ tidy_log (st_log (c_after c)).
End dylink.

(** ** Reading dylink.0 *)

Lemma uleb_loop_progress data acc shift v rest : uleb_loop data acc shift = Ok (v, rest) → (length rest < length data)%nat.
Proof.
  revert acc shift. induction data as [|b data IH]; intros acc shift; [done|]. cbn [uleb_loop].
  destruct (_ =? 0); [destruct (_ <? _); [intros [= _ <-]; simpl; lia|done]|].
  destruct (35 <? _); [done|]. intros H%IH. simpl. lia.
Qed.

Lemma name_progress data n rest : name data = Ok (n, rest) → (length rest < length data)%nat.
Proof.
  unfold name. intros ([len data'] & Hu & H)%result_bind_Ok. apply uleb_loop_progress in Hu.
  case_bool_decide; [|done]. injection H as _ <-. rewrite length_drop. lia.
Qed.

Lemma uleb_loop_known data acc shift : uleb_loop data acc shift ≠ Err (lit "out of fuel").
Proof.
  revert acc shift. induction data as [|b data IH]; intros acc shift; [done|]. cbn [uleb_loop].
  destruct (_ =? 0); [by destruct (_ <? _)|]. destruct (35 <? _); [done|]. apply IH.
Qed.

Lemma name_known data : name data ≠ Err (lit "out of fuel").
Proof.
  unfold name. intros [H|([len d] & _ & H)]%result_bind_Err; [by apply uleb_loop_known in H|].
  by case_bool_decide.
Qed.

(** The fuel of a list is enough when every item reads a byte. *)
Lemma times_ends {A} (read : list Z → A → result str (A * list Z)) fuel n data acc :
  (∀ data acc acc' rest, read data acc = Ok (acc', rest) → (length rest < length data)%nat) →
  (∀ data acc, read data acc ≠ Err (lit "out of fuel")) →
  (length data < fuel)%nat → times fuel read n data acc ≠ Err (lit "out of fuel").
Proof.
  intros Hp He. revert n data acc. induction fuel as [|fuel IH]; intros n data acc Hf; [lia|].
  cbn [times]. destruct (n =? 0); [done|].
  intros [H|([acc' rest] & Hr & H)]%result_bind_Err; [by apply He in H|].
  apply Hp in Hr. revert H. apply IH. lia.
Qed.

Lemma read_needed_progress data info info' rest : read_needed data info = Ok (info', rest) → (length rest < length data)%nat.
Proof. unfold read_needed. intros ([n d] & Hn & [= _ <-])%result_bind_Ok. by apply name_progress in Hn. Qed.

Lemma read_needed_known data info : read_needed data info ≠ Err (lit "out of fuel").
Proof. unfold read_needed. intros [H|([n d] & _ & H)]%result_bind_Err; [by apply name_known in H|done]. Qed.

Lemma read_import_progress data info info' rest : read_import data info = Ok (info', rest) → (length rest < length data)%nat.
Proof.
  unfold read_import. intros ([n d] & Hn & ([f d2] & Hf & ([x d3] & Hx & [= _ <-])%result_bind_Ok)%result_bind_Ok)%result_bind_Ok.
  apply name_progress in Hn, Hf. apply uleb_loop_progress in Hx. lia.
Qed.

Lemma read_import_known data info : read_import data info ≠ Err (lit "out of fuel").
Proof.
  unfold read_import. intros [H|([n d] & _ & [H|([f d2] & _ & [H|([x d3] & _ & H)]%result_bind_Err)]%result_bind_Err)]%result_bind_Err;
    [by apply name_known in H..|by apply uleb_loop_known in H|done].
Qed.

Lemma subsection_known kind data info : subsection kind data info ≠ Err (lit "out of fuel").
Proof.
  unfold subsection. destruct (kind =? 1).
  - intros [H|([a d] & _ & [H|([b d2] & _ & [H|([c d3] & _ & [H|([e d4] & _ & H)]%result_bind_Err)]%result_bind_Err)]%result_bind_Err)]%result_bind_Err;
      [by apply uleb_loop_known in H..|done].
  - destruct (kind =? 2), (kind =? 4); try done;
      (intros [H|([n d] & _ & H)]%result_bind_Err; [by apply uleb_loop_known in H|]); revert H; apply times_ends;
      eauto using read_needed_progress, read_needed_known, read_import_progress, read_import_known.
Qed.

(** Reading a section always ends. *)
Lemma parse_subsections_ends fuel data info :
  (length data < fuel)%nat → parse_subsections fuel data info ≠ Err (lit "out of fuel").
Proof.
  revert data info. induction fuel as [|fuel IH]; intros data info Hf; [lia|]. cbn [parse_subsections].
  destruct data as [|kind data]; [done|].
  intros [H|([len d] & Hu & [H|(info' & _ & H)]%result_bind_Err)]%result_bind_Err;
    [by apply uleb_loop_known in H|by apply subsection_known in H|].
  apply uleb_loop_progress in Hu. revert H. apply IH. rewrite length_drop. simpl in Hf. lia.
Qed.

(** ** Tables *)

Section tables.
Context {F : Type}.

Definition write_elems (es : list (Z * F)) (t : list (option F)) : list (option F) :=
  foldl (λ t e, <[Z.to_nat e.1 := Some e.2]> t) t es.

Lemma length_write_elems es t : length (write_elems es t) = length t.
Proof. revert t. induction es as [|e es IH]; intros t; [done|]. simpl. by rewrite IH, length_insert. Qed.

(** Elements that lie in the first part leave the second alone, and those past a prefix the prefix. *)
Lemma write_elems_app es a b :
  Forall (λ e, 0 <= e.1 < Z.of_nat (length a)) es → write_elems es (a ++ b) = write_elems es a ++ b.
Proof.
  intros H. revert a H. induction es as [|e es IH]; intros a H; [done|].
  apply Forall_cons in H as [He H]. simpl. rewrite insert_app_l by lia. apply IH. by rewrite length_insert.
Qed.

Lemma write_elems_prefix es a b :
  Forall (λ e, Z.of_nat (length a) <= e.1) es → a `prefix_of` write_elems es (a ++ b).
Proof.
  intros H. revert b. induction H as [|e es He _ IH]; intros b; [by exists b|].
  simpl. rewrite insert_app_r_alt by lia. apply IH.
Qed.
End tables.

(** ** State passing *)

Lemma io_bind_Ok {S A B} (m : io S A) (f : A → io S B) s b s' :
  (m ≫= f) s = (Ok b, s') ↔ ∃ a s1, m s = (Ok a, s1) ∧ f a s1 = (Ok b, s').
Proof.
  unfold mbind, io_bind. destruct (m s) as [[a|e] s1]; split.
  - intros H. by exists a, s1.
  - by intros (? & ? & [= <- <-] & H).
  - done.
  - by intros (? & ? & ? & _).
Qed.

Lemma io_bind_Err {S A B} (m : io S A) (f : A → io S B) s e s' :
  (m ≫= f) s = (Err e, s') ↔ m s = (Err e, s') ∨ ∃ a s1, m s = (Ok a, s1) ∧ f a s1 = (Err e, s').
Proof.
  unfold mbind, io_bind. destruct (m s) as [[a|e'] s1]; split.
  - intros H. right. by exists a, s1.
  - by intros [?|(? & ? & [= <- <-] & H)].
  - intros [= <- <-]. by left.
  - by intros [[= <- <-]|(? & ? & ? & _)].
Qed.

Lemma io_step {S A B} (m : io S A) (f : A → io S B) s a s1 : m s = (Ok a, s1) → (m ≫= f) s = f a s1.
Proof. unfold mbind, io_bind. by intros ->. Qed.

Lemma each_app {S A} (f : A → io S unit) l1 l2 s s' :
  each f (l1 ++ l2) s = (Ok tt, s') ↔ ∃ s1, each f l1 s = (Ok tt, s1) ∧ each f l2 s1 = (Ok tt, s').
Proof.
  revert s. induction l1 as [|a l1 IH]; intros s; simpl.
  - split; [intros H; by exists s|by intros (? & [= <-] & H)].
  - rewrite io_bind_Ok. setoid_rewrite io_bind_Ok. setoid_rewrite IH. split.
    + intros ([] & s1 & Ha & s2 & H1 & H2). exists s2. split; [by exists tt, s1|done].
    + intros (s2 & ([] & s1 & Ha & H1) & H2). exists tt, s1. split; [done|by exists s2].
Qed.
