(* ===== verification/DylinkThreads.v ===== *)
(** * The threads of a process agree on its libraries

    Whatever loads and lookups happen in whatever threads (Dylink.v), replaying the log gives every
    thread the same table: where two threads have an entry, it is the same function.  A load that fails
    after it started to link is another matter ([no_load_fails_linking]): it leaves its thread's table
    behind the log's, which [failed_load_desynchronizes] shows. *)
From stdpp Require Import strings list gmap.
From S2P Require Import Prelude Memory Str ModuleInfo Dylink.

Local Open Scope Z_scope.

(** The same imports, but for the values of GOT entries, which are mutable globals. *)
Definition same_source (a b : Source) : Prop :=
  match a, b with Got _, Got _ => True | _, _ => a = b end.
Definition same_sources : list Source → list Source → Prop := Forall2 same_source.

(** Only immutable globals count in the constant expressions an instance starts with, and which function
    an export is does not depend on any global. *)
Class WasmtimeLaws `{Wasmtime} : Prop := {
  elems_got m i s1 s2 : same_sources s1 s2 → instance_elems m i s1 = instance_elems m i s2;
  func_got m i s1 s2 n : same_sources s1 s2 → instance_func m i s1 n = instance_func m i s2 n;
}.

(** Rewriting one step of a computation, in a hypothesis and in the goal. *)
Ltac io_inv H :=
  apply io_bind_Ok in H as (? & ? & ? & H).

Section threads.
Context {WP : Wasmparser} {W : Wasmtime} {WL : WasmtimeLaws} (prog : Program).

(** Tables have 32-bit sizes. *)
Definition program_ok : Prop :=
  ∀ t, p_table prog = Some t → Z.of_nat (length (mt_initial t)) <= mt_maximum t < 4294967296.

#[local] Instance same_source_refl : Reflexive same_source.
Proof. by intros []. Qed.
#[local] Instance same_source_trans : Transitive same_source.
Proof. intros [] [] []; simpl; congruence || done. Qed.

(** ** Tables *)

Lemma grow_Ok t n f v old v' :
  grow t n f v = (Ok old, v') ↔
  old = Z.of_nat (length (v_table v)) ∧ old + n <= mt_maximum t ∧
  v' = mk_view (v_table v ++ replicate (Z.to_nat n) f) (v_instances v).
Proof.
  unfold grow, get, mbind, io_bind, put, mret, io_ret. cbv zeta.
  destruct (Z.ltb_spec (mt_maximum t) (Z.of_nat (length (v_table v)) + n)); cbn.
  - split; [done|intros (? & ? & _); lia].
  - split; [intros [= <- <-]; split_and!; [done|lia|done]|by intros (-> & _ & ->)].
Qed.

Lemma table_set_Ok i f v v' :
  table_set i f v = (Ok tt, v') ↔
  0 <= i < Z.of_nat (length (v_table v)) ∧ v' = mk_view (<[Z.to_nat i := Some f]> (v_table v)) (v_instances v).
Proof.
  unfold table_set, get, mbind, io_bind, put. cbn.
  destruct (Z.leb_spec 0 i), (Z.ltb_spec i (Z.of_nat (length (v_table v)))); cbn;
    (split; [intros H'|intros [? ->]]); try done; try lia. injection H' as <-. split; [lia|done].
Qed.

Lemma write_elem_Ok e v v' : write_elem e v = (Ok tt, v') ↔ table_set e.1 e.2 v = (Ok tt, v').
Proof.
  unfold write_elem, get, mbind, io_bind. cbn. destruct (_ && _) eqn:E; [done|].
  rewrite table_set_Ok. split; [done|]. intros [? _]. exfalso.
  apply andb_false_iff in E as [?%Z.leb_gt|?%Z.ltb_ge]; lia.
Qed.

Lemma write_elems_Ok es v v' :
  each write_elem es v = (Ok tt, v') ↔
  Forall (λ e, 0 <= e.1 < Z.of_nat (length (v_table v))) es ∧ v' = mk_view (write_elems es (v_table v)) (v_instances v).
Proof.
  revert v. induction es as [|e es IH]; intros v; simpl.
  - split; [intros [= <-]; split; [done|by destruct v]|intros [_ ->]; by destruct v].
  - rewrite io_bind_Ok, Forall_cons. split.
    + intros ([] & v1 & H%write_elem_Ok%table_set_Ok & [Hf ->]%IH). destruct H as [He ->].
      simpl in *. rewrite length_insert in Hf. done.
    + intros [[He Hf] ->]. eexists tt, _. split; [by apply write_elem_Ok, table_set_Ok|].
      apply IH. simpl. by rewrite length_insert.
Qed.

(** ** Functions of instances *)

Definition func_of (ins : list Instance_) (p : Provider) : option Fn := export_func prog (mk_view [] ins) p.

Lemma export_func_view v p : export_func prog v p = func_of (v_instances v) p.
Proof. done. Qed.

Lemma func_of_app ins ins' p f : func_of ins p = Some f → func_of (ins ++ ins') p = Some f.
Proof.
  unfold func_of, export_func, provided. destruct p as [n|i n]; [done|]. cbn [v_instances].
  destruct (ins !! i) as [x|] eqn:E; [|done]. by rewrite (lookup_app_l_Some _ _ _ _ E).
Qed.

Lemma func_of_last ins m i s n f :
  module_export m n = Some KFunc → instance_func m i s n = Some f →
  func_of (ins ++ [mk_instance m i s]) (Library_ (length ins) n) = Some f.
Proof.
  intros He Hf. unfold func_of, export_func, provided. cbn [v_instances].
  rewrite list_lookup_middle by done. cbn [mbind option_bind]. cbn. by rewrite bool_decide_eq_true_2.
Qed.

Lemma func_of_same ins m i s1 s2 p f :
  same_sources s1 s2 → func_of (ins ++ [mk_instance m i s1]) p = Some f → func_of (ins ++ [mk_instance m i s2]) p = Some f.
Proof.
  intros Hs. unfold func_of, export_func, provided. destruct p as [n|k n]; [done|]. cbn [v_instances].
  destruct (decide (k < length ins)%nat) as [Hk|Hk]; [by rewrite !lookup_app_l by done|].
  rewrite !lookup_app_r by lia. destruct (k - length ins)%nat; [|done]. cbn.
  case_bool_decide; [|done]. by rewrite (func_got _ _ _ _ _ Hs).
Qed.

(** The slots of a part of the table that starts at [start], and the functions they hold. *)
Fixpoint fills (ins : list Instance_) (start : nat) (sl : list (Z * Provider)) (fs : list Fn) : Prop :=
  match sl, fs with
  | [], [] => True
  | (i, p) :: sl, f :: fs => i = Z.of_nat start ∧ func_of ins p = Some f ∧ fills ins (S start) sl fs
  | _, _ => False
  end.

Lemma fills_length ins start sl fs : fills ins start sl fs → length sl = length fs.
Proof.
  revert start fs. induction sl as [|[i p] sl IH]; intros start [|f fs]; try done.
  intros (_ & _ & H). simpl. by rewrite (IH _ _ H).
Qed.

Lemma fills_snoc ins start sl fs p f :
  fills ins start sl fs → func_of ins p = Some f →
  fills ins start (sl ++ [(Z.of_nat (start + length fs), p)]) (fs ++ [f]).
Proof.
  revert start fs. induction sl as [|[i q] sl IH]; intros start [|g fs]; try done.
  - intros _ Hf. simpl. by rewrite Nat.add_0_r.
  - intros (-> & Hg & H) Hf. simpl. split_and!; [done|done|].
    replace (start + S (length fs))%nat with (S start + length fs)%nat by lia. by apply IH.
Qed.

Lemma fills_impl ins ins' start sl fs :
  (∀ p f, func_of ins p = Some f → func_of ins' p = Some f) → fills ins start sl fs → fills ins' start sl fs.
Proof.
  intros Hi. revert start fs. induction sl as [|[i p] sl IH]; intros start [|f fs]; try done.
  intros (-> & Hf & H). split_and!; [done|by apply Hi|by apply IH].
Qed.

Lemma fills_lookup ins start sl fs i p :
  fills ins start sl fs → (i, p) ∈ sl →
  ∃ k f, i = Z.of_nat (start + k) ∧ fs !! k = Some f ∧ func_of ins p = Some f.
Proof.
  revert start fs. induction sl as [|[j q] sl IH]; intros start [|f fs]; try done; [by intros _ ?%not_elem_of_nil|].
  intros (-> & Hf & H) [[= -> ->]|Hin]%elem_of_cons.
  - exists 0%nat, f. split_and!; [lia|done|done].
  - destruct (IH _ _ H Hin) as (k & g & -> & Hk & Hg). exists (S k), g. split_and!; [lia|done|done].
Qed.

Lemma fill_slots sl fs a ins :
  fills ins (length a) sl fs →
  each (fill_slot prog) sl (mk_view (a ++ replicate (length sl) None) ins) = (Ok tt, mk_view (a ++ (Some <$> fs)) ins).
Proof.
  revert a fs. induction sl as [|[i p] sl IH]; intros a [|f fs]; try done.
  intros (-> & Hf & H). cbn [each length replicate].
  assert (fill_slot prog (Z.of_nat (length a), p) (mk_view (a ++ None :: replicate (length sl) None) ins) =
          (Ok tt, mk_view ((a ++ [Some f]) ++ replicate (length sl) None) ins)) as Hs.
  { unfold fill_slot. erewrite io_step by done. cbn [fst snd]. rewrite export_func_view. cbn [v_instances]. rewrite Hf.
    erewrite io_step by done. apply table_set_Ok. cbn [v_table v_instances]. rewrite length_app. split; [simpl; lia|].
    rewrite Nat2Z.id, insert_app_r_alt, Nat.sub_diag, <-app_assoc by done. done. }
  erewrite io_step by exact Hs. rewrite (IH _ fs).
  - by rewrite fmap_cons, <-app_assoc.
  - by rewrite length_app, Nat.add_comm.
Qed.
(** ** Linking

    While a library is linked in a thread, its table is a first part and then the slots its imports add,
    which hold what they say unless ([ok]) an element of the library was written over them. *)
Record grown (ok : Prop) (s0 : St) (ins : list Instance_) (table : list (option Fn)) (sl : list (Z * Provider)) (fs : list Fn) (s : St) : Prop := {
  gr_events : events (st_log s) = events (st_log s0);
  gr_libraries : libraries (st_log s) = libraries (st_log s0);
  gr_applied : applied (st_thread s) = applied (st_thread s0);
  gr_instances : v_instances (th_view (st_thread s)) = v_instances (th_view (st_thread s0));
  gr_table : v_table (th_view (st_thread s)) = table ++ (Some <$> fs);
  gr_length : length sl = length fs;
  gr_bound t : p_table prog = Some t → Z.of_nat (length table + length fs) <= mt_maximum t;
  gr_fills : ok → fills ins (length table) sl fs;
  gr_slotted p i : slotted (st_log s) !! p = Some i → slotted (st_log s0) !! p = Some i ∨ (i, p) ∈ sl;
}.

Lemma on_view_Ok {A} (m : io View A) s a s' :
  on_view m s = (Ok a, s') ↔
  ∃ v', m (th_view (st_thread s)) = (Ok a, v') ∧ s' = mk_st (st_log s) (set_view v' (st_thread s)) (st_memory s).
Proof.
  unfold on_view. destruct (m (th_view (st_thread s))) as [r v']. split.
  - intros [= -> <-]. by exists v'.
  - by intros (? & [= -> <-] & ->).
Qed.

Lemma context_Ok {S A} (o : option A) e (s : S) a s' : context o e s = (Ok a, s') ↔ o = Some a ∧ s' = s.
Proof. unfold context, lift. destruct o; simpl; split; [by intros [= -> ->]|by intros [[= ->] ->]|done|by intros [? _]]. Qed.

Lemma lift_Ok {S A} (r : result Failure A) (s : S) a s' : lift r s = (Ok a, s') ↔ r = Ok a ∧ s' = s.
Proof. unfold lift. split; [by intros [= -> ->]|by intros [-> ->]]. Qed.

Lemma main_table_Ok v t v' : main_table prog v = (Ok t, v') ↔ p_table prog = Some t ∧ v' = v.
Proof. apply context_Ok. Qed.

Lemma get_Ok {S} (s a s' : S) : get s = (Ok a, s') ↔ a = s ∧ s' = s.
Proof. unfold get. split; [by intros [= -> ->]|by intros [-> ->]]. Qed.

(** Whatever is written, a table stays one of that length, and filled where it was. *)
Lemma write_elems_split (es : list (Z * Fn)) table (fs : list Fn) :
  ∃ table' fs', write_elems es (table ++ (Some <$> fs)) = table' ++ (Some <$> fs') ∧ length table' = length table ∧ length fs' = length fs.
Proof.
  revert table fs. induction es as [|e es IH]; intros table fs; [by exists table, fs|]. simpl.
  destruct (decide (Z.to_nat e.1 < length table)%nat).
  - rewrite insert_app_l by done. destruct (IH (<[Z.to_nat e.1:=Some e.2]> table) fs) as (t & f & -> & Ht & Hf).
    exists t, f. by rewrite length_insert in Ht.
  - rewrite insert_app_r_alt, <-list_fmap_insert by lia.
    destruct (IH table (<[(Z.to_nat e.1 - length table)%nat:=e.2]> fs)) as (t & f & -> & Ht & Hf).
    exists t, f. by rewrite length_insert in Hf.
Qed.

Context (Hprog : program_ok).

Lemma add_slot_grown ok s0 ins table sl fs s f p i s' :
  grown ok s0 ins table sl fs s → func_of ins p = Some f → add_slot prog f p s = (Ok i, s') →
  grown ok s0 ins table (sl ++ [(i, p)]) (fs ++ [f]) s'.
Proof.
  intros G Hf H. unfold add_slot in H.
  apply io_bind_Ok in H as (t & s1 & (v1 & [Ht ->]%main_table_Ok & ->)%on_view_Ok & H).
  apply io_bind_Ok in H as (index & s2 & (v2 & (-> & Hmax & ->)%grow_Ok & ->)%on_view_Ok & H).
  apply io_bind_Ok in H as (s3 & ? & [-> ->]%get_Ok & H). cbv zeta in H.
  apply io_bind_Ok in H as ([] & s4 & [= <-] & [= <- <-]). cbn in Hmax |- *.
  pose proof (Hprog t Ht). rewrite (gr_table _ _ _ _ _ _ _ G) in Hmax |- *.
  assert (u32 (Z.of_nat (length (table ++ (Some <$> fs)))) = Z.of_nat (length table + length fs)) as ->.
  { unfold u32. rewrite Z.mod_small by lia. by rewrite length_app, length_fmap. }
  split; cbn; try apply G.
  - by rewrite fmap_app, app_assoc.
  - rewrite !length_app. simpl. by rewrite (gr_length _ _ _ _ _ _ _ G).
  - intros t' Ht'. simplify_eq. rewrite !length_app, !length_fmap in *. simpl. lia.
  - intros Hok. apply fills_snoc; [by apply G|done].
  - intros q j. destruct (decide (p = q)) as [<-|Hn].
    + rewrite lookup_insert_eq. intros [= <-]. right. apply elem_of_app. right. by apply list_elem_of_singleton.
    + rewrite lookup_insert_ne by done. intros [?|?]%(gr_slotted _ _ _ _ _ _ _ G); [by left|right].
      apply elem_of_app. by left.
Qed.

(** Looking up the program's own entries changes nothing the table depends on. *)
Lemma own_index_grown ok s0 ins table sl fs s f r s' :
  grown ok s0 ins table sl fs s → own_index prog f s = (r, s') → grown ok s0 ins table sl fs s'.
Proof.
  intros G. unfold own_index. erewrite io_step by done. cbv zeta.
  destruct (main_index (st_thread s)) as [index|].
  - erewrite io_step by done. by intros [= _ <-].
  - unfold on_view, main_table, context, lift. destruct (p_table prog); cbn; intros [= _ <-];
      (split; cbn; apply G).
Qed.

Lemma function_index_grown ok s0 table sl fs s p index sl' s' :
  grown ok s0 (v_instances (th_view (st_thread s0))) table sl fs s →
  function_index prog p sl s = (Ok (index, sl'), s') →
  ∃ fs', grown ok s0 (v_instances (th_view (st_thread s0))) table sl' fs' s'.
Proof.
  intros G H. unfold function_index in H. apply io_bind_Ok in H as (s1 & ? & [-> ->]%get_Ok & H).
  destruct (slotted _ !! p); [injection H as _ <- <-; by exists fs|].
  apply io_bind_Ok in H as (f & ? & [Hf ->]%context_Ok & H).
  rewrite export_func_view, (gr_instances _ _ _ _ _ _ _ G) in Hf.
  apply io_bind_Ok in H as (found & s2 & Hfound & H).
  assert (grown ok s0 (v_instances (th_view (st_thread s0))) table sl fs s2) as G2.
  { destruct p; [by eapply own_index_grown|by injection Hfound as _ <-]. }
  destruct found as [i|]; [injection H as _ <- <-; by exists fs|].
  apply io_bind_Ok in H as (i & s3 & Ha & [= _ <- <-]).
  exists (fs ++ [f]). by eapply add_slot_grown.
Qed.

(** An import that is one of the library's own symbols is a GOT entry for now. *)
Definition own_ok (m : Module_) (n : str) (source : Source) (own : option bool) : Prop :=
  match own with
  | Some f => source = Got 0 ∧ (f = true → module_export m n = Some KFunc)
  | None => True
  end.

(** A source that takes no slot. *)
Local Ltac plain Hret H := injection H as <- <- <- <-; eapply Hret; reflexivity.

Lemma resolve_import_grown ok s0 table sl fs s lib base tb pp import source sl' own s' :
  grown ok s0 (v_instances (th_view (st_thread s0))) table sl fs s →
  resolve_import prog lib base tb pp import sl s = (Ok (source, sl', own), s') →
  (∃ fs', grown ok s0 (v_instances (th_view (st_thread s0))) table sl' fs' s') ∧ own_ok (pp_module pp) (im_name import) source own.
Proof.
  intros G H. unfold resolve_import in H. apply io_bind_Ok in H as (s1 & ? & [-> ->]%get_Ok & H). cbv zeta in H.
  assert (∀ (r : result Failure (Source * list (Z * Provider) * option bool)),
            (r, s) = (Ok (source, sl', own), s') → r = Ok (source, sl, None) →
            (∃ fs', grown ok s0 (v_instances (th_view (st_thread s0))) table sl' fs' s') ∧ own_ok (pp_module pp) (im_name import) source own) as Hret.
  { intros r [= -> <-] [= -> ->]. split; [by exists fs|done]. }
  do 5 (case_decide; [plain Hret H|]).
  case_decide.
  { destruct (find _ _ _ KGlobal).
    - apply io_bind_Ok in H as (a & ? & [_ ->]%context_Ok & H). plain Hret H.
    - destruct (exports_kind _ _ KGlobal); [injection H as <- <- <- <-; split; [by exists fs|done]|].
      case_bool_decide; [plain Hret H|]. destruct (weak_import _ _ _); [plain Hret H|done]. }
  case_decide.
  { destruct (find _ _ _ KFunc).
    - apply io_bind_Ok in H as ([index sl1] & s1 & Hf & H). injection H as <- <- <- <-.
      split; [by eapply function_index_grown|done].
    - destruct (exports_kind _ _ KFunc) eqn:E.
      + injection H as <- <- <- <-. split; [by exists fs|]. split; [done|]. intros _.
        by apply bool_decide_eq_true in E.
      + destruct (weak_import _ _ _); [plain Hret H|done]. }
  case_decide; [|done].
  destruct (im_kind import); try done.
  - case_bool_decide; [plain Hret H|]. destruct (find _ _ _ KFunc); [plain Hret H|].
    destruct (weak_import _ _ _); [plain Hret H|done].
  - destruct (find _ _ _ KGlobal); [plain Hret H|done].
  - case_bool_decide; [plain Hret H|]. destruct (find _ _ _ KTag); [plain Hret H|done].
Qed.

Definition own_symbols_ok (m : Module_) (r : Resolved) : Prop :=
  Forall (λ o, (∃ z, rs_sources r !! o.1.1 = Some (Got z)) ∧ (o.2 = true → module_export m o.1.2 = Some KFunc)) (rs_own r).

Lemma resolve_imports_grown ok s0 table lib base tb pp imports r fs s r' s' :
  grown ok s0 (v_instances (th_view (st_thread s0))) table (rs_slots r) fs s →
  own_symbols_ok (pp_module pp) r →
  resolve_imports prog lib base tb pp imports (length (rs_sources r)) r s = (Ok r', s') →
  (∃ fs', grown ok s0 (v_instances (th_view (st_thread s0))) table (rs_slots r') fs' s') ∧
  own_symbols_ok (pp_module pp) r' ∧ length (rs_sources r') = (length (rs_sources r) + length imports)%nat.
Proof.
  revert r fs s. induction imports as [|import imports IH]; intros r fs s G Ho.
  { intros [= <- <-]. split_and!; [by exists fs|done|simpl; lia]. }
  cbn [resolve_imports]. intros ([[source sl] own] & s1 & Hi & H)%io_bind_Ok.
  destruct (resolve_import_grown _ _ _ _ _ _ _ _ _ _ _ _ _ _ _ G Hi) as [(fs1 & G1) Hown].
  assert (S (length (rs_sources r)) = length (rs_sources r ++ [source])) as Hl by (rewrite length_app; simpl; lia).
  rewrite Hl in H. clear Hi.
  eapply (IH (mk_resolved _ _ _)) in H as ((fs2 & G2) & Ho2 & Hlen); [|exact G1|].
  - split_and!; [by exists fs2|done|]. rewrite Hlen. cbn. rewrite length_app. simpl. lia.
  - assert (∀ o : nat * str * bool, (∃ z, rs_sources r !! o.1.1 = Some (Got z)) → ∃ z, (rs_sources r ++ [source]) !! o.1.1 = Some (Got z)) as Hk.
    { intros o [z Hz]. exists z. by apply lookup_app_l_Some. }
    assert (Forall (λ o, (∃ z, (rs_sources r ++ [source]) !! o.1.1 = Some (Got z)) ∧
              (o.2 = true → module_export (pp_module pp) o.1.2 = Some KFunc)) (rs_own r)) as Hold.
    { eapply Forall_impl; [exact Ho|]. intros o [? ?]. split; [by apply Hk|done]. }
    unfold own_symbols_ok. cbn. destruct own as [f|]; [|done]. apply Forall_app. split; [done|].
    apply Forall_singleton. cbn. destruct Hown as [-> Hf]. split; [|done]. exists 0. by apply list_lookup_middle.
Qed.

Lemma bind_own_grown ok s0 table base m index srcs owns r fs s r' s' :
  let ins := v_instances (th_view (st_thread s0)) ++ [mk_instance m (Some index) srcs] in
  index = length (v_instances (th_view (st_thread s0))) →
  grown ok s0 ins table (rs_slots r) fs s →
  Forall (λ o, (∃ z, rs_sources r !! o.1.1 = Some (Got z)) ∧ (o.2 = true → module_export m o.1.2 = Some KFunc)) owns →
  bind_own prog base index (mk_instance m (Some index) srcs) owns r s = (Ok r', s') →
  (∃ fs', grown ok s0 ins table (rs_slots r') fs' s') ∧ same_sources (rs_sources r) (rs_sources r').
Proof.
  intros ins Hi. revert r fs s. induction owns as [|[[position n] f] owns IH]; intros r fs s G Ho.
  { intros [= <- <-]. split; [by exists fs|]. unfold same_sources. reflexivity. }
  apply Forall_cons in Ho as [[[z Hz] Hf] Ho]. cbn in Hz, Hf. cbn [bind_own].
  intros ([value sl] & s1 & Hv & H)%io_bind_Ok.
  assert (∃ fs1, grown ok s0 ins table sl fs1 s1) as [fs1 G1].
  { unfold own_value in Hv. destruct f.
    - apply io_bind_Ok in Hv as (g & ? & [Hg ->]%context_Ok & Hv).
      apply io_bind_Ok in Hv as (at_ & s2 & Ha & Hv). injection Hv as <- <- <-.
      exists (fs ++ [g]). eapply add_slot_grown; [done| |exact Ha]. subst index. by apply func_of_last; [apply Hf|].
    - apply io_bind_Ok in Hv as (g & ? & [Hg ->]%context_Ok & Hv). injection Hv as <- <- <-. by exists fs. }
  assert (same_sources (rs_sources r) (<[position := Got value]> (rs_sources r))) as Hs.
  { rewrite <-(list_insert_id _ _ _ Hz) at 1. apply Forall2_insert; [unfold same_sources; reflexivity|done]. }
  eapply (IH (mk_resolved _ _ _)) in H as ((fs2 & G2) & Hs2); [|exact G1|].
  - split; [by exists fs2|]. by etrans.
  - eapply Forall_impl; [exact Ho|]. intros o [[y Hy] Ho']. split; [|done]. cbn.
    destruct (decide (o.1.1 = position)) as [->|Hn]; [|exists y; by rewrite list_lookup_insert_ne].
    exists value. apply list_lookup_insert_eq. by eapply lookup_lt_Some.
Qed.
Lemma each_lift_Ok {S A} (f : A → result Failure unit) l (s s' : S) :
  each (λ a, lift (f a)) l s = (Ok tt, s') ↔ s' = s ∧ Forall (λ a, f a = Ok tt) l.
Proof.
  revert s. induction l as [|a l IH]; intros s; simpl.
  - split; [by intros [= ->]|by intros [-> _]].
  - rewrite io_bind_Ok, Forall_cons. split.
    + intros ([] & s1 & [Ha ->]%lift_Ok & [-> Hl]%IH). done.
    + intros (-> & Ha & Hl). exists tt, s. split; [by apply lift_Ok|by apply IH].
Qed.

Lemma externs_Ok m srcs v v' :
  externs prog m srcs v = (Ok tt, v') ↔ v' = v ∧ Forall (λ x, extern prog v x = Ok tt) (zip (module_imports m) srcs).
Proof. unfold externs. erewrite io_step by done. apply each_lift_Ok. Qed.

(** The same imports go through in another thread that has the same instances. *)
Lemma externs_same m s1 s2 v1 v2 :
  same_sources s1 s2 → v_instances v1 = v_instances v2 →
  Forall (λ x, extern prog v1 x = Ok tt) (zip (module_imports m) s1) →
  Forall (λ x, extern prog v2 x = Ok tt) (zip (module_imports m) s2).
Proof.
  intros Hs Hv. generalize (module_imports m). induction Hs as [|a b s1 s2 Hab _ IH]; intros [|i imports]; try done.
  cbn. intros [Ha H]%Forall_cons. apply Forall_cons. split; [|by apply IH].
  destruct v1, v2. cbn in Hv. subst. destruct a, b; try (by injection Hab as ->); try discriminate Hab; done.
Qed.

Lemma with_context_Ok {A} e (r : result Failure A) a : with_context e r = Ok a ↔ r = Ok a.
Proof. destruct r as [?|[]]; done. Qed.

(** The first part of the table once the library's elements are in. *)
Lemma grown_elems s0 ins table sl fs s es s' :
  grown True s0 ins table sl fs s → on_view (each write_elem es) s = (Ok tt, s') →
  let ok := Forall (λ e : Z * Fn, e.1 < Z.of_nat (length table)) es in
  ∃ table' fs', length table' = length table ∧ (ok → table' = write_elems es table) ∧ grown ok s0 ins table' sl fs' s'.
Proof.
  intros G (v' & [Hes ->]%write_elems_Ok & ->)%on_view_Ok ok.
  destruct (write_elems_split es table fs) as (table' & fs' & Hw & Hlt & Hlf).
  exists table', fs'.
  assert (ok → table' = write_elems es table ∧ fs' = fs) as Hok.
  { intros Ho. rewrite write_elems_app in Hw.
    - apply app_inj_1 in Hw as [<- Hw%(inj (fmap Some))]; [done|by rewrite length_write_elems].
    - eapply Forall_impl; [apply Forall_and; split; [exact Hes|exact Ho]|]. cbn. intros; lia. }
  split_and!; [done|by intros []%Hok|].
  split; cbn; try apply G.
  - by rewrite (gr_table _ _ _ _ _ _ _ G).
  - rewrite Hlf. apply G.
  - rewrite Hlt, Hlf. apply G.
  - intros [-> ->]%Hok. rewrite length_write_elems. by apply G.
Qed.

Lemma grown_impl ok s0 ins ins' table sl fs s :
  (∀ p f, func_of ins p = Some f → func_of ins' p = Some f) → grown ok s0 ins table sl fs s → grown ok s0 ins' table sl fs s.
Proof. intros Hi []. split; try done. intros Hok. eapply fills_impl; eauto. Qed.

(** Replaying a library in a thread that is where the loading one was. *)
Lemma replay_view l v t es fs table :
  p_table prog = Some t →
  table_before l = Z.of_nat (length (v_table v)) →
  table_after l = Z.of_nat (length table + length (slots l)) →
  (length (v_table v) ≤ length table)%nat → table_after l <= mt_maximum t →
  Forall (λ x, extern prog v x = Ok tt) (zip (module_imports (lib_module l)) (sources l)) →
  instance_elems (lib_module l) (Some (length (v_instances v))) (sources l) = Ok es →
  Forall (λ e : Z * Fn, 0 <= e.1 < Z.of_nat (length table)) es →
  table = write_elems es (v_table v ++ replicate (length table - length (v_table v)) None) →
  fills (v_instances v ++ [mk_instance (lib_module l) (Some (length (v_instances v))) (sources l)]) (length table) (slots l) fs →
  replay prog l v = (Ok tt, mk_view (table ++ (Some <$> fs))
                      (v_instances v ++ [mk_instance (lib_module l) (Some (length (v_instances v))) (sources l)])).
Proof.
  intros Ht Hb Ha Hle Hmax Hx He Hes Htable Hf. unfold replay.
  assert (mt_maximum t < 4294967296) as Hm by (by apply Hprog).
  erewrite io_step by (apply main_table_Ok; split; [exact Ht|done]).
  erewrite io_step by done. rewrite Hb, Z.eqb_refl. cbn [negb].
  set (k := (length table - length (v_table v) + length (slots l))%nat).
  assert (u32 (table_after l - Z.of_nat (length (v_table v))) = Z.of_nat k) as -> by (unfold u32; rewrite Z.mod_small; lia).
  erewrite io_step by (apply grow_Ok; split_and!; [done|lia|done]). rewrite Nat2Z.id. unfold k. rewrite replicate_add, app_assoc.
  erewrite io_step by (apply externs_Ok; split; [done|]; eapply externs_same; [| |exact Hx]; [unfold same_sources; reflexivity|done]).
  erewrite io_step by done. cbv zeta. cbn [v_instances v_table in_module in_index in_sources].
  erewrite io_step by (apply lift_Ok; split; [by apply with_context_Ok|done]).
  erewrite io_step by (apply write_elems_Ok; split; [|done]; cbn [v_table]; eapply Forall_impl; [exact Hes|];
    cbn; intros e; rewrite !length_app, !length_replicate; lia).
  cbn [v_table v_instances]. rewrite write_elems_app, <-Htable.
  2: { eapply Forall_impl; [exact Hes|]. cbn. intros e. rewrite length_app, length_replicate. lia. }
  erewrite io_step by done. cbn [v_table v_instances]. by apply fill_slots.
Qed.
(** What linking makes: the library that is logged, with what its thread holds once it is in. *)
Definition linking (s0 : St) (pp : Prepared) (lib : str) (base : Z) (g : bool) (s : St) : Prop :=
  ∃ t n es r table fs,
    let index := length (libraries (st_log s0)) in
    let v0 := th_view (st_thread s0) in
    let table0 := v_table v0 ++ replicate n None in
    let instance := mk_instance (pp_module pp) (Some index) (rs_sources r) in
    let l := mk_library lib (pp_module pp) base (Z.of_nat (length (v_table v0))) (Z.of_nat (length table + length fs))
               (rs_sources r) (rs_slots r) g (tls_of (pp_module pp) (Some index) (rs_sources r)) in
    let ok := Forall (λ e : Z * Fn, e.1 < Z.of_nat (length table0)) es in
    p_table prog = Some t ∧ Z.of_nat (length table + length fs) <= mt_maximum t ∧
    instance_elems (pp_module pp) (Some index) (rs_sources r) = Ok es ∧
    Forall (λ x, extern prog v0 x = Ok tt) (zip (module_imports (pp_module pp)) (rs_sources r)) ∧
    length table = length table0 ∧ (ok → table = write_elems es table0) ∧
    length (rs_slots r) = length fs ∧
    (ok → fills (v_instances v0 ++ [instance]) (length table) (rs_slots r) fs) ∧
    events (st_log s) = events (st_log s0) ++ [Load l] ∧ libraries (st_log s) = libraries (st_log s0) ++ [l] ∧
    applied (st_thread s) = S (length (events (st_log s0))) ∧
    th_view (st_thread s) = mk_view (table ++ (Some <$> fs)) (v_instances v0 ++ [instance]) ∧
    (∀ p i, slotted (st_log s) !! p = Some i → slotted (st_log s0) !! p = Some i ∨ (i, p) ∈ rs_slots r).


Lemma link_Ok base lib g pp s0 h s :
  length (v_instances (th_view (st_thread s0))) = length (libraries (st_log s0)) →
  link prog base lib g pp s0 = (Ok h, s) → linking s0 pp lib base g s.
Proof.
  intros Hl H. unfold link in H.
  apply io_bind_Ok in H as (t & s1 & (v1 & [Ht ->]%main_table_Ok & ->)%on_view_Ok & H).
  apply io_bind_Ok in H as (before & s2 & (v2 & Hb & ->)%on_view_Ok & H).
  unfold size in Hb. erewrite io_step in Hb by done. injection Hb as <- <-. cbv zeta in H.
  apply io_bind_Ok in H as (old & s3 & (v3 & (-> & Hmax & ->)%grow_Ok & ->)%on_view_Ok & H).
  cbn [th_view st_thread set_view st_log st_memory] in *.
  set (v0 := th_view (st_thread s0)) in *. set (asked := u32 _) in *. set (n := Z.to_nat asked) in H.
  assert (0 <= asked) as Hn by apply u32_range.
  apply io_bind_Ok in H as (r & s4 & Hr & H).
  eapply (resolve_imports_grown True s0 (v_table v0 ++ replicate n None) _ _ _ _ _ (mk_resolved [] [] []) []) in Hr
    as ((fs & G) & Hown & _); [| |by constructor].
  2: { split; cbn; [done|done|done|done|by rewrite app_nil_r|done| |done|by left].
       intros t' Ht'. simplify_eq. rewrite length_app, length_replicate. unfold n. simpl. lia. }
  apply io_bind_Ok in H as ([] & s5 & (v5 & [-> Hx]%externs_Ok & ->)%on_view_Ok & H).
  pose proof (gr_instances _ _ _ _ _ _ _ G) as Hi4. pose proof (gr_libraries _ _ _ _ _ _ _ G) as Hl4.
  apply io_bind_Ok in H as (s6 & ? & [-> ->]%get_Ok & H). cbv zeta in H. cbn [st_log in_module in_index in_sources] in H.
  rewrite Hl4 in H.
  apply io_bind_Ok in H as (es & s7 & [He%with_context_Ok ->]%lift_Ok & H).
  apply io_bind_Ok in H as ([] & s8 & Hw & H).
  assert (grown True s0 (v_instances v0) (v_table v0 ++ replicate n None) (rs_slots r) fs
            (mk_st (st_log s4) (set_view (th_view (st_thread s4)) (st_thread s4)) (st_memory s4))) as G5 by (split; cbn; apply G).
  eapply grown_elems in Hw as (table & fs1 & Hlen & Hok & G8); [|exact G5].
  apply io_bind_Ok in H as (r2 & s9 & Hbind & H).
  eapply bind_own_grown in Hbind as ((fs2 & G9) & Hs); [|by rewrite <-Hl|eapply grown_impl; [|exact G8]; intros; by apply func_of_app|exact Hown].
  cbn [in_module in_index in_sources] in H.
  apply io_bind_Ok in H as ([] & s10 & Hc & H).
  assert (s10 = s9) as -> by (destruct (instance_func _ _ _ _); [by apply lift_Ok in Hc as [_ ->]|by injection Hc as <-]). clear Hc.
  apply io_bind_Ok in H as (s11 & ? & [-> ->]%get_Ok & H).
  apply io_bind_Ok in H as ([] & s12 & [= <-] & H).
  apply io_bind_Ok in H as ([] & s13 & (v13 & Hp & ->)%on_view_Ok & H).
  unfold push_instance in Hp. erewrite io_step in Hp by done. injection Hp as <-.
  apply io_bind_Ok in H as (s14 & ? & [-> ->]%get_Ok & H).
  apply io_bind_Ok in H as ([] & s15 & [= <-] & [= _ <-]).
  cbn [st_thread st_log st_memory th_view set_view v_table v_instances events libraries].
  assert (Z.of_nat (length (v_table (th_view (st_thread s9)))) = Z.of_nat (length table + length fs2)) as Hsize.
  { by rewrite (gr_table _ _ _ _ _ _ _ G9), length_app, length_fmap. }
  pose proof (gr_bound _ _ _ _ _ _ _ G9 t Ht) as Hbound. pose proof (Hprog t Ht) as Hmax'.
  assert (u32 (Z.of_nat (length table + length fs2)) = Z.of_nat (length table + length fs2)) as Hu by (apply Z.mod_small; lia).
  rewrite !Hsize, !Hu. rewrite (gr_events _ _ _ _ _ _ _ G9), (gr_libraries _ _ _ _ _ _ _ G9).
  rewrite (gr_instances _ _ _ _ _ _ _ G9), (gr_table _ _ _ _ _ _ _ G9).
  exists t, n, es, r2, table, fs2. cbv zeta. cbn [st_thread st_log th_view applied events libraries slotted].
  rewrite <-(elems_got _ _ _ _ Hs). split_and!; try done.
  - eapply externs_same; [exact Hs| |exact Hx]. exact Hi4.
  - apply G9.
  - intros Ho. eapply fills_impl; [|apply (gr_fills _ _ _ _ _ _ _ G9 Ho)]. intros p f. by apply func_of_same.
  - rewrite length_app. simpl. lia.
  - apply G9.
Qed.
(** ** The log *)

Definition replay_event (e : Event) : io View unit :=
  match e with
  | Load l => replay prog l
  | Slot i p => replay_slot prog i p
  end.

(** What a new thread has once it has replayed these events. *)
Definition plays (evs : list Event) (v : View) : Prop :=
  each replay_event evs (th_view (thread_new prog)) = (Ok tt, v).

Definition view_le (v1 v2 : View) : Prop :=
  v_table v1 `prefix_of` v_table v2 ∧ v_instances v1 `prefix_of` v_instances v2.
#[local] Instance view_le_refl : Reflexive view_le.
Proof. by split. Qed.
#[local] Instance view_le_trans : Transitive view_le.
Proof. intros ??? [] []; split; by etrans. Qed.

(** The slot a function was given holds it. *)
Definition slotted_ok (log : DlLog) (v : View) : Prop :=
  ∀ p i, slotted log !! p = Some i →
    0 <= i ∧ ∃ f, func_of (v_instances v) p = Some f ∧ v_table v !! Z.to_nat i = Some (Some f).

Record log_ok (log : DlLog) (v : View) : Prop := {
  lo_plays : plays (events log) v;
  lo_libraries : length (v_instances v) = length (libraries log);
  lo_slotted : slotted_ok log v;
  lo_grows n m vn vm : (n ≤ m)%nat → plays (take n (events log)) vn → plays (take m (events log)) vm → view_le vn vm;
}.

Lemma plays_app evs1 evs2 v : plays (evs1 ++ evs2) v ↔ ∃ v1, plays evs1 v1 ∧ each replay_event evs2 v1 = (Ok tt, v).
Proof. apply each_app. Qed.

Lemma plays_det evs v1 v2 : plays evs v1 → plays evs v2 → v1 = v2.
Proof. unfold plays. congruence. Qed.

Lemma plays_take evs v n : plays evs v → ∃ vn, plays (take n evs) vn ∧ each replay_event (drop n evs) vn = (Ok tt, v).
Proof. rewrite <-(take_drop n evs) at 1. apply plays_app. Qed.

Lemma func_of_prefix ins ins' p f : ins `prefix_of` ins' → func_of ins p = Some f → func_of ins' p = Some f.
Proof. intros [k ->]. apply func_of_app. Qed.

Lemma slotted_ok_le log v v' : view_le v v' → slotted_ok log v → slotted_ok log v'.
Proof.
  intros [[k Ht] Hi] H p i (Hpos & f & Hf & Hk)%H. split; [done|]. exists f. split; [by eapply func_of_prefix|].
  rewrite Ht. by apply lookup_app_l_Some.
Qed.

(** One more event. *)
Lemma log_ok_snoc log log' v e v' :
  log_ok log v → replay_event e v = (Ok tt, v') → view_le v v' →
  events log' = events log ++ [e] → length (v_instances v') = length (libraries log') → slotted_ok log' v' →
  log_ok log' v'.
Proof.
  intros [Hp Hl Hs Hg] He Hle Hev Hl' Hs'.
  assert (plays (events log') v') as Hp'.
  { rewrite Hev. apply plays_app. exists v. split; [done|]. cbn [each]. by erewrite io_step by exact He. }
  split; [done|done|done|]. rewrite Hev. intros n m vn vm Hnm.
  destruct (decide (m ≤ length (events log))%nat).
  { rewrite !take_app_le by lia. by apply Hg. }
  rewrite (take_ge (events log ++ [e]) m) by (rewrite length_app; simpl; lia). rewrite Hev in Hp'.
  intros Hn Hm. pose proof (plays_det _ _ _ Hp' Hm) as <-.
  destruct (decide (n ≤ length (events log))%nat).
  - rewrite take_app_le in Hn by done. etrans; [|exact Hle].
    eapply (Hg n (length (events log))); [done|done|]. by rewrite firstn_all.
  - rewrite take_ge in Hn by (rewrite length_app; simpl; lia). by rewrite (plays_det _ _ _ Hp' Hn).
Qed.

(** A library that was linked is one more event, if its elements kept to their place. *)
Lemma linking_log_ok log0 s0 pp lib base g s :
  st_log s0 = log0 → log_ok log0 (th_view (st_thread s0)) → linking s0 pp lib base g s →
  tidy_log (st_log s) → log_ok (st_log s) (th_view (st_thread s)) ∧ applied (st_thread s) = length (events (st_log s)).
Proof.
  intros <- Hlog (t & n & es & r & table & fs & Ht & Hmax & Hes & Hx & Hlen & Htab & Hlf & Hfill & Hev & Hlib & Happ & Hv & Hsl) Htidy.
  set (v0 := th_view (st_thread s0)) in *.
  assert (length (v_instances v0) = length (libraries (st_log s0))) as Hn by apply Hlog.
  split; [|rewrite Hev, length_app; simpl; rewrite Happ; lia].
  assert (Forall (λ e : Z * Fn, Z.of_nat (length (v_table v0)) <= e.1 < Z.of_nat (length table)) es) as Hrange.
  { specialize (Htidy (length (libraries (st_log s0)))). rewrite Hlib, list_lookup_middle in Htidy by done.
    specialize (Htidy _ eq_refl es). cbn in Htidy. eapply Forall_impl; [by apply Htidy|]. cbn. intros e. lia. }
  assert (Forall (λ e : Z * Fn, e.1 < Z.of_nat (length (v_table v0 ++ replicate n None))) es) as Hok.
  { rewrite <-Hlen. eapply Forall_impl; [exact Hrange|]. cbn. lia. }
  specialize (Htab Hok). specialize (Hfill Hok). rewrite length_app, length_replicate in Hlen.
  assert (length table - length (v_table v0) = n)%nat as Hk by lia.
  rewrite Hv. set (ins := v_instances v0 ++ _) in *.
  assert (view_le v0 (mk_view (table ++ (Some <$> fs)) ins)) as Hle.
  { split; cbn; [|by eexists]. apply prefix_app_r. rewrite Htab. apply write_elems_prefix.
    eapply Forall_impl; [exact Hrange|]. cbn. lia. }
  eapply log_ok_snoc; [exact Hlog| |exact Hle|exact Hev| |].
  - cbn [replay_event]. rewrite (replay_view _ v0 t es fs table); cbn [table_before table_after slots sources lib_module]; try done; try lia.
    + by rewrite Hn.
    + by rewrite Hn.
    + eapply Forall_impl; [exact Hrange|]. cbn. lia.
    + by rewrite Hk.
    + by rewrite Hn.
  - cbn. unfold ins. rewrite Hlib, !length_app, Hn. done.
  - intros p i [Hp|Hp]%Hsl; [by apply (slotted_ok_le _ _ _ Hle (lo_slotted _ _ Hlog))|].
    destruct (fills_lookup _ _ _ _ _ _ Hfill Hp) as (k & f & -> & Hf & Hfp). split; [lia|]. exists f. split; [done|].
    cbn. rewrite lookup_app_r by lia. rewrite list_lookup_fmap.
    replace (Z.to_nat (Z.of_nat (length table + k)) - length table)%nat with k by lia. by rewrite Hf.
Qed.

(** ** Catching up *)

(** A thread stands where the replay of a part of the log leaves it. *)
Definition thread_ok (log : DlLog) (th : Thread) : Prop :=
  (applied th ≤ length (events log))%nat ∧ plays (take (applied th) (events log)) (th_view th).

Lemma catch_up_event_Ok e s v' :
  replay_event e (th_view (st_thread s)) = (Ok tt, v') →
  ∃ s', catch_up_event prog e s = (Ok tt, s') ∧ th_view (st_thread s') = v' ∧ st_log s' = st_log s ∧
    applied (st_thread s') = S (applied (st_thread s)) ∧ st_memory s' = st_memory s.
Proof.
  intros H. unfold catch_up_event. destruct e as [l|i p]; cbn [replay_event] in H.
  - assert (on_view (replay prog l) s = (Ok tt, mk_st (st_log s) (set_view v' (st_thread s)) (st_memory s))) as Hr
      by (apply on_view_Ok; by exists v').
    unfold mbind, io_bind. rewrite Hr. cbn. destruct (tls l); by eexists.
  - assert (on_view (replay_slot prog i p) s = (Ok tt, mk_st (st_log s) (set_view v' (st_thread s)) (st_memory s))) as Hr
      by (apply on_view_Ok; by exists v').
    erewrite io_step by exact Hr. by eexists.
Qed.

Lemma catch_up_events evs s v' :
  each replay_event evs (th_view (st_thread s)) = (Ok tt, v') →
  ∃ s', each (catch_up_event prog) evs s = (Ok tt, s') ∧ th_view (st_thread s') = v' ∧ st_log s' = st_log s ∧
    applied (st_thread s') = (applied (st_thread s) + length evs)%nat ∧ st_memory s' = st_memory s.
Proof.
  revert s. induction evs as [|e evs IH]; intros s; cbn [each].
  - intros [= <-]. exists s. split_and!; [done|done|done|simpl; lia|done].
  - intros ([] & v1 & He & H)%io_bind_Ok. destruct (catch_up_event_Ok _ _ _ He) as (s1 & Hs1 & <- & Hl1 & Ha1 & Hm1).
    destruct (IH _ H) as (s2 & Hs2 & Hv2 & Hl2 & Ha2 & Hm2). exists s2. erewrite io_step by exact Hs1.
    split_and!; [done|done|by rewrite Hl2|rewrite Ha2, Ha1; simpl; lia|by rewrite Hm2].
Qed.

(** A thread can always catch up, and stands then where the log does. *)
Lemma catch_up_Ok s v :
  log_ok (st_log s) v → thread_ok (st_log s) (st_thread s) →
  ∃ s', catch_up prog s = (Ok tt, s') ∧ th_view (st_thread s') = v ∧ st_log s' = st_log s ∧
    applied (st_thread s') = length (events (st_log s)) ∧ st_memory s' = st_memory s.
Proof.
  intros Hlog [Ha Hp]. unfold catch_up. erewrite io_step by done.
  destruct (plays_take _ _ (applied (st_thread s)) (lo_plays _ _ Hlog)) as (v1 & Hv1 & Hd).
  rewrite (plays_det _ _ _ Hv1 Hp) in Hd.
  destruct (catch_up_events _ _ _ Hd) as (s' & Hs & Hv & Hl & Happ & Hm). exists s'. split_and!; try done.
  rewrite Happ, length_drop. lia.
Qed.

Lemma thread_ok_full log v th :
  log_ok log v → th_view th = v → applied th = length (events log) → thread_ok log th.
Proof. intros Hlog Hv Ha. split; [lia|]. rewrite Ha, firstn_all, Hv. apply Hlog. Qed.

Lemma thread_ok_snoc log log' th es : events log' = events log ++ es → thread_ok log th → thread_ok log' th.
Proof. intros E [Ha Hp]. split; rewrite E; [rewrite length_app; lia|by rewrite take_app_le]. Qed.

Lemma thread_new_ok log : thread_ok log (thread_new prog).
Proof. split; [simpl; lia|]. by destruct (events log). Qed.
(** ** Calls *)

(** What leaves the log and the thread's place in it alone. *)
Definition quiet (s s' : St) : Prop :=
  st_log s' = st_log s ∧ th_view (st_thread s') = th_view (st_thread s) ∧ applied (st_thread s') = applied (st_thread s).
#[local] Instance quiet_refl : Reflexive quiet.
Proof. intros s. by split. Qed.
#[local] Instance quiet_trans : Transitive quiet.
Proof. intros ??? (?&?&?) (?&?&?). split_and!; congruence. Qed.

Definition inv (s : St) : Prop := ∃ v, log_ok (st_log s) v ∧ thread_ok (st_log s) (st_thread s).

(** What a call may do: more events, and this thread where it should be. *)
Definition call_ok (s s' : St) : Prop := inv s' ∧ ∃ es, events (st_log s') = events (st_log s) ++ es.

Lemma call_ok_quiet s s' : inv s → quiet s s' → call_ok s s'.
Proof.
  intros (v & Hl & Ha & Hp) (El & Ev & Ea). split; [|exists []; by rewrite El, app_nil_r].
  exists v. rewrite El. split; [done|]. split; [by rewrite Ea|by rewrite Ea, Ev].
Qed.

Lemma call_ok_trans s1 s2 s3 : call_ok s1 s2 → call_ok s2 s3 → call_ok s1 s3.
Proof. intros [_ [es1 E1]] [H [es2 E2]]. split; [done|]. exists (es1 ++ es2). by rewrite E2, E1, app_assoc. Qed.

(** Everything this thread has to know is in. *)
Definition full (s : St) : Prop := log_ok (st_log s) (th_view (st_thread s)) ∧ applied (st_thread s) = length (events (st_log s)).

Lemma full_inv s : full s → inv s.
Proof. intros [Hl Ha]. exists (th_view (st_thread s)). split; [done|]. by eapply thread_ok_full. Qed.

Lemma full_quiet s s' : full s → quiet s s' → full s'.
Proof. intros [Hl Ha] (El & Ev & Ea). split; rewrite El, ?Ev, ?Ea; done. Qed.

Lemma catch_up_full s : inv s → ∃ s', catch_up prog s = (Ok tt, s') ∧ full s' ∧ st_log s' = st_log s ∧ call_ok s s'.
Proof.
  intros (v & Hl & Ht). destruct (catch_up_Ok s v Hl Ht) as (s' & H & Hv & El & Ha & _). exists s'.
  assert (full s') as Hf by (split; rewrite El, ?Hv; done).
  split_and!; [done|done|done|]. split; [by apply full_inv|]. exists []. by rewrite El, app_nil_r.
Qed.

(** Computing a call that only looks at its state. *)
Ltac quiet_calc :=
  intros; repeat (case_match; try done); simplify_eq/=; by split_and!.

Lemma write_guest_quiet a b s r s' : write_guest a b s = (r, s') → quiet s s'.
Proof. unfold write_guest. quiet_calc. Qed.

Lemma read_guest_quiet a n s r s' : read_guest a n s = (r, s') → s' = s.
Proof. unfold read_guest, get, mbind, io_bind, context, lift. by intros [= _ <-]. Qed.

Lemma load_quiet a b c s r s' : load a b c s = (r, s') → quiet s s'.
Proof.
  unfold load, mbind, io_bind. destruct (read_guest _ _ s) as [[bytes|e] s1] eqn:E; apply read_guest_quiet in E as ->; [|by intros [= _ <-]].
  unfold lift. destruct (anyhow _); [|by intros [= _ <-]].
  destruct (write_guest _ _ s) as [[[]|e] s2] eqn:E; apply write_guest_quiet in E as (El & Ev & Ea); intros [= _ <-]; by split_and!.
Qed.

Lemma needed_quiet a b c d s r s' : needed a b c d s = (r, s') → quiet s s'.
Proof.
  unfold needed, mbind, io_bind. unfold get at 1, context, lift. destruct (ok_or _ _); [|by intros [= _ <-]].
  destruct (write_guest _ _ s) as [[[]|e] s2] eqn:E; apply write_guest_quiet in E; by intros [= _ <-].
Qed.

Lemma library_instance_quiet h s r s' : library_instance h s = (r, s') → s' = s.
Proof. unfold library_instance, get, mbind, io_bind, context, lift. by intros [= _ <-]. Qed.

Lemma init_quiet h s r s' : init h s = (r, s') → quiet s s'.
Proof.
  unfold init, mbind, io_bind. destruct (library_instance h s) as [[i|e] s1] eqn:E; apply library_instance_quiet in E as ->; [|by intros [= _ <-]].
  unfold lift. destruct (instance_func _ _ _ _) as [f|]; [destruct (call f [])|]; by intros [= _ <-].
Qed.

Lemma init_tls_quiet h b s r s' : init_tls h b s = (r, s') → quiet s s'.
Proof.
  unfold init_tls, mbind, io_bind. destruct (library_instance h s) as [[i|e] s1] eqn:E; apply library_instance_quiet in E as ->; [|by intros [= _ <-]].
  unfold lift, context, lift. destruct (ok_or _ _) as [f|e]; [destruct (call f [b])|]; by intros [= _ <-].
Qed.

Lemma error_text_quiet a b s r s' : error_text a b s = (r, s') → quiet s s'.
Proof.
  unfold error_text, mbind, io_bind. unfold get at 1.
  destruct (write_guest _ _ s) as [[[]|e] s2] eqn:E; apply write_guest_quiet in E; by intros [= _ <-].
Qed.

Lemma on_view_main_table_quiet s r s' : on_view (main_table prog) s = (r, s') → quiet s s'.
Proof. unfold on_view, main_table, context, lift. intros [= _ <-]. by split_and!. Qed.

Lemma params_quiet a s r s' : params prog a s = (r, s') → quiet s s'.
Proof.
  unfold params, mbind, io_bind. destruct (on_view _ s) as [[t|e] s1] eqn:E; apply on_view_main_table_quiet in E; [|by intros [= _ <-]].
  unfold get, fail, raise, mret, io_ret. repeat case_match; by intros [= _ <-].
Qed.

Lemma guarded_quiet m s r s' : guarded m s = (r, s') → quiet (m s).2 s'.
Proof. unfold guarded. destruct (m s) as [[?|[]] s1]; intros [= _ <-]; by split_and!. Qed.
Lemma own_index_quiet f s r s' : own_index prog f s = (r, s') → quiet s s'.
Proof.
  unfold own_index. erewrite io_step by done. cbv zeta. destruct (main_index (st_thread s)) as [index|].
  - erewrite io_step by done. by intros [= _ <-].
  - unfold mbind, io_bind. destruct (on_view (main_table prog) s) as [[t|e] s1] eqn:E; [|apply on_view_main_table_quiet in E; by intros [= _ <-]].
    apply on_view_main_table_quiet in E as (El & _ & _). unfold set_thread. intros [= _ <-]. by split_and!.
Qed.

(** A slot more: the table grows by the function; or nothing happens. *)
Lemma add_slot_cases f p s r s' :
  add_slot prog f p s = (r, s') →
  quiet s s' ∧ is_Some (match r with Err e => Some e | _ => None end) ∨
  ∃ t, let v := th_view (st_thread s) in let n := Z.of_nat (length (v_table v)) in
    p_table prog = Some t ∧ n + 1 <= mt_maximum t ∧ r = Ok n ∧
    st_log s' = mk_log (events (st_log s)) (libraries (st_log s)) (table_size (st_log s)) (<[p := n]> (slotted (st_log s))) ∧
    th_view (st_thread s') = mk_view (v_table v ++ [Some f]) (v_instances v) ∧ applied (st_thread s') = applied (st_thread s).
Proof.
  unfold add_slot. unfold mbind at 1, io_bind at 1.
  destruct (on_view (main_table prog) s) as [[t|e] s1] eqn:E; [|apply on_view_main_table_quiet in E; intros [= <- <-]; left; by split].
  apply on_view_Ok in E as (v1 & [Ht ->]%main_table_Ok & ->).
  unfold mbind at 1, io_bind at 1. destruct (on_view (grow t 1 (Some f)) _) as [[index|e] s2] eqn:E.
  - apply on_view_Ok in E as (v2 & (-> & Hmax & ->)%grow_Ok & ->). cbn in Hmax |- *. intros [= <- <-]. right. exists t.
    pose proof (Hprog t Ht).
    assert (u32 (Z.of_nat (length (v_table (th_view (st_thread s))))) = Z.of_nat (length (v_table (th_view (st_thread s))))) as ->
      by (apply Z.mod_small; lia).
    by split_and!.
  - intros [= <- <-]. left. split; [|done]. unfold on_view, grow, get, mbind, io_bind in E. cbn in E.
    destruct (_ <? _); cbn in E; [|done]. injection E as _ <-. by split_and!.
Qed.

Lemma function_index_cases p s r s' :
  function_index prog p [] s = (r, s') →
  quiet s s' ∧ (∀ i added, r = Ok (i, added) → added = []) ∨
  ∃ f t, let v := th_view (st_thread s) in let n := Z.of_nat (length (v_table v)) in
    func_of (v_instances v) p = Some f ∧ p_table prog = Some t ∧ n + 1 <= mt_maximum t ∧ r = Ok (as_i32 n, [(n, p)]) ∧
    st_log s' = mk_log (events (st_log s)) (libraries (st_log s)) (table_size (st_log s)) (<[p := n]> (slotted (st_log s))) ∧
    th_view (st_thread s') = mk_view (v_table v ++ [Some f]) (v_instances v) ∧ applied (st_thread s') = applied (st_thread s).
Proof.
  unfold function_index. erewrite io_step by done. destruct (slotted _ !! p).
  { intros [= <- <-]. left. split; [done|]. by intros i added [= _ <-]. }
  unfold context, lift, mbind at 1, io_bind at 1. rewrite export_func_view.
  destruct (func_of _ p) as [f|] eqn:Hf; cbn [ok_or]; [|intros [= <- <-]; left; split; [done|by intros]].
  unfold mbind at 1, io_bind at 1. destruct (match p with Main _ => own_index prog f | Library_ _ _ => mret None end s) as [[found|e] s1] eqn:E.
  2: { assert (quiet s s1) as Hq by (destruct p; [by eapply own_index_quiet|done]). intros [= <- <-]. left. split; [done|by intros]. }
  assert (quiet s s1) as (El & Ev & Ea) by (destruct p; [by eapply own_index_quiet|by injection E as _ <-]). clear E.
  destruct found as [i|].
  { intros [= <- <-]. left. split; [by split_and!|]. by intros ?? [= _ <-]. }
  unfold mbind, io_bind. destruct (add_slot prog f p s1) as [r1 s2] eqn:E.
  apply add_slot_cases in E as [[(El2 & Ev2 & Ea2) Hr]|(t & Ht & Hm & -> & Hlog & Hv & Ha)].
  - destruct r1; [by destruct Hr|]. intros [= <- <-]. left. split; [split_and!; congruence|by intros].
  - rewrite Ev, El, Ea in *. intros [= <- <-]. right. by exists f, t.
Qed.

(** A function given a slot is one more event. *)
Lemma slot_log_ok log v f p t :
  let n := Z.of_nat (length (v_table v)) in
  let log' := mk_log (events log ++ [Slot n p]) (libraries log) (Some (u32 (Z.of_nat (length (v_table v ++ [Some f]))))) (<[p := n]> (slotted log)) in
  log_ok log v → func_of (v_instances v) p = Some f → p_table prog = Some t → n + 1 <= mt_maximum t →
  log_ok log' (mk_view (v_table v ++ [Some f]) (v_instances v)).
Proof.
  intros n log' Hlog Hf Ht Hmax. pose proof (Hprog t Ht).
  assert (view_le v (mk_view (v_table v ++ [Some f]) (v_instances v))) as Hle by (split; [by eexists|done]).
  eapply log_ok_snoc; [exact Hlog| |exact Hle|done| |].
  - cbn [replay_event]. unfold replay_slot.
    erewrite io_step by (apply main_table_Ok; split; [exact Ht|done]). erewrite io_step by done.
    destruct (Z.leb_spec (Z.of_nat (length (v_table v))) n); [|lia].
    assert (u32 (n + 1 - Z.of_nat (length (v_table v))) = 1) as -> by (unfold n, u32; rewrite Z.mod_small; lia).
    erewrite io_step.
    2: { erewrite io_step by (apply grow_Ok; split_and!; [done|lia|done]). reflexivity. }
    pose proof (fill_slots [(n, p)] [f] (v_table v) (v_instances v)) as Hfill. cbn [each fills length replicate] in Hfill.
    change (Z.to_nat 1) with 1%nat. cbn [replicate].
    specialize (Hfill (conj eq_refl (conj Hf I))). unfold mbind, io_bind in Hfill.
    destruct (fill_slot prog (n, p) _) as [[[]|] ?]; [by injection Hfill as <-|done].
  - apply Hlog.
  - intros q i. cbn. destruct (decide (p = q)) as [<-|Hn].
    + rewrite lookup_insert_eq. intros [= <-]. split; [lia|]. exists f. split; [done|].
      unfold n. rewrite Nat2Z.id. by apply list_lookup_middle.
    + rewrite lookup_insert_ne by done. apply (slotted_ok_le _ _ _ Hle (lo_slotted _ _ Hlog)).
Qed.

Lemma sym_call_ok h n s r s' : inv s → sym prog h n s = (r, s') → call_ok s s'.
Proof.
  intros Hinv H. destruct (catch_up_full s Hinv) as (s1 & Hc & Hf & _ & Hok). eapply call_ok_trans; [exact Hok|].
  unfold sym in H. erewrite io_step in H by exact Hc. erewrite io_step in H by done.
  pose proof (full_inv _ Hf) as Hi. assert (call_ok s1 s1) as Hrefl by by apply call_ok_quiet.
  unfold lift, mbind at 1, io_bind at 1 in H. destruct (candidate _ _ _ _) as [[p|]|e]; [|by injection H as _ <-..].
  destruct (export _ _ p) as [[]|]; try by injection H as _ <-.
  unfold mbind at 1, io_bind at 1 in H. destruct (function_index prog p [] s1) as [r2 s2] eqn:E.
  apply function_index_cases in E as [[Hq Ha]|(f & t & Hfn & Ht & Hm & -> & Hlog & Hv & Happ)].
  - destruct r2 as [[i added]|e]; [|injection H as _ <-; by apply call_ok_quiet].
    rewrite (Ha _ _ eq_refl) in H. erewrite io_step in H by done. cbv zeta in H. cbn in H. rewrite app_nil_r in H.
    injection H as _ <-. apply call_ok_quiet; [done|]. destruct Hq as (El & Ev & Ea). split_and!; cbn; [|done|done].
    rewrite El. by destruct (st_log s1).
  - erewrite io_step in H by done. cbv zeta in H. cbn in H. injection H as _ <-.
    destruct Hf as [Hl Hap]. pose proof (slot_log_ok _ _ f p t Hl Hfn Ht Hm) as Hl'.
    split.
    + rewrite Hlog, Hv. cbn. exists (mk_view (v_table (th_view (st_thread s1)) ++ [Some f]) (v_instances (th_view (st_thread s1)))).
      split; [exact Hl'|]. by eapply thread_ok_full.
    + rewrite Hlog. cbn. by eexists.
Qed.
Lemma sync_call_ok a b s r s' : inv s → sync prog a b s = (r, s') → call_ok s s'.
Proof.
  intros Hinv H. destruct (catch_up_full s Hinv) as (s1 & Hc & Hf & _ & Hok). eapply call_ok_trans; [exact Hok|].
  unfold sync in H. erewrite io_step in H by exact Hc. erewrite io_step in H by done. cbv zeta in H.
  erewrite io_step in H by done. unfold mbind, io_bind in H.
  destruct (write_guest _ _ _) as [[[]|e] s2] eqn:E; apply write_guest_quiet in E; injection H as _ <-;
    (apply call_ok_quiet; [by apply full_inv|]; destruct E as (El & Ev & Ea); by split_and!).
Qed.

Lemma dlsym_call_ok a b c d s r s' : inv s → dlsym prog a b c d s = (r, s') → call_ok s s'.
Proof.
  intros Hinv H. unfold dlsym, mbind, io_bind in H.
  destruct (read_guest _ _ s) as [[n|e] s1] eqn:E; apply read_guest_quiet in E as ->; [|injection H as _ <-; by apply call_ok_quiet].
  destruct (sym _ _ _ s) as [[found|e] s2] eqn:E; apply sym_call_ok in E; try done; [|by injection H as _ <-].
  destruct found as [[value grew]|]; [|by injection H as _ <-].
  destruct (write_guest _ _ s2) as [[[]|e] s3] eqn:E3; apply write_guest_quiet in E3; injection H as _ <-;
    (eapply call_ok_trans; [exact E|apply call_ok_quiet; [apply E|done]]).
Qed.

Lemma begin_load_ok a b c s r s' :
  inv s → begin_load prog a b c s = (r, s') → call_ok s s' ∧ (is_Some (match r with Ok x => Some x | _ => None end) → full s').
Proof.
  intros Hinv H. unfold begin_load in H. unfold mbind at 1, io_bind at 1 in H.
  destruct (read_guest _ _ s) as [[n|e] s1] eqn:E; apply read_guest_quiet in E as ->;
    [|injection H as <- <-; split; [by apply call_ok_quiet|by intros [? ?]]].
  cbv zeta in H. unfold mbind at 1, io_bind at 1 in H.
  destruct (prepare prog a (from_utf8_lossy n) s) as [r1 s1] eqn:E. unfold prepare in E. erewrite io_step in E by done. cbv zeta in E.
  destruct (loading (st_thread s) !! a) as [pending|].
  2: { injection E as <- <-. injection H as <- <-. split; [by apply call_ok_quiet|by intros [? ?]]. }
  erewrite io_step in E by done.
  set (s2 := mk_st (st_log s) _ (st_memory s)) in E.
  assert (quiet s s2) as Hq by done.
  assert (inv s2) as Hi2 by (by eapply call_ok_quiet).
  destruct (catch_up_full s2 Hi2) as (s3 & Hc & Hf & _ & Hok).
  erewrite io_step in E by exact Hc. erewrite io_step in E by done.
  assert (call_ok s s3) as Hcall by (eapply call_ok_trans; [by apply call_ok_quiet|exact Hok]).
  unfold lift, mbind, io_bind in E. destruct (with_context _ _) as [[m rebound]|e]; injection E as <- <-; by injection H as <- <-.
Qed.

(** Every call keeps the log and the thread right, a load that starts to link if it goes through. *)
Lemma dylink_call_ok op a0 a1 a2 a3 a4 s r s' :
  inv s → links prog op a0 a1 a2 a3 a4 s → dylink_call prog op a0 a1 a2 a3 a4 s = (r, s') → tidy_log (st_log s') → call_ok s s'.
Proof.
  intros Hinv Hlinks H Htidy. unfold dylink_call in H.
  assert (∀ m : io St Z, guarded m s = (r, s') → (call_ok s (m s).2) → call_ok s s') as Hg.
  { intros m Hm Hok. apply guarded_quiet in Hm. eapply call_ok_trans; [exact Hok|]. by apply call_ok_quiet; [apply Hok|]. }
  assert (∀ m : io St Z, (∀ s r s', m s = (r, s') → quiet s s') → call_ok s (m s).2) as Hquiet.
  { intros m Hm. apply call_ok_quiet; [done|]. destruct (m s) as [r1 s1] eqn:E. by eapply Hm. }
  destruct (op =? 0); [by eapply Hg, Hquiet; [exact H|apply load_quiet]|].
  destruct (op =? 1); [by eapply Hg, Hquiet; [exact H|apply needed_quiet]|].
  destruct (Z.eqb_spec op 2) as [->|].
  { pose proof H as Hlater. apply guarded_quiet in H.
    unfold mbind at 1, io_bind at 1 in H. unfold guarded, mbind, io_bind in Hlater.
    destruct (begin_load prog a0 a2 a3 s) as [[[n p]|e] s1] eqn:Eb; pose proof (begin_load_ok _ _ _ _ _ _ Hinv Eb) as [Hok Hfull].
    2: { cbn in H. eapply call_ok_trans; [exact Hok|]. apply call_ok_quiet; [apply Hok|done]. }
    destruct (Hlinks eq_refl _ _ _ Eb) as [h Hh].
    destruct (link prog (u32 a1) n _ p s1) as [[h'|e] s2] eqn:El; [|done]. cbn in H.
    eapply call_ok_trans; [exact Hok|].
    destruct (Hfull (ltac:(by eexists))) as [Hl1 Ha1].
    apply link_Ok in El; [|apply Hl1].
    assert (st_log s' = st_log s2) as Hlog' by apply H. rewrite Hlog' in Htidy.
    assert (∃ es, events (st_log s2) = events (st_log s1) ++ es) as Hes.
    { destruct El as (t & k & es & rr & table & fs & _ & _ & _ & _ & _ & _ & _ & _ & Hev & _). by eexists. }
    destruct (linking_log_ok _ _ _ _ _ _ _ eq_refl Hl1 El Htidy) as [Hl2 Ha2].
    eapply (call_ok_trans _ s2); [|apply call_ok_quiet; [by apply full_inv|done]].
    split; [by apply full_inv|done]. }
  destruct (op =? 3); [by eapply Hg, Hquiet; [exact H|apply init_quiet]|].
  destruct (op =? 4).
  { eapply Hg; [exact H|]. destruct (dlsym prog a0 a1 a2 a3 s) as [r1 s1] eqn:E. by eapply dlsym_call_ok. }
  destruct (op =? 5).
  { eapply Hg; [exact H|]. destruct (sync prog (u32 a0) (u32 a1) s) as [r1 s1] eqn:E. by eapply sync_call_ok. }
  destruct (op =? 6); [by eapply Hg, Hquiet; [exact H|apply init_tls_quiet]|].
  destruct (op =? 7); [apply call_ok_quiet; [done|by eapply error_text_quiet]|].
  destruct (op =? 8); [by eapply Hg, Hquiet; [exact H|apply params_quiet]|].
  eapply Hg, Hquiet; [exact H|]. intros s1 r1 s2. unfold mbind, io_bind.
  destruct (on_view _ s1) as [[t|e] s3] eqn:E; apply on_view_main_table_quiet in E; by intros [= _ <-].
Qed.

(** ** The process *)

Definition process_ok (p : Process) : Prop :=
  ∃ v, log_ok (pr_log p) v ∧ ∀ t th, pr_threads p !! t = Some th → thread_ok (pr_log p) th.

Lemma log_default_ok : log_ok log_default (th_view (thread_new prog)).
Proof.
  split; [done|by cbn|by intros p i|]. intros n m vn vm _. destruct n, m; cbn; intros [= <-] [= <-]; reflexivity.
Qed.

Lemma step_ok p p' : process_ok p → step prog (no_load_fails_linking prog) p p' → process_ok p'.
Proof.
  intros (v & Hl & Ht) Hs. destruct Hs as [p t th m nr a0 a1 a2 a3 a4 m_ r s Hth Hcall Hrun [Hlinks Htidy]|p t _|p t].
  - unfold syscall in Hcall. destruct (_ && _); [|done]. injection Hcall as <-.
    assert (inv (mk_st (pr_log p) th m)) as Hinv by (exists v; split; [done|by eapply Ht]).
    destruct (dylink_call_ok _ _ _ _ _ _ _ _ _ Hinv Hlinks Hrun Htidy) as [(v' & Hl' & Ht') [es Hes]].
    exists v'. split; [done|]. intros t' th'. cbn. destruct (decide (t = t')) as [<-|Hn].
    + rewrite lookup_insert_eq. by intros [= <-].
    + rewrite lookup_insert_ne by done. intros H%Ht. by eapply thread_ok_snoc.
  - exists v. split; [done|]. intros t' th'. cbn. destruct (decide (t = t')) as [<-|Hn].
    + rewrite lookup_insert_eq. intros [= <-]. apply thread_new_ok.
    + rewrite lookup_insert_ne by done. apply Ht.
  - exists v. split; [done|]. intros t' th'. cbn. intros [_ H]%lookup_delete_Some. by eapply Ht.
Qed.

Lemma reachable_ok p : reachable prog (no_load_fails_linking prog) p → process_ok p.
Proof.
  induction 1 as [t|p p' _ IH Hs|p t _ (v & Hl & _)].
  - exists (th_view (thread_new prog)). split; [apply log_default_ok|]. intros t' th. cbn. intros [_ <-]%lookup_singleton_Some. apply thread_new_ok.
  - by eapply step_ok.
  - exists v. split; [done|]. intros t' th. cbn. intros [_ <-]%lookup_singleton_Some. apply thread_new_ok.
Qed.

(** Threads at different places of the log: one's table starts the other's. *)
Lemma threads_comparable log v th1 th2 :
  log_ok log v → thread_ok log th1 → thread_ok log th2 →
  view_le (th_view th1) (th_view th2) ∨ view_le (th_view th2) (th_view th1).
Proof.
  intros Hl [Ha1 Hp1] [Ha2 Hp2]. destruct (decide (applied th1 ≤ applied th2)%nat).
  - left. by eapply (lo_grows _ _ Hl).
  - right. eapply (lo_grows _ _ Hl); [|done|done]. lia.
Qed.
End threads.

(** C13: as long as no load fails once it started to link, the threads of a process agree on its
    libraries: whatever calls (loads, lookups, synchronisations, failing ones too) and forks happened in
    whatever order, in two threads that both have a function at a table index it is the same function,
    and one thread's table is the beginning of the other's; every thread can always catch up, which
    keeps what its table has and ends with the same table in all of them; and there the slot that was
    given to a function holds it. A load that fails while it links breaks this for good: no other thread
    can catch up any more ([failed_load_desynchronizes]); so does a library whose elements lie outside
    the slots it asked for, which [no_load_fails_linking] excludes with it. *)
Theorem dylink_threads_agree {WP : Wasmparser} {W : Wasmtime} {WL : WasmtimeLaws} (prog : Program) p :
  program_ok prog → reachable prog (no_load_fails_linking prog) p →
  (∀ t1 t2 th1 th2, pr_threads p !! t1 = Some th1 → pr_threads p !! t2 = Some th2 →
    (v_table (th_view th1) `prefix_of` v_table (th_view th2) ∨ v_table (th_view th2) `prefix_of` v_table (th_view th1)) ∧
    ∀ i f1 f2, v_table (th_view th1) !! i = Some (Some f1) → v_table (th_view th2) !! i = Some (Some f2) → f1 = f2) ∧
  ∃ v, ∀ t th m, pr_threads p !! t = Some th →
    (∃ s, catch_up prog (mk_st (pr_log p) th m) = (Ok tt, s) ∧ th_view (st_thread s) = v ∧
       st_log s = pr_log p ∧ st_memory s = m ∧ v_table (th_view th) `prefix_of` v_table v) ∧
    ∀ q i, slotted (pr_log p) !! q = Some i →
      ∃ f, export_func prog v q = Some f ∧ v_table v !! Z.to_nat i = Some (Some f).
Proof.
  intros Hprog Hr. destruct (reachable_ok prog Hprog p Hr) as (v & Hl & Ht). split.
  - intros t1 t2 th1 th2 H1%Ht H2%Ht.
    assert (∀ (l1 l2 : list (option Fn)) i f1 f2, l1 `prefix_of` l2 → l1 !! i = Some (Some f1) → l2 !! i = Some (Some f2) → f1 = f2) as Hpre.
    { intros l1 l2 i f1 f2 [k ->] Hi Hj. rewrite (lookup_app_l_Some _ _ _ _ Hi) in Hj. by simplify_eq. }
    destruct (threads_comparable prog _ _ _ _ Hl H1 H2) as [[H _]|[H _]].
    + split; [by left|]. intros i f1 f2 Hi Hj. by eapply Hpre.
    + split; [by right|]. intros i f1 f2 Hi Hj. symmetry. by eapply Hpre.
  - exists v. intros t th m H%Ht. split.
    + destruct (catch_up_Ok prog (mk_st (pr_log p) th m) v Hl H) as (s & Hs & Hv & Hlog & _ & Hm).
      exists s. split_and!; [done|done|done|done|].
      destruct (lo_grows _ _ _ Hl (applied th) (length (events (pr_log p))) (th_view th) v) as [? _]; try done.
      * apply H.
      * apply H.
      * rewrite firstn_all. apply Hl.
    + intros q i Hq. destruct (lo_slotted _ _ _ Hl q i Hq) as (_ & f & Hf & Hi). by exists f.
Qed.

(** ** Examples

    A program with a function "f" in its table; library 1 has a function "g" that it puts into the table
    slot it asks for and takes the address of "f"; library 2 wants a function nobody has. *)
#[local] Instance example_parser : Wasmparser := λ _, [Ok (CustomSection (lit "dylink.0") [1; 4; 0; 0; 1; 0])].

Definition example_imports (m : Z) : list Import :=
  [mk_import (lit "env") (lit "memory") KMemory; mk_import (lit "env") (lit "__table_base") KGlobal] ++
  (if m =? 1 then [mk_import (lit "GOT.func") (lit "h") KGlobal] else [mk_import (lit "GOT.func") (lit "missing") KGlobal]).

#[local] Instance example_wasm : Wasmtime := {|
  Module_ := Z;
  Fn := Z;
  rebind bytes _ _ := Ok bytes;
  compile bytes := match bytes with [] => Err (lit "empty") | m :: _ => Ok m end;
  module_imports := example_imports;
  module_export m n := if bool_decide (m = 0 ∧ (n = lit "f" ∨ n = lit "h") ∨ m = 1 ∧ n = lit "g") then Some KFunc else None;
  instance_func m _ _ n := if bool_decide (m = 0 ∧ n = lit "f") then Some 10
                           else if bool_decide (m = 0 ∧ n = lit "h") then Some 12
                           else if bool_decide (m = 1 ∧ n = lit "g") then Some 11 else None;
  instance_global _ _ _ _ := None;
  instance_elems m _ srcs := match srcs !! 1%nat with Some (Const base) => Ok [(base, 11)] | _ => Ok [] end;
  fn_params _ := Some 0;
  call _ _ := Ok tt;
|}.

Lemma example_laws : WasmtimeLaws.
Proof.
  split; [|done]. intros m i s1 s2 Hs. cbn.
  destruct (s1 !! 1%nat) as [a|] eqn:E1.
  - destruct (Forall2_lookup_l _ _ _ _ _ Hs E1) as (b & E2 & Hab). rewrite E2. destruct a, b; simpl in Hab; congruence || done.
  - apply lookup_ge_None in E1. rewrite (Forall2_length _ _ _ Hs) in E1. apply lookup_ge_None in E1. by rewrite E1.
Qed.

Definition example_program : Program := mk_program 0 (Some (mk_main_table [Some 10] 1 100)).

(** Memory: the two libraries' bytes at 0 and 1, the name at 2. *)
Definition example_memory : mem := [1; 2; chr "l"] ++ replicate 29 0.

Definition example_run (calls : list (Z * Z * Z * Z * Z * Z)) (s : St) : St :=
  foldl (λ s '(op, a0, a1, a2, a3, a4), (dylink_call example_program op a0 a1 a2 a3 a4 s).2) s calls.
Definition example_new (log : DlLog) : St := mk_st log (thread_new example_program) example_memory.

(** Loading library [bytes] as [id]: read it, then link it. *)
Definition example_load (bytes id : Z) : list (Z * Z * Z * Z * Z * Z) := [(0, bytes, 1, 8, 0, 0); (2, id, 0, 2, 1, 1)].

(** A load that fails once it started to link leaves its thread's table one slot longer than the log
    says: the next library goes where no other thread has room for it, and none can catch up again. *)
Lemma failed_load_desynchronizes :
  let loader := example_run (example_load 1 1 ++ example_load 0 2) (example_new log_default) in
  let other := dylink_call example_program 5 0 0 0 0 0 (example_new (st_log loader)) in
  map lib_name (libraries (st_log loader)) = [lit "l"] ∧ other.1 = Ok (-1) ∧
  last_error (st_thread other.2) = lit "l: this thread's table has 1 entries, the process's 2".
Proof. by vm_compute. Qed.

(** Asking for an error with an address out of bounds is not the guest's error but the call's own,
    which no program is blamed for. *)
Lemma error_text_unguarded :
  (dylink_call example_program 7 4096 1 0 0 0
     (mk_st log_default (mk_thread (mk_view [] []) 0 [] ∅ 0 (lit "e") None) example_memory)).1 =
  Err (Failed (lit "guest memory out of bounds")).
Proof. by vm_compute. Qed.

Definition example_loaded : St := example_run (example_load 0 1) (example_new log_default).
Definition example_read : St := example_run [(0, 0, 1, 8, 0, 0)] (example_new log_default).

(** A call of a process's only thread. *)
Lemma reachable_single log th m nr a0 a1 a2 a3 a4 m_ s :
  reachable example_program (no_load_fails_linking example_program) (mk_process log {[ 0%nat := th ]}) →
  syscall example_program nr a0 a1 a2 a3 a4 = Some m_ →
  links example_program (as_i32 (nr - SYSCALL)) a0 a1 a2 a3 a4 (mk_st log th m) →
  (m_ (mk_st log th m)).2 = s → tidy_log (st_log s) →
  reachable example_program (no_load_fails_linking example_program) (mk_process (st_log s) {[ 0%nat := st_thread s ]}).
Proof.
  intros Hr Hc Hl <- Ht. eapply reachable_step; [exact Hr|].
  pose proof (step_call example_program (no_load_fails_linking example_program) (mk_process log {[ 0%nat := th ]}) 0%nat th m nr a0 a1 a2 a3 a4 m_ _ _
                (lookup_singleton_eq _ _) Hc (surjective_pairing _) (conj Hl Ht)) as H.
  cbn [pr_threads] in H. by rewrite insert_singleton_eq in H.
Qed.

Lemma reachable_two log th :
  reachable example_program (no_load_fails_linking example_program) (mk_process log {[ 0%nat := th ]}) →
  reachable example_program (no_load_fails_linking example_program) (mk_process log (<[1%nat := thread_new example_program]> {[ 0%nat := th ]})).
Proof.
  intros Hr. eapply reachable_step; [exact Hr|].
  exact (step_start example_program (no_load_fails_linking example_program) (mk_process log {[ 0%nat := th ]}) 1%nat (lookup_singleton_ne _ _ _ (Nat.neq_0_succ 0))).
Qed.

Lemma example_reachable :
  reachable example_program (no_load_fails_linking example_program) (mk_process (st_log example_loaded) (<[1%nat := thread_new example_program]> {[ 0%nat := st_thread example_loaded ]})).
Proof.
  apply reachable_two.
  eapply (reachable_single (st_log example_read) (st_thread example_read) (st_memory example_read) (SYSCALL + 2) 1 0 2 1 1 _ example_loaded).
  - eapply (reachable_single log_default (thread_new example_program) example_memory (SYSCALL + 0) 0 1 8 0 0 _ example_read).
    + apply (reachable_new _ _ 0%nat).
    + reflexivity.
    + intros H. by vm_compute in H.
    + by vm_compute.
    + intros i l H. by destruct i.
  - reflexivity.
  - intros _ n p s' H. vm_compute in H. injection H as <- <- <-. vm_compute. by eexists.
  - by vm_compute.
  - intros i l H. destruct i as [|i]; vm_compute in H; [|by destruct i]. injection H as <-.
    intros elems He. vm_compute in He. injection He as <-. apply Forall_singleton. vm_compute. done.
Qed.

Lemma dylink_threads_agree_witness :
  ∃ v s, catch_up example_program (mk_st (st_log example_loaded) (thread_new example_program) example_memory) = (Ok tt, s) ∧
    th_view (st_thread s) = v ∧ [Some 10] `prefix_of` v_table v.
Proof.
  destruct (@dylink_threads_agree example_parser example_wasm example_laws example_program _
              (ltac:(intros t [= <-]; vm_compute; by split)) example_reachable) as [_ [v H]].
  destruct (H 1%nat (thread_new example_program) example_memory (lookup_insert_eq _ _ _)) as [(s & Hs & Hv & _ & _ & Hp) _].
  exact (ex_intro _ v (ex_intro _ s (conj Hs (conj Hv Hp)))).
Defined.
