(* ===== verification/User.v ===== *)
(** * Guest programs (engine/src/user.rs)

    The kernel streams a program to the engine, which compiles it ([compile_begin] to [compile_end]),
    and runs it ([call]); what the program asks of the kernel, and the signals the kernel hands to the
    program, are calls into each other on one thread.  WebAssembly is wasmtime's: what code does between
    those calls is a tree ([Code], [Kernel]), and the model has what the engine does around them: who an
    error belongs to, and which code is running when a tick comes. *)
From stdpp Require Import strings list gmap.
From S2P Require Import Prelude Memory Str ModuleInfo.

Local Open Scope Z_scope.

Definition ENOMEM : Z := -12.
Definition EFAULT : Z := -14.
Definition EINVAL : Z := -22.
Definition EINTR : Z := -4.
Definition ENOSYS : Z := -38.
Definition ENOEXEC : Z := -8.

Definition to_i32 (z : Z) : Z := u32 (z + 2147483648) - 2147483648.

(** ** Copies between kernel and program *)

(** The bytes not copied: all or none. *)
Definition copy_bytes (to : mem) (to_at : Z) (from : mem) (from_at length : Z) : Z * mem :=
  match guest_bytes from from_at length, guest_bytes to to_at length with
  | Some source, Some _ =>
      (0, take (Z.to_nat to_at) to ++ source ++ drop (Z.to_nat to_at + List.length source) to)
  | _, _ => (to_i32 length, to)
  end.

Definition write_zeroes (to : mem) (at_ length : Z) : Z * mem :=
  match guest_bytes to at_ length with
  | None => (to_i32 length, to)
  | Some _ => (0, take (Z.to_nat at_) to ++ replicate (Z.to_nat length) 0 ++ drop (Z.to_nat at_ + Z.to_nat length) to)
  end.

(** A word of the program's memory, aligned and in bounds. *)
Definition user_word (memory : mem) (address : Z) : option Z :=
  if negb (address mod 4 =? 0) then None
  else if mem_size memory <? address + 4 then None
  else Some (to_i32 (le_val (slice (Z.to_nat address) (Z.to_nat address + 4) memory))).
Definition set_word (memory : mem) (address value : Z) : mem :=
  take (Z.to_nat address) memory ++ le_bytes 4 (u32 value) ++ drop (Z.to_nat address + 4) memory.

Definition write_kernel_u32 (memory : mem) (address value : Z) : option mem :=
  if mem_size memory <? address + 4 then None else Some (set_word memory address value).

(** What FUTEX_OP_SET, ADD, OR, ANDN and XOR make of a word. *)
Definition futex_value (op old oparg : Z) : option Z :=
  if op =? 0 then Some oparg
  else if op =? 1 then Some (to_i32 (old + oparg))
  else if op =? 2 then Some (Z.lor old oparg)
  else if op =? 3 then Some (Z.land old (Z.lnot oparg))
  else if op =? 4 then Some (Z.lxor old oparg)
  else None.

(** The answer, the kernel's memory and the program's: the old word goes to the kernel. *)
Definition futex_atomic_op (kernel program : mem) (oldval uaddr op oparg : Z) : Z * mem * mem :=
  match user_word program uaddr with
  | None => (EFAULT, kernel, program)
  | Some old =>
      match futex_value op old oparg with
      | None => (ENOSYS, kernel, program)
      | Some new =>
          let program := set_word program uaddr new in
          match write_kernel_u32 kernel oldval old with
          | Some kernel => (0, kernel, program)
          | None => (EFAULT, kernel, program)
          end
      end
  end.

Definition futex_atomic_cmpxchg (kernel program : mem) (oldval uaddr expected replacement : Z) : Z * mem * mem :=
  match user_word program uaddr with
  | None => (EFAULT, kernel, program)
  | Some old =>
      let program := if old =? expected then set_word program uaddr replacement else program in
      match write_kernel_u32 kernel oldval old with
      | Some kernel => (0, kernel, program)
      | None => (EFAULT, kernel, program)
      end
  end.

(** ** Compiling *)

(** wasmtime's part of it: modules, what they import, compiling, and memory for a program. *)
Class Compiler : Type := {
  Module_ : Type;
  hash_bytes : list Z → Z;
  compile : list Z → result str Module_;
  module_imports : Module_ → list (str * str);
  allocate : Z → Z → option mem;
}.

Section compiling.
Context {WP : Wasmparser} {C : Compiler}.

Record UserContext := mk_context {
  cx_module : Module_;
  cx_memory : mem;
  cx_maximum_pages : Z;
}.

(** What compiling keeps: the thread's pending program and the machine's compiled programs. *)
Record Compiling := mk_compiling {
  pending_bytes : option (list Z);
  pending_context : option UserContext;
  programs : gmap Z Module_;
}.

Definition compile_begin (s : Compiling) (size : Z) : Z * Compiling :=
  if 512 * 1024 * 1024 <? size then (ENOMEM, mk_compiling None None (programs s))
  else (0, mk_compiling (Some (replicate (Z.to_nat size) 0)) None (programs s)).

Definition compile_write (s : Compiling) (kernel : mem) (source offset length : Z) : Z * Compiling :=
  match pending_bytes s with
  | None => (EINVAL, s)
  | Some buffer =>
      match guest_bytes kernel source length with
      | None => (EINVAL, s)
      | Some bytes =>
          if Z.of_nat (List.length buffer) <? offset + length then (EINVAL, s)
          else (0, mk_compiling (Some (take (Z.to_nat offset) buffer ++ bytes ++ drop (Z.to_nat offset + Z.to_nat length) buffer))
                     (pending_context s) (programs s))
      end
  end.

Definition compile_abort (s : Compiling) : Compiling := mk_compiling None None (programs s).

Definition SUPPORTED : list (str * str) :=
  [(lit "env", lit "memory"); (lit "linux", lit "syscall"); (lit "linux", lit "get_thread_area"); (lit "linux", lit "copy_siginfo")].
Definition imports_supported (m : Module_) : bool := forallb (λ i, bool_decide (i ∈ SUPPORTED)) (module_imports m).

(** A program this machine has not compiled: [interrupted] when a fatal signal ends the wait, while the
    compile goes on and its result is kept all the same. *)
Definition compile_waiting (s : Compiling) (bytes : list Z) (interrupted : bool) : option (result str Module_) * Compiling :=
  let compiled := compile bytes in
  let s := match compiled with
           | Ok m => mk_compiling (pending_bytes s) (pending_context s) (<[hash_bytes bytes := m]> (programs s))
           | Err _ => s
           end in
  (if interrupted then None else Some compiled, s).

Definition compile_end (s : Compiling) (rlimit_pages : Z) (interrupted : bool) : Z * Compiling :=
  match pending_bytes s with
  | None => (EINVAL, s)
  | Some bytes =>
      let s := mk_compiling None (pending_context s) (programs s) in
      match memory_import bytes with
      | Err _ => (ENOEXEC, s)
      | Ok (info, _) =>
          let minimum := minimum_pages info in
          let maximum := default 0 (maximum_pages info) in
          if negb (is_shared info) || (maximum =? 0) then (ENOEXEC, s)
          else
            let '(compiled, s) := match programs s !! hash_bytes bytes with
                                  | Some m => (Some (Ok m), s)
                                  | None => compile_waiting s bytes interrupted
                                  end in
            match compiled with
            | None => (EINTR, s)
            | Some (Err _) => (ENOEXEC, s)
            | Some (Ok m) =>
                if negb (imports_supported m) then (ENOEXEC, s)
                else
                  let maximum := Z.min maximum rlimit_pages in
                  if maximum <? minimum then (ENOMEM, s)
                  else match allocate minimum maximum with
                       | None => (ENOMEM, s)
                       | Some memory => (0, mk_compiling (pending_bytes s) (Some (mk_context m memory maximum)) (programs s))
                       end
            end
      end
  end.

(** A private copy of a program's memory, for fork; a new memory has as many bytes as its pages. *)
Definition copy_context (context : UserContext) : option UserContext :=
  destination ← allocate (mem_size (cx_memory context) / 65536) (cx_maximum_pages context);
  Some (mk_context (cx_module context)
          (cx_memory context ++ drop (length (cx_memory context)) destination) (cx_maximum_pages context)).
End compiling.

(** ** Running *)

(** What an error is made of, its contexts before what it is about: a trap, an exception nobody caught
    yet, and the engine's own marks.  The last four only say where the engine itself failed, which no
    code looks at: a function that is not there or does not fit ([NoEntry]), a program that could not be
    instantiated ([NoInstance]), a buffer outside the program's memory ([NoBuffer]), no program at all. *)
Inductive Cause : Type :=
  | Trap | ThrownException
  | HaltUser | UserTrapped | UncaughtException | KernelFailed
  | NoEntry | NoInstance | NoBuffer | HostFailed.
#[export] Instance cause_eq_dec : EqDecision Cause.
Proof. solve_decision. Defined.
Abbreviation error := (list Cause).

Definition has (c : Cause) (e : error) : bool := bool_decide (c ∈ e).

Definition is_user_trap (e : error) : bool :=
  if has KernelFailed e then false
  else has UserTrapped e || has UncaughtException e || has Trap e.

(** A trap of a signal handler or an exec passes; anything else failed in the kernel. *)
Definition kernel_error (e : error) : error :=
  if has HaltUser e || has UserTrapped e then e else KernelFailed :: e.

Definition mark_user_trap (e : error) : error :=
  if (has Trap e || has UncaughtException e) && negb (has KernelFailed e) then UserTrapped :: e else e.

Inductive Entry : Type :=
  | Start
  | Function (function arg : Z).

(** A program's instance: whether it has a start function, and the functions of its table that can be
    called the way the kernel calls one. *)
Record Instance_ := mk_instance {
  has_start : bool;
  callable : Z → bool;
}.

Record User := mk_user {
  instance : option Instance_;
  entry : Entry;
  generation : Z;
  siginfo_results : list (option Z);
  in_user : bool;
  has_interrupt : bool;
  pending_exception : bool;
}.

(** What code does, up to where it returns or fails: the program's calls and ticks, and the kernel's calls
    back into the program and the engine.  A handler that fails ends what called it.  Of the dylink calls
    (dylink.rs [syscall], which the engine answers before the kernel sees them) those that run code of the
    program (a library's start section, its constructors, [__wasm_init_tls]) are [Dylink], the one that
    hands out the error text is [DylinkError], with whether the buffer is inside the memory; the others
    answer, with what they found or -1, and change nothing here.  A program that replaces another comes with
    its start section ([KInstantiate]), or cannot be linked ([KUnlinked]). *)
Inductive Code : Type :=
  | Returns
  | Traps
  | Throws
  | Tick (interrupt : Kernel) (rest : Code)
  | Syscall (kernel : Kernel) (rest : Code)
  | ThreadArea (kernel : Kernel) (rest : Code)
  | CopySiginfo (kernel : Kernel) (rest : Code)
  | Dylink (library rest : Code)
  | DylinkError (inside : bool) (rest : Code)
with Kernel : Type :=
  | KReturns (value : Z)
  | KTraps
  | KTick (interrupt rest : Kernel)
  | KSwitchEntry (function arg : Z) (rest : Kernel)
  | KInstantiate (section : Code) (i : Instance_) (rest : Kernel)
  | KUnlinked
  | KSignal (function : Z) (handler : Code) (rest : Kernel)
  | KSiginfo (trampoline : Z) (handler : Code) (cleared : bool) (rest : Kernel).

Definition set_in_user (b : bool) (u : User) : User :=
  mk_user (instance u) (entry u) (generation u) (siginfo_results u) b (has_interrupt u) (pending_exception u).
Definition set_entry (e : Entry) (u : User) : User :=
  mk_user (instance u) e (generation u) (siginfo_results u) (in_user u) (has_interrupt u) (pending_exception u).
Definition set_siginfo (l : list (option Z)) (u : User) : User :=
  mk_user (instance u) (entry u) (generation u) l (in_user u) (has_interrupt u) (pending_exception u).
Definition set_exception (b : bool) (u : User) : User :=
  mk_user (instance u) (entry u) (generation u) (siginfo_results u) (in_user u) (has_interrupt u) b.

(** An exception out of the program's code, taken off the store. *)
Definition uncaught (e : error) (u : User) : error * User :=
  if has ThrownException e then ([UncaughtException], set_exception false u) else (e, u).

(** A new instance in the program's place. *)
Definition instantiate (i : Instance_) (u : User) : User :=
  mk_user (Some i) (entry u) (u64 (generation u + 1)) (siginfo_results u) (in_user u) (has_interrupt u) (pending_exception u).

(** [guarded] of dylink.rs: the errors that pass it; any other is the answer -1. *)
Definition passes_guard (e : error) : bool := has Trap e || has ThrownException e.

(** The function of the program's table at an index. *)
Definition table_function (u : User) (function : Z) : result error unit :=
  match instance u with
  | None => Err [HostFailed]
  | Some i => if callable i function then Ok tt else Err [NoEntry]
  end.

(** [siginfo_results.last_mut()] set to a result. *)
Definition set_last (v : Z) (l : list (option Z)) : list (option Z) :=
  match l with [] => [] | _ => take (length l - 1) l ++ [Some v] end.

Fixpoint run_code (c : Code) (u : User) : result error unit * User :=
  match c with
  | Returns => (Ok tt, u)
  | Traps => (Err [Trap], u)
  | Throws => (Err [ThrownException], set_exception true u)
  | Tick k rest =>
      (* on_epoch *)
      if in_user u && has_interrupt u then
        let '(r, u) := run_kernel k (set_in_user false u) in
        let u := set_in_user true u in
        match r with Ok _ => run_code rest u | Err e => (Err (kernel_error e), u) end
      else run_code rest u
  | Syscall k rest =>
      let before := generation u in
      let was := in_user u in
      let '(r, u) := run_kernel k (set_in_user false u) in
      let u := set_in_user was u in
      match r with
      | Err e => (Err (kernel_error e), u)
      | Ok _ => if negb (generation u =? before) then (Err [HaltUser], set_entry Start u) else run_code rest u
      end
  | ThreadArea k rest =>
      let was := in_user u in
      let '(r, u) := run_kernel k (set_in_user false u) in
      let u := set_in_user was u in
      match r with Err e => (Err e, u) | Ok _ => run_code rest u end
  | CopySiginfo k rest =>
      let was := in_user u in
      let '(r, u) := run_kernel k (set_in_user false u) in
      let u := set_in_user was u in
      match r with
      | Err e => (Err e, u)
      | Ok v => run_code rest (set_siginfo (set_last v (siginfo_results u)) u)
      end
  | Dylink library rest =>
      (* in the program's mode still: the engine's part is of the program's own *)
      let '(r, u) := run_code library u in
      match r with
      | Ok _ => run_code rest u
      | Err e => if passes_guard e then (Err e, u) else run_code rest u
      end
  | DylinkError inside rest => if inside then run_code rest u else (Err [NoBuffer], u)
  end
with run_kernel (k : Kernel) (u : User) : result error Z * User :=
  match k with
  | KReturns v => (Ok v, u)
  | KTraps => (Err [Trap], u)
  | KTick k rest =>
      (* on_epoch, which takes the kernel's own code for no user mode *)
      if in_user u && has_interrupt u then
        let '(r, u) := run_kernel k (set_in_user false u) in
        let u := set_in_user true u in
        match r with Ok _ => run_kernel rest u | Err e => (Err (kernel_error e), u) end
      else run_kernel rest u
  | KSwitchEntry f a rest => run_kernel rest (set_entry (Function f a) u)
  | KInstantiate section i rest =>
      let '(r, u) := run_code section u in
      match r with Ok _ => run_kernel rest (instantiate i u) | Err e => (Err (NoInstance :: e), u) end
  | KUnlinked => (Err [NoInstance], u)
  | KSignal f handler rest =>
      (* call_signal_handler *)
      match table_function u f with
      | Err e => (Err e, u)
      | Ok _ =>
          let was := in_user u in
          let '(r, u) := run_code handler (set_in_user true u) in
          let u := set_in_user was u in
          match r with
          | Ok _ => run_kernel rest u
          | Err e => let '(e, u) := uncaught e u in (Err (mark_user_trap e), u)
          end
      end
  | KSiginfo t handler cleared rest =>
      (* call_siginfo_handler *)
      match table_function u t with
      | Err e => (Err e, u)
      | Ok _ =>
          let was := in_user u in
          let '(r, u) := run_code handler (set_in_user true (set_siginfo (siginfo_results u ++ [None]) u)) in
          let u := set_in_user was u in
          let '(called, u) := match r with
                              | Ok _ => (Ok tt, u)
                              | Err e => let '(e, u) := uncaught e u in (Err (mark_user_trap e), u)
                              end in
          let u := set_siginfo (take (length (siginfo_results u) - 1) (siginfo_results u)) u in
          match called, cleared with
          | Err e, _ => (Err e, u)
          | Ok _, false => (Err [Trap], u)
          | Ok _, true => run_kernel rest u
          end
      end
  end.

(** Where a program starts. *)
Definition start_of (code : Code) (u : User) : result error unit * User :=
  match instance u, entry u with
  | None, _ => (Err [HostFailed], u)
  | Some i, Start => if has_start i then run_code code u else (Err [NoEntry], u)
  | Some i, Function f _ => if callable i f then run_code code u else (Err [NoEntry], u)
  end.

(** [call]: runs a program, and each that replaces it; [None] while it runs on past [codes]. *)
Fixpoint call (codes : list Code) (u : User) : option (result error unit) * User :=
  match codes with
  | [] => (None, u)
  | code :: codes =>
      match instance u with
      | None => (Some (Err [HostFailed]), u)
      | Some _ =>
          let was := in_user u in
          let '(r, u) := start_of code (set_in_user true u) in
          let u := set_in_user was u in
          match r with
          | Ok _ => (Some (Ok tt), u)
          | Err e =>
              let '(e, u) := uncaught e u in
              if has HaltUser e then call codes u
              else if is_user_trap e then (Some (Ok tt), u)
              else (Some (Err e), u)
          end
      end
  end.

(** ** Lemmas *)

Scheme code_ind' := Induction for Code Sort Prop
  with kernel_ind' := Induction for Kernel Sort Prop.
Combined Scheme code_kernel_ind from code_ind', kernel_ind'.





































(** ** The kernel's own code is never interrupted *)

(** The same code, with no ticks in the kernel's part of it. *)
Fixpoint quiet_code (c : Code) : Code :=
  match c with
  | Returns => Returns
  | Traps => Traps
  | Throws => Throws
  | Tick k rest => Tick (quiet_kernel k) (quiet_code rest)
  | Syscall k rest => Syscall (quiet_kernel k) (quiet_code rest)
  | ThreadArea k rest => ThreadArea (quiet_kernel k) (quiet_code rest)
  | CopySiginfo k rest => CopySiginfo (quiet_kernel k) (quiet_code rest)
  | Dylink library rest => Dylink (quiet_code library) (quiet_code rest)
  | DylinkError inside rest => DylinkError inside (quiet_code rest)
  end
with quiet_kernel (k : Kernel) : Kernel :=
  match k with
  | KReturns v => KReturns v
  | KTraps => KTraps
  | KTick _ rest => quiet_kernel rest
  | KSwitchEntry f a rest => KSwitchEntry f a (quiet_kernel rest)
  | KInstantiate section i rest => KInstantiate (quiet_code section) i (quiet_kernel rest)
  | KUnlinked => KUnlinked
  | KSignal f handler rest => KSignal f (quiet_code handler) (quiet_kernel rest)
  | KSiginfo t handler cleared rest => KSiginfo t (quiet_code handler) cleared (quiet_kernel rest)
  end.

Lemma uncaught_in_user e u e' u' : uncaught e u = (e', u') → in_user u' = in_user u.
Proof. unfold uncaught. destruct (has _ _); by intros [= _ <-]. Qed.

(** Whoever runs, the mode is as it was afterwards. *)
Lemma mode_kept :
  (∀ c u, in_user (run_code c u).2 = in_user u) ∧ (∀ k u, in_user (run_kernel k u).2 = in_user u).
Proof.
  apply code_kernel_ind; cbn [run_code run_kernel]; try done.
  - intros k Hk rest Hrest u. destruct (in_user u && has_interrupt u) eqn:E; [|apply Hrest].
    apply andb_true_iff in E as [E _]. destruct (run_kernel k _) as [[v|e] u']; [by rewrite Hrest|done].
  - intros k Hk rest Hrest u. destruct (run_kernel k _) as [[v|e] u']; [|done].
    destruct (negb _); [done|by rewrite Hrest].
  - intros k Hk rest Hrest u. destruct (run_kernel k _) as [[v|e] u']; [by rewrite Hrest|done].
  - intros k Hk rest Hrest u. destruct (run_kernel k _) as [[v|e] u']; [by rewrite Hrest|done].
  - intros l Hl rest Hrest u. specialize (Hl u). destruct (run_code l u) as [[[]|e] u']; [by rewrite Hrest|].
    destruct (passes_guard e); [done|by rewrite Hrest].
  - intros [] rest Hrest u; [by rewrite Hrest|done].
  - intros k Hk rest Hrest u. destruct (in_user u && has_interrupt u) eqn:E; [|apply Hrest].
    apply andb_true_iff in E as [E _]. destruct (run_kernel k _) as [[v|e] u']; [by rewrite Hrest|done].
  - intros f a rest Hrest u. by rewrite Hrest.
  - intros section Hs i rest Hrest u. specialize (Hs u). destruct (run_code section u) as [[[]|e] u']; [|done].
    by rewrite Hrest.
  - intros f handler Hc rest Hrest u. destruct (table_function u f); [|done].
    destruct (run_code handler _) as [[[]|e] u']; [by rewrite Hrest|].
    destruct (uncaught e _) as [e' u2] eqn:E. by apply uncaught_in_user in E.
  - intros t handler Hc cleared rest Hrest u. destruct (table_function u t); [|done].
    destruct (run_code handler _) as [[[]|e] u']; [destruct cleared; [by rewrite Hrest|done]|].
    destruct (uncaught e _) as [e' u2] eqn:E. by apply uncaught_in_user in E.
Qed.

Lemma quiet_runs :
  (∀ c u, run_code (quiet_code c) u = run_code c u) ∧
  (∀ k u, in_user u = false → run_kernel (quiet_kernel k) u = run_kernel k u).
Proof.
  apply code_kernel_ind; cbn [quiet_code quiet_kernel run_code run_kernel]; try done.
  - intros k Hk rest Hrest u. destruct (_ && _); [|by apply Hrest].
    rewrite (Hk (set_in_user false u) eq_refl). destruct (run_kernel k _) as [[v|e] u']; [apply Hrest|done].
  - intros k Hk rest Hrest u. rewrite (Hk (set_in_user false u) eq_refl).
    destruct (run_kernel k _) as [[v|e] u']; [|done]. destruct (negb _); [done|apply Hrest].
  - intros k Hk rest Hrest u. rewrite (Hk (set_in_user false u) eq_refl).
    destruct (run_kernel k _) as [[v|e] u']; [apply Hrest|done].
  - intros k Hk rest Hrest u. rewrite (Hk (set_in_user false u) eq_refl).
    destruct (run_kernel k _) as [[v|e] u']; [apply Hrest|done].
  - intros l Hl rest Hrest u. rewrite Hl. destruct (run_code l u) as [[[]|e] u']; [apply Hrest|].
    destruct (passes_guard e); [done|apply Hrest].
  - intros [] rest Hrest u; [apply Hrest|done].
  - intros k _ rest Hrest u Hu. rewrite Hu. by apply Hrest.
  - intros f a rest Hrest u Hu. by apply Hrest.
  - intros section Hs i rest Hrest u Hu. rewrite Hs. pose proof (proj1 mode_kept section u) as Hm.
    destruct (run_code section u) as [[[]|e] u']; [|done]. apply Hrest. cbn in *. congruence.
  - intros f handler Hc rest Hrest u Hu. rewrite Hc. destruct (table_function u f); [|done].
    destruct (run_code handler _) as [[[]|e] u']; [by apply Hrest|done].
  - intros t handler Hc cleared rest Hrest u Hu. rewrite Hc. destruct (table_function u t); [|done].
    destruct (run_code handler _) as [[[]|e] u'].
    + destruct cleared; [by apply Hrest|done].
    + by destruct (uncaught e _) as [e' u2].
Qed.

(** ** Properties *)


(** C33: the kernel's own code is never interrupted: whatever ticks come while it runs, in system calls,
    in signal deliveries or in an interrupt itself, a program runs as if they had not. *)
Theorem user_kernel_uninterrupted codes u :
  call (quiet_code <$> codes) u = call codes u.
Proof.
  revert u. induction codes as [|code codes IH]; intros u; [done|]. cbn [fmap list_fmap call].
  destruct (instance u) as [i|]; [|done].
  assert (start_of (quiet_code code) (set_in_user true u) = start_of code (set_in_user true u)) as ->.
  { unfold start_of. repeat case_match; done || apply quiet_runs. }
  destruct (start_of code _) as [[[]|e] u1]; [done|]. destruct (uncaught e _) as [e' u2].
  destruct (has HaltUser e'); [apply IH|done].
Qed.

(** ** Copies and compiling *)

(** A copy is done whole, inside both memories, or not at all. *)
Lemma copy_bytes_whole to to_at from from_at n left to' :
  0 <= to_at → 0 <= from_at → 0 <= n < 4294967296 → copy_bytes to to_at from from_at n = (left, to') →
  (left = to_i32 n ∧ to' = to) ∨
  (left = 0 ∧ from_at + n <= mem_size from ∧ to_at + n <= mem_size to ∧
   to' = take (Z.to_nat to_at) to ++ slice (Z.to_nat from_at) (Z.to_nat (from_at + n)) from ++ drop (Z.to_nat (to_at + n)) to ∧
   length to' = length to).
Proof.
  intros Ht Hf Hn. unfold copy_bytes.
  destruct (guest_bytes from from_at n) as [source|] eqn:Es; [|intros [= <- <-]; by left].
  destruct (guest_bytes to to_at n) as [target|] eqn:Et; [|intros [= <- <-]; by left].
  apply guest_bytes_Some in Es as (Hfrom & -> & Hl); [|lia..]. apply guest_bytes_Some in Et as (Hto & _ & _); [|lia..].
  intros [= <- <-]. right. unfold mem_size in *.
  rewrite Hl. replace (Z.to_nat to_at + Z.to_nat n)%nat with (Z.to_nat (to_at + n)) by lia.
  split_and!; [done|done|done|done|]. rewrite !length_app, length_take, length_drop, Hl. lia.
Qed.

(** Writing a program's bytes does not change how many there are. *)
Lemma compile_write_length {WP : Wasmparser} {C : Compiler} s kernel source offset n r s' buffer :
  pending_bytes s = Some buffer → 0 <= source → 0 <= offset → 0 <= n → compile_write s kernel source offset n = (r, s') →
  ∃ buffer', pending_bytes s' = Some buffer' ∧ length buffer' = length buffer ∧
    (r = 0 → slice (Z.to_nat offset) (Z.to_nat (offset + n)) buffer' = slice (Z.to_nat source) (Z.to_nat (source + n)) kernel).
Proof.
  intros Hb Hs Ho Hn. unfold compile_write. rewrite Hb.
  destruct (guest_bytes kernel source n) as [bytes|] eqn:E; [|intros [= <- <-]; by exists buffer].
  destruct (Z.ltb_spec (Z.of_nat (length buffer)) (offset + n)); [intros [= <- <-]; by exists buffer|].
  apply guest_bytes_Some in E as (Hk & -> & Hl); [|lia..]. intros [= <- <-]. eexists. split; [done|]. unfold mem_size in *.
  set (bytes := slice _ _ _) in *.
  split; [rewrite !length_app, length_take, length_drop, Hl; lia|]. intros _.
  unfold slice at 1. rewrite drop_app_le by (rewrite length_take; lia). rewrite drop_ge by (rewrite length_take; lia).
  cbn. rewrite take_app_le by lia. apply take_ge. lia.
Qed.

(** What runs in the end is a program that imports nothing but what the engine has, from the very
    bytes written or, by their hash, from ones compiled before, with memory within the limit asked for. *)
Lemma compile_end_program {WP : Wasmparser} {C : Compiler} s pages interrupted s' :
  compile_end s pages interrupted = (0, s') →
  ∃ bytes context info, pending_bytes s = Some bytes ∧ pending_context s' = Some context ∧ pending_bytes s' = None ∧
    memory_import bytes = Ok info ∧ is_shared info.1 = true ∧
    imports_supported (cx_module context) = true ∧
    (programs s !! hash_bytes bytes = Some (cx_module context) ∨ compile bytes = Ok (cx_module context)) ∧
    minimum_pages info.1 <= cx_maximum_pages context <= pages ∧
    allocate (minimum_pages info.1) (cx_maximum_pages context) = Some (cx_memory context).
Proof.
  unfold compile_end. destruct (pending_bytes s) as [bytes|]; [|done].
  destruct (memory_import bytes) as [[info pgs]|] eqn:Em; [|done]. cbv zeta.
  destruct (is_shared info) eqn:Eshared; [|done]. cbn [negb orb].
  destruct (default 0 (maximum_pages info) =? 0); [done|].
  destruct (match programs s !! hash_bytes bytes with Some m => _ | None => _ end) as [compiled s1] eqn:Ec.
  cbn [programs] in Ec.
  assert (pending_bytes s1 = None ∧ ∀ m, compiled = Some (Ok m) → programs s !! hash_bytes bytes = Some m ∨ compile bytes = Ok m) as [Hs1 Hm].
  { destruct (programs s !! hash_bytes bytes) as [m|] eqn:Ep; [injection Ec as <- <-; split; [done|intros m' [= <-]; by left]|].
    unfold compile_waiting in Ec. destruct (compile bytes) as [m|] eqn:Ecm, interrupted; injection Ec as <- <-; (split; [done|]);
      [by intros|intros m' [= <-]; by right|by intros..]. }
  destruct compiled as [[m|]|]; [|done..]. destruct (imports_supported m) eqn:Ei; [|done]. cbn [negb].
  destruct (Z.ltb_spec (Z.min (default 0 (maximum_pages info)) pages) (minimum_pages info)); [done|].
  destruct (allocate _ _) as [memory|] eqn:Ea; [|done]. intros [= <-].
  eexists bytes, _, (info, pgs). cbn [fst cx_module cx_memory cx_maximum_pages pending_context pending_bytes].
  split_and!; try done; [by apply Hm|cbn [cx_maximum_pages]; lia..].
Qed.

(** ** Examples *)

Definition example_user : User :=
  mk_user (Some (mk_instance true (λ f, f =? 7))) Start 1 [] false true false.


(** A handler that is not in the program's table, which any program may ask for (sigaction takes an
    address), or a thread function: the machine ends, not the program. *)
Lemma bad_handler_ends_machine :
  (call [Syscall (KSignal 99999 Returns (KReturns 0)) Returns] example_user).1 = Some (Err [KernelFailed; NoEntry]) ∧
  (call [Returns] (set_entry (Function 99999 0) example_user)).1 = Some (Err [NoEntry]).
Proof. by split. Qed.

(** A program that cannot be instantiated: whether an import has another type than the engine's or its
    start section traps, the machine ends, not the program; if the section throws, the program does. *)
Lemma bad_program_ends_machine :
  (call [Syscall KUnlinked Returns] example_user).1 = Some (Err [KernelFailed; NoInstance]) ∧
  (call [Syscall (KInstantiate Traps (mk_instance true (λ _, false)) (KReturns 0)) Returns] example_user).1 =
    Some (Err [KernelFailed; NoInstance; Trap]) ∧
  (call [Syscall (KInstantiate Throws (mk_instance true (λ _, false)) (KReturns 0)) Returns] example_user).1 = Some (Ok tt).
Proof. by split_and!. Qed.

(** The dylink call for the error text is not guarded: a buffer outside the memory ends the machine. *)
Lemma bad_buffer_ends_machine : (call [DylinkError false Returns] example_user).1 = Some (Err [NoBuffer]).
Proof. done. Qed.

(** A library's constructor that execs: [guarded] takes what ends the old program's frames for a failed
    call, so the old program runs on in the new one's place ([Returns] here, with the new program never
    started), where the same exec from the program itself goes on with the new program's code. *)
Lemma exec_in_constructor_goes_on :
  let exec := Syscall (KInstantiate Returns (mk_instance true (λ _, false)) (KReturns 0)) Returns in
  (call [Dylink exec Returns] example_user).1 = Some (Ok tt) ∧
  (call [exec] example_user).1 = None ∧ (call [exec; Traps] example_user).1 = Some (Ok tt).
Proof. by split_and!. Qed.

(** Where the kernel itself traps: in a system call the machine ends; in the two calls whose errors are
    not marked, it is the program that is ended. *)
Lemma kernel_trap_blamed :
  (call [Syscall KTraps Returns] example_user).1 = Some (Err [KernelFailed; Trap]) ∧
  (call [ThreadArea KTraps Returns] example_user).1 = Some (Ok tt).
Proof. by split. Qed.


Lemma example_tick_ignored :
  call [Syscall (KTick KTraps (KReturns 0)) Returns] example_user = call [Syscall (KReturns 0) Returns] example_user.
Proof. done. Qed.
