(* ===== verification/ProgramCache.v ===== *)
(** * Compiled guest programs on disk (engine/src/program_cache.rs)

    A large program is compiled once and kept, serialized, under the hash of its bytes; the least
    recently used files make room.  Compiling, serializing and hashing are wasmtime's and ring's, the
    class [CacheHost]; a directory is its files by name. *)
From stdpp Require Import strings list gmap sorting.
From S2P Require Import Prelude Str.

Local Open Scope Z_scope.

Definition LARGE : Z := 1048576.
Definition BUDGET : Z := 2147483648.

Class CacheHost : Type := {
  Module_ : Type;
  compile : list Z → result str Module_;
  serialize : Module_ → result str (list Z);
  deserialize : list Z → option Module_;
  sha256 : list Z → list Z;
  settings : Z;
}.

(** A file: when it was last used and its bytes; the directory. *)
Record CacheFile := mk_file { cf_modified : Z; cf_bytes : list Z }.
Abbreviation directory := (gmap str CacheFile).

(** [{:02x}] of each byte, [{:016x}] of a number. *)
Definition hex_byte (b : Z) : str := [hex_char (b / 16); hex_char (b mod 16)].
Definition hex16 (n : Z) : str := mjoin (hex_byte <$> be_bytes 8 n).

(** ** Making room *)

(** Byte strings in their order. *)
Fixpoint str_le (a b : str) : bool :=
  match a, b with
  | [], _ => true
  | _ :: _, [] => false
  | x :: a, y :: b => if x =? y then str_le a b else x <? y
  end.

(** The order of [(modified, len, path)]. *)
Definition older (a b : Z * Z * str) : bool :=
  if a.1.1 =? b.1.1 then if a.1.2 =? b.1.2 then str_le a.2 b.2 else a.1.2 <? b.1.2 else a.1.1 <? b.1.1.

Definition before (a b : Z * Z * str) : Prop := older a b = true.
#[export] Instance before_dec : RelDecision before.
Proof. intros a b. unfold before. apply bool_eq_dec. Defined.

(** Deletes files, the first first, until the total fits; one that cannot be deleted stays. *)
Fixpoint evict (removable : str → bool) (files : list (Z * Z * str)) (total : Z) : list str * Z :=
  match files with
  | [] => ([], total)
  | (_, len, path) :: files =>
      if total <=? BUDGET then ([], total)
      else if removable path then
        let '(gone, total) := evict removable files (total - len) in (path :: gone, total)
      else evict removable files total
  end.

Definition cached (d : directory) : list (Z * Z * str) :=
  (λ x, (cf_modified x.2, Z.of_nat (length (cf_bytes x.2)), x.1)) <$>
    filter (λ x, ends_with (lit ".cwasm") x.1 = true ∧ x.1 ≠ lit ".cwasm") (map_to_list d).

Definition sum_len (files : list (Z * Z * str)) : Z := foldr (λ f acc, f.1.2 + acc) 0 files.

Definition make_room (removable : str → bool) (d : directory) (incoming : Z) : directory :=
  let files := cached d in
  let gone := (evict removable (merge_sort before files) (sum_len files + incoming)).1 in
  foldl (λ d path, delete path d) d gone.

(** ** The cache *)

Section cache.
Context {H : CacheHost}.

Definition file_name (bytes : list Z) : str :=
  mjoin (hex_byte <$> sha256 bytes) ++ lit "-" ++ hex16 settings ++ lit ".cwasm".

(** What the host does: the time, which files can be deleted, and whether a file can be written. *)
Record CacheEnv := mk_cache_env {
  env_now : Z;
  env_removable : str → bool;
  env_writable : bool;
}.

Definition store (env : CacheEnv) (d : directory) (name : str) (m : Module_) : bool * directory :=
  match serialize m with
  | Err _ => (false, d)
  | Ok bytes =>
      let d := make_room (env_removable env) d (Z.of_nat (length bytes)) in
      if env_writable env then (true, <[name := mk_file (env_now env) bytes]> d) else (false, d)
  end.

(** A file's time set to now; and the module compiled and kept, the kept one taken when it can be read. *)
Definition touch (env : CacheEnv) (d : directory) (name : str) (f : CacheFile) : directory :=
  if env_writable env then <[name := mk_file (env_now env) (cf_bytes f)]> d else d.
Definition compile_and_keep (env : CacheEnv) (d : directory) (name : str) (bytes : list Z) : result str Module_ * directory :=
  match compile bytes with
  | Err e => (Err e, d)
  | Ok m =>
      let '(stored, d) := store env d name m in
      (Ok (if stored then default m (f ← d !! name; deserialize (cf_bytes f)) else m), d)
  end.

(** The module and what becomes of the directory; without one ([None]), and for small programs, it is
    only compiled. *)
Definition load_or_compile (env : CacheEnv) (dir : option directory) (bytes : list Z) : result str Module_ * option directory :=
  match dir with
  | None => (compile bytes, None)
  | Some d =>
      if Z.of_nat (length bytes) <? LARGE then (compile bytes, Some d)
      else
        let name := file_name bytes in
        match d !! name with
        | Some f =>
            match deserialize (cf_bytes f) with
            | Some m => (Ok m, Some (touch env d name f))
            | None => let '(r, d) := compile_and_keep env d name bytes in (r, Some d)
            end
        | None => let '(r, d) := compile_and_keep env d name bytes in (r, Some d)
        end
  end.

(** [~/.cache]. *)
Definition home_cache (home : option str) : option str := (λ h, h ++ lit "/.cache") <$> home.

(** The directory: what the variables name, if it can be made. *)
Definition cache_dir (program_cache xdg_cache_home home : option str) (can_make : str → bool) : option str :=
  dir ← match program_cache with
        | Some value => if bool_decide (value = lit "off" ∨ value = []) then None else Some value
        | None =>
            base ← match xdg_cache_home with
                   | Some x => if bool_decide (x = []) then home_cache home else Some x
                   | None => home_cache home
                   end;
            Some (base ++ lit "/collabo-core/programs")
        end;
  if can_make dir then Some dir else None.
End cache.

(** ** What a read file is *)

Section cache_lemmas.
Context {H : CacheHost}.

(** Every file kept under a program's name is that program's: what it reads as, if anything, is what
    compiling makes of the bytes. *)
Definition honest (d : directory) : Prop :=
  ∀ bytes f m, d !! file_name bytes = Some f → deserialize (cf_bytes f) = Some m → compile bytes = Ok m.

(** Serializing is undone by reading, and no two programs that compile share a name (SHA-256 has no
    collision among them). *)
Class CacheLaws : Prop := {
  serialize_deserialize m bytes m' : serialize m = Ok bytes → deserialize bytes = Some m' → m' = m;
  file_name_inj b1 b2 : file_name b1 = file_name b2 → b1 = b2;
}.

Lemma lookup_deletes (gone : list str) (d : directory) name f :
  foldl (λ d path, delete path d) d gone !! name = Some f → d !! name = Some f.
Proof.
  revert d. induction gone as [|g gone IH]; intros d; [done|]. cbn. intros [_ ?]%IH%lookup_delete_Some. done.
Qed.

Lemma make_room_lookup removable d incoming name f :
  make_room removable d incoming !! name = Some f → d !! name = Some f.
Proof. apply lookup_deletes. Qed.

Context {CL : CacheLaws}.

Lemma honest_insert d bytes f :
  honest d → (∀ m, deserialize (cf_bytes f) = Some m → compile bytes = Ok m) → honest (<[file_name bytes := f]> d).
Proof.
  intros Hd Hf b g m. destruct (decide (file_name bytes = file_name b)) as [E|E].
  - rewrite E, lookup_insert_eq. intros [= <-] Hm. apply file_name_inj in E as <-. by apply Hf.
  - rewrite lookup_insert_ne by done. apply Hd.
Qed.

Lemma compile_and_keep_compiles env d bytes :
  honest d →
  (compile_and_keep env d (file_name bytes) bytes).1 = compile bytes ∧ honest (compile_and_keep env d (file_name bytes) bytes).2.
Proof.
  intros Hd. unfold compile_and_keep. destruct (compile bytes) as [m|e] eqn:Ec; [|done]. unfold store.
  destruct (serialize m) as [out|] eqn:Es; [|done].
  assert (honest (make_room (env_removable env) d (Z.of_nat (length out)))) as Hr.
  { intros b f m' Hf. apply (Hd b f m'). by eapply make_room_lookup. }
  destruct (env_writable env); cbn; [|done]. rewrite lookup_insert_eq. cbn. split.
  - destruct (deserialize out) as [m'|] eqn:Ed; [|done]. cbn. by rewrite (serialize_deserialize _ _ _ Es Ed).
  - apply honest_insert; [done|]. cbn. intros m' Hm. by rewrite (serialize_deserialize _ _ _ Es Hm).
Qed.

(** With the cache or without it, a program is what compiling it makes of it, and the cache stays honest. *)
Lemma load_or_compile_compiles env dir bytes :
  (∀ d, dir = Some d → honest d) →
  (load_or_compile env dir bytes).1 = compile bytes ∧ (∀ d, (load_or_compile env dir bytes).2 = Some d → honest d).
Proof.
  intros Hd. unfold load_or_compile. destruct dir as [d|]; [|done]. specialize (Hd d eq_refl).
  destruct (_ <? LARGE); [by split; [|intros ? [= <-]]|].
  destruct (compile_and_keep_compiles env d bytes Hd) as [Hr Hk].
  destruct (d !! file_name bytes) as [f|] eqn:Ef; [destruct (deserialize (cf_bytes f)) as [m|] eqn:Em|].
  2, 3: destruct (compile_and_keep env d (file_name bytes) bytes); by split; [|intros ? [= <-]].
  pose proof (Hd _ _ _ Ef Em) as Hc. split; [done|]. intros d' [= <-]. unfold touch. destruct (env_writable env); [|done].
  apply honest_insert; [done|]. cbn. intros m' Hm. congruence.
Qed.
End cache_lemmas.

(** ** Room *)

(** What deleting the first [k] files as far as possible gives up. *)
Definition gone_of (removable : str → bool) (files : list (Z * Z * str)) : list (Z * Z * str) :=
  filter (λ f, removable f.2 = true) files.

Lemma sum_len_cons f files : sum_len (f :: files) = f.1.2 + sum_len files.
Proof. done. Qed.

(** Files go from the least recently used on, only while there is too much, and until it fits or there
    is nothing left to delete. *)
Lemma evict_spec removable files total :
  ∃ k, let '(gone, total') := evict removable files total in
    gone = (gone_of removable (take k files)).*2 ∧ total' = total - sum_len (gone_of removable (take k files)) ∧
    (total' <= BUDGET ∨ k = length files) ∧
    ∀ j, (j < k)%nat → BUDGET < total - sum_len (gone_of removable (take j files)).
Proof.
  revert total. induction files as [|[[time len] path] files IH]; intros total; cbn [evict].
  { exists 0%nat. split_and!; [done|cbn; lia|by right|lia]. }
  destruct (Z.leb_spec total BUDGET); [exists 0%nat; split_and!; [done|cbn; lia|by left|lia]|].
  assert (∀ j, gone_of removable (take (S j) ((time, len, path) :: files)) =
            (if removable path then [(time, len, path)] else []) ++ gone_of removable (take j files)) as Hg.
  { intros j. unfold gone_of. cbn [take]. rewrite filter_cons. cbn. destruct (removable path); [by rewrite decide_True|by rewrite decide_False]. }
  destruct (removable path) eqn:Er.
  - destruct (IH (total - len)) as (k & Hk). destruct (evict removable files (total - len)) as [gone total'].
    destruct Hk as (-> & -> & Hfit & Hneed). exists (S k). rewrite Hg. cbn [app fmap list_fmap snd]. rewrite sum_len_cons. cbn [fst snd]. split_and!; [done|lia| |].
    + destruct Hfit as [?|?]; [left; lia|right; simpl; lia].
    + intros [|j] Hj; [cbn; lia|]. rewrite Hg. cbn [app]. rewrite sum_len_cons. cbn [fst snd]. specialize (Hneed j ltac:(lia)). lia.
  - destruct (IH total) as (k & Hk). destruct (evict removable files total) as [gone total'].
    destruct Hk as (-> & -> & Hfit & Hneed). exists (S k). rewrite Hg. cbn [app]. split_and!; [done|done| |].
    + destruct Hfit as [?|?]; [by left|right; simpl; lia].
    + intros [|j] Hj; [cbn; lia|]. rewrite Hg. apply Hneed. lia.
Qed.

Lemma str_le_total a b : str_le a b = true ∨ str_le b a = true.
Proof.
  revert b. induction a as [|x a IH]; intros [|y b]; cbn; try tauto.
  destruct (Z.eqb_spec x y) as [->|]; [rewrite Z.eqb_refl; apply IH|]. rewrite (proj2 (Z.eqb_neq y x)) by done.
  destruct (Z.ltb_spec x y); [by left|right; apply Z.ltb_lt; lia].
Qed.

Lemma before_total : Total before.
Proof.
  intros [[t1 l1] p1] [[t2 l2] p2]. unfold before, older. cbn.
  destruct (Z.eqb_spec t1 t2) as [->|]; [rewrite Z.eqb_refl|rewrite (proj2 (Z.eqb_neq t2 t1)) by done; rewrite !Z.ltb_lt; lia].
  destruct (Z.eqb_spec l1 l2) as [->|]; [rewrite Z.eqb_refl; apply str_le_total|].
  rewrite (proj2 (Z.eqb_neq l2 l1)) by done. rewrite !Z.ltb_lt. lia.
Qed.

(** The files are looked at in the order of their last use, every one of them. *)
Lemma cached_sorted d :
  Sorted before (merge_sort before (cached d)) ∧ merge_sort before (cached d) ≡ₚ cached d.
Proof. split; [apply Sorted_merge_sort, before_total|apply merge_sort_Permutation]. Qed.
