(* ===== verification/Lz4Block.v ===== *)
(** * LZ4 blocks: the decoder

    The decoder of tools/rust/archive/src/lz4/block.rs ([decompress]) with the helpers its compressor
    shares, and the format itself: a block is a list of sequences, each some literals and a match in
    what came before, and literals that end it.

    Positions and lengths are [nat]s; what the source compares as isize is in [Z].  A read past the end
    of a slice, which panics, is [Panicked].  usize is not wrapped: a length is at most 255 times the
    bytes of the block that holds it, and frames hold blocks of at most 4 MB. *)
From S2P Require Import Prelude.

Local Open Scope nat_scope.

Local Arguments Nat.leb : simpl never.
Local Arguments Nat.ltb : simpl never.
Local Arguments Nat.eqb : simpl never.
Local Arguments Nat.sub : simpl never.
Local Arguments Nat.div : simpl never.
Local Arguments Nat.modulo : simpl never.

Definition MINMATCH : nat := 4.
Definition LASTLITERALS : nat := 5.
Definition MFLIMIT : nat := 12.
Definition MIN_LENGTH : nat := MFLIMIT + 1.
Definition ML_MASK : nat := 15.
Definition RUN_MASK : nat := 15.
Definition FASTLOOP_SAFE_DISTANCE : Z := 64.

(** ** Reading *)

Definition read16 (b : list Z) (p : nat) : option Z :=
  if p + 2 <=? length b then Some (le_val (slice p (p + 2) b)) else None.
Definition read32 (b : list Z) (p : nat) : option Z :=
  if p + 4 <=? length b then Some (le_val (slice p (p + 4) b)) else None.
Definition read64 (b : list Z) (p : nat) : option Z :=
  if p + 8 <=? length b then Some (le_val (slice p (p + 8) b)) else None.

(** [push_length]: 255s, then the rest.  Each turn takes 255 off, so [n] turns are enough. *)
Fixpoint push_length_loop (fuel : nat) (out : list Z) (n : nat) : list Z :=
  match fuel with
  | S fuel => if 255 <=? n then push_length_loop fuel (out ++ [255%Z]) (n - 255) else out ++ [u8 (Z.of_nat n)]
  | O => out ++ [u8 (Z.of_nat n)]
  end.
Definition push_length (out : list Z) (n : nat) : list Z := push_length_loop n out n.

(** ** Decoding *)

Inductive Fault : Type := Malformed | Panicked.

(** [read_varlen]: the length and where it ends.  [ilimit] is what the source's wrapping subtraction
    gives, [None] where it wraps to more than any position. *)
Fixpoint read_varlen_loop (fuel : nat) (src : list Z) (ip : nat) (ilimit : option nat) (len : nat) : option (nat * nat) :=
  match fuel with
  | O => None
  | S fuel =>
      s ← src !! ip;
      let ip := S ip in
      let len := len + Z.to_nat s in
      if match ilimit with Some l => l <? ip | None => false end then None
      else if (s =? 255)%Z then read_varlen_loop fuel src ip ilimit len else Some (len, ip)
  end.

Definition read_varlen (src : list Z) (ip : nat) (ilimit : option nat) (initial_check : bool) : option (nat * nat) :=
  if initial_check && match ilimit with Some l => l <=? ip | None => false end then None
  else read_varlen_loop (S (length src)) src ip ilimit 0.

Definition wrapping_sub (a b : nat) : option nat := if b <=? a then Some (a - b) else None.

(** [copy_match].  Byte by byte, each one read from what is there by then. *)
Fixpoint copy_loop (n i : nat) (start : nat) (buf : list Z) : result Fault (list Z) :=
  match n with
  | O => Ok buf
  | S n => b ← ok_or (buf !! (start + i)) Panicked; copy_loop n (S i) start (buf ++ [b])
  end.

Definition copy_match (buf : list Z) (offset len : nat) : result Fault (list Z) :=
  if offset =? 0 then Ok (buf ++ replicate len 0%Z)
  else if length buf <? offset then Err Panicked
  else
    let start := length buf - offset in
    if len <=? offset then Ok (buf ++ slice start (start + len) buf)
    else copy_loop len 0 start buf.

(** What the fast loop leaves to the safe loop. *)
Inductive Resume : Type :=
  | RToken
  | RLiterals (token : Z) (len : nat)
  | RMatch (offset len : nat).

Section decompress.
Context (src : list Z) (h : nat) (cap : nat).

Let iend := length src.
Let oend := Z.of_nat cap.

Definition decoded (buf : list Z) : Z := Z.of_nat (length buf) - Z.of_nat h.

Definition offset_ok (buf : list Z) (offset : nat) : bool := (Z.of_nat offset <=? Z.of_nat h + decoded buf)%Z.

Definition literal_length (token : Z) (ip : nat) : result Fault (nat * nat) :=
  let len := Z.to_nat (Z.shiftr token 4) in
  if len =? RUN_MASK then
    '(n, ip) ← ok_or (read_varlen src ip (wrapping_sub iend RUN_MASK) true) Malformed;
    Ok (len + n, ip)
  else Ok (len, ip).

Definition match_length (ip : nat) (mlen : nat) : result Fault (nat * nat) :=
  if mlen =? ML_MASK then
    '(n, ip) ← ok_or (read_varlen src ip (wrapping_sub (iend + 1) LASTLITERALS) false) Malformed;
    Ok (mlen + n + MINMATCH, ip)
  else Ok (mlen + MINMATCH, ip).

(** [buf.extend_from_slice(&src[ip..ip + len])]. *)
Definition take_literals (buf : list Z) (ip len : nat) : result Fault (list Z) :=
  l ← ok_or (get_slice ip (ip + len) src) Panicked; Ok (buf ++ l).

Definition read_offset (ip : nat) : result Fault nat :=
  v ← ok_or (read16 src ip) Panicked; Ok (Z.to_nat v).

Definition safe_match (buf : list Z) (offset len : nat) : result Fault (list Z) :=
  let o := decoded buf in
  if (Z.of_nat h + o <? Z.of_nat offset)%Z then Err Malformed
  else if (oend - Z.of_nat LASTLITERALS <? o + Z.of_nat len)%Z then Err Malformed
  else copy_match buf offset len.

(** The fast loop: it leaves where the safe loop goes on. *)
Fixpoint fast_loop (fuel : nat) (ip : nat) (buf : list Z) : result Fault (Resume * nat * list Z) :=
  match fuel with
  | O => Err Panicked
  | S fuel =>
      token ← ok_or (src !! ip) Malformed;
      let ip := S ip in
      '(len, ip) ← literal_length token ip;
      if (if Z.shiftr token 4 =? Z.of_nat RUN_MASK
          then (oend - 32 <? decoded buf + Z.of_nat len) || (Z.of_nat iend - 32 <? Z.of_nat (ip + len))
          else Z.of_nat iend - 17 <? Z.of_nat ip)%Z
      then Ok (RLiterals token len, ip, buf)
      else
        buf ← take_literals buf ip len;
        let ip := ip + len in
        offset ← read_offset ip;
        let ip := ip + 2 in
        let short := Z.to_nat (Z.land token 15) in
        '(mlen, ip) ← match_length ip short;
        if (oend - FASTLOOP_SAFE_DISTANCE <=? decoded buf + Z.of_nat mlen)%Z
        then Ok (RMatch offset mlen, ip, buf)
        else if negb (short =? ML_MASK) && (8 <=? offset) && offset_ok buf offset then
          buf ← copy_match buf offset mlen; fast_loop fuel ip buf
        else if negb (offset_ok buf offset) then Err Malformed
        else buf ← copy_match buf offset mlen; fast_loop fuel ip buf
  end.

(** The literals of a token, and its match when they are not the last. *)
Definition literals (again : nat → list Z → result Fault (list Z)) (token : Z) (len ip : nat) (buf : list Z) :
    result Fault (list Z) :=
  let cpy := (decoded buf + Z.of_nat len)%Z in
  if (oend - Z.of_nat MFLIMIT <? cpy)%Z || (Z.of_nat iend - Z.of_nat (2 + 1 + LASTLITERALS) <? Z.of_nat (ip + len))%Z then
    if negb (ip + len =? iend) || (oend <? cpy)%Z then Err Malformed
    else take_literals buf ip len
  else
    buf ← take_literals buf ip len;
    let ip := ip + len in
    offset ← read_offset ip;
    let ip := ip + 2 in
    '(len, ip) ← match_length ip (Z.to_nat (Z.land token 15));
    buf ← safe_match buf offset len;
    again ip buf.

(** A token of the safe loop: the shortcut where there is room for it. *)
Definition token_turn (again : nat → list Z → result Fault (list Z)) (ip : nat) (buf : list Z) : result Fault (list Z) :=
  token ← ok_or (src !! ip) Malformed;
  let ip := S ip in
  let len := Z.to_nat (Z.shiftr token 4) in
  if negb (len =? RUN_MASK) && (Z.of_nat ip <? Z.of_nat iend - 14 - 2)%Z && (decoded buf <=? oend - 14 - 18)%Z then
    buf ← take_literals buf ip len;
    let ip := ip + len in
    let mlen := Z.to_nat (Z.land token 15) in
    offset ← read_offset ip;
    let ip := ip + 2 in
    if negb (mlen =? ML_MASK) && (8 <=? offset) && offset_ok buf offset then
      buf ← copy_match buf offset (mlen + MINMATCH); again ip buf
    else
      '(mlen, ip) ← match_length ip mlen;
      buf ← safe_match buf offset mlen;
      again ip buf
  else
    '(len, ip) ← literal_length token ip;
    literals again token len ip buf.

(** The safe loop from a token on. *)
Fixpoint safe_loop (fuel : nat) (ip : nat) (buf : list Z) : result Fault (list Z) :=
  match fuel with
  | O => Err Panicked
  | S fuel => token_turn (safe_loop fuel) ip buf
  end.

Definition resume_at (fuel : nat) (r : Resume) (ip : nat) (buf : list Z) : result Fault (list Z) :=
  match r with
  | RToken => safe_loop fuel ip buf
  | RLiterals token len => literals (safe_loop fuel) token len ip buf
  | RMatch offset len => buf ← safe_match buf offset len; safe_loop fuel ip buf
  end.
End decompress.

(** The last 64 KB, as history and dictionaries are cut. *)
Definition last_64k (hist : list Z) : list Z := drop (length hist - Z.to_nat 65536) hist.

(** [decompress]: what is decoded of [src] after [hist], which is appended to [out]. *)
Definition decompress (src hist : list Z) (cap : nat) (out : list Z) : result Fault (list Z) :=
  let hist := last_64k hist in
  let h := length hist in
  if cap =? 0 then (if bool_decide (src = [0%Z]) then Ok out else Err Malformed)
  else if bool_decide (src = []) then Err Malformed
  else
    let fuel := S (length src) in
    '(r, ip, buf) ← (if (FASTLOOP_SAFE_DISTANCE <=? Z.of_nat cap - decoded h hist)%Z
                     then fast_loop src h cap fuel 0 hist
                     else Ok (RToken, 0, hist));
    buf ← resume_at src h cap fuel r ip buf;
    Ok (out ++ drop h buf).

(** ** The format *)

(** A sequence: literals, and a match of [sq_length] bytes from [sq_offset] back. *)
Record Sequence := mk_seq {
  sq_literals : list Z;
  sq_offset : nat;
  sq_length : nat;
}.

(** A length past its 4 bits. *)
Definition length_bytes (n : nat) : list Z := replicate (n / 255) 255%Z ++ [Z.of_nat (n mod 255)].
Definition extra_bytes (n : nat) : list Z := if 15 <=? n then length_bytes (n - 15) else [].

Definition token_of (lits mlen : nat) : Z := (16 * Z.of_nat (lits `min` 15) + Z.of_nat (mlen `min` 15))%Z.

Definition encode_sequence (s : Sequence) : list Z :=
  token_of (length (sq_literals s)) (sq_length s - 4) :: extra_bytes (length (sq_literals s)) ++
  sq_literals s ++ le_bytes 2 (Z.of_nat (sq_offset s)) ++ extra_bytes (sq_length s - 4).

(** A byte from [offset] back, [n] times; where there is none, a zero. *)
Fixpoint expand (n offset : nat) (buf : list Z) : list Z :=
  match n with
  | O => buf
  | S n => expand n offset (buf ++ [byte_at buf (length buf - offset)])
  end.

Definition play (buf : list Z) (s : Sequence) : list Z := expand (sq_length s) (sq_offset s) (buf ++ sq_literals s).
Definition meaning (buf : list Z) (seqs : list Sequence) (last : list Z) : list Z := foldl play buf seqs ++ last.

(** The last token's low bits are not looked at: [low] is what they are. *)
Definition encode (seqs : list Sequence) (low : Z) (last : list Z) : list Z :=
  mjoin (encode_sequence <$> seqs) ++ (token_of (length last) 0 + low)%Z :: extra_bytes (length last) ++ last.

(** ** Lengths *)

Lemma length_bytes_step n : 255 ≤ n → length_bytes n = 255%Z :: length_bytes (n - 255).
Proof.
  intros Hn. unfold length_bytes. replace n with ((n - 255) + 1 * 255) at 1 2 by lia.
  rewrite Nat.div_add, Nat.Div0.mod_add by lia. by rewrite Nat.add_1_r.
Qed.
Lemma length_bytes_small n : n < 255 → length_bytes n = [Z.of_nat n].
Proof. intros Hn. unfold length_bytes. by rewrite Nat.div_small, Nat.mod_small by lia. Qed.
Lemma length_length_bytes n : length (length_bytes n) = n / 255 + 1.
Proof. unfold length_bytes. by rewrite length_app, length_replicate. Qed.
Lemma length_extra_bytes n : 15 ≤ n → length (extra_bytes n) = (n - 15) / 255 + 1.
Proof. intros Hn. unfold extra_bytes. rewrite (proj2 (Nat.leb_le _ _)) by done. apply length_length_bytes. Qed.

Lemma push_length_spec out n : push_length out n = out ++ length_bytes n.
Proof.
  unfold push_length. assert (∀ fuel out n, n ≤ fuel → push_length_loop fuel out n = out ++ length_bytes n) as H; [|by apply H].
  clear. induction fuel as [|fuel IH]; intros out n Hn; simpl.
  { replace n with 0 by lia. done. }
  destruct (Nat.leb_spec 255 n).
  - rewrite IH by lia. rewrite (length_bytes_step n) by lia. by rewrite <-app_assoc.
  - rewrite length_bytes_small by lia. unfold u8. by rewrite Z.mod_small by lia.
Qed.

(** Where the bytes from a position on are known. *)
Lemma drop_head {A} (l : list A) i x k : drop i l = x :: k → l !! i = Some x ∧ drop (S i) l = k.
Proof.
  intros H. split.
  - rewrite <-(Nat.add_0_r i), <-lookup_drop, H. done.
  - replace (S i) with (i + 1) by lia. rewrite <-drop_drop, H. done.
Qed.
Lemma drop_tail {A} (l : list A) i j k : drop i l = j ++ k → drop (i + length j) l = k.
Proof. intros H. by rewrite <-drop_drop, H, drop_app_length. Qed.
Lemma drop_lt {A} (l : list A) i : 0 < length (drop i l) → i < length l.
Proof. rewrite length_drop. lia. Qed.
Lemma drop_cut {A} (l : list A) i n : i + n ≤ length l → drop i l = slice i (i + n) l ++ drop (i + n) l.
Proof. intros H. unfold slice. rewrite <-drop_drop. replace (i + n - i) with n by lia. by rewrite take_drop. Qed.
Lemma slice_of_drop {A} (l : list A) i j k :
  i ≤ length l → drop i l = j ++ k → get_slice i (i + length j) l = Some j.
Proof.
  intros Hi H. assert (length (drop i l) = length (j ++ k)) as E by by rewrite H.
  rewrite length_drop, length_app in E. unfold get_slice, slice. rewrite H, bool_decide_eq_true_2 by lia.
  replace (i + length j - i) with (length j) by lia. by rewrite take_app_length.
Qed.

(** [read_varlen] reads what [push_length] writes. *)
Lemma read_varlen_loop_complete fuel src ip ilimit len n rest :
  drop ip src = length_bytes n ++ rest → n / 255 < fuel →
  match ilimit with Some l => length src - length rest ≤ l | None => True end →
  read_varlen_loop fuel src ip ilimit len = Some (len + n, length src - length rest).
Proof.
  revert ip len n. induction fuel as [|fuel IH]; intros ip len n Hd Hf Hl; [lia|]. simpl.
  assert (length (drop ip src) = n / 255 + 1 + length rest) as E.
  { by rewrite Hd, length_app, length_length_bytes. } rewrite length_drop in E.
  destruct (decide (255 ≤ n)).
  - rewrite length_bytes_step in Hd by done. apply drop_head in Hd as [-> Hd]. simpl.
    assert (n / 255 = (n - 255) / 255 + 1) as Hq.
    { replace n with ((n - 255) + 1 * 255) at 1 by lia. rewrite Nat.div_add by lia. lia. }
    replace (match ilimit with Some l => l <? S ip | None => false end) with false.
    2: { destruct ilimit as [lim|]; [|done]. symmetry. apply Nat.ltb_ge. lia. }
    change (Z.to_nat 255) with 255. rewrite (IH _ _ (n - 255)); [|done|lia|done]. do 2 f_equal. lia.
  - rewrite length_bytes_small in Hd by lia. apply drop_head in Hd as [-> Hd]. simpl.
    rewrite Nat.div_small in E by lia.
    replace (match ilimit with Some l => l <? S ip | None => false end) with false.
    2: { destruct ilimit as [lim|]; [|done]. symmetry. apply Nat.ltb_ge. lia. }
    rewrite (proj2 (Z.eqb_neq _ _)) by lia. rewrite Nat2Z.id. do 2 f_equal. lia.
Qed.

Lemma read_varlen_loop_sound fuel src ip ilimit len m ip' :
  wf_bytes src → read_varlen_loop fuel src ip ilimit len = Some (m, ip') →
  ∃ n, m = len + n ∧ drop ip src = length_bytes n ++ drop ip' src ∧ ip < ip' ≤ length src ∧
       match ilimit with Some l => ip' ≤ l | None => True end.
Proof.
  intros Hwf. revert ip len. induction fuel as [|fuel IH]; intros ip len H; [done|]. simpl in H.
  destruct (src !! ip) as [s|] eqn:Hs; [|done]. simpl in H.
  pose proof (lookup_lt_Some _ _ _ Hs) as Hlt. pose proof (Forall_lookup_1 _ _ _ _ Hwf Hs) as Hb. unfold is_byte in Hb.
  destruct (match ilimit with Some l => l <? S ip | None => false end) eqn:Hl; [done|].
  rewrite (drop_S _ _ _ Hs). destruct (Z.eqb_spec s 255) as [->|Hne].
  - apply IH in H as (n & -> & -> & Hip & ?). exists (255 + n). change (Z.to_nat 255) with 255.
    split_and!; [lia| |lia|lia|done].
    rewrite (length_bytes_step (255 + n)) by lia. replace (255 + n - 255) with n by lia. done.
  - injection H as <- <-. exists (Z.to_nat s). split; [done|]. split; [|split; [lia|]].
    + rewrite length_bytes_small by lia. rewrite Z2Nat.id by lia. done.
    + destruct ilimit as [lim|]; [|done]. apply Nat.ltb_ge in Hl. lia.
Qed.

(** A result without a panic, and what holds of it when it is one. *)
Definition sound {A} (P : A → Prop) (r : result Fault A) : Prop :=
  match r with Ok a => P a | Err Malformed => True | Err Panicked => False end.

(** Past what has returned, sums of lengths left alone. *)
Local Ltac past := cbv beta iota delta [mbind result_bind ok_or sound].

Lemma sound_bind {A B} (P : A → Prop) (Q : B → Prop) r (f : A → result Fault B) :
  sound P r → (∀ a, P a → sound Q (f a)) → sound Q (r ≫= f).
Proof. destruct r as [a|[]]; simpl; auto. Qed.
Lemma sound_mono {A} (P Q : A → Prop) r : (∀ a, P a → Q a) → sound P r → sound Q r.
Proof. destruct r as [a|[]]; simpl; auto. Qed.

(** ** Copies *)

Lemma length_expand n offset buf : length (expand n offset buf) = length buf + n.
Proof.
  revert buf. induction n as [|n IH]; intros buf; simpl; [lia|]. rewrite IH, length_app. simpl. lia.
Qed.

Lemma expand_zero n buf : expand n 0 buf = buf ++ replicate n 0%Z.
Proof.
  revert buf. induction n as [|n IH]; intros buf; simpl; [by rewrite app_nil_r|].
  rewrite IH, <-app_assoc. unfold byte_at. rewrite Nat.sub_0_r, lookup_ge_None_2 by lia. done.
Qed.

(** A match that does not reach into what it writes is a copy. *)
Lemma expand_apart n offset buf :
  n ≤ offset ≤ length buf → expand n offset buf = buf ++ slice (length buf - offset) (length buf - offset + n) buf.
Proof.
  revert buf. induction n as [|n IH]; intros buf Hn; simpl.
  { unfold slice. replace (length buf - offset + 0 - (length buf - offset)) with 0 by lia. by rewrite take_0, app_nil_r. }
  rewrite IH by (rewrite length_app; simpl; lia). rewrite length_app, <-app_assoc. f_equal. simpl.
  unfold slice. replace (length buf - offset + S n - (length buf - offset)) with (S n) by lia.
  destruct (lookup_lt_is_Some_2 buf (length buf - offset)) as [x Hx]; [lia|].
  rewrite (drop_S buf x (length buf - offset)) by done. unfold byte_at. rewrite Hx. simpl. f_equal.
  replace (length buf + 1 - offset + n - (length buf + 1 - offset)) with n by lia.
  replace (length buf + 1 - offset) with (S (length buf - offset)) by lia.
  rewrite drop_app_le by lia. rewrite take_app_le; [done|]. rewrite length_drop. lia.
Qed.

Lemma copy_loop_spec n i start buf offset :
  0 < offset → start + i + offset = length buf → copy_loop n i start buf = Ok (expand n offset buf).
Proof.
  revert i buf. induction n as [|n IH]; intros i buf Ho Hs; [done|]. simpl.
  destruct (lookup_lt_is_Some_2 buf (start + i)) as [x Hx]; [lia|]. rewrite Hx. simpl.
  rewrite (IH (S i)); [|done|rewrite length_app; simpl; lia].
  do 3 f_equal. unfold byte_at. replace (length buf - offset) with (start + i) by lia. by rewrite Hx.
Qed.

Lemma copy_match_spec buf offset len : offset ≤ length buf → copy_match buf offset len = Ok (expand len offset buf).
Proof.
  intros Ho. unfold copy_match. destruct (Nat.eqb_spec offset 0) as [->|Hne]; [by rewrite expand_zero|].
  destruct (Nat.ltb_spec (length buf) offset); [lia|].
  destruct (Nat.leb_spec len offset).
  - by rewrite expand_apart by lia.
  - apply copy_loop_spec; lia.
Qed.

(** What an encoder finds: where the bytes ahead equal those at [m], the match goes on with them. *)
Lemma expand_take w n m i :
  m < i → i + n ≤ length w → (∀ k, k < n → w !! (m + k) = w !! (i + k)) →
  expand n (i - m) (take i w) = take (i + n) w.
Proof.
  revert i m. induction n as [|n IH]; intros i m Hm Hl Heq; simpl; [by rewrite Nat.add_0_r|].
  assert (take i w ++ [byte_at (take i w) (length (take i w) - (i - m))] = take (S i) w) as ->.
  { rewrite length_take, Nat.min_l by lia. replace (i - (i - m)) with m by lia.
    unfold byte_at. rewrite lookup_take_lt by lia.
    destruct (lookup_lt_is_Some_2 w i) as [x Hx]; [lia|].
    specialize (Heq 0 ltac:(lia)). rewrite !Nat.add_0_r in Heq. rewrite Heq, Hx. simpl.
    by rewrite (take_S_r w i x). }
  replace (i - m) with (S i - S m) by lia. rewrite IH; [f_equal; lia|lia|lia|].
  intros k Hk. specialize (Heq (S k) ltac:(lia)). by rewrite <-!Nat.add_succ_comm in Heq.
Qed.

(** More history changes nothing where what is there is enough. *)
Lemma expand_app n offset p buf : offset ≤ length buf → expand n offset (p ++ buf) = p ++ expand n offset buf.
Proof.
  revert buf. induction n as [|n IH]; intros buf Ho; simpl; [done|].
  rewrite <-app_assoc, IH by (rewrite length_app; lia). do 3 f_equal.
  rewrite length_app, byte_at_app_r by lia. do 2 f_equal. lia.
Qed.

(** ** Tokens *)

Lemma token_split token :
  is_byte token →
  token = (16 * Z.shiftr token 4 + Z.land token 15)%Z ∧ (0 <= Z.shiftr token 4 < 16)%Z ∧ (0 <= Z.land token 15 < 16)%Z.
Proof.
  unfold is_byte. intros Hb. rewrite Z.shiftr_div_pow2 by lia.
  change 15%Z with (Z.ones 4). rewrite Z.land_ones by lia. change (2 ^ 4)%Z with 16%Z.
  Z.div_mod_to_equations. lia.
Qed.

Lemma token_of_parts a b low :
  (0 <= low)%Z → (Z.of_nat (b `min` 15) + low < 16)%Z →
  Z.shiftr (token_of a b + low) 4 = Z.of_nat (a `min` 15) ∧ Z.land (token_of a b + low) 15 = (Z.of_nat (b `min` 15) + low)%Z.
Proof.
  intros Hl Hb. unfold token_of. rewrite Z.shiftr_div_pow2 by lia.
  change 15%Z with (Z.ones 4). rewrite Z.land_ones by lia. change (2 ^ 4)%Z with 16%Z.
  split; Z.div_mod_to_equations; lia.
Qed.

(** ** Lengths in a block *)

Section lengths.
Context (src : list Z).

Lemma read_varlen_complete ip ilimit check n rest :
  drop ip src = length_bytes n ++ rest →
  match ilimit with Some l => length src - length rest ≤ l | None => True end →
  read_varlen src ip ilimit check = Some (n, length src - length rest).
Proof.
  intros Hd Hl. assert (length (drop ip src) = n / 255 + 1 + length rest) as E.
  { by rewrite Hd, length_app, length_length_bytes. } rewrite length_drop in E.
  unfold read_varlen.
  replace (check && _) with false.
  2: { destruct ilimit as [l|]; [|by rewrite andb_false_r]. symmetry. apply andb_false_intro2, Nat.leb_gt. lia. }
  rewrite (read_varlen_loop_complete _ _ _ _ _ n rest); [done|done|lia|done].
Qed.

Lemma read_varlen_sound ip ilimit check n ip' :
  wf_bytes src → read_varlen src ip ilimit check = Some (n, ip') →
  drop ip src = length_bytes n ++ drop ip' src ∧ ip < ip' ≤ length src ∧
  match ilimit with Some l => ip' ≤ l | None => True end.
Proof.
  intros Hwf H. unfold read_varlen in H. destruct (_ && _); [done|].
  by apply read_varlen_loop_sound in H as (m & -> & ? & ? & ?).
Qed.

Lemma extra_bytes_big n : extra_bytes (15 + n) = length_bytes n.
Proof. unfold extra_bytes. rewrite (proj2 (Nat.leb_le _ _)) by lia. f_equal. lia. Qed.
Lemma extra_bytes_small n : n < 15 → extra_bytes n = [].
Proof. intros. unfold extra_bytes. by rewrite (proj2 (Nat.leb_gt _ _)) by lia. Qed.

Lemma drop_end ip (rest : list Z) : ip ≤ length src → drop ip src = rest → ip = length src - length rest.
Proof. intros ? <-. rewrite length_drop. lia. Qed.

Lemma literal_length_complete token ip len rest :
  ip ≤ length src → drop ip src = extra_bytes len ++ rest → Z.shiftr token 4 = Z.of_nat (len `min` 15) →
  (15 ≤ len → 15 ≤ length rest) → literal_length src token ip = Ok (len, length src - length rest).
Proof.
  intros Hip Hd Ht Hr. unfold literal_length. rewrite Ht, Nat2Z.id. unfold RUN_MASK.
  destruct (Nat.eqb_spec (len `min` 15) 15).
  - replace len with (15 + (len - 15)) in Hd by lia. rewrite extra_bytes_big in Hd.
    rewrite (read_varlen_complete _ _ _ _ _ Hd).
    + simpl. f_equal. f_equal. lia.
    + unfold wrapping_sub. destruct (Nat.leb_spec 15 (length src)); [|done]. lia.
  - rewrite extra_bytes_small in Hd by lia. simpl in Hd. rewrite (drop_end _ _ Hip Hd) at 1. do 2 f_equal. lia.
Qed.

Lemma match_length_complete ip mlen rest :
  ip ≤ length src → drop ip src = extra_bytes (mlen - 4) ++ rest → 4 ≤ mlen → 4 ≤ length rest →
  match_length src ip ((mlen - 4) `min` 15) = Ok (mlen, length src - length rest).
Proof.
  intros Hip Hd Hm Hr. unfold match_length, ML_MASK, MINMATCH.
  destruct (Nat.eqb_spec ((mlen - 4) `min` 15) 15).
  - replace (mlen - 4) with (15 + (mlen - 4 - 15)) in Hd by lia. rewrite extra_bytes_big in Hd.
    rewrite (read_varlen_complete _ _ _ _ _ Hd).
    + simpl. f_equal. f_equal. lia.
    + unfold wrapping_sub. simpl. destruct (Nat.leb_spec LASTLITERALS (length src + 1)); [|done]. unfold LASTLITERALS. lia.
  - rewrite extra_bytes_small in Hd by lia. simpl in Hd. rewrite (drop_end _ _ Hip Hd) at 1. do 2 f_equal. lia.
Qed.

Lemma literal_length_sound token ip :
  wf_bytes src → ip ≤ length src → (0 <= Z.shiftr token 4 < 16)%Z →
  sound (λ '(len, ip'), Z.of_nat (len `min` 15) = Z.shiftr token 4 ∧
           drop ip src = extra_bytes len ++ drop ip' src ∧ ip ≤ ip' ≤ length src) (literal_length src token ip).
Proof.
  intros Hwf Hip Ht. unfold literal_length, RUN_MASK.
  destruct (Nat.eqb_spec (Z.to_nat (Z.shiftr token 4)) 15) as [E|E].
  - destruct (read_varlen _ _ _ _) as [[n ip']|] eqn:Hv; [|done]. past.
    apply read_varlen_sound in Hv as (Hd & ? & _); [|done].
    rewrite E, extra_bytes_big. split_and!; [lia|done|lia|lia].
  - simpl. rewrite extra_bytes_small by lia. split_and!; [lia|done|lia|lia].
Qed.

Lemma match_length_sound ip m :
  wf_bytes src → ip ≤ length src → m ≤ 15 →
  sound (λ '(mlen, ip'), 4 ≤ mlen ∧ (mlen - 4) `min` 15 = m ∧
           drop ip src = extra_bytes (mlen - 4) ++ drop ip' src ∧ ip ≤ ip' ≤ length src) (match_length src ip m).
Proof.
  intros Hwf Hip Ht. unfold match_length, ML_MASK, MINMATCH.
  destruct (Nat.eqb_spec m 15) as [->|E].
  - destruct (read_varlen _ _ _ _) as [[n ip']|] eqn:Hv; [|done]. past.
    apply read_varlen_sound in Hv as (Hd & ? & _); [|done].
    replace (15 + n + 4 - 4) with (15 + n) by lia. rewrite extra_bytes_big. split_and!; [lia|lia|done|lia|lia].
  - simpl. replace (m + 4 - 4) with m by lia. rewrite extra_bytes_small by lia. split_and!; [lia|lia|done|lia|lia].
Qed.
End lengths.

(** ** What the decoder accepts *)

(** Offsets within what came before. *)
Fixpoint in_window (n : nat) (seqs : list Sequence) : Prop :=
  match seqs with
  | [] => True
  | s :: seqs =>
      sq_offset s ≤ n + length (sq_literals s) ∧ (Z.of_nat (sq_offset s) < 65536)%Z ∧ 4 ≤ sq_length s ∧
      in_window (n + length (sq_literals s) + sq_length s) seqs
  end.

Lemma length_play buf s : length (play buf s) = length buf + length (sq_literals s) + sq_length s.
Proof. unfold play. by rewrite length_expand, length_app. Qed.

Section soundness.
Context (src : list Z) (h cap : nat) (Hwf : wf_bytes src).

Definition Decoded (ip : nat) (buf b : list Z) : Prop :=
  ∃ seqs low last, drop ip src = encode seqs low last ∧ (0 <= low < 16)%Z ∧ in_window (length buf) seqs ∧
    b = meaning buf seqs last ∧ length b ≤ h + cap.

Lemma Decoded_cons ip s ip' buf b :
  drop ip src = encode_sequence s ++ drop ip' src → in_window (length buf) [s] →
  Decoded ip' (play buf s) b → Decoded ip buf b.
Proof.
  intros Hs (Ho & Ho' & Hm & _) (seqs & low & last & Hd & Hl & Hw & -> & Hb).
  exists (s :: seqs), low, last. split_and!; try done; try lia.
  - rewrite Hs, Hd. unfold encode. by rewrite fmap_cons, mjoin_cons, <-app_assoc.
  - simpl. rewrite length_play in Hw. done.
Qed.

(** A token and its number of literals, read up to [ip1]. *)
Definition half (ip : nat) (token : Z) (len ip1 : nat) : Prop :=
  src !! ip = Some token ∧ drop (S ip) src = extra_bytes len ++ drop ip1 src ∧
  Z.of_nat (len `min` 15) = Z.shiftr token 4 ∧ ip < ip1 ≤ length src.

Lemma take_literals_ok buf ip len :
  ip + len ≤ length src → take_literals src buf ip len = Ok (buf ++ slice ip (ip + len) src).
Proof. intros. unfold take_literals, get_slice. by rewrite bool_decide_eq_true_2 by lia. Qed.

Lemma read_offset_ok ip :
  ip + 2 ≤ length src →
  ∃ offset, read_offset src ip = Ok offset ∧ drop ip src = le_bytes 2 (Z.of_nat offset) ++ drop (ip + 2) src ∧
    (Z.of_nat offset < 65536)%Z.
Proof using Hwf.
  intros Hl. unfold read_offset, read16. rewrite (proj2 (Nat.leb_le _ _) Hl). past.
  assert (wf_bytes (slice ip (ip + 2) src)) as Hs by by apply wf_slice.
  assert (length (slice ip (ip + 2) src) = 2) as H2 by (rewrite length_slice by done; lia).
  pose proof (le_val_range _ Hs) as Hr. rewrite H2 in Hr.
  eexists. split; [done|]. rewrite Z2Nat.id by lia. split; [|change 65536%Z with (256 ^ Z.of_nat 2)%Z; lia].
  rewrite <-H2 at 1. rewrite le_bytes_le_val by done. by apply drop_cut.
Qed.

Lemma sequence_parsed ip token len ip1 offset mlen ip2 :
  half ip token len ip1 → ip1 + len + 2 ≤ length src →
  drop (ip1 + len) src = le_bytes 2 (Z.of_nat offset) ++ drop (ip1 + len + 2) src →
  drop (ip1 + len + 2) src = extra_bytes (mlen - 4) ++ drop ip2 src →
  (mlen - 4) `min` 15 = Z.to_nat (Z.land token 15) →
  drop ip src = encode_sequence (mk_seq (slice ip1 (ip1 + len) src) offset mlen) ++ drop ip2 src.
Proof using Hwf.
  intros (Ht & He & Hn & Hip) Hl Ho Hm Hx. rewrite (drop_S _ _ _ Ht), He.
  destruct (token_split token) as (Etok & Hs & Hlow).
  { eapply Forall_lookup_1; [apply Hwf|done]. }
  unfold encode_sequence. simpl. rewrite length_slice by lia.
  replace (ip1 + len - ip1) with len by lia. f_equal.
  - unfold token_of. rewrite Hx, Hn, Z2Nat.id by lia. lia.
  - rewrite <-!app_assoc. f_equal. rewrite (drop_cut src ip1 len) by lia. f_equal. rewrite Ho, Hm. done.
Qed.

Lemma safe_match_sound buf offset len :
  h ≤ length buf →
  sound (λ b, b = expand len offset buf ∧ offset ≤ length buf ∧ length b ≤ h + cap) (safe_match h cap buf offset len).
Proof.
  intros Hh. unfold safe_match, decoded, LASTLITERALS.
  destruct (Z.ltb_spec (Z.of_nat h + (Z.of_nat (length buf) - Z.of_nat h)) (Z.of_nat offset)); [done|].
  destruct (Z.ltb_spec (Z.of_nat cap - Z.of_nat 5) (Z.of_nat (length buf) - Z.of_nat h + Z.of_nat len)); [done|].
  rewrite copy_match_spec by lia. simpl. rewrite length_expand. split_and!; [done|lia|lia].
Qed.

(** What goes on after a sequence, from any later position. *)
Definition goes_on (ip : nat) (again : nat → list Z → result Fault (list Z)) : Prop :=
  ∀ ip' buf, ip < ip' ≤ length src → h ≤ length buf ≤ h + cap → sound (Decoded ip' buf) (again ip' buf).

Lemma literals_sound again ip token len ip1 buf :
  half ip token len ip1 → h ≤ length buf ≤ h + cap → goes_on ip again →
  sound (Decoded ip buf) (literals src h cap again token len ip1 buf).
Proof using Hwf.
  intros Hhalf Hb Hgo. pose proof Hhalf as (Ht & He & Hn & Hip).
  destruct (token_split token) as (Etok & Hs & Hlow). { eapply Forall_lookup_1; [apply Hwf|done]. }
  unfold literals, decoded, MFLIMIT, LASTLITERALS.
  destruct (_ || _) eqn:Hlast.
  - destruct (negb _ || _) eqn:Hend; [done|]. apply orb_false_elim in Hend as [Hend%negb_false_iff%Nat.eqb_eq Hc%Z.ltb_ge].
    rewrite take_literals_ok by lia. simpl.
    exists [], (Z.land token 15), (slice ip1 (ip1 + len) src). split_and!; try done; try lia.
    + unfold encode. simpl. rewrite length_slice by lia. replace (ip1 + len - ip1) with len by lia.
      rewrite (drop_S _ _ _ Ht), He. f_equal; [unfold token_of; lia|].
      f_equal. rewrite (drop_cut src ip1 len) by lia. rewrite Hend, drop_all, app_nil_r. done.
    + unfold meaning. simpl. rewrite length_app, length_slice by lia. lia.
  - apply orb_false_elim in Hlast as [Hc%Z.ltb_ge Hi%Z.ltb_ge].
    rewrite take_literals_ok by lia. past.
    destruct (read_offset_ok (ip1 + len)) as (offset & -> & Ho & Ho'); [lia|]. past.
    eapply sound_bind; [apply match_length_sound; [done|lia|lia]|].
    intros [mlen ip2] (Hm & Hx & Hd & Hip2).
    eapply sound_bind; [apply safe_match_sound; rewrite length_app; lia|].
    intros b (-> & Hoff & Hlen). eapply sound_mono; [|apply Hgo; [lia|rewrite length_expand, length_app in *; lia]].
    intros b. apply (Decoded_cons ip (mk_seq (slice ip1 (ip1 + len) src) offset mlen)).
    + by eapply sequence_parsed; [done|lia| | |].
    + rewrite length_app in Hoff. simpl. split_and!; done || lia.
Qed.

Lemma half_token ip token :
  src !! ip = Some token → sound (λ '(len, ip1), half ip token len ip1) (literal_length src token (S ip)).
Proof using Hwf.
  intros Ht. pose proof (lookup_lt_Some _ _ _ Ht).
  destruct (token_split token) as (Etok & Hs & Hlow). { eapply Forall_lookup_1; [apply Hwf|done]. }
  eapply sound_mono; [|apply literal_length_sound; [done|lia|lia]].
  intros [len ip1] (? & ? & ?). split_and!; done || lia.
Qed.

(** A token whose length is in it. *)
Lemma half_short ip token :
  src !! ip = Some token → Z.to_nat (Z.shiftr token 4) ≠ RUN_MASK → half ip token (Z.to_nat (Z.shiftr token 4)) (S ip).
Proof using Hwf.
  intros Ht Hne. pose proof (lookup_lt_Some _ _ _ Ht). unfold RUN_MASK in Hne.
  destruct (token_split token) as (Etok & Hs & Hlow). { eapply Forall_lookup_1; [apply Hwf|done]. }
  split_and!; [done| |lia|lia|lia]. rewrite extra_bytes_small by lia. done.
Qed.

Lemma token_turn_sound again ip buf :
  h ≤ length buf ≤ h + cap → goes_on ip again → sound (Decoded ip buf) (token_turn src h cap again ip buf).
Proof using Hwf.
  intros Hb Hgo. unfold token_turn. destruct (src !! ip) as [token|] eqn:Ht; [past|done].
  destruct (token_split token) as (Etok & Hs & Hlow). { eapply Forall_lookup_1; [apply Hwf|done]. }
  destruct (_ && _ && _) eqn:Hshort.
  - apply andb_prop in Hshort as [[Hne%negb_true_iff%Nat.eqb_neq Hi%Z.ltb_lt]%andb_prop Ho%Z.leb_le].
    pose proof (half_short _ _ Ht Hne) as Hhalf. unfold decoded, RUN_MASK in *. set (len := Z.to_nat (Z.shiftr token 4)) in *.
    rewrite take_literals_ok by lia. past.
    destruct (read_offset_ok (S ip + len)) as (offset & -> & Hoff & Hoff'); [lia|]. past.
    assert (∀ mlen ip2 b, 4 ≤ mlen → (mlen - 4) `min` 15 = Z.to_nat (Z.land token 15) →
      drop (S ip + len + 2) src = extra_bytes (mlen - 4) ++ drop ip2 src → offset ≤ length buf + len →
      Decoded ip2 (expand mlen offset (buf ++ slice (S ip) (S ip + len) src)) b → Decoded ip buf b) as Hcons.
    { intros mlen ip2 b Hm Hx Hd Hle. apply (Decoded_cons ip (mk_seq (slice (S ip) (S ip + len) src) offset mlen)).
      - by eapply sequence_parsed; [done|lia| | |].
      - simpl. rewrite length_slice by lia. split_and!; done || lia. }
    destruct (_ && _ && _) eqn:Hcopy.
    + apply andb_prop in Hcopy as [[Hml%negb_true_iff%Nat.eqb_neq _]%andb_prop Hok%Z.leb_le].
      unfold ML_MASK, MINMATCH, decoded in *. rewrite length_app, length_slice in Hok by lia.
      rewrite copy_match_spec by (rewrite length_app, length_slice; lia). past.
      eapply sound_mono; [|apply Hgo; [lia|rewrite length_expand, length_app, length_slice by lia; lia]].
      intros b. apply Hcons; [lia|lia| |lia].
      replace (Z.to_nat (Z.land token 15) + 4 - 4) with (Z.to_nat (Z.land token 15)) by lia.
      by rewrite extra_bytes_small by lia.
    + eapply sound_bind; [apply match_length_sound; [done|lia|lia]|].
      intros [mlen ip2] (Hm & Hx & Hd & Hip2).
      eapply sound_bind; [apply safe_match_sound; rewrite length_app; lia|].
      intros b (-> & Hle & Hlen). rewrite length_app, length_slice in Hle by lia.
      eapply sound_mono; [|apply Hgo; [lia|rewrite length_expand, length_app, length_slice in * by lia; lia]].
      intros b. apply Hcons; done || lia.
  - eapply sound_bind; [by apply half_token|]. intros [len ip1] Hhalf. by apply literals_sound.
Qed.

Lemma safe_loop_sound fuel ip buf :
  ip ≤ length src < fuel + ip → h ≤ length buf ≤ h + cap → sound (Decoded ip buf) (safe_loop src h cap fuel ip buf).
Proof using Hwf.
  revert ip buf. induction fuel as [|fuel IH]; intros ip buf Hf Hb; [lia|].
  simpl. apply token_turn_sound; [done|]. intros ip' buf' Hip' Hb'. apply IH; [lia|done].
Qed.

(** What the fast loop leaves is finished by the safe loop. *)
Definition pending (ip : nat) (buf : list Z) (r : Resume) (ip' : nat) (buf' : list Z) : Prop :=
  ∀ fuel, length src < fuel → sound (Decoded ip buf) (resume_at src h cap fuel r ip' buf').

Lemma pending_literals ip token len ip1 buf :
  half ip token len ip1 → h ≤ length buf ≤ h + cap → pending ip buf (RLiterals token len) ip1 buf.
Proof using Hwf.
  intros Hhalf Hb fuel Hf. pose proof Hhalf as (_ & _ & _ & Hip).
  apply literals_sound; [done|done|]. intros ip' buf' Hip' Hb'. apply safe_loop_sound; [lia|done].
Qed.

(** A sequence in the fast loop, up to its match. *)
Lemma pending_match ip s ip2 buf :
  ip < ip2 ≤ length src → h ≤ length buf ≤ h + cap → 4 ≤ sq_length s → (Z.of_nat (sq_offset s) < 65536)%Z →
  drop ip src = encode_sequence s ++ drop ip2 src →
  pending ip buf (RMatch (sq_offset s) (sq_length s)) ip2 (buf ++ sq_literals s).
Proof using Hwf.
  intros Hip Hb Hm Ho Hd fuel Hf. simpl.
  eapply sound_bind; [apply safe_match_sound; rewrite length_app; lia|]. intros b (-> & Hle & Hlen).
  rewrite length_app in Hle. eapply sound_mono; [|apply safe_loop_sound; [lia|rewrite length_expand, length_app in *; lia]].
  intros b. apply (Decoded_cons ip s); [done|]. simpl. split_and!; done || lia.
Qed.

Lemma pending_cons ip s ip2 buf r ip' buf' :
  drop ip src = encode_sequence s ++ drop ip2 src → in_window (length buf) [s] →
  pending ip2 (play buf s) r ip' buf' → pending ip buf r ip' buf'.
Proof.
  intros Hd Hw Hp fuel Hf. eapply sound_mono; [|by apply Hp]. intros b. by apply Decoded_cons.
Qed.

Lemma fast_loop_sound fuel ip buf :
  ip ≤ length src < fuel + ip → h ≤ length buf → (64 <= Z.of_nat cap - decoded h buf)%Z →
  sound (λ '(r, ip', buf'), pending ip buf r ip' buf') (fast_loop src h cap fuel ip buf).
Proof using Hwf.
  revert ip buf. induction fuel as [|fuel IH]; intros ip buf Hf Hb Hroom; [lia|]. simpl.
  destruct (src !! ip) as [token|] eqn:Ht; [past|done].
  destruct (token_split token) as (Etok & Hs & Hlow). { eapply Forall_lookup_1; [apply Hwf|done]. }
  eapply sound_bind; [by apply half_token|]. intros [len ip1] Hhalf. pose proof Hhalf as (_ & _ & Hn & Hip1).
  unfold decoded, RUN_MASK in *.
  destruct (if Z.eqb _ _ then _ else _) eqn:Hexit.
  { simpl. apply pending_literals; [done|lia]. }
  assert (ip1 + len + 2 ≤ length src ∧ length buf + len + 32 ≤ h + cap) as [Hi Hl].
  { destruct (Z.eqb_spec (Z.shiftr token 4) (Z.of_nat 15)).
    - apply orb_false_elim in Hexit as [?%Z.ltb_ge ?%Z.ltb_ge]. lia.
    - apply Z.ltb_ge in Hexit. lia. }
  clear Hexit. rewrite take_literals_ok by lia. past.
  destruct (read_offset_ok (ip1 + len)) as (offset & -> & Hoff & Hoff'); [lia|]. past.
  eapply sound_bind; [apply match_length_sound; [done|lia|lia]|].
  intros [mlen ip2] (Hm & Hx & Hd & Hip2). unfold FASTLOOP_SAFE_DISTANCE.
  set (s := mk_seq (slice ip1 (ip1 + len) src) offset mlen).
  assert (drop ip src = encode_sequence s ++ drop ip2 src) as Hseq.
  { by eapply sequence_parsed; [done|lia| | |]. }
  destruct (Z.leb_spec (Z.of_nat cap - 64) (Z.of_nat (length (buf ++ slice ip1 (ip1 + len) src)) - Z.of_nat h + Z.of_nat mlen)) as [|Hfar].
  { simpl. apply (pending_match ip s); simpl; done || lia. }
  rewrite length_app, length_slice in Hfar by lia.
  assert (offset_ok h (buf ++ slice ip1 (ip1 + len) src) offset = true →
    sound (λ '(r, ip', buf'), pending ip buf r ip' buf')
      (copy_match (buf ++ slice ip1 (ip1 + len) src) offset mlen ≫= fast_loop src h cap fuel ip2)) as Hcopy.
  { intros Hok%Z.leb_le. unfold decoded in Hok. rewrite length_app, length_slice in Hok by lia.
    rewrite copy_match_spec by (rewrite length_app, length_slice; lia). past.
    change (expand mlen offset _) with (play buf s).
    assert (length (play buf s) = length buf + len + mlen) as Hp.
    { rewrite length_play. simpl. rewrite length_slice by lia. lia. }
    eapply sound_mono; [|apply IH; unfold decoded; lia].
    intros [[r ip'] buf']. apply (pending_cons ip s); [done|]. simpl. rewrite length_slice by lia. split_and!; done || lia. }
  destruct (offset_ok _ _ _) eqn:Hok; simpl negb; [|by rewrite andb_false_r].
  destruct (_ && true); by apply Hcopy.
Qed.
End soundness.

Lemma length_last_64k hist : length (last_64k hist) = length hist `min` Z.to_nat 65536.
Proof. unfold last_64k. rewrite length_drop. lia. Qed.

(** Whatever it is given the decoder does not panic; what it accepts is the encoding of sequences whose
    offsets are within what came before, and what it adds is their meaning, no more than [cap] bytes. *)
Lemma decompress_decodes src hist cap out :
  wf_bytes src →
  sound (λ out', (cap = 0 ∧ src = [0%Z] ∧ out' = out) ∨
           ∃ seqs low last, src = encode seqs low last ∧ (0 <= low < 16)%Z ∧ in_window (length (last_64k hist)) seqs ∧
             out' = out ++ drop (length (last_64k hist)) (meaning (last_64k hist) seqs last) ∧
             length out' ≤ length out + cap)
    (decompress src hist cap out).
Proof.
  intros Hwf. unfold decompress. destruct (Nat.eqb_spec cap 0) as [->|Hc].
  { destruct (bool_decide_reflect (src = [0%Z])); [|done]. by left. }
  destruct (bool_decide_reflect (src = [])); [done|].
  set (H := last_64k hist). unfold FASTLOOP_SAFE_DISTANCE.
  apply (sound_bind (λ '(r, ip, buf), pending src (length H) cap 0 H r ip buf)).
  - destruct (Z.leb_spec 64 (Z.of_nat cap - decoded (length H) H)).
    + apply fast_loop_sound; done || lia.
    + intros fuel Hf. simpl. apply safe_loop_sound; [done|lia|lia].
  - intros [[r ip] buf] Hp. eapply sound_bind; [apply Hp; lia|].
    intros b (seqs & low & last & Hd & Hl & Hw & -> & Hb). right. exists seqs, low, last.
    rewrite drop_0 in Hd. split_and!; try done; try lia.
    rewrite length_app, length_drop. lia.
Qed.

(** ** What an encoder may rely on *)

(** The end-of-block rules of the format: a match starts 12 bytes before the end at the latest and leaves
    5 bytes of literals. *)
Fixpoint placed (bound n : nat) (seqs : list Sequence) (last : nat) : Prop :=
  match seqs with
  | [] => n + last ≤ bound
  | s :: seqs =>
      let n := n + length (sq_literals s) in
      sq_offset s ≤ n ∧ (Z.of_nat (sq_offset s) < 65536)%Z ∧ 4 ≤ sq_length s ∧
      n + 12 ≤ bound ∧ n + sq_length s + 5 ≤ bound ∧ 5 ≤ last ∧ placed bound (n + sq_length s) seqs last
  end.

Section completeness.
Context (src : list Z) (h cap : nat).

Lemma length_encode seqs low last : length last < length (encode seqs low last).
Proof. unfold encode. rewrite length_app. simpl. rewrite length_app. lia. Qed.

(** What reading a sequence gives. *)
Record sequence_at (ip : nat) (s : Sequence) (rest : list Z) (token : Z) (ip1 ip2 : nat) : Prop := {
  at_token : src !! ip = Some token;
  at_high : Z.shiftr token 4 = Z.of_nat (length (sq_literals s) `min` 15);
  at_low : Z.land token 15 = Z.of_nat ((sq_length s - 4) `min` 15);
  at_length : literal_length src token (S ip) = Ok (length (sq_literals s), ip1);
  at_short : length (sq_literals s) < 15 → ip1 = S ip;
  at_literals : ∀ buf, take_literals src buf ip1 (length (sq_literals s)) = Ok (buf ++ sq_literals s);
  at_offset : read_offset src (ip1 + length (sq_literals s)) = Ok (sq_offset s);
  at_match : match_length src (ip1 + length (sq_literals s) + 2) ((sq_length s - 4) `min` 15) = Ok (sq_length s, ip2);
  at_rest : drop ip2 src = rest;
  at_order : ip < ip1 ∧ ip1 + length (sq_literals s) + 2 ≤ ip2 ∧ ip2 + length rest = length src;
}.

Lemma read_sequence ip s rest :
  ip ≤ length src → drop ip src = encode_sequence s ++ rest → 6 ≤ length rest → 4 ≤ sq_length s →
  (Z.of_nat (sq_offset s) < 65536)%Z → ∃ token ip1 ip2, sequence_at ip s rest token ip1 ip2.
Proof.
  intros Hip Hd Hr Hm Ho. destruct s as [lits offset mlen]. unfold encode_sequence in Hd. simpl in *.
  apply drop_head in Hd as [Ht Hd]. rewrite <-!app_assoc in Hd.
  pose proof (lookup_lt_Some _ _ _ Ht) as Hlt.
  destruct (token_of_parts (length lits) (mlen - 4) 0) as [Hhi Hlo]; [lia|lia|]. rewrite Z.add_0_r in Hhi, Hlo.
  set (tail := lits ++ le_bytes 2 (Z.of_nat offset) ++ extra_bytes (mlen - 4) ++ rest) in *.
  assert (length tail = length lits + 2 + length (extra_bytes (mlen - 4)) + length rest) as Htail.
  { unfold tail. rewrite !length_app, length_le_bytes. lia. }
  assert (length src - S ip = length (extra_bytes (length lits)) + length tail) as Htot.
  { by rewrite <-length_drop, Hd, length_app. }
  set (ip1 := S ip + length (extra_bytes (length lits))).
  assert (ip1 = length src - length tail) as Hip1 by (unfold ip1; lia).
  assert (drop ip1 src = tail) as Hd1 by (eapply drop_tail; exact Hd).
  assert (drop (ip1 + length lits) src = le_bytes 2 (Z.of_nat offset) ++ extra_bytes (mlen - 4) ++ rest) as Hd2.
  { eapply drop_tail. exact Hd1. }
  assert (drop (ip1 + length lits + 2) src = extra_bytes (mlen - 4) ++ rest) as Hd3.
  { pose proof (drop_tail _ _ _ _ Hd2) as Hx. by rewrite length_le_bytes in Hx. }
  assert (ip1 = S ip + length (extra_bytes (length lits))) as Hdef by done. clearbody ip1.
  exists (token_of (length lits) (mlen - 4)), ip1, (length src - length rest). constructor; simpl.
  - done.
  - done.
  - lia.
  - rewrite Hip1. apply literal_length_complete; [lia|done|done|lia].
  - intros Hs. rewrite Hdef, extra_bytes_small by lia. simpl. lia.
  - intros buf. unfold take_literals. erewrite slice_of_drop; [done|lia|exact Hd1].
  - unfold read_offset, read16. rewrite (proj2 (Nat.leb_le _ _)) by lia. past.
    assert (slice (ip1 + length lits) (ip1 + length lits + 2) src = le_bytes 2 (Z.of_nat offset)) as ->.
    { unfold slice. rewrite Hd2. replace (ip1 + length lits + 2 - (ip1 + length lits)) with 2 by lia.
      by rewrite take_app_le, firstn_all2 by (rewrite length_le_bytes; lia). }
    rewrite le_val_small by (change (256 ^ Z.of_nat 2)%Z with 65536%Z; lia). by rewrite Nat2Z.id.
  - apply match_length_complete; [lia|done|lia|lia].
  - etransitivity; [|exact (drop_tail _ _ _ _ Hd3)]. f_equal.
    assert (length src - (ip1 + length lits + 2) = length (extra_bytes (mlen - 4)) + length rest); [|lia].
    by rewrite <-length_drop, Hd3, length_app.
  - lia.
Qed.

(** The block's end: its token, and literals that are the rest. *)
Lemma read_last ip low last :
  ip ≤ length src → drop ip src = encode [] low last → (0 <= low < 16)%Z →
  ∃ token ip1, src !! ip = Some token ∧ literal_length src token (S ip) = Ok (length last, ip1) ∧
    Z.shiftr token 4 = Z.of_nat (length last `min` 15) ∧ (length last < 15 → ip1 = S ip) ∧
    ip1 + length last = length src ∧ ∀ buf, take_literals src buf ip1 (length last) = Ok (buf ++ last).
Proof.
  intros Hip Hd Hl. unfold encode in Hd. simpl in Hd. apply drop_head in Hd as [Ht Hd].
  pose proof (lookup_lt_Some _ _ _ Ht) as Hlt.
  destruct (token_of_parts (length last) 0 low) as [Hhi _]; [lia|lia|].
  assert (length src - S ip = length (extra_bytes (length last)) + length last) as Htot.
  { by rewrite <-length_drop, Hd, length_app. }
  exists (token_of (length last) 0 + low)%Z, (length src - length last). split_and!; try done.
  - apply literal_length_complete; [lia|done|done|lia].
  - intros. rewrite extra_bytes_small in Htot by lia. simpl in Htot. lia.
  - lia.
  - intros buf. pose proof (drop_tail _ _ _ _ Hd) as Hd1.
    replace (S ip + length (extra_bytes (length last))) with (length src - length last) in Hd1 by lia.
    unfold take_literals. rewrite <-(app_nil_r last) in Hd1 at 2. erewrite slice_of_drop; [done|lia|exact Hd1].
Qed.

(** What follows a sequence: more of them and the end, to be decoded to their meaning. *)
Definition finishes (from : nat) (seqs : list Sequence) (low : Z) (last : list Z)
    (again : nat → list Z → result Fault (list Z)) : Prop :=
  ∀ ip buf, from < ip ≤ length src → h ≤ length buf → drop ip src = encode seqs low last → placed (h + cap) (length buf) seqs (length last) →
  again ip buf = Ok (meaning buf seqs last).

Lemma safe_match_ok buf offset len :
  h ≤ length buf → offset ≤ length buf → length buf + len + 5 ≤ h + cap →
  safe_match h cap buf offset len = Ok (expand len offset buf).
Proof.
  intros. unfold safe_match, decoded, LASTLITERALS.
  rewrite (proj2 (Z.ltb_ge _ _)) by lia. rewrite (proj2 (Z.ltb_ge _ _)) by lia. by apply copy_match_spec.
Qed.

(** A sequence of the safe loop, its literals read: with [again] to finish. *)
Lemma literals_complete again ip buf s seqs low last token ip1 ip2 :
  sequence_at ip s (encode seqs low last) token ip1 ip2 → h ≤ length buf →
  placed (h + cap) (length buf) (s :: seqs) (length last) → finishes ip seqs low last again →
  literals src h cap again token (length (sq_literals s)) ip1 buf = Ok (meaning buf (s :: seqs) last).
Proof.
  intros Hat Hb (Ho & Ho' & Hm & Hp1 & Hp2 & Hlast & Hp) Hfin. destruct Hat as [_ _ Hlo _ _ Hlit Hoff Hmat Hrest Hord].
  pose proof (length_encode seqs low last). unfold literals, decoded, MFLIMIT, LASTLITERALS.
  rewrite (proj2 (Z.ltb_ge _ _)) by lia. rewrite (proj2 (Z.ltb_ge _ _)) by lia. simpl orb. cbv iota.
  rewrite Hlit. past. rewrite Hoff. past. rewrite Hlo, Nat2Z.id, Hmat. past.
  rewrite safe_match_ok by (rewrite ?length_app; lia). past.
  apply Hfin; [lia|rewrite ?length_expand, ?length_app; lia|done|]. by rewrite length_expand, length_app.
Qed.

Lemma last_complete again token ip1 buf (last : list Z) :
  ip1 + length last = length src → (∀ buf, take_literals src buf ip1 (length last) = Ok (buf ++ last)) →
  h ≤ length buf → length buf + length last ≤ h + cap →
  literals src h cap again token (length last) ip1 buf = Ok (buf ++ last).
Proof.
  intros Hend Hlit Hb Hl. unfold literals, decoded, MFLIMIT, LASTLITERALS.
  rewrite (proj2 (Z.ltb_lt (Z.of_nat (length src) - _) _)) by lia. rewrite orb_true_r.
  rewrite (proj2 (Nat.eqb_eq _ _) Hend). rewrite (proj2 (Z.ltb_ge _ _)) by lia. simpl. apply Hlit.
Qed.

Lemma token_turn_complete again seqs low last ip buf :
  ip ≤ length src → drop ip src = encode seqs low last → (0 <= low < 16)%Z → h ≤ length buf →
  placed (h + cap) (length buf) seqs (length last) →
  (∀ s seqs', seqs = s :: seqs' → finishes ip seqs' low last again) →
  token_turn src h cap again ip buf = Ok (meaning buf seqs last).
Proof.
  intros Hip Hd Hlow Hb Hp Hfin. unfold token_turn. destruct seqs as [|s seqs].
  - destruct (read_last ip low last) as (token & ip1 & -> & Hlen & Hhi & Hshort & Hend & Hlit); [done..|].
    past. rewrite Hhi, Nat2Z.id. unfold RUN_MASK.
    replace (negb _ && _ && _) with false.
    2: { destruct (Nat.eqb_spec (length last `min` 15) 15); [done|].
         rewrite (proj2 (Z.ltb_ge _ _)); [done|]. specialize (Hshort ltac:(lia)). lia. }
    rewrite Hlen. past. by apply last_complete.
  - pose proof Hp as (Ho & Ho' & Hm & Hp1 & Hp2 & Hlast & Hp'). specialize (Hfin s seqs eq_refl).
    pose proof (length_encode seqs low last).
    destruct (read_sequence ip s (encode seqs low last)) as (token & ip1 & ip2 & Hat); [done| |lia|done|done|].
    { rewrite Hd. unfold encode. by rewrite fmap_cons, mjoin_cons, <-app_assoc. }
    pose proof Hat as [Ht Hhi Hlo Hlen Hshort Hlit Hoff Hmat Hrest Hord].
    rewrite Ht. past. destruct (_ && _ && _) eqn:Hcut.
    + apply andb_prop in Hcut as [[Hne%negb_true_iff%Nat.eqb_neq Hi]%andb_prop Hc].
      rewrite Hhi, Nat2Z.id in Hne |- *. unfold RUN_MASK in Hne. replace (length (sq_literals s) `min` 15) with (length (sq_literals s)) by lia.
      rewrite <-Hshort by lia. rewrite Hlit. past. rewrite Hoff. past. rewrite Hlo, Nat2Z.id.
      destruct (_ && _ && _) eqn:Hcopy.
      * apply andb_prop in Hcopy as [[Hml%negb_true_iff%Nat.eqb_neq _]%andb_prop Hok].
        unfold ML_MASK, MINMATCH in *. replace ((sq_length s - 4) `min` 15 + 4) with (sq_length s) by lia.
        unfold match_length, ML_MASK, MINMATCH in Hmat. rewrite (proj2 (Nat.eqb_neq _ _) Hml) in Hmat. injection Hmat as Hl Hi2.
        rewrite copy_match_spec by (rewrite length_app; lia). past. rewrite Hi2.
        apply Hfin; [lia|rewrite ?length_expand, ?length_app; lia|done|]. by rewrite length_expand, length_app.
      * rewrite Hmat. past. rewrite safe_match_ok by (rewrite ?length_app; lia). past.
        apply Hfin; [lia|rewrite ?length_expand, ?length_app; lia|done|]. by rewrite length_expand, length_app.
    + rewrite Hlen. past. by eapply literals_complete.
Qed.

Lemma safe_loop_complete fuel seqs low last ip buf :
  ip ≤ length src < fuel + ip → drop ip src = encode seqs low last → (0 <= low < 16)%Z → h ≤ length buf →
  placed (h + cap) (length buf) seqs (length last) →
  safe_loop src h cap fuel ip buf = Ok (meaning buf seqs last).
Proof.
  revert fuel ip buf. induction seqs as [|s seqs IH]; intros fuel ip buf Hf Hd Hl Hb Hp.
  all: destruct fuel as [|fuel]; [lia|]; simpl; eapply token_turn_complete; try done; try lia.
  intros s' seqs' [= <- <-] ip' buf' Hip' Hb' Hd' Hp'. apply IH; done || lia.
Qed.

Lemma fast_loop_complete fuel seqs low last ip buf :
  ip ≤ length src < fuel + ip → drop ip src = encode seqs low last → (0 <= low < 16)%Z → h ≤ length buf →
  placed (h + cap) (length buf) seqs (length last) →
  ∃ r ip' buf', fast_loop src h cap fuel ip buf = Ok (r, ip', buf') ∧
    ∀ fuel', length src < fuel' → resume_at src h cap fuel' r ip' buf' = Ok (meaning buf seqs last).
Proof.
  revert fuel ip buf. induction seqs as [|s seqs IH]; intros fuel ip buf Hf Hd Hl Hb Hp.
  all: destruct fuel as [|fuel]; [lia|]; simpl.
  - destruct (read_last ip low last) as (token & ip1 & -> & Hlen & Hhi & Hshort & Hend & Hlit); [lia|done..|].
    past. rewrite Hlen. past. replace (if Z.eqb _ _ then _ else _) with true.
    + eexists _, _, _. split; [done|]. intros fuel' Hf'. by apply last_complete.
    + rewrite Hhi. unfold RUN_MASK. destruct (Z.eqb_spec (Z.of_nat (length last `min` 15)) (Z.of_nat 15)); symmetry.
      * apply orb_true_intro. right. apply Z.ltb_lt. lia.
      * specialize (Hshort ltac:(lia)). apply Z.ltb_lt. lia.
  - pose proof Hp as (Ho & Ho' & Hm & Hp1 & Hp2 & Hlast & Hp'). pose proof (length_encode seqs low last).
    destruct (read_sequence ip s (encode seqs low last)) as (token & ip1 & ip2 & Hat); [lia| |lia|done|done|].
    { rewrite Hd. unfold encode. by rewrite fmap_cons, mjoin_cons, <-app_assoc. }
    pose proof Hat as [Ht Hhi Hlo Hlen Hshort Hlit Hoff Hmat Hrest Hord].
    rewrite Ht. past. rewrite Hlen. past. destruct (if Z.eqb _ _ then _ else _).
    { eexists _, _, _. split; [done|]. intros fuel' Hf'. eapply literals_complete; [done|done|done|].
      intros ip' buf' Hip' Hb' Hd' Hp''. apply safe_loop_complete with (low := low); done || lia. }
    rewrite Hlit. past. rewrite Hoff. past. rewrite Hlo, Nat2Z.id, Hmat. past.
    assert (Hplay : placed (h + cap) (length (play buf s)) seqs (length last)) by by rewrite length_play.
    destruct (_ <=? _)%Z.
    { eexists _, _, _. split; [done|]. intros fuel' Hf'. unfold resume_at. rewrite safe_match_ok by (rewrite ?length_app; lia). past.
      change (meaning buf (s :: seqs) last) with (meaning (play buf s) seqs last).
      apply safe_loop_complete with (low := low); try done; [lia|]. fold (play buf s). rewrite length_play. lia. }
    assert (offset_ok h (buf ++ sq_literals s) (sq_offset s) = true) as ->.
    { apply Z.leb_le. unfold decoded. rewrite length_app. lia. }
    rewrite copy_match_spec by (rewrite length_app; lia). past. change (expand _ _ _) with (play buf s).
    destruct (IH fuel ip2 (play buf s)) as (r & ip' & buf' & Hfast & Hres); [lia|done|done|rewrite length_play; lia|done|].
    exists r, ip', buf'. split; [by destruct (_ && _)|done].
Qed.
End completeness.

(** The decoder reads what is encoded within the rules of the format, whatever the room and the history. *)
Lemma decompress_encode seqs low last hist cap out :
  (0 <= low < 16)%Z → 0 < cap →
  placed (length (last_64k hist) + cap) (length (last_64k hist)) seqs (length last) →
  decompress (encode seqs low last) hist cap out =
    Ok (out ++ drop (length (last_64k hist)) (meaning (last_64k hist) seqs last)).
Proof.
  intros Hl Hc Hp. unfold decompress. rewrite (proj2 (Nat.eqb_neq _ _)) by lia.
  pose proof (length_encode seqs low last). set (src := encode seqs low last) in *.
  rewrite bool_decide_eq_false_2 by (intros ->; simpl in *; lia).
  set (H0 := last_64k hist) in *. destruct (_ <=? _)%Z.
  - destruct (fast_loop_complete src (length H0) cap (S (length src)) seqs low last 0 H0) as (r & ip & buf & -> & Hr);
      [lia|done..|]. past. by rewrite Hr by lia.
  - past. unfold resume_at. by rewrite (safe_loop_complete src (length H0) cap (S (length src)) seqs low last 0 H0) by (done || lia).
Qed.

(** C20: the decoder and the format agree.  Whatever bytes it is given, with whatever history and room, the
    decoder (two loops, with shortcuts) does not panic, so it reads nothing outside its input, history and
    output.  What it accepts is the encoding of sequences whose matches lie in the history or in what is
    decoded before them, and what it appends is their meaning, read byte by byte, in the room it was given
    (a block of one zero byte is accepted where there is no room).  What it refuses is no encoding within
    the format's end-of-block rules that fits the room. *)
Theorem lz4_decoder_exact src hist cap out :
  wf_bytes src →
  let H := last_64k hist in
  match decompress src hist cap out with
  | Ok out' =>
      length out' ≤ length out + cap ∧
      ((cap = 0 ∧ src = [0%Z] ∧ out' = out) ∨
       ∃ seqs low last, src = encode seqs low last ∧ (0 <= low < 16)%Z ∧ in_window (length H) seqs ∧
         out' = out ++ drop (length H) (meaning H seqs last))
  | Err Malformed =>
      ∀ seqs low last, src = encode seqs low last → (0 <= low < 16)%Z → 0 < cap →
        ¬ placed (length H + cap) (length H) seqs (length last)
  | Err Panicked => False
  end.
Proof.
  intros Hwf H. pose proof (decompress_decodes src hist cap out Hwf) as Hs.
  destruct (decompress src hist cap out) as [out'|[]] eqn:E; simpl in Hs; [| |done].
  - destruct Hs as [(-> & -> & ->)|(seqs & low & last & ? & ? & ? & ? & ?)]; [split; [lia|by left]|].
    split; [done|]. right. by exists seqs, low, last.
  - intros seqs low last -> Hl Hc Hp. by rewrite decompress_encode in E.
Qed.

(** A block with a match over its own output, after a history. *)
Definition sample_block : list Z := encode [mk_seq [1; 2; 3]%Z 5 20; mk_seq [] 1 300] 0 [9; 8; 7; 6; 5]%Z.

Lemma lz4_decoder_exact_witness :
  wf_bytes sample_block ∧
  (match decompress sample_block [4; 5]%Z 400 [] with
   | Ok out' => length out' ≤ 0 + 400 ∧
      ((400 = 0 ∧ sample_block = [0%Z] ∧ out' = []) ∨
       ∃ seqs low last, sample_block = encode seqs low last ∧ (0 <= low < 16)%Z ∧ in_window (length (last_64k [4; 5]%Z)) seqs ∧
         out' = [] ++ drop (length (last_64k [4; 5]%Z)) (meaning (last_64k [4; 5]%Z) seqs last))
   | Err Malformed => ∀ seqs low last, sample_block = encode seqs low last → (0 <= low < 16)%Z → 0 < 400 →
        ¬ placed (length (last_64k [4; 5]%Z) + 400) (length (last_64k [4; 5]%Z)) seqs (length last)
   | Err Panicked => False
   end) ∧
  (∃ out', decompress sample_block [4; 5]%Z 400 [] = Ok out' ∧ take 24 out' =
     [1; 2; 3; 4; 5; 1; 2; 3; 4; 5; 1; 2; 3; 4; 5; 1; 2; 3; 4; 5; 1; 2; 3; 3]%Z).
Proof.
  assert (wf_bytes sample_block) as Hwf by (by apply wf_bytes_check; vm_compute).
  split; [exact Hwf|]. split; [exact (lz4_decoder_exact sample_block [4; 5]%Z 400 [] Hwf)|].
  eexists. split; vm_compute; reflexivity.
Defined.
