(* ===== verification/Lz4Fast.v ===== *)
(** * LZ4 blocks: the fast compressor

    The compressor of tools/rust/archive/src/lz4/block.rs with the state it carries from block to block
    ([FastStream]): the hash tables, the dictionary, an attached dictionary.

    Table entries and indexes are the source's u32 and u16 numbers, as [Z]; window positions are [nat]s.
    [None] is a panic (a read past the end of the window) or a search that does not end: neither happens
    ([compress_generic_writes]). *)
From S2P Require Import Prelude Lz4Block.

Local Open Scope nat_scope.

Definition DISTANCE_MAX : Z := 65535.
Definition MAX_INPUT_SIZE : Z := 2113929216.
Definition LIMIT_64K : Z := 65536 + 12 - 1.
Definition SKIP_TRIGGER : Z := 6.
Definition HASHLOG : Z := 12.
Definition HASH_SIZE_U32 : nat := Z.to_nat (Z.shiftl 1 HASHLOG).
Definition KB64 : Z := 65536.
Definition ACCELERATION_MAX : Z := 65537.

Definition compress_bound (n : Z) : Z := if (MAX_INPUT_SIZE <? n)%Z then 0 else (n + n / 255 + 16)%Z.

(** ** Comparing *)

Fixpoint ctz (p : positive) : nat := match p with xO p => S (ctz p) | _ => 0 end.
Definition trailing_zeros (x : Z) : nat := match x with Zpos p => ctz p | _ => 64 end.

(** [count]: where the bytes at [a] stop equalling those at [b].  Each turn takes at least a byte. *)
Fixpoint count_bytes (fuel : nat) (w : list Z) (a b limit : nat) : option nat :=
  match fuel with
  | O => None
  | S fuel =>
      if a <? limit then
        x ← w !! a; y ← w !! b;
        if (x =? y)%Z then count_bytes fuel w (S a) (S b) limit else Some a
      else Some a
  end.
Fixpoint count_words (fuel : nat) (w : list Z) (a b limit : nat) : option nat :=
  match fuel with
  | O => None
  | S fuel =>
      if a + 8 <=? limit then
        x ← read64 w a; y ← read64 w b;
        let x := Z.lxor x y in
        if negb (x =? 0)%Z then Some (a + trailing_zeros x / 8) else count_words fuel w (a + 8) (b + 8) limit
      else count_bytes (S limit) w a b limit
  end.
Definition count (w : list Z) (a b limit : nat) : option nat :=
  e ← count_words (S limit) w a b limit; Some (e - a).

(** ** The state *)

Inductive TableType : Type := Cleared | U32 | U16.
#[export] Instance TableType_eq_dec : EqDecision TableType.
Proof. solve_decision. Defined.

Inductive DictMode : Type := NoDict | Prefix_ | ExtDict | DictCtx.
#[export] Instance DictMode_eq_dec : EqDecision DictMode.
Proof. solve_decision. Defined.

Definition hash_position (w : list Z) (p : nat) (tt : TableType) : option nat :=
  if bool_decide (tt ≠ U16) then
    seq ← read64 w p;
    Some (Z.to_nat (Z.shiftr (u64 (u64 (Z.shiftl seq 24) * 889523592379)) (64 - HASHLOG)))
  else
    seq ← read32 w p;
    Some (Z.to_nat (Z.shiftr (u32 (seq * 2654435761)) (32 - (HASHLOG + 1)))).

(** An attached dictionary is shared by the source ([Rc]) and never changed, so it is a value here. *)
Inductive FastStream : Type := mk_stream {
  t32 : list Z;
  t16 : list Z;
  current_offset : Z;
  table_type : TableType;
  dict : list Z;
  dict_size : Z;
  dict_ctx : option FastStream;
}.

Definition no_entries (n : nat) : list Z := replicate n 0%Z.

(** [default] and [init] make the same state. *)
Definition init : FastStream :=
  mk_stream (no_entries HASH_SIZE_U32) (no_entries (HASH_SIZE_U32 * 2)) 0 Cleared [] 0 None.

(** Hashes are within the tables ([hash_position_lt]). *)
Definition get (s : FastStream) (h : nat) (tt : TableType) : Z :=
  if bool_decide (tt = U16) then byte_at (t16 s) h else byte_at (t32 s) h.

Definition put (s : FastStream) (h : nat) (idx : Z) (tt : TableType) : FastStream :=
  let '(mk_stream a b o t d n c) := s in
  if bool_decide (tt = U16) then mk_stream a (<[h := u16 idx]> b) o t d n c else mk_stream (<[h := idx]> a) b o t d n c.

Definition set_offset (o : Z) (s : FastStream) : FastStream :=
  let '(mk_stream a b _ t d n c) := s in mk_stream a b o t d n c.

(** [prepare_table] *)
Definition prepare_table (input_size : Z) (tt : TableType) (s : FastStream) : FastStream :=
  let clear :=
    bool_decide (table_type s ≠ Cleared) &&
    (bool_decide (table_type s ≠ tt) ||
     (bool_decide (tt = U16) && (65535 <=? current_offset s + input_size)%Z) ||
     (bool_decide (tt = U32) && (Z.shiftl 1 30 <? current_offset s)%Z) ||
     (4096 <=? input_size)%Z) in
  let '(mk_stream a b o t _ _ _) :=
    if clear then mk_stream (no_entries HASH_SIZE_U32) (no_entries (HASH_SIZE_U32 * 2)) 0 Cleared [] 0 None else s in
  let o := if negb (o =? 0)%Z && bool_decide (tt = U32) then u32 (o + KB64) else o in
  mk_stream a b o t [] 0 None.

Definition reset_fast (s : FastStream) : FastStream := prepare_table 0 U32 s.

(** [load_dict_slow]: every third position first, then every position whose slot is still empty. *)
Fixpoint load_thirds (fuel : nat) (d : list Z) (start : Z) (p : nat) (t : list Z) : option (list Z) :=
  match fuel with
  | O => None
  | S fuel =>
      if p + 8 <=? length d then
        h ← hash_position d p U32; load_thirds fuel d start (p + 3) (<[h := (start + Z.of_nat p)%Z]> t)
      else Some t
  end.
Fixpoint load_rest (fuel : nat) (d : list Z) (start limit : Z) (p : nat) (t : list Z) : option (list Z) :=
  match fuel with
  | O => None
  | S fuel =>
      if p + 8 <=? length d then
        h ← hash_position d p U32;
        load_rest fuel d start limit (p + 1)
          (if (byte_at t h <=? limit)%Z then <[h := (start + Z.of_nat p)%Z]> t else t)
      else Some t
  end.

Definition load_dict_slow (dictionary : list Z) : option FastStream :=
  let s := init in
  let offset := (current_offset s + KB64)%Z in
  if length dictionary <? 8 then Some (set_offset offset s)
  else
    let d := last_64k dictionary in
    let size := Z.of_nat (length d) in
    let start := (offset - size)%Z in
    t ← load_thirds (S (length d)) d start 0 (t32 s);
    t ← load_rest (S (length d)) d start (offset - KB64) 0 t;
    Some (mk_stream t (t16 s) offset U32 d size None).

Definition attach_dictionary (d : option FastStream) (s : FastStream) : FastStream :=
  let '(mk_stream a b o t di n _) := s in
  match d with
  | None => mk_stream a b o t di n None
  | Some ctx =>
      mk_stream a b (if (o =? 0)%Z then KB64 else o) t di n (if (dict_size ctx =? 0)%Z then None else Some ctx)
  end.

Definition save_dict (size : Z) (s : FastStream) : FastStream :=
  let '(mk_stream a b o t d n c) := s in
  let size := Z.min (Z.min size 65536) n in
  let keep := length d - Nat.min (Z.to_nat size) (length d) in
  mk_stream a b o t (drop keep d) size c.

Definition set_dict_from_block (src : list Z) (s : FastStream) : FastStream :=
  let '(mk_stream a b o t _ _ c) := s in
  mk_stream a b o t (last_64k src) (u32 (Z.of_nat (length src))) c.

(** [renorm] *)
Definition renorm (next_size : Z) (s : FastStream) : FastStream :=
  let '(mk_stream a b o t d n c) := s in
  if (2147483648 <? o + next_size)%Z then
    let delta := u32 (o - KB64) in
    mk_stream ((λ x, if (x <? delta)%Z then 0%Z else (x - delta)%Z) <$> a) b KB64 t d
      (if (KB64 <? n)%Z then KB64 else n) c
  else s.

(** ** Compressing a block *)

(** Where the search for a match ends: at the end of the block, or with a match at [mpos]. *)
Inductive Searched : Type :=
  | NoMatch (s : FastStream)
  | Found (s : FastStream) (low ip mpos : nat).

(** After a match: the block's end is near, the next search, or no room in the output. *)
Inductive Matched : Type :=
  | Last (s : FastStream) (out : list Z) (anchor : nat)
  | Next (s : FastStream) (out : list Z) (ip low : nat)
  | Overflow (s : FastStream).

(** Writing literals: no room, or a panic. *)
Inductive Stop : Type := Full | Panic.

Section compress.
(* The window is the dictionary and the block, which starts at [src_pos]. *)
Context (w : list Z) (src_pos : nat) (start_index : Z) (tt : TableType) (mode : DictMode) (dict_small : bool).
Context (prefix_idx_limit dict_delta : Z) (dctx : option FastStream) (olimit : option Z) (accel : Z).

Let shift : Z := Z.of_nat src_pos - start_index.
Let iend := length w.
(* In a window of fewer bytes these subtractions go below zero.  In a build without overflow checks, which the
   model is of, they wrap in the source where they stop at zero here; a block that small has no search, so
   that nothing reads them.  A build with the checks panics here instead. *)
Let mflimit_plus_one := iend - MFLIMIT + 1.
Let matchlimit := iend - LASTLITERALS.
Let dict_low := 0.

Definition idx_of (p : nat) : Z := u32 (Z.of_nat p - shift).

(** What the table has for a hash, and how far back a match may be extended. *)
Definition candidate (s : FastStream) (h low : nat) : option (Z * nat) :=
  let match_index := get s h tt in
  match mode with
  | DictCtx =>
      if (match_index <? start_index)%Z then
        c ← dctx; Some (u32 (byte_at (t32 c) h + dict_delta), dict_low)
      else Some (match_index, src_pos)
  | ExtDict => Some (match_index, if (match_index <? start_index)%Z then dict_low else src_pos)
  | _ => Some (match_index, low)
  end.

(** [limit] tests: [out.len() + n > ol]. *)
Definition over (out : list Z) (n : nat) : bool :=
  match olimit with Some ol => (ol <? Z.of_nat (length out + n))%Z | None => false end.

(** The search: [step] grows as nothing is found.  Each turn goes on by a byte at least. *)
Fixpoint search (fuel : nat) (s : FastStream) (low forward_ip step : nat) (nb : Z) (forward_h : nat) : option Searched :=
  match fuel with
  | O => None
  | S fuel =>
      let h := forward_h in
      let current := idx_of forward_ip in
      let ip := forward_ip in
      let forward_ip := forward_ip + step in
      let step := Z.to_nat (Z.shiftr nb SKIP_TRIGGER) in
      let nb := u32 (nb + 1) in
      if mflimit_plus_one <? forward_ip then Some (NoMatch s)
      else
        '(match_index, low) ← candidate s h low;
        forward_h ← hash_position w forward_ip tt;
        let s := put s h current tt in
        let again := search fuel s low forward_ip step nb forward_h in
        if dict_small && (match_index <? prefix_idx_limit)%Z then again
        else if bool_decide (tt ≠ U16) && (u32 (match_index + DISTANCE_MAX) <? current)%Z then again
        else
          let mp := (match_index + shift)%Z in
          if (mp <? 0)%Z then again
          else
            x ← read32 w (Z.to_nat mp); y ← read32 w ip;
            if (x =? y)%Z then Some (Found s low ip (Z.to_nat mp)) else again
  end.

(** A match taken back over the bytes before it. *)
Fixpoint back (fuel : nat) (ip mpos anchor low : nat) : option (nat * nat) :=
  match fuel with
  | O => None
  | S fuel =>
      if (anchor <? ip) && (low <? mpos) then
        x ← w !! (ip - 1); y ← w !! (mpos - 1);
        if (x =? y)%Z then back fuel (ip - 1) (mpos - 1) anchor low else Some (ip, mpos)
      else Some (ip, mpos)
  end.
Definition catch_up (ip mpos anchor low : nat) : option (nat * nat) :=
  if low <? mpos then
    x ← w !! (ip - 1); y ← w !! (mpos - 1);
    if (x =? y)%Z then back (S (length w)) (ip - 1) (mpos - 1) anchor low else Some (ip, mpos)
  else Some (ip, mpos).

(** The token's place and the literals; the token's low bits come with the match. *)
Definition put_literals (out : list Z) (anchor ip : nat) : result Stop (list Z) :=
  let lit_len := ip - anchor in
  let token := length out in
  let out := out ++ [0%Z] in
  if over out (lit_len + (2 + 1 + LASTLITERALS) + lit_len / 255) then Err Full
  else
    let out := if RUN_MASK <=? lit_len
               then push_length (<[token := u8 (Z.shiftl (Z.of_nat RUN_MASK) 4)]> out) (lit_len - RUN_MASK)
               else <[token := u8 (Z.shiftl (Z.of_nat lit_len) 4)]> out in
    l ← ok_or (get_slice anchor ip w) Panic; Ok (out ++ l).

(** [out[token] += n] *)
Definition add_token (token n : nat) (out : list Z) : list Z :=
  <[token := u8 (byte_at out token + Z.of_nat n)]> out.

(** Matches that follow each other without literals.  Each takes 4 bytes at least. *)
Fixpoint matches (fuel : nat) (s : FastStream) (out : list Z) (token ip mpos low : nat) : option Matched :=
  match fuel with
  | O => None
  | S fuel =>
      let offset := (Z.of_nat ip - Z.of_nat mpos)%Z in
      let out := out ++ le_bytes 2 (u16 offset) in
      match_code ← count w (ip + MINMATCH) (mpos + MINMATCH) matchlimit;
      let ip := ip + (match_code + MINMATCH) in
      if over out (1 + LASTLITERALS + (match_code + 240) / 255) then Some (Overflow s)
      else
        let out := if ML_MASK <=? match_code
                   then push_length (add_token token ML_MASK out) (match_code - ML_MASK)
                   else add_token token match_code out in
        if mflimit_plus_one <=? ip then Some (Last s out ip)
        else
          h ← hash_position w (ip - 2) tt;
          let s := put s h (idx_of (ip - 2)) tt in
          h ← hash_position w ip tt;
          let current := idx_of ip in
          '(match_index, low) ← candidate s h low;
          let s := put s h current tt in
          let mp := (match_index + shift)%Z in
          same ← (if (negb dict_small || (prefix_idx_limit <=? match_index)%Z) &&
                     (bool_decide (tt = U16) || (current <=? u32 (match_index + DISTANCE_MAX))%Z) && (0 <=? mp)%Z
                  then x ← read32 w (Z.to_nat mp); y ← read32 w ip; Some (x =? y)%Z
                  else Some false);
          if same : bool then matches fuel s (out ++ [0%Z]) (length out) ip (Z.to_nat mp) low
          else Some (Next s out ip low)
  end.

(** From one search to the next, up to where the last literals start. *)
Fixpoint sequences (fuel : nat) (s : FastStream) (out : list Z) (ip anchor low forward_h : nat) : option Matched :=
  match fuel with
  | O => None
  | S fuel =>
      r ← search (S (length w)) s low ip 1 (Z.shiftl accel SKIP_TRIGGER) forward_h;
      match r with
      | NoMatch s => Some (Last s out anchor)
      | Found s low ip mpos =>
          '(ip, mpos) ← catch_up ip mpos anchor low;
          match put_literals out anchor ip with
          | Err Full => Some (Overflow s)
          | Err Panic => None
          | Ok o =>
              r ← matches (S (length w)) s o (length out) ip mpos low;
              match r with
              | Next s out ip low =>
                  forward_h ← hash_position w (ip + 1) tt; sequences fuel s out (ip + 1) ip low forward_h
              | r => Some r
              end
          end
      end
  end.

Definition last_literals (out : list Z) (anchor : nat) : result Stop (list Z) :=
  let last_run := iend - anchor in
  if over out (last_run + 1 + (last_run + 255 - RUN_MASK) / 255) then Err Full
  else
    let out := if RUN_MASK <=? last_run
               then push_length (out ++ [u8 (Z.shiftl (Z.of_nat RUN_MASK) 4)]) (last_run - RUN_MASK)
               else out ++ [u8 (Z.shiftl (Z.of_nat last_run) 4)] in
    l ← ok_or (get_slice anchor iend w) Panic; Ok (out ++ l).

(** The block after [out]: [None] when it does not fit. *)
Definition compress_window (s : FastStream) (out : list Z) : option (option (list Z) * FastStream) :=
  r ← (if iend - src_pos <? MIN_LENGTH then Some (Last s out src_pos)
       else
         h ← hash_position w src_pos tt;
         let s := put s h start_index tt in
         forward_h ← hash_position w (src_pos + 1) tt;
         sequences (S (length w)) s out (src_pos + 1) src_pos
           (if bool_decide (mode = Prefix_) then dict_low else src_pos) forward_h);
  match r with
  | Overflow s => Some (None, s)
  | Last s out anchor | Next s out anchor _ =>
      match last_literals out anchor with
      | Ok out => Some (Some out, s)
      | Err Full => Some (None, s)
      | Err Panic => None
      end
  end.
End compress.

(** The dictionary a block is matched against, and the size it is said to have. *)
Definition block_dict (mode : DictMode) (s : FastStream) : option (list Z * Z) :=
  match mode with
  | NoDict => Some ([], 0%Z)
  | DictCtx => c ← dict_ctx s; Some (dict c, dict_size c)
  | _ => Some (dict s, dict_size s)
  end.

(** The context updated for a block. *)
Definition begin_block (mode : DictMode) (tt : TableType) (input_size : Z) (s : FastStream) : FastStream :=
  let '(mk_stream a b o _ d n c) := s in
  if bool_decide (mode = DictCtx)
  then mk_stream a b (u32 (o + input_size)) tt d (u32 input_size) None
  else mk_stream a b (u32 (o + input_size)) tt d (u32 (n + input_size)) c.

(** [compress_generic]: the bytes written (0 when the block does not fit), the output, the state. *)
Definition compress_generic (s : FastStream) (src out : list Z) (limit : option Z) (tt : TableType) (mode : DictMode)
    (dict_small : bool) (accel : Z) : option (nat * list Z * FastStream) :=
  let input_size := Z.of_nat (length src) in
  if (MAX_INPUT_SIZE <? input_size)%Z then Some (0, out, s)
  else if bool_decide (src = []) then
    if bool_decide (limit = Some 0%Z) then Some (0, out, s) else Some (1, out ++ [0%Z], s)
  else
    let olimit := (λ l, (Z.of_nat (length out) + l)%Z) <$> limit in
    let start_index := current_offset s in
    let dctx := if bool_decide (mode = DictCtx) then dict_ctx s else None in
    '(dict_bytes, size) ← block_dict mode s;
    let dict_delta := match dctx with Some c => u32 (start_index - current_offset c) | None => 0%Z end in
    let w := dict_bytes ++ src in
    let src_pos := length w - length src in
    let prefix_idx_limit := u32 (start_index - size) in
    '(r, s) ← compress_window w src_pos start_index tt mode dict_small prefix_idx_limit dict_delta dctx olimit accel
                (begin_block mode tt input_size s) out;
    match r with
    | Some out' => Some (length out' - length out, out', s)
    | None => Some (0, out, s)
    end.

Definition block_limit (cap : Z) (src : list Z) : option Z :=
  if (compress_bound (Z.of_nat (length src)) <=? cap)%Z then None else Some cap.
Definition clamp_accel (accel : Z) : Z := Z.min (Z.max accel 1) ACCELERATION_MAX.

(** [compress_ext_state]: a fresh state for each block. *)
Definition compress_ext_state (src out : list Z) (cap accel : Z) : option (nat * list Z * FastStream) :=
  let tt := if (Z.of_nat (length src) <? LIMIT_64K)%Z then U16 else U32 in
  compress_generic init src out (block_limit cap src) tt NoDict false (clamp_accel accel).

(** [compress_fast_reset]: a frame's independent blocks. *)
Definition compress_fast_reset (s : FastStream) (src out : list Z) (cap accel : Z) : option (nat * list Z * FastStream) :=
  let n := Z.of_nat (length src) in
  if (n <? LIMIT_64K)%Z then
    let s := prepare_table n U16 s in
    compress_generic s src out (block_limit cap src) U16 NoDict (negb (current_offset s =? 0)%Z) (clamp_accel accel)
  else
    let s := prepare_table n U32 s in
    compress_generic s src out (block_limit cap src) U32 NoDict false (clamp_accel accel).

(** Whether the table may have indexes before the dictionary. *)
Definition small (s : FastStream) : bool := (dict_size s <? KB64)%Z && (dict_size s <? current_offset s)%Z.

(** [compress_continue]: linked blocks, and blocks with a dictionary. *)
Definition compress_continue (s : FastStream) (src out : list Z) (cap accel : Z) : option (nat * list Z * FastStream) :=
  let s := renorm (Z.of_nat (length src)) s in
  let accel := clamp_accel accel in
  let limit := block_limit cap src in
  '(r, out, s) ←
    (if (dict_size s <? 4)%Z && bool_decide (src ≠ []) && bool_decide (dict_ctx s = None) then
       let '(mk_stream a b o t _ _ c) := s in
       let s := mk_stream a b o t [] 0 c in
       compress_generic s src out limit U32 Prefix_ (small s) accel
     else
       match dict_ctx s with
       | Some ctx =>
           if (4096 <? Z.of_nat (length src))%Z then compress_generic ctx src out limit U32 ExtDict false accel
           else compress_generic s src out limit U32 DictCtx false accel
       | None => compress_generic s src out limit U32 ExtDict (small s) accel
       end);
  Some (r, out, set_dict_from_block src s).

(** [compress_fast]: the legacy format's blocks. *)
Definition compress_fast (src out : list Z) (cap accel : Z) : option (nat * list Z) :=
  '(r, out, _) ← compress_ext_state src out cap accel; Some (r, out).

Local Arguments Nat.leb : simpl never.
Local Arguments Nat.ltb : simpl never.
Local Arguments Nat.sub : simpl never.
Local Arguments Nat.div : simpl never.

(** ** Comparing *)

Lemma ctz_spec p n : (0 <= n < Z.of_nat (ctz p))%Z → Z.testbit (Zpos p) n = false.
Proof.
  revert n. induction p as [p IH|p IH|]; intros n Hn; simpl ctz in Hn; [lia| |lia].
  change (Zpos p~0) with (2 * Zpos p)%Z. destruct (decide (n = 0%Z)) as [->|]; [by rewrite Z.testbit_even_0|].
  replace n with (Z.succ (n - 1)) by lia. rewrite Z.testbit_even_succ by lia. apply IH. lia.
Qed.
Lemma ctz_bound p : (2 ^ Z.of_nat (ctz p) <= Zpos p)%Z.
Proof.
  induction p as [p IH|p IH|]; simpl ctz; [lia| |lia].
  rewrite Nat2Z.inj_succ, Z.pow_succ_r by lia. change (Zpos p~0) with (2 * Zpos p)%Z. lia.
Qed.

Lemma ctz_set p : Z.testbit (Zpos p) (Z.of_nat (ctz p)) = true.
Proof.
  induction p as [p IH|p IH|]; simpl ctz; [done| |done].
  change (Zpos p~0) with (2 * Zpos p)%Z. rewrite Nat2Z.inj_succ, Z.testbit_even_succ by lia. done.
Qed.

(** Numbers whose low bytes agree have the same low bits. *)
Lemma low_bits_equal k xs ys n :
  wf_bytes xs → wf_bytes ys → take k xs = take k ys → k ≤ length xs → k ≤ length ys → (0 <= n < 8 * Z.of_nat k)%Z →
  Z.testbit (Z.lxor (le_val xs) (le_val ys)) n = false.
Proof.
  intros Hx Hy E Hlx Hly Hn. rewrite Z.lxor_spec.
  assert (∀ l, wf_bytes l → k ≤ length l → (le_val l mod 2 ^ (8 * Z.of_nat k) = le_val (take k l))%Z) as Htake.
  { clear. intros l. revert k. induction l as [|b l IH]; intros [|k] Hl Hk; try (by rewrite Z.mod_1_r); simpl in Hk; [lia|].
    apply Forall_cons in Hl as [Hb Hl]. unfold is_byte in Hb. simpl take.
    change (le_val (b :: l)) with (b + 256 * le_val l)%Z. change (le_val (b :: take k l)) with (b + 256 * le_val (take k l))%Z.
    rewrite <-(IH k) by (done || lia). replace (8 * Z.of_nat (S k))%Z with (8 + 8 * Z.of_nat k)%Z by lia.
    pose proof (Z.pow_pos_nonneg 2 (8 * Z.of_nat k) ltac:(lia) ltac:(lia)).
    rewrite Z.pow_add_r by lia. change (2 ^ 8)%Z with 256%Z. rewrite Z.rem_mul_r by lia. f_equal.
    - rewrite Z.mul_comm, Z_mod_plus_full, Z.mod_small; lia.
    - f_equal. rewrite Z.mul_comm, Z.div_add, Z.div_small by lia. done. }
  rewrite <-(Z.mod_pow2_bits_low (le_val xs) (8 * Z.of_nat k)), <-(Z.mod_pow2_bits_low (le_val ys) (8 * Z.of_nat k)) by lia.
  rewrite !Htake, E by done. apply xorb_nilpotent.
Qed.

(** Numbers whose low bits agree have the same low bytes. *)
Lemma low_bytes_equal k xs ys :
  wf_bytes xs → wf_bytes ys → length xs = length ys →
  (∀ n, (0 <= n < 8 * Z.of_nat k)%Z → Z.testbit (Z.lxor (le_val xs) (le_val ys)) n = false) →
  take k xs = take k ys.
Proof.
  revert k ys. induction xs as [|x xs IH]; intros k ys Hx Hy Hl Hb; destruct ys as [|y ys]; try done.
  destruct k as [|k]; [done|]. apply Forall_cons in Hx as [Hx Hxs]. apply Forall_cons in Hy as [Hy Hys].
  unfold is_byte in *. change (le_val (x :: xs)) with (x + 256 * le_val xs)%Z in Hb.
  change (le_val (y :: ys)) with (y + 256 * le_val ys)%Z in Hb.
  assert (∀ b l n, (0 <= b < 256)%Z → (0 <= n)%Z → Z.testbit (b + 256 * l) (n + 8) = Z.testbit l n) as Hhi.
  { intros b l n Hbb Hn. rewrite <-Z.shiftr_spec by lia. rewrite Z.shiftr_div_pow2 by lia. change (2 ^ 8)%Z with 256%Z.
    f_equal. rewrite Z.mul_comm, Z.div_add by lia. rewrite Z.div_small; lia. }
  assert (∀ b l n, (0 <= b < 256)%Z → (0 <= n < 8)%Z → Z.testbit (b + 256 * l) n = Z.testbit b n) as Hlo.
  { intros b l n Hbb Hn. rewrite <-(Z.mod_pow2_bits_low _ 8) by lia. change (2 ^ 8)%Z with 256%Z.
    f_equal. rewrite Z.mul_comm, Z_mod_plus_full. apply Z.mod_small. lia. }
  simpl. f_equal.
  - apply Z.bits_inj'. intros n Hn. destruct (decide (n < 8)%Z).
    + specialize (Hb n ltac:(lia)). rewrite Z.lxor_spec, !Hlo in Hb by lia. by apply xorb_eq.
    + rewrite <-(Z.mod_small x (2 ^ 8)), <-(Z.mod_small y (2 ^ 8)) by (change (2 ^ 8)%Z with 256%Z; lia).
      by rewrite !Z.mod_pow2_bits_high by lia.
  - apply IH; [done|done|by injection Hl|]. intros n Hn. specialize (Hb (n + 8)%Z ltac:(lia)).
    by rewrite Z.lxor_spec, !Hhi, <-Z.lxor_spec in Hb by lia.
Qed.

Section comparing.
Context (w : list Z) (Hwf : wf_bytes w).

(** The same [n] bytes at [a] and at [b]. *)
Definition same (a b n : nat) : Prop := ∀ k, k < n → w !! (a + k) = w !! (b + k).

Lemma same_slice a b n m : n ≤ m → take n (slice a (a + m) w) = take n (slice b (b + m) w) → same a b n.
Proof.
  intros Hnm H k Hk. apply (f_equal (λ l, l !! k)) in H. rewrite !lookup_take_lt in H by lia.
  by rewrite !lookup_slice in H by lia.
Qed.
Lemma same_app a b n m : same a b n → same (a + n) (b + n) m → same a b (n + m).
Proof.
  intros H1 H2 k Hk. destruct (decide (k < n)); [by apply H1|]. specialize (H2 (k - n) ltac:(lia)).
  by replace (a + n + (k - n)) with (a + k) in H2 by lia; replace (b + n + (k - n)) with (b + k) in H2 by lia.
Qed.
Lemma same_sub a b n m : same a b n → m ≤ n → same a b m.
Proof. intros H Hm k Hk. apply H. lia. Qed.
Lemma same_0 a b : same a b 0.
Proof. intros k Hk. lia. Qed.

(** The longest run of the same bytes, up to a limit. *)
Definition longest (a b limit n : nat) : Prop :=
  same a b n ∧ a + n ≤ limit ∧ (a + n = limit ∨ w !! (a + n) ≠ w !! (b + n)).

Lemma longest_app a b limit n m : same a b n → longest (a + n) (b + n) limit m → longest a b limit (n + m).
Proof.
  intros H (Hs & Hl & Hd). split_and!; [by apply same_app|lia|].
  by rewrite !Nat.add_assoc.
Qed.
Lemma longest_max a b limit n m : longest a b limit n → same a b m → a + m ≤ limit → m ≤ n.
Proof.
  intros (_ & _ & [E|Hd]) Hs Hm; [lia|]. destruct (decide (m ≤ n)); [done|]. destruct Hd. apply Hs. lia.
Qed.

Lemma read64_ok p : p + 8 ≤ length w → read64 w p = Some (le_val (slice p (p + 8) w)).
Proof. intros. unfold read64. by rewrite (proj2 (Nat.leb_le _ _)). Qed.
Lemma read32_ok p : p + 4 ≤ length w → read32 w p = Some (le_val (slice p (p + 4) w)).
Proof. intros. unfold read32. by rewrite (proj2 (Nat.leb_le _ _)). Qed.

Lemma read32_same a b :
  a + 4 ≤ length w → b + 4 ≤ length w → le_val (slice a (a + 4) w) = le_val (slice b (b + 4) w) → same a b 4.
Proof using Hwf.
  intros Ha Hb E. apply (same_slice _ _ 4 4); [done|]. f_equal.
  rewrite <-(le_bytes_le_val (slice a (a + 4) w)), <-(le_bytes_le_val (slice b (b + 4) w)), E by by apply wf_slice.
  f_equal. rewrite !length_slice by lia. lia.
Qed.

Lemma count_bytes_spec fuel a b limit :
  b < a → a ≤ limit < fuel + a → limit ≤ length w →
  ∃ n, count_bytes fuel w a b limit = Some (a + n) ∧ longest a b limit n.
Proof using Type.
  revert a b. induction fuel as [|fuel IH]; intros a b Hab Hf Hl; simpl; [lia|].
  assert (∀ (P : Prop), P → a ≤ limit → (a = limit ∨ w !! a ≠ w !! b) →
    ∃ n, Some a = Some (a + n) ∧ longest a b limit n) as Hstop.
  { intros P _ Hle Hd. exists 0. rewrite Nat.add_0_r. split; [done|]. split; [apply same_0|].
    rewrite !Nat.add_0_r. split; done. }
  destruct (Nat.ltb_spec a limit); [|apply (Hstop True); [done|lia|left; lia]].
  destruct (lookup_lt_is_Some_2 w a) as [x Hx]; [lia|]. destruct (lookup_lt_is_Some_2 w b) as [y Hy]; [lia|].
  rewrite Hx, Hy. simpl. destruct (Z.eqb_spec x y) as [->|].
  - destruct (IH (S a) (S b)) as (n & -> & Hs); [lia|lia|done|]. exists (1 + n). split; [f_equal; lia|].
    apply longest_app; [|by rewrite !Nat.add_1_r]. intros k Hk. replace k with 0 by lia. by rewrite !Nat.add_0_r, Hx, Hy.
  - apply (Hstop True); [done|lia|right; congruence].
Qed.

(** The lowest bit that differs is in the first byte that differs. *)
Lemma first_difference xs ys p :
  wf_bytes xs → wf_bytes ys → length xs = 8 → length ys = 8 → Z.lxor (le_val xs) (le_val ys) = Zpos p →
  ctz p / 8 < 8 ∧ take (ctz p / 8) xs = take (ctz p / 8) ys ∧ xs !! (ctz p / 8) ≠ ys !! (ctz p / 8).
Proof using Type.
  intros Hxs Hys Hlx Hly E. pose proof (le_val_range _ Hxs). pose proof (le_val_range _ Hys). rewrite Hlx in *. rewrite Hly in *.
  assert (ctz p < 64) as Hlt.
  { apply Nat2Z.inj_lt. apply (Z.pow_lt_mono_r_iff 2); [lia|lia|].
    eapply Z.le_lt_trans; [apply ctz_bound|]. rewrite <-E.
    destruct (decide (le_val xs = 0 ∨ le_val ys = 0)%Z) as [[Ez|Ez]|].
    - rewrite Ez, Z.lxor_0_l. lia.
    - rewrite Ez, Z.lxor_0_r. lia.
    - apply Z.log2_lt_pow2; [lia|]. eapply Z.le_lt_trans; [apply Z.log2_lxor; lia|].
      apply Z.max_lub_lt; apply Z.log2_lt_pow2; lia. }
  pose proof (Nat.Div0.div_lt_upper_bound (ctz p) 8 8 ltac:(lia)). split_and!; [done| |].
  - apply low_bytes_equal; [done|done|congruence|]. intros n Hn. rewrite E. apply ctz_spec.
    pose proof (Nat.Div0.mul_div_le (ctz p) 8). lia.
  - intros Eb. pose proof (ctz_set p) as Hset. rewrite <-E in Hset.
    rewrite (low_bits_equal (S (ctz p / 8))) in Hset; [done|done|done| |lia|lia|].
    + destruct (lookup_lt_is_Some_2 xs (ctz p / 8)) as [x Hx]; [lia|].
      rewrite (take_S_r xs _ x), (take_S_r ys _ x) by congruence. f_equal.
      apply low_bytes_equal; [done|done|congruence|]. intros n Hn. rewrite E. apply ctz_spec.
      pose proof (Nat.Div0.mul_div_le (ctz p) 8). lia.
    + pose proof (Nat.mul_succ_div_gt (ctz p) 8 ltac:(lia)). lia.
Qed.

Lemma count_words_spec fuel a b limit :
  b < a → a ≤ limit < fuel + a → limit ≤ length w →
  ∃ n, count_words fuel w a b limit = Some (a + n) ∧ longest a b limit n.
Proof using Hwf.
  revert a b. induction fuel as [|fuel IH]; intros a b Hab Hf Hl; [lia|]. cbn [count_words].
  destruct (Nat.leb_spec (a + 8) limit); [|apply count_bytes_spec; lia].
  rewrite !read64_ok by lia. simpl.
  set (xs := slice a (a + 8) w). set (ys := slice b (b + 8) w).
  assert (wf_bytes xs ∧ wf_bytes ys ∧ length xs = 8 ∧ length ys = 8) as (Hxs & Hys & Hlx & Hly).
  { unfold xs, ys. rewrite !length_slice by lia. split_and!; [by apply wf_slice|by apply wf_slice|lia|lia]. }
  destruct (Z.eqb_spec (Z.lxor (le_val xs) (le_val ys)) 0) as [E|Hne]; simpl.
  - apply Z.lxor_eq in E.
    assert (same a b 8) as H8.
    { apply (same_slice _ _ 8 8); [done|]. fold xs ys.
      by rewrite <-(le_bytes_le_val xs), <-(le_bytes_le_val ys), E, Hlx, Hly. }
    destruct (IH (a + 8) (b + 8)) as (n & -> & Hs); [lia|lia|done|].
    exists (8 + n). split; [f_equal; lia|by apply longest_app].
  - assert (0 <= Z.lxor (le_val xs) (le_val ys))%Z.
    { pose proof (le_val_range _ Hxs). pose proof (le_val_range _ Hys). apply Z.lxor_nonneg. lia. }
    destruct (Z.lxor (le_val xs) (le_val ys)) as [|p|p] eqn:E; [done| |lia]. simpl trailing_zeros.
    destruct (first_difference xs ys p) as (Hk & Ht & Hd); [done..|]. exists (ctz p / 8). split; [done|].
    split_and!; [by apply (same_slice _ _ _ 8); [lia|]|lia|right].
    unfold xs, ys in Hd. by rewrite !lookup_slice in Hd by lia.
Qed.

(** [count] finds the longest match. *)
Lemma count_spec a b limit :
  b < a ≤ limit → limit ≤ length w → ∃ n, count w a b limit = Some n ∧ longest a b limit n.
Proof using Hwf.
  intros Hab Hl. destruct (count_words_spec (S limit) a b limit) as (n & E & Hs); [lia|lia|done|].
  exists n. unfold count. rewrite E. simpl. split; [f_equal; lia|done].
Qed.
End comparing.

(** ** The tables *)

(** Only the tables differ, and keep their sizes. *)
Definition tables_only (s s' : FastStream) : Prop :=
  ∃ a b, s' = mk_stream a b (current_offset s) (table_type s) (dict s) (dict_size s) (dict_ctx s) ∧
    length a = length (t32 s) ∧ length b = length (t16 s).

Lemma tables_only_refl s : tables_only s s.
Proof. destruct s. by eexists _, _. Qed.
Lemma tables_only_trans s1 s2 s3 : tables_only s1 s2 → tables_only s2 s3 → tables_only s1 s3.
Proof. intros (a & b & -> & ? & ?) (a' & b' & -> & ? & ?). exists a', b'. simpl in *. split_and!; congruence. Qed.
Lemma put_tables s h idx tt : tables_only s (put s h idx tt).
Proof.
  destruct s. unfold put. case_bool_decide; eexists _, _; split_and!; try done; by rewrite ?length_insert.
Qed.

(** Every entry of either table is below [n]. *)
Definition below (n : Z) (s : FastStream) : Prop := ∀ h tt, (0 <= get s h tt < n ∧ get s h U16 < 65536)%Z.

Lemma byte_at_insert l h h' x : byte_at (<[h := x]> l) h' = x ∨ byte_at (<[h := x]> l) h' = byte_at l h'.
Proof.
  unfold byte_at. destruct (decide (h = h' ∧ h < length l)) as [[-> Hl]|Hn].
  - rewrite list_lookup_insert_eq by done. by left.
  - right. f_equal. destruct (decide (h = h')) as [->|]; [|by apply list_lookup_insert_ne].
    rewrite !lookup_ge_None_2; [done|..]; rewrite ?length_insert; lia.
Qed.

Lemma put_below n s h idx tt : below n s → (0 <= idx < n)%Z → below n (put s h idx tt).
Proof.
  intros Hb Hi h' tt'. pose proof (Hb h' U16) as Hb16. specialize (Hb h' tt'). unfold get, put in *.
  destruct s as [a b o t d m c]; simpl in *.
  assert (0 <= u16 idx <= idx ∧ u16 idx < 65536)%Z by (unfold u16; Z.div_mod_to_equations; lia).
  pose proof (byte_at_insert b h h' (u16 idx)) as [E1|E1]; pose proof (byte_at_insert a h h' idx) as [E2|E2].
  all: repeat case_bool_decide; simpl; rewrite ?E1, ?E2; done || lia.
Qed.
Lemma below_mono n m s : below n s → (n <= m)%Z → below m s.
Proof. intros Hb Hm h tt. specialize (Hb h tt). lia. Qed.

(** Hashes are within the table. *)
Lemma hash_position_ok w p tt : p + 8 ≤ length w → ∃ h, hash_position w p tt = Some h.
Proof.
  intros Hp. unfold hash_position. case_bool_decide.
  - rewrite read64_ok by done. by eexists.
  - rewrite read32_ok by lia. by eexists.
Qed.

Lemma hash_position_lt w p tt h :
  hash_position w p tt = Some h → h < if bool_decide (tt = U16) then HASH_SIZE_U32 * 2 else HASH_SIZE_U32.
Proof.
  unfold hash_position. intros H.
  assert (∀ x k n, (0 <= k)%Z → (0 <= x < 2 ^ k * Z.of_nat n)%Z → Z.to_nat (Z.shiftr x k) < n) as Hs.
  { intros x k n Hk Hx. pose proof (Z.pow_pos_nonneg 2 k ltac:(lia) Hk). rewrite Z.shiftr_div_pow2 by done. apply Nat2Z.inj_lt. rewrite Z2Nat.id; [|apply Z.div_pos; lia].
    apply Z.div_lt_upper_bound; lia. }
  repeat case_bool_decide; try congruence.
  - destruct (read64 w p) as [x|]; [|done]. injection H as <-. apply Hs; [done|].
    match goal with |- (_ <= _ < ?y)%Z => replace y with 18446744073709551616%Z by done end.
    apply Z.mod_pos_bound. lia.
  - destruct (read32 w p) as [x|]; [|done]. injection H as <-. apply Hs; [done|].
    match goal with |- (_ <= _ < ?y)%Z => replace y with 4294967296%Z by done end.
    apply Z.mod_pos_bound. lia.
Qed.

(** ** The sequences written *)

Lemma length_foldl_play b b' seqs :
  length b = length b' → length (foldl play b seqs) = length (foldl play b' seqs).
Proof.
  revert b b'. induction seqs as [|s seqs IH]; intros b b' E; simpl; [done|]. apply IH. rewrite !length_play. lia.
Qed.

Section written.
Context (w : list Z) (src_pos : nat) (out0 : list Z).

(** What has been written after [out0]: sequences that make the window up to [anchor], within the
    format's rules if literals end the block. *)
Definition written (out : list Z) (anchor : nat) : Prop :=
  src_pos ≤ anchor ≤ length w ∧
  ∃ seqs, out = out0 ++ mjoin (encode_sequence <$> seqs) ∧
    foldl play (take src_pos w) seqs = take anchor w ∧ placed (length w) src_pos seqs (length w - anchor).

Lemma written_nothing : src_pos ≤ length w → written out0 src_pos.
Proof. intros Hs. split; [lia|]. exists []. simpl. rewrite app_nil_r. split_and!; [done|done|lia]. Qed.

Lemma placed_snoc bound n seqs last s last' :
  placed bound n seqs last → 5 ≤ last' →
  let m := length (foldl play (replicate n 0%Z) seqs) + length (sq_literals s) in
  sq_offset s ≤ m → (Z.of_nat (sq_offset s) < 65536)%Z → 4 ≤ sq_length s → m + 12 ≤ bound →
  m + sq_length s + last' ≤ bound → placed bound n (seqs ++ [s]) last'.
Proof.
  intros Hp Hlast. revert n Hp. induction seqs as [|s1 seqs IH]; intros n Hp; cbv zeta; simpl.
  - rewrite length_replicate. intros. split_and!; done || lia.
  - destruct Hp as (? & ? & ? & ? & ? & ? & Hp). intros. split_and!; try done. apply IH; [done|..].
    all: cbv zeta in *; try rewrite (length_foldl_play _ (play (replicate n 0%Z) s1)) by (rewrite length_replicate, length_play, length_replicate; lia); done.
Qed.

(** A match found, and the literals before it. *)
Lemma written_snoc out anchor ip m n :
  written out anchor → anchor ≤ ip → m < ip → ip - m < Z.to_nat 65536 → 4 ≤ n → ip + 12 ≤ length w → ip + n + 5 ≤ length w →
  same w ip m n → written (out ++ encode_sequence (mk_seq (slice anchor ip w) (ip - m) n)) (ip + n).
Proof.
  intros (Ha & seqs & -> & Hplay & Hp) Hip Hm Ho Hn H12 H5 Hs. split; [lia|].
  set (s := mk_seq (slice anchor ip w) (ip - m) n). exists (seqs ++ [s]). split_and!.
  - rewrite fmap_app, join_app, <-app_assoc. simpl. by rewrite app_nil_r.
  - rewrite foldl_app. simpl. rewrite Hplay. unfold play. simpl.
    assert (take anchor w ++ slice anchor ip w = take ip w) as ->.
    { unfold slice. rewrite <-(take_drop anchor (take ip w)). rewrite take_take, Nat.min_l by lia. f_equal.
      by rewrite skipn_firstn_comm. }
    apply expand_take; [done|lia|]. intros k Hk. symmetry. by apply Hs.
  - assert (length (foldl play (replicate src_pos 0%Z) seqs) = anchor) as El.
    { rewrite (length_foldl_play _ (take src_pos w)) by (rewrite length_replicate, length_take; lia).
      rewrite Hplay, length_take. lia. }
    eapply placed_snoc; [exact Hp|lia|..]; cbv zeta; rewrite ?El; simpl; rewrite ?length_slice by lia; lia.
Qed.
End written.

(** ** A block *)

(** Past what has returned. *)
Local Ltac past := cbv beta iota delta [mbind option_bind result_bind ok_or].

(** The byte after a list replaced. *)
Lemma insert_middle {A} (l : list A) x y k : <[length l := x]> (l ++ y :: k) = l ++ x :: k.
Proof. rewrite insert_app_r_alt by done. by rewrite Nat.sub_diag. Qed.

(** A token and its literals. *)
Definition head (lits : list Z) : list Z := token_of (length lits) 0 :: extra_bytes (length lits) ++ lits.

Lemma token_byte n m : (0 <= token_of n m < 256)%Z.
Proof. unfold token_of. lia. Qed.
Lemma token_literals n : n < 15 → u8 (Z.shiftl (Z.of_nat n) 4) = token_of n 0.
Proof. intros Hn. unfold token_of, u8. rewrite Z.shiftl_mul_pow2 by lia. change (2 ^ 4)%Z with 16%Z. rewrite Z.mod_small; lia. Qed.
Lemma token_full n : 15 ≤ n → u8 (Z.shiftl (Z.of_nat 15) 4) = token_of n 0.
Proof. intros Hn. unfold token_of. rewrite Nat.min_r by lia. done. Qed.

(** The literals that end a block. *)
Lemma last_literals_spec w olimit out anchor :
  anchor ≤ length w →
  last_literals w olimit out anchor = Err Full ∨
  (last_literals w olimit out anchor = Ok (out ++ encode [] 0 (drop anchor w)) ∧
   ∀ ol, olimit = Some ol → (Z.of_nat (length (out ++ encode [] 0 (drop anchor w))) <= ol)%Z).
Proof.
  intros Ha. unfold last_literals. destruct (over _ _ _) eqn:Ho; [by left|right].
  assert (length (drop anchor w) = length w - anchor) as Hl by by rewrite length_drop.
  unfold get_slice. rewrite bool_decide_eq_true_2 by lia. unfold slice. rewrite firstn_all2 by lia.
  unfold encode. simpl mjoin. rewrite Hl, Z.add_0_r. simpl app. unfold RUN_MASK in *. split.
  - past. f_equal. destruct (Nat.leb_spec 15 (length w - anchor)).
    + rewrite push_length_spec, (token_full (length w - anchor)) by lia.
      unfold extra_bytes. rewrite (proj2 (Nat.leb_le _ _)) by lia. by rewrite <-!app_assoc.
    + rewrite (token_literals (length w - anchor)), extra_bytes_small by lia. by rewrite <-!app_assoc.
  - intros ol ->. unfold over in Ho. apply Z.ltb_ge in Ho. rewrite length_app. simpl. rewrite length_app, Hl.
    assert (length (extra_bytes (length w - anchor)) ≤ (length w - anchor + 255 - 15) / 255); [|lia].
    destruct (Nat.le_gt_cases 15 (length w - anchor)).
    + rewrite length_extra_bytes by done.
      replace (length w - anchor + 255 - 15) with ((length w - anchor - 15) + 1 * 255) by lia. rewrite Nat.div_add by lia. lia.
    + rewrite extra_bytes_small by done. simpl. lia.
Qed.

Section window.
#[local] Set Default Proof Using "All".
Context (w : list Z) (src_pos : nat) (start_index : Z) (tt : TableType) (mode : DictMode) (dict_small : bool).
Context (prefix_idx_limit dict_delta : Z) (dctx : option FastStream) (olimit : option Z) (accel : Z).
Context (Hwf : wf_bytes w) (Hsrc : src_pos + MIN_LENGTH ≤ length w) (Hw : (Z.of_nat (length w) <= MAX_INPUT_SIZE + KB64)%Z).
Context (Hstart : (0 <= start_index)%Z) (Haccel : (1 <= accel <= ACCELERATION_MAX)%Z).
(* Indexes of 32 bits do not wrap; 16 bits index a block of their own. *)
Context (Hwide : tt ≠ U16 → (start_index + Z.of_nat (length w - src_pos) < 4294967296 - 65536)%Z).
Context (Hnarrow : tt = U16 → mode = NoDict ∧ (Z.of_nat (length w) < LIMIT_64K)%Z).
Context (Hctx : mode = DictCtx → ∃ c, dctx = Some c ∧ dict_delta = (start_index - current_offset c)%Z ∧
           (0 <= dict_delta)%Z ∧ below (current_offset c + 1) c).

Notation search := (search w src_pos start_index tt mode dict_small prefix_idx_limit dict_delta dctx).
Notation matches := (matches w src_pos start_index tt mode dict_small prefix_idx_limit dict_delta dctx olimit).
Notation sequences := (sequences w src_pos start_index tt mode dict_small prefix_idx_limit dict_delta dctx olimit accel).
Notation candidate := (candidate src_pos start_index tt mode dict_delta dctx).
Notation idx_of := (idx_of src_pos start_index).

(** The index of a position, before it is cut to 32 bits. *)
Definition index (p : nat) : Z := start_index + Z.of_nat p - Z.of_nat src_pos.

Lemma idx_of_le p : src_pos ≤ p → (0 <= idx_of p <= index p)%Z.
Proof.
  intros Hp. unfold idx_of, index, u32. replace (Z.of_nat p - (Z.of_nat src_pos - start_index))%Z
    with (start_index + Z.of_nat p - Z.of_nat src_pos)%Z by lia. Z.div_mod_to_equations. lia.
Qed.
Lemma idx_of_wide p : tt ≠ U16 → src_pos ≤ p ≤ length w → idx_of p = index p.
Proof.
  intros Ht Hp. specialize (Hwide Ht). unfold idx_of, index. rewrite u32_small; lia.
Qed.

Lemma candidate_spec s h low p :
  below (index p) s → src_pos < p → ∃ mi low', candidate s h low = Some (mi, low') ∧ (0 <= mi < index p)%Z.
Proof.
  intros Hb Hp. unfold candidate. pose proof (Hb h tt) as [? ?].
  destruct mode eqn:Hmode; [by eexists _, _..|by eexists _, _|].
  destruct (Z.ltb_spec (get s h tt) start_index); [|by eexists _, _].
  destruct (Hctx eq_refl) as (c & -> & -> & Hd & Hc). simpl. eexists _, _. split; [done|].
  specialize (Hc h U32). unfold get in Hc. rewrite bool_decide_eq_false_2 in Hc by done.
  assert (tt ≠ U16) as Ht by (intros Ht; by destruct (Hnarrow Ht)).
  specialize (Hwide Ht). unfold index in *. rewrite u32_small; lia.
Qed.

(** A candidate that passes the tests of distance is a match in the window. *)
Lemma near mi p :
  (0 <= mi < index p)%Z → src_pos < p → p + 12 ≤ length w →
  (bool_decide (tt ≠ U16) && (u32 (mi + DISTANCE_MAX) <? idx_of p)%Z = false) →
  (0 <= mi + (Z.of_nat src_pos - start_index))%Z →
  let m := Z.to_nat (mi + (Z.of_nat src_pos - start_index)) in m < p ∧ p - m < Z.to_nat 65536.
Proof.
  intros Hmi Hp H12 Hd Hm. cbv zeta. unfold index in Hmi. split; [lia|].
  destruct (decide (tt = U16)) as [Ht|Ht].
  - destruct (Hnarrow Ht) as [_ Hl]. unfold LIMIT_64K in Hl. lia.
  - rewrite bool_decide_eq_true_2, andb_true_l in Hd by done. apply Z.ltb_ge in Hd.
    rewrite idx_of_wide in Hd by (done || lia). specialize (Hwide Ht). unfold index, DISTANCE_MAX in *.
    rewrite u32_small in Hd by lia. lia.
Qed.

Lemma put_index s h p q : below (index q) s → src_pos ≤ p < q → below (index q) (put s h (idx_of p) tt).
Proof. intros Hb Hp. apply put_below; [done|]. pose proof (idx_of_le p). unfold index in *. lia. Qed.

Definition Found_at (s : FastStream) (p : nat) (r : Searched) : Prop :=
  match r with
  | NoMatch s' => tables_only s s' ∧ below (index (length w)) s'
  | Found s' _ ip m =>
      tables_only s s' ∧ below (index (S ip)) s' ∧ p ≤ ip ∧ ip + 12 ≤ length w ∧ m < ip ∧ ip - m < Z.to_nat 65536 ∧ same w ip m 4
  end.

Lemma search_spec fuel s low p step nb fh :
  below (index p) s → src_pos < p → length w < fuel + p → 0 < step → p + 11 ≤ length w →
  (64 <= nb)%Z → (nb + Z.of_nat (length w - p) < 4294967296)%Z →
  ∃ r, search fuel s low p step nb fh = Some r ∧ Found_at s p r.
Proof.
  revert s low p step nb fh. induction fuel as [|fuel IH]; intros s low p step nb fh Hb Hp Hf Hstep Hlen Hnb Hnb'; [lia|].
  cbn [Lz4Fast.search]. unfold MIN_LENGTH, MFLIMIT in *.
  destruct (Nat.ltb_spec (length w - 12 + 1) (p + step)).
  { eexists. split; [done|]. split; [apply tables_only_refl|]. eapply below_mono; [done|]. unfold index. lia. }
  destruct (candidate_spec s fh low p) as (mi & low' & -> & Hmi); [done|done|]. simpl.
  destruct (hash_position_ok w (p + step) tt) as [fh' ->]; [lia|]. simpl.
  set (s' := put s fh (idx_of p) tt).
  assert (below (index (S p)) s') as Hb'.
  { apply put_index; [|lia]. eapply below_mono; [done|]. unfold index. lia. }
  assert (∃ r, search fuel s' low' (p + step) (Z.to_nat (Z.shiftr nb SKIP_TRIGGER)) (u32 (nb + 1)) fh' = Some r ∧ Found_at s p r)
    as (r & Hr & Hfound).
  { assert (1 <= Z.shiftr nb SKIP_TRIGGER)%Z.
    { unfold SKIP_TRIGGER. rewrite Z.shiftr_div_pow2 by lia. apply Z.div_le_lower_bound; lia. }
    rewrite u32_small by lia.
    destruct (IH s' low' (p + step) (Z.to_nat (Z.shiftr nb SKIP_TRIGGER)) (nb + 1)%Z fh') as (r & -> & Hr); [|lia..|].
    { eapply below_mono; [done|]. unfold index. lia. }
    exists r. split; [done|]. pose proof (put_tables s fh (idx_of p) tt) as Ht. fold s' in Ht.
    destruct r; simpl in *.
    - destruct Hr as (? & ?). split; [by eapply tables_only_trans|done].
    - destruct Hr as (? & ? & ? & ? & ? & ? & ?). split_and!; try done; try lia. by eapply tables_only_trans. }
  destruct (dict_small && _); [by exists r|].
  destruct (bool_decide _ && _) eqn:Hd; [by exists r|].
  destruct (Z.ltb_spec (mi + (Z.of_nat src_pos - start_index)) 0); [by exists r|].
  destruct (near mi p) as [Hm Ho]; [done|done|lia|done|lia|].
  rewrite !read32_ok by lia. simpl. destruct (Z.eqb_spec (le_val (slice (Z.to_nat (mi + (Z.of_nat src_pos - start_index))) (Z.to_nat (mi + (Z.of_nat src_pos - start_index)) + 4) w)) (le_val (slice p (p + 4) w))) as [E|]; [|by exists r].
  eexists. split; [done|]. split_and!; [apply put_tables|done|lia|lia|done|done|].
  apply read32_same; [done|lia|lia|done].
Qed.

(** One byte further back. *)
Lemma same_back ip m n : w !! (ip - 1) = w !! (m - 1) → 0 < m < ip → same w ip m n → same w (ip - 1) (m - 1) (S n).
Proof.
  intros E Hm Hs k Hk. destruct k as [|k]; [by rewrite !Nat.add_0_r|]. specialize (Hs k ltac:(lia)).
  replace (ip - 1 + S k) with (ip + k) by lia. by replace (m - 1 + S k) with (m + k) by lia.
Qed.

Lemma back_spec fuel ip m anchor low n :
  ip < fuel + anchor → anchor ≤ ip < length w → m < ip → same w ip m n →
  ∃ ip' m', back w fuel ip m anchor low = Some (ip', m') ∧ anchor ≤ ip' ≤ ip ∧ m' < ip' ∧ ip' - m' = ip - m ∧
    same w ip' m' (ip - ip' + n).
Proof.
  revert ip m n. induction fuel as [|fuel IH]; intros ip m n Hf Hip Hm Hs; [lia|]. cbn [back].
  assert (same w ip m (ip - ip + n)) as Hs0 by by rewrite Nat.sub_diag.
  destruct (Nat.ltb_spec anchor ip); simpl; [|exists ip, m; split_and!; done || lia].
  destruct (Nat.ltb_spec low m); simpl; [|exists ip, m; split_and!; done || lia].
  destruct (lookup_lt_is_Some_2 w (ip - 1)) as [x Hx]; [lia|]. destruct (lookup_lt_is_Some_2 w (m - 1)) as [y Hy]; [lia|].
  rewrite Hx, Hy. simpl. destruct (Z.eqb_spec x y) as [->|]; [|exists ip, m; split_and!; done || lia].
  destruct (IH (ip - 1) (m - 1) (S n)) as (ip' & m' & -> & ? & ? & ? & ?); [lia|lia|lia| |].
  { apply same_back; [by rewrite Hx, Hy|lia|done]. }
  exists ip', m'. replace (ip - ip' + n) with (ip - 1 - ip' + S n) by lia. split_and!; done || lia.
Qed.

Lemma catch_up_spec ip m anchor low n :
  anchor < ip → ip < length w → m < ip → same w ip m n →
  ∃ ip' m', catch_up w ip m anchor low = Some (ip', m') ∧ anchor ≤ ip' ≤ ip ∧ m' < ip' ∧ ip' - m' = ip - m ∧
    same w ip' m' (ip - ip' + n).
Proof.
  intros Ha Hip Hm Hs. unfold catch_up.
  assert (same w ip m (ip - ip + n)) as Hs0 by by rewrite Nat.sub_diag.
  destruct (Nat.ltb_spec low m); past; [|exists ip, m; split_and!; done || lia].
  destruct (lookup_lt_is_Some_2 w (ip - 1)) as [x Hx]; [lia|]. destruct (lookup_lt_is_Some_2 w (m - 1)) as [y Hy]; [lia|].
  rewrite Hx, Hy. past. destruct (Z.eqb_spec x y) as [->|]; [|exists ip, m; split_and!; done || lia].
  destruct (back_spec (S (length w)) (ip - 1) (m - 1) anchor low (S n)) as (ip' & m' & -> & ? & ? & ? & ?); [lia|lia|lia| |].
  { apply same_back; [by rewrite Hx, Hy|lia|done]. }
  exists ip', m'. replace (ip - ip' + n) with (ip - 1 - ip' + S n) by lia. split_and!; done || lia.
Qed.

Lemma put_literals_spec out anchor ip :
  anchor ≤ ip ≤ length w →
  put_literals w olimit out anchor ip = Err Full ∨ put_literals w olimit out anchor ip = Ok (out ++ head (slice anchor ip w)).
Proof.
  intros Ha. unfold put_literals. destruct (over _ _ _); [by left|right].
  unfold get_slice. rewrite bool_decide_eq_true_2 by lia. past. f_equal. unfold head. rewrite length_slice by lia.
  unfold RUN_MASK. destruct (Nat.leb_spec 15 (ip - anchor)).
  - rewrite push_length_spec, insert_middle. rewrite (token_full (ip - anchor)) by lia.
    unfold extra_bytes. rewrite (proj2 (Nat.leb_le _ _)) by lia. by rewrite <-!app_assoc.
  - rewrite insert_middle, (token_literals (ip - anchor)) by lia.
    rewrite extra_bytes_small by lia. by rewrite <-!app_assoc.
Qed.

Lemma add_token_spec out n k rest :
  add_token (length out) k (out ++ token_of n 0 :: rest) = out ++ u8 (token_of n 0 + Z.of_nat k) :: rest.
Proof.
  unfold add_token. rewrite insert_middle. do 2 f_equal. rewrite byte_at_app_r by lia. by rewrite Nat.sub_diag.
Qed.

(** The match's length, in the token and after the offset. *)
Lemma put_length_spec out lits offset k :
  let o := out ++ head lits ++ le_bytes 2 (Z.of_nat offset) in
  (if ML_MASK <=? k then push_length (add_token (length out) ML_MASK o) (k - ML_MASK) else add_token (length out) k o) =
    out ++ encode_sequence (mk_seq lits offset (k + 4)).
Proof.
  cbv zeta. unfold encode_sequence, head, ML_MASK. simpl sq_literals. simpl sq_offset. simpl sq_length.
  replace (k + 4 - 4) with k by lia. cbn [app]. rewrite !add_token_spec.
  assert (∀ m, m ≤ 15 → m = k `min` 15 → u8 (token_of (length lits) 0 + Z.of_nat m) = token_of (length lits) k) as Ht.
  { intros m Hm ->. unfold u8, token_of. rewrite Z.mod_small; lia. }
  destruct (Nat.leb_spec 15 k).
  - rewrite push_length_spec, Ht by lia. unfold extra_bytes at 3. rewrite (proj2 (Nat.leb_le 15 k)) by lia.
    rewrite <-!app_assoc. cbn [app]. by rewrite <-!app_assoc.
  - rewrite Ht, (extra_bytes_small k) by lia. by rewrite app_nil_r, <-!app_assoc.
Qed.

(** Where the matches and the sequences leave off. *)
Definition left_off (s : FastStream) (out0 : list Z) (from : nat) (r : Matched) : Prop :=
  match r with
  | Overflow s' => tables_only s s' ∧ below (index (length w)) s'
  | Last s' out anchor => tables_only s s' ∧ below (index (length w)) s' ∧ written w src_pos out0 out anchor
  | Next s' out ip _ =>
      tables_only s s' ∧ below (index (S ip)) s' ∧ written w src_pos out0 out ip ∧ from + 4 ≤ ip ∧ ip + 12 ≤ length w
  end.

Lemma left_off_trans s s' out0 from from' r :
  tables_only s s' → from ≤ from' → left_off s' out0 from' r → left_off s out0 from r.
Proof.
  intros Ht Hf. destruct r; simpl.
  - intros (? & ? & ?). split_and!; try done. by eapply tables_only_trans.
  - intros (? & ? & ? & ? & ?). split_and!; try done; try lia. by eapply tables_only_trans.
  - intros (? & ?). split; [by eapply tables_only_trans|done].
Qed.

(** A match that was found at [q] and taken back to [ip]. *)
Lemma matches_written fuel out0 s out anchor ip q m low :
  length w < fuel + ip → below (index (S q)) s → written w src_pos out0 out anchor → anchor ≤ ip ≤ q → src_pos ≤ ip →
  q + 12 ≤ length w → m < ip → ip - m < Z.to_nat 65536 → same w ip m (q - ip + 4) →
  ∃ r, matches fuel s (out ++ head (slice anchor ip w)) (length out) ip m low = Some r ∧ left_off s out0 q r.
Proof.
  revert s out anchor ip q m low.
  induction fuel as [|fuel IH]; intros s out anchor ip q m low Hf Hb Hout Ha Hp H12 Hm Ho Hs; [lia|].
  cbn [Lz4Fast.matches]. unfold MINMATCH.
  destruct (count_spec w Hwf (ip + 4) (m + 4) (length w - LASTLITERALS)) as (k & -> & Hlong); [unfold LASTLITERALS; lia|lia|].
  pose proof Hlong as (Hk & Hlim & _).
  past. unfold LASTLITERALS in *.
  assert (same w ip m (k + 4)) as Hsame. { rewrite Nat.add_comm. apply same_app; [eapply same_sub; [done|lia]|done]. }
  assert (q - ip ≤ k) as Hq.
  { eapply longest_max; [exact Hlong| |lia]. intros j Hj. rewrite <-!(Nat.add_assoc _ 4 j). apply Hs. lia. }
  destruct (over _ _ _).
  { eexists. split; [done|]. split; [apply tables_only_refl|]. eapply below_mono; [done|]. unfold index. lia. }
  replace (u16 (Z.of_nat ip - Z.of_nat m)) with (Z.of_nat (ip - m)) by (rewrite u16_small; lia).
  rewrite <-app_assoc, put_length_spec.
  pose proof (written_snoc _ _ _ _ _ ip m (k + 4) Hout ltac:(lia) Hm Ho ltac:(lia) ltac:(lia) ltac:(lia) Hsame) as Hnext.
  set (out' := out ++ encode_sequence (mk_seq (slice anchor ip w) (ip - m) (k + 4))) in *.
  set (ip' := ip + (k + 4)) in *. unfold MFLIMIT.
  destruct (Nat.leb_spec (length w - 12 + 1) ip').
  { eexists. split; [done|]. split; [apply tables_only_refl|]. split; [|done]. eapply below_mono; [done|]. unfold index. lia. }
  destruct (hash_position_ok w (ip' - 2) tt) as [h1 ->]; [lia|]. past.
  destruct (hash_position_ok w ip' tt) as [h2 ->]; [lia|]. past.
  set (s1 := put s h1 (idx_of (ip' - 2)) tt).
  assert (below (index ip') s1) as Hb1.
  { apply put_index; [|lia]. eapply below_mono; [done|]. unfold index. lia. }
  destruct (candidate_spec s1 h2 low ip') as (mi & low' & -> & Hmi); [done|lia|]. past.
  set (s2 := put s1 h2 (idx_of ip') tt).
  assert (below (index (S ip')) s2) as Hb2.
  { apply put_index; [|lia]. eapply below_mono; [done|]. unfold index. lia. }
  assert (tables_only s s2) as Ht by (eapply tables_only_trans; apply put_tables).
  set (mp := (mi + (Z.of_nat src_pos - start_index))%Z).
  assert (∃ r, Some (Next s2 out' ip' low') = Some r ∧ left_off s out0 q r) as Hstop.
  { eexists. split; [done|]. split_and!; done || lia. }
  destruct (_ && _ && _) eqn:Hd; past; [|done].
  apply andb_prop in Hd as [[_ Hd]%andb_prop Hmp%Z.leb_le].
  destruct (near mi ip') as [Hm' Ho']; [done|lia|lia| |done|].
  { destruct (decide (tt = U16)); [by rewrite bool_decide_eq_false_2 by auto|].
    rewrite bool_decide_eq_false_2 in Hd by done. simpl in Hd. apply Z.leb_le in Hd.
    apply andb_false_intro2, Z.ltb_ge. done. }
  fold mp in Hm', Ho'. rewrite !read32_ok by lia. past.
  destruct (Z.eqb_spec (le_val (slice (Z.to_nat mp) (Z.to_nat mp + 4) w)) (le_val (slice ip' (ip' + 4) w))) as [E|]; [|done].
  destruct (IH s2 out' ip' ip' ip' (Z.to_nat mp) low') as (r & Hr & Hl); try done; try lia.
  { rewrite Nat.sub_diag. apply read32_same; [done|lia|lia|done]. }
  unfold slice in Hr. rewrite Nat.sub_diag, take_0 in Hr. exists r. split; [exact Hr|].
  eapply left_off_trans; [exact Ht| |exact Hl]. lia.
Qed.

Lemma sequences_spec fuel out0 s out ip anchor low fh :
  length w < fuel + ip → below (index ip) s → written w src_pos out0 out anchor → anchor < ip → src_pos < ip → ip + 11 ≤ length w →
  ∃ r, sequences fuel s out ip anchor low fh = Some r ∧
    match r with Next _ _ _ _ => False | _ => left_off s out0 ip r end.
Proof.
  revert s out ip anchor low fh. induction fuel as [|fuel IH]; intros s out ip anchor low fh Hf Hb Hout Ha Hp H11; [lia|].
  cbn [Lz4Fast.sequences].
  destruct (search_spec (S (length w)) s low ip 1 (Z.shiftl accel SKIP_TRIGGER) fh) as (r & -> & Hr); [done|done|lia|lia|lia| | |].
  { unfold SKIP_TRIGGER. rewrite Z.shiftl_mul_pow2 by lia. change (2 ^ 6)%Z with 64%Z. lia. }
  { unfold SKIP_TRIGGER, ACCELERATION_MAX, MAX_INPUT_SIZE, KB64 in *. rewrite Z.shiftl_mul_pow2 by lia. change (2 ^ 6)%Z with 64%Z. lia. }
  past. destruct r as [s1|s1 low1 ip1 m1]; simpl in Hr.
  { destruct Hr as [Ht Hb1]. eexists. split; [done|]. by split_and!. }
  destruct Hr as (Ht & Hb1 & Hip & H12 & Hm & Ho & Hs).
  destruct (catch_up_spec ip1 m1 anchor low1 4) as (ip2 & m2 & -> & Hip2 & Hm2 & Ho2 & Hs2); [lia|lia|done|done|]. past.
  destruct (put_literals_spec out anchor ip2) as [-> | ->]; [lia| |].
  { eexists. split; [done|]. split; [done|]. eapply below_mono; [done|]. unfold index. lia. }
  pose proof Hout as [Hanchor _].
  destruct (matches_written (S (length w)) out0 s1 out anchor ip2 ip1 m2 low1) as (r & -> & Hr); try done; try lia. past.
  destruct r as [s2 out2 anchor2|s2 out2 ip3 low2|s2].
  - eexists. split; [done|]. eapply left_off_trans; [exact Ht| |exact Hr]. lia.
  - destruct Hr as (Ht2 & Hb2 & Hout2 & Hip3 & H123).
    destruct (hash_position_ok w (ip3 + 1) tt) as [fh' ->]; [lia|]. past.
    destruct (IH s2 out2 (ip3 + 1) ip3 low2 fh') as (r & -> & Hr); try done; try lia.
    { by rewrite Nat.add_1_r. }
    exists r. split; [done|]. destruct r; [|done|].
    + eapply left_off_trans; [by eapply tables_only_trans| |exact Hr]. lia.
    + eapply left_off_trans; [by eapply tables_only_trans| |exact Hr]. lia.
  - eexists. split; [done|]. eapply left_off_trans; [exact Ht| |exact Hr]. lia.
Qed.

(** Sequences and literals that make the block out of the window before it. *)
Definition encodes (block : list Z) : Prop :=
  ∃ seqs last, block = encode seqs 0 last ∧ meaning (take src_pos w) seqs last = w ∧
    placed (length w) src_pos seqs (length last).

Definition fits (out : list Z) : Prop := ∀ ol, olimit = Some ol → (Z.of_nat (length out) <= ol)%Z.

Lemma written_last out0 out anchor :
  written w src_pos out0 out anchor →
  ∃ block, out ++ encode [] 0 (drop anchor w) = out0 ++ block ∧ encodes block.
Proof.
  intros (Ha & seqs & -> & Hplay & Hp). exists (encode seqs 0 (drop anchor w)). split; [by rewrite <-app_assoc|].
  exists seqs, (drop anchor w). split_and!; [done| |by rewrite length_drop].
  unfold meaning. by rewrite Hplay, take_drop.
Qed.

(** A block in its window: written within the limit or not at all, without a panic. *)
Lemma sequences_window s out0 ip :
  below (start_index + 1) s → ip = src_pos →
  ∃ r s', compress_window w src_pos start_index tt mode dict_small prefix_idx_limit dict_delta dctx olimit accel s out0 = Some (r, s') ∧
    tables_only s s' ∧ below (index (length w)) s' ∧
    match r with Some out => ∃ block, out = out0 ++ block ∧ encodes block ∧ fits out | None => True end.
Proof.
  intros Hb ->. unfold compress_window, MIN_LENGTH, MFLIMIT in *.
  rewrite (proj2 (Nat.ltb_ge _ _)) by lia.
  destruct (hash_position_ok w src_pos tt) as [h ->]; [lia|]. past.
  destruct (hash_position_ok w (src_pos + 1) tt) as [fh ->]; [lia|]. past.
  set (s1 := put s h start_index tt).
  assert (below (index (src_pos + 1)) s1) as Hb1.
  { apply put_below; [eapply below_mono; [done|]|]; unfold index; lia. }
  destruct (sequences_spec (S (length w)) out0 s1 out0 (src_pos + 1) src_pos
    (if bool_decide (mode = Prefix_) then 0 else src_pos) fh) as (r & -> & Hr); try done; try lia.
  { apply written_nothing. lia. }
  past. assert (tables_only s s1) as Ht1 by apply put_tables.
  destruct r as [s2 out anchor|s2 out ip low|s2]; [|done|].
  - destruct Hr as (Ht & Hb2 & Hw2). pose proof Hw2 as [Ha _].
    destruct (last_literals_spec w olimit out anchor) as [-> | [-> Hfit]]; [lia| |].
    + eexists _, _. split; [done|]. split_and!; try done. by eapply tables_only_trans.
    + eexists _, _. split; [done|]. split_and!; try done; [by eapply tables_only_trans|].
      destruct (written_last out0 out anchor Hw2) as (block & E & Henc). exists block. rewrite <-E. done.
  - destruct Hr as (Ht & Hb2). eexists _, _. split; [done|]. split_and!; try done. by eapply tables_only_trans.
Qed.
End window.

(** A block too small to search. *)
Lemma small_window w src_pos start_index tt mode small limit delta dctx olimit accel s out0 :
  src_pos ≤ length w → length w < src_pos + MIN_LENGTH →
  ∃ r, compress_window w src_pos start_index tt mode small limit delta dctx olimit accel s out0 = Some (r, s) ∧
    match r with Some out => ∃ block, out = out0 ++ block ∧ encodes w src_pos block ∧ fits olimit out | None => True end.
Proof.
  intros Hs Hl. unfold compress_window, MIN_LENGTH in *. rewrite (proj2 (Nat.ltb_lt _ _)) by lia. past.
  destruct (last_literals_spec w olimit out0 src_pos) as [-> | [-> Hfit]]; [done|by eexists|].
  eexists. split; [done|]. eexists. split; [done|]. split; [|done].
  exists [], (drop src_pos w). split_and!; [done|unfold meaning; simpl; by rewrite take_drop|simpl; rewrite length_drop; lia].
Qed.

(** ** What is written is read back *)

Lemma play_app p buf s : sq_offset s ≤ length buf + length (sq_literals s) → play (p ++ buf) s = p ++ play buf s.
Proof. intros Ho. unfold play. rewrite <-app_assoc, expand_app; [done|]. rewrite length_app. lia. Qed.

Lemma meaning_app bound p buf seqs last n :
  placed bound (length buf) seqs n → meaning (p ++ buf) seqs last = p ++ meaning buf seqs last.
Proof.
  unfold meaning. revert buf. induction seqs as [|s seqs IH]; intros buf Hp; simpl; [by rewrite <-app_assoc|].
  destruct Hp as (Ho & _ & _ & _ & _ & _ & Hp). rewrite play_app by done. apply IH. by rewrite length_play.
Qed.

(** More history before, and more room after. *)
Lemma placed_shift k bound bound' n seqs last :
  k + bound ≤ bound' → placed bound n seqs last → placed bound' (k + n) seqs last.
Proof.
  intros Hb. revert n. induction seqs as [|s seqs IH]; intros n; simpl; [lia|].
  intros (? & ? & ? & ? & ? & ? & Hp). split_and!; try done; try lia.
  replace (k + n + length (sq_literals s) + sq_length s) with (k + (n + length (sq_literals s) + sq_length s)) by lia. by apply IH.
Qed.

Lemma last_64k_suffix p d : length d ≤ Z.to_nat 65536 → ∃ p', last_64k (p ++ d) = p' ++ d.
Proof.
  intros Hd. unfold last_64k. exists (drop (length (p ++ d) - Z.to_nat 65536) p).
  rewrite drop_app_le; [done|]. rewrite length_app. lia.
Qed.

(** What the compressor made of a block after a dictionary is decoded to the block after any history that
    ends with the dictionary, whatever the room. *)
Lemma encodes_decodes d src block hist cap out :
  encodes (d ++ src) (length d) block → src ≠ [] → length d ≤ Z.to_nat 65536 → d `suffix_of` hist → length src ≤ cap →
  decompress block hist cap out = Ok (out ++ src).
Proof.
  intros (seqs & last & -> & Hm & Hp) Hne Hd [p ->] Hcap. rewrite take_app_length in Hm.
  destruct (last_64k_suffix p d Hd) as [p' E].
  assert (0 < length src) by (destruct src; [done|simpl; lia]).
  rewrite decompress_encode; [|lia|lia|].
  - rewrite E, (meaning_app (length (d ++ src)) p' d seqs last (length last)) by done. rewrite Hm.
    by rewrite length_app, <-drop_drop, drop_app_length, drop_app_length.
  - rewrite E, length_app. replace (length p' + length d + cap) with (length p' + (length d + cap)) by lia.
    eapply placed_shift; [|exact Hp]. rewrite length_app. lia.
Qed.

(** ** The state between blocks *)

(** A dictionary as [load_dict_slow] leaves it. *)
Record loaded (c : FastStream) : Prop := {
  ld_offset : current_offset c = KB64;
  ld_below : below (KB64 + 1) c;
  ld_type : table_type c = U32;
  ld_ctx : dict_ctx c = None;
  ld_dict : wf_bytes (dict c) ∧ length (dict c) ≤ Z.to_nat 65536;
}.

Record good (s : FastStream) : Prop := {
  gd_offset : (0 <= current_offset s < 4294967296)%Z;
  gd_below : below (current_offset s + 1) s;
  gd_cleared : table_type s = Cleared → below 1 s ∧ (current_offset s mod 65536 = 0)%Z;
  gd_dict : wf_bytes (dict s) ∧ length (dict s) ≤ Z.to_nat 65536;
  gd_ctx : ∀ c, dict_ctx s = Some c → loaded c ∧ (KB64 <= current_offset s)%Z;
}.

Lemma loaded_good c : loaded c → good c.
Proof.
  intros [Ho Hb Ht Hc Hd]. constructor; rewrite ?Ho, ?Ht, ?Hc; try done.
Qed.

(** There is room for the indexes of a block. *)
Definition roomy (s : FastStream) (src : list Z) : Prop := (current_offset s + Z.of_nat (length src) < 4294967296 - 65536)%Z.

(** A block appended to [out], within [cap] where it is limited, and read back after any history that ends
    with [d]; or nothing. *)
Definition block_written (d src out : list Z) (limit : option Z) (r : nat) (out' : list Z) : Prop :=
  (r = 0 ∧ out' = out) ∨
  ∃ block, out' = out ++ block ∧ r = length block ∧ 0 < r ∧ (∀ l, limit = Some l → (Z.of_nat r <= l)%Z) ∧
    ∀ hist cap o, d `suffix_of` hist → length src ≤ cap → decompress block hist cap o = Ok (o ++ src).

Lemma decompress_empty hist cap o : decompress [0%Z] hist cap o = Ok (o ++ []).
Proof.
  rewrite app_nil_r. destruct cap as [|cap]; [done|]. change [0%Z] with (encode [] 0 []).
  rewrite decompress_encode; [|lia|lia|simpl; lia]. unfold meaning. simpl. by rewrite app_nil_r, drop_all, app_nil_r.
Qed.

Lemma block_dict_good mode s d size :
  good s → block_dict mode s = Some (d, size) → wf_bytes d ∧ length d ≤ Z.to_nat 65536.
Proof.
  intros [_ _ _ Hdict Hctx]. destruct mode; simpl; try (intros [= <- <-]; done).
  - intros [= <- <-]. split; [constructor|simpl; lia].
  - destruct (dict_ctx s) as [c|]; [|done]. intros [= <- <-]. apply (ld_dict c). by apply Hctx.
Qed.

Lemma begin_block_below mode tt n k s : below k s → below k (begin_block mode tt n s).
Proof. intros Hb h t. specialize (Hb h t). destruct s. unfold begin_block. by case_bool_decide. Qed.

(** A block leaves a good state, whatever became of the tables. *)
Lemma begin_block_good mode tt s src s' :
  good s → roomy s src → tt ≠ Cleared → let n := Z.of_nat (length src) in
  tables_only (begin_block mode tt n s) s' → below (current_offset s + n + 1) s' →
  good s' ∧ table_type s' = tt ∧ dict_ctx s' = if bool_decide (mode = DictCtx) then None else dict_ctx s.
Proof.
  intros [Hoff Hb Hclr Hdict Hctx] Hroom Htt n (a & b & -> & _ & _) Hb'. unfold roomy in Hroom. fold n in Hroom.
  assert (current_offset (begin_block mode tt n s) = (current_offset s + n)%Z ∧ table_type (begin_block mode tt n s) = tt ∧
    dict (begin_block mode tt n s) = dict s ∧
    dict_ctx (begin_block mode tt n s) = if bool_decide (mode = DictCtx) then None else dict_ctx s) as (-> & -> & -> & ->).
  { destruct s. unfold begin_block. simpl in *. case_bool_decide; simpl; rewrite u32_small by lia; done. }
  split; [|done]. constructor; simpl; try done; try lia.
  intros c Hc. case_bool_decide; [done|]. destruct (Hctx c Hc). split; [done|lia].
Qed.

Lemma attached_delta s c :
  good s → dict_ctx s = Some c →
  let delta := u32 (current_offset s - current_offset c) in
  delta = (current_offset s - current_offset c)%Z ∧ (0 <= delta)%Z ∧ below (current_offset c + 1) c.
Proof.
  intros [Hoff _ _ _ Hctx] Hc. destruct (Hctx c Hc) as [[Ho Hb _ _ _] Hk]. rewrite Ho. unfold KB64 in *.
  cbv zeta. rewrite u32_small by lia. split_and!; done || lia.
Qed.

(** The block in its window, of whatever size. *)
Lemma window_writes s src out tt mode small limit olimit accel d :
  good s → wf_bytes (d ++ src) → length d ≤ Z.to_nat 65536 → (Z.of_nat (length src) <= MAX_INPUT_SIZE)%Z →
  (1 <= accel <= ACCELERATION_MAX)%Z → roomy s src →
  (tt = U16 → mode = NoDict ∧ d = [] ∧ (Z.of_nat (length src) < LIMIT_64K)%Z) →
  (mode = DictCtx → is_Some (dict_ctx s)) →
  let n := Z.of_nat (length src) in
  let dctx := if bool_decide (mode = DictCtx) then dict_ctx s else None in
  let delta := match dctx with Some c => u32 (current_offset s - current_offset c) | None => 0%Z end in
  ∃ r s', compress_window (d ++ src) (length d) (current_offset s) tt mode small limit delta dctx olimit accel
            (begin_block mode tt n s) out = Some (r, s') ∧
    tables_only (begin_block mode tt n s) s' ∧ below (current_offset s + n + 1) s' ∧
    match r with Some out' => ∃ block, out' = out ++ block ∧ encodes (d ++ src) (length d) block ∧ fits olimit out' | None => True end.
Proof.
  intros Hg Hwf Hd Hmax Haccel Hroom Hu16 Hctx n dctx delta. pose proof (length_app d src) as Hlw.
  assert (below (current_offset s + 1) (begin_block mode tt n s)) as Hb by apply begin_block_below, Hg.
  pose proof (gd_offset s Hg) as Hoff. unfold roomy in Hroom.
  destruct (Nat.lt_ge_cases (length (d ++ src)) (length d + MIN_LENGTH)).
  - destruct (small_window (d ++ src) (length d) (current_offset s) tt mode small limit delta dctx olimit accel
      (begin_block mode tt n s) out) as (r & -> & Hr); [lia|done|].
    exists r, (begin_block mode tt n s). split_and!; [done|apply tables_only_refl| |done]. eapply below_mono; [done|lia].
  - destruct (sequences_window (d ++ src) (length d) (current_offset s) tt mode small limit delta dctx olimit accel)
      with (s := begin_block mode tt n s) (out0 := out) (ip := length d) as (r & s' & -> & Ht & Hb' & Hr); try done.
    + unfold KB64 in *. lia.
    + lia.
    + intros _. lia.
    + intros E. destruct (Hu16 E) as (-> & -> & ?). done.
    + intros Em. unfold delta, dctx. rewrite bool_decide_eq_true_2 by done. destruct (Hctx Em) as [c Hc].
      exists c. rewrite Hc. split; [done|]. by apply attached_delta.
    + exists r, s'. split_and!; try done. eapply below_mono; [done|]. unfold index. lia.
Qed.

Lemma compress_generic_writes s src out limit tt mode small accel d size :
  good s → wf_bytes src → (Z.of_nat (length src) <= MAX_INPUT_SIZE)%Z → (1 <= accel <= ACCELERATION_MAX)%Z →
  roomy s src → tt ≠ Cleared → (tt = U16 → mode = NoDict ∧ (Z.of_nat (length src) < LIMIT_64K)%Z) →
  (∀ l, limit = Some l → (0 <= l)%Z) → block_dict mode s = Some (d, size) →
  ∃ r out' s', compress_generic s src out limit tt mode small accel = Some (r, out', s') ∧ good s' ∧
    (src ≠ [] → table_type s' = tt ∧ dict_ctx s' = if bool_decide (mode = DictCtx) then None else dict_ctx s) ∧
    block_written d src out limit r out'.
Proof.
  intros Hg Hwf Hmax Haccel Hroom Htt Hu16 Hlim Hd. unfold compress_generic.
  rewrite (proj2 (Z.ltb_ge _ _)) by lia. case_bool_decide as Hne.
  { subst src. case_bool_decide as Hl0; eexists _, _, _; (split_and!; [done|done|done|]); [by left|].
    right. exists [0%Z]. split_and!; [done|done|lia| |intros; apply decompress_empty].
    intros l ->. specialize (Hlim l eq_refl). destruct (decide (l = 0%Z)) as [->|]; [done|]. simpl. lia. }
  destruct (block_dict_good mode s d size) as [Hdwf Hdlen]; [done|done|]. rewrite Hd. past.
  replace (length (d ++ src) - length src) with (length d) by (rewrite length_app; lia).
  destruct (window_writes s src out tt mode small (u32 (current_offset s - size)) ((λ l, (Z.of_nat (length out) + l)%Z) <$> limit) accel d)
    as (r & s' & -> & Htab & Hb & Hr); try done.
  { by apply wf_app. }
  { intros E. destruct (Hu16 E) as [-> ?]. injection Hd as <- _. done. }
  { intros ->. simpl in Hd. by destruct (dict_ctx s). }
  destruct (begin_block_good mode tt s src s') as [Hg' Hc]; [done..|]. past.
  destruct r as [out'|]; (eexists _, _, _; split_and!; [done|done|done|]); [|by left].
  destruct Hr as (block & -> & Henc & Hfit). right. exists block. rewrite length_app.
  split_and!; [done|lia| | |].
  - destruct Henc as (seqs & last & -> & _). pose proof (length_encode seqs 0 last). lia.
  - intros l ->. specialize (Hfit _ eq_refl). rewrite length_app in Hfit. lia.
  - intros hist cap o Hs Hcap. by apply (encodes_decodes d src block).
Qed.

Lemma byte_at_zero n h : byte_at (no_entries n) h = 0%Z.
Proof.
  unfold byte_at, no_entries. destruct (decide (h < n)).
  - by rewrite lookup_replicate_2.
  - rewrite lookup_ge_None_2; [done|]. rewrite length_replicate. lia.
Qed.
Lemma no_entries_below n m o t d k c : below 1 (mk_stream (no_entries n) (no_entries m) o t d k c).
Proof. intros h tt. unfold get. simpl. rewrite !byte_at_zero. case_bool_decide; lia. Qed.

(** The same tables, whatever the rest. *)
Lemma below_tables n s s' : t32 s' = t32 s → t16 s' = t16 s → below n s → below n s'.
Proof. intros E32 E16 Hb h tt. specialize (Hb h tt). unfold get in *. by rewrite E32, E16. Qed.

Lemma init_good : good init.
Proof.
  unfold init. constructor; simpl; try done; try lia.
  - eapply below_mono; [apply no_entries_below|simpl; lia].
  - intros _. split; [apply no_entries_below|done].
  - split; [constructor|lia].
Qed.

(** A prepared table is that of a good state with no dictionary; [low] is what keeps its indexes low. *)
Definition low (s : FastStream) : Prop := table_type s = Cleared → (current_offset s <= 1073741824)%Z.

Lemma prepared_offset o t tt :
  (t = Cleared → o mod 65536 = 0)%Z → (0 <= o < 4294967296)%Z → (t = Cleared ∨ (tt = U32 → o <= 1073741824))%Z →
  let o' := if negb (o =? 0)%Z && bool_decide (tt = U32) then u32 (o + 65536) else o in
  (t = Cleared → o' mod 65536 = 0)%Z ∧ (0 <= o' < 4294967296)%Z ∧ (t ≠ Cleared → o <= o')%Z ∧
    (o' = 0 ∨ (tt = U32 → 65536 <= o'))%Z.
Proof.
  intros Hclr Hoff Hcase. cbv zeta. destruct (Z.eqb_spec o 0) as [->|Hne]; simpl; [split_and!; done || lia|].
  destruct (decide (tt = U32)) as [E|E]; [rewrite bool_decide_eq_true_2 by done|rewrite bool_decide_eq_false_2 by done]; simpl.
  - split_and!.
    + intros Ht. specialize (Hclr Ht). unfold u32. rewrite Z.mod_mod_divide by (by exists 65536%Z).
      Z.div_mod_to_equations. lia.
    + apply Z.mod_pos_bound. lia.
    + apply Z.mod_pos_bound. lia.
    + intros Ht. destruct Hcase as [|Ho]; [done|]. rewrite u32_small; specialize (Ho E); lia.
    + destruct Hcase as [Ht|Ho].
      * specialize (Hclr Ht). unfold u32. Z.div_mod_to_equations. lia.
      * right. intros _. specialize (Ho E). rewrite u32_small; lia.
  - split_and!; try done; try lia. by right.
Qed.

Lemma prepare_table_good n tt s :
  good s → tt ≠ Cleared →
  let s' := prepare_table n tt s in
  good s' ∧ dict s' = [] ∧ dict_ctx s' = None ∧ (current_offset s' = 0 ∨ (tt = U32 → KB64 <= current_offset s'))%Z.
Proof.
  intros [Hoff Hb Hclr Hdict Hctx] Htt. cbv zeta. unfold prepare_table.
  destruct s as [a b o t d k c]. simpl current_offset in *. simpl table_type in *. unfold KB64.
  destruct (bool_decide (t ≠ Cleared) && _) eqn:Hcond.
  - simpl. split; [|split_and!; try done; by left].
    constructor; simpl; try done; try lia.
    + eapply below_mono; [apply no_entries_below|simpl; lia].
    + intros _. split; [apply no_entries_below|done].
    + split; [constructor|lia].
  - assert (t = Cleared ∨ (t = tt ∧ (tt = U32 → o <= 1073741824)%Z)) as Hcase.
    { destruct (decide (t = Cleared)) as [|Hne]; [by left|right]. rewrite bool_decide_eq_true_2 in Hcond by done.
      simpl in Hcond. apply orb_false_elim in Hcond as [[[Ht _]%orb_false_elim Ho]%orb_false_elim _].
      apply bool_decide_eq_false, dec_stable in Ht. split; [done|]. intros ->.
      rewrite bool_decide_eq_true_2 in Ho by done. simpl in Ho. apply Z.ltb_ge in Ho. done. }
    destruct (prepared_offset o t tt) as (Hmod & Hr & Hle & Hz); [intros E; by apply Hclr|done|naive_solver|].
    set (o' := if negb (o =? 0)%Z && bool_decide (tt = U32) then u32 (o + 65536) else o) in *.
    simpl. split; [|split_and!; done]. constructor; simpl; try done; try lia.
    + destruct (decide (t = Cleared)) as [->|Hne].
      * destruct (Hclr eq_refl) as [H1 _]. eapply below_mono; [eapply below_tables; [..|exact H1]; done|lia].
      * eapply below_mono; [eapply below_tables; [..|exact Hb]; done|]. specialize (Hle Hne). lia.
    + intros ->. destruct (Hclr eq_refl) as [H1 _]. split; [eapply below_tables; [..|exact H1]; done|by apply Hmod].
    + split; [constructor|lia].
Qed.

Lemma prepare_table_roomy src tt s :
  good s → low s → tt ≠ Cleared → (Z.of_nat (length src) <= MAX_INPUT_SIZE)%Z →
  (tt = U16 → Z.of_nat (length src) < LIMIT_64K)%Z → roomy (prepare_table (Z.of_nat (length src)) tt s) src.
Proof.
  intros [Hoff _ _ _ _] Hlow Htt Hmax Hu16. unfold roomy, prepare_table, low, KB64, MAX_INPUT_SIZE, LIMIT_64K in *.
  destruct s as [a b o t d k c]. simpl current_offset in *. simpl table_type in *.
  destruct (bool_decide (t ≠ Cleared) && _) eqn:Hcond; [simpl; lia|].
  assert (o <= 1073741824 ∨ (tt = U16 ∧ o < 65535))%Z as Ho.
  { destruct (decide (t = Cleared)) as [|Hne]; [left; auto|]. rewrite bool_decide_eq_true_2 in Hcond by done.
    simpl in Hcond. apply orb_false_elim in Hcond as [[[Ht H16]%orb_false_elim Ho]%orb_false_elim _].
    apply bool_decide_eq_false, dec_stable in Ht. destruct tt; [done|left|right; split; [done|]].
    - simpl in Ho. apply Z.ltb_ge in Ho. done.
    - simpl in H16. apply Z.leb_gt in H16. lia. }
  simpl. destruct (negb _ && bool_decide (tt = U32)) eqn:E; [|destruct Ho as [|[-> ?]]; [lia|]; specialize (Hu16 eq_refl); lia].
  apply andb_prop in E as [_ ->%bool_decide_eq_true]. destruct Ho as [?|[? _]]; [|done]. rewrite u32_small; lia.
Qed.

Lemma renorm_good src s :
  good s → (Z.of_nat (length src) <= MAX_INPUT_SIZE)%Z →
  let s' := renorm (Z.of_nat (length src)) s in
  good s' ∧ roomy s' src ∧ dict s' = dict s ∧ dict_ctx s' = dict_ctx s.
Proof.
  intros Hg Hmax. pose proof Hg as [Hoff Hb Hclr Hdict Hctx]. cbv zeta. unfold renorm, roomy, MAX_INPUT_SIZE, KB64 in *.
  destruct s as [a b o t d k c]. simpl in Hoff.
  destruct (Z.ltb_spec 2147483648 (o + Z.of_nat (length src))); [|simpl; split_and!; done || lia].
  rewrite u32_small by lia. set (delta := (o - 65536)%Z).
  assert (∀ h, byte_at ((λ x, if (x <? delta)%Z then 0%Z else (x - delta)%Z) <$> a) h =
    if (byte_at a h <? delta)%Z then 0%Z else (byte_at a h - delta)%Z) as Hget.
  { intros h. unfold byte_at. rewrite list_lookup_fmap. destruct (a !! h) as [x|]; simpl; [done|].
    rewrite (proj2 (Z.ltb_lt _ _)); [done|unfold delta; lia]. }
  simpl. split_and!; try done; try lia. constructor; simpl; try done; try lia.
  - intros h tt. specialize (Hb h tt). unfold get in *. simpl in *. rewrite Hget.
    case_bool_decide; [lia|]. destruct (Z.ltb_spec (byte_at a h) delta); unfold delta in *; lia.
  - intros E. destruct (Hclr E) as [H1 _]. split; [|done]. intros h tt. specialize (H1 h tt). unfold get in *. simpl in *.
    rewrite Hget. case_bool_decide; [lia|]. destruct (Z.ltb_spec (byte_at a h) delta); unfold delta in *; lia.
  - intros c' Hc'. destruct (Hctx c' Hc'). by split.
Qed.

Lemma wf_last_64k l : wf_bytes l → wf_bytes (last_64k l) ∧ length (last_64k l) ≤ Z.to_nat 65536.
Proof. intros Hl. split; [by apply Forall_drop|]. rewrite length_last_64k. lia. Qed.

(** A good state with another dictionary. *)
Lemma good_dict s d k :
  good s → wf_bytes d → length d ≤ Z.to_nat 65536 →
  good (mk_stream (t32 s) (t16 s) (current_offset s) (table_type s) d k (dict_ctx s)).
Proof. intros [Hoff Hb Hclr _ Hctx] Hd Hl. by constructor. Qed.

Lemma set_dict_good src s :
  good s → wf_bytes src →
  good (set_dict_from_block src s) ∧ dict (set_dict_from_block src s) = last_64k src ∧
  dict_ctx (set_dict_from_block src s) = dict_ctx s ∧ table_type (set_dict_from_block src s) = table_type s.
Proof.
  intros Hg Hs. destruct (wf_last_64k src Hs). split; [|by destruct s].
  replace (set_dict_from_block src s) with
    (mk_stream (t32 s) (t16 s) (current_offset s) (table_type s) (last_64k src) (u32 (Z.of_nat (length src))) (dict_ctx s)) by by destruct s.
  by apply good_dict.
Qed.

Lemma save_dict_good n s :
  good s → good (save_dict n s) ∧ dict (save_dict n s) `suffix_of` dict s ∧ dict_ctx (save_dict n s) = dict_ctx s ∧
  table_type (save_dict n s) = table_type s ∧ current_offset (save_dict n s) = current_offset s.
Proof.
  intros Hg. pose proof (gd_dict s Hg) as [Hd Hl].
  assert (∃ k m, save_dict n s = mk_stream (t32 s) (t16 s) (current_offset s) (table_type s) (drop k (dict s)) m (dict_ctx s))
    as (k & m & ->) by (destruct s; by eexists _, _).
  split; [apply good_dict; [done|by apply Forall_drop|rewrite length_drop; lia]|]. simpl. split_and!; try done.
  exists (take k (dict s)). by rewrite take_drop.
Qed.

(** ** Dictionaries *)

Lemma below_insert n a b o t d k c h x :
  below n (mk_stream a b o t d k c) → (0 <= x < n)%Z → below n (mk_stream (<[h := x]> a) b o t d k c).
Proof. intros Hb Hx. exact (put_below n (mk_stream a b o t d k c) h x U32 Hb Hx). Qed.

Section load.
Context (d b : list Z) (k : Z) (start : Z) (Hstart : (0 <= start)%Z) (Hend : (start + Z.of_nat (length d) <= KB64)%Z).

Definition table_below (t : list Z) : Prop := below (KB64 + 1) (mk_stream t b KB64 U32 d k None).

Lemma load_thirds_below fuel p t :
  p ≤ length d < fuel + p → table_below t → ∃ t', load_thirds fuel d start p t = Some t' ∧ table_below t'.
Proof using Hstart Hend.
  revert p t. induction fuel as [|fuel IH]; intros p t Hf Ht; [lia|]. cbn [load_thirds].
  destruct (Nat.leb_spec (p + 8) (length d)); [|by exists t].
  destruct (hash_position_ok d p U32) as [h ->]; [done|]. past.
  apply IH; [lia|]. apply below_insert; [done|lia].
Qed.

Lemma load_rest_below fuel lim p t :
  p ≤ length d < fuel + p → table_below t → ∃ t', load_rest fuel d start lim p t = Some t' ∧ table_below t'.
Proof using Hstart Hend.
  revert p t. induction fuel as [|fuel IH]; intros p t Hf Ht; [lia|]. cbn [load_rest].
  destruct (Nat.leb_spec (p + 8) (length d)); [|by exists t].
  destruct (hash_position_ok d p U32) as [h ->]; [done|]. past.
  apply IH; [lia|]. destruct (_ <=? _)%Z; [|done]. apply below_insert; [done|lia].
Qed.
End load.

(** A dictionary of 8 bytes or more is loaded whole, its last 64 KB; a shorter one is none. *)
Lemma load_dict_slow_loaded dictionary :
  wf_bytes dictionary →
  ∃ c, load_dict_slow dictionary = Some c ∧
    (dict_size c = 0%Z ∨ (loaded c ∧ dict c = last_64k dictionary ∧ dict_size c = Z.of_nat (length (dict c)))).
Proof.
  intros Hwf. unfold load_dict_slow. destruct (Nat.ltb_spec (length dictionary) 8); [eexists; split; [done|by left]|].
  destruct (wf_last_64k dictionary Hwf) as [Hd Hl]. set (d := last_64k dictionary) in *.
  set (k := Z.of_nat (length d)). simpl current_offset. rewrite Z.add_0_l.
  assert (table_below d (t16 init) k (t32 init)) as H0.
  { eapply below_mono; [apply no_entries_below|done]. }
  assert (0 <= KB64 - k ∧ KB64 - k + Z.of_nat (length d) <= KB64)%Z as [Hs1 Hs2] by (unfold KB64, k; lia).
  destruct (load_thirds_below d (t16 init) k (KB64 - k) Hs1 Hs2 (S (length d)) 0 (t32 init)) as (t1 & -> & H1); [lia|done|]. past.
  destruct (load_rest_below d (t16 init) k (KB64 - k) Hs1 Hs2 (S (length d)) (KB64 - KB64) 0 t1) as (t2 & -> & H2); [lia|done|]. past.
  eexists. split; [done|]. right. split_and!; [|done|done]. constructor; try done.
Qed.

(** A stream made ready for a frame's block: reset, and a dictionary attached. *)
Lemma attach_reset_good c s :
  good s → (∀ d, c = Some d → dict_size d = 0%Z ∨ loaded d) →
  let s' := attach_dictionary c (reset_fast s) in
  good s' ∧ dict s' = [] ∧
  dict_ctx s' = match c with Some d => if (dict_size d =? 0)%Z then None else Some d | None => None end.
Proof.
  intros Hg Hc. cbv zeta. unfold reset_fast.
  destruct (prepare_table_good 0 U32 s Hg ltac:(done)) as (Hg' & Hd & Hctx & Hoff). set (s' := prepare_table 0 U32 s) in *.
  clearbody s'. destruct s' as [a b o t d k cx]. simpl in *. subst d cx. specialize (Hoff) as [->|Hoff].
  all: destruct Hg' as [Ho Hb Hclr Hdict Hcx]; simpl in *.
  - destruct c as [c|]; simpl; (split; [|done]); [|by constructor]. constructor; simpl.
    + done.
    + eapply below_mono; [eapply below_tables; [..|exact Hb]; done|]. unfold KB64. lia.
    + intros E. destruct (Hclr E) as [H1 _]. split; [eapply below_tables; [..|exact H1]; done|done].
    + done.
    + destruct (Z.eqb_spec (dict_size c) 0) as [|Hne]; [done|]. intros d [= <-]. destruct (Hc c eq_refl); done.
  - specialize (Hoff eq_refl). unfold KB64 in Hoff.
    destruct c as [c|]; simpl; (split; [|done]); [|by constructor].
    destruct (Z.eqb_spec o 0); [lia|]. constructor; simpl; [done|by eapply below_tables; [..|exact Hb]|done|done|].
    destruct (Z.eqb_spec (dict_size c) 0) as [|Hne]; [done|]. intros d [= <-]. destruct (Hc c eq_refl); done.
Qed.

(** ** The compressor's entry points *)

(** What the next block's matches may refer to. *)
Definition dict_of (s : FastStream) : list Z := match dict_ctx s with Some c => dict c | None => dict s end.

Lemma block_written_suffix d d' src out limit r out' :
  d' `suffix_of` d → block_written d' src out limit r out' → block_written d src out limit r out'.
Proof.
  intros Hd [?|(block & ? & ? & ? & ? & Hdec)]; [by left|right]. exists block. split_and!; try done.
  intros hist cap o Hs. apply Hdec. by etransitivity.
Qed.

Lemma clamp_accel_range accel : (1 <= clamp_accel accel <= ACCELERATION_MAX)%Z.
Proof. unfold clamp_accel, ACCELERATION_MAX. lia. Qed.
Lemma block_limit_le cap src l : (0 <= cap)%Z → block_limit cap src = Some l → (0 <= l)%Z.
Proof. unfold block_limit. destruct (_ <=? _)%Z; intros ? [= <-]; done. Qed.

Lemma compress_continue_writes s src out cap accel :
  good s → wf_bytes src → (Z.of_nat (length src) <= MAX_INPUT_SIZE)%Z → (0 <= cap)%Z →
  ∃ r out' s', compress_continue s src out cap accel = Some (r, out', s') ∧ good s' ∧ dict s' = last_64k src ∧
    (src ≠ [] → table_type s' = U32 ∧ dict_ctx s' = None) ∧
    block_written (dict_of s) src out (block_limit cap src) r out'.
Proof.
  intros Hg Hwf Hmax Hcap. pose proof (clamp_accel_range accel) as Ha.
  assert (∀ l, block_limit cap src = Some l → (0 <= l)%Z) as Hl by (intros l; by apply block_limit_le).
  destruct (renorm_good src s Hg Hmax) as (Hg1 & Hroom & Hd & Hc). unfold compress_continue.
  set (s1 := renorm (Z.of_nat (length src)) s) in *.
  assert (dict_of s = dict_of s1) as -> by (unfold dict_of; by rewrite Hd, Hc).
  clear Hg Hd Hc. clearbody s1.
  assert (∀ r out' s2 d, d `suffix_of` dict_of s1 → good s2 → (src ≠ [] → table_type s2 = U32 ∧ dict_ctx s2 = None) →
    block_written d src out (block_limit cap src) r out' →
    ∃ r' out'' s', Some (r, out', set_dict_from_block src s2) = Some (r', out'', s') ∧ good s' ∧ dict s' = last_64k src ∧
      (src ≠ [] → table_type s' = U32 ∧ dict_ctx s' = None) ∧
      block_written (dict_of s1) src out (block_limit cap src) r' out'') as Hend.
  { intros r out' s2 d Hsuf Hg2 Hc2 Hw. destruct (set_dict_good src s2 Hg2 Hwf) as (Hg3 & Hd3 & Hc3 & Ht3).
    eexists _, _, _. split; [done|]. rewrite Hc3, Ht3. split_and!; try done. by eapply block_written_suffix. }
  destruct (_ && _ && _) eqn:Htiny.
  - apply andb_prop in Htiny as [[_ Hne%bool_decide_eq_true]%andb_prop Hc%bool_decide_eq_true].
    destruct s1 as [a b o t d k c]. simpl in Hc. subst c.
    destruct (compress_generic_writes (mk_stream a b o t [] 0 None) src out (block_limit cap src) U32 Prefix_
      (small (mk_stream a b o t [] 0 None)) (clamp_accel accel) [] 0) as (r & out' & s2 & -> & Hg2 & Hc2 & Hw); try done.
    { apply (good_dict _ [] 0 Hg1); [constructor|simpl; lia]. }
    past. eapply (Hend r out' s2 []); [apply suffix_nil|done|by apply Hc2|done].
  - destruct (dict_ctx s1) as [ctx|] eqn:Hc.
    + destruct (gd_ctx s1 Hg1 ctx Hc) as [Hld _].
      destruct (4096 <? Z.of_nat (length src))%Z.
      * destruct (compress_generic_writes ctx src out (block_limit cap src) U32 ExtDict false (clamp_accel accel) (dict ctx) (dict_size ctx))
          as (r & out' & s2 & -> & Hg2 & Hc2 & Hw); try done.
        { by apply loaded_good. }
        { unfold roomy. rewrite (ld_offset _ Hld). unfold KB64, MAX_INPUT_SIZE in *. lia. }
        past. eapply (Hend r out' s2 (dict ctx)); [unfold dict_of; by rewrite Hc|done| |done].
        intros Hne. destruct (Hc2 Hne) as [? E]. split; [done|]. simpl in E. by rewrite E, (ld_ctx _ Hld).
      * destruct (compress_generic_writes s1 src out (block_limit cap src) U32 DictCtx false (clamp_accel accel) (dict ctx) (dict_size ctx))
          as (r & out' & s2 & -> & Hg2 & Hc2 & Hw); try done.
        { simpl. by rewrite Hc. }
        past. eapply (Hend r out' s2 (dict ctx)); [unfold dict_of; by rewrite Hc|done|by apply Hc2|done].
    + destruct (compress_generic_writes s1 src out (block_limit cap src) U32 ExtDict
        (small s1) (clamp_accel accel) (dict s1) (dict_size s1))
        as (r & out' & s2 & -> & Hg2 & Hc2 & Hw); try done.
      past. eapply (Hend r out' s2 (dict s1)); [unfold dict_of; by rewrite Hc|done| |done].
      intros Hne. destruct (Hc2 Hne) as [? E]. split; [done|]. simpl in E. by rewrite E.
Qed.

Lemma compress_fast_reset_writes s src out cap accel :
  good s → low s → wf_bytes src → (Z.of_nat (length src) <= MAX_INPUT_SIZE)%Z → (0 <= cap)%Z →
  ∃ r out' s', compress_fast_reset s src out cap accel = Some (r, out', s') ∧ good s' ∧
    (src ≠ [] → table_type s' ≠ Cleared ∧ dict_ctx s' = None) ∧ block_written [] src out (block_limit cap src) r out'.
Proof.
  intros Hg Hlow Hwf Hmax Hcap. pose proof (clamp_accel_range accel) as Ha. unfold compress_fast_reset.
  assert (∀ l, block_limit cap src = Some l → (0 <= l)%Z) as Hl by (intros l; by apply block_limit_le).
  assert (∀ tt small', tt ≠ Cleared → (tt = U16 → Z.of_nat (length src) < LIMIT_64K)%Z →
    ∃ r out' s', compress_generic (prepare_table (Z.of_nat (length src)) tt s) src out (block_limit cap src) tt NoDict small' (clamp_accel accel)
        = Some (r, out', s') ∧ good s' ∧ (src ≠ [] → table_type s' ≠ Cleared ∧ dict_ctx s' = None) ∧
        block_written [] src out (block_limit cap src) r out') as Hgen.
  { intros tt small' Htt Hu16. destruct (prepare_table_good (Z.of_nat (length src)) tt s Hg Htt) as (Hg1 & _ & Hc & _).
    pose proof (prepare_table_roomy src tt s Hg Hlow Htt Hmax Hu16) as Hroom.
    destruct (compress_generic_writes (prepare_table (Z.of_nat (length src)) tt s) src out (block_limit cap src) tt NoDict small'
      (clamp_accel accel) [] 0) as (r & out' & s2 & -> & Hg2 & Hc2 & Hw); try done.
    { intros E. split; [done|]. by apply Hu16. }
    eexists _, _, _. split_and!; try done. intros Hne. destruct (Hc2 Hne) as [Et E]. simpl in E. by rewrite Et, E. }
  destruct (Z.ltb_spec (Z.of_nat (length src)) LIMIT_64K); by apply Hgen.
Qed.

Lemma compress_ext_state_writes src out cap accel :
  wf_bytes src → (Z.of_nat (length src) <= MAX_INPUT_SIZE)%Z → (0 <= cap)%Z →
  ∃ r out' s', compress_ext_state src out cap accel = Some (r, out', s') ∧ good s' ∧
    block_written [] src out (block_limit cap src) r out'.
Proof.
  intros Hwf Hmax Hcap. unfold compress_ext_state.
  set (tt := if (Z.of_nat (length src) <? LIMIT_64K)%Z then U16 else U32).
  destruct (compress_generic_writes init src out (block_limit cap src) tt NoDict false (clamp_accel accel) [] 0)
    as (r & out' & s2 & -> & Hg2 & _ & Hw); try done.
  - apply init_good.
  - apply clamp_accel_range.
  - unfold roomy, MAX_INPUT_SIZE in *. simpl. lia.
  - unfold tt. by destruct (_ <? _)%Z.
  - unfold tt. destruct (Z.ltb_spec (Z.of_nat (length src)) LIMIT_64K); done.
  - intros l. by apply block_limit_le.
  - by exists r, out', s2.
Qed.

(** C5: what the fast compressor writes is read back.  For any block of bytes, any state its earlier blocks
    left (hash tables with whatever they hold, a dictionary, one attached), any acceleration and any room:
    the compressor ends without a panic, in a state good for the next block, and either leaves the output as it was and
    reports 0, or appends a block of the reported size, within the room, which the decoder turns back into
    the data after any history that ends with what the compressor had as dictionary.  So for linked blocks
    and blocks with a dictionary ([compress_continue], which then keeps the block's last 64 KB as
    dictionary), independent blocks ([compress_fast_reset]) and the legacy format's
    ([compress_ext_state]). *)
Theorem lz4_block_roundtrip s src out cap accel :
  good s → wf_bytes src → (Z.of_nat (length src) <= MAX_INPUT_SIZE)%Z → (0 <= cap)%Z →
  let written (d : list Z) (r : nat) (out' : list Z) := block_written d src out (block_limit cap src) r out' in
  (∃ r out' s', compress_continue s src out cap accel = Some (r, out', s') ∧ good s' ∧ dict s' = last_64k src ∧
     (src ≠ [] → dict_ctx s' = None) ∧ written (dict_of s) r out') ∧
  (low s → ∃ r out' s', compress_fast_reset s src out cap accel = Some (r, out', s') ∧ good s' ∧ written [] r out') ∧
  (∃ r out' s', compress_ext_state src out cap accel = Some (r, out', s') ∧ good s' ∧ written [] r out').
Proof.
  intros Hg Hwf Hmax Hcap written. split_and!.
  - destruct (compress_continue_writes s src out cap accel Hg Hwf Hmax Hcap) as (r & out' & s' & ? & ? & ? & Hc & ?).
    exists r, out', s'. split_and!; try done. intros Hne. by apply Hc.
  - intros Hlow. destruct (compress_fast_reset_writes s src out cap accel Hg Hlow Hwf Hmax Hcap) as (r & out' & s' & ? & ? & _ & ?).
    by exists r, out', s'.
  - destruct (compress_ext_state_writes src out cap accel Hwf Hmax Hcap) as (r & out' & s' & ? & ? & ?). by exists r, out', s'.
Qed.

(** A dictionary loaded and attached, and a block that refers to it. *)
Definition sample_text : list Z := mjoin (replicate 4 [10; 20; 30; 40; 50; 60; 70; 80; 90]%Z).
Definition sample_stream : FastStream := attach_dictionary (load_dict_slow sample_text) (reset_fast init).
Definition sample_source : list Z := sample_text ++ [1; 2; 3; 4; 5]%Z.

Lemma sample_stream_good : good sample_stream.
Proof.
  apply attach_reset_good; [exact init_good|]. intros d Hd.
  destruct (load_dict_slow_loaded sample_text ltac:(by apply wf_bytes_check; vm_compute)) as (c & Hc & Hld).
  rewrite Hd in Hc. injection Hc as ->. destruct Hld as [?|[? _]]; [by left|by right].
Qed.

Lemma lz4_block_roundtrip_witness :
  good sample_stream ∧ wf_bytes sample_source ∧
  ∃ r out' s', compress_continue sample_stream sample_source [7%Z] 100 1 = Some (r, out', s') ∧ r = 10 ∧
    block_written (dict_of sample_stream) sample_source [7%Z] (block_limit 100 sample_source) r out'.
Proof.
  assert (wf_bytes sample_source) as Hwf by (by apply wf_bytes_check; vm_compute).
  split; [exact sample_stream_good|]. split; [exact Hwf|].
  destruct (lz4_block_roundtrip sample_stream sample_source [7%Z] 100 1
    sample_stream_good Hwf ltac:(vm_compute; discriminate) ltac:(lia)) as [(r & out' & s' & Hr & _ & _ & _ & Hw) _].
  exists r, out', s'. split; [exact Hr|]. split; [|exact Hw].
  assert ((λ x, x.1.1) <$> compress_continue sample_stream sample_source [7%Z] 100 1 = Some 10) as E by (vm_compute; reflexivity).
  rewrite Hr in E. injection E as ->. reflexivity.
Defined.
