(* ===== verification/Lz4Frame.v ===== *)
(** * LZ4 frames

    The frame format of tools/rust/archive/src/lz4/frame.rs: the encoder ([CCtx]) with the fast compressor
    of [Lz4Fast], and the streaming decoder ([DCtx]), a state machine that is given the frame in pieces and
    room for the output as they come.

    XXH32 is the twox-hash crate's: the class [Xxh].  The levels from 2 on are hc.rs', which is not
    modelled: [compress_block] has no result for them. *)
From S2P Require Import Prelude Lz4Block Lz4Fast.

Local Open Scope nat_scope.

(** ** twox-hash *)

(** A hasher with seed 0, and the hash of bytes at once. *)
Class Xxh := {
  xstate : Type;
  xxh_new : xstate;
  xxh_write : xstate → list Z → xstate;
  xxh_finish : xstate → Z;
  xxh_oneshot : list Z → Z;
}.

(** Pieces hash as the whole, and a hash has 32 bits. *)
Class XxhLaws `{Xxh} := {
  xxh_write_nil : ∀ s, xxh_write s [] = s;
  xxh_write_app : ∀ s a b, xxh_write (xxh_write s a) b = xxh_write s (a ++ b);
  xxh_finish_range : ∀ s, (0 <= xxh_finish s < 4294967296)%Z;
  xxh_oneshot_is : ∀ l, xxh_oneshot l = xxh_finish (xxh_write xxh_new l);
}.

Definition MAGIC : Z := 0x184D2204.
Definition SKIPPABLE0 : Z := 0x184D2A50.
Definition SKIPPABLE_MASK : Z := 0xFFFFFFF0.
Definition HEADER_SIZE_MIN : nat := 7.
Definition HEADER_SIZE_MAX : nat := 19.
Definition BH_SIZE : nat := 4.
Definition BF_SIZE : nat := 4.
Definition UNCOMPRESSED_FLAG : Z := 0x80000000.

(** [block_size], of an id from 4 to 7: others are out of the source's table. *)
Definition block_size (id : Z) : option nat :=
  if (id =? 4)%Z then Some (Z.to_nat (Z.shiftl 64 10))
  else if (id =? 5)%Z then Some (Z.to_nat (Z.shiftl 256 10))
  else if (id =? 6)%Z then Some (Z.to_nat (Z.shiftl 1 20))
  else if (id =? 7)%Z then Some (Z.to_nat (Z.shiftl 4 20))
  else None.

Inductive FrameError : Type :=
  | MaxBlockSizeInvalid
  | HeaderVersionWrong
  | BlockChecksumInvalid
  | ReservedFlagSet
  | FrameHeaderIncomplete
  | FrameTypeUnknown
  | FrameSizeWrong
  | DecompressionFailed
  | HeaderChecksumInvalid
  | ContentChecksumInvalid.

(** What a call gives beside its result: an error, or a panic. *)
Inductive Failed : Type := Error (e : FrameError) | Panics.

Record FrameInfo := mk_info {
  fi_linked : bool;
  fi_block_checksum : bool;
  fi_content_checksum : bool;
  fi_block_size_id : Z;
  fi_content_size : Z;
  fi_skippable : bool;
}.
Definition default_info : FrameInfo := mk_info false false false 0 0 false.

Inductive Stage : Type :=
  | GetFrameHeader
  | StoreFrameHeader
  | Init
  | GetBlockHeader
  | StoreBlockHeader
  | CopyDirect
  | GetBlockChecksum
  | GetCBlock
  | StoreCBlock
  | FlushOut
  | GetSuffix
  | StoreSuffix
  | GetSFrameSize
  | StoreSFrameSize
  | SkipSkippable.

(** A panic where an operation has no result. *)
Definition or_panic {A} (o : option A) : result Failed A := ok_or o Panics.

(** [l[at..at + data.len()].copy_from_slice(data)] *)
Definition copy_at (at_ : nat) (data l : list Z) : option (list Z) :=
  if at_ + length data <=? length l then Some (patch at_ data l) else None.

Section frame.
Context `{Xxh}.

Definition header_checksum (header : list Z) : Z := u8 (Z.shiftr (xxh_oneshot header) 8).

(** ** Decompression *)

(** [dict] is [ddict] here. *)
Record DCtx := mk_dctx {
  stage : Stage;
  info : FrameInfo;
  frame_remaining : Z;
  max_block_size : nat;
  header : list Z;
  tmp_in : list Z;
  tmp_in_size : nat;
  tmp_in_target : nat;
  tmp_out : list Z;
  tmp_out_start : nat;
  hist : list Z;
  ddict : list Z;
  xxh : xstate;
  block_xxh : xstate;
  skip_checksum : bool;
}.

Definition set_stage (v : Stage) (d : DCtx) : DCtx :=
  mk_dctx v (info d) (frame_remaining d) (max_block_size d) (header d) (tmp_in d) (tmp_in_size d) (tmp_in_target d) (tmp_out d) (tmp_out_start d) (hist d) (ddict d) (xxh d) (block_xxh d) (skip_checksum d).
Definition set_info (v : FrameInfo) (d : DCtx) : DCtx :=
  mk_dctx (stage d) v (frame_remaining d) (max_block_size d) (header d) (tmp_in d) (tmp_in_size d) (tmp_in_target d) (tmp_out d) (tmp_out_start d) (hist d) (ddict d) (xxh d) (block_xxh d) (skip_checksum d).
Definition set_frame_remaining (v : Z) (d : DCtx) : DCtx :=
  mk_dctx (stage d) (info d) v (max_block_size d) (header d) (tmp_in d) (tmp_in_size d) (tmp_in_target d) (tmp_out d) (tmp_out_start d) (hist d) (ddict d) (xxh d) (block_xxh d) (skip_checksum d).
Definition set_max_block_size (v : nat) (d : DCtx) : DCtx :=
  mk_dctx (stage d) (info d) (frame_remaining d) v (header d) (tmp_in d) (tmp_in_size d) (tmp_in_target d) (tmp_out d) (tmp_out_start d) (hist d) (ddict d) (xxh d) (block_xxh d) (skip_checksum d).
Definition set_header (v : list Z) (d : DCtx) : DCtx :=
  mk_dctx (stage d) (info d) (frame_remaining d) (max_block_size d) v (tmp_in d) (tmp_in_size d) (tmp_in_target d) (tmp_out d) (tmp_out_start d) (hist d) (ddict d) (xxh d) (block_xxh d) (skip_checksum d).
Definition set_tmp_in (v : list Z) (d : DCtx) : DCtx :=
  mk_dctx (stage d) (info d) (frame_remaining d) (max_block_size d) (header d) v (tmp_in_size d) (tmp_in_target d) (tmp_out d) (tmp_out_start d) (hist d) (ddict d) (xxh d) (block_xxh d) (skip_checksum d).
Definition set_tmp_in_size (v : nat) (d : DCtx) : DCtx :=
  mk_dctx (stage d) (info d) (frame_remaining d) (max_block_size d) (header d) (tmp_in d) v (tmp_in_target d) (tmp_out d) (tmp_out_start d) (hist d) (ddict d) (xxh d) (block_xxh d) (skip_checksum d).
Definition set_tmp_in_target (v : nat) (d : DCtx) : DCtx :=
  mk_dctx (stage d) (info d) (frame_remaining d) (max_block_size d) (header d) (tmp_in d) (tmp_in_size d) v (tmp_out d) (tmp_out_start d) (hist d) (ddict d) (xxh d) (block_xxh d) (skip_checksum d).
Definition set_tmp_out (v : list Z) (d : DCtx) : DCtx :=
  mk_dctx (stage d) (info d) (frame_remaining d) (max_block_size d) (header d) (tmp_in d) (tmp_in_size d) (tmp_in_target d) v (tmp_out_start d) (hist d) (ddict d) (xxh d) (block_xxh d) (skip_checksum d).
Definition set_tmp_out_start (v : nat) (d : DCtx) : DCtx :=
  mk_dctx (stage d) (info d) (frame_remaining d) (max_block_size d) (header d) (tmp_in d) (tmp_in_size d) (tmp_in_target d) (tmp_out d) v (hist d) (ddict d) (xxh d) (block_xxh d) (skip_checksum d).
Definition set_hist (v : list Z) (d : DCtx) : DCtx :=
  mk_dctx (stage d) (info d) (frame_remaining d) (max_block_size d) (header d) (tmp_in d) (tmp_in_size d) (tmp_in_target d) (tmp_out d) (tmp_out_start d) v (ddict d) (xxh d) (block_xxh d) (skip_checksum d).
Definition set_xxh (v : xstate) (d : DCtx) : DCtx :=
  mk_dctx (stage d) (info d) (frame_remaining d) (max_block_size d) (header d) (tmp_in d) (tmp_in_size d) (tmp_in_target d) (tmp_out d) (tmp_out_start d) (hist d) (ddict d) v (block_xxh d) (skip_checksum d).
Definition set_block_xxh (v : xstate) (d : DCtx) : DCtx :=
  mk_dctx (stage d) (info d) (frame_remaining d) (max_block_size d) (header d) (tmp_in d) (tmp_in_size d) (tmp_in_target d) (tmp_out d) (tmp_out_start d) (hist d) (ddict d) (xxh d) v (skip_checksum d).
Definition set_skip_checksum (v : bool) (d : DCtx) : DCtx :=
  mk_dctx (stage d) (info d) (frame_remaining d) (max_block_size d) (header d) (tmp_in d) (tmp_in_size d) (tmp_in_target d) (tmp_out d) (tmp_out_start d) (hist d) (ddict d) (xxh d) (block_xxh d) v.

Definition new_dctx (dict : list Z) : DCtx :=
  mk_dctx GetFrameHeader default_info 0 0 (replicate HEADER_SIZE_MAX 0%Z) [] 0 0 [] 0 [] dict xxh_new xxh_new false.

(** [reset] *)
Definition reset (d : DCtx) : DCtx := set_frame_remaining 0 (set_skip_checksum false (set_stage GetFrameHeader d)).

Definition bit (x k : Z) : bool := negb (Z.land (Z.shiftr x k) 1 =? 0)%Z.

Definition u32_at (l : list Z) (p : nat) : option Z := le_val <$> get_slice p (p + 4) l.

(** The size of a header with these flags. *)
Definition full_header_size (flg : Z) : nat :=
  HEADER_SIZE_MIN + (if bit flg 3 then 8 else 0) + (if bit flg 0 then 4 else 0).

(** [decode_header]: the bytes read, or the header is kept until there is more of it. *)
Definition decode_header (src : list Z) (from_header : bool) (d : DCtx) : result Failed (nat * DCtx) :=
  if length src <? HEADER_SIZE_MIN then Err (Error FrameHeaderIncomplete)
  else
    let d := set_info default_info d in
    magic ← or_panic (u32_at src 0);
    if (Z.land magic SKIPPABLE_MASK =? SKIPPABLE0)%Z then
      let d := set_info (mk_info false false false 0 0 true) d in
      if from_header then
        Ok (length src, set_stage StoreSFrameSize (set_tmp_in_target 8 (set_tmp_in_size (length src) d)))
      else Ok (4, set_stage GetSFrameSize d)
    else if negb (magic =? MAGIC)%Z then Err (Error FrameTypeUnknown)
    else
      flg ← or_panic (src !! 4);
      let version := Z.land (Z.shiftr flg 6) 3 in
      let content_size_flag := bit flg 3 in
      if bit flg 1 then Err (Error ReservedFlagSet)
      else if negb (version =? 1)%Z then Err (Error HeaderVersionWrong)
      else
        let fhs := full_header_size flg in
        if length src <? fhs then
          d ← (if from_header then Ok d else h ← or_panic (copy_at 0 src (header d)); Ok (set_header h d));
          Ok (length src, set_stage StoreFrameHeader (set_tmp_in_target fhs (set_tmp_in_size (length src) d)))
        else
          bd ← or_panic (src !! 5);
          let bsid := Z.land (Z.shiftr bd 4) 7 in
          if bit bd 7 then Err (Error ReservedFlagSet)
          else if (bsid <? 4)%Z then Err (Error MaxBlockSizeInvalid)
          else if negb (Z.land bd 15 =? 0)%Z then Err (Error ReservedFlagSet)
          else
            covered ← or_panic (get_slice 4 (fhs - 1) src);
            check ← or_panic (src !! (fhs - 1));
            if negb (header_checksum covered =? check)%Z then Err (Error HeaderChecksumInvalid)
            else
              size ← or_panic (block_size bsid);
              content_size ← (if content_size_flag then s ← or_panic (get_slice 6 14 src); Ok (le_val s) else Ok 0%Z);
              let d := set_info (mk_info (negb (bit flg 5)) (bit flg 4) (bit flg 2) bsid content_size false) d in
              let d := set_max_block_size size d in
              let d := if content_size_flag then set_frame_remaining content_size d else d in
              Ok (fhs, set_stage Init d).

(** [update_dict] *)
Definition update_dict (data : list Z) (d : DCtx) : DCtx :=
  let h := hist d ++ data in
  set_hist (if (2 * 65536 <? Z.of_nat (length h))%Z then last_64k h else h) d.

(** One turn of the machine: on to the next, or the call ends with its hint. *)
Inductive Turn : Type :=
  | Go (d : DCtx) (out : list Z) (sp : nat)
  | Stop (d : DCtx) (out : list Z) (sp hint : nat).

(** Bytes put after what [tmp_in] (or [header]) holds of [target], as many as there are. *)
Definition wanted (target size src_end sp : nat) : nat := (target - size) `min` (src_end - sp).

Section machine.
Context (dst_cap : nat) (src : list Z).

Let src_end := length src.
Definition room (out : list Z) : nat := dst_cap - length out.

Definition get_frame_header (d : DCtx) (out : list Z) (sp : nat) : result Failed Turn :=
  if HEADER_SIZE_MAX <=? src_end - sp then
    '(h, d) ← decode_header (drop sp src) false d; Ok (Go d out (sp + h))
  else
    let d := set_tmp_in_size 0 d in
    if src_end - sp =? 0 then Ok (Stop d out sp HEADER_SIZE_MIN)
    else Ok (Go (set_stage StoreFrameHeader (set_tmp_in_target HEADER_SIZE_MIN d)) out sp).

Definition store_frame_header (d : DCtx) (out : list Z) (sp : nat) : result Failed Turn :=
  let n := wanted (tmp_in_target d) (tmp_in_size d) src_end sp in
  h ← or_panic (copy_at (tmp_in_size d) (slice sp (sp + n) src) (header d));
  let d := set_tmp_in_size (tmp_in_size d + n) (set_header h d) in
  let sp := sp + n in
  if tmp_in_size d <? tmp_in_target d then Ok (Stop d out sp (tmp_in_target d - tmp_in_size d + BH_SIZE))
  else
    kept ← or_panic (get_slice 0 (tmp_in_target d) (header d));
    '(_, d) ← decode_header kept true d; Ok (Go d out sp).

Definition start_blocks (d : DCtx) (out : list Z) (sp : nat) : result Failed Turn :=
  let d := if fi_content_checksum (info d) then set_xxh xxh_new d else d in
  let d := set_tmp_in (replicate (max_block_size d + BF_SIZE) 0%Z) d in
  let d := set_tmp_in_target 0 (set_tmp_in_size 0 d) in
  let d := set_tmp_out_start 0 (set_tmp_out [] d) in
  Ok (Go (set_stage GetBlockHeader d) out sp).

(** A block's header: the end mark, a stored block or a compressed one. *)
Definition take_block_header (bh : Z) (d : DCtx) (out : list Z) (sp : nat) : result Failed Turn :=
  let next := Z.to_nat (Z.land bh 0x7FFFFFFF) in
  let crc_size := if fi_block_checksum (info d) then BF_SIZE else 0 in
  if (bh =? 0)%Z then Ok (Go (set_stage GetSuffix d) out sp)
  else if max_block_size d <? next then Err (Error MaxBlockSizeInvalid)
  else if negb (Z.land bh UNCOMPRESSED_FLAG =? 0)%Z then
    let d := set_tmp_in_target next d in
    let d := if fi_block_checksum (info d) then set_block_xxh xxh_new d else d in
    Ok (Go (set_stage CopyDirect d) out sp)
  else
    let d := set_stage GetCBlock (set_tmp_in_target (next + crc_size) d) in
    if (room out =? 0) || (sp =? src_end) then Ok (Stop d out sp (BH_SIZE + next + crc_size))
    else Ok (Go d out sp).

Definition block_header (fresh : bool) (d : DCtx) (out : list Z) (sp : nat) : result Failed Turn :=
  if fresh && (BH_SIZE <=? src_end - sp) then
    bh ← or_panic (u32_at src sp); take_block_header bh d out (sp + BH_SIZE)
  else
    let d := if fresh then set_stage StoreBlockHeader (set_tmp_in_size 0 d) else d in
    let n := wanted BH_SIZE (tmp_in_size d) src_end sp in
    t ← or_panic (copy_at (tmp_in_size d) (slice sp (sp + n) src) (tmp_in d));
    let d := set_tmp_in_size (tmp_in_size d + n) (set_tmp_in t d) in
    let sp := sp + n in
    if tmp_in_size d <? BH_SIZE then Ok (Stop d out sp (BH_SIZE - tmp_in_size d))
    else bh ← or_panic (u32_at (tmp_in d) 0); take_block_header bh d out sp.

Definition copy_direct (d : DCtx) (out : list Z) (sp : nat) : result Failed Turn :=
  let n := (tmp_in_target d `min` (src_end - sp)) `min` room out in
  let data := slice sp (sp + n) src in
  let out := out ++ data in
  let d := if skip_checksum d then d
           else
             let d := if fi_block_checksum (info d) then set_block_xxh (xxh_write (block_xxh d) data) d else d in
             if fi_content_checksum (info d) then set_xxh (xxh_write (xxh d) data) d else d in
  let d := if (fi_content_size (info d) =? 0)%Z then d else set_frame_remaining (u64 (frame_remaining d - Z.of_nat n)) d in
  let d := if fi_linked (info d) then update_dict data d else d in
  let sp := sp + n in
  if n =? tmp_in_target d then
    if fi_block_checksum (info d) then Ok (Go (set_stage GetBlockChecksum (set_tmp_in_size 0 d)) out sp)
    else Ok (Go (set_stage GetBlockHeader d) out sp)
  else
    let d := set_tmp_in_target (tmp_in_target d - n) d in
    Ok (Stop d out sp (tmp_in_target d + (if fi_block_checksum (info d) then BF_SIZE else 0) + BH_SIZE)).

Definition check_block (read_crc : Z) (d : DCtx) (out : list Z) (sp : nat) : result Failed Turn :=
  if negb (skip_checksum d) && negb (read_crc =? xxh_finish (block_xxh d))%Z then Err (Error BlockChecksumInvalid)
  else Ok (Go (set_stage GetBlockHeader d) out sp).

Definition get_block_checksum (d : DCtx) (out : list Z) (sp : nat) : result Failed Turn :=
  if (4 <=? src_end - sp) && (tmp_in_size d =? 0) then
    crc ← or_panic (u32_at src sp); check_block crc d out (sp + 4)
  else
    let n := wanted 4 (tmp_in_size d) src_end sp in
    h ← or_panic (copy_at (tmp_in_size d) (slice sp (sp + n) src) (header d));
    let d := set_tmp_in_size (tmp_in_size d + n) (set_header h d) in
    let sp := sp + n in
    if tmp_in_size d <? 4 then Ok (Stop d out sp 1)
    else crc ← or_panic (u32_at (header d) 0); check_block crc d out sp.

(** A compressed block that is there whole. *)
Definition decode_block (sel : list Z) (d : DCtx) (out : list Z) (sp : nat) : result Failed Turn :=
  let target := length sel in
  '(data_len, d) ←
    (if fi_block_checksum (info d) then
       let data_len := target - 4 in
       let d := set_tmp_in_target data_len d in
       read ← or_panic (u32_at sel data_len);
       if negb (read =? xxh_oneshot (take data_len sel))%Z then Err (Error BlockChecksumInvalid) else Ok (data_len, d)
     else Ok (target, d));
  o ← match decompress (take data_len sel) (hist d) (max_block_size d) [] with
      | Ok o => Ok o
      | Err Malformed => Err (Error DecompressionFailed)
      | Err Panicked => Err Panics
      end;
  let d := set_tmp_out o d in
  let d := if fi_content_checksum (info d) && negb (skip_checksum d) then set_xxh (xxh_write (xxh d) o) d else d in
  let d := if (fi_content_size (info d) =? 0)%Z then d
           else set_frame_remaining (u64 (frame_remaining d - Z.of_nat (length o))) d in
  Ok (Go (set_stage FlushOut (set_tmp_out_start 0 d)) out sp).

Definition get_cblock (d : DCtx) (out : list Z) (sp : nat) : result Failed Turn :=
  if src_end - sp <? tmp_in_target d then Ok (Go (set_stage StoreCBlock (set_tmp_in_size 0 d)) out sp)
  else
    sel ← or_panic (get_slice sp (sp + tmp_in_target d) src); decode_block sel d out (sp + tmp_in_target d).

Definition store_cblock (d : DCtx) (out : list Z) (sp : nat) : result Failed Turn :=
  let n := wanted (tmp_in_target d) (tmp_in_size d) src_end sp in
  t ← or_panic (copy_at (tmp_in_size d) (slice sp (sp + n) src) (tmp_in d));
  let d := set_tmp_in_size (tmp_in_size d + n) (set_tmp_in t d) in
  let sp := sp + n in
  if tmp_in_size d <? tmp_in_target d then
    Ok (Stop d out sp (tmp_in_target d - tmp_in_size d + (if fi_block_checksum (info d) then BF_SIZE else 0) + BH_SIZE))
  else sel ← or_panic (get_slice 0 (tmp_in_target d) (tmp_in d)); decode_block sel d out sp.

Definition flush_out (d : DCtx) (out : list Z) (sp : nat) : result Failed Turn :=
  let n := (length (tmp_out d) - tmp_out_start d) `min` room out in
  let s := tmp_out_start d in
  let piece := slice s (s + n) (tmp_out d) in
  let out := out ++ piece in
  let d := if fi_linked (info d) then update_dict piece d else d in
  let d := set_tmp_out_start (s + n) d in
  if tmp_out_start d =? length (tmp_out d) then Ok (Go (set_stage GetBlockHeader d) out sp)
  else Ok (Stop d out sp BH_SIZE).

Definition check_content (read_crc : Z) (d : DCtx) (out : list Z) (sp : nat) : result Failed Turn :=
  if negb (skip_checksum d) && negb (read_crc =? xxh_finish (xxh d))%Z then Err (Error ContentChecksumInvalid)
  else Ok (Stop (reset d) out sp 0).

Definition get_suffix (d : DCtx) (out : list Z) (sp : nat) : result Failed Turn :=
  if negb (frame_remaining d =? 0)%Z then Err (Error FrameSizeWrong)
  else if negb (fi_content_checksum (info d)) then Ok (Stop (reset d) out sp 0)
  else if src_end - sp <? 4 then Ok (Go (set_stage StoreSuffix (set_tmp_in_size 0 d)) out sp)
  else crc ← or_panic (u32_at src sp); check_content crc d out (sp + 4).

Definition store_suffix (d : DCtx) (out : list Z) (sp : nat) : result Failed Turn :=
  let n := wanted 4 (tmp_in_size d) src_end sp in
  t ← or_panic (copy_at (tmp_in_size d) (slice sp (sp + n) src) (tmp_in d));
  let d := set_tmp_in_size (tmp_in_size d + n) (set_tmp_in t d) in
  let sp := sp + n in
  if tmp_in_size d <? 4 then Ok (Stop d out sp (4 - tmp_in_size d))
  else crc ← or_panic (u32_at (tmp_in d) 0); check_content crc d out sp.

Definition take_skippable_size (d : DCtx) (out : list Z) (sp : nat) : result Failed Turn :=
  size ← or_panic (u32_at (header d) 4);
  let i := info d in
  let d := set_info (mk_info (fi_linked i) (fi_block_checksum i) (fi_content_checksum i) (fi_block_size_id i) size (fi_skippable i)) d in
  Ok (Go (set_stage SkipSkippable (set_tmp_in_target (Z.to_nat size) d)) out sp).

Definition store_skippable_size (d : DCtx) (out : list Z) (sp : nat) : result Failed Turn :=
  let n := wanted (tmp_in_target d) (tmp_in_size d) src_end sp in
  h ← or_panic (copy_at (tmp_in_size d) (slice sp (sp + n) src) (header d));
  let d := set_tmp_in_size (tmp_in_size d + n) (set_header h d) in
  let sp := sp + n in
  if tmp_in_size d <? tmp_in_target d then Ok (Stop d out sp (tmp_in_target d - tmp_in_size d))
  else take_skippable_size d out sp.

Definition get_skippable_size (d : DCtx) (out : list Z) (sp : nat) : result Failed Turn :=
  if 4 <=? src_end - sp then
    h ← or_panic (copy_at 4 (slice sp (sp + 4) src) (header d));
    take_skippable_size (set_tmp_in_target 8 (set_tmp_in_size 8 (set_header h d))) out (sp + 4)
  else
    store_skippable_size (set_stage StoreSFrameSize (set_tmp_in_target 8 (set_tmp_in_size 4 d))) out sp.

Definition skip_skippable (d : DCtx) (out : list Z) (sp : nat) : result Failed Turn :=
  let n := tmp_in_target d `min` (src_end - sp) in
  let d := set_tmp_in_target (tmp_in_target d - n) d in
  let hint := tmp_in_target d in
  Ok (Stop (if hint =? 0 then reset d else d) out (sp + n) hint).

Definition turn (d : DCtx) (out : list Z) (sp : nat) : result Failed Turn :=
  match stage d with
  | GetFrameHeader => get_frame_header d out sp
  | StoreFrameHeader => store_frame_header d out sp
  | Init => start_blocks d out sp
  | GetBlockHeader => block_header true d out sp
  | StoreBlockHeader => block_header false d out sp
  | CopyDirect => copy_direct d out sp
  | GetBlockChecksum => get_block_checksum d out sp
  | GetCBlock => get_cblock d out sp
  | StoreCBlock => store_cblock d out sp
  | FlushOut => flush_out d out sp
  | GetSuffix => get_suffix d out sp
  | StoreSuffix => store_suffix d out sp
  | GetSFrameSize => get_skippable_size d out sp
  | StoreSFrameSize => store_skippable_size d out sp
  | SkipSkippable => skip_skippable d out sp
  end.

(** The loop.  A turn takes a byte or goes on to a stage from which the next ones do
    ([machine_ends]). *)
Fixpoint machine (fuel : nat) (d : DCtx) (out : list Z) (sp : nat) : result Failed (DCtx * list Z * nat * nat) :=
  match fuel with
  | O => Err Panics
  | S fuel =>
      t ← turn d out sp;
      match t with
      | Go d out sp => machine fuel d out sp
      | Stop d out sp hint => Ok (d, out, sp, hint)
      end
  end.
End machine.

Definition before_blocks (s : Stage) : bool :=
  match s with GetFrameHeader | StoreFrameHeader | Init => true | _ => false end.

(** [decompress]: the state, what is appended to the output, the bytes consumed, the hint. *)
Definition decode (d : DCtx) (dst_cap : nat) (src : list Z) (skip_checksums : bool) :
    result Failed (DCtx * list Z * nat * nat) :=
  let d := if before_blocks (stage d) then set_hist (ddict d) d else d in
  let d := set_skip_checksum (skip_checksum d || skip_checksums) d in
  machine dst_cap src (S (10 * length src + 10)) d [] 0.

(** [header_size], [frame_info] *)
Definition header_size (src : list Z) : result Failed nat :=
  if length src <? 5 then Err (Error FrameHeaderIncomplete)
  else
    magic ← or_panic (u32_at src 0);
    if (Z.land magic SKIPPABLE_MASK =? SKIPPABLE0)%Z then Ok 8
    else if negb (magic =? MAGIC)%Z then Err (Error FrameTypeUnknown)
    else flg ← or_panic (src !! 4); Ok (full_header_size flg).

Definition frame_info (hdr : list Z) : result Failed FrameInfo :=
  h ← header_size hdr;
  if length hdr <? h then Err (Error FrameHeaderIncomplete)
  else '(_, d) ← decode_header (take h hdr) false (new_dctx []); Ok (info d).

(** ** Compression *)

(** The levels of hc.rs start here. *)
Definition CLEVEL_MIN : Z := 2.

Record Prefs := mk_prefs {
  pf_level : Z;
  pf_block_size_id : Z;
  pf_linked : bool;
  pf_block_checksum : bool;
  pf_content_checksum : bool;
  pf_content_size : Z;
}.

(** A digested dictionary, for the fast compressor. *)
Record CDict := mk_cdict { cd_fast : FastStream }.
Definition new_cdict (dict : list Z) : option CDict := s ← load_dict_slow (last_64k dict); Some (mk_cdict s).

Inductive CtxType : Type := CNone | CFast | CHc.
Definition ctx_rank (t : CtxType) : Z := match t with CNone => 0 | CFast => 1 | CHc => 2 end.

Record CCtx := mk_cctx {
  cc_alloc : CtxType;
  cc_type : CtxType;
  cc_fast : FastStream;
  cc_prefs : Prefs;
  cc_max_block_size : nat;
  cc_cdict : option CDict;
  cc_xxh : xstate;
  cc_total_in : Z;
}.

Definition default_prefs : Prefs := mk_prefs 0 4 false false false 0.
Definition default_cctx : CCtx :=
  mk_cctx CNone CNone init default_prefs (Z.to_nat (Z.shiftl 64 10)) None xxh_new 0.

Definition set_fast (f : FastStream) (c : CCtx) : CCtx :=
  mk_cctx (cc_alloc c) (cc_type c) f (cc_prefs c) (cc_max_block_size c) (cc_cdict c) (cc_xxh c) (cc_total_in c).

(** [init_stream] for linked blocks, [init_stream_independent] for a block of its own: with the fast
    compressor a reset, and the dictionary attached. *)
Definition ready (f : FastStream) (dict : option CDict) : FastStream :=
  match dict with
  | Some c => attach_dictionary (Some (cd_fast c)) (reset_fast f)
  | None => reset_fast f
  end.
Definition init_stream (c : CCtx) : CCtx :=
  if (pf_level (cc_prefs c) <? CLEVEL_MIN)%Z && (bool_decide (is_Some (cc_cdict c)) || pf_linked (cc_prefs c))
  then set_fast (ready (cc_fast c) (cc_cdict c)) c else c.
Definition init_stream_independent (c : CCtx) : CCtx :=
  if (pf_level (cc_prefs c) <? CLEVEL_MIN)%Z && bool_decide (is_Some (cc_cdict c))
  then set_fast (ready (cc_fast c) (cc_cdict c)) c else c.

Definition flag (b : bool) (k : Z) : Z := if b then Z.shiftl 1 k else 0.

(** The header's fields, without the magic number and the check byte. *)
Definition header_fields (p : Prefs) : list Z :=
  [Z.lor (Z.lor (Z.lor (Z.lor (Z.shiftl 1 6) (flag (negb (pf_linked p)) 5)) (flag (pf_block_checksum p) 4))
     (flag (0 <? pf_content_size p)%Z 3)) (flag (pf_content_checksum p) 2);
   u8 (Z.shiftl (Z.land (pf_block_size_id p) 7) 4)] ++
  (if (pf_content_size p =? 0)%Z then [] else le_bytes 8 (pf_content_size p)).

(** [begin]: the frame's header after [out]. *)
Definition begin_frame (prefs : Prefs) (cdict : option CDict) (out : list Z) (c : CCtx) : option (list Z * CCtx) :=
  let required := if (pf_level prefs <? CLEVEL_MIN)%Z then CFast else CHc in
  let '(alloc, type, fast) :=
    if (ctx_rank (cc_alloc c) <? ctx_rank required)%Z then
      (required, required, match required with CFast => init | _ => cc_fast c end)
    else if negb (ctx_rank (cc_type c) =? ctx_rank required)%Z then
      (cc_alloc c, required, match required with CFast => init | _ => cc_fast c end)
    else (cc_alloc c, cc_type c, cc_fast c) in
  size ← block_size (pf_block_size_id prefs);
  let total := if (pf_content_size prefs =? 0)%Z then cc_total_in c else 0%Z in
  let c := mk_cctx alloc type fast prefs size cdict xxh_new total in
  let c := if pf_linked prefs then init_stream c else c in
  let fields := header_fields prefs in
  Some (out ++ le_bytes 4 MAGIC ++ fields ++ [header_checksum fields], c).

(** [compress_block], for the levels below hc.rs'. *)
Definition compress_block (src out : list Z) (cap : Z) (c : CCtx) : option (nat * list Z * CCtx) :=
  let level := pf_level (cc_prefs c) in
  if (level <? CLEVEL_MIN)%Z then
    let accel := if (level <? 0)%Z then (- level + 1)%Z else 1%Z in
    if negb (pf_linked (cc_prefs c)) then
      if bool_decide (is_Some (cc_cdict c)) then
        let c := init_stream_independent c in
        '(r, out, f) ← compress_continue (cc_fast c) src out cap accel; Some (r, out, set_fast f c)
      else '(r, out, f) ← compress_fast_reset (cc_fast c) src out cap accel; Some (r, out, set_fast f c)
    else '(r, out, f) ← compress_continue (cc_fast c) src out cap accel; Some (r, out, set_fast f c)
  else None.

(** [make_block]: compressed, or stored when that is not smaller. *)
Definition make_block (src out : list Z) (c : CCtx) : option (list Z * CCtx) :=
  let at_ := length out in
  let out := out ++ replicate 4 0%Z in
  '(c_size, out, c) ← compress_block src out (Z.of_nat (length src) - 1) c;
  let '(c_size, out) :=
    if (c_size =? 0) || (length src <=? c_size) then
      (length src, patch at_ (le_bytes 4 (Z.lor (u32 (Z.of_nat (length src))) UNCOMPRESSED_FLAG)) (take (at_ + 4) out ++ src))
    else (c_size, patch at_ (le_bytes 4 (u32 (Z.of_nat c_size))) out) in
  if pf_block_checksum (cc_prefs c) then
    block ← get_slice (at_ + 4) (at_ + 4 + c_size) out; Some (out ++ le_bytes 4 (xxh_oneshot block), c)
  else Some (out, c).

(** The blocks of [update]: whole ones, then what is left. *)
Fixpoint make_blocks (fuel : nat) (src out : list Z) (c : CCtx) : option (list Z * CCtx) :=
  match fuel with
  | O => None
  | S fuel =>
      let bs := cc_max_block_size c in
      if bs <=? length src then
        '(out, c) ← make_block (take bs src) out c; make_blocks fuel (drop bs src) out c
      else if bool_decide (src = []) then Some (out, c)
      else make_block src out c
  end.

(** [update]: [stable] when the source stays where it is. *)
Definition update (src out : list Z) (stable : bool) (c : CCtx) : option (list Z * CCtx) :=
  '(out, c) ← make_blocks (S (length src)) src out c;
  let fast := if pf_linked (cc_prefs c) && bool_decide (src ≠ []) && negb stable && (pf_level (cc_prefs c) <? CLEVEL_MIN)%Z
              then save_dict 65536 (cc_fast c) else cc_fast c in
  let xxh := if pf_content_checksum (cc_prefs c) then xxh_write (cc_xxh c) src else cc_xxh c in
  Some (out, mk_cctx (cc_alloc c) (cc_type c) fast (cc_prefs c) (cc_max_block_size c) (cc_cdict c) xxh
               (u64 (cc_total_in c + Z.of_nat (length src)))).

(** [end]: the end mark and the content's checksum; an error when the content has another size than
    announced. *)
Definition end_frame (out : list Z) (c : CCtx) : result FrameError unit * list Z :=
  let out := out ++ replicate 4 0%Z in
  let out := if pf_content_checksum (cc_prefs c) then out ++ le_bytes 4 (xxh_finish (cc_xxh c)) else out in
  if negb (pf_content_size (cc_prefs c) =? 0)%Z && negb (pf_content_size (cc_prefs c) =? cc_total_in c)%Z
  then (Err FrameSizeWrong, out) else (Ok tt, out).

(** [optimal_bsid]: the smallest block size that holds the source.  There are four. *)
Fixpoint optimal_bsid_loop (fuel : nat) (requested : Z) (size proposed max : Z) : Z :=
  match fuel with
  | O => requested
  | S fuel =>
      if (proposed <? requested)%Z then
        if (size <=? max)%Z then proposed else optimal_bsid_loop fuel requested size (proposed + 1) (Z.shiftl max 2)
      else requested
  end.
Definition optimal_bsid (requested size : Z) : Z := optimal_bsid_loop 8 requested size 4 (Z.shiftl 64 10).

(** [compress_frame]: a whole frame in one pass. *)
Definition compress_frame (src : list Z) (prefs : Prefs) (cdict : option CDict) (out : list Z) (c : CCtx) :
    option (result FrameError unit * list Z * CCtx) :=
  let n := Z.of_nat (length src) in
  let bsid := optimal_bsid (pf_block_size_id prefs) n in
  size ← block_size bsid;
  let p := mk_prefs (pf_level prefs) bsid (if length src <=? size then false else pf_linked prefs)
             (pf_block_checksum prefs) (pf_content_checksum prefs)
             (if (pf_content_size prefs =? 0)%Z then 0%Z else n) in
  '(out, c) ← begin_frame p cdict out c;
  '(out, c) ← update src out true c;
  let '(r, out) := end_frame out c in Some (r, out, c).
End frame.
