(* ===== verification/Lz4FrameProofs.v ===== *)
(** * LZ4 frames: what is written is read back, in whatever pieces

    The frame as blocks, what the encoder of [Lz4Frame] makes of a source, and what each turn of the
    decoder's machine does with it. *)
From S2P Require Import Prelude Lz4Block Lz4Fast Lz4Frame.

Local Open Scope nat_scope.

Local Arguments Nat.leb : simpl never.
Local Arguments Nat.ltb : simpl never.
Local Arguments Nat.eqb : simpl never.
Local Arguments Nat.sub : simpl never.
Local Arguments Nat.min : simpl never.

(** Past what has returned. *)
Local Ltac past := cbv beta iota delta [mbind option_bind result_bind ok_or or_panic].

(** ** The head of a block *)

Lemma head_length n : (0 <= n < 2147483648)%Z →
  Z.land n 0x7FFFFFFF = n ∧ Z.land n UNCOMPRESSED_FLAG = 0%Z ∧
  Z.land (Z.lor n UNCOMPRESSED_FLAG) 0x7FFFFFFF = n ∧ Z.land (Z.lor n UNCOMPRESSED_FLAG) UNCOMPRESSED_FLAG ≠ 0%Z ∧
  (0 < Z.lor n UNCOMPRESSED_FLAG < 4294967296)%Z.
Proof.
  intros Hn. change 0x7FFFFFFF%Z with (Z.ones 31). unfold UNCOMPRESSED_FLAG.
  assert (Z.lor n 0x80000000 = 0x80000000 + n)%Z as El.
  { rewrite Z.lor_comm. change 0x80000000%Z with (1 * 2 ^ 31)%Z. rewrite lor_above by lia. done. }
  assert (Z.testbit (Z.lor n 0x80000000) 31 = true) as Hbit by (rewrite Z.lor_spec; by rewrite orb_true_r).
  split_and!.
  - rewrite Z.land_ones by lia. apply Z.mod_small. done.
  - apply Z.bits_inj'. intros k Hk. rewrite Z.land_spec, Z.bits_0. change 0x80000000%Z with (2 ^ 31)%Z.
    rewrite Z.pow2_bits_eqb by lia. destruct (Z.eqb_spec 31 k) as [<-|]; [|by rewrite andb_false_r].
    destruct (decide (n = 0%Z)) as [->|]; [done|]. rewrite (Z.bits_above_log2 n 31); [done|lia|]. apply Z.log2_lt_pow2; lia.
  - rewrite El, Z.land_ones by lia. change (2 ^ 31)%Z with 0x80000000%Z. rewrite Z.add_comm.
    rewrite <-(Z.mul_1_l 0x80000000) at 1. rewrite Z_mod_plus_full. apply Z.mod_small. done.
  - intros E. apply (f_equal (λ x, Z.testbit x 31)) in E. rewrite Z.land_spec, Hbit in E. done.
  - lia.
  - lia.
Qed.

Lemma le_bytes4_inj a b x y :
  le_bytes 4 a ++ x = le_bytes 4 b ++ y → (0 <= a < 4294967296)%Z → (0 <= b < 4294967296)%Z → a = b ∧ x = y.
Proof.
  intros E Ha Hb. apply app_inj_1 in E as [E ->]; [|by rewrite !length_le_bytes]. split; [|done].
  rewrite <-(le_val_small 4 a), <-(le_val_small 4 b), E by (change (256 ^ Z.of_nat 4)%Z with 4294967296%Z; lia). done.
Qed.

(** ** History *)

Lemma last_64k_app a o : last_64k (last_64k a ++ o) = last_64k (a ++ o).
Proof.
  unfold last_64k. set (k := Z.to_nat 65536). clearbody k. rewrite !length_app, length_drop.
  destruct (Nat.le_gt_cases (length a) k).
  - replace (length a - k) with 0 by lia. rewrite drop_0. f_equal. lia.
  - assert (a ++ o = take (length a - k) a ++ (drop (length a - k) a ++ o)) as -> by by rewrite app_assoc, take_drop.
    rewrite (drop_app_ge (take (length a - k) a)) by (rewrite length_take; lia). f_equal. rewrite length_take. lia.
Qed.
Lemma last_64k_idem a : last_64k (last_64k a) = last_64k a.
Proof. pose proof (last_64k_app a []) as E. by rewrite !app_nil_r in E. Qed.

Lemma decompress_hist src h h' cap out : last_64k h = last_64k h' → decompress src h cap out = decompress src h' cap out.
Proof. intros E. unfold decompress. by rewrite E. Qed.

Section proofs.
Context `{XL : XxhLaws}.

(** ** Frames as blocks *)

Inductive Block : Type :=
  | Stored (data : list Z)
  | Packed (bytes data : list Z).

Definition block_data (b : Block) : list Z := match b with Stored data | Packed _ data => data end.
Definition payload (b : Block) : list Z := match b with Stored data => data | Packed bytes _ => bytes end.
Definition block_head (b : Block) : Z :=
  match b with
  | Stored data => Z.lor (Z.of_nat (length data)) UNCOMPRESSED_FLAG
  | Packed bytes _ => Z.of_nat (length bytes)
  end.

Section format.
(* What the header announces, the dictionary, and what comes after the frame. *)
Context (i : FrameInfo) (M : nat) (D : list Z) (more : list Z).

Definition block_bytes (b : Block) : list Z :=
  le_bytes 4 (block_head b) ++ payload b ++
  (if fi_block_checksum i then le_bytes 4 (xxh_oneshot (payload b)) else []).

Definition content (blocks : list Block) : list Z := mjoin (block_data <$> blocks).

(** The blocks, the end mark, the checksum of the whole content, and what follows. *)
Definition suffix_bytes (whole : list Z) : list Z :=
  (if fi_content_checksum i then le_bytes 4 (xxh_oneshot whole) else []) ++ more.
Definition blocks_bytes (blocks : list Block) (whole : list Z) : list Z :=
  mjoin (block_bytes <$> blocks) ++ le_bytes 4 0 ++ suffix_bytes whole.

(** What a block's matches may refer to, after [done] has been decoded. *)
Definition history (done : list Z) : list Z := if fi_linked i then D ++ done else D.

Fixpoint blocks_ok (done : list Z) (blocks : list Block) : Prop :=
  match blocks with
  | [] => True
  | b :: blocks =>
      length (payload b) ≤ M ∧
      match b with
      | Stored _ => True
      | Packed bytes data => bytes ≠ [] ∧ decompress bytes (history done) M [] = Ok data
      end ∧ blocks_ok (done ++ block_data b) blocks
  end.
End format.

(** ** Where the decoder is in a frame *)

Section decoder.
Context (i : FrameInfo) (M : nat) (D : list Z) (more whole : list Z).
(* The frame's header and its blocks. *)
Context (hb : list Z) (blocks0 : list Block) (HM : (Z.of_nat M < 2147483648)%Z).
Context (Hlength : (Z.of_nat (length whole) < 18446744073709551616)%Z).

Notation tail blocks := (blocks_bytes i more blocks whole).
Notation history := (history i D).
Notation blocks_ok := (blocks_ok i M D).

Definition frame_bytes : list Z := hb ++ tail blocks0.

(** What reading the header whole leaves. *)
Definition parsed (d d' : DCtx) : Prop :=
  stage d' = Init ∧ info d' = i ∧ max_block_size d' = M ∧ ddict d' = ddict d ∧ header d' = header d ∧ hist d' = hist d ∧
  (frame_remaining d = 0 → frame_remaining d' = if (fi_content_size i =? 0)%Z then 0 else Z.of_nat (length whole))%Z.

(** The header is read where it is whole, and asked for where only its first bytes are there. *)
Record header_ok : Prop := {
  ho_size : HEADER_SIZE_MIN ≤ length hb < HEADER_SIZE_MAX;
  ho_whole : ∀ src from d, length hb ≤ length src → take (length hb) src = hb →
    ∃ d', decode_header src from d = Ok (length hb, d') ∧ parsed d d';
  ho_part : ∀ d, HEADER_SIZE_MIN < length hb →
    ∃ d', decode_header (take HEADER_SIZE_MIN hb) true d = Ok (HEADER_SIZE_MIN, d') ∧
      stage d' = StoreFrameHeader ∧ tmp_in_size d' = HEADER_SIZE_MIN ∧ tmp_in_target d' = length hb ∧
      ddict d' = ddict d ∧ header d' = header d ∧ hist d' = hist d ∧ frame_remaining d' = frame_remaining d;
}.
Context (Hheader : header_ok).

(** The history the decoder keeps is as good as all of it. *)
Definition keeps (h done : list Z) : Prop := last_64k h = last_64k (history done).

(** The part of the state that is the same throughout the blocks: [left] is how much of the content is
    still to be decoded. *)
Record in_frame (d : DCtx) (done : list Z) (left : nat) : Prop := {
  if_info : info d = i;
  if_max : max_block_size d = M;
  if_dict : ddict d = D;
  if_header : length (header d) = HEADER_SIZE_MAX;
  if_tmp : length (tmp_in d) = M + BF_SIZE;
  if_hist : keeps (hist d) done;
  if_size : frame_remaining d = if (fi_content_size i =? 0)%Z then 0%Z else Z.of_nat left;
}.

(** What has been hashed of the content, unless checksums are skipped. *)
Definition hashed (d : DCtx) (l : list Z) : Prop :=
  skip_checksum d = false → fi_content_checksum i = true → xxh d = xxh_write xxh_new l.
Definition block_hashed (d : DCtx) (l : list Z) : Prop :=
  skip_checksum d = false → fi_block_checksum i = true → block_xxh d = xxh_write xxh_new l.

Definition crc_of (b : list Z) : list Z := if fi_block_checksum i then le_bytes 4 (xxh_oneshot b) else [].

(** The bytes a store stage has, before those to come. *)
Definition stored_in (buf : list Z) (size target : nat) (rest all : list Z) : Prop :=
  size < target ∧ target ≤ length buf ∧ take size buf ++ rest = all.

(** A decoder that is between frames. *)
Record between (d : DCtx) : Prop := {
  bt_stage : stage d = GetFrameHeader;
  bt_dict : ddict d = D;
  bt_header : length (header d) = HEADER_SIZE_MAX;
  bt_left : frame_remaining d = 0%Z;
}.

(** What is still to come of the input is [rest], and of the content [todo]. *)
Definition stage_awaits (d : DCtx) (done rest todo : list Z) : Prop :=
  match stage d with
  | GetFrameHeader => between d ∧ hist d = D ∧ done = [] ∧ rest = frame_bytes
  | StoreFrameHeader =>
      between (set_stage GetFrameHeader d) ∧ hist d = D ∧ done = [] ∧
      (tmp_in_target d = HEADER_SIZE_MIN ∨ tmp_in_target d = length hb) ∧
      stored_in (header d) (tmp_in_size d) (tmp_in_target d) rest frame_bytes
  | Init =>
      info d = i ∧ max_block_size d = M ∧ ddict d = D ∧ length (header d) = HEADER_SIZE_MAX ∧ hist d = D ∧
      frame_remaining d = (if (fi_content_size i =? 0)%Z then 0%Z else Z.of_nat (length whole)) ∧
      done = [] ∧ rest = tail blocks0
  | GetBlockHeader =>
      ∃ blocks, in_frame d done (length todo) ∧ hashed d done ∧ blocks_ok done blocks ∧
        rest = tail blocks ∧ todo = content blocks
  | StoreBlockHeader =>
      ∃ blocks, in_frame d done (length todo) ∧ hashed d done ∧ blocks_ok done blocks ∧ todo = content blocks ∧
        stored_in (tmp_in d) (tmp_in_size d) BH_SIZE rest (tail blocks)
  | CopyDirect =>
      ∃ pre data blocks, in_frame d done (length todo) ∧ hashed d done ∧ block_hashed d pre ∧
        blocks_ok (done ++ data) blocks ∧ rest = data ++ crc_of (pre ++ data) ++ tail blocks ∧
        todo = data ++ content blocks ∧ tmp_in_target d = length data
  | GetBlockChecksum =>
      ∃ data blocks, in_frame d done (length todo) ∧ hashed d done ∧ block_hashed d data ∧ blocks_ok done blocks ∧
        todo = content blocks ∧ fi_block_checksum i = true ∧
        stored_in (header d) (tmp_in_size d) 4 rest (le_bytes 4 (xxh_oneshot data) ++ tail blocks)
  | GetCBlock =>
      ∃ bytes data blocks, in_frame d done (length todo) ∧ hashed d done ∧ blocks_ok done (Packed bytes data :: blocks) ∧
        rest = bytes ++ crc_of bytes ++ tail blocks ∧ todo = data ++ content blocks ∧
        tmp_in_target d = length (bytes ++ crc_of bytes)
  | StoreCBlock =>
      ∃ bytes data blocks, in_frame d done (length todo) ∧ hashed d done ∧ blocks_ok done (Packed bytes data :: blocks) ∧
        todo = data ++ content blocks ∧ tmp_in_target d = length (bytes ++ crc_of bytes) ∧
        stored_in (tmp_in d) (tmp_in_size d) (tmp_in_target d) rest (bytes ++ crc_of bytes ++ tail blocks)
  | FlushOut =>
      ∃ data blocks, in_frame d done (length (content blocks)) ∧ hashed d (done ++ data) ∧
        blocks_ok (done ++ data) blocks ∧ rest = tail blocks ∧ todo = data ++ content blocks ∧
        tmp_out_start d ≤ length (tmp_out d) ∧ drop (tmp_out_start d) (tmp_out d) = data
  | GetSuffix => in_frame d done 0 ∧ hashed d done ∧ rest = suffix_bytes i more whole ∧ todo = []
  | StoreSuffix =>
      in_frame d done 0 ∧ hashed d done ∧ todo = [] ∧ fi_content_checksum i = true ∧
      stored_in (tmp_in d) (tmp_in_size d) 4 rest (suffix_bytes i more whole)
  | _ => False
  end.

Definition awaits (d : DCtx) (done rest todo : list Z) : Prop :=
  done ++ todo = whole ∧ stage_awaits d done rest todo.

(** Stages from which others are reached without a byte taken. *)
Definition rank (s : Stage) : nat :=
  match s with
  | GetFrameHeader => 9 | StoreFrameHeader => 8 | Init => 7 | GetCBlock => 6 | StoreCBlock => 5
  | CopyDirect | FlushOut => 4 | GetBlockChecksum | GetSuffix => 3
  | GetBlockHeader | StoreBlockHeader | StoreSuffix => 2
  | GetSFrameSize => 8 | StoreSFrameSize => 7 | SkipSkippable => 1
  end.

(** What a turn comes to, the input read so far followed by [later]. *)
Section turns.
Context (cap : nat) (src later : list Z).

Definition goes (d : DCtx) (done out todo : list Z) (sp : nat) (r : result Failed Turn) : Prop :=
  ∃ d' out' sp' o todo', out' = out ++ o ∧ todo = o ++ todo' ∧ sp ≤ sp' ≤ length src ∧ length out' ≤ cap ∧
    ((r = Ok (Go d' out' sp') ∧ awaits d' (done ++ o) (drop sp' src ++ later) todo' ∧
      10 * (length src - sp') + rank (stage d') < 10 * (length src - sp) + rank (stage d)) ∨
     (∃ hint, r = Ok (Stop d' out' sp' hint) ∧ 0 < hint ∧ awaits d' (done ++ o) (drop sp' src ++ later) todo' ∧
      (sp' = length src ∨ length out' = cap)) ∨
     (r = Ok (Stop d' out' sp' 0) ∧ todo' = [] ∧ drop sp' src ++ later = more ∧ between d')).

Lemma goes_go d done out sp r d' o sp' todo' :
  r = Ok (Go d' (out ++ o) sp') → sp ≤ sp' ≤ length src → length (out ++ o) ≤ cap →
  awaits d' (done ++ o) (drop sp' src ++ later) todo' →
  10 * (length src - sp') + rank (stage d') < 10 * (length src - sp) + rank (stage d) →
  goes d done out (o ++ todo') sp r.
Proof. intros -> Hsp Hl Ha Hr. exists d', (out ++ o), sp', o, todo'. split_and!; try done; try lia. by left. Qed.

(** A turn that only reads. *)
Lemma goes_on d done out sp r d' sp' todo :
  r = Ok (Go d' out sp') → sp ≤ sp' ≤ length src → length out ≤ cap →
  awaits d' done (drop sp' src ++ later) todo →
  10 * (length src - sp') + rank (stage d') < 10 * (length src - sp) + rank (stage d) →
  goes d done out todo sp r.
Proof.
  intros -> Hsp Hl Ha Hr. exists d', out, sp', [], todo. rewrite !app_nil_r. split_and!; try done; try lia. by left.
Qed.

Lemma goes_stop d done out sp r d' sp' todo hint :
  r = Ok (Stop d' out sp' hint) → sp ≤ sp' ≤ length src → length out ≤ cap → 0 < hint →
  awaits d' done (drop sp' src ++ later) todo → sp' = length src ∨ length out = cap →
  goes d done out todo sp r.
Proof.
  intros -> Hsp Hl Hh Ha Hend. exists d', out, sp', [], todo. rewrite !app_nil_r. split_and!; try done; try lia.
  right. left. by exists hint.
Qed.

(** Bytes that are there whole. *)
Lemma ahead_whole sp j k :
  sp ≤ length src → drop sp src ++ later = j ++ k → length j ≤ length src - sp →
  get_slice sp (sp + length j) src = Some j ∧ slice sp (sp + length j) src = j ∧ drop (sp + length j) src ++ later = k.
Proof.
  intros Hsp E Hj. assert (drop sp src = j ++ drop (sp + length j) src) as Ed.
  { rewrite <-drop_drop. rewrite <-(take_drop (length j) (drop sp src)) at 1. f_equal.
    apply (f_equal (take (length j))) in E. rewrite take_app_length, take_app_le in E; [done|]. rewrite length_drop. lia. }
  pose proof (slice_of_drop _ _ _ _ Hsp Ed) as Hs. split; [done|]. split.
  - unfold get_slice in Hs. case_bool_decide; [|done]. by injection Hs.
  - rewrite Ed, <-app_assoc in E. by apply app_inv_head in E.
Qed.

Lemma ahead_u32 sp v k :
  sp ≤ length src → drop sp src ++ later = le_bytes 4 v ++ k → 4 ≤ length src - sp → (0 <= v < 4294967296)%Z →
  u32_at src sp = Some v ∧ drop (sp + 4) src ++ later = k.
Proof.
  intros Hsp E H4 Hv. destruct (ahead_whole sp (le_bytes 4 v) k) as (Hs & _ & Hd); [done|done|by rewrite length_le_bytes|].
  rewrite length_le_bytes in Hs, Hd. unfold u32_at. rewrite Hs. simpl. split; [|done]. f_equal. by apply le_val_small.
Qed.

(** A store stage takes what there is of what it wants. *)
Lemma store_step buf size target sp all :
  stored_in buf size target (drop sp src ++ later) all → sp ≤ length src →
  let n := wanted target size (length src) sp in
  ∃ buf', copy_at size (slice sp (sp + n) src) buf = Some buf' ∧ length buf' = length buf ∧ sp + n ≤ length src ∧
    take (size + n) buf' ++ drop (sp + n) src ++ later = all ∧
    ((size + n = target ∧ (sp < sp + n)) ∨ (size + n < target ∧ sp + n = length src)).
Proof.
  intros (Hs & Ht & E) Hsp n. unfold wanted in n.
  assert (sp + n ≤ length src ∧ size + n ≤ target) as [Hn Hn'] by (unfold n; lia).
  assert (length (slice sp (sp + n) src) = n) as Hl by (rewrite length_slice by done; lia).
  exists (patch size (slice sp (sp + n) src) buf). unfold copy_at. rewrite (proj2 (Nat.leb_le _ _)) by lia.
  split; [done|]. rewrite length_patch by lia. split_and!; [done|done| |unfold n; lia].
  rewrite <-E. unfold patch. rewrite Hl, (app_assoc (take size buf)), take_app_le by (rewrite length_app, length_take; lia).
  rewrite firstn_all2 by (rewrite length_app, length_take; lia). rewrite <-!app_assoc. f_equal.
  by rewrite app_assoc, <-drop_cut by lia.
Qed.

Lemma stored_u32 buf v k rest :
  take 4 buf ++ rest = le_bytes 4 v ++ k → 4 ≤ length buf → (0 <= v < 4294967296)%Z →
  u32_at buf 0 = Some v ∧ rest = k.
Proof.
  intros E Hl Hv. apply app_inj_1 in E as [E ->]; [|rewrite length_take, length_le_bytes; lia].
  split; [|done]. unfold u32_at, get_slice, slice. rewrite bool_decide_eq_true_2 by lia. rewrite drop_0, Nat.sub_0_r. simpl plus.
  rewrite E. simpl. f_equal. by apply le_val_small.
Qed.

(** After the four bytes that head a block, or the end mark. *)
Lemma block_start d d1 done out sp sp1 bh blocks :
  in_frame d1 done (length (content blocks)) → hashed d1 done → blocks_ok done blocks → done ++ content blocks = whole →
  le_bytes 4 bh ++ drop sp1 src ++ later = tail blocks → (0 <= bh < 4294967296)%Z →
  sp < sp1 ≤ length src → length out ≤ cap →
  goes d done out (content blocks) sp (take_block_header cap src bh d1 out sp1).
Proof.
  intros Hf Hh Hok Hwhole E Hbh Hsp Hout. pose proof Hf as [Hi Hmax _ _ _ _ _].
  assert (∀ st, rank st ≤ 9) as Hrank by (intros []; simpl; lia).
  assert (∀ st, 10 * (length src - sp1) + rank st < 10 * (length src - sp) + rank (stage d)) as Hless.
  { intros st. pose proof (Hrank st). lia. }
  unfold take_block_header. destruct blocks as [|b blocks].
  - unfold blocks_bytes in E. simpl in E. apply le_bytes4_inj in E as [-> E]; [|done|lia]. simpl.
    eapply goes_on; [done|lia|done| |apply Hless]. split; [by rewrite app_nil_r in *|].
    simpl. rewrite E. by destruct Hf.
  - destruct Hok as (Hlen & Hb & Hok). unfold blocks_bytes in E. rewrite fmap_cons, mjoin_cons in E.
    unfold block_bytes at 1 in E. rewrite <-!app_assoc in E.
    destruct (head_length (Z.of_nat (length (payload b)))) as (Hland & Hflag & Hland' & Hflag' & Hpos); [lia|].
    apply le_bytes4_inj in E as [-> E]; [|done|destruct b; simpl in *; lia].
    fold (blocks_bytes i more blocks whole) in E. rewrite Hi, Hmax.
    assert (content (b :: blocks) = block_data b ++ content blocks) as Ec by done.
    destruct b as [data|bytes data]; simpl block_head; simpl payload in *; simpl block_data in *.
    + rewrite (proj2 (Z.eqb_neq _ _)) by lia. rewrite Hland', Nat2Z.id. rewrite (proj2 (Nat.ltb_ge _ _)) by done.
      rewrite (proj2 (Z.eqb_neq _ _)) by done. simpl negb. cbv iota.
      change (info (set_tmp_in_target (length data) d1)) with (info d1). rewrite Hi.
      eapply goes_on; [done|lia|done| |apply Hless]. split; [done|].
      assert (data ++ crc_of data ++ tail blocks = drop sp1 src ++ later) as E' by by rewrite E.
      destruct (fi_block_checksum i) eqn:Hbc.
      all: exists [], data, blocks; rewrite Ec in *; split_and!; try done; try (by destruct Hf).
      * intros _ _. by rewrite xxh_write_nil.
      * intros _ Hx. congruence.
    + destruct Hb as [Hne Hdec].
      rewrite (proj2 (Z.eqb_neq _ _)) by (destruct bytes; [done|simpl; lia]). rewrite Hland, Nat2Z.id.
      rewrite (proj2 (Nat.ltb_ge _ _)) by done. rewrite Hflag. simpl negb. cbv iota.
      assert (awaits (set_stage GetCBlock (set_tmp_in_target (length bytes + (if fi_block_checksum i then BF_SIZE else 0)) d1))
        done (drop sp1 src ++ later) (content (Packed bytes data :: blocks))) as Ha.
      { split; [done|]. exists bytes, data, blocks. split_and!; try done; try (by destruct Hf).
        simpl. rewrite length_app. unfold crc_of. destruct (fi_block_checksum i); [by rewrite length_le_bytes|done]. }
      destruct (_ || _) eqn:Hstop.
      * eapply goes_stop; [done|lia|done|unfold BH_SIZE; lia|exact Ha|].
        apply orb_prop in Hstop as [Hr%Nat.eqb_eq|Hr%Nat.eqb_eq]; [right; unfold room in Hr; lia|by left].
      * eapply goes_on; [done|lia|done|exact Ha|apply Hless].
Qed.

Lemma get_frame_header_goes d done out sp todo :
  awaits d done (drop sp src ++ later) todo → stage d = GetFrameHeader → sp ≤ length src → length out ≤ cap →
  goes d done out todo sp (get_frame_header src d out sp).
Proof.
  intros [Hwhole Ha] Hst Hsp Hout. unfold stage_awaits in Ha. rewrite Hst in Ha. destruct Ha as ([_ Hd Hh Hl] & Hhist & -> & E).
  unfold get_frame_header. destruct Hheader as [[Hlo Hhi] Hwh _].
  unfold frame_bytes in E. destruct (Nat.leb_spec HEADER_SIZE_MAX (length src - sp)).
  - destruct (ahead_whole sp hb _ Hsp E) as (_ & Hs & Hrest); [lia|].
    destruct (Hwh (drop sp src) false d) as (d' & -> & Hp); [rewrite length_drop; lia| |].
    { rewrite <-Hs at 2. unfold slice. f_equal. lia. }
    past. destruct Hp as (Es & Ei & Em & Ed & Eh & Ehist & Er).
    eapply goes_on; [done|lia|done| |rewrite Es, Hst; simpl; unfold HEADER_SIZE_MIN in *; lia].
    split; [done|]. unfold stage_awaits. rewrite Es. split_and!; try done; try congruence. by apply Er.
  - destruct (Nat.eqb_spec (length src - sp) 0).
    + eapply goes_stop; [done|lia|done|unfold HEADER_SIZE_MIN; lia| |left; lia].
      split; [done|]. unfold stage_awaits. simpl. rewrite Hst. by split_and!.
    + eapply goes_on; [done|lia|done| |simpl; rewrite Hst; simpl; lia].
      split; [done|]. simpl. split_and!; try done; [by left|]. unfold stored_in. simpl.
      split_and!; [unfold HEADER_SIZE_MIN; lia|rewrite Hh; unfold HEADER_SIZE_MIN, HEADER_SIZE_MAX; lia|done].
Qed.

Lemma store_frame_header_goes d done out sp todo :
  awaits d done (drop sp src ++ later) todo → stage d = StoreFrameHeader → sp ≤ length src → length out ≤ cap →
  goes d done out todo sp (store_frame_header src d out sp).
Proof.
  intros [Hwhole Ha] Hst Hsp Hout. unfold stage_awaits in Ha. rewrite Hst in Ha.
  destruct Ha as ([_ Hd Hh Hl] & Hhist & -> & Htarget & Hin). simpl in Hd, Hh, Hl.
  pose proof Hheader as [[Hlo Hhi] Hwh Hpart]. unfold store_frame_header.
  assert (tmp_in_target d ≤ length hb) as Hle by (destruct Htarget as [-> | ->]; lia).
  destruct (store_step _ _ _ _ _ Hin Hsp) as (buf & -> & Hbuf & Hn & E & Hcase). past.
  set (n := wanted (tmp_in_target d) (tmp_in_size d) (length src) sp) in *. simpl tmp_in_size. simpl tmp_in_target. simpl header.
  destruct Hcase as [[En Hpos]|[En Hend]].
  - rewrite (proj2 (Nat.ltb_ge _ _)) by lia. rewrite En in E.
    unfold get_slice. rewrite bool_decide_eq_true_2 by (unfold HEADER_SIZE_MAX in *; lia). past.
    unfold slice. rewrite drop_0, Nat.sub_0_r.
    assert (take (tmp_in_target d) buf = take (tmp_in_target d) hb) as Ek.
    { apply (f_equal (take (tmp_in_target d))) in E. unfold frame_bytes in E.
      rewrite !take_app_le in E by (rewrite ?length_take; unfold HEADER_SIZE_MAX in *; lia).
      by rewrite firstn_all2 in E by (rewrite length_take; lia). }
    destruct (decide (tmp_in_target d = length hb)) as [Et|Hne].
    + rewrite Ek, Et, firstn_all.
      match goal with |- context [decode_header hb true ?d1] => destruct (Hwh hb true d1) as (d' & -> & Hp) end;
        [done|by rewrite firstn_all|].
      past. destruct Hp as (Es & Ei & Em & Ed & Eh & Ehist & Er). simpl in *.
      eapply goes_on; [done|lia|done| |rewrite Es, Hst; simpl; lia].
      split; [done|]. unfold stage_awaits. rewrite Es. split_and!; try done; try congruence; try (by apply Er).
      unfold frame_bytes in E. rewrite Ek, Et, firstn_all in E. by apply app_inv_head in E.
    + destruct Htarget as [Et|]; [|done]. rewrite Ek, Et in *.
      match goal with |- context [decode_header _ true ?d1] => destruct (Hpart d1) as (d' & -> & Es & E1 & E2 & E3 & E4 & E5 & E6) end; [lia|].
      past. simpl in *.
      eapply goes_on; [done|lia|done| |rewrite Es, Hst; simpl; lia].
      split; [done|]. unfold stage_awaits. rewrite Es. rewrite E1, E2, E4. split_and!; try done; try congruence.
      * constructor; simpl; congruence.
      * by right.
      * unfold stored_in. rewrite Ek. split_and!; [lia|unfold HEADER_SIZE_MAX in *; lia|done].
  - rewrite (proj2 (Nat.ltb_lt _ _)) by lia.
    eapply goes_stop; [done|lia|done|lia| |by left].
    split; [done|]. unfold stage_awaits. simpl. rewrite Hst. split_and!; try done.
    { constructor; simpl; congruence. }
    unfold stored_in. rewrite Hbuf, Hh. unfold HEADER_SIZE_MAX in *. split_and!; [lia|lia|done].
Qed.

Lemma start_blocks_goes d done out sp todo :
  awaits d done (drop sp src ++ later) todo → stage d = Init → sp ≤ length src → length out ≤ cap →
  blocks_ok [] blocks0 → content blocks0 = whole →
  goes d done out todo sp (start_blocks d out sp).
Proof.
  intros [Hwhole Ha] Hst Hsp Hout Hok Hcontent. unfold stage_awaits in Ha. rewrite Hst in Ha.
  destruct Ha as (Hi & Hm & Hd & Hh & Hhist & Hr & -> & E). simpl in Hwhole. subst todo.
  unfold start_blocks. rewrite Hi.
  eapply goes_on; [done|lia|done| |simpl; rewrite Hst; simpl; lia].
  split; [done|]. simpl. exists blocks0.
  assert (∀ d1, info d1 = i → max_block_size d1 = M → ddict d1 = D → length (header d1) = HEADER_SIZE_MAX →
    length (tmp_in d1) = M + BF_SIZE → hist d1 = D →
    frame_remaining d1 = (if (fi_content_size i =? 0)%Z then 0%Z else Z.of_nat (length whole)) → in_frame d1 [] (length whole)) as Hf.
  { intros d1 ? ? ? ? ? Eh ?. constructor; try done. unfold keeps, history. rewrite Eh. destruct (fi_linked i); [by rewrite app_nil_r|done]. }
  destruct (fi_content_checksum i) eqn:Hc; (split_and!; [apply Hf; simpl; try done; rewrite length_replicate; congruence| |done|done|done]).
  - intros _ _. simpl. by rewrite xxh_write_nil.
  - intros _ Hx. congruence.
Qed.

Lemma block_header_goes d done out sp todo (fresh : bool) :
  awaits d done (drop sp src ++ later) todo → stage d = (if fresh then GetBlockHeader else StoreBlockHeader) →
  sp ≤ length src → length out ≤ cap → goes d done out todo sp (block_header cap src fresh d out sp).
Proof.
  intros [Hwhole Ha] Hst Hsp Hout. unfold stage_awaits in Ha. rewrite Hst in Ha.
  assert (∃ blocks, in_frame d done (length todo) ∧ hashed d done ∧ blocks_ok done blocks ∧ todo = content blocks ∧
    (fresh = true ∧ drop sp src ++ later = tail blocks ∨
     fresh = false ∧ stored_in (tmp_in d) (tmp_in_size d) BH_SIZE (drop sp src ++ later) (tail blocks))) as
    (blocks & Hf & Hh & Hok & -> & Hin).
  { destruct fresh; destruct Ha as (blocks & ? & ? & ? & ? & ?); exists blocks; split_and!; try done; [by left|by right]. }
  clear Ha. unfold block_header. pose proof Hf as [Hi Hm Hd Hhd Ht Hhi Hs].
  assert (∃ bh rest, tail blocks = le_bytes 4 bh ++ rest ∧ (0 <= bh < 4294967296)%Z) as (bh & rest & Etail & Hbh).
  { unfold blocks_bytes. destruct blocks as [|b bl]; [simpl; eexists 0%Z, _; split; [done|lia]|].
    rewrite fmap_cons, mjoin_cons. unfold block_bytes at 1. rewrite <-!app_assoc. eexists _, _. split; [done|].
    destruct Hok as (Hlen & _). destruct (head_length (Z.of_nat (length (payload b)))) as (_ & _ & _ & _ & ?); [lia|].
    destruct b; simpl in *; lia. }
  destruct (fresh && _) eqn:Hdirect.
  - apply andb_prop in Hdirect as [-> H4%Nat.leb_le]. destruct Hin as [[_ E]|[? _]]; [|done]. unfold BH_SIZE in *.
    pose proof E as E'. rewrite Etail in E'. destruct (ahead_u32 sp bh rest) as [-> Er]; [done|done|done|done|]. past.
    eapply block_start; try done; try lia. by rewrite Er, <-Etail.
  - set (d0 := if fresh then set_stage StoreBlockHeader (set_tmp_in_size 0 d) else d).
    assert (in_frame d0 done (length (content blocks)) ∧ hashed d0 done ∧ stage d0 = StoreBlockHeader ∧
      stored_in (tmp_in d0) (tmp_in_size d0) BH_SIZE (drop sp src ++ later) (tail blocks)) as (Hf0 & Hh0 & Hst0 & Hin0).
    { unfold d0. destruct fresh; [|destruct Hin as [[? _]|[_ ?]]; done]. destruct Hin as [[_ E]|[? _]]; [|done].
      split; [by constructor|]. split; [done|]. split; [done|]. unfold stored_in, BH_SIZE, BF_SIZE in *. simpl. split_and!; [lia|lia|done]. }
    clearbody d0. destruct (store_step _ _ _ _ _ Hin0 Hsp) as (buf & -> & Hbuf & Hn & E & Hcase). past.
    set (n := wanted BH_SIZE (tmp_in_size d0) (length src) sp) in *. simpl tmp_in_size. simpl tmp_in.
    pose proof Hf0 as [Hi0 Hm0 Hd0 Hhd0 Ht0 Hhi0 Hs0].
    set (d1 := set_tmp_in_size (tmp_in_size d0 + n) (set_tmp_in buf d0)).
    assert (in_frame d1 done (length (content blocks))) as Hf1 by (constructor; try done; simpl; congruence).
    destruct Hcase as [[En Hpos]|[En Hend]].
    + rewrite (proj2 (Nat.ltb_ge _ _)) by lia. rewrite En in E.
      pose proof E as E'. rewrite Etail in E'. unfold BH_SIZE, BF_SIZE in *.
      destruct (stored_u32 _ _ _ _ E') as [-> Er]; [lia|done|]. past.
      eapply block_start; try done; try lia. by rewrite Er, <-Etail.
    + rewrite (proj2 (Nat.ltb_lt _ _)) by lia.
      eapply goes_stop; [done|lia|done|lia| |by left]. split; [done|]. unfold stage_awaits. simpl. rewrite Hst0.
      exists blocks. split_and!; try done. unfold stored_in, BH_SIZE, BF_SIZE in *. simpl. split_and!; [lia|lia|done].
Qed.

Lemma keeps_more d done o left :
  in_frame d done left → fi_linked i = true → keeps (hist (update_dict o d)) (done ++ o).
Proof.
  intros [_ _ _ _ _ Hk _] Hl. unfold keeps, history in *. rewrite Hl in *. unfold update_dict. simpl.
  assert (last_64k (hist d ++ o) = last_64k (D ++ done ++ o)) as E.
  { by rewrite app_assoc, <-last_64k_app, Hk, last_64k_app. }
  destruct (_ <? _)%Z; [by rewrite last_64k_idem|done].
Qed.
Lemma keeps_unlinked h done done' : keeps h done → fi_linked i = false → keeps h done'.
Proof. intros Hk Hl. unfold keeps, history in *. by rewrite Hl in *. Qed.

(** Content handed over, from the blocks or from a decoded one. *)
Lemma in_frame_more d d' done o left left' :
  in_frame d done left → info d' = info d → max_block_size d' = max_block_size d → ddict d' = ddict d →
  length (header d') = length (header d) → length (tmp_in d') = length (tmp_in d) →
  hist d' = (if fi_linked i then hist (update_dict o d) else hist d) →
  frame_remaining d' = (if (fi_content_size i =? 0)%Z then 0%Z else Z.of_nat left') → in_frame d' (done ++ o) left'.
Proof.
  intros Hf ? ? ? ? ? Eh ?. pose proof Hf as [? ? ? ? ? Hk ?]. constructor; try congruence. rewrite Eh.
  destruct (fi_linked i) eqn:Hl; [by eapply keeps_more|by eapply keeps_unlinked].
Qed.

Lemma flush_out_goes d done out sp todo :
  awaits d done (drop sp src ++ later) todo → stage d = FlushOut → sp ≤ length src → length out ≤ cap →
  goes d done out todo sp (flush_out cap d out sp).
Proof.
  intros [Hwhole Ha] Hst Hsp Hout. unfold stage_awaits in Ha. rewrite Hst in Ha.
  destruct Ha as (data & blocks & Hf & Hh & Hok & E & -> & Hs & Hdata). unfold flush_out, room.
  pose proof Hf as [Hi Hm Hd Hhd Ht Hhi Hr]. rewrite Hi.
  assert (length data = length (tmp_out d) - tmp_out_start d) as Hl by (rewrite <-Hdata; apply length_drop).
  set (n := (length (tmp_out d) - tmp_out_start d) `min` (cap - length out)).
  assert (slice (tmp_out_start d) (tmp_out_start d + n) (tmp_out d) = take n data) as ->.
  { unfold slice. rewrite Hdata. f_equal. lia. }
  set (d1 := set_tmp_out_start (tmp_out_start d + n) (if fi_linked i then update_dict (take n data) d else d)).
  assert (tmp_out_start d1 = tmp_out_start d + n) as Eto by (unfold d1; by destruct (fi_linked i)). rewrite Eto.
  assert (in_frame d1 (done ++ take n data) (length (content blocks))) as Hf1.
  { eapply in_frame_more; [exact Hf|..]; unfold d1; by destruct (fi_linked i). }
  assert (tmp_out d1 = tmp_out d ∧ stage d1 = stage d ∧ skip_checksum d1 = skip_checksum d ∧ xxh d1 = xxh d) as (Eo & Es & Ek & Ex)
    by (unfold d1; by destruct (fi_linked i)).
  clearbody d1. rewrite Eo.
  assert (data ++ content blocks = take n data ++ drop n data ++ content blocks) as Esplit by (by rewrite app_assoc, take_drop).
  rewrite Esplit in Hwhole |- *.
  assert (length (out ++ take n data) ≤ cap) as Hout' by (rewrite length_app, length_take; lia).
  destruct (Nat.eqb_spec (tmp_out_start d + n) (length (tmp_out d))) as [En|En].
  - assert (drop n data = []) as Hnil by (apply drop_ge; lia). rewrite Hnil in *. simpl.
    assert (take n data = data) as Hall by (apply firstn_all2; lia). rewrite Hall in *.
    eapply goes_go; [done|lia|done| |simpl; rewrite Hst; simpl; lia].
    split; [by rewrite <-app_assoc|]. simpl. exists blocks. split_and!; try done; [by destruct Hf1|].
    unfold hashed in *. simpl. by rewrite Ek, Ex.
  - exists d1, (out ++ take n data), sp, (take n data), (drop n data ++ content blocks). split_and!; try done; try lia.
    right. left. exists BH_SIZE. split; [done|]. split; [unfold BH_SIZE; lia|]. split; [|right; rewrite length_app, length_take; lia].
    split; [by rewrite <-app_assoc|]. unfold stage_awaits. rewrite Es, Hst. exists (drop n data), blocks.
    rewrite <-app_assoc, take_drop. split_and!; try done.
    + unfold hashed in *. by rewrite Ek, Ex.
    + rewrite Eto, Eo. lia.
    + rewrite Eto, Eo, <-Hdata, drop_drop. done.
Qed.

(** What is left of the content's size. *)
Lemma still_left x k n : x = (if (fi_content_size i =? 0)%Z then 0%Z else Z.of_nat (n + k)) → n + k ≤ length whole →
  (if (fi_content_size i =? 0)%Z then x else u64 (x - Z.of_nat n)) =
  (if (fi_content_size i =? 0)%Z then 0%Z else Z.of_nat k).
Proof.
  intros -> Hle. destruct (_ =? 0)%Z; [done|]. rewrite u64_small by lia. lia.
Qed.

(** The state after a piece of a stored block. *)
Definition copied (o : list Z) (d : DCtx) : DCtx :=
  let d := if skip_checksum d then d
           else
             let d := if fi_block_checksum (info d) then set_block_xxh (xxh_write (block_xxh d) o) d else d in
             if fi_content_checksum (info d) then set_xxh (xxh_write (xxh d) o) d else d in
  let d := if (fi_content_size (info d) =? 0)%Z then d else set_frame_remaining (u64 (frame_remaining d - Z.of_nat (length o))) d in
  if fi_linked (info d) then update_dict o d else d.

Lemma copied_same o d : info d = i →
  stage (copied o d) = stage d ∧ skip_checksum (copied o d) = skip_checksum d ∧
  tmp_in_target (copied o d) = tmp_in_target d ∧ info (copied o d) = i ∧
  xxh (copied o d) = (if negb (skip_checksum d) && fi_content_checksum i then xxh_write (xxh d) o else xxh d) ∧
  block_xxh (copied o d) =
    (if negb (skip_checksum d) && fi_block_checksum i then xxh_write (block_xxh d) o else block_xxh d) ∧
  max_block_size (copied o d) = max_block_size d ∧ ddict (copied o d) = ddict d ∧ header (copied o d) = header d ∧
  tmp_in (copied o d) = tmp_in d ∧ hist (copied o d) = (if fi_linked i then hist (update_dict o d) else hist d) ∧
  frame_remaining (copied o d) =
    (if (fi_content_size i =? 0)%Z then frame_remaining d else u64 (frame_remaining d - Z.of_nat (length o))).
Proof.
  destruct d as [? inf ? ? ? ? ? ? ? ? ? ? ? ? skip]. cbn. intros ->. unfold copied.
  destruct skip; [|destruct (fi_block_checksum i) eqn:E1, (fi_content_checksum i) eqn:E2; cbn; rewrite ?E1; cbn; rewrite ?E2].
  all: cbn; destruct (fi_content_size i =? 0)%Z eqn:E4, (fi_linked i) eqn:E3; cbn; rewrite ?E4; cbn; rewrite ?E3; cbn.
  all: split_and!; reflexivity.
Qed.

Lemma copied_spec d done pre o k :
  in_frame d done (length o + k) → hashed d done → block_hashed d pre → length o + k ≤ length whole →
  in_frame (copied o d) (done ++ o) k ∧ hashed (copied o d) (done ++ o) ∧ block_hashed (copied o d) (pre ++ o).
Proof.
  intros Hf Hh Hb Hle. pose proof Hf as [Hi _ _ _ _ _ Hr]. pose proof (still_left _ _ _ Hr Hle) as Hs.
  destruct (copied_same o d Hi) as (_ & Ek & _ & Ei & Ex & Ebx & ? & ? & Eh & Et & ? & Er). split_and!.
  - eapply in_frame_more; [exact Hf|..]; congruence.
  - intros Hskip Hc. rewrite Ex, Ek in *. rewrite <-xxh_write_app, <-Hh by done. by rewrite Hskip, Hc.
  - intros Hskip Hc. rewrite Ebx, Ek in *. rewrite <-xxh_write_app, <-Hb by done. by rewrite Hskip, Hc.
Qed.

Lemma copy_direct_is d out sp n o :
  info d = i → n = (tmp_in_target d `min` (length src - sp)) `min` room cap out → slice sp (sp + n) src = o → length o = n →
  copy_direct cap src d out sp =
  if n =? tmp_in_target d then
    if fi_block_checksum i then Ok (Go (set_stage GetBlockChecksum (set_tmp_in_size 0 (copied o d))) (out ++ o) (sp + n))
    else Ok (Go (set_stage GetBlockHeader (copied o d)) (out ++ o) (sp + n))
  else
    Ok (Stop (set_tmp_in_target (tmp_in_target d - n) (copied o d)) (out ++ o) (sp + n)
      (tmp_in_target d - n + (if fi_block_checksum i then BF_SIZE else 0) + BH_SIZE)).
Proof.
  intros Hi Hn Hs Ho. destruct (copied_same o d Hi) as (_ & _ & Et & Ei & _). unfold copy_direct. cbv zeta.
  rewrite <-Hn, Hs, <-Ho. fold (copied o d). rewrite Et. simpl. rewrite Ei. done.
Qed.

Lemma copy_direct_goes d done out sp todo :
  awaits d done (drop sp src ++ later) todo → stage d = CopyDirect → sp ≤ length src → length out ≤ cap →
  goes d done out todo sp (copy_direct cap src d out sp).
Proof.
  intros [Hwhole Ha] Hst Hsp Hout. unfold stage_awaits in Ha. rewrite Hst in Ha.
  destruct Ha as (pre & data & blocks & Hf & Hh & Hb & Hok & E & -> & Ht). pose proof Hf as [Hi _ _ _ _ _ _].
  set (n := (tmp_in_target d `min` (length src - sp)) `min` room cap out).
  assert (n ≤ length data ∧ sp + n ≤ length src ∧ length out + n ≤ cap) as (Hn & Hn' & Hcap) by (unfold n, room; lia).
  set (o := take n data). assert (length o = n) as Ho by (unfold o; rewrite length_take; lia).
  assert (data = o ++ drop n data) as Edata by (symmetry; apply take_drop). clearbody o.
  assert (drop sp src ++ later = o ++ drop n data ++ crc_of (pre ++ data) ++ tail blocks) as E'.
  { rewrite E. by rewrite (app_assoc o), <-Edata. }
  destruct (ahead_whole sp o _ Hsp E') as (_ & Hs & Hrest); [lia|]. rewrite Ho in Hs, Hrest.
  destruct (copied_spec d done pre o (length (drop n data ++ content blocks))) as (Hf1 & Hh1 & Hb1); try done.
  { rewrite length_app, length_drop, Ho. rewrite length_app in Hf. by replace (n + _) with (length data + length (content blocks)) by lia. }
  { rewrite <-Hwhole, !length_app, length_drop. lia. }
  destruct (copied_same o d Hi) as (Es & _ & Et & Ei & _).
  rewrite (copy_direct_is d out sp n o) by done.
  set (d1 := copied o d) in *. clearbody d1.
  assert ((done ++ o) ++ drop n data ++ content blocks = whole) as Hwhole'.
  { rewrite <-Hwhole. rewrite Edata at 2. by rewrite <-!app_assoc. }
  assert (data ++ content blocks = o ++ drop n data ++ content blocks) as -> by (by rewrite app_assoc, <-Edata).
  assert (length (out ++ o) ≤ cap) as Hout' by (rewrite length_app; lia).
  destruct (Nat.eqb_spec n (tmp_in_target d)) as [En|En].
  - assert (drop n data = []) as Hnil by (apply drop_ge; lia). rewrite Hnil in *. rewrite app_nil_r in Edata.
    simpl app in *. rewrite <-Edata in *. unfold crc_of in Hrest.
    destruct (fi_block_checksum i) eqn:Hbc.
    + eapply goes_go; [done|lia|done| |simpl; rewrite Hst; simpl; lia]. split; [done|]. simpl.
      exists (pre ++ data), blocks. split_and!; try done; try (by destruct Hf1).
      unfold stored_in. simpl. destruct Hf1 as [_ _ _ -> _ _ _]. unfold HEADER_SIZE_MAX. split_and!; [lia|lia|done].
    + eapply goes_go; [done|lia|done| |simpl; rewrite Hst; simpl; lia]. split; [done|]. simpl.
      exists blocks. split_and!; try done; by destruct Hf1.
  - eexists _, (out ++ o), (sp + n), o, _. split_and!; [done|done|lia|lia|done|].
    right. left. eexists. split; [done|]. split; [unfold BH_SIZE; lia|].
    split; [|rewrite length_app, Ho; unfold n, room in En |- *; lia].
    split; [done|]. unfold stage_awaits. simpl. rewrite Es, Hst. exists (pre ++ o), (drop n data), blocks.
    rewrite <-!app_assoc, <-Edata in *. split_and!; try done; [by destruct Hf1|].
    rewrite length_drop. lia.
Qed.

(** What does not matter to the frame: the buffers' bytes, and what is hashed. *)
Lemma in_frame_kept d d' done left :
  in_frame d done left → info d' = info d → max_block_size d' = max_block_size d → ddict d' = ddict d →
  length (header d') = length (header d) → length (tmp_in d') = length (tmp_in d) → hist d' = hist d →
  frame_remaining d' = frame_remaining d → in_frame d' done left.
Proof. intros [] ? ? ? ? ? ? ?. constructor; congruence. Qed.

Lemma oneshot_range l : (0 <= xxh_oneshot l < 4294967296)%Z.
Proof. rewrite xxh_oneshot_is. apply xxh_finish_range. Qed.

Lemma check_block_goes d d1 done out sp sp1 data blocks :
  in_frame d1 done (length (content blocks)) → hashed d1 done → block_hashed d1 data → blocks_ok done blocks →
  done ++ content blocks = whole → drop sp1 src ++ later = tail blocks → fi_block_checksum i = true →
  sp < sp1 ≤ length src → length out ≤ cap →
  goes d done out (content blocks) sp (check_block (xxh_oneshot data) d1 out sp1).
Proof.
  intros Hf Hh Hb Hok Hwhole E Hbc Hsp Hout. unfold check_block.
  assert (negb (skip_checksum d1) && negb (xxh_oneshot data =? xxh_finish (block_xxh d1))%Z = false) as ->.
  { destruct (skip_checksum d1) eqn:Es; [done|]. rewrite (Hb Es Hbc), xxh_oneshot_is. by rewrite Z.eqb_refl. }
  eapply goes_on; [done|lia|done| |simpl; lia]. split; [done|]. simpl. exists blocks. split_and!; try done. by destruct Hf.
Qed.

Lemma get_block_checksum_goes d done out sp todo :
  awaits d done (drop sp src ++ later) todo → stage d = GetBlockChecksum → sp ≤ length src → length out ≤ cap →
  goes d done out todo sp (get_block_checksum src d out sp).
Proof.
  intros [Hwhole Ha] Hst Hsp Hout. unfold stage_awaits in Ha. rewrite Hst in Ha.
  destruct Ha as (data & blocks & Hf & Hh & Hb & Hok & -> & Hbc & Hin). pose proof (oneshot_range data) as Hx.
  unfold get_block_checksum. destruct (_ && _) eqn:Hdirect.
  - apply andb_prop in Hdirect as [H4%Nat.leb_le H0%Nat.eqb_eq]. destruct Hin as (_ & _ & E). rewrite H0 in E.
    destruct (ahead_u32 _ _ _ Hsp E) as [-> Er]; [done|done|]. past. by eapply check_block_goes; try done; lia.
  - destruct (store_step _ _ _ _ _ Hin Hsp) as (buf & -> & Hbuf & Hn & E & Hcase). past.
    set (n := wanted 4 (tmp_in_size d) (length src) sp) in *. simpl tmp_in_size. simpl header.
    pose proof Hf as [_ _ _ Hhd _ _ _]. unfold HEADER_SIZE_MAX in Hhd.
    set (d1 := set_tmp_in_size (tmp_in_size d + n) (set_header buf d)).
    assert (in_frame d1 done (length (content blocks))) as Hf1 by (by eapply in_frame_kept).
    destruct Hcase as [[En Hpos]|[En Hend]].
    + rewrite (proj2 (Nat.ltb_ge _ _)) by lia. rewrite En in E.
      destruct (stored_u32 _ _ _ _ E) as [-> Er]; [lia|done|]. past. by eapply check_block_goes; try done; lia.
    + rewrite (proj2 (Nat.ltb_lt _ _)) by lia.
      eapply goes_stop; [done|lia|done|lia| |by left]. split; [done|]. unfold stage_awaits. simpl. rewrite Hst.
      exists data, blocks. split_and!; try done. unfold stored_in. simpl. split_and!; [lia|lia|done].
Qed.

(** The state after a decompressed block. *)
Definition unpacked (o : list Z) (d : DCtx) : DCtx :=
  let d := set_tmp_out o d in
  let d := if fi_content_checksum (info d) && negb (skip_checksum d) then set_xxh (xxh_write (xxh d) o) d else d in
  let d := if (fi_content_size (info d) =? 0)%Z then d
           else set_frame_remaining (u64 (frame_remaining d - Z.of_nat (length o))) d in
  set_stage FlushOut (set_tmp_out_start 0 d).

Lemma unpacked_same o d : info d = i →
  stage (unpacked o d) = FlushOut ∧ skip_checksum (unpacked o d) = skip_checksum d ∧ info (unpacked o d) = i ∧
  xxh (unpacked o d) = (if fi_content_checksum i && negb (skip_checksum d) then xxh_write (xxh d) o else xxh d) ∧
  max_block_size (unpacked o d) = max_block_size d ∧ ddict (unpacked o d) = ddict d ∧ header (unpacked o d) = header d ∧
  tmp_in (unpacked o d) = tmp_in d ∧ hist (unpacked o d) = hist d ∧ tmp_out (unpacked o d) = o ∧ tmp_out_start (unpacked o d) = 0 ∧
  frame_remaining (unpacked o d) =
    (if (fi_content_size i =? 0)%Z then frame_remaining d else u64 (frame_remaining d - Z.of_nat (length o))).
Proof.
  destruct d as [? inf ? ? ? ? ? ? ? ? ? ? ? ? skip]. cbn. intros ->. unfold unpacked. cbn.
  destruct (fi_content_checksum i && negb skip) eqn:E; cbn; destruct (fi_content_size i =? 0)%Z; split_and!; reflexivity.
Qed.

Lemma unpacked_spec d done o k :
  in_frame d done (length o + k) → hashed d done → length o + k ≤ length whole →
  in_frame (unpacked o d) done k ∧ hashed (unpacked o d) (done ++ o).
Proof.
  intros Hf Hh Hle. pose proof Hf as [Hi Hm Hd Hhd Ht Hk Hr]. pose proof (still_left _ _ _ Hr Hle) as Hs.
  destruct (unpacked_same o d Hi) as (_ & Ek & Ei & Ex & Em & Ed & Eh & Et & Ehist & _ & _ & Er). split.
  - constructor; congruence.
  - intros Hskip Hc. rewrite Ex, Ek in *. rewrite <-xxh_write_app, <-Hh by done. by rewrite Hskip, Hc.
Qed.

(** A compressed block that is there whole, checksum and all. *)
Lemma decode_block_goes d d1 done out sp sp1 bytes data blocks :
  in_frame d1 done (length (data ++ content blocks)) → hashed d1 done → blocks_ok done (Packed bytes data :: blocks) →
  done ++ data ++ content blocks = whole → drop sp1 src ++ later = tail blocks →
  sp < sp1 ≤ length src → length out ≤ cap →
  goes d done out (data ++ content blocks) sp (decode_block (bytes ++ crc_of bytes) d1 out sp1).
Proof.
  intros Hf Hh (Hlen & [Hne Hdec] & Hok) Hwhole E Hsp Hout. simpl payload in *. simpl block_data in *.
  pose proof Hf as [Hi Hm _ _ _ Hk Hr]. unfold decode_block. rewrite Hi.
  set (d2 := if fi_block_checksum i then set_tmp_in_target (length bytes) d1 else d1).
  assert ((if fi_block_checksum i then
       read ← or_panic (u32_at (bytes ++ crc_of bytes) (length (bytes ++ crc_of bytes) - 4));
       if negb (read =? xxh_oneshot (take (length (bytes ++ crc_of bytes) - 4) (bytes ++ crc_of bytes)))%Z
       then Err (Error BlockChecksumInvalid) else Ok (length (bytes ++ crc_of bytes) - 4, set_tmp_in_target (length (bytes ++ crc_of bytes) - 4) d1)
     else Ok (length (bytes ++ crc_of bytes), d1)) = Ok (length bytes, d2)) as ->.
  { unfold d2, crc_of. destruct (fi_block_checksum i) eqn:Hbc; [|by rewrite app_nil_r].
    rewrite length_app, length_le_bytes, Nat.add_sub, take_app_length.
    unfold u32_at, get_slice. rewrite bool_decide_eq_true_2 by (rewrite length_app, length_le_bytes; lia).
    unfold slice. rewrite drop_app_length, firstn_all2 by (rewrite length_le_bytes; lia). past.
    change (le_val <$> Some ?l) with (Some (le_val l)). rewrite le_val_small by apply oneshot_range. past. by rewrite Z.eqb_refl. }
  past. rewrite take_app_length.
  assert (hist d2 = hist d1 ∧ max_block_size d2 = M ∧ in_frame d2 done (length (data ++ content blocks)) ∧ hashed d2 done) as
    (Eh2 & Hm2 & Hf2 & Hh2).
  { unfold d2. destruct (fi_block_checksum i); split_and!; try done. by eapply in_frame_kept. }
  clearbody d2. rewrite Eh2, Hm2, (decompress_hist _ _ _ _ _ Hk), Hdec. past. fold (unpacked data d2).
  rewrite length_app in Hf2. destruct (unpacked_spec _ _ _ _ Hf2 Hh2) as [Hf3 Hh3].
  { rewrite <-Hwhole, !length_app. lia. }
  pose proof Hf2 as [Hi2 _ _ _ _ _ _].
  destruct (unpacked_same data d2 Hi2) as (Es & _ & _ & _ & _ & _ & _ & _ & _ & Eo & Eos & _).
  eapply goes_on; [done|lia|done| |rewrite Es; simpl; lia]. split; [done|]. unfold stage_awaits. rewrite Es.
  exists data, blocks. rewrite Eo, Eos. split_and!; try done. lia.
Qed.

Lemma packed_target bytes data done blocks :
  blocks_ok done (Packed bytes data :: blocks) → 0 < length (bytes ++ crc_of bytes) ≤ M + BF_SIZE.
Proof.
  intros (Hlen & [Hne _] & _). simpl in Hlen. rewrite length_app. destruct bytes; [done|]. simpl in *.
  unfold crc_of, BF_SIZE. destruct (fi_block_checksum i); rewrite ?length_le_bytes; simpl; lia.
Qed.

Lemma get_cblock_goes d done out sp todo :
  awaits d done (drop sp src ++ later) todo → stage d = GetCBlock → sp ≤ length src → length out ≤ cap →
  goes d done out todo sp (get_cblock src d out sp).
Proof.
  intros [Hwhole Ha] Hst Hsp Hout. unfold stage_awaits in Ha. rewrite Hst in Ha.
  destruct Ha as (bytes & data & blocks & Hf & Hh & Hok & E & -> & Ht). unfold get_cblock.
  pose proof (packed_target _ _ _ _ Hok) as Htarget. rewrite app_assoc in E. rewrite Ht.
  destruct (Nat.ltb_spec (length src - sp) (length (bytes ++ crc_of bytes))).
  - eapply goes_on; [done|lia|done| |simpl; rewrite Hst; simpl; lia]. split; [done|]. simpl.
    exists bytes, data, blocks. split_and!; try done; [by eapply in_frame_kept|]. pose proof Hf as [_ _ _ _ Hbuf _ _].
    unfold stored_in. simpl. rewrite Ht, Hbuf, app_assoc. split_and!; [lia|lia|done].
  - destruct (ahead_whole sp _ _ Hsp E) as (-> & _ & Hrest); [done|]. past. by eapply decode_block_goes; try done; lia.
Qed.

Lemma store_cblock_goes d done out sp todo :
  awaits d done (drop sp src ++ later) todo → stage d = StoreCBlock → sp ≤ length src → length out ≤ cap →
  goes d done out todo sp (store_cblock src d out sp).
Proof.
  intros [Hwhole Ha] Hst Hsp Hout. unfold stage_awaits in Ha. rewrite Hst in Ha.
  destruct Ha as (bytes & data & blocks & Hf & Hh & Hok & -> & Ht & Hin). unfold store_cblock.
  pose proof (packed_target _ _ _ _ Hok) as Htarget. pose proof Hf as [_ _ _ _ Htmp _ _].
  destruct (store_step _ _ _ _ _ Hin Hsp) as (buf & -> & Hbuf & Hn & E & Hcase). past.
  set (n := wanted (tmp_in_target d) (tmp_in_size d) (length src) sp) in *. simpl tmp_in_size. simpl tmp_in_target. simpl tmp_in.
  set (d1 := set_tmp_in_size (tmp_in_size d + n) (set_tmp_in buf d)).
  assert (in_frame d1 done (length (data ++ content blocks))) as Hf1 by (by eapply in_frame_kept).
  destruct Hcase as [[En Hpos]|[En Hend]].
  - rewrite (proj2 (Nat.ltb_ge _ _)) by lia. rewrite En, Ht, (app_assoc bytes) in E.
    apply app_inj_1 in E as [E Erest]; [|rewrite length_take; lia].
    unfold get_slice, slice. rewrite bool_decide_eq_true_2 by lia. rewrite drop_0, Nat.sub_0_r, Ht, E. past.
    by eapply decode_block_goes; try done; lia.
  - rewrite (proj2 (Nat.ltb_lt _ _)) by lia.
    eapply goes_stop; [done|lia|done|unfold BH_SIZE; lia| |by left]. split; [done|]. unfold stage_awaits. simpl. rewrite Hst.
    exists bytes, data, blocks. split_and!; try done; try (by destruct Hok as (? & [] & ?)).
    unfold stored_in. simpl. split_and!; [lia|lia|done].
Qed.

Lemma goes_end d done out sp r d' sp' :
  r = Ok (Stop d' out sp' 0) → sp ≤ sp' ≤ length src → length out ≤ cap → drop sp' src ++ later = more → between d' →
  goes d done out [] sp r.
Proof.
  intros -> Hsp Hl Ha Hr. exists d', out, sp', [], []. rewrite !app_nil_r. split_and!; try done; try lia. right. by right.
Qed.

Lemma reset_between d done left : in_frame d done left → between (reset d).
Proof. intros []. by constructor. Qed.

Lemma check_content_goes d d1 done out sp sp1 :
  in_frame d1 done 0 → hashed d1 done → done = whole → drop sp1 src ++ later = more → fi_content_checksum i = true →
  sp ≤ sp1 ≤ length src → length out ≤ cap →
  goes d done out [] sp (check_content (xxh_oneshot whole) d1 out sp1).
Proof.
  intros Hf Hh -> E Hc Hsp Hout. unfold check_content.
  assert (negb (skip_checksum d1) && negb (xxh_oneshot whole =? xxh_finish (xxh d1))%Z = false) as ->.
  { destruct (skip_checksum d1) eqn:Es; [done|]. rewrite (Hh Es Hc), xxh_oneshot_is. by rewrite Z.eqb_refl. }
  eapply goes_end; [done|lia|done|done|by eapply reset_between].
Qed.

Lemma get_suffix_goes d done out sp todo :
  awaits d done (drop sp src ++ later) todo → stage d = GetSuffix → sp ≤ length src → length out ≤ cap →
  goes d done out todo sp (get_suffix src d out sp).
Proof.
  intros [Hwhole Ha] Hst Hsp Hout. unfold stage_awaits in Ha. rewrite Hst in Ha.
  destruct Ha as (Hf & Hh & E & ->). pose proof Hf as [Hi _ _ _ Htmp _ Hr]. rewrite app_nil_r in Hwhole.
  unfold get_suffix. rewrite Hi. assert (frame_remaining d = 0%Z) as Hr0 by (rewrite Hr; by destruct (_ =? _)%Z). rewrite Hr0. simpl negb. cbv iota.
  unfold suffix_bytes in E. destruct (fi_content_checksum i) eqn:Hc; simpl negb; cbv iota.
  - destruct (Nat.ltb_spec (length src - sp) 4).
    + eapply goes_on; [done|lia|done| |simpl; rewrite Hst; simpl; lia]. split; [by rewrite app_nil_r|]. simpl.
      split_and!; try done; [by eapply in_frame_kept|]. unfold stored_in, suffix_bytes. simpl. rewrite Hc, Htmp. unfold BF_SIZE.
      split_and!; [lia|lia|done].
    + destruct (ahead_u32 _ _ _ Hsp E) as [-> Er]; [done|apply oneshot_range|]. past. by eapply check_content_goes; try done; lia.
  - eapply goes_end; [done|lia|done|done|by eapply reset_between].
Qed.

Lemma store_suffix_goes d done out sp todo :
  awaits d done (drop sp src ++ later) todo → stage d = StoreSuffix → sp ≤ length src → length out ≤ cap →
  goes d done out todo sp (store_suffix src d out sp).
Proof.
  intros [Hwhole Ha] Hst Hsp Hout. unfold stage_awaits in Ha. rewrite Hst in Ha.
  destruct Ha as (Hf & Hh & -> & Hc & Hin). pose proof Hf as [_ _ _ _ Htmp _ _]. rewrite app_nil_r in Hwhole. unfold BF_SIZE in Htmp.
  unfold store_suffix. destruct (store_step _ _ _ _ _ Hin Hsp) as (buf & -> & Hbuf & Hn & E & Hcase). past.
  set (n := wanted 4 (tmp_in_size d) (length src) sp) in *. simpl tmp_in_size. simpl tmp_in.
  set (d1 := set_tmp_in_size (tmp_in_size d + n) (set_tmp_in buf d)).
  assert (in_frame d1 done 0) as Hf1 by (by eapply in_frame_kept).
  destruct Hcase as [[En Hpos]|[En Hend]].
  - rewrite (proj2 (Nat.ltb_ge _ _)) by lia. rewrite En in E. unfold suffix_bytes in E. rewrite Hc in E.
    destruct (stored_u32 _ _ _ _ E) as [-> Er]; [lia|apply oneshot_range|]. past. by eapply check_content_goes; try done; lia.
  - rewrite (proj2 (Nat.ltb_lt _ _)) by lia.
    eapply goes_stop; [done|lia|done|lia| |by left]. split; [by rewrite app_nil_r|]. unfold stage_awaits. simpl. rewrite Hst.
    split_and!; try done. unfold stored_in. simpl. split_and!; [lia|lia|done].
Qed.

(** Whatever the stage, a turn goes on with the frame. *)
Lemma turn_goes d done out sp todo :
  blocks_ok [] blocks0 → content blocks0 = whole →
  awaits d done (drop sp src ++ later) todo → sp ≤ length src → length out ≤ cap →
  goes d done out todo sp (turn cap src d out sp).
Proof.
  intros Hok Hcontent Ha Hsp Hout. unfold turn. destruct (stage d) eqn:Hst.
  - by apply get_frame_header_goes.
  - by apply store_frame_header_goes.
  - by apply start_blocks_goes.
  - by apply block_header_goes.
  - by apply block_header_goes.
  - by apply copy_direct_goes.
  - by apply get_block_checksum_goes.
  - by apply get_cblock_goes.
  - by apply store_cblock_goes.
  - by apply flush_out_goes.
  - by apply get_suffix_goes.
  - by apply store_suffix_goes.
  - destruct Ha as [_ Ha]. unfold stage_awaits in Ha. by rewrite Hst in Ha.
  - destruct Ha as [_ Ha]. unfold stage_awaits in Ha. by rewrite Hst in Ha.
  - destruct Ha as [_ Ha]. unfold stage_awaits in Ha. by rewrite Hst in Ha.
Qed.

(** The machine runs to a stop, and stops for want of input or room, or at the frame's end. *)
Lemma machine_goes fuel d done out sp todo :
  blocks_ok [] blocks0 → content blocks0 = whole →
  awaits d done (drop sp src ++ later) todo → sp ≤ length src → length out ≤ cap →
  10 * (length src - sp) + rank (stage d) < fuel →
  ∃ d' o sp' hint todo', machine cap src fuel d out sp = Ok (d', out ++ o, sp', hint) ∧ todo = o ++ todo' ∧
    sp ≤ sp' ≤ length src ∧ length (out ++ o) ≤ cap ∧
    ((0 < hint ∧ awaits d' (done ++ o) (drop sp' src ++ later) todo' ∧ (sp' = length src ∨ length (out ++ o) = cap)) ∨
     (hint = 0 ∧ todo' = [] ∧ drop sp' src ++ later = more ∧ between d')).
Proof.
  intros Hok Hcontent. revert d done out sp todo.
  induction fuel as [|fuel IH]; intros d done out sp todo Ha Hsp Hout Hfuel; [lia|]. simpl.
  destruct (turn_goes d done out sp todo Hok Hcontent Ha Hsp Hout) as
    (d1 & out1 & sp1 & o1 & todo1 & -> & -> & Hsp1 & Hout1 & [(-> & Ha1 & Hm)|[(hint & -> & Hh & Ha1 & Hend)|(-> & -> & Hmore & Hb)]]); past.
  - destruct (IH d1 (done ++ o1) (out ++ o1) sp1 todo1 Ha1) as (d2 & o2 & sp2 & hint & todo2 & -> & -> & Hsp2 & Hout2 & Hcase); [lia|done|lia|].
    exists d2, (o1 ++ o2), sp2, hint, todo2. rewrite !app_assoc in *. split_and!; try done; lia.
  - exists d1, o1, sp1, hint, todo1. split_and!; try done; try lia. by left.
  - exists d1, o1, sp1, 0, []. split_and!; try done; try lia. by right.
Qed.
End turns.

(** ** Calls *)

(** How a call finds the state. *)
Definition resumed (skip : bool) (d : DCtx) : DCtx :=
  let d := if before_blocks (stage d) then set_hist (ddict d) d else d in
  set_skip_checksum (skip_checksum d || skip) d.

Lemma resumed_between skip d : between d → awaits (resumed skip d) [] frame_bytes whole.
Proof.
  intros [Hst Hd Hh Hl]. split; [done|]. unfold resumed. rewrite Hst. unfold stage_awaits. simpl. rewrite Hst. by split_and!.
Qed.

Lemma hashed_skip d l skip : hashed d l → hashed (set_skip_checksum (skip_checksum d || skip) d) l.
Proof. intros Hh Hs Hc. simpl in *. apply orb_false_elim in Hs as [Hs _]. by apply Hh. Qed.
Lemma block_hashed_skip d l skip : block_hashed d l → block_hashed (set_skip_checksum (skip_checksum d || skip) d) l.
Proof. intros Hh Hs Hc. simpl in *. apply orb_false_elim in Hs as [Hs _]. by apply Hh. Qed.
Lemma in_frame_skip d dn left skip : in_frame d dn left → in_frame (set_skip_checksum (skip_checksum d || skip) d) dn left.
Proof. intros []. by constructor. Qed.

Lemma resumed_awaits skip d dn rest todo : awaits d dn rest todo → awaits (resumed skip d) dn rest todo.
Proof.
  intros [Hwhole Ha]. split; [done|]. unfold resumed. unfold stage_awaits in *. destruct (stage d) eqn:Hst; simpl; rewrite Hst.
  - destruct Ha as ([] & ? & ? & ?). by split_and!.
  - destruct Ha as ([] & ? & ? & ? & ?). by split_and!.
  - naive_solver.
  - destruct Ha as (blocks & ? & ? & ?). exists blocks. split_and!; naive_solver eauto using in_frame_skip, hashed_skip.
  - destruct Ha as (blocks & ? & ? & ?). exists blocks. split_and!; naive_solver eauto using in_frame_skip, hashed_skip.
  - destruct Ha as (pre & data & blocks & ? & ? & ? & ?). exists pre, data, blocks.
    split_and!; naive_solver eauto using in_frame_skip, hashed_skip, block_hashed_skip.
  - destruct Ha as (data & blocks & ? & ? & ? & ?). exists data, blocks.
    split_and!; naive_solver eauto using in_frame_skip, hashed_skip, block_hashed_skip.
  - destruct Ha as (bytes & data & blocks & ? & ? & ?). exists bytes, data, blocks.
    split_and!; naive_solver eauto using in_frame_skip, hashed_skip.
  - destruct Ha as (bytes & data & blocks & ? & ? & ?). exists bytes, data, blocks.
    split_and!; naive_solver eauto using in_frame_skip, hashed_skip.
  - destruct Ha as (data & blocks & ? & ? & ?). exists data, blocks.
    split_and!; naive_solver eauto using in_frame_skip, hashed_skip.
  - destruct Ha as (? & ? & ?). split_and!; naive_solver eauto using in_frame_skip, hashed_skip.
  - destruct Ha as (? & ? & ?). split_and!; naive_solver eauto using in_frame_skip, hashed_skip.
  - done.
  - done.
  - done.
Qed.

Lemma tail_length blocks : 4 ≤ length (tail blocks).
Proof. unfold blocks_bytes. rewrite !length_app, length_le_bytes. lia. Qed.

(** Only a frame without a checksum, with nothing after it, is complete without another byte. *)
Lemma awaits_nothing d dn todo :
  awaits d dn [] todo → stage d = GetSuffix ∧ in_frame d dn 0 ∧ fi_content_checksum i = false.
Proof.
  intros [_ Ha]. unfold stage_awaits in Ha. destruct Hheader as [[Hlo _] _ _]. unfold HEADER_SIZE_MIN in *.
  assert (∀ buf size target all, stored_in buf size target [] all → target ≤ length all → False) as Hstored.
  { intros buf size target all (H1 & H2 & E) Hle. rewrite <-E, app_nil_r, length_take in Hle. lia. }
  destruct (stage d) eqn:Hst; try done.
  - destruct Ha as (_ & _ & _ & E). apply (f_equal length) in E. unfold frame_bytes in E. rewrite length_app in E. simpl in E. lia.
  - destruct Ha as (_ & _ & _ & Ht & Hin). exfalso. eapply Hstored; [exact Hin|]. unfold frame_bytes, HEADER_SIZE_MIN in *. rewrite length_app. lia.
  - destruct Ha as (_ & _ & _ & _ & _ & _ & _ & E). pose proof (tail_length blocks0) as Hl. rewrite <-E in Hl. simpl in Hl. lia.
  - destruct Ha as (blocks & _ & _ & _ & E & _). pose proof (tail_length blocks) as Hl. rewrite <-E in Hl. simpl in Hl. lia.
  - destruct Ha as (blocks & _ & _ & _ & _ & Hin). exfalso. eapply Hstored; [exact Hin|apply tail_length].
  - destruct Ha as (pre & data & blocks & _ & _ & _ & _ & E & _). pose proof (tail_length blocks) as Hl.
    apply (f_equal length) in E. rewrite !length_app in E. simpl in E. lia.
  - destruct Ha as (data & blocks & _ & _ & _ & _ & _ & _ & Hin). exfalso. eapply Hstored; [exact Hin|]. rewrite length_app, length_le_bytes. lia.
  - destruct Ha as (bytes & data & blocks & _ & _ & _ & E & _). pose proof (tail_length blocks) as Hl.
    apply (f_equal length) in E. rewrite !length_app in E. simpl in E. lia.
  - destruct Ha as (bytes & data & blocks & _ & _ & _ & _ & Ht & Hin). exfalso. eapply Hstored; [exact Hin|]. rewrite Ht, app_assoc, (length_app (_ ++ _)). lia.
  - destruct Ha as (data & blocks & _ & _ & _ & E & _). pose proof (tail_length blocks) as Hl. rewrite <-E in Hl. simpl in Hl. lia.
  - destruct Ha as (Hf & _ & E & _). split; [done|]. split; [done|]. unfold suffix_bytes in E.
    destruct (fi_content_checksum i); [|done]. apply (f_equal length) in E. rewrite length_app, length_le_bytes in E. simpl in E. lia.
  - destruct Ha as (Hf & _ & _ & Hc & Hin). exfalso. eapply Hstored; [exact Hin|]. unfold suffix_bytes. rewrite Hc, length_app, length_le_bytes. lia.
Qed.

Lemma decode_goes d cap src later skip dn todo :
  blocks_ok [] blocks0 → content blocks0 = whole → awaits (resumed skip d) dn (src ++ later) todo →
  ∃ d' o sp hint todo', decode d cap src skip = Ok (d', o, sp, hint) ∧ todo = o ++ todo' ∧ sp ≤ length src ∧ length o ≤ cap ∧
    ((0 < hint ∧ src ++ later ≠ [] ∧ awaits d' (dn ++ o) (drop sp src ++ later) todo' ∧ (sp = length src ∨ length o = cap)) ∨
     (hint = 0 ∧ todo' = [] ∧ drop sp src ++ later = more ∧ between d')).
Proof.
  intros Hok Hcontent Ha.
  assert (decode d cap src skip = machine cap src (S (10 * length src + 10)) (resumed skip d) [] 0) as -> by done.
  assert (rank (stage (resumed skip d)) ≤ 9) as Hrank by (destruct (stage (resumed skip d)); simpl; lia).
  destruct (machine_goes cap src later (S (10 * length src + 10)) (resumed skip d) dn [] 0 todo) as
    (d' & o & sp & hint & todo' & E & -> & Hsp & Ho & Hcase); try done; try (cbn [length]; lia).
  exists d', o, sp, hint, todo'. split_and!; try done; [lia|]. destruct Hcase as [(Hh & Ha' & Hend)|Hend]; [|by right]. left.
  split_and!; try done. intros Hnil. rewrite Hnil in Ha. destruct (awaits_nothing _ _ _ Ha) as (Hst & [Hi _ _ _ _ _ Hr] & Hc).
  assert (turn cap src (resumed skip d) [] 0 = Ok (Stop (reset (resumed skip d)) [] 0 0)) as Ht.
  { unfold turn. rewrite Hst. unfold get_suffix. rewrite Hi, Hc, Hr. by destruct (_ =? _)%Z. }
  change (machine cap src (S ?f) ?x [] 0) with
    (t ← turn cap src x [] 0; match t with Go d out sp => machine cap src f d out sp | Stop d out sp hint => Ok (d, out, sp, hint) end) in E.
  rewrite Ht in E. cbv beta iota delta [mbind result_bind] in E. injection E as _ _ _ E. lia.
Qed.
End decoder.

(** Calls of the decoder: each is given so many of the bytes still to come and so much room, and the
    calls end with the frame.  The output, what is left of the input, and whether the frame ended. *)
Fixpoint feed (calls : list (nat * nat * bool)) (d : DCtx) (input : list Z) :
    result Failed (DCtx * list Z * list Z * bool) :=
  match calls with
  | [] => Ok (d, [], input, false)
  | (n, cap, skip) :: calls =>
      '(d, out, sp, hint) ← decode d cap (take n input) skip;
      if hint =? 0 then Ok (d, out, drop sp input, true)
      else '(d, more, input, ended) ← feed calls d (drop sp input); Ok (d, out ++ more, input, ended)
  end.

Lemma feed_goes i M D more whole hb blocks0 calls d dn input todo :
  (Z.of_nat M < 2147483648)%Z → (Z.of_nat (length whole) < 18446744073709551616)%Z →
  header_ok i M whole hb → blocks_ok i M D [] blocks0 → content blocks0 = whole →
  (∀ skip, awaits i M D more whole hb blocks0 (resumed skip d) dn input todo) →
  ∃ d' out rest ended todo', feed calls d input = Ok (d', out, rest, ended) ∧ todo = out ++ todo' ∧
    (if ended : bool then todo' = [] ∧ rest = more ∧ between D d'
     else Forall (λ c, 1 ≤ c.1.1 ∧ 1 ≤ c.1.2) calls → length calls ≤ length input + length todo).
Proof.
  intros HM Hlen Hh Hok Hcontent. revert d dn input todo.
  induction calls as [|[[n cap] skip] calls IH]; intros d dn input todo Ha.
  { exists d, [], input, false, todo. split_and!; try done. simpl. lia. }
  simpl. pose proof (Ha skip) as Ha0. rewrite <-(take_drop n input) in Ha0.
  destruct (decode_goes i M D more whole hb blocks0 HM Hlen Hh d cap (take n input) (drop n input) skip dn todo Hok Hcontent Ha0) as
    (d1 & o & sp & hint & todo1 & -> & -> & Hsp & Ho & Hcase). past.
  assert (drop sp (take n input) ++ drop n input = drop sp input) as Erest.
  { rewrite <-(take_drop n input) at 3. symmetry. apply drop_app_le. done. }
  rewrite Erest in Hcase. rewrite take_drop in Hcase. rewrite length_take in Hsp, Hcase.
  destruct Hcase as [(Hhint & Hne & Ha1 & Hend)|(-> & -> & Hmore & Hb)].
  - rewrite (proj2 (Nat.eqb_neq _ _)) by lia.
    destruct (IH d1 (dn ++ o) (drop sp input) todo1) as (d2 & o2 & rest & ended & todo2 & -> & -> & Hres).
    { intros skip'. by apply resumed_awaits. }
    past. exists d2, (o ++ o2), rest, ended, todo2. rewrite app_assoc. split_and!; try done.
    destruct ended; [done|]. intros [[H1 H2] Hall]%Forall_cons. simpl in H1, H2. specialize (Hres Hall).
    rewrite length_drop, !length_app in *. destruct input; [done|]. simpl in *. lia.
  - change (0 =? 0) with true. cbv iota. exists d1, o, (drop sp input), true, []. by split_and!.
Qed.

(** ** The header *)

(** What a header with these preferences announces. *)
Definition info_of (p : Prefs) : FrameInfo :=
  mk_info (pf_linked p) (pf_block_checksum p) (pf_content_checksum p) (pf_block_size_id p) (pf_content_size p) false.

Definition header_bytes (p : Prefs) : list Z :=
  le_bytes 4 MAGIC ++ header_fields p ++ [header_checksum (header_fields p)].

(** What the two bytes of flags say. *)
Record flags_of (p : Prefs) (flg bd : Z) : Prop := {
  fl_reserved : bit flg 1 = false;
  fl_version : Z.land (Z.shiftr flg 6) 3 = 1%Z;
  fl_size : bit flg 3 = (0 <? pf_content_size p)%Z;
  fl_dict_id : bit flg 0 = false;
  fl_linked : negb (bit flg 5) = pf_linked p;
  fl_block_checksum : bit flg 4 = pf_block_checksum p;
  fl_content_checksum : bit flg 2 = pf_content_checksum p;
  fl_reserved_bd : bit bd 7 = false ∧ Z.land bd 15 = 0%Z;
  fl_block_size : Z.land (Z.shiftr bd 4) 7 = pf_block_size_id p ∧ (4 <= pf_block_size_id p)%Z;
}.

Definition size_bytes (p : Prefs) : list Z := if (pf_content_size p =? 0)%Z then [] else le_bytes 8 (pf_content_size p).

Lemma flags_read p M : block_size (pf_block_size_id p) = Some M →
  ∃ flg bd, header_fields p = [flg; bd] ++ size_bytes p ∧ flags_of p flg bd.
Proof.
  intros Hb. assert (pf_block_size_id p = 4 ∨ pf_block_size_id p = 5 ∨ pf_block_size_id p = 6 ∨ pf_block_size_id p = 7)%Z as Hid.
  { unfold block_size in Hb. destruct (Z.eqb_spec (pf_block_size_id p) 4); [lia|]. destruct (Z.eqb_spec (pf_block_size_id p) 5); [lia|].
    destruct (Z.eqb_spec (pf_block_size_id p) 6); [lia|]. destruct (Z.eqb_spec (pf_block_size_id p) 7); [lia|done]. }
  unfold header_fields. eexists _, _. split; [done|].
  destruct p as [lv id [] [] [] cs]; simpl in *; destruct (0 <? cs)%Z eqn:Ecs; destruct Hid as [-> | [-> | [-> | ->]]]; constructor;
    cbn [pf_content_size pf_block_size_id pf_linked pf_block_checksum pf_content_checksum]; rewrite ?Ecs; vm_compute; split_and?; (done || discriminate).
Qed.

Section header_read.
Context (p : Prefs) (flg bd : Z) (Hflags : flags_of p flg bd).

Notation sz := (size_bytes p).
Notation ck := (header_checksum ([flg; bd] ++ sz)).
Let hb := le_bytes 4 MAGIC ++ ([flg; bd] ++ sz) ++ [ck].

Lemma length_size_bytes : (0 <= pf_content_size p)%Z → length sz = if (0 <? pf_content_size p)%Z then 8 else 0.
Proof.
  intros. unfold size_bytes. destruct (Z.eqb_spec (pf_content_size p) 0) as [->|]; [done|].
  rewrite (proj2 (Z.ltb_lt _ _)) by lia. apply length_le_bytes.
Qed.

Lemma length_header : length hb = 7 + length sz.
Proof. unfold hb. rewrite !length_app, length_le_bytes. simpl. lia. Qed.

Lemma full_size : (0 <= pf_content_size p)%Z → full_header_size flg = 7 + length sz.
Proof.
  intros. unfold full_header_size, HEADER_SIZE_MIN. rewrite (fl_size _ _ _ Hflags), (fl_dict_id _ _ _ Hflags), length_size_bytes by done.
  by destruct (_ <? _)%Z.
Qed.

(** A header there whole, whatever follows. *)
Lemma decode_whole M rest from d :
  block_size (pf_block_size_id p) = Some M → (0 <= pf_content_size p < 18446744073709551616)%Z →
  decode_header (hb ++ rest) from d = Ok (7 + length sz, set_stage Init
    (let d' := set_max_block_size M (set_info (info_of p) d) in
     if (0 <? pf_content_size p)%Z then set_frame_remaining (pf_content_size p) d' else d')).
Proof.
  intros Hb Hcs. destruct Hflags as [F1 F6 F3 F0 F5 F4 F2 [B7 B15] [B4 Bid]].
  assert (u32_at (hb ++ rest) 0 = Some MAGIC) as Hmagic.
  { unfold u32_at, hb. rewrite <-!app_assoc. change (le_bytes 4 MAGIC ++ ?x) with ([] ++ le_bytes 4 MAGIC ++ x).
    rewrite (get_slice_mid [] _ _ 0 4) by done. by vm_compute. }
  assert ((hb ++ rest) !! 4 = Some flg ∧ (hb ++ rest) !! 5 = Some bd) as [H4 H5] by done.
  assert (get_slice 4 (7 + length sz - 1) (hb ++ rest) = Some ([flg; bd] ++ sz)) as Hcov.
  { unfold hb. rewrite <-app_assoc, <-(app_assoc _ [ck]). apply get_slice_mid; [done|]. rewrite length_app. simpl. lia. }
  assert ((hb ++ rest) !! (7 + length sz - 1) = Some ck) as Hck.
  { replace (7 + length sz - 1) with (length (le_bytes 4 MAGIC ++ [flg; bd] ++ sz)) by (rewrite !length_app, length_le_bytes; simpl; lia).
    unfold hb. rewrite !(app_assoc (le_bytes 4 MAGIC)), <-(app_assoc _ [ck]). by apply list_lookup_middle. }
  unfold decode_header. rewrite length_app, length_header. rewrite (proj2 (Nat.ltb_ge _ _)) by (unfold HEADER_SIZE_MIN; lia).
  rewrite Hmagic. past. change (Z.land MAGIC SKIPPABLE_MASK =? SKIPPABLE0)%Z with false. change (MAGIC =? MAGIC)%Z with true. cbv iota.
  simpl negb. cbv iota. rewrite H4. past. rewrite F1, F6. simpl negb. cbv iota zeta. rewrite full_size by lia. rewrite (proj2 (Nat.ltb_ge _ _)) by lia.
  rewrite H5. past. rewrite B7, B4, B15. rewrite (proj2 (Z.ltb_ge _ _)) by done. simpl negb. cbv iota. rewrite Hcov. past. rewrite Hck. past.
  rewrite Z.eqb_refl. simpl negb. cbv iota. rewrite Hb. past. rewrite F3, F5, F4, F2. unfold info_of.
  pose proof (length_size_bytes ltac:(lia)) as Hsz. destruct (Z.ltb_spec 0 (pf_content_size p)) as [Hpos|Hz].
  - assert (get_slice 6 14 (hb ++ rest) = Some sz) as ->.
    { unfold hb. rewrite <-!app_assoc, (app_assoc (le_bytes 4 MAGIC)). apply get_slice_mid; [done|]. by rewrite Hsz. }
    past. unfold size_bytes in *. rewrite (proj2 (Z.eqb_neq _ _)) by lia. by rewrite le_val_small.
  - past. by replace (pf_content_size p) with 0%Z by lia.
Qed.

(** Its first bytes, where it is longer than the shortest. *)
Lemma decode_first d :
  (0 <= pf_content_size p)%Z → HEADER_SIZE_MIN < length hb →
  decode_header (take HEADER_SIZE_MIN hb) true d =
    Ok (HEADER_SIZE_MIN, set_stage StoreFrameHeader (set_tmp_in_target (length hb) (set_tmp_in_size HEADER_SIZE_MIN (set_info default_info d)))).
Proof.
  intros Hcs Hlong. destruct Hflags as [F1 F6 _ _ _ _ _ _ _]. rewrite length_header in *. unfold HEADER_SIZE_MIN in Hlong.
  assert (length (take HEADER_SIZE_MIN hb) = 7) as Hl7 by (rewrite length_take, length_header; unfold HEADER_SIZE_MIN; lia).
  assert (u32_at (take HEADER_SIZE_MIN hb) 0 = Some MAGIC ∧ take HEADER_SIZE_MIN hb !! 4 = Some flg) as [Hm7 H47] by (vm_compute; done).
  unfold decode_header. rewrite Hl7, Hm7. change (7 <? HEADER_SIZE_MIN) with false. past.
  change (Z.land MAGIC SKIPPABLE_MASK =? SKIPPABLE0)%Z with false. change (MAGIC =? MAGIC)%Z with true. simpl negb. cbv iota.
  rewrite H47. past. rewrite F1, F6. simpl negb. cbv iota zeta. by rewrite full_size, (proj2 (Nat.ltb_lt _ _)) by lia.
Qed.
End header_read.

Lemma header_is_ok p M whole :
  block_size (pf_block_size_id p) = Some M → (0 <= pf_content_size p < 18446744073709551616)%Z →
  pf_content_size p = 0%Z ∨ pf_content_size p = Z.of_nat (length whole) →
  header_ok (info_of p) M whole (header_bytes p).
Proof.
  intros Hb Hcs Hsize. destruct (flags_read p M Hb) as (flg & bd & Ef & Hflags). unfold header_bytes. rewrite Ef.
  pose proof (length_size_bytes p ltac:(lia)) as Hsz. constructor.
  - rewrite length_header, Hsz. unfold HEADER_SIZE_MIN, HEADER_SIZE_MAX. destruct (_ <? _)%Z; lia.
  - intros src from d _ Htake. rewrite <-(take_drop (length (le_bytes 4 MAGIC ++ ([flg; bd] ++ size_bytes p) ++ [header_checksum ([flg; bd] ++ size_bytes p)])) src).
    rewrite Htake, (decode_whole p flg bd Hflags M) by done. rewrite <-length_header with (flg := flg) (bd := bd). eexists. split; [done|].
    destruct (Z.ltb_spec 0 (pf_content_size p)); split_and!; try done; intros Hleft; simpl.
    + rewrite (proj2 (Z.eqb_neq _ _)) by lia. lia.
    + by rewrite (proj2 (Z.eqb_eq _ _)) by lia.
  - intros d Hlong. eexists. split; [apply decode_first; [done|lia|done]|]. by split_and!.
Qed.

(** ** What the encoder writes *)

(** Pieces of the content, each with whether its source stays in place. *)
Fixpoint updates (pieces : list (list Z * bool)) (out : list Z) (c : CCtx) : option (list Z * CCtx) :=
  match pieces with
  | [] => Some (out, c)
  | (src, stable) :: pieces => '(out, c) ← update src out stable c; updates pieces out c
  end.

Definition write_frame (p : Prefs) (cd : option CDict) (pieces : list (list Z * bool)) (c : CCtx) :
    option (result FrameError unit * list Z * CCtx) :=
  '(out, c) ← begin_frame p cd [] c;
  '(out, c) ← updates pieces out c;
  let '(r, out) := end_frame out c in Some (r, out, c).

Section encoder.
Context (p : Prefs) (M : nat) (D : list Z) (cd : option CDict).
Context (HM : block_size (pf_block_size_id p) = Some M) (Hlevel : (pf_level p < CLEVEL_MIN)%Z).
(* A digested dictionary is the decoder's. *)
Context (Hcd : ∀ k, cd = Some k → wf_bytes D ∧ new_cdict D = Some k).

Notation blocks_ok := (blocks_ok (info_of p) M D).
Notation block_bytes := (block_bytes (info_of p)).

Record writing (c : CCtx) (dn : list Z) : Prop := {
  wr_prefs : cc_prefs c = p;
  wr_max : cc_max_block_size c = M;
  wr_cdict : cc_cdict c = cd;
  wr_good : good (cc_fast c);
  wr_linked : pf_linked p = true → dict_of (cc_fast c) `suffix_of` D ++ dn;
  wr_low : pf_linked p = false → cd = None → low (cc_fast c);
}.

Lemma last_64k_suffix_of l : last_64k l `suffix_of` l.
Proof. exists (take (length l - Z.to_nat 65536) l). symmetry. apply take_drop. Qed.

Lemma ready_good f : good f → good (ready f cd) ∧ dict_of (ready f cd) `suffix_of` D.
Proof.
  intros Hg. unfold ready. destruct cd as [k|].
  - destruct (Hcd k eq_refl) as [Hwf Hnew]. unfold new_cdict in Hnew.
    destruct (load_dict_slow_loaded (last_64k D)) as (s & Hs & Hld); [by apply wf_last_64k|]. rewrite Hs in Hnew.
    injection Hnew as <-. simpl.
    destruct (attach_reset_good (Some s) f Hg) as (Hg' & Hd & Hc).
    { intros ? [= <-]. destruct Hld as [?|[? _]]; [by left|by right]. }
    split; [done|]. unfold dict_of. rewrite Hc, Hd. destruct (Z.eqb_spec (dict_size s) 0); [apply suffix_nil|].
    destruct Hld as [?|(_ & -> & _)]; [done|]. rewrite last_64k_idem. apply last_64k_suffix_of.
  - destruct (prepare_table_good 0 U32 f Hg ltac:(done)) as (Hg' & Hd & Hc & _). split; [done|].
    unfold dict_of, reset_fast. rewrite Hc, Hd. apply suffix_nil.
Qed.

Lemma block_size_range : 0 < M ∧ (Z.of_nat M <= 4194304)%Z.
Proof.
  unfold block_size in HM. repeat (case_match; [injection HM as <-; rewrite Z2Nat.id by done; split; [|done]; by apply (Z2Nat.inj_lt 0)|]). done.
Qed.

(** A block comes out whole, or not at all, in a state for the next. *)
Lemma compress_block_writes src out c dn :
  writing c dn → wf_bytes src → src ≠ [] → length src ≤ M →
  ∃ r out' c', compress_block src out (Z.of_nat (length src) - 1) c = Some (r, out', c') ∧ writing c' (dn ++ src) ∧
    cc_xxh c' = cc_xxh c ∧ cc_total_in c' = cc_total_in c ∧
    block_written (history (info_of p) D dn) src out (Some (Z.of_nat (length src) - 1)%Z) r out'.
Proof.
  intros [Hp Hm Hd Hg Hl Hlow] Hwf Hne Hlen. pose proof block_size_range as [_ HMax].
  assert (0 < length src) as Hpos by (destruct src; [done|simpl; lia]).
  assert (Z.of_nat (length src) <= MAX_INPUT_SIZE)%Z as Hmax by (unfold MAX_INPUT_SIZE; lia).
  assert (block_limit (Z.of_nat (length src) - 1) src = Some (Z.of_nat (length src) - 1)%Z) as Hlim.
  { unfold block_limit, compress_bound. rewrite (proj2 (Z.ltb_ge _ _)) by done.
    rewrite (proj2 (Z.leb_gt _ _)); [done|]. pose proof (Z.div_pos (Z.of_nat (length src)) 255). lia. }
  unfold compress_block. rewrite Hp, (proj2 (Z.ltb_lt _ _)) by done. cbv zeta.
  set (accel := if (pf_level p <? 0)%Z then (- pf_level p + 1)%Z else 1%Z). rewrite <-Hlim.
  destruct (pf_linked p) eqn:Hlinked; simpl negb; cbv iota.
  - destruct (compress_continue_writes (cc_fast c) src out (Z.of_nat (length src) - 1) accel Hg Hwf Hmax) as
      (r & out' & s' & -> & Hg' & Hd' & Hc' & Hw); [lia|]. past. destruct (Hc' Hne) as [_ Hnone].
    eexists _, _, _. split; [done|]. split_and!; try done.
    + constructor; simpl; try done; [|by rewrite Hlinked]. intros _. unfold dict_of. rewrite Hnone, Hd', app_assoc.
      etransitivity; [apply last_64k_suffix_of|by exists (D ++ dn)].
    + eapply block_written_suffix; [|exact Hw]. unfold history. simpl. rewrite Hlinked. by apply Hl.
  - rewrite Hd. destruct (ready_good (cc_fast c) Hg) as [Hg1 Hs1]. destruct cd as [k|] eqn:Ecd.
    + rewrite bool_decide_eq_true_2 by eauto. unfold init_stream_independent. rewrite Hp, Hd, (proj2 (Z.ltb_lt _ _)) by done.
      rewrite bool_decide_eq_true_2 by eauto. change (cc_fast (set_fast ?f c)) with f. simpl andb. cbv iota. change (cc_fast (set_fast ?f c)) with f.
      destruct (compress_continue_writes (ready (cc_fast c) (Some k)) src out (Z.of_nat (length src) - 1) accel Hg1 Hwf Hmax) as
        (r & out' & s' & -> & Hg' & Hd' & Hc' & Hw); [lia|]. past.
      eexists _, _, _. split; [done|]. split_and!; try done.
      * constructor; simpl; try done; intros; congruence.
      * eapply block_written_suffix; [|exact Hw]. unfold history. simpl. by rewrite Hlinked.
    + rewrite bool_decide_eq_false_2 by (by intros []).
      destruct (compress_fast_reset_writes (cc_fast c) src out (Z.of_nat (length src) - 1) accel Hg (Hlow eq_refl eq_refl) Hwf Hmax) as
        (r & out' & s' & -> & Hg' & Hc' & Hw); [lia|]. past. destruct (Hc' Hne) as [Ht _].
      eexists _, _, _. split; [done|]. split_and!; try done.
      * constructor; simpl; try done; intros; (congruence || by intros ?).
      * eapply block_written_suffix; [apply suffix_nil|exact Hw].
Qed.

(** The four bytes left free at [at_] filled in. *)
Lemma patch_middle {A} (a new old c : list A) : length new = length old → patch (length a) new (a ++ old ++ c) = a ++ new ++ c.
Proof.
  intros E. unfold patch. rewrite take_app_length. do 2 f_equal. rewrite E, <-length_app, app_assoc. apply drop_app_length.
Qed.

Lemma block_slice out x y : get_slice (length out + 4) (length out + 4 + length y) (out ++ le_bytes 4 x ++ y) = Some y.
Proof.
  rewrite <-(app_nil_r y) at 2. rewrite app_assoc. apply get_slice_mid; by rewrite length_app, length_le_bytes.
Qed.

Lemma make_block_writes src out c dn :
  writing c dn → wf_bytes src → src ≠ [] → length src ≤ M →
  ∃ b c', make_block src out c = Some (out ++ block_bytes b, c') ∧ block_data b = src ∧ blocks_ok dn [b] ∧
    writing c' (dn ++ src) ∧ cc_xxh c' = cc_xxh c ∧ cc_total_in c' = cc_total_in c.
Proof.
  intros Hw Hwf Hne Hlen. unfold make_block.
  destruct (compress_block_writes src (out ++ replicate 4 0%Z) c dn Hw Hwf Hne Hlen) as (r & out' & c' & -> & Hw' & Ex & Et & Hblock).
  past. rewrite (wr_prefs _ _ Hw'). pose proof block_size_range as [_ HMax].
  assert (u32 (Z.of_nat (length src)) = Z.of_nat (length src)) as Eu by (apply u32_small; lia).
  destruct Hblock as [[-> ->]|(block & -> & -> & Hpos & Hlim & Hdec)].
  - change (0 =? 0) with true. simpl orb. cbv iota beta zeta.
    rewrite firstn_all2 by (rewrite length_app, length_replicate; lia). rewrite <-app_assoc.
    rewrite patch_middle by (by rewrite length_le_bytes). rewrite Eu.
    exists (Stored src), c'. unfold block_bytes. cbn [block_head payload block_data fi_block_checksum info_of].
    destruct (pf_block_checksum p).
    + rewrite block_slice. past. rewrite <-!app_assoc. by split_and!.
    + rewrite app_nil_r. by split_and!.
  - specialize (Hlim _ eq_refl).
    rewrite (proj2 (Nat.eqb_neq _ _)), (proj2 (Nat.leb_gt _ _)) by lia. simpl orb. cbv iota beta zeta. rewrite <-app_assoc.
    rewrite patch_middle by (by rewrite length_le_bytes). rewrite u32_small by lia.
    assert (blocks_ok dn [Packed block src]) as Hok.
    { simpl. split_and!; try done; [lia|intros ->; simpl in Hpos; lia|]. rewrite (Hdec _ M []); [done|done|done]. }
    exists (Packed block src), c'. unfold block_bytes. cbn [block_head payload block_data fi_block_checksum info_of].
    destruct (pf_block_checksum p).
    + rewrite block_slice. past. rewrite <-!app_assoc. by split_and!.
    + rewrite app_nil_r. by split_and!.
Qed.

Lemma content_app b1 b2 : content (b1 ++ b2) = content b1 ++ content b2.
Proof. unfold content. by rewrite fmap_app, join_app. Qed.

Lemma blocks_ok_app dn b1 b2 : blocks_ok dn (b1 ++ b2) ↔ blocks_ok dn b1 ∧ blocks_ok (dn ++ content b1) b2.
Proof.
  revert dn. induction b1 as [|b b1 IH]; intros dn.
  - unfold content. simpl. rewrite app_nil_r. naive_solver.
  - change (content (b :: b1)) with (block_data b ++ content b1). rewrite app_assoc. simpl. rewrite IH. tauto.
Qed.

(** The blocks written between two states. *)
Definition wrote (c c' : CCtx) (dn src out out' : list Z) : Prop :=
  ∃ blocks, out' = out ++ mjoin (block_bytes <$> blocks) ∧ content blocks = src ∧ blocks_ok dn blocks ∧
    writing c' (dn ++ src) ∧ cc_xxh c' = cc_xxh c ∧ cc_total_in c' = cc_total_in c.

Lemma wrote_app c c1 c2 dn s1 s2 out out1 out2 :
  wrote c c1 dn s1 out out1 → wrote c1 c2 (dn ++ s1) s2 out1 out2 → wrote c c2 dn (s1 ++ s2) out out2.
Proof.
  intros (b1 & -> & <- & Hok1 & _ & Ex1 & Et1) (b2 & -> & <- & Hok2 & Hw & Ex2 & Et2).
  exists (b1 ++ b2). rewrite fmap_app, join_app, content_app, app_assoc, blocks_ok_app. rewrite <-app_assoc in Hw.
  split_and!; try done; congruence.
Qed.

Lemma make_block_wrote src out c dn :
  writing c dn → wf_bytes src → src ≠ [] → length src ≤ M →
  ∃ out' c', make_block src out c = Some (out', c') ∧ wrote c c' dn src out out'.
Proof.
  intros Hw Hwf Hne Hlen. destruct (make_block_writes src out c dn Hw Hwf Hne Hlen) as (b & c' & -> & Hb & Hok & Hw' & Hx & Ht).
  eexists _, c'. split; [done|]. exists [b].
  split; [by cbn; rewrite app_nil_r|]. split; [|exact (conj Hok (conj Hw' (conj Hx Ht)))].
  unfold content. cbn. by rewrite app_nil_r.
Qed.

Lemma make_blocks_wrote fuel src out c dn :
  writing c dn → wf_bytes src → length src < fuel →
  ∃ out' c', make_blocks fuel src out c = Some (out', c') ∧ wrote c c' dn src out out'.
Proof.
  revert src out c dn. induction fuel as [|fuel IH]; intros src out c dn Hw Hwf Hfuel; [lia|].
  simpl. rewrite (wr_max _ _ Hw). pose proof block_size_range as [HM0 _].
  assert (wf_bytes (take M src) ∧ wf_bytes (drop M src)) as [Hwf1 Hwf2] by (by rewrite <-wf_app, take_drop).
  destruct (Nat.leb_spec M (length src)) as [Hle|Hlt].
  - destruct (make_block_wrote (take M src) out c dn Hw Hwf1) as (out1 & c1 & -> & Hw1).
    { intros E. apply (f_equal length) in E. rewrite length_take in E. simpl in E. lia. }
    { rewrite length_take. lia. }
    past. assert (writing c1 (dn ++ take M src)) as Hc1 by (by destruct Hw1 as (? & _ & _ & _ & ? & _)).
    destruct (IH (drop M src) out1 c1 (dn ++ take M src) Hc1 Hwf2) as (out2 & c2 & -> & Hw2); [rewrite length_drop; lia|].
    exists out2, c2. split; [done|]. rewrite <-(take_drop M src). by eapply wrote_app.
  - case_bool_decide as Hne.
    + subst src. exists out, c. split; [done|]. exists []. simpl. rewrite !app_nil_r. by split_and!.
    + apply make_block_wrote; [done|done|done|lia].
Qed.

(** Between the header and the end: what was written is blocks of what has been given. *)
Record begun (c : CCtx) (out0 out dn : list Z) (blocks : list Block) : Prop := {
  bg_writing : writing c dn;
  bg_out : out = out0 ++ mjoin (block_bytes <$> blocks);
  bg_content : content blocks = dn;
  bg_ok : blocks_ok [] blocks;
  bg_hash : pf_content_checksum p = true → cc_xxh c = xxh_write xxh_new dn;
  bg_total : pf_content_size p ≠ 0%Z → cc_total_in c = u64 (Z.of_nat (length dn));
}.

Lemma u64_add a b : u64 (u64 a + b) = u64 (a + b).
Proof. unfold u64. by rewrite Zplus_mod_idemp_l. Qed.

Lemma update_begun c out0 out dn blocks src stable :
  begun c out0 out dn blocks → wf_bytes src →
  ∃ out' c' blocks', update src out stable c = Some (out', c') ∧ begun c' out0 out' (dn ++ src) blocks'.
Proof.
  intros [Hw -> Hcontent Hok Hhash Htotal] Hwf. unfold update.
  destruct (make_blocks_wrote (S (length src)) src (out0 ++ mjoin (block_bytes <$> blocks)) c dn Hw Hwf) as
    (out1 & c1 & -> & b1 & -> & Hb1 & Hok1 & [Hp Hm Hd Hg Hl Hlow] & Ex & Et); [lia|]. past.
  eexists _, _, (blocks ++ b1). split; [done|]. constructor; simpl.
  - destruct (_ && _ && _ && _) eqn:E; [|by constructor]. destruct (save_dict_good 65536 _ Hg) as (Hg' & Hs & Hc & Ht & Ho).
    constructor; simpl; try done.
    + intros Hlinked. specialize (Hl Hlinked). unfold dict_of in *. rewrite Hc. destruct (dict_ctx (cc_fast c1)); [done|]. by etransitivity.
    + unfold low. rewrite Ht, Ho. done.
  - by rewrite fmap_app, join_app, app_assoc.
  - rewrite content_app. congruence.
  - rewrite blocks_ok_app. split; [done|]. by rewrite Hcontent.
  - intros Hc. rewrite Hp, Hc, Ex, (Hhash Hc). by rewrite xxh_write_app.
  - intros Hsize. rewrite Et, (Htotal Hsize), u64_add, length_app, Nat2Z.inj_add. done.
Qed.

Lemma updates_begun pieces c out0 out dn blocks :
  begun c out0 out dn blocks → Forall (λ x, wf_bytes x.1) pieces →
  ∃ out' c' blocks', updates pieces out c = Some (out', c') ∧ begun c' out0 out' (dn ++ mjoin pieces.*1) blocks'.
Proof.
  intros Hb Hall. revert c out dn blocks Hb. induction Hall as [|[src stable] pieces Hwf _ IH]; intros c out dn blocks Hb.
  - exists out, c, blocks. simpl. by rewrite app_nil_r.
  - simpl. destruct (update_begun c out0 out dn blocks src stable Hb Hwf) as (out1 & c1 & b1 & -> & Hb1). past.
    destruct (IH _ _ _ _ Hb1) as (out2 & c2 & b2 & -> & Hb2). exists out2, c2, b2. by rewrite app_assoc.
Qed.

(** A frame begun: its header, with the size checked where it was announced. *)
Lemma begin_frame_begun c :
  good (cc_fast c) → low (cc_fast c) →
  ∃ c', begin_frame p cd [] c = Some (header_bytes p, c') ∧ begun c' (header_bytes p) (header_bytes p) [] [].
Proof.
  intros Hg Hlow. unfold begin_frame. rewrite (proj2 (Z.ltb_lt (pf_level p) CLEVEL_MIN)) by done. rewrite HM. cbv zeta.
  set (chosen := if (ctx_rank (cc_alloc c) <? ctx_rank CFast)%Z then (CFast, CFast, init)
    else if negb (ctx_rank (cc_type c) =? ctx_rank CFast)%Z then (cc_alloc c, CFast, init) else (cc_alloc c, cc_type c, cc_fast c)).
  assert (good chosen.2 ∧ low chosen.2) as [Hg' Hlow'].
  { unfold chosen. destruct (_ <? _)%Z; [split; [apply init_good|by intros _]|]. destruct (negb _); [split; [apply init_good|by intros _]|done]. }
  destruct chosen as [[alloc type] f]. simpl in Hg', Hlow'. past. eexists. split; [done|].
  destruct (ready_good f Hg') as [Hg1 Hs1].
  constructor; try done.
  - unfold init_stream. simpl. destruct (pf_linked p) eqn:Hl.
    + rewrite (proj2 (Z.ltb_lt _ _)), orb_true_r by done. constructor; simpl; try done; [|congruence]. by rewrite app_nil_r.
    + constructor; simpl; try done; congruence.
  - by rewrite app_nil_r.
  - intros _. rewrite xxh_write_nil. destruct (pf_linked p); [unfold init_stream; by destruct (_ && _)|done].
  - intros Hsize. destruct (pf_linked p); [unfold init_stream; destruct (_ && _)|]; simpl; by rewrite (proj2 (Z.eqb_neq _ _)) by done.
Qed.

(** The whole frame, and what its end reports. *)
Lemma write_frame_writes pieces c :
  good (cc_fast c) → low (cc_fast c) → Forall (λ x, wf_bytes x.1) pieces →
  let whole := mjoin pieces.*1 in
  ∃ c' blocks,
    write_frame p cd pieces c =
      Some (if decide (pf_content_size p = 0%Z ∨ pf_content_size p = u64 (Z.of_nat (length whole))) then Ok tt else Err FrameSizeWrong,
        header_bytes p ++ blocks_bytes (info_of p) [] blocks whole, c') ∧
    blocks_ok [] blocks ∧ content blocks = whole ∧ good (cc_fast c').
Proof.
  intros Hg Hlow Hall whole. unfold write_frame. destruct (begin_frame_begun c Hg Hlow) as (c1 & -> & Hb). past.
  destruct (updates_begun pieces c1 _ _ _ _ Hb Hall) as (out & c2 & blocks & -> & [Hw -> Hcontent Hok Hhash Htotal]). past.
  simpl in Hcontent, Hhash, Htotal. fold whole in Hcontent, Hhash, Htotal. unfold end_frame. rewrite (wr_prefs _ _ Hw).
  assert (negb (pf_content_size p =? 0)%Z && negb (pf_content_size p =? cc_total_in c2)%Z =
    negb (bool_decide (pf_content_size p = 0%Z ∨ pf_content_size p = u64 (Z.of_nat (length whole))))) as ->.
  { destruct (Z.eqb_spec (pf_content_size p) 0) as [E|E]; simpl.
    - by rewrite bool_decide_eq_true_2 by (by left).
    - rewrite (Htotal E). f_equal. destruct (Z.eqb_spec (pf_content_size p) (u64 (Z.of_nat (length whole)))).
      + by rewrite bool_decide_eq_true_2 by (by right).
      + by rewrite bool_decide_eq_false_2 by (by intros []). }
  assert ((if pf_content_checksum p then ((header_bytes p ++ mjoin (block_bytes <$> blocks)) ++ replicate 4 0%Z) ++ le_bytes 4 (xxh_finish (cc_xxh c2))
    else (header_bytes p ++ mjoin (block_bytes <$> blocks)) ++ replicate 4 0%Z) = header_bytes p ++ blocks_bytes (info_of p) [] blocks whole) as ->.
  { unfold blocks_bytes, suffix_bytes. cbn [fi_content_checksum info_of].
    destruct (pf_content_checksum p); rewrite <-!app_assoc; [|done]. rewrite Hhash, xxh_oneshot_is by done. by rewrite app_nil_r. }
  destruct (decide _) as [Hd|Hd].
  - rewrite bool_decide_eq_true_2 by done. simpl. exists c2, blocks. by destruct Hw.
  - rewrite bool_decide_eq_false_2 by done. simpl. exists c2, blocks. by destruct Hw.
Qed.
End encoder.

Lemma blocks_bytes_more i more blocks whole : blocks_bytes i more blocks whole = blocks_bytes i [] blocks whole ++ more.
Proof. unfold blocks_bytes, suffix_bytes. by rewrite <-!app_assoc, app_nil_l. Qed.

(** C16: a frame is read back as its content, in whatever pieces it is written and read.  For any
    preferences below the high compression levels (any block size, linked blocks or not, checksums or not,
    the content's size announced or not), any dictionary digested, any content given in any pieces and any
    state of the encoder fit for a frame: the encoder writes a frame without a panic.  A decoder between
    frames with the same dictionary that is then called with the frame's bytes, followed by any others, in
    any pieces, with any room for the output and whether checksums are skipped or not, never fails.  What
    it hands over is always the beginning of the content; when it reports the end, it has handed over all of it
    and taken the frame's bytes and not one more, and is between frames again.  And it ends, after as many
    calls with a byte and room for a byte as there are bytes of input and content. *)
Theorem lz4_frame_roundtrip p M D cd c (pieces : list (list Z * bool)) :
  block_size (pf_block_size_id p) = Some M → (pf_level p < CLEVEL_MIN)%Z →
  (∀ k, cd = Some k → wf_bytes D ∧ new_cdict D = Some k) →
  good (cc_fast c) → low (cc_fast c) → Forall (λ x, wf_bytes x.1) pieces →
  let whole := mjoin pieces.*1 in
  (Z.of_nat (length whole) < 18446744073709551616)%Z →
  pf_content_size p = 0%Z ∨ pf_content_size p = Z.of_nat (length whole) →
  ∃ frame c', write_frame p cd pieces c = Some (Ok tt, frame, c') ∧ good (cc_fast c') ∧
    ∀ d more calls, between D d →
      ∃ d' out rest ended todo, feed calls d (frame ++ more) = Ok (d', out, rest, ended) ∧ whole = out ++ todo ∧
        (if ended : bool then todo = [] ∧ rest = more ∧ between D d'
         else Forall (λ x, 1 ≤ x.1.1 ∧ 1 ≤ x.1.2) calls → length calls ≤ length (frame ++ more) + length whole).
Proof.
  intros HM Hlevel Hcd Hg Hlow Hall whole Hlen Hsize.
  destruct (write_frame_writes p M D cd HM Hlevel Hcd pieces c Hg Hlow Hall) as (c' & blocks & -> & Hok & Hcontent & Hg').
  fold whole in Hcontent |- *. rewrite decide_True by (by rewrite u64_small by lia).
  eexists _, c'. split; [done|]. split; [done|]. intros d more calls Hd.
  destruct (feed_goes (info_of p) M D more whole (header_bytes p) blocks calls d []
    ((header_bytes p ++ blocks_bytes (info_of p) [] blocks whole) ++ more) whole) as (d' & out & rest & ended & todo & Hfeed & Hwhole & Hend).
  - pose proof (block_size_range p M HM). lia.
  - done.
  - apply header_is_ok; [done|lia|done].
  - done.
  - done.
  - intros skip. pose proof (resumed_between (info_of p) M D more whole (header_bytes p) blocks skip d Hd) as Hr.
    unfold frame_bytes in Hr. by rewrite blocks_bytes_more, app_assoc in Hr.
  - by exists d', out, rest, ended, todo.
Qed.
End proofs.

(** ** A frame *)

(** A hasher that adds up, and a frame with linked blocks, checksums and a dictionary. *)
#[local] Instance sum_xxh : Xxh := {
  xstate := list Z;
  xxh_new := [];
  xxh_write := app;
  xxh_finish l := (foldr Z.add 0 l mod 4294967296)%Z;
  xxh_oneshot l := (foldr Z.add 0 l mod 4294967296)%Z;
}.
#[local] Instance sum_xxh_laws : XxhLaws.
Proof.
  split.
  - intros s. apply app_nil_r.
  - intros s a b. symmetry. apply app_assoc.
  - intros s. by apply Z.mod_pos_bound.
  - done.
Qed.

Definition sample_prefs : Prefs := mk_prefs 1 4 true true true 82.
Definition sample_pieces : list (list Z * bool) := [(sample_text ++ [1; 2; 3; 4; 5]%Z, false); (sample_text ++ [6]%Z, true); ([], false); ([7; 8; 9; 10]%Z, false)].

Lemma lz4_frame_roundtrip_witness :
  let whole := mjoin sample_pieces.*1 in
  ∃ frame c', write_frame sample_prefs (new_cdict sample_text) sample_pieces default_cctx = Some (Ok tt, frame, c') ∧
    length frame = 71 ∧
    ∃ d' out rest ended todo,
      feed (replicate 200 (2, 1, false)) (new_dctx sample_text) (frame ++ [77]%Z) = Ok (d', out, rest, ended) ∧
      whole = out ++ todo ∧ (if ended : bool then todo = [] ∧ rest = [77]%Z ∧ between sample_text d' else False).
Proof.
  assert (wf_bytes sample_text) as Hwf by (by apply wf_bytes_check; vm_compute).
  assert (∀ k, new_cdict sample_text = Some k → wf_bytes sample_text ∧ new_cdict sample_text = Some k) as Hd.
  { intros k E. split; assumption. }
  destruct (lz4_frame_roundtrip sample_prefs (Z.to_nat (Z.shiftl 64 10)) sample_text (new_cdict sample_text) default_cctx sample_pieces
    eq_refl eq_refl Hd init_good ltac:(by intros _)) as (frame & c' & Hw & _ & Hread).
  - unfold sample_pieces. do 4 (apply Forall_cons; split; [by apply wf_bytes_check; vm_compute|]). constructor.
  - by vm_compute.
  - by right.
  - exists frame, c'. split; [exact Hw|].
    assert ((λ x, length x.1.2) <$> write_frame sample_prefs (new_cdict sample_text) sample_pieces default_cctx = Some 71) as E by (vm_compute; reflexivity).
    rewrite Hw in E. injection E as E. split; [exact E|].
    destruct (Hread (new_dctx sample_text) [77]%Z (replicate 200 (2, 1, false)) ltac:(by constructor)) as
      (d' & out & rest & ended & todo & Hfeed & Hout & Hend).
    exists d', out, rest, ended, todo. split; [exact Hfeed|]. split; [exact Hout|]. destruct ended; [exact Hend|].
    exfalso. assert (200 <= length (frame ++ [77]%Z) + length (mjoin sample_pieces.*1)) as Hle.
    { apply Hend. apply Forall_replicate. simpl. lia. }
    rewrite length_app, E in Hle. vm_compute in Hle. lia.
Defined.
