(* ===== verification/XzIndex.v ===== *)
(** * The index of .xz files

    What [xz --list] of the guest's archivers shows (tools/rust/archive/src/xzindex.rs): the streams of a file, each
    with its blocks, read from the footers and indexes at the streams' ends, from the last stream backwards.

    A file is its bytes.  Sizes are [u64] and wrap where the source adds them; a position that was not checked
    against the file is an I/O error.  [file] writes the format, and [listing] is what is in it. *)
From S2P Require Import Prelude Str Zip.

Local Open Scope Z_scope.

Definition MAGIC : str := [253; 55; 122; 88; 90; 0].
Definition FOOTER_MAGIC : str := [89; 90].

(** [Unending] is for loops out of fuel: no error of the source, and never returned. *)
Inductive ListError : Type := Io | Format | Corrupt | TooSmall | Unending.

Record Block := mk_block {
  number_in_stream : Z;
  number_in_file : Z;
  compressed_file_offset : Z;
  uncompressed_file_offset : Z;
  total_size : Z;
  block_uncompressed : Z;
}.
Record Stream := mk_stream {
  number : Z;
  check : Z;
  compressed_offset : Z;
  uncompressed_offset : Z;
  compressed_size : Z;
  uncompressed_size : Z;
  padding : Z;
  blocks : list Block;
}.
Record FileInfo := mk_info { streams : list Stream; file_size : Z }.

(** ** What is said of a file *)

Definition sum (l : list Z) : Z := foldr Z.add 0 l.
Definition block_count (i : FileInfo) : Z := u64 (sum ((λ s, Z.of_nat (length (blocks s))) <$> streams i)).
Definition file_uncompressed_size (i : FileInfo) : Z := u64 (sum (uncompressed_size <$> streams i)).
Definition file_padding (i : FileInfo) : Z := u64 (sum (padding <$> streams i)).
(** A bit for each check there is. *)
Definition checks (i : FileInfo) : Z := foldl (λ m s, Z.lor m (Z.shiftl 1 (check s))) 0 (streams i).

(** ** Parts of the format *)

Definition crc_step (crc : Z) : Z :=
  if Z.odd crc then Z.lxor (Z.shiftr crc 1) 0xEDB88320 else Z.shiftr crc 1.
Definition crc32 (data : str) : Z :=
  Z.lxor 0xffffffff (foldl (λ crc b, Nat.iter 8 crc_step (Z.lxor crc b)) 0xffffffff data).

(** [vli]: a number of at most 9 bytes, 7 bits each, of which the last is not zero. *)
Fixpoint vli_loop (n : nat) (i v : Z) (s : str) : result ListError (Z * str) :=
  match n, s with
  | S n, b :: s =>
      let v := Z.lor v (Z.shiftl (Z.land b 127) (7 * i)) in
      if Z.land b 128 =? 0 then if (0 <? i) && (b =? 0) then Err Corrupt else Ok (v, s)
      else vli_loop n (i + 1) v s
  | _, _ => Err Corrupt
  end.
Definition vli (s : str) : result ListError (Z * str) := vli_loop 9 0 0 s.

Definition check_size (check : Z) : Z :=
  if check =? 0 then 0
  else if check <=? 3 then 4
  else if check <=? 6 then 8
  else if check <=? 9 then 16
  else if check <=? 12 then 32
  else 64.

(** [read_at]: seeking, then exactly so many bytes. *)
Definition read_at (f : str) (off n : Z) : result ListError str :=
  if (off <? 0) || (n <? 0) || (Z.of_nat (length f) <? off + n) then Err Io
  else Ok (slice (Z.to_nat off) (Z.to_nat (off + n)) f).

(** A size rounded up to four bytes. *)
Definition round4 (n : Z) : Z := Z.land (n + 3) (Z.lnot 3).

(** ** Reading *)

(** The blocks of an index from the [i]th on, with the sizes of those before it: the blocks, the sizes and
    the rest of the index. *)
Fixpoint read_blocks (fuel : nat) (check i count blocks_size uncompressed : Z) (s : str) : result ListError (list Block * Z * Z * str) :=
  if count <=? i then Ok ([], blocks_size, uncompressed, s)
  else match fuel with
       | O => Err Unending
       | S fuel =>
           '(unpadded, s) ← vli s;
           '(size, s) ← vli s;
           if unpadded <? 5 + check_size check then Err Corrupt
           else
             let total := round4 unpadded in
             '(bs, blocks_size', uncompressed', s) ←
               read_blocks fuel check (i + 1) count (u64 (blocks_size + total)) (u64 (uncompressed + size)) s;
             Ok (mk_block (i + 1) 0 blocks_size uncompressed total size :: bs, blocks_size', uncompressed', s)
       end.

(** Zero words before a position. *)
Fixpoint skip_padding (fuel : nat) (f : str) (pos padding : Z) : result ListError (Z * Z) :=
  match fuel with
  | O => Err Unending
  | S fuel =>
      if pos <? 12 then Err Corrupt
      else
        w ← read_at f (pos - 4) 4;
        if bool_decide (w = [0; 0; 0; 0]) then skip_padding fuel f (pos - 4) (padding + 4) else Ok (pos, padding)
  end.

Definition must (b : bool) : result ListError () := if b then Ok () else Err Corrupt.

(** The footer that ends at a position: the check, and the index's size. *)
Definition read_footer (f : str) (pos : Z) : result ListError (Z * Z * str) :=
  _ ← must (32 <=? pos);
  footer ← read_at f (pos - 12) 12;
  _ ← must (bool_decide (slice 10 12 footer = FOOTER_MAGIC) && (crc32 (slice 4 10 footer) =? le_val (slice 0 4 footer)));
  _ ← must ((byte_at footer 8 =? 0) && (Z.land (byte_at footer 9) 240 =? 0));
  Ok (Z.land (byte_at footer 9) 15, (le_val (slice 4 8 footer) + 1) * 4, slice 8 10 footer).

(** The index: its blocks and their sizes. *)
Definition read_index (check : Z) (index : str) : result ListError (list Block * Z * Z) :=
  let body := take (length index - 4) index in
  _ ← must ((byte_at index 0 =? 0) && (crc32 body =? le_val (drop (length index - 4) index)));
  '(count, s) ← vli (drop 1 body);
  '(bs, blocks_size, uncompressed, s) ← read_blocks (S (length body)) check 0 count 0 0 s;
  _ ← must (forallb (λ b, b =? 0) s);
  Ok (bs, blocks_size, uncompressed).

(** The stream that ends at a position, and where it starts. *)
Definition read_stream (f : str) (end_ : Z) : result ListError (Stream * Z) :=
  '(pos, padding) ← skip_padding (S (Z.to_nat end_)) f end_ 0;
  '(check, index_size, flags) ← read_footer f pos;
  _ ← must (index_size + 12 + 12 <=? pos);
  let index_start := pos - 12 - index_size in
  index ← read_at f index_start index_size;
  '(bs, blocks_size, uncompressed) ← read_index check index;
  _ ← must (u64 (blocks_size + 12) <=? index_start);
  let stream_start := u64 (index_start - blocks_size - 12) in
  header ← read_at f stream_start 12;
  _ ← must (bool_decide (slice 0 6 header = MAGIC) && bool_decide (slice 6 8 header = flags) &&
            (crc32 (slice 6 8 header) =? le_val (slice 8 12 header)));
  Ok (mk_stream 0 check stream_start 0 (pos - stream_start) uncompressed padding bs, stream_start).

Fixpoint read_streams (fuel : nat) (f : str) (pos : Z) (after : list Stream) : result ListError (list Stream) :=
  if pos <=? 0 then Ok after
  else match fuel with
       | O => Err Unending
       | S fuel => '(s, pos) ← read_stream f pos; read_streams fuel f pos (s :: after)
       end.

(** Numbers and offsets within the file. *)
Fixpoint place_blocks (start unc nblock : Z) (bs : list Block) : list Block :=
  match bs with
  | [] => []
  | b :: bs =>
      mk_block (number_in_stream b) (nblock + 1) (u64 (compressed_file_offset b + u64 (start + 12)))
        (u64 (uncompressed_file_offset b + unc)) (total_size b) (block_uncompressed b) :: place_blocks start unc (nblock + 1) bs
  end.
Fixpoint place (i unc nblock : Z) (ss : list Stream) : list Stream :=
  match ss with
  | [] => []
  | s :: ss =>
      mk_stream (i + 1) (check s) (compressed_offset s) unc (compressed_size s) (uncompressed_size s) (padding s)
        (place_blocks (compressed_offset s) unc nblock (blocks s)) ::
      place (i + 1) (u64 (unc + uncompressed_size s)) (nblock + Z.of_nat (length (blocks s))) ss
  end.

(** [parse] *)
Definition parse (f : str) : result ListError FileInfo :=
  let size := Z.of_nat (length f) in
  if size <? 24 then Err TooSmall
  else
    head ← read_at f 0 6;
    if negb (bool_decide (head = MAGIC)) then Err Format
    else
      _ ← must ((size mod 4 =? 0) && (32 <=? size));
      ss ← read_streams (S (length f)) f size [];
      Ok (mk_info (place 0 0 0 ss) size).

(** ** The format, written *)

(** A stream: its check, the unpadded and uncompressed size of every block, the bytes of the blocks, how many zeros fill the
    index, and the words of padding after it.  The format fills an index up to a multiple of four bytes, so with at
    most three zeros; the code takes any number of them, and so does what is proved of it: of a stream with four or
    more it lists what the rest says, where a strict reader would refuse the file. *)
Record XzStream := mk_xz {
  xz_check : Z;
  xz_blocks : list (Z * Z);
  xz_data : str;
  xz_fill : nat;
  xz_padding : nat;
}.

Fixpoint vli_bytes (n : nat) (v : Z) : str :=
  match n with
  | O => []
  | S n => if v <? 128 then [v] else (128 + v mod 128) :: vli_bytes n (v / 128)
  end.
Definition xz_vli (v : Z) : str := vli_bytes 9 v.

Definition xz_flags (x : XzStream) : str := [0; xz_check x].
Definition xz_records (bs : list (Z * Z)) : str := mjoin ((λ b, xz_vli b.1 ++ xz_vli b.2) <$> bs).
Definition xz_body (x : XzStream) : str :=
  [0] ++ xz_vli (Z.of_nat (length (xz_blocks x))) ++ xz_records (xz_blocks x) ++ replicate (xz_fill x) 0.
Definition xz_index (x : XzStream) : str := xz_body x ++ le_bytes 4 (crc32 (xz_body x)).
Definition xz_header (x : XzStream) : str := MAGIC ++ xz_flags x ++ le_bytes 4 (crc32 (xz_flags x)).
Definition xz_fields (x : XzStream) : str := le_bytes 4 (Z.of_nat (length (xz_index x)) / 4 - 1) ++ xz_flags x.
Definition xz_footer (x : XzStream) : str := le_bytes 4 (crc32 (xz_fields x)) ++ xz_fields x ++ FOOTER_MAGIC.
Definition xz_packed (x : XzStream) : str := xz_header x ++ xz_data x ++ xz_index x ++ xz_footer x.
Definition xz_bytes (x : XzStream) : str := xz_packed x ++ replicate (4 * xz_padding x) 0.
Definition file (xs : list XzStream) : str := mjoin (xz_bytes <$> xs).

(** What the list says: every stream and block with its place in the file and in the data. *)
Fixpoint list_blocks (i nblock at_ unc : Z) (bs : list (Z * Z)) : list Block :=
  match bs with
  | [] => []
  | (unpadded, size) :: bs =>
      mk_block (i + 1) (nblock + 1) at_ unc (round4 unpadded) size ::
      list_blocks (i + 1) (nblock + 1) (at_ + round4 unpadded) (unc + size) bs
  end.
Definition xz_uncompressed (x : XzStream) : Z := sum (snd <$> xz_blocks x).
Fixpoint list_streams (i nblock at_ unc : Z) (xs : list XzStream) : list Stream :=
  match xs with
  | [] => []
  | x :: xs =>
      mk_stream (i + 1) (xz_check x) at_ unc (Z.of_nat (length (xz_packed x))) (xz_uncompressed x) (4 * Z.of_nat (xz_padding x))
        (list_blocks 0 nblock (at_ + 12) unc (xz_blocks x)) ::
      list_streams (i + 1) (nblock + Z.of_nat (length (xz_blocks x))) (at_ + Z.of_nat (length (xz_bytes x)))
        (unc + xz_uncompressed x) xs
  end.
Definition listing (xs : list XzStream) : FileInfo := mk_info (list_streams 0 0 0 0 xs) (Z.of_nat (length (file xs))).

(** Blocks whose sizes fit their fields and are those of the data, and an index of whole words that the footer can say. *)
Record wf_xz (x : XzStream) : Prop := {
  wf_check : 0 <= xz_check x < 16;
  wf_blocks : Forall (λ b : Z * Z, 5 + check_size (xz_check x) <= b.1 < 2 ^ 63 ∧ 0 <= b.2 < 2 ^ 63) (xz_blocks x);
  wf_data : Z.of_nat (length (xz_data x)) = sum ((λ b, round4 b.1) <$> xz_blocks x);
  wf_data_bytes : wf_bytes (xz_data x);
  wf_index : (length (xz_index x) mod 4)%nat = 0%nat ∧ Z.of_nat (length (xz_index x)) <= 2 ^ 34;
}.

(** ** An example: two streams with padding between them, and one whose sizes wrap *)

Definition example_stream : XzStream := mk_xz 1 [(13, 100); (9, 5)] (replicate 28 7) 2 1.
Definition example_file : str := file [example_stream; mk_xz 0 [] [] 2 0].
Example xz_example :
  parse example_file = Ok (listing [example_stream; mk_xz 0 [] [] 2 0]) ∧ length example_file = 100%nat.
Proof. vm_compute. done. Qed.

(** Two blocks of 2^63 bytes each: the sum of the sizes wraps to nothing, and the file is listed. *)
Definition huge_index : str := [0] ++ xz_vli 2 ++ xz_records [(2 ^ 63 - 1, 0); (2 ^ 63 - 1, 0)] ++ [0; 0].
Definition huge_file : str :=
  xz_header (mk_xz 0 [] [] 0 0) ++ huge_index ++ le_bytes 4 (crc32 huge_index) ++
  let fields := le_bytes 4 (Z.of_nat (length huge_index) / 4) ++ [0; 0] in le_bytes 4 (crc32 fields) ++ fields ++ FOOTER_MAGIC.
Example xz_sizes_wrap :
  match parse huge_file with Ok i => total_size <$> mjoin (blocks <$> streams i) | Err _ => [] end = [2 ^ 63; 2 ^ 63].
Proof. vm_compute. done. Qed.

(** ** Numbers *)

Lemma crc_step_bit c : 0 <= c → crc_step c = crc_bit c.
Proof.
  intros Hc. unfold crc_step, crc_bit. rewrite Zodd_mod.
  replace (Z.land c 1) with (c mod 2) by (symmetry; apply (Z.land_ones c 1); lia).
  destruct (Z.mod_pos_bound c 2); [lia|]. destruct (decide (c mod 2 = 0)) as [->|].
  - change (u32 (- 0)) with 0. by rewrite Z.land_0_r, Z.lxor_0_r.
  - replace (c mod 2) with 1 by lia. done.
Qed.
Lemma crc32_zip l : wf_bytes l → crc32 l = Zip.crc32 l.
Proof.
  intros Hl. unfold crc32, Zip.crc32. f_equal. assert (0 <= 0xffffffff < 4294967296) as Hc by lia. revert Hc. generalize 0xffffffff.
  induction Hl as [|b l Hb _ IH]; intros c Hc; [done|]. cbn [foldl].
  assert (Nat.iter 8 crc_step (Z.lxor c b) = crc_byte c b) as ->; [|by apply IH, crc_byte_range].
  unfold crc_byte. unfold is_byte in Hb. assert (0 <= Z.lxor c b < 4294967296) as Hx by (apply lxor_u32; lia). revert Hx. generalize (Z.lxor c b).
  assert (∀ n x, 0 <= x < 4294967296 → Nat.iter n crc_step x = Nat.iter n crc_bit x ∧ 0 <= Nat.iter n crc_bit x < 4294967296) as H; [|intros; by apply H].
  induction n as [|n IHn]; intros x Hx; [done|]. rewrite !Nat.iter_succ. destruct (IHn x Hx) as [-> Hr].
  split; [apply crc_step_bit; lia|by apply crc_bit_range].
Qed.
Lemma le_crc32 l : wf_bytes l → le_val (le_bytes 4 (crc32 l)) = crc32 l.
Proof. intros Hl. apply le_val_small. rewrite crc32_zip by done. by apply crc32_range. Qed.

Lemma vli_step b x v0 i : is_byte b → 0 <= i → 0 <= v0 < 2 ^ (7 * i) →
  (Z.land b 128 =? 0) = (b <? 128) ∧ Z.lor v0 (Z.shiftl (Z.land b 127) (7 * i)) = v0 + b mod 128 * 2 ^ (7 * i) ∧
  (x * 128 + b mod 128) * 2 ^ (7 * i) = b mod 128 * 2 ^ (7 * i) + x * 2 ^ (7 * (i + 1)).
Proof.
  intros Hb Hi Hv. unfold is_byte in Hb. split_and!.
  - assert (forallb (λ b, Bool.eqb (Z.land b 128 =? 0) (b <? 128)) (seqZ 0 256) = true) as H by (vm_compute; done).
    rewrite forallb_forall in H. apply Bool.eqb_prop, H. rewrite <-list_elem_of_In. apply elem_of_seqZ. lia.
  - change 127 with (Z.ones 7). rewrite Z.land_ones by lia. change (2 ^ 7) with 128. rewrite Z.shiftl_mul_pow2 by lia.
    rewrite Z.lor_comm, lor_above by lia. lia.
  - replace (7 * (i + 1)) with (7 * i + 7) by lia. rewrite Z.pow_add_r by lia. change (2 ^ 7) with 128. ring.
Qed.

Lemma vli_loop_exact n : ∀ i v0 s w s', wf_bytes s → 0 <= i → 0 <= v0 < 2 ^ (7 * i) → (n = 0%nat → 0 < i) →
  vli_loop n i v0 s = Ok (w, s') ↔
  ∃ v, w = v0 + v * 2 ^ (7 * i) ∧ s = vli_bytes n v ++ s' ∧ 0 <= v < 2 ^ (7 * Z.of_nat n) ∧ (0 < i → 0 < v).
Proof.
  induction n as [|n IH]; intros i v0 s w s' Hs Hi Hv Hn.
  { split; [done|]. intros (v & _ & _ & Hr & H). change (2 ^ (7 * Z.of_nat 0)) with 1 in Hr. specialize (Hn eq_refl). lia. }
  destruct Hs as [|b s Hb Hs].
  { split; [done|]. intros (v & _ & E & _). cbn [vli_bytes] in E. by destruct (v <? 128). }
  assert (0 < 2 ^ (7 * i)) by lia.
  replace (7 * Z.of_nat (S n)) with (7 * Z.of_nat n + 7) by lia. rewrite Z.pow_add_r by lia. change (2 ^ 7) with 128.
  assert (0 < 2 ^ (7 * Z.of_nat n)) by (apply Z.pow_pos_nonneg; lia).
  cbn [vli_loop]. destruct (vli_step b 0 v0 i Hb Hi Hv) as (-> & -> & _). unfold is_byte in Hb. destruct (Z.ltb_spec b 128) as [Hlt|Hge].
  - rewrite (Z.mod_small b) by lia. destruct (Z.ltb_spec 0 i) as [Hi0|Hi0]; destruct (Z.eqb_spec b 0) as [Hb0|Hb0]; cbn [andb].
    1: { split; [done|]. intros (v & -> & E & Hr & Hv0). specialize (Hv0 Hi0). cbn [vli_bytes] in E.
         destruct (Z.ltb_spec v 128); injection E as ? ?; [lia|]. pose proof (Z.mod_pos_bound v 128). lia. }
    all: split; [intros [= <- <-]; exists b; cbn [vli_bytes]; rewrite (proj2 (Z.ltb_lt b 128)) by lia; split_and!; done || nia || lia|].
    all: intros (v & -> & E & Hr & Hv0); cbn [vli_bytes] in E; destruct (Z.ltb_spec v 128); injection E as E ->;
      [by rewrite <-E|pose proof (Z.mod_pos_bound v 128); lia].
  - rewrite IH; [|done|lia| |lia].
    2: { replace (7 * (i + 1)) with (7 * i + 7) by lia. rewrite Z.pow_add_r by lia. change (2 ^ 7) with 128. pose proof (Z.mod_pos_bound b 128). nia. }
    assert (b mod 128 = b - 128) as Hm by (symmetry; apply (Z.mod_unique_pos _ _ 1); lia).
    split.
    + intros (x & -> & -> & Hr & Hx0). destruct (vli_step b x v0 i Hb Hi Hv) as (_ & _ & E). exists (x * 128 + b mod 128). rewrite E. split_and!.
      * ring.
      * cbn [vli_bytes]. rewrite (proj2 (Z.ltb_ge _ _)) by lia. 
        rewrite (Z.add_comm (x * 128)), Z_mod_plus_full, Z.div_add by lia.
        rewrite Z.mod_mod, Z.div_small by (lia || (pose proof (Z.mod_pos_bound b 128); lia)). cbn [app]. f_equal. lia.
      * pose proof (Z.mod_pos_bound b 128). lia.
      * pose proof (Z.mod_pos_bound b 128). nia.
      * pose proof (Z.mod_pos_bound b 128). lia.
    + intros (v & -> & E & Hr & Hv0). cbn [vli_bytes] in E. destruct (Z.ltb_spec v 128) as [|Hv128]; injection E as E ->; [lia|].
      pose proof (Z_div_mod_eq_full v 128) as Ev. assert (v mod 128 = b mod 128) as Em by (pose proof (Z.mod_pos_bound v 128); lia).
      exists (v / 128). destruct (vli_step b (v / 128) v0 i Hb Hi Hv) as (_ & _ & E'). split_and!; [|done|nia|nia|nia].
      rewrite Ev at 1. rewrite Em. rewrite (Z.mul_comm 128), E'. ring.
Qed.

Lemma vli_exact s v s' : wf_bytes s → vli s = Ok (v, s') ↔ s = xz_vli v ++ s' ∧ 0 <= v < 2 ^ 63.
Proof.
  intros Hs. unfold vli. rewrite (vli_loop_exact 9 0 0) by (done || lia). change (2 ^ (7 * 0)) with 1. change (7 * Z.of_nat 9) with 63.
  split; [intros (x & -> & -> & Hr & _); rewrite Z.mul_1_r; by split|]. intros [-> Hr]. exists v. split_and!; done || lia.
Qed.

(** ** Indexes *)

(** The sizes fields of blocks may have. *)
Definition sizes_ok (check : Z) (b : Z * Z) : Prop := 5 + check_size check <= b.1 < 2 ^ 63 ∧ 0 <= b.2 < 2 ^ 63.

(** Blocks as an index is read: offsets within the stream, with the wrap of [u64]. *)
Fixpoint raw_blocks (i at_ unc : Z) (l : list (Z * Z)) : list Block :=
  match l with
  | [] => []
  | b :: l => mk_block (i + 1) 0 at_ unc (round4 b.1) b.2 :: raw_blocks (i + 1) (u64 (at_ + round4 b.1)) (u64 (unc + b.2)) l
  end.
Definition wrapped (x : Z) (l : list Z) : Z := foldl (λ x y, u64 (x + y)) x l.

Lemma records_cons b l : xz_records (b :: l) = xz_vli b.1 ++ xz_vli b.2 ++ xz_records l.
Proof. unfold xz_records. cbn [fmap list_fmap mjoin list_join]. by rewrite <-app_assoc. Qed.

Lemma vli_nonempty v : xz_vli v ≠ [].
Proof. unfold xz_vli. cbn [vli_bytes]. by destruct (v <? 128). Qed.

Lemma read_blocks_exact fuel check : ∀ i count at_ unc s bs at' unc' s', wf_bytes s → 0 <= i <= count → (length s < fuel)%nat →
  read_blocks fuel check i count at_ unc s = Ok (bs, at', unc', s') ↔
  ∃ l, count = i + Z.of_nat (length l) ∧ s = xz_records l ++ s' ∧ Forall (sizes_ok check) l ∧ bs = raw_blocks i at_ unc l ∧
       at' = wrapped at_ ((λ b, round4 b.1) <$> l) ∧ unc' = wrapped unc (snd <$> l).
Proof.
  induction fuel as [|fuel IH]; intros i count at_ unc s bs at' unc' s' Hs Hi Hf; [lia|]. cbn [read_blocks].
  destruct (Z.leb_spec count i) as [Hc|Hc].
  { split.
    - intros [= <- <- <- <-]. exists []. cbn. split_and!; done || lia.
    - intros ([|b l] & E & -> & _ & -> & -> & ->); [done|]. cbn [length] in E. lia. }
  rewrite result_bind_Ok. split.
  - intros ([u s1] & E1 & E). apply vli_exact in E1 as [-> Hu]; [|done]. apply wf_app in Hs as [_ Hs].
    apply result_bind_Ok in E as ([z s2] & E2 & E). apply vli_exact in E2 as [-> Hz]; [|done]. apply wf_app in Hs as [_ Hs].
    destruct (Z.ltb_spec u (5 + check_size check)); [done|]. apply result_bind_Ok in E as ([[[bs1 a1] u1] s3] & E3 & [= <- <- <- <-]).
    apply IH in E3 as (l & -> & -> & Hl & -> & -> & ->); [|done|lia|].
    + exists ((u, z) :: l). rewrite records_cons, <-!app_assoc. cbn [length]. split_and!; [lia|done|constructor; [unfold sizes_ok; cbn [fst snd]; lia|done]|done..].
    + rewrite !length_app in Hf. pose proof (vli_nonempty u). destruct (xz_vli u); [done|]. cbn [length] in Hf. lia.
  - intros (l & -> & -> & Hl & -> & -> & ->). destruct l as [|[u z] l]; [cbn in Hc; lia|]. apply Forall_cons in Hl as [[Hu Hz] Hl].
    rewrite records_cons in *. rewrite <-!app_assoc in *. cbn [fst snd length] in *.
    assert (wf_bytes (xz_vli z ++ xz_records l ++ s')) as Hs1 by (by apply wf_app in Hs as [_ ?]).
    assert (wf_bytes (xz_records l ++ s')) as Hs2 by (by apply wf_app in Hs1 as [_ ?]).
    assert (0 <= check_size check) by (unfold check_size; repeat case_match; lia).
    exists (u, xz_vli z ++ xz_records l ++ s'). split; [apply vli_exact; [done|]; split; [done|lia]|].
    apply result_bind_Ok. exists (z, xz_records l ++ s'). split; [apply vli_exact; [done|]; split; [done|lia]|].
    rewrite (proj2 (Z.ltb_ge _ _)) by lia. apply result_bind_Ok.
    exists (raw_blocks (i + 1) (u64 (at_ + round4 u)) (u64 (unc + z)) l, wrapped (u64 (at_ + round4 u)) ((λ b, round4 b.1) <$> l), wrapped (u64 (unc + z)) (snd <$> l), s').
    split; [|done]. apply IH; [done|lia| |].
    + rewrite !length_app in Hf. pose proof (vli_nonempty u). destruct (xz_vli u); [done|]. rewrite length_app. cbn [length] in Hf. lia.
    + exists l. split_and!; done || lia.
Qed.

(** Errors that are no fault of the file's. *)
Definition sane {A} (r : result ListError A) : Prop := r ≠ Err Io ∧ r ≠ Err Unending.
Lemma sane_ok {A} (a : A) : sane (Ok a).
Proof. done. Qed.
Lemma sane_corrupt {A} : sane (Err Corrupt : result _ A).
Proof. done. Qed.
Lemma sane_must b : sane (must b).
Proof. by destruct b. Qed.
Lemma sane_bind {A B} (r : result ListError A) (k : A → result ListError B) :
  sane r → (∀ a, r = Ok a → sane (k a)) → sane (r ≫= k).
Proof. destruct r as [a|e]; [intros _ H; by apply H|]. intros [H1 H2] _. split; intros [= ->]; done. Qed.
Create HintDb sane.
#[export] Hint Resolve sane_ok sane_corrupt sane_must : sane.

Lemma sane_vli_loop n : ∀ i v s, sane (vli_loop n i v s).
Proof.
  induction n as [|n IH]; intros i v [|b s]; cbn [vli_loop]; auto with sane. case_match; [|apply IH]. case_match; auto with sane.
Qed.
Lemma sane_vli s : sane (vli s).
Proof. apply sane_vli_loop. Qed.
Lemma vli_loop_shorter n : ∀ i w s v s', vli_loop n i w s = Ok (v, s') → (length s' < length s)%nat.
Proof.
  induction n as [|n IH]; intros i w [|b s] v s'; cbn [vli_loop]; try done.
  case_match; [case_match; [done|intros [= <- <-]; cbn [length]; lia]|]. intros E%IH. cbn [length]. lia.
Qed.
Lemma vli_shorter s v s' : vli s = Ok (v, s') → (length s' < length s)%nat.
Proof. apply vli_loop_shorter. Qed.
#[export] Hint Resolve sane_vli : sane.

Lemma sane_read_blocks fuel check : ∀ i count at_ unc s, (length s < fuel)%nat → sane (read_blocks fuel check i count at_ unc s).
Proof.
  induction fuel as [|fuel IH]; intros i count at_ unc s Hf; [lia|]. cbn [read_blocks]. case_match; [auto with sane|].
  apply sane_bind; [auto with sane|]. intros [u s1] E1%vli_shorter. apply sane_bind; [auto with sane|]. intros [z s2] E2%vli_shorter.
  case_match; [auto with sane|]. apply sane_bind; [apply IH; lia|]. intros [[[? ?] ?] ?] _. auto with sane.
Qed.

(** ** Reading at places *)

Lemma read_at_exact f off n b : read_at f off n = Ok b ↔ ∃ a c, f = a ++ b ++ c ∧ off = Z.of_nat (length a) ∧ n = Z.of_nat (length b).
Proof.
  unfold read_at. split.
  - destruct (_ || _) eqn:E; [done|]. apply orb_false_iff in E as [[?%Z.ltb_ge ?%Z.ltb_ge]%orb_false_iff ?%Z.ltb_ge]. intros [= <-].
    exists (take (Z.to_nat off) f), (drop (Z.to_nat (off + n)) f). unfold slice. split_and!.
    + replace (Z.to_nat (off + n)) with (Z.to_nat off + (Z.to_nat (off + n) - Z.to_nat off))%nat at 2 by lia.
      rewrite <-drop_drop, take_drop, take_drop. done.
    + rewrite length_take. lia.
    + rewrite length_take, length_drop. lia.
  - intros (a & c & -> & -> & ->). rewrite !length_app.
    rewrite (proj2 (Z.ltb_ge _ _)), (proj2 (Z.ltb_ge _ _)), (proj2 (Z.ltb_ge _ _)) by lia. cbn [orb]. f_equal.
    rewrite slice_app_r by lia. rewrite slice_app_l by lia.
    replace (Z.to_nat (Z.of_nat (length a)) - length a)%nat with 0%nat by lia.
    replace (Z.to_nat (Z.of_nat (length a) + Z.of_nat (length b)) - length a)%nat with (length b) by lia. apply slice_full.
Qed.
Lemma sane_read_at f off n : 0 <= off → 0 <= n → off + n <= Z.of_nat (length f) → sane (read_at f off n).
Proof. intros. unfold read_at. rewrite !(proj2 (Z.ltb_ge _ _)) by lia. done. Qed.

Lemma must_ok {A} b (r : result ListError A) a : (_ ← must b; r) = Ok a ↔ b = true ∧ r = Ok a.
Proof. destruct b; cbn; naive_solver. Qed.

Lemma app_split {A} (a b c d : list A) : a ++ b = c ++ d → (length a ≤ length c)%nat → ∃ e, c = a ++ e ∧ b = e ++ d.
Proof.
  intros E Hl. exists (drop (length a) c). assert (take (length a) c = a) as Ht.
  { assert (take (length a) (a ++ b) = take (length a) (c ++ d)) as H by by rewrite E. rewrite take_app_length, take_app_le in H by done. done. }
  split; [by rewrite <-Ht at 1; rewrite take_drop|]. apply (f_equal (drop (length a))) in E. rewrite drop_app_length, drop_app_le in E by done. done.
Qed.

(** The end of what lies before a position. *)
Lemma read_before g h n b : read_at (g ++ h) (Z.of_nat (length g) - n) n = Ok b → ∃ a, g = a ++ b ∧ n = Z.of_nat (length b).
Proof.
  intros (a & c & E & Ha & Hn)%read_at_exact. rewrite app_assoc in E. apply app_inj_1 in E as [-> _]; [by exists a|].
  rewrite length_app. lia.
Qed.

Lemma skip_padding_sound fuel : ∀ g h pos pad pos' pad', pos = Z.of_nat (length g) →
  skip_padding fuel (g ++ h) pos pad = Ok (pos', pad') →
  ∃ g' k, g = g' ++ replicate (4 * k) 0 ∧ pos' = Z.of_nat (length g') ∧ pad' = pad + 4 * Z.of_nat k.
Proof.
  induction fuel as [|fuel IH]; intros g h pos pad pos' pad' ->; cbn [skip_padding]; [done|].
  destruct (Z.ltb_spec (Z.of_nat (length g)) 12); [done|]. rewrite result_bind_Ok. intros (w & (a & -> & Hw)%read_before & E).
  case_bool_decide as Hz; [|injection E as <- <-; exists (a ++ w), 0%nat; rewrite app_nil_r; split_and!; done || lia].
  subst w. rewrite <-app_assoc in E. apply IH in E as (g' & k & -> & -> & ->); [|rewrite length_app; cbn [length]; lia].
  exists g', (S k). split_and!; [|done|lia]. rewrite <-app_assoc. replace (4 * S k)%nat with (4 * k + 4)%nat by lia. by rewrite replicate_add.
Qed.
Lemma skip_padding_complete k : ∀ fuel g h pad, (12 ≤ length g)%nat → drop (length g - 4) g ≠ [0; 0; 0; 0] →
  (4 * k < fuel)%nat →
  skip_padding fuel (g ++ replicate (4 * k) 0 ++ h) (Z.of_nat (length g) + 4 * Z.of_nat k) pad = Ok (Z.of_nat (length g), pad + 4 * Z.of_nat k).
Proof.
  induction k as [|k IH]; intros [|fuel] g h pad Hg Hd Hf; try lia; cbn [skip_padding]; rewrite (proj2 (Z.ltb_ge _ _)) by lia; rewrite result_bind_Ok.
  - exists (drop (length g - 4) g). split.
    + apply read_at_exact. exists (take (length g - 4) g), h. rewrite (app_assoc (take _ _)), take_drop, length_take, length_drop. split_and!; done || lia.
    + rewrite bool_decide_eq_false_2 by done. do 2 f_equal; lia.
  - exists [0; 0; 0; 0]. split.
    + apply read_at_exact. exists (g ++ replicate (4 * k) 0), h. replace (4 * S k)%nat with (4 * k + 4)%nat by lia.
      rewrite replicate_add, length_app, length_replicate, <-!app_assoc. cbn [length replicate]. split_and!; done || lia.
    + rewrite bool_decide_eq_true_2 by done. replace (4 * S k)%nat with (4 * k + 4)%nat by lia. rewrite replicate_add, <-app_assoc.
      replace (Z.of_nat (length g) + 4 * Z.of_nat (S k) - 4) with (Z.of_nat (length g) + 4 * Z.of_nat k) by lia. rewrite IH by (done || lia).
      do 2 f_equal. lia.
Qed.
Lemma skip_padding_sane fuel f : ∀ pos pad, pos <= Z.of_nat (length f) → (Z.to_nat pos < fuel)%nat →
  sane (skip_padding fuel f pos pad).
Proof.
  induction fuel as [|fuel IH]; intros pos pad Hp Hf; [lia|]. cbn [skip_padding]. destruct (Z.ltb_spec pos 12); [auto with sane|].
  apply sane_bind; [apply sane_read_at; lia|]. intros w _. case_bool_decide; [apply IH; lia|auto with sane].
Qed.

(** ** Footers *)

Definition footer_of (n check : Z) : str :=
  let fields := le_bytes 4 n ++ [0; check] in le_bytes 4 (crc32 fields) ++ fields ++ FOOTER_MAGIC.

Lemma high_bits b : is_byte b → (Z.land b 240 =? 0) = (b <? 16) ∧ (b < 16 → Z.land b 15 = b).
Proof.
  intros Hb. unfold is_byte in Hb.
  assert (forallb (λ b, Bool.eqb (Z.land b 240 =? 0) (b <? 16) && ((16 <=? b) || (Z.land b 15 =? b))) (seqZ 0 256) = true) as H by (vm_compute; done).
  rewrite forallb_forall in H. specialize (H b). rewrite <-list_elem_of_In, elem_of_seqZ, andb_true_iff in H. destruct H as [H1%Bool.eqb_prop H2]; [lia|].
  split; [done|]. intros. rewrite orb_true_iff, Z.leb_le, Z.eqb_eq in H2. lia.
Qed.

Lemma read_footer_exact g h check isz flags : wf_bytes g →
  read_footer (g ++ h) (Z.of_nat (length g)) = Ok (check, isz, flags) ↔
  ∃ g' n, g = g' ++ footer_of n check ∧ isz = (n + 1) * 4 ∧ flags = [0; check] ∧ 0 <= check < 16 ∧ 0 <= n < 2 ^ 32 ∧ (32 ≤ length g)%nat.
Proof.
  intros Hg. unfold read_footer. rewrite must_ok, Z.leb_le, result_bind_Ok. split.
  - intros (H32 & w & (a & -> & Hw)%read_before & E). apply wf_app in Hg as [_ Hwf]. do 13 (destruct w as [|? w]; cbn [length] in Hw; try lia).
    cbn [slice take drop Nat.sub byte_at lookup list_lookup default] in E.
    rewrite !must_ok, !andb_true_iff, bool_decide_eq_true, !Z.eqb_eq in E. destruct E as ([[= -> ->] Ec] & [E0 El] & [= <- <- <-]).
    cbv [id] in E0, El. subst z7. rename z8 into b. assert (is_byte b) as Hb by (repeat apply Forall_cons in Hwf as [? Hwf]; done).
    destruct (high_bits b Hb) as [Eb Hland]. rewrite <-Z.eqb_eq, Eb, Z.ltb_lt in El. rewrite Hland by done.
    exists a, (le_val [z3; z4; z5; z6]). change [z; z0; z1; z2; z3; z4; z5; z6; 0; b; 89; 90] with ([z; z0; z1; z2] ++ [z3; z4; z5; z6; 0; b; 89; 90]) in *.
    assert (wf_bytes [z3; z4; z5; z6]) as Hn by (repeat apply Forall_cons in Hwf as [? Hwf]; by repeat apply Forall_cons_2).
    assert (wf_bytes [z; z0; z1; z2]) as Hc by by apply wf_app in Hwf as [? _].
    unfold footer_of. assert (le_bytes 4 (le_val [z3; z4; z5; z6]) = [z3; z4; z5; z6]) as -> by exact (le_bytes_le_val _ Hn). cbn [app].
    rewrite Ec. assert (le_bytes 4 (le_val [z; z0; z1; z2]) = [z; z0; z1; z2]) as -> by exact (le_bytes_le_val _ Hc). pose proof (le_val_range _ Hn : 0 <= _ < 2 ^ 32). unfold is_byte in Hb. split_and!; first [done|lia|apply Nat2Z.inj_le; exact H32].
  - intros (g' & n & -> & -> & -> & Hc & Hn & H32). split; [lia|].
    apply wf_app in Hg as [_ Hw]. assert (wf_bytes (le_bytes 4 n ++ [0; check])) as Hf by (unfold footer_of in Hw; apply wf_app in Hw as [_ [? _]%wf_app]; done).
    exists (footer_of n check). split.
    { apply read_at_exact. exists g', h. unfold footer_of. cbv zeta. rewrite !length_app, !length_le_bytes. rewrite <-!app_assoc. split_and!; [done|cbn [length FOOTER_MAGIC]; lia|done]. }
    pose proof (le_crc32 _ Hf) as Ec. pose proof (le_val_small 4 n) as En. unfold footer_of.
    pose proof (length_le_bytes 4 n) as L1. destruct (le_bytes 4 n) as [|z3 [|z4 [|z5 [|z6 [|? ?]]]]]; try done.
    cbn [app] in *. pose proof (length_le_bytes 4 (crc32 [z3; z4; z5; z6; 0; check])) as L2.
    destruct (le_bytes 4 (crc32 [z3; z4; z5; z6; 0; check])) as [|z [|z0 [|z1 [|z2 [|? ?]]]]]; try done.
    cbn [app slice take drop Nat.sub byte_at lookup list_lookup default]. rewrite En by (cbn; lia).
    destruct (high_bits check) as [Eb Hl]; [unfold is_byte; lia|]. cbv [id]. rewrite Eb, Hl, Ec by lia.
    rewrite !must_ok, !andb_true_iff, bool_decide_eq_true, !Z.eqb_eq, Z.ltb_lt. split_and!; done || lia.
Qed.

(** ** Indexes and streams *)

Lemma zeros_replicate s : forallb (λ b, b =? 0) s = true ↔ s = replicate (length s) 0.
Proof.
  induction s as [|b s IH]; [done|]. cbn [forallb length replicate]. rewrite andb_true_iff, Z.eqb_eq, IH. split; [by intros [-> <-]|].
  by intros [= -> <-].
Qed.
Lemma wf_xz_vli n v : 0 <= v < 2 ^ (7 * Z.of_nat n) → wf_bytes (vli_bytes n v).
Proof.
  revert v. induction n as [|n IH]; intros v Hv; cbn [vli_bytes]; [constructor|].
  replace (7 * Z.of_nat (S n)) with (7 * Z.of_nat n + 7) in Hv by lia. rewrite Z.pow_add_r in Hv by lia. change (2 ^ 7) with 128 in Hv.
  pose proof (Z.mod_pos_bound v 128). pose proof (Z_div_mod_eq_full v 128).
  destruct (Z.ltb_spec v 128); (apply Forall_cons_2; [unfold is_byte; lia|]); [by apply Forall_nil_2|apply IH; lia].
Qed.
Lemma wf_records check l : Forall (sizes_ok check) l → wf_bytes (xz_records l).
Proof.
  induction 1 as [|b l [H1 H2] _ IH]; [constructor|]. rewrite records_cons.
  assert (0 <= check_size check) by (unfold check_size; repeat case_match; lia).
  repeat (apply wf_app; split); [apply wf_xz_vli; change (7 * Z.of_nat 9) with 63; lia..|done].
Qed.
Lemma records_length l : (length l ≤ length (xz_records l))%nat.
Proof.
  induction l as [|b l IH]; [done|]. rewrite records_cons, !length_app. pose proof (vli_nonempty b.1). destruct (xz_vli b.1); [done|]. cbn [length]. lia.
Qed.

Lemma read_index_exact check index bs sz unc : wf_bytes index → (4 ≤ length index)%nat → Z.of_nat (length index) < 2 ^ 63 →
  read_index check index = Ok (bs, sz, unc) ↔
  ∃ x, Forall (sizes_ok check) (xz_blocks x) ∧ index = xz_index x ∧ bs = raw_blocks 0 0 0 (xz_blocks x) ∧
       sz = wrapped 0 ((λ b, round4 b.1) <$> xz_blocks x) ∧ unc = wrapped 0 (snd <$> xz_blocks x).
Proof.
  intros Hwf H4 Hlen. unfold read_index. cbv zeta. rewrite must_ok, andb_true_iff, !Z.eqb_eq. split.
  - set (body := take (length index - 4) index). set (tail4 := drop (length index - 4) index).
    assert (index = body ++ tail4) as Ei by (symmetry; apply take_drop).
    assert (wf_bytes body ∧ wf_bytes tail4) as [Hb Ht] by (apply wf_app; by rewrite <-Ei).
    assert (length tail4 = 4%nat) as Lt by (unfold tail4; rewrite length_drop; lia).
    intros ([E0 Ec] & E). apply result_bind_Ok in E as ([count s] & E1 & E).
    clearbody body tail4. destruct body as [|b0 body]; [done|]. change (drop 1 (b0 :: body)) with body in E1. rewrite Ei in E0. cbn in E0. subst b0.
    apply Forall_cons in Hb as [_ Hb]. apply vli_exact in E1 as [-> Hcount]; [|done]. apply wf_app in Hb as [_ Hb].
    apply result_bind_Ok in E as ([[[bs' sz'] unc'] s'] & E2 & E). rewrite must_ok in E. destruct E as [Hz [= <- <- <-]].
    apply read_blocks_exact in E2 as (l & -> & -> & Hl & -> & -> & ->); [|done|lia|cbn [length]; rewrite length_app; lia].
    exists (mk_xz check l [] (length s') 0). cbn [xz_blocks]. split_and!; [done| |done..].
    apply zeros_replicate in Hz.
    unfold xz_index, xz_body. cbn [xz_blocks xz_fill]. rewrite <-Hz, Ei. cbn [app] in *. f_equal. f_equal. rewrite Z.add_0_l in Ec. by rewrite Ec, <-Lt, le_bytes_le_val.
  - intros (x & Hl & -> & -> & -> & ->). unfold xz_index in *. rewrite length_app, length_le_bytes, Nat.add_sub, take_app_length, drop_app_length.
    rewrite length_app, length_le_bytes in Hlen. apply wf_app in Hwf as [Hwf _]. split; [split; [done|by rewrite le_crc32]|].
    unfold xz_body in *. change (drop 1 ([0] ++ ?l)) with l. rewrite !length_app in Hlen. pose proof (records_length (xz_blocks x)).
    apply wf_app in Hwf as [_ Hwf]. apply result_bind_Ok.
    exists (Z.of_nat (length (xz_blocks x)), xz_records (xz_blocks x) ++ replicate (xz_fill x) 0). split; [apply vli_exact; [done|]; split; [done|lia]|].
    apply result_bind_Ok. apply wf_app in Hwf as [_ Hwf].
    exists (raw_blocks 0 0 0 (xz_blocks x), wrapped 0 ((λ b, round4 b.1) <$> xz_blocks x), wrapped 0 (snd <$> xz_blocks x), replicate (xz_fill x) 0).
    split; [|apply must_ok; split; [apply zeros_replicate; by rewrite length_replicate|done]].
    apply read_blocks_exact; [done|lia|rewrite !length_app; cbn [length]; lia|]. exists (xz_blocks x). split_and!; done || lia.
Qed.
Lemma sane_read_index check index : sane (read_index check index).
Proof.
  unfold read_index. cbv zeta. apply sane_bind; [auto with sane|]. intros [] _. apply sane_bind; [auto with sane|]. intros [count s] E%vli_shorter.
  apply sane_bind; [apply sane_read_blocks|].
  - rewrite length_drop in E. lia.
  - intros [[[? ?] ?] ?] _. apply sane_bind; auto with sane.
Qed.

(** ** Streams *)

Definition nonneg (l : list Z) : Prop := Forall (λ x, 0 <= x) l.
Lemma sum_nonneg l : nonneg l → 0 <= sum l.
Proof. induction 1 as [|x l Hx _ IH]; [done|]. change (sum (x :: l)) with (x + sum l). lia. Qed.
Lemma sum_app l k : sum (l ++ k) = sum l + sum k.
Proof. induction l as [|x l IH]; [done|]. change (x + sum (l ++ k) = x + sum l + sum k). lia. Qed.
Lemma wrapped_sum x l : nonneg l → 0 <= x → x + sum l < 2 ^ 64 → wrapped x l = x + sum l.
Proof.
  intros Hl. revert x. induction Hl as [|y l Hy Hl IH]; intros x Hx Hs; [cbn; lia|].
  change (sum (y :: l)) with (y + sum l) in *. pose proof (sum_nonneg l Hl). cbn beta in Hy.
  change (wrapped x (y :: l)) with (wrapped (u64 (x + y)) l). rewrite u64_small by lia. rewrite IH; lia.
Qed.

Lemma round4_exact n : round4 n = (n + 3) / 4 * 4.
Proof.
  unfold round4. change (Z.land (n + 3) (Z.lnot 3)) with (Z.land (n + 3) (Z.lnot (Z.ones 2))). rewrite <-Z.ldiff_land, Z.ldiff_ones_r by lia.
  rewrite Z.shiftr_div_pow2, Z.shiftl_mul_pow2 by lia. done.
Qed.
Lemma round4_range n : n <= round4 n <= n + 3.
Proof. rewrite round4_exact. Z.div_mod_to_equations. lia. Qed.

Lemma sizes_nonneg check l : Forall (sizes_ok check) l → nonneg ((λ b, round4 b.1) <$> l) ∧ nonneg (snd <$> l).
Proof.
  intros Hl. assert (0 <= check_size check) by (unfold check_size; repeat case_match; lia).
  split; apply Forall_fmap; (eapply Forall_impl; [exact Hl|]); intros [u z] [H1 H2]; cbn in *; [pose proof (round4_range u)|]; lia.
Qed.
Lemma sum_round4 l : sum ((λ b : Z * Z, round4 b.1) <$> l) mod 4 = 0.
Proof.
  induction l as [|b l IH]; [done|]. change (sum ((λ b : Z * Z, round4 b.1) <$> b :: l)) with (round4 b.1 + sum ((λ b : Z * Z, round4 b.1) <$> l)).
  rewrite round4_exact, Z.add_comm, Z_mod_plus_full. done.
Qed.

Lemma raw_blocks_total l : ∀ i a u, total_size <$> raw_blocks i a u l = (λ b, round4 b.1) <$> l.
Proof. induction l as [|b l IH]; intros; [done|]. cbn [raw_blocks]. rewrite !fmap_cons, IH. done. Qed.
Lemma raw_blocks_uncompressed l : ∀ i a u, block_uncompressed <$> raw_blocks i a u l = snd <$> l.
Proof. induction l as [|b l IH]; intros; [done|]. cbn [raw_blocks]. rewrite !fmap_cons, IH. done. Qed.

(** A stream at a place, before numbers and offsets in the file. *)
Definition raw_stream (at_ : Z) (x : XzStream) : Stream :=
  mk_stream 0 (xz_check x) at_ 0 (Z.of_nat (length (xz_packed x))) (wrapped 0 (snd <$> xz_blocks x)) (4 * Z.of_nat (xz_padding x))
    (raw_blocks 0 0 0 (xz_blocks x)).

Lemma footer_eq x : (length (xz_index x) mod 4)%nat = 0%nat → xz_footer x = footer_of (Z.of_nat (length (xz_index x)) / 4 - 1) (xz_check x).
Proof. done. Qed.

Lemma check_header w c : wf_bytes w → length w = 12%nat → 0 <= c < 16 →
  (bool_decide (slice 0 6 w = MAGIC) && bool_decide (slice 6 8 w = [0; c]) && (crc32 (slice 6 8 w) =? le_val (slice 8 12 w))) = true ↔
  w = MAGIC ++ [0; c] ++ le_bytes 4 (crc32 [0; c]).
Proof.
  intros Hw Hl Hc. assert (wf_bytes [0; c]) as Hf by (apply Forall_cons_2; [done|]; apply Forall_cons_2; [unfold is_byte; lia|by apply Forall_nil_2]).
  rewrite !andb_true_iff, !bool_decide_eq_true, Z.eqb_eq. split.
  - intros [[E1 E2] E3]. assert (w = slice 0 6 w ++ slice 6 8 w ++ slice 8 12 w) as ->.
    { unfold slice. do 12 (destruct w as [|? w]; [done|]). by destruct w. }
    assert (length (slice 8 12 w) = 4%nat) as L by (rewrite length_slice; lia).
    assert (le_bytes 4 (le_val (slice 8 12 w)) = slice 8 12 w) as E4 by (rewrite <-L at 1; by apply le_bytes_le_val, wf_slice).
    rewrite E2 in E3. by rewrite E1, E2, E3, E4.
  - intros ->. pose proof (le_crc32 _ Hf) as E. pose proof (length_le_bytes 4 (crc32 [0; c])) as L.
    by destruct (le_bytes 4 (crc32 [0; c])) as [|z0 [|z1 [|z2 [|z3 [|? ?]]]]].
Qed.

Lemma packed_length x : length (xz_packed x) = (24 + length (xz_data x) + length (xz_index x))%nat.
Proof.
  unfold xz_packed, xz_header, xz_footer, xz_fields, xz_flags. rewrite !length_app, !length_le_bytes.
  change (length MAGIC) with 6%nat. change (length FOOTER_MAGIC) with 2%nat. cbn [length]. lia.
Qed.

Lemma read_stream_sound g h s start : wf_bytes (g ++ h) → Z.of_nat (length (g ++ h)) < 2 ^ 63 →
  read_stream (g ++ h) (Z.of_nat (length g)) = Ok (s, start) → sum (total_size <$> blocks s) < 2 ^ 63 →
  ∃ x g', wf_xz x ∧ g = g' ++ xz_bytes x ∧ s = raw_stream (Z.of_nat (length g')) x ∧ start = Z.of_nat (length g').
Proof.
  intros Hwf Hlen E Hsum. unfold read_stream in E. apply result_bind_Ok in E as ([pos pad] & E1 & E).
  apply skip_padding_sound in E1 as (g1 & k & -> & -> & ->); [|done]. rewrite <-app_assoc in *. set (h1 := replicate (4 * k) 0 ++ h) in *.
  apply result_bind_Ok in E as ([[check isz] flags] & E1 & E). pose proof (proj1 (proj1 (wf_app _ _) Hwf)) as Hg1.
  apply read_footer_exact in E1 as (g2 & n & -> & -> & -> & Hc & Hn & H32); [|done].
  rewrite must_ok, Z.leb_le in E. destruct E as [Hfit E]. cbv zeta in E. apply result_bind_Ok in E as (index & E1 & E).
  assert (length (footer_of n check) = 12%nat) as Lf by (unfold footer_of; cbv zeta; by rewrite !length_app, !length_le_bytes).
  rewrite <-app_assoc in E1. replace (Z.of_nat (length (g2 ++ footer_of n check)) - 12) with (Z.of_nat (length g2)) in * by (rewrite length_app; lia).
  apply read_before in E1 as (g3 & -> & Hisz). apply wf_app in Hg1 as [[Hg3 Hindex]%wf_app Hfooter].
  rewrite !length_app, Lf in *. 
  apply result_bind_Ok in E as ([[bs sz] unc] & E1 & E). apply read_index_exact in E1 as (x & Hl & Ei & -> & -> & ->); [|done|lia..].
  rewrite must_ok, Z.leb_le in E. destruct E as [Hroom E]. apply result_bind_Ok in E as (header & E1 & E).
  destruct (sizes_nonneg _ _ Hl) as [Hn1 Hn2]. rewrite must_ok in E. destruct E as [Hh [= Es <-]]. rewrite <-Es in Hsum. cbn [blocks] in Hsum. rewrite raw_blocks_total in Hsum.
  pose proof (sum_nonneg _ Hn1) as Hs0. pose proof (sum_round4 (xz_blocks x)) as Hs4. pose proof (wrapped_sum 0 _ Hn1) as Ew.
  set (total := sum ((λ b : Z * Z, round4 b.1) <$> xz_blocks x)) in *. rewrite Ew in * by lia. clear Ew. rewrite u64_small in Hroom by lia.
  rewrite (u64_small (_ - _ - _ - _)) in * by lia.
  apply read_at_exact in E1 as (a & c & Ef & Ha & Hheader).
  rewrite <-!app_assoc, (app_assoc a) in Ef. symmetry in Ef. apply app_split in Ef as (e & -> & _); [|rewrite length_app; lia].
  rewrite !length_app in *. apply wf_app in Hg3 as [[_ Hwh]%wf_app Hwe]. apply check_header in Hh as ->; [|done|lia|done].
  exists (mk_xz check (xz_blocks x) e (xz_fill x) k), a. set (x0 := mk_xz _ _ _ _ _).
  assert (xz_index x0 = index) as Ei0 by done.
  assert (length (MAGIC ++ [0; check] ++ le_bytes 4 (crc32 [0; check])) = 12%nat) as Lh by by rewrite !length_app, length_le_bytes.
  assert (xz_footer x0 = footer_of n check) as Ef0.
  { unfold xz_footer, footer_of, xz_fields. rewrite Ei0, <-Hisz, Z.div_mul by lia. cbv zeta. by replace (n + 1 - 1) with n by lia. }
  assert (total = Z.of_nat (length e)) as Et by lia. split_and!.
  - split; rewrite ?Ei0; [done|exact Hl|exact (eq_sym Et)|done|]. split; [|lia]. apply Nat2Z.inj. rewrite Nat2Z.inj_mod, <-Hisz.
    change (Z.of_nat 4) with 4. by rewrite Z.mod_mul.
  - unfold xz_bytes, xz_packed, xz_header. rewrite Ei0, Ef0. cbn [xz_data xz_padding x0]. by rewrite <-!app_assoc.
  - rewrite <-Es. unfold raw_stream. rewrite packed_length, Ei0. cbn [xz_check xz_blocks xz_data xz_padding x0]. f_equal; lia.
  - lia.
Qed.

(** ** What is listed *)

Lemma footer_end x : drop (length (xz_packed x) - 4) (xz_packed x) ≠ [0; 0; 0; 0].
Proof.
  unfold xz_packed, xz_footer. rewrite !app_assoc. set (a := (_ ++ _) ++ xz_fields x). intros E.
  rewrite length_app in E. change (length FOOTER_MAGIC) with 2%nat in E.
  assert (2 ≤ length a)%nat as Ha by (subst a; unfold xz_fields; rewrite !length_app, length_le_bytes; lia). clearbody a.
  apply (f_equal (λ l : str, l !! 3%nat)) in E. rewrite lookup_drop, lookup_app_r in E by lia.
  by replace (length a + 2 - 4 + 3 - length a)%nat with 1%nat in E by lia.
Qed.

Lemma read_stream_complete g h x : wf_xz x → wf_bytes (g ++ xz_bytes x ++ h) → Z.of_nat (length (g ++ xz_bytes x ++ h)) < 2 ^ 63 →
  read_stream (g ++ xz_bytes x ++ h) (Z.of_nat (length (g ++ xz_bytes x))) = Ok (raw_stream (Z.of_nat (length g)) x, Z.of_nat (length g)).
Proof.
  intros [Hc Hl Hd Hdb [Hi4 Hi]] Hwf Hlen. unfold read_stream. rewrite result_bind_Ok.
  assert (8 ≤ length (xz_index x))%nat as Hi8.
  { unfold xz_index, xz_body in *. rewrite !length_app, length_le_bytes in *. cbn [length] in *.
    pose proof (vli_nonempty (Z.of_nat (length (xz_blocks x)))) as H. destruct (xz_vli _); [done|]. cbn [length] in *.
    apply Nat.Div0.mod_divides in Hi4 as [q Hq]. lia. }
  pose proof (packed_length x) as Lp. unfold xz_bytes in *. rewrite <-!app_assoc in *.
  set (padding := replicate (4 * xz_padding x) 0) in *. exists (Z.of_nat (length (g ++ xz_packed x)), 4 * Z.of_nat (xz_padding x)). split.
  { replace (Z.of_nat (length (g ++ xz_packed x ++ padding))) with (Z.of_nat (length (g ++ xz_packed x)) + 4 * Z.of_nat (xz_padding x))
      by (unfold padding; rewrite !length_app, length_replicate; lia).
    rewrite (app_assoc g). apply skip_padding_complete; [rewrite length_app; lia| |rewrite !length_app; lia].
    pose proof (footer_end x) as He. rewrite length_app, drop_app_ge by lia. by replace (length g + length (xz_packed x) - 4 - length g)%nat with (length (xz_packed x) - 4)%nat by lia. }
  set (n := Z.of_nat (length (xz_index x)) / 4 - 1).
  assert ((n + 1) * 4 = Z.of_nat (length (xz_index x))) as Hn.
  { unfold n. apply Nat.Div0.mod_divides in Hi4 as [q ->]. replace (Z.of_nat (4 * q)) with (Z.of_nat q * 4) by lia. rewrite Z.div_mul by lia. lia. }
  rewrite (app_assoc g) in Hwf. pose proof Hwf as [Hwg _]%wf_app. apply result_bind_Ok. exists (xz_check x, (n + 1) * 4, [0; xz_check x]). split.
  { rewrite (app_assoc g). apply read_footer_exact; [done|]. exists (g ++ xz_header x ++ xz_data x ++ xz_index x), n.
    rewrite length_app, Lp. unfold xz_packed. rewrite footer_eq, <-!app_assoc by done. split_and!; done || lia. }
  rewrite Hn. apply must_ok. rewrite Z.leb_le, length_app, Lp. split; [lia|]. cbv zeta. apply result_bind_Ok. exists (xz_index x). split.
  { apply read_at_exact. exists (g ++ xz_header x ++ xz_data x), (xz_footer x ++ padding ++ h). unfold xz_packed. rewrite <-!app_assoc.
    split_and!; [done| |done]. rewrite !length_app. unfold xz_header, xz_flags. rewrite !length_app, length_le_bytes. cbn [length MAGIC]. lia. }
  apply wf_app in Hwg as [_ Hwp]. pose proof Hwp as Hwp'. unfold xz_packed in Hwp. apply wf_app in Hwp as [Hwh [_ [Hwi _]%wf_app]%wf_app].
  destruct (sizes_nonneg _ _ Hl) as [Hn1 Hn2]. rewrite !length_app, Lp in Hlen. pose proof (sum_nonneg _ Hn1).
  apply result_bind_Ok. exists (raw_blocks 0 0 0 (xz_blocks x), sum ((λ b, round4 b.1) <$> xz_blocks x), wrapped 0 (snd <$> xz_blocks x)). split.
  { apply read_index_exact; [done|lia|lia|]. exists x. rewrite (wrapped_sum 0) by (done || lia). split_and!; done || lia. }
  rewrite <-Hd. rewrite must_ok, Z.leb_le, u64_small by lia. split; [lia|].
  rewrite u64_small by lia. apply result_bind_Ok. exists (xz_header x). split.
  { apply read_at_exact. exists g, (xz_data x ++ xz_index x ++ xz_footer x ++ padding ++ h). unfold xz_packed. rewrite <-!app_assoc.
    split_and!; [done|lia|]. unfold xz_header, xz_flags. by rewrite !length_app, length_le_bytes. }
  apply must_ok. split.
  { apply check_header; [done| |done|done]. unfold xz_header, xz_flags. by rewrite !length_app, length_le_bytes. }
  unfold raw_stream. rewrite Lp. do 2 f_equal; [|lia]. f_equal; lia.
Qed.

Lemma skip_padding_range fuel f : ∀ pos pad pos' pad', skip_padding fuel f pos pad = Ok (pos', pad') → 12 <= pos' <= pos.
Proof.
  induction fuel as [|fuel IH]; intros pos pad pos' pad'; cbn [skip_padding]; [done|]. destruct (Z.ltb_spec pos 12); [done|].
  rewrite result_bind_Ok. intros (w & _ & E). case_bool_decide; [apply IH in E; lia|]. injection E as <- <-. lia.
Qed.

(** Sizes that wrap lead to a start before the index, too. *)
Lemma stream_start_range sz index_start : u64 (sz + 12) <= index_start → 0 <= index_start < 2 ^ 63 →
  0 <= u64 (index_start - sz - 12) <= index_start.
Proof.
  intros H Hi. pose proof (Z.mod_pos_bound (sz + 12) 18446744073709551616). unfold u64 in *.
  assert ((index_start - sz - 12) mod 18446744073709551616 = index_start - (sz + 12) mod 18446744073709551616) as ->; [|lia].
  symmetry. apply (Z.mod_unique_pos _ _ (- ((sz + 12) / 18446744073709551616))); [lia|].
  pose proof (Z_div_mod_eq_full (sz + 12) 18446744073709551616). lia.
Qed.

(** What is sane, and gives only what has a property. *)
Definition gives {A} (P : A → Prop) (r : result ListError A) : Prop := sane r ∧ ∀ a, r = Ok a → P a.
Lemma gives_bind {A B} (P : B → Prop) (r : result ListError A) (k : A → result ListError B) :
  sane r → (∀ a, r = Ok a → gives P (k a)) → gives P (r ≫= k).
Proof.
  intros Hr Hk. split; [apply sane_bind; [done|]; intros a E; by apply Hk|]. intros b E. apply result_bind_Ok in E as (a & Ea & E). by apply (Hk a Ea).
Qed.
Lemma gives_must {A} (P : A → Prop) b (r : result ListError A) : (b = true → gives P r) → gives P (_ ← must b; r).
Proof. intros H. apply gives_bind; [auto with sane|]. intros [] E. apply H. by destruct b. Qed.
Lemma gives_ok {A} (P : A → Prop) a : P a → gives P (Ok a).
Proof. intros H. split; [auto with sane|]. by intros ? [= <-]. Qed.

Lemma read_footer_gives f pos : pos <= Z.of_nat (length f) → wf_bytes f → gives (λ r, 0 <= r.1.2 ∧ 32 <= pos) (read_footer f pos).
Proof.
  intros Hp Hwf. unfold read_footer. apply gives_must. intros H32%Z.leb_le. apply gives_bind; [apply sane_read_at; lia|].
  intros w (a & c & -> & _)%read_at_exact. do 2 (apply gives_must; intros _). apply gives_ok. cbn [fst snd].
  apply wf_app in Hwf as [_ [Hw _]%wf_app]. pose proof (le_val_range _ (wf_slice 4 8 _ Hw)). lia.
Qed.

(** Reading a stream reaches for nothing outside the file, and goes back. *)
Lemma read_stream_gives f end_ : 0 <= end_ <= Z.of_nat (length f) → Z.of_nat (length f) < 2 ^ 63 → wf_bytes f →
  gives (λ r, 0 <= r.2 < end_) (read_stream f end_).
Proof.
  intros He Hlen Hwf. unfold read_stream. apply gives_bind; [apply skip_padding_sane; lia|]. intros [pos pad] E1%skip_padding_range.
  destruct (read_footer_gives f pos ltac:(lia) Hwf) as [Hs Hf]. apply gives_bind; [done|]. intros [[check isz] flags] [Hisz H32]%Hf. cbn [fst snd] in *.
  apply gives_must. intros Hp%Z.leb_le. cbv zeta. apply gives_bind; [apply sane_read_at; lia|]. intros index _.
  apply gives_bind; [apply sane_read_index|]. intros [[bs sz] unc] _. apply gives_must. intros Hr%Z.leb_le. apply stream_start_range in Hr; [|lia].
  apply gives_bind; [apply sane_read_at; lia|]. intros w _. apply gives_must. intros _. apply gives_ok. cbn [snd]. lia.
Qed.

Lemma read_streams_sane fuel f : Z.of_nat (length f) < 2 ^ 63 → wf_bytes f →
  ∀ pos after, pos <= Z.of_nat (length f) → (Z.to_nat pos < fuel)%nat → sane (read_streams fuel f pos after).
Proof.
  intros Hlen Hwf. induction fuel as [|fuel IH]; intros pos after Hp Hf; [lia|]. cbn [read_streams]. destruct (Z.leb_spec pos 0); [auto with sane|].
  destruct (read_stream_gives f pos ltac:(lia) Hlen Hwf) as [Hs Hr]. apply sane_bind; [done|]. intros [s pos'] E%Hr. cbn [snd] in E. apply IH; lia.
Qed.

(** The streams of a file at their places. *)
Fixpoint raw_streams (at_ : Z) (xs : list XzStream) : list Stream :=
  match xs with
  | [] => []
  | x :: xs => raw_stream at_ x :: raw_streams (at_ + Z.of_nat (length (xz_bytes x))) xs
  end.
Lemma file_cons x xs : file (x :: xs) = xz_bytes x ++ file xs.
Proof. done. Qed.
Lemma file_app xs ys : file (xs ++ ys) = file xs ++ file ys.
Proof. induction xs as [|x xs IH]; [done|]. cbn [app]. by rewrite !file_cons, IH, app_assoc. Qed.
Lemma raw_streams_app xs ys : ∀ at_, raw_streams at_ (xs ++ ys) = raw_streams at_ xs ++ raw_streams (at_ + Z.of_nat (length (file xs))) ys.
Proof.
  induction xs as [|x xs IH]; intros at_; [cbn; f_equal; lia|]. cbn [app raw_streams]. rewrite IH, file_cons, length_app. do 3 f_equal. lia.
Qed.
Lemma bytes_long x : (24 ≤ length (xz_bytes x))%nat.
Proof. unfold xz_bytes. rewrite length_app, packed_length. lia. Qed.

Lemma read_streams_complete fuel : ∀ xs h after, Forall wf_xz xs → wf_bytes (file xs ++ h) → Z.of_nat (length (file xs ++ h)) < 2 ^ 63 →
  (length (file xs) < fuel)%nat → read_streams fuel (file xs ++ h) (Z.of_nat (length (file xs))) after = Ok (raw_streams 0 xs ++ after).
Proof.
  induction fuel as [|fuel IH]; intros xs h after Hx Hwf Hlen Hf; [lia|]. destruct xs as [|x xs _] using rev_ind; [done|].
  apply Forall_app in Hx as [Hx [Hxx _]%Forall_cons]. rewrite file_app in *. change (file [x]) with (xz_bytes x ++ []) in *. rewrite app_nil_r, <-app_assoc in *.
  pose proof (bytes_long x). cbn [read_streams]. rewrite (proj2 (Z.leb_gt _ _)) by (rewrite length_app; lia).
  rewrite read_stream_complete by done. cbn [mbind result_bind]. rewrite IH; [|done|done|done|rewrite length_app in Hf; lia].
  by rewrite raw_streams_app, <-app_assoc.
Qed.

Lemma read_streams_keep fuel f : ∀ pos after ss, read_streams fuel f pos after = Ok ss → ∃ pre, ss = pre ++ after.
Proof.
  induction fuel as [|fuel IH]; intros pos after ss; cbn [read_streams]; (destruct (pos <=? 0); [intros [= <-]; by exists []|]); [done|].
  rewrite result_bind_Ok. intros ([s p] & _ & (pre & ->)%IH). exists (pre ++ [s]). by rewrite <-app_assoc.
Qed.

(** Sizes of blocks within what the format allows in all. *)
Definition narrow (s : Stream) : Prop := sum (total_size <$> blocks s) < 2 ^ 63.

Lemma read_streams_sound fuel : ∀ g h after ss, wf_bytes (g ++ h) → Z.of_nat (length (g ++ h)) < 2 ^ 63 →
  read_streams fuel (g ++ h) (Z.of_nat (length g)) after = Ok ss → Forall narrow ss →
  ∃ xs, Forall wf_xz xs ∧ g = file xs ∧ ss = raw_streams 0 xs ++ after.
Proof.
  induction fuel as [|fuel IH]; intros g h after ss Hwf Hlen E Hn; cbn [read_streams] in E; destruct (Z.leb_spec (Z.of_nat (length g)) 0) as [Hz|Hz]; try done.
  1, 2: injection E as <-; destruct g; [by exists []|cbn [length] in Hz; lia].
  apply result_bind_Ok in E as ([s pos] & E1 & E).
  assert (narrow s) as Hs by (apply read_streams_keep in E as [pre ->]; by apply Forall_app in Hn as [_ [? _]%Forall_cons]).
  apply read_stream_sound in E1 as (x & g' & Hx & -> & -> & ->); [|done..]. rewrite <-app_assoc in *.
  apply IH in E as (xs & Hxs & -> & ->); [|done..]. exists (xs ++ [x]). rewrite file_app, raw_streams_app, <-app_assoc. change (file [x]) with (xz_bytes x ++ []).
  rewrite app_nil_r. split_and!; [apply Forall_app; by split; [|apply Forall_singleton]|done..].
Qed.

(** ** Places *)

Lemma place_blocks_listed l : ∀ i a u start unc n, nonneg ((λ b : Z * Z, round4 b.1) <$> l) → nonneg (snd <$> l) →
  0 <= a → 0 <= u → 0 <= unc → 0 <= start → start + 12 + a + sum ((λ b : Z * Z, round4 b.1) <$> l) < 2 ^ 64 → unc + u + sum (snd <$> l) < 2 ^ 64 →
  place_blocks start unc n (raw_blocks i a u l) = list_blocks i n (start + 12 + a) (unc + u) l.
Proof.
  induction l as [|[s z] l IH]; intros i a u start unc n Hn1 Hn2 Ha Hu Hunc Hst Hs1 Hs2; [done|]. rewrite !fmap_cons in *.
  apply Forall_cons in Hn1 as [Hr Hn1]. apply Forall_cons in Hn2 as [Hz Hn2]. cbn [fst snd] in *.
  change (sum (?x :: ?l)) with (x + sum l) in *. pose proof (sum_nonneg _ Hn1). pose proof (sum_nonneg _ Hn2).
  cbn [raw_blocks place_blocks list_blocks number_in_stream compressed_file_offset uncompressed_file_offset total_size block_uncompressed fst snd].
  rewrite (u64_small (start + 12)), (u64_small (a + (start + 12))), (u64_small (u + unc)), (u64_small (a + round4 s)), (u64_small (u + z)) by lia.
  rewrite IH by (done || lia). f_equal; [f_equal; lia|f_equal; lia].
Qed.

Lemma place_listed xs : ∀ i at_ unc n, Forall wf_xz xs → 0 <= at_ → 0 <= unc → at_ + Z.of_nat (length (file xs)) < 2 ^ 63 →
  unc + sum (xz_uncompressed <$> xs) < 2 ^ 63 → place i unc n (raw_streams at_ xs) = list_streams i n at_ unc xs.
Proof.
  induction xs as [|x xs IH]; intros i at_ unc n Hx Hat Hunc Hlen Hs; [done|]. apply Forall_cons in Hx as [Hw Hx].
  destruct (sizes_nonneg _ _ (wf_blocks x Hw)) as [Hn1 Hn2]. pose proof (wf_data x Hw) as Hd. rewrite file_cons, length_app in Hlen.
  rewrite fmap_cons in Hs. change (sum (?x :: ?l)) with (x + sum l) in *. pose proof (sum_nonneg _ Hn1). pose proof (sum_nonneg _ Hn2) as Hu.
  fold (xz_uncompressed x) in Hu.
  assert (0 <= sum (xz_uncompressed <$> xs)).
  { apply sum_nonneg, Forall_fmap. eapply Forall_impl; [exact Hx|]. intros y Hy. cbn. apply sum_nonneg. by destruct (sizes_nonneg _ _ (wf_blocks y Hy)). }
  assert (Z.of_nat (length (xz_data x)) + 24 <= Z.of_nat (length (xz_bytes x))) by (unfold xz_bytes; rewrite length_app, packed_length; lia).
  cbn [raw_streams place list_streams]. unfold raw_stream at 1 2 3 4 5 6 7 8 9. cbn [check compressed_offset compressed_size uncompressed_size padding blocks].
  assert (wrapped 0 (snd <$> xz_blocks x) = xz_uncompressed x) as -> by (rewrite wrapped_sum by (done || unfold xz_uncompressed in *; lia); done).
  rewrite place_blocks_listed by (done || unfold xz_uncompressed in *; lia). rewrite u64_small by lia.
  assert (length (raw_blocks 0 0 0 (xz_blocks x)) = length (xz_blocks x)) as ->.
  { pose proof (f_equal length (raw_blocks_total (xz_blocks x) 0 0 0)) as E. by rewrite !length_fmap in E. }
  rewrite IH by (done || lia). do 3 f_equal; lia.
Qed.

(** A list whose sizes stay within the format's limit of 2^63. *)
Definition flat (ss : list Stream) : list Block := mjoin (blocks <$> ss).
Definition within (i : FileInfo) : Prop :=
  Forall narrow (streams i) ∧ sum (block_uncompressed <$> flat (streams i)) < 2 ^ 63.

Lemma place_blocks_total bs : ∀ start unc n, total_size <$> place_blocks start unc n bs = total_size <$> bs.
Proof. induction bs as [|b bs IH]; intros; [done|]. cbn [place_blocks]. by rewrite !fmap_cons, IH. Qed.
Lemma place_blocks_uncompressed bs : ∀ start unc n, block_uncompressed <$> place_blocks start unc n bs = block_uncompressed <$> bs.
Proof. induction bs as [|b bs IH]; intros; [done|]. cbn [place_blocks]. by rewrite !fmap_cons, IH. Qed.
Lemma flat_cons s ss : flat (s :: ss) = blocks s ++ flat ss.
Proof. done. Qed.
Lemma place_within ss : ∀ i unc n, (Forall narrow (place i unc n ss) ↔ Forall narrow ss) ∧
  block_uncompressed <$> flat (place i unc n ss) = block_uncompressed <$> flat ss.
Proof.
  induction ss as [|s ss IH]; intros i unc n; [done|]. cbn [place]. rewrite !flat_cons, !fmap_app, !Forall_cons. unfold narrow at 1 3. cbn [blocks].
  rewrite place_blocks_total, place_blocks_uncompressed. edestruct IH as [-> ->]. done.
Qed.
Lemma raw_streams_uncompressed xs : ∀ at_, sum (block_uncompressed <$> flat (raw_streams at_ xs)) = sum (xz_uncompressed <$> xs).
Proof.
  induction xs as [|x xs IH]; intros at_; [done|]. cbn [raw_streams]. rewrite flat_cons, fmap_app, sum_app, IH. unfold raw_stream. cbn [blocks].
  by rewrite raw_blocks_uncompressed.
Qed.
Lemma raw_streams_narrow xs : ∀ at_, Forall wf_xz xs → Z.of_nat (length (file xs)) < 2 ^ 63 → Forall narrow (raw_streams at_ xs).
Proof.
  induction xs as [|x xs IH]; intros at_ Hx Hl; [constructor|]. apply Forall_cons in Hx as [Hw Hx]. rewrite file_cons, length_app in Hl. cbn [raw_streams].
  apply Forall_cons. split; [|apply IH; [done|lia]]. unfold narrow, raw_stream. cbn [blocks]. rewrite raw_blocks_total, <-(wf_data x Hw).
  unfold xz_bytes in Hl. rewrite length_app, packed_length in Hl. lia.
Qed.

Lemma bytes_words x : wf_xz x → (length (xz_bytes x) mod 4 = 0)%nat ∧ (32 ≤ length (xz_bytes x))%nat.
Proof.
  intros [_ _ Hd _ [Hi _]]. unfold xz_bytes. rewrite length_app, length_replicate, packed_length.
  assert ((length (xz_data x) mod 4 = 0)%nat) as Hd4.
  { apply Nat2Z.inj. rewrite Nat2Z.inj_mod, Hd. apply sum_round4. }
  apply Nat.Div0.mod_divides in Hi as [q Hq], Hd4 as [r Hr]. split; [rewrite Hq, Hr; apply Nat.Div0.mod_divides; exists (6 + r + q + xz_padding x)%nat; lia|].
  unfold xz_index, xz_body in *. rewrite !length_app, length_le_bytes in *. cbn [length] in *.
  pose proof (vli_nonempty (Z.of_nat (length (xz_blocks x)))) as H. destruct (xz_vli _); [done|]. cbn [length] in *. lia.
Qed.
Lemma file_words xs : Forall wf_xz xs → (length (file xs) mod 4 = 0)%nat.
Proof.
  induction 1 as [|x xs Hx _ IH]; [done|]. rewrite file_cons, length_app. destruct (bytes_words x Hx) as [H _].
  apply Nat.Div0.mod_divides in IH as [q ->], H as [r ->]. apply Nat.Div0.mod_divides. exists (r + q)%nat. lia.
Qed.

Lemma parse_complete xs : xs ≠ [] → Forall wf_xz xs → wf_bytes (file xs) → Z.of_nat (length (file xs)) < 2 ^ 63 →
  sum (xz_uncompressed <$> xs) < 2 ^ 63 → parse (file xs) = Ok (listing xs).
Proof.
  intros Hne Hx Hwf Hlen Hs. pose proof (file_words xs Hx) as H4.
  assert (32 ≤ length (file xs) ∧ ∃ t, file xs = MAGIC ++ t)%nat as [H32 [t Ht]].
  { destruct xs as [|x xs]; [done|]. apply Forall_cons in Hx as [Hx _]. destruct (bytes_words x Hx) as [_ ?]. rewrite file_cons, length_app. split; [lia|].
    unfold xz_bytes, xz_packed, xz_header. rewrite <-!app_assoc. by eexists. }
  unfold parse. cbv zeta. rewrite (proj2 (Z.ltb_ge _ _)) by lia. apply result_bind_Ok. exists MAGIC. split; [apply read_at_exact; by exists [], t|].
  rewrite bool_decide_eq_true_2 by done. cbn [negb]. apply must_ok. split.
  { apply andb_true_iff. split; [|lia]. apply Z.eqb_eq. change 4 with (Z.of_nat 4). rewrite <-Nat2Z.inj_mod. lia. }
  pose proof (read_streams_complete (S (length (file xs))) xs [] [] Hx) as E. rewrite !app_nil_r in E. rewrite E by (done || lia).
  cbn [mbind result_bind]. unfold listing. by rewrite place_listed by (done || lia).
Qed.

(** C24: [xz --list] lists what is in a file, and lists nothing else: within the format's limits, it gives a list exactly for
    the files that are a sequence of streams, each with a header, the blocks its index counts, that index, a footer and
    padding, with the checksums that belong to them, and the list is every stream's and block's place and size; it reaches
    for nothing outside the file and ends, whatever the file. *)
Theorem xz_list_exact f : wf_bytes f → Z.of_nat (length f) < 2 ^ 63 →
  (∀ i, parse f = Ok i ∧ within i ↔
    ∃ xs, xs ≠ [] ∧ Forall wf_xz xs ∧ sum (xz_uncompressed <$> xs) < 2 ^ 63 ∧ f = file xs ∧ i = listing xs) ∧
  parse f ≠ Err Io ∧ parse f ≠ Err Unending.
Proof.
  intros Hwf Hlen. split; [intros i; split|].
  - intros [E [Hn Hu]]. unfold parse in E. cbv zeta in E. destruct (Z.ltb_spec (Z.of_nat (length f)) 24); [done|]. apply result_bind_Ok in E as (head & _ & E).
    destruct (negb _); [done|]. apply must_ok in E as [_ E]. apply result_bind_Ok in E as (ss & E & [= <-]). cbn [streams] in *.
    destruct (place_within ss 0 0 0) as [Hp Hp']. rewrite Hp in Hn. rewrite Hp' in Hu.
    rewrite <-(app_nil_r f) in E at 2. rewrite <-(app_nil_r f) in Hwf, Hlen. apply read_streams_sound in E as (xs & Hx & -> & ->); [|done..].
    rewrite app_nil_r in *. rewrite raw_streams_uncompressed in Hu. exists xs. split_and!; [by intros ->|done..|].
    unfold listing. by rewrite place_listed by (done || lia).
  - intros (xs & Hne & Hx & Hs & -> & ->). split; [by apply parse_complete|]. unfold within, listing. cbn [streams].
    rewrite <-place_listed by (done || lia). destruct (place_within (raw_streams 0 xs) 0 0 0) as [-> ->]. rewrite raw_streams_uncompressed.
    split; [by apply raw_streams_narrow|done].
  - unfold parse. cbv zeta. destruct (Z.ltb_spec (Z.of_nat (length f)) 24); [done|]. apply sane_bind; [apply sane_read_at; lia|]. intros w _.
    destruct (negb _); [done|]. apply sane_bind; [auto with sane|]. intros [] _. apply sane_bind; [apply read_streams_sane; (done || lia)|]. auto with sane.
Qed.

Lemma xz_list_exact_witness :
  parse example_file = Ok (listing [example_stream; mk_xz 0 [] [] 2 0]) ∧ within (listing [example_stream; mk_xz 0 [] [] 2 0]).
Proof.
  apply (xz_list_exact example_file); [apply wf_bytes_check; vm_compute; reflexivity|apply Z.ltb_lt; vm_compute; reflexivity|].
  exists [example_stream; mk_xz 0 [] [] 2 0]. split; [discriminate|]. split; [|split; [apply Z.ltb_lt; vm_compute; reflexivity|split; reflexivity]].
  repeat (apply Forall_cons; split); [..|by apply Forall_nil_2].
  - split; [done|repeat (apply Forall_cons; split); [..|by apply Forall_nil_2]; vm_compute; intuition discriminate|reflexivity|apply wf_bytes_check; reflexivity|split; [reflexivity|vm_compute; discriminate]].
  - split; [done|by apply Forall_nil_2|reflexivity|by apply Forall_nil_2|split; [reflexivity|vm_compute; discriminate]].
Defined.
