(* ===== verification/Protocol.v ===== *)
(** * The control protocol (engine/src/protocol.rs)

    An app starts the sandbox, runs commands in it, changes its policies and answers its questions by
    requests of one JSON object each.  [dispatch] is a request, from its parameters to the answer and
    the server's new state; a started sandbox is what the protocol keeps of it ([Running]).  [start]
    makes a [BootPlan] of its configuration, which the host boots or not ([Host]).  Requests run on
    threads of their own; a request's accesses to a policy are under its lock, and the questions that
    are asked meanwhile are steps of their own ([NetStep]). *)
From stdpp Require Import strings.
From S2P Require Import Prelude Str Http Json Cpio ImageFs NetStack SshAgent Serial HostFn Addons.
From S2P Require Zip Agent.

Local Open Scope Z_scope.

Definition PROTOCOL_VERSION : Z := 1.

(** ** Base64 *)

Definition ALPHABET64 : str := lit "ABCDEFGHIJKLMNOPQRSTUVWXYZabcdefghijklmnopqrstuvwxyz0123456789+/".
Definition letter (n : Z) : Z := byte_at ALPHABET64 (Z.to_nat (Z.land n 63)).

(** One chunk of up to three bytes. *)
Definition base64_chunk (chunk : list Z) : str :=
  let triple := foldl (λ value ib, Z.lor value (Z.shiftl ib.2 (16 - 8 * Z.of_nat ib.1))) 0 (imap pair chunk) in
  (λ index : nat, if bool_decide (index ≤ length chunk)%nat then letter (Z.shiftr triple (18 - 6 * Z.of_nat index)) else chr "=") <$>
    seq 0 4.

Fixpoint base64 (bytes : list Z) : str :=
  match bytes with
  | a :: b :: c :: bytes => base64_chunk [a; b; c] ++ base64 bytes
  | [] => []
  | chunk => base64_chunk chunk
  end.

Definition unletter (byte : Z) : option Z :=
  if in_range 65 90 byte then Some (byte - 65)
  else if in_range 97 122 byte then Some (byte - 97 + 26)
  else if in_range 48 57 byte then Some (byte - 48 + 52)
  else if byte =? chr "+" then Some 62
  else if byte =? chr "/" then Some 63
  else None.

Definition ascii_whitespace (b : Z) : bool := (b =? 32) || (b =? 9) || (b =? 10) || (b =? 12) || (b =? 13).

(** The loop of [unbase64]: [buffer] is a [u32], of which the low [bits] bits are still to come out. *)
Fixpoint unbase64_loop (text : str) (buffer bits : Z) (out : list Z) : result str (list Z) :=
  match text with
  | [] => Ok out
  | byte :: text =>
      match unletter byte with
      | None => Err (lit "invalid base64")
      | Some value =>
          let buffer := Z.lor (u32 (Z.shiftl buffer 6)) value in
          let bits := bits + 6 in
          if 8 <=? bits then unbase64_loop text buffer (bits - 8) (out ++ [u8 (Z.shiftr buffer (bits - 8))])
          else unbase64_loop text buffer bits out
      end
  end.
Definition unbase64 (text : str) : result str (list Z) :=
  unbase64_loop (filter (λ b, ascii_whitespace b = false ∧ b ≠ chr "=") text) 0 0 [].

(** ** Failures *)

Record Failure := mk_failure {
  f_kind : str;
  f_message : str;
}.
Definition failed {A} (kind message : str) : result Failure A := Err (mk_failure kind message).
Definition bad_request {A} (message : str) : result Failure A := failed (lit "bad-request") message.

(** An error of the engine's own. *)
Definition or_failed {A} (r : result str A) : result Failure A :=
  match r with Ok a => Ok a | Err e => failed (lit "failed") e end.
Definition or_bad_request {A} (r : result str A) : result Failure A :=
  match r with Ok a => Ok a | Err e => bad_request e end.

(** ** Policies *)

Section policies.
Context {LC : Lowercase}.

Definition ssh_agent_policy (fields : Value) (policy : AgentPolicy) : result str AgentPolicy :=
  mode ← match get (lit "sshAgent") fields with
         | Some mode => ok_or (as_str mode ≫= mode_parse) (lit "sshAgent must be one of off, ask, allow")
         | None => Ok (SshAgent.mode policy)
         end;
  match get (lit "sshAgentSocket") fields with
  | Some (String (b :: path)) => Ok (mk_agent_policy mode (Some (b :: path)))
  | Some Null | Some (String []) => Ok (mk_agent_policy mode None)
  | Some _ => Err (lit "sshAgentSocket must be a path")
  | None => Ok (mk_agent_policy mode (socket policy))
  end.

Definition serial_policy (fields : Value) (policy : SerialPolicy) : result str SerialPolicy :=
  let bad := lit "serial must be " ++ quoted (lit "off") ++ lit ", " ++ quoted (lit "ask") ++ lit ", " ++
             quoted (lit "allow") ++ lit " or {mode, devices: [...]}" in
  match get (lit "serial") fields with
  | None | Some Null => Ok policy
  | Some (String mode) =>
      mode ← ok_or (serial_mode_parse mode) bad;
      Ok (mk_serial_policy mode (devices policy))
  | Some (Object object) =>
      mode ← match assoc (lit "mode") object with
             | Some mode => ok_or (as_str mode ≫= serial_mode_parse) bad
             | None => Ok (Serial.mode policy)
             end;
      match assoc (lit "devices") object with
      | Some devices =>
          list ← ok_or (as_array devices) bad;
          devices ← collect_results (λ d, ok_or (as_str d) bad) list;
          Ok (mk_serial_policy mode devices)
      | None => Ok (mk_serial_policy mode (devices policy))
      end
  | Some _ => Err bad
  end.

(** A secret of the app, if the value is one. *)
Definition secret_of (v : Value) : option Secret :=
  host ← get (lit "host") v ≫= as_str;
  header ← get (lit "header") v ≫= as_str;
  value ← get (lit "value") v ≫= as_str;
  Some (mk_secret (to_lowercase host) (to_lowercase header) value).

(** [text.trim().to_lowercase()]. *)
Definition listed_name (text : str) : str := to_lowercase (trim_text text).

Definition texts (items : list Value) : list str := omap as_str items.
Definition listed_names (items : list Value) : list str := listed_name <$> omap as_str items.
Definition secrets_of (items : list Value) : list Secret := omap secret_of items.

Definition apply_network_policy (policy : Policy) (value : option Value) : Policy :=
  match value with
  | Some (Bool false) =>
      {| allow := []; deny := deny policy; allow_loopback := allow_loopback policy; secrets := [];
         extra_headers := extra_headers policy; addon_headers := addon_headers policy;
         addon_secrets := addon_secrets policy; ask := ask policy; skip_tls_verify := skip_tls_verify policy |}
  | Some (Object fields) =>
      let list name := listed_names <$> (assoc name fields ≫= as_array) in
      {| allow := default (allow policy) (list (lit "allow"));
         deny := default (deny policy) (list (lit "deny"));
         allow_loopback := default (allow_loopback policy) (assoc (lit "allowHostLoopback") fields ≫= as_bool);
         secrets := default (secrets policy) (secrets_of <$> (assoc (lit "secrets") fields ≫= as_array));
         extra_headers := default (extra_headers policy) (list (lit "extraAllowedHeaders"));
         addon_headers := addon_headers policy;
         addon_secrets := addon_secrets policy;
         ask := default (ask policy) (assoc (lit "ask") fields ≫= as_bool);
         skip_tls_verify := default (skip_tls_verify policy) (assoc (lit "skipTlsVerify") fields ≫= as_bool) |}
  | _ => policy
  end.
Definition network_policy (value : option Value) : Policy := apply_network_policy policy_default value.

(** What the app is told of its policy: no secret's value. *)
Definition redacted_network (value : option Value) : Value :=
  match value with
  | Some (Object fields) =>
      Object (match assoc (lit "secrets") fields with
              | Some (Array secrets) =>
                  assoc_insert (lit "secrets")
                    (Array ((λ secret, Object [(lit "host", option_value id (get (lit "host") secret));
                                               (lit "header", option_value id (get (lit "header") secret))]) <$> secrets)) fields
              | _ => fields
              end)
  | Some other => other
  | None => Object []
  end.

End policies.

(** ** Mounts *)

Definition SYSTEM : list str := [lit "proc"; lit "sys"; lit "dev"; lit "bin"; lit "sbin"; lit "usr"; lit "etc"; lit "lib"].

Definition is_slash (b : Z) : bool := b =? chr "/".
(** A character of a guest path. *)
Definition path_byte (b : Z) : bool :=
  in_range 48 57 b || in_range 65 90 b || in_range 97 122 b || bool_decide (b ∈ lit ".-_/").

Definition safe_guest_path (path : str) : bool :=
  if negb (starts_with (lit "/") path) || bool_decide (path = lit "/") || contains (lit "//") path || contains (lit "..") path
  then false
  else if negb (forallb path_byte path) then false
  else
    let first := default [] (head (split_on is_slash (trim_start is_slash path))) in
    negb (bool_decide (first ∈ SYSTEM)).

Record Mount := mk_mount {
  host_path : str;
  guest_path : str;
  read_only : bool;
}.

(** ** What is started *)

(** The devices of the machine, in their order. *)
Inductive PlannedDevice : Type :=
  | ConsoleDevice (columns rows : Z)
  | VsockDevice
  | NetDevice
  | ShareDevice (tag host guest : str) (read_only : bool)
  | ImagesDevice.

Record BootPlan := mk_boot_plan {
  plan_cpus : Z;
  plan_preempt : bool;
  plan_args : list str;
  plan_devices : list PlannedDevice;
  plan_layers : list (@Layer str);
}.

(** Where the engine finds what it boots. *)
Record Images := mk_images {
  im_layers : list str;
  im_python : option str;
  im_tools : option str;
  im_addons : option AddonDir;
}.

(** What the host does for the protocol: whether a path is a folder; the session's certificate; whether
    [image_fs::arrange] serves the layers or unpacks them; booting a plan, and whether the guest's agent
    then answers in time; reaching the agent for a command; running one through it, with the milliseconds
    it took; a host folder, to export. *)
Record Host := mk_host {
  h_images : Images;
  h_is_dir : str → bool;
  h_session_ca : list Z;
  h_serves : list (@Layer str) → bool;
  h_boot : BootPlan → result str unit;
  h_ready : BootPlan → result str unit;
  h_connect : Agent.Command → result str unit;
  h_run : Agent.Command → option Z → result str (Agent.Exit * bool * Z) * list Agent.Output;
  h_folder : str → list (str * (option Zip.Metadata * Zip.HostFile));
}.

(** A started sandbox. *)
Record Running := mk_running {
  mounts : list Mount;
  network : Policy;
  network_answers : gmap str bool;
  ssh_agent : AgentPolicy;
  ssh_answers : gmap str bool;
  serial : SerialPolicy;
  serial_answers : gmap str bool;
  host_policy : HostPolicy;
  bridge : HostBridge;
  console : list (list Z);
}.

(** The server: its sandbox, the messages it sent, the archives it wrote and whether it asked the guest
    to stop; and what it did to guests: the machines it booted and the commands it had an agent run,
    whatever became of them. *)
Record Server := mk_server {
  running : option Running;
  out : list Value;
  exported : list (str * list Z);
  stopping : bool;
  booted : list BootPlan;
  commands : list Agent.Command;
}.
Definition server_new : Server := mk_server None [] [] false [] [].

Definition with_running (r : Running) (s : Server) : Server :=
  mk_server (Some r) (out s) (exported s) (stopping s) (booted s) (commands s).
Definition send (v : Value) (s : Server) : Server :=
  mk_server (running s) (out s ++ [v]) (exported s) (stopping s) (booted s) (commands s).
Definition with_booted (plan : BootPlan) (s : Server) : Server :=
  mk_server (running s) (out s) (exported s) (stopping s) (booted s ++ [plan]) (commands s).
Definition with_command (command : Agent.Command) (s : Server) : Server :=
  mk_server (running s) (out s) (exported s) (stopping s) (booted s) (commands s ++ [command]).
Definition event (name : str) (fields : list (str * Value)) (s : Server) : Server :=
  send (Object (assoc_insert (lit "event") (String name) fields)) s.

Section start.
Context {LC : Lowercase} {J : SerdeJson} {JP : SerdePretty}.
Variable host : Host.

(** The loop over [mounts]; [index] counts the entries. *)
Fixpoint read_mounts (index : Z) (entries : list Value) (mounts : list Mount) : result Failure (list Mount) :=
  match entries with
  | [] => Ok mounts
  | entry :: entries =>
      let path := default [] (get (lit "hostPath") entry ≫= as_str) in
      let guest := trim_end is_slash (default [] (get (lit "guestPath") entry ≫= as_str)) in
      let at_ := lit "mounts[" ++ decimal index ++ lit "]" in
      if bool_decide (path = []) || bool_decide (guest = []) then bad_request (at_ ++ lit " needs hostPath and guestPath")
      else if negb (h_is_dir host path) then bad_request (at_ ++ lit ": " ++ path ++ lit " is not a directory")
      else if negb (safe_guest_path guest) then
        bad_request (at_ ++ lit ": guestPath " ++ quoted guest ++
                     lit " must be an absolute path of letters, digits, . _ - / outside system directories")
      else if existsb (λ m, bool_decide (guest_path m = guest)) mounts then bad_request (lit "two mounts at " ++ guest)
      else
        let mount := mk_mount path guest (default false (get (lit "readOnly") entry ≫= as_bool)) in
        read_mounts (index + 1) entries (mounts ++ [mount])
  end.

Definition mount_tag (index : nat) : str := lit "mount" ++ decimal (Z.of_nat index).
Definition mount_arg (index : nat) (m : Mount) : str :=
  lit "collabo.mount=" ++ mount_tag index ++ lit ":" ++ guest_path m ++ (if read_only m then lit ":ro" else []).
Definition mount_device (index : nat) (m : Mount) : PlannedDevice :=
  ShareDevice (mount_tag index) (host_path m) (guest_path m) (read_only m).

(** [gui_settings]. *)
Definition gui_settings (settings : list (str * Value)) : list Z :=
  cpio_overlay [(lit "etc", None); (lit "etc/collabo", None);
                (lit "etc/collabo/gui.json", Some (to_vec_pretty (Object settings)))].
Definition ca_overlay (pem : list Z) : list Z :=
  cpio_overlay [(lit "etc", None); (lit "etc/ssl", None); (lit "etc/ssl/collabo-ca.pem", Some pem)].

(** An image that is wanted unless the app turns it off. *)
Definition image_layer (wanted : bool) (image : option str) (missing : str) : result Failure (list (@Layer str)) :=
  if wanted then
    match image with
    | Some path => Ok [LayerFile path]
    | None => bad_request missing
    end
  else Ok [].

Definition gui_of (config : Value) : result Failure (option (list (str * Value))) :=
  match get (lit "gui") config with
  | None | Some Null => Ok None
  | Some (Object settings) => Ok (Some settings)
  | Some _ => bad_request (lit "gui: an object of settings (defaultSize, maxSize, capture, ...)")
  end.

Definition check_host_exec (config : Value) : result Failure unit :=
  match get (lit "hostExec") config ≫= as_str with
  | Some mode =>
      if bool_decide (mode ∈ [lit "deny"; lit "ask"; lit "allow"]) then Ok tt
      else bad_request (lit "hostExec must be one of deny, ask, allow")
  | None => Ok tt
  end.

Definition mode_name (m : SerialMode) : str :=
  match m with Serial.Off => lit "off" | Serial.Ask => lit "ask" | Serial.Allow => lit "allow" end.

Definition reported_config (config : Value) (cpus : Z) (python tools quiet : bool) (addons : Resolved)
    (serial : SerialPolicy) (mounts : list Mount) : Value :=
  Object [(lit "cpus", Number cpus);
          (lit "hostExec", default (String (lit "deny")) (get (lit "hostExec") config));
          (lit "hostFunctions", default (Array []) (get (lit "hostFunctions") config));
          (lit "python", Bool python);
          (lit "tools", Bool tools);
          (lit "addons", Array (String <$> names addons));
          (lit "sshAgent", default (String (lit "off")) (get (lit "sshAgent") config));
          (lit "serial", Object [(lit "mode", String (mode_name (Serial.mode serial)));
                                 (lit "devices", Array (String <$> devices serial))]);
          (lit "quiet", Bool quiet);
          (lit "mounts", Array ((λ m, Object [(lit "hostPath", String (host_path m)); (lit "guestPath", String (guest_path m));
                                              (lit "readOnly", Bool (read_only m))]) <$> mounts));
          (lit "network", redacted_network (get (lit "network") config))].

Definition flag (name : str) (old : bool) (config : Value) : bool := default old (get name config ≫= as_bool).
Definition cpus_of (config : Value) : Z := Z.min 32 (Z.max 1 (default 2 (get (lit "cpus") config ≫= as_u64))).
Definition console_size (name : str) (old : Z) (config : Value) : Z :=
  u16 (default old ((get (lit "consoleSize") config ≫= get name) ≫= as_u64)).
Definition is_networked (config : Value) : bool :=
  match get (lit "network") config with Some (Bool false) => false | _ => true end.

(** The network policy a sandbox starts with: the app's, and what the add-ons add. *)
Definition start_network (config : Value) (addons : Resolved) : Policy :=
  let policy := network_policy (get (lit "network") config) in
  {| allow := allow policy; deny := deny policy; allow_loopback := allow_loopback policy;
     secrets := secrets policy; extra_headers := extra_headers policy; addon_headers := ad_headers addons;
     addon_secrets := ad_secrets addons; ask := ask policy; skip_tls_verify := skip_tls_verify policy |}.

Definition start_host_policy (config : Value) : HostPolicy :=
  mk_host_policy (host_exec_parse (default (lit "deny") (get (lit "hostExec") config ≫= as_str)))
    (default [] (texts <$> (get (lit "hostFunctions") config ≫= as_array))).

(** The layers of images, from what is wanted of them. *)
Definition start_layers (config : Value) (gui : option (list (str * Value))) (python tools : list (@Layer str))
    (addons : Resolved) : list (@Layer str) :=
  (LayerFile <$> im_layers (h_images host)) ++ python ++ tools ++ Addons.layers addons ++
  match gui with Some settings => [LayerBytes (gui_settings settings)] | None => [] end ++
  (if is_networked config then [LayerBytes (ca_overlay (h_session_ca host))] else []).

Definition start_args (config : Value) (agent : AgentPolicy) (mounts : list Mount) (serves : bool) : list str :=
  [lit "collabo.agent=1"] ++ (if flag (lit "quiet") false config then [lit "collabo.quiet=1"] else []) ++
  (if decide (SshAgent.mode agent = SshAgent.Off) then [] else [lit "collabo.sshagent=1"]) ++
  (if is_networked config then kernel_arguments else []) ++ imap mount_arg mounts ++
  (if serves then [lit "collabo.images=collabo-images"] else []).

Definition start_devices (config : Value) (mounts : list Mount) (serves : bool) : list PlannedDevice :=
  [ConsoleDevice (console_size (lit "cols") 100 config) (console_size (lit "rows") 30 config); VsockDevice] ++
  (if is_networked config then [NetDevice] else []) ++ imap mount_device mounts ++
  (if serves then [ImagesDevice] else []).

(** Everything [start] decides: the plan to boot, the sandbox to keep and the configuration to report. *)
Definition plan_start (config : Value) : result Failure (BootPlan * Running * Value) :=
  let python := flag (lit "python") true config in
  let tools := flag (lit "tools") true config in
  gui ← gui_of config;
  _ ← check_host_exec config;
  agent ← or_bad_request (ssh_agent_policy config (mk_agent_policy SshAgent.Off None));
  ports ← or_bad_request (serial_policy config (mk_serial_policy Serial.Off []));
  mounts ← read_mounts 0 (default [] (get (lit "mounts") config ≫= as_array)) [];
  addons ← or_bad_request (resolve (im_addons (h_images host)) (get (lit "addons") config));
  python_layer ← image_layer python (im_python (h_images host)) (lit "this runtime has no Python image; start with python: false");
  tools_layer ← image_layer tools (im_tools (h_images host)) (lit "this runtime has no tools image; start with tools: false");
  let layers := start_layers config gui python_layer tools_layer addons in
  let serves := h_serves host layers in
  Ok (mk_boot_plan (cpus_of config) (flag (lit "preempt") true config) (start_args config agent mounts serves)
        (start_devices config mounts serves) layers,
      mk_running mounts (start_network config addons) ∅ agent ∅ ports ∅ (start_host_policy config) bridge_new [],
      reported_config config (cpus_of config) python tools (flag (lit "quiet") false config) addons ports mounts).

Definition start (params : Value) (s : Server) : result Failure Value * Server :=
  match running s with
  | Some _ => (failed (lit "already-started") (lit "the sandbox is already running"), s)
  | None =>
      let config := default (Object []) (get (lit "config") params) in
      match plan_start config with
      | Err f => (Err f, s)
      | Ok (plan, r, reported) =>
          match h_boot host plan with
          | Err e => (failed (lit "failed") e, s)
          | Ok _ =>
              let s := with_booted plan s in
              match h_ready host plan with
              | Err e => (failed (lit "failed") e, s)
              | Ok _ =>
                  (Ok (Object [(lit "version", Number PROTOCOL_VERSION); (lit "config", reported)]),
                   event (lit "ready") [] (with_running r s))
              end
          end
      end
  end.

(** ** Requests *)

(** The sandbox a request needs. *)
Definition with_sandbox {A} (s : Server) (f : Running → result Failure A * Server) : result Failure A * Server :=
  match running s with
  | Some r => f r
  | None => (failed (lit "not-started") (lit "call start first"), s)
  end.

Record ExecResult := mk_exec_result {
  er_exit : Agent.Exit;
  er_stdout : list Z;
  er_stderr : list Z;
  er_timed_out : bool;
  er_duration : Z;
}.

(** The command line of [exec]. *)
Definition exec_argv (params : Value) : result Failure (list str) :=
  argv ← match get (lit "argv") params ≫= as_array, get (lit "command") params ≫= as_str with
         | _, Some command => Ok [lit "/bin/sh"; lit "-c"; command]
         | Some argv, None => Ok (texts argv)
         | None, None => bad_request (lit "exec needs argv or command")
         end;
  match argv with
  | [] => bad_request (lit "exec needs a command")
  | _ => Ok argv
  end.

(** Bytes given as base64 in the field [name64], or as text in [name]. *)
Definition bytes_of (name64 name : str) (params : Value) : result Failure (list Z) :=
  match get name64 params ≫= as_str, get name params ≫= as_str with
  | Some text, _ => or_failed (unbase64 text)
  | None, Some text => Ok text
  | None, None => Ok []
  end.

Definition env_of (params : Value) : list (str * str) :=
  default [] ((λ env : list (str * Value), prod_map id (λ v, default [] (as_str v)) <$> env) <$>
              (get (lit "env") params ≫= as_object)).

Definition stdout_of (outs : list Agent.Output) : list Z :=
  mjoin ((λ o, match o with Agent.Stdout b => b | Agent.Stderr _ => [] end) <$> outs).
Definition stderr_of (outs : list Agent.Output) : list Z :=
  mjoin ((λ o, match o with Agent.Stderr b => b | Agent.Stdout _ => [] end) <$> outs).

(** An [execOutput] event: [emit]. *)
Definition emit (id : Value) (s : Server) (o : Agent.Output) : Server :=
  let '(name, bytes) := match o with Agent.Stdout b => (lit "stdout", b) | Agent.Stderr b => (lit "stderr", b) end in
  event (lit "execOutput") [(lit "execId", id); (lit "stream", String name); (lit "dataBase64", String (base64 bytes))] s.

Definition exec (params : Value) (id : option Value) (s : Server) : result Failure ExecResult * Server :=
  with_sandbox s (λ _,
    match exec_argv params with
    | Err f => (Err f, s)
    | Ok argv =>
        match bytes_of (lit "stdinBase64") (lit "stdin") params with
        | Err f => (Err f, s)
        | Ok stdin =>
            let timeout := default 120000 (get (lit "timeoutMs") params ≫= as_u64) in
            let command := Agent.mk_command argv (env_of params) (get (lit "cwd") params ≫= as_str) stdin in
            match h_connect host command with
            | Err e => (failed (lit "failed") e, s)
            | Ok _ =>
                let '(r, outs) := h_run host command (if 0 <? timeout then Some timeout else None) in
                let s := with_command command s in
                let s := match id with
                         | Some id => if flag (lit "stream") false params then foldl (emit id) s outs else s
                         | None => s
                         end in
                match r with
                | Ok (exit, timed_out, duration) => (Ok (mk_exec_result exit (stdout_of outs) (stderr_of outs) timed_out duration), s)
                | Err e => (failed (lit "failed") e, s)
                end
            end
        end
    end).

Definition exec_method (params id : Value) (s : Server) : result Failure Value * Server :=
  let '(r, s) := exec params (Some id) s in
  (result ← r;
   Ok (Object [(lit "exitCode", match er_exit result with Agent.Code code => Number code | _ => Null end);
               (lit "signal", match er_exit result with Agent.Signal signal => Number signal | _ => Null end);
               (lit "timedOut", Bool (er_timed_out result));
               (lit "truncated", Bool false);
               (lit "durationMs", Number (u64 (er_duration result)));
               (lit "stdoutBase64", String (base64 (er_stdout result)));
               (lit "stderrBase64", String (base64 (er_stderr result)))]), s).

(** A command that must succeed: its error text otherwise. *)
Definition expect_success (r : result Failure ExecResult) : result Failure ExecResult :=
  result ← r;
  match er_exit result with
  | Agent.Code 0 => Ok result
  | _ => failed (lit "failed") (trim_text (from_utf8_lossy (er_stderr result)))
  end.

Definition read_file (params : Value) (s : Server) : result Failure Value * Server :=
  match get (lit "path") params ≫= as_str with
  | None => (bad_request (lit "path is required"), s)
  | Some path =>
      let '(r, s) := exec (Object [(lit "argv", Array [String (lit "cat"); String (lit "--"); String path])]) None s in
      (result ← expect_success r; Ok (Object [(lit "dataBase64", String (base64 (er_stdout result)))]), s)
  end.

(** [{mode:o}]. *)
Fixpoint octal_digits (fuel : nat) (n : Z) : str :=
  match fuel with
  | O => []
  | S fuel => if n <? 8 then [48 + n] else octal_digits fuel (n / 8) ++ [48 + n mod 8]
  end.
Definition octal (n : Z) : str := octal_digits 22 n.

Definition write_file (params : Value) (s : Server) : result Failure Value * Server :=
  match get (lit "path") params ≫= as_str with
  | None => (bad_request (lit "path is required"), s)
  | Some path =>
      let data := match get (lit "dataBase64") params ≫= as_str, get (lit "data") params ≫= as_str with
                  | Some text, _ => text
                  | None, Some text => base64 text
                  | None, None => base64 []
                  end in
      let mode := match get (lit "mode") params ≫= as_u64 with
                  | Some mode => lit "chmod " ++ octal mode ++ lit " " ++ quoted (lit "$1") ++ lit " && "
                  | None => []
                  end in
      let script := lit "mkdir -p " ++ quoted (lit "$(dirname " ++ quoted (lit "$1") ++ lit ")") ++ lit " && cat > " ++
                    quoted (lit "$1") ++ lit " && " ++ mode ++ lit "true" in
      let '(r, s) := exec (Object [(lit "argv", Array (String <$> [lit "/bin/sh"; lit "-c"; script; lit "sh"; path]));
                                   (lit "stdinBase64", String data)]) None s in
      (_ ← expect_success r; Ok (Object []), s)
  end.

(** The resizing itself goes on in the background ([Agent.resize_command]); how it ends is not the
    answer's. *)
Definition console_resize (params : Value) (s : Server) : result Failure Value * Server :=
  with_sandbox s (λ _,
    let size key := (λ n, Z.min 1000 (Z.max 10 n)) <$> (get key params ≫= as_u64) in
    match size (lit "cols"), size (lit "rows") with
    | Some _, Some _ => (Ok (Object []), s)
    | _, _ => (bad_request (lit "console.resize needs cols and rows"), s)
    end).

Definition with_console (l : list (list Z)) (r : Running) : Running :=
  mk_running (mounts r) (network r) (network_answers r) (ssh_agent r) (ssh_answers r) (serial r) (serial_answers r)
    (host_policy r) (bridge r) l.

Definition console_write (params : Value) (s : Server) : result Failure Value * Server :=
  with_sandbox s (λ r,
    match bytes_of (lit "dataBase64") (lit "data") params with
    | Err f => (Err f, s)
    | Ok bytes => (Ok (Object []), with_running (with_console (console r ++ [bytes]) r) s)
    end).

(** ** Policy updates *)

Definition with_network (p : Policy) (a : gmap str bool) (r : Running) : Running :=
  mk_running (mounts r) p a (ssh_agent r) (ssh_answers r) (serial r) (serial_answers r) (host_policy r) (bridge r) (console r).
Definition with_ssh (p : AgentPolicy) (a : gmap str bool) (r : Running) : Running :=
  mk_running (mounts r) (network r) (network_answers r) p a (serial r) (serial_answers r) (host_policy r) (bridge r) (console r).
Definition with_serial (p : SerialPolicy) (a : gmap str bool) (r : Running) : Running :=
  mk_running (mounts r) (network r) (network_answers r) (ssh_agent r) (ssh_answers r) p a (host_policy r) (bridge r) (console r).
Definition with_host_policy (p : HostPolicy) (r : Running) : Running :=
  mk_running (mounts r) (network r) (network_answers r) (ssh_agent r) (ssh_answers r) (serial r) (serial_answers r) p
    (bridge r) (console r).
Definition with_bridge (b : HostBridge) (r : Running) : Running :=
  mk_running (mounts r) (network r) (network_answers r) (ssh_agent r) (ssh_answers r) (serial r) (serial_answers r)
    (host_policy r) b (console r).

(** The sections of [update_policy], in their order. *)
Definition update_network (params : Value) (r : Running) : Running :=
  match get (lit "network") params with
  | Some network_ => with_network (apply_network_policy (network r) (Some network_)) ∅ r
  | None => r
  end.

Definition update_ssh (params : Value) (r : Running) : result str Running :=
  match get (lit "sshAgent") params, get (lit "sshAgentSocket") params with
  | None, None => Ok r
  | _, _ => policy ← ssh_agent_policy params (ssh_agent r); Ok (with_ssh policy ∅ r)
  end.

Definition update_serial (params : Value) (r : Running) : result str Running :=
  match get (lit "serial") params with
  | None => Ok r
  | Some _ => policy ← serial_policy params (serial r); Ok (with_serial policy ∅ r)
  end.

Definition update_host (params : Value) (r : Running) : Running :=
  with_host_policy
    (mk_host_policy
       (match get (lit "hostExec") params ≫= as_str with Some mode => host_exec_parse mode | None => host_exec (host_policy r) end)
       (match get (lit "hostFunctions") params ≫= as_array with Some l => texts l | None => functions (host_policy r) end)) r.

Definition update_policy (params : Value) (s : Server) : result Failure Value * Server :=
  with_sandbox s (λ r,
    let r := update_network params r in
    match update_ssh params r with
    | Err message => (bad_request message, with_running r s)
    | Ok r =>
        match update_serial params r with
        | Err message => (bad_request message, with_running r s)
        | Ok r => (Ok (Object []), with_running (update_host params r) s)
        end
    end).

(** ** Answers, exports and the end *)

Definition reply_of (params : Value) : HostReply :=
  match get (lit "error") params, get (lit "allow") params with
  | Some error, _ =>
      ReplyError (default (lit "failed") (get (lit "kind") error ≫= as_str))
        (match get (lit "message") error ≫= as_str with
         | Some message => message
         | None => default (lit "the app refused") (as_str error)
         end)
  | None, Some allow_ => ReplyAllow (default false (as_bool allow_)) (flag (lit "remember") true params)
  | None, None => ReplyResult (default Null (get (lit "result") params))
  end.

Definition reply_method (params : Value) (s : Server) : result Failure Value * Server :=
  with_sandbox s (λ r,
    match get (lit "id") params ≫= as_u64 with
    | None => (bad_request (lit "reply needs the id of the question"), s)
    | Some id =>
        let '(waited, b) := reply id (reply_of params) (bridge r) in
        if waited : bool then (Ok (Object []), with_running (with_bridge b r) s)
        else (failed (lit "unknown-id") (lit "nothing is waiting for an answer with id " ++ decimal id),
              with_running (with_bridge b r) s)
    end).

Definition zip_message (e : Zip.zip_error) : str :=
  match e with
  | Zip.TooManyEntries n => decimal (Z.of_nat n) ++ lit " entries is more than a zip without zip64 can hold"
  | _ => lit "the folder cannot be read"
  end.

Definition export_zip (params : Value) (s : Server) : result Failure Value * Server :=
  with_sandbox s (λ r,
    let guest := default [] (get (lit "guestPath") params ≫= as_str) in
    match find (λ m, bool_decide (guest_path m = guest)) (mounts r) with
    | None => (bad_request (guest ++ lit " is not a mounted folder (" ++ join (lit ", ") (guest_path <$> mounts r) ++ lit ")"), s)
    | Some mount =>
        match get (lit "outFile") params ≫= as_str with
        | None => (bad_request (lit "outFile is required"), s)
        | Some out_file =>
            match Zip.write_folder (h_folder host (host_path mount)) with
            | Err e => (failed (lit "failed") (zip_message e), s)
            | Ok (file, (entries, bytes)) =>
                (Ok (Object [(lit "entries", Number (Z.of_nat entries)); (lit "bytes", Number bytes)]),
                 mk_server (running s) (out s) (exported s ++ [(out_file, file)]) (stopping s) (booted s) (commands s))
            end
        end
    end).

Definition stop_method (s : Server) : result Failure Value * Server :=
  (Ok (Object []),
   match running s with Some _ => mk_server (running s) (out s) (exported s) true (booted s) (commands s) | None => s end).

Definition dispatch (method : str) (params id : Value) (s : Server) : result Failure Value * Server :=
  if decide (method = lit "start") then start params s
  else if decide (method = lit "exec") then exec_method params id s
  else if decide (method = lit "readFile") then read_file params s
  else if decide (method = lit "writeFile") then write_file params s
  else if decide (method = lit "console.write") then console_write params s
  else if decide (method = lit "console.resize") then console_resize params s
  else if decide (method = lit "policy.update") then update_policy params s
  else if decide (method = lit "reply") then reply_method params s
  else if decide (method = lit "exportZip") then export_zip params s
  else if decide (method = lit "stop") then stop_method s
  else (failed (lit "unknown-method") (lit "no method " ++ quoted method), s).

(** A line of the app: the request's answer is sent under the request's id. *)
Definition answer_message (id : Value) (r : result Failure Value) : Value :=
  match r with
  | Ok v => Object [(lit "id", id); (lit "result", v)]
  | Err f => Object [(lit "id", id); (lit "error", Object [(lit "kind", String (f_kind f)); (lit "message", String (f_message f))])]
  end.

Definition serve_line (line : str) (s : Server) : Server :=
  if bool_decide (trim_text line = []) then s
  else match from_slice line with
       | Err _ => send (Object [(lit "id", Null);
                                (lit "error", Object [(lit "kind", String (lit "bad-request"));
                                                      (lit "message", String (lit "not valid JSON"))])]) s
       | Ok message =>
           let id := default Null (get (lit "id") message) in
           let method := default [] (get (lit "method") message ≫= as_str) in
           let params := default (Object []) (get (lit "params") message) in
           let '(r, s) := dispatch method params id s in
           send (answer_message id r) s
       end.

(** [serve], for requests answered one after another: until [stop] or the end of the input; a guest is
    not left running without an owner. *)
Definition is_stop (line : str) : bool :=
  match from_slice line with
  | Ok message => bool_decide (get (lit "method") message ≫= as_str = Some (lit "stop"))
  | Err _ => false
  end.

Definition close_server (s : Server) : Server :=
  match running s with
  | Some r => mk_server (Some (with_bridge (close_bridge (bridge r)) r)) (out s) (exported s) true (booted s) (commands s)
  | None => s
  end.

Fixpoint serve (lines : list str) (s : Server) : Server :=
  match lines with
  | [] => close_server s
  | line :: lines =>
      let s := serve_line line s in
      if is_stop line then close_server s else serve lines s
  end.

(** The question to the app about a host the network policy does not name: what is remembered is
    written when the answer comes, whatever was updated since it was asked. *)
Definition ask_network (target : str) (r : Running) : option bool := network_answers r !! target.
Definition network_answered (target : str) (answer : option (bool * bool)) (r : Running) : bool * Running :=
  let '(allow_, remember) := default (false, false) answer in
  (allow_, if remember : bool then with_network (network r) (<[target := allow_]> (network_answers r)) r else r).

End start.

(** ** Base64 reads back *)

Lemma unletter_letter n : 0 <= n < 64 →
  unletter (letter n) = Some n ∧ ascii_whitespace (letter n) = false ∧ letter n ≠ chr "=".
Proof.
  intros Hn. assert (forallb (λ n, bool_decide (unletter (letter n) = Some n) && negb (ascii_whitespace (letter n)) &&
    negb (letter n =? chr "=")) (seqZ 0 64) = true) as H by (vm_compute; reflexivity).
  rewrite forallb_forall in H. specialize (H n). rewrite <-list_elem_of_In, elem_of_seqZ in H. specialize (H ltac:(lia)).
  apply andb_prop in H as [[H1 H2]%andb_prop H3]. split_and!.
  - by apply bool_decide_eq_true in H1.
  - by apply negb_true_iff.
  - apply negb_true_iff, Z.eqb_neq in H3. done.
Qed.

Lemma letter_mod n : letter n = letter (n mod 64).
Proof.
  unfold letter. change 63 with (Z.ones 6). rewrite !Z.land_ones by lia. by rewrite Z.mod_mod by lia.
Qed.

(** The letters of a chunk. *)
Lemma base64_chunk_3 a b c : is_byte a → is_byte b → is_byte c →
  base64_chunk [a; b; c] = [letter (a / 4); letter (a mod 4 * 16 + b / 16); letter (b mod 16 * 4 + c / 64); letter (c mod 64)].
Proof.
  intros Ha Hb Hc. unfold is_byte in *. unfold base64_chunk.
  change (imap pair [a; b; c]) with [(0%nat, a); (1%nat, b); (2%nat, c)]. cbn [foldl fst snd].
  change (16 - 8 * Z.of_nat 0) with 16. change (16 - 8 * Z.of_nat 1) with 8. change (16 - 8 * Z.of_nat 2) with 0.
  rewrite Z.lor_0_l, !Z.shiftl_mul_pow2 by lia. rewrite (lor_above a (b * 2 ^ 8) 16) by lia.
  replace (a * 2 ^ 16 + b * 2 ^ 8) with ((a * 256 + b) * 2 ^ 8) by lia. rewrite (lor_above _ (c * 2 ^ 0) 8) by lia.
  change (seq 0 4) with [0; 1; 2; 3]%nat. cbn [fmap list_fmap length].
  rewrite !bool_decide_true by lia. rewrite !Z.shiftr_div_pow2 by lia.
  rewrite (letter_mod (_ / _)), (letter_mod (_ / 2 ^ (18 - 6 * Z.of_nat 1))), (letter_mod (_ / 2 ^ (18 - 6 * Z.of_nat 2))),
    (letter_mod (_ / 2 ^ (18 - 6 * Z.of_nat 3))).
  change (2 ^ (18 - 6 * Z.of_nat 0)) with 262144. change (2 ^ (18 - 6 * Z.of_nat 1)) with 4096.
  change (2 ^ (18 - 6 * Z.of_nat 2)) with 64. change (2 ^ (18 - 6 * Z.of_nat 3)) with 1.
  change (2 ^ 8) with 256. change (2 ^ 0) with 1.
  match goal with |- [letter ?x; letter ?y; letter ?z; letter ?w] = [letter ?x'; letter ?y'; letter ?z'; letter ?w'] =>
    replace x' with x by (Z.div_mod_to_equations; lia); replace y' with y by (Z.div_mod_to_equations; lia);
    replace z' with z by (Z.div_mod_to_equations; lia); replace w' with w by (Z.div_mod_to_equations; lia) end.
  done.
Qed.

Lemma base64_chunk_2 a b : is_byte a → is_byte b →
  base64_chunk [a; b] = [letter (a / 4); letter (a mod 4 * 16 + b / 16); letter (b mod 16 * 4); chr "="].
Proof.
  intros Ha Hb. pose proof (base64_chunk_3 a b 0 Ha Hb ltac:(unfold is_byte; lia)) as H3.
  unfold base64_chunk in *. change (imap pair [a; b; 0]) with [(0%nat, a); (1%nat, b); (2%nat, 0)] in H3.
  change (imap pair [a; b]) with [(0%nat, a); (1%nat, b)]. cbn [foldl fst snd] in *.
  change (Z.shiftl 0 (16 - 8 * Z.of_nat 2)) with 0 in H3. rewrite Z.lor_0_r in H3.
  change (seq 0 4) with [0; 1; 2; 3]%nat in *. cbn [fmap list_fmap length] in *.
  rewrite !bool_decide_true in H3 by lia. rewrite !bool_decide_true, bool_decide_false by lia.
  injection H3 as -> -> -> _. do 3 f_equal. change (0 / 64) with 0. by rewrite Z.add_0_r.
Qed.

Lemma base64_chunk_1 a : is_byte a → base64_chunk [a] = [letter (a / 4); letter (a mod 4 * 16); chr "="; chr "="].
Proof.
  intros Ha. pose proof (base64_chunk_3 a 0 0 Ha ltac:(unfold is_byte; lia) ltac:(unfold is_byte; lia)) as H3.
  unfold base64_chunk in *. change (imap pair [a; 0; 0]) with [(0%nat, a); (1%nat, 0); (2%nat, 0)] in H3.
  change (imap pair [a]) with [(0%nat, a)]. cbn [foldl fst snd] in *.
  change (Z.shiftl 0 (16 - 8 * Z.of_nat 2)) with 0 in H3. change (Z.shiftl 0 (16 - 8 * Z.of_nat 1)) with 0 in H3.
  rewrite !Z.lor_0_r in H3.
  change (seq 0 4) with [0; 1; 2; 3]%nat in *. cbn [fmap list_fmap length] in *.
  rewrite !bool_decide_true in H3 by lia. rewrite !bool_decide_true, !bool_decide_false by lia.
  injection H3 as -> -> _ _. do 2 f_equal. change (0 / 16) with 0. by rewrite Z.add_0_r.
Qed.

(** What [unbase64] leaves out of the text. *)
Definition kept (text : str) : str := filter (λ b, ascii_whitespace b = false ∧ b ≠ chr "=") text.

Lemma kept_letter n text : 0 <= n < 64 → kept (letter n :: text) = letter n :: kept text.
Proof. intros Hn. destruct (unletter_letter n Hn) as (_ & Hw & Hp). unfold kept. by rewrite filter_cons_True. Qed.
Lemma kept_padding text : kept (chr "=" :: text) = kept text.
Proof. unfold kept. rewrite filter_cons_False; [done|]. by intros [_ ?]. Qed.

(** One letter into the loop. *)
Lemma unbase64_letter n text buffer bits out : 0 <= n < 64 →
  unbase64_loop (letter n :: text) buffer bits out =
    let buffer := u32 (buffer * 64) + n in
    if 8 <=? bits + 6 then unbase64_loop text buffer (bits + 6 - 8) (out ++ [u8 (buffer / 2 ^ (bits + 6 - 8))])
    else unbase64_loop text buffer (bits + 6) out.
Proof.
  intros Hn. cbn [unbase64_loop]. rewrite (proj1 (unletter_letter n Hn)).
  assert (Z.lor (u32 (Z.shiftl buffer 6)) n = u32 (buffer * 64) + n) as ->.
  { rewrite Z.shiftl_mul_pow2 by lia. change (2 ^ 6) with 64.
    assert (u32 (buffer * 64) = u32 (buffer * 64) / 64 * 2 ^ 6) as Hm by (unfold u32; change (2 ^ 6) with 64; Z.div_mod_to_equations; lia).
    rewrite Hm at 1. rewrite lor_above by lia. rewrite <-Hm. done. }
  destruct (Z.leb_spec 8 (bits + 6)); [|done]. by rewrite Z.shiftr_div_pow2 by lia.
Qed.

(** What a letter leaves in the buffer, and the bytes that come out of it. *)
Lemma buffer_low buffer n : 0 <= n < 64 → (u32 (buffer * 64) + n) mod 64 = n.
Proof. intros. unfold u32. Z.div_mod_to_equations. lia. Qed.
Lemma byte_out_4 buffer n : 0 <= n < 64 → u8 ((u32 (buffer * 64) + n) / 16) = buffer mod 64 * 4 + n / 16.
Proof. intros. unfold u32, u8. Z.div_mod_to_equations. lia. Qed.
Lemma byte_out_2 buffer n : 0 <= n < 64 → u8 ((u32 (buffer * 64) + n) / 4) = buffer mod 64 mod 16 * 16 + n / 4.
Proof. intros. unfold u32, u8. Z.div_mod_to_equations. lia. Qed.
Lemma byte_out_0 buffer n : 0 <= n < 64 → u8 ((u32 (buffer * 64) + n) / 1) = buffer mod 64 mod 4 * 64 + n.
Proof. intros. unfold u32, u8. Z.div_mod_to_equations. lia. Qed.

(** The first two, three and four letters of a chunk, into a buffer with no bits to come out. *)
Lemma unbase64_two a y text buffer out : is_byte a → 0 <= y < 64 → y / 16 = a mod 4 →
  ∃ buffer', buffer' mod 64 = y ∧
    unbase64_loop (letter (a / 4) :: letter y :: text) buffer 0 out = unbase64_loop text buffer' 4 (out ++ [a]).
Proof.
  unfold is_byte. intros Ha Hy Hya. rewrite unbase64_letter by (Z.div_mod_to_equations; lia). cbv zeta.
  change (8 <=? 0 + 6) with false. cbv iota. rewrite unbase64_letter by done. cbv zeta.
  change (8 <=? 0 + 6 + 6) with true. cbv iota. change (0 + 6 + 6 - 8) with 4. change (2 ^ 4) with 16.
  rewrite byte_out_4 by done. rewrite buffer_low by (Z.div_mod_to_equations; lia).
  replace (a / 4 * 4 + y / 16) with a by (Z.div_mod_to_equations; lia). eexists. split; [|done]. by apply buffer_low.
Qed.

Lemma unbase64_third b z text buffer out : is_byte b → 0 <= z < 64 → buffer mod 64 mod 16 = b / 16 → z / 4 = b mod 16 →
  ∃ buffer', buffer' mod 64 = z ∧
    unbase64_loop (letter z :: text) buffer 4 out = unbase64_loop text buffer' 2 (out ++ [b]).
Proof.
  unfold is_byte. intros Hb Hz Hbuf Hzb. rewrite !unbase64_letter by done. cbv zeta.
  change (8 <=? 4 + 6) with true. cbv iota. change (4 + 6 - 8) with 2. change (2 ^ 2) with 4.
  rewrite byte_out_2, Hbuf, Hzb by done. replace (b / 16 * 16 + b mod 16) with b by (Z.div_mod_to_equations; lia).
  eexists. split; [|done]. by apply buffer_low.
Qed.

Lemma unbase64_fourth c text buffer out : is_byte c → buffer mod 64 mod 4 = c / 64 →
  ∃ buffer', unbase64_loop (letter (c mod 64) :: text) buffer 2 out = unbase64_loop text buffer' 0 (out ++ [c]).
Proof.
  unfold is_byte. intros Hc Hbuf. rewrite !unbase64_letter by (Z.div_mod_to_equations; lia). cbv zeta.
  change (8 <=? 2 + 6) with true. cbv iota. change (2 + 6 - 8) with 0. change (2 ^ 0) with 1.
  rewrite byte_out_0, Hbuf by (Z.div_mod_to_equations; lia).
  replace (c / 64 * 64 + c mod 64) with c by (Z.div_mod_to_equations; lia). by eexists.
Qed.

Lemma base64_ind (P : list Z → Prop) :
  P [] → (∀ a, P [a]) → (∀ a b, P [a; b]) → (∀ a b c l, P l → P (a :: b :: c :: l)) → ∀ l, P l.
Proof.
  intros H0 H1 H2 H3. refine (fix go l := match l with [] => H0 | [a] => H1 a | [a; b] => H2 a b | a :: b :: c :: l => H3 a b c l (go l) end).
Qed.

Lemma unbase64_base64_loop bytes buffer out :
  wf_bytes bytes → unbase64_loop (kept (base64 bytes)) buffer 0 out = Ok (out ++ bytes).
Proof.
  revert buffer out. induction bytes as [|a|a b|a b c l IH] using base64_ind; intros buffer out Hwf.
  - by rewrite app_nil_r.
  - apply Forall_cons in Hwf as [Ha _]. cbn [base64]. rewrite base64_chunk_1 by done. pose proof Ha as Ha'. unfold is_byte in Ha'.
    rewrite !kept_letter, !kept_padding by (Z.div_mod_to_equations; lia).
    destruct (unbase64_two a (a mod 4 * 16) (kept []) buffer out Ha) as (buf & _ & ->); [Z.div_mod_to_equations; lia..|done].
  - apply Forall_cons in Hwf as [Ha [Hb _]%Forall_cons]. cbn [base64]. rewrite base64_chunk_2 by done.
    pose proof Ha as Ha'. pose proof Hb as Hb'. unfold is_byte in Ha', Hb'.
    rewrite !kept_letter, !kept_padding by (Z.div_mod_to_equations; lia).
    destruct (unbase64_two a (a mod 4 * 16 + b / 16) (letter (b mod 16 * 4) :: kept []) buffer out Ha) as (buf & Hbuf & ->);
      [Z.div_mod_to_equations; lia..|].
    destruct (unbase64_third b (b mod 16 * 4) (kept []) buf (out ++ [a]) Hb) as (buf' & _ & ->);
      [rewrite ?Hbuf; Z.div_mod_to_equations; lia..|]. by rewrite <-app_assoc.
  - apply Forall_cons in Hwf as [Ha [Hb [Hc Hl]%Forall_cons]%Forall_cons]. cbn [base64]. rewrite base64_chunk_3 by done. cbn [app].
    pose proof Ha as Ha'. pose proof Hb as Hb'. pose proof Hc as Hc'. unfold is_byte in Ha', Hb', Hc'.
    rewrite !kept_letter by (Z.div_mod_to_equations; lia).
    destruct (unbase64_two a (a mod 4 * 16 + b / 16) (letter (b mod 16 * 4 + c / 64) :: letter (c mod 64) :: kept (base64 l)) buffer out Ha)
      as (buf & Hbuf & ->); [Z.div_mod_to_equations; lia..|].
    destruct (unbase64_third b (b mod 16 * 4 + c / 64) (letter (c mod 64) :: kept (base64 l)) buf (out ++ [a]) Hb) as (buf' & Hbuf' & ->);
      [rewrite ?Hbuf; Z.div_mod_to_equations; lia..|].
    destruct (unbase64_fourth c (kept (base64 l)) buf' ((out ++ [a]) ++ [b]) Hc) as (buf'' & ->);
      [rewrite Hbuf'; Z.div_mod_to_equations; lia|].
    rewrite IH by done. by rewrite <-!app_assoc.
Qed.

(** What is sent as base64 is read as the same bytes. *)
Lemma unbase64_base64 bytes : wf_bytes bytes → unbase64 (base64 bytes) = Ok bytes.
Proof. intros Hwf. unfold unbase64. apply (unbase64_base64_loop bytes 0 [] Hwf). Qed.

(** ** What a failed request changes *)

Section failures.
Context {LC : Lowercase} {J : SerdeJson} {JP : SerdePretty}.
Variable host : Host.
Implicit Types (s : Server).


(** The server but for what it sent: what a failed request leaves alone. *)
Definition same_but_out s s' : Prop :=
  running s' = running s ∧ exported s' = exported s ∧ stopping s' = stopping s ∧ booted s' = booted s ∧
  out s `prefix_of` out s'.


#[local] Instance same_but_out_preorder : PreOrder same_but_out.
Proof.
  split; [by intros s; split_and!|]. intros s1 s2 s3 (H1 & H2 & H3 & H4 & H4') (H5 & H6 & H7 & H8 & H8').
  split_and!; try congruence. by etrans.
Qed.






























End failures.

(** ** What a sandbox is started with *)

Section started.
Context {LC : Lowercase} {J : SerdeJson} {JP : SerdePretty}.
Variable host : Host.



























End started.

(** ** Updates, and what they leave *)

Section updates.
Context {LC : Lowercase}.

(** An update leaves the fields it does not mention, and never touches what the add-ons brought. *)
Lemma apply_network_keeps policy fields :
  let p := apply_network_policy policy (Some (Object fields)) in
  (assoc (lit "allow") fields = None → allow p = allow policy) ∧
  (assoc (lit "deny") fields = None → deny p = deny policy) ∧
  (assoc (lit "allowHostLoopback") fields = None → allow_loopback p = allow_loopback policy) ∧
  (assoc (lit "secrets") fields = None → secrets p = secrets policy) ∧
  (assoc (lit "extraAllowedHeaders") fields = None → extra_headers p = extra_headers policy) ∧
  (assoc (lit "ask") fields = None → ask p = ask policy) ∧
  (assoc (lit "skipTlsVerify") fields = None → skip_tls_verify p = skip_tls_verify policy) ∧
  addon_headers p = addon_headers policy ∧ addon_secrets p = addon_secrets policy.
Proof. cbn. split_and!; try done; by intros ->. Qed.

(** [network: false] refuses every host, except that what the policy leaves to the app still goes to the
    app: [ask] stays as it was. *)
Lemma network_off_refuses policy host :
  refuses (apply_network_policy policy (Some (Bool false))) host ≠ None.
Proof.
  unfold refuses. destruct (_ && _); [done|]. by destruct (deny_rule _ host).
Qed.
Lemma network_off_still_asks policy host :
  ask policy = true → deny policy = [] → is_loopback host = false →
  ask (apply_network_policy policy (Some (Bool false))) = true ∧
  unlisted (apply_network_policy policy (Some (Bool false))) host = true.
Proof. intros Ha Hd Hl. unfold unlisted. cbn. by rewrite Hd, Hl. Qed.

(** An update forgets what was remembered under the old policy, but not what is answered after it to a
    question asked before. *)
Lemma update_forgets params r :
  is_Some (get (lit "network") params) → network_answers (update_network params r) = ∅.
Proof. unfold update_network. by intros [v ->]. Qed.
Lemma stale_answer params r target :
  network_answers (network_answered target (Some (true, true)) (update_network params r)).2 !! target = Some true.
Proof. cbn. by rewrite lookup_insert_eq. Qed.

(** A guest path may name a system folder, or the root, through the folder ".". *)
Lemma dot_is_not_seen :
  safe_guest_path (lit "/./etc") = true ∧ safe_guest_path (lit "/.") = true ∧ safe_guest_path (lit "/etc") = false.
Proof. vm_compute. done. Qed.

End updates.

(** ** Examples *)

Definition example_host : Host :=
  mk_host (mk_images [] None None None) (λ _, true) (lit "CA") (λ _, true) (λ _, Ok tt) (λ _, Ok tt) (λ _, Ok tt)
    (λ _ _, (Ok (Agent.Code 0, false, 5), [Agent.Stdout (lit "hi")])) (λ _, []).
Definition example_config : Value :=
  Object [(lit "python", Bool false); (lit "tools", Bool false); (lit "cpus", Number 64); (lit "sshAgent", String (lit "ask"));
          (lit "mounts", Array [Object [(lit "hostPath", String (lit "/home/me")); (lit "guestPath", String (lit "/work/"));
                                        (lit "readOnly", Bool true)]]);
          (lit "network", Object [(lit "secrets", Array [Object [(lit "host", String (lit "a.example")); (lit "header", String (lit "x-key"));
                                                                  (lit "value", String (lit "k1"))]])])].
Definition example_started : result Failure (BootPlan * Running * Value) :=
  @plan_start ascii_lowercase example_addon_json example_pretty example_host example_config.
Definition example_plan : BootPlan := match example_started with Ok (p, _, _) => p | _ => mk_boot_plan 0 false [] [] [] end.
Definition example_running : Running :=
  match example_started with
  | Ok (_, r, _) => r
  | _ => mk_running [] policy_default ∅ (mk_agent_policy SshAgent.Off None) ∅ (mk_serial_policy Serial.Off []) ∅
           (mk_host_policy ExecDeny []) bridge_new []
  end.

Lemma example_starts :
  plan_args example_plan =
    [lit "collabo.agent=1"; lit "collabo.sshagent=1"; lit "collabo.ip=192.0.2.2"; lit "collabo.gw=192.0.2.1";
     lit "collabo.mount=mount0:/work:ro"; lit "collabo.images=collabo-images"] ∧
  plan_cpus example_plan = 32.
Proof. vm_compute. done. Qed.


Definition example_server : Server := mk_server (Some example_running) [] [] false [] [].
Definition example_bad_update : Value :=
  Object [(lit "network", Bool false); (lit "sshAgent", String (lit "allow")); (lit "serial", Number 1)].
Definition example_refused : result Failure Value * Server :=
  @dispatch ascii_lowercase example_addon_json example_pretty example_host (lit "policy.update") example_bad_update Null example_server.

Lemma example_refused_partly :
  (∃ f, example_refused.1 = Err f) ∧
  ∃ r, running example_refused.2 = Some r ∧ allow (network r) = [] ∧ SshAgent.mode (ssh_agent r) = SshAgent.Allow.
Proof. vm_compute. split; eexists; [reflexivity|]. split; [reflexivity|]. split; reflexivity. Qed.

(** A host on which the agent never answers. *)
Definition deaf_host : Host :=
  mk_host (h_images example_host) (h_is_dir example_host) (h_session_ca example_host) (h_serves example_host)
    (h_boot example_host) (λ _, Err (lit "the guest agent did not answer")) (h_connect example_host) (h_run example_host)
    (h_folder example_host).

(** A [start] that fails because the agent does not answer leaves its machine running, and the sandbox counts
    as not started: another [start] boots another machine next to it. *)
Example start_again_boots_again :
  let start_ := @dispatch ascii_lowercase example_addon_json example_pretty deaf_host (lit "start")
                  (Object [(lit "config", example_config)]) Null in
  let s := (start_ (start_ server_new).2).2 in
  running s = None ∧ booted s = [example_plan; example_plan].
Proof. by vm_compute. Qed.

(** A file written whose mode cannot be set: [writeFile] fails, its command has run. *)
Definition chmod_host : Host :=
  mk_host (h_images example_host) (h_is_dir example_host) (h_session_ca example_host) (h_serves example_host)
    (h_boot example_host) (h_ready example_host) (h_connect example_host)
    (λ _ _, (Ok (Agent.Code 1, false, 5), [Agent.Stderr (lit "chmod: Operation not permitted")])) (h_folder example_host).
Example write_file_fails_late :
  let x := @dispatch ascii_lowercase example_addon_json example_pretty chmod_host (lit "writeFile")
             (Object [(lit "path", String (lit "/a")); (lit "data", String (lit "hi")); (lit "mode", Number 384)]) Null example_server in
  x.1 = failed (lit "failed") (lit "chmod: Operation not permitted") ∧ length (commands x.2) = 1%nat.
Proof. by vm_compute. Qed.

