(* ===== verification/Float.v ===== *)
(** * f64

    Double precision numbers as the standard library's [spec_float], with what Rust's own library does
    between them and decimal text: [str::parse] (correctly rounded) and the digits of the exponent format
    (the fewest that read back, the nearest of these). *)
From Stdlib Require Export SpecFloat.
From stdpp Require Import strings.
From S2P Require Import Prelude Str.

Local Open Scope Z_scope.

Abbreviation f64 := spec_float.

Definition flt (x y : f64) : bool := SFltb x y.
Definition feq (x y : f64) : bool := SFeqb x y.
Definition fadd (x y : f64) : f64 := SFadd 53 1024 x y.
Definition is_nan (x : f64) : bool := match x with S754_nan => true | _ => false end.
Definition is_sign_negative (x : f64) : bool :=
  match x with S754_zero s | S754_infinity s | S754_finite s _ _ => s | S754_nan => false end.
Definition fzero : f64 := S754_zero false.
Definition fone : f64 := S754_finite false 4503599627370496 (-52).
Definition INFINITY : f64 := S754_infinity false.
Definition NEG_INFINITY : f64 := S754_infinity true.
Definition MAX : f64 := S754_finite false 9007199254740991 971.

#[export] Instance f64_eq_dec : EqDecision f64.
Proof. solve_decision. Defined.

(** A decimal number without its trailing zeros. *)
Fixpoint strip_zeros (fuel : nat) (d e : Z) : Z * Z :=
  match fuel with
  | O => (d, e)
  | S fuel => if d mod 10 =? 0 then strip_zeros fuel (d / 10) (e + 1) else (d, e)
  end.

(** How many decimal digits a number has. *)
Fixpoint digit_count (fuel : nat) (n : Z) : Z :=
  match fuel with
  | O => 1
  | S fuel => if n <? 10 then 1 else 1 + digit_count fuel (n / 10)
  end.
Definition count_digits (n : Z) : Z := digit_count (Z.to_nat (Z.log2 n + 1)) n.

(** The double nearest to a number without trailing zeros, ties to even.  Beyond these exponents it is infinite
    or zero. *)
Definition nearest (neg : bool) (d e : Z) : f64 :=
  let n := count_digits d in
  if 310 <? e + n then S754_infinity neg
  else if e + n <? -330 then S754_zero neg
  else if 0 <=? e then binary_round 53 1024 neg (Z.to_pos (d * 10 ^ e)) 0
  else let '(m, ex, l) := SFdiv_core_binary 53 1024 d 0 (10 ^ (- e)) 0 in binary_round_aux 53 1024 neg m ex l.

(** [parse::<f64>] of a sign, the digits of [d] and an exponent. *)
Definition f64_of_decimal (neg : bool) (d e : Z) : f64 :=
  if d =? 0 then S754_zero neg
  else let '(d, e) := strip_zeros (Z.to_nat (Z.log2 d + 1)) d e in nearest neg d e.

(** ** The digits of [{:e}] *)

(** The value of a finite double as a fraction. *)
Definition fraction (m : positive) (e : Z) : Z * Z :=
  if 0 <=? e then (Z.pos m * 2 ^ e, 1) else (Z.pos m, 2 ^ (- e)).

(** The exponent of the first decimal digit of a fraction. *)
Definition first_digit (a b : Z) : Z :=
  let k := count_digits a - count_digits b in
  if (if 0 <=? k then b * 10 ^ k <=? a else b <=? a * 10 ^ (- k)) then k else k - 1.

(** The [n] digits below and above that read back, the nearer first. *)
Definition round_digits (x : f64) (a b k : Z) (n : nat) : option (Z * Z) :=
  let e := k - Z.of_nat n + 1 in
  let '(a, b) := if 0 <=? e then (a, b * 10 ^ e) else (a * 10 ^ (- e), b) in
  let q := a / b in
  let reads d := bool_decide (f64_of_decimal false d e = x) in
  let near := if b <=? 2 * (a mod b) then q + 1 else q in
  let far := if b <=? 2 * (a mod b) then q else q + 1 in
  if reads near then Some (near, e) else if reads far then Some (far, e) else None.

Fixpoint fewest_digits (room : nat) (x : f64) (a b k : Z) (n : nat) : Z * Z :=
  match round_digits x a b k n, room with
  | Some r, _ => r
  | None, S room => fewest_digits room x a b k (S n)
  | None, O => (a, b)
  end.

(** The digits of a finite number other than zero, and the exponent of the first.  17 digits are enough. *)
Definition sci_digits (x : f64) : str * Z :=
  match x with
  | S754_finite _ m e =>
      let '(a, b) := fraction m e in
      let '(d, e) := fewest_digits 16 (S754_finite false m e) a b (first_digit a b) 1 in
      let '(d, e) := strip_zeros 20 d e in
      let digits := decimal d in
      (digits, e + Z.of_nat (length digits) - 1)
  | _ => ([48], 0)
  end.

Example third : f64_of_decimal false 3333333333333333 (-16) = S754_finite false 6004799503160661 (-54).
Proof. by vm_compute. Qed.
Example third_digits : sci_digits (f64_of_decimal false 3333333333333333 (-16)) = (lit "3333333333333333", -1).
Proof. by vm_compute. Qed.
Example max_digits : sci_digits MAX = (lit "17976931348623157", 308).
Proof. by vm_compute. Qed.
Example least_digits : sci_digits (S754_finite false 1 (-1074)) = (lit "5", -324).
Proof. by vm_compute. Qed.
Example f64_23 : sci_digits (f64_of_decimal false 1 23) = (lit "1", 23) ∧ sci_digits (f64_of_decimal false 100 0) = (lit "1", 2).
Proof. by vm_compute. Qed.
Example f64_out : f64_of_decimal true 1 400 = NEG_INFINITY ∧ f64_of_decimal false 1 (-400) = fzero ∧
  f64_of_decimal false 17976931348623158 292 = MAX ∧ f64_of_decimal false 17976931348623159 292 = INFINITY.
Proof. by vm_compute. Qed.
