(* ===== verification/JqValue.v ===== *)
(** * jq's values

    The values of the guest's jq (tools/rust/jq/src/value.rs): JSON with objects in insertion order, numbers
    as doubles that remember the decimal they were written as, the order of values, and the printer.

    An [IndexMap] is the list of its fields, each name once.  A comparison also says whether it went past the
    depth limit, which the source keeps in a thread's cell.  Whether two values share their memory
    ([Rc::ptr_eq], a shortcut of [==]) is not in the model, so [==] is not either. *)
From stdpp Require Import strings.
From S2P Require Import Prelude Str Float.

Local Open Scope Z_scope.

(** ** Decimal literals *)

(** [Dec]: the sign, the digits without leading zeros, the exponent of the last digit. *)
Record Dec := mk_dec { neg : bool; digits : str; exp : Z }.

(** The longest prefix of bytes [p] holds of, and the rest. *)
Fixpoint span (p : Z → bool) (s : str) : str * str :=
  match s with
  | [] => ([], [])
  | b :: s' => if p b then let '(l, r) := span p s' in (b :: l, r) else ([], s)
  end.

(** The exponent's digits, at most 2^40. *)
Definition clamped_exp (s : str) : Z := foldl (λ e b, Z.min (e * 10 + (b - 48)) (2 ^ 40)) 0 s.

Definition is_zero_digit (b : Z) : bool := b =? 48.
Definition trim_digits (s : str) : str :=
  let t := trim_start is_zero_digit s in if bool_decide (t = []) then [48] else t.

(** [Dec::parse]: what follows the digits, then the digits, then the sign. *)
Definition dec_exponent (s : str) : option Z :=
  match s with
  | [] => Some 0
  | b :: s =>
      if (b =? 101) || (b =? 69) then
        let '(eneg, s) := match s with 45 :: s => (true, s) | 43 :: s => (false, s) | _ => (false, s) end in
        let '(ds, s) := span is_digit s in
        if bool_decide (ds = []) || negb (bool_decide (s = [])) then None
        else Some (if eneg : bool then - clamped_exp ds else clamped_exp ds)
      else None
  end.
Definition dec_unsigned (neg : bool) (s : str) : option Dec :=
  let '(whole, s) := span is_digit s in
  let '(part, s) := match s with 46 :: s => span is_digit s | _ => ([], s) end in
  if bool_decide (whole ++ part = []) then None
  else e ← dec_exponent s; Some (mk_dec neg (trim_digits (whole ++ part)) (- Z.of_nat (length part) + e)).
Definition dec_parse (s : str) : option Dec :=
  match s with 45 :: s => dec_unsigned true s | _ => dec_unsigned false s end.

Definition zeros (n : nat) : str := replicate n 48.

(** [Dec::to_text] *)
Definition to_text (d : Dec) : str :=
  let n := Z.of_nat (length (digits d)) in
  let adj := exp d + n - 1 in
  (if neg d then lit "-" else []) ++
  if (exp d <=? 0) && (-6 <=? adj) then
    if exp d =? 0 then digits d
    else
      let point := n + exp d in
      if 0 <? point then take (Z.to_nat point) (digits d) ++ lit "." ++ drop (Z.to_nat point) (digits d)
      else lit "0." ++ zeros (Z.to_nat (- point)) ++ digits d
  else
    take 1 (digits d) ++ (if 1 <? n then lit "." ++ drop 1 (digits d) else []) ++
    lit "E" ++ (if adj <? 0 then lit "-" else lit "+") ++ decimal (Z.abs adj).

Definition is_zero (d : Dec) : bool := bool_decide (digits d = [48]).
Definition adjusted (d : Dec) : Z := exp d + Z.of_nat (length (digits d)) - 1.
Definition out_of_range (d : Dec) : bool :=
  negb (is_zero d) && ((999999999 <? adjusted d) || (adjusted d <? -999999999)).

(** The order of byte strings. *)
Fixpoint bytes_cmp (s t : str) : comparison :=
  match s, t with
  | [], [] => Eq
  | [], _ => Lt
  | _, [] => Gt
  | a :: s, b :: t => match a ?= b with Eq => bytes_cmp s t | c => c end
  end.

(** [format!("{da:0<l$}")] *)
Definition pad (l : nat) (s : str) : str := s ++ zeros (l - length s).

(** [Dec::cmp] *)
Definition magnitude_cmp (a b : Dec) : comparison :=
  let da := trim_end is_zero_digit (digits a) in
  let db := trim_end is_zero_digit (digits b) in
  let ea := exp a + Z.of_nat (length (digits a) - length da) in
  let eb := exp b + Z.of_nat (length (digits b) - length db) in
  let aa := ea + Z.of_nat (length da) in
  let ab := eb + Z.of_nat (length db) in
  if negb (aa =? ab) then aa ?= ab
  else let l := (length da `max` length db)%nat in bytes_cmp (pad l da) (pad l db).

Definition dec_sign (d : Dec) : Z := if is_zero d then 0 else if neg d then -1 else 1.
Definition dec_cmp (a b : Dec) : comparison :=
  if is_zero a && is_zero b then Eq
  else if negb (dec_sign a =? dec_sign b) then dec_sign a ?= dec_sign b
  else if dec_sign a <? 0 then CompOpp (magnitude_cmp a b) else magnitude_cmp a b.

(** The first 17 digits rounded up: a nine becomes a zero and the digit before it goes up. *)
Fixpoint round_up (s : str) : str * bool :=
  match s with
  | [] => ([], true)
  | b :: s =>
      let '(s, carry) := round_up s in
      if carry then if b =? 57 then (48 :: s, true) else (b + 1 :: s, false) else (b :: s, false)
  end.

(** [Dec::to_f64] *)
Definition to_f64 (d : Dec) : f64 :=
  let '(ds, e) :=
    if (17 <? length (digits d))%nat then
      let keep := take 17 (digits d) in
      let rest := drop 17 (digits d) in
      let first := byte_at rest 0 in
      let tail_zero := forallb is_zero_digit (drop 1 rest) in
      let up := (53 <? first) || (first =? 53) && (negb tail_zero || ((byte_at keep 16 - 48) mod 2 =? 1)) in
      let '(keep, e) :=
        if up then
          let '(k, carry) := round_up keep in
          if carry then (take 17 (49 :: k), exp d + 1) else (k, exp d)
        else (keep, exp d) in
      (keep, e + Z.of_nat (length (digits d) - 17))
    else (digits d, exp d) in
  f64_of_decimal (neg d) (digits_value ds) e.

(** ** Values *)

Record Num := mk_num { f : f64; dec : option Dec }.
Definition num_f (x : f64) : Num := mk_num x None.
Definition from_literal (s : str) : option Num := d ← dec_parse s; Some (mk_num (to_f64 d) (Some d)).

Inductive Value : Type :=
  | Null
  | Bool (b : bool)
  | Number (n : Num)
  | Str (s : str)
  | Arr (l : list Value)
  | Obj (m : list (str * Value)).

Definition num (x : f64) : Value := Number (num_f x).

(** [IndexMap::get] and [insert]: a field that is there keeps its place. *)
Fixpoint field (k : str) (m : list (str * Value)) : option Value :=
  match m with
  | [] => None
  | (k', v) :: m => if decide (k = k') then Some v else field k m
  end.
Fixpoint insert_field (k : str) (v : Value) (m : list (str * Value)) : list (str * Value) :=
  match m with
  | [] => [(k, v)]
  | (k', v') :: m => if decide (k = k') then (k', v) :: m else (k', v') :: insert_field k v m
  end.

(** ** The order of values *)

Definition rank (v : Value) : Z :=
  match v with
  | Null => 0 | Bool false => 1 | Bool true => 2 | Number _ => 3 | Str _ => 4 | Arr _ => 5 | Obj _ => 6
  end.

Definition num_cmp (a b : Num) : comparison :=
  match dec a, dec b with
  | Some x, Some y =>
      if negb (out_of_range x) && negb (out_of_range y) then dec_cmp x y
      else if flt (f a) (f b) then Lt else if feq (f a) (f b) then Eq else Gt
  | _, _ => if flt (f a) (f b) then Lt else if feq (f a) (f b) then Eq else Gt
  end.

(** The pairs of two lists, up to the first that differs; then [rest]. *)
Fixpoint zip_cmp {A B} (cmp : A → B → comparison * bool) (x : list A) (y : list B) (rest : comparison * bool) : comparison * bool :=
  match x, y with
  | v :: x, w :: y =>
      match cmp v w with
      | (Eq, deep) => let '(c, deep') := zip_cmp cmp x y rest in (c, deep || deep')
      | r => r
      end
  | _, _ => rest
  end.

Definition length_cmp {A B} (x : list A) (y : list B) : comparison := (length x ?= length y)%nat.
Definition bytes_le (s t : str) : Prop := bytes_cmp s t ≠ Gt.
#[export] Instance bytes_le_dec s t : Decision (bytes_le s t).
Proof. unfold bytes_le. solve_decision. Defined.
Definition sorted_keys (m : list (str * Value)) : list str := merge_sort bytes_le m.*1.

(** [compare_d], [n] levels above the limit, and whether it went past it. *)
Fixpoint compare_d (n : nat) (a b : Value) : comparison * bool :=
  match n with
  | O => (Eq, true)
  | S n =>
      if negb (rank a =? rank b) then (rank a ?= rank b, false)
      else match a, b with
           | Number x, Number y => (if is_nan (f x) then Lt else if is_nan (f y) then Gt else num_cmp x y, false)
           | Str x, Str y => (bytes_cmp x y, false)
           | Arr x, Arr y => zip_cmp (compare_d n) x y (length_cmp x y, false)
           | Obj x, Obj y =>
               let kx := sorted_keys x in
               let ky := sorted_keys y in
               zip_cmp (λ k l, (bytes_cmp k l, false)) kx ky
                 match length_cmp kx ky with
                 | Eq => zip_cmp (λ k l, compare_d n (default Null (field k x)) (default Null (field l y))) kx kx (Eq, false)
                 | c => (c, false)
                 end
           | _, _ => (Eq, false)
           end
  end.

Definition MAX_CMP_DEPTH : nat := 10000.
Definition compare (a b : Value) : comparison := (compare_d (S MAX_CMP_DEPTH) a b).1.

(** ** Printing numbers *)

Definition two_digits (n : Z) : str := if n <? 10 then 48 :: decimal n else decimal n.

(** The notation of [fmt_f64]: the digits, and where the point is among them. *)
Definition notation_of (ds : str) (decpt : Z) : str :=
  let nd := Z.of_nat (length ds) in
  if (decpt <=? -4) || (nd + 15 <? decpt) then
    let d := decpt - 1 in
    take 1 ds ++ (if 1 <? nd then lit "." ++ drop 1 ds else []) ++ lit "e" ++ (if d <? 0 then lit "-" else lit "+") ++
    two_digits (Z.abs d)
  else if decpt <=? 0 then lit "0." ++ zeros (Z.to_nat (- decpt)) ++ ds
  else if nd <=? decpt then ds ++ zeros (Z.to_nat (decpt - nd))
  else take (Z.to_nat decpt) ds ++ lit "." ++ drop (Z.to_nat decpt) ds.

(** [fmt_f64] *)
Definition fmt_f64 (x : f64) : str :=
  if is_nan x then lit "null"
  else
    let x := if flt MAX x then MAX else x in
    let x := if flt x (SFopp MAX) then SFopp MAX else x in
    if feq x fzero then if is_sign_negative x then lit "-0" else lit "0"
    else let '(ds, e) := sci_digits x in (if is_sign_negative x then lit "-" else []) ++ notation_of ds (e + 1).

Definition fmt_num (n : Num) : str :=
  match dec n with
  | Some d => if negb (out_of_range d) then to_text d else fmt_f64 (f n)
  | None => fmt_f64 (f n)
  end.

(** ** Colors *)

Abbreviation Colors := (list str).
Definition ESC : str := 27 :: lit "[".
Definition color (s : str) : str := ESC ++ s ++ lit "m".
Definition default_colors : Colors :=
  (λ s, color (lit s)) <$> ["0;90"; "0;39"; "0;39"; "0;39"; "0;32"; "1;39"; "1;39"; "1;34"]%string.
Definition color_char (b : Z) : bool := is_digit b || (b =? 59).

(** The parts of the colors' text, at most [n]. *)
Fixpoint color_parts (n : nat) (s : str) : option (list str) :=
  match n with
  | O => Some []
  | S n =>
      let '(part, rest) := span color_char s in
      match rest with
      | [] => Some [part]
      | b :: rest => if bool_decide (n = 0%nat) then Some [part] else if b =? 58 then cons part <$> color_parts n rest else None
      end
  end.

(** [Colors::from_env] *)
Definition from_env (spec : str) : option Colors :=
  parts ← color_parts 8 spec;
  let parts := if bool_decide (last parts = Some []) then take (length parts - 1) parts else parts in
  Some ((color <$> parts) ++ drop (length parts) default_colors).

(** ** Printing *)

Definition BACKSLASH : Z := 92.

Record Fmt := mk_fmt { pretty : bool; indent : nat; tab : bool; sort : bool; ascii : bool; colors : option Colors }.
Definition compact : Fmt := mk_fmt false 0 false false false None.

Definition u4 (n : Z) : str := lit "\u" ++ [hex_char (n / 4096 mod 16); hex_char (n / 256 mod 16); hex_char (n / 16 mod 16); hex_char (n mod 16)].

(** [char::encode_utf16] *)
Definition encode_utf16 (cp : Z) : list Z :=
  if cp <? 65536 then [cp] else [55296 + (cp - 65536) / 1024; 56320 + (cp - 65536) mod 1024].

(** A character of [dump_string]. *)
Definition dump_char (ascii : bool) (c : str) : str :=
  let cp := code_point c in
  if cp =? 34 then [BACKSLASH; 34]
  else if cp =? BACKSLASH then [BACKSLASH; BACKSLASH]
  else if cp =? 10 then lit "\n"
  else if cp =? 9 then lit "\t"
  else if cp =? 13 then lit "\r"
  else if cp =? 8 then lit "\b"
  else if cp =? 12 then lit "\f"
  else if (cp <? 32) || (cp =? 127) then u4 cp
  else if ascii && (126 <? cp) then mjoin (u4 <$> encode_utf16 cp)
  else c.

Definition dump_string (s : str) (ascii : bool) : str := [34] ++ mjoin (dump_char ascii <$> chars s) ++ [34].

Definition newline (f : Fmt) (level : nat) : str :=
  if negb (pretty f) then []
  else LF :: if tab f then replicate level 9 else replicate (level * indent f) 32.

Definition MAX_PRINT_DEPTH : nat := 10000.

(** [col] and the reset after it. *)
Definition col (f : Fmt) (i : nat) : str := match colors f with Some c => default [] (c !! i) | None => [] end.
Definition reset_color (f : Fmt) : str := match colors f with Some _ => ESC ++ lit "0m" | None => [] end.
Definition colored (f : Fmt) (i : nat) (s : str) : str := col f i ++ s ++ reset_color f.

(** The elements of a container between its delimiters, each on its line. *)
Definition elements (f : Fmt) (ci : nat) (level : nat) (texts : list str) : str :=
  mjoin (imap (λ i t, (if bool_decide (i = 0%nat) then [] else col f ci ++ lit ",") ++ reset_color f ++ newline f (S level) ++ t) texts).

Definition container (f : Fmt) (ci : nat) (level : nat) (opens closes : str) (texts : list str) : str :=
  if bool_decide (texts = []) then colored f ci (opens ++ closes)
  else col f ci ++ opens ++ elements f ci level texts ++ newline f level ++ col f ci ++ closes ++ reset_color f.

(** A key and the colon. *)
Definition dump_key (f : Fmt) (k : str) : str :=
  colored f 7 (dump_string k (ascii f)) ++ colored f 6 (lit ":") ++ if pretty f then lit " " else [].

(** The fields in the order they are printed in. *)
Definition print_order (f : Fmt) (m : list (str * Value)) : list (str * Value) :=
  if sort f then (λ k, (k, default Null (field k m))) <$> sorted_keys m else m.

(** [dump_into], [n] levels above the limit. *)
Fixpoint dump_into (n : nat) (fm : Fmt) (level : nat) (v : Value) : str :=
  match n with
  | O => lit "<skipped: too deep>"
  | S n =>
      match v with
      | Null => colored fm 0 (lit "null")
      | Bool false => colored fm 1 (lit "false")
      | Bool true => colored fm 2 (lit "true")
      | Number x => colored fm 3 (fmt_num x)
      | Str s => colored fm 4 (dump_string s (ascii fm))
      | Arr l => container fm 5 level (lit "[") (lit "]") (dump_into n fm (S level) <$> l)
      | Obj m =>
          container fm 6 level (lit "{") (lit "}") ((λ e, dump_key fm e.1 ++ dump_into n fm (S level) e.2) <$> print_order fm m)
      end
  end.

Definition dump (v : Value) (fm : Fmt) : str := dump_into (S MAX_PRINT_DEPTH) fm 0 v.

(** [dump_trunc]: [floor_boundary] is the loop back to a character's start. *)
Fixpoint floor_boundary (s : str) (l : nat) : nat :=
  match l with
  | O => O
  | S k => match s !! l with Some b => if is_continuation b then floor_boundary s k else l | None => l end
  end.
Definition dump_trunc (v : Value) (bufsize : nat) : str :=
  let s := match v with
           | Str x => if (bufsize <? length x)%nat then dump (Str (mjoin (take bufsize (chars x)))) compact else dump v compact
           | _ => dump v compact
           end in
  if (bufsize - 1 <? length s)%nat && (8 <=? bufsize)%nat then
    let delim := match s with
                 | 34 :: _ => [34] | 91 :: _ => lit "]" | 123 :: _ => lit "}" | _ => []
                 end in
    let l := floor_boundary s (bufsize - if bool_decide (delim = []) then 4 else 5) in
    take l s ++ lit "..." ++ delim
  else s.

(** ** Bytes as text: jq's own replacement of what is not UTF-8 *)

Inductive Coding := Length (n : nat) | Continues | Never.
Definition coding_length (c : Z) : Coding :=
  if c <? 128 then Length 1 else if c <? 192 then Continues else if c <? 194 then Never
  else if c <? 224 then Length 2 else if c <? 240 then Length 3 else if c <? 245 then Length 4 else Never.

Definition REPLACEMENT : Z := 65533.

(** The continuation bytes of a character: its code point, or how many bytes came before one that is none. *)
Fixpoint continue (k : nat) (more : nat) (cp : Z) (s : str) : option Z * nat :=
  match more, s with
  | S more, b :: s =>
      match coding_length b with Continues => continue (S k) more (Z.lor (Z.shiftl cp 6) (Z.land b 63)) s | _ => (None, k) end
  | _, _ => (Some cp, k)
  end.

Definition next_char (s : str) : option Z * nat :=
  let first := byte_at s 0 in
  match coding_length first with
  | Length 1 => (Some first, 1%nat)
  | Length n =>
      if (length s <? n)%nat then (None, length s)
      else
        let bits := match n with 2%nat => 31 | 3%nat => 15 | _ => 7 end in
        let '(cp, k) := continue 1 (n - 1) (Z.land first bits) (drop 1 s) in
        let least := match k with 2%nat => 128 | 3%nat => 2048 | 4%nat => 65536 | _ => 0 end in
        (cp ← cp; if (cp <? least) || in_range 55296 57343 cp || (1114111 <? cp) then None else Some cp, k)
  | _ => (None, 1%nat)
  end.

(** [char::encode_utf8] *)
Definition encode_utf8 (cp : Z) : str :=
  if cp <? 128 then [cp]
  else if cp <? 2048 then [192 + cp / 64; 128 + cp mod 64]
  else if cp <? 65536 then [224 + cp / 4096; 128 + cp / 64 mod 64; 128 + cp mod 64]
  else [240 + cp / 262144; 128 + cp / 4096 mod 64; 128 + cp / 64 mod 64; 128 + cp mod 64].

(** [utf8_lossy] *)
Fixpoint lossy_chars (fuel : nat) (s : str) : str :=
  match fuel, s with
  | S fuel, _ :: _ => let '(cp, n) := next_char s in encode_utf8 (default REPLACEMENT cp) ++ lossy_chars fuel (drop n s)
  | _, _ => []
  end.
Definition utf8_lossy (s : str) : str := if utf8_valid s then s else lossy_chars (length s) s.

(** The source's tests. *)
Definition text_of (s : string) : option str := to_text <$> dec_parse (lit s).
Example numbers :
  fmt_f64 (f64_of_decimal false 1 (-5)) = lit "1e-05" ∧ fmt_f64 (f64_of_decimal false 1 23) = lit "1e+23" ∧
  fmt_f64 (f64_of_decimal false 1 17) = lit "1e+17" ∧ fmt_f64 (f64_of_decimal false 1 15) = lit "1000000000000000" ∧
  fmt_f64 (f64_of_decimal false 100 0) = lit "100" ∧ fmt_f64 INFINITY = lit "1.7976931348623157e+308" ∧
  text_of "1.000" = Some (lit "1.000") ∧ text_of "1E2" = Some (lit "1E+2") ∧ text_of "1e-5" = Some (lit "0.00001") ∧
  text_of "1e-7" = Some (lit "1E-7") ∧ text_of "1e17" = Some (lit "1E+17") ∧ text_of "0.00" = Some (lit "0.00").
Proof. by vm_compute. Qed.
