(* ===== verification/JqReader.v ===== *)
(** * jq's JSON reader

    The guest's jq reads JSON with a state machine fed in pieces (tools/rust/jq/src/json.rs): values, or the
    path and leaf events of --stream, come out one by one.

    [Parser] is the source's, its part that [reset] clears being [Core].  Stacks (the open containers, the path)
    have their top first; [unread] is [buf] from [pos] on.  A step that fails leaves the [Core] as it was: what
    it changed before is cleared by the [reset] that follows, but for the path of --stream-errors, which no
    failing step has changed. *)
From stdpp Require Import strings.
From S2P Require Import Prelude Str Float JqValue.

Local Open Scope Z_scope.

Definition MAX_DEPTH : nat := 10000.

(** ** State *)

Inductive St : Type := Normal | InStr | StrEscape | WaitRs.
Inductive Frame : Type := FArr (l : list Value) | FObj (m : list (str * Value)) | FKey (k : str).
Inductive Last : Type := LNone | OpenArray | OpenObject | Colon | Comma | LValue.

#[export] Instance St_eq_dec : EqDecision St.
Proof. solve_decision. Defined.
#[export] Instance Last_eq_dec : EqDecision Last.
Proof. solve_decision. Defined.

Record Core := mk_core {
  stack : list Frame;
  next : option Value;
  token : str;
  st : St;
  path : list Value;
  last_seen : Last;
  output : option (list Value);
}.

Definition set_stack (s : list Frame) (c : Core) : Core := mk_core s (next c) (token c) (st c) (path c) (last_seen c) (output c).
Definition set_next (v : option Value) (c : Core) : Core := mk_core (stack c) v (token c) (st c) (path c) (last_seen c) (output c).
Definition set_token (t : str) (c : Core) : Core := mk_core (stack c) (next c) t (st c) (path c) (last_seen c) (output c).
Definition set_st (s : St) (c : Core) : Core := mk_core (stack c) (next c) (token c) s (path c) (last_seen c) (output c).
Definition set_path (l : list Value) (c : Core) : Core := mk_core (stack c) (next c) (token c) (st c) l (last_seen c) (output c).
Definition set_last (l : Last) (c : Core) : Core := mk_core (stack c) (next c) (token c) (st c) (path c) l (output c).
Definition set_output (o : option (list Value)) (c : Core) : Core := mk_core (stack c) (next c) (token c) (st c) (path c) (last_seen c) o.

(** What [reset] leaves. *)
Definition fresh (s : St) : Core := mk_core [] None [] s [] LNone None.

Record Parser := mk_parser {
  core : Core;
  line : Z;
  column : Z;
  seq : bool;
  eof : bool;
  last_ch_was_ws : bool;
  bom : nat;
  unread : str;
  partial : bool;
  dead : bool;
  streaming : bool;
  stream_errors : bool;
}.

Definition with_core (c : Core) (p : Parser) : Parser :=
  mk_parser c (line p) (column p) (seq p) (eof p) (last_ch_was_ws p) (bom p) (unread p) (partial p) (dead p) (streaming p) (stream_errors p).
Definition with_unread (u : str) (p : Parser) : Parser :=
  mk_parser (core p) (line p) (column p) (seq p) (eof p) (last_ch_was_ws p) (bom p) u (partial p) (dead p) (streaming p) (stream_errors p).
Definition with_ws (w : bool) (p : Parser) : Parser :=
  mk_parser (core p) (line p) (column p) (seq p) (eof p) w (bom p) (unread p) (partial p) (dead p) (streaming p) (stream_errors p).
Definition with_dead (p : Parser) : Parser :=
  mk_parser (core p) (line p) (column p) (seq p) (eof p) (last_ch_was_ws p) (bom p) (unread p) (partial p) true (streaming p) (stream_errors p).
Definition with_eof (p : Parser) : Parser :=
  mk_parser (core p) (line p) (column p) (seq p) true (last_ch_was_ws p) (bom p) (unread p) (partial p) (dead p) (streaming p) (stream_errors p).
Definition with_bom (b : nat) (p : Parser) : Parser :=
  mk_parser (core p) (line p) (column p) (seq p) (eof p) (last_ch_was_ws p) b (unread p) (partial p) (dead p) (streaming p) (stream_errors p).
Definition with_partial (b : bool) (p : Parser) : Parser :=
  mk_parser (core p) (line p) (column p) (seq p) (eof p) (last_ch_was_ws p) (bom p) (unread p) b (dead p) (streaming p) (stream_errors p).

(** A character more: a newline starts a line. *)
Definition advance (ch : Z) (p : Parser) : Parser :=
  let '(l, c) := if ch =? LF then (line p + 1, 0) else (line p, column p + 1) in
  mk_parser (core p) l c (seq p) (eof p) (last_ch_was_ws p) (bom p) (unread p) (partial p) (dead p) (streaming p) (stream_errors p).

Inductive Next : Type := NValue (v : Value) | NError (msg : str) | NNone.

(** [Parser::new] and [new_streaming] *)
Definition new_parser (seq : bool) : Parser :=
  mk_parser (fresh (if seq then WaitRs else Normal)) 1 0 seq false false 0 [] true false false false.
Definition new_streaming (seq errors : bool) : Parser :=
  mk_parser (fresh (if seq then WaitRs else Normal)) 1 0 seq false false 0 [] true false true errors.

Definition path_value (c : Core) : Value := Arr (reverse (path c)).

Definition make_error (p : Parser) (msg : str) : Next :=
  if stream_errors p then NValue (Arr [Str msg; path_value (core p)]) else NError msg.

(** ** Feeding *)

Definition BOM : list Z := [239; 187; 191].

(** The byte order mark is dropped; [255] when it breaks off. *)
Fixpoint strip_bom (bom : nat) (d : str) : nat * str :=
  match d with
  | [] => (bom, [])
  | b :: d' =>
      if (3 <=? bom)%nat then (bom, d)
      else if bool_decide (BOM !! bom = Some b) then strip_bom (S bom) d'
      else if (bom =? 0)%nat then (3%nat, d) else (255%nat, d)
  end.

Definition feed (data : str) (last : bool) (p : Parser) : Parser :=
  let '(b, d) := strip_bom (bom p) data in
  with_partial (negb last) (with_unread (unread p ++ d) (with_bom b p)).

(** ** Values and tokens *)

Definition separator : str := lit "Expected separator between values".

(** [value] *)
Definition take_value (streaming : bool) (v : Value) (c : Core) : result str Core :=
  if streaming then
    if bool_decide (is_Some (next c)) || bool_decide (last_seen c = LValue) then Err separator
    else Ok (set_next (Some v) (set_last (if bool_decide (path c = []) then LNone else LValue) c))
  else if bool_decide (is_Some (next c)) then Err separator
  else Ok (set_next (Some v) c).

Definition is_number (v : option Value) : bool := match v with Some (Number _) => true | _ => false end.
Definition top_is_num (c : Core) : bool := is_number (head (path c)).
Definition set_top (v : Value) (c : Core) : Core := set_path (v :: tail (path c)) c.
Definition after_close (c : Core) : Last := if bool_decide (path c = []) then LNone else LValue.

(** A waiting leaf becomes an event. *)
Definition leaf_event (closing : bool) (c : Core) : Core :=
  match next c with
  | Some v => set_next None (set_output (Some ([path_value c; v] ++ if closing then [Bool true] else [])) c)
  | None => c
  end.

(** [stream_token] *)
Definition stream_open_array (c : Core) : result str Core :=
  if bool_decide (is_Some (next c)) then Err (lit "Expected a separator between values")
  else if bool_decide (last_seen c = OpenObject) then Err (lit "Expected string key after '{', not '['")
  else if bool_decide (last_seen c = Comma) && negb (top_is_num c) then Err (lit "Expected string key after ',' in object, not '['")
  else Ok (set_last OpenArray (set_path (num fzero :: path c) c)).
Definition stream_open_object (c : Core) : result str Core :=
  if bool_decide (last_seen c = LValue) then Err (lit "Expected a separator between values")
  else if bool_decide (last_seen c = OpenObject) then Err (lit "Expected string key after '{', not '{'")
  else if bool_decide (last_seen c = Comma) && negb (top_is_num c) then Err (lit "Expected string key after ',' in object, not '{'")
  else Ok (set_last OpenObject (set_path (Null :: path c) c)).
Definition stream_colon (c : Core) : result str Core :=
  if bool_decide (path c = []) || top_is_num c then Err (lit "':' not as part of an object")
  else match next c with
       | None => Err (lit "Expected string key before ':'")
       | Some k =>
           if bool_decide (last_seen c = LNone) then Err (lit "Expected string key before ':'")
           else match k with
                | Str _ =>
                    if negb (bool_decide (last_seen c = LValue)) then Err (lit "':' should follow a key")
                    else Ok (set_top k (set_next None (set_last Colon c)))
                | _ => Err (lit "Object keys must be strings")
                end
       end.
Definition stream_comma (c : Core) : result str Core :=
  if negb (bool_decide (last_seen c = LValue)) then Err (lit "Expected value before ','")
  else match head (path c) with
       | None => Err (lit "',' not as part of an object or array")
       | Some (Number n) => Ok (set_last Comma (set_top (num (fadd (f n) fone)) (leaf_event false c)))
       | Some (Str _) => Ok (set_last Comma (set_top Null (leaf_event false c)))
       | Some _ => Err (lit "Objects must consist of key:value pairs")
       end.
Definition stream_close_array (c : Core) : result str Core :=
  if bool_decide (path c = []) then Err (lit "Unmatched ']' at the top-level")
  else if bool_decide (last_seen c = Comma) then Err (lit "Expected another array element")
  else if negb (top_is_num c) then Err (lit "Unmatched ']' in the middle of an object")
  else
    let opened := bool_decide (last_seen c = OpenArray) in
    let c := if bool_decide (is_Some (next c)) then leaf_event true c
             else if opened then c else set_output (Some [path_value c]) c in
    let c := set_path (tail (path c)) c in
    let c := if opened then set_output (Some [path_value c; Arr []]) c else c in
    Ok (set_last (after_close c) c).
Definition stream_close_object (c : Core) : result str Core :=
  match head (path c) with
  | None => Err (lit "Unmatched '}' at the top-level")
  | Some top =>
      if bool_decide (last_seen c = Comma) then Err (lit "Expected another key:value pair")
      else if is_number (Some top) then Err (lit "Unmatched '}' in the middle of an array")
      else
        let opened := bool_decide (last_seen c = OpenObject) in
        c ← (if bool_decide (is_Some (next c)) then
               match top with Str _ => Ok (leaf_event true c) | _ => Err (lit "Objects must consist of key:value pairs") end
             else match last_seen c with
                  | Colon => Err (lit "Missing value in key:value pair")
                  | Comma => Err (lit "Expected another key-value pair")
                  | OpenArray => Err (lit "Unmatched '}' in the middle of an array")
                  | LNone => Err (lit "Unmatched '}'")
                  | LValue => Ok (set_output (Some [path_value c]) c)
                  | OpenObject => Ok c
                  end);
        let c := set_path (tail (path c)) c in
        let c := if opened then set_output (Some [path_value c; Obj []]) c else c in
        Ok (set_last (after_close c) c)
  end.
Definition stream_token (ch : Z) (c : Core) : result str Core :=
  if ch =? 91 then stream_open_array c
  else if ch =? 123 then stream_open_object c
  else if ch =? 58 then stream_colon c
  else if ch =? 44 then stream_comma c
  else if ch =? 93 then stream_close_array c
  else if ch =? 125 then stream_close_object c
  else Ok c.

(** [stream_done] *)
Definition stream_done (c : Core) : option Value * Core :=
  match path c, next c with
  | [], Some v => (Some (Arr [Arr []; v]), set_next None c)
  | _, _ =>
      match output c with
      | None => (None, c)
      | Some out =>
          if (2 <? length out)%nat then (Some (Arr (take 2 out)), set_output (Some (take 1 out)) c)
          else (Some (Arr out), set_output None c)
      end
  end.

(** [token_ch] without --stream.  What a frame takes in: an element, or the value of its key. *)
Definition open_container (fr : Frame) (c : Core) : result str Core :=
  if (MAX_DEPTH <=? length (stack c))%nat then Err (lit "Exceeds depth limit for parsing")
  else if bool_decide (is_Some (next c)) then Err separator
  else Ok (set_stack (fr :: stack c) c).
Definition token_colon (c : Core) : result str Core :=
  match next c with
  | None => Err (lit "Expected string key before ':'")
  | Some n =>
      match stack c with
      | FObj _ :: _ =>
          match n with
          | Str k => Ok (set_stack (FKey k :: stack c) (set_next None c))
          | _ => Err (lit "Object keys must be strings")
          end
      | _ => Err (lit "':' not as part of an object")
      end
  end.
Definition insert_below (k : str) (v : Value) (s : list Frame) : list Frame :=
  match s with FObj m :: s => FObj (insert_field k v m) :: s | _ => s end.
Definition token_comma (c : Core) : result str Core :=
  match next c with
  | None => Err (lit "Expected value before ','")
  | Some n =>
      match stack c with
      | [] => Err (lit "',' not as part of an object or array")
      | FArr a :: s => Ok (set_stack (FArr (a ++ [n]) :: s) (set_next None c))
      | FKey k :: s => Ok (set_stack (insert_below k n s) (set_next None c))
      | FObj _ :: _ => Err (lit "Objects must consist of key:value pairs")
      end
  end.
Definition token_close_array (c : Core) : result str Core :=
  match stack c with
  | FArr a :: s =>
      match next c with
      | Some n => Ok (set_next (Some (Arr (a ++ [n]))) (set_stack s c))
      | None => if bool_decide (a = []) then Ok (set_next (Some (Arr a)) (set_stack s c)) else Err (lit "Expected another array element")
      end
  | _ => Err (lit "Unmatched ']'")
  end.
Definition token_close_object (c : Core) : result str Core :=
  s ← match stack c with
      | [] => Err (lit "Unmatched '}'")
      | top :: s =>
          match next c with
          | Some n =>
              match top with
              | FKey k => Ok (insert_below k n s)
              | _ => Err (lit "Objects must consist of key:value pairs")
              end
          | None =>
              match top with
              | FObj m => if bool_decide (m = []) then Ok (stack c) else Err (lit "Expected another key-value pair")
              | _ => Err (lit "Unmatched '}'")
              end
          end
      end;
  match s with
  | FObj m :: s => Ok (set_next (Some (Obj m)) (set_stack s c))
  | _ => Err (lit "Unmatched '}'")
  end.
Definition token_ch (streaming : bool) (ch : Z) (c : Core) : result str Core :=
  if streaming then stream_token ch c
  else if ch =? 91 then open_container (FArr []) c
  else if ch =? 123 then open_container (FObj []) c
  else if ch =? 58 then token_colon c
  else if ch =? 44 then token_comma c
  else if ch =? 93 then token_close_array c
  else if ch =? 125 then token_close_object c
  else Ok c.

(** ** Literals *)

(** [parse_number] *)
Definition parse_number (t : str) : option Num :=
  if negb (utf8_valid t) then None
  else
    let '(neg, body) := match t with 45 :: s => (true, s) | 43 :: s => (false, s) | s => (false, s) end in
    let lower := lower_byte <$> body in
    if bool_decide (lower = lit "nan") then Some (num_f S754_nan)
    else if bool_decide (lower = lit "inf") || bool_decide (lower = lit "infinity") then
      Some (num_f (if neg then NEG_INFINITY else INFINITY))
    else match body with
         | b :: _ => if is_digit b || (b =? 46) then from_literal (if neg then 45 :: body else body) else None
         | [] => None
         end.

Definition Pattern : Type := str * Value.

(** The literal a token must be, from its first bytes. *)
Definition literal_pattern (t : str) : result str (option Pattern) :=
  match t with
  | 116 :: _ => Ok (Some (lit "true", Bool true))
  | 102 :: _ => Ok (Some (lit "false", Bool false))
  | 39 :: _ => Err (lit "Invalid string literal; expected " ++ [34] ++ lit ", but got '")
  | 110 :: 117 :: _ => Ok (Some (lit "null", Null))
  | _ => Ok None
  end.

(** [check_literal] *)
Definition check_literal (streaming : bool) (c : Core) : result str Core :=
  let t := token c in
  if bool_decide (t = []) then Ok c
  else
    let c := set_token [] c in
    pattern ← literal_pattern t;
    match pattern with
    | Some (p, v) => if bool_decide (t = p) then take_value streaming v c else Err (lit "Invalid literal")
    | None =>
        match parse_number t with
        | Some n => take_value streaming (Number n) c
        | None => Err (lit "Invalid numeric literal")
        end
    end.

(** ** Strings *)

Fixpoint unhex (acc : Z) (h : str) : option Z :=
  match h with
  | [] => Some acc
  | b :: h => n ← hex_digit b; unhex (Z.lor (Z.shiftl acc 4) n) h
  end.
Definition unhex4 (h : str) : option Z := unhex 0 h.

Definition surrogate_error : str := lit "Invalid \uXXXX\uXXXX surrogate pair escape".

(** The escape [\uXXXX] from its first digit on, maybe with a second one: the character and the bytes it took. *)
Definition unicode_escape (t : str) : result str (Z * nat) :=
  if (length t <? 4)%nat then Err (lit "Invalid \uXXXX escape")
  else
    cp ← ok_or (unhex4 (take 4 t)) (lit "Invalid characters in \uXXXX escape");
    if in_range 55296 56319 cp then
      let u := drop 4 t in
      if (length u <? 6)%nat || negb (bool_decide (take 2 u = lit "\u")) then Err surrogate_error
      else
        let s := default 0 (unhex4 (take 4 (drop 2 u))) in
        if in_range 56320 57343 s then Ok (65536 + Z.lor (Z.shiftl (cp - 55296) 10) (s - 56320), 10%nat) else Err surrogate_error
    else Ok (cp, 4%nat).

(** [char::from_u32] with the replacement character for a lone surrogate. *)
Definition char_of (cp : Z) : Z := if in_range 55296 57343 cp || (1114111 <? cp) then REPLACEMENT else cp.

(** The escapes of one letter. *)
Definition letter_escape (e : Z) : option Z :=
  if (e =? BACKSLASH) || (e =? 34) || (e =? 47) then Some e
  else if e =? chr "b" then Some 8
  else if e =? chr "f" then Some 12
  else if e =? chr "t" then Some 9
  else if e =? chr "n" then Some 10
  else if e =? chr "r" then Some 13
  else None.

Fixpoint unescape (fuel : nat) (t : str) : result str str :=
  match fuel, t with
  | S fuel, ch :: t =>
      if ch =? BACKSLASH then
        match t with
        | [] => Err (lit "Expected escape character at end of string")
        | e :: t =>
            match letter_escape e with
            | Some b => out ← unescape fuel t; Ok (b :: out)
            | None =>
                if e =? chr "u" then
                  '(cp, n) ← unicode_escape t;
                  out ← unescape fuel (drop n t); Ok (encode_utf8 (char_of cp) ++ out)
                else Err (lit "Invalid escape")
            end
        end
      else if ch <? 32 then Err (lit "Invalid string: control characters from U+0000 through U+001F must be escaped")
      else out ← unescape fuel t; Ok (ch :: out)
  | _, _ => Ok []
  end.

(** [found_string] *)
Definition found_string (streaming : bool) (c : Core) : result str Core :=
  out ← unescape (length (token c)) (token c);
  take_value streaming (Str (utf8_lossy out)) (set_token [] c).

(** ** The scanner *)

(** [done] *)
Definition done_ (streaming : bool) (c : Core) : option Value * Core :=
  if streaming then stream_done c
  else match stack c with [] => (next c, set_next None c) | _ => (None, c) end.

(** Done, unless a value is out already. *)
Definition done_if (streaming : bool) (out : option Value) (c : Core) : option Value * Core :=
  match out with Some _ => (out, c) | None => done_ streaming c end.

Inductive ChClass : Type := Literal | Whitespace | Structure | Quote | Invalid.
#[export] Instance ChClass_eq_dec : EqDecision ChClass.
Proof. solve_decision. Defined.
Definition classify (ch : Z) : ChClass :=
  if ch =? 0 then Invalid
  else if (ch =? 32) || (ch =? 9) || (ch =? 13) || (ch =? 10) then Whitespace
  else if ch =? 34 then Quote
  else if (ch =? 91) || (ch =? 44) || (ch =? 93) || (ch =? 123) || (ch =? 58) || (ch =? 125) then Structure
  else Literal.

(** Outside strings. *)
Definition scan_normal (streaming : bool) (ch : Z) (c : Core) : result str (option Value * Core) :=
  let cls := classify ch in
  '(out, c) ← (if bool_decide (cls = Literal) then Ok (None, c)
               else c ← check_literal streaming c; Ok (done_ streaming c));
  c ← match cls with
      | Literal => Ok (set_token (token c ++ [ch]) c)
      | Whitespace => Ok c
      | Quote => Ok (set_st InStr c)
      | Structure => token_ch streaming ch c
      | Invalid => Err (lit "Invalid character")
      end;
  Ok (done_if streaming out c).

(** Within strings. *)
Definition scan_string (streaming : bool) (ch : Z) (c : Core) : result str (option Value * Core) :=
  if (ch =? 34) && bool_decide (st c = InStr) then
    c ← found_string streaming c; Ok (done_ streaming (set_st Normal c))
  else
    Ok (None, set_st (if (ch =? BACKSLASH) && bool_decide (st c = InStr) then StrEscape else InStr) (set_token (token c ++ [ch]) c)).

Definition RS : Z := 30.

(** A record separator: what is open was cut off. *)
Definition truncated (p : Parser) : bool :=
  let c := core p in
  if streaming p then
    negb (bool_decide (path c = [])) || match next c with Some (Number _ | Bool _ | Null) => true | _ => false end
  else
    negb (last_ch_was_ws p) && (negb (bool_decide (stack c = [])) || negb (bool_decide (token c = [])) || is_number (next c)).
Definition scan_rs (p : Parser) : result str (option Value * Core) :=
  let c := core p in
  if truncated p then
    let top_num := match check_literal (streaming p) c with
                   | Ok c => bool_decide (stack c = []) && bool_decide (path c = []) && is_number (next c)
                   | Err _ => false
                   end in
    Err (if top_num then lit "Potentially truncated top-level numeric value" else lit "Truncated value")
  else
    c ← check_literal (streaming p) c;
    if bool_decide (st c = Normal) then
      match done_ (streaming p) c with
      | (Some v, c) => Ok (Some v, c)
      | (None, _) => Ok (None, fresh Normal)
      end
    else Ok (None, fresh Normal).

(** [scan] *)
Definition scan (ch : Z) (p : Parser) : Parser * result str (option Value) :=
  let p := advance ch p in
  let '(p, r) :=
    if seq p && (ch =? RS) then (p, scan_rs p)
    else if bool_decide (st (core p) = Normal) then
      (with_ws (bool_decide (classify ch = Whitespace)) p, scan_normal (streaming p) ch (core p))
    else (with_ws false p, scan_string (streaming p) ch (core p)) in
  match r with Ok (v, c) => (with_core c p, Ok v) | Err msg => (p, Err msg) end.

(** " at line {}, column {}" *)
Definition located (p : Parser) (msg : str) : str :=
  msg ++ lit " at line " ++ decimal (line p) ++ lit ", column " ++ decimal (column p).

(** What a failed step does: the error, and the parser after it. *)
Definition failed (ch : Z) (msg : str) (p : Parser) : Parser * Next :=
  if negb (ch =? RS) && seq p then (with_core (fresh WaitRs) p, make_error p (located p msg ++ lit " (need RS to resync)"))
  else
    let p' := with_core (fresh Normal) p in
    ((if seq p then p' else with_dead p'), make_error p (located p msg)).

(** The loop over what is there. *)
Fixpoint read_loop (p : Parser) (u : str) : Parser * option Next :=
  match u with
  | [] => (with_unread [] p, None)
  | ch :: u =>
      if bool_decide (st (core p) = WaitRs) then
        let p := advance ch p in
        read_loop (if ch =? RS then with_core (set_st Normal (core p)) p else p) u
      else
        match scan ch p with
        | (p, Ok (Some v)) => (with_unread u p, Some (NValue v))
        | (p, Ok None) => read_loop p u
        | (p, Err msg) => let '(p, e) := failed ch msg p in (with_unread u p, Some e)
        end
  end.

(** The end of the input. *)
Definition at_end (p : Parser) : Parser * Next :=
  let p := with_eof p in
  let reset_ := with_core (fresh Normal) p in
  if bool_decide (st (core p) = WaitRs) then (p, make_error p (located p (lit "Unfinished abandoned text at EOF")))
  else if negb (bool_decide (st (core p) = Normal)) then (reset_, make_error p (located p (lit "Unfinished string at EOF")))
  else match check_literal (streaming p) (core p) with
       | Err msg => (reset_, make_error p (located p (msg ++ lit " at EOF")))
       | Ok c =>
           if negb (bool_decide (stack c = [])) || negb (bool_decide (path c = [])) then
             (reset_, make_error p (located p (lit "Unfinished JSON term at EOF")))
           else
             let p' := with_core (set_next None c) p in
             match next c with
             | None => (p', NNone)
             | Some v =>
                 if streaming p then (p', NValue (Arr [Arr []; v]))
                 else if seq p && negb (last_ch_was_ws p) && is_number (Some v) then
                   (p', NError (located p (lit "Potentially truncated top-level numeric value at EOF")))
                 else (p', NValue v)
             end
       end.

(** [Parser::next] *)
Definition read_next (p : Parser) : Parser * Next :=
  if eof p || dead p then (p, NNone)
  else if (bom p =? 255)%nat && negb (seq p) then (with_dead p, NError (lit "Malformed BOM"))
  else
    let p := if (bom p =? 255)%nat then with_bom 3 (with_core (fresh Normal) p) else p in
    let '(v, c) := if streaming p then stream_done (core p) else (None, core p) in
    let p := with_core c p in
    match v with
    | Some v => (p, NValue v)
    | None =>
        match read_loop p (unread p) with
        | (p, Some n) => (p, n)
        | (p, None) => if partial p then (p, NNone) else at_end p
        end
    end.

(** [parse_one] *)
Definition parse_one (s : str) : result str Value :=
  match read_next (feed s true (new_parser false)) with
  | (p, NValue v) =>
      match (read_next p).2 with
      | NValue _ => Err (lit "Unexpected extra JSON values")
      | NError e => Err e
      | NNone => Ok v
      end
  | (_, NError e) => Err e
  | (_, NNone) => Err (lit "Expected JSON value")
  end.

(** The source's tests: every value, compactly, up to an error. *)
Fixpoint all (fuel : nat) (p : Parser) : list str :=
  match fuel with
  | O => []
  | S fuel =>
      match read_next p with
      | (p, NValue v) => dump v compact :: all fuel p
      | (_, NError e) => [lit "!" ++ e]
      | (_, NNone) => []
      end
  end.
Definition all_of (s : str) : list str := all 10 (feed s true (new_parser false)).
Definition quote_texts (s : string) : str := (λ b, if b =? chr "`" then 34 else b) <$> lit s.

Example parse_tests :
  all_of (quote_texts "1 [2,{`a`:3}] `x\u00e9`") = [lit "1"; quote_texts "[2,{`a`:3}]"; [34; 120; 195; 169; 34]] ∧
  all_of (lit "0x10" ++ [LF]) = [lit "!Invalid numeric literal at line 2, column 0"] ∧
  all_of (lit "[1,2") = [lit "!Unfinished JSON term at EOF at line 1, column 4"] ∧
  all_of (lit "NaN1") = [lit "!Invalid numeric literal at EOF at line 1, column 4"] ∧
  all_of (lit "{'a': 123}") =
    [lit "!Invalid string literal; expected " ++ [34] ++ lit ", but got ' at line 1, column 5"] ∧
  all_of (lit "1.000 1E2 .5") = [lit "1.000"; lit "1E+2"; lit "0.5"].
Proof. by vm_compute. Qed.
