(* ===== verification/JqOrder.v ===== *)
(** * jq's numbers and order

    A literal read and printed is the same decimal ([dec_read]); [Dec::cmp] compares what the digits say
    ([dec_cmp_exact]); [compare] of value.rs is a total order on values of exact numbers ([jq_order_total]) and not on
    all values ([order_not_total]).  [Total] and its lemmas build the order from those of its parts, as the code
    does: by rank, then pairwise, then by length or by keys. *)
From stdpp Require Import strings.
From S2P Require Import Prelude Str Float JqValue.

Local Open Scope Z_scope.

(** ** Digits *)

Definition all_digits (s : str) : Prop := Forall (λ b, is_digit b = true) s.

Lemma is_digit_range b : is_digit b = true ↔ 48 <= b <= 57.
Proof. unfold is_digit. rewrite andb_true_iff, !Z.leb_le. done. Qed.

Lemma zeros_digits n : all_digits (zeros n).
Proof. apply Forall_replicate. done. Qed.

(** The value of digits is a number in base ten. *)
Lemma digits_value_acc acc s : foldl (λ acc b, acc * 10 + (b - 48)) acc s = acc * 10 ^ Z.of_nat (length s) + digits_value s.
Proof.
  unfold digits_value. revert acc. induction s as [|b s IH]; intros acc; cbn [foldl length]; [simpl; lia|].
  rewrite IH, (IH (0 * 10 + (b - 48))), Nat2Z.inj_succ, Z.pow_succ_r by lia. ring.
Qed.
Lemma digits_value_app s t : digits_value (s ++ t) = digits_value s * 10 ^ Z.of_nat (length t) + digits_value t.
Proof. unfold digits_value at 1. rewrite foldl_app, digits_value_acc. done. Qed.
Lemma digits_value_cons b s : digits_value (b :: s) = (b - 48) * 10 ^ Z.of_nat (length s) + digits_value s.
Proof. exact (digits_value_app [b] s). Qed.
Lemma digits_value_zeros n : digits_value (zeros n) = 0.
Proof. unfold zeros. induction n as [|n IH]; [done|]. rewrite replicate_S, digits_value_cons, IH. lia. Qed.
Lemma digits_value_range s : all_digits s → 0 <= digits_value s < 10 ^ Z.of_nat (length s).
Proof.
  induction 1 as [|b s Hb%is_digit_range _ IH]; [done|]. rewrite digits_value_cons. cbn [length].
  rewrite Nat2Z.inj_succ, Z.pow_succ_r by lia. nia.
Qed.

(** Printing a number in decimal and reading it back. *)
Lemma decimal_digits_value fuel n : 0 <= n < 10 ^ Z.of_nat fuel → digits_value (decimal_digits fuel n) = n.
Proof.
  revert n. induction fuel as [|fuel IH]; intros n Hn; [simpl in *; unfold digits_value; simpl; lia|]. cbn [decimal_digits].
  destruct (Z.ltb_spec n 10); [unfold digits_value; simpl; lia|].
  rewrite Nat2Z.inj_succ, Z.pow_succ_r in Hn by lia. rewrite digits_value_app, IH.
  - unfold digits_value. cbn [foldl length]. change (10 ^ Z.of_nat 1) with 10. Z.div_mod_to_equations. lia.
  - split; [apply Z.div_pos; lia|apply Z.div_lt_upper_bound; lia].
Qed.
Lemma decimal_nonempty fuel n : decimal_digits (S fuel) n ≠ [].
Proof. cbn [decimal_digits]. destruct (n <? 10); [done|]. by intros [_ ?]%app_eq_nil. Qed.
Lemma decimal_all_digits n : 0 <= n → all_digits (decimal n).
Proof.
  intros Hn. eapply Forall_impl; [apply (proj2 (decimal_digits_ok 20 n Hn))|]. intros b Hb. by apply is_digit_range.
Qed.

(** The clamp does nothing up to its bound. *)
Lemma clamped_exp_acc acc s : all_digits s → 0 <= acc → acc * 10 ^ Z.of_nat (length s) + digits_value s <= 2 ^ 40 →
  foldl (λ e b, Z.min (e * 10 + (b - 48)) (2 ^ 40)) acc s = acc * 10 ^ Z.of_nat (length s) + digits_value s.
Proof.
  intros Hs. revert acc. induction Hs as [|b s Hb%is_digit_range Hs IH]; intros acc Ha Hle; [simpl; unfold digits_value; simpl; lia|].
  pose proof (digits_value_range s Hs). rewrite digits_value_cons in *. cbn [length foldl] in *.
  rewrite Nat2Z.inj_succ, Z.pow_succ_r in * by lia.
  assert (0 < 10 ^ Z.of_nat (length s)) by (apply Z.pow_pos_nonneg; lia).
  rewrite Z.min_l by nia. rewrite IH; [ring|lia|nia].
Qed.
Lemma clamped_exp_small s : all_digits s → digits_value s <= 2 ^ 40 → clamped_exp s = digits_value s.
Proof. intros Hs Hle. unfold clamped_exp. by rewrite clamped_exp_acc. Qed.

Lemma span_app (p : Z → bool) s t :
  Forall (λ b, p b = true) s → (∀ b, head t = Some b → p b = false) → span p (s ++ t) = (s, t).
Proof.
  intros Hs Ht. induction Hs as [|b s Hb _ IH]; cbn [app span].
  - destruct t as [|b t]; [done|]. cbn [span]. by rewrite (Ht b).
  - by rewrite Hb, IH.
Qed.
Lemma span_all (p : Z → bool) s : Forall (λ b, p b = true) s → span p s = (s, []).
Proof. intros Hs. rewrite <-(app_nil_r s) at 1. by apply span_app. Qed.

(** ** Literals *)

(** A literal as [Dec::parse] makes them, its exponent within the clamp. *)
Record wf_dec (d : Dec) : Prop := {
  wf_digits : all_digits (digits d);
  wf_trimmed : trim_digits (digits d) = digits d;
  wf_exp : Z.abs (adjusted d) <= 2 ^ 40;
}.

Lemma wf_nonempty d : wf_dec d → digits d ≠ [].
Proof. intros Hd E. pose proof (wf_trimmed d Hd) as Ht. rewrite E in Ht. done. Qed.

Lemma trim_leading k s : trim_digits (zeros k ++ s) = trim_digits s.
Proof.
  unfold trim_digits. assert (trim_start is_zero_digit (zeros k ++ s) = trim_start is_zero_digit s) as ->; [|done].
  unfold zeros. induction k as [|k IH]; [done|]. exact IH.
Qed.

(** What follows the digits of a scientific notation. *)
Lemma exponent_read e : Z.abs e <= 2 ^ 40 →
  dec_exponent (lit "E" ++ (if e <? 0 then lit "-" else lit "+") ++ decimal (Z.abs e)) = Some e.
Proof.
  intros He. set (a := Z.abs e).
  assert (all_digits (decimal a)) as Hd by (apply decimal_all_digits; lia).
  assert (clamped_exp (decimal a) = a) as Hc.
  { assert (digits_value (decimal a) = a) as Hv by (apply decimal_digits_value; lia). rewrite clamped_exp_small, Hv by (done || lia). done. }
  assert (decimal a ≠ []) as Hne by apply decimal_nonempty.
  assert (∀ b : bool, dec_exponent (69 :: (if b then 45 else 43) :: decimal a) = Some (if b then - a else a)) as H.
  { intros b. unfold dec_exponent. change ((69 =? 101) || (69 =? 69)) with true. cbv iota.
    destruct b; rewrite span_all, bool_decide_eq_false_2, Hc by done; done. }
  destruct (Z.ltb_spec e 0); [etransitivity; [exact (H true)|]|etransitivity; [exact (H false)|]]; f_equal; lia.
Qed.

(** A literal read from its digits, around a point or not, and what follows. *)
Lemma unsigned_read neg k s t rest e :
  all_digits (s ++ t) → s ++ t ≠ [] → dec_exponent rest = Some e →
  (∀ b, head rest = Some b → is_digit b = false ∧ b ≠ 46) → trim_digits (s ++ t) = trim_digits k →
  dec_unsigned neg (s ++ (if bool_decide (t = []) then [] else 46 :: t) ++ rest) =
    Some (mk_dec neg (trim_digits k) (e - Z.of_nat (length t))).
Proof.
  intros [Hs Ht]%Forall_app Hne He Hr Hk. unfold dec_unsigned. case_bool_decide as E.
  - subst t. rewrite app_nil_l, span_app; [|done|intros b Hb; by apply Hr].
    assert ((match rest with 46 :: s0 => span is_digit s0 | _ => ([], rest) end) = ([], rest)) as ->.
    { destruct rest as [|b rest]; [done|]. destruct (Hr b eq_refl) as [_ Hb]. by repeat case_match. }
    rewrite bool_decide_eq_false_2 by done. rewrite He, Hk. cbn. f_equal. f_equal. lia.
  - rewrite span_app; [|done|by intros b [= <-]]. cbn [app]. rewrite span_app; [|done|intros b Hb; by apply Hr].
    rewrite bool_decide_eq_false_2 by done. rewrite He, Hk. cbn. f_equal. f_equal. lia.
Qed.

Lemma plain_end b : head ([] : str) = Some b → is_digit b = false ∧ b ≠ 46.
Proof. done. Qed.

(** Printing a literal and reading it back. *)
Lemma dec_read d : wf_dec d → dec_parse (to_text d) = Some d.
Proof.
  intros Hd. pose proof (wf_nonempty d Hd) as Hne. destruct d as [ng ds ex]. destruct Hd as [Hds Htrim Hexp].
  unfold adjusted in Hexp. cbn [digits exp] in *.
  assert (∀ body, (∃ b s, body = b :: s ∧ is_digit b = true) → dec_unsigned ng body = Some (mk_dec ng ds ex) →
    dec_parse ((if ng then lit "-" else []) ++ body) = Some (mk_dec ng ds ex)) as Hsign.
  { intros body (b & s & -> & Hb) H. destruct ng; [exact H|]. cbn [app]. unfold dec_parse. apply is_digit_range in Hb.
    repeat case_match; try done; lia. }
  destruct ds as [|b0 ds0] eqn:Eds; [done|]. rewrite <-Eds in *.
  assert (is_digit b0 = true) as Hb0 by (rewrite Eds in Hds; by apply Forall_cons in Hds as [? _]).
  unfold to_text. cbn [neg digits exp]. apply Hsign.
  - destruct (_ && _); [destruct (ex =? 0); [|destruct (0 <? _) eqn:Ep]|].
    + rewrite Eds. by eexists _, _.
    + rewrite Eds. apply Z.ltb_lt in Ep. destruct (Z.to_nat _) eqn:En; [rewrite Eds in Ep; lia|]. by eexists _, _.
    + by eexists _, _.
    + rewrite Eds. by eexists _, _.
  - destruct (_ && _) eqn:Eplain; [destruct (Z.eqb_spec ex 0) as [->|Hex]; [|destruct (Z.ltb_spec 0 (Z.of_nat (length ds) + ex)) as [Hp|Hp]]|].
    + pose proof (unsigned_read ng ds ds [] [] 0) as H. rewrite !app_nil_r in H. rewrite H by (done || apply plain_end).
      by rewrite Htrim.
    + apply andb_prop in Eplain as [Ex%Z.leb_le _]. set (k := Z.to_nat _).
      pose proof (unsigned_read ng ds (take k ds) (drop k ds) [] 0) as H. rewrite take_drop, !app_nil_r in H.
      rewrite (bool_decide_eq_false_2 (drop k ds = [])) in H by (intros E%(f_equal length); rewrite length_drop in E; simpl in E; lia).
      change (lit "." ++ drop k ds) with (46 :: drop k ds). rewrite H by (done || apply plain_end). rewrite Htrim, length_drop. f_equal. f_equal. lia.
    + set (k := Z.to_nat _).
      pose proof (unsigned_read ng ds [48] (zeros k ++ ds) [] 0) as H. rewrite !app_nil_r in H.
      rewrite bool_decide_eq_false_2 in H by (by intros [_ ?]%app_eq_nil).
      change (lit "0." ++ zeros k ++ ds) with ([48] ++ 46 :: zeros k ++ ds). rewrite H.
      * rewrite Htrim, length_app. unfold zeros. rewrite length_replicate. f_equal. f_equal. lia.
      * apply Forall_cons. split; [done|]. apply Forall_app. split; [apply zeros_digits|done].
      * done.
      * done.
      * apply plain_end.
      * rewrite app_assoc. exact (trim_leading (S k) ds).
    + set (adj := ex + Z.of_nat (length ds) - 1) in *.
      pose proof (unsigned_read ng ds (take 1 ds) (drop 1 ds) (lit "E" ++ (if adj <? 0 then lit "-" else lit "+") ++ decimal (Z.abs adj)) adj) as H.
      rewrite take_drop in H. assert ((if 1 <? Z.of_nat (length ds) then lit "." ++ drop 1 ds else []) =
        (if bool_decide (drop 1 ds = []) then [] else 46 :: drop 1 ds)) as ->.
      { clear H Hsign. assert (drop 1 ds = ds0) as -> by (by rewrite Eds). rewrite Eds. cbn [length]. case_bool_decide as E; [by rewrite E|]. destruct ds0; [done|]. by rewrite (proj2 (Z.ltb_lt _ _)) by (simpl; lia). }
      rewrite H; [|done|done|by apply exponent_read|by intros b [= <-]|done].
      rewrite Htrim, length_drop. f_equal. f_equal. rewrite Eds. unfold adj. rewrite Eds. cbn [length]. lia.
Qed.

(** ** The order of literals *)

(** A literal as a whole number of units of the power [m] of ten. *)
Definition scaled (m : Z) (d : Dec) : Z := (if neg d then -1 else 1) * digits_value (digits d) * 10 ^ (exp d - m).

Lemma compare_mul_r a b c : 0 < c → (a * c ?= b * c) = (a ?= b).
Proof. intros Hc. destruct (Z.compare_spec a b); [subst; apply Z.compare_refl|apply Z.compare_lt_iff; nia|apply Z.compare_gt_iff; nia]. Qed.

(** Texts of as many digits compare as their values. *)
Lemma bytes_cmp_value s t : all_digits s → all_digits t → length s = length t → bytes_cmp s t = (digits_value s ?= digits_value t).
Proof.
  intros Hs. revert t. induction Hs as [|b s Hb%is_digit_range Hs IH]; intros [|c t] Ht Hl; try done.
  apply Forall_cons in Ht as [Hc%is_digit_range Ht]. injection Hl as Hl. cbn [bytes_cmp]. rewrite !digits_value_cons, Hl.
  pose proof (digits_value_range s Hs) as Hvs. pose proof (digits_value_range t Ht) as Hvt. rewrite Hl in Hvs.
  destruct (Z.compare_spec b c) as [->|Hlt|Hgt].
  - rewrite (IH t Ht Hl). destruct (Z.compare_spec (digits_value s) (digits_value t)) as [E|E|E]; symmetry;
      [rewrite E; apply Z.compare_refl|apply Z.compare_lt_iff; lia|apply Z.compare_gt_iff; lia].
  - symmetry. apply Z.compare_lt_iff. nia.
  - symmetry. apply Z.compare_gt_iff. nia.
Qed.

Lemma trim_end_zeros s : s = trim_end is_zero_digit s ++ zeros (length s - length (trim_end is_zero_digit s)).
Proof.
  destruct (trim_end_prefix is_zero_digit s) as (k & Hk & Hz). rewrite Hk at 1. f_equal.
  assert (length s = length (trim_end is_zero_digit s) + length k)%nat as -> by (rewrite Hk at 1; by rewrite length_app).
  rewrite Nat.add_sub'. clear Hk. induction Hz as [|b k Hb _ IH]; [done|]. unfold is_zero_digit in Hb. apply Z.eqb_eq in Hb as ->.
  cbn [length]. unfold zeros in *. by rewrite replicate_S, <-IH.
Qed.

(** The first digit of a literal other than zero is not one. *)
Lemma leading_digit d : wf_dec d → is_zero d = false → 10 ^ (Z.of_nat (length (digits d)) - 1) <= digits_value (digits d).
Proof.
  intros Hd Hz. unfold is_zero in Hz. apply bool_decide_eq_false in Hz. pose proof (wf_trimmed d Hd) as Ht.
  pose proof (wf_digits d Hd) as Hds. destruct (digits d) as [|b s]; [done|]. apply Forall_cons in Hds as [Hb%is_digit_range Hs].
  rewrite digits_value_cons. pose proof (digits_value_range s Hs). cbn [length].
  assert (b ≠ 48) as Hb0.
  { intros ->. unfold trim_digits in Ht. cbn [trim_start is_zero_digit] in Ht.
    change (is_zero_digit 48) with true in Ht. cbv iota zeta in Ht. case_bool_decide; [congruence|].
    destruct (trim_start_suffix is_zero_digit s) as (k & Hk & _). rewrite Ht in Hk. apply (f_equal length) in Hk.
    rewrite length_app in Hk. simpl in Hk. lia. }
  replace (Z.of_nat (S (length s)) - 1) with (Z.of_nat (length s)) by lia. nia.
Qed.

Lemma magnitude_exact m a b : wf_dec a → wf_dec b → is_zero a = false → is_zero b = false → m <= exp a → m <= exp b →
  magnitude_cmp a b = (digits_value (digits a) * 10 ^ (exp a - m) ?= digits_value (digits b) * 10 ^ (exp b - m)).
Proof.
  intros Ha Hb Hza Hzb Hma Hmb. pose proof (leading_digit a Ha Hza) as La. pose proof (leading_digit b Hb Hzb) as Lb.
  pose proof (digits_value_range _ (wf_digits a Ha)) as Ra. pose proof (digits_value_range _ (wf_digits b Hb)) as Rb.
  pose proof (wf_nonempty a Ha) as Na. pose proof (wf_nonempty b Hb) as Nb.
  pose proof (trim_end_zeros (digits a)) as Ta. pose proof (trim_end_zeros (digits b)) as Tb.
  pose proof (wf_digits a Ha) as Da. pose proof (wf_digits b Hb) as Db. unfold magnitude_cmp.
  set (da := trim_end is_zero_digit (digits a)) in *. set (db := trim_end is_zero_digit (digits b)) in *.
  set (ka := (length (digits a) - length da)%nat) in *. set (kb := (length (digits b) - length db)%nat) in *.
  assert (length (digits a) = length da + ka)%nat as Ela by (rewrite Ta at 1; unfold zeros; by rewrite length_app, length_replicate).
  assert (length (digits b) = length db + kb)%nat as Elb by (rewrite Tb at 1; unfold zeros; by rewrite length_app, length_replicate).
  assert (length (digits a) ≠ 0)%nat by (by destruct (digits a)). assert (length (digits b) ≠ 0)%nat by (by destruct (digits b)).
  set (xa := exp a - m). set (xb := exp b - m). set (va := digits_value (digits a)) in *. set (vb := digits_value (digits b)) in *.
  assert (∀ la lb va vb xa xb, 0 <= xa → 0 <= xb → 0 < la → 0 < lb → va < 10 ^ la → 10 ^ (lb - 1) <= vb → la + xa < lb + xb →
    va * 10 ^ xa < vb * 10 ^ xb) as Hlt.
  { clear. intros la lb va vb xa xb Hxa Hxb Hla Hlb Hva Hvb Hlt. apply Z.lt_le_trans with (10 ^ (la + xa)).
    - rewrite Z.pow_add_r by lia. apply Z.mul_lt_mono_pos_r; [by apply Z.pow_pos_nonneg|done].
    - apply Z.le_trans with (10 ^ (lb - 1 + xb)); [apply Z.pow_le_mono_r; lia|]. rewrite Z.pow_add_r by lia.
      apply Z.mul_le_mono_nonneg_r; [by apply Z.pow_nonneg|done]. }
  destruct (Z.eqb_spec (exp a + Z.of_nat ka + Z.of_nat (length da)) (exp b + Z.of_nat kb + Z.of_nat (length db))) as [E|E]; cbn [negb].
  - set (l := (length da `max` length db)%nat). rewrite Ta in Da. rewrite Tb in Db.
    apply Forall_app in Da as [Da _]. apply Forall_app in Db as [Db _].
    assert (∀ n s, all_digits s → all_digits (pad n s)) as Hpad by (intros n s Hs; apply Forall_app; split; [done|apply zeros_digits]).
    assert (∀ s, (length s ≤ l)%nat → length (pad l s) = l) as Hlen.
    { intros s Hs. unfold pad, zeros. rewrite length_app, length_replicate. lia. }
    rewrite bytes_cmp_value by (by try apply Hpad; rewrite ?Hlen by lia). unfold pad, va, vb. rewrite Ta, Tb, !digits_value_app, !digits_value_zeros, !Z.add_0_r.
    unfold zeros. rewrite !length_replicate. set (u := digits_value da). set (v := digits_value db).
    rewrite <-(compare_mul_r _ _ (10 ^ (Z.of_nat (length da + ka) + xa - Z.of_nat l))) by (apply Z.pow_pos_nonneg; lia).
    assert (∀ (w : Z) (n k : nat) (x y : Z), (n ≤ l)%nat → 0 <= x → 0 <= y → y = Z.of_nat (n + k) + x - Z.of_nat l →
      w * 10 ^ Z.of_nat (l - n) * 10 ^ y = w * 10 ^ Z.of_nat k * 10 ^ x) as Hw.
    { intros w n k x y Hn Hx Hy Ey. rewrite <-!Z.mul_assoc, <-!Z.pow_add_r by lia. do 2 f_equal. lia. }
    f_equal; apply Hw; lia.
  - rewrite Ela, Elb in *. rewrite !Nat2Z.inj_add in *. destruct (Z.compare_spec (exp a + Z.of_nat ka + Z.of_nat (length da)) (exp b + Z.of_nat kb + Z.of_nat (length db))) as [E'|E'|E']; [done| |]; symmetry.
    + apply Z.compare_lt_iff. eapply Hlt; [..|apply Ra|exact Lb|]; lia.
    + apply Z.compare_gt_iff. eapply Hlt; [..|apply Rb|exact La|]; lia.
Qed.

(** Comparing literals compares their values, whatever their digits and exponents. *)
Lemma dec_cmp_exact m a b : wf_dec a → wf_dec b → m <= exp a → m <= exp b → dec_cmp a b = (scaled m a ?= scaled m b).
Proof.
  intros Ha Hb Hma Hmb. unfold dec_cmp, dec_sign, scaled.
  assert (∀ d, wf_dec d → is_zero d = true → digits_value (digits d) = 0) as Hz.
  { intros d _ Hd. unfold is_zero in Hd. apply bool_decide_eq_true in Hd as ->. done. }
  assert (∀ d x, wf_dec d → is_zero d = false → 0 <= x → 0 < digits_value (digits d) * 10 ^ x) as Hnz.
  { intros d x Hd Hd0 Hx. apply Z.mul_pos_pos; [|by apply Z.pow_pos_nonneg]. pose proof (leading_digit d Hd Hd0).
    pose proof (wf_nonempty d Hd). assert (length (digits d) ≠ 0)%nat by (by destruct (digits d)).
    assert (0 < 10 ^ (Z.of_nat (length (digits d)) - 1)) by (apply Z.pow_pos_nonneg; lia). lia. }
  pose proof (Hnz a (exp a - m) Ha) as Pa. pose proof (Hnz b (exp b - m) Hb) as Pb.
  destruct (is_zero a) eqn:Za, (is_zero b) eqn:Zb.
  - by rewrite !Hz, !Z.mul_0_r.
  - rewrite (Hz a) by done. specialize (Pb eq_refl ltac:(lia)). destruct (neg b); simpl; symmetry; [apply Z.compare_gt_iff|apply Z.compare_lt_iff]; lia.
  - rewrite (Hz b) by done. specialize (Pa eq_refl ltac:(lia)). destruct (neg a); simpl; symmetry; [apply Z.compare_lt_iff|apply Z.compare_gt_iff]; lia.
  - specialize (Pa eq_refl ltac:(lia)). specialize (Pb eq_refl ltac:(lia)). rewrite (magnitude_exact m) by done. rewrite <-!Z.mul_assoc.
    destruct (neg a), (neg b); cbv iota; [change (negb (-1 =? -1)) with false; change (-1 <? 0) with true; cbv iota| | |].
    + by rewrite !(Z.mul_comm (-1)), <-!Z.opp_eq_mul_m1, Z.compare_opp, <-Z.compare_antisym.
    + symmetry. apply Z.compare_lt_iff. lia.
    + symmetry. apply Z.compare_gt_iff. lia.
    + by rewrite !Z.mul_1_l.
Qed.

(** ** Total orders *)

(** A comparison of the elements [P] holds of, by which they can be sorted. *)
Record Total {A} (P : A → Prop) (cmp : A → A → comparison) : Prop := {
  total_refl a : P a → cmp a a = Eq;
  total_opp a b : P a → P b → cmp b a = CompOpp (cmp a b);
  total_trans a b c : P a → P b → P c → cmp a b ≠ Gt → cmp b c ≠ Gt → cmp a c ≠ Gt;
}.

(** What is as great compares the same. *)
Lemma total_eq {A} (P : A → Prop) cmp a b c : Total P cmp → P a → P b → P c → cmp a b = Eq → cmp a c = cmp b c.
Proof.
  intros T Ha Hb Hc E. pose proof (total_opp P cmp T) as Hopp. pose proof (total_trans P cmp T) as Htrans. assert (cmp b a = Eq) as E' by (rewrite (Hopp a b), E by done; done).
  assert (cmp a b ≠ Gt) as Hab by congruence. assert (cmp b a ≠ Gt) as Hba by congruence.
  pose proof (λ H, Htrans b a c Hb Ha Hc Hba H) as H1. pose proof (λ H, Htrans a b c Ha Hb Hc Hab H) as H2.
  pose proof (λ H, Htrans c a b Hc Ha Hb H Hab) as H3. pose proof (λ H, Htrans c b a Hc Hb Ha H Hba) as H4.
  rewrite (Hopp a c), (Hopp b c) in H3, H4 by done. clear Hab Hba E E' Hopp Htrans T.
  destruct (cmp a c), (cmp b c); simpl in *; try reflexivity; exfalso;
    first [by apply H1|by apply H2|by apply H3|by apply H4].
Qed.
Lemma total_eq_r {A} (P : A → Prop) cmp a b c : Total P cmp → P a → P b → P c → cmp b c = Eq → cmp a b = cmp a c.
Proof.
  intros T Ha Hb Hc E. rewrite (total_opp P cmp T b a), (total_opp P cmp T c a) by done. f_equal. by apply (total_eq P cmp).
Qed.
(** Less and not greater is less. *)
Lemma total_lt {A} (P : A → Prop) cmp a b c : Total P cmp → P a → P b → P c →
  cmp a b ≠ Gt → cmp b c ≠ Gt → cmp a b = Lt ∨ cmp b c = Lt → cmp a c = Lt.
Proof.
  intros T Ha Hb Hc H1 H2 H. destruct (cmp a b) eqn:E1; [|destruct (cmp b c) eqn:E2|]; try done.
  - rewrite (total_eq P cmp a b c) by done. naive_solver.
  - by rewrite <-(total_eq_r P cmp a b c).
  - destruct (cmp a c) eqn:E3; [|done|by destruct (total_trans P cmp T a b c); congruence].
    exfalso. assert (cmp c b ≠ Gt) as H3.
    { rewrite <-(total_eq P cmp a c b) by done. congruence. }
    rewrite (total_opp P cmp T b c), E2 in H3 by done. done.
Qed.

Lemma total_map {A B} (f : A → B) (P : A → Prop) (Q : B → Prop) cmp :
  Total Q cmp → (∀ a, P a → Q (f a)) → Total P (λ a b, cmp (f a) (f b)).
Proof.
  intros [Hr Ho Ht] HP. split; [auto|auto|]. intros a b c Ha Hb Hc. apply Ht; auto.
Qed.
Lemma total_impl {A} (P Q : A → Prop) cmp cmp' :
  Total P cmp → (∀ a, Q a → P a) → (∀ a b, Q a → Q b → cmp' a b = cmp a b) → Total Q cmp'.
Proof.
  intros [Hr Ho Ht] HP HE. split.
  - intros a Ha. rewrite HE by done. auto.
  - intros a b Ha Hb. rewrite !HE by done. auto.
  - intros a b c Ha Hb Hc. rewrite !HE by done. apply Ht; auto.
Qed.

(** First by one, then by another. *)
Definition thn (c d : comparison) : comparison := match c with Eq => d | _ => c end.
Lemma total_thn {A} (P : A → Prop) c d :
  Total P c → (∀ x, P x → Total (λ a, P a ∧ c x a = Eq) d) → Total P (λ a b, thn (c a b) (d a b)).
Proof.
  intros Tc Td. split.
  - intros a Ha. rewrite (total_refl P c Tc a Ha). simpl. apply (total_refl _ d (Td a Ha)). split; [done|]. by apply (total_refl P c Tc).
  - intros a b Ha Hb. rewrite (total_opp P c Tc a b) by done. destruct (c a b) eqn:E; simpl; [|done..].
    apply (total_opp _ d (Td a Ha)); [|done]. split; [done|]. by apply (total_refl P c Tc).
  - intros x y z Hx Hy Hz Hxy Hyz.
    assert (c x y ≠ Gt) as H1 by (by intros E; rewrite E in Hxy). assert (c y z ≠ Gt) as H2 by (by intros E; rewrite E in Hyz).
    destruct (c x y) eqn:E1; [destruct (c y z) eqn:E2| |done].
    + rewrite (total_eq P c x y z), E2 by done. simpl in *.
      apply (total_trans _ d (Td x Hx) x y z); try done; split; try done; [by apply (total_refl P c Tc)|].
      by rewrite (total_eq P c x y z).
    + rewrite (total_eq P c x y z), E2 by done. done.
    + done.
    + rewrite (total_lt P c x y z) by (try done; try congruence; by left). done.
Qed.

(** Lists, first element first, the shorter before. *)
Fixpoint lex {A} (cmp : A → A → comparison) (x y : list A) : comparison :=
  match x, y with
  | [], [] => Eq
  | [], _ => Lt
  | _, [] => Gt
  | a :: x, b :: y => thn (cmp a b) (lex cmp x y)
  end.

Lemma total_lex {A} (P : A → Prop) cmp : Total P cmp → Total (Forall P) (lex cmp).
Proof.
  intros T. split.
  - induction 1 as [|a x Ha _ IH]; [done|]. simpl. by rewrite (total_refl P cmp T a Ha).
  - intros x y Hx. revert y. induction Hx as [|a x Ha Hx IH]; intros [|b y] Hy; try done. apply Forall_cons in Hy as [Hb Hy].
    simpl. rewrite (total_opp P cmp T a b) by done. destruct (cmp a b); simpl; auto.
  - intros x y z Hx. revert y z. induction Hx as [|a x Ha Hx IH]; intros [|b y] [|c z] Hy Hz; try done.
    apply Forall_cons in Hy as [Hb Hy]. apply Forall_cons in Hz as [Hc Hz]. simpl. intros Hxy Hyz.
    assert (cmp a b ≠ Gt) as H1 by (by intros E; rewrite E in Hxy). assert (cmp b c ≠ Gt) as H2 by (by intros E; rewrite E in Hyz).
    destruct (cmp a b) eqn:E1; [destruct (cmp b c) eqn:E2| |done].
    + rewrite (total_eq P cmp a b c), E2 by done. simpl in *. by apply (IH y z).
    + rewrite (total_eq P cmp a b c), E2 by done. done.
    + done.
    + rewrite (total_lt P cmp a b c) by (try done; try congruence; by left). done.
Qed.

Lemma total_Z : Total (λ _, True) Z.compare.
Proof.
  split; [intros a _; apply Z.compare_refl|intros a b _ _; apply Z.compare_antisym|].
  intros a b c _ _ _ H1 H2. change (a <= b) in H1. change (b <= c) in H2. change (a <= c). lia.
Qed.
Lemma bytes_cmp_lex s t : bytes_cmp s t = lex Z.compare s t.
Proof. revert t. induction s as [|a s IH]; intros [|b t]; try done. simpl. by destruct (a ?= b); simpl. Qed.
Lemma total_bytes : Total (λ _, True) bytes_cmp.
Proof.
  eapply total_impl; [exact (total_lex _ _ total_Z)| |intros; apply bytes_cmp_lex]. intros s _. by apply Forall_forall.
Qed.
Lemma bytes_cmp_eq s t : bytes_cmp s t = Eq ↔ s = t.
Proof.
  revert t. induction s as [|a s IH]; intros [|b t]; try done. simpl. destruct (Z.compare_spec a b) as [->|H|H].
  - rewrite IH. split; [by intros ->|by intros [= ->]].
  - split; [done|]. intros [= -> _]. lia.
  - split; [done|]. intros [= -> _]. lia.
Qed.

(** ** The order of values *)

(** Induction on values, through arrays and objects. *)
Lemma value_induction (P : Value → Prop) :
  P Null → (∀ b, P (Bool b)) → (∀ n, P (Number n)) → (∀ s, P (Str s)) →
  (∀ l, Forall P l → P (Arr l)) → (∀ m, Forall (λ e, P e.2) m → P (Obj m)) → ∀ v, P v.
Proof.
  intros H1 H2 H3 H4 H5 H6. fix IH 1. intros [|b|n|s|l|m]; [exact H1|apply H2|apply H3|apply H4|..].
  - apply H5. induction l as [|v l IHl]; constructor; [apply IH|exact IHl].
  - apply H6. induction m as [|[k v] m IHm]; constructor; [apply IH|exact IHm].
Qed.

(** How deep a value is nested. *)
Fixpoint depth (v : Value) : nat :=
  match v with
  | Arr l => S (foldr (λ v d, depth v `max` d)%nat 0%nat l)
  | Obj m => S (foldr (λ e d, depth e.2 `max` d)%nat 0%nat m)
  | _ => 0
  end.

(** A number that is a literal within the range of the order, as the reader makes them. *)
Definition exact_num (n : Num) : Prop :=
  match dec n with Some d => wf_dec d ∧ out_of_range d = false ∧ is_nan (f n) = false | None => False end.

(** A number that is ordered by its double: one a filter computed, or a literal out of that range. *)
Definition double_num (n : Num) : Prop :=
  is_nan (f n) = false ∧ match dec n with Some d => out_of_range d = true | None => True end.

(** Every number of a value is one of [Q], and no object has a key twice. *)
Fixpoint all_nums (Q : Num → Prop) (v : Value) : Prop :=
  match v with
  | Number n => Q n
  | Arr l => foldr (λ v P, all_nums Q v ∧ P) True l
  | Obj m => NoDup m.*1 ∧ foldr (λ e P, all_nums Q e.2 ∧ P) True m
  | _ => True
  end.
Definition exact : Value → Prop := all_nums exact_num.

Lemma foldr_Forall {A} (P : A → Prop) l : foldr (λ v Q, P v ∧ Q) True l ↔ Forall P l.
Proof. induction l as [|v l IH]; simpl; [by split|]. by rewrite Forall_cons, IH. Qed.
Lemma foldr_max_le {A} (d : A → nat) l n : (foldr (λ v k, d v `max` k)%nat 0%nat l ≤ n)%nat ↔ Forall (λ v, d v ≤ n)%nat l.
Proof. induction l as [|v l IH]; simpl; [split; [constructor|lia]|]. rewrite Forall_cons, <-IH. lia. Qed.

(** A comparison that has gone nowhere too deep. *)
Lemma zip_cmp_lex {A} (cmp : A → A → comparison * bool) x y :
  (∀ a b, a ∈ x → b ∈ y → (cmp a b).2 = false) →
  zip_cmp cmp x y (length_cmp x y, false) = (lex (λ a b, (cmp a b).1) x y, false).
Proof.
  revert y. induction x as [|a x IH]; intros [|b y] H; try done. simpl.
  pose proof (H a b ltac:(by left) ltac:(by left)) as Hab. destruct (cmp a b) as [[] deep]; simpl in *; subst deep; [|done..].
  change (length_cmp (a :: x) (b :: y)) with (length_cmp x y). rewrite IH; [done|]. intros a' b' ? ?. apply H; by right.
Qed.
Lemma zip_cmp_keys {A B} (c : A → B → comparison) x y r :
  zip_cmp (λ a b, (c a b, false)) x y r =
    match zip_cmp (λ a b, (c a b, false)) x y (Eq, false) with (Eq, _) => r | c => c end.
Proof.
  revert y. induction x as [|a x IH]; intros [|b y]; try done; simpl. destruct (c a b); [|done..]. rewrite IH.
  destruct (zip_cmp _ x y (Eq, false)) as [[] d]; simpl; try done. by destruct r.
Qed.

(** The values of an object, in the order of its keys. *)
Definition sorted_values (m : list (str * Value)) : list Value := (λ k, default Null (field k m)) <$> sorted_keys m.

Lemma zip_cmp_map {A B} (cmp : A → A → comparison * bool) (f g : B → A) l :
  zip_cmp (λ k l, cmp (f k) (g l)) l l (Eq, false) = zip_cmp cmp (f <$> l) (g <$> l) (length_cmp (f <$> l) (g <$> l), false).
Proof.
  unfold length_cmp. rewrite !length_fmap, Nat.compare_refl. assert (∀ (x y : list B), zip_cmp (λ k l, cmp (f k) (g l)) x y (Eq, false) = zip_cmp cmp (f <$> x) (g <$> y) (Eq, false)) as H; [|apply H].
  intros x. induction x as [|a x IH]; intros [|b y]; try done. simpl. destruct (cmp (f a) (g b)) as [[] d]; [|done..]. by rewrite IH.
Qed.

(** Two objects: first their keys, then their values. *)
Lemma obj_cmp_lex (cmp : Value → Value → comparison * bool) x y :
  (∀ a b, a ∈ sorted_values x → b ∈ sorted_values y → (cmp a b).2 = false) →
  zip_cmp (λ k l, (bytes_cmp k l, false)) (sorted_keys x) (sorted_keys y)
    match length_cmp (sorted_keys x) (sorted_keys y) with
    | Eq => zip_cmp (λ k l, cmp (default Null (field k x)) (default Null (field l y))) (sorted_keys x) (sorted_keys x) (Eq, false)
    | c => (c, false)
    end =
  (thn (lex bytes_cmp (sorted_keys x) (sorted_keys y)) (lex (λ a b, (cmp a b).1) (sorted_values x) (sorted_values y)), false).
Proof.
  intros H. pose proof (zip_cmp_lex (λ k l : str, (bytes_cmp k l, false)) (sorted_keys x) (sorted_keys y) ltac:(done)) as Hk.
  rewrite zip_cmp_keys in Hk. rewrite zip_cmp_keys. cbn [fst] in Hk.
  change (lex (λ a b : str, bytes_cmp a b)) with (lex bytes_cmp) in Hk.
  destruct (zip_cmp _ _ _ (Eq, false)) as [[] d] eqn:Ez; [|injection Hk as <- ->; done..].
  injection Hk as Hl. destruct (length_cmp _ _) eqn:El; rewrite <-Hl; [|done..]. cbn [thn].
  assert (sorted_keys x = sorted_keys y) as Ek.
  { clear -Hl. revert Hl. generalize (sorted_keys x), (sorted_keys y). intros kx. induction kx as [|k kx IH]; intros [|l ky]; try done.
    simpl. destruct (bytes_cmp k l) eqn:E; [|done..]. apply bytes_cmp_eq in E as ->. intros H. f_equal. by apply IH. }
  rewrite (zip_cmp_map cmp (λ k, default Null (field k x)) (λ l, default Null (field l y))).
  assert ((λ l, default Null (field l y)) <$> sorted_keys x = sorted_values y) as -> by (by rewrite Ek). by apply zip_cmp_lex.
Qed.

(** What there is in an object's order are its values. *)
Lemma field_value k m : k ∈ m.*1 → ∃ v, field k m = Some v ∧ (k, v) ∈ m.
Proof.
  induction m as [|[k' v'] m IH]; cbn [field fmap list_fmap fst]; [by intros ?%not_elem_of_nil|]. intros [->|H]%elem_of_cons.
  - exists v'. rewrite decide_True by done. split; [done|by left].
  - destruct (decide (k = k')) as [->|]; [exists v'; split; [done|by left]|]. destruct (IH H) as (v & ? & ?). exists v. split; [done|by right].
Qed.
Lemma sorted_values_in v m : v ∈ sorted_values m → ∃ k, (k, v) ∈ m.
Proof.
  intros (k & -> & Hk)%list_elem_of_fmap. unfold sorted_keys in Hk. rewrite merge_sort_Permutation in Hk.
  destruct (field_value k m Hk) as (v & -> & H). by exists k.
Qed.

(** Values the order is total on. *)
Definition ordered (Q : Num → Prop) (n : nat) (v : Value) : Prop := all_nums Q v ∧ (depth v < n)%nat.

Lemma ordered_arr Q n l : ordered Q (S n) (Arr l) → Forall (ordered Q n) l.
Proof.
  intros [He Hd]. cbn [all_nums depth] in *. rewrite foldr_Forall in He. apply Nat.succ_lt_mono in Hd.
  assert (foldr (λ v d, depth v `max` d)%nat 0%nat l ≤ pred n)%nat as Hm by lia. apply foldr_max_le in Hm.
  apply Forall_and. split; [done|]. eapply Forall_impl; [exact Hm|]. simpl. lia.
Qed.
Lemma ordered_obj Q n m : ordered Q (S n) (Obj m) → Forall (ordered Q n) (sorted_values m).
Proof.
  intros [[_ He] Hd]. cbn [depth] in *. rewrite foldr_Forall in He. apply Nat.succ_lt_mono in Hd.
  assert (foldr (λ e d, depth e.2 `max` d)%nat 0%nat m ≤ pred n)%nat as Hm by lia. apply (foldr_max_le (λ e, depth e.2)) in Hm.
  apply Forall_forall. intros v (k & Hk)%sorted_values_in. rewrite Forall_forall in He, Hm.
  specialize (He _ Hk). specialize (Hm _ Hk). simpl in *. split; [done|lia].
Qed.

(** The order of two numbers. *)
Definition number_cmp (a b : Num) : comparison := if is_nan (f a) then Lt else if is_nan (f b) then Gt else num_cmp a b.

(** Doubles but for NaN, in their order: the kind, then the exponent, then the digits. *)
Definition double_kind (x : f64) : Z :=
  match x with
  | S754_infinity true => -2 | S754_finite true _ _ => -1 | S754_zero _ | S754_nan => 0
  | S754_finite false _ _ => 1 | S754_infinity false => 2
  end.
Definition signed (s : bool) (n : Z) : Z := if s then - n else n.
Definition double_exp (x : f64) : Z := match x with S754_finite s _ e => signed s e | _ => 0 end.
Definition double_digits (x : f64) : Z := match x with S754_finite s m _ => signed s (Zpos m) | _ => 0 end.

Lemma double_cmp x y : is_nan x = false → is_nan y = false →
  (if flt x y then Lt else if feq x y then Eq else Gt) =
  thn (double_kind x ?= double_kind y) (thn (double_exp x ?= double_exp y) (double_digits x ?= double_digits y)).
Proof.
  intros Hx Hy. unfold flt, feq, SFltb, SFeqb.
  destruct x as [[]|[]| |[] m e], y as [[]|[]| |[] m' e']; try done; cbn [SFcompare double_kind double_exp double_digits signed Z.compare Pos.compare Pos.compare_cont thn].
  - rewrite Z.compare_opp, (Z.compare_antisym e). destruct (e ?= e'); cbn [CompOpp thn]; try done.
    set (k := PosDef.Pos.compare_cont Eq m m'). change (- Z.pos m ?= - Z.pos m') with (CompOpp k). by destruct k.
  - destruct (e ?= e'); cbn [thn]; try done. 
    set (k := PosDef.Pos.compare_cont Eq m m'). change (m ?= m')%positive with k. by destruct k.
Qed.

Lemma total_double : Total double_num number_cmp.
Proof.
  eapply (total_impl _ _ (λ a b, thn (double_kind (f a) ?= double_kind (f b))
    (thn (double_exp (f a) ?= double_exp (f b)) (double_digits (f a) ?= double_digits (f b))))).
  - apply (total_thn double_num (λ a b, double_kind (f a) ?= double_kind (f b)) (λ a b, thn (double_exp (f a) ?= double_exp (f b)) (double_digits (f a) ?= double_digits (f b)))).
    { exact (total_map (λ n, double_kind (f n)) _ _ _ total_Z (λ _ _, I)). }
    intros x _. apply (total_thn _ (λ a b, double_exp (f a) ?= double_exp (f b)) (λ a b, double_digits (f a) ?= double_digits (f b))).
    { exact (total_map (λ n, double_exp (f n)) _ _ _ total_Z (λ _ _, I)). }
    intros y _. exact (total_map (λ n, double_digits (f n)) _ _ _ total_Z (λ _ _, I)).
  - by intros a Ha.
  - intros a b [Ha Hda] [Hb Hdb]. rewrite <-double_cmp by done. unfold number_cmp, num_cmp. rewrite Ha, Hb.
    destruct (dec a) as [d|]; [|done]. rewrite Hda. by destruct (dec b).
Qed.

Lemma total_num : Total exact_num number_cmp.
Proof. unfold number_cmp.
  assert (∀ a b, exact_num a → exact_num b → ∃ x y, dec a = Some x ∧ dec b = Some y ∧ wf_dec x ∧ wf_dec y ∧
    (if is_nan (f a) then Lt else if is_nan (f b) then Gt else num_cmp a b) = dec_cmp x y) as H.
  { intros a b Ha Hb. unfold exact_num, num_cmp in *. destruct (dec a) as [x|], (dec b) as [y|]; try done.
    destruct Ha as (Ha & Ra & ->), Hb as (Hb & Rb & ->). exists x, y. by rewrite Ra, Rb. }
  split.
  - intros a Ha. destruct (H a a Ha Ha) as (x & y & E1 & E2 & Hx & Hy & ->). assert (y = x) as -> by congruence.
    rewrite (dec_cmp_exact (exp x)) by done. apply Z.compare_refl.
  - intros a b Ha Hb. destruct (H a b Ha Hb) as (x & y & E1 & E2 & Hx & Hy & ->). destruct (H b a Hb Ha) as (y' & x' & E3 & E4 & _ & _ & ->).
    assert (y' = y) as -> by congruence. assert (x' = x) as -> by congruence.
    rewrite !(dec_cmp_exact (exp x `min` exp y)) by (done || lia). apply Z.compare_antisym.
  - intros a b c Ha Hb Hc. destruct (H a b Ha Hb) as (x & y & E1 & E2 & Hx & Hy & ->). destruct (H b c Hb Hc) as (y' & z & E3 & E4 & _ & Hz & ->).
    destruct (H a c Ha Hc) as (x' & z' & E5 & E6 & _ & _ & ->).
    assert (y' = y) as -> by congruence. assert (x' = x) as -> by congruence. assert (z' = z) as -> by congruence.
    rewrite !(dec_cmp_exact (exp x `min` (exp y `min` exp z))) by (done || lia). by apply (total_trans _ _ total_Z).
Qed.

Lemma compare_total Q n : Total Q number_cmp →
  Total (ordered Q n) (λ a b, (compare_d n a b).1) ∧ ∀ a b, ordered Q n a → ordered Q n b → (compare_d n a b).2 = false.
Proof.
  intros HQ.
  induction n as [|n [IH IHd]].
  { assert (∀ v, ordered Q 0 v → False) as H0 by (intros v [_ ?]; lia). split; [split|]; intros; exfalso; eauto. }
  set (within := λ a b : Value, match a, b with
    | Number x, Number y => if is_nan (f x) then Lt else if is_nan (f y) then Gt else num_cmp x y
    | Str x, Str y => bytes_cmp x y
    | Arr x, Arr y => lex (λ a b, (compare_d n a b).1) x y
    | Obj x, Obj y => thn (lex bytes_cmp (sorted_keys x) (sorted_keys y)) (lex (λ a b, (compare_d n a b).1) (sorted_values x) (sorted_values y))
    | _, _ => Eq end).
  assert (∀ a b, ordered Q (S n) a → ordered Q (S n) b → compare_d (S n) a b = (thn (rank a ?= rank b) (within a b), false)) as Hw.
  { intros a b Ha Hb. cbn [compare_d]. destruct (Z.eqb_spec (rank a) (rank b)) as [E|E]; cbn [negb].
    - rewrite E, Z.compare_refl. cbn [thn]. destruct a, b; cbn [within]; try done.
      + apply zip_cmp_lex. apply ordered_arr in Ha, Hb. rewrite Forall_forall in Ha, Hb. intros a b ? ?. apply IHd; auto.
      + apply obj_cmp_lex. apply ordered_obj in Ha, Hb. rewrite Forall_forall in Ha, Hb. intros a b ? ?. apply IHd; auto.
    - destruct (Z.compare_spec (rank a) (rank b)); done. }
  split; [|intros a b Ha Hb; by rewrite Hw].
  eapply total_impl; [|intros a Ha; exact Ha|intros a b Ha Hb; rewrite Hw by done; reflexivity]. cbn [fst].
  apply (total_thn (ordered Q (S n)) (λ a b, rank a ?= rank b)).
  - exact (total_map rank _ _ _ total_Z (λ _ _, I)).
  - intros x Hx.
    assert (∀ {B} (g : Value → B) (R : B → Prop) cmp, Total R cmp →
      (∀ a, ordered Q (S n) a → rank x = rank a → R (g a)) →
      (∀ a b, rank x = rank a → rank x = rank b → within a b = cmp (g a) (g b)) →
      Total (λ a, ordered Q (S n) a ∧ (rank x ?= rank a) = Eq) within) as Hvia.
    { intros B g R cmp T HR HE. eapply total_impl; [apply (total_map g (λ a, ordered Q (S n) a ∧ (rank x ?= rank a) = Eq) R cmp T)|done|].
      - intros a [Ha Hr%Z.compare_eq]. by apply HR.
      - intros a b [_ Ha%Z.compare_eq] [_ Hb%Z.compare_eq]. by apply HE. }
    destruct x as [|[]|nx|sx|lx|mx].
    + apply (Hvia _ (λ _, 0) _ _ total_Z); [done|]. intros [|[]|?|?|?|?] [|[]|?|?|?|?]; done.
    + apply (Hvia _ (λ _, 0) _ _ total_Z); [done|]. intros [|[]|?|?|?|?] [|[]|?|?|?|?]; done.
    + apply (Hvia _ (λ _, 0) _ _ total_Z); [done|]. intros [|[]|?|?|?|?] [|[]|?|?|?|?]; done.
    + apply (Hvia _ (λ a, match a with Number y => y | _ => nx end) _ _ HQ).
      * intros [|[]|?|?|?|?] [Ha _] Hr; try done.
      * intros [|[]|?|?|?|?] [|[]|?|?|?|?]; done.
    + apply (Hvia _ (λ a, match a with Str y => y | _ => sx end) _ _ total_bytes); [done|].
      intros [|[]|?|?|?|?] [|[]|?|?|?|?]; done.
    + apply (Hvia _ (λ a, match a with Arr y => y | _ => lx end) _ _ (total_lex _ _ IH)).
      * intros [|[]|?|?|?|?] Ha Hr; try done. by apply ordered_arr.
      * intros [|[]|?|?|?|?] [|[]|?|?|?|?]; done.
    + apply (Hvia _ (λ a, match a with Obj y => y | _ => mx end) (λ m, Forall (ordered Q n) (sorted_values m))
        (λ x y, thn (lex bytes_cmp (sorted_keys x) (sorted_keys y)) (lex (λ a b, (compare_d n a b).1) (sorted_values x) (sorted_values y)))).
      * apply (total_thn _ (λ x y, lex bytes_cmp (sorted_keys x) (sorted_keys y)) (λ x y, lex (λ a b, (compare_d n a b).1) (sorted_values x) (sorted_values y))).
        -- apply (total_map sorted_keys _ _ _ (total_lex _ _ total_bytes)). intros m _. by apply Forall_forall.
        -- intros m _. apply (total_map sorted_values _ _ _ (total_lex _ _ IH)). naive_solver.
      * intros [|[]|?|?|?|?] Ha Hr; try done. by apply ordered_obj.
      * intros [|[]|?|?|?|?] [|[]|?|?|?|?]; done.
Qed.

(** C17: the order [sort], [unique], [min] and [<] go by, [compare], on values nested no deeper than the limit. Where
    every number is a literal as it was read, with an exponent within the nine digits the order knows ([exact_num]), it
    is a total order (reflexive, antisymmetric, transitive), the limit is never met, and numbers compare by what their
    literals say, however many digits they have and whatever double they are nearest to. It is a total order too where
    no number is such a literal ([double_num]: computed, or a literal beyond that range), by the doubles, NaN left out.
    On values that mix the two kinds it is none, nor with NaN ([order_not_total], [range_not_total]). *)
Theorem jq_order_total :
  Total (ordered exact_num (S MAX_CMP_DEPTH)) compare ∧
  Total (ordered double_num (S MAX_CMP_DEPTH)) compare ∧
  (∀ Q a b, Q = exact_num ∨ Q = double_num → ordered Q (S MAX_CMP_DEPTH) a → ordered Q (S MAX_CMP_DEPTH) b → (compare_d (S MAX_CMP_DEPTH) a b).2 = false) ∧
  ∀ m a b x y, exact_num a → exact_num b → dec a = Some x → dec b = Some y → m <= exp x → m <= exp y →
    compare (Number a) (Number b) = (scaled m x ?= scaled m y).
Proof.
  destruct (compare_total exact_num (S MAX_CMP_DEPTH) total_num) as [HT Hd].
  destruct (compare_total double_num (S MAX_CMP_DEPTH) total_double) as [HT' Hd'].
  split_and!; [exact HT|exact HT'|intros Q a b [->| ->]; [exact (Hd a b)|exact (Hd' a b)]|].
  intros m a b x y Ha Hb Ex Ey Hx Hy. transitivity (if is_nan (f a) then Lt else if is_nan (f b) then Gt else num_cmp a b); [done|].
  unfold exact_num, num_cmp in *. rewrite Ex, Ey in *. destruct Ha as (Ha & -> & ->), Hb as (Hb & -> & ->). by apply dec_cmp_exact.
Qed.

(** The order of numbers is not total on all values: a number a filter computed has no literal, and two
    literals can both equal it that differ; nor does a NaN equal itself, or follow anything. *)
Definition literal (s : string) : Value := Number (default (num_f fzero) (from_literal (lit s))).
Example order_not_total :
  let a := literal "13911860366432393" in
  let b := literal "13911860366432392" in
  let c := Number (num_f (fadd (f (default (num_f fzero) (from_literal (lit "13911860366432391")))) fone)) in
  compare a c = Eq ∧ compare c b = Eq ∧ compare a b = Gt ∧
  compare (num S754_nan) (num S754_nan) = Lt.
Proof. vm_compute. done. Qed.

(** Nor is it one where literals within the range meet a literal beyond it: that one goes by its double. *)
Example range_not_total :
  let a := literal "1e400" in
  let b := literal "1e1000000000" in
  let c := literal "1e500" in
  compare a b = Eq ∧ compare b c = Eq ∧ compare a c = Lt.
Proof. vm_compute. done. Qed.

(** A fraction, a fraction with a zero more, and two of more digits than a double holds. *)
Definition half : Num := default (num_f fzero) (from_literal (lit "1.5")).
Definition half0 : Num := default (num_f fzero) (from_literal (lit "1.50")).
Definition long2 : Num := default (num_f fzero) (from_literal (lit "13911860366432392")).
Definition long3 : Num := default (num_f fzero) (from_literal (lit "13911860366432393")).

Ltac exact_literal := unfold exact_num; vm_compute dec; split; [split; [by repeat constructor|reflexivity|vm_compute; discriminate]|split; reflexivity].

Lemma jq_order_total_witness :
  compare (Number half) (Number half0) = Eq ∧ compare (Number long2) (Number long3) = Lt ∧ f long2 = f long3 ∧
  compare (Arr [Number half; Number long2]) (Arr [Number half0; Number long3]) = CompOpp (compare (Arr [Number half0; Number long3]) (Arr [Number half; Number long2])).
Proof.
  assert (exact_num half) by exact_literal. assert (exact_num half0) by exact_literal.
  assert (exact_num long2) by exact_literal. assert (exact_num long3) by exact_literal.
  destruct jq_order_total as (HT & _ & _ & Hn). split_and!.
  - rewrite (Hn (-2) half half0 (mk_dec false (lit "15") (-1)) (mk_dec false (lit "150") (-2))) by (done || reflexivity). reflexivity.
  - rewrite (Hn 0 long2 long3 (mk_dec false (lit "13911860366432392") 0) (mk_dec false (lit "13911860366432393") 0)) by (done || reflexivity). reflexivity.
  - vm_compute. reflexivity.
  - apply (total_opp _ _ HT); (split; [done|apply Nat.ltb_lt; vm_compute; reflexivity]).
Defined.
