(* ===== verification/JqFloat.v ===== *)
(** * jq's computed numbers as text

    A number a filter computed has no literal and is printed by the fewest digits that read back, as Rust's [{:e}] gives
    them ([shortest] says what is relied on); [double_read] is that reading such a text gives the number again, whatever
    notation [fmt_f64] chose.  NaN is printed as null, infinities as the greatest doubles. *)
From stdpp Require Import strings.
From S2P Require Import Prelude Str Float JqValue JqOrder.

Local Open Scope Z_scope.

(** ** Decimal numbers are their values *)

Lemma strip_zeros_spec fuel : ∀ d e, 0 < d < 2 ^ Z.of_nat fuel →
  ∃ d' k, strip_zeros fuel d e = (d', e + k) ∧ 0 <= k ∧ d = d' * 10 ^ k ∧ d' mod 10 ≠ 0.
Proof.
  induction fuel as [|fuel IH]; intros d e Hd; [cbn in Hd; lia|]. cbn [strip_zeros]. destruct (Z.eqb_spec (d mod 10) 0) as [Hz|Hz].
  - rewrite Nat2Z.inj_succ, Z.pow_succ_r in Hd by lia. pose proof (Z_div_mod_eq_full d 10) as Ed.
    destruct (IH (d / 10) (e + 1)) as (d' & k & -> & Hk & E & Hn); [lia|]. exists d', (k + 1). split_and!; [f_equal; lia|lia| |done].
    rewrite Z.pow_add_r by lia. lia.
  - exists d, 0. split_and!; [f_equal; lia|lia|lia|done].
Qed.

Lemma stripped_unique a k b l : 0 <= k → 0 <= l → a mod 10 ≠ 0 → b mod 10 ≠ 0 → a * 10 ^ k = b * 10 ^ l → a = b ∧ k = l.
Proof.
  assert (∀ a k b l, 0 <= k <= l → a mod 10 ≠ 0 → a * 10 ^ k = b * 10 ^ l → a = b ∧ k = l) as H.
  { intros x m y n Hm Hx E. replace n with ((n - m) + m) in E by lia. rewrite Z.pow_add_r, Z.mul_assoc in E by lia.
    assert (0 < 10 ^ m) by (apply Z.pow_pos_nonneg; lia). apply Z.mul_cancel_r in E; [|lia].
    destruct (decide (n = m)) as [->|Hne]; [rewrite Z.sub_diag in E; cbn in E; lia|]. exfalso. apply Hx. rewrite E.
    replace (n - m) with ((n - m - 1) + 1) by lia. rewrite Z.pow_add_r, Z.mul_assoc by lia. apply Z.mod_mul. lia. }
  intros Hk Hl Ha Hb E. destruct (Z.le_ge_cases k l); [by apply (H a k b l)|]. destruct (H b l a k) as [-> ->]; auto; lia.
Qed.

(** Zeros at the end go to the exponent. *)
Lemma decimal_shift ng d j e : 0 <= d → 0 <= j → f64_of_decimal ng (d * 10 ^ j) e = f64_of_decimal ng d (e + j).
Proof.
  intros Hd Hj. assert (0 < 10 ^ j) by (apply Z.pow_pos_nonneg; lia). unfold f64_of_decimal.
  destruct (Z.eqb_spec d 0) as [->|Hne]; [done|]. rewrite (proj2 (Z.eqb_neq _ _)) by nia.
  assert (∀ x, 0 < x → 0 < x < 2 ^ Z.of_nat (Z.to_nat (Z.log2 x + 1))) as Hlog.
  { intros x Hx. pose proof (Z.log2_nonneg x). rewrite Z2Nat.id by lia. pose proof (Z.log2_spec x Hx). lia. }
  destruct (strip_zeros_spec (Z.to_nat (Z.log2 (d * 10 ^ j) + 1)) (d * 10 ^ j) e) as (a & k & -> & Hk & Ea & Hna); [apply Hlog; nia|].
  destruct (strip_zeros_spec (Z.to_nat (Z.log2 d + 1)) d (e + j)) as (b & l & -> & Hl & Eb & Hnb); [apply Hlog; lia|].
  destruct (stripped_unique a k b (l + j)) as [-> ->]; [lia|lia|done|done| |by replace (e + (l + j)) with (e + j + l) by lia].
  rewrite Z.pow_add_r by lia. rewrite <-Ea, Eb. lia.
Qed.

Lemma digits_zeros s z : digits_value (s ++ zeros z) = digits_value s * 10 ^ Z.of_nat z.
Proof. rewrite digits_value_app, digits_value_zeros. unfold zeros. rewrite length_replicate. lia. Qed.

(** Digits that a double holds, with any zeros after them. *)
Lemma to_f64_digits ng s z e : all_digits s → (length s ≤ 17)%nat →
  to_f64 (mk_dec ng (s ++ zeros z) e) = f64_of_decimal ng (digits_value s) (e + Z.of_nat z).
Proof.
  intros Hs Hl. pose proof (digits_value_range s Hs) as Hr. unfold to_f64. cbn [digits neg exp].
  assert (length (s ++ zeros z) = (length s + z)%nat) as Ln by (unfold zeros; by rewrite length_app, length_replicate).
  destruct (Nat.ltb_spec 17 (length (s ++ zeros z))) as [H17|H17].
  - assert (s ++ zeros z = (s ++ zeros (17 - length s)) ++ zeros (length s + z - 17)) as Es.
    { rewrite <-app_assoc. f_equal. unfold zeros. rewrite <-replicate_add. f_equal. lia. }
    assert (length (s ++ zeros (17 - length s)) = 17%nat) as L17 by (unfold zeros; rewrite length_app, length_replicate; lia).
    assert (take 17 (s ++ zeros z) = s ++ zeros (17 - length s)) as -> by (rewrite Es, <-L17 at 1; apply take_app_length).
    assert (drop 17 (s ++ zeros z) = zeros (length s + z - 17)) as -> by (rewrite Es, <-L17 at 1; apply drop_app_length).
    assert (byte_at (zeros (length s + z - 17)) 0 = 48) as -> by (destruct (length s + z - 17)%nat eqn:E; [lia|done]).
    cbn [Z.ltb Z.eqb Z.compare Pos.compare Pos.compare_cont orb andb Pos.eqb]. rewrite digits_zeros, Ln, decimal_shift by lia. f_equal. lia.
  - rewrite digits_zeros. apply decimal_shift; lia.
Qed.

(** ** Notations *)

(** Digits without a zero before them. *)
Definition plain_digits (s : str) : Prop := all_digits s ∧ s ≠ [] ∧ head s ≠ Some 48.

Lemma plain_trim s t : plain_digits s → trim_digits (s ++ t) = s ++ t.
Proof.
  intros (_ & Hne & Hh). unfold trim_digits. destruct s as [|b s]; [done|].
  assert (is_zero_digit b = false) as Hb by (apply Z.eqb_neq; intros ->; done).
  assert (trim_start is_zero_digit ((b :: s) ++ t) = (b :: s) ++ t) as -> by (cbn; by rewrite Hb). by rewrite bool_decide_eq_false_2.
Qed.
Lemma trim_zeros k s : plain_digits s → trim_digits (zeros k ++ s) = s.
Proof. intros Hs. rewrite trim_leading, <-(app_nil_r s) at 1. rewrite plain_trim by done. by rewrite app_nil_r. Qed.

Lemma two_digits_value e : 0 <= e <= 2 ^ 40 → all_digits (two_digits e) ∧ two_digits e ≠ [] ∧ clamped_exp (two_digits e) = e.
Proof.
  intros He. assert (all_digits (decimal e)) as Hd by (apply decimal_all_digits; lia).
  assert (digits_value (decimal e) = e) as Hv by (apply decimal_digits_value; cbn; lia).
  assert (decimal e ≠ []) as Hne by apply decimal_nonempty. unfold two_digits. destruct (e <? 10).
  - assert (digits_value (48 :: decimal e) = e) as Hv' by (rewrite digits_value_cons; lia).
    split_and!; [by constructor|done|]. rewrite clamped_exp_small, Hv'; [done|by constructor|lia].
  - split_and!; [done|done|]. rewrite clamped_exp_small, Hv; done || lia.
Qed.
Lemma small_exponent_read e : Z.abs e <= 2 ^ 40 →
  dec_exponent (lit "e" ++ (if e <? 0 then lit "-" else lit "+") ++ two_digits (Z.abs e)) = Some e.
Proof.
  intros He. destruct (two_digits_value (Z.abs e)) as (Hd & Hne & Hc); [lia|].
  assert (∀ b : bool, dec_exponent (101 :: (if b then 45 else 43) :: two_digits (Z.abs e)) = Some (if b then - Z.abs e else Z.abs e)) as H.
  { intros b. unfold dec_exponent. change ((101 =? 101) || (101 =? 69)) with true. cbv iota.
    destruct b; rewrite span_all, bool_decide_eq_false_2, Hc by done; done. }
  destruct (Z.ltb_spec e 0); [etransitivity; [exact (H true)|]|etransitivity; [exact (H false)|]]; f_equal; lia.
Qed.

(** Every notation says the digits and where the point is. *)
Lemma notation_read ng s k : plain_digits s → Z.abs k <= 2 ^ 30 →
  ∃ z e, dec_unsigned ng (notation_of s (k + 1)) = Some (mk_dec ng (s ++ zeros z) e) ∧ e + Z.of_nat z = k - (Z.of_nat (length s) - 1).
Proof.
  intros Hp Hk. pose proof Hp as (Hs & Hne & _). unfold notation_of. cbv zeta. set (nd := Z.of_nat (length s)).
  assert (trim_digits s = s) as Htrim by (pose proof (plain_trim s [] Hp) as H; by rewrite app_nil_r in H).
  assert (0 < nd) as Hnd by (destruct s; [done|subst nd; cbn [length]; lia]).
  destruct (_ || _) eqn:Esci; [|apply orb_false_iff in Esci as [H1%Z.leb_gt H2%Z.ltb_ge]; destruct (Z.leb_spec (k + 1) 0); [|destruct (Z.leb_spec nd (k + 1))]].
  - exists 0%nat, (k - (nd - 1)). rewrite app_nil_r. split; [|lia]. replace (k + 1 - 1) with k by lia.
    pose proof (unsigned_read ng s (take 1 s) (drop 1 s) (lit "e" ++ (if k <? 0 then lit "-" else lit "+") ++ two_digits (Z.abs k)) k) as H.
    rewrite take_drop in H. assert ((if 1 <? nd then lit "." ++ drop 1 s else []) = (if bool_decide (drop 1 s = []) then [] else 46 :: drop 1 s)) as ->.
    { subst nd. destruct s as [|b [|c s]]; [done|done|]. cbn [length drop]. rewrite (proj2 (Z.ltb_lt _ _)) by lia. by rewrite bool_decide_eq_false_2. }
    rewrite H; [|done|done|apply small_exponent_read; lia|by intros b [= <-]|done]. rewrite Htrim, length_drop. do 2 f_equal. subst nd. lia.
  - set (j := Z.to_nat _). exists 0%nat, (k - (nd - 1)). rewrite app_nil_r. split; [|lia].
    pose proof (unsigned_read ng s [48] (zeros j ++ s) [] 0) as HR. rewrite !app_nil_r, bool_decide_eq_false_2 in HR by (by intros [_ ?]%app_eq_nil).
    change (lit "0." ++ zeros j ++ s) with ([48] ++ 46 :: zeros j ++ s). rewrite HR.
    + rewrite Htrim, length_app. unfold zeros. rewrite length_replicate. do 2 f_equal. subst nd j. lia.
    + apply Forall_cons. split; [done|]. apply Forall_app. split; [apply zeros_digits|done].
    + done.
    + done.
    + apply plain_end.
    + rewrite app_assoc. exact (trim_leading (S j) s).
  - exists (Z.to_nat (k + 1 - nd)), 0. split; [|lia]. set (z := Z.to_nat _).
    pose proof (unsigned_read ng (s ++ zeros z) (s ++ zeros z) [] [] 0) as HR. rewrite !app_nil_r in HR. rewrite HR.
    + rewrite plain_trim by done. do 2 f_equal.
    + apply Forall_app. split; [done|apply zeros_digits].
    + by intros [? _]%app_eq_nil.
    + done.
    + apply plain_end.
    + done.
  - exists 0%nat, (k - (nd - 1)). rewrite app_nil_r. split; [|lia]. set (j := Z.to_nat _).
    pose proof (unsigned_read ng s (take j s) (drop j s) [] 0) as HR. rewrite take_drop, !app_nil_r in HR.
    rewrite (bool_decide_eq_false_2 (drop j s = [])) in HR by (intros E%(f_equal length); rewrite length_drop in E; cbn [length] in E; lia).
    change (lit "." ++ drop j s) with (46 :: drop j s). rewrite HR by (done || apply plain_end). rewrite Htrim, length_drop. do 2 f_equal. lia.
Qed.

(** What a number is written in. *)
Definition number_char (b : Z) : Prop := is_digit b = true ∨ b ∈ [43; 45; 46; 69; 101].
Lemma digits_chars s : all_digits s → Forall number_char s.
Proof. intros Hs. eapply Forall_impl; [exact Hs|]. by left. Qed.
Lemma punct_chars s : (∀ b, b ∈ s → b ∈ [43; 45; 46; 69; 101]) → Forall number_char s.
Proof. intros Hs. apply Forall_forall. intros b Hb. right. by apply Hs. Qed.

Lemma notation_shape s p : plain_digits s → ∃ b body, notation_of s p = b :: body ∧ is_digit b = true ∧ Forall number_char (b :: body).
Proof.
  intros (Hs & Hne & _). pose proof (digits_chars s Hs) as Hc.
  assert (∀ t, (∃ b u, t = b :: u ∧ is_digit b = true) → Forall number_char t → ∃ b body, t = b :: body ∧ is_digit b = true ∧ Forall number_char (b :: body)) as H.
  { intros t (b & u & -> & Hb) HF. by exists b, u. }
  assert (∀ k t, (k ≠ 0)%nat → ∃ b u, take k s ++ t = b :: u ∧ is_digit b = true) as Htake.
  { intros [|k] t Hk; [done|]. destruct s as [|b s']; [done|]. apply Forall_cons in Hs as [Hb _]. by eexists _, _. }
  unfold notation_of. cbv zeta. destruct (_ || _); [|destruct (Z.leb_spec p 0); [|destruct (Z.leb_spec (Z.of_nat (length s)) p)]]; apply H.
  - by apply Htake.
  - apply Forall_app. split; [by apply Forall_take|]. apply Forall_app. split.
    { destruct (1 <? _); [|constructor]. apply Forall_app. split; [apply punct_chars; set_solver|by apply Forall_drop]. }
    apply Forall_app. split; [apply punct_chars; set_solver|]. apply Forall_app. split; [apply punct_chars; destruct (_ <? 0); set_solver|].
    apply digits_chars. unfold two_digits. assert (all_digits (decimal (Z.abs (p - 1)))) by (apply decimal_all_digits; lia).
    destruct (_ <? 10); [by constructor|done].
  - by eexists _, _.
  - change (lit "0." ++ ?x) with ([48] ++ [46] ++ x). apply Forall_app. split; [by apply digits_chars; repeat constructor|].
    apply Forall_app. split; [apply punct_chars; set_solver|]. apply Forall_app. split; [apply digits_chars, zeros_digits|done].
  - destruct s as [|b s']; [done|]. apply Forall_cons in Hs as [Hb _]. by eexists _, _.
  - apply Forall_app. split; [done|apply digits_chars, zeros_digits].
  - apply Htake. lia.
  - apply Forall_app. split; [by apply Forall_take|]. apply Forall_app. split; [apply punct_chars; set_solver|by apply Forall_drop].
Qed.

Lemma dec_parse_sign ng b body : is_digit b = true → dec_parse ((if ng : bool then [45] else []) ++ b :: body) = dec_unsigned ng (b :: body).
Proof. intros Hb%is_digit_range. destruct ng; [done|]. cbn [app]. unfold dec_parse. repeat case_match; try done; lia. Qed.

(** ** Numbers printed and read *)

(** What [{:e}] promises: at most 17 digits, the first no zero, that read as the number. *)
Definition shortest (x : f64) : bool :=
  match x with
  | S754_finite s _ _ =>
      let '(ds, k) := sci_digits x in
      forallb is_digit ds && bool_decide (ds ≠ []) && bool_decide (head ds ≠ Some 48) && (length ds <=? 17)%nat && (Z.abs k <=? 400) &&
      negb (flt MAX x) && negb (flt x (SFopp MAX)) &&
      bool_decide (f64_of_decimal s (digits_value ds) (k - (Z.of_nat (length ds) - 1)) = x)
  | _ => true
  end.

(** Infinities are printed as the greatest numbers. *)
Definition shown (x : f64) : f64 :=
  match x with S754_infinity s => if s then SFopp MAX else MAX | x => x end.

Lemma finite_read s m e : shortest (S754_finite s m e) = true →
  ∃ b body d, fmt_f64 (S754_finite s m e) = (if s then [45] else []) ++ b :: body ∧ is_digit b = true ∧ Forall number_char (b :: body) ∧
    dec_parse (fmt_f64 (S754_finite s m e)) = Some d ∧ to_f64 d = S754_finite s m e.
Proof.
  intros H. cbn [shortest] in H. set (x := S754_finite s m e) in *. destruct (sci_digits x) as [ds k] eqn:Eds. unfold fmt_f64.
  rewrite !andb_true_iff, !bool_decide_eq_true, !negb_true_iff, Nat.leb_le, Z.leb_le in H. destruct H as [[[[[[[Hd Hne] Hh] H17] Hk] Hmax] Hmin] Hx].
  change (is_nan x) with false. cbv iota zeta. rewrite Hmax, Hmin.
  assert (feq x fzero = false) as -> by by destruct s. change (is_sign_negative x) with s. rewrite Eds.
  assert (plain_digits ds) as Hp by (split; [apply Forall_forall; rewrite forallb_forall in Hd; intros b Hb; by apply Hd, list_elem_of_In|done]).
  destruct (notation_shape ds (k + 1) Hp) as (b & body & En & Hb & HF). destruct (notation_read s ds k Hp) as (z & ex & Er & Ez); [lia|].
  exists b, body, (mk_dec s (ds ++ zeros z) ex). rewrite En in *. split_and!; [done|done|done|by rewrite dec_parse_sign|].
  rewrite to_f64_digits; [|apply Hp|done]. by rewrite Ez.
Qed.

(** Every number but NaN is printed as a literal of the number shown for it. *)
Lemma double_read x : shortest x = true → is_nan x = false →
  ∃ (ng : bool) b body d, fmt_f64 x = (if ng then [45] else []) ++ b :: body ∧ is_digit b = true ∧ Forall number_char (b :: body) ∧
    dec_parse (fmt_f64 x) = Some d ∧ to_f64 d = shown x.
Proof.
  intros H Hn. destruct x as [s|s| |s m e]; [..|].
  - destruct s; [exists true, 48, [], (mk_dec true [48] 0)|exists false, 48, [], (mk_dec false [48] 0)]; (split_and!; [done|done|by apply digits_chars; repeat constructor|done|done]).
  - assert (fmt_f64 (S754_infinity s) = fmt_f64 (shown (S754_infinity s)) ∧ shortest (shown (S754_infinity s)) = true) as [-> Hs] by (destruct s; vm_compute; done).
    exists s. destruct s; by apply finite_read.
  - done.
  - exists s. by apply finite_read.
Qed.

(** A third, a sum that is no decimal of few digits, a large power of ten, and the ends of the range. *)
Example shortest_numbers :
  forallb shortest [to_f64 (mk_dec false (lit "33333333333333333333") (-20)); fadd (to_f64 (mk_dec false (lit "1") (-1))) (to_f64 (mk_dec false (lit "2") (-1)));
    to_f64 (mk_dec true (lit "1") 23); S754_finite false 1 (-1074); MAX; fadd MAX MAX; SFopp fone] = true ∧
  fmt_f64 (fadd (to_f64 (mk_dec false (lit "1") (-1))) (to_f64 (mk_dec false (lit "2") (-1)))) = lit "0.30000000000000004".
Proof. vm_compute. done. Qed.
