(* ===== verification/JqProofs.v ===== *)
(** * jq's JSON reader: proofs

    The reader is a machine over its input's bytes: [emit] is what a byte does, with the events it leaves to be
    handed out.  Fed in pieces and asked for values in between, it gives what [reading] of the whole gives; and
    what the printer writes is read back. *)
From stdpp Require Import strings.
From S2P Require Import Prelude Str Float JqValue JqOrder JqReader.

Local Open Scope Z_scope.

(** ** What a byte does *)

(** The events that wait. *)
Fixpoint flush_events (n : nat) (c : Core) : list Value * Core :=
  match n with
  | O => ([], c)
  | S n => match stream_done c with
           | (Some v, c) => let '(vs, c) := flush_events n c in (v :: vs, c)
           | (None, c) => ([], c)
           end
  end.
Definition flush (streaming : bool) (c : Core) : list Value * Core := if streaming then flush_events 3 c else ([], c).

Definition emit (ch : Z) (p : Parser) : Parser * list Next :=
  if bool_decide (st (core p) = WaitRs) then
    let p := advance ch p in (if ch =? RS then with_core (set_st Normal (core p)) p else p, [])
  else
    match scan ch p with
    | (p, Ok v) => let '(vs, c) := flush (streaming p) (core p) in (with_core c p, NValue <$> option_list v ++ vs)
    | (p, Err msg) => let '(p, e) := failed ch msg p in (p, [e])
    end.

(** A dead parser reads nothing. *)
Fixpoint emits (u : str) (p : Parser) : Parser * list Next :=
  match u with
  | [] => (p, [])
  | ch :: u => if dead p then (p, []) else let '(p, o) := emit ch p in let '(p, os) := emits u p in (p, o ++ os)
  end.

(** What is said at the end of the input. *)
Definition final (p : Parser) : list Next := if dead p then [] else match (at_end p).2 with NNone => [] | n => [n] end.

(** The byte order mark, then the bytes. *)
Definition intake (s : str) (p : Parser) : Parser * list Next :=
  if dead p then (p, [])
  else
    let '(b, d) := strip_bom (bom p) s in
    if (b =? 255)%nat then
      if seq p then emits d (with_bom 3 (with_core (fresh Normal) p))
      else (with_dead (with_bom b p), [NError (lit "Malformed BOM")])
    else emits d (with_bom b p).

Definition reading (s : str) (p : Parser) : list Next := let '(p, o) := intake s p in o ++ final p.

(** ** The calls *)

(** [next] called until there is nothing. *)
Inductive drains : Parser → list Next → Parser → Prop :=
  | drains_none p p' : read_next p = (p', NNone) → drains p [] p'
  | drains_some p n p' ns p'' : read_next p = (p', n) → n ≠ NNone → drains p' ns p'' → drains p (n :: ns) p''.

(** Pieces fed one by one, with everything there is asked for after each, and after the end. *)
Inductive session : Parser → list str → list Next → Prop :=
  | session_end p ns p' : drains (feed [] true p) ns p' → session p [] ns
  | session_piece p d ds ns p' ns' : drains (feed d false p) ns p' → session p' ds ns' → session p (d :: ds) (ns ++ ns').

Lemma drains_unique p ns p' ns' p'' : drains p ns p' → drains p ns' p'' → ns = ns' ∧ p' = p''.
Proof.
  intros H. revert ns' p''. induction H as [p p' E|p n p' ns q E Hn _ IH]; intros ns' p'' H'; inversion H' as [|? n2 p2 ns2 q2 E2 Hn2 H2]; subst.
  - split; congruence.
  - congruence.
  - congruence.
  - rewrite E in E2. injection E2 as <- <-. destruct (IH _ _ H2) as [-> ->]. done.
Qed.

(** ** Waiting events *)

Definition drained (p : Parser) : Prop := streaming p = true → (stream_done (core p)).1 = None.

Lemma stream_done_none c c' : stream_done c = (None, c') → c' = c.
Proof. unfold stream_done. repeat case_match; congruence. Qed.

(** Three times is enough. *)
Definition waiting (c : Core) : nat :=
  (if next c is Some _ then 1 else 0) + match output c with None => 0 | Some o => if (2 <? length o)%nat then 2 else 1 end.
Lemma stream_done_fewer c v c' : stream_done c = (Some v, c') → (waiting c' < waiting c)%nat.
Proof.
  unfold stream_done, waiting. destruct c as [s nx tk x pt ls out]. cbn [path next output].
  assert (∀ o : list Value, (2 <? length (take 1 o))%nat = false) as Ht by (intros [|? [|? ?]]; done).
  destruct pt, nx, out as [o|]; cbn [set_next set_output stack next token st path last_seen output];
    try (destruct (2 <? length o)%nat eqn:E); intros H; simplify_eq; cbn [set_next set_output next output]; rewrite ?Ht, ?E; lia.
Qed.
Lemma flush_events_done n c : (waiting c ≤ n)%nat → (stream_done (flush_events n c).2).1 = None.
Proof.
  revert c. induction n as [|n IH]; intros c Hw; cbn [flush_events].
  - destruct (stream_done c) as [[v|] c'] eqn:E; [apply stream_done_fewer in E; lia|]. cbn. by rewrite E.
  - destruct (stream_done c) as [[v|] c'] eqn:E.
    + apply stream_done_fewer in E. pose proof (IH c' ltac:(lia)) as H. by destruct (flush_events n c').
    + cbn. pose proof (stream_done_none _ _ E) as ->. by rewrite E.
Qed.
Lemma waiting_three c : (waiting c ≤ 3)%nat.
Proof. unfold waiting. repeat case_match; lia. Qed.

(** A parser that is asked again hands out what waits. *)
Definition live (p : Parser) : Prop := dead p = false ∧ eof p = false ∧ bom p ≠ 255%nat.

Lemma read_next_live p : live p → read_next p =
  let '(v, c) := if streaming p then stream_done (core p) else (None, core p) in
  let p := with_core c p in
  match v with
  | Some v => (p, NValue v)
  | None => match read_loop p (unread p) with
            | (p, Some n) => (p, n)
            | (p, None) => if partial p then (p, NNone) else at_end p
            end
  end.
Proof.
  intros (Hd & He & Hb). unfold read_next. rewrite Hd, He. cbn [orb]. rewrite (proj2 (Nat.eqb_neq _ _) Hb). done.
Qed.

(** What a step leaves alone: everything but the core, the position and whether the last byte was white space. *)
Definition frame (p : Parser) : bool * bool * nat * bool * bool * bool * bool :=
  (seq p, eof p, bom p, partial p, dead p, streaming p, stream_errors p).

Lemma frame_advance ch p : frame (advance ch p) = frame p.
Proof. unfold advance. by destruct (ch =? LF). Qed.
Lemma frame_core c p : frame (with_core c p) = frame p.
Proof. done. Qed.
Lemma frame_scan ch p : frame (scan ch p).1 = frame p.
Proof.
  unfold scan. rewrite <-(frame_advance ch p). set (q := advance ch p).
  destruct (seq q && _); [by destruct (scan_rs q) as [[]|]|].
  destruct (bool_decide _); [by destruct (scan_normal _ _ _) as [[]|]|by destruct (scan_string _ _ _) as [[]|]].
Qed.

(** What is unread matters to none of them. *)
Lemma advance_unread u ch p : advance ch (with_unread u p) = with_unread u (advance ch p).
Proof. unfold advance. by destruct (ch =? LF). Qed.
Lemma scan_unread u ch p : scan ch (with_unread u p) = (with_unread u (scan ch p).1, (scan ch p).2).
Proof.
  unfold scan. rewrite advance_unread. set (q := advance ch p).
  change (seq (with_unread u q)) with (seq q). change (core (with_unread u q)) with (core q).
  change (scan_rs (with_unread u q)) with (scan_rs q). change (streaming (with_unread u q)) with (streaming q).
  destruct (seq q && _); [by destruct (scan_rs q) as [[]|]|].
  destruct (bool_decide _); [by destruct (scan_normal _ _ _) as [[]|]|by destruct (scan_string _ _ _) as [[]|]].
Qed.
Lemma failed_unread u ch msg p : failed ch msg (with_unread u p) = (with_unread u (failed ch msg p).1, (failed ch msg p).2).
Proof. unfold failed. cbn [seq with_unread]. by destruct (negb _ && _), (seq p). Qed.

Lemma failed_says ch msg p : (failed ch msg p).2 ≠ NNone.
Proof. unfold failed, make_error. cbn. by destruct (negb _ && _), (stream_errors p). Qed.
Lemma failed_frame ch msg p :
  eof (failed ch msg p).1 = eof p ∧ bom (failed ch msg p).1 = bom p ∧ partial (failed ch msg p).1 = partial p ∧
  streaming (failed ch msg p).1 = streaming p ∧ ∃ s, core (failed ch msg p).1 = fresh s.
Proof. unfold failed. destruct (negb _ && _), (seq p); split_and!; try done; by eexists. Qed.

Lemma fresh_done s : stream_done (fresh s) = (None, fresh s).
Proof. done. Qed.

(** A step that gives nothing out leaves nothing waiting. *)
Lemma done_none sg c c' : done_ sg c = (None, c') → sg = true → (stream_done c').1 = None.
Proof. intros H ->. simpl in H. pose proof (stream_done_none _ _ H) as ->. by rewrite H. Qed.
Lemma stream_done_same s t c : (stream_done (set_st s (set_token t c))).1 = (stream_done c).1.
Proof.
  unfold stream_done. cbn [path next output set_st set_token]. destruct (path c), (next c), (output c) as [o|]; try done; by destruct (2 <? length o)%nat.
Qed.
Lemma scan_drained ch p q : drained p → scan ch p = (q, Ok None) → drained q.
Proof.
  intros Hp. unfold scan, drained. set (r := advance ch p).
  assert (core r = core p) as Hc by (unfold r, advance; by destruct (ch =? LF)).
  assert (streaming r = streaming p) as Hs by (unfold r, advance; by destruct (ch =? LF)). destruct (seq r && _).
  - unfold scan_rs. destruct (truncated r); [done|]. destruct (check_literal _ _) as [c|]; [|done]. cbn [mbind result_bind].
    destruct (bool_decide _); [destruct (done_ (streaming r) c) as [[v|] c'] eqn:E|]; intros [= <-]; done.
  - destruct (bool_decide _).
    + unfold scan_normal. destruct (if bool_decide _ then _ else _) as [[out c]|]; [|done]. cbn [mbind result_bind].
      destruct (match classify ch with Literal => _ | _ => _ end) as [c'|]; [|done]. cbn [mbind result_bind].
      destruct out as [v|]; [done|]. cbn [done_if]. destruct (done_ _ c') as [[v|] c''] eqn:E; intros [= <-]. cbn. by apply (done_none _ _ _ E).
    + unfold scan_string. destruct (_ && _).
      * destruct (found_string _ _) as [c|]; [|done]. cbn [mbind result_bind].
        destruct (done_ _ _) as [[v|] c''] eqn:E; intros [= <-]. cbn. by apply (done_none _ _ _ E).
      * intros [= <-]. cbn. rewrite stream_done_same, Hc, Hs. apply Hp.
Qed.

(** ** The calls give what the bytes do *)

Lemma live_frame p q : frame q = frame p → live p → live q.
Proof. unfold frame, live. intros [= _ -> -> _ -> _ _]. done. Qed.

(** What waits is handed out first. *)
Lemma drains_flush n p ns p' : live p → streaming p = true →
  drains (with_core (flush_events n (core p)).2 p) ns p' → drains p ((NValue <$> (flush_events n (core p)).1) ++ ns) p'.
Proof.
  intros Hp Hs. revert p Hp Hs. induction n as [|n IH]; intros p Hp Hs; cbn [flush_events].
  - cbn. assert (with_core (core p) p = p) as -> by (by destruct p). done.
  - destruct (stream_done (core p)) as [[v|] c] eqn:E; cbn [fst snd].
    + pose proof (IH (with_core c p) Hp Hs) as H. cbn [core with_core] in H. destruct (flush_events n c) as [vs c'] eqn:Ef. cbn [fst snd] in *.
      intros Hd. apply (drains_some _ _ (with_core c p)); [|done|by apply H].
      rewrite read_next_live, Hs, E by done. done.
    + apply stream_done_none in E as ->. assert (with_core (core p) p = p) as -> by (by destruct p). done.
Qed.

Lemma emit_live ch p : live p → drained p →
  drained (emit ch p).1 ∧ (dead (emit ch p).1 = false → live (emit ch p).1) ∧ partial (emit ch p).1 = partial p ∧
  streaming (emit ch p).1 = streaming p ∧ unread (emit ch p).1 = unread p.
Proof.
  intros Hp Hd. unfold emit. destruct (bool_decide _).
  { pose proof (frame_advance ch p) as Hf. assert (core (advance ch p) = core p) as Hc by (unfold advance; by destruct (ch =? LF)).
    assert (unread (advance ch p) = unread p) as Hu by (unfold advance; by destruct (ch =? LF)).
    pose proof (live_frame _ _ Hf Hp) as Hl. unfold frame in Hf. injection Hf as _ _ _ Hpa _ Hst _.
    assert (drained (advance ch p)) as Hdr by (unfold drained; rewrite Hc, Hst; exact Hd).
    destruct (ch =? RS); split_and!; try done; cbn. unfold drained. cbn. intros Hs.
    pose proof (stream_done_same Normal (token (core p)) (core p)) as Hsd. rewrite Hc.
    assert (set_token (token (core p)) (core p) = core p) as Ht by (by destruct (core p)). rewrite Ht in Hsd. rewrite Hsd. apply Hd. congruence. }
  pose proof (frame_scan ch p) as Hf. pose proof (scan_unread (unread p) ch p) as Hu.
  assert (with_unread (unread p) p = p) as Hw by (by destruct p). rewrite Hw in Hu.
  assert (unread (scan ch p).1 = unread p) as Hun by (by rewrite Hu). clear Hu Hw.
  destruct (scan ch p) as [q [v|msg]] eqn:E; cbn [fst snd] in *; pose proof (live_frame _ _ Hf Hp) as Hl; unfold frame in Hf; injection Hf as _ _ _ Hpa _ Hst _.
  - unfold flush. destruct (streaming q) eqn:Es.
    + destruct (flush_events 3 (core q)) as [vs c] eqn:Ef. cbn [fst snd]. split_and!; try done; [|cbn; congruence].
      intros _. cbn. pose proof (flush_events_done 3 (core q) (waiting_three _)) as H. by rewrite Ef in H.
    + cbn. split_and!; try done; [|congruence]. intros H. cbn in H. congruence.
  - destruct (failed_frame ch msg q) as (H1 & H2 & H3 & H4 & s & H5). pose proof (failed_unread (unread q) ch msg q) as Hu.
    assert (with_unread (unread q) q = q) as Hw by (by destruct q). rewrite Hw in Hu. apply (f_equal (unread ∘ fst)) in Hu. cbn in Hu.
    destruct (failed ch msg q) as [r e]. cbn [fst snd] in *. split_and!; try congruence; [by intros _; rewrite H5|].
    intros Hdead. destruct Hl as (L1 & L2 & L3). split_and!; congruence.
Qed.

Lemma with_unread_same u p : unread p = u → with_unread u p = p.
Proof. intros <-. by destruct p. Qed.
Lemma emit_unread u ch p : emit ch (with_unread u p) = (with_unread u (emit ch p).1, (emit ch p).2).
Proof.
  unfold emit. change (core (with_unread u p)) with (core p). destruct (bool_decide _).
  - rewrite advance_unread. by destruct (ch =? RS).
  - rewrite scan_unread. destruct (scan ch p) as [q [v|msg]]; cbn [fst snd].
    + change (streaming (with_unread u q)) with (streaming q). change (core (with_unread u q)) with (core q). by destruct (flush _ _).
    + rewrite failed_unread. by destruct (failed ch msg q).
Qed.
Lemma emits_unread u s p : emits s (with_unread u p) = (with_unread u (emits s p).1, (emits s p).2).
Proof.
  revert p. induction s as [|ch s IH]; intros p; [done|]. cbn [emits]. change (dead (with_unread u p)) with (dead p).
  destruct (dead p); [done|]. rewrite emit_unread. destruct (emit ch p) as [q o]. cbn [fst snd]. rewrite IH. by destruct (emits s q).
Qed.

Lemma drains_same p q ns p' : read_next p = read_next q → drains p ns p' → drains q ns p'.
Proof.
  intros E H. inversion H; subst; [apply drains_none|eapply drains_some; [|done|done]]; by rewrite <-E.
Qed.

Lemma read_loop_unread s u q : read_loop (with_unread s q) u = read_loop q u.
Proof.
  revert s q. induction u as [|x u IH]; intros s q; [done|]. cbn [read_loop]. change (core (with_unread s q)) with (core q).
  destruct (bool_decide _); [rewrite advance_unread; destruct (x =? RS); [exact (IH s (with_core _ (advance x q)))|apply IH]|].
  rewrite scan_unread. destruct (scan x q) as [r [[v|]|msg]]; cbn [fst snd]; [done|apply IH|]. rewrite failed_unread. by destruct (failed x msg r).
Qed.

(** What one more byte gives is handed out, then what follows. *)
Lemma drains_byte ch u p ns p' : live p → drained p →
  drains (with_unread u (emit ch p).1) ns p' → drains (with_unread (ch :: u) p) ((emit ch p).2 ++ ns) p'.
Proof.
  intros Hp Hd H.
  assert (∀ q : Parser, live q → drained q → read_next q =
    match read_loop q (unread q) with (q, Some n) => (q, n) | (q, None) => if partial q then (q, NNone) else at_end q end) as Hread.
  { intros q Hq Hdq. rewrite read_next_live by done. unfold drained in Hdq. destruct (streaming q).
    - specialize (Hdq eq_refl). destruct (stream_done (core q)) as [v c] eqn:E. cbn [fst] in Hdq. subst v.
      apply stream_done_none in E as ->. assert (with_core (core q) q = q) as -> by (by destruct q). done.
    - assert (with_core (core q) q = q) as -> by (by destruct q). done. }
  pose proof (Hread (with_unread (ch :: u) p) Hp Hd) as Hr. cbn [unread with_unread read_loop] in Hr.
  destruct (emit_live ch p Hp Hd) as (Hd' & Hl' & Hpa & Hst & _). unfold emit in H, Hd', Hl'. unfold emit.
  change (core (with_unread (ch :: u) p)) with (core p) in Hr. destruct (bool_decide (st (core p) = WaitRs)) eqn:Ew.
  - cbn [fst snd app] in *. refine (drains_same _ _ _ _ _ H).
    assert (dead (advance ch p) = false) as Hda by (unfold advance; destruct (ch =? LF); apply Hp).
    rewrite Hr. rewrite Hread; [|apply Hl'; destruct (ch =? RS); exact Hda|exact Hd'].
    rewrite advance_unread. cbn [unread with_unread]. rewrite read_loop_unread. destruct (ch =? RS); [|by rewrite read_loop_unread].
    change (with_core ?c (with_unread ?s ?q)) with (with_unread s (with_core c q)). by rewrite read_loop_unread.
  - rewrite scan_unread in Hr. pose proof (frame_scan ch p) as Hf. destruct (scan ch p) as [q [v|msg]] eqn:E; cbn [fst snd] in *.
    + pose proof (live_frame _ _ Hf Hp) as Hq. unfold frame in Hf. injection Hf as _ _ _ Hpq _ Hsq _.
      destruct v as [v|].
      * assert (with_unread u (with_unread (ch :: u) q) = with_unread u q) as Hww by done. rewrite Hww in Hr.
        unfold flush in *. destruct (streaming q) eqn:Es.
        -- pose proof (drains_flush 3 (with_unread u q) ns p' Hq Es) as Hfl. cbn [core with_unread] in Hfl.
           destruct (flush_events 3 (core q)) as [vs c]. cbn [fst snd option_list app fmap list_fmap] in *.
           eapply drains_some; [exact Hr|done|]. apply Hfl. exact H.
        -- cbn [fst snd option_list app fmap list_fmap] in *. eapply drains_some; [exact Hr|done|].
           assert (with_core (core q) q = q) as Hc by (by destruct q). by rewrite Hc in H.
      * pose proof (scan_drained ch p q Hd E) as Hdq.
        assert (flush (streaming q) (core q) = ([], core q)) as Ef.
        { unfold flush. unfold drained in Hdq. destruct (streaming q); [|done]. specialize (Hdq eq_refl). cbn [flush_events].
          destruct (stream_done (core q)) as [v c] eqn:Es. cbn [fst] in Hdq. subst v. by apply stream_done_none in Es as ->. }
        rewrite Ef in H |- *. assert (with_core (core q) q = q) as Hc by (by destruct q). rewrite Hc in H. cbn [fst snd option_list app fmap list_fmap] in *.
        refine (drains_same _ _ _ _ _ H). rewrite Hr, Hread by done. cbn [unread with_unread].
        by rewrite !read_loop_unread.
    + rewrite failed_unread in Hr. pose proof (failed_says ch msg q) as Hn. destruct (failed ch msg q) as [r e]. cbn [fst snd app] in *.
      eapply drains_some; [exact Hr|done|exact H].
Qed.

(** Whether more is to come matters to no byte either. *)
Lemma emit_partial b ch p : emit ch (with_partial b p) = (with_partial b (emit ch p).1, (emit ch p).2).
Proof.
  unfold emit. change (core (with_partial b p)) with (core p). destruct (bool_decide _).
  { unfold advance. destruct (ch =? RS), (ch =? LF); done. }
  assert (scan ch (with_partial b p) = (with_partial b (scan ch p).1, (scan ch p).2)) as ->.
  { unfold scan. assert (advance ch (with_partial b p) = with_partial b (advance ch p)) as -> by (unfold advance; by destruct (ch =? LF)).
    set (q := advance ch p). change (seq (with_partial b q)) with (seq q). change (core (with_partial b q)) with (core q).
    change (scan_rs (with_partial b q)) with (scan_rs q). change (streaming (with_partial b q)) with (streaming q).
    destruct (seq q && _); [by destruct (scan_rs q) as [[]|]|].
    destruct (bool_decide _); [by destruct (scan_normal _ _ _) as [[]|]|by destruct (scan_string _ _ _) as [[]|]]. }
  destruct (scan ch p) as [q [v|msg]]; cbn [fst snd].
  - change (streaming (with_partial b q)) with (streaming q). change (core (with_partial b q)) with (core q). by destruct (flush _ _).
  - unfold failed. cbn [seq with_partial]. destruct (negb _ && _), (seq q); done.
Qed.
Lemma emits_partial b s p : emits s (with_partial b p) = (with_partial b (emits s p).1, (emits s p).2).
Proof.
  revert p. induction s as [|ch s IH]; intros p; [done|]. cbn [emits]. change (dead (with_partial b p)) with (dead p).
  destruct (dead p); [done|]. rewrite emit_partial. destruct (emit ch p) as [q o]. cbn [fst snd]. rewrite IH. by destruct (emits s q).
Qed.

Lemma emits_dead s p : dead p = true → emits s p = (p, []).
Proof. intros Hd. destruct s; [done|]. cbn [emits]. by rewrite Hd. Qed.
Lemma drains_dead p : dead p = true → drains p [] p.
Proof. intros Hd. apply drains_none. unfold read_next. by rewrite Hd, orb_true_r. Qed.
Lemma final_unread u p : final (with_unread u p) = final p.
Proof.
  unfold final, at_end. cbn [dead with_unread with_eof core streaming seq last_ch_was_ws]. destruct (dead p); [done|].
  destruct (bool_decide _); [done|]. destruct (negb _); [done|]. destruct (check_literal _ _) as [c|]; [|done].
  destruct (_ || _); [done|]. destruct (next c) as [v|]; [|done].
  destruct (streaming p); [done|]. by destruct (seq p && negb (last_ch_was_ws p) && is_number (Some v)).
Qed.

(** The end of the input is told of once. *)
Lemma drains_end p : live p → drained p → unread p = [] → partial p = false → ∃ p', drains p (final p) p'.
Proof.
  intros Hp Hd Hu Hpa. pose proof Hp as (H1 & _ & _). unfold final. rewrite H1.
  assert (read_next p = at_end p) as E.
  { rewrite read_next_live by done. assert (with_unread [] p = p) as Hw by (by apply with_unread_same).
    assert (with_core (core p) p = p) as Hc by (by destruct p). unfold drained in Hd. destruct (streaming p).
    - specialize (Hd eq_refl). destruct (stream_done (core p)) as [v c] eqn:Es. cbn [fst] in Hd. subst v. apply stream_done_none in Es as ->.
      cbv beta iota zeta. rewrite Hc, Hu. cbn [read_loop]. by rewrite Hw, Hpa.
    - cbv beta iota zeta. rewrite Hc, Hu. cbn [read_loop]. by rewrite Hw, Hpa. }
  assert (eof (at_end p).1 = true) as He.
  { unfold at_end. destruct (bool_decide _); [done|]. destruct (negb _); [done|]. destruct (check_literal _ _) as [c|]; [|done].
    destruct (_ || _); [done|]. cbn [streaming with_eof seq last_ch_was_ws]. destruct (next c) as [v|]; [|done]. destruct (streaming p); [done|].
    by destruct (seq p && negb (last_ch_was_ws p) && is_number (Some v)). }
  destruct (at_end p) as [q n]. cbn [fst snd] in *. exists q. destruct n; [..|by apply drains_none];
    (eapply drains_some; [exact E|done|]; apply drains_none; unfold read_next; by rewrite He).
Qed.

Lemma drains_emits u p : live p → drained p →
  ∃ p', drains (with_unread u p) ((emits u p).2 ++ if partial p then [] else final (emits u p).1) p' ∧
    (partial p = true → if dead (emits u p).1 then dead p' = true else p' = with_unread [] (emits u p).1 ∧ live p' ∧ drained p').
Proof.
  revert p. induction u as [|ch u IH]; intros p Hp Hd.
  - cbn [emits fst snd app]. pose proof Hp as (Hdead & _ & _). rewrite Hdead. destruct (partial p) eqn:Hpa.
    + exists (with_unread [] p). split; [|by intros _]. apply drains_none. rewrite read_next_live by done.
      assert (with_core (core p) (with_unread [] p) = with_unread [] p) as Hc by done. cbn [core streaming with_unread].
      unfold drained in Hd. destruct (streaming p).
      * specialize (Hd eq_refl). destruct (stream_done (core p)) as [v c] eqn:Es. cbn [fst] in Hd. subst v. apply stream_done_none in Es as ->.
        cbv beta iota zeta. rewrite Hc. cbn [unread with_unread read_loop partial]. by rewrite Hpa.
      * cbv beta iota zeta. rewrite Hc. cbn [unread with_unread read_loop partial]. by rewrite Hpa.
    + destruct (drains_end (with_unread [] p)) as [p' H]; try done. rewrite final_unread in H. by exists p'.
  - pose proof Hp as (Hdead & _ & _). cbn [emits]. rewrite Hdead. pose proof (emit_live ch p Hp Hd) as (Hd1 & Hl1 & Hpa1 & _ & _).
    pose proof (λ ns p', drains_byte ch u p ns p' Hp Hd) as Hb. destruct (emit ch p) as [q o]. cbn [fst snd] in *.
    destruct (dead q) eqn:Hdq.
    + rewrite emits_dead by done. cbn [fst snd]. rewrite Hdq. exists (with_unread u q). rewrite app_nil_r. split; [|done].
      assert ((if partial p then [] else final q) = []) as -> by (unfold final; rewrite Hdq; by destruct (partial p)).
      apply Hb. by apply drains_dead.
    + destruct (IH q (Hl1 eq_refl) Hd1) as (p' & H & Hq). rewrite Hpa1 in H, Hq. destruct (emits u q) as [r os]. cbn [fst snd] in *.
      exists p'. split; [|done]. rewrite <-app_assoc. by apply Hb.
Qed.

(** A parser between its pieces. *)
Definition ready (p : Parser) : Prop := live p ∧ drained p ∧ unread p = [] ∧ partial p = true.

Lemma emits_ready s p : live p → drained p →
  drained (emits s p).1 ∧ (dead (emits s p).1 = false → live (emits s p).1) ∧
  unread (emits s p).1 = unread p ∧ partial (emits s p).1 = partial p.
Proof.
  revert p. induction s as [|ch s IH]; intros p Hp Hd; [done|]. pose proof Hp as (Hdead & _ & _). cbn [emits]. rewrite Hdead.
  destruct (emit_live ch p Hp Hd) as (H1 & H2 & H3 & _ & H5). destruct (emit ch p) as [q o]. cbn [fst snd] in *.
  destruct (dead q) eqn:Hq.
  - rewrite emits_dead by done. cbn [fst snd]. split_and!; [done|congruence|done..].
  - destruct (IH q (H2 eq_refl) H1) as (H6 & H7 & H8 & H9). destruct (emits s q) as [r os]. cbn [fst snd] in *. split_and!; [done|done|congruence..].
Qed.

Lemma emits_app s t p : emits (s ++ t) p = ((emits t (emits s p).1).1, (emits s p).2 ++ (emits t (emits s p).1).2).
Proof.
  revert p. induction s as [|ch s IH]; intros p; [cbn [app emits fst snd]; by destruct (emits t p)|]. cbn [app emits]. destruct (dead p) eqn:Hd.
  - cbn [fst snd]. by rewrite emits_dead.
  - destruct (emit ch p) as [q o]. cbn [fst snd]. rewrite IH. destruct (emits s q) as [r o1]. cbn [fst snd].
    destruct (emits t r). cbn [fst snd]. by rewrite app_assoc.
Qed.

(** The mark's state after a text, and what is left of the text. *)
Lemma strip_bom_left b s : (strip_bom b s).2 ≠ [] → (3 <= (strip_bom b s).1)%nat.
Proof.
  revert b. induction s as [|x s IH]; intros b; cbn [strip_bom]; [done|]. destruct (Nat.leb_spec 3 b); [done|].
  destruct (bool_decide _); [apply IH|]. destruct (b =? 0)%nat; cbn; lia.
Qed.
Lemma strip_bom_app b s t : strip_bom b (s ++ t) =
  if bool_decide ((strip_bom b s).2 = []) then strip_bom (strip_bom b s).1 t else ((strip_bom b s).1, (strip_bom b s).2 ++ t).
Proof.
  revert b. induction s as [|x s IH]; intros b; cbn [app strip_bom]; [done|]. destruct (Nat.leb_spec 3 b); [done|].
  destruct (bool_decide (BOM !! b = Some x)); [apply IH|]. by destruct (b =? 0)%nat.
Qed.
Lemma strip_bom_past b s : (3 <= b)%nat → strip_bom b s = (b, s).
Proof. intros Hb. destruct s; [done|]. cbn [strip_bom]. by rewrite (proj2 (Nat.leb_le _ _)). Qed.
Lemma strip_bom_bad b s : b ≠ 255%nat → (strip_bom b s).1 = 255%nat → (strip_bom b s).2 ≠ [].
Proof.
  revert b. induction s as [|x s IH]; intros b Hb; cbn [strip_bom]; [done|]. destruct (Nat.leb_spec 3 b); [done|].
  destruct (bool_decide _); [apply IH; lia|]. by destruct (b =? 0)%nat.
Qed.

Lemma emits_bom s p : bom (emits s p).1 = bom p.
Proof.
  revert p. induction s as [|ch s IH]; intros p; [done|]. cbn [emits]. destruct (dead p); [done|].
  assert (bom (emit ch p).1 = bom p) as He.
  { unfold emit. destruct (bool_decide _); [unfold advance; by destruct (ch =? RS), (ch =? LF)|].
    pose proof (frame_scan ch p) as Hf. destruct (scan ch p) as [q [v|msg]]; cbn [fst snd] in *; unfold frame in Hf; injection Hf as _ _ Hb _ _ _ _.
    - by destruct (flush _ _).
    - destruct (failed_frame ch msg q) as (_ & H & _). destruct (failed ch msg q). cbn [fst] in *. congruence. }
  destruct (emit ch p) as [q o]. specialize (IH q). destruct (emits s q). cbn [fst] in *. congruence.
Qed.
Lemma with_bom_same p : with_bom (bom p) p = p.
Proof. by destruct p. Qed.

(** Taking in a text in two parts. *)
Lemma intake_past s p : dead p = false → (3 <= bom p)%nat → bom p ≠ 255%nat → intake s p = emits s p.
Proof. intros Hd Hb Hn. unfold intake. rewrite Hd, strip_bom_past, with_bom_same by done. by rewrite (proj2 (Nat.eqb_neq _ _) Hn). Qed.

Lemma intake_app s t p : bom p ≠ 255%nat →
  intake (s ++ t) p = ((intake t (intake s p).1).1, (intake s p).2 ++ (intake t (intake s p).1).2).
Proof.
  intros Hb. destruct (dead p) eqn:Hd; [unfold intake; rewrite Hd; cbn [fst snd]; by rewrite Hd|].
  assert (∀ u, intake u p = let '(b, d) := strip_bom (bom p) u in
    if (b =? 255)%nat then
      if seq p then emits d (with_bom 3 (with_core (fresh Normal) p)) else (with_dead (with_bom b p), [NError (lit "Malformed BOM")])
    else emits d (with_bom b p)) as Hi by (intros u; unfold intake; by rewrite Hd).
  rewrite !Hi, strip_bom_app. pose proof (strip_bom_left (bom p) s) as Hl. pose proof (strip_bom_bad (bom p) s Hb) as Hbad.
  destruct (strip_bom (bom p) s) as [b d]. cbn [fst snd] in *.
  assert (∀ q, (3 <= bom q)%nat → bom q ≠ 255%nat → emits (d ++ t) q = ((intake t (emits d q).1).1, (emits d q).2 ++ (intake t (emits d q).1).2)) as Hq.
  { intros q H3 Hn. rewrite emits_app. destruct (dead (emits d q).1) eqn:Hdq.
    - rewrite emits_dead by done. unfold intake. by rewrite Hdq.
    - by rewrite intake_past by (rewrite ?emits_bom; done). }
  case_bool_decide as E.
  - subst d. destruct (Nat.eqb_spec b 255) as [->|Hb']; [by destruct Hbad|]. cbn [emits fst snd app].
    unfold intake. change (dead (with_bom b p)) with (dead p). rewrite Hd. change (bom (with_bom b p)) with b.
    destruct (strip_bom b t) as [b2 d2]. change (seq (with_bom b p)) with (seq p). change (with_bom b2 (with_bom b p)) with (with_bom b2 p).
    change (with_core (fresh Normal) (with_bom b p)) with (with_bom b (with_core (fresh Normal) p)).
    change (with_bom 3 (with_bom b (with_core (fresh Normal) p))) with (with_bom 3 (with_core (fresh Normal) p)).
    match goal with |- ?X = _ => by destruct X end.
  - specialize (Hl E). destruct (Nat.eqb_spec b 255) as [->|Hb'].
    + destruct (seq p); [by apply Hq|]. cbn [fst snd]. unfold intake. done.
    + by apply Hq.
Qed.

Lemma final_partial b p : final (with_partial b p) = final p.
Proof.
  unfold final, at_end. cbn [dead with_partial with_eof core streaming seq last_ch_was_ws]. destruct (dead p); [done|].
  destruct (bool_decide _); [done|]. destruct (negb _); [done|]. destruct (check_literal _ _) as [c|]; [|done].
  destruct (_ || _); [done|]. destruct (next c) as [v|]; [|done]. destruct (streaming p); [done|].
  by destruct (seq p && negb (last_ch_was_ws p) && is_number (Some v)).
Qed.

(** A piece fed and drained. *)
Lemma drains_feed d lst p : ready p →
  ∃ p', drains (feed d lst p) ((intake d p).2 ++ if lst then final (intake d p).1 else []) p' ∧
    (lst = false → if dead (intake d p).1 then dead p' = true else p' = (intake d p).1 ∧ ready p').
Proof.
  intros (Hp & Hd & Hu & Hpa). pose proof Hp as (Hdead & Heof & Hbom). unfold feed, intake. rewrite Hdead, Hu. cbn [app].
  destruct (strip_bom (bom p) d) as [b e].
  assert (∀ q, live q → drained q → unread q = [] → partial q = true → ∃ p',
    drains (with_partial (negb lst) (with_unread e q)) ((emits e q).2 ++ if lst then final (emits e q).1 else []) p' ∧
    (lst = false → if dead (emits e q).1 then dead p' = true else p' = (emits e q).1 ∧ ready p')) as H.
  { intros q Hq Hdq Huq Hpq. destruct (drains_emits e (with_partial (negb lst) q) Hq Hdq) as (p' & H1 & H2). rewrite emits_partial in H1, H2.
    destruct (emits_ready e q Hq Hdq) as (R1 & R2 & R3 & R4). destruct (emits e q) as [r os]. cbn [fst snd] in *. exists p'. split.
    - change (with_partial (negb lst) (with_unread e q)) with (with_unread e (with_partial (negb lst) q)).
      rewrite final_partial in H1. cbn [partial with_partial] in H1. by destruct lst.
    - intros ->. cbn [negb] in *. assert (with_partial true r = r) as Er by (rewrite Hpq in R4; rewrite <-R4; by destruct r). rewrite Er in H2.
      specialize (H2 eq_refl). destruct (dead r); [done|]. destruct H2 as (-> & H2 & H3).
      rewrite Huq in R3. rewrite (with_unread_same [] r R3) in *. split; [done|]. split_and!; congruence || done. }
  destruct (Nat.eqb_spec b 255) as [->|Hb].
  - destruct (seq p) eqn:Hs.
    + destruct (H (with_bom 3 (with_core (fresh Normal) p))) as (p' & H1 & H2); [done|done|done|done|]. exists p'. split; [|done].
      refine (drains_same _ _ _ _ _ H1). unfold read_next. cbn [eof dead bom seq core streaming unread with_partial with_unread with_bom with_core].
      rewrite Hdead, Heof, Hs. cbn [orb andb negb]. change (255 =? 255)%nat with true. change (3 =? 255)%nat with false. cbn [andb]. done.
    + exists (with_dead (with_partial (negb lst) (with_unread e (with_bom 255 p)))). cbn [fst snd]. split; [|done].
      eapply drains_some.
      * unfold read_next. cbn [eof dead bom seq with_partial with_unread with_bom]. rewrite Hdead, Heof, Hs. done.
      * done.
      * assert ((if lst then final (with_dead (with_bom 255 p)) else []) = []) as -> by (by destruct lst). by apply drains_dead.
  - apply H; [by split_and!|done|done|done].
Qed.

(** The reader as jq starts it: [--seq], and [--stream] maybe with [--stream-errors]. *)
Definition start (sq : bool) (stream : option bool) : Parser :=
  match stream with Some errors => new_streaming sq errors | None => new_parser sq end.

Lemma start_ready sq stream : ready (start sq stream).
Proof. by destruct sq, stream. Qed.

Lemma session_reading pieces p : ready p → ∃ ns, session p pieces ns ∧ ns = reading (mjoin pieces) p.
Proof.
  assert (∀ ds p, dead p = true → session p ds []) as Hdead.
  { induction ds as [|d ds IH]; intros q Hq.
    - apply (session_end q [] (feed [] true q)). apply drains_dead. unfold feed. by destruct (strip_bom (bom q) []).
    - apply (session_piece q d ds [] (feed d false q) []); [|apply IH]; [apply drains_dead|]; unfold feed; by destruct (strip_bom (bom q) d). }
  revert p. induction pieces as [|d ds IH]; intros p Hp.
  - destruct (drains_feed [] true p Hp) as (p' & H & _). unfold reading. cbn [mjoin list_join].
    destruct (intake [] p) as [q o]. cbn [fst snd] in *. eexists. split; [by eapply session_end|done].
  - destruct (drains_feed d false p Hp) as (p' & H & Hq). specialize (Hq eq_refl). rewrite app_nil_r in H.
    pose proof Hp as ((_ & _ & Hb) & _). unfold reading. rewrite mjoin_cons, intake_app by done.
    destruct (intake d p) as [q o]. cbn [fst snd] in *. destruct (dead q) eqn:Hdq.
    + exists (o ++ []). split; [eapply session_piece; [exact H|by apply Hdead]|].
      unfold intake. rewrite Hdq. cbn [fst snd]. unfold final. by rewrite Hdq, !app_nil_r.
    + destruct Hq as [-> Hq]. destruct (IH q Hq) as (ns & Hs & ->). eexists. split; [by eapply session_piece|].
      unfold reading. destruct (intake (mjoin ds) q). cbn [fst snd]. by rewrite app_assoc.
Qed.
Lemma session_unique p pieces ns ns' : session p pieces ns → session p pieces ns' → ns = ns'.
Proof.
  intros H. revert ns'. induction H as [p ns p' H|p d ds ns p' os H Hs IH]; intros ns' H'; inversion H' as [? ? ? H2|? ? ? ? p2 ? H2 Hs2]; subst.
  - by destruct (drains_unique _ _ _ _ _ H H2).
  - destruct (drains_unique _ _ _ _ _ H H2) as [-> ->]. f_equal. by apply IH.
Qed.

(** Without --seq, values come until the end or the first error, which is the last thing said. *)
Definition ends_with_error (ns : list Next) (p : Parser) : Prop :=
  ∃ vs es, ns = (NValue <$> vs) ++ es ∧ (es = [] ∨ dead p = true ∧ ∃ msg, es = [NError msg]).

Lemma emits_errors s p : seq p = false → stream_errors p = false → ends_with_error (emits s p).2 (emits s p).1 ∧
  seq (emits s p).1 = false ∧ stream_errors (emits s p).1 = false.
Proof.
  revert p. induction s as [|ch s IH]; intros p Hs He; cbn [emits]; [split; [by exists [], []; split; [|left]|done]|].
  destruct (dead p); [split; [by exists [], []; split; [|left]|done]|].
  assert (ends_with_error (emit ch p).2 (emit ch p).1 ∧ seq (emit ch p).1 = false ∧ stream_errors (emit ch p).1 = false) as H.
  { unfold emit. destruct (bool_decide _).
    { split; [by exists [], []; split; [|left]|]. unfold advance. destruct (ch =? RS), (ch =? LF); done. }
    pose proof (frame_scan ch p) as Hf. destruct (scan ch p) as [q [v|msg]]; cbn [fst snd] in *; unfold frame in Hf; injection Hf as Hq _ _ _ _ _ Hqe.
    - destruct (flush _ _) as [vs c]. cbn [fst snd seq stream_errors with_core]. split; [|split; congruence].
      exists (option_list v ++ vs), []. rewrite app_nil_r. split; [done|by left].
    - unfold failed, make_error. rewrite Hqe, He, Hq, Hs, andb_false_r. cbn [fst snd]. split; [|split; [exact (eq_trans Hq Hs)|exact (eq_trans Hqe He)]].
      eexists [], _. split; [done|]. right. split; [done|]. by eexists. }
  destruct H as ((vs & es & E & Hes) & H1 & H2). destruct (emit ch p) as [q o]. cbn [fst snd] in *. subst o.
  destruct Hes as [->|(Hdead & msg & ->)].
  - destruct (IH q H1 H2) as ((ws & es & E & Hes) & H3). destruct (emits s q) as [r os]. cbn [fst snd] in *. subst os. split; [|done].
    exists (vs ++ ws), es. by rewrite app_nil_r, fmap_app, <-app_assoc.
  - rewrite emits_dead by done. cbn [fst snd]. rewrite app_nil_r. split; [|done]. eexists vs, _. split; [done|]. right. eauto.
Qed.

Lemma reading_errors s stream : stream ≠ Some true →
  ∃ vs es, reading s (start false stream) = (NValue <$> vs) ++ es ∧ (es = [] ∨ ∃ msg, es = [NError msg]).
Proof.
  intros Hst. set (p := start false stream).
  assert (seq p = false ∧ stream_errors p = false ∧ dead p = false ∧ bom p = 0%nat) as (Hs & He & Hd & Hb) by (by destruct stream as [[]|]).
  unfold reading, intake. rewrite Hd, Hs, Hb. destruct (strip_bom 0 s) as [b d]. destruct (b =? 255)%nat.
  - exists []. eexists. split; [by rewrite app_nil_r|]. right. by eexists.
  - destruct (emits_errors d (with_bom b p) Hs He) as ((vs & es & E & Hes) & H1 & H2). destruct (emits d (with_bom b p)) as [q o]. cbn [fst snd] in *. subst o.
    unfold final. destruct (dead q) eqn:Hq.
    + exists vs, es. rewrite app_nil_r. split; [done|]. destruct Hes as [->|(_ & ?)]; auto.
    + destruct Hes as [->|(? & _)]; [|done]. rewrite app_nil_r.
      destruct (at_end q).2 as [v|msg|] eqn:Ea; [exists (vs ++ [v]), []; rewrite fmap_app, app_nil_r; auto|eexists vs, _; split; [done|]; eauto|exists vs, []; auto].
Qed.

(** C9: jq's reader does not depend on how its input arrives: fed in any pieces and asked for values until there is
    nothing after each, it always comes to an end, and what it has said, values, events and errors with their
    lines and columns, is what it says of the whole, with --seq, --stream and --stream-errors or without.
    Without --seq (or --stream-errors) an error is the last thing it says. *)
Theorem jq_reader_incremental sq stream pieces :
  (∃ ns, session (start sq stream) pieces ns) ∧
  (∀ ns, session (start sq stream) pieces ns → ns = reading (mjoin pieces) (start sq stream)) ∧
  (sq = false → stream ≠ Some true →
    ∃ vs es, reading (mjoin pieces) (start sq stream) = (NValue <$> vs) ++ es ∧ (es = [] ∨ ∃ msg, es = [NError msg])).
Proof.
  destruct (session_reading pieces _ (start_ready sq stream)) as (ns & H & E). split_and!.
  - by exists ns.
  - intros ns' H'. rewrite <-E. by eapply session_unique.
  - intros ->. apply reading_errors.
Qed.

Lemma jq_reader_incremental_witness :
  session (start false None) [lit "[1, tr"; lit "ue] 2"] [NValue (Arr [Number (default (num_f fzero) (from_literal (lit "1"))); Bool true]);
    NValue (Number (default (num_f fzero) (from_literal (lit "2"))))].
Proof.
  destruct (jq_reader_incremental false None [lit "[1, tr"; lit "ue] 2"]) as ((ns & H) & Heq & _).
  pose proof (Heq ns H) as E. vm_compute in E. subst ns. exact H.
Defined.
