(* ===== verification/JqRoundtrip.v ===== *)
(** * jq's printer and reader: what is printed is read back

    [run] is the reader's core over a text in which nothing is wrong; the lemmas below say what it does with each
    thing the printer writes. *)
From stdpp Require Import strings.
From S2P Require Import Prelude Str Float JqValue JqOrder JqFloat JqReader JqProofs.

Local Open Scope Z_scope.

(** ** The core on a text *)

Definition core_step (sg : bool) (ch : Z) (c : Core) : result str (option Value * Core) :=
  if bool_decide (st c = Normal) then scan_normal sg ch c else scan_string sg ch c.

(** What is given out, and the core after; nothing when something is wrong. *)
Fixpoint run (sg : bool) (s : str) (c : Core) : option (list Value * Core) :=
  match s with
  | [] => Some ([], c)
  | ch :: s =>
      if bool_decide (st c = WaitRs) then None
      else match core_step sg ch c with
           | Err _ => None
           | Ok (v, c) =>
               let '(vs, c) := flush sg c in
               '(ws, c) ← run sg s c; Some (option_list v ++ vs ++ ws, c)
           end
  end.

Lemma run_app sg s t c vs c' ws c'' : run sg s c = Some (vs, c') → run sg t c' = Some (ws, c'') → run sg (s ++ t) c = Some (vs ++ ws, c'').
Proof.
  revert c vs. induction s as [|ch s IH]; intros c vs; cbn [app run]; [by intros [= <- <-]|].
  destruct (bool_decide _); [done|]. destruct (core_step sg ch c) as [[v c1]|]; [|done]. destruct (flush sg c1) as [os c2].
  destruct (run sg s c2) as [[vs' c3]|] eqn:E; [|done]. cbn. intros [= <- <-] Ht. rewrite (IH c2 vs' E Ht). cbn. by rewrite <-!app_assoc.
Qed.
Lemma run_one sg ch c v c' : st c ≠ WaitRs → core_step sg ch c = Ok (v, c') →
  run sg [ch] c = Some (option_list v ++ (flush sg c').1, (flush sg c').2).
Proof.
  intros Hc E. cbn [run]. rewrite bool_decide_eq_false_2, E by done. destruct (flush sg c') as [vs c2]. cbn. by rewrite app_nil_r.
Qed.

(** The reader's bytes are the core's. *)
Lemma emits_run s p vs c : seq p = false → dead p = false → run (streaming p) s (core p) = Some (vs, c) →
  ∃ q, emits s p = (q, NValue <$> vs) ∧ core q = c ∧ seq q = false ∧ dead q = false ∧ streaming q = streaming p.
Proof.
  revert p vs. induction s as [|ch s IH]; intros p vs Hs Hd; cbn [emits run]; [intros [= <- <-]; by exists p|].
  rewrite Hd. destruct (bool_decide (st (core p) = WaitRs)) eqn:Ew; [done|]. unfold emit. rewrite Ew.
  pose proof (frame_scan ch p) as Hf. unfold scan in *.
  assert (core (advance ch p) = core p ∧ streaming (advance ch p) = streaming p ∧ seq (advance ch p) = seq p) as (Ec & Est & Esq)
    by (unfold advance; by destruct (ch =? LF)).
  rewrite Ec, Est, Esq, Hs in *. cbn [andb] in *. unfold core_step. destruct (bool_decide (st (core p) = Normal)) eqn:En.
  - destruct (scan_normal (streaming p) ch (core p)) as [[v c1]|]; [|done]. cbn [fst streaming with_core with_ws core] in *.
    unfold frame in Hf. injection Hf as H1 _ _ _ H2 H3 _. rewrite H3. destruct (flush (streaming p) c1) as [os c2].
    destruct (run (streaming p) s c2) as [[ws c3]|] eqn:E; [|done]. cbn. intros [= <- <-].
    destruct (IH (with_core c2 (with_core c1 (with_ws (bool_decide (classify ch = Whitespace)) (advance ch p)))) ws) as (q & -> & ? & ? & ? & ?); [exact (eq_trans H1 Hs)|exact (eq_trans H2 Hd)|cbn; by rewrite H3|].
    exists q. split_and!; try done; [|cbn in *; congruence]. f_equal. by rewrite !fmap_app, app_assoc.
  - destruct (scan_string (streaming p) ch (core p)) as [[v c1]|]; [|done]. cbn [fst streaming with_core with_ws core] in *.
    unfold frame in Hf. injection Hf as H1 _ _ _ H2 H3 _. rewrite H3. destruct (flush (streaming p) c1) as [os c2].
    destruct (run (streaming p) s c2) as [[ws c3]|] eqn:E; [|done]. cbn. intros [= <- <-].
    destruct (IH (with_core c2 (with_core c1 (with_ws false (advance ch p)))) ws) as (q & -> & ? & ? & ? & ?); [exact (eq_trans H1 Hs)|exact (eq_trans H2 Hd)|cbn; by rewrite H3|].
    exists q. split_and!; try done; [|cbn in *; congruence]. f_equal. by rewrite !fmap_app, app_assoc.
Qed.

(** [parse_one] by what the reader says. *)
Lemma parse_one_reading s : parse_one s =
  match reading s (start false None) with
  | NValue v :: NValue _ :: _ => Err (lit "Unexpected extra JSON values")
  | NValue v :: NError e :: _ => Err e
  | NValue v :: _ => Ok v
  | NError e :: _ => Err e
  | _ => Err (lit "Expected JSON value")
  end.
Proof.
  destruct (drains_feed s true _ (start_ready false None)) as (p' & H & _). unfold reading.
  destruct (intake s (start false None)) as [q o]. cbn [fst snd] in H. unfold parse_one. change (new_parser false) with (start false None).
  revert H. generalize (o ++ final q). intros said H.
  inversion H as [? ? E|? n p1 ns ? E Hn Hd]; subst; rewrite E; [done|].
  inversion Hd as [? ? E1|? n1 p2 ns1 ? E1 Hn1 Hd1]; subst; rewrite E1; cbn [snd]; [by destruct n|]. by destruct n, n1.
Qed.

(** ** Bytes that are only collected *)

(** A core that has nothing to give out. *)
Definition idle (sg : bool) (c : Core) : Prop := (done_ sg c).1 = None.

Lemma set_token_same c : set_token (token c) c = c.
Proof. by destruct c. Qed.
Lemma set_token_twice t u c : set_token t (set_token u c) = set_token t c.
Proof. done. Qed.
Lemma idle_done sg c : idle sg c → done_ sg c = (None, c).
Proof.
  unfold idle, done_. destruct sg.
  - destruct (stream_done c) as [v c'] eqn:E. cbn [fst]. intros ->. by apply stream_done_none in E as ->.
  - destruct c as [s nx tk x pt ls out]. cbn. destruct s; cbn; [by intros ->|done].
Qed.
Lemma idle_flush sg c : idle sg c → flush sg c = ([], c).
Proof.
  intros Hi. unfold flush. destruct sg; [|done]. apply idle_done in Hi. unfold done_ in Hi. cbn [flush_events]. by rewrite Hi.
Qed.
Lemma idle_same sg s t c : idle sg c → idle sg (set_st s (set_token t c)).
Proof. unfold idle, done_. destruct sg; [by rewrite stream_done_same|]. by destruct c as [[] ? ? ? ? ? ?]. Qed.
Lemma idle_token sg t c : idle sg c → idle sg (set_token t c).
Proof. intros Hi. apply (idle_same sg (st c) t) in Hi. by destruct c. Qed.
Lemma idle_st sg s c : idle sg c → idle sg (set_st s c).
Proof. intros Hi. apply (idle_same sg s (token c)) in Hi. by destruct c. Qed.

Lemma run_quiet sg ch c c' : st c ≠ WaitRs → core_step sg ch c = Ok (None, c') → idle sg c' → run sg [ch] c = Some ([], c').
Proof. intros Hw Hs Hi. rewrite (run_one _ _ _ _ _ Hw Hs), idle_flush by done. done. Qed.

(** Bytes of a literal. *)
Lemma run_literal sg t c : Forall (λ b, classify b = Literal) t → st c = Normal → idle sg c →
  run sg t c = Some ([], set_token (token c ++ t) c).
Proof.
  intros Ht Hn Hi. revert c Hn Hi. induction Ht as [|b t Hb _ IH]; intros c Hn Hi; [by rewrite app_nil_r, set_token_same|].
  change (b :: t) with ([b] ++ t). assert (run sg [b] c = Some ([], set_token (token c ++ [b]) c)) as E.
  { apply run_quiet; [by rewrite Hn| |by apply idle_token]. unfold core_step. rewrite bool_decide_eq_true_2 by done.
    unfold scan_normal. rewrite Hb, bool_decide_eq_true_2 by done. cbn [mbind result_bind done_if].
    by rewrite idle_done by by apply idle_token. }
  pose proof (IH (set_token (token c ++ [b]) c) Hn (idle_token _ _ _ Hi)) as E2.
  rewrite (run_app _ _ _ _ _ _ _ _ E E2). cbn [token set_token]. by rewrite <-app_assoc.
Qed.

(** Bytes within a string: a quote does not end it there. *)
Definition in_string (t : str) : Prop := ∀ sg c, st c = InStr → idle sg c → run sg t c = Some ([], set_token (token c ++ t) c).

Lemma in_string_nil : in_string [].
Proof. intros sg c _ _. by rewrite app_nil_r, set_token_same. Qed.
Lemma in_string_app s t : in_string s → in_string t → in_string (s ++ t).
Proof.
  intros Hs Ht sg c Hc Hi. pose proof (Ht sg (set_token (token c ++ s) c) Hc (idle_token _ _ _ Hi)) as E.
  rewrite (run_app _ _ _ _ _ _ _ _ (Hs sg c Hc Hi) E). cbn [token set_token]. by rewrite <-app_assoc.
Qed.
Lemma in_string_step sg b c s : st c ≠ WaitRs → st c ≠ Normal → (b =? 34) && bool_decide (st c = InStr) = false →
  (if (b =? BACKSLASH) && bool_decide (st c = InStr) then StrEscape else InStr) = s → idle sg c →
  run sg [b] c = Some ([], set_st s (set_token (token c ++ [b]) c)).
Proof.
  intros Hw Hn Hq Hs Hi. apply run_quiet; [done| |by apply idle_same]. unfold core_step. rewrite bool_decide_eq_false_2 by done.
  unfold scan_string. by rewrite Hq, Hs.
Qed.
Lemma in_string_raw b : b ≠ 34 → b ≠ BACKSLASH → in_string [b].
Proof.
  intros Hq Hb sg c Hc Hi. rewrite (in_string_step sg b c InStr); try done; rewrite ?Hc, ?(proj2 (Z.eqb_neq b _)) by done; try done.
  do 2 f_equal. unfold set_st, set_token. by rewrite <-Hc.
Qed.
Lemma in_string_escape b : in_string [BACKSLASH; b].
Proof.
  intros sg c Hc Hi. pose proof (in_string_step sg BACKSLASH c StrEscape) as E1. rewrite Hc in E1. specialize (E1 ltac:(done) ltac:(done) eq_refl eq_refl Hi).
  pose proof (in_string_step sg b (set_st StrEscape (set_token (token c ++ [BACKSLASH]) c)) InStr ltac:(done) ltac:(done)) as E2.
  cbn [st set_st] in E2. rewrite !(bool_decide_eq_false_2 (StrEscape = InStr)), !andb_false_r in E2 by done.
  specialize (E2 eq_refl eq_refl (idle_same _ _ _ _ Hi)).
  change [BACKSLASH; b] with ([BACKSLASH] ++ [b]). rewrite (run_app _ _ _ _ _ _ _ _ E1 E2). do 2 f_equal.
  unfold set_st, set_token. cbn. by rewrite <-app_assoc, <-Hc.
Qed.
Lemma in_string_raws t : Forall (λ b, b ≠ 34 ∧ b ≠ BACKSLASH) t → in_string t.
Proof.
  induction 1 as [|b t [H1 H2] _ IH]; [apply in_string_nil|]. apply (in_string_app [b]); [by apply in_string_raw|done].
Qed.

(** ** Characters of a string *)

(** A character's code point. *)
Definition scalar (cp : Z) : Prop := 0 <= cp <= 1114111 ∧ ¬ 55296 <= cp <= 57343.

Lemma encode_point cp : scalar cp → code_point (encode_utf8 cp) = cp.
Proof.
  intros [H _]. unfold encode_utf8. destruct (Z.ltb_spec cp 128); [done|]. destruct (Z.ltb_spec cp 2048); [cbn; Z.div_mod_to_equations; lia|].
  destruct (Z.ltb_spec cp 65536); cbn; Z.div_mod_to_equations; lia.
Qed.
Lemma encode_high cp : 128 <= cp → scalar cp → Forall (λ b, 128 <= b) (encode_utf8 cp).
Proof.
  intros Hc [H _]. unfold encode_utf8. rewrite (proj2 (Z.ltb_ge cp 128)) by done. destruct (Z.ltb_spec cp 2048); [|destruct (Z.ltb_spec cp 65536)];
    repeat constructor; Z.div_mod_to_equations; lia.
Qed.

(** Valid text is made of characters. *)
Lemma utf8_valid_skip n s : (n ≤ length s)%nat → utf8_valid_from n s = utf8_valid (drop n s).
Proof. revert s. induction n as [|n IH]; intros [|b s] Hn; simpl in *; [done|done|lia|]. apply IH. lia. Qed.

Lemma utf8_first s : s ≠ [] → utf8_valid s = true → wf_bytes s →
  ∃ cp t, s = encode_utf8 cp ++ t ∧ scalar cp ∧ utf8_valid t = true.
Proof.
  intros Hne Hv Hw. destruct s as [|b s]; [done|]. clear Hne. unfold utf8_valid in Hv. cbn [utf8_valid_from] in Hv. apply Forall_cons in Hw as [Hb Hw].
  unfold is_byte in Hb. revert Hv. unfold utf8_next, second_range, in_range, is_continuation. change (byte_at (b :: s) 0) with b.
  destruct (Z.ltb_spec b 128) as [H1|H1].
  { intros Hv. exists b, s. unfold encode_utf8. rewrite (proj2 (Z.ltb_lt _ _)) by done. split_and!; [done|split; lia|exact Hv]. }
  assert (∀ i, byte_at (b :: s) (S i) = byte_at s i) as Hat by done. rewrite !Hat. clear Hat.
  destruct ((0xc2 <=? b) && (b <=? 0xdf)) eqn:E2; [|destruct ((0xe0 <=? b) && (b <=? 0xef)) eqn:E3; [|destruct ((0xf0 <=? b) && (b <=? 0xf4)) eqn:E4; [|done]]].
  - destruct s as [|b1 s]; [done|]. change (byte_at (b1 :: s) 0) with b1. destruct ((128 <=? b1) && (b1 <? 192)) eqn:C1; [|done].
    cbn [utf8_valid_from Nat.sub]. intros Hv. exists ((b - 192) * 64 + (b1 - 128)), s. split_and!; [|split; lia|exact Hv].
    unfold encode_utf8. rewrite (proj2 (Z.ltb_ge _ 128)), (proj2 (Z.ltb_lt _ 2048)) by lia. cbn [app]. repeat f_equal; Z.div_mod_to_equations; lia.
  - destruct s as [|b1 [|b2 s]]; [repeat case_match; try done; lia|repeat case_match; try done; lia|].
    change (byte_at (b1 :: b2 :: s) 0) with b1. change (byte_at (b1 :: b2 :: s) 1) with b2.
    match goal with |- context [if negb ?x then Str.Invalid 1 else _] => destruct x eqn:C1 end; [|done]. cbn [negb].
    destruct ((128 <=? b2) && (b2 <? 192)) eqn:C2; [|done].
    cbn [utf8_valid_from Nat.sub]. intros Hv. exists (((b - 224) * 64 + (b1 - 128)) * 64 + (b2 - 128)), s.
    assert (128 <= b1 <= 191 ∧ (b = 224 → 160 <= b1) ∧ (b = 237 → b1 <= 159)) as (R1 & R2 & R3).
    { destruct (Z.eqb_spec b 0xe0), (Z.eqb_spec b 0xed), (Z.eqb_spec b 0xf0), (Z.eqb_spec b 0xf4); lia. }
    split_and!; [|split; lia|exact Hv]. unfold encode_utf8.
    rewrite (proj2 (Z.ltb_ge _ 128)), (proj2 (Z.ltb_ge _ 2048)), (proj2 (Z.ltb_lt _ 65536)) by lia. cbn [app]. repeat f_equal; Z.div_mod_to_equations; lia.
  - destruct s as [|b1 [|b2 [|b3 s]]]; [repeat case_match; try done; lia|repeat case_match; try done; lia|repeat case_match; try done; lia|].
    change (byte_at (b1 :: b2 :: b3 :: s) 0) with b1. change (byte_at (b1 :: b2 :: b3 :: s) 1) with b2. change (byte_at (b1 :: b2 :: b3 :: s) 2) with b3.
    match goal with |- context [if negb ?x then Str.Invalid 1 else _] => destruct x eqn:C1 end; [|done]. cbn [negb].
    destruct ((128 <=? b2) && (b2 <? 192)) eqn:C2; [|done]. destruct ((128 <=? b3) && (b3 <? 192)) eqn:C3; [|done]. cbn [utf8_valid_from Nat.sub]. intros Hv.
    exists ((((b - 240) * 64 + (b1 - 128)) * 64 + (b2 - 128)) * 64 + (b3 - 128)), s.
    assert (128 <= b1 <= 191 ∧ (b = 240 → 144 <= b1) ∧ (b = 244 → b1 <= 143)) as (R1 & R2 & R3).
    { destruct (Z.eqb_spec b 0xe0), (Z.eqb_spec b 0xed), (Z.eqb_spec b 0xf0), (Z.eqb_spec b 0xf4); lia. }
    split_and!; [|split; lia|exact Hv]. unfold encode_utf8.
    rewrite (proj2 (Z.ltb_ge _ 128)), (proj2 (Z.ltb_ge _ 2048)), (proj2 (Z.ltb_ge _ 65536)) by lia. cbn [app]. repeat f_equal; Z.div_mod_to_equations; lia.
Qed.

Lemma encode_start cp : scalar cp → encode_utf8 cp ≠ [] ∧ starts_char (encode_utf8 cp) ∧ chars (encode_utf8 cp) = [encode_utf8 cp].
Proof.
  intros [H _]. unfold encode_utf8.
  assert (∀ x, 0 <= x < 64 → is_continuation (128 + x) = true) as Hc by (intros x Hx; unfold is_continuation; lia).
  destruct (Z.ltb_spec cp 128); [|destruct (Z.ltb_spec cp 2048); [|destruct (Z.ltb_spec cp 65536)]]; (split_and!; [done| |]).
  1, 3, 5, 7: intros b [= <-]; unfold is_continuation; Z.div_mod_to_equations; lia.
  all: cbn [chars]; rewrite ?Hc by (Z.div_mod_to_equations; lia); done.
Qed.

(** Text as code points. *)
Definition text (cps : list Z) : str := mjoin (encode_utf8 <$> cps).
Lemma text_start cps : Forall scalar cps → starts_char (text cps).
Proof.
  destruct 1 as [|cp cps Hcp _]; [done|]. destruct (encode_start cp Hcp) as (H1 & H2 & _).
  unfold text. rewrite fmap_cons, mjoin_cons. by apply starts_char_app.
Qed.
Lemma text_chars cps : Forall scalar cps → chars (text cps) = encode_utf8 <$> cps.
Proof.
  induction 1 as [|cp cps Hcp Hcps IH]; [done|]. destruct (encode_start cp Hcp) as (_ & _ & E).
  unfold text in *. rewrite fmap_cons, mjoin_cons, chars_app, E, IH by by apply text_start. done.
Qed.
Lemma valid_text s : utf8_valid s = true → wf_bytes s → ∃ cps, s = text cps ∧ Forall scalar cps.
Proof.
  remember (length s) as n eqn:Hn. revert s Hn. induction (lt_wf n) as [n _ IH]. intros s -> Hv Hw.
  destruct (decide (s = [])) as [->|Hne]; [by exists []|]. destruct (utf8_first s Hne Hv Hw) as (cp & t & -> & Hcp & Ht).
  destruct (encode_start cp Hcp) as (He & _ & _). apply wf_app in Hw as [_ Hw].
  destruct (IH (length t)) with (s := t) as (cps & -> & Hcps); [rewrite length_app; destruct (encode_utf8 cp); [done|simpl; lia]|done|done|done|].
  exists (cp :: cps). split; [done|by constructor].
Qed.

(** ** Escapes *)

Lemma unescape_fuel f1 f2 t : (length t ≤ f1)%nat → (length t ≤ f2)%nat → unescape f1 t = unescape f2 t.
Proof.
  revert f2 t. induction f1 as [|f1 IH]; intros [|f2] [|ch t] H1 H2; simpl in H1, H2; try done; try lia. cbn [unescape].
  destruct (ch =? BACKSLASH).
  - destruct t as [|e t]; [done|]. simpl in H1, H2. destruct (letter_escape e); [by rewrite (IH f2 t) by lia|]. destruct (e =? chr "u"); [|done].
    destruct (unicode_escape t) as [[cp n]|]; [|done]. cbn [mbind result_bind]. by rewrite (IH f2 (drop n t)) by (rewrite length_drop; lia).
  - by rewrite (IH f2 t) by lia.
Qed.
Definition unesc (t : str) : result str str := unescape (length t) t.
Lemma unesc_unfold f t : (length t ≤ f)%nat → unescape f t = unesc t.
Proof. intros H. by apply unescape_fuel. Qed.

Lemma unesc_raw b t : b ≠ BACKSLASH → 32 <= b → unesc (b :: t) = (out ← unesc t; Ok (b :: out)).
Proof. intros H1 H2. unfold unesc. cbn [length unescape]. by rewrite (proj2 (Z.eqb_neq _ _) H1), (proj2 (Z.ltb_ge _ _) H2). Qed.
Lemma unesc_raws s t : Forall (λ b, b ≠ BACKSLASH ∧ 32 <= b) s → unesc (s ++ t) = (out ← unesc t; Ok (s ++ out)).
Proof.
  induction 1 as [|b s [H1 H2] _ IH]; cbn [app]; [by destruct (unesc t)|]. rewrite unesc_raw, IH by done. by destruct (unesc t).
Qed.

(** The escapes of one letter. *)
Lemma unesc_escape e t : unesc (BACKSLASH :: e :: t) =
  match letter_escape e with
  | Some b => out ← unesc t; Ok (b :: out)
  | None =>
      if e =? chr "u" then
        '(cp, n) ← unicode_escape t; out ← unesc (drop n t); Ok (encode_utf8 (char_of cp) ++ out)
      else Err (lit "Invalid escape")
  end.
Proof.
  transitivity (match letter_escape e with
    | Some b => out ← unescape (S (length t)) t; Ok (b :: out)
    | None => if e =? chr "u" then '(cp, n) ← unicode_escape t; out ← unescape (S (length t)) (drop n t); Ok (encode_utf8 (char_of cp) ++ out)
              else Err (lit "Invalid escape") end); [done|].
  rewrite unesc_unfold by lia. destruct (letter_escape e); [done|]. destruct (_ =? _); [|done]. destruct (unicode_escape t) as [[cp n]|]; [|done].
  cbn [mbind result_bind]. by rewrite unesc_unfold by (rewrite length_drop; lia).
Qed.

Definition hex4 (n : Z) : str := [hex_char (n / 4096 mod 16); hex_char (n / 256 mod 16); hex_char (n / 16 mod 16); hex_char (n mod 16)].
Lemma u4_hex4 n : u4 n = BACKSLASH :: chr "u" :: hex4 n.
Proof. done. Qed.
Lemma unhex_hex4 n : 0 <= n < 65536 → unhex4 (hex4 n) = Some n.
Proof.
  intros Hn. unfold unhex4, hex4.
  assert (∀ acc d h, 0 <= acc → 0 <= d < 16 → unhex acc (hex_char d :: h) = unhex (acc * 16 + d) h) as H.
  { intros acc d h Ha Hd. cbn [unhex]. rewrite hex_char_digit by done. cbn. f_equal. rewrite Z.shiftl_mul_pow2 by lia. by rewrite (lor_above acc d 4) by lia. }
  rewrite !H by (Z.div_mod_to_equations; lia). cbn [unhex]. f_equal. Z.div_mod_to_equations. lia.
Qed.
Lemma hex4_raw n : Forall (λ b, b ≠ 34 ∧ b ≠ BACKSLASH) (hex4 n).
Proof.
  unfold hex4, BACKSLASH. assert (∀ x, hex_char (x mod 16) ≠ 34 ∧ hex_char (x mod 16) ≠ 92) as H.
  { intros x. pose proof (Z.mod_pos_bound x 16 ltac:(lia)). unfold hex_char. destruct (Z.ltb_spec (x mod 16) 10); lia. }
  repeat constructor; apply H.
Qed.

Lemma unesc_u4 n t : 0 <= n < 65536 → ¬ 55296 <= n <= 57343 → unesc (u4 n ++ t) = (out ← unesc t; Ok (encode_utf8 n ++ out)).
Proof.
  intros Hn Hs. rewrite u4_hex4. cbn [app]. rewrite unesc_escape. change (letter_escape (chr "u")) with (@None Z). change (chr "u" =? chr "u") with true. cbv iota.
  assert (unicode_escape (hex4 n ++ t) = Ok (n, 4%nat)) as ->.
  { unfold unicode_escape. change (take 4 (hex4 n ++ t)) with (hex4 n). rewrite unhex_hex4 by done. cbn [length app hex4 Nat.ltb Nat.leb ok_or mbind result_bind].
    assert (in_range 55296 56319 n = false) as -> by (unfold in_range; lia). done. }
  cbn [mbind result_bind]. change (drop 4 (hex4 n ++ t)) with t.
  assert (char_of n = n) as -> by (unfold char_of, in_range; destruct (_ || _) eqn:Ec; [lia|done]). done.
Qed.

Lemma unesc_pair cp t : 65536 <= cp → scalar cp → unesc (mjoin (u4 <$> encode_utf16 cp) ++ t) = (out ← unesc t; Ok (encode_utf8 cp ++ out)).
Proof.
  intros Hcp [Hr _]. unfold encode_utf16. rewrite (proj2 (Z.ltb_ge _ _)) by done. cbn [fmap list_fmap mjoin list_join]. rewrite app_nil_r.
  set (hi := 55296 + (cp - 65536) / 1024). set (lo := 56320 + (cp - 65536) mod 1024).
  assert (55296 <= hi <= 56319) as Hhi by (unfold hi; Z.div_mod_to_equations; lia).
  assert (56320 <= lo <= 57343) as Hlo by (unfold lo; Z.div_mod_to_equations; lia).
  rewrite u4_hex4. cbn [app]. rewrite unesc_escape. change (letter_escape (chr "u")) with (@None Z). change (chr "u" =? chr "u") with true. cbv iota.
  rewrite u4_hex4. cbn [app].
  assert (unicode_escape (hex4 hi ++ BACKSLASH :: chr "u" :: hex4 lo ++ t) = Ok (cp, 10%nat)) as E.
  { unfold unicode_escape. change (take 4 (hex4 hi ++ ?x)) with (hex4 hi). rewrite unhex_hex4 by lia.
    change (drop 4 (hex4 hi ++ ?x)) with x. change (take 4 (drop 2 (BACKSLASH :: chr "u" :: hex4 lo ++ t))) with (hex4 lo).
    rewrite unhex_hex4 by lia. change (default 0 (Some lo)) with lo. cbn [length app hex4 Nat.ltb Nat.leb ok_or mbind result_bind].
    assert (in_range 55296 56319 hi = true) as -> by (unfold in_range; lia).
    assert (in_range 56320 57343 lo = true) as -> by (unfold in_range; lia).
    rewrite bool_decide_eq_true_2 by done. cbn [negb orb]. f_equal. f_equal.
    rewrite Z.shiftl_mul_pow2, (lor_above _ _ 10) by lia. unfold hi, lo. change (2 ^ 10) with 1024. Z.div_mod_to_equations. lia. }
  rewrite <-app_assoc. cbn [app]. rewrite E. cbn [mbind result_bind]. change (drop 10 (hex4 hi ++ BACKSLASH :: chr "u" :: hex4 lo ++ t)) with t.
  assert (char_of cp = cp) as -> by (unfold char_of, in_range; destruct (_ || _) eqn:Ec; [lia|done]). done.
Qed.

(** What the printer makes of a character. *)
Inductive dumped (cp : Z) : str → Prop :=
  | dumped_letter e : (e, cp) ∈ [(34, 34); (BACKSLASH, BACKSLASH); (chr "b", 8); (chr "f", 12); (chr "t", 9); (chr "n", 10); (chr "r", 13)] →
      dumped cp [BACKSLASH; e]
  | dumped_u4 : cp < 65536 → dumped cp (u4 cp)
  | dumped_pair : 65536 <= cp → dumped cp (mjoin (u4 <$> encode_utf16 cp))
  | dumped_raw : 32 <= cp → cp ≠ 34 → cp ≠ BACKSLASH → dumped cp (encode_utf8 cp).

Lemma dump_char_dumped a cp : scalar cp → dumped cp (dump_char a (encode_utf8 cp)).
Proof.
  intros Hcp. unfold dump_char. rewrite encode_point by done.
  destruct (Z.eqb_spec cp 34) as [->|]; [apply (dumped_letter 34 34); set_solver|].
  destruct (Z.eqb_spec cp BACKSLASH) as [->|]; [apply (dumped_letter BACKSLASH BACKSLASH); set_solver|].
  destruct (Z.eqb_spec cp 10) as [->|]; [apply (dumped_letter 10 (chr "n")); set_solver|].
  destruct (Z.eqb_spec cp 9) as [->|]; [apply (dumped_letter 9 (chr "t")); set_solver|].
  destruct (Z.eqb_spec cp 13) as [->|]; [apply (dumped_letter 13 (chr "r")); set_solver|].
  destruct (Z.eqb_spec cp 8) as [->|]; [apply (dumped_letter 8 (chr "b")); set_solver|].
  destruct (Z.eqb_spec cp 12) as [->|]; [apply (dumped_letter 12 (chr "f")); set_solver|].
  destruct ((cp <? 32) || (cp =? 127)) eqn:E1; [apply dumped_u4; lia|].
  destruct (a && (126 <? cp)); [|apply dumped_raw; lia]. destruct (Z.lt_ge_cases cp 65536); [|by apply dumped_pair].
  unfold encode_utf16. rewrite (proj2 (Z.ltb_lt _ _)) by done. cbn [fmap list_fmap mjoin list_join]. rewrite app_nil_r. by apply dumped_u4.
Qed.

Lemma dumped_read cp s t : scalar cp → dumped cp s → unesc (s ++ t) = (out ← unesc t; Ok (encode_utf8 cp ++ out)).
Proof.
  intros Hcp [e He|Hlt|Hge|H32 Hq Hb].
  - cbn [app]. rewrite unesc_escape. assert (letter_escape e = Some cp ∧ encode_utf8 cp = [cp]) as [-> ->]; [|done].
    repeat (apply elem_of_cons in He as [[= -> ->]|He]; [done|]). by apply not_elem_of_nil in He.
  - destruct Hcp as [Hr Hs]. apply unesc_u4; [lia|done].
  - by apply unesc_pair.
  - apply unesc_raws. destruct (Z.lt_ge_cases cp 128).
    + unfold encode_utf8. rewrite (proj2 (Z.ltb_lt _ _)) by done. by apply Forall_singleton.
    + eapply Forall_impl; [by apply encode_high|]. intros b Hb'. simpl in Hb'. unfold BACKSLASH. lia.
Qed.
Lemma dumped_string cp s : scalar cp → dumped cp s → in_string s.
Proof.
  assert (∀ n, in_string (u4 n)) as Hu4.
  { intros n. rewrite u4_hex4. apply (in_string_app [BACKSLASH; chr "u"]); [apply in_string_escape|apply in_string_raws, hex4_raw]. }
  intros Hcp [e He|Hlt|Hge|H32 Hq Hb].
  - apply in_string_escape.
  - apply Hu4.
  - unfold encode_utf16. rewrite (proj2 (Z.ltb_ge _ _)) by done. cbn [fmap list_fmap mjoin list_join]. apply in_string_app; [apply Hu4|].
    apply in_string_app; [apply Hu4|apply in_string_nil].
  - apply in_string_raws. destruct (Z.lt_ge_cases cp 128).
    + unfold encode_utf8. rewrite (proj2 (Z.ltb_lt _ _)) by done. by apply Forall_singleton.
    + eapply Forall_impl; [by apply encode_high|]. intros b Hb'. simpl in Hb'. unfold BACKSLASH. lia.
Qed.

(** The text between the quotes. *)
Definition string_body (a : bool) (s : str) : str := mjoin (dump_char a <$> chars s).
Lemma body_read a cps : Forall scalar cps → unesc (string_body a (text cps)) = Ok (text cps) ∧ in_string (string_body a (text cps)).
Proof.
  intros Hc. unfold string_body. rewrite text_chars by done. induction Hc as [|cp cps Hcp _ [IH1 IH2]]; [split; [done|apply in_string_nil]|].
  rewrite !fmap_cons, mjoin_cons. pose proof (dump_char_dumped a cp Hcp) as Hd. split.
  - rewrite (dumped_read cp), IH1 by done. done.
  - apply in_string_app; [by eapply dumped_string|done].
Qed.

(** ** Strings *)

Lemma take_value_st sg v s c : take_value sg v (set_st s c) = (c ← take_value sg v c; Ok (set_st s c)).
Proof. unfold take_value. cbn [next last_seen path set_st]. destruct sg; by repeat case_bool_decide. Qed.

(** A printed string is taken as a value. *)
Definition text_ok (s : str) : Prop := utf8_valid s = true ∧ wf_bytes s.

Lemma run_string sg a s c c1 : text_ok s → st c = Normal → token c = [] → idle sg c → take_value sg (Str s) c = Ok c1 →
  run sg (dump_string s a) c = Some (option_list (done_ sg c1).1 ++ (flush sg (done_ sg c1).2).1, (flush sg (done_ sg c1).2).2).
Proof.
  intros [Hv Hw] Hn Ht Hi Hval. destruct (valid_text s Hv Hw) as (cps & Es & Hcps). destruct (body_read a cps Hcps) as [Hread Hin].
  rewrite <-Es in *. set (body := string_body a s) in *.
  assert (run sg [34] c = Some ([], set_st InStr c)) as E1.
  { apply run_quiet; [by rewrite Hn| |by apply idle_st]. unfold core_step. rewrite bool_decide_eq_true_2 by done.
    unfold scan_normal. change (classify 34) with Quote. rewrite bool_decide_eq_false_2 by done.
    unfold check_literal. rewrite Ht, bool_decide_eq_true_2 by done. cbn [mbind result_bind]. rewrite idle_done by done. cbn [mbind result_bind done_if].
    by rewrite idle_done by by apply idle_st. }
  pose proof (Hin sg (set_st InStr c) eq_refl (idle_st _ _ _ Hi)) as E2. cbn [token set_st] in E2. rewrite Ht, app_nil_l in E2.
  set (c2 := set_token body (set_st InStr c)) in *.
  assert (core_step sg 34 c2 = Ok (done_ sg c1)) as E3.
  { unfold core_step. rewrite bool_decide_eq_false_2 by done. unfold scan_string. change ((34 =? 34) && bool_decide (st c2 = InStr)) with true. cbv iota.
    unfold found_string. change (token c2) with body. change (unescape (length body) body) with (unesc body). rewrite Hread. cbn [mbind result_bind].
    assert (utf8_lossy s = s) as -> by (unfold utf8_lossy; by rewrite Hv).
    change (set_token [] c2) with (set_token [] (set_st InStr c)). rewrite <-Ht. change (set_token (token c) (set_st InStr c)) with (set_st InStr (set_token (token c) c)).
    rewrite set_token_same, take_value_st, Hval. cbn [mbind result_bind].
    assert (st c1 = Normal) as Hn1.
    { revert Hval. unfold take_value. destruct sg; repeat case_bool_decide; try done; by intros [= <-]. }
    assert (set_st Normal (set_st InStr c1) = c1) as -> by (rewrite <-Hn1; by destruct c1). done. }
  change (dump_string s a) with ([34] ++ body ++ [34]). destruct (done_ sg c1) as [v c3]. cbn [fst snd].
  pose proof (run_one sg 34 c2 v c3 ltac:(done) E3) as E4. by rewrite (run_app _ _ _ _ _ _ _ _ E1 (run_app _ _ _ _ _ _ _ _ E2 E4)).
Qed.

(** ** Values without --stream *)

(** Between the bytes of a text: the open frames, a value read, a literal begun. *)
Definition at_ (s : list Frame) (v : option Value) (t : str) : Core := mk_core s v t Normal [] LNone None.

(** A value is given out, or kept for the frame it is in. *)
Definition give (s : list Frame) (v : Value) : list Value * Core :=
  match s with [] => ([v], at_ [] None []) | _ => ([], at_ s (Some v) []) end.

(** A value is read: given, or a literal that waits for its end. *)
Definition settled (s : list Frame) (v : Value) (c : Core) : Prop := st c = Normal ∧ check_literal false c = Ok (at_ s (Some v) []).
Definition reads (s : list Frame) (t : str) (v : Value) : Prop :=
  ∃ out c, run false t (at_ s None []) = Some (out, c) ∧ ((out, c) = give s v ∨ out = [] ∧ settled s v c).

Lemma at_idle s t : idle false (at_ s None t).
Proof. by destruct s. Qed.
Lemma settled_value s v : settled s v (at_ s (Some v) []).
Proof. done. Qed.
Lemma reads_nested s t v : s ≠ [] → reads s t v → ∃ c, run false t (at_ s None []) = Some ([], c) ∧ settled s v c.
Proof.
  intros Hs (out & c & E & [Hg|[-> Hc]]); [|by exists c]. destruct s; [done|]. injection Hg as -> ->. eexists. split; [exact E|]. done.
Qed.

Lemma reads_string s a x : text_ok x → reads s (dump_string x a) (Str x).
Proof.
  intros Hx. pose proof (run_string false a x (at_ s None []) (at_ s (Some (Str x)) []) Hx eq_refl eq_refl (at_idle s []) eq_refl) as E.
  eexists _, _. split; [exact E|]. left. by destruct s.
Qed.

(** A byte that ends what was read within a frame. *)
Lemma step_settled s v c ch out c' : s ≠ [] → settled s v c → classify ch ≠ Literal →
  (match classify ch with
   | Literal => Ok (set_token (token c ++ [ch]) c)
   | Whitespace => Ok (at_ s (Some v) [])
   | Quote => Ok (set_st InStr (at_ s (Some v) []))
   | Structure => token_ch false ch (at_ s (Some v) [])
   | Invalid => Err (lit "Invalid character")
   end = Ok c') → out = (done_ false c').1 → run false [ch] c = Some (option_list out, (done_ false c').2).
Proof.
  intros Hs [Hn Hc] Hcls Ht ->. assert (core_step false ch c = Ok (done_ false c')) as E.
  { unfold core_step. rewrite bool_decide_eq_true_2 by done. unfold scan_normal. rewrite bool_decide_eq_false_2 by done. rewrite Hc. cbn [mbind result_bind].
    assert (done_ false (at_ s (Some v) []) = (None, at_ s (Some v) [])) as -> by (by destruct s). cbn [mbind result_bind].
    destruct (classify ch); try done; rewrite Ht; done. }
  destruct (done_ false c') as [o c2]. cbn [fst snd]. rewrite (run_one false ch c o c2); [by rewrite app_nil_r|by rewrite Hn|done].
Qed.
(** And one where nothing is read. *)
Lemma step_open s ch c' : classify ch ≠ Literal →
  (match classify ch with
   | Literal => Ok (at_ s None [ch])
   | Whitespace => Ok (at_ s None [])
   | Quote => Ok (set_st InStr (at_ s None []))
   | Structure => token_ch false ch (at_ s None [])
   | Invalid => Err (lit "Invalid character")
   end = Ok c') → run false [ch] (at_ s None []) = Some (option_list (done_ false c').1, (done_ false c').2).
Proof.
  intros Hcls Ht. assert (core_step false ch (at_ s None []) = Ok (done_ false c')) as E.
  { unfold core_step. rewrite bool_decide_eq_true_2 by done. unfold scan_normal. rewrite bool_decide_eq_false_2 by done.
    change (check_literal false (at_ s None [])) with (@Ok str _ (at_ s None [])). cbn [mbind result_bind].
    rewrite idle_done by apply at_idle. cbn [mbind result_bind]. destruct (classify ch); try done; rewrite Ht; done. }
  destruct (done_ false c') as [o c2]. cbn [fst snd]. rewrite (run_one false ch _ o c2); [by rewrite app_nil_r|done|done].
Qed.

(** White space. *)
Definition blank (w : str) : Prop := Forall (λ b, classify b = Whitespace) w.
Lemma newline_blank fm level : blank (newline fm level).
Proof.
  unfold newline. destruct (negb _); [constructor|]. constructor; [done|]. destruct (tab fm); by apply Forall_replicate.
Qed.
Lemma blank_open s w : blank w → run false w (at_ s None []) = Some ([], at_ s None []).
Proof.
  induction 1 as [|b w Hb _ IH]; [done|]. change (b :: w) with ([b] ++ w).
  assert (run false [b] (at_ s None []) = Some ([], at_ s None [])) as E.
  { rewrite (step_open s b (at_ s None [])); [by destruct s|by rewrite Hb|by rewrite Hb]. }
  by rewrite (run_app _ _ _ _ _ _ _ _ E IH).
Qed.
Lemma blank_settled s v w c : s ≠ [] → blank w → settled s v c → ∃ c', run false w c = Some ([], c') ∧ settled s v c'.
Proof.
  intros Hs Hw. revert c. induction Hw as [|b w Hb _ IH]; intros c Hc; [by exists c|].
  assert (run false [b] c = Some ([], at_ s (Some v) [])) as E.
  { rewrite (step_settled s v c b None (at_ s (Some v) [])); [by destruct s|done|done|by rewrite Hb|by rewrite Hb|by destruct s]. }
  destruct (IH _ (settled_value s v)) as (c' & E' & H). exists c'. split; [|done]. change (b :: w) with ([b] ++ w).
  by rewrite (run_app _ _ _ _ _ _ _ _ E E').
Qed.

(** ** Arrays *)

(** Elements between commas, each on its line. *)
Fixpoint joined (fm : Fmt) (level : nat) (first : bool) (ts : list str) : str :=
  match ts with
  | [] => []
  | t :: ts => (if first then [] else [44]) ++ newline fm level ++ t ++ joined fm level false ts
  end.

Lemma array_rest fm level s ts vs : Forall2 (λ t v, ∀ l, reads (FArr l :: s) t v) ts vs → ∀ a v c,
  settled (FArr a :: s) v c → ∃ a' v' c', run false (joined fm level false ts) c = Some ([], c') ∧
    settled (FArr a' :: s) v' c' ∧ a' ++ [v'] = a ++ v :: vs.
Proof.
  induction 1 as [|t v1 ts vs Ht _ IH]; intros a v c Hc; [by exists a, v, c|]. cbn [joined].
  assert (run false [44] c = Some ([], at_ (FArr (a ++ [v]) :: s) None [])) as E1.
  { by rewrite (step_settled (FArr a :: s) v c 44 None (at_ (FArr (a ++ [v]) :: s) None [])). }
  pose proof (blank_open (FArr (a ++ [v]) :: s) _ (newline_blank fm level)) as E2.
  destruct (reads_nested (FArr (a ++ [v]) :: s) t v1 ltac:(done) (Ht (a ++ [v]))) as (c3 & E3 & Hc3).
  destruct (IH _ _ _ Hc3) as (a' & v' & c' & E4 & Hc' & E). exists a', v', c'. split; [|split; [done|]].
  - by rewrite (run_app _ _ _ _ _ _ _ _ E1 (run_app _ _ _ _ _ _ _ _ E2 (run_app _ _ _ _ _ _ _ _ E3 E4))).
  - rewrite E, <-app_assoc. done.
Qed.

Lemma close_array s a v c : settled (FArr a :: s) v c → run false [93] c = Some (give s (Arr (a ++ [v]))).
Proof.
  intros Hc. rewrite (step_settled (FArr a :: s) v c 93 (done_ false (at_ s (Some (Arr (a ++ [v]))) [])).1 (at_ s (Some (Arr (a ++ [v]))) [])); try done.
  by destruct s.
Qed.

Lemma open_frame s fr ch : (length s < MAX_DEPTH)%nat → (ch, fr) ∈ [(91, FArr []); (123, FObj [])] →
  run false [ch] (at_ s None []) = Some ([], at_ (fr :: s) None []).
Proof.
  intros Hl H. rewrite (step_open s ch (at_ (fr :: s) None [])).
  - done.
  - repeat (apply elem_of_cons in H as [[= -> ->]|H]; [done|]). by apply not_elem_of_nil in H.
  - assert (open_container fr (at_ s None []) = Ok (at_ (fr :: s) None [])) as E.
    { unfold open_container. cbn [stack next at_]. rewrite (proj2 (Nat.leb_gt _ _) Hl). done. }
    repeat (apply elem_of_cons in H as [[= -> ->]|H]; [exact E|]). by apply not_elem_of_nil in H.
Qed.

Lemma reads_array fm level s ts vs : (length s < MAX_DEPTH)%nat → ts ≠ [] →
  Forall2 (λ t v, ∀ l, reads (FArr l :: s) t v) ts vs →
  reads s ([91] ++ joined fm (S level) true ts ++ newline fm level ++ [93]) (Arr vs).
Proof.
  intros Hl Hne H. destruct H as [|t v ts vs Ht H]; [done|]. cbn [joined app].
  pose proof (open_frame s (FArr []) 91 Hl ltac:(by left)) as E1.
  pose proof (blank_open (FArr [] :: s) _ (newline_blank fm (S level))) as E2.
  destruct (reads_nested (FArr [] :: s) t v ltac:(done) (Ht [])) as (c3 & E3 & Hc3).
  destruct (array_rest fm (S level) s ts vs H [] v c3 Hc3) as (a & v' & c4 & E4 & Hc4 & E).
  destruct (blank_settled (FArr a :: s) v' _ c4 ltac:(done) (newline_blank fm level) Hc4) as (c5 & E5 & Hc5).
  pose proof (close_array s a v' c5 Hc5) as E6. rewrite E in E6. cbn [app] in E6. destruct (give s (Arr (v :: vs))) as [o c'] eqn:Eg.
  exists o, c'. split; [|left; by rewrite Eg]. rewrite <-!app_assoc.
  exact (run_app _ [91] _ _ _ _ _ _ E1 (run_app _ _ _ _ _ _ _ _ E2 (run_app _ _ _ _ _ _ _ _ E3 (run_app _ _ _ _ _ _ _ _ E4 (run_app _ _ _ _ _ _ _ _ E5 E6))))).
Qed.
Lemma reads_empty_array s : (length s < MAX_DEPTH)%nat → reads s (lit "[" ++ lit "]") (Arr []).
Proof.
  intros Hl. pose proof (open_frame s (FArr []) 91 Hl ltac:(by left)) as E1.
  assert (run false [93] (at_ (FArr [] :: s) None []) = Some (give s (Arr []))) as E2.
  { rewrite (step_open (FArr [] :: s) 93 (at_ s (Some (Arr [])) [])); [by destruct s|done|done]. }
  destruct (give s (Arr [])) as [o c'] eqn:Eg. exists o, c'. split; [|left; by rewrite Eg]. exact (run_app _ [91] _ _ _ _ _ _ E1 E2).
Qed.

(** ** Objects *)

Definition insert_all (m es : list (str * Value)) : list (str * Value) := foldl (λ m e, insert_field e.1 e.2 m) m es.

(** A key and its colon. *)
Definition key_text (fm : Fmt) (k : str) : str := dump_string k (ascii fm) ++ [58] ++ if pretty fm then [32] else [].
Lemma key_read fm s m k : text_ok k → run false (key_text fm k) (at_ (FObj m :: s) None []) = Some ([], at_ (FKey k :: FObj m :: s) None []).
Proof.
  intros Hk. unfold key_text.
  pose proof (run_string false (ascii fm) k (at_ (FObj m :: s) None []) (at_ (FObj m :: s) (Some (Str k)) []) Hk eq_refl eq_refl eq_refl eq_refl) as E1.
  cbn [done_ stack at_ fst snd flush option_list app] in E1.
  assert (run false [58] (at_ (FObj m :: s) (Some (Str k)) []) = Some ([], at_ (FKey k :: FObj m :: s) None [])) as E2.
  { by rewrite (step_settled (FObj m :: s) (Str k) (at_ (FObj m :: s) (Some (Str k)) []) 58 None (at_ (FKey k :: FObj m :: s) None [])). }
  assert (run false (if pretty fm then [32] else []) (at_ (FKey k :: FObj m :: s) None []) = Some ([], at_ (FKey k :: FObj m :: s) None [])) as E3.
  { apply blank_open. destruct (pretty fm); by repeat constructor. }
  by rewrite (run_app _ _ _ _ _ _ _ _ E1 (run_app _ _ _ _ _ _ _ _ E2 E3)).
Qed.

Definition field_reads (fm : Fmt) (s : list Frame) (t : str) (e : str * Value) : Prop :=
  ∃ tv, t = key_text fm e.1 ++ tv ∧ text_ok e.1 ∧ ∀ m, reads (FKey e.1 :: FObj m :: s) tv e.2.

Lemma object_rest fm level s ts es : Forall2 (field_reads fm s) ts es → ∀ m k v c,
  settled (FKey k :: FObj m :: s) v c → ∃ m' k' v' c', run false (joined fm level false ts) c = Some ([], c') ∧
    settled (FKey k' :: FObj m' :: s) v' c' ∧ insert_field k' v' m' = insert_all m ((k, v) :: es).
Proof.
  induction 1 as [|t e ts es (tv & -> & Hk & Hv) _ IH]; intros m k v c Hc; [by exists m, k, v, c|]. cbn [joined].
  assert (run false [44] c = Some ([], at_ (FObj (insert_field k v m) :: s) None [])) as E1.
  { by rewrite (step_settled (FKey k :: FObj m :: s) v c 44 None (at_ (FObj (insert_field k v m) :: s) None [])). }
  pose proof (blank_open (FObj (insert_field k v m) :: s) _ (newline_blank fm level)) as E2.
  pose proof (key_read fm s (insert_field k v m) e.1 Hk) as E3.
  destruct (reads_nested (FKey e.1 :: FObj (insert_field k v m) :: s) tv e.2 ltac:(done) (Hv (insert_field k v m))) as (c4 & E4 & Hc4).
  destruct (IH _ _ _ _ Hc4) as (m' & k' & v' & c' & E5 & Hc' & E). exists m', k', v', c'. split; [|split; [done|]].
  - rewrite <-!app_assoc. by rewrite (run_app _ _ _ _ _ _ _ _ E1 (run_app _ _ _ _ _ _ _ _ E2 (run_app _ _ _ _ _ _ _ _ E3 (run_app _ _ _ _ _ _ _ _ E4 E5)))).
  - rewrite E. by destruct e.
Qed.

Lemma reads_object fm level s ts es : (length s < MAX_DEPTH)%nat → ts ≠ [] → Forall2 (field_reads fm s) ts es →
  reads s ([123] ++ joined fm (S level) true ts ++ newline fm level ++ [125]) (Obj (insert_all [] es)).
Proof.
  intros Hl Hne H. destruct H as [|t e ts es (tv & -> & Hk & Hv) H]; [done|]. cbn [joined app].
  pose proof (open_frame s (FObj []) 123 Hl ltac:(by right; left)) as E1.
  pose proof (blank_open (FObj [] :: s) _ (newline_blank fm (S level))) as E2.
  pose proof (key_read fm s [] e.1 Hk) as E3.
  destruct (reads_nested (FKey e.1 :: FObj [] :: s) tv e.2 ltac:(done) (Hv [])) as (c4 & E4 & Hc4).
  destruct (object_rest fm (S level) s ts es H [] e.1 e.2 c4 Hc4) as (m & k & v & c5 & E5 & Hc5 & E).
  destruct (blank_settled (FKey k :: FObj m :: s) v _ c5 ltac:(done) (newline_blank fm level) Hc5) as (c6 & E6 & Hc6).
  assert (run false [125] c6 = Some (give s (Obj (insert_field k v m)))) as E7.
  { rewrite (step_settled (FKey k :: FObj m :: s) v c6 125 (done_ false (at_ s (Some (Obj (insert_field k v m))) [])).1 (at_ s (Some (Obj (insert_field k v m))) []) ltac:(done) Hc6); try done.
    by destruct s. }
  rewrite E in E7. assert ((e.1, e.2) = e) as Ee by by destruct e. rewrite Ee in E7.
  destruct (give s (Obj (insert_all [] (e :: es)))) as [o c'] eqn:Eg.
  exists o, c'. split; [|left; by rewrite Eg]. rewrite <-!app_assoc.
  exact (run_app _ [123] _ _ _ _ _ _ E1 (run_app _ _ _ _ _ _ _ _ E2 (run_app _ _ _ _ _ _ _ _ E3 (run_app _ _ _ _ _ _ _ _ E4 (run_app _ _ _ _ _ _ _ _ E5 (run_app _ _ _ _ _ _ _ _ E6 E7)))))).
Qed.
Lemma reads_empty_object s : (length s < MAX_DEPTH)%nat → reads s (lit "{" ++ lit "}") (Obj []).
Proof.
  intros Hl. pose proof (open_frame s (FObj []) 123 Hl ltac:(by right; left)) as E1.
  assert (run false [125] (at_ (FObj [] :: s) None []) = Some (give s (Obj []))) as E2.
  { rewrite (step_open (FObj [] :: s) 125 (at_ s (Some (Obj [])) [])); [by destruct s|done|done]. }
  destruct (give s (Obj [])) as [o c'] eqn:Eg. exists o, c'. split; [|left; by rewrite Eg]. exact (run_app _ [123] _ _ _ _ _ _ E1 E2).
Qed.

(** ** Literals *)

(** A text taken as a value when it ends. *)
Definition literal_of (t : str) (v : Value) : Prop :=
  Forall (λ b, classify b = Literal) t ∧ ∀ sg c, token c = t → check_literal sg c = take_value sg v (set_token [] c).

Lemma reads_literal s t v : literal_of t v → reads s t v.
Proof.
  intros [Ht Hc]. pose proof (run_literal false t (at_ s None []) Ht eq_refl (at_idle s [])) as E. eexists _, _. split; [exact E|]. right.
  split; [done|]. split; [done|]. by rewrite Hc.
Qed.
Lemma word_literal t v : (t, v) ∈ [(lit "null", Null); (lit "true", Bool true); (lit "false", Bool false)] → literal_of t v.
Proof.
  intros H. repeat (apply elem_of_cons in H as [[= -> ->]|H]; [split; [by repeat constructor|intros sg c E; unfold check_literal; by rewrite E]|]).
  by apply not_elem_of_nil in H.
Qed.

Lemma number_literal s : Forall number_char s → Forall (λ b, classify b = Literal) s ∧ Forall (λ b, b < 128) s.
Proof.
  intros Hs. apply Forall_and. eapply Forall_impl; [exact Hs|]. intros b [Hb%is_digit_range|Hb].
  - unfold classify. repeat (rewrite (proj2 (Z.eqb_neq _ _)) by lia). split; [done|lia].
  - repeat (apply elem_of_cons in Hb as [->|Hb]; [done|]). by apply not_elem_of_nil in Hb.
Qed.

(** A text of digits and signs that [Dec::parse] takes is taken as that number. *)
Lemma digits_literal (ng : bool) b body d : is_digit b = true → Forall number_char (b :: body) → dec_parse ((if ng then [45] else []) ++ b :: body) = Some d →
  literal_of ((if ng then [45] else []) ++ b :: body) (Number (mk_num (to_f64 d) (Some d))).
Proof.
  intros Hb Hbody Hd. set (t := (if ng then [45] else []) ++ b :: body) in *.
  assert (Forall number_char t) as Ht by (unfold t; destruct ng; [constructor; [right; set_solver|done]|done]).
  destruct (number_literal t Ht) as [Hl Ha]. split; [done|]. intros sg c Hc. unfold check_literal. rewrite Hc.
  assert (t ≠ []) as Hne by (unfold t; by destruct ng). rewrite bool_decide_eq_false_2 by done.
  apply is_digit_range in Hb.
  assert (literal_pattern t = Ok None) as ->.
  { unfold t, literal_pattern. destruct ng; [done|]. cbn [app]. repeat case_match; try done; lia. }
  cbn [mbind result_bind]. assert (parse_number t = Some (mk_num (to_f64 d) (Some d))) as ->; [|done].
  unfold parse_number. rewrite utf8_valid_ascii by done. cbn [negb].
  assert ((match t with 45 :: s0 => (true, s0) | 43 :: s0 => (false, s0) | s0 => (false, s0) end) = (ng, b :: body)) as ->.
  { unfold t. destruct ng; [done|]. cbn [app]. repeat case_match; try done; lia. }
  assert (lower_byte b = b) as Hlow by (unfold lower_byte; destruct (_ && _) eqn:E; lia).
  rewrite fmap_cons, Hlow. rewrite !bool_decide_eq_false_2 by (intros [= E _]; lia). cbn [orb].
  rewrite (proj2 (is_digit_range b) Hb). cbn [orb]. unfold from_literal.
  assert ((if ng then 45 :: b :: body else b :: body) = t) as -> by (unfold t; by destruct ng). by rewrite Hd.
Qed.

Lemma to_text_shape d : wf_dec d → ∃ b body, to_text d = (if neg d then [45] else []) ++ b :: body ∧ is_digit b = true ∧ Forall number_char (b :: body).
Proof.
  intros Hd. pose proof (wf_nonempty d Hd) as Hne. pose proof (wf_digits d Hd) as Hds. unfold to_text.
  change (lit "-") with [45]. set (ds := digits d) in *.
  assert (∀ body, (∃ b s, body = b :: s ∧ is_digit b = true) → Forall number_char body →
    ∃ b s, (if neg d then [45] else []) ++ body = (if neg d then [45] else []) ++ b :: s ∧ is_digit b = true ∧ Forall number_char (b :: s)) as H.
  { intros body (b & s & -> & Hb) HF. by exists b, s. }
  assert (∀ s, (∀ b, b ∈ s → b ∈ [43; 45; 46; 69; 101]) → Forall number_char s) as Hpunct.
  { intros s Hs. apply Forall_forall. intros b Hb. right. by apply Hs. }
  assert (∀ k, (k ≠ 0)%nat → ∃ b s, take k ds = b :: s ∧ is_digit b = true) as Htake.
  { intros [|k] Hk; [done|]. destruct ds as [|b s]; [done|]. apply Forall_cons in Hds as [Hb _]. by eexists _, _. }
  assert (∀ x y, (∃ b s, x = b :: s ∧ is_digit b = true) → ∃ b s, x ++ y = b :: s ∧ is_digit b = true) as Happ.
  { intros x y (b & s & -> & Hb). by eexists _, _. }
  destruct (_ && _); [destruct (exp d =? 0); [|destruct (Z.ltb_spec 0 (Z.of_nat (length ds) + exp d))]|]; apply H.
  - destruct (Htake (length ds)) as (b & s & E & Hb); [by destruct ds|]. rewrite take_ge in E by lia. by exists b, s.
  - by apply digits_chars.
  - apply Happ, Htake. lia.
  - apply Forall_app. split; [by apply digits_chars, Forall_take|]. apply Forall_app. split; [apply Hpunct; set_solver|by apply digits_chars, Forall_drop].
  - by eexists _, _.
  - change (lit "0." ++ ?x) with ([48] ++ [46] ++ x). apply Forall_app. split; [by apply digits_chars; repeat constructor|].
    apply Forall_app. split; [apply Hpunct; set_solver|]. apply digits_chars, Forall_app. split; [apply zeros_digits|done].
  - apply Happ, Htake. done.
  - apply Forall_app. split; [by apply digits_chars, Forall_take|]. apply Forall_app. split.
    { destruct (1 <? _); [|constructor]. apply Forall_app. split; [apply Hpunct; set_solver|by apply digits_chars, Forall_drop]. }
    apply Forall_app. split; [apply Hpunct; set_solver|]. apply Forall_app. split; [apply Hpunct; destruct (_ <? 0); set_solver|].
    apply digits_chars, decimal_all_digits. lia.
Qed.

(** ** Printed values *)

(** How many frames reading a value takes. *)
Fixpoint frames (v : Value) : nat :=
  match v with
  | Arr l => S (foldr (λ v d, frames v `max` d)%nat 0%nat l)
  | Obj m => S (foldr (λ e d, S (frames e.2) `max` d)%nat 0%nat m)
  | _ => 0
  end.

(** A number with the literal it was read as, or one whose digits are the shortest. *)
Definition number_ok (n : Num) : Prop :=
  match dec n with
  | Some d => if out_of_range d then shortest (f n) = true else wf_dec d ∧ f n = to_f64 d
  | None => shortest (f n) = true
  end.

(** Values of such numbers and of valid text, with no key twice in an object. *)
Fixpoint printable (v : Value) : Prop :=
  match v with
  | Number n => number_ok n
  | Str s => text_ok s
  | Arr l => foldr (λ v P, printable v ∧ P) True l
  | Obj m => NoDup m.*1 ∧ foldr (λ e P, (text_ok e.1 ∧ printable e.2) ∧ P) True m
  | _ => True
  end.

(** A number as it is read back: a computed one has the literal it was printed as. *)
Definition double_printed (x : f64) : Value :=
  if is_nan x then Null else Number (mk_num (shown x) (dec_parse (fmt_f64 x))).
Definition num_printed (n : Num) : Value :=
  match dec n with
  | Some d => if out_of_range d then double_printed (f n) else Number n
  | None => double_printed (f n)
  end.

(** A value as it is read back, with its fields in the order they are printed in: by key with [-S]. *)
Fixpoint printed (fm : Fmt) (v : Value) : Value :=
  match v with
  | Number n => num_printed n
  | Arr l => Arr (printed fm <$> l)
  | Obj m => Obj (print_order fm ((λ e, (e.1, printed fm e.2)) <$> m))
  | v => v
  end.

Lemma insert_new k v m : k ∉ m.*1 → insert_field k v m = m ++ [(k, v)].
Proof.
  induction m as [|[k' v'] m IH]; [done|]. cbn [fmap list_fmap fst insert_field]. rewrite not_elem_of_cons. intros [H1 H2].
  rewrite decide_False by done. cbn [app]. by rewrite IH.
Qed.
Lemma insert_all_new m es : NoDup (m ++ es).*1 → insert_all m es = m ++ es.
Proof.
  revert m. induction es as [|[k v] es IH]; intros m Hn; [by rewrite app_nil_r|]. unfold insert_all. cbn [foldl fst snd].
  rewrite fmap_app in Hn. pose proof Hn as (_ & Hd & _)%NoDup_app.
  assert (k ∉ m.*1) as Hk by (intros Hk; apply (Hd k Hk); by left).
  rewrite insert_new by done. change (foldl _ ?x es) with (insert_all x es). rewrite IH, <-app_assoc; [done|].
  rewrite !fmap_app, <-app_assoc. exact Hn.
Qed.

Lemma sorted_keys_perm m : Permutation (sorted_keys m) m.*1.
Proof. apply merge_sort_Permutation. Qed.
Lemma print_order_keys fm m : Permutation (print_order fm m).*1 m.*1.
Proof.
  unfold print_order. destruct (sort fm); [|done]. rewrite <-list_fmap_compose. rewrite <-sorted_keys_perm. by rewrite list_fmap_id.
Qed.
Lemma print_order_elem fm m e : e ∈ print_order fm m → e ∈ m.
Proof.
  unfold print_order. destruct (sort fm); [|done]. intros (k & -> & Hk)%list_elem_of_fmap. rewrite sorted_keys_perm in Hk.
  destruct (field_value k m Hk) as (v & -> & H). done.
Qed.
Lemma print_order_map fm (g : Value → Value) m :
  print_order fm ((λ e, (e.1, g e.2)) <$> m) = (λ e, (e.1, g e.2)) <$> print_order fm m.
Proof.
  unfold print_order. destruct (sort fm); [|done].
  assert (((λ e : str * Value, (e.1, g e.2)) <$> m).*1 = m.*1) as Ek by (by rewrite <-list_fmap_compose).
  unfold sorted_keys. rewrite Ek. rewrite <-list_fmap_compose. apply list_fmap_ext. intros i k Hk. apply list_elem_of_lookup_2 in Hk.
  rewrite merge_sort_Permutation in Hk. cbn. f_equal. clear Ek. induction m as [|[k' v'] m IH]; [by apply not_elem_of_nil in Hk|].
  cbn [field fmap list_fmap fst snd] in *. destruct (decide (k = k')) as [|Hne]; [done|]. apply elem_of_cons in Hk as [?|Hk]; [done|]. by apply IH.
Qed.

(** The doubles of a value, as they are shown. *)
Fixpoint doubles (v : Value) : Value :=
  match v with
  | Number n => if is_nan (f n) then Null else num (shown (f n))
  | Arr l => Arr (doubles <$> l)
  | Obj m => Obj ((λ e, (e.1, doubles e.2)) <$> m)
  | v => v
  end.

(** Printing without colors. *)
Lemma plain_colored fm i s : colors fm = None → colored fm i s = s.
Proof. intros Hc. unfold colored, col, reset_color. rewrite Hc, app_nil_r. done. Qed.
Lemma plain_elements fm ci level ts : colors fm = None → elements fm ci level ts = joined fm (S level) true ts.
Proof.
  intros Hc. unfold elements, col, reset_color. rewrite Hc.
  assert (∀ k ts, mjoin (imap (λ i t, (if bool_decide (k + i = 0)%nat then [] else [] ++ lit ",") ++ [] ++ newline fm (S level) ++ t) ts) =
    joined fm (S level) (bool_decide (k = 0)%nat) ts) as H; [|apply (H 0%nat)].
  intros k us. revert k. induction us as [|u us IH]; intros k; [done|]. rewrite imap_cons, mjoin_cons. cbn [joined].
  assert (imap ((λ i t, (if bool_decide (k + i = 0)%nat then [] else [] ++ lit ",") ++ [] ++ newline fm (S level) ++ t) ∘ S) us =
    imap (λ i t, (if bool_decide (S k + i = 0)%nat then [] else [] ++ lit ",") ++ [] ++ newline fm (S level) ++ t) us) as ->.
  { apply imap_ext. intros i t _. cbn. by rewrite Nat.add_succ_r. }
  rewrite IH, Nat.add_0_r. rewrite (bool_decide_eq_false_2 (S k = 0)%nat) by done. rewrite <-!app_assoc. cbn [app]. by case_bool_decide.
Qed.
Lemma plain_container fm ci level opens closes ts : colors fm = None → ts ≠ [] →
  container fm ci level opens closes ts = opens ++ joined fm (S level) true ts ++ newline fm level ++ closes.
Proof.
  intros Hc Hne. unfold container. rewrite bool_decide_eq_false_2, plain_elements by done. unfold col, reset_color. rewrite Hc, app_nil_r. done.
Qed.
Lemma plain_key fm k : colors fm = None → dump_key fm k = key_text fm k.
Proof. intros Hc. unfold dump_key, key_text. by rewrite !plain_colored. Qed.

Lemma double_literal x : shortest x = true → literal_of (fmt_f64 x) (double_printed x).
Proof.
  intros H. unfold double_printed. destruct (is_nan x) eqn:En.
  - destruct x; try done. apply word_literal. set_solver.
  - destruct (double_read x H En) as (ng & b & body & d & E & Hb & HF & Ed & <-). rewrite Ed. rewrite E in *. by apply digits_literal.
Qed.
Lemma number_printed x : number_ok x → literal_of (fmt_num x) (num_printed x).
Proof.
  unfold number_ok, num_printed, fmt_num. destruct x as [x [d|]]; cbn [dec f]; [|apply double_literal].
  destruct (out_of_range d); cbn [negb]; [apply double_literal|]. intros (Hw & ->).
  destruct (to_text_shape d Hw) as (b & body & E & Hb & HF). rewrite E. apply digits_literal; [done|done|]. rewrite <-E. by apply dec_read.
Qed.

Lemma reads_printed fm v : colors fm = None → ∀ n level s, printable v → (depth v < n)%nat → (frames v + length s ≤ MAX_DEPTH)%nat →
  reads s (dump_into n fm level v) (printed fm v).
Proof.
  intros Hc. induction v as [|b|x|x|l IH|m IH] using value_induction; intros [|n] level s Hp Hd Hf; try lia; cbn [dump_into printed].
  - rewrite plain_colored by done. apply reads_literal, word_literal. set_solver.
  - destruct b; rewrite plain_colored by done; apply reads_literal, word_literal; set_solver.
  - rewrite plain_colored by done. by apply reads_literal, number_printed.
  - rewrite plain_colored by done. by apply reads_string.
  - cbn [printable depth frames] in *. rewrite foldr_Forall in Hp. apply Nat.succ_lt_mono in Hd.
    destruct (decide (l = [])) as [->|Hne].
    { unfold container. rewrite bool_decide_eq_true_2, plain_colored by done. apply reads_empty_array. lia. }
    rewrite plain_container by (by try destruct l). apply reads_array; [lia|by destruct l|].
    assert (Forall (λ v, depth v < n)%nat l) as Hdl.
    { assert (foldr (λ v d, depth v `max` d)%nat 0%nat l ≤ pred n)%nat as H by lia. apply foldr_max_le in H. eapply Forall_impl; [exact H|]. cbn beta. lia. }
    assert (Forall (λ v, frames v + S (length s) ≤ MAX_DEPTH)%nat l) as Hfl.
    { assert (foldr (λ v d, frames v `max` d)%nat 0%nat l ≤ MAX_DEPTH - S (length s))%nat as H by lia. apply foldr_max_le in H.
      eapply Forall_impl; [exact H|]. cbn beta. lia. }
    apply Forall2_fmap. apply Forall_Forall2_diag. rewrite !Forall_forall in *. intros v Hv a. apply IH; auto.
  - cbn [printable depth frames] in *. rewrite foldr_Forall in Hp. destruct Hp as [Hnd Hp]. apply Nat.succ_lt_mono in Hd.
    destruct (decide (m = [])) as [->|Hne].
    { assert (print_order fm [] = []) as Ho by (unfold print_order; by destruct (sort fm)). cbn [fmap list_fmap]. rewrite Ho.
      unfold container. rewrite bool_decide_eq_true_2, plain_colored by done. apply reads_empty_object. lia. }
    assert (print_order fm m ≠ []) as Hne'.
    { intros E. pose proof (print_order_keys fm m) as Hk. rewrite E in Hk. apply Permutation_nil in Hk. by destruct m. }
    rewrite print_order_map. set (es := print_order fm m) in *.
    assert (NoDup ((λ e : str * Value, (e.1, printed fm e.2)) <$> es).*1) as Hnd'.
    { rewrite <-list_fmap_compose. change (NoDup (es.*1)). unfold es. by rewrite print_order_keys. }
    pose proof (insert_all_new [] _ Hnd') as Ei. cbn [app] in Ei. rewrite <-Ei. rewrite plain_container by (by try destruct es).
    assert (Forall (λ e : str * Value, depth e.2 < n)%nat m) as Hdm.
    { assert (foldr (λ e d, depth e.2 `max` d)%nat 0%nat m ≤ pred n)%nat as H by lia. apply (foldr_max_le (λ e, depth e.2)) in H.
      eapply Forall_impl; [exact H|]. cbn beta. lia. }
    assert (Forall (λ e : str * Value, frames e.2 + S (S (length s)) ≤ MAX_DEPTH)%nat m) as Hfm.
    { assert (foldr (λ e d, S (frames e.2) `max` d)%nat 0%nat m ≤ MAX_DEPTH - S (length s))%nat as H by lia.
      apply (foldr_max_le (λ e, S (frames e.2))) in H. eapply Forall_impl; [exact H|]. cbn beta. lia. }
    apply reads_object; [lia|by destruct es|].
    apply Forall2_fmap. apply Forall_Forall2_diag. rewrite !Forall_forall in *. intros e He%print_order_elem.
    exists (dump_into n fm (S level) e.2). destruct (Hp e He) as [Hk Hpe]. split_and!; [by rewrite plain_key|done|]. intros m0. cbn [fst snd].
    apply IH; auto.
Qed.

Lemma depth_frames v : (depth v ≤ frames v)%nat.
Proof.
  induction v as [|b|x|x|l IH|m IH] using value_induction; cbn [depth frames]; try lia; apply le_n_S.
  - induction IH as [|v l Hv _ IHl]; simpl; lia.
  - induction IH as [|v l Hv _ IHl]; simpl; lia.
Qed.
Lemma print_order_kept fm m : sort fm = false → print_order fm m = m.
Proof. intros Hs. unfold print_order. by rewrite Hs. Qed.
Lemma printed_exact fm v : sort fm = false → exact v → printed fm v = v.
Proof.
  intros Hs. unfold exact. induction v as [|b|x|x|l IH|m IH] using value_induction; cbn [printed all_nums]; try done.
  - unfold exact_num, num_printed. destruct (dec x); [|done]. by intros (_ & -> & _).
  - rewrite foldr_Forall. intros He. f_equal. rewrite Forall_forall in *. rewrite <-(list_fmap_id l) at 2. apply list_fmap_ext.
    intros i v Hv%list_elem_of_lookup_2. by apply IH; [|apply He].
  - rewrite foldr_Forall, print_order_kept by done. intros [_ He]. f_equal. rewrite Forall_forall in *. rewrite <-(list_fmap_id m) at 2. apply list_fmap_ext.
    intros i [k v] Hv%list_elem_of_lookup_2. cbn. f_equal. by apply (IH (k, v)); [|apply (He (k, v))].
Qed.
Lemma printed_doubles fm v : sort fm = false → doubles (printed fm v) = doubles v.
Proof.
  intros Hs. induction v as [|b|x|x|l IH|m IH] using value_induction; cbn [printed doubles]; try done.
  - unfold num_printed. assert (doubles (double_printed (f x)) = if is_nan (f x) then Null else num (shown (f x))) as H.
    { unfold double_printed. destruct (f x) as [s|s| |s m e]; try done. by destruct s. }
    destruct (dec x) as [d|]; [destruct (out_of_range d)|]; done.
  - f_equal. rewrite <-list_fmap_compose. apply list_fmap_ext. rewrite Forall_forall in IH. intros i v Hv%list_elem_of_lookup_2. by apply IH.
  - f_equal. rewrite print_order_kept, <-list_fmap_compose by done. apply list_fmap_ext. rewrite Forall_forall in IH.
    intros i [k v] Hv%list_elem_of_lookup_2. cbn. f_equal. by apply (IH (k, v)).
Qed.

Lemma number_starts x : number_ok x → ∃ b t, fmt_num x = b :: t ∧ b < 128.
Proof.
  assert (∀ (ng : bool) b body, is_digit b = true → ∃ c t, (if ng then [45] else []) ++ b :: body = c :: t ∧ c < 128) as H.
  { intros ng b body Hb%is_digit_range. destruct ng; eexists _, _; (split; [done|]); lia. }
  assert (shortest (f x) = true → ∃ b t, fmt_f64 (f x) = b :: t ∧ b < 128) as Hd.
  { intros Hs. destruct (is_nan (f x)) eqn:En; [destruct (f x); try done; by eexists _, _|].
    destruct (double_read _ Hs En) as (ng & b & body & d & -> & Hb & _). by apply H. }
  unfold number_ok, fmt_num. destruct (dec x) as [d|]; [destruct (out_of_range d); cbn [negb]|]; [done| |done].
  intros [Hw _]. destruct (to_text_shape d Hw) as (b & body & -> & Hb & _). by apply H.
Qed.

(** A text starts with no byte order mark. *)
Lemma dump_starts fm n level v : colors fm = None → printable v → ∃ b t, dump_into (S n) fm level v = b :: t ∧ b < 128.
Proof.
  intros Hc Hp. cbn [dump_into]. destruct v as [|[]|x|x|l|m]; rewrite ?plain_colored by done; try by eexists _, _.
  - by apply number_starts.
  - unfold container. rewrite plain_colored by done. unfold col. rewrite Hc. destruct (bool_decide _); by eexists _, _.
  - unfold container. rewrite plain_colored by done. unfold col. rewrite Hc. destruct (bool_decide _); by eexists _, _.
Qed.

Lemma reading_value t b u v : t = b :: u → b < 128 → reads [] t v → reading t (start false None) = [NValue v].
Proof.
  intros Et Hb (out & c & E & H). unfold reading, intake. change (dead (start false None)) with false. change (bom (start false None)) with 0%nat.
  change (seq (start false None)) with false. cbv iota.
  assert (strip_bom 0 t = (3%nat, t)) as ->.
  { rewrite Et. cbn [strip_bom Nat.leb]. rewrite bool_decide_eq_false_2; [done|]. intros [= ?]. lia. }
  change (3 =? 255)%nat with false. cbv iota. set (p := with_bom 3 (start false None)).
  destruct (emits_run t p out c eq_refl eq_refl E) as (q & -> & Hq & Hs & Hd & Hst). unfold final. rewrite Hd.
  unfold at_end. cbn [core with_eof streaming seq last_ch_was_ws]. rewrite Hq, Hst, Hs. change (streaming p) with false.
  destruct H as [[= -> ->]|[-> [Hn Hc]]].
  - done.
  - rewrite Hn, Hc. done.
Qed.

(** C12: what jq prints it reads back: every value nested no deeper than the reader allows, of valid text and of numbers
    that have the literal they were read as or the shortest digits of a computed number, printed compactly or on lines,
    indented by any number of spaces or by tabs, sorted or not, with [-a] or without.  The doubles are the ones that were
    printed, NaN being null and infinities the greatest doubles, and a value of literals is read as it was.  It is read
    in any pieces it arrives in, and by [fromjson]. *)
Theorem jq_json_roundtrip v fm :
  colors fm = None → printable v → (frames v ≤ MAX_DEPTH)%nat →
  parse_one (dump v fm) = Ok (printed fm v) ∧
  (sort fm = false → doubles (printed fm v) = doubles v ∧ (exact v → printed fm v = v)) ∧
  ∀ pieces, mjoin pieces = dump v fm → session (start false None) pieces [NValue (printed fm v)].
Proof.
  intros Hc Hp Hf. assert (reading (dump v fm) (start false None) = [NValue (printed fm v)]) as E.
  { destruct (dump_starts fm MAX_PRINT_DEPTH 0 v Hc Hp) as (b & t & Et & Hb). apply (reading_value _ b t); [done|done|].
    apply reads_printed; [done|done| |cbn [length]; lia]. pose proof (depth_frames v). change MAX_PRINT_DEPTH with MAX_DEPTH. lia. }
  split_and!.
  - by rewrite parse_one_reading, E.
  - intros Hs. split; [by apply printed_doubles|by apply printed_exact].
  - intros pieces Hpieces. destruct (session_reading pieces _ (start_ready false None)) as (ns & H & En). rewrite Hpieces, E in En. by subst ns.
Qed.

(** A value printed on lines with sorted keys: of a literal, a computed number and NaN, and text. *)
Definition third : f64 := to_f64 (mk_dec false (lit "33333333333333333333") (-20)).
Definition sample : Value :=
  Obj [(lit "b", Arr [Number (default (num_f fzero) (from_literal (lit "1.50"))); num third; num S754_nan; Str ([195; 169] ++ [34; 10])]); (lit "a", Bool true)].
Definition sample_fmt : Fmt := mk_fmt true 2 false true true None.

Lemma sample_printable : printable sample.
Proof.
  split; [repeat (constructor; [set_solver|]); constructor|].
  split; [split; [split; [reflexivity|by repeat constructor]|]|].
  - split; [|split; [vm_compute; done|split; [done|split; [|done]]]].
    + split; [split; [by repeat constructor|reflexivity|vm_compute; discriminate]|reflexivity].
    + split; [reflexivity|]. repeat (constructor; [split; [discriminate|reflexivity]|]). constructor.
  - split; [|done]. split; [split; [reflexivity|by repeat constructor]|done].
Qed.

Lemma jq_json_roundtrip_witness :
  parse_one (dump sample sample_fmt) = Ok (printed sample_fmt sample) ∧ printed sample_fmt sample ≠ sample ∧
  doubles (printed compact sample) = doubles sample.
Proof.
  assert (frames sample ≤ MAX_DEPTH)%nat as Hf by (apply Nat.leb_le; vm_compute; reflexivity).
  split; [|split; [discriminate|]].
  - apply (jq_json_roundtrip sample sample_fmt); [reflexivity|apply sample_printable|exact Hf].
  - apply (jq_json_roundtrip sample compact); [reflexivity|apply sample_printable|exact Hf|reflexivity].
Defined.
