(* ===== verification/JqStream.v ===== *)
(** * jq's --stream: the events of a value

    The second machine of the reader keeps no containers, only the path it is at.  [events] is what a value is in
    path and leaf events; the machine says these, as they come. *)
From stdpp Require Import strings.
From S2P Require Import Prelude Str Float JqValue JqOrder JqReader JqProofs JqRoundtrip.

Local Open Scope Z_scope.

(** ** Events *)

(** The index of an element, as the reader counts. *)
Fixpoint index (i : nat) : f64 := match i with O => fzero | S i => fadd (index i) fone end.

Definition at_path (p : list Value) : Value := Arr (reverse p).
Definition leaf_at (p : list Value) (v : Value) : Value := Arr [at_path p; v].
Definition closing (p : list Value) : Value := Arr [at_path p].

(** The events of a value at a path: every scalar and empty container with its path, and the path of the last element where a
    container ends. *)
Fixpoint events (p : list Value) (v : Value) : list Value :=
  match v with
  | Arr l =>
      if bool_decide (l = []) then [leaf_at p v]
      else (fix go i l := match l with
                          | [] => []
                          | w :: l =>
                              events (num (index i) :: p) w ++
                              match l with [] => [closing (num (index i) :: p)] | _ => go (S i) l end
                          end) 0%nat l
  | Obj m =>
      if bool_decide (m = []) then [leaf_at p v]
      else (fix go m := match m with
                        | [] => []
                        | (k, w) :: m =>
                            events (Str k :: p) w ++ match m with [] => [closing (Str k :: p)] | _ => go m end
                        end) m
  | v => [leaf_at p v]
  end.

(** The same, element by element. *)
Fixpoint elem_events (p : list Value) (i : nat) (l : list Value) : list Value :=
  match l with
  | [] => []
  | w :: l =>
      events (num (index i) :: p) w ++ match l with [] => [closing (num (index i) :: p)] | _ => elem_events p (S i) l end
  end.
Fixpoint field_events (p : list Value) (m : list (str * Value)) : list Value :=
  match m with
  | [] => []
  | (k, w) :: m => events (Str k :: p) w ++ match m with [] => [closing (Str k :: p)] | _ => field_events p m end
  end.
Lemma events_arr p l : l ≠ [] → events p (Arr l) = elem_events p 0 l.
Proof.
  intros Hl. cbn [events]. rewrite bool_decide_eq_false_2 by done. clear Hl. generalize 0%nat. induction l as [|w l IH]; intros i; [done|].
  cbn [elem_events]. f_equal. destruct l; [done|apply IH].
Qed.
Lemma events_obj p m : m ≠ [] → events p (Obj m) = field_events p m.
Proof.
  intros Hm. cbn [events]. rewrite bool_decide_eq_false_2 by done. clear Hm. induction m as [|[k w] m IH]; [done|].
  cbn [field_events]. f_equal. destruct m; [done|apply IH].
Qed.

Definition scalar_value (v : Value) : bool := match v with Arr _ | Obj _ => false | _ => true end.
Lemma events_scalar p v : scalar_value v = true → events p v = [leaf_at p v].
Proof. by destruct v. Qed.

(** ** The machine *)

Definition smk (p : list Value) (v : option Value) (t : str) (ls : Last) : Core := mk_core [] v t Normal p ls None.

Definition after (p : list Value) : Last := match p with [] => LNone | _ => LValue end.
Lemma after_close_smk p v t ls : after_close (smk p v t ls) = after p.
Proof. by destruct p. Qed.

(** A scalar read, or a literal that waits for its end. *)
Definition ssettled (p : list Value) (v : Value) (c : Core) : Prop := st c = Normal ∧ check_literal true c = Ok (smk p (Some v) [] (after p)).

(** Where a value may start. *)
Definition opens (p : list Value) (ls : Last) : Prop :=
  ls ≠ LValue ∧ ls ≠ OpenObject ∧ (ls = Comma → is_number (head p) = true).

(** What a text does where a value starts: a scalar waits for what follows, a container has said its events. *)
Definition sreads (p : list Value) (t : str) (v : Value) : Prop :=
  ∀ ls, opens p ls → ∃ out c, run true t (smk p None [] ls) = Some (out, c) ∧
    if scalar_value v then out = [] ∧ ssettled p v c else out = events p v ∧ c = smk p None [] (after p).

Lemma smk_idle p t ls : idle true (smk p None t ls).
Proof. unfold idle. cbn [done_ fst]. unfold stream_done. by destruct p. Qed.
Lemma smk_idle_value p v t ls : p ≠ [] → idle true (smk p (Some v) t ls).
Proof. unfold idle. cbn [done_ fst]. unfold stream_done. by destruct p. Qed.

(** A byte outside strings and literals, by what has been read before it. *)
Lemma sstep ch c c1 c2 : st c = Normal → check_literal true c = Ok c1 → idle true c1 → classify ch = Structure → token_ch true ch c1 = Ok c2 →
  run true [ch] c = Some (option_list (done_ true c2).1 ++ (flush true (done_ true c2).2).1, (flush true (done_ true c2).2).2).
Proof.
  intros Hn Hc Hi Hcls Ht. destruct (done_ true c2) as [o c3] eqn:Ed. cbn [fst snd]. apply run_one; [by rewrite Hn|].
  unfold core_step. rewrite bool_decide_eq_true_2 by done. unfold scan_normal. rewrite Hcls, bool_decide_eq_false_2 by done.
  rewrite Hc. cbn [mbind result_bind]. rewrite idle_done by done. cbn [mbind result_bind]. rewrite Ht. cbn [mbind result_bind done_if]. by rewrite Ed.
Qed.
Lemma sblank b c c1 : st c = Normal → check_literal true c = Ok c1 → idle true c1 → classify b = Whitespace → run true [b] c = Some ([], c1).
Proof.
  intros Hn Hc Hi Hcls. apply run_quiet; [by rewrite Hn| |done]. unfold core_step. rewrite bool_decide_eq_true_2 by done.
  unfold scan_normal. rewrite Hcls, bool_decide_eq_false_2, Hc by done. cbn [mbind result_bind]. rewrite idle_done by done. cbn [mbind result_bind done_if].
  by rewrite idle_done.
Qed.
Lemma sblanks w c : blank w → st c = Normal → token c = [] → idle true c → run true w c = Some ([], c).
Proof.
  intros Hw Hn Ht Hi. induction Hw as [|b w Hb _ IH]; [done|]. change (b :: w) with ([b] ++ w).
  assert (run true [b] c = Some ([], c)) as E; [|by rewrite (run_app _ _ _ _ _ _ _ _ E IH)].
  apply sblank; [done| |done|done]. unfold check_literal. by rewrite Ht.
Qed.

(** After a value in a container: its events so far, and what stands there. *)
Definition sdone (p : list Value) (v : Value) (c : Core) : Prop := ssettled p v c ∧ scalar_value v = true ∨ c = smk p None [] (after p) ∧ scalar_value v = false.
Definition said (p : list Value) (v : Value) : list Value := if scalar_value v then [] else events p v.

Lemma sreads_done p t v ls : opens p ls → sreads p t v → ∃ c, run true t (smk p None [] ls) = Some (said p v, c) ∧ sdone p v c.
Proof.
  intros Ho H. destruct (H ls Ho) as (out & c & E & Hv). unfold said, sdone. exists c. destruct (scalar_value v); destruct Hv as [-> Hc]; auto.
Qed.
Lemma sdone_blanks p v w c : p ≠ [] → blank w → sdone p v c → ∃ c', run true w c = Some ([], c') ∧ sdone p v c'.
Proof.
  intros Hp Hw [[[Hn Hc] Hs]|[-> Hs]].
  - destruct w as [|b w]; [exists c; split; [done|by left]|]. apply Forall_cons in Hw as [Hb Hw].
    exists (smk p (Some v) [] (after p)). split; [|by left].
    pose proof (sblank b c _ Hn Hc (smk_idle_value _ _ _ _ Hp) Hb) as E1.
    pose proof (sblanks w (smk p (Some v) [] (after p)) Hw eq_refl eq_refl (smk_idle_value _ _ _ _ Hp)) as E2.
    change (b :: w) with ([b] ++ w). by rewrite (run_app _ _ _ _ _ _ _ _ E1 E2).
  - eexists. split; [by apply sblanks; [|done|done|apply smk_idle]|by right].
Qed.

(** What follows a value says what is left of its events. *)
Definition unsaid (p : list Value) (v : Value) : list Value := if scalar_value v then [leaf_at p v] else [].
Lemma said_unsaid p v : said p v ++ unsaid p v = events p v.
Proof. unfold said, unsaid. destruct (scalar_value v) eqn:E; [by rewrite events_scalar|by rewrite app_nil_r]. Qed.

Lemma array_comma x q v c : sdone (num x :: q) v c → run true [44] c = Some (unsaid (num x :: q) v, smk (num (fadd x fone) :: q) None [] Comma).
Proof.
  unfold unsaid. intros [[[Hn Hc] ->]|[-> ->]].
  - rewrite (sstep 44 c _ (mk_core [] None [] Normal (num (fadd x fone) :: q) Comma (Some [at_path (num x :: q); v])) Hn Hc); done.
  - rewrite (sstep 44 _ (smk (num x :: q) None [] LValue) (smk (num (fadd x fone) :: q) None [] Comma)); done.
Qed.
Lemma array_close x q v c : sdone (num x :: q) v c →
  run true [93] c = Some (unsaid (num x :: q) v ++ [closing (num x :: q)], smk q None [] (after q)).
Proof.
  unfold unsaid. intros [[[Hn Hc] ->]|[-> ->]].
  - rewrite (sstep 93 c _ (mk_core [] None [] Normal q (after q) (Some [at_path (num x :: q); v; Bool true])) Hn Hc); try done; by destruct q.
  - rewrite (sstep 93 _ (smk (num x :: q) None [] LValue) (mk_core [] None [] Normal q (after q) (Some [at_path (num x :: q)]))); try done; by destruct q.
Qed.
Lemma object_comma k q v c : sdone (Str k :: q) v c → run true [44] c = Some (unsaid (Str k :: q) v, smk (Null :: q) None [] Comma).
Proof.
  unfold unsaid. intros [[[Hn Hc] ->]|[-> ->]].
  - rewrite (sstep 44 c _ (mk_core [] None [] Normal (Null :: q) Comma (Some [at_path (Str k :: q); v])) Hn Hc); done.
  - rewrite (sstep 44 _ (smk (Str k :: q) None [] LValue) (smk (Null :: q) None [] Comma)); done.
Qed.
Lemma object_close k q v c : sdone (Str k :: q) v c →
  run true [125] c = Some (unsaid (Str k :: q) v ++ [closing (Str k :: q)], smk q None [] (after q)).
Proof.
  unfold unsaid. intros [[[Hn Hc] ->]|[-> ->]].
  - rewrite (sstep 125 c _ (mk_core [] None [] Normal q (after q) (Some [at_path (Str k :: q); v; Bool true])) Hn Hc); try done; by destruct q.
  - rewrite (sstep 125 _ (smk (Str k :: q) None [] LValue) (mk_core [] None [] Normal q (after q) (Some [at_path (Str k :: q)]))); try done; by destruct q.
Qed.

Lemma array_open p ls : opens p ls → run true [91] (smk p None [] ls) = Some ([], smk (num fzero :: p) None [] OpenArray).
Proof.
  intros (H1 & H2 & H3). rewrite (sstep 91 _ (smk p None [] ls) (smk (num fzero :: p) None [] OpenArray)); try done; [apply smk_idle|].
  cbn [token_ch]. change (stream_token 91 (smk p None [] ls)) with (stream_open_array (smk p None [] ls)). unfold stream_open_array. cbn [next last_seen smk].
  rewrite !bool_decide_eq_false_2 by done. case_bool_decide as E; [|done]. change (top_is_num (smk p None [] ls)) with (is_number (head p)). by rewrite H3.
Qed.
Lemma object_open p ls : opens p ls → run true [123] (smk p None [] ls) = Some ([], smk (Null :: p) None [] OpenObject).
Proof.
  intros (H1 & H2 & H3). rewrite (sstep 123 _ (smk p None [] ls) (smk (Null :: p) None [] OpenObject)); try done; [apply smk_idle|].
  cbn [token_ch]. change (stream_token 123 (smk p None [] ls)) with (stream_open_object (smk p None [] ls)). unfold stream_open_object. cbn [next last_seen smk].
  rewrite !(bool_decide_eq_false_2 (ls = _)) by done. case_bool_decide as E; [|done]. change (top_is_num (smk p None [] ls)) with (is_number (head p)). by rewrite H3.
Qed.

(** ** Containers *)

Lemma smk_blanks w p ls : blank w → run true w (smk p None [] ls) = Some ([], smk p None [] ls).
Proof. intros Hw. apply sblanks; [done|done|done|apply smk_idle]. Qed.

Lemma stream_array_rest fm level q w ts vs : blank w → Forall2 (λ t v, ∀ j, sreads (num (index j) :: q) t v) ts vs → ∀ i v c,
  sdone (num (index i) :: q) v c → run true (joined fm level false ts ++ w ++ [93]) c =
    Some (unsaid (num (index i) :: q) v ++ match vs with [] => [closing (num (index i) :: q)] | _ => elem_events q (S i) vs end,
          smk q None [] (after q)).
Proof.
  intros Hw. induction 1 as [|t v1 ts vs Ht _ IH]; intros i v c Hc; cbn [joined app].
  - destruct (sdone_blanks (num (index i) :: q) v w c ltac:(done) Hw Hc) as (c1 & E1 & Hc1). by rewrite (run_app _ _ _ _ _ _ _ _ E1 (array_close _ _ _ _ Hc1)).
  - pose proof (array_comma _ _ _ _ Hc) as E1. change (fadd (index i) fone) with (index (S i)) in E1.
    pose proof (smk_blanks _ (num (index (S i)) :: q) Comma (newline_blank fm level)) as E2.
    destruct (sreads_done (num (index (S i)) :: q) t v1 Comma ltac:(by split_and!) (Ht (S i))) as (c3 & E3 & Hc3). pose proof (IH (S i) v1 c3 Hc3) as E4.
    rewrite <-!app_assoc. cbn [app].
    etransitivity; [exact (run_app _ [44] _ _ _ _ _ _ E1 (run_app _ _ _ _ _ _ _ _ E2 (run_app _ _ _ _ _ _ _ _ E3 E4)))|].
    cbn [elem_events app]. rewrite <-(said_unsaid (num (index (S i)) :: q) v1). by rewrite <-!app_assoc.
Qed.
Lemma sreads_array fm level p ts vs : ts ≠ [] → Forall2 (λ t v, ∀ j, sreads (num (index j) :: p) t v) ts vs →
  sreads p ([91] ++ joined fm (S level) true ts ++ newline fm level ++ [93]) (Arr vs).
Proof.
  intros Hne H ls Ho. destruct H as [|t v ts vs Ht H]; [done|]. cbn [joined app scalar_value].
  pose proof (array_open p ls Ho) as E1. pose proof (smk_blanks _ (num (index 0) :: p) OpenArray (newline_blank fm (S level))) as E2.
  destruct (sreads_done (num (index 0) :: p) t v OpenArray ltac:(by split_and!) (Ht 0%nat)) as (c3 & E3 & Hc3).
  pose proof (stream_array_rest fm (S level) p _ ts vs (newline_blank fm level) H 0%nat v c3 Hc3) as E4.
  rewrite <-!app_assoc. eexists _, _. split; [exact (run_app _ [91] _ _ _ _ _ _ E1 (run_app _ _ _ _ _ _ _ _ E2 (run_app _ _ _ _ _ _ _ _ E3 E4)))|].
  split; [|done]. rewrite events_arr by done. cbn [elem_events app]. rewrite <-(said_unsaid (num (index 0) :: p) v). by rewrite <-!app_assoc.
Qed.
Lemma sreads_empty_array p : sreads p (lit "[" ++ lit "]") (Arr []).
Proof.
  intros ls Ho. pose proof (array_open p ls Ho) as E1.
  assert (run true [93] (smk (num fzero :: p) None [] OpenArray) = Some ([leaf_at p (Arr [])], smk p None [] (after p))) as E2.
  { rewrite (sstep 93 _ (smk (num fzero :: p) None [] OpenArray) (mk_core [] None [] Normal p (after p) (Some [at_path p; Arr []]))); try done; by destruct p. }
  eexists _, _. split; [exact (run_app _ [91] _ _ _ _ _ _ E1 E2)|]. done.
Qed.

(** A key and its colon, where one may stand. *)
Lemma stream_key fm q k ls : text_ok k → ls = OpenObject ∨ ls = Comma →
  run true (key_text fm k) (smk (Null :: q) None [] ls) = Some ([], smk (Str k :: q) None [] Colon).
Proof.
  intros Hk Hls. unfold key_text.
  assert (take_value true (Str k) (smk (Null :: q) None [] ls) = Ok (smk (Null :: q) (Some (Str k)) [] LValue)) as Et by (by destruct Hls as [-> | ->]).
  pose proof (run_string true (ascii fm) k (smk (Null :: q) None [] ls) (smk (Null :: q) (Some (Str k)) [] LValue) Hk eq_refl eq_refl (smk_idle (Null :: q) [] ls) Et) as E1.
  change (done_ true (smk (Null :: q) (Some (Str k)) [] LValue)) with (@None Value, smk (Null :: q) (Some (Str k)) [] LValue) in E1.
  change (flush true (None, smk (Null :: q) (Some (Str k)) [] LValue).2) with (@nil Value, smk (Null :: q) (Some (Str k)) [] LValue) in E1.
  assert (run true [58] (smk (Null :: q) (Some (Str k)) [] LValue) = Some ([], smk (Str k :: q) None [] Colon)) as E2.
  { by rewrite (sstep 58 _ (smk (Null :: q) (Some (Str k)) [] LValue) (smk (Str k :: q) None [] Colon)). }
  assert (run true (if pretty fm then [32] else []) (smk (Str k :: q) None [] Colon) = Some ([], smk (Str k :: q) None [] Colon)) as E3.
  { apply smk_blanks. destruct (pretty fm); by repeat constructor. }
  exact (run_app _ _ _ _ _ _ _ _ E1 (run_app _ _ _ _ _ _ _ _ E2 E3)).
Qed.

Definition field_streams (fm : Fmt) (q : list Value) (t : str) (e : str * Value) : Prop :=
  ∃ tv, t = key_text fm e.1 ++ tv ∧ text_ok e.1 ∧ sreads (Str e.1 :: q) tv e.2.

Lemma stream_object_rest fm level q w ts es : blank w → Forall2 (field_streams fm q) ts es → ∀ k v c, sdone (Str k :: q) v c →
  run true (joined fm level false ts ++ w ++ [125]) c =
    Some (unsaid (Str k :: q) v ++ match es with [] => [closing (Str k :: q)] | _ => field_events q es end, smk q None [] (after q)).
Proof.
  intros Hw. induction 1 as [|t [k1 v1] ts es (tv & -> & Hk & Hv) _ IH]; intros k v c Hc; cbn [joined app].
  - destruct (sdone_blanks (Str k :: q) v w c ltac:(done) Hw Hc) as (c1 & E1 & Hc1). by rewrite (run_app _ _ _ _ _ _ _ _ E1 (object_close _ _ _ _ Hc1)).
  - cbn [fst snd] in *. pose proof (object_comma _ _ _ _ Hc) as E1.
    pose proof (smk_blanks _ (Null :: q) Comma (newline_blank fm level)) as E2. pose proof (stream_key fm q k1 Comma Hk ltac:(by right)) as E3.
    destruct (sreads_done (Str k1 :: q) tv v1 Colon ltac:(by split_and!) Hv) as (c4 & E4 & Hc4). pose proof (IH k1 v1 c4 Hc4) as E5.
    rewrite <-!app_assoc. cbn [app].
    etransitivity; [exact (run_app _ [44] _ _ _ _ _ _ E1 (run_app _ _ _ _ _ _ _ _ E2 (run_app _ _ _ _ _ _ _ _ E3 (run_app _ _ _ _ _ _ _ _ E4 E5))))|].
    cbn [field_events app]. rewrite <-(said_unsaid (Str k1 :: q) v1). by rewrite <-!app_assoc.
Qed.
Lemma sreads_object fm level p ts es : ts ≠ [] → Forall2 (field_streams fm p) ts es →
  sreads p ([123] ++ joined fm (S level) true ts ++ newline fm level ++ [125]) (Obj es).
Proof.
  intros Hne H ls Ho. destruct H as [|t [k v] ts es (tv & -> & Hk & Hv) H]; [done|]. cbn [joined app scalar_value fst snd] in *.
  pose proof (object_open p ls Ho) as E1. pose proof (smk_blanks _ (Null :: p) OpenObject (newline_blank fm (S level))) as E2.
  pose proof (stream_key fm p k OpenObject Hk ltac:(by left)) as E3.
  destruct (sreads_done (Str k :: p) tv v Colon ltac:(by split_and!) Hv) as (c4 & E4 & Hc4).
  pose proof (stream_object_rest fm (S level) p _ ts es (newline_blank fm level) H k v c4 Hc4) as E5.
  rewrite <-!app_assoc. eexists _, _.
  split; [exact (run_app _ [123] _ _ _ _ _ _ E1 (run_app _ _ _ _ _ _ _ _ E2 (run_app _ _ _ _ _ _ _ _ E3 (run_app _ _ _ _ _ _ _ _ E4 E5))))|].
  split; [|done]. rewrite events_obj by done. cbn [field_events app]. rewrite <-(said_unsaid (Str k :: p) v). by rewrite <-!app_assoc.
Qed.
Lemma sreads_empty_object p : sreads p (lit "{" ++ lit "}") (Obj []).
Proof.
  intros ls Ho. pose proof (object_open p ls Ho) as E1.
  assert (run true [125] (smk (Null :: p) None [] OpenObject) = Some ([leaf_at p (Obj [])], smk p None [] (after p))) as E2.
  { rewrite (sstep 125 _ (smk (Null :: p) None [] OpenObject) (mk_core [] None [] Normal p (after p) (Some [at_path p; Obj []]))); try done; by destruct p. }
  eexists _, _. split; [exact (run_app _ [123] _ _ _ _ _ _ E1 E2)|]. done.
Qed.

(** ** Printed values *)

Lemma sreads_literal p t v : scalar_value v = true → literal_of t v → p ≠ [] → sreads p t v.
Proof.
  intros Hv [Ht Hc] Hp ls (H1 & _ & _). pose proof (run_literal true t (smk p None [] ls) Ht eq_refl (smk_idle p [] ls)) as E.
  eexists _, _. split; [exact E|]. rewrite Hv. split; [done|]. split; [done|]. rewrite Hc by done.
  unfold take_value. cbn [next last_seen set_token smk]. rewrite !bool_decide_eq_false_2 by (done || by intros [? ?]). cbn [orb]. by destruct p.
Qed.
Lemma sreads_string p a x : text_ok x → p ≠ [] → sreads p (dump_string x a) (Str x).
Proof.
  intros Hx Hp ls (H1 & _ & _).
  assert (take_value true (Str x) (smk p None [] ls) = Ok (smk p (Some (Str x)) [] LValue)) as Et.
  { unfold take_value. cbn [next last_seen smk]. rewrite !bool_decide_eq_false_2 by (done || by intros [? ?]). cbn [orb]. by destruct p. }
  pose proof (run_string true a x (smk p None [] ls) (smk p (Some (Str x)) [] LValue) Hx eq_refl eq_refl (smk_idle p [] ls) Et) as E.
  rewrite idle_done in E by by apply smk_idle_value. cbn [fst snd] in E. rewrite idle_flush in E by by apply smk_idle_value.
  eexists _, _. split; [exact E|]. split; [done|]. split; [done|]. destruct p; [done|]. done.
Qed.

Lemma num_printed_scalar x : scalar_value (num_printed x) = true.
Proof. unfold num_printed, double_printed. by repeat case_match. Qed.
Lemma sreads_printed fm v : colors fm = None → ∀ n level p, printable v → (depth v < n)%nat → scalar_value v = false ∨ p ≠ [] →
  sreads p (dump_into n fm level v) (printed fm v).
Proof.
  intros Hc. induction v as [|b|x|x|l IH|m IH] using value_induction; intros [|n] level p Hp Hd Hs; try lia; cbn [dump_into printed].
  - rewrite plain_colored by done. destruct Hs; [done|]. apply sreads_literal; [done|apply word_literal; set_solver|done].
  - destruct Hs; [done|]. destruct b; rewrite plain_colored by done; (apply sreads_literal; [done|apply word_literal; set_solver|done]).
  - destruct Hs; [done|]. rewrite plain_colored by done. apply sreads_literal; [apply num_printed_scalar|by apply number_printed|done].
  - destruct Hs; [done|]. rewrite plain_colored by done. by apply sreads_string.
  - clear Hs. cbn [printable depth] in *. rewrite foldr_Forall in Hp. apply Nat.succ_lt_mono in Hd. destruct (decide (l = [])) as [->|Hne].
    { unfold container. rewrite bool_decide_eq_true_2, plain_colored by done. apply sreads_empty_array. }
    rewrite plain_container by (by try destruct l). apply sreads_array; [by destruct l|].
    assert (Forall (λ v, depth v < n)%nat l) as Hdl.
    { assert (foldr (λ v d, depth v `max` d)%nat 0%nat l ≤ pred n)%nat as H by lia. apply foldr_max_le in H. eapply Forall_impl; [exact H|]. cbn beta. lia. }
    apply Forall2_fmap. apply Forall_Forall2_diag. rewrite !Forall_forall in *. intros v Hv j. apply IH; auto.
  - clear Hs. cbn [printable depth] in *. rewrite foldr_Forall in Hp. destruct Hp as [Hnd Hp]. apply Nat.succ_lt_mono in Hd. destruct (decide (m = [])) as [->|Hne].
    { assert (print_order fm [] = []) as Ho by (unfold print_order; by destruct (sort fm)). cbn [fmap list_fmap]. rewrite Ho.
      unfold container. rewrite bool_decide_eq_true_2, plain_colored by done. apply sreads_empty_object. }
    assert (print_order fm m ≠ []) as Hne'.
    { intros E. pose proof (print_order_keys fm m) as Hk. rewrite E in Hk. apply Permutation_nil in Hk. by destruct m. }
    rewrite print_order_map. set (es := print_order fm m) in *. rewrite plain_container by (by try destruct es).
    assert (Forall (λ e : str * Value, depth e.2 < n)%nat m) as Hdm.
    { assert (foldr (λ e d, depth e.2 `max` d)%nat 0%nat m ≤ pred n)%nat as H by lia. apply (foldr_max_le (λ e, depth e.2)) in H.
      eapply Forall_impl; [exact H|]. cbn beta. lia. }
    apply sreads_object; [by destruct es|].
    apply Forall2_fmap. apply Forall_Forall2_diag. rewrite !Forall_forall in *. intros e He%print_order_elem.
    exists (dump_into n fm (S level) e.2). destruct (Hp e He) as [Hk Hpe]. split_and!; [by rewrite plain_key|done|]. cbn [fst snd].
    apply IH; auto.
Qed.

Lemma scalar_printed fm v : scalar_value (printed fm v) = scalar_value v.
Proof. destruct v; try done. apply num_printed_scalar. Qed.

(** What the machine says of a value printed at the top. *)
Lemma stream_top fm n v e : colors fm = None → printable v → (depth v < S n)%nat →
  reading (dump_into (S n) fm 0 v) (start false (Some e)) = NValue <$> events [] (printed fm v).
Proof.
  intros Hc Hp Hd. destruct (dump_starts fm n 0 v Hc Hp) as (b & u & Et & Hb). set (t := dump_into (S n) fm 0 v) in *.
  assert (∃ out c, run true t (smk [] None [] LNone) = Some (out, c) ∧
    (out = events [] (printed fm v) ∧ c = smk [] None [] LNone ∨
     out = [] ∧ st c = Normal ∧ check_literal true c = Ok (smk [] (Some (printed fm v)) [] LNone) ∧ events [] (printed fm v) = [leaf_at [] (printed fm v)])) as (out & c & E & H).
  { destruct (scalar_value v) eqn:Es.
    - assert (literal_of t (printed fm v) ∨ ∃ x, v = Str x ∧ t = dump_string x (ascii fm)) as Hl.
      { unfold t. cbn [dump_into]. destruct v as [|[]|x|x|l|m]; try done; rewrite plain_colored by done; [left; apply word_literal; set_solver..| |right; by eexists].
        left. by apply number_printed. }
      rewrite events_scalar by (by rewrite scalar_printed). destruct Hl as [[Hl1 Hl2]|(x & -> & ->)].
      + pose proof (run_literal true t (smk [] None [] LNone) Hl1 eq_refl eq_refl) as E. eexists _, _. split; [exact E|]. right. split_and!; try done. by rewrite Hl2.
      + pose proof (run_string true (ascii fm) x (smk [] None [] LNone) (smk [] (Some (Str x)) [] LNone) Hp eq_refl eq_refl eq_refl eq_refl) as E.
        eexists _, _. split; [exact E|]. by left.
    - destruct (sreads_printed fm v Hc (S n) 0%nat [] Hp Hd (or_introl Es) LNone) as (out & c & E & H); [by split_and!|].
      rewrite scalar_printed, Es in H. exists out, c. split; [exact E|]. by left. }
  unfold reading, intake. change (dead (start false (Some e))) with false. change (bom (start false (Some e))) with 0%nat.
  change (seq (start false (Some e))) with false. cbv iota.
  assert (strip_bom 0 t = (3%nat, t)) as ->.
  { rewrite Et. cbn [strip_bom Nat.leb]. rewrite bool_decide_eq_false_2; [done|]. intros [= ?]. lia. }
  change (3 =? 255)%nat with false. cbv iota. set (p := with_bom 3 (start false (Some e))).
  destruct (emits_run t p out c eq_refl eq_refl E) as (q & -> & Hq & Hs & Hdq & Hst). unfold final. rewrite Hdq.
  unfold at_end. cbn [core with_eof streaming seq last_ch_was_ws]. rewrite Hq, Hst, Hs. change (streaming p) with true.
  destruct H as [[-> ->]|(-> & Hn & Hcl & ->)]; [cbn; by rewrite app_nil_r|]. rewrite Hn, Hcl. done.
Qed.

(** C28: with [--stream] jq says of a text it has printed the events of the value: the path and value of every scalar and
    empty container, in order, and the path of the last element where a container ends; in whatever pieces the text
    comes, with [--stream-errors] or without, and however deep the value is, where only the printer has a limit. *)
Theorem jq_stream_events v fm errors pieces :
  colors fm = None → printable v → (depth v ≤ MAX_PRINT_DEPTH)%nat → mjoin pieces = dump v fm →
  session (start false (Some errors)) pieces (NValue <$> events [] (printed fm v)).
Proof.
  intros Hc Hp Hd Hpieces. destruct (session_reading pieces _ (start_ready false (Some errors))) as (ns & H & ->).
  rewrite Hpieces in H. unfold dump in H. by rewrite stream_top in H by (done || lia).
Qed.

Lemma jq_stream_events_witness :
  session (start false (Some true)) [take 20 (dump sample sample_fmt); drop 20 (dump sample sample_fmt)]
    (NValue <$> events [] (printed sample_fmt sample)) ∧
  length (events [] (printed sample_fmt sample)) = 7%nat.
Proof.
  split; [|vm_compute; reflexivity].
  apply jq_stream_events; [reflexivity|apply sample_printable|apply Nat.leb_le; vm_compute; reflexivity|].
  cbn [mjoin list_join]. rewrite app_nil_r. apply take_drop.
Defined.
